(* ===== verification/_CoqProject ===== *)
-Q . S2P
Prelude.v
Random.v
Status.v
Coding.v
Crc32cTables.v
Crc32c.v
Hash.v
Comparator.v
Logging.v
FilterPolicy.v
DbFormat.v
SkipList.v
MemTable.v
WriteBatch.v
Env.v
LogFile.v
Format.v
Iterator.v
Block.v
Merger.v
TwoLevelIterator.v
FilterBlock.v
TableBuilder.v
Cache.v
Table.v
VersionEdit.v
FileName.v
Children.v
DBIter.v
Version.v
VersionRead.v
VersionBuilder.v
VersionSet.v
Manifest.v
Compaction.v
TableCache.v
MapFS.v
MemEnv.v
Snapshot.v
Arena.v
History.v
Iterates.v
TableFiles.v
CompactionRun.v
VersionChange.v
CompactionWork.v
DbImpl.v
Repair.v
Dump.v
DbStep.v
DbFiles.v
DbData.v
DbDisk.v
DbQueue.v
DbRefine.v
DbOpen.v
DbTheorems.v
DbDurable.v
DbRecover.v
DbReopen.v
DbSessions.v
DbLive.v
RepairSpec.v
