(* ===== verification/Prelude.v ===== *)
(** * LevelDB-23: a verification library

    LevelDB-23 (src/) is a C++23 port of LevelDB: an embedded ordered map from byte
    strings to byte strings, kept in memory and in files.  This library translates
    its code to Rocq definitions, function by function, and proves what makes them
    correct.  This comment is the guide to it.

    ** The program and the files of this library

    The data path, from the bottom up.  For every file: the sources it models, and how.

    - [Prelude]: bytes, machine integers with their wrap-around ([wrap], [u32], [u64],
      [s32], [s64]), lists measured in [Z], the error monad, shared lemmas, tactics and
      hint databases.
    - [Status] (status.h): error codes, [Status] as an optional error, [Result].
    - [Coding] (util/coding): fixed-width integers, varints, length-prefixed strings.
    - [Crc32cTables], [Crc32c] (util/crc32c): the tables, the strided loop, the masks.
    - [Hash], [Logging], [Random], [Arena] (util/): the hash, numbers and escapes as
      text, the random source over the generator of the standard library, and the bump
      allocator with its addresses.
    - [Comparator], [FilterPolicy] (comparator.h, filter_policy.h, util/bloom.cc): the
      interfaces as type classes with their contracts, the bytewise order, Bloom filters.
    - [DbFormat] (db/dbformat): internal keys, their order, lookup keys.
    - [SkipList], [MemTable], [WriteBatch] (db/): the skip list as a heap of nodes,
      changed store by store; the memtable; batches as their bytes.
    - [Env], [MapFS] (env.h): files and file systems as type classes with laws, and a
      file system in memory that satisfies the laws.
    - [LogFile] (db/log_format.h, log_writer.h, log_reader.h): the writer and the reader of logs.
    - [Format], [Iterator], [Block], [Merger], [TwoLevelIterator], [FilterBlock],
      [TableBuilder], [Table] (table/): the table format, its blocks, iterators, builder
      and reader.
    - [Cache], [TableCache] (util/cache.cc, db/table_cache): the sharded LRU cache with
      its hash table, lists and reference counts; the opened tables.
    - [VersionEdit], [FileName], [Version], [VersionBuilder], [VersionSet], [Compaction]
      (db/version_edit, db/filename, db/version_set): the records of the MANIFEST, the
      files of the levels and how they are searched, changed, logged, recovered and
      picked for compaction.
    - [DBIter] (db/db_iter): the iterator of the user.
    - [Snapshot] (db/snapshot.h): the list of snapshots, pointer by pointer.
    - [TableFiles] (db/builder): writing a table from an iterator; [CompactionRun],
      [CompactionWork]: [DBImpl::DoCompactionWork].
    - [DbImpl] (db/db_impl): the state of a database and its operations.
    - [Repair], [RepairSpec] (db/repair.cc): the repairer, and what it salvages.
    - [Dump] (db/dumpfile.cc): the text that describes a log, a MANIFEST or a table.
    - [MemEnv] (helpers/memenv): the file system in memory, with its blocks, reference
      counts and handles, and a map of names to bytes as its specification.

    The files that only hold proofs: [VersionRead] (lookups in a version), [Manifest]
    (what is logged is recovered), [History] (what a database has to answer),
    [Iterates] (scans; also the iterator of the memtable), [VersionChange] (versions after flushes and
    compactions), [DbFiles], [DbData], [DbQueue] (the three parts of the invariant of a
    database), [DbDisk] (its fourth part: the MANIFEST, CURRENT and the logs hold what a
    recovery needs), [Children] (the names in the directory), [DbStep] (the steps of the
    threads, and the specification), [DbRefine], [DbOpen], [DbTheorems], [DbDurable],
    [DbRecover], [DbReopen], [DbSessions], [DbLive].

    ** How the code is modelled

    Objects are records, enums inductive types, pure functions are functions, and an
    operation on an object takes its state and returns the state after it.  Errors are
    values ([Result], or a [Status] field where the code keeps one).  Pointers are
    modelled where the code shares or relinks objects (skip list, LRU cache, snapshot
    list, writer queue, arena, memory files): a heap is a finite map from addresses.
    Loops that are not structural take fuel and answer [None] when it runs out; every theorem
    about them shows that stated fuel is enough.  What is not code of the repository is
    a parameter: the file system, the memory allocator, the random generator, the
    compression libraries, and the SSE4.2 instructions.  Their documented behaviour is
    a class of laws ([FileSystemLaws], [MallocLaws], ...), and every theorem that needs
    laws has a witness at a concrete instance.  The laws leave out I/O errors: making and
    writing files succeeds, and so does renaming a file that was written and listing a
    directory with a file in it.  Assertions of the code are not part of the
    operations; those that decide what an operation means are definitions of their own
    ([ExtractUserKey_asserts], [InternalKey_Encode_asserts], [VersionEdit_EncodeTo_asserts]).

    The database ([DbImpl], [DbStep]) is a transition system.  A step of a thread goes
    from one place where the code waits or releases the mutex to the next: a writer
    enters the queue; the front writer makes room; it writes its group to the log and
    the memtable; it publishes the group.  A read ([Get]), and a turn of the background
    thread together with the part of it that runs without the mutex, are one step each.
    A turn of the background thread may see the destructor begin ([StBackground], [stopped]).
    An iterator of a table carries the block cache from the time it was opened on, and looks up
    and inserts every block that it reaches; that cache is its own copy.
    What is written through an open handle stays in the handle until [fs_Written], which
    stands for the writes reaching the file.

    ** What is proved

    - The database.  [database_refines]: from a new directory, every legal interleaving of
      writers, readers, snapshots, flushes and compactions shows only what an atomic
      map with snapshots shows.  Its invariant [DbOk] has four parts: [FilesOk] (the
      versions, the tables on disk, and the caches agree), [DataOk] (the memtables and
      tables hold the history of writes, up to what no reader can see), [QueueOk] and
      [DiskOk] (what is on disk is enough to recover the state).  [sessions_durable]: a
      database that is closed between two steps ([DBImpl_close]) and opened again, any number
      of times, has all writes of the sessions before.  It rests on [Recover_recorded]
      (the MANIFEST gives the version back), [logs_to_recover_live] (the directory gives
      the right logs) and [recover_logs_ok] (each log becomes a table on level 0), and on
      [DB_Open_fuel] (more fuel than is needed changes nothing).
      [log_recovers_memtable]: the log rebuilds the memtable.  [write_completes]: the
      front writer gets through after at most one turn of the background thread.
      [unscheduled_writer_stalls], [compaction_of_nothing] and [shutdown_cuts_compaction]
      show where the code fails; [emptied_database_cannot_reopen] is a run of the second.
    - Logs and MANIFEST.  What was written before a crash is read back, up to the last
      whole record; damaged records are not returned; the reader ends on any bytes; the
      recovered version is the one that was logged.
    - Tables.  Builder and reader agree: iteration and lookups through blocks, filters,
      caches and the table cache give the entries that were added.
    - Versions and compactions.  A lookup gives the newest visible entry; the builder
      refines the application of edits to a map; the inputs of a compaction are closed,
      and the pick stays in bounds.
    - Iterators.  Blocks, tables, levels, mergers and the user's iterator refine a
      cursor over a sorted list.
    - Memory.  The skip list refines a sorted list, also for readers in the middle of an
      insertion; the LRU cache keeps its pointers, counts and charges; snapshots and the
      arena are well formed.
    - Encodings.  Round trips of varints, batches, edits, file names; checksums equal the
      bitwise definition and detect bursts.
    - Repair.  [repair_salvages]: from readable logs and tables the repairer makes a
      directory that can be opened and has the entries of all of them;
      the examples [repair_hides_keys] and [repair_reverts_values] are runs in which it goes wrong.
    - The file system in memory refines a map from names to bytes
      ([memenv_refines]), but for a call that leaves a null file
      ([appendable_missing_file]).

    ** Bounds

    [database_refines] bounds the steps and the operations of a run by 2^31, so that file
    numbers and sequence numbers stay in their types; keys and values are below 2^32
    bytes, as the code assumes, and tables below 4 GB ([table_fits]).  A step of the
    background thread is legal when what it writes fits a table and, for a compaction,
    when it keeps an entry and no destructor begins before it has read its input: these cases are the defects that
    [compaction_of_nothing] and [shutdown_cuts_compaction] show.  [sessions_durable] has the same bounds for all
    sessions together; opening uses at most five file numbers, and the memtables that a
    session leaves have to fit tables ([memtables_fit]).

    ** Not modelled

    The operating-system calls behind the standard file system (std_file_system),
    the C interface (c.h, c.cc: wrappers), the command-line tools
    (leveldbutil), the tests, and the demonstration program main.cpp.  The
    memory model of the C++ atomics is not modelled: stores and loads are sequentially
    consistent.  The steps of the background thread are not split where it releases the
    mutex.

    ** Plan

    The recovery from files that were cut when power was lost, as a theorem about
    [DB_Open] (for one log it is [log_crash_recovery], for the MANIFEST
    [manifest_recovery]); [DBImpl_NewIterator] against the abstract map; the background
    thread in phases. *)

From stdpp Require Export base numbers list strings gmap.
From Stdlib Require Export ZArith Lia Bool.
From Stdlib Require Import Strings.Byte.

Open Scope Z_scope.

(** ** Bytes

    A C++ [char] buffer, a [std::string] and a [std::string_view] are all lists
    of [Byte.byte].  [bz] is [static_cast<uint8_t>] followed by integer
    promotion, [zb] is the narrowing [static_cast<uint8_t>] / [static_cast<char>]
    of an integer (reduction modulo 256). *)

Abbreviation byte := Byte.byte.
Abbreviation bytes := (list Byte.byte).

Definition bz (b : byte) : Z := Z.of_N (Byte.to_N b).

Definition zb (z : Z) : byte :=
  match Byte.of_N (Z.to_N (z mod 256)) with
  | Some b => b
  | None => Byte.x00
  end.

#[global] Instance byte_eq_dec : EqDecision byte := Byte.byte_eq_dec.
#[global] Instance byte_countable : Countable byte := inj_countable Byte.to_N Byte.of_N Byte.of_to_N.

Lemma bz_range (b : byte) : 0 <= bz b < 256.
Proof.
  unfold bz. pose proof (Byte.to_N_bounded b). lia.
Qed.

Lemma bz_range8 (b : byte) : 0 <= bz b < 2 ^ 8.
Proof. exact (bz_range b). Qed.

Lemma bz_zb (z : Z) : bz (zb z) = z mod 256.
Proof.
  unfold zb, bz. pose proof (Z.mod_pos_bound z 256 ltac:(lia)) as Hb.
  destruct (Byte.of_N (Z.to_N (z mod 256))) as [b|] eqn:E.
  - apply Byte.to_of_N in E. rewrite E. lia.
  - apply Byte.of_N_None_iff in E. lia.
Qed.

Lemma zb_bz (b : byte) : zb (bz b) = b.
Proof.
  unfold zb. pose proof (bz_range b). rewrite Z.mod_small by lia.
  unfold bz. rewrite N2Z.id, Byte.of_to_N. done.
Qed.

Lemma bz_inj (a b : byte) : bz a = bz b -> a = b.
Proof. intros H. rewrite <- (zb_bz a), <- (zb_bz b), H. done. Qed.

Lemma bz_zb_small (z : Z) : 0 <= z < 256 -> bz (zb z) = z.
Proof. intros. rewrite bz_zb. apply Z.mod_small. lia. Qed.

(** ** Machine integers

    A [w]-bit unsigned integer is a [Z]; every operation of the source that can
    leave the range is followed by [wrap w].  [u32]/[u64] are the widths the
    source uses ([size_t] is 64 bits). *)

Definition wrap (w z : Z) : Z := z mod 2 ^ w.
Abbreviation u8 := (wrap 8).
Abbreviation u32 := (wrap 32).
Abbreviation u64 := (wrap 64).

(** [int] arithmetic: two's complement on 32 bits. *)
Definition s32 (z : Z) : Z := (z + 2 ^ 31) mod 2 ^ 32 - 2 ^ 31.
(** [int64_t]. *)
Definition s64 (z : Z) : Z := (z + 2 ^ 63) mod 2 ^ 64 - 2 ^ 63.

Lemma wrap_range (w z : Z) : 0 <= w -> 0 <= wrap w z < 2 ^ w.
Proof. intros. apply Z.mod_pos_bound. lia. Qed.

Lemma wrap_small (w z : Z) : 0 <= z < 2 ^ w -> wrap w z = z.
Proof. intros. apply Z.mod_small. done. Qed.

Lemma wrap_wrap (w z : Z) : 0 <= w -> wrap w (wrap w z) = wrap w z.
Proof. intros. apply wrap_small, wrap_range. done. Qed.

(** Size of a string or vector as the [size_t] the source computes with. *)
Definition zlen {A} (l : list A) : Z := Z.of_nat (length l).

Lemma zlen_nonneg {A} (l : list A) : 0 <= zlen l.
Proof. unfold zlen. lia. Qed.

Lemma zlen_app {A} (l k : list A) : zlen (l ++ k) = zlen l + zlen k.
Proof. unfold zlen. rewrite length_app. lia. Qed.

Lemma zlen_cons {A} (x : A) (l : list A) : zlen (x :: l) = 1 + zlen l.
Proof. unfold zlen. simpl length. lia. Qed.

Lemma zlen_nil {A} : zlen (@nil A) = 0.
Proof. done. Qed.

Lemma zlen_to_nat {A} (l : list A) : Z.to_nat (zlen l) = length l.
Proof. unfold zlen. lia. Qed.

Lemma zlen_0 {A} (l : list A) : zlen l = 0 -> l = [].
Proof. unfold zlen. destruct l; simpl; [done | lia]. Qed.

Lemma fold_left_cons {A B} (f : A -> B -> A) (l : list B) (x : B) (a : A) :
  fold_left f (x :: l) a = fold_left f l (f a x).
Proof. done. Qed.

(** [s.substr(0, n)] / a view of [n] bytes, and [remove_prefix(n)]. *)
Definition ztake {A} (n : Z) (l : list A) : list A := take (Z.to_nat n) l.
Definition zdrop {A} (n : Z) (l : list A) : list A := drop (Z.to_nat n) l.

Lemma ztake_app_exact {A} (l k : list A) : ztake (zlen l) (l ++ k) = l.
Proof. unfold ztake. rewrite zlen_to_nat. apply take_app_length. Qed.

Lemma zdrop_app_exact {A} (l k : list A) : zdrop (zlen l) (l ++ k) = k.
Proof. unfold zdrop. rewrite zlen_to_nat. apply drop_app_length. Qed.

Lemma zlen_ztake {A} (n : Z) (l : list A) :
  0 <= n <= zlen l -> zlen (ztake n l) = n.
Proof. unfold zlen, ztake. rewrite length_take. lia. Qed.

Lemma zlen_zdrop {A} (n : Z) (l : list A) :
  0 <= n <= zlen l -> zlen (zdrop n l) = zlen l - n.
Proof. unfold zlen, zdrop. rewrite length_drop. lia. Qed.

Lemma zlen_ztake_min {A} (n : Z) (l : list A) :
  0 <= n -> zlen (ztake n l) = Z.min n (zlen l).
Proof. unfold zlen, ztake. rewrite length_take. lia. Qed.

Lemma zlen_zdrop_max {A} (n : Z) (l : list A) :
  0 <= n -> zlen (zdrop n l) = Z.max 0 (zlen l - n).
Proof. unfold zlen, zdrop. rewrite length_drop. lia. Qed.

Lemma zlen_replicate {A} (n : Z) (x : A) : 0 <= n -> zlen (replicate (Z.to_nat n) x) = n.
Proof. intros. unfold zlen. rewrite length_replicate. lia. Qed.

Lemma ztake_zdrop {A} (n : Z) (l : list A) : ztake n l ++ zdrop n l = l.
Proof. apply take_drop. Qed.

Lemma zdrop_0 {A} (l : list A) : zdrop 0 l = l.
Proof. done. Qed.

(** ** Bit-level reasoning

    [bits] proves an equality of integers bit by bit: it pushes
    [Z.testbit] through the operations the source uses and splits on the
    positions that a shift or a mask compares with. *)

Lemma testbit_wrap (w z i : Z) :
  0 <= w -> Z.testbit (wrap w z) i = (i <? w) && Z.testbit z i.
Proof.
  intros. unfold wrap. destruct (Z.ltb_spec i w).
  - rewrite Z.mod_pow2_bits_low by lia. done.
  - rewrite Z.mod_pow2_bits_high by lia. done.
Qed.

Lemma testbit_high (w z i : Z) : 0 <= z < 2 ^ w -> w <= i -> Z.testbit z i = false.
Proof.
  intros Hz Hi. destruct (Z.eq_dec z 0) as [->|]; [apply Z.bits_0|].
  apply Z.bits_above_log2; [lia|].
  apply Z.log2_lt_pow2; [lia|]. apply Z.lt_le_trans with (2 ^ w); [lia|].
  destruct (Z.le_gt_cases 0 w); [apply Z.pow_le_mono_r; lia|].
  rewrite Z.pow_neg_r in Hz by lia. lia.
Qed.

Lemma Zbits_inj_nonneg (a b : Z) :
  (forall i, 0 <= i -> Z.testbit a i = Z.testbit b i) -> a = b.
Proof. intros H. apply Z.bits_inj'. done. Qed.

Lemma range_by_bits (w a : Z) :
  0 <= w -> 0 <= a -> (forall i, w <= i -> Z.testbit a i = false) -> a < 2 ^ w.
Proof.
  intros Hw Ha Hb. assert (a = wrap w a) as ->; [|apply wrap_range; done].
  apply Zbits_inj_nonneg. intros i Hi. rewrite testbit_wrap by done.
  destruct (Z.ltb_spec i w); [done|]. rewrite Hb by lia. done.
Qed.

Create Rewrite HintDb zbits.
Create Rewrite HintDb lens.
#[export] Hint Rewrite Z.lor_spec Z.land_spec Z.lxor_spec Z.bits_0 : zbits.
#[export] Hint Rewrite testbit_wrap Z.shiftl_spec Z.shiftr_spec using lia : zbits.

Lemma lor_range (w a b : Z) :
  0 <= w -> 0 <= a < 2 ^ w -> 0 <= b < 2 ^ w -> 0 <= Z.lor a b < 2 ^ w.
Proof.
  intros Hw Ha Hb. assert (0 <= Z.lor a b) by (apply Z.lor_nonneg; lia).
  split; [done|]. apply range_by_bits; [done..|]. intros i Hi.
  rewrite Z.lor_spec, !(testbit_high w) by lia. done.
Qed.

Lemma lxor_range (w a b : Z) :
  0 <= w -> 0 <= a < 2 ^ w -> 0 <= b < 2 ^ w -> 0 <= Z.lxor a b < 2 ^ w.
Proof.
  intros Hw Ha Hb. assert (0 <= Z.lxor a b) by (apply Z.lxor_nonneg; lia).
  split; [done|]. apply range_by_bits; [done..|]. intros i Hi.
  rewrite Z.lxor_spec, !(testbit_high w) by lia. done.
Qed.

Lemma shiftr_range (w a n : Z) :
  0 <= w -> 0 <= n -> 0 <= a < 2 ^ w -> 0 <= Z.shiftr a n < 2 ^ w.
Proof.
  intros Hw Hn Ha. rewrite Z.shiftr_div_pow2 by lia.
  assert (0 < 2 ^ n) by lia. split; [apply Z.div_pos; lia|].
  apply Z.le_lt_trans with a; [|lia]. apply Z.div_le_upper_bound; nia.
Qed.

(** Disjoint bit fields: [a] below bit [n], [b] shifted above it. *)
Lemma land_shiftl_disjoint (a b n : Z) :
  0 <= n -> 0 <= a < 2 ^ n -> Z.land a (Z.shiftl b n) = 0.
Proof.
  intros Hn Ha. apply Zbits_inj_nonneg. intros i Hi. autorewrite with zbits.
  destruct (Z.lt_ge_cases i n).
  - rewrite (Z.testbit_neg_r b) by lia. apply andb_false_r.
  - rewrite (testbit_high n a) by lia. done.
Qed.

Lemma lor_shiftl_add (a b n : Z) :
  0 <= n -> 0 <= a < 2 ^ n -> Z.lor a (Z.shiftl b n) = a + b * 2 ^ n.
Proof.
  intros Hn Ha. pose proof (land_shiftl_disjoint a b n Hn Ha) as Hd.
  rewrite <- Z.lxor_lor, <- Z.add_nocarry_lxor by done.
  rewrite Z.shiftl_mul_pow2 by lia. done.
Qed.
