(* ===== verification/Random.v ===== *)
(** * Random: the pseudo-random source ([util/random.h])

    [std::mt19937] and [std::uniform_int_distribution] are the class
    [UniformSource]: what the standard says of them is that a draw lies between its
    bounds. *)

From S2P Require Import Prelude.

Class UniformSource (R : Type) := {
  us_seed : Z -> R;
  us_draw : Z -> Z -> R -> Z * R
}.

Class UniformSourceLaws (R : Type) `{UniformSource R} : Prop := {
  us_draw_range : forall lo hi r, 0 <= lo <= hi -> hi < 2 ^ 32 -> lo <= fst (us_draw lo hi r) <= hi
}.

Section Random.
Context {R : Type} `{UniformSource R}.

Definition newRandom (seed : Z) : R := us_seed (if seed =? 0 then 1 else seed).

Definition Random_Next (r : R) : Z * R := us_draw 0 (2 ^ 32 - 1) r.

Definition Uniform (n : Z) (r : R) : Z * R := us_draw 0 (u32 (n - 1)) r.

Definition OneIn (r : R) (n : Z) : bool * R := let '(x, r) := Uniform n r in (x =? 0, r).

Definition Skewed (max_log : Z) (r : R) : Z * R :=
  let '(base, r) := Uniform (u32 (max_log + 1)) r in Uniform (u32 (Z.shiftl 1 base)) r.
End Random.

(** [Uniform] and [Skewed] stay in their ranges, also for the largest shift. *)
Lemma Random_ranges {R : Type} `{UniformSourceLaws R} (n max_log : Z) (r : R) :
  0 < n < 2 ^ 32 -> 0 <= max_log < 32 ->
  0 <= fst (Uniform n r) < n /\ 0 <= fst (Skewed max_log r) < 2 ^ max_log.
Proof.
  intros Hn Hm. assert (forall k r, 0 < k < 2 ^ 32 -> 0 <= fst (Uniform k r) < k) as HU.
  { intros k r' Hk. unfold Uniform. rewrite wrap_small by lia. pose proof (us_draw_range 0 (k - 1) r'). lia. }
  split; [by apply HU|]. unfold Skewed. rewrite wrap_small by lia. pose proof (HU (max_log + 1) r ltac:(lia)) as Hb.
  destruct (Uniform (max_log + 1) r) as [base r1]. cbn [fst] in Hb. rewrite Z.shiftl_1_l.
  assert (2 ^ base <= 2 ^ max_log) by (apply Z.pow_le_mono_r; lia). assert (2 ^ max_log <= 2 ^ 31) by (apply Z.pow_le_mono_r; lia).
  assert (0 < 2 ^ base) by (apply Z.pow_pos_nonneg; lia). rewrite wrap_small by lia. pose proof (HU (2 ^ base) r1). lia.
Qed.

(** The source that always draws the smallest value. *)
#[export] Instance unit_source : UniformSource unit := { us_seed _ := tt; us_draw lo _ r := (lo, r) }.
#[export] Instance unit_source_laws : UniformSourceLaws unit.
Proof. split. cbn. lia. Defined.
