(* ===== verification/Status.v ===== *)
(** * Status: error values ([include/leveldb/status.h])

    [StatusCode], the heap-allocated error state of a [Status] ([None] is the
    null [state_] of a success) and [Result<T>], the [std::expected<T, Status>]
    every fallible function returns, with the monadic notation of stdpp. *)

From S2P Require Import Prelude.

Inductive StatusCode :=
  | kOk | kNotFound | kCorruption | kNotSupported | kInvalidArgument | kIOError.

#[global] Instance StatusCode_eq_dec : EqDecision StatusCode.
Proof. solve_decision. Defined.

Definition StatusCodeToString (c : StatusCode) : string :=
  match c with
  | kOk => "OK"
  | kNotFound => "NotFound"
  | kCorruption => "Corruption"
  | kNotSupported => "Not Supported"
  | kInvalidArgument => "Invalid Argument"
  | kIOError => "IO Error"
  end%string.

Record State := mkState { st_code : StatusCode; st_msg : string }.

#[global] Instance State_eq_dec : EqDecision State.
Proof. solve_decision. Defined.

Definition Status := option State.

#[global] Instance Status_eq_dec : EqDecision Status.
Proof. unfold Status. solve_decision. Defined.

(** The private constructor: [msg] alone, or ["msg: msg2"] when [msg2] is not empty. *)
Definition make_status (c : StatusCode) (msg msg2 : string) : Status :=
  Some (mkState c (if decide (msg2 = ""%string) then msg
                   else (msg ++ ": " ++ msg2)%string)).

Definition StatusOK : Status := None.
Definition NotFound (msg msg2 : string) : Status := make_status kNotFound msg msg2.
Definition Corruption (msg msg2 : string) : Status := make_status kCorruption msg msg2.
Definition NotSupported (msg msg2 : string) : Status := make_status kNotSupported msg msg2.
Definition InvalidArgument (msg msg2 : string) : Status := make_status kInvalidArgument msg msg2.
Definition IOError (msg msg2 : string) : Status := make_status kIOError msg msg2.

Definition ok (s : Status) : bool := match s with None => true | Some _ => false end.
Definition code (s : Status) : StatusCode :=
  match s with Some st => st_code st | None => kOk end.
Definition message (s : Status) : string :=
  match s with Some st => st_msg st | None => ""%string end.

Definition IsNotFound (s : Status) : bool := bool_decide (code s = kNotFound).
Definition IsCorruption (s : Status) : bool := bool_decide (code s = kCorruption).
Definition IsIOError (s : Status) : bool := bool_decide (code s = kIOError).
Definition IsNotSupportedError (s : Status) : bool := bool_decide (code s = kNotSupported).
Definition IsInvalidArgument (s : Status) : bool := bool_decide (code s = kInvalidArgument).

Definition ToString (s : Status) : string :=
  if ok s then "OK"%string
  else let result := StatusCodeToString (code s) in
       if decide (message s = ""%string) then result
       else (result ++ ": " ++ message s)%string.

(** [Result<T>]. *)
Inductive Result (T : Type) :=
  | Ok (x : T)
  | Err (s : Status).
Arguments Ok {T} x.
Arguments Err {T} s.

#[global] Instance Result_eq_dec {T} `{EqDecision T} : EqDecision (Result T).
Proof. solve_decision. Defined.

#[global] Instance Result_ret : MRet Result := fun T x => Ok x.
#[global] Instance Result_bind : MBind Result := fun T U f r =>
  match r with Ok x => f x | Err s => Err s end.

(** [opt.value_or(error)]: the pattern [if (!opt) return Err(...);]. *)
Definition of_option {T} (s : Status) (o : option T) : Result T :=
  match o with Some x => Ok x | None => Err s end.

Definition is_ok {T} (r : Result T) : bool := match r with Ok _ => true | Err _ => false end.

Lemma bind_ok {T U} (f : T -> Result U) (r : Result T) (y : U) :
  (r ≫= f) = Ok y <-> exists x, r = Ok x /\ f x = Ok y.
Proof. destruct r; simpl; naive_solver. Qed.

(** An error status never prints as the success status does. *)
Lemma ToString_error (c : StatusCode) (msg msg2 : string) :
  c <> kOk -> ToString (make_status c msg msg2) <> "OK"%string.
Proof.
  intros Hc. unfold ToString, make_status, message, code. simpl.
  case_decide; destruct c; try done; case_decide; done.
Qed.
