(* ===== verification/Coding.v ===== *)
(** * Coding: fixed-width, varint and length-prefixed encodings
    ([util/coding.h], [util/coding.cc])

    The encoders return the bytes the source appends; the decoders take the
    bytes from the read pointer to the limit and return the decoded value
    with the bytes that are left ([None] is the null pointer / [std::nullopt]). *)

From S2P Require Import Prelude.

(** ** Fixed-length integers *)

(** The memory image of an [n]-byte integer on a little-endian machine, what
    [std::memcpy(dst, &value, sizeof(value))] stores, and its inverse. *)
Fixpoint le_split (n : nat) (v : Z) : bytes :=
  match n with
  | O => []
  | S n' => zb v :: le_split n' (Z.shiftr v 8)
  end.

Fixpoint le_combine (l : bytes) : Z :=
  match l with
  | [] => 0
  | b :: l' => Z.lor (bz b) (Z.shiftl (le_combine l') 8)
  end.

(** The [std::endian::native == little] branches. *)
Definition EncodeFixed32 (value : Z) : bytes := le_split 4 value.
Definition EncodeFixed64 (value : Z) : bytes := le_split 8 value.
Definition DecodeFixed32 (ptr : bytes) : Z := le_combine (take 4 ptr).
Definition DecodeFixed64 (ptr : bytes) : Z := le_combine (take 8 ptr).

(** The portable branches, byte by byte. *)
Definition EncodeFixed32_portable (value : Z) : bytes :=
  [zb value; zb (Z.shiftr value 8); zb (Z.shiftr value 16); zb (Z.shiftr value 24)].

Definition EncodeFixed64_portable (value : Z) : bytes :=
  [zb value; zb (Z.shiftr value 8); zb (Z.shiftr value 16); zb (Z.shiftr value 24);
   zb (Z.shiftr value 32); zb (Z.shiftr value 40); zb (Z.shiftr value 48); zb (Z.shiftr value 56)].

Definition DecodeFixed32_portable (buf : bytes) : Z :=
  let b i := bz (nth i buf Byte.x00) in
  Z.lor (Z.lor (Z.lor (b 0%nat) (u32 (Z.shiftl (b 1%nat) 8)))
               (u32 (Z.shiftl (b 2%nat) 16))) (u32 (Z.shiftl (b 3%nat) 24)).

Definition DecodeFixed64_portable (buf : bytes) : Z :=
  let b i := bz (nth i buf Byte.x00) in
  Z.lor (Z.lor (Z.lor (Z.lor (Z.lor (Z.lor (Z.lor (b 0%nat)
    (u64 (Z.shiftl (b 1%nat) 8))) (u64 (Z.shiftl (b 2%nat) 16)))
    (u64 (Z.shiftl (b 3%nat) 24))) (u64 (Z.shiftl (b 4%nat) 32)))
    (u64 (Z.shiftl (b 5%nat) 40))) (u64 (Z.shiftl (b 6%nat) 48)))
    (u64 (Z.shiftl (b 7%nat) 56)).

Definition PutFixed32 (dst : bytes) (value : Z) : bytes := dst ++ EncodeFixed32 value.
Definition PutFixed64 (dst : bytes) (value : Z) : bytes := dst ++ EncodeFixed64 value.

(** ** Varints *)

Definition EncodeVarint32 (v : Z) : bytes :=
  let B := 128 in
  if v <? Z.shiftl 1 7 then [zb v]
  else if v <? Z.shiftl 1 14 then [zb (Z.lor v B); zb (Z.shiftr v 7)]
  else if v <? Z.shiftl 1 21 then
    [zb (Z.lor v B); zb (Z.lor (Z.shiftr v 7) B); zb (Z.shiftr v 14)]
  else if v <? Z.shiftl 1 28 then
    [zb (Z.lor v B); zb (Z.lor (Z.shiftr v 7) B); zb (Z.lor (Z.shiftr v 14) B);
     zb (Z.shiftr v 21)]
  else
    [zb (Z.lor v B); zb (Z.lor (Z.shiftr v 7) B); zb (Z.lor (Z.shiftr v 14) B);
     zb (Z.lor (Z.shiftr v 21) B); zb (Z.shiftr v 28)].

Definition PutVarint32 (dst : bytes) (v : Z) : bytes := dst ++ EncodeVarint32 v.

(** [while (v >= B) { *ptr++ = v | B; v >>= 7; } *ptr++ = v].  [fuel] bounds the
    number of continuation bytes: nine for a 64-bit value, whose encoding has
    at most the ten bytes of [PutVarint64]'s buffer. *)
Fixpoint EncodeVarint64_loop (fuel : nat) (v : Z) : bytes :=
  match fuel with
  | O => [zb v]
  | S fuel' =>
      if 128 <=? v then zb (Z.lor v 128) :: EncodeVarint64_loop fuel' (Z.shiftr v 7)
      else [zb v]
  end.

Definition EncodeVarint64 (v : Z) : bytes := EncodeVarint64_loop 9 v.
Definition PutVarint64 (dst : bytes) (v : Z) : bytes := dst ++ EncodeVarint64 v.

Fixpoint VarintLength_loop (fuel : nat) (v len : Z) : Z :=
  match fuel with
  | O => len
  | S fuel' => if 128 <=? v then VarintLength_loop fuel' (Z.shiftr v 7) (len + 1) else len
  end.

Definition VarintLength (v : Z) : Z := VarintLength_loop 9 v 1.

(** [for (shift = 0; shift <= 28 && p < limit; shift += 7)]: the loop consumes one
    byte of [p] per iteration. *)
Fixpoint GetVarint32PtrFallback_loop (p : bytes) (shift result : Z) : option (Z * bytes) :=
  match p with
  | [] => None
  | b :: p' =>
      if shift <=? 28 then
        let byte := bz b in
        if Z.land byte 128 =? 0 then Some (Z.lor result (u32 (Z.shiftl byte shift)), p')
        else GetVarint32PtrFallback_loop p' (shift + 7)
               (Z.lor result (u32 (Z.shiftl (Z.land byte 127) shift)))
      else None
  end.

Definition GetVarint32PtrFallback (p : bytes) : option (Z * bytes) :=
  GetVarint32PtrFallback_loop p 0 0.

Definition GetVarint32Ptr (p : bytes) : option (Z * bytes) :=
  match p with
  | b :: p' =>
      let result := bz b in
      if Z.land result 128 =? 0 then Some (result, p') else GetVarint32PtrFallback p
  | [] => GetVarint32PtrFallback p
  end.

Fixpoint GetVarint64Ptr_loop (p : bytes) (shift result : Z) : option (Z * bytes) :=
  match p with
  | [] => None
  | b :: p' =>
      if shift <=? 63 then
        let byte := bz b in
        if Z.land byte 128 =? 0 then Some (Z.lor result (u64 (Z.shiftl byte shift)), p')
        else GetVarint64Ptr_loop p' (shift + 7)
               (Z.lor result (u64 (Z.shiftl (Z.land byte 127) shift)))
      else None
  end.

Definition GetVarint64Ptr (p : bytes) : option (Z * bytes) := GetVarint64Ptr_loop p 0 0.

Definition GetVarint32 (input : bytes) : option (Z * bytes) := GetVarint32Ptr input.
Definition GetVarint64 (input : bytes) : option (Z * bytes) := GetVarint64Ptr input.

(** ** Length-prefixed strings *)

Definition PutLengthPrefixedSlice (dst value : bytes) : bytes :=
  PutVarint32 dst (u32 (zlen value)) ++ value.

Definition GetLengthPrefixedSlice (input : bytes) : option (bytes * bytes) :=
  '(len, input) ← GetVarint32 input;
  if zlen input <? len then None
  else Some (ztake len input, zdrop len input).

(** ** Facts about fixed-width integers *)

Lemma length_le_split (n : nat) (v : Z) : length (le_split n v) = n.
Proof. revert v. induction n; intros; simpl; auto. Qed.

Lemma le_combine_split (n : nat) (v : Z) :
  le_combine (le_split n v) = wrap (8 * Z.of_nat n) v.
Proof.
  revert v. induction n as [|n IH]; intros v; simpl le_split; simpl le_combine.
  - unfold wrap. simpl. rewrite Z.mod_1_r. done.
  - rewrite IH, bz_zb. change 256 with (2 ^ 8). fold (wrap 8 v).
    apply Zbits_inj_nonneg. intros i Hi. autorewrite with zbits.
    destruct (Z.ltb_spec i 8); simpl.
    + rewrite (Z.testbit_neg_r _ (i - 8)) by lia. rewrite andb_false_r, orb_false_r.
      destruct (Z.ltb_spec i (8 * Z.of_nat (S n))); [done|lia].
    + rewrite Z.shiftr_spec by lia.
      replace (i - 8 + 8) with i by lia.
      destruct (Z.ltb_spec i (8 * Z.of_nat (S n))), (Z.ltb_spec (i - 8) (8 * Z.of_nat n)); simpl; lia || done.
Qed.

Lemma le_combine_range (l : bytes) : 0 <= le_combine l < 2 ^ (8 * zlen l).
Proof.
  induction l as [|b l IH]; [done|].
  rewrite zlen_cons. simpl le_combine. pose proof (bz_range b).
  pose proof (zlen_nonneg l).
  rewrite lor_shiftl_add by (apply bz_range8 || lia).
  replace (8 * (1 + zlen l)) with (8 + 8 * zlen l) by lia.
  rewrite Z.pow_add_r by lia. change (2 ^ 8) with 256. nia.
Qed.

Lemma le_split_combine (l : bytes) : le_split (length l) (le_combine l) = l.
Proof.
  induction l as [|b l IH]; [done|].
  simpl. pose proof (bz_range b). pose proof (le_combine_range l).
  rewrite lor_shiftl_add by (apply bz_range8 || lia). change (2 ^ 8) with 256.
  f_equal.
  - apply bz_inj. rewrite bz_zb. rewrite Z.mod_add by lia. apply Z.mod_small. lia.
  - rewrite Z.shiftr_div_pow2 by lia. change (2 ^ 8) with 256.
    rewrite Z.div_add by lia. rewrite Z.div_small by lia. done.
Qed.

Lemma DecodeFixed32_Encode (v : Z) (rest : bytes) :
  0 <= v < 2 ^ 32 -> DecodeFixed32 (EncodeFixed32 v ++ rest) = v.
Proof.
  intros Hv. unfold DecodeFixed32, EncodeFixed32.
  rewrite take_app_length' by (rewrite length_le_split; done).
  rewrite le_combine_split. apply wrap_small. done.
Qed.

Lemma DecodeFixed64_Encode (v : Z) (rest : bytes) :
  0 <= v < 2 ^ 64 -> DecodeFixed64 (EncodeFixed64 v ++ rest) = v.
Proof.
  intros Hv. unfold DecodeFixed64, EncodeFixed64.
  rewrite take_app_length' by (rewrite length_le_split; done).
  rewrite le_combine_split. apply wrap_small. done.
Qed.

Lemma DecodeFixed32_range (p : bytes) : 0 <= DecodeFixed32 p < 2 ^ 32.
Proof.
  unfold DecodeFixed32. pose proof (le_combine_range (take 4 p)) as [H1 H2]. split; [done|].
  eapply Z.lt_le_trans; [done|]. apply Z.pow_le_mono_r; [lia|].
  unfold zlen. rewrite length_take. lia.
Qed.

Lemma DecodeFixed64_range (p : bytes) : 0 <= DecodeFixed64 p < 2 ^ 64.
Proof.
  unfold DecodeFixed64. pose proof (le_combine_range (take 8 p)) as [H1 H2]. split; [done|].
  eapply Z.lt_le_trans; [done|]. apply Z.pow_le_mono_r; [lia|].
  unfold zlen. rewrite length_take. lia.
Qed.

Lemma EncodeFixed32_Decode (p : bytes) :
  (4 <= length p)%nat -> EncodeFixed32 (DecodeFixed32 p) = take 4 p.
Proof.
  intros. unfold EncodeFixed32, DecodeFixed32.
  rewrite <- (le_split_combine (take 4 p)) at 2. rewrite length_take. f_equal. lia.
Qed.

Lemma zlen_EncodeFixed32 (v : Z) : zlen (EncodeFixed32 v) = 4.
Proof. unfold zlen, EncodeFixed32. rewrite length_le_split. done. Qed.

Lemma zlen_EncodeFixed64 (v : Z) : zlen (EncodeFixed64 v) = 8.
Proof. unfold zlen, EncodeFixed64. rewrite length_le_split. done. Qed.

(** An array of fixed 32-bit words. *)
Lemma fold_PutFixed32 (xs : list Z) (buf : bytes) :
  fold_left PutFixed32 xs buf = buf ++ concat (map EncodeFixed32 xs).
Proof.
  revert buf. induction xs as [|x xs IH]; intros buf; simpl; [rewrite app_nil_r; done|].
  rewrite IH. unfold PutFixed32. rewrite <- app_assoc. done.
Qed.

Lemma zlen_fixed32s (xs : list Z) : zlen (concat (map EncodeFixed32 xs)) = 4 * zlen xs.
Proof.
  induction xs as [|x xs IH]; [done|]. cbn [map concat]. rewrite zlen_app, IH, zlen_cons, zlen_EncodeFixed32. lia.
Qed.

Lemma fixed32_at (pre rest : bytes) (xs : list Z) (i : nat) (x : Z) :
  xs !! i = Some x -> 0 <= x < 2 ^ 32 ->
  DecodeFixed32 (zdrop (zlen pre + Z.of_nat i * 4) (pre ++ concat (map EncodeFixed32 xs) ++ rest)) = x.
Proof.
  intros Hi Hx. apply list_elem_of_split_length in Hi as (a & b & -> & ->).
  rewrite map_app, concat_app. cbn [map concat]. rewrite <- !app_assoc, app_assoc.
  replace (zlen pre + Z.of_nat (length a) * 4) with (zlen (pre ++ concat (map EncodeFixed32 a)))
    by (rewrite zlen_app, zlen_fixed32s; unfold zlen; lia).
  rewrite zdrop_app_exact. apply DecodeFixed32_Encode. done.
Qed.

(** ** Facts about varints

    Both decoders are one loop at two widths; the facts are proved once. *)

Fixpoint get_varint_loop (w maxshift : Z) (p : bytes) (shift result : Z) : option (Z * bytes) :=
  match p with
  | [] => None
  | b :: p' =>
      if shift <=? maxshift then
        let byte := bz b in
        if Z.land byte 128 =? 0 then Some (Z.lor result (wrap w (Z.shiftl byte shift)), p')
        else get_varint_loop w maxshift p' (shift + 7)
               (Z.lor result (wrap w (Z.shiftl (Z.land byte 127) shift)))
      else None
  end.

Lemma GetVarint32PtrFallback_loop_eq p s r :
  GetVarint32PtrFallback_loop p s r = get_varint_loop 32 28 p s r.
Proof.
  revert s r. induction p as [|b p IH]; intros; [done|].
  simpl. rewrite IH. done.
Qed.

Lemma GetVarint64Ptr_loop_eq p s r :
  GetVarint64Ptr_loop p s r = get_varint_loop 64 63 p s r.
Proof.
  revert s r. induction p as [|b p IH]; intros; [done|].
  simpl. rewrite IH. done.
Qed.

Lemma land_127 (z : Z) : Z.land z 127 = z mod 128.
Proof. change 127 with (Z.ones 7). rewrite Z.land_ones by lia. done. Qed.

Lemma land_128_zero (z : Z) : 0 <= z < 256 -> (Z.land z 128 =? 0) = (z <? 128).
Proof.
  intros Hz. change 128 with (2 ^ 7) at 1.
  assert (Z.land z (2 ^ 7) = if Z.testbit z 7 then 2 ^ 7 else 0) as ->.
  { apply Zbits_inj_nonneg. intros i Hi. rewrite Z.land_spec.
    rewrite Z.pow2_bits_eqb by lia. destruct (Z.eqb_spec 7 i) as [<-|Hne].
    - destruct (Z.testbit z 7); [rewrite Z.pow2_bits_true by lia; done| rewrite Z.bits_0; done].
    - rewrite andb_false_r. destruct (Z.testbit z 7); [|rewrite Z.bits_0; done].
      rewrite Z.pow2_bits_false by lia. done. }
  destruct (Z.ltb_spec z 128).
  - rewrite (testbit_high 7) by lia. done.
  - destruct (Z.testbit z 7) eqn:E; [done|].
    apply Z.testbit_false in E; [|lia]. change (2 ^ 7) with 128 in E.
    assert (z / 128 = 1) as Hq by (symmetry; apply (Z.div_unique z 128 1 (z - 128)); lia).
    rewrite Hq in E. done.
Qed.

Lemma continuation_byte (v : Z) :
  0 <= v -> bz (zb (Z.lor v 128)) = v mod 128 + 128.
Proof.
  intros Hv. rewrite bz_zb. change 128 with (Z.shiftl 1 7) at 1.
  apply Zbits_inj_nonneg. intros i Hi. change 256 with (2 ^ 8). fold (wrap 8 (Z.lor v (Z.shiftl 1 7))).
  assert (v mod 128 + 128 = Z.lor (wrap 7 v) (Z.shiftl 1 7)) as ->.
  { rewrite lor_shiftl_add; [done|lia|]. apply wrap_range. lia. }
  autorewrite with zbits. destruct (Z.ltb_spec i 7).
  - destruct (Z.ltb_spec i 8); [|lia]. rewrite (Z.testbit_neg_r 1) by lia. done.
  - destruct (Z.ltb_spec i 8); simpl.
    + replace i with 7 by lia. rewrite orb_true_r. done.
    + rewrite (testbit_high 1) by lia. done.
Qed.

Lemma varint_step_bits (w v shift r : Z) :
  0 <= w -> 0 <= shift -> 0 <= v ->
  Z.lor (Z.lor r (wrap w (Z.shiftl (v mod 128) shift)))
        (wrap w (Z.shiftl (Z.shiftr v 7) (shift + 7)))
  = Z.lor r (wrap w (Z.shiftl v shift)).
Proof.
  intros Hw Hs Hv. rewrite <- Z.lor_assoc. f_equal.
  change (v mod 128) with (wrap 7 v).
  apply Zbits_inj_nonneg. intros i Hi. autorewrite with zbits.
  rewrite ?testbit_wrap by lia.
  destruct (Z.ltb_spec i w); [simpl|done].
  destruct (Z.lt_ge_cases i (shift + 7)).
  - rewrite (Z.testbit_neg_r (Z.shiftr v 7)) by lia. rewrite orb_false_r.
    destruct (Z.ltb_spec (i - shift) 7); [done|lia].
  - rewrite Z.shiftr_spec by lia. replace (i - (shift + 7) + 7) with (i - shift) by lia.
    destruct (Z.ltb_spec (i - shift) 7); [lia|done].
Qed.

Lemma get_varint_loop_encode (w maxshift : Z) (fuel : nat) (v shift r : Z) (rest : bytes) :
  0 <= w -> 0 <= shift -> 0 <= v < 2 ^ (7 * (Z.of_nat fuel + 1)) ->
  shift + 7 * Z.of_nat fuel <= maxshift ->
  get_varint_loop w maxshift (EncodeVarint64_loop fuel v ++ rest) shift r
  = Some (Z.lor r (wrap w (Z.shiftl v shift)), rest).
Proof.
  revert v shift r. induction fuel as [|fuel IH]; intros v shift r Hw Hs Hv Hm.
  - simpl. assert (0 <= v < 128) by (revert Hv; simpl; lia).
    destruct (Z.leb_spec shift maxshift); [|lia].
    rewrite bz_zb_small by lia. rewrite land_128_zero by lia.
    destruct (Z.ltb_spec v 128); [done|lia].
  - simpl. destruct (Z.leb_spec 128 v); simpl.
    + destruct (Z.leb_spec shift maxshift); [|lia].
      rewrite continuation_byte by lia.
      pose proof (Z.mod_pos_bound v 128 ltac:(lia)).
      rewrite land_128_zero by lia. destruct (Z.ltb_spec (v mod 128 + 128) 128); [lia|].
      rewrite land_127.
      assert ((v mod 128 + 128) mod 128 = v mod 128) as ->.
      { rewrite <- (Z.mul_1_l 128) at 2. rewrite Z.mod_add by lia. apply Z.mod_mod. lia. }
      rewrite IH; [|done|lia| |lia].
      * rewrite varint_step_bits by lia. done.
      * rewrite Z.shiftr_div_pow2 by lia. change (2 ^ 7) with 128. split; [apply Z.div_pos; lia|].
        apply Z.div_lt_upper_bound; [lia|]. change 128 with (2 ^ 7).
        rewrite <- Z.pow_add_r by lia.
        replace (7 + 7 * (Z.of_nat fuel + 1)) with (7 * (Z.of_nat (S fuel) + 1)) by lia. lia.
    + destruct (Z.leb_spec shift maxshift); [|lia].
      rewrite bz_zb_small by lia. rewrite land_128_zero by lia.
      destruct (Z.ltb_spec v 128); [done|lia].
Qed.

(** The unrolled 32-bit encoder emits what the loop of the 64-bit encoder emits. *)
Lemma EncodeVarint32_loop (v : Z) :
  0 <= v < 2 ^ 32 -> EncodeVarint32 v = EncodeVarint64_loop 4 v.
Proof.
  intros Hv. unfold EncodeVarint32. cbn [EncodeVarint64_loop].
  change (Z.shiftl 1 7) with 128. change (Z.shiftl 1 14) with 16384.
  change (Z.shiftl 1 21) with 2097152. change (Z.shiftl 1 28) with 268435456.
  rewrite !Z.shiftr_shiftr by lia.
  rewrite (Z.shiftr_div_pow2 v 7), (Z.shiftr_div_pow2 v (7 + 7)),
    (Z.shiftr_div_pow2 v (7 + 7 + 7)), (Z.shiftr_div_pow2 v (7 + 7 + 7 + 7)) by lia.
  rewrite (Z.shiftr_div_pow2 v 14), (Z.shiftr_div_pow2 v 21), (Z.shiftr_div_pow2 v 28) by lia.
  change (2 ^ (7 + 7 + 7 + 7)) with 268435456. change (2 ^ (7 + 7 + 7)) with 2097152.
  change (2 ^ (7 + 7)) with 16384. change (2 ^ 28) with 268435456.
  change (2 ^ 21) with 2097152. change (2 ^ 14) with 16384. change (2 ^ 7) with 128.
  assert (Hcmp : forall d, 0 < d -> (128 <=? v / d) = (128 * d <=? v)).
  { intros d Hd. destruct (Z.leb_spec 128 (v / d)), (Z.leb_spec (128 * d) v); try done.
    - pose proof (Z.mul_div_le v d Hd). nia.
    - assert (128 <= v / d); [|lia]. apply Z.div_le_lower_bound; lia. }
  rewrite !Hcmp by lia.
  destruct (Z.ltb_spec v 128), (Z.leb_spec 128 v); try lia; [done|].
  destruct (Z.ltb_spec v 16384), (Z.leb_spec (128 * 128) v); try lia; [done|].
  destruct (Z.ltb_spec v 2097152), (Z.leb_spec (128 * 16384) v); try lia; [done|].
  destruct (Z.ltb_spec v 268435456), (Z.leb_spec (128 * 2097152) v); try lia; done.
Qed.

Lemma GetVarint32Ptr_fallback (p : bytes) : GetVarint32Ptr p = get_varint_loop 32 28 p 0 0.
Proof.
  unfold GetVarint32Ptr, GetVarint32PtrFallback.
  destruct p as [|b p]; [done|]. rewrite GetVarint32PtrFallback_loop_eq. simpl.
  destruct (Z.land (bz b) 128 =? 0); [|done].
  rewrite Z.shiftl_0_r, wrap_small; [done|]. pose proof (bz_range b). lia.
Qed.

Lemma GetVarint32_Encode (v : Z) (rest : bytes) :
  0 <= v < 2 ^ 32 -> GetVarint32 (EncodeVarint32 v ++ rest) = Some (v, rest).
Proof.
  intros Hv. unfold GetVarint32. rewrite GetVarint32Ptr_fallback, EncodeVarint32_loop by done.
  rewrite get_varint_loop_encode by lia.
  rewrite Z.shiftl_0_r, wrap_small, Z.lor_0_l by done. done.
Qed.

Lemma GetVarint64_Encode (v : Z) (rest : bytes) :
  0 <= v < 2 ^ 64 -> GetVarint64 (EncodeVarint64 v ++ rest) = Some (v, rest).
Proof.
  intros Hv. unfold GetVarint64, GetVarint64Ptr, EncodeVarint64.
  rewrite GetVarint64Ptr_loop_eq.
  assert (2 ^ 64 < 2 ^ (7 * (Z.of_nat 9 + 1))) by (apply Z.pow_lt_mono_r; lia).
  rewrite get_varint_loop_encode by lia.
  rewrite Z.shiftl_0_r, wrap_small, Z.lor_0_l by done. done.
Qed.

Lemma length_EncodeVarint64_loop (fuel : nat) (v : Z) :
  (1 <= length (EncodeVarint64_loop fuel v) <= S fuel)%nat.
Proof.
  revert v. induction fuel as [|fuel IH]; intros v; simpl; [lia|].
  destruct (128 <=? v); simpl; [specialize (IH (Z.shiftr v 7))|]; lia.
Qed.

Lemma VarintLength_loop_eq (fuel : nat) (v len : Z) :
  VarintLength_loop fuel v len = len + zlen (EncodeVarint64_loop fuel v) - 1.
Proof.
  revert v len. induction fuel as [|fuel IH]; intros v len; simpl.
  - rewrite zlen_cons, zlen_nil. lia.
  - destruct (128 <=? v); rewrite ?IH, zlen_cons, ?zlen_nil; lia.
Qed.

Lemma EncodeVarint64_loop_mono (f g : nat) (v : Z) :
  0 <= v < 2 ^ (7 * (Z.of_nat f + 1)) -> (f <= g)%nat ->
  EncodeVarint64_loop g v = EncodeVarint64_loop f v.
Proof.
  revert g v. induction f as [|f IH]; intros g v Hv Hfg.
  - destruct g; [done|]. simpl. destruct (Z.leb_spec 128 v); [|done].
    change (2 ^ (7 * (Z.of_nat 0 + 1))) with 128 in Hv. lia.
  - destruct g; [lia|]. simpl. destruct (Z.leb_spec 128 v); [|done].
    f_equal. apply IH; [|lia]. rewrite Z.shiftr_div_pow2 by lia.
    split; [apply Z.div_pos; lia|]. apply Z.div_lt_upper_bound; [lia|].
    rewrite <- Z.pow_add_r by lia.
    replace (7 + 7 * (Z.of_nat f + 1)) with (7 * (Z.of_nat (S f) + 1)) by lia. lia.
Qed.

Lemma EncodeVarint32_eq64 (v : Z) : 0 <= v < 2 ^ 32 -> EncodeVarint32 v = EncodeVarint64 v.
Proof.
  intros Hv. rewrite EncodeVarint32_loop by done. unfold EncodeVarint64.
  symmetry. apply EncodeVarint64_loop_mono; [|lia].
  split; [lia|]. eapply Z.lt_trans; [apply Hv|]. apply Z.pow_lt_mono_r; lia.
Qed.

Lemma VarintLength_Encode32 (v : Z) :
  0 <= v < 2 ^ 32 -> VarintLength v = zlen (EncodeVarint32 v).
Proof.
  intros Hv. rewrite EncodeVarint32_eq64 by done. unfold VarintLength, EncodeVarint64.
  rewrite VarintLength_loop_eq. lia.
Qed.

(** What a decoder returns: a value of its width, and a strictly shorter input
    that is a suffix of what it was given. *)
Lemma get_varint_loop_suffix (w maxshift : Z) (p : bytes) (shift r v : Z) (rest : bytes) :
  get_varint_loop w maxshift p shift r = Some (v, rest) ->
  exists pre, p = pre ++ rest /\ pre <> [].
Proof.
  revert shift r. induction p as [|b p IH]; intros shift r H; [done|].
  simpl in H. destruct (shift <=? maxshift); [|done].
  destruct (Z.land (bz b) 128 =? 0).
  - injection H as <- <-. exists [b]. done.
  - apply IH in H as (pre & -> & _). exists (b :: pre). done.
Qed.

Lemma get_varint_loop_range (w maxshift : Z) (p : bytes) (shift r v : Z) (rest : bytes) :
  0 <= w -> 0 <= r < 2 ^ w ->
  get_varint_loop w maxshift p shift r = Some (v, rest) -> 0 <= v < 2 ^ w.
Proof.
  intros Hw. revert shift r. induction p as [|b p IH]; intros shift r Hr H; [done|].
  simpl in H. destruct (shift <=? maxshift); [|done].
  destruct (Z.land (bz b) 128 =? 0).
  - injection H as <- <-. apply lor_range; [done..|]. apply wrap_range; done.
  - apply IH in H; [done|]. apply lor_range; [done..|]. apply wrap_range; done.
Qed.

Lemma GetVarint32_suffix (p rest : bytes) (v : Z) :
  GetVarint32 p = Some (v, rest) -> exists pre, p = pre ++ rest /\ pre <> [].
Proof. unfold GetVarint32. rewrite GetVarint32Ptr_fallback. apply get_varint_loop_suffix. Qed.

Lemma GetVarint32_range (p rest : bytes) (v : Z) :
  GetVarint32 p = Some (v, rest) -> 0 <= v < 2 ^ 32.
Proof.
  unfold GetVarint32. rewrite GetVarint32Ptr_fallback.
  apply get_varint_loop_range; [lia|]. split; [lia|]. apply Z.pow_pos_nonneg; lia.
Qed.

Lemma GetVarint64_suffix (p rest : bytes) (v : Z) :
  GetVarint64 p = Some (v, rest) -> exists pre, p = pre ++ rest /\ pre <> [].
Proof.
  unfold GetVarint64, GetVarint64Ptr. rewrite GetVarint64Ptr_loop_eq. apply get_varint_loop_suffix.
Qed.

Lemma GetVarint64_range (p rest : bytes) (v : Z) :
  GetVarint64 p = Some (v, rest) -> 0 <= v < 2 ^ 64.
Proof.
  unfold GetVarint64, GetVarint64Ptr. rewrite GetVarint64Ptr_loop_eq.
  apply get_varint_loop_range; [lia|]. split; [lia|]. apply Z.pow_pos_nonneg; lia.
Qed.

(** ** Facts about length-prefixed strings *)

(** The bytes appended for one string. *)
Definition lp_slice (value : bytes) : bytes := EncodeVarint32 (u32 (zlen value)) ++ value.

Lemma PutLengthPrefixedSlice_app (dst value : bytes) :
  PutLengthPrefixedSlice dst value = dst ++ lp_slice value.
Proof. unfold PutLengthPrefixedSlice, PutVarint32, lp_slice. rewrite app_assoc. done. Qed.

Lemma GetLengthPrefixedSlice_Put (value rest : bytes) :
  zlen value < 2 ^ 32 ->
  GetLengthPrefixedSlice (lp_slice value ++ rest) = Some (value, rest).
Proof.
  intros Hv. pose proof (zlen_nonneg value).
  unfold GetLengthPrefixedSlice, lp_slice.
  rewrite <- app_assoc, wrap_small by lia. rewrite GetVarint32_Encode by lia. simpl.
  rewrite zlen_app. pose proof (zlen_nonneg rest).
  destruct (Z.ltb_spec (zlen value + zlen rest) (zlen value)); [lia|].
  rewrite ztake_app_exact, zdrop_app_exact. done.
Qed.

Lemma GetLengthPrefixedSlice_suffix (p s rest : bytes) :
  GetLengthPrefixedSlice p = Some (s, rest) -> exists pre, p = pre ++ rest /\ pre <> [].
Proof.
  unfold GetLengthPrefixedSlice. intros H.
  destruct (GetVarint32 p) as [[len q]|] eqn:E; [|done]. simpl in H.
  destruct (zlen q <? len); [done|]. injection H as <- <-.
  apply GetVarint32_suffix in E as (pre & -> & Hne).
  exists (pre ++ ztake len q). rewrite <- app_assoc, ztake_zdrop.
  split; [done|]. destruct pre; done.
Qed.

#[export] Hint Rewrite @zlen_app @zlen_cons @zlen_nil @length_app : lens.

(** ** Properties *)

Lemma wrap_shiftl_byte (w n : Z) (b : byte) :
  0 <= n -> n + 8 <= w -> wrap w (Z.shiftl (bz b) n) = Z.shiftl (bz b) n.
Proof.
  intros Hn Hw. apply wrap_small. pose proof (bz_range8 b). rewrite Z.shiftl_mul_pow2 by lia.
  assert (0 < 2 ^ n) by lia. assert (2 ^ 8 * 2 ^ n <= 2 ^ w); [|nia].
  rewrite <- Z.pow_add_r by lia. apply Z.pow_le_mono_r; lia.
Qed.

(** Reading past the end of a short buffer is outside both models in the same
    way: missing bytes read as zero. *)
Lemma DecodeFixed32_portable_eq (p : bytes) : DecodeFixed32_portable p = DecodeFixed32 p.
Proof.
  unfold DecodeFixed32_portable, DecodeFixed32.
  destruct p as [|b0 [|b1 [|b2 [|b3 p]]]]; simpl take; simpl nth; cbn [le_combine];
    rewrite ?wrap_shiftl_byte by lia; change (bz Byte.x00) with 0;
    rewrite ?Z.shiftl_lor, ?Z.shiftl_shiftl, ?Z.shiftl_0_l, ?Z.lor_0_r, ?Z.lor_assoc by lia; done.
Qed.

Lemma DecodeFixed64_portable_eq (p : bytes) : DecodeFixed64_portable p = DecodeFixed64 p.
Proof.
  unfold DecodeFixed64_portable, DecodeFixed64.
  destruct p as [|b0 [|b1 [|b2 [|b3 [|b4 [|b5 [|b6 [|b7 p]]]]]]]];
    simpl take; simpl nth; cbn [le_combine];
    rewrite ?wrap_shiftl_byte by lia; change (bz Byte.x00) with 0;
    rewrite ?Z.shiftl_lor, ?Z.shiftl_shiftl, ?Z.shiftl_0_l, ?Z.lor_0_r, ?Z.lor_assoc by lia; done.
Qed.

(** The two compile-time branches of the fixed-width codecs agree: the
    byte-by-byte code writes and reads exactly what the [memcpy] of a
    little-endian integer does, for both widths. *)
Theorem fixed_endian_branches_agree (v : Z) (p : bytes) :
  EncodeFixed32_portable v = EncodeFixed32 v /\
  EncodeFixed64_portable v = EncodeFixed64 v /\
  DecodeFixed32_portable p = DecodeFixed32 p /\
  DecodeFixed64_portable p = DecodeFixed64 p.
Proof.
  split_and!.
  - unfold EncodeFixed32_portable, EncodeFixed32. cbn [le_split].
    rewrite !Z.shiftr_shiftr by lia. done.
  - unfold EncodeFixed64_portable, EncodeFixed64. cbn [le_split].
    rewrite !Z.shiftr_shiftr by lia. done.
  - apply DecodeFixed32_portable_eq.
  - apply DecodeFixed64_portable_eq.
Qed.

(** Varints round-trip at both widths whatever follows them in the buffer,
    the unrolled 32-bit encoder agrees with the 64-bit loop, [VarintLength] is the
    number of bytes emitted, and the encodings fit the 5- and 10-byte buffers of
    [PutVarint32] and [PutVarint64]. *)
Theorem varint_roundtrip (v32 v64 : Z) (rest : bytes) :
  0 <= v32 < 2 ^ 32 -> 0 <= v64 < 2 ^ 64 ->
  GetVarint32 (PutVarint32 [] v32 ++ rest) = Some (v32, rest) /\
  GetVarint64 (PutVarint64 [] v64 ++ rest) = Some (v64, rest) /\
  EncodeVarint32 v32 = EncodeVarint64 v32 /\
  VarintLength v64 = zlen (EncodeVarint64 v64) /\
  zlen (EncodeVarint32 v32) <= 5 /\ zlen (EncodeVarint64 v64) <= 10.
Proof.
  intros H32 H64. unfold PutVarint32, PutVarint64. rewrite !app_nil_l.
  split_and!; auto using GetVarint32_Encode, GetVarint64_Encode, EncodeVarint32_eq64.
  - unfold VarintLength, EncodeVarint64. rewrite VarintLength_loop_eq. lia.
  - rewrite EncodeVarint32_loop by done. unfold zlen.
    pose proof (length_EncodeVarint64_loop 4 v32). lia.
  - unfold zlen, EncodeVarint64. pose proof (length_EncodeVarint64_loop 9 v64). lia.
Qed.

Lemma varint_roundtrip_witness :
  GetVarint32 (PutVarint32 [] 300 ++ [Byte.x07]) = Some (300, [Byte.x07]) /\
  EncodeVarint32 300 = [Byte.xac; Byte.x02].
Proof.
  split; [|done].
  apply (varint_roundtrip 300 (2 ^ 64 - 1) [Byte.x07]); vm_compute; split; congruence.
Defined.

(** [GetLengthPrefixedSlice] returns exactly the string
    [PutLengthPrefixedSlice] appended and leaves the rest of the input, for
    every string whose size fits the 32-bit length prefix. *)
Theorem length_prefixed_roundtrip (value rest : bytes) :
  zlen value < 2 ^ 32 ->
  GetLengthPrefixedSlice (PutLengthPrefixedSlice [] value ++ rest) = Some (value, rest).
Proof.
  intros. rewrite PutLengthPrefixedSlice_app, app_nil_l.
  apply GetLengthPrefixedSlice_Put. done.
Qed.

Lemma length_prefixed_roundtrip_witness :
  GetLengthPrefixedSlice (PutLengthPrefixedSlice [] [Byte.x61; Byte.x62] ++ [Byte.x63])
  = Some ([Byte.x61; Byte.x62], [Byte.x63]).
Proof. apply (length_prefixed_roundtrip [Byte.x61; Byte.x62] [Byte.x63]). reflexivity. Defined.
