(* ===== verification/Crc32c.v ===== *)
(** * Crc32c: the CRC-32C checksum ([util/crc32c.h], [util/crc32c.cc])

    [Extend] is the software path of the source: it aligns the read pointer to
    four bytes, runs four interleaved 32-bit strides with the stride tables,
    recombines them and finishes byte by byte.  The address of the data decides
    the alignment steps, so it is an argument of the model.  The reference is the
    bit-serial division by the reflected Castagnoli polynomial. *)

From S2P Require Import Prelude Coding Crc32cTables.

Definition kCRC32Xor : Z := 0xffffffff.

Definition table_get (t : list Z) (i : Z) : Z := nth (Z.to_nat i) t 0.

Definition ReadUint32LE (buffer : bytes) : Z := DecodeFixed32 buffer.

(** [RoundUp<N>(pointer)], on a 64-bit [uintptr_t]. *)
Definition RoundUp (N pointer : Z) : Z :=
  Z.land (u64 (pointer + (N - 1))) (Z.lnot (N - 1)).

(** The macro [STEP1]. *)
Definition STEP1 (l : Z) (b : byte) : Z :=
  let c := Z.lxor (Z.land l 0xff) (bz b) in
  Z.lxor (table_get kByteExtensionTable c) (Z.shiftr l 8).

(** The macro [STEP4(s)], with the word read at [p + s * 4]. *)
Definition STEP4 (word crc : Z) : Z :=
  Z.lxor (Z.lxor (Z.lxor (Z.lxor word
    (table_get kStrideExtensionTable3 (Z.land crc 0xff)))
    (table_get kStrideExtensionTable2 (Z.land (Z.shiftr crc 8) 0xff)))
    (table_get kStrideExtensionTable1 (Z.land (Z.shiftr crc 16) 0xff)))
    (table_get kStrideExtensionTable0 (Z.shiftr crc 24)).

Definition byte_ext (w : Z) : Z :=
  Z.lxor (Z.shiftr w 8) (table_get kByteExtensionTable (Z.land w 0xff)).

(** The macro [STEP4W(w)]: returns the new [l]. *)
Definition STEP4W (l w : Z) : Z :=
  byte_ext (byte_ext (byte_ext (byte_ext (Z.lxor w l)))).

(** [while ((e - p) >= 16) STEP16;] *)
Fixpoint swaths (p : bytes) (crc0 crc1 crc2 crc3 : Z) : bytes * (Z * Z * Z * Z) :=
  match p with
  | _ :: _ :: _ :: _ :: _ :: _ :: _ :: _ :: _ :: _ :: _ :: _ :: _ :: _ :: _ :: _ :: p' =>
      swaths p' (STEP4 (ReadUint32LE (drop 0 p)) crc0) (STEP4 (ReadUint32LE (drop 4 p)) crc1)
                (STEP4 (ReadUint32LE (drop 8 p)) crc2) (STEP4 (ReadUint32LE (drop 12 p)) crc3)
  | _ => (p, (crc0, crc1, crc2, crc3))
  end.

(** [while ((e - p) >= 4) { STEP4(0); rotate the strides; p += 4; }] *)
Fixpoint words (p : bytes) (crc0 crc1 crc2 crc3 : Z) : bytes * (Z * Z * Z * Z) :=
  match p with
  | _ :: _ :: _ :: _ :: p' => words p' crc1 crc2 crc3 (STEP4 (ReadUint32LE p) crc0)
  | _ => (p, (crc0, crc1, crc2, crc3))
  end.

(** The strided part, entered when at least 16 bytes are left: returns the new
    [l] and the bytes that were not consumed. *)
Definition strides (p : bytes) (l : Z) : bytes * Z :=
  let crc0 := Z.lxor (ReadUint32LE (drop 0 p)) l in
  let crc1 := ReadUint32LE (drop 4 p) in
  let crc2 := ReadUint32LE (drop 8 p) in
  let crc3 := ReadUint32LE (drop 12 p) in
  let p := drop 16 p in
  let '(p, (crc0, crc1, crc2, crc3)) := swaths p crc0 crc1 crc2 crc3 in
  let '(p, (crc0, crc1, crc2, crc3)) := words p crc0 crc1 crc2 crc3 in
  (p, STEP4W (STEP4W (STEP4W (STEP4W 0 crc0) crc1) crc2) crc3).

(** [Extend(crc, data)] with [data.data()] at address [addr]. *)
Definition Extend (addr crc : Z) (data : bytes) : Z :=
  let l := Z.lxor crc kCRC32Xor in
  let x := RoundUp 4 addr in
  let '(p, l) :=
    if x <=? addr + zlen data
    then (zdrop (x - addr) data, fold_left STEP1 (ztake (x - addr) data) l)
    else (data, l) in
  let '(p, l) := if 16 <=? zlen p then strides p l else (p, l) in
  Z.lxor (fold_left STEP1 p l) kCRC32Xor.

Definition Value (addr : Z) (data : bytes) : Z := Extend addr 0 data.

Definition kMaskDelta : Z := 0xa282ead8.

Definition Mask (crc : Z) : Z :=
  u32 (Z.lor (Z.shiftr crc 15) (u32 (Z.shiftl crc 17)) + kMaskDelta).

Definition Unmask (masked_crc : Z) : Z :=
  let rot := u32 (masked_crc - kMaskDelta) in
  Z.lor (Z.shiftr rot 17) (u32 (Z.shiftl rot 15)).

(** [HardwareExtend], over the SSE4.2 intrinsics. *)
Section Hardware.
Variable _mm_crc32_u8 : Z -> Z -> Z.
Variable _mm_crc32_u32 : Z -> Z -> Z.

Fixpoint HardwareExtend_loop (data : bytes) (c : Z) : Z :=
  match data with
  | _ :: _ :: _ :: _ :: data' => HardwareExtend_loop data' (_mm_crc32_u32 c (DecodeFixed32 data))
  | _ => fold_left (fun c b => _mm_crc32_u8 c (bz b)) data c
  end.

Definition HardwareExtend (crc : Z) (data : bytes) : Z :=
  Z.lxor (HardwareExtend_loop data (Z.lxor crc kCRC32Xor)) kCRC32Xor.
End Hardware.

(** ** Reference: bit-serial CRC-32C *)

Definition kPoly : Z := 0x82f63b78.

(** One step of the reflected division: shift right, subtract the polynomial
    when the bit shifted out is set. *)
Definition crc_bit (c : Z) : Z :=
  Z.lxor (Z.shiftr c 1) (if Z.odd c then kPoly else 0).

Definition crc_zeros (n : nat) (c : Z) : Z := Nat.iter n crc_bit c.

(** Unfold [crc_zeros] last when comparing terms: its iterates grow exponentially. *)
#[global] Strategy 100 [crc_zeros].

Definition crc_step (c : Z) (b : byte) : Z := crc_zeros 8 (Z.lxor c (bz b)).

Definition crc32c_ref (crc : Z) (data : bytes) : Z :=
  Z.lxor (fold_left crc_step data (Z.lxor crc kCRC32Xor)) kCRC32Xor.

(** ** The reference is linear over GF(2) *)

Lemma crc_bit_lxor (a b : Z) : crc_bit (Z.lxor a b) = Z.lxor (crc_bit a) (crc_bit b).
Proof.
  unfold crc_bit. rewrite Z.shiftr_lxor.
  rewrite <- !Z.bit0_odd, Z.lxor_spec.
  destruct (Z.testbit a 0), (Z.testbit b 0); simpl; rewrite ?Z.lxor_0_r.
  - rewrite (Z.lxor_assoc (Z.shiftr a 1)), (Z.lxor_comm kPoly), Z.lxor_assoc, Z.lxor_nilpotent,
      Z.lxor_0_r. done.
  - rewrite !Z.lxor_assoc, (Z.lxor_comm kPoly). done.
  - rewrite Z.lxor_assoc. done.
  - done.
Qed.

Lemma crc_zeros_lxor (n : nat) (a b : Z) :
  crc_zeros n (Z.lxor a b) = Z.lxor (crc_zeros n a) (crc_zeros n b).
Proof.
  induction n as [|n IH]; [done|]. unfold crc_zeros in *. simpl.
  rewrite IH. apply crc_bit_lxor.
Qed.

Lemma crc_zeros_add (n m : nat) (a : Z) : crc_zeros (n + m) a = crc_zeros n (crc_zeros m a).
Proof. apply Nat.iter_add. Qed.

Lemma crc_zeros_S (n : nat) (a : Z) : crc_zeros (S n) a = crc_zeros n (crc_bit a).
Proof. unfold crc_zeros. rewrite Nat.iter_succ_r. done. Qed.

(** Shifting [n] zero bits out is a plain shift. *)
Lemma crc_zeros_shiftl (n : nat) (a : Z) : crc_zeros n (Z.shiftl a (Z.of_nat n)) = a.
Proof.
  revert a. induction n as [|n IH]; intros a; [apply Z.shiftl_0_r|].
  rewrite crc_zeros_S.
  replace (crc_bit (Z.shiftl a (Z.of_nat (S n)))) with (Z.shiftl a (Z.of_nat n)); [apply IH|].
  unfold crc_bit. rewrite <- Z.bit0_odd, Z.shiftl_spec_low by lia. rewrite Z.lxor_0_r.
  rewrite Z.shiftr_shiftl_l by lia. f_equal. lia.
Qed.

Lemma split_low (n a : Z) : 0 <= n -> a = Z.lxor (Z.land a (Z.ones n)) (Z.shiftl (Z.shiftr a n) n).
Proof.
  intros Hn. rewrite Z.lxor_lor.
  - apply Zbits_inj_nonneg. intros i Hi. rewrite Z.lor_spec, Z.land_spec, Z.shiftl_spec by lia.
    destruct (Z.lt_ge_cases i n).
    + rewrite Z.ones_spec_low, (Z.testbit_neg_r _ (i - n)) by lia.
      rewrite andb_true_r, orb_false_r. done.
    + rewrite Z.ones_spec_high, Z.shiftr_spec by lia. rewrite andb_false_r. simpl. f_equal. lia.
  - apply land_shiftl_disjoint; [done|]. rewrite Z.land_ones by lia.
    apply Z.mod_pos_bound. lia.
Qed.

(** ** The tables *)

(** All 256 entries of a table, checked by evaluation. *)
Lemma table_check (t : list Z) (f : Z -> Z) :
  forallb (fun k => table_get t (Z.of_nat k) =? f (Z.of_nat k)) (seq 0 256) = true ->
  forall i, 0 <= i < 256 -> table_get t i = f i.
Proof.
  intros Hb i Hi. rewrite forallb_forall in Hb. specialize (Hb (Z.to_nat i)).
  rewrite Z2Nat.id in Hb by lia. apply Z.eqb_eq, Hb, in_seq. lia.
Qed.

Lemma byte_table_ok (i : Z) :
  0 <= i < 256 -> table_get kByteExtensionTable i = crc_zeros 8 i.
Proof. apply (table_check _ (fun i => crc_zeros 8 i)). vm_compute. reflexivity. Qed.

Lemma stride_table_ok (i : Z) :
  0 <= i < 256 ->
  table_get kStrideExtensionTable3 i = crc_zeros 128 i /\
  table_get kStrideExtensionTable2 i = crc_zeros 128 (Z.shiftl i 8) /\
  table_get kStrideExtensionTable1 i = crc_zeros 128 (Z.shiftl i 16) /\
  table_get kStrideExtensionTable0 i = crc_zeros 128 (Z.shiftl i 24).
Proof.
  intros Hi. split_and!; revert i Hi.
  - apply (table_check _ (fun i => crc_zeros 128 i)). vm_compute. reflexivity.
  - apply (table_check _ (fun i => crc_zeros 128 (Z.shiftl i 8))). vm_compute. reflexivity.
  - apply (table_check _ (fun i => crc_zeros 128 (Z.shiftl i 16))). vm_compute. reflexivity.
  - apply (table_check _ (fun i => crc_zeros 128 (Z.shiftl i 24))). vm_compute. reflexivity.
Qed.

Lemma land_255_range (a : Z) : 0 <= Z.land a 0xff < 256.
Proof. change 0xff with (Z.ones 8). rewrite Z.land_ones by lia. apply Z.mod_pos_bound. lia. Qed.

(** The table step advances the register by one zero byte. *)
Lemma byte_ext_ok (w : Z) : byte_ext w = crc_zeros 8 w.
Proof.
  unfold byte_ext. rewrite byte_table_ok by apply land_255_range.
  rewrite (split_low 8 w) at 3 by lia. rewrite crc_zeros_lxor.
  rewrite (crc_zeros_shiftl 8). rewrite Z.lxor_comm. done.
Qed.

Lemma STEP1_ok (l : Z) (b : byte) : STEP1 l b = crc_step l b.
Proof.
  unfold STEP1, crc_step. rewrite <- byte_ext_ok. unfold byte_ext.
  pose proof (bz_range8 b) as Hb.
  rewrite Z.shiftr_lxor, (Z.shiftr_div_pow2 (bz b)), (Z.div_small (bz b)), Z.lxor_0_r by lia.
  rewrite Z.lxor_comm. f_equal. f_equal.
  apply Zbits_inj_nonneg. intros i Hi. rewrite Z.lxor_spec, !Z.land_spec, Z.lxor_spec.
  change 0xff with (Z.ones 8). destruct (Z.lt_ge_cases i 8).
  - rewrite Z.ones_spec_low by lia. rewrite !andb_true_r. done.
  - rewrite Z.ones_spec_high, (testbit_high 8 (bz b)) by lia. rewrite !andb_false_r. done.
Qed.

(** A word is the sum of its bytes in their places. *)
Lemma word_split_bytes (crc : Z) :
  Z.lxor (Z.land crc 0xff)
    (Z.lxor (Z.shiftl (Z.land (Z.shiftr crc 8) 0xff) 8)
       (Z.lxor (Z.shiftl (Z.land (Z.shiftr crc 16) 0xff) 16)
               (Z.shiftl (Z.shiftr crc 24) 24))) = crc.
Proof.
  change 0xff with (Z.ones 8).
  transitivity (Z.lxor (Z.land crc (Z.ones 8)) (Z.shiftl (Z.shiftr crc 8) 8));
    [|symmetry; apply split_low; lia]. f_equal.
  rewrite (split_low 8 (Z.shiftr crc 8)) at 2 by lia.
  rewrite Z.shiftl_lxor, Z.shiftl_shiftl, Z.shiftr_shiftr by lia. f_equal.
  rewrite (split_low 8 (Z.shiftr crc (8 + 8))) by lia.
  rewrite Z.shiftl_lxor, Z.shiftl_shiftl, Z.shiftr_shiftr by lia. done.
Qed.

(** The stride step: advance by sixteen zero bytes, then add the word. *)
Lemma STEP4_ok (word crc : Z) :
  0 <= crc < 2 ^ 32 -> STEP4 word crc = Z.lxor word (crc_zeros 128 crc).
Proof.
  intros Hc. unfold STEP4.
  assert (0 <= Z.shiftr crc 24 < 256) as H24.
  { rewrite Z.shiftr_div_pow2 by lia. split; [apply Z.div_pos; lia|].
    apply Z.div_lt_upper_bound; [lia|]. change (2 ^ 24 * 256) with (2 ^ 32). lia. }
  destruct (stride_table_ok (Z.land crc 0xff) (land_255_range _)) as (-> & _).
  destruct (stride_table_ok (Z.land (Z.shiftr crc 8) 0xff) (land_255_range _)) as (_ & -> & _).
  destruct (stride_table_ok (Z.land (Z.shiftr crc 16) 0xff) (land_255_range _)) as (_ & _ & -> & _).
  destruct (stride_table_ok (Z.shiftr crc 24) H24) as (_ & _ & _ & ->).
  rewrite !Z.lxor_assoc. f_equal. rewrite <- !crc_zeros_lxor, word_split_bytes. done.
Qed.

(** ** Ranges *)

Lemma crc_bit_range (c : Z) : 0 <= c < 2 ^ 32 -> 0 <= crc_bit c < 2 ^ 32.
Proof.
  intros Hc. apply lxor_range; [lia| apply shiftr_range; lia|].
  destruct (Z.odd c); vm_compute; split; congruence.
Qed.

Lemma crc_zeros_range (n : nat) (c : Z) : 0 <= c < 2 ^ 32 -> 0 <= crc_zeros n c < 2 ^ 32.
Proof. intros Hc. induction n as [|n IH]; [done|]. apply crc_bit_range, IH. Qed.

Lemma bz_range32 (b : byte) : 0 <= bz b < 2 ^ 32.
Proof. pose proof (bz_range b). lia. Qed.

Lemma crc_step_range (c : Z) (b : byte) : 0 <= c < 2 ^ 32 -> 0 <= crc_step c b < 2 ^ 32.
Proof. intros. apply crc_zeros_range, lxor_range; auto using bz_range32 with lia. Qed.

Lemma fold_crc_range (data : bytes) (c : Z) :
  0 <= c < 2 ^ 32 -> 0 <= fold_left crc_step data c < 2 ^ 32.
Proof.
  revert c. induction data as [|b data IH]; intros c Hc; [done|].
  rewrite fold_left_cons. apply IH, crc_step_range. done.
Qed.

Lemma STEP4_range (word crc : Z) :
  0 <= word < 2 ^ 32 -> 0 <= crc < 2 ^ 32 -> 0 <= STEP4 word crc < 2 ^ 32.
Proof.
  intros. rewrite STEP4_ok by done. apply lxor_range; [lia|done|]. apply crc_zeros_range. done.
Qed.

Create HintDb crc.
#[export] Hint Resolve DecodeFixed32_range STEP4_range crc_zeros_range : crc.

(** ** Four bytes at a time *)

Lemma crc_step_word (l r : Z) (b : byte) :
  crc_zeros 8 (Z.lxor l (Z.lor (bz b) (Z.shiftl r 8))) = Z.lxor (crc_step l b) r.
Proof.
  rewrite <- Z.lxor_lor by (apply land_shiftl_disjoint; [lia|apply bz_range8]).
  rewrite <- Z.lxor_assoc, crc_zeros_lxor, (crc_zeros_shiftl 8). done.
Qed.

Lemma fold_crc_le_combine (w : bytes) (l : Z) :
  fold_left crc_step w l = crc_zeros (8 * length w) (Z.lxor l (le_combine w)).
Proof.
  revert l. induction w as [|b w IH]; intros l.
  - simpl. rewrite Z.lxor_0_r. done.
  - rewrite fold_left_cons, IH. cbn [le_combine length].
    replace (8 * S (length w))%nat with (8 * length w + 8)%nat by lia.
    rewrite crc_zeros_add, crc_step_word. done.
Qed.

Lemma fold_crc_word (b0 b1 b2 b3 : byte) (p : bytes) (l : Z) :
  fold_left crc_step (b0 :: b1 :: b2 :: b3 :: p) l
  = fold_left crc_step p
      (crc_zeros 32 (Z.lxor l (DecodeFixed32 (b0 :: b1 :: b2 :: b3 :: p)))).
Proof.
  assert (DecodeFixed32 (b0 :: b1 :: b2 :: b3 :: p) = le_combine [b0; b1; b2; b3]) as -> by done.
  change (b0 :: b1 :: b2 :: b3 :: p) with ([b0; b1; b2; b3] ++ p).
  rewrite fold_left_app.
  rewrite (fold_crc_le_combine [b0; b1; b2; b3]).
  change (8 * length [b0; b1; b2; b3])%nat with 32%nat. reflexivity.
Qed.

(** ** The four strides

    [pending c0 c1 c2 c3] is the register the four partial results stand for. *)

Definition pending (c0 c1 c2 c3 : Z) : Z :=
  Z.lxor (Z.lxor (Z.lxor (crc_zeros 128 c0) (crc_zeros 96 c1)) (crc_zeros 64 c2)) (crc_zeros 32 c3).

Lemma STEP4W_ok (l w : Z) : STEP4W l w = crc_zeros 32 (Z.lxor w l).
Proof. unfold STEP4W. rewrite !byte_ext_ok, <- !crc_zeros_add. done. Qed.

Lemma STEP4W_pending (c0 c1 c2 c3 : Z) :
  STEP4W (STEP4W (STEP4W (STEP4W 0 c0) c1) c2) c3 = pending c0 c1 c2 c3.
Proof.
  rewrite !STEP4W_ok. unfold pending. rewrite Z.lxor_0_r, !crc_zeros_lxor, <- !crc_zeros_add.
  rewrite (Z.lxor_comm (crc_zeros 32 c3)). f_equal.
  rewrite (Z.lxor_comm (crc_zeros _ c2)). f_equal. apply Z.lxor_comm.
Qed.

Lemma pending_step (c0 c1 c2 c3 w : Z) :
  0 <= c0 < 2 ^ 32 ->
  crc_zeros 32 (Z.lxor (pending c0 c1 c2 c3) w) = pending c1 c2 c3 (STEP4 w c0).
Proof.
  intros. rewrite STEP4_ok by done. unfold pending. rewrite !crc_zeros_lxor, <- !crc_zeros_add.
  change (32 + 128)%nat with 160%nat. change (32 + 96)%nat with 128%nat.
  change (32 + 64)%nat with 96%nat. change (32 + 32)%nat with 64%nat.
  rewrite (Z.lxor_comm (crc_zeros 32 w)), <- !Z.lxor_assoc. f_equal.
  rewrite !Z.lxor_assoc, (Z.lxor_comm (crc_zeros 160 c0)), <- !Z.lxor_assoc. done.
Qed.

Lemma words_ok (n : nat) (p : bytes) (c0 c1 c2 c3 : Z) :
  (length p <= n)%nat ->
  0 <= c0 < 2 ^ 32 -> 0 <= c1 < 2 ^ 32 -> 0 <= c2 < 2 ^ 32 -> 0 <= c3 < 2 ^ 32 ->
  let '(p', (d0, d1, d2, d3)) := words p c0 c1 c2 c3 in
  fold_left crc_step p' (pending d0 d1 d2 d3) = fold_left crc_step p (pending c0 c1 c2 c3).
Proof.
  revert p c0 c1 c2 c3. induction n as [|n IH]; intros p c0 c1 c2 c3 Hn H0 H1 H2 H3.
  - destruct p; [done|simpl in Hn; lia].
  - destruct p as [|b0 [|b1 [|b2 [|b3 p]]]]; try done.
    cbn [words]. rewrite fold_crc_word, pending_step by done.
    apply IH; auto with crc. simpl in Hn. lia.
Qed.

Lemma swaths_ok (n : nat) (p : bytes) (c0 c1 c2 c3 : Z) :
  (length p <= n)%nat ->
  0 <= c0 < 2 ^ 32 -> 0 <= c1 < 2 ^ 32 -> 0 <= c2 < 2 ^ 32 -> 0 <= c3 < 2 ^ 32 ->
  let '(p', (d0, d1, d2, d3)) := swaths p c0 c1 c2 c3 in
  fold_left crc_step p' (pending d0 d1 d2 d3) = fold_left crc_step p (pending c0 c1 c2 c3) /\
  0 <= d0 < 2 ^ 32 /\ 0 <= d1 < 2 ^ 32 /\ 0 <= d2 < 2 ^ 32 /\ 0 <= d3 < 2 ^ 32.
Proof.
  revert p c0 c1 c2 c3. induction n as [|n IH]; intros p c0 c1 c2 c3 Hn H0 H1 H2 H3.
  - destruct p; [done|simpl in Hn; lia].
  - destruct p as [|b0 [|b1 [|b2 [|b3 [|b4 [|b5 [|b6 [|b7 [|b8 [|b9 [|ba [|bb [|bc [|bd [|be [|bf p]]]]]]]]]]]]]]]];
      try done.
    cbn [swaths]. rewrite fold_crc_word, pending_step by done.
    rewrite fold_crc_word, pending_step by done. rewrite fold_crc_word, pending_step by done.
    rewrite fold_crc_word, pending_step by done.
    apply IH; unfold ReadUint32LE; auto with crc. simpl in Hn. lia.
Qed.

Lemma strides_ok (p : bytes) (l : Z) :
  16 <= zlen p -> 0 <= l < 2 ^ 32 ->
  let '(p', l') := strides p l in
  fold_left crc_step p' l' = fold_left crc_step p l.
Proof.
  intros Hp Hl. unfold zlen in Hp.
  destruct p as [|b0 [|b1 [|b2 [|b3 [|b4 [|b5 [|b6 [|b7 [|b8 [|b9 [|ba [|bb [|bc [|bd [|be [|bf p]]]]]]]]]]]]]]]];
    cbn [length] in Hp; try lia.
  unfold strides. cbn [drop]. rewrite !drop_0.
  rewrite 4 fold_crc_word. unfold ReadUint32LE.
  set (w0 := DecodeFixed32 _). set (w1 := DecodeFixed32 _).
  set (w2 := DecodeFixed32 _). set (w3 := DecodeFixed32 _).
  assert (0 <= Z.lxor w0 l < 2 ^ 32) by (apply lxor_range; [lia|apply DecodeFixed32_range|done]).
  pose proof (swaths_ok (length p) p (Z.lxor w0 l) w1 w2 w3 ltac:(lia)
    ltac:(done) ltac:(apply DecodeFixed32_range) ltac:(apply DecodeFixed32_range)
    ltac:(apply DecodeFixed32_range)) as HS.
  destruct (swaths p (Z.lxor w0 l) w1 w2 w3) as [p1 [[[d0 d1] d2] d3]].
  destruct HS as (HS & R0 & R1 & R2 & R3).
  pose proof (words_ok (length p1) p1 d0 d1 d2 d3 ltac:(lia) R0 R1 R2 R3) as HW.
  destruct (words p1 d0 d1 d2 d3) as [p2 [[[e0 e1] e2] e3]].
  rewrite STEP4W_pending, HW, HS. f_equal.
  unfold pending. rewrite !crc_zeros_lxor, <- !crc_zeros_add.
  change (32 + 32)%nat with 64%nat. change (32 + 64)%nat with 96%nat.
  change (32 + 96)%nat with 128%nat. rewrite (Z.lxor_comm (crc_zeros 128 w0)). done.
Qed.

Lemma fold_STEP1 (p : bytes) (l : Z) : fold_left STEP1 p l = fold_left crc_step p l.
Proof.
  revert l. induction p as [|b p IH]; intros l; [done|].
  rewrite !fold_left_cons, STEP1_ok. apply IH.
Qed.

Lemma RoundUp4_range (addr : Z) :
  0 <= addr -> addr + 3 < 2 ^ 64 -> addr <= RoundUp 4 addr < addr + 4.
Proof.
  intros H0 H1. unfold RoundUp. change (4 - 1) with 3. rewrite wrap_small by lia.
  rewrite <- Z.ldiff_land. change (Z.ldiff (addr + 3) 3) with (Z.ldiff (addr + 3) (Z.ones 2)).
  rewrite Z.ldiff_ones_r, Z.shiftl_mul_pow2, Z.shiftr_div_pow2 by lia. change (2 ^ 2) with 4.
  pose proof (Z.div_mod (addr + 3) 4 ltac:(lia)).
  pose proof (Z.mod_pos_bound (addr + 3) 4 ltac:(lia)). lia.
Qed.

Lemma kCRC32Xor_range : 0 <= kCRC32Xor < 2 ^ 32.
Proof. vm_compute. split; congruence. Qed.

Lemma Extend_ref (addr crc : Z) (data : bytes) :
  0 <= addr -> addr + 3 < 2 ^ 64 -> 0 <= crc < 2 ^ 32 ->
  Extend addr crc data = crc32c_ref crc data.
Proof.
  intros Ha Ha' Hc. unfold Extend, crc32c_ref.
  pose proof (RoundUp4_range addr Ha Ha') as Hx. set (x := RoundUp 4 addr) in *.
  assert (0 <= Z.lxor crc kCRC32Xor < 2 ^ 32) as Hl
    by (apply lxor_range; [lia|done|apply kCRC32Xor_range]).
  set (l := Z.lxor crc kCRC32Xor) in *.
  assert (forall q m, 0 <= m < 2 ^ 32 ->
    Z.lxor (let '(p, l) := if 16 <=? zlen q then strides q m else (q, m) in fold_left STEP1 p l) kCRC32Xor
    = Z.lxor (fold_left crc_step q m) kCRC32Xor) as Hrest.
  { intros q m Hm. destruct (Z.leb_spec 16 (zlen q)).
    - pose proof (strides_ok q m ltac:(done) Hm) as HS. destruct (strides q m) as [p' l'].
      rewrite fold_STEP1, HS. done.
    - rewrite fold_STEP1. done. }
  destruct (Z.leb_spec x (addr + zlen data)).
  - replace (fold_left crc_step data l)
      with (fold_left crc_step (zdrop (x - addr) data) (fold_left STEP1 (ztake (x - addr) data) l))
      by (rewrite fold_STEP1, <- fold_left_app, ztake_zdrop; done).
    specialize (Hrest (zdrop (x - addr) data) (fold_left STEP1 (ztake (x - addr) data) l)).
    destruct (if 16 <=? _ then _ else _) in Hrest |- *. rewrite Hrest; [done|].
    rewrite fold_STEP1. apply fold_crc_range. done.
  - specialize (Hrest data l Hl). destruct (if 16 <=? _ then _ else _) in Hrest |- *. done.
Qed.

(** ** Injectivity: no nonzero register is lost *)

Lemma crc_bit_zero (c : Z) : 0 <= c < 2 ^ 32 -> crc_bit c = 0 -> c = 0.
Proof.
  intros Hc H. unfold crc_bit in H. apply Z.lxor_eq in H.
  rewrite Z.shiftr_div_pow2 in H by lia. change (2 ^ 1) with 2 in H.
  pose proof (Z.div_mod c 2 ltac:(lia)). rewrite Zmod_odd in *.
  assert (c / 2 < 2 ^ 31) by (apply Z.div_lt_upper_bound; lia).
  destruct (Z.odd c); [|lia]. unfold kPoly in H. lia.
Qed.

Lemma crc_zeros_zero (n : nat) (c : Z) : 0 <= c < 2 ^ 32 -> crc_zeros n c = 0 -> c = 0.
Proof.
  induction n as [|n IH]; intros Hc H; [done|].
  apply IH; [done|]. apply crc_bit_zero; [apply crc_zeros_range; done|done].
Qed.

Lemma crc_zeros_inj (n : nat) (a b : Z) :
  0 <= a < 2 ^ 32 -> 0 <= b < 2 ^ 32 -> crc_zeros n a = crc_zeros n b -> a = b.
Proof.
  intros Ha Hb H. apply Z.lxor_eq. apply (crc_zeros_zero n).
  - apply lxor_range; [lia|done..].
  - rewrite crc_zeros_lxor, H. apply Z.lxor_nilpotent.
Qed.

Lemma lxor_inj_l (a b c : Z) : Z.lxor c a = Z.lxor c b -> a = b.
Proof.
  intros H. apply (f_equal (Z.lxor c)) in H.
  rewrite <- !Z.lxor_assoc, Z.lxor_nilpotent, !Z.lxor_0_l in H. done.
Qed.

Lemma fold_crc_inj_l (data : bytes) (a b : Z) :
  0 <= a < 2 ^ 32 -> 0 <= b < 2 ^ 32 ->
  fold_left crc_step data a = fold_left crc_step data b -> a = b.
Proof.
  revert a b. induction data as [|x data IH]; intros a b Ha Hb H; [done|].
  rewrite !fold_left_cons in H. apply IH in H; [|apply crc_step_range; done..].
  unfold crc_step in H. apply crc_zeros_inj in H; [|apply lxor_range; auto using bz_range32 with lia..].
  rewrite !(Z.lxor_comm _ (bz x)) in H. apply lxor_inj_l in H. done.
Qed.

Lemma le_combine_inj (a b : bytes) : length a = length b -> le_combine a = le_combine b -> a = b.
Proof.
  intros Hl H. rewrite <- (le_split_combine a), <- (le_split_combine b), Hl, H. done.
Qed.

Lemma fold_crc_burst (w w' rest : bytes) (l : Z) :
  0 <= l < 2 ^ 32 -> length w = length w' -> (length w <= 4)%nat ->
  fold_left crc_step (w ++ rest) l = fold_left crc_step (w' ++ rest) l -> w = w'.
Proof.
  intros Hl Hlen H4 H. rewrite !fold_left_app in H.
  apply fold_crc_inj_l in H; [|apply fold_crc_range; done..].
  rewrite !fold_crc_le_combine, Hlen in H.
  assert (forall v : bytes, (length v <= 4)%nat -> 0 <= le_combine v < 2 ^ 32) as HR.
  { intros v Hv. pose proof (le_combine_range v). split; [lia|].
    eapply Z.lt_le_trans; [apply H0|]. apply Z.pow_le_mono_r; unfold zlen; lia. }
  apply crc_zeros_inj in H; [|apply lxor_range; auto with lia; apply HR; lia..].
  apply lxor_inj_l in H. apply le_combine_inj; done.
Qed.

(** ** Masking *)

Lemma rotate_range (a n : Z) :
  0 <= a < 2 ^ 32 -> 0 <= n -> 0 <= Z.lor (Z.shiftr a n) (u32 (Z.shiftl a (32 - n))) < 2 ^ 32.
Proof.
  intros. apply lor_range; [lia| apply shiftr_range; lia | apply wrap_range; lia].
Qed.

(** Rotating right by [n] and then by [32 - n] is the identity. *)
Lemma rotate_rotate (a n : Z) :
  0 <= a < 2 ^ 32 -> 0 < n < 32 ->
  let r := Z.lor (Z.shiftr a n) (u32 (Z.shiftl a (32 - n))) in
  Z.lor (Z.shiftr r (32 - n)) (u32 (Z.shiftl r n)) = a.
Proof.
  intros Ha Hn r. apply Zbits_inj_nonneg. intros i Hi.
  rewrite Z.lor_spec, Z.shiftr_spec, testbit_wrap, Z.shiftl_spec by lia.
  unfold r. rewrite !Z.lor_spec, !testbit_wrap by lia.
  rewrite (Z.shiftl_spec a (32 - n) (i + (32 - n))), (Z.shiftr_spec a n (i + (32 - n))) by lia.
  replace (i + (32 - n) - (32 - n)) with i by lia.
  rewrite (testbit_high 32 a (i + (32 - n) + n)) by lia.
  destruct (Z.ltb_spec i n).
  - rewrite (Z.testbit_neg_r (Z.shiftr a n)), (Z.testbit_neg_r (Z.shiftl a (32 - n))) by lia.
    destruct (Z.ltb_spec (i + (32 - n)) 32); [|lia]. rewrite !andb_false_r, orb_false_r. done.
  - destruct (Z.ltb_spec (i + (32 - n)) 32); [lia|]. simpl.
    destruct (Z.ltb_spec i 32); simpl.
    + rewrite Z.shiftr_spec by lia. replace (i - n + n) with i by lia.
      rewrite (Z.shiftl_spec a) by lia. rewrite (Z.testbit_neg_r a (i - n - (32 - n))) by lia.
      rewrite andb_false_r, orb_false_r. done.
    + symmetry. apply (testbit_high 32); lia.
Qed.

Lemma Unmask_Mask (crc : Z) : 0 <= crc < 2 ^ 32 -> Unmask (Mask crc) = crc.
Proof.
  intros Hc. unfold Unmask, Mask.
  set (r := Z.lor (Z.shiftr crc 15) (u32 (Z.shiftl crc 17))).
  assert (u32 (u32 (r + kMaskDelta) - kMaskDelta) = r) as ->.
  { unfold wrap. rewrite Zminus_mod_idemp_l. replace (r + kMaskDelta - kMaskDelta) with r by lia.
    apply Z.mod_small. apply (rotate_range crc 15); lia. }
  apply (rotate_rotate crc 15); lia.
Qed.

Lemma Mask_range (crc : Z) : 0 <= Mask crc < 2 ^ 32.
Proof. apply wrap_range. lia. Qed.

Lemma Extend_range (addr crc : Z) (data : bytes) :
  0 <= addr -> addr + 3 < 2 ^ 64 -> 0 <= crc < 2 ^ 32 -> 0 <= Extend addr crc data < 2 ^ 32.
Proof.
  intros. rewrite Extend_ref by done. unfold crc32c_ref.
  apply lxor_range; [lia| |apply kCRC32Xor_range]. apply fold_crc_range, lxor_range; [lia|done|].
  apply kCRC32Xor_range.
Qed.

Lemma crc32c_ref_app (crc : Z) (a b : bytes) :
  crc32c_ref crc (a ++ b) = crc32c_ref (crc32c_ref crc a) b.
Proof.
  unfold crc32c_ref. rewrite fold_left_app, Z.lxor_assoc, Z.lxor_nilpotent, Z.lxor_0_r. done.
Qed.

Lemma burst_changes_value_at (addr addr' : Z) (pre w w' suf : bytes) :
  0 <= addr -> addr + 3 < 2 ^ 64 -> 0 <= addr' -> addr' + 3 < 2 ^ 64 ->
  length w = length w' -> (length w <= 4)%nat -> w <> w' ->
  Value addr (pre ++ w ++ suf) <> Value addr' (pre ++ w' ++ suf).
Proof.
  intros ? ? ? ? Hlen H4 Hne Heq. apply Hne. unfold Value in Heq.
  rewrite !Extend_ref in Heq by (done || lia). unfold crc32c_ref in Heq.
  rewrite !(Z.lxor_comm _ kCRC32Xor) in Heq. apply lxor_inj_l in Heq.
  rewrite !fold_left_app, <- !fold_left_app in Heq.
  rewrite (fold_left_app _ pre), (fold_left_app _ pre (w' ++ suf)) in Heq.
  apply fold_crc_burst in Heq; [done| |done|done].
  apply fold_crc_range, lxor_range; [lia|apply kCRC32Xor_range|lia].
Qed.

Lemma burst_changes_value (pre w w' suf : bytes) :
  length w = length w' -> (length w <= 4)%nat -> w <> w' ->
  Value 0 (pre ++ w ++ suf) <> Value 0 (pre ++ w' ++ suf).
Proof. apply burst_changes_value_at; lia. Qed.

(** ** Properties *)

(** C36. The strided software CRC computes CRC-32C: for every alignment of the
    buffer, every starting checksum and every data, [Extend] equals the
    bit-serial division by the Castagnoli polynomial. *)
Theorem crc_extend_equals_bit_serial (addr crc : Z) (data : bytes) :
  0 <= addr -> addr + 3 < 2 ^ 64 -> 0 <= crc < 2 ^ 32 ->
  Extend addr crc data = crc32c_ref crc data.
Proof. apply Extend_ref. Qed.

Lemma crc_extend_equals_bit_serial_witness :
  Extend 1 0 (map zb [0x31; 0x32; 0x33; 0x34; 0x35; 0x36; 0x37; 0x38; 0x39]) = 0xe3069283.
Proof.
  rewrite (crc_extend_equals_bit_serial 1 0); [vm_compute; reflexivity|lia..].
Defined.

(** [Extend(Value(A), B)] is the checksum of the concatenation of [A] and
    [B], as the header promises, whatever the alignments of the three buffers. *)
Theorem crc_extend_concat (a1 a2 a3 : Z) (crc : Z) (a b : bytes) :
  0 <= a1 -> a1 + 3 < 2 ^ 64 -> 0 <= a2 -> a2 + 3 < 2 ^ 64 -> 0 <= a3 -> a3 + 3 < 2 ^ 64 ->
  0 <= crc < 2 ^ 32 ->
  Extend a2 (Extend a1 crc a) b = Extend a3 crc (a ++ b).
Proof.
  intros. rewrite (Extend_ref a2) by (auto using Extend_range).
  rewrite (Extend_ref a1), (Extend_ref a3) by done. symmetry. apply crc32c_ref_app.
Qed.

Lemma crc_extend_concat_witness :
  Extend 2 (Extend 1 0 [Byte.x01]) (Byte.x02 :: repeat Byte.x03 40)
  = Extend 0 0 ([Byte.x01] ++ Byte.x02 :: repeat Byte.x03 40).
Proof. apply (crc_extend_concat 1 2 0); lia. Defined.

(** The checksum detects every burst of at most four corrupted bytes:
    two buffers of the same length that differ in such a window have different
    checksums. *)
Theorem crc_detects_burst (addr addr' : Z) (pre w w' suf : bytes) :
  0 <= addr -> addr + 3 < 2 ^ 64 -> 0 <= addr' -> addr' + 3 < 2 ^ 64 ->
  length w = length w' -> (length w <= 4)%nat -> w <> w' ->
  Value addr (pre ++ w ++ suf) <> Value addr' (pre ++ w' ++ suf).
Proof.
  apply burst_changes_value_at.
Qed.

Lemma crc_detects_burst_witness :
  Value 0 ([Byte.x01] ++ [Byte.x02; Byte.x03] ++ [Byte.x04])
  <> Value 3 ([Byte.x01] ++ [Byte.x02; Byte.xff] ++ [Byte.x04]).
Proof. apply crc_detects_burst; simpl; (lia || done). Defined.

(** Checksums survive the mask they are stored under: [Unmask] inverts
    [Mask] on every 32-bit value, and the masked value is again 32 bits. *)
Theorem crc_mask_roundtrip (crc : Z) :
  0 <= crc < 2 ^ 32 -> Unmask (Mask crc) = crc /\ 0 <= Mask crc < 2 ^ 32.
Proof. intros. split; [apply Unmask_Mask; done|apply Mask_range]. Qed.

Lemma crc_mask_roundtrip_witness : Unmask (Mask 0xe3069283) = 0xe3069283.
Proof. apply crc_mask_roundtrip. lia. Defined.

(** The SSE4.2 path agrees with the software path, given what the
    processor manual says of the two instructions: each divides the register
    xor the operand, 8 or 32 bits, by the Castagnoli polynomial. *)
Theorem hardware_equals_software (crc32_u8 crc32_u32 : Z -> Z -> Z)
  (u8_doc : forall c b, 0 <= c < 2 ^ 32 -> 0 <= b < 2 ^ 8 -> crc32_u8 c b = crc_zeros 8 (Z.lxor c b))
  (u32_doc : forall c w, 0 <= c < 2 ^ 32 -> 0 <= w < 2 ^ 32 ->
             crc32_u32 c w = crc_zeros 32 (Z.lxor c w))
  (addr crc : Z) (data : bytes) :
  0 <= addr -> addr + 3 < 2 ^ 64 -> 0 <= crc < 2 ^ 32 ->
  HardwareExtend crc32_u8 crc32_u32 crc data = Extend addr crc data.
Proof.
  intros. rewrite Extend_ref by done. unfold HardwareExtend, crc32c_ref. f_equal.
  assert (0 <= Z.lxor crc kCRC32Xor < 2 ^ 32) as Hl
    by (apply lxor_range; [lia|done|apply kCRC32Xor_range]).
  revert Hl. generalize (Z.lxor crc kCRC32Xor).
  assert (forall d : bytes, forall l, 0 <= l < 2 ^ 32 ->
    fold_left (fun c b => crc32_u8 c (bz b)) d l = fold_left crc_step d l) as Hb.
  { induction d as [|b d IH]; intros l Hl; [done|]. rewrite !fold_left_cons.
    rewrite u8_doc by (auto using bz_range8). apply IH, crc_step_range. done. }
  assert (forall n, forall d : bytes, (length d <= n)%nat -> forall l, 0 <= l < 2 ^ 32 ->
    HardwareExtend_loop crc32_u8 crc32_u32 d l = fold_left crc_step d l) as Hn.
  { induction n as [|n IH]; intros d Hd l Hl.
    - destruct d; [done|simpl in Hd; lia].
    - destruct d as [|b0 [|b1 [|b2 [|b3 d]]]]; try (apply Hb; done).
      cbn [HardwareExtend_loop]. rewrite fold_crc_word.
      rewrite u32_doc by (auto using DecodeFixed32_range). apply IH; [simpl in Hd; lia|].
      apply crc_zeros_range, lxor_range; [lia|done|apply DecodeFixed32_range]. }
  intros l Hl. apply (Hn (length data)); [lia|done].
Qed.

Lemma hardware_equals_software_witness :
  HardwareExtend (fun c b => crc_zeros 8 (Z.lxor c b)) (fun c w => crc_zeros 32 (Z.lxor c w)) 0
    (repeat Byte.x05 9) = Extend 3 0 (repeat Byte.x05 9).
Proof.
  apply (hardware_equals_software (fun c b => crc_zeros 8 (Z.lxor c b))
           (fun c w => crc_zeros 32 (Z.lxor c w)) (fun c b _ _ => eq_refl) (fun c w _ _ => eq_refl)
           3 0); lia.
Defined.
