(* ===== verification/Hash.v ===== *)
(** * Hash: the 32-bit Murmur-like hash ([util/hash.cc]) *)

From S2P Require Import Prelude Coding.

Definition hash_m : Z := 0xc6a4a793.
Definition hash_r : Z := 24.

(** The [switch (n)] over the last [n < 4] bytes. *)
Definition Hash_tail (p : bytes) (h : Z) : Z :=
  let finish h := let h := u32 (h * hash_m) in Z.lxor h (Z.shiftr h hash_r) in
  match p with
  | [p0; p1; p2] =>
      let h := u32 (h + Z.shiftl (bz p2) 16) in
      let h := u32 (h + Z.shiftl (bz p1) 8) in
      finish (u32 (h + bz p0))
  | [p0; p1] =>
      let h := u32 (h + Z.shiftl (bz p1) 8) in
      finish (u32 (h + bz p0))
  | [p0] => finish (u32 (h + bz p0))
  | _ => h
  end.

(** [while (n >= 4)], four bytes at a time, then the switch. *)
Fixpoint Hash_loop (p : bytes) (h : Z) : Z :=
  match p with
  | _ :: _ :: _ :: _ :: p' =>
      let w := DecodeFixed32 p in
      let h := u32 (h + w) in
      let h := u32 (h * hash_m) in
      Hash_loop p' (Z.lxor h (Z.shiftr h 16))
  | _ => Hash_tail p h
  end.

Definition Hash (data : bytes) (seed : Z) : Z :=
  Hash_loop data (Z.lxor seed (u32 (u32 (zlen data) * hash_m))).

Lemma lxor_shiftr_range (h n : Z) :
  0 <= n -> 0 <= h < 2 ^ 32 -> 0 <= Z.lxor h (Z.shiftr h n) < 2 ^ 32.
Proof. intros. apply lxor_range; [lia|done|]. apply shiftr_range; lia. Qed.

Lemma Hash_tail_range (p : bytes) (h : Z) : 0 <= h < 2 ^ 32 -> 0 <= Hash_tail p h < 2 ^ 32.
Proof.
  intros Hh. unfold Hash_tail.
  destruct p as [|p0 [|p1 [|p2 [|p3 p]]]]; try done;
    (apply lxor_shiftr_range; [vm_compute; congruence|apply wrap_range; lia]).
Qed.

Lemma Hash_loop_range (n : nat) (p : bytes) (h : Z) :
  (length p <= n)%nat -> 0 <= h < 2 ^ 32 -> 0 <= Hash_loop p h < 2 ^ 32.
Proof.
  revert p h. induction n as [|n IH]; intros p h Hn Hh.
  - destruct p; [done|simpl in Hn; lia].
  - destruct p as [|p0 [|p1 [|p2 [|p3 p]]]]; try (apply Hash_tail_range; done).
    cbn [Hash_loop]. apply IH; [simpl in Hn; lia|].
    apply lxor_shiftr_range; [lia|]. apply wrap_range. lia.
Qed.

(** The hash is a 32-bit value. *)
Lemma Hash_range (data : bytes) (seed : Z) : 0 <= seed < 2 ^ 32 -> 0 <= Hash data seed < 2 ^ 32.
Proof.
  intros. apply (Hash_loop_range (length data)); [lia|].
  apply lxor_range; [lia|done|]. apply wrap_range. lia.
Qed.
