(* ===== verification/Comparator.v ===== *)
(** * Comparator: the ordering interface and the bytewise ordering
    ([include/leveldb/comparator.h], [util/comparator.cc])

    [Comparator] is the abstract class every sorted structure is built on;
    [ComparatorLaws] is what its documentation asks of an implementation and
    all that the other files use.  The [std::strong_ordering] result is the
    [comparison] type. *)

From S2P Require Import Prelude.

Class Comparator := {
  Name : string;
  Compare : bytes -> bytes -> comparison;
  FindShortestSeparator : bytes -> bytes -> bytes;
  FindShortSuccessor : bytes -> bytes
}.

(** Derived tests: [Compare(a, b) < 0] and [Compare(a, b) <= 0]. *)
Definition clt `{Comparator} (a b : bytes) : Prop := Compare a b = Lt.
Definition cle `{Comparator} (a b : bytes) : Prop := Compare a b <> Gt.
Definition ceq `{Comparator} (a b : bytes) : Prop := Compare a b = Eq.

(** The documented contract: a total order; [FindShortestSeparator] of
    [start < limit] lies in [[start, limit)]; [FindShortSuccessor] does not
    decrease.  [sep_eq] covers a call outside the documented precondition that
    [InternalKeyComparator] makes (two internal keys of one user key): a string
    between a key and itself is that key. *)
Class ComparatorLaws (C : Comparator) : Prop := {
  cmp_refl : forall a, Compare a a = Eq;
  cmp_antisym : forall a b, Compare b a = CompOpp (Compare a b);
  cmp_le_trans : forall a b c, cle a b -> cle b c -> cle a c;
  sep_ge : forall start limit, clt start limit -> cle start (FindShortestSeparator start limit);
  sep_lt : forall start limit, clt start limit -> clt (FindShortestSeparator start limit) limit;
  sep_eq : forall start limit, ceq start limit -> ceq start (FindShortestSeparator start limit);
  succ_ge : forall key, cle key (FindShortSuccessor key)
}.

Section Order.
Context {C : Comparator} {CL : ComparatorLaws C}.

Lemma clt_cle (a b : bytes) : clt a b -> cle a b.
Proof. unfold clt, cle. congruence. Qed.

Lemma ceq_cle (a b : bytes) : ceq a b -> cle a b.
Proof. unfold ceq, cle. congruence. Qed.

Lemma clt_irrefl (a : bytes) : ~ clt a a.
Proof. unfold clt. rewrite cmp_refl. done. Qed.

Lemma cle_refl (a : bytes) : cle a a.
Proof. unfold cle. rewrite cmp_refl. done. Qed.

Lemma ceq_refl (a : bytes) : ceq a a.
Proof. apply cmp_refl. Qed.

Lemma not_clt (a b : bytes) : ~ clt a b <-> cle b a.
Proof. unfold clt, cle. rewrite (cmp_antisym a b). destruct (Compare a b); simpl; naive_solver. Qed.

Lemma not_cle (a b : bytes) : ~ cle a b <-> clt b a.
Proof. unfold clt, cle. rewrite (cmp_antisym a b). destruct (Compare a b); simpl; naive_solver. Qed.

Lemma cmp_gt (a b : bytes) : Compare a b = Gt <-> clt b a.
Proof. unfold clt. rewrite (cmp_antisym a b). destruct (Compare a b); simpl; naive_solver. Qed.

Lemma cle_antisym (a b : bytes) : cle a b -> cle b a -> ceq a b.
Proof. unfold cle, ceq. rewrite (cmp_antisym a b). destruct (Compare a b); simpl; naive_solver. Qed.

Lemma cle_clt_trans (a b c : bytes) : cle a b -> clt b c -> clt a c.
Proof.
  intros H1 H2. apply not_cle. intros H3. apply not_cle in H2. apply H2.
  eapply cmp_le_trans; eauto.
Qed.

Lemma clt_cle_trans (a b c : bytes) : clt a b -> cle b c -> clt a c.
Proof.
  intros H1 H2. apply not_cle. intros H3. apply not_cle in H1. apply H1.
  eapply cmp_le_trans; eauto.
Qed.

Lemma clt_trans (a b c : bytes) : clt a b -> clt b c -> clt a c.
Proof. intros. eapply cle_clt_trans; eauto using clt_cle. Qed.

Lemma ceq_sym (a b : bytes) : ceq a b -> ceq b a.
Proof. unfold ceq. rewrite (cmp_antisym a b). intros ->. done. Qed.

Lemma ceq_trans (a b c : bytes) : ceq a b -> ceq b c -> ceq a c.
Proof.
  intros H1 H2. apply cle_antisym; eapply cmp_le_trans; eauto using ceq_cle, ceq_sym.
Qed.

#[export] Instance cle_preorder : PreOrder cle.
Proof. split; [exact cle_refl|exact cmp_le_trans]. Qed.

#[export] Instance clt_strict : StrictOrder clt.
Proof. split; [exact clt_irrefl|exact clt_trans]. Qed.

#[export] Instance ceq_equiv : Equivalence ceq.
Proof. split; [exact ceq_refl|exact ceq_sym|exact ceq_trans]. Qed.

(** Keys that compare equal are interchangeable in every comparison. *)
#[export] Instance Compare_proper : Proper (ceq ==> ceq ==> eq) Compare.
Proof.
  intros a a' Ha b b' Hb.
  destruct (Compare a b) eqn:E; symmetry.
  - change (ceq a' b'). transitivity a; [symmetry; done|]. transitivity b; done.
  - change (clt a' b'). apply cle_clt_trans with a; [apply ceq_cle; symmetry; done|].
    apply clt_cle_trans with b; [done|apply ceq_cle; done].
  - apply cmp_gt in E. apply cmp_gt. apply cle_clt_trans with b; [apply ceq_cle; symmetry; done|].
    apply clt_cle_trans with a; [done|apply ceq_cle; done].
Qed.

Lemma Compare_spec (a b : bytes) : CompareSpec (ceq a b) (clt a b) (clt b a) (Compare a b).
Proof.
  destruct (Compare a b) eqn:E; constructor; [done|done|]. apply cmp_gt. done.
Qed.

(** Three-way comparison refines the two-way ones: total order up to [ceq]. *)
Lemma clt_total (a b : bytes) : clt a b \/ ceq a b \/ clt b a.
Proof. destruct (Compare_spec a b); auto. Qed.

End Order.

(** ** The bytewise comparator *)

(** [std::string_view::compare]: unsigned bytes, then sizes. *)
Fixpoint string_compare (a b : bytes) : comparison :=
  match a, b with
  | [], [] => Eq
  | [], _ :: _ => Lt
  | _ :: _, [] => Gt
  | x :: a', y :: b' => match Z.compare (bz x) (bz y) with Eq => string_compare a' b' | c => c end
  end.

(** [while (diff_index < min_length && start[diff_index] == limit[diff_index])]. *)
Fixpoint diff_index (start limit : bytes) : nat :=
  match start, limit with
  | x :: start', y :: limit' => if decide (x = y) then S (diff_index start' limit') else O
  | _, _ => O
  end.

Definition bytewise_FindShortestSeparator (start limit : bytes) : bytes :=
  let min_length := Nat.min (length start) (length limit) in
  let d := diff_index start limit in
  if (min_length <=? d)%nat then start
  else
    let diff_byte := bz (nth d start Byte.x00) in
    if (diff_byte <? 0xff) && (diff_byte + 1 <? bz (nth d limit Byte.x00))
    then take d start ++ [zb (diff_byte + 1)]
    else start.

(** [for (i = 0; i < n; i++)]: [pre] is [key[0..i)]. *)
Fixpoint FindShortSuccessor_loop (pre rest : bytes) : option bytes :=
  match rest with
  | [] => None
  | b :: rest' =>
      if bz b =? 0xff then FindShortSuccessor_loop (pre ++ [b]) rest'
      else Some (pre ++ [zb (bz b + 1)])
  end.

Definition bytewise_FindShortSuccessor (key : bytes) : bytes :=
  match FindShortSuccessor_loop [] key with Some k => k | None => key end.

Definition BytewiseComparator : Comparator := {|
  Name := "leveldb.BytewiseComparator";
  Compare := string_compare;
  FindShortestSeparator := bytewise_FindShortestSeparator;
  FindShortSuccessor := bytewise_FindShortSuccessor
|}.

(** ** Facts about the bytewise ordering *)

Lemma string_compare_refl (a : bytes) : string_compare a a = Eq.
Proof. induction a as [|x a IH]; [done|]. simpl. rewrite Z.compare_refl. done. Qed.

Lemma string_compare_antisym (a b : bytes) : string_compare b a = CompOpp (string_compare a b).
Proof.
  revert b. induction a as [|x a IH]; intros [|y b]; try done.
  simpl. rewrite (Z.compare_antisym (bz x)). destruct (bz x ?= bz y); simpl; [apply IH|done|done].
Qed.

(** The documented equality: [Compare(a, b) == 0] iff [a] and [b] are the same string. *)
Lemma string_compare_eq (a b : bytes) : string_compare a b = Eq <-> a = b.
Proof.
  revert b. induction a as [|x a IH]; intros [|y b]; try done. simpl.
  destruct (Z.compare_spec (bz x) (bz y)) as [E|E|E].
  - apply bz_inj in E as ->. rewrite IH. naive_solver.
  - split; [done|]. intros [= -> ->]. lia.
  - split; [done|]. intros [= -> ->]. lia.
Qed.

Lemma string_compare_lt_trans (a b c : bytes) :
  string_compare a b = Lt -> string_compare b c = Lt -> string_compare a c = Lt.
Proof.
  revert b c. induction a as [|x a IH]; intros [|y b] [|z c]; try done. simpl.
  destruct (Z.compare_spec (bz x) (bz y)) as [E1|E1|E1]; [..|done];
    destruct (Z.compare_spec (bz y) (bz z)) as [E2|E2|E2]; try done; intros H1 H2;
    destruct (Z.compare_spec (bz x) (bz z)) as [E3|E3|E3]; try lia; try done.
  eapply IH; eauto.
Qed.

Lemma string_compare_le_trans (a b c : bytes) :
  string_compare a b <> Gt -> string_compare b c <> Gt -> string_compare a c <> Gt.
Proof.
  destruct (string_compare a b) eqn:E1; [..|done]; intros _.
  - apply string_compare_eq in E1 as ->. done.
  - destruct (string_compare b c) eqn:E2; [..|done]; intros _.
    + apply string_compare_eq in E2 as ->. congruence.
    + rewrite (string_compare_lt_trans a b c) by done. done.
Qed.

Lemma string_compare_app (p a b : bytes) : string_compare (p ++ a) (p ++ b) = string_compare a b.
Proof. induction p as [|x p IH]; [done|]. simpl. rewrite Z.compare_refl. done. Qed.

(** Where two strings first differ. *)
Lemma diff_index_split (a b : bytes) :
  let d := diff_index a b in
  take d a = take d b /\ (d <= length a)%nat /\ (d <= length b)%nat /\
  ((d < length a)%nat -> (d < length b)%nat -> nth d a Byte.x00 <> nth d b Byte.x00).
Proof.
  revert b. induction a as [|x a IH]; intros [|y b]; simpl; split_and!; try done; try lia.
  - case_decide; [|done]. subst. simpl. f_equal. apply IH.
  - case_decide; [|lia]. destruct (IH b) as (_ & ? & _). lia.
  - case_decide; [|lia]. destruct (IH b) as (_ & _ & ? & _). lia.
  - case_decide; intros; [|done]. apply IH; lia.
Qed.

Lemma split_nth (a : bytes) (d : nat) :
  (d < length a)%nat -> a = take d a ++ nth d a Byte.x00 :: drop (S d) a.
Proof.
  revert d. induction a as [|x a IH]; intros d Hd; simpl in Hd; [lia|].
  destruct d; simpl; [rewrite drop_0; done|]. f_equal. apply IH. lia.
Qed.

Lemma bytewise_separator_cases (start limit : bytes) :
  bytewise_FindShortestSeparator start limit = start \/
  (string_compare start (bytewise_FindShortestSeparator start limit) = Lt /\
   string_compare (bytewise_FindShortestSeparator start limit) limit = Lt).
Proof.
  unfold bytewise_FindShortestSeparator.
  pose proof (diff_index_split start limit) as (Htake & Hs & Hl & Hne).
  set (d := diff_index start limit) in *.
  destruct (Nat.leb_spec (Nat.min (length start) (length limit)) d); [by left|].
  destruct (Z.ltb_spec (bz (nth d start Byte.x00)) 0xff); [|by left].
  destruct (Z.ltb_spec (bz (nth d start Byte.x00) + 1) (bz (nth d limit Byte.x00))); [|by left].
  right. simpl. pose proof (bz_range (nth d start Byte.x00)).
  assert (bz (zb (bz (nth d start Byte.x00) + 1)) = bz (nth d start Byte.x00) + 1) as Hb
    by (apply bz_zb_small; lia).
  split.
  - rewrite (split_nth start d) at 1 by lia. rewrite string_compare_app. simpl. rewrite Hb.
    destruct (Z.compare_spec (bz (nth d start Byte.x00)) (bz (nth d start Byte.x00) + 1)); lia || done.
  - rewrite (split_nth limit d) at 1 by lia. rewrite <- Htake, string_compare_app. simpl. rewrite Hb.
    destruct (Z.compare_spec (bz (nth d start Byte.x00) + 1) (bz (nth d limit Byte.x00))); lia || done.
Qed.

Lemma FindShortSuccessor_loop_gt (pre rest k : bytes) :
  FindShortSuccessor_loop pre rest = Some k -> string_compare (pre ++ rest) k = Lt.
Proof.
  revert pre. induction rest as [|b rest IH]; intros pre H; [done|]. simpl in H.
  destruct (Z.eqb_spec (bz b) 0xff).
  - apply IH in H. rewrite <- app_assoc in H. done.
  - injection H as <-. rewrite string_compare_app. simpl. pose proof (bz_range b).
    rewrite bz_zb_small by lia. destruct (Z.compare_spec (bz b) (bz b + 1)); lia || done.
Qed.

Lemma bytewise_successor_cases (key : bytes) :
  bytewise_FindShortSuccessor key = key \/
  string_compare key (bytewise_FindShortSuccessor key) = Lt.
Proof.
  unfold bytewise_FindShortSuccessor.
  destruct (FindShortSuccessor_loop [] key) as [k|] eqn:E; [|by left].
  right. apply FindShortSuccessor_loop_gt in E. done.
Qed.

#[export] Instance BytewiseLaws : ComparatorLaws BytewiseComparator.
Proof.
  split; unfold cle, clt, ceq; simpl.
  - apply string_compare_refl.
  - apply string_compare_antisym.
  - apply string_compare_le_trans.
  - intros start limit _. destruct (bytewise_separator_cases start limit) as [->|[-> _]]; [|done].
    rewrite string_compare_refl. done.
  - intros start limit H. destruct (bytewise_separator_cases start limit) as [->|[_ ->]]; done.
  - intros start limit ->%string_compare_eq.
    destruct (bytewise_separator_cases limit limit) as [->|[H1 H2]]; [apply string_compare_refl|].
    pose proof (string_compare_lt_trans _ _ _ H1 H2). rewrite string_compare_refl in *. done.
  - intros key. destruct (bytewise_successor_cases key) as [->| ->]; [|done].
    rewrite string_compare_refl. done.
Qed.

(** ** Properties *)

(** The bytewise comparator is a total order on strings: reflexive exactly
    on equal strings, antisymmetric and transitive. *)
Theorem bytewise_total_order (a b c : bytes) :
  (string_compare a b = Eq <-> a = b) /\
  string_compare b a = CompOpp (string_compare a b) /\
  (string_compare a b = Lt -> string_compare b c = Lt -> string_compare a c = Lt).
Proof.
  split_and!; [apply string_compare_eq|apply string_compare_antisym|apply string_compare_lt_trans].
Qed.

Lemma bytewise_total_order_witness :
  string_compare [Byte.x61] [Byte.x62] = Lt /\
  string_compare [Byte.x61] [Byte.x62; Byte.x00] = Lt.
Proof.
  split; [done|].
  apply (bytewise_total_order [Byte.x61] [Byte.x62] [Byte.x62; Byte.x00]); reflexivity.
Defined.

(** [FindShortestSeparator] keeps its contract: for [start < limit] it
    returns a string in [[start, limit)] that is never longer than [start], and
    [FindShortSuccessor] returns a string at least [key] and never longer. *)
Theorem bytewise_separator_contract (start limit key : bytes) :
  string_compare start limit = Lt ->
  string_compare start (bytewise_FindShortestSeparator start limit) <> Gt /\
  string_compare (bytewise_FindShortestSeparator start limit) limit = Lt /\
  (length (bytewise_FindShortestSeparator start limit) <= length start)%nat /\
  string_compare key (bytewise_FindShortSuccessor key) <> Gt /\
  (length (bytewise_FindShortSuccessor key) <= length key)%nat.
Proof.
  intros H. split_and!.
  - apply (sep_ge (C := BytewiseComparator)). done.
  - apply (sep_lt (C := BytewiseComparator)). done.
  - unfold bytewise_FindShortestSeparator.
    destruct (Nat.leb_spec (Nat.min (length start) (length limit)) (diff_index start limit)); [done|].
    destruct (_ && _); [|done]. rewrite length_app, length_take. simpl. lia.
  - apply (succ_ge (C := BytewiseComparator)).
  - unfold bytewise_FindShortSuccessor.
    destruct (FindShortSuccessor_loop [] key) as [k|] eqn:E; [|done].
    enough (forall rest pre, FindShortSuccessor_loop pre rest = Some k ->
              (length k <= length pre + length rest)%nat) as Hlen by (apply (Hlen key []); done).
    clear. induction rest as [|b rest IH]; intros pre; simpl; [done|].
    destruct (_ =? _); intros Hk.
    + apply IH in Hk. rewrite length_app in Hk. simpl in Hk. lia.
    + injection Hk as <-. rewrite length_app. simpl. lia.
Qed.

Lemma bytewise_separator_contract_witness :
  bytewise_FindShortestSeparator [Byte.x61; Byte.x61; Byte.x61] [Byte.x61; Byte.x63] = [Byte.x61; Byte.x62]
  /\ string_compare [Byte.x61; Byte.x62] [Byte.x61; Byte.x63] = Lt.
Proof.
  split; [reflexivity|].
  apply (bytewise_separator_contract [Byte.x61; Byte.x61; Byte.x61] [Byte.x61; Byte.x63] []).
  reflexivity.
Defined.
