(* ===== verification/Logging.v ===== *)
(** * Logging: numbers and escaped strings as text ([util/logging.cc])

    Text is a byte list; [lit] turns a string literal of the source into one.
    [decimal_value] is the reference meaning of a run of digits. *)

From S2P Require Import Prelude.
From Stdlib Require Import Strings.String Strings.Ascii Strings.Byte.

Definition lit (s : string) : bytes := String.list_byte_of_string s.

(** Text as the [string] of a [Status] message. *)
Definition text (b : bytes) : string := String.string_of_list_byte b.

(** [std::to_string(uint64_t)], least significant digit first.  Twenty digits
    are enough for a 64-bit value. *)
Fixpoint to_string_rev (fuel : nat) (num : Z) : bytes :=
  match fuel with
  | O => []
  | S fuel' => zb (48 + num mod 10) :: (if num <? 10 then [] else to_string_rev fuel' (num / 10))
  end.

Definition NumberToString (num : Z) : bytes := reverse (to_string_rev 20 num).

Definition AppendNumberTo (dst : bytes) (num : Z) : bytes := dst ++ NumberToString num.

Definition hex_digit (d : Z) : byte := if d <? 10 then zb (48 + d) else zb (87 + d).

(** A [char] is signed: bytes from 0x80 up are below [' '] and are escaped. *)
Definition escape_char (c : byte) : bytes :=
  if (32 <=? bz c) && (bz c <=? 126) then [c]
  else lit "\x" ++ [hex_digit (bz c / 16); hex_digit (bz c mod 16)].

Definition AppendEscapedStringTo (dst value : bytes) : bytes :=
  fold_left (fun dst c => dst ++ escape_char c) value dst.

Definition EscapeString (value : bytes) : bytes := AppendEscapedStringTo [] value.

Definition kMaxUint64 : Z := 2 ^ 64 - 1.
Definition kLastDigitOfMaxUint64 : Z := 48 + kMaxUint64 mod 10.

(** The loop of [ConsumeDecimalNumber]: [None] is the overflow return, otherwise
    the value, the number of digits and the rest of the input. *)
Fixpoint ConsumeDecimalNumber_loop (input : bytes) (value digits_consumed : Z)
  : option (Z * Z * bytes) :=
  match input with
  | [] => Some (value, digits_consumed, [])
  | b :: input' =>
      let ch := bz b in
      if (ch <? 48) || (57 <? ch) then Some (value, digits_consumed, input)
      else if (kMaxUint64 / 10 <? value) ||
              ((value =? kMaxUint64 / 10) && (kLastDigitOfMaxUint64 <? ch)) then None
      else ConsumeDecimalNumber_loop input' (u64 (value * 10 + (ch - 48))) (digits_consumed + 1)
  end.

Definition ConsumeDecimalNumber (input : bytes) : option (Z * bytes) :=
  '(value, digits_consumed, rest) ← ConsumeDecimalNumber_loop input 0 0;
  if digits_consumed =? 0 then None else Some (value, rest).

(** ** Reference *)

Definition is_digit (b : byte) : bool := (48 <=? bz b) && (bz b <=? 57).

Definition decimal_value (acc : Z) (ds : bytes) : Z :=
  fold_left (fun acc d => acc * 10 + (bz d - 48)) ds acc.

(** The longest prefix of digits, and what follows it. *)
Fixpoint span_digits (input : bytes) : bytes * bytes :=
  match input with
  | b :: input' => if is_digit b then let '(ds, r) := span_digits input' in (b :: ds, r) else ([], input)
  | [] => ([], [])
  end.

Lemma span_digits_app (input : bytes) :
  let '(ds, r) := span_digits input in input = ds ++ r /\ Forall (fun d => is_digit d = true) ds.
Proof.
  induction input as [|b input IH]; [done|]. simpl.
  destruct (is_digit b) eqn:E; [|done]. destruct (span_digits input) as [ds r].
  destruct IH as [-> IH]. split; [done|]. constructor; done.
Qed.

Lemma is_digit_range (b : byte) : is_digit b = true -> 48 <= bz b <= 57.
Proof. unfold is_digit. intros [H1 H2]%andb_true_iff. lia. Qed.

Lemma decimal_value_mono (ds : bytes) (acc : Z) :
  0 <= acc -> Forall (fun d => is_digit d = true) ds -> acc <= decimal_value acc ds.
Proof.
  revert acc. induction ds as [|d ds IH]; intros acc Ha Hds; [unfold decimal_value; simpl; lia|].
  apply Forall_cons in Hds as [Hd Hds]. apply is_digit_range in Hd.
  unfold decimal_value in *. simpl. etransitivity; [|apply IH; [lia|done]]. lia.
Qed.

(** The loop computes the decimal value of the leading digits, or overflows
    exactly when that value does not fit 64 bits. *)
Lemma ConsumeDecimalNumber_loop_spec (input : bytes) (value n : Z) :
  0 <= value < 2 ^ 64 ->
  let '(ds, rest) := span_digits input in
  ConsumeDecimalNumber_loop input value n
  = if decimal_value value ds <? 2 ^ 64
    then Some (decimal_value value ds, n + zlen ds, rest) else None.
Proof.
  revert value n. induction input as [|b input IH]; intros value n Hv.
  - simpl. unfold decimal_value. simpl. destruct (Z.ltb_spec value (2 ^ 64)); [|lia].
    rewrite zlen_nil, Z.add_0_r. done.
  - simpl. assert ((bz b <? 48) || (57 <? bz b) = negb (is_digit b)) as ->.
    { unfold is_digit. destruct (Z.ltb_spec (bz b) 48), (Z.ltb_spec 57 (bz b)),
        (Z.leb_spec 48 (bz b)), (Z.leb_spec (bz b) 57); simpl; lia || done. }
    destruct (is_digit b) eqn:Ed; simpl.
    + apply is_digit_range in Ed. destruct (span_digits input) as [ds rest] eqn:Es.
      pose proof (span_digits_app input) as Hs. rewrite Es in Hs. destruct Hs as [_ Hds].
      change (kMaxUint64 / 10) with 1844674407370955161.
      change kLastDigitOfMaxUint64 with 53.
      change (decimal_value value (b :: ds)) with (decimal_value (value * 10 + (bz b - 48)) ds).
      destruct (Z.ltb_spec 1844674407370955161 value) as [Hlt|Hge]; simpl.
      * pose proof (decimal_value_mono ds (value * 10 + (bz b - 48)) ltac:(lia) Hds).
        destruct (Z.ltb_spec (decimal_value (value * 10 + (bz b - 48)) ds) (2 ^ 64)); [lia|done].
      * destruct (Z.eqb_spec value 1844674407370955161) as [->|Hne]; simpl.
        -- destruct (Z.ltb_spec 53 (bz b)); simpl.
           ++ pose proof (decimal_value_mono ds (1844674407370955161 * 10 + (bz b - 48)) ltac:(lia) Hds).
              destruct (Z.ltb_spec (decimal_value (1844674407370955161 * 10 + (bz b - 48)) ds) (2 ^ 64));
                [lia|done].
           ++ rewrite wrap_small by lia. specialize (IH (1844674407370955161 * 10 + (bz b - 48)) (n + 1)).
              rewrite IH by lia. rewrite zlen_cons.
              replace (n + 1 + zlen ds) with (n + (1 + zlen ds)) by lia. done.
        -- rewrite wrap_small by lia. specialize (IH (value * 10 + (bz b - 48)) (n + 1)).
           rewrite IH by lia. rewrite zlen_cons.
           replace (n + 1 + zlen ds) with (n + (1 + zlen ds)) by lia. done.
    + unfold decimal_value. simpl. destruct (Z.ltb_spec value (2 ^ 64)); [|lia].
      rewrite zlen_nil, Z.add_0_r. done.
Qed.

(** ** Printing *)

Lemma digit_ok (n : Z) : 0 <= n -> is_digit (zb (48 + n mod 10)) = true /\ bz (zb (48 + n mod 10)) = 48 + n mod 10.
Proof.
  intros Hn. pose proof (Z.mod_pos_bound n 10 ltac:(lia)). unfold is_digit.
  rewrite bz_zb_small by lia. split; [|done].
  destruct (Z.leb_spec 48 (48 + n mod 10)), (Z.leb_spec (48 + n mod 10) 57); lia || done.
Qed.

Lemma to_string_rev_spec (fuel : nat) (num : Z) :
  0 <= num < 10 ^ Z.of_nat fuel -> (0 < fuel)%nat ->
  Forall (fun d => is_digit d = true) (to_string_rev fuel num) /\
  to_string_rev fuel num <> [] /\
  decimal_value 0 (reverse (to_string_rev fuel num)) = num.
Proof.
  revert num. induction fuel as [|fuel IH]; intros num Hn Hf; [lia|].
  cbn [to_string_rev]. destruct (digit_ok num ltac:(lia)) as [Hd Hv].
  rewrite reverse_cons. unfold decimal_value. rewrite fold_left_app. simpl. rewrite Hv.
  destruct (Z.ltb_spec num 10).
  - simpl. rewrite Z.mod_small by lia. split_and!; [repeat constructor|done|]; [|lia].
    rewrite Z.mod_small in Hd by lia. done.
  - assert (0 < fuel)%nat.
    { destruct fuel; [|lia]. change (10 ^ Z.of_nat 1) with 10 in Hn. lia. }
    destruct (IH (num / 10)) as (IH1 & _ & IH2); [|done|].
    { split; [apply Z.div_pos; lia|]. apply Z.div_lt_upper_bound; [lia|].
      replace (Z.of_nat (S fuel)) with (1 + Z.of_nat fuel) in Hn by lia.
      rewrite Z.pow_add_r in Hn by lia. lia. }
    split_and!; [constructor; done|done|].
    unfold decimal_value in IH2. rewrite IH2. pose proof (Z.div_mod num 10 ltac:(lia)). lia.
Qed.

Lemma NumberToString_spec (num : Z) :
  0 <= num < 2 ^ 64 ->
  Forall (fun d => is_digit d = true) (NumberToString num) /\
  NumberToString num <> [] /\ decimal_value 0 (NumberToString num) = num.
Proof.
  intros Hn. unfold NumberToString.
  destruct (to_string_rev_spec 20 num) as (H1 & H2 & H3); [|lia|].
  { split; [lia|]. eapply Z.lt_trans; [apply Hn|]. vm_compute. done. }
  split_and!; [apply Forall_reverse; done| |done].
  intros H. apply H2. rewrite <- (reverse_involutive (to_string_rev 20 num)), H. done.
Qed.

Lemma span_digits_exact (ds rest : bytes) :
  Forall (fun d => is_digit d = true) ds ->
  (forall b r, rest = b :: r -> is_digit b = false) ->
  span_digits (ds ++ rest) = (ds, rest).
Proof.
  intros Hds Hr. induction ds as [|d ds IH]; simpl.
  - destruct rest as [|b r]; [done|]. simpl. rewrite (Hr b r) by done. done.
  - apply Forall_cons in Hds as [Hd Hds]. rewrite Hd, IH by done. done.
Qed.

(** ** Properties *)

(** [ConsumeDecimalNumber] is exact on every input: it returns the decimal
    value of the longest prefix of digits and the rest of the input when there is
    a digit and the value fits 64 bits, and nothing otherwise (no wrap-around). *)
Theorem consume_decimal_exact (input : bytes) :
  ConsumeDecimalNumber input
  = let '(ds, rest) := span_digits input in
    if (zlen ds =? 0) || (2 ^ 64 <=? decimal_value 0 ds) then None
    else Some (decimal_value 0 ds, rest).
Proof.
  unfold ConsumeDecimalNumber. pose proof (ConsumeDecimalNumber_loop_spec input 0 0 ltac:(lia)) as H.
  destruct (span_digits input) as [ds rest]. rewrite H. clear H.
  destruct (Z.ltb_spec (decimal_value 0 ds) (2 ^ 64)), (Z.leb_spec (2 ^ 64) (decimal_value 0 ds));
    try lia; simpl; rewrite ?orb_true_r, ?orb_false_r; done.
Qed.

(** Decimal numbers round-trip: what [NumberToString] prints,
    [ConsumeDecimalNumber] reads back, for every 64-bit value and any following
    text that does not start with a digit. *)
Theorem decimal_roundtrip (num : Z) (rest : bytes) :
  0 <= num < 2 ^ 64 -> (forall b r, rest = b :: r -> is_digit b = false) ->
  ConsumeDecimalNumber (NumberToString num ++ rest) = Some (num, rest).
Proof.
  intros Hn Hr. destruct (NumberToString_spec num Hn) as (H1 & H2 & H3).
  unfold ConsumeDecimalNumber.
  pose proof (ConsumeDecimalNumber_loop_spec (NumberToString num ++ rest) 0 0 ltac:(lia)) as H.
  rewrite span_digits_exact in H by done. rewrite H, H3.
  destruct (Z.ltb_spec num (2 ^ 64)); [|lia]. simpl.
  change (0 + zlen (NumberToString num)) with (zlen (NumberToString num)).
  destruct (Z.eqb_spec (zlen (NumberToString num)) 0) as [E|E]; [|done].
  apply zlen_0 in E. done.
Qed.

Lemma decimal_roundtrip_witness :
  ConsumeDecimalNumber (NumberToString 18446744073709551615 ++ lit ".log")
  = Some (18446744073709551615, lit ".log").
Proof.
  apply (decimal_roundtrip 18446744073709551615 (lit ".log")); [lia|].
  intros b r [= <- <-]. reflexivity.
Defined.
