(* ===== verification/FilterPolicy.v ===== *)
(** * FilterPolicy: the filter interface and the built-in Bloom filter
    ([include/leveldb/filter_policy.h], [util/bloom.cc])

    [FilterPolicyLaws] is the documented contract of the abstract class: a
    filter is appended to [dst], and a key it was built from always matches.
    The built-in policy discharges it ([BloomLaws]); the filter block and the
    internal-key policy are proved against the interface. *)

From S2P Require Import Prelude Hash.

Class FilterPolicy := {
  FilterName : string;
  CreateFilter : list bytes -> bytes -> bytes;
  KeyMayMatch : bytes -> bytes -> bool
}.

(** A filter covers the keys of a few blocks: fewer than 2^32 of them. *)
Class FilterPolicyLaws (P : FilterPolicy) : Prop := {
  filter_appends : forall keys dst, CreateFilter keys dst = dst ++ CreateFilter keys [];
  filter_matches : forall keys key,
    zlen keys < 2 ^ 32 -> key ∈ keys -> KeyMayMatch key (CreateFilter keys []) = true
}.

(** ** The Bloom filter *)

Definition BloomHash (key : bytes) : Z := Hash key 0xbc9f1d34.

Record BloomFilterPolicy := mkBloom { bits_per_key_ : Z; k_ : Z }.

(** The constructor.  [bits_per_key * 0.69] is truncated: below 100 bits per key
    the double product is within 1e-13 of the rational one, which is at least
    1/100 away from an integer it is not equal to, and above that the clamp to
    30 decides. *)
Definition NewBloomFilterPolicy (bits_per_key : Z) : BloomFilterPolicy :=
  let k := u64 (Z.quot (bits_per_key * 69) 100) in
  let k := if k <? 1 then 1 else k in
  let k := if 30 <? k then 30 else k in
  mkBloom (u64 bits_per_key) k.

(** [array[bitpos / 8] |= 1 << (bitpos % 8)]. *)
Definition set_bit (array : bytes) (bitpos : Z) : bytes :=
  alter (fun b => zb (Z.lor (bz b) (Z.shiftl 1 (bitpos mod 8)))) (Z.to_nat (bitpos / 8)) array.

(** [array[bitpos / 8] & (1 << (bitpos % 8))] is not zero. *)
Definition test_bit (array : bytes) (bitpos : Z) : bool :=
  negb (Z.land (bz (nth (Z.to_nat (bitpos / 8)) array Byte.x00)) (Z.shiftl 1 (bitpos mod 8)) =? 0).

(** Rotate right by 17 bits. *)
Definition bloom_delta (h : Z) : Z := Z.lor (Z.shiftr h 17) (u32 (Z.shiftl h 15)).

(** [for (size_t j = 0; j < k_; j++)] of [CreateFilter]. *)
Fixpoint add_probes (k : nat) (bits h delta : Z) (array : bytes) : bytes :=
  match k with
  | O => array
  | S k' => add_probes k' bits (u32 (h + delta)) delta (set_bit array (h mod bits))
  end.

Definition add_key (k bits : Z) (array key : bytes) : bytes :=
  let h := BloomHash key in
  add_probes (Z.to_nat k) bits h (bloom_delta h) array.

Definition bloom_bytes (p : BloomFilterPolicy) (num_keys : Z) : Z :=
  let bits := u64 (num_keys * bits_per_key_ p) in
  let bits := if bits <? 64 then 64 else bits in
  u64 (bits + 7) / 8.

Definition bloom_CreateFilter (p : BloomFilterPolicy) (keys : list bytes) (dst : bytes) : bytes :=
  let nbytes := bloom_bytes p (zlen keys) in
  let bits := u64 (nbytes * 8) in
  let array := replicate (Z.to_nat nbytes) Byte.x00 in
  dst ++ fold_left (add_key (k_ p) bits) keys array ++ [zb (k_ p)].

(** [for (size_t j = 0; j < k; j++)] of [KeyMayMatch]. *)
Fixpoint check_probes (k : nat) (bits h delta : Z) (array : bytes) : bool :=
  match k with
  | O => true
  | S k' => if test_bit array (h mod bits)
            then check_probes k' bits (u32 (h + delta)) delta array else false
  end.

Definition bloom_KeyMayMatch (key bloom_filter : bytes) : bool :=
  let len := zlen bloom_filter in
  if len <? 2 then false
  else
    let bits := u64 ((len - 1) * 8) in
    let k := bz (nth (Z.to_nat (len - 1)) bloom_filter Byte.x00) in
    if 30 <? k then true
    else
      let h := BloomHash key in
      check_probes (Z.to_nat k) bits h (bloom_delta h) bloom_filter.

Definition BloomPolicy (bits_per_key : Z) : FilterPolicy := {|
  FilterName := "leveldb.BuiltinBloomFilter2";
  CreateFilter := bloom_CreateFilter (NewBloomFilterPolicy bits_per_key);
  KeyMayMatch := bloom_KeyMayMatch
|}.

(** ** Bits of the array *)

Lemma length_set_bit (array : bytes) (pos : Z) : length (set_bit array pos) = length array.
Proof. apply length_alter. Qed.

Lemma test_bit_spec (array : bytes) (pos : Z) :
  test_bit array pos = Z.testbit (bz (nth (Z.to_nat (pos / 8)) array Byte.x00)) (pos mod 8).
Proof.
  unfold test_bit. set (x := bz _). pose proof (Z.mod_pos_bound pos 8 ltac:(lia)).
  assert (Z.land x (Z.shiftl 1 (pos mod 8)) = if Z.testbit x (pos mod 8) then Z.shiftl 1 (pos mod 8) else 0) as ->.
  { apply Zbits_inj_nonneg. intros i Hi. rewrite Z.land_spec, Z.shiftl_1_l, Z.pow2_bits_eqb by lia.
    destruct (Z.eqb_spec (pos mod 8) i) as [<-|Hne]; rewrite ?andb_true_r, ?andb_false_r;
      destruct (Z.testbit x (pos mod 8)); rewrite ?Z.pow2_bits_eqb, ?Z.bits_0, ?Z.eqb_refl by lia; try done.
    destruct (Z.eqb_spec (pos mod 8) i); [lia|done]. }
  destruct (Z.testbit x (pos mod 8)); [|done].
  destruct (Z.eqb_spec (Z.shiftl 1 (pos mod 8)) 0) as [E|]; [|done].
  rewrite Z.shiftl_1_l in E. pose proof (Z.pow_pos_nonneg 2 (pos mod 8)). lia.
Qed.

Lemma nth_alter (f : byte -> byte) (array : bytes) (i j : nat) :
  (j < length array)%nat ->
  nth j (alter f i array) Byte.x00 = if decide (i = j) then f (nth j array Byte.x00) else nth j array Byte.x00.
Proof.
  intros Hj. apply lookup_lt_is_Some in Hj as [b Hb].
  rewrite (nth_lookup_Some _ _ _ _ Hb). apply nth_lookup_Some.
  rewrite list_lookup_alter. case_decide; subst; rewrite Hb; done.
Qed.

(** Setting a bit sets it and clears none. *)
Lemma test_set_bit (array : bytes) (p q : Z) :
  0 <= q < zlen array * 8 ->
  test_bit (set_bit array p) q = (bool_decide (p / 8 = q / 8 /\ p mod 8 = q mod 8) && (0 <=? p)) || test_bit array q
  \/ p < 0.
Proof.
  intros Hq. destruct (Z.lt_ge_cases p 0); [by right|left]. rewrite !test_bit_spec.
  pose proof (Z.mod_pos_bound p 8 ltac:(lia)). pose proof (Z.mod_pos_bound q 8 ltac:(lia)).
  assert (0 <= p / 8) by (apply Z.div_pos; lia). assert (0 <= q / 8) by (apply Z.div_pos; lia).
  unfold set_bit. rewrite nth_alter.
  2: { unfold zlen in Hq. assert (q / 8 < Z.of_nat (length array)) by (apply Z.div_lt_upper_bound; lia). lia. }
  assert ((0 <=? p) = true) as -> by (apply Z.leb_le; lia). rewrite andb_true_r.
  case_decide as E.
  - set (x := nth _ array _). pose proof (bz_range8 x).
    assert (0 <= Z.shiftl 1 (p mod 8) < 2 ^ 8).
    { rewrite Z.shiftl_1_l. split; [lia|]. apply Z.pow_lt_mono_r; lia. }
    rewrite bz_zb_small by (change 256 with (2 ^ 8); apply lor_range; lia || done).
    rewrite Z.lor_spec, Z.shiftl_1_l, Z.pow2_bits_eqb, orb_comm by lia. f_equal.
    destruct (Z.eqb_spec (p mod 8) (q mod 8)); symmetry;
      [apply bool_decide_eq_true_2|apply bool_decide_eq_false_2]; intuition lia.
  - rewrite bool_decide_eq_false_2; [done|]. intros [? ?]. apply E. lia.
Qed.

Lemma test_set_bit_same (array : bytes) (p : Z) :
  0 <= p < zlen array * 8 -> test_bit (set_bit array p) p = true.
Proof.
  intros Hp. destruct (test_set_bit array p p Hp) as [->|]; [|lia].
  rewrite bool_decide_eq_true_2 by done. destruct (Z.leb_spec 0 p); [done|lia].
Qed.

Lemma test_set_bit_mono (array : bytes) (p q : Z) :
  0 <= p -> 0 <= q < zlen array * 8 -> test_bit array q = true -> test_bit (set_bit array p) q = true.
Proof.
  intros Hp Hq Ht. destruct (test_set_bit array p q Hq) as [->|]; [|lia].
  rewrite Ht. apply orb_true_r.
Qed.

(** ** Probes *)

Section Probes.
Context (bits : Z).

(** [b] has every bit [a] has. *)
Definition bits_le (a b : bytes) : Prop :=
  length a = length b /\
  forall q, 0 <= q < zlen a * 8 -> test_bit a q = true -> test_bit b q = true.

#[local] Instance bits_le_preorder : PreOrder bits_le.
Proof.
  split; [done|]. intros a b c [E1 H1] [E2 H2]. split; [congruence|].
  intros q Hq Ht. apply H2; [unfold zlen in *; rewrite <- E1; done|]. auto.
Qed.

Lemma set_bit_le (array : bytes) (p : Z) : 0 <= p -> bits_le array (set_bit array p).
Proof.
  intros Hp. split; [symmetry; apply length_set_bit|]. intros. apply test_set_bit_mono; done.
Qed.

Lemma add_probes_le (k : nat) (h delta : Z) (array : bytes) :
  0 < bits -> bits_le array (add_probes k bits h delta array).
Proof.
  intros Hb. revert h array. induction k as [|k IH]; intros h array; [reflexivity|].
  simpl. etransitivity; [|apply IH]. apply set_bit_le, Z.mod_pos_bound. done.
Qed.

Lemma add_key_le (k : Z) (array key : bytes) : 0 < bits -> bits_le array (add_key k bits array key).
Proof. apply add_probes_le. Qed.

Lemma fold_add_key_le (k : Z) (keys : list bytes) (array : bytes) :
  0 < bits -> bits_le array (fold_left (add_key k bits) keys array).
Proof.
  intros Hb. revert array. induction keys as [|key keys IH]; intros array; [reflexivity|].
  rewrite fold_left_cons. etransitivity; [apply add_key_le; done|apply IH].
Qed.

Lemma check_probes_le (k : nat) (h delta : Z) (a b : bytes) :
  0 < bits <= zlen a * 8 -> bits_le a b ->
  check_probes k bits h delta a = true -> check_probes k bits h delta b = true.
Proof.
  intros Hb Hle. revert h. induction k as [|k IH]; intros h; [done|]. simpl.
  destruct (test_bit a (h mod bits)) eqn:Ht; [|done]. intros Hc.
  pose proof (Z.mod_pos_bound h bits ltac:(lia)).
  rewrite (proj2 Hle) by (done || lia). auto.
Qed.

Lemma check_add_probes (k : nat) (h delta : Z) (array : bytes) :
  0 < bits <= zlen array * 8 -> check_probes k bits h delta (add_probes k bits h delta array) = true.
Proof.
  intros Hb. revert h array Hb. induction k as [|k IH]; intros h array Hb; [done|]. simpl.
  pose proof (Z.mod_pos_bound h bits ltac:(lia)).
  assert (zlen (set_bit array (h mod bits)) = zlen array) as El by (unfold zlen; rewrite length_set_bit; done).
  rewrite (proj2 (add_probes_le k (u32 (h + delta)) delta (set_bit array (h mod bits)) ltac:(lia))).
  - apply IH. lia.
  - lia.
  - apply test_set_bit_same. lia.
Qed.

(** Only the array part of the filter is probed. *)
Lemma check_probes_app (k : nat) (h delta : Z) (array tail : bytes) :
  0 < bits <= zlen array * 8 ->
  check_probes k bits h delta (array ++ tail) = check_probes k bits h delta array.
Proof.
  intros Hb. revert h. induction k as [|k IH]; intros h; [done|]. simpl.
  assert (test_bit (array ++ tail) (h mod bits) = test_bit array (h mod bits)) as ->; [|rewrite IH; done].
  rewrite !test_bit_spec, app_nth1; [done|].
  pose proof (Z.mod_pos_bound h bits ltac:(lia)).
  assert ((h mod bits) / 8 < zlen array) by (apply Z.div_lt_upper_bound; lia).
  assert (0 <= (h mod bits) / 8) by (apply Z.div_pos; lia). unfold zlen in *. lia.
Qed.

Lemma check_member (k : Z) (keys : list bytes) (key array : bytes) :
  0 < bits <= zlen array * 8 -> key ∈ keys ->
  check_probes (Z.to_nat k) bits (BloomHash key) (bloom_delta (BloomHash key))
    (fold_left (add_key k bits) keys array) = true.
Proof.
  intros Hb Hin. revert array Hb. induction Hin as [key keys|key key' keys Hin IH]; intros array Hb;
    rewrite fold_left_cons.
  - eapply check_probes_le; [|apply fold_add_key_le; lia|apply check_add_probes; done].
    unfold zlen. rewrite <- (proj1 (add_key_le k array key ltac:(lia))). done.
  - apply IH. unfold zlen. rewrite <- (proj1 (add_key_le k array key' ltac:(lia))). done.
Qed.

End Probes.

(** ** The contract *)

Lemma NewBloom_k (bits_per_key : Z) : 1 <= k_ (NewBloomFilterPolicy bits_per_key) <= 30.
Proof.
  unfold NewBloomFilterPolicy. cbn zeta. generalize (u64 (Z.quot (bits_per_key * 69) 100)). intros k.
  cbn [k_]. destruct (Z.ltb_spec k 1); [done|]. destruct (Z.ltb_spec 30 k); lia.
Qed.

Lemma bloom_bytes_range (p : BloomFilterPolicy) (n : Z) :
  0 <= n < 2 ^ 32 -> 0 <= bits_per_key_ p < 2 ^ 31 -> 8 <= bloom_bytes p n < 2 ^ 61 - 1.
Proof.
  intros Hn Hb. unfold bloom_bytes. cbn zeta. rewrite (wrap_small 64 (n * _)) by nia.
  assert (0 <= n * bits_per_key_ p < 2 ^ 63) by nia. set (x := n * bits_per_key_ p) in *.
  destruct (Z.ltb_spec x 64); rewrite wrap_small by lia; [by vm_compute|].
  split; [apply Z.div_le_lower_bound; lia|apply Z.div_lt_upper_bound; lia].
Qed.

Lemma bloom_filter_matches (bits_per_key : Z) (keys : list bytes) (key : bytes) :
  0 <= bits_per_key < 2 ^ 31 -> zlen keys < 2 ^ 32 -> key ∈ keys ->
  bloom_KeyMayMatch key (bloom_CreateFilter (NewBloomFilterPolicy bits_per_key) keys []) = true.
Proof.
  intros Hb Hn Hin. set (p := NewBloomFilterPolicy bits_per_key).
  pose proof (NewBloom_k bits_per_key) as Hk. fold p in Hk.
  assert (8 <= bloom_bytes p (zlen keys) < 2 ^ 61 - 1) as Hr.
  { apply bloom_bytes_range; [pose proof (zlen_nonneg keys); lia|].
    unfold p, NewBloomFilterPolicy. cbn [bits_per_key_]. rewrite wrap_small; lia. }
  clearbody p.
  unfold bloom_CreateFilter. cbn zeta. rewrite app_nil_l.
  set (nb := bloom_bytes p (zlen keys)) in *. rewrite wrap_small by lia.
  set (array := replicate (Z.to_nat nb) Byte.x00).
  assert (zlen array = nb) as Ha by (unfold zlen, array; rewrite length_replicate; lia).
  pose proof (fold_add_key_le (nb * 8) (k_ p) keys array ltac:(lia)) as [Hlen _].
  pose proof (check_member (nb * 8) (k_ p) keys key array ltac:(lia) Hin) as Hc.
  set (a := fold_left _ keys array) in *.
  assert (zlen a = nb) as Hza by (unfold zlen in *; lia).
  unfold bloom_KeyMayMatch. cbn zeta. rewrite zlen_app, zlen_cons, zlen_nil.
  replace (zlen a + (1 + 0) - 1) with nb by lia.
  destruct (Z.ltb_spec (zlen a + (1 + 0)) 2); [lia|].
  rewrite app_nth2 by (unfold zlen in Hza; lia).
  replace (Z.to_nat nb - length a)%nat with 0%nat by (unfold zlen in Hza; lia). simpl nth.
  rewrite bz_zb_small by lia. destruct (Z.ltb_spec 30 (k_ p)); [lia|].
  rewrite wrap_small by lia. rewrite check_probes_app by (rewrite Hza; lia). exact Hc.
Qed.

#[export] Instance BloomLaws (bits_per_key : Z) :
  0 <= bits_per_key < 2 ^ 31 -> FilterPolicyLaws (BloomPolicy bits_per_key).
Proof.
  intros Hb. split; simpl; [done|]. intros. apply bloom_filter_matches; done.
Qed.

(** ** Properties *)

(** C37. The Bloom filter has no false negatives: every key a filter was built
    from matches it, whatever the number of keys, of bits per key and of probes,
    and the filter is only appended to [dst]. *)
Theorem bloom_no_false_negatives (bits_per_key : Z) (keys : list bytes) (key dst : bytes) :
  0 <= bits_per_key < 2 ^ 31 -> zlen keys < 2 ^ 32 -> key ∈ keys ->
  exists filter,
    bloom_CreateFilter (NewBloomFilterPolicy bits_per_key) keys dst = dst ++ filter /\
    bloom_KeyMayMatch key filter = true.
Proof.
  intros Hb Hn Hin. eexists. split; [reflexivity|].
  apply (bloom_filter_matches bits_per_key keys key); done.
Qed.

Lemma bloom_no_false_negatives_witness :
  (exists filter,
    bloom_CreateFilter (NewBloomFilterPolicy 10) [[Byte.x61]; [Byte.x62; Byte.x63]] [Byte.x00] = [Byte.x00] ++ filter /\
    bloom_KeyMayMatch [Byte.x62; Byte.x63] filter = true) /\
  bloom_KeyMayMatch [Byte.x64]
    (bloom_CreateFilter (NewBloomFilterPolicy 10) [[Byte.x61]; [Byte.x62; Byte.x63]] []) = false.
Proof.
  split; [|vm_compute; reflexivity].
  apply (bloom_no_false_negatives 10 [[Byte.x61]; [Byte.x62; Byte.x63]] [Byte.x62; Byte.x63] [Byte.x00]).
  - lia.
  - vm_compute. reflexivity.
  - right. left.
Defined.
