(* ===== verification/DbFormat.v ===== *)
(** * DbFormat: internal keys ([db/dbformat.h], [db/dbformat.cc])

    An internal key is a user key followed by eight bytes that pack a 56-bit
    sequence number and a value type.  [InternalKeyComparator] orders them by
    user key and then newest first; it is an instance of [Comparator], and its
    laws follow from those of any user comparator. *)

From S2P Require Import Prelude Coding Comparator FilterPolicy Logging.

Definition kNumLevels : nat := 7.
Definition kL0_CompactionTrigger : Z := 4.
Definition kL0_SlowdownWritesTrigger : Z := 8.
Definition kL0_StopWritesTrigger : Z := 12.
Definition kMaxMemCompactLevel : nat := 2.
Definition kReadBytesPeriod : Z := 1048576.

Inductive ValueType := kTypeDeletion | kTypeValue.

#[global] Instance ValueType_eq_dec : EqDecision ValueType.
Proof. solve_decision. Defined.

Definition vt_z (t : ValueType) : Z := match t with kTypeDeletion => 0 | kTypeValue => 1 end.

Definition kValueTypeForSeek : ValueType := kTypeValue.

Definition SequenceNumber := Z.
Definition kMaxSequenceNumber : SequenceNumber := Z.shiftl 1 56 - 1.

Record ParsedInternalKey := mkPIK {
  pik_user_key : bytes;
  pik_sequence : SequenceNumber;
  pik_type : ValueType
}.

#[global] Instance ParsedInternalKey_eq_dec : EqDecision ParsedInternalKey.
Proof. unfold SequenceNumber. solve_decision. Defined.

Definition InternalKeyEncodingLength (key : ParsedInternalKey) : Z := zlen (pik_user_key key) + 8.

(** [(seq << 8) | t]; the assertions bound [seq] by [kMaxSequenceNumber]. *)
Definition PackSequenceAndType (seq : Z) (t : ValueType) : Z :=
  Z.lor (u64 (Z.shiftl seq 8)) (vt_z t).

Definition AppendInternalKey (result : bytes) (key : ParsedInternalKey) : bytes :=
  PutFixed64 (result ++ pik_user_key key) (PackSequenceAndType (pik_sequence key) (pik_type key)).

Definition ParseInternalKey (internal_key : bytes) : option ParsedInternalKey :=
  let n := zlen internal_key in
  if n <? 8 then None
  else
    let num := DecodeFixed64 (zdrop (n - 8) internal_key) in
    let c := Z.land num 0xff in
    if vt_z kTypeValue <? c then None
    else Some (mkPIK (ztake (n - 8) internal_key) (Z.shiftr num 8)
                     (if c =? 0 then kTypeDeletion else kTypeValue)).

(** A build with assertions stops here on a key that is shorter than its tag
    ([ExtractUserKey_asserts]).  A build without them takes a length below zero; on such
    a key the result here is the empty string and stands for no behaviour. *)
Definition ExtractUserKey_asserts (internal_key : bytes) : bool := 8 <=? zlen internal_key.

Definition ExtractUserKey (internal_key : bytes) : bytes :=
  ztake (zlen internal_key - 8) internal_key.

(** [DecodeFixed64(key.data() + key.size() - 8)]. *)
Definition key_tag (internal_key : bytes) : Z :=
  DecodeFixed64 (zdrop (zlen internal_key - 8) internal_key).

(** ** Debug strings *)

Definition Parsed_DebugString (k : ParsedInternalKey) : bytes :=
  lit "'" ++ pik_user_key k ++ lit "' @ " ++ NumberToString (pik_sequence k) ++ lit " : " ++
  (if decide (pik_type k = kTypeValue) then lit "=>" else lit "DEL").

(** ** [InternalKey] *)

Definition InternalKey := bytes.
Definition newInternalKey (user_key : bytes) (s : SequenceNumber) (t : ValueType) : InternalKey :=
  AppendInternalKey [] (mkPIK user_key s t).

(** [DecodeFrom] assigns and returns whether the key is not empty. *)
Definition InternalKey_DecodeFrom (s : bytes) : InternalKey * bool := (s, negb (zlen s =? 0)).

(** [Encode] returns the bytes, and asserts that there are some. *)
Definition InternalKey_Encode (k : InternalKey) : bytes := k.
Definition InternalKey_Encode_asserts (k : InternalKey) : bool := negb (zlen k =? 0).

Definition InternalKey_user_key (k : InternalKey) : bytes := ExtractUserKey k.
Definition InternalKey_SetFrom (p : ParsedInternalKey) : InternalKey := AppendInternalKey [] p.
Definition InternalKey_DebugString (k : InternalKey) : bytes :=
  match ParseInternalKey k with Some p => Parsed_DebugString p | None => lit "(bad)" end.

(** ** [InternalKeyComparator] *)

Section InternalComparator.
Context (C : Comparator).

Definition ikc_Compare (akey bkey : bytes) : comparison :=
  match @Compare C (ExtractUserKey akey) (ExtractUserKey bkey) with
  | Eq =>
      let anum := key_tag akey in
      let bnum := key_tag bkey in
      if bnum <? anum then Lt else if anum <? bnum then Gt else Eq
  | r => r
  end.

Definition ikc_FindShortestSeparator (start limit : bytes) : bytes :=
  let user_start := ExtractUserKey start in
  let user_limit := ExtractUserKey limit in
  let tmp := @FindShortestSeparator C user_start user_limit in
  if (zlen tmp <? zlen user_start) && bool_decide (@Compare C user_start tmp = Lt)
  then PutFixed64 tmp (PackSequenceAndType kMaxSequenceNumber kValueTypeForSeek)
  else start.

Definition ikc_FindShortSuccessor (key : bytes) : bytes :=
  let user_key := ExtractUserKey key in
  let tmp := @FindShortSuccessor C user_key in
  if (zlen tmp <? zlen user_key) && bool_decide (@Compare C user_key tmp = Lt)
  then PutFixed64 tmp (PackSequenceAndType kMaxSequenceNumber kValueTypeForSeek)
  else key.

Definition InternalKeyComparator : Comparator := {|
  Name := "leveldb.InternalKeyComparator";
  Compare := ikc_Compare;
  FindShortestSeparator := ikc_FindShortestSeparator;
  FindShortSuccessor := ikc_FindShortSuccessor
|}.

End InternalComparator.

(** ** [InternalFilterPolicy] *)

Definition InternalFilterPolicy (P : FilterPolicy) : FilterPolicy := {|
  FilterName := @FilterName P;
  CreateFilter := fun keys dst => @CreateFilter P (map ExtractUserKey keys) dst;
  KeyMayMatch := fun key filter => @KeyMayMatch P (ExtractUserKey key) filter
|}.

(** ** [LookupKey]: one buffer and the offset of the internal key in it *)

Record LookupKey := mkLookupKey { lk_start : bytes; lk_kstart : Z }.

Definition newLookupKey (user_key : bytes) (s : SequenceNumber) : LookupKey :=
  let usize := zlen user_key in
  let prefix := EncodeVarint32 (u32 (usize + 8)) in
  mkLookupKey
    (prefix ++ user_key ++ EncodeFixed64 (PackSequenceAndType s kValueTypeForSeek))
    (zlen prefix).

Definition lk_memtable_key (k : LookupKey) : bytes := lk_start k.
Definition lk_internal_key (k : LookupKey) : bytes := zdrop (lk_kstart k) (lk_start k).
Definition lk_user_key (k : LookupKey) : bytes :=
  ztake (zlen (lk_start k) - lk_kstart k - 8) (zdrop (lk_kstart k) (lk_start k)).

(** ** Tags *)

Lemma kMaxSequenceNumber_eq : kMaxSequenceNumber = 2 ^ 56 - 1.
Proof. done. Qed.

Definition seq_ok (s : SequenceNumber) : Prop := 0 <= s <= kMaxSequenceNumber.

Lemma PackSequenceAndType_eq (s : SequenceNumber) (t : ValueType) :
  seq_ok s -> PackSequenceAndType s t = s * 256 + vt_z t.
Proof.
  unfold seq_ok. rewrite kMaxSequenceNumber_eq. intros Hs. unfold PackSequenceAndType.
  rewrite (wrap_small 64) by (rewrite Z.shiftl_mul_pow2; lia).
  rewrite Z.lor_comm, lor_shiftl_add by (destruct t; simpl; lia). lia.
Qed.

Lemma PackSequenceAndType_range (s : SequenceNumber) (t : ValueType) :
  seq_ok s -> 0 <= PackSequenceAndType s t < 2 ^ 64.
Proof.
  intros Hs. rewrite PackSequenceAndType_eq by done. unfold seq_ok in Hs.
  rewrite kMaxSequenceNumber_eq in Hs. destruct t; simpl; lia.
Qed.

Lemma Pack_seq (s : SequenceNumber) (t : ValueType) :
  seq_ok s -> Z.shiftr (PackSequenceAndType s t) 8 = s.
Proof.
  intros Hs. rewrite PackSequenceAndType_eq, Z.shiftr_div_pow2 by (done || lia).
  change (2 ^ 8) with 256. rewrite Z.div_add_l by lia. destruct t; simpl; rewrite Z.div_small; lia.
Qed.

Lemma Pack_type (s : SequenceNumber) (t : ValueType) :
  seq_ok s -> Z.land (PackSequenceAndType s t) 0xff = vt_z t.
Proof.
  intros Hs. rewrite PackSequenceAndType_eq by done. change 0xff with (Z.ones 8).
  rewrite Z.land_ones by lia. change (2 ^ 8) with 256.
  rewrite Z.add_comm, Z.mod_add by lia. destruct t; done.
Qed.

(** ** Encoded internal keys *)

Lemma ExtractUserKey_app (u tag : bytes) : zlen tag = 8 -> ExtractUserKey (u ++ tag) = u.
Proof.
  intros H. unfold ExtractUserKey. rewrite zlen_app, H.
  replace (zlen u + 8 - 8) with (zlen u) by lia. apply ztake_app_exact.
Qed.

Lemma key_tag_app (u : bytes) (n : Z) : 0 <= n < 2 ^ 64 -> key_tag (u ++ EncodeFixed64 n) = n.
Proof.
  intros H. unfold key_tag. rewrite zlen_app, zlen_EncodeFixed64.
  replace (zlen u + 8 - 8) with (zlen u) by lia. rewrite zdrop_app_exact.
  rewrite <- (app_nil_r (EncodeFixed64 n)). apply DecodeFixed64_Encode. done.
Qed.

Definition encode_key (k : ParsedInternalKey) : bytes := AppendInternalKey [] k.

Lemma AppendInternalKey_app (dst : bytes) (k : ParsedInternalKey) :
  AppendInternalKey dst k = dst ++ encode_key k.
Proof. unfold encode_key, AppendInternalKey, PutFixed64. rewrite app_nil_l, !app_assoc. done. Qed.

Lemma encode_key_eq (k : ParsedInternalKey) :
  encode_key k = pik_user_key k ++ EncodeFixed64 (PackSequenceAndType (pik_sequence k) (pik_type k)).
Proof. done. Qed.

Lemma ExtractUserKey_encode (k : ParsedInternalKey) : ExtractUserKey (encode_key k) = pik_user_key k.
Proof. rewrite encode_key_eq. apply ExtractUserKey_app, zlen_EncodeFixed64. Qed.

Lemma key_tag_encode (k : ParsedInternalKey) :
  seq_ok (pik_sequence k) ->
  key_tag (encode_key k) = PackSequenceAndType (pik_sequence k) (pik_type k).
Proof. intros. rewrite encode_key_eq. apply key_tag_app, PackSequenceAndType_range. done. Qed.

Lemma zlen_encode_key (k : ParsedInternalKey) : zlen (encode_key k) = zlen (pik_user_key k) + 8.
Proof. rewrite encode_key_eq, zlen_app, zlen_EncodeFixed64. done. Qed.

Lemma ParseInternalKey_tag (k : bytes) :
  ParseInternalKey k =
  if zlen k <? 8 then None
  else if 1 <? Z.land (key_tag k) 0xff then None
  else Some (mkPIK (ExtractUserKey k) (Z.shiftr (key_tag k) 8)
                   (if Z.land (key_tag k) 0xff =? 0 then kTypeDeletion else kTypeValue)).
Proof. done. Qed.

Lemma ParseInternalKey_encode (k : ParsedInternalKey) :
  seq_ok (pik_sequence k) -> ParseInternalKey (encode_key k) = Some k.
Proof.
  intros Hs. rewrite ParseInternalKey_tag, zlen_encode_key, key_tag_encode, ExtractUserKey_encode by done.
  rewrite Pack_type, Pack_seq by done. pose proof (zlen_nonneg (pik_user_key k)).
  destruct (Z.ltb_spec (zlen (pik_user_key k) + 8) 8); [lia|].
  destruct k as [u s []]; done.
Qed.

(** A parsed key is the one it was parsed from. *)
Lemma ParseInternalKey_inv (b : bytes) (k : ParsedInternalKey) :
  ParseInternalKey b = Some k -> b = encode_key k /\ seq_ok (pik_sequence k).
Proof.
  rewrite ParseInternalKey_tag. destruct (Z.ltb_spec (zlen b) 8) as [|Hl]; [done|].
  destruct (Z.ltb_spec 1 (Z.land (key_tag b) 0xff)) as [|Hc]; [done|].
  intros [= <-]. rewrite encode_key_eq. cbn [pik_user_key pik_sequence pik_type].
  pose proof (DecodeFixed64_range (zdrop (zlen b - 8) b)) as Hr. fold (key_tag b) in Hr.
  assert (seq_ok (Z.shiftr (key_tag b) 8)) as Hs.
  { unfold seq_ok. rewrite kMaxSequenceNumber_eq, Z.shiftr_div_pow2 by lia.
    split; [apply Z.div_pos; lia|]. enough (key_tag b / 2 ^ 8 < 2 ^ 56) by lia.
    apply Z.div_lt_upper_bound; lia. }
  split; [|done]. rewrite PackSequenceAndType_eq by done.
  revert Hc. change 0xff with (Z.ones 8). rewrite Z.land_ones, Z.shiftr_div_pow2 by lia.
  change (2 ^ 8) with 256. intros Hc. pose proof (Z.mod_pos_bound (key_tag b) 256 ltac:(lia)).
  assert (vt_z (if key_tag b mod 256 =? 0 then kTypeDeletion else kTypeValue) = key_tag b mod 256) as ->.
  { destruct (Z.eqb_spec (key_tag b mod 256) 0) as [->|]; simpl; lia. }
  rewrite Z.mul_comm, <- Z.div_mod by lia. unfold ExtractUserKey, key_tag, EncodeFixed64, DecodeFixed64.
  assert (length (zdrop (zlen b - 8) b) = 8%nat) as Hd
    by (pose proof (zlen_zdrop (zlen b - 8) b ltac:(lia)); unfold zlen in *; lia).
  rewrite take_ge by lia. rewrite <- Hd at 1. rewrite le_split_combine. symmetry. apply ztake_zdrop.
Qed.

(** ** The internal ordering is a comparator *)

Section InternalOrder.
Context {C : Comparator} {CL : ComparatorLaws C}.

Lemma ikc_Compare_spec (a b : bytes) :
  ikc_Compare C a b =
  match Compare (ExtractUserKey a) (ExtractUserKey b) with
  | Eq => Z.compare (key_tag b) (key_tag a)
  | r => r
  end.
Proof.
  unfold ikc_Compare. destruct (Compare _ _); try done.
  destruct (Z.ltb_spec (key_tag b) (key_tag a)) as [H|H]; [symmetry; apply Z.compare_lt_iff; done|].
  destruct (Z.ltb_spec (key_tag a) (key_tag b)) as [H'|H']; symmetry;
    [apply Z.compare_gt_iff; done|apply Z.compare_eq_iff; lia].
Qed.

(** [cle] of internal keys, on the user key and the tag. *)
Lemma ikc_cle (a b : bytes) :
  @cle (InternalKeyComparator C) a b <->
  clt (ExtractUserKey a) (ExtractUserKey b) \/
  (ceq (ExtractUserKey a) (ExtractUserKey b) /\ key_tag b <= key_tag a).
Proof.
  unfold cle at 1. simpl. rewrite ikc_Compare_spec.
  destruct (Compare_spec (ExtractUserKey a) (ExtractUserKey b)) as [H|H|H].
  - rewrite Z.compare_gt_iff. split; [intros; right; split; [done|lia]|].
    intros [H'|[_ ?]]; [|lia]. unfold clt, ceq in *. congruence.
  - naive_solver.
  - split; [done|]. intros [H'|[H' _]]; [destruct (clt_irrefl (ExtractUserKey a)); eapply clt_trans; done|].
    unfold ceq, clt in *. rewrite (cmp_antisym (ExtractUserKey a)), H' in H. done.
Qed.

Lemma ikc_clt (a b : bytes) :
  @clt (InternalKeyComparator C) a b <->
  clt (ExtractUserKey a) (ExtractUserKey b) \/
  (ceq (ExtractUserKey a) (ExtractUserKey b) /\ key_tag b < key_tag a).
Proof.
  unfold clt, ceq. simpl. rewrite ikc_Compare_spec.
  destruct (Compare (ExtractUserKey a) (ExtractUserKey b)); rewrite ?Z.compare_lt_iff; intuition congruence.
Qed.

Lemma ikc_separator_cases (start limit : bytes) :
  ikc_FindShortestSeparator C start limit = start \/
  (clt (ExtractUserKey start) (FindShortestSeparator (ExtractUserKey start) (ExtractUserKey limit)) /\
   ikc_FindShortestSeparator C start limit =
   FindShortestSeparator (ExtractUserKey start) (ExtractUserKey limit) ++
   EncodeFixed64 (PackSequenceAndType kMaxSequenceNumber kValueTypeForSeek)).
Proof.
  unfold ikc_FindShortestSeparator. cbn zeta. destruct (_ <? _); [|by left].
  case_bool_decide; [right|left]; done.
Qed.

Lemma ikc_successor_cases (key : bytes) :
  ikc_FindShortSuccessor C key = key \/
  (clt (ExtractUserKey key) (FindShortSuccessor (ExtractUserKey key)) /\
   ikc_FindShortSuccessor C key =
   FindShortSuccessor (ExtractUserKey key) ++
   EncodeFixed64 (PackSequenceAndType kMaxSequenceNumber kValueTypeForSeek)).
Proof.
  unfold ikc_FindShortSuccessor. cbn zeta. destruct (_ <? _); [|by left].
  case_bool_decide; [right|left]; done.
Qed.

#[export] Instance InternalLaws : ComparatorLaws (InternalKeyComparator C).
Proof.
  split.
  - intros a. simpl. rewrite ikc_Compare_spec, cmp_refl, Z.compare_refl. done.
  - intros a b. simpl. rewrite !ikc_Compare_spec, (cmp_antisym (ExtractUserKey a)).
    destruct (Compare _ _); simpl; [apply Z.compare_antisym|done|done].
  - intros a b c. rewrite !ikc_cle. intros [H1|[H1 E1]] [H2|[H2 E2]].
    + left. eapply clt_trans; done.
    + left. eapply clt_cle_trans; [done|apply ceq_cle; done].
    + left. eapply cle_clt_trans; [apply ceq_cle; done|done].
    + right. split; [eapply ceq_trans; done|lia].
  - intros start limit _. simpl. destruct (ikc_separator_cases start limit) as [->|[H ->]].
    + apply ikc_cle. right. split; [apply ceq_refl|lia].
    + apply ikc_cle. left. rewrite ExtractUserKey_app by apply zlen_EncodeFixed64. done.
  - intros start limit Hlt. simpl. destruct (ikc_separator_cases start limit) as [->|[H ->]]; [done|].
    apply ikc_clt. left. rewrite ExtractUserKey_app by apply zlen_EncodeFixed64.
    apply ikc_clt in Hlt as [Hlt|[Heq _]]; [apply sep_lt; done|].
    apply sep_eq in Heq. unfold clt, ceq in *. congruence.
  - intros start limit Heq. simpl. destruct (ikc_separator_cases start limit) as [->|[H _]].
    + unfold ceq. simpl. rewrite ikc_Compare_spec, cmp_refl, Z.compare_refl. done.
    + unfold ceq in Heq. simpl in Heq. rewrite ikc_Compare_spec in Heq.
      destruct (Compare (ExtractUserKey start) (ExtractUserKey limit)) eqn:E; try done.
      pose proof (sep_eq _ _ E). unfold clt, ceq in *. congruence.
  - intros key. simpl. destruct (ikc_successor_cases key) as [->|[H ->]].
    + apply ikc_cle. right. split; [apply ceq_refl|lia].
    + apply ikc_cle. left. rewrite ExtractUserKey_app by apply zlen_EncodeFixed64. done.
Qed.

(** On encoded keys: by user key, then by decreasing sequence, then by decreasing type. *)
Lemma ikc_Compare_encode (k1 k2 : ParsedInternalKey) :
  seq_ok (pik_sequence k1) -> seq_ok (pik_sequence k2) ->
  ikc_Compare C (encode_key k1) (encode_key k2) =
  match Compare (pik_user_key k1) (pik_user_key k2) with
  | Eq => match Z.compare (pik_sequence k2) (pik_sequence k1) with
          | Eq => Z.compare (vt_z (pik_type k2)) (vt_z (pik_type k1))
          | c => c
          end
  | c => c
  end.
Proof.
  intros H1 H2. rewrite ikc_Compare_spec, !ExtractUserKey_encode, !key_tag_encode,
    !PackSequenceAndType_eq by done.
  destruct (Compare _ _); try done.
  destruct k1 as [u1 s1 t1], k2 as [u2 s2 t2]. cbn [pik_sequence pik_type].
  assert (0 <= vt_z t1 <= 1 /\ 0 <= vt_z t2 <= 1) by (destruct t1, t2; simpl; lia).
  destruct (Z.compare_spec s2 s1); [subst|apply Z.compare_lt_iff; lia|apply Z.compare_gt_iff; lia].
  destruct (Z.compare_spec (vt_z t2) (vt_z t1));
    [apply Z.compare_eq_iff|apply Z.compare_lt_iff|apply Z.compare_gt_iff]; lia.
Qed.

End InternalOrder.

(** A policy on user keys lifts to internal keys. *)
#[export] Instance InternalFilterLaws (P : FilterPolicy) :
  FilterPolicyLaws P -> FilterPolicyLaws (InternalFilterPolicy P).
Proof.
  intros HP. split; simpl.
  - intros. apply (filter_appends (P := P)).
  - intros keys key Hn Hin. apply (filter_matches (P := P)).
    + unfold zlen. rewrite length_map. done.
    + apply list_elem_of_fmap. eauto.
Qed.

(** ** Lookup keys *)

Lemma newLookupKey_views (u : bytes) (s : SequenceNumber) :
  lk_internal_key (newLookupKey u s) = encode_key (mkPIK u s kValueTypeForSeek) /\
  lk_user_key (newLookupKey u s) = u /\
  lk_memtable_key (newLookupKey u s) =
    EncodeVarint32 (u32 (zlen u + 8)) ++ encode_key (mkPIK u s kValueTypeForSeek).
Proof.
  unfold lk_internal_key, lk_user_key, lk_memtable_key, newLookupKey. cbn [lk_start lk_kstart].
  rewrite zdrop_app_exact. split_and!; try done.
  rewrite !zlen_app, zlen_EncodeFixed64.
  replace (_ - _ - 8) with (zlen u) by lia. apply ztake_app_exact.
Qed.

(** The buffer of [usize + 13] bytes is large enough. *)
Lemma newLookupKey_fits (u : bytes) (s : SequenceNumber) :
  zlen (lk_start (newLookupKey u s)) <= zlen u + 13.
Proof.
  unfold newLookupKey. cbn [lk_start]. rewrite !zlen_app, zlen_EncodeFixed64.
  rewrite EncodeVarint32_loop by (apply wrap_range; lia).
  pose proof (length_EncodeVarint64_loop 4 (u32 (zlen u + 8))). unfold zlen at 1. lia.
Qed.

(** ** Properties *)

(** Internal keys round-trip: parsing an encoded key gives it back, and a byte
    string that parses is exactly the encoding of what it parses to, with a
    sequence number of at most 56 bits. *)
Theorem internal_key_roundtrip (k : ParsedInternalKey) (b : bytes) :
  seq_ok (pik_sequence k) ->
  ParseInternalKey (AppendInternalKey [] k) = Some k /\
  ExtractUserKey (AppendInternalKey [] k) = pik_user_key k /\
  zlen (AppendInternalKey [] k) = InternalKeyEncodingLength k /\
  (ParseInternalKey b = Some k -> b = AppendInternalKey [] k).
Proof.
  intros Hs. split_and!.
  - apply ParseInternalKey_encode. done.
  - apply ExtractUserKey_encode.
  - apply zlen_encode_key.
  - intros H. apply ParseInternalKey_inv in H as [-> _]. done.
Qed.

Lemma internal_key_roundtrip_witness :
  ParseInternalKey (AppendInternalKey [] (mkPIK [Byte.x61] 77 kTypeDeletion))
  = Some (mkPIK [Byte.x61] 77 kTypeDeletion).
Proof.
  apply (internal_key_roundtrip (mkPIK [Byte.x61] 77 kTypeDeletion) []).
  split; vm_compute; congruence.
Defined.

(** C33. The internal comparator orders encoded keys by user key, then by
    decreasing sequence number, then by decreasing type, for any user
    comparator: the newest version of a user key comes first, and a lookup key
    for snapshot [s] comes before exactly the versions of its user key that the
    snapshot can see. *)
Theorem internal_order (C : Comparator) (k1 k2 : ParsedInternalKey) :
  ComparatorLaws C -> seq_ok (pik_sequence k1) -> seq_ok (pik_sequence k2) ->
  @Compare (InternalKeyComparator C) (encode_key k1) (encode_key k2) =
    match Compare (pik_user_key k1) (pik_user_key k2) with
    | Eq => match Z.compare (pik_sequence k2) (pik_sequence k1) with
            | Eq => Z.compare (vt_z (pik_type k2)) (vt_z (pik_type k1))
            | c => c
            end
    | c => c
    end /\
  (ceq (pik_user_key k1) (pik_user_key k2) ->
   (@cle (InternalKeyComparator C)
      (lk_internal_key (newLookupKey (pik_user_key k1) (pik_sequence k1))) (encode_key k2) <->
    pik_sequence k2 <= pik_sequence k1)).
Proof.
  intros CL H1 H2. split; [apply ikc_Compare_encode; done|]. intros E.
  rewrite (proj1 (newLookupKey_views _ _)). unfold cle. simpl.
  rewrite ikc_Compare_encode by done. cbn [pik_user_key pik_sequence pik_type]. rewrite E, cmp_refl.
  destruct (Z.compare_spec (pik_sequence k2) (pik_sequence k1)) as [->|H|H].
  - split; [lia|]. intros _. destruct (pik_type k2); vm_compute; congruence.
  - split; [lia|done].
  - split; [done|lia].
Qed.

Lemma internal_order_witness :
  @Compare (InternalKeyComparator BytewiseComparator)
    (encode_key (mkPIK [Byte.x61] 7 kTypeValue)) (encode_key (mkPIK [Byte.x61] 5 kTypeDeletion)) = Lt.
Proof.
  apply (internal_order BytewiseComparator (mkPIK [Byte.x61] 7 kTypeValue) (mkPIK [Byte.x61] 5 kTypeDeletion)).
  - apply BytewiseLaws.
  - split; vm_compute; congruence.
  - split; vm_compute; congruence.
Defined.

(** [InternalKeyComparator] keeps the contract of a comparator whenever the
    user comparator does: its order is total and transitive, and its separators
    lie in [[start, limit)] (so the two assertions of [FindShortestSeparator]
    cannot fail), also when both keys have the same user key. *)
Theorem internal_comparator_contract (C : Comparator) (start limit key : bytes) :
  ComparatorLaws C -> ikc_Compare C start limit = Lt ->
  ikc_Compare C start (ikc_FindShortestSeparator C start limit) <> Gt /\
  ikc_Compare C (ikc_FindShortestSeparator C start limit) limit = Lt /\
  ikc_Compare C key (ikc_FindShortSuccessor C key) <> Gt /\
  ikc_Compare C limit start = Gt.
Proof.
  intros CL H. pose proof (InternalLaws (C := C)) as L. split_and!.
  - apply (sep_ge (C := InternalKeyComparator C)). done.
  - apply (sep_lt (C := InternalKeyComparator C)). done.
  - apply (succ_ge (C := InternalKeyComparator C)).
  - apply (cmp_gt (C := InternalKeyComparator C)). done.
Qed.

Lemma internal_comparator_contract_witness :
  let start := encode_key (mkPIK [Byte.x61; Byte.x61; Byte.x61] 9 kTypeValue) in
  let limit := encode_key (mkPIK [Byte.x61; Byte.x63] 3 kTypeValue) in
  ikc_Compare BytewiseComparator (ikc_FindShortestSeparator BytewiseComparator start limit) limit = Lt /\
  ikc_FindShortestSeparator BytewiseComparator start limit
  = encode_key (mkPIK [Byte.x61; Byte.x62] kMaxSequenceNumber kTypeValue).
Proof.
  cbv zeta. split; [|vm_compute; reflexivity].
  apply (internal_comparator_contract BytewiseComparator
           (encode_key (mkPIK [Byte.x61; Byte.x61; Byte.x61] 9 kTypeValue))
           (encode_key (mkPIK [Byte.x61; Byte.x63] 3 kTypeValue)) []).
  - apply BytewiseLaws.
  - vm_compute. reflexivity.
Defined.
