(* ===== verification/SkipList.v ===== *)
(** * SkipList: the lock-free-read skip list ([db/skiplist.h], [util/random.h])

    The arena is a heap of nodes, a [Node*] is an index into it ([None] is
    [nullptr]) and [head_] is index 0.  Pointers are loaded and stored one at a
    time, in the order of the source.  [OneIn] stands for the random source
    ([std::mt19937] and [std::uniform_int_distribution]): every theorem holds
    for every outcome of it.

    The abstract value of a skip list is the sorted list of its keys ([keys]);
    [Repr] relates the two. *)

From S2P Require Import Prelude.
From Stdlib Require Import Sorting.Sorted.

(** What the [Comparator] template argument promises. *)
Class KeyOrder {K : Type} (cmp : K -> K -> comparison) : Prop := {
  ko_antisym : forall a b, cmp b a = CompOpp (cmp a b);
  ko_refl : forall a, cmp a a = Eq;
  ko_le_trans : forall a b c, cmp a b <> Gt -> cmp b c <> Gt -> cmp a c <> Gt
}.

Section KeyOrderFacts.
Context {K : Type} {cmp : K -> K -> comparison} {KO : KeyOrder cmp}.

Lemma ko_lt_trans (a b c : K) : cmp a b = Lt -> cmp b c = Lt -> cmp a c = Lt.
Proof.
  intros H1 H2. destruct (cmp a c) eqn:E; [|done|].
  - exfalso. apply (ko_le_trans c a b); [rewrite (ko_antisym a c), E; done|congruence|].
    rewrite (ko_antisym b c), H2. done.
  - exfalso. apply (ko_le_trans a b c); congruence.
Qed.

Lemma ko_lt_ge (a b c : K) : cmp a b = Lt -> cmp a c <> Lt -> cmp b c <> Lt.
Proof. intros H1 H2 H3. apply H2. eapply ko_lt_trans; done. Qed.

Lemma ko_ge_lt (a b c : K) : cmp a c = Lt -> cmp b c <> Lt -> cmp a b = Lt.
Proof.
  intros H1 H2. destruct (cmp a b) eqn:E; [|done|]; exfalso.
  - apply (ko_le_trans c b a); [|rewrite (ko_antisym a b), E; done|rewrite (ko_antisym a c), H1; done].
    rewrite (ko_antisym b c). destruct (cmp b c); done.
  - apply (ko_le_trans c b a); [|rewrite (ko_antisym a b), E; done|rewrite (ko_antisym a c), H1; done].
    rewrite (ko_antisym b c). destruct (cmp b c); done.
Qed.

End KeyOrderFacts.

Abbreviation ptr := (option nat).
Definition kMaxHeight : nat := 12.
Definition kBranching : Z := 4.

Section SkipListDef.
Context {K : Type} (compare_ : K -> K -> comparison) (null_key : K).
Context {Rnd : Type} (OneIn : Rnd -> Z -> bool * Rnd).

(** ** Data *)

Record Node := mkNode { node_key : K; node_next : list ptr }.

Record SkipList := mkSkipList {
  heap : list Node;
  max_height_ : nat;
  rnd_ : Rnd
}.

Definition head_ : nat := 0.

(** [node->key], [node->Next(n)] and [node->SetNext(n, x)]. *)
Definition key_of (h : list Node) (x : nat) : K :=
  match h !! x with Some n => node_key n | None => null_key end.

Definition Next (h : list Node) (x level : nat) : ptr :=
  match h !! x with Some n => nth level (node_next n) None | None => None end.

Definition SetNext (h : list Node) (x level : nat) (p : ptr) : list Node :=
  alter (fun n => mkNode (node_key n) (<[level := p]> (node_next n))) x h.

(** [NewNode]: placement in the arena; the new node is the last of the heap. *)
Definition NewNode (h : list Node) (key : K) (height : nat) : list Node * nat :=
  (h ++ [mkNode key (replicate height None)], length h).

Definition newSkipList (r : Rnd) : SkipList :=
  mkSkipList (fst (NewNode [] null_key kMaxHeight)) 1 r.

(** ** Operations *)

Definition Equal (a b : K) : bool := match compare_ a b with Eq => true | _ => false end.

(** [while (height < kMaxHeight && rnd_.OneIn(kBranching)) height++]; the fuel
    [kMaxHeight] is not exhausted, because [height] starts at 1. *)
Fixpoint RandomHeight_loop (fuel height : nat) (r : Rnd) : nat * Rnd :=
  match fuel with
  | O => (height, r)
  | S fuel' =>
      if (height <? kMaxHeight)%nat
      then let '(b, r') := OneIn r kBranching in
           if b then RandomHeight_loop fuel' (S height) r' else (height, r')
      else (height, r)
  end.

Definition RandomHeight (r : Rnd) : nat * Rnd := RandomHeight_loop kMaxHeight 1 r.

Definition KeyIsAfterNode (h : list Node) (key : K) (n : ptr) : bool :=
  match n with
  | Some y => match compare_ (key_of h y) key with Lt => true | _ => false end
  | None => false
  end.

(** The search loop.  [prev] is the array the caller passes ([None] entries are
    not initialised); the fuel bounds the iterations, one per node passed and
    one per level. *)
Fixpoint FindGreaterOrEqual_loop (fuel : nat) (h : list Node) (key : K)
    (x level : nat) (prev : list ptr) : ptr * list ptr :=
  match fuel with
  | O => (None, prev)
  | S fuel' =>
      let next := Next h x level in
      if KeyIsAfterNode h key next
      then FindGreaterOrEqual_loop fuel' h key (default x next) level prev
      else
        let prev := <[level := Some x]> prev in
        match level with
        | O => (next, prev)
        | S level' => FindGreaterOrEqual_loop fuel' h key x level' prev
        end
  end.

Definition search_fuel (s : SkipList) : nat := length (heap s) + kMaxHeight.

Definition FindGreaterOrEqual (s : SkipList) (key : K) : ptr * list ptr :=
  FindGreaterOrEqual_loop (search_fuel s) (heap s) key head_ (max_height_ s - 1)
    (replicate kMaxHeight None).

Fixpoint FindLessThan_loop (fuel : nat) (h : list Node) (key : K) (x level : nat) : nat :=
  match fuel with
  | O => x
  | S fuel' =>
      match Next h x level with
      | Some y =>
          match compare_ (key_of h y) key with
          | Lt => FindLessThan_loop fuel' h key y level
          | _ => match level with O => x | S level' => FindLessThan_loop fuel' h key x level' end
          end
      | None => match level with O => x | S level' => FindLessThan_loop fuel' h key x level' end
      end
  end.

Definition FindLessThan (s : SkipList) (key : K) : nat :=
  FindLessThan_loop (search_fuel s) (heap s) key head_ (max_height_ s - 1).

Fixpoint FindLast_loop (fuel : nat) (h : list Node) (x level : nat) : nat :=
  match fuel with
  | O => x
  | S fuel' =>
      match Next h x level with
      | Some y => FindLast_loop fuel' h y level
      | None => match level with O => x | S level' => FindLast_loop fuel' h x level' end
      end
  end.

Definition FindLast (s : SkipList) : nat :=
  FindLast_loop (search_fuel s) (heap s) head_ (max_height_ s - 1).

(** The two stores of one iteration of the linking loop of [Insert]. *)
Definition link_new (h : list Node) (prev : list ptr) (x i : nat) : list Node :=
  match prev !! i with
  | Some (Some p) => SetNext h x i (Next h p i)
  | _ => h
  end.

Definition link_prev (h : list Node) (prev : list ptr) (x i : nat) : list Node :=
  match prev !! i with
  | Some (Some p) => SetNext h p i (Some x)
  | _ => h
  end.

(** [for (int i = 0; i < height; i++)], from [i] on with [n] iterations left. *)
Fixpoint link_loop (n i : nat) (h : list Node) (prev : list ptr) (x : nat) : list Node :=
  match n with
  | O => h
  | S n' => link_loop n' (S i) (link_prev (link_new h prev x i) prev x i) prev x
  end.

(** [for (int i = GetMaxHeight(); i < height; i++) prev[i] = head_;] *)
Fixpoint fill_prev (n i : nat) (prev : list ptr) : list ptr :=
  match n with
  | O => prev
  | S n' => fill_prev n' (S i) (<[i := Some head_]> prev)
  end.

Definition Insert (s : SkipList) (key : K) : SkipList :=
  let '(_, prev) := FindGreaterOrEqual s key in
  let '(height, r) := RandomHeight (rnd_ s) in
  let '(prev, mh) :=
    if (max_height_ s <? height)%nat
    then (fill_prev (height - max_height_ s) (max_height_ s) prev, height)
    else (prev, max_height_ s) in
  let '(h, x) := NewNode (heap s) key height in
  mkSkipList (link_loop height 0 h prev x) mh r.

Definition Contains (s : SkipList) (key : K) : bool :=
  match fst (FindGreaterOrEqual s key) with
  | Some x => Equal key (key_of (heap s) x)
  | None => false
  end.

(** ** Iterator: the node it is at *)

Definition Iter_Valid (it : ptr) : bool := match it with Some _ => true | None => false end.
Definition Iter_key (s : SkipList) (it : ptr) : K :=
  match it with Some x => key_of (heap s) x | None => null_key end.
Definition Iter_Next (s : SkipList) (it : ptr) : ptr :=
  match it with Some x => Next (heap s) x 0 | None => None end.
Definition not_head (x : nat) : ptr := if (x =? head_)%nat then None else Some x.
Definition Iter_Prev (s : SkipList) (it : ptr) : ptr :=
  match it with Some x => not_head (FindLessThan s (key_of (heap s) x)) | None => None end.
Definition Iter_Seek (s : SkipList) (target : K) : ptr := fst (FindGreaterOrEqual s target).
Definition Iter_SeekToFirst (s : SkipList) : ptr := Next (heap s) head_ 0.
Definition Iter_SeekToLast (s : SkipList) : ptr := not_head (FindLast s).

End SkipListDef.

Arguments Node K : clear implicits.
Arguments mkNode {K}.
Arguments node_key {K}.
Arguments node_next {K}.
Arguments SkipList K Rnd : clear implicits.
Arguments mkSkipList {K Rnd}.
Arguments heap {K Rnd}.
Arguments max_height_ {K Rnd}.
Arguments rnd_ {K Rnd}.
Arguments Next {K}.
Arguments SetNext {K}.

(** ** Pointers *)

Section Heap.
Context {K : Type} {null_key : K}.
Implicit Types (h : list (Node K)) (x y i j : nat) (p : ptr).

Definition height_of h x : nat :=
  match h !! x with Some n => length (node_next n) | None => 0%nat end.

Lemma key_of_SetNext h x i p y : key_of null_key (SetNext h x i p) y = key_of null_key h y.
Proof.
  unfold key_of, SetNext. rewrite list_lookup_alter.
  case_decide; [subst|done]. destruct (h !! y); done.
Qed.

Lemma height_of_SetNext h x i p y : height_of (SetNext h x i p) y = height_of h y.
Proof.
  unfold height_of, SetNext. rewrite list_lookup_alter.
  case_decide; [subst|done]. destruct (h !! y); simpl; [apply length_insert|done].
Qed.

Lemma length_SetNext h x i p : length (SetNext h x i p) = length h.
Proof. apply length_alter. Qed.

Lemma nth_insert (l : list ptr) (i j : nat) (p : ptr) :
  (i < length l)%nat -> nth j (<[i := p]> l) None = if decide (i = j) then p else nth j l None.
Proof.
  intros Hi. rewrite !nth_lookup. case_decide as E.
  - subst. rewrite list_lookup_insert_eq by done. done.
  - rewrite list_lookup_insert_ne by done. done.
Qed.

Lemma Next_SetNext h x i p y j :
  (i < height_of h x)%nat ->
  Next (SetNext h x i p) y j = if decide (x = y /\ i = j) then p else Next h y j.
Proof.
  unfold height_of, Next, SetNext. rewrite list_lookup_alter.
  destruct (h !! x) as [n|] eqn:E; [|lia]. intros Hi.
  destruct (decide (x = y)) as [->|]; [|rewrite decide_False by naive_solver; done].
  rewrite E. simpl. rewrite nth_insert by done.
  repeat case_decide; naive_solver.
Qed.

Lemma Next_new h n y j :
  Next (h ++ [n]) y j = if decide (y = length h) then nth j (node_next n) None else Next h y j.
Proof.
  unfold Next. case_decide as E.
  - subst. rewrite lookup_app_r, Nat.sub_diag by lia. done.
  - destruct (Nat.lt_ge_cases y (length h)).
    + rewrite lookup_app_l by lia. done.
    + rewrite lookup_app_r, (lookup_ge_None_2 h y) by lia.
      destruct (y - length h)%nat eqn:E'; [lia|]. done.
Qed.

Lemma key_of_new h n y :
  (y < length h)%nat -> key_of null_key (h ++ [n]) y = key_of null_key h y.
Proof. intros. unfold key_of. rewrite lookup_app_l by lia. done. Qed.

Lemma height_of_new h n y : (y < length h)%nat -> height_of (h ++ [n]) y = height_of h y.
Proof. intros. unfold height_of. rewrite lookup_app_l by lia. done. Qed.

(** [chain h i x l]: following the level-[i] pointers from [x] visits exactly [l]. *)
Fixpoint chain h i x (l : list nat) : Prop :=
  match l with
  | [] => Next h x i = None
  | y :: l' => Next h x i = Some y /\ chain h i y l'
  end.

Lemma chain_app h i x (a b : list nat) y : chain h i x (a ++ y :: b) -> chain h i y b.
Proof. revert x. induction a as [|z a IH]; intros x; simpl; [tauto|]. intros [_ H]. eauto. Qed.

Lemma chain_Next h i x (l : list nat) : chain h i x l -> Next h x i = head l.
Proof. destruct l; simpl; tauto. Qed.

(** A store elsewhere does not disturb a chain. *)
Lemma chain_ext h h' i x (l : list nat) :
  (forall y, y ∈ x :: l -> Next h' y i = Next h y i) -> chain h i x l -> chain h' i x l.
Proof.
  revert x. induction l as [|y l IH]; intros x Hn; simpl.
  - rewrite Hn by (left). done.
  - intros [H1 H2]. rewrite Hn by left. split; [done|]. apply IH; [|done].
    intros z Hz. apply Hn. right. done.
Qed.

(** Splicing a node into a chain. *)
Lemma chain_splice h h' i x (a b : list nat) (n : nat) :
  NoDup (x :: a ++ b) -> n ∉ x :: a ++ b ->
  chain h i x (a ++ b) ->
  (forall y, Next h' y i = if decide (y = n) then Next h (default x (last a)) i
                           else if decide (y = default x (last a)) then Some n else Next h y i) ->
  chain h' i x (a ++ n :: b).
Proof.
  revert x. induction a as [|y a IH]; intros x Hnd Hn Hc Hh.
  - simpl in *. split.
    + rewrite Hh, decide_False by set_solver. rewrite decide_True by done. done.
    + destruct b as [|z b]; simpl in *.
      * rewrite Hh, decide_True by done. done.
      * destruct Hc as [H1 H2]. rewrite Hh, decide_True by done. split; [done|].
        eapply chain_ext; [|done]. intros w Hw. inversion Hnd; subst.
        rewrite Hh, !decide_False by set_solver. done.
  - simpl in Hc. destruct Hc as [H1 H2].
    assert (default x (last (y :: a)) = default y (last a)) as El by (rewrite last_cons; destruct (last a); done).
    rewrite El in Hh. clear El. simpl in Hnd, Hn. inversion Hnd; subst. split.
    + rewrite Hh, decide_False by set_solver.
      rewrite decide_False; [done|]. intros ->. apply H3.
      destruct (last a) as [z|] eqn:Ez; simpl; [|left].
      right. apply elem_of_app. left. apply last_Some_elem_of in Ez. done.
    + apply IH; [done|set_solver|done|]. done.
Qed.

End Heap.

(** ** Representation *)

Section Repr.
Context {K : Type} {compare_ : K -> K -> comparison} {KO : KeyOrder compare_} {null_key : K}.
Implicit Types (h : list (Node K)) (L : nat -> list nat) (key : K).

Definition key_lt h (x y : nat) : Prop :=
  compare_ (key_of null_key h x) (key_of null_key h y) = Lt.

(** [L i] is the list of the nodes linked at level [i]. *)
Record Repr h (mh : nat) L : Prop := {
  repr_mh : (1 <= mh <= kMaxHeight)%nat;
  repr_head : height_of h head_ = kMaxHeight;
  repr_chain : forall i, (i < kMaxHeight)%nat -> chain h i head_ (L i);
  repr_empty : forall i, (mh <= i)%nat -> L i = [];
  repr_sub : forall i, sublist (L (S i)) (L i);
  repr_nodes : forall i x, x ∈ L i -> (0 < x < length h)%nat /\ (i < height_of h x)%nat;
  repr_sorted : StronglySorted (key_lt h) (L 0%nat)
}.

Definition keys h L : list K := map (key_of null_key h) (L 0%nat).

Lemma StronglySorted_sublist {A} (R : A -> A -> Prop) (l k : list A) :
  sublist l k -> StronglySorted R k -> StronglySorted R l.
Proof.
  induction 1 as [|x l k Hs IH|x l k Hs IH]; intros HS; [done|..]; inversion HS; subst.
  - constructor; [auto|]. rewrite Forall_forall in *. intros y Hy.
    apply H2. eapply elem_of_submseteq; [done|]. apply sublist_submseteq. done.
  - auto.
Qed.

Lemma StronglySorted_lt {A} (R : A -> A -> Prop) (a b c : list A) (x y : A) :
  StronglySorted R (a ++ x :: b ++ y :: c) -> R x y.
Proof.
  induction a as [|z a IH]; simpl; intros HS; inversion HS as [|? ? HS' HF]; subst; [|auto].
  rewrite Forall_forall in HF. apply HF. set_solver.
Qed.

Lemma repr_sorted_i h mh L (i : nat) : Repr h mh L -> StronglySorted (key_lt h) (L i).
Proof.
  intros R. induction i as [|i IH]; [apply R|].
  eapply StronglySorted_sublist; [apply R|done].
Qed.

Lemma repr_sub0 h mh L (i : nat) : Repr h mh L -> sublist (L i) (L 0%nat).
Proof. intros R. induction i as [|i IH]; [done|]. etrans; [apply R|done]. Qed.

Lemma key_lt_irrefl h (x : nat) : ~ key_lt h x x.
Proof. unfold key_lt. rewrite ko_refl. done. Qed.

Lemma sorted_NoDup h (l : list nat) : StronglySorted (key_lt h) l -> NoDup l.
Proof.
  induction 1 as [|x l HS IH Hx]; constructor; [|done].
  rewrite Forall_forall in Hx. intros Hin. apply (key_lt_irrefl h x). auto.
Qed.

Lemma repr_NoDup h mh L (i : nat) : Repr h mh L -> NoDup (head_ :: L i).
Proof.
  intros R. constructor; [|eapply sorted_NoDup, repr_sorted_i; done].
  intros H. apply (repr_nodes _ _ _ R) in H. unfold head_ in H. lia.
Qed.

(** ** The nodes before and from a key *)

Definition after h key (x : nat) : bool := KeyIsAfterNode compare_ null_key h key (Some x).
Definition before_nodes h key (l : list nat) : list nat := filter (fun x => after h key x = true) l.
Definition from_nodes h key (l : list nat) : list nat := filter (fun x => after h key x = false) l.

Lemma after_true h key (x : nat) : after h key x = true <-> compare_ (key_of null_key h x) key = Lt.
Proof. unfold after. simpl. destruct (compare_ _ _); naive_solver. Qed.

Lemma after_false h key (x : nat) : after h key x = false <-> compare_ (key_of null_key h x) key <> Lt.
Proof. unfold after. simpl. destruct (compare_ _ _); naive_solver. Qed.

Lemma after_down h key (x y : nat) : key_lt h x y -> after h key y = true -> after h key x = true.
Proof. rewrite !after_true. unfold key_lt. intros. eapply ko_lt_trans; done. Qed.

Lemma after_up h key (x y : nat) : key_lt h x y -> after h key x = false -> after h key y = false.
Proof. rewrite !after_false. unfold key_lt. intros. eapply ko_lt_ge; done. Qed.

Lemma filter_all {A} (P : A -> Prop) `{!forall x, Decision (P x)} (l : list A) :
  (forall x, x ∈ l -> P x) -> filter P l = l.
Proof.
  induction l as [|x l IH]; intros Hl; [done|].
  rewrite filter_cons_True by (apply Hl; left). f_equal. apply IH. intros. apply Hl. right. done.
Qed.

Lemma filter_none {A} (P : A -> Prop) `{!forall x, Decision (P x)} (l : list A) :
  (forall x, x ∈ l -> ~ P x) -> filter P l = [].
Proof.
  induction l as [|x l IH]; intros Hl; [done|].
  rewrite filter_cons_False by (apply Hl; left). apply IH. intros. apply Hl. right. done.
Qed.

(** In a sorted list the nodes before a key come first. *)
Lemma before_from_app h key (a b : list nat) :
  StronglySorted (key_lt h) (a ++ b) ->
  (forall x, last a = Some x -> after h key x = true) ->
  (forall y, head b = Some y -> after h key y = false) ->
  before_nodes h key (a ++ b) = a /\ from_nodes h key (a ++ b) = b.
Proof.
  intros HS Ha Hb.
  assert (forall x, x ∈ a -> after h key x = true) as Ha'.
  { intros x Hx. destruct (decide (last a = Some x)) as [|Hne]; [auto|].
    destruct (last a) as [y|] eqn:El; [|apply last_None in El; set_solver].
    apply last_Some in El as [a' ->]. apply (after_down _ _ _ y); [|auto].
    apply elem_of_app in Hx as [Hx|Hx]; [|set_solver].
    apply list_elem_of_split in Hx as (a1 & a2 & ->).
    rewrite <- !app_assoc in HS. eapply StronglySorted_lt, HS. }
  assert (forall x, x ∈ b -> after h key x = false) as Hb'.
  { intros x Hx. destruct b as [|y b]; [set_solver|]. apply elem_of_cons in Hx as [->|Hx]; [by apply Hb|].
    apply (after_up _ _ y); [|by apply Hb].
    assert (StronglySorted (key_lt h) (y :: b)) as HS'.
    { clear -HS. induction a as [|z a IH]; [done|]. simpl in HS. inversion HS; auto. }
    inversion HS'; subst. rewrite Forall_forall in H2. auto. }
  unfold before_nodes, from_nodes. rewrite !filter_app. split.
  - rewrite filter_all, filter_none by (done || (intros x Hx; rewrite Hb' by done; done)). apply app_nil_r.
  - rewrite filter_none, filter_all by (done || (intros x Hx; rewrite Ha' by done; done)). done.
Qed.

Lemma before_from h key (l : list nat) :
  StronglySorted (key_lt h) l -> l = before_nodes h key l ++ from_nodes h key l.
Proof.
  induction 1 as [|x l HS IH Hx]; [done|].
  unfold before_nodes, from_nodes. destruct (after h key x) eqn:E.
  - rewrite filter_cons_True, filter_cons_False by congruence. simpl. f_equal. exact IH.
  - rewrite filter_cons_False, filter_cons_True by congruence.
    rewrite filter_none, filter_all; [done|..]; intros y Hy; rewrite Forall_forall in Hx;
      rewrite (after_up h key x y) by auto; done.
Qed.

(** ** Search *)

(** [x] is the head or a node of the list, and [r] is what follows it. *)
Definition at_pos (l : list nat) (x : nat) (r : list nat) : Prop :=
  exists a, l = a ++ r /\ x = default head_ (last a).

Lemma at_pos_intro (l : list nat) (x : nat) : x = head_ \/ x ∈ l -> exists r, at_pos l x r.
Proof.
  intros [->|Hx]; [exists l, []; done|].
  apply list_elem_of_split in Hx as (a & r & ->). exists r, (a ++ [x]).
  rewrite <- app_assoc, last_snoc. done.
Qed.

Lemma at_pos_chain h mh L (i x : nat) (r : list nat) :
  Repr h mh L -> (i < kMaxHeight)%nat -> at_pos (L i) x r -> chain h i x r.
Proof.
  intros R Hi (a & E & ->). pose proof (repr_chain _ _ _ R i Hi) as Hc. rewrite E in Hc.
  destruct (last a) as [y|] eqn:El; simpl.
  - apply last_Some in El as [a' ->]. rewrite <- app_assoc in Hc. apply chain_app in Hc. done.
  - apply last_None in El as ->. done.
Qed.

(** A node that is not before [x] is in the rest. *)
Lemma at_pos_rest h (l : list nat) (x y : nat) (r : list nat) :
  StronglySorted (key_lt h) l -> head_ ∉ l -> at_pos l x r -> y ∈ l ->
  (x = head_ \/ key_lt h x y) -> y ∈ r.
Proof.
  intros HS Hh (a & -> & Ex) Hy Hxy. apply elem_of_app in Hy as [Hy|Hy]; [|done]. exfalso.
  destruct (last a) as [z|] eqn:El; simpl in Ex; subst; [|apply last_None in El; set_solver].
  apply last_Some in El as [a' ->]. destruct Hxy as [->|Hxy]; [set_solver|].
  apply elem_of_app in Hy as [Hy|Hy]; [|apply list_elem_of_singleton in Hy; subst; eapply key_lt_irrefl; done].
  apply (key_lt_irrefl h y). unfold key_lt in *. eapply ko_lt_trans; [|exact Hxy].
  apply list_elem_of_split in Hy as (a1 & a2 & ->).
  rewrite <- !app_assoc in HS. exact (StronglySorted_lt _ _ _ _ _ _ HS).
Qed.

(** Either the search moves on to a later node of the level, or it is at the
    last node before the key. *)
Lemma search_step h mh L key (i x : nat) :
  Repr h mh L -> (i < kMaxHeight)%nat -> x = head_ \/ (x ∈ L i /\ after h key x = true) ->
  (exists y, Next h x i = Some y /\ after h key y = true /\ y ∈ L i /\ (x = head_ \/ key_lt h x y)) \/
  (KeyIsAfterNode compare_ null_key h key (Next h x i) = false /\
   x = default head_ (last (before_nodes h key (L i))) /\
   Next h x i = head (from_nodes h key (L i))).
Proof.
  intros R Hi Hx. destruct (at_pos_intro (L i) x) as [r Hp]; [tauto|].
  pose proof (at_pos_chain _ _ _ _ _ _ R Hi Hp) as Hc. pose proof (chain_Next _ _ _ _ Hc) as Hn.
  destruct Hp as (a & E & Ex). pose proof (repr_sorted_i _ _ _ i R) as HS. rewrite E in *.
  assert (forall y, last a = Some y -> after h key y = true) as Ha.
  { intros y Hy. rewrite Hy in Ex. simpl in Ex. subst. destruct Hx as [->|[_ ?]]; [|done].
    exfalso. apply last_Some_elem_of in Hy. pose proof (repr_NoDup _ _ _ i R) as Hd. rewrite E in Hd.
    inversion Hd. set_solver. }
  destruct r as [|y r]; simpl in Hn.
  - right. destruct (before_from_app h key a [] HS Ha) as [-> ->]; [done|]. rewrite Hn. done.
  - destruct (after h key y) eqn:Ey; [left; exists y; split_and!; [done|done|set_solver|]|right].
    + destruct (last a) as [z|] eqn:El; simpl in Ex; subst; [right|by left].
      apply last_Some in El as [a' ->]. rewrite <- app_assoc in HS.
      exact (StronglySorted_lt _ a' [] _ _ _ HS).
    + destruct (before_from_app h key a (y :: r) HS Ha) as [-> ->]; [intros z [= <-]; done|].
      rewrite Hn. done.
Qed.

(** Moving on makes progress at level 0; going down keeps the position. *)
Lemma search_advance h mh L (i x y : nat) (r : list nat) :
  Repr h mh L -> at_pos (L 0%nat) x r -> y ∈ L i -> (x = head_ \/ key_lt h x y) ->
  exists r', at_pos (L 0%nat) y r' /\ (length r' < length r)%nat.
Proof.
  intros R Hp Hy Hxy. assert (y ∈ L 0%nat) as Hy0.
  { eapply elem_of_submseteq; [done|]. apply sublist_submseteq. eapply repr_sub0; done. }
  assert (y ∈ r) as Hr.
  { eapply at_pos_rest; [apply R| |done|done|done].
    pose proof (repr_NoDup _ _ _ 0%nat R) as Hd. inversion Hd; done. }
  destruct Hp as (a & E & _). apply list_elem_of_split in Hr as (r1 & r2 & ->).
  exists r2. split; [|rewrite length_app; simpl; lia].
  exists (a ++ r1 ++ [y]). rewrite E. split; [rewrite <- !app_assoc; done|].
  rewrite app_assoc, last_snoc. done.
Qed.

Lemma search_down h mh L key (i x : nat) :
  Repr h mh L -> x = head_ \/ (x ∈ L (S i) /\ after h key x = true) ->
  x = head_ \/ (x ∈ L i /\ after h key x = true).
Proof.
  intros R [->|[Hx Ha]]; [by left|right]. split; [|done].
  eapply elem_of_submseteq; [done|]. apply sublist_submseteq, R.
Qed.

Lemma FindGreaterOrEqual_loop_spec h mh L key (fuel x level : nat) (prev : list ptr) (r : list nat) :
  Repr h mh L -> (level < kMaxHeight)%nat -> length prev = kMaxHeight ->
  x = head_ \/ (x ∈ L level /\ after h key x = true) ->
  at_pos (L 0%nat) x r -> (length r + level < fuel)%nat ->
  exists prev',
    FindGreaterOrEqual_loop compare_ null_key fuel h key x level prev
    = (head (from_nodes h key (L 0%nat)), prev') /\
    length prev' = kMaxHeight /\
    forall i, prev' !! i = if decide (i <= level)%nat
                           then Some (Some (default head_ (last (before_nodes h key (L i)))))
                           else prev !! i.
Proof.
  intros R. revert x level prev r. induction fuel as [|fuel IH]; intros x level prev r Hl Hp Hx Hr Hf; [lia|].
  cbn [FindGreaterOrEqual_loop].
  destruct (search_step h mh L key level x R Hl Hx) as [(y & En & Ha & Hy & Hlt)|(Hk & Ex & En)].
  - rewrite En. unfold after in Ha. rewrite Ha. simpl default.
    destruct (search_advance _ _ _ _ _ _ _ R Hr Hy Hlt) as (r' & Hr' & Hlen).
    apply (IH y level prev r'); [done|done|right; done|done|lia].
  - rewrite Hk. destruct level as [|level].
    + eexists. rewrite En. split; [done|]. rewrite length_insert. split; [done|]. intros i.
      destruct (decide (i <= 0)%nat) as [Hi|Hi].
      * assert (i = 0%nat) as -> by lia. rewrite list_lookup_insert_eq by lia. rewrite <- Ex. done.
      * rewrite list_lookup_insert_ne by lia. done.
    + destruct (IH x level (<[S level := Some x]> prev) r) as (prev' & -> & Hlen & Hprev);
        [lia|rewrite length_insert; done|eapply search_down; done|done|lia|].
      exists prev'. split_and!; [done|done|]. intros i. rewrite Hprev.
      repeat case_decide; try lia; [done| |].
      * assert (i = S level) as -> by lia. rewrite list_lookup_insert_eq by lia. rewrite <- Ex. done.
      * rewrite list_lookup_insert_ne by lia. done.
Qed.

Lemma FindLessThan_loop_spec h mh L key (fuel x level : nat) (r : list nat) :
  Repr h mh L -> (level < kMaxHeight)%nat ->
  x = head_ \/ (x ∈ L level /\ after h key x = true) ->
  at_pos (L 0%nat) x r -> (length r + level < fuel)%nat ->
  FindLessThan_loop compare_ null_key fuel h key x level
  = default head_ (last (before_nodes h key (L 0%nat))).
Proof.
  intros R. revert x level r. induction fuel as [|fuel IH]; intros x level r Hl Hx Hr Hf; [lia|].
  cbn [FindLessThan_loop].
  destruct (search_step h mh L key level x R Hl Hx) as [(y & En & Ha & Hy & Hlt)|(Hk & Ex & En)].
  - rewrite En. pose proof Ha as Ha'. apply after_true in Ha'. rewrite Ha'.
    destruct (search_advance _ _ _ _ _ _ _ R Hr Hy Hlt) as (r' & Hr' & Hlen).
    apply (IH y level r'); [done|right; done|done|lia].
  - assert (match level with O => x | S level' => FindLessThan_loop compare_ null_key fuel h key x level' end
            = default head_ (last (before_nodes h key (L 0%nat)))) as Hd.
    { destruct level as [|level]; [done|]. apply (IH x level r); [lia|eapply search_down; done|done|lia]. }
    destruct (Next h x level) as [y|]; [|done]. simpl in Hk.
    destruct (compare_ (key_of null_key h y) key); done.
Qed.

Lemma FindLast_loop_spec h mh L (fuel x level : nat) (r : list nat) :
  Repr h mh L -> (level < kMaxHeight)%nat -> x = head_ \/ x ∈ L level ->
  at_pos (L 0%nat) x r -> (length r + level < fuel)%nat ->
  FindLast_loop fuel h x level = default head_ (last (L 0%nat)).
Proof.
  intros R. revert x level r. induction fuel as [|fuel IH]; intros x level r Hl Hx Hr Hf; [lia|].
  cbn [FindLast_loop]. destruct (at_pos_intro (L level) x Hx) as [r1 Hp].
  pose proof (chain_Next _ _ _ _ (at_pos_chain _ _ _ _ _ _ R Hl Hp)) as Hn. rewrite Hn.
  destruct Hp as (a & E & Ex). destruct r1 as [|y r1]; simpl.
  - destruct level as [|level]; [rewrite E, app_nil_r, <- Ex; done|].
    apply (IH x level r); [lia| |done|lia]. destruct Hx as [?|Hx]; [by left|right].
    eapply elem_of_submseteq; [done|]. apply sublist_submseteq, R.
  - assert (y ∈ L level) as Hy by (rewrite E; set_solver).
    destruct (search_advance h mh L level x y r R Hr Hy) as (r' & Hr' & Hlen).
    { destruct (last a) as [z|] eqn:El; simpl in Ex; subst; [right|by left].
      apply last_Some in El as [a' ->]. pose proof (repr_sorted_i _ _ _ level R) as HS.
      rewrite E, <- app_assoc in HS. exact (StronglySorted_lt _ a' [] _ _ _ HS). }
    apply (IH y level r'); [done|by right|done|lia].
Qed.

(** ** Insertion *)

Lemma Repr_mh h (mh mh' : nat) L :
  Repr h mh L -> (mh <= mh' <= kMaxHeight)%nat -> Repr h mh' L.
Proof.
  intros [] Hm. split; try done; [lia|]. intros i Hi. apply repr_empty0. lia.
Qed.

Lemma key_lt_ext h h' (l : list nat) :
  (forall x, x ∈ l -> key_of null_key h' x = key_of null_key h x) ->
  StronglySorted (key_lt h) l -> StronglySorted (key_lt h') l.
Proof.
  intros Hk. induction 1 as [|x l HS IH Hx]; constructor; [apply IH; intros; apply Hk; set_solver|].
  rewrite Forall_forall in *. intros y Hy. unfold key_lt. rewrite !Hk by set_solver. apply Hx. done.
Qed.

Lemma before_nodes_ext h h' key (l : list nat) :
  (forall x, x ∈ l -> key_of null_key h' x = key_of null_key h x) ->
  before_nodes h' key l = before_nodes h key l /\ from_nodes h' key l = from_nodes h key l.
Proof.
  intros Hk. unfold before_nodes, from_nodes, after, KeyIsAfterNode.
  split; (induction l as [|x l IH]; [done|]; rewrite !filter_cons, Hk, IH by set_solver; done).
Qed.

Lemma repr_length h (mh : nat) L : Repr h mh L -> (0 < length h)%nat.
Proof.
  intros R. pose proof (repr_head _ _ _ R) as H. unfold height_of, head_ in H.
  destruct h; [|simpl; lia]. discriminate.
Qed.

(** A new node, not linked yet, changes no list. *)
Lemma Repr_NewNode h (mh : nat) L key (height : nat) :
  Repr h mh L -> Repr (fst (NewNode h key height)) mh L.
Proof.
  intros R. simpl. pose proof (repr_length _ _ _ R) as Hh.
  split.
  - apply R.
  - rewrite height_of_new by done. apply R.
  - intros i Hi. eapply chain_ext; [|apply R; done]. intros y Hy. rewrite Next_new, decide_False; [done|].
    apply elem_of_cons in Hy as [->|Hy]; [unfold head_; lia|]. apply (repr_nodes _ _ _ R) in Hy. lia.
  - apply R.
  - apply R.
  - intros i x Hx. apply (repr_nodes _ _ _ R) in Hx as [H1 H2]. rewrite length_app, height_of_new by lia. lia.
  - eapply key_lt_ext; [|apply R]. intros x Hx. apply key_of_new. apply (repr_nodes _ _ _ R) in Hx. lia.
Qed.

(** A store into a node that is not linked at that level changes no list. *)
Lemma Repr_SetNext_unlinked h (mh : nat) L (x i : nat) (p : ptr) :
  Repr h mh L -> (i < height_of h x)%nat -> x ∉ head_ :: L i -> Repr (SetNext h x i p) mh L.
Proof.
  intros R Hi Hx. split.
  - apply R.
  - rewrite height_of_SetNext. apply R.
  - intros j Hj. eapply chain_ext; [|apply R; done]. intros y Hy. rewrite Next_SetNext by done.
    rewrite decide_False; [done|]. intros [-> ->]. done.
  - apply R.
  - apply R.
  - intros j y Hy. rewrite length_SetNext, height_of_SetNext. eapply repr_nodes; done.
  - eapply key_lt_ext; [|apply R]. intros. apply key_of_SetNext.
Qed.

Definition splice (l : list nat) (h0 : list (Node K)) key (n : nat) : list nat :=
  before_nodes h0 key l ++ n :: from_nodes h0 key l.

(** The lists when the new node [n] is linked at the levels below [i]. *)
Definition linked L h0 key (n i : nat) : nat -> list nat :=
  fun j => if (j <? i)%nat then splice (L j) h0 key n else L j.

Lemma sublist_filter_mono {A} (P : A -> Prop) `{!forall x, Decision (P x)} (l k : list A) :
  sublist l k -> sublist (filter P l) (filter P k).
Proof.
  induction 1 as [|x l k Hs IH|x l k Hs IH]; [done|..].
  - rewrite !filter_cons. case_decide; [apply sublist_skip|]; done.
  - rewrite filter_cons. case_decide; [apply sublist_cons|]; done.
Qed.

Lemma splice_sublist (l k : list nat) h0 key (n : nat) :
  sublist l k -> sublist (splice l h0 key n) (splice k h0 key n).
Proof.
  intros Hs. apply sublist_app; [apply sublist_filter_mono; done|].
  apply sublist_skip, sublist_filter_mono. done.
Qed.

Lemma elem_of_splice (l : list nat) h0 key (n x : nat) :
  x ∈ splice l h0 key n -> x = n \/ x ∈ l.
Proof.
  unfold splice, before_nodes, from_nodes.
  rewrite elem_of_app, elem_of_cons, !list_elem_of_filter. tauto.
Qed.

Lemma splice_sorted h h0 key (l : list nat) (n : nat) :
  StronglySorted (key_lt h) l ->
  (forall x, x ∈ l -> key_of null_key h x = key_of null_key h0 x) ->
  key_of null_key h n = key ->
  (forall x, x ∈ l -> compare_ (key_of null_key h0 x) key <> Eq) ->
  StronglySorted (key_lt h) (splice l h0 key n).
Proof.
  intros HS Hk Hn Hne. unfold splice, before_nodes, from_nodes.
  induction HS as [|x l HS IH Hx]; [repeat constructor|].
  rewrite Forall_forall in Hx. rewrite !filter_cons.
  assert (forall y, y ∈ from_nodes h0 key l -> y ∈ l /\ after h0 key y = false) as Hfrom.
  { intros y Hy. unfold from_nodes in Hy. apply list_elem_of_filter in Hy. tauto. }
  destruct (after h0 key x) eqn:E.
  - rewrite decide_True, decide_False by congruence. simpl. constructor.
    + apply IH; intros; [apply Hk|apply Hne]; set_solver.
    + apply Forall_forall. intros y Hy. apply elem_of_splice in Hy as [->|Hy]; [|auto].
      unfold key_lt. rewrite Hn, Hk by set_solver. apply after_true. done.
  - rewrite decide_False, decide_True by congruence.
    assert (forall y, y ∈ l -> after h0 key y = false) as Hall.
    { intros y Hy. apply after_false. rewrite <- Hk by set_solver.
      apply after_false in E. rewrite <- Hk in E by set_solver.
      eapply (ko_lt_ge (cmp := compare_)); [apply Hx; done|done]. }
    rewrite filter_none, filter_all; [|done|intros y Hy; rewrite Hall by done; done].
    simpl. assert (compare_ key (key_of null_key h0 x) = Lt) as Hlt.
    { apply after_false in E. specialize (Hne x ltac:(set_solver)).
      rewrite (ko_antisym (cmp := compare_)). destruct (compare_ _ _); done. }
    constructor; [constructor; [done|apply Forall_forall; done]|].
    apply Forall_forall. intros y [->|Hy]%elem_of_cons; unfold key_lt; rewrite Hn.
    + rewrite Hk by set_solver. done.
    + eapply ko_lt_trans; [exact Hlt|]. rewrite <- Hk by set_solver. apply Hx. done.
Qed.

(** The state while the new node [n] of an insertion into [h0] is linked at the
    levels below [i]. *)
Record Linking h0 L key (mh height n i : nat) h : Prop := {
  lk_repr : Repr h mh (linked L h0 key n i);
  lk_fresh : forall j, n ∉ head_ :: L j;
  lk_old : forall j x, x ∈ L j -> key_of null_key h x = key_of null_key h0 x;
  lk_key : key_of null_key h n = key;
  lk_height : height_of h n = height;
  lk_length : (n < length h)%nat;
  lk_sub : forall j, sublist (L (S j)) (L j);
  lk_new_key : forall x, x ∈ L 0%nat -> compare_ (key_of null_key h0 x) key <> Eq;
  lk_sorted : StronglySorted (key_lt h) (L 0%nat);
  lk_nodes : forall j x, x ∈ L j -> (0 < x < length h)%nat /\ (j < height_of h x)%nat
}.

Lemma linked_at L h0 key (n i j : nat) :
  linked L h0 key n i j = if decide (j < i)%nat then splice (L j) h0 key n else L j.
Proof. unfold linked. destruct (Nat.ltb_spec j i); case_decide; lia || done. Qed.

(** What [prev[i]] is to hold: the last node before the key. *)
Definition prev_node h0 L key (i : nat) : nat := default head_ (last (before_nodes h0 key (L i))).

Section LinkStep.
Context (h0 h : list (Node K)) (L : nat -> list nat) (key : K) (mh height n i : nat) (prev : list ptr).
Context (LK : Linking h0 L key mh height n i h).
Context (Hi : (i < height)%nat) (Hmh : (height <= mh)%nat).
Context (Hprev : prev !! i = Some (Some (prev_node h0 L key i))).

Lemma link_level : (i < kMaxHeight)%nat.
Proof. pose proof (repr_mh _ _ _ (lk_repr _ _ _ _ _ _ _ _ LK)). lia. Qed.

Lemma linked_here : linked L h0 key n i i = L i.
Proof. rewrite linked_at, decide_False by lia. done. Qed.

Lemma level_split : L i = before_nodes h0 key (L i) ++ from_nodes h0 key (L i).
Proof.
  pose proof (repr_sorted_i _ _ _ i (lk_repr _ _ _ _ _ _ _ _ LK)) as HS.
  rewrite linked_here in HS.
  destruct (before_nodes_ext h0 h key (L i)) as [<- <-]; [intros; eapply lk_old; done|].
  apply before_from. done.
Qed.

Lemma prev_linked : (prev_node h0 L key i) ∈ head_ :: L i.
Proof.
  unfold prev_node. destruct (last _) as [y|] eqn:E; simpl; [right|left].
  apply last_Some_elem_of in E. rewrite level_split. set_solver.
Qed.

Lemma prev_ne_new : (prev_node h0 L key i) <> n.
Proof. intros E. apply (lk_fresh _ _ _ _ _ _ _ _ LK i). rewrite <- E. apply prev_linked. Qed.

Lemma prev_height : (i < height_of h (prev_node h0 L key i))%nat.
Proof.
  pose proof (lk_repr _ _ _ _ _ _ _ _ LK) as R. pose proof prev_linked as Hp.
  apply elem_of_cons in Hp as [->|Hp]; [rewrite (repr_head _ _ _ R); apply link_level|].
  eapply (repr_nodes _ _ _ R i). rewrite linked_here. done.
Qed.

Lemma link_new_eq : link_new h prev n i = SetNext h n i (Next h (prev_node h0 L key i) i).
Proof. unfold link_new. rewrite Hprev. done. Qed.

Lemma link_prev_eq : link_prev (link_new h prev n i) prev n i
  = SetNext (SetNext h n i (Next h (prev_node h0 L key i) i)) (prev_node h0 L key i) i (Some n).
Proof. unfold link_prev. rewrite Hprev, link_new_eq. done. Qed.

(** After the first store the node is still not reachable at this level. *)
Lemma Repr_link_new : Repr (link_new h prev n i) mh (linked L h0 key n i).
Proof.
  rewrite link_new_eq. apply Repr_SetNext_unlinked; [apply LK|rewrite (lk_height _ _ _ _ _ _ _ _ LK); done|].
  rewrite linked_here. apply LK.
Qed.

Lemma Next_link (y j : nat) :
  Next (link_prev (link_new h prev n i) prev n i) y j
  = if decide (j = i) then
      if decide (y = n) then Next h (prev_node h0 L key i) i else if decide (y = (prev_node h0 L key i)) then Some n else Next h y j
    else Next h y j.
Proof.
  rewrite link_prev_eq. pose proof prev_ne_new as Hne. pose proof prev_height as Hp.
  rewrite Next_SetNext by (rewrite height_of_SetNext; done).
  rewrite Next_SetNext by (rewrite (lk_height _ _ _ _ _ _ _ _ LK); done).
  repeat case_decide; subst; try naive_solver; congruence.
Qed.

Lemma chain_link : chain (link_prev (link_new h prev n i) prev n i) i head_ (splice (L i) h0 key n).
Proof.
  pose proof (lk_repr _ _ _ _ _ _ _ _ LK) as R. unfold splice.
  apply chain_splice with (h := h).
  - rewrite <- level_split. pose proof (repr_NoDup _ _ _ i R) as H. rewrite linked_here in H. done.
  - rewrite <- level_split. apply LK.
  - rewrite <- level_split. pose proof (repr_chain _ _ _ R i link_level) as H. rewrite linked_here in H. done.
  - intros y. rewrite Next_link, decide_True by done. done.
Qed.

Lemma Linking_step : Linking h0 L key mh height n (S i) (link_prev (link_new h prev n i) prev n i).
Proof.
  pose proof (lk_repr _ _ _ _ _ _ _ _ LK) as R.
  assert (forall x, key_of null_key (link_prev (link_new h prev n i) prev n i) x = key_of null_key h x) as Hk.
  { intros x. rewrite link_prev_eq, !key_of_SetNext. done. }
  assert (forall x, height_of (link_prev (link_new h prev n i) prev n i) x = height_of h x) as Hh.
  { intros x. rewrite link_prev_eq, !height_of_SetNext. done. }
  assert (length (link_prev (link_new h prev n i) prev n i) = length h) as Hl.
  { rewrite link_prev_eq, !length_SetNext. done. }
  split; [split| | | | | | | | |].
  - apply R.
  - rewrite Hh. apply R.
  - intros j Hj. rewrite linked_at. destruct (decide (j = i)) as [->|Hne].
    + rewrite decide_True by lia. apply chain_link.
    + pose proof (repr_chain _ _ _ R j Hj) as Hc. rewrite linked_at in Hc.
      eapply chain_ext; [intros y _; rewrite Next_link, decide_False by done; reflexivity|].
      repeat case_decide; lia || done.
  - intros j Hj. rewrite linked_at, decide_False by lia.
    pose proof (repr_empty _ _ _ R j Hj) as He. rewrite linked_at, decide_False in He by lia. done.
  - intros j. rewrite !linked_at. pose proof (repr_sub _ _ _ R j) as Hs. rewrite !linked_at in Hs.
    destruct (decide (S j < S i)%nat), (decide (j < S i)%nat); try lia.
    + apply splice_sublist, LK.
    + etrans; [apply LK|]. unfold splice. assert (j = i) as -> by lia.
      rewrite level_split at 1. apply sublist_app; [done|]. apply sublist_cons. done.
    + apply LK.
  - intros j x Hx. rewrite Hl, Hh. rewrite linked_at in Hx. case_decide as Hj.
    + apply elem_of_splice in Hx as [->|Hx].
      * pose proof (lk_length _ _ _ _ _ _ _ _ LK). pose proof (lk_height _ _ _ _ _ _ _ _ LK).
        pose proof (lk_fresh _ _ _ _ _ _ _ _ LK 0%nat) as Hf. unfold head_ in Hf.
        assert (n <> 0%nat) by set_solver. lia.
      * eapply (lk_nodes _ _ _ _ _ _ _ _ LK). exact Hx.
    + eapply (lk_nodes _ _ _ _ _ _ _ _ LK). exact Hx.
  - rewrite linked_at, decide_True by lia. apply splice_sorted.
    + pose proof (lk_sorted _ _ _ _ _ _ _ _ LK) as HS. eapply key_lt_ext; [|exact HS]. auto.
    + intros x Hx. rewrite Hk. eapply lk_old; done.
    + rewrite Hk. apply LK.
    + apply LK.
  - apply LK.
  - intros j x Hx. rewrite Hk. eapply lk_old; done.
  - rewrite Hk. apply LK.
  - rewrite Hh. apply LK.
  - rewrite Hl. apply LK.
  - apply LK.
  - apply LK.
  - eapply key_lt_ext; [|apply LK]. auto.
  - intros j x Hx. rewrite Hh, Hl. eapply lk_nodes; done.
Qed.

End LinkStep.

(** Every heap a concurrent reader can see while the loop runs. *)
Fixpoint link_states (m i : nat) h (prev : list ptr) (x : nat) : list (list (Node K)) :=
  match m with
  | O => [h]
  | S m' => h :: link_new h prev x i
              :: link_states m' (S i) (link_prev (link_new h prev x i) prev x i) prev x
  end.

Lemma link_states_last (m i : nat) h (prev : list ptr) (x : nat) :
  last (link_states m i h prev x) = Some (link_loop m i h prev x).
Proof.
  revert i h. induction m as [|m IH]; intros i h; [done|].
  cbn [link_states link_loop]. rewrite !last_cons, IH. done.
Qed.

Lemma link_states_spec h0 L key (mh height n m i : nat) h (prev : list ptr) :
  Linking h0 L key mh height n i h -> (i + m = height)%nat -> (height <= mh)%nat ->
  (forall j, (j < height)%nat -> prev !! j = Some (Some (prev_node h0 L key j))) ->
  Linking h0 L key mh height n height (link_loop m i h prev n) /\
  forall h', h' ∈ link_states m i h prev n ->
    exists j, Repr h' mh (linked L h0 key n j) /\
              (forall x, x ∈ L 0%nat -> key_of null_key h' x = key_of null_key h0 x) /\
              key_of null_key h' n = key.
Proof.
  intros LK Hm Hmh Hprev. revert i h LK Hm. induction m as [|m IH]; intros i h LK Hm; simpl.
  - replace height with i by lia. split; [replace i with height in * by lia; done|].
    intros h' ->%list_elem_of_singleton. exists i.
    split_and!; [apply LK|intros; eapply lk_old; done|apply LK].
  - destruct (IH (S i) (link_prev (link_new h prev n i) prev n i)) as [H1 H2]; [|lia|].
    { eapply Linking_step; try done; [lia|apply Hprev; lia]. }
    split; [done|]. intros h' [->|[->|Hin]%elem_of_cons]%elem_of_cons; [| |auto];
      exists i; [split_and!; [apply LK|intros; eapply lk_old; done|apply LK]|].
    assert (i < height)%nat as Hi by lia. specialize (Hprev i Hi).
    split_and!; [eapply Repr_link_new; done|..]; rewrite (link_new_eq h0 h L key n i prev Hprev).
    + intros x Hx. rewrite key_of_SetNext. eapply lk_old; done.
    + rewrite key_of_SetNext. apply LK.
Qed.

Lemma fill_prev_spec (m i : nat) (prev : list ptr) :
  (i + m <= length prev)%nat ->
  length (fill_prev m i prev) = length prev /\
  forall j, fill_prev m i prev !! j = if decide (i <= j < i + m)%nat then Some (Some head_) else prev !! j.
Proof.
  revert i prev. induction m as [|m IH]; intros i prev Hi; simpl.
  - split; [done|]. intros j. rewrite decide_False by lia. done.
  - destruct (IH (S i) (<[i := Some head_]> prev)) as [H1 H2]; [rewrite length_insert; lia|].
    rewrite length_insert in H1. split; [done|]. intros j. rewrite H2.
    destruct (decide (j = i)) as [->|].
    + rewrite decide_False, decide_True by lia. apply list_lookup_insert_eq. lia.
    + rewrite list_lookup_insert_ne by done. repeat case_decide; lia || done.
Qed.

End Repr.

(** ** The operations against the abstract list *)

Section Operations.
Context {K : Type} {compare_ : K -> K -> comparison} {KO : KeyOrder compare_} {null_key : K}.
Context {Rnd : Type} {OneIn : Rnd -> Z -> bool * Rnd}.
Implicit Types (s : SkipList K Rnd) (key : K).

(** [s] holds exactly the keys [ks], in this order. *)
Definition holds s (ks : list K) : Prop :=
  exists L, Repr (compare_ := compare_) (null_key := null_key) (heap s) (max_height_ s) L /\
            keys (null_key := null_key) (heap s) L = ks.

Definition key_before key : K -> Prop := fun k => compare_ k key = Lt.
#[local] Instance key_before_dec key (k : K) : Decision (key_before key k).
Proof. unfold key_before. destruct (compare_ k key); [right|left|right]; done. Defined.

Definition keys_before key (ks : list K) : list K := filter (key_before key) ks.
Definition keys_from key (ks : list K) : list K := filter (fun k => ~ key_before key k) ks.

Lemma keys_before_from key (h : list (Node K)) (l : list nat) :
  keys_before key (map (key_of null_key h) l)
  = map (key_of null_key h) (before_nodes (compare_ := compare_) (null_key := null_key) h key l) /\
  keys_from key (map (key_of null_key h) l)
  = map (key_of null_key h) (from_nodes (compare_ := compare_) (null_key := null_key) h key l).
Proof.
  unfold keys_before, keys_from, before_nodes, from_nodes.
  induction l as [|x l [IH1 IH2]]; [done|]. rewrite !map_cons, !filter_cons.
  destruct (after h key x) eqn:E.
  - pose proof E as E'. apply after_true in E'. rewrite !decide_True by (done || congruence).
    rewrite !decide_False by (congruence || (intros H; apply H; done)).
    rewrite map_cons, IH1, IH2. done.
  - pose proof E as E'. apply after_false in E'. rewrite !decide_False by (done || congruence).
    rewrite !decide_True by (congruence || done). rewrite map_cons, IH1, IH2. done.
Qed.

Lemma RandomHeight_loop_range (fuel height : nat) (r : Rnd) :
  (1 <= height <= kMaxHeight)%nat -> (1 <= fst (RandomHeight_loop OneIn fuel height r) <= kMaxHeight)%nat.
Proof.
  revert height r. induction fuel as [|fuel IH]; intros height r Hh; [done|].
  cbn [RandomHeight_loop]. destruct (Nat.ltb_spec height kMaxHeight); [|done].
  destruct (OneIn r kBranching) as [[] r']; [apply IH; lia|done].
Qed.

Lemma RandomHeight_range (r : Rnd) : (1 <= fst (RandomHeight OneIn r) <= kMaxHeight)%nat.
Proof. apply RandomHeight_loop_range. unfold kMaxHeight. lia. Qed.

Lemma holds_new (r : Rnd) : holds (newSkipList null_key r) [].
Proof.
  exists (fun _ => []). split; [|done]. split; simpl; try done.
  - unfold kMaxHeight. lia.
  - intros i Hi. unfold Next. simpl. do 12 (destruct i; [done|]). unfold kMaxHeight in Hi. lia.
  - intros i x Hx. set_solver.
  - constructor.
Qed.

Lemma search_fuel_enough s (L : nat -> list nat) :
  Repr (compare_ := compare_) (null_key := null_key) (heap s) (max_height_ s) L ->
  (length (L 0%nat) + (max_height_ s - 1) < search_fuel s)%nat.
Proof.
  intros R. pose proof (repr_mh _ _ _ R). unfold search_fuel.
  enough (length (L 0%nat) <= length (heap s))%nat by lia.
  pose proof (sorted_NoDup _ _ (repr_sorted _ _ _ R)) as Hd.
  assert (L 0%nat ⊆+ seq 0 (length (heap s))) as Hs%submseteq_length; [|rewrite length_seq in Hs; done].
  apply NoDup_submseteq; [done|]. intros x Hx. apply (repr_nodes _ _ _ R) in Hx. apply elem_of_seq. lia.
Qed.

Lemma FindGreaterOrEqual_spec s (L : nat -> list nat) key :
  Repr (compare_ := compare_) (null_key := null_key) (heap s) (max_height_ s) L ->
  exists prev,
    FindGreaterOrEqual compare_ null_key s key
    = (head (from_nodes (compare_ := compare_) (null_key := null_key) (heap s) key (L 0%nat)), prev) /\
    length prev = kMaxHeight /\
    forall i, (i < max_height_ s)%nat ->
              prev !! i = Some (Some (prev_node (compare_ := compare_) (null_key := null_key) (heap s) L key i)).
Proof.
  intros R. pose proof (repr_mh _ _ _ R) as Hm.
  destruct (FindGreaterOrEqual_loop_spec (heap s) _ L key (search_fuel s) head_ (max_height_ s - 1)
              (replicate kMaxHeight None) (L 0%nat) R) as (prev & E & Hl & Hp);
    [lia|apply length_replicate|by left|exists []; done|apply search_fuel_enough; done|].
  exists prev. split_and!; [exact E|done|]. intros i Hi. rewrite Hp, decide_True by lia. done.
Qed.

Lemma Insert_states s key (L : nat -> list nat) :
  Repr (compare_ := compare_) (null_key := null_key) (heap s) (max_height_ s) L ->
  (forall k, k ∈ keys (null_key := null_key) (heap s) L -> compare_ k key <> Eq) ->
  exists prev, let s' := Insert compare_ null_key OneIn s key in
  let height := fst (RandomHeight OneIn (rnd_ s)) in
  let h := fst (NewNode (heap s) key height) in
  let n := length (heap s) in
  heap s' = link_loop height 0 h prev n /\ max_height_ s' = Nat.max (max_height_ s) height /\
  Linking (compare_ := compare_) (null_key := null_key) (heap s) L key (max_height_ s') height n height (heap s') /\
  forall h', h' ∈ link_states height 0 h prev n ->
    exists j, Repr (compare_ := compare_) (null_key := null_key) h' (max_height_ s')
                (linked (compare_ := compare_) (null_key := null_key) L (heap s) key n j) /\
              (forall x, x ∈ L 0%nat -> key_of null_key h' x = key_of null_key (heap s) x) /\
              key_of null_key h' n = key.
Proof.
  intros R Hne. pose proof (repr_mh _ _ _ R) as Hm.
  destruct (FindGreaterOrEqual_spec s L key R) as (prev & EF & Hlen & Hprev).
  pose proof (RandomHeight_range (rnd_ s)) as Hh. unfold Insert. rewrite EF.
  destruct (RandomHeight OneIn (rnd_ s)) as [height r]. simpl in Hh. cbn [fst].
  set (prev' := if (max_height_ s <? height)%nat
                then fill_prev (height - max_height_ s) (max_height_ s) prev else prev).
  assert ((if (max_height_ s <? height)%nat
           then (fill_prev (height - max_height_ s) (max_height_ s) prev, height)
           else (prev, max_height_ s)) = (prev', Nat.max (max_height_ s) height)) as ->.
  { unfold prev'. destruct (Nat.ltb_spec (max_height_ s) height); f_equal; lia. }
  assert (forall j, (j < height)%nat ->
            prev' !! j = Some (Some (prev_node (compare_ := compare_) (null_key := null_key) (heap s) L key j))) as Hp.
  { intros j Hj. unfold prev'. destruct (Nat.ltb_spec (max_height_ s) height).
    - destruct (fill_prev_spec (height - max_height_ s) (max_height_ s) prev) as [_ ->]; [lia|].
      case_decide; [|apply Hprev; lia].
      unfold prev_node. rewrite (repr_empty _ _ _ R) by lia. done.
    - apply Hprev. lia. }
  exists prev'. cbn [NewNode heap max_height_ fst].
  split; [done|]. split; [done|]. eapply (link_states_spec (heap s) L key); [|lia|lia|done].
  assert (Repr (compare_ := compare_) (null_key := null_key) (fst (NewNode (heap s) key height))
            (Nat.max (max_height_ s) height) L) as R'.
  { eapply Repr_mh; [apply Repr_NewNode; done|lia]. }
  simpl in R'. split.
  - exact R'.
  - intros j [E|Hin]%elem_of_cons; [|apply (repr_nodes _ _ _ R) in Hin; lia].
    pose proof (repr_length _ _ _ R). unfold head_ in E. lia.
  - intros j x Hx. apply key_of_new. apply (repr_nodes _ _ _ R) in Hx. lia.
  - unfold key_of. rewrite lookup_app_r, Nat.sub_diag by lia. done.
  - unfold height_of. rewrite lookup_app_r, Nat.sub_diag by lia. apply length_replicate.
  - rewrite length_app. simpl. lia.
  - apply R.
  - intros x Hx. apply Hne. unfold keys. apply list_elem_of_fmap. eauto.
  - apply R'.
  - apply R'.
Qed.

Definition insert_sorted key (ks : list K) : list K := keys_before key ks ++ key :: keys_from key ks.

Lemma linked_keys s key (L : nat -> list nat) (n j : nat) (h : list (Node K)) :
  (forall x, x ∈ L 0%nat -> key_of null_key h x = key_of null_key (heap s) x) ->
  key_of null_key h n = key ->
  keys (null_key := null_key) h (linked (compare_ := compare_) (null_key := null_key) L (heap s) key n j)
  = if (j =? 0)%nat then keys (null_key := null_key) (heap s) L
    else insert_sorted key (keys (null_key := null_key) (heap s) L).
Proof.
  intros Hold Hn. unfold keys. rewrite linked_at.
  assert (forall l, (forall x, x ∈ l -> x ∈ L 0%nat) ->
            map (key_of null_key h) l = map (key_of null_key (heap s)) l) as Hmap.
  { intros l Hl. apply map_ext_in. intros x Hx. apply Hold, Hl, list_elem_of_In. done. }
  destruct (Nat.eqb_spec j 0) as [->|]; case_decide; try lia; [apply Hmap; done|].
  unfold insert_sorted. destruct (keys_before_from key (heap s) (L 0%nat)) as [-> ->].
  unfold splice. rewrite map_app. simpl. f_equal; [|f_equal].
  - apply Hmap. intros x Hx. apply list_elem_of_filter in Hx. tauto.
  - done.
  - apply Hmap. intros x Hx. apply list_elem_of_filter in Hx. tauto.
Qed.

Lemma Insert_holds s (ks : list K) key :
  holds s ks -> (forall k, k ∈ ks -> compare_ k key <> Eq) ->
  holds (Insert compare_ null_key OneIn s key) (insert_sorted key ks).
Proof.
  intros (L & R & <-) Hne. destruct (Insert_states s key L R Hne) as (prev & _ & _ & LK & _).
  eexists. split; [apply LK|].
  rewrite linked_keys by (intros; eapply lk_old || apply LK; done).
  pose proof (RandomHeight_range (rnd_ s)). destruct (Nat.eqb_spec (fst (RandomHeight OneIn (rnd_ s))) 0); [lia|done].
Qed.

Lemma holds_sorted s (ks : list K) :
  holds s ks -> StronglySorted (fun a b => compare_ a b = Lt) ks.
Proof.
  intros (L & R & <-). unfold keys. pose proof (repr_sorted _ _ _ R) as HS. clear R.
  induction HS as [|x l HS IH Hx]; [constructor|]. simpl. constructor; [done|].
  apply Forall_map. done.
Qed.

(** The nodes of the bottom level, and what every iterator operation does on them. *)
Lemma iterator_nodes s (ks : list K) :
  holds s ks -> exists nodes, map (key_of null_key (heap s)) nodes = ks /\
  Iter_SeekToFirst s = head nodes /\ Iter_SeekToLast s = last nodes /\
  (forall key, Iter_Seek compare_ null_key s key = nodes !! length (keys_before key ks)) /\
  (forall j x, nodes !! j = Some x ->
     Iter_Next s (Some x) = nodes !! S j /\
     Iter_Prev compare_ null_key s (Some x) = match j with O => None | S j' => nodes !! j' end).
Proof.
  intros (L & R & <-). exists (L 0%nat). pose proof (repr_mh _ _ _ R) as Hm.
  assert (0 < kMaxHeight)%nat as Hk by (unfold kMaxHeight; lia).
  pose proof (search_fuel_enough s L R) as Hf.
  assert (forall x, x ∈ L 0%nat -> not_head x = Some x) as Hnh.
  { intros x Hx. apply (repr_nodes _ _ _ R) in Hx. unfold not_head, head_.
    destruct (Nat.eqb_spec x 0); [lia|done]. }
  split_and!; [done|..].
  - unfold Iter_SeekToFirst. apply chain_Next, R. done.
  - unfold Iter_SeekToLast, FindLast.
    rewrite (FindLast_loop_spec (heap s) _ L (search_fuel s) head_ _ (L 0%nat) R);
      [|lia|by left|exists []; done|done].
    destruct (last (L 0%nat)) as [x|] eqn:E; simpl; [|done]. apply Hnh, last_Some_elem_of. done.
  - intros key. unfold Iter_Seek. destruct (FindGreaterOrEqual_spec s L key R) as (prev & -> & _).
    unfold keys. rewrite (proj1 (keys_before_from key (heap s) (L 0%nat))), length_map. simpl.
    pose proof (before_from (heap s) key (L 0%nat) (repr_sorted _ _ _ R)) as Hb.
    set (a := before_nodes _ _ _) in *. set (b := from_nodes _ _ _) in *. rewrite Hb.
    rewrite lookup_app_r, Nat.sub_diag by lia. destruct b; done.
  - intros j x Hj. apply list_elem_of_split_length in Hj as (a & b & E & ->). split.
    + simpl. assert (chain (heap s) 0 x b) as Hc.
      { eapply chain_app. rewrite <- E. apply R. done. }
      rewrite (chain_Next _ _ _ _ Hc), E. rewrite lookup_app_r by lia.
      replace (S (length a) - length a)%nat with 1%nat by lia. destruct b; done.
    + simpl. unfold FindLessThan.
      rewrite (FindLessThan_loop_spec (heap s) _ L _ (search_fuel s) head_ _ (L 0%nat) R);
        [|lia|by left|exists []; done|done].
      assert (before_nodes (compare_ := compare_) (null_key := null_key) (heap s) (key_of null_key (heap s) x) (L 0%nat) = a) as ->.
      { rewrite E. eapply before_from_app.
        - rewrite <- E. apply R.
        - intros y Hy. apply last_Some in Hy as [a' ->]. apply after_true.
          pose proof (repr_sorted _ _ _ R) as HS. rewrite E, <- app_assoc in HS.
          exact (StronglySorted_lt _ a' [] b y x HS).
        - intros y [= <-]. apply after_false. rewrite (ko_refl (cmp := compare_)). done. }
      destruct (last a) as [y|] eqn:El; simpl.
      * pose proof El as Ey. apply last_Some in El as [a' ->]. rewrite length_app. simpl.
        replace (length a' + 1)%nat with (S (length a')) by lia. rewrite E, <- app_assoc.
        rewrite lookup_app_r, Nat.sub_diag by lia. simpl. apply Hnh. rewrite E. set_solver.
      * apply last_None in El as ->. done.
Qed.

Lemma Seek_key s (ks : list K) key :
  holds s ks ->
  key_of null_key (heap s) <$> Iter_Seek compare_ null_key s key = head (keys_from key ks).
Proof.
  intros (L & R & <-). unfold Iter_Seek. destruct (FindGreaterOrEqual_spec s L key R) as (prev & -> & _).
  unfold keys. rewrite (proj2 (keys_before_from key (heap s) (L 0%nat))). simpl.
  destruct (from_nodes _ _ _); done.
Qed.

Lemma insert_sorted_perm key (ks : list K) : insert_sorted key ks ≡ₚ key :: ks.
Proof.
  unfold insert_sorted, keys_before, keys_from. rewrite <- Permutation_middle. f_equiv.
  induction ks as [|k ks IH]; [done|]. rewrite !filter_cons.
  destruct (decide (key_before key k)) as [H|H].
  - rewrite decide_False by tauto. simpl. rewrite IH. done.
  - rewrite decide_True by done. rewrite <- Permutation_middle, IH. done.
Qed.

Lemma Contains_spec s (ks : list K) key :
  holds s ks ->
  Contains compare_ null_key s key = true <-> exists k, k ∈ ks /\ compare_ key k = Eq.
Proof.
  intros Hs. pose proof (Seek_key s ks key Hs) as Hk. pose proof (holds_sorted s ks Hs) as HS.
  unfold Contains. unfold Iter_Seek in Hk.
  destruct (fst (FindGreaterOrEqual compare_ null_key s key)) as [x|]; simpl in Hk.
  - destruct (keys_from key ks) as [|k0 l] eqn:E; [done|]. injection Hk as ->.
    assert (k0 ∈ ks) as Hin by (eapply list_elem_of_filter; unfold keys_from in E; rewrite E; left).
    unfold Equal. split.
    + intros H. exists k0. split; [done|]. destruct (compare_ key k0); done.
    + intros (k & Hk & Ek). assert (k ∈ keys_from key ks) as Hf.
      { apply list_elem_of_filter. split; [|done]. unfold key_before.
        rewrite (ko_antisym (cmp := compare_)), Ek. done. }
      rewrite E in Hf. apply elem_of_cons in Hf as [->|Hf]; [rewrite Ek; done|]. exfalso.
      assert (StronglySorted (fun a b => compare_ a b = Lt) (k0 :: l)) as HS'.
      { rewrite <- E. eapply StronglySorted_sublist; [apply sublist_filter|done]. }
      inversion HS' as [|? ? _ HF]; subst. rewrite Forall_forall in HF. specialize (HF k Hf).
      assert (k0 ∈ keys_from key ks) as H0 by (rewrite E; left).
      apply list_elem_of_filter in H0 as [H0 _]. apply H0. unfold key_before.
      apply (ko_ge_lt k0 key k); [done|]. rewrite Ek. done.
  - split; [done|]. intros (k & Hk' & Ek). exfalso.
    assert (k ∈ keys_from key ks) as Hf; [|destruct (keys_from key ks); [set_solver|done]].
    apply list_elem_of_filter. split; [|done]. unfold key_before.
    rewrite (ko_antisym (cmp := compare_)), Ek. done.
Qed.

Lemma inserts_hold (r : Rnd) (ks : list K) :
  NoDup ks -> (forall a b, a ∈ ks -> b ∈ ks -> compare_ a b = Eq -> a = b) ->
  exists ks', ks' ≡ₚ ks /\ holds (fold_left (Insert compare_ null_key OneIn) ks (newSkipList null_key r)) ks'.
Proof.
  induction ks as [|key ks IH] using rev_ind; intros Hnd Heq.
  - exists []. split; [done|apply holds_new].
  - apply NoDup_app in Hnd as (Hnd & Hni & _).
    destruct IH as (ks' & Hp & Hs); [done|intros; apply Heq; set_solver|].
    rewrite fold_left_app. simpl. exists (insert_sorted key ks'). split.
    + rewrite insert_sorted_perm, Hp. apply Permutation_cons_append.
    + apply Insert_holds; [done|]. intros k Hk E. rewrite Hp in Hk.
      assert (k = key) as -> by (apply Heq; set_solver). apply (Hni key); set_solver.
Qed.

End Operations.

(** ** Properties *)

(** C23. The skip list implements a sorted list: starting from an empty list and
    inserting any keys, no two of them equal, in any order and with any random
    heights, it holds exactly these keys in increasing order, and [Contains]
    decides membership for every key. *)
Theorem skiplist_refines_sorted_list {K Rnd : Type} (compare_ : K -> K -> comparison)
    (null_key : K) (OneIn : Rnd -> Z -> bool * Rnd) (r : Rnd) (ks : list K) (key : K) :
  KeyOrder compare_ -> NoDup ks ->
  (forall a b, a ∈ ks -> b ∈ ks -> compare_ a b = Eq -> a = b) ->
  let s := fold_left (Insert compare_ null_key OneIn) ks (newSkipList null_key r) in
  (exists sorted,
     sorted ≡ₚ ks /\ StronglySorted (fun a b => compare_ a b = Lt) sorted /\
     holds (compare_ := compare_) (null_key := null_key) s sorted) /\
  (Contains compare_ null_key s key = true <-> exists k, k ∈ ks /\ compare_ key k = Eq).
Proof.
  intros KO Hnd Heq s. destruct (inserts_hold (KO := KO) (null_key := null_key) (OneIn := OneIn) r ks Hnd Heq)
    as (sorted & Hp & Hs). split.
  - exists sorted. split_and!; [done|eapply holds_sorted; done|done].
  - unfold s. rewrite (Contains_spec (KO := KO) _ _ key Hs). setoid_rewrite Hp. done.
Qed.

#[export] Instance Z_KeyOrder : KeyOrder Z.compare.
Proof.
  split; [intros; apply Z.compare_antisym|apply Z.compare_refl|].
  intros a b c. rewrite !Z.compare_le_iff. lia.
Qed.

Lemma skiplist_refines_sorted_list_witness :
  let s := fold_left (Insert Z.compare 0 (fun r _ => (Nat.even r, (r / 2)%nat))) [5; 1; 3]
             (newSkipList 0 10%nat) in
  Contains Z.compare 0 s 3 = true /\ Contains Z.compare 0 s 4 = false.
Proof.
  split; [|vm_compute; reflexivity].
  apply (skiplist_refines_sorted_list Z.compare 0 (fun r _ => (Nat.even r, (r / 2)%nat)) 10%nat [5; 1; 3] 3).
  - apply Z_KeyOrder.
  - apply (bool_decide_unpack _). vm_compute. exact I.
  - intros a b _ _ H. apply Z.compare_eq_iff. exact H.
  - exists 3. split; [|reflexivity]. right. right. left.
Defined.

(** Iterators walk the keys in order: for a list that holds [ks] there are
    nodes with exactly these keys such that [SeekToFirst], [SeekToLast], [Next]
    and [Prev] move along them, and [Seek] stops at the first key that is not
    less than the target (or becomes invalid). *)
Theorem skiplist_iterator_order {K Rnd : Type} (compare_ : K -> K -> comparison) (null_key : K)
    (s : SkipList K Rnd) (ks : list K) :
  KeyOrder compare_ -> holds (compare_ := compare_) (null_key := null_key) s ks ->
  exists nodes, map (key_of null_key (heap s)) nodes = ks /\
  Iter_SeekToFirst s = head nodes /\ Iter_SeekToLast s = last nodes /\
  (forall key, Iter_Seek compare_ null_key s key
               = nodes !! length (keys_before (compare_ := compare_) key ks)) /\
  (forall j x, nodes !! j = Some x ->
     Iter_Next s (Some x) = nodes !! S j /\
     Iter_Prev compare_ null_key s (Some x) = match j with O => None | S j' => nodes !! j' end).
Proof. intros KO. apply (iterator_nodes (KO := KO)). Qed.

Lemma skiplist_iterator_order_witness :
  let s := Insert Z.compare 0 (fun r _ => (false, r)) (newSkipList 0 tt) 7 in
  exists nodes, map (key_of 0 (heap s)) nodes = [7] /\ Iter_SeekToFirst s = head nodes.
Proof.
  intros s.
  destruct (skiplist_iterator_order Z.compare 0 s [7] Z_KeyOrder) as (nodes & H1 & H2 & _).
  - apply (Insert_holds (newSkipList 0 tt) [] 7 (holds_new tt)). intros k Hk. inversion Hk.
  - exists nodes. split; [exact H1|exact H2].
Defined.

(** C24. Readers need no lock: [Insert] stores pointers one at a time, and every
    heap between two stores is a valid skip list, whose keys are the old ones or
    the old ones with the new key, never anything else; the last heap is the
    result. *)
Theorem skiplist_readers_during_insert {K Rnd : Type} (compare_ : K -> K -> comparison)
    (null_key : K) (OneIn : Rnd -> Z -> bool * Rnd) (s : SkipList K Rnd) (ks : list K) (key : K) :
  KeyOrder compare_ -> holds (compare_ := compare_) (null_key := null_key) s ks ->
  (forall k, k ∈ ks -> compare_ k key <> Eq) ->
  let s' := Insert compare_ null_key OneIn s key in
  exists prev, let height := fst (RandomHeight OneIn (rnd_ s)) in
  let states := link_states height 0 (fst (NewNode (heap s) key height)) prev (length (heap s)) in
  last states = Some (heap s') /\
  forall h, h ∈ states ->
    let reader := mkSkipList h (max_height_ s') (rnd_ s') in
    holds (compare_ := compare_) (null_key := null_key) reader ks \/
    holds (compare_ := compare_) (null_key := null_key) reader (insert_sorted (compare_ := compare_) key ks).
Proof.
  intros KO (L & R & <-) Hne s'.
  destruct (Insert_states (OneIn := OneIn) s key L R Hne) as (prev & E & _ & LK & Hst).
  exists prev. cbn zeta. split; [rewrite link_states_last; unfold s'; rewrite E; done|].
  intros h Hh. destruct (Hst h Hh) as (j & Rj & Hold & Hn).
  pose proof (linked_keys (compare_ := compare_) s key L _ j h Hold Hn) as Hk.
  destruct (Nat.eqb j 0); [left|right]; (eexists; split; [exact Rj|exact Hk]).
Qed.

Lemma skiplist_readers_during_insert_witness :
  let s := newSkipList 0 tt in
  let s' := Insert Z.compare 0 (fun r _ => (true, r)) s 7 in
  exists prev,
  last (link_states 12 0 (fst (NewNode (heap s) 7 12%nat)) prev 1) = Some (heap s').
Proof.
  destruct (skiplist_readers_during_insert Z.compare 0 (fun r _ => (true, r)) (newSkipList 0 tt) [] 7)
    as (prev & H & _).
  - apply Z_KeyOrder.
  - apply holds_new.
  - intros k Hk. inversion Hk.
  - exists prev. exact H.
Defined.
