(* ===== verification/MemTable.v ===== *)
(** * MemTable: the in-memory table ([db/memtable.h], [db/memtable.cc])

    A memtable is a skip list of entries, each one buffer: the length-prefixed
    internal key followed by the length-prefixed value.  [mem_repr] relates it to
    the list of entries that were added, and [Get] is shown to return the newest
    one a snapshot sees. *)

From S2P Require Import Prelude Status Coding Comparator FilterPolicy DbFormat SkipList.
From Stdlib Require Import Sorting.Sorted.

Section MemTableDef.
Context (C : Comparator) {Rnd : Type} (OneIn : Rnd -> Z -> bool * Rnd).

(** [GetVarint32Ptr(p, p + 5, len)]: the length and the pointer after it. *)
Definition mem_GetVarint32 (data : bytes) : option (Z * bytes) :=
  '(len, rest) ← GetVarint32Ptr (take 5 data);
  Some (len, drop (length (take 5 data) - length rest) data).

(** The buffer is the caller's own; the source assumes it is not corrupted. *)
Definition mem_GetLengthPrefixedSlice (data : bytes) : bytes :=
  match mem_GetVarint32 data with
  | Some (len, p) => ztake len p
  | None => []
  end.

(** [MemTable::KeyComparator]. *)
Definition KeyComparator (aptr bptr : bytes) : comparison :=
  @Compare (InternalKeyComparator C) (mem_GetLengthPrefixedSlice aptr) (mem_GetLengthPrefixedSlice bptr).

Definition MemTable := SkipList bytes Rnd.

Definition newMemTable (r : Rnd) : MemTable := newSkipList [] r.

(** [buf], as [Add] fills it, and the size it is allocated with. *)
Definition encode_entry (s : SequenceNumber) (type : ValueType) (key value : bytes) : bytes :=
  let internal_key_size := zlen key + 8 in
  EncodeVarint32 (u32 internal_key_size) ++ key ++
  EncodeFixed64 (Z.lor (u64 (Z.shiftl s 8)) (vt_z type)) ++
  EncodeVarint32 (u32 (zlen value)) ++ value.

Definition encoded_len (key value : bytes) : Z :=
  let internal_key_size := zlen key + 8 in
  VarintLength internal_key_size + internal_key_size + VarintLength (zlen value) + zlen value.

Definition MemTable_Add (m : MemTable) (s : SequenceNumber) (type : ValueType) (key value : bytes) : MemTable :=
  Insert KeyComparator [] OneIn m (encode_entry s type key value).

Definition MemTable_Get (m : MemTable) (key : LookupKey) : Result (option bytes) :=
  let memkey := lk_memtable_key key in
  match Iter_Seek KeyComparator [] m memkey with
  | Some node =>
      let entry := key_of [] (heap m) node in
      match mem_GetVarint32 entry with
      | Some (key_length, key_ptr) =>
          match @Compare C (ztake (key_length - 8) key_ptr) (lk_user_key key) with
          | Eq =>
              let tag := DecodeFixed64 (zdrop (key_length - 8) key_ptr) in
              let c := Z.land tag 0xff in
              if c =? vt_z kTypeValue
              then Ok (Some (mem_GetLengthPrefixedSlice (zdrop key_length key_ptr)))
              else if c =? vt_z kTypeDeletion then Err (NotFound "deleted in memtable" "")
              else Ok None
          | _ => Ok None
          end
      | None => Ok None
      end
  | None => Ok None
  end.

(** ** [MemTableIterator] *)

Definition EncodeKey (target : bytes) : bytes := PutVarint32 [] (u32 (zlen target)) ++ target.

Definition mti_Seek (m : MemTable) (k : bytes) : ptr := Iter_Seek KeyComparator [] m (EncodeKey k).
Definition mti_Prev (m : MemTable) (it : ptr) : ptr := Iter_Prev KeyComparator [] m it.
Definition mti_key (m : MemTable) (it : ptr) : bytes := mem_GetLengthPrefixedSlice (Iter_key [] m it).

(** [key_slice.data() + key_slice.size()] is where the value starts. *)
Definition mti_value (m : MemTable) (it : ptr) : bytes :=
  match mem_GetVarint32 (Iter_key [] m it) with
  | Some (len, p) => mem_GetLengthPrefixedSlice (zdrop len p)
  | None => []
  end.

End MemTableDef.

Arguments MemTable Rnd : clear implicits.

(** ** Entries *)

Record entry := mkEntry { e_key : ParsedInternalKey; e_value : bytes }.

Definition entry_bytes (e : entry) : bytes :=
  encode_entry (pik_sequence (e_key e)) (pik_type (e_key e)) (pik_user_key (e_key e)) (e_value e).

Definition entry_wf (e : entry) : Prop :=
  seq_ok (pik_sequence (e_key e)) /\ zlen (pik_user_key (e_key e)) + 8 < 2 ^ 32 /\
  zlen (e_value e) < 2 ^ 32.

Lemma entry_bytes_eq (e : entry) :
  entry_bytes e = lp_slice (encode_key (e_key e)) ++ lp_slice (e_value e).
Proof.
  unfold entry_bytes, encode_entry, lp_slice. rewrite zlen_encode_key, encode_key_eq, <- !app_assoc. done.
Qed.

Lemma zlen_EncodeVarint32_le (v : Z) : 0 <= v < 2 ^ 32 -> (length (EncodeVarint32 v) <= 5)%nat.
Proof. intros. rewrite EncodeVarint32_loop by done. apply length_EncodeVarint64_loop. Qed.

Lemma mem_GetVarint32_encode (v : Z) (rest : bytes) :
  0 <= v < 2 ^ 32 -> mem_GetVarint32 (EncodeVarint32 v ++ rest) = Some (v, rest).
Proof.
  intros Hv. unfold mem_GetVarint32. pose proof (zlen_EncodeVarint32_le v Hv) as Hl.
  rewrite take_app, (take_ge (EncodeVarint32 v)) by lia.
  change (GetVarint32Ptr ?x) with (GetVarint32 x). rewrite GetVarint32_Encode by done.
  cbn -[GetVarint32]. f_equal. f_equal. rewrite length_app.
  replace (_ + _ - _)%nat with (length (EncodeVarint32 v)) by lia.
  apply drop_app_length.
Qed.

Lemma mem_slice (v rest : bytes) :
  zlen v < 2 ^ 32 -> mem_GetLengthPrefixedSlice (lp_slice v ++ rest) = v.
Proof.
  intros Hv. pose proof (zlen_nonneg v). unfold mem_GetLengthPrefixedSlice, lp_slice. rewrite <- app_assoc.
  rewrite wrap_small by lia. rewrite mem_GetVarint32_encode by lia. apply ztake_app_exact.
Qed.

Lemma entry_slice (e : entry) :
  entry_wf e -> mem_GetLengthPrefixedSlice (entry_bytes e) = encode_key (e_key e).
Proof. intros (_ & Hk & _). rewrite entry_bytes_eq. apply mem_slice. rewrite zlen_encode_key. lia. Qed.

(** The buffer [Add] allocates is filled exactly (its assertion holds). *)
Lemma entry_fits (s : SequenceNumber) (type : ValueType) (key value : bytes) :
  zlen key + 8 < 2 ^ 32 -> zlen value < 2 ^ 32 ->
  zlen (encode_entry s type key value) = encoded_len key value.
Proof.
  intros Hk Hv. pose proof (zlen_nonneg key). pose proof (zlen_nonneg value).
  unfold encode_entry, encoded_len. rewrite !zlen_app, zlen_EncodeFixed64.
  rewrite !wrap_small by lia. rewrite !VarintLength_Encode32 by lia. lia.
Qed.

(** ** The memtable as a list of entries *)

Section MemTableSpec.
Context {C : Comparator} {CL : ComparatorLaws C} {Rnd : Type} {OneIn : Rnd -> Z -> bool * Rnd}.

#[export] Instance KeyComparator_order : KeyOrder (KeyComparator C).
Proof.
  split; unfold KeyComparator; intros.
  - apply (cmp_antisym (C := InternalKeyComparator C)).
  - apply (cmp_refl (C := InternalKeyComparator C)).
  - eapply (cmp_le_trans (C := InternalKeyComparator C)); done.
Qed.

Lemma KeyComparator_entries (e1 e2 : entry) :
  entry_wf e1 -> entry_wf e2 ->
  KeyComparator C (entry_bytes e1) (entry_bytes e2)
  = @Compare (InternalKeyComparator C) (encode_key (e_key e1)) (encode_key (e_key e2)).
Proof. intros. unfold KeyComparator. rewrite !entry_slice by done. done. Qed.

Definition mem_repr (m : MemTable Rnd) (es : list entry) : Prop :=
  Forall entry_wf es /\
  exists ks, ks ≡ₚ map entry_bytes es /\
             holds (compare_ := KeyComparator C) (null_key := []) m ks.

Definition same_key (e1 e2 : entry) : Prop :=
  @Compare (InternalKeyComparator C) (encode_key (e_key e1)) (encode_key (e_key e2)) = Eq.

Lemma mem_repr_new (r : Rnd) : mem_repr (newMemTable r) [].
Proof. split; [constructor|]. exists []. split; [done|apply holds_new]. Qed.

Lemma mem_repr_Add (m : MemTable Rnd) (es : list entry) (e : entry) :
  mem_repr m es -> entry_wf e -> (forall e', e' ∈ es -> ~ same_key e' e) ->
  mem_repr (MemTable_Add C OneIn m (pik_sequence (e_key e)) (pik_type (e_key e))
              (pik_user_key (e_key e)) (e_value e)) (e :: es).
Proof.
  intros (Hwf & ks & Hp & Hs) He Hne. split; [constructor; done|].
  exists (insert_sorted (compare_ := KeyComparator C) (entry_bytes e) ks). split.
  - rewrite insert_sorted_perm, Hp. done.
  - apply Insert_holds; [done|]. intros k Hk. rewrite Hp in Hk.
    apply list_elem_of_fmap in Hk as (e' & -> & He'). rewrite Forall_forall in Hwf.
    rewrite KeyComparator_entries by auto. apply Hne. done.
Qed.

(** What [Get] has to return: the newest entry of the user key that the
    snapshot [s] sees. *)
Definition visible (u : bytes) (s : SequenceNumber) (e : entry) : Prop :=
  ceq (pik_user_key (e_key e)) u /\ pik_sequence (e_key e) <= s.

Definition entry_result (e : entry) : Result (option bytes) :=
  match pik_type (e_key e) with
  | kTypeValue => Ok (Some (e_value e))
  | kTypeDeletion => Err (NotFound "deleted in memtable" "")
  end.

Definition get_spec (es : list entry) (u : bytes) (s : SequenceNumber) (r : Result (option bytes)) : Prop :=
  (r = Ok None /\ forall e, e ∈ es -> ~ visible u s e) \/
  (exists e, e ∈ es /\ visible u s e /\ r = entry_result e /\
             forall e', e' ∈ es -> visible u s e' -> pik_sequence (e_key e') <= pik_sequence (e_key e)).

(** The entry [Get] stops at, read back field by field. *)
Lemma Get_at_entry (m : MemTable Rnd) (node : nat) (e : entry) (key : LookupKey) :
  Iter_Seek (KeyComparator C) [] m (lk_memtable_key key) = Some node ->
  key_of [] (heap m) node = entry_bytes e -> entry_wf e ->
  MemTable_Get C m key =
  match Compare (pik_user_key (e_key e)) (lk_user_key key) with
  | Eq => entry_result e
  | _ => Ok None
  end.
Proof.
  intros Hseek Hnode (Hs & Hk & Hv). unfold MemTable_Get. cbn zeta. rewrite Hseek, Hnode.
  pose proof (zlen_nonneg (pik_user_key (e_key e))).
  rewrite entry_bytes_eq. unfold lp_slice at 1. rewrite zlen_encode_key, <- app_assoc.
  rewrite wrap_small by lia. rewrite mem_GetVarint32_encode by lia.
  replace (zlen (pik_user_key (e_key e)) + 8 - 8) with (zlen (pik_user_key (e_key e))) by lia.
  rewrite encode_key_eq, <- !app_assoc, ztake_app_exact, zdrop_app_exact.
  rewrite DecodeFixed64_Encode by (apply PackSequenceAndType_range; done).
  rewrite Pack_type by done.
  destruct (Compare _ _); try done. unfold entry_result.
  destruct (pik_type (e_key e)) eqn:Et; [done|].
  change (vt_z kTypeValue =? vt_z kTypeValue) with true. cbn match. do 2 f_equal.
  assert (forall a b : bytes, zlen a = 8 -> zdrop (zlen (pik_user_key (e_key e)) + 8)
            (pik_user_key (e_key e) ++ a ++ b) = b) as Hdrop.
  { intros a b Ha. rewrite app_assoc, <- Ha, <- zlen_app. apply zdrop_app_exact. }
  rewrite Hdrop by apply zlen_EncodeFixed64.
  rewrite <- (app_nil_r (lp_slice _)). apply mem_slice. done.
Qed.

Definition lookup_entry (u : bytes) (s : SequenceNumber) : bytes :=
  lk_memtable_key (newLookupKey u s).

Lemma lookup_slice (u : bytes) (s : SequenceNumber) :
  zlen u + 8 < 2 ^ 32 ->
  mem_GetLengthPrefixedSlice (lookup_entry u s) = encode_key (mkPIK u s kValueTypeForSeek).
Proof.
  intros Hu. unfold lookup_entry. rewrite (proj2 (proj2 (newLookupKey_views u s))).
  pose proof (mem_slice (encode_key (mkPIK u s kValueTypeForSeek)) []) as H.
  unfold lp_slice in H. rewrite zlen_encode_key, app_nil_r in H. apply H. simpl. lia.
Qed.

(** An entry is not before the lookup key iff its user key is larger or the
    snapshot sees it. *)
Lemma from_lookup (e : entry) (u : bytes) (s : SequenceNumber) :
  entry_wf e -> seq_ok s -> zlen u + 8 < 2 ^ 32 ->
  KeyComparator C (entry_bytes e) (lookup_entry u s) <> Lt <->
  clt u (pik_user_key (e_key e)) \/ visible u s e.
Proof.
  intros He Hs Hu. unfold KeyComparator. rewrite entry_slice, lookup_slice by done. simpl.
  rewrite ikc_Compare_encode by (done || apply He). cbn [pik_user_key pik_sequence pik_type].
  unfold visible. destruct (Compare_spec (pik_user_key (e_key e)) u) as [E|E|E].
  - assert (~ clt u (pik_user_key (e_key e))) as Hn.
    { intros H. apply cmp_gt in H. unfold ceq in E. congruence. }
    destruct (Z.compare_spec s (pik_sequence (e_key e))) as [H|H|H].
    + split; [intros _; right; split; [done|lia]|]. intros _. destruct (pik_type (e_key e)); done.
    + split; [done|]. intros [?|[_ ?]]; [done|lia].
    + split; [intros _; right; split; [done|lia]|done].
  - split; [done|]. intros [H|[H _]]; [|unfold ceq, clt in *; congruence].
    exfalso. apply (clt_irrefl u). eapply clt_trans; done.
  - split; [by left|done].
Qed.

Lemma Get_spec (m : MemTable Rnd) (es : list entry) (u : bytes) (s : SequenceNumber) :
  mem_repr m es -> seq_ok s -> zlen u + 8 < 2 ^ 32 ->
  get_spec es u s (MemTable_Get C m (newLookupKey u s)).
Proof.
  intros (Hwf & ks & Hp & Hs) Hseq Hu. rewrite Forall_forall in Hwf.
  pose proof (Seek_key m ks (lookup_entry u s) Hs) as Hk. pose proof (holds_sorted m ks Hs) as HS.
  assert (forall e, e ∈ es -> visible u s e -> entry_bytes e ∈ keys_from (compare_ := KeyComparator C) (lookup_entry u s) ks) as Hvis.
  { intros e He Hv. apply list_elem_of_filter. split; [|rewrite Hp; apply list_elem_of_fmap; eauto].
    apply (from_lookup e u s); auto. }
  destruct (Iter_Seek (KeyComparator C) [] m (lookup_entry u s)) as [node|] eqn:Eseek; simpl in Hk.
  - destruct (keys_from (lookup_entry u s) ks) as [|k0 l] eqn:Ef; [done|]. injection Hk as Hk.
    assert (k0 ∈ keys_from (compare_ := KeyComparator C) (lookup_entry u s) ks) as H0 by (rewrite Ef; left).
    apply list_elem_of_filter in H0 as [Hge Hin]. rewrite Hp in Hin.
    apply list_elem_of_fmap in Hin as (e & -> & He).
    rewrite (Get_at_entry m node e _ Eseek Hk) by auto.
    rewrite (proj1 (proj2 (newLookupKey_views u s))).
    apply (from_lookup e u s) in Hge; [|auto..].
    assert (forall e', e' ∈ es -> visible u s e' ->
              KeyComparator C (entry_bytes e) (entry_bytes e') <> Gt) as Hmin.
    { intros e' He' Hv. specialize (Hvis e' He' Hv).
      apply elem_of_cons in Hvis as [->|Hl]; [rewrite (ko_refl (cmp := KeyComparator C)); done|].
      assert (StronglySorted (fun a b => KeyComparator C a b = Lt) (entry_bytes e :: l)) as HS'.
      { rewrite <- Ef. eapply StronglySorted_sublist; [apply sublist_filter|done]. }
      inversion HS' as [|? ? _ HF]; subst. rewrite Forall_forall in HF. rewrite HF by done. done. }
    destruct (Compare_spec (pik_user_key (e_key e)) u) as [E|E|E].
    + right. exists e. split; [done|]. destruct Hge as [Hgt|Hv].
      { exfalso. apply cmp_gt in Hgt. unfold ceq in E. congruence. }
      split; [done|]. split; [done|]. intros e' He' Hv'. specialize (Hmin e' He' Hv').
      rewrite KeyComparator_entries in Hmin by auto. simpl in Hmin.
      rewrite ikc_Compare_encode in Hmin by (apply Hwf; done).
      assert (Compare (pik_user_key (e_key e)) (pik_user_key (e_key e')) = Eq) as Ee.
      { change (ceq (pik_user_key (e_key e)) (pik_user_key (e_key e'))).
        transitivity u; [done|symmetry; apply Hv']. }
      rewrite Ee in Hmin.
      destruct (Z.compare_spec (pik_sequence (e_key e')) (pik_sequence (e_key e))); [lia|lia|done].
    + exfalso. destruct Hge as [Hgt|[Hc _]]; [apply (clt_irrefl u); eapply clt_trans; done|].
      unfold ceq, clt in *. congruence.
    + left. split; [done|]. intros e' He' Hv'. specialize (Hmin e' He' Hv').
      rewrite KeyComparator_entries in Hmin by auto. apply (ikc_cle (C := C)) in Hmin.
      rewrite !ExtractUserKey_encode in Hmin. destruct Hv' as [Hc _].
      assert (cle (pik_user_key (e_key e)) u) as Hle.
      { destruct Hmin as [Hm|[Hm _]]; [apply clt_cle in Hm|apply ceq_cle in Hm];
          (eapply cmp_le_trans; [done|apply ceq_cle; done]). }
      apply not_cle in E. done.
  - left. split.
    + unfold MemTable_Get. cbn zeta. fold (lookup_entry u s). rewrite Eseek. done.
    + intros e He Hv. specialize (Hvis e He Hv). destruct (keys_from _ _); [set_solver|done].
Qed.

End MemTableSpec.

(** ** Histories of additions *)

Definition mem_add_entry (C : Comparator) {Rnd : Type} (OneIn : Rnd -> Z -> bool * Rnd)
    (m : MemTable Rnd) (e : entry) : MemTable Rnd :=
  MemTable_Add C OneIn m (pik_sequence (e_key e)) (pik_type (e_key e)) (pik_user_key (e_key e)) (e_value e).

Definition entry_seq (e : entry) : SequenceNumber := pik_sequence (e_key e).

Lemma same_key_seq {C : Comparator} {CL : ComparatorLaws C} (e1 e2 : entry) :
  entry_wf e1 -> entry_wf e2 -> same_key (C := C) e1 e2 -> entry_seq e1 = entry_seq e2.
Proof.
  intros [H1 _] [H2 _] H. unfold same_key in H. simpl in H. rewrite ikc_Compare_encode in H by done.
  destruct (Compare _ _); try done. unfold entry_seq.
  destruct (Z.compare_spec (pik_sequence (e_key e2)) (pik_sequence (e_key e1))); done.
Qed.

Lemma mem_repr_adds {C : Comparator} {CL : ComparatorLaws C} {Rnd : Type} {OneIn : Rnd -> Z -> bool * Rnd}
    (m : MemTable Rnd) (es0 es : list entry) :
  mem_repr (C := C) m es0 -> Forall entry_wf es -> NoDup (map entry_seq (es ++ es0)) ->
  exists es', es' ≡ₚ es ++ es0 /\ mem_repr (C := C) (fold_left (mem_add_entry C OneIn) es m) es'.
Proof.
  revert m es0. induction es as [|e es IH]; intros m es0 Hm Hwf Hnd; [eauto|].
  apply Forall_cons in Hwf as [He Hwf]. simpl in Hnd. apply NoDup_cons in Hnd as [Hni Hnd].
  destruct (IH (mem_add_entry C OneIn m e) (e :: es0)) as (es' & Hp & Hr).
  - apply mem_repr_Add; [done|done|]. intros e' He' Hs. destruct Hm as [Hf _]. rewrite Forall_forall in Hf.
    apply same_key_seq in Hs; [|auto|done].
    apply Hni. rewrite <- Hs. apply list_elem_of_fmap. exists e'. split; [done|set_solver].
  - done.
  - rewrite <- Permutation_middle. simpl. constructor; done.
  - exists es'. split; [|done]. rewrite Hp, <- Permutation_middle. done.
Qed.

Lemma get_spec_perm {C : Comparator} (es es' : list entry) (u : bytes) (s : SequenceNumber) (r : Result (option bytes)) :
  es ≡ₚ es' -> get_spec (C := C) es u s r -> get_spec (C := C) es' u s r.
Proof. intros Hp. unfold get_spec. setoid_rewrite Hp. done. Qed.

(** ** Properties *)

(** C5. [MemTable::Get] returns the newest visible version: after any additions
    with distinct sequence numbers, a lookup at snapshot [s] finds the entry with
    the largest sequence number not above [s] among the entries of that user key
    (a value, or the "deleted" error for a tombstone), and nothing if there is
    none, for every comparator and every random heights of the skip list. *)
Theorem memtable_get_newest (C : Comparator) (Rnd : Type) (OneIn : Rnd -> Z -> bool * Rnd) (r : Rnd)
    (es : list entry) (u : bytes) (s : SequenceNumber) :
  ComparatorLaws C -> Forall entry_wf es -> NoDup (map entry_seq es) ->
  seq_ok s -> zlen u + 8 < 2 ^ 32 ->
  get_spec (C := C) es u s
    (MemTable_Get C (fold_left (mem_add_entry C OneIn) es (newMemTable r)) (newLookupKey u s)).
Proof.
  intros CL Hwf Hnd Hs Hu.
  destruct (mem_repr_adds (C := C) (OneIn := OneIn) (newMemTable r) [] es) as (es' & Hp & Hm);
    [apply mem_repr_new|done|rewrite app_nil_r; done|].
  rewrite app_nil_r in Hp. apply (get_spec_perm es'); [done|]. apply Get_spec; done.
Qed.

Lemma memtable_get_newest_witness :
  let es := [mkEntry (mkPIK [Byte.x61] 3 kTypeValue) [Byte.x01];
             mkEntry (mkPIK [Byte.x61] 7 kTypeDeletion) [];
             mkEntry (mkPIK [Byte.x62] 5 kTypeValue) [Byte.x02]] in
  let m := fold_left (mem_add_entry BytewiseComparator (fun r _ => (Nat.even r, (r / 2)%nat))) es
             (newMemTable 10%nat) in
  get_spec (C := BytewiseComparator) es [Byte.x61] 6
    (MemTable_Get BytewiseComparator m (newLookupKey [Byte.x61] 6)) /\
  MemTable_Get BytewiseComparator m (newLookupKey [Byte.x61] 6) = Ok (Some [Byte.x01]) /\
  MemTable_Get BytewiseComparator m (newLookupKey [Byte.x61] 9) = Err (NotFound "deleted in memtable" "") /\
  MemTable_Get BytewiseComparator m (newLookupKey [Byte.x63] 9) = Ok None.
Proof.
  cbv zeta. split; [|vm_compute; repeat split; reflexivity].
  apply (memtable_get_newest BytewiseComparator nat (fun r _ => (Nat.even r, (r / 2)%nat)) 10%nat
    [mkEntry (mkPIK [Byte.x61] 3 kTypeValue) [Byte.x01];
     mkEntry (mkPIK [Byte.x61] 7 kTypeDeletion) [];
     mkEntry (mkPIK [Byte.x62] 5 kTypeValue) [Byte.x02]] [Byte.x61] 6).
  - apply BytewiseLaws.
  - repeat constructor; vm_compute; congruence.
  - apply (bool_decide_unpack _). vm_compute. exact I.
  - split; vm_compute; congruence.
  - vm_compute. reflexivity.
Defined.
