(* ===== verification/WriteBatch.v ===== *)
(** * WriteBatch: atomic groups of updates ([db/write_batch.cc],
    [db/write_batch_internal.h], [include/leveldb/write_batch.h])

    A batch is its byte representation [rep_]: an 8-byte sequence number, a
    4-byte count and the records.  [batch_rep] is the abstract meaning (a
    sequence number and a list of operations) every operation is related to. *)

From S2P Require Import Prelude Status Coding Comparator FilterPolicy DbFormat SkipList MemTable.

(** [WriteBatch::Handler]: a stateful visitor. *)
Record Handler (S : Type) := mkHandler {
  h_Put : bytes -> bytes -> S -> S;
  h_Delete : bytes -> S -> S
}.
Arguments mkHandler {S}.
Arguments h_Put {S}.
Arguments h_Delete {S}.

Definition WriteBatch := bytes.

Definition kHeader : Z := 12.

Definition WriteBatch_Clear : WriteBatch := replicate (Z.to_nat kHeader) Byte.x00.
Definition newWriteBatch : WriteBatch := WriteBatch_Clear.
Definition ApproximateSize (b : WriteBatch) : Z := zlen b.

(** [int] of a [uint32_t]. *)
Definition Count (b : WriteBatch) : Z := s32 (DecodeFixed32 (drop 8 b)).
Definition SetCount (b : WriteBatch) (n : Z) : WriteBatch :=
  take 8 b ++ EncodeFixed32 (u32 n) ++ drop 12 b.
Definition Sequence (b : WriteBatch) : SequenceNumber := DecodeFixed64 b.
Definition SetSequence (b : WriteBatch) (seq : SequenceNumber) : WriteBatch :=
  EncodeFixed64 seq ++ drop 8 b.

Definition WriteBatch_Put (b : WriteBatch) (key value : bytes) : WriteBatch :=
  let b := SetCount b (s32 (Count b + 1)) in
  let b := b ++ [zb (vt_z kTypeValue)] in
  let b := PutLengthPrefixedSlice b key in
  PutLengthPrefixedSlice b value.

Definition WriteBatch_Delete (b : WriteBatch) (key : bytes) : WriteBatch :=
  let b := SetCount b (s32 (Count b + 1)) in
  let b := b ++ [zb (vt_z kTypeDeletion)] in
  PutLengthPrefixedSlice b key.

Definition SetContents (contents : bytes) : WriteBatch := contents.

Definition WriteBatch_Append (dst src : WriteBatch) : WriteBatch :=
  SetCount dst (s32 (Count dst + Count src)) ++ zdrop kHeader src.

(** The loop of [Iterate].  Every iteration consumes the tag, so the size of the
    input is enough fuel ([Iterate_loop_fuel]). *)
Fixpoint Iterate_loop {S} (fuel : nat) (handler : Handler S) (input : bytes) (found : Z) (st : S)
  : S * Result Z :=
  match input with
  | [] => (st, Ok found)
  | tag :: input =>
      match fuel with
      | O => (st, Err StatusOK)
      | Datatypes.S fuel' =>
          let found := s32 (found + 1) in
          if bz tag =? vt_z kTypeValue then
            match GetLengthPrefixedSlice input with
            | None => (st, Err (Corruption "bad WriteBatch Put" ""))
            | Some (key, input) =>
                match GetLengthPrefixedSlice input with
                | None => (st, Err (Corruption "bad WriteBatch Put" ""))
                | Some (value, input) =>
                    Iterate_loop fuel' handler input found (h_Put handler key value st)
                end
            end
          else if bz tag =? vt_z kTypeDeletion then
            match GetLengthPrefixedSlice input with
            | None => (st, Err (Corruption "bad WriteBatch Delete" ""))
            | Some (key, input) => Iterate_loop fuel' handler input found (h_Delete handler key st)
            end
          else (st, Err (Corruption "unknown WriteBatch tag" ""))
      end
  end.

Definition Iterate {S} (b : WriteBatch) (handler : Handler S) (st : S) : S * Result unit :=
  if zlen b <? kHeader then (st, Err (Corruption "malformed WriteBatch (too small)" ""))
  else
    let input := zdrop kHeader b in
    match Iterate_loop (length input) handler input 0 st with
    | (st, Err e) => (st, Err e)
    | (st, Ok found) =>
        if found =? Count b then (st, Ok tt)
        else (st, Err (Corruption "WriteBatch has wrong count" ""))
    end.

(** [MemTableInserter]: its state is the next sequence number and the table. *)
Definition MemTableInserter (C : Comparator) {Rnd} (OneIn : Rnd -> Z -> bool * Rnd)
  : Handler (SequenceNumber * MemTable Rnd) :=
  mkHandler
    (fun key value '(sequence, mem) =>
       (u64 (sequence + 1), MemTable_Add C OneIn mem sequence kTypeValue key value))
    (fun key '(sequence, mem) =>
       (u64 (sequence + 1), MemTable_Add C OneIn mem sequence kTypeDeletion key [])).

Definition InsertInto (C : Comparator) {Rnd} (OneIn : Rnd -> Z -> bool * Rnd)
    (b : WriteBatch) (mem : MemTable Rnd) : MemTable Rnd * Result unit :=
  let '((_, mem), res) := Iterate b (MemTableInserter C OneIn) (Sequence b, mem) in (mem, res).

(** ** Abstract batches *)

Inductive WriteOp :=
  | OpPut (key value : bytes)
  | OpDelete (key : bytes).

Definition op_bytes (op : WriteOp) : bytes :=
  match op with
  | OpPut k v => zb (vt_z kTypeValue) :: lp_slice k ++ lp_slice v
  | OpDelete k => zb (vt_z kTypeDeletion) :: lp_slice k
  end.

Definition op_wf (op : WriteOp) : Prop :=
  match op with
  | OpPut k v => zlen k < 2 ^ 32 /\ zlen v < 2 ^ 32
  | OpDelete k => zlen k < 2 ^ 32
  end.

Definition op_apply {S} (h : Handler S) (st : S) (op : WriteOp) : S :=
  match op with
  | OpPut k v => h_Put h k v st
  | OpDelete k => h_Delete h k st
  end.

Definition ops_bytes (ops : list WriteOp) : bytes := concat (map op_bytes ops).

Definition batch_bytes (seq : SequenceNumber) (ops : list WriteOp) : bytes :=
  EncodeFixed64 seq ++ EncodeFixed32 (zlen ops) ++ ops_bytes ops.

Definition batch_op (b : WriteBatch) (op : WriteOp) : WriteBatch :=
  match op with
  | OpPut k v => WriteBatch_Put b k v
  | OpDelete k => WriteBatch_Delete b k
  end.

Lemma s32_small (z : Z) : - 2 ^ 31 <= z < 2 ^ 31 -> s32 z = z.
Proof. intros. unfold s32. rewrite Z.mod_small by lia. lia. Qed.

Lemma ops_bytes_app (a b : list WriteOp) : ops_bytes (a ++ b) = ops_bytes a ++ ops_bytes b.
Proof. unfold ops_bytes. rewrite map_app, concat_app. done. Qed.

Lemma ops_bytes_one (op : WriteOp) : ops_bytes [op] = op_bytes op.
Proof. unfold ops_bytes. simpl. apply app_nil_r. Qed.

Lemma take_fixed64 (seq : Z) (rest : bytes) : take 8 (EncodeFixed64 seq ++ rest) = EncodeFixed64 seq.
Proof. done. Qed.

Lemma drop_fixed64 (seq : Z) (rest : bytes) : drop 8 (EncodeFixed64 seq ++ rest) = rest.
Proof. done. Qed.

Lemma drop_header (seq n : Z) (rest : bytes) : drop 12 (EncodeFixed64 seq ++ EncodeFixed32 n ++ rest) = rest.
Proof. done. Qed.

Lemma Count_batch (seq : SequenceNumber) (ops : list WriteOp) :
  zlen ops < 2 ^ 31 -> Count (batch_bytes seq ops) = zlen ops.
Proof.
  intros Hn. pose proof (zlen_nonneg ops). unfold Count, batch_bytes.
  rewrite drop_fixed64, DecodeFixed32_Encode by lia. apply s32_small. lia.
Qed.

Lemma SetCount_batch (seq n m : Z) (rest : bytes) :
  0 <= n < 2 ^ 31 ->
  SetCount (EncodeFixed64 seq ++ EncodeFixed32 m ++ rest) n = EncodeFixed64 seq ++ EncodeFixed32 n ++ rest.
Proof. intros. unfold SetCount. rewrite take_fixed64, drop_header, wrap_small by lia. done. Qed.

Lemma batch_op_spec (seq : SequenceNumber) (ops : list WriteOp) (op : WriteOp) :
  zlen ops + 1 < 2 ^ 31 -> batch_op (batch_bytes seq ops) op = batch_bytes seq (ops ++ [op]).
Proof.
  intros Hn. pose proof (zlen_nonneg ops).
  assert (SetCount (batch_bytes seq ops) (s32 (Count (batch_bytes seq ops) + 1))
          = EncodeFixed64 seq ++ EncodeFixed32 (zlen ops + 1) ++ ops_bytes ops) as E.
  { rewrite Count_batch, s32_small by lia. apply SetCount_batch. lia. }
  unfold batch_bytes at 2. rewrite zlen_app, zlen_cons, zlen_nil, ops_bytes_app, ops_bytes_one.
  replace (zlen ops + (1 + 0)) with (zlen ops + 1) by lia.
  destruct op as [k v|k]; unfold batch_op, WriteBatch_Put, WriteBatch_Delete; rewrite E.
  - rewrite !PutLengthPrefixedSlice_app, <- !app_assoc. done.
  - rewrite PutLengthPrefixedSlice_app, <- !app_assoc. done.
Qed.

Lemma newWriteBatch_spec : newWriteBatch = batch_bytes 0 [].
Proof. vm_compute. reflexivity. Qed.

Lemma batch_ops_spec (seq : SequenceNumber) (ops0 ops : list WriteOp) :
  zlen (ops0 ++ ops) < 2 ^ 31 ->
  fold_left batch_op ops (batch_bytes seq ops0) = batch_bytes seq (ops0 ++ ops).
Proof.
  revert ops0. induction ops as [|op ops IH]; intros ops0 Hn; [rewrite app_nil_r; done|].
  rewrite fold_left_cons, batch_op_spec.
  - rewrite IH, <- app_assoc; [done|]. rewrite <- app_assoc. done.
  - rewrite zlen_app, zlen_cons in Hn. pose proof (zlen_nonneg ops). lia.
Qed.

Lemma batch_append_spec (s1 s2 : SequenceNumber) (ops1 ops2 : list WriteOp) :
  zlen (ops1 ++ ops2) < 2 ^ 31 ->
  WriteBatch_Append (batch_bytes s1 ops1) (batch_bytes s2 ops2) = batch_bytes s1 (ops1 ++ ops2).
Proof.
  intros Hn. rewrite zlen_app in Hn. pose proof (zlen_nonneg ops1). pose proof (zlen_nonneg ops2).
  unfold WriteBatch_Append. rewrite !Count_batch, s32_small by lia.
  unfold batch_bytes at 1. rewrite SetCount_batch by lia.
  change (zdrop kHeader (batch_bytes s2 ops2)) with (ops_bytes ops2).
  unfold batch_bytes. rewrite zlen_app, ops_bytes_app, <- !app_assoc. done.
Qed.

Lemma SetSequence_spec (s s' : SequenceNumber) (ops : list WriteOp) :
  SetSequence (batch_bytes s ops) s' = batch_bytes s' ops.
Proof. done. Qed.

Lemma Sequence_spec (s : SequenceNumber) (ops : list WriteOp) :
  0 <= s < 2 ^ 64 -> Sequence (batch_bytes s ops) = s.
Proof. intros. apply DecodeFixed64_Encode. done. Qed.

(** ** Iterating *)

Lemma zb_inj_small (x : Z) : 0 <= x < 256 -> bz (zb x) = x.
Proof. apply bz_zb_small. Qed.

Lemma Iterate_loop_ops {S} (h : Handler S) (ops : list WriteOp) (tail : bytes) (fuel : nat) (found : Z) (st : S) :
  Forall op_wf ops -> 0 <= found -> found + zlen ops < 2 ^ 31 -> (length (ops_bytes ops ++ tail) <= fuel)%nat ->
  exists fuel', (length tail <= fuel')%nat /\
  Iterate_loop fuel h (ops_bytes ops ++ tail) found st
  = Iterate_loop fuel' h tail (found + zlen ops) (fold_left (op_apply h) ops st).
Proof.
  revert fuel found st. induction ops as [|op ops IH]; intros fuel found st Hwf Hf Hn Hfuel.
  - exists fuel. rewrite zlen_nil, Z.add_0_r. done.
  - apply Forall_cons in Hwf as [Hop Hwf]. rewrite zlen_cons in Hn. pose proof (zlen_nonneg ops).
    unfold ops_bytes in *. simpl map in *. simpl concat in *. rewrite fold_left_cons, zlen_cons.
    replace (found + (1 + zlen ops)) with (found + 1 + zlen ops) by lia.
    destruct fuel as [|fuel]; [destruct op; simpl in Hfuel; lia|].
    destruct op as [k v|k]; simpl op_bytes in *; simpl app in *; cbn [Iterate_loop]; rewrite s32_small by lia.
    + change (bz (zb 1) =? vt_z kTypeValue) with true. cbn match. destruct Hop as [Hk Hv].
      rewrite <- !app_assoc, GetLengthPrefixedSlice_Put by done. rewrite GetLengthPrefixedSlice_Put by done.
      apply IH; [done|lia|lia|]. simpl in Hfuel. rewrite !length_app in *. lia.
    + change (bz (zb 0) =? vt_z kTypeValue) with false. change (bz (zb 0) =? vt_z kTypeDeletion) with true.
      cbn match. rewrite <- !app_assoc, GetLengthPrefixedSlice_Put by done.
      apply IH; [done|lia|lia|]. simpl in Hfuel. rewrite !length_app in *. lia.
Qed.

Lemma Iterate_batch {S} (h : Handler S) (s : SequenceNumber) (ops : list WriteOp) (st : S) :
  Forall op_wf ops -> zlen ops < 2 ^ 31 ->
  Iterate (batch_bytes s ops) h st = (fold_left (op_apply h) ops st, Ok tt).
Proof.
  intros Hwf Hn. pose proof (zlen_nonneg ops). unfold Iterate.
  assert (zlen (batch_bytes s ops) = 12 + zlen (ops_bytes ops)) as ->.
  { unfold batch_bytes. rewrite !zlen_app, zlen_EncodeFixed64, zlen_EncodeFixed32. lia. }
  unfold kHeader. pose proof (zlen_nonneg (ops_bytes ops)).
  destruct (Z.ltb_spec (12 + zlen (ops_bytes ops)) 12); [lia|].
  change (zdrop 12 (batch_bytes s ops)) with (ops_bytes ops).
  destruct (Iterate_loop_ops h ops [] (length (ops_bytes ops)) 0 st) as (f & _ & E);
    [done|lia|lia|rewrite app_nil_r; done|].
  rewrite app_nil_r in E. rewrite E.
  assert (Iterate_loop f h [] (0 + zlen ops) (fold_left (op_apply h) ops st)
          = (fold_left (op_apply h) ops st, Ok (zlen ops))) as -> by (destruct f; done).
  rewrite Count_batch, Z.eqb_refl by done. done.
Qed.

(** Fuel beyond the size of the input changes nothing. *)
Lemma Iterate_loop_fuel {S} (h : Handler S) (f g : nat) (input : bytes) (found : Z) (st : S) :
  (length input <= f)%nat -> (length input <= g)%nat ->
  Iterate_loop f h input found st = Iterate_loop g h input found st.
Proof.
  revert g input found st. induction f as [|f IH]; intros g input found st Hf Hg.
  - destruct input; simpl in Hf; [destruct g; done|lia].
  - destruct input as [|tag input]; [destruct g; done|]. destruct g as [|g]; [simpl in Hg; lia|].
    simpl in Hf, Hg. cbn [Iterate_loop].
    destruct (bz tag =? vt_z kTypeValue); [|destruct (bz tag =? vt_z kTypeDeletion); [|done]];
      destruct (GetLengthPrefixedSlice input) as [[key rest]|] eqn:E1; try done;
      apply GetLengthPrefixedSlice_suffix in E1 as (p1 & -> & _); rewrite length_app in *.
    + destruct (GetLengthPrefixedSlice rest) as [[value rest']|] eqn:E2; [|done].
      apply GetLengthPrefixedSlice_suffix in E2 as (p2 & -> & _). rewrite length_app in *.
      apply IH; lia.
    + apply IH; lia.
Qed.

(** ** Truncation *)

Definition strict_prefix (p l : bytes) : Prop := exists q, q <> [] /\ l = p ++ q.

Lemma strict_prefix_app (p a b : bytes) :
  strict_prefix p (a ++ b) -> strict_prefix p a \/ exists p', p = a ++ p' /\ strict_prefix p' b.
Proof.
  intros (q & Hq & E). destruct (List.app_eq_app _ _ _ _ E) as [l [[-> ->]|[-> ->]]].
  - destruct l as [|x l]; [|left; exists (x :: l); done].
    right. exists []. rewrite !app_nil_r. split; [done|]. exists b. done.
  - right. exists l. split; [done|]. exists q. done.
Qed.

Lemma get_varint_loop_prefix (w maxshift : Z) (fuel : nat) (v shift r : Z) (p : bytes) :
  0 <= v -> strict_prefix p (EncodeVarint64_loop fuel v) -> get_varint_loop w maxshift p shift r = None.
Proof.
  revert v shift r p. induction fuel as [|fuel IH]; intros v shift r p Hv (q & Hq & E); simpl in E.
  - destruct p as [|b [|]]; [done|destruct q; done|done].
  - destruct (128 <=? v) eqn:Ev.
    + destruct p as [|b p]; [done|]. injection E as <- E. cbn [get_varint_loop].
      destruct (shift <=? maxshift); [|done]. cbn zeta.
      rewrite continuation_byte by done. pose proof (Z.mod_pos_bound v 128 ltac:(lia)).
      rewrite land_128_zero by lia. destruct (Z.ltb_spec (v mod 128 + 128) 128); [lia|].
      apply (IH (Z.shiftr v 7)); [apply Z.shiftr_nonneg; done|exists q; done].
    + destruct p as [|b [|]]; [done|destruct q; done|done].
Qed.

Lemma GetLengthPrefixedSlice_prefix (v p : bytes) :
  zlen v < 2 ^ 32 -> strict_prefix p (lp_slice v) -> GetLengthPrefixedSlice p = None.
Proof.
  intros Hv Hp. pose proof (zlen_nonneg v). unfold lp_slice in Hp. rewrite wrap_small in Hp by lia.
  unfold GetLengthPrefixedSlice.
  apply strict_prefix_app in Hp as [Hp|(p' & -> & q & Hq & ->)].
  - unfold GetVarint32. rewrite GetVarint32Ptr_fallback.
    rewrite EncodeVarint32_loop in Hp by lia. rewrite (get_varint_loop_prefix 32 28 4 (zlen v)) by (done || lia).
    done.
  - rewrite GetVarint32_Encode by lia. simpl. rewrite zlen_app.
    destruct q as [|x q]; [done|]. rewrite zlen_cons. pose proof (zlen_nonneg q).
    destruct (Z.ltb_spec (zlen p') (zlen p' + (1 + zlen q))); [done|lia].
Qed.

Lemma Iterate_loop_op_prefix {S} (h : Handler S) (op : WriteOp) (fuel : nat) (found : Z) (st : S) (p : bytes) :
  op_wf op -> strict_prefix p (op_bytes op) -> p <> [] -> (length p <= fuel)%nat ->
  exists e, snd (Iterate_loop fuel h p found st) = Err e /\ IsCorruption e = true.
Proof.
  intros Hop (q & Hq & E) Hp Hf. destruct p as [|b p]; [done|]. destruct fuel as [|fuel]; [simpl in Hf; lia|].
  destruct op as [k v|k]; simpl in E; injection E as <- E; cbn [Iterate_loop].
  - change (bz (zb 1) =? vt_z kTypeValue) with true. cbn match. destruct Hop as [Hk Hv].
    assert (strict_prefix p (lp_slice k ++ lp_slice v)) as Hs by (exists q; done).
    apply strict_prefix_app in Hs as [Hs|(p' & -> & Hs)].
    + rewrite (GetLengthPrefixedSlice_prefix k) by done. eexists. split; reflexivity.
    + rewrite GetLengthPrefixedSlice_Put by done. rewrite (GetLengthPrefixedSlice_prefix v) by done.
      eexists. split; reflexivity.
  - change (bz (zb 0) =? vt_z kTypeValue) with false. change (bz (zb 0) =? vt_z kTypeDeletion) with true.
    cbn match. rewrite (GetLengthPrefixedSlice_prefix k) by (done || (exists q; done)).
    eexists. split; reflexivity.
Qed.

(** On a strict prefix of the records the loop fails or finds too few. *)
Lemma Iterate_loop_prefix {S} (h : Handler S) (ops : list WriteOp) (fuel : nat) (found : Z) (st : S) (p : bytes) :
  Forall op_wf ops -> 0 <= found -> found + zlen ops < 2 ^ 31 ->
  strict_prefix p (ops_bytes ops) -> (length p <= fuel)%nat ->
  (exists e, snd (Iterate_loop fuel h p found st) = Err e /\ IsCorruption e = true) \/
  (exists n, snd (Iterate_loop fuel h p found st) = Ok n /\ n < found + zlen ops).
Proof.
  revert fuel found st p. induction ops as [|op ops IH]; intros fuel found st p Hwf Hf Hn Hp Hfuel.
  - destruct Hp as (q & Hq & E). destruct p, q; done.
  - apply Forall_cons in Hwf as [Hop Hwf]. rewrite zlen_cons in *. pose proof (zlen_nonneg ops).
    unfold ops_bytes in Hp. simpl in Hp.
    apply strict_prefix_app in Hp as [Hp|(p' & -> & Hp)].
    + destruct p as [|b p]; [|left; eapply Iterate_loop_op_prefix; done].
      right. exists found. split; [destruct fuel; done|lia].
    + destruct (Iterate_loop_ops h [op] p' fuel found st) as (f' & Hf' & E);
        [repeat constructor; done|done|rewrite zlen_cons, zlen_nil; lia|rewrite ops_bytes_one; done|].
      rewrite ops_bytes_one in E. rewrite E, zlen_cons, zlen_nil.
      replace (found + (1 + zlen ops)) with (found + (1 + 0) + zlen ops) by lia.
      apply IH; [done|lia|lia|done|done].
Qed.

Lemma Iterate_truncated {S} (h : Handler S) (s : SequenceNumber) (ops : list WriteOp) (st : S) (p : bytes) :
  Forall op_wf ops -> zlen ops < 2 ^ 31 -> strict_prefix p (batch_bytes s ops) ->
  exists e, snd (Iterate p h st) = Err e /\ IsCorruption e = true.
Proof.
  intros Hwf Hn Hp. pose proof (zlen_nonneg ops). unfold Iterate.
  destruct (Z.ltb_spec (zlen p) kHeader) as [|Hl]; [eexists; split; reflexivity|].
  unfold batch_bytes in Hp. rewrite app_assoc in Hp.
  apply strict_prefix_app in Hp as [(q & Hq & E)|(p' & -> & Hp)].
  - exfalso. apply (f_equal zlen) in E. rewrite !zlen_app, zlen_EncodeFixed64, zlen_EncodeFixed32 in E.
    unfold kHeader in Hl. destruct q; [done|]. rewrite zlen_cons in E. pose proof (zlen_nonneg q). lia.
  - rewrite <- app_assoc. change (zdrop kHeader (EncodeFixed64 s ++ EncodeFixed32 (zlen ops) ++ p')) with p'.
    destruct (Iterate_loop_prefix h ops (length p') 0 st p') as [(e & E & He)|(n & E & Hlt)]; [done|lia|lia|done|lia|..];
      destruct (Iterate_loop (length p') h p' 0 st) as [st' r]; simpl in E; subst r.
    + exists e. done.
    + unfold Count. rewrite drop_fixed64, DecodeFixed32_Encode, s32_small by lia.
      destruct (Z.eqb_spec n (zlen ops)); [lia|]. eexists. split; reflexivity.
Qed.

(** ** Inserting into a memtable *)

Definition op_entry (s : SequenceNumber) (op : WriteOp) : entry :=
  match op with
  | OpPut k v => mkEntry (mkPIK k s kTypeValue) v
  | OpDelete k => mkEntry (mkPIK k s kTypeDeletion) []
  end.

(** The entries of a batch: consecutive sequence numbers from [s]. *)
Fixpoint batch_entries (s : SequenceNumber) (ops : list WriteOp) : list entry :=
  match ops with
  | [] => []
  | op :: ops => op_entry s op :: batch_entries (s + 1) ops
  end.

Lemma inserter_ops (C : Comparator) {Rnd} (OneIn : Rnd -> Z -> bool * Rnd) (ops : list WriteOp) (s : Z) (m : MemTable Rnd) :
  0 <= s -> s + zlen ops < 2 ^ 64 ->
  fold_left (op_apply (MemTableInserter C OneIn)) ops (s, m)
  = (s + zlen ops, fold_left (mem_add_entry C OneIn) (batch_entries s ops) m).
Proof.
  revert s m. induction ops as [|op ops IH]; intros s m Hs Hn; [rewrite zlen_nil, Z.add_0_r; done|].
  rewrite zlen_cons in *. pose proof (zlen_nonneg ops). rewrite fold_left_cons.
  assert (op_apply (MemTableInserter C OneIn) (s, m) op = (s + 1, mem_add_entry C OneIn m (op_entry s op))) as ->.
  { destruct op; simpl; rewrite wrap_small by lia; done. }
  rewrite IH by lia. f_equal. lia.
Qed.

Lemma InsertInto_batch (C : Comparator) {Rnd} (OneIn : Rnd -> Z -> bool * Rnd) (s : SequenceNumber)
    (ops : list WriteOp) (m : MemTable Rnd) :
  Forall op_wf ops -> zlen ops < 2 ^ 31 -> 0 <= s -> s + zlen ops < 2 ^ 64 ->
  InsertInto C OneIn (batch_bytes s ops) m
  = (fold_left (mem_add_entry C OneIn) (batch_entries s ops) m, Ok tt).
Proof.
  intros Hwf Hn Hs Hm. pose proof (zlen_nonneg ops). unfold InsertInto.
  rewrite Iterate_batch, Sequence_spec, inserter_ops by (done || lia). done.
Qed.

Lemma batch_entries_seq (s : SequenceNumber) (ops : list WriteOp) (e : entry) :
  e ∈ batch_entries s ops -> s <= entry_seq e < s + zlen ops.
Proof.
  revert s. induction ops as [|op ops IH]; intros s; simpl; [intros H; inversion H|].
  rewrite zlen_cons. pose proof (zlen_nonneg ops).
  intros [->|H']%elem_of_cons; [destruct op; simpl; unfold entry_seq; simpl; lia|].
  apply IH in H'. lia.
Qed.

Lemma batch_entries_NoDup (s : SequenceNumber) (ops : list WriteOp) :
  NoDup (map entry_seq (batch_entries s ops)).
Proof.
  revert s. induction ops as [|op ops IH]; intros s; simpl; [constructor|].
  constructor; [|apply IH]. intros H. apply list_elem_of_fmap in H as (e & E & He).
  apply batch_entries_seq in He. destruct op; unfold entry_seq in *; simpl in E; lia.
Qed.

Definition op_key (op : WriteOp) : bytes := match op with OpPut k _ => k | OpDelete k => k end.

Lemma batch_entries_wf (s : SequenceNumber) (ops : list WriteOp) :
  Forall op_wf ops -> Forall (fun op => zlen (op_key op) + 8 < 2 ^ 32) ops ->
  0 <= s -> s + zlen ops <= kMaxSequenceNumber -> Forall entry_wf (batch_entries s ops).
Proof.
  revert s. induction ops as [|op ops IH]; intros s Hwf Hk Hs Hm; simpl; [constructor|].
  rewrite zlen_cons in Hm. pose proof (zlen_nonneg ops).
  apply Forall_cons in Hwf as [Hop Hwf]. apply Forall_cons in Hk as [Hk1 Hk].
  constructor; [|apply IH; (done || lia)].
  destruct op as [k v|k]; simpl in *; unfold entry_wf, seq_ok; simpl; split_and!; try lia; try done;
    rewrite ?zlen_nil; lia.
Qed.

(** The value the last operation on [u] of a batch leaves, if there is one. *)
Fixpoint last_op `{Comparator} (u : bytes) (ops : list WriteOp) : option WriteOp :=
  match ops with
  | [] => None
  | op :: ops =>
      match last_op u ops with
      | Some o => Some o
      | None => match Compare (op_key op) u with Eq => Some op | _ => None end
      end
  end.

Definition op_result (op : WriteOp) : Result (option bytes) :=
  match op with
  | OpPut _ v => Ok (Some v)
  | OpDelete _ => Err (NotFound "deleted in memtable" "")
  end.

Lemma batch_entries_app (s : SequenceNumber) (a b : list WriteOp) : batch_entries s (a ++ b) = batch_entries s a ++ batch_entries (s + zlen a) b.
Proof.
  revert s. induction a as [|op a IH]; intros s; [by rewrite zlen_nil, Z.add_0_r|]. cbn. rewrite IH, zlen_cons. do 3 f_equal. lia.
Qed.

Lemma last_op_entry {C : Comparator} (u : bytes) (s : SequenceNumber) (ops : list WriteOp) :
  match last_op u ops with
  | Some op => exists t, op_entry t op ∈ batch_entries s ops /\ ceq (op_key op) u /\
                 forall e, e ∈ batch_entries s ops -> ceq (pik_user_key (e_key e)) u -> entry_seq e <= t
  | None => forall e, e ∈ batch_entries s ops -> ~ ceq (pik_user_key (e_key e)) u
  end.
Proof.
  revert s. induction ops as [|op ops IH]; intros s; simpl; [intros e He; inversion He|].
  specialize (IH (s + 1)). destruct (last_op u ops) as [o|].
  - destruct IH as (t & Ht & Hu & Hmax). exists t. split; [right; done|]. split; [done|].
    intros e [->|He]%elem_of_cons Hc; [|auto].
    apply batch_entries_seq in Ht. destruct o, op; unfold entry_seq in *; simpl in *; lia.
  - destruct (Compare (op_key op) u) eqn:E.
    + exists s. split; [left|]. split; [done|]. intros e [->|He]%elem_of_cons Hc.
      * destruct op; unfold entry_seq; simpl; lia.
      * exfalso. eapply IH; done.
    + intros e [->|He]%elem_of_cons; [|auto]. unfold ceq. destruct op; simpl in *; congruence.
    + intros e [->|He]%elem_of_cons; [|auto]. unfold ceq. destruct op; simpl in *; congruence.
Qed.

Lemma get_spec_unique {C : Comparator} (es : list entry) (u : bytes) (s : SequenceNumber) (r : Result (option bytes)) (e : entry) :
  get_spec (C := C) es u s r -> NoDup (map entry_seq es) -> e ∈ es -> visible (C := C) u s e ->
  (forall e', e' ∈ es -> visible (C := C) u s e' -> entry_seq e' <= entry_seq e) -> r = entry_result e.
Proof.
  intros Hg Hnd He Hv Hmax. destruct Hg as [[_ Hn]|(e0 & He0 & Hv0 & -> & Hmax0)]; [exfalso; eapply Hn; done|].
  assert (entry_seq e0 = entry_seq e) as E.
  { specialize (Hmax e0 He0 Hv0). specialize (Hmax0 e He Hv). unfold entry_seq in *. lia. }
  apply list_elem_of_lookup in He as [i Hi]. apply list_elem_of_lookup in He0 as [j Hj].
  assert (i = j) as ->; [|congruence].
  apply (NoDup_lookup (entry_seq <$> es) i j (entry_seq e)); [done|rewrite list_lookup_fmap, Hi; done|].
  rewrite list_lookup_fmap, Hj. simpl. rewrite E. done.
Qed.

(** ** Properties *)

(** C34. A write batch is faithful: building one by any sequence of [Put]s and
    [Delete]s and iterating over it calls the handler with exactly these
    operations, in order, and succeeds; appending a second batch continues with
    its operations. *)
Theorem write_batch_roundtrip (S : Type) (h : Handler S) (st : S) (ops ops' : list WriteOp) :
  Forall op_wf (ops ++ ops') -> zlen (ops ++ ops') < 2 ^ 31 ->
  Iterate (fold_left batch_op ops newWriteBatch) h st = (fold_left (op_apply h) ops st, Ok tt) /\
  Iterate (WriteBatch_Append (fold_left batch_op ops newWriteBatch) (fold_left batch_op ops' newWriteBatch)) h st
  = (fold_left (op_apply h) (ops ++ ops') st, Ok tt).
Proof.
  intros Hwf Hn. pose proof Hn as Hn'. rewrite zlen_app in Hn'.
  pose proof (zlen_nonneg ops). pose proof (zlen_nonneg ops').
  rewrite newWriteBatch_spec, !batch_ops_spec by (simpl; lia). simpl app.
  rewrite batch_append_spec by done. apply Forall_app in Hwf as Hwf'.
  split; apply Iterate_batch; (done || lia || apply Hwf').
Qed.

Lemma write_batch_roundtrip_witness :
  let h := mkHandler (fun k v l => l ++ [OpPut k v]) (fun k l => l ++ [OpDelete k]) in
  Iterate (WriteBatch_Append (WriteBatch_Put newWriteBatch [Byte.x61] [Byte.x01])
                             (WriteBatch_Delete newWriteBatch [Byte.x62])) h []
  = ([OpPut [Byte.x61] [Byte.x01]; OpDelete [Byte.x62]], Ok tt).
Proof.
  apply (write_batch_roundtrip _ (mkHandler (fun k v l => l ++ [OpPut k v]) (fun k l => l ++ [OpDelete k])) []
           [OpPut [Byte.x61] [Byte.x01]] [OpDelete [Byte.x62]]).
  - repeat constructor.
  - vm_compute. reflexivity.
Defined.

(** A truncated batch is never accepted: iterating over any strict prefix of
    a batch, cut inside the header, inside a record or between two records, ends
    in a corruption error, whatever the handler. *)
Theorem write_batch_truncation_detected (S : Type) (h : Handler S) (st : S)
    (s : SequenceNumber) (ops : list WriteOp) (n : nat) :
  Forall op_wf ops -> zlen ops < 2 ^ 31 ->
  (n < length (SetSequence (fold_left batch_op ops newWriteBatch) s))%nat ->
  exists e, snd (Iterate (take n (SetSequence (fold_left batch_op ops newWriteBatch) s)) h st) = Err e /\
            IsCorruption e = true.
Proof.
  rewrite newWriteBatch_spec. intros Hwf Hn. rewrite batch_ops_spec, SetSequence_spec by done. intros Hlen.
  apply (Iterate_truncated h s ops); [done|done|].
  exists (drop n (batch_bytes s ([] ++ ops))). rewrite take_drop. split; [|done].
  intros E. apply (f_equal length) in E. rewrite length_drop in E. simpl in E, Hlen. lia.
Qed.

Lemma write_batch_truncation_detected_witness :
  exists e,
    snd (Iterate (take 15 (SetSequence (WriteBatch_Put newWriteBatch [Byte.x61] [Byte.x01]) 5))
           (mkHandler (fun _ _ n => n + 1) (fun _ n => n + 1)) 0) = Err e /\ IsCorruption e = true.
Proof.
  apply (write_batch_truncation_detected Z (mkHandler (fun _ _ n => n + 1) (fun _ n => n + 1)) 0 5
           [OpPut [Byte.x61] [Byte.x01]] 15).
  - repeat constructor.
  - vm_compute. reflexivity.
  - apply Nat.ltb_lt. vm_compute. reflexivity.
Defined.

(** C10. Read your writes: when a batch with sequence number [s] is inserted into a
    memtable whose entries are all older, its operations take the numbers from [s] on,
    one each.  A lookup at the number of the batch's [k]-th operation sees exactly the
    first [k] operations: it returns what the last of them on that key did, or, for a
    key that they do not touch, what the memtable held before.  For the last operation
    that is the number a database publishes.  Keys are below 2^32 - 8 bytes, values
    below 2^32, and the batch has less than 2^31 operations. *)
Theorem write_batch_read_your_writes (C : Comparator) (Rnd : Type) (OneIn : Rnd -> Z -> bool * Rnd)
    (m : MemTable Rnd) (es : list entry) (s : SequenceNumber) (ops : list WriteOp) (u : bytes) :
  ComparatorLaws C -> mem_repr (C := C) m es -> NoDup (map entry_seq es) ->
  (forall e, e ∈ es -> entry_seq e < s) ->
  Forall op_wf ops -> Forall (fun op => zlen (op_key op) + 8 < 2 ^ 32) ops -> zlen ops < 2 ^ 31 ->
  0 <= s -> s + zlen ops <= kMaxSequenceNumber -> zlen u + 8 < 2 ^ 32 ->
  let '(m', res) := InsertInto C OneIn (SetSequence (fold_left batch_op ops newWriteBatch) s) m in
  res = Ok tt /\
  forall k, (k <= length ops)%nat -> 0 <= s + Z.of_nat k - 1 ->
  let got := MemTable_Get C m' (newLookupKey u (s + Z.of_nat k - 1)) in
  match last_op u (take k ops) with
  | Some op => got = op_result op
  | None => get_spec (C := C) es u (s + Z.of_nat k - 1) got
  end.
Proof.
  intros CL Hm Hnd Hold Hwf Hk Hn Hs Hmax Hu. pose proof (zlen_nonneg ops).
  rewrite newWriteBatch_spec, batch_ops_spec by done. rewrite SetSequence_spec. simpl app.
  assert (s + zlen ops < 2 ^ 64) by (rewrite kMaxSequenceNumber_eq in Hmax; lia).
  rewrite InsertInto_batch by (done || lia). split; [done|]. intros k Hlen Hpos got.
  assert (NoDup (map entry_seq (batch_entries s ops ++ es))) as Hnd'.
  { rewrite map_app. apply NoDup_app. split_and!; [apply batch_entries_NoDup| |done].
    intros x H1 H2. apply list_elem_of_fmap in H1 as (e1 & -> & He1). apply list_elem_of_fmap in H2 as (e2 & E & He2).
    apply batch_entries_seq in He1. apply Hold in He2. lia. }
  destruct (mem_repr_adds (OneIn := OneIn) m es (batch_entries s ops) Hm) as (es' & Hp & Hr);
    [apply batch_entries_wf; done|done|].
  assert (zlen (take k ops) = Z.of_nat k) as Hzk by (unfold zlen; rewrite length_take; lia).
  assert (forall e, e ∈ batch_entries s ops <-> e ∈ batch_entries s (take k ops) \/ e ∈ batch_entries (s + Z.of_nat k) (drop k ops)) as Hsplit.
  { intros e. rewrite <- elem_of_app, <- Hzk, <- batch_entries_app, take_drop. done. }
  pose proof (Get_spec (C := C) _ _ u (s + Z.of_nat k - 1) Hr ltac:(unfold seq_ok, zlen in *; lia) Hu) as Hg. fold got in Hg.
  apply (get_spec_perm _ _ _ _ _ Hp) in Hg. pose proof (last_op_entry (C := C) u s (take k ops)) as Hlast.
  destruct (last_op u (take k ops)) as [op|].
  - destruct Hlast as (t & Ht & Hc & Hlmax).
    assert (entry_seq (op_entry t op) = t) as Et by (destruct op; done).
    assert (op_result op = entry_result (op_entry t op)) as -> by (destruct op; done).
    eapply get_spec_unique; [exact Hg|exact Hnd'|apply elem_of_app; left; apply Hsplit; by left| |].
    + split; [destruct op; done|]. apply batch_entries_seq in Ht. unfold entry_seq in Ht. lia.
    + intros e' [He'|He']%elem_of_app [Hv Hsv]; rewrite Et.
      * apply Hsplit in He' as [He'|He']; [auto|]. apply batch_entries_seq in He'. unfold entry_seq in He'. lia.
      * apply Hold in He'. apply batch_entries_seq in Ht. rewrite Et in Ht. lia.
  - destruct Hg as [[-> Hno]|(e & He & Hv & -> & Hmx)]; [left; split; [done|]|right].
    + intros e He. apply Hno, elem_of_app. by right.
    + apply elem_of_app in He as [[He|He]%Hsplit|He]; [exfalso; eapply Hlast; [done|apply Hv]|exfalso; apply batch_entries_seq in He; destruct Hv as [_ Hv]; unfold entry_seq in He; lia|].
      exists e. split_and!; try done. intros e' He' Hv'. apply Hmx; [apply elem_of_app; by right|done].
Qed.

Lemma write_batch_read_your_writes_witness :
  let b := SetSequence (WriteBatch_Delete (WriteBatch_Put newWriteBatch [Byte.x61] [Byte.x01]) [Byte.x61]) 5 in
  let '(m', res) := InsertInto BytewiseComparator (fun r _ => (false, r)) b (newMemTable tt) in
  res = Ok tt /\
  MemTable_Get BytewiseComparator m' (newLookupKey [Byte.x61] 5) = op_result (OpPut [Byte.x61] [Byte.x01]) /\
  MemTable_Get BytewiseComparator m' (newLookupKey [Byte.x61] 6) = op_result (OpDelete [Byte.x61]).
Proof.
  pose proof (write_batch_read_your_writes BytewiseComparator unit (fun r _ => (false, r)) (newMemTable tt) [] 5
           [OpPut [Byte.x61] [Byte.x01]; OpDelete [Byte.x61]] [Byte.x61]) as H.
  specialize (H BytewiseLaws ltac:(apply mem_repr_new) ltac:(constructor) ltac:(intros e He; inversion He) ltac:(repeat constructor) ltac:(repeat constructor)
    ltac:(vm_compute; reflexivity) ltac:(lia) ltac:(vm_compute; congruence) ltac:(vm_compute; reflexivity)).
  cbv zeta. cbn [fold_left batch_op] in H. destruct (InsertInto _ _ _ _) as [m' res]. destruct H as [-> H]. split; [reflexivity|]. split.
  - exact (H 1%nat ltac:(cbn; lia) ltac:(lia)).
  - exact (H 2%nat ltac:(cbn; lia) ltac:(lia)).
Defined.
