(* ===== verification/Env.v ===== *)
(** * Env: the file abstractions ([include/leveldb/env.h])

    The concepts [CSequentialFile], [CRandomAccessFile] and [CWritableFile] are
    classes over the file's state: an operation returns its [Result] and the new
    state.  The law classes say what a regular file that has no I/O errors does;
    the definitions of the other components keep every error path.  [MemFile] is
    the simplest regular file, used to instantiate the laws. *)

From S2P Require Import Prelude Status.

Class SequentialFile (F : Type) := {
  sf_Read : Z -> F -> Result bytes * F;
  sf_Skip : Z -> F -> Result unit * F
}.

(** [raf_in_scratch]: whether [Read] puts the data into the caller's scratch
    buffer, or returns a view of its own memory (as a mapped file does). *)
Class RandomAccessFile (F : Type) := {
  raf_Read : F -> Z -> Z -> Result bytes;
  raf_in_scratch : F -> bool
}.

Class WritableFile (F : Type) := {
  wf_Append : bytes -> F -> Result unit * F;
  wf_Close : F -> Result unit * F;
  wf_Flush : F -> Result unit * F;
  wf_Sync : F -> Result unit * F
}.

(** A regular file whose unread part is [sf_rest f]: reads are full until the end. *)
Class SequentialFileLaws (F : Type) `{SequentialFile F} := {
  sf_rest : F -> bytes;
  sf_Read_spec : forall n f, 0 <= n ->
    exists f', sf_Read n f = (Ok (ztake n (sf_rest f)), f') /\ sf_rest f' = zdrop n (sf_rest f)
}.

(** A regular file with contents [raf_data f]. *)
Class RandomAccessFileLaws (F : Type) `{RandomAccessFile F} := {
  raf_data : F -> bytes;
  raf_Read_spec : forall f off n, 0 <= off -> 0 <= n ->
    raf_Read f off n = Ok (ztake n (zdrop off (raf_data f)))
}.

(** A file that accepts everything that is appended. *)
Class WritableFileLaws (F : Type) `{WritableFile F} := {
  wf_contents : F -> bytes;
  wf_Append_spec : forall data f,
    exists f', wf_Append data f = (Ok tt, f') /\ wf_contents f' = wf_contents f ++ data;
  wf_Flush_spec : forall f, exists f', wf_Flush f = (Ok tt, f') /\ wf_contents f' = wf_contents f;
  wf_Sync_spec : forall f, exists f', wf_Sync f = (Ok tt, f') /\ wf_contents f' = wf_contents f;
  wf_Close_spec : forall f, exists f', wf_Close f = (Ok tt, f') /\ wf_contents f' = wf_contents f
}.

(** [CFileSystem]: the calls the modelled components make; [E] is the state of the
    file system, [W] and [F] are its writable and sequential files. *)
Class FileSystem (E W F : Type) := {
  fs_NewSequentialFile : bytes -> E -> Result F * E;
  fs_NewWritableFile : bytes -> E -> Result W * E;
  fs_RemoveFile : bytes -> E -> Result unit * E;
  fs_RenameFile : bytes -> bytes -> E -> Result unit * E
}.

(** [NewRandomAccessFile]: opening a file does not change the file system. *)
Class RandomAccessFS (E R : Type) := {
  fs_NewRandomAccessFile : bytes -> E -> Result R * E
}.

(** What is written through an open handle is kept in the handle; [fs_Written] is the
    file system once the writes of the handle of the file [name] have reached it. *)
Class HandleFS (E W : Type) := {
  fs_Written : bytes -> W -> E -> E
}.

(** Directories and locks; [L] is the type of lock handles. *)
Class DirectoryFS (E L : Type) := {
  fs_FileExists : bytes -> E -> bool;
  fs_GetChildren : bytes -> E -> Result (list bytes);
  fs_CreateDir : bytes -> E -> Result unit * E;
  fs_RemoveDir : bytes -> E -> Result unit * E;
  fs_LockFile : bytes -> E -> Result L * E;
  fs_UnlockFile : L -> E -> Result unit * E
}.

Class FileSizeFS (E : Type) := {
  fs_GetFileSize : bytes -> E -> Result Z
}.

(** A file system on which files can be made, and renamed once they were written. *)
Class FileSystemLaws (E W F : Type) `{FileSystem E W F} `{WritableFileLaws W} `{HandleFS E W} : Prop := {
  fs_NewWritableFile_spec : forall name env, exists f env', fs_NewWritableFile name env = (Ok f, env') /\ wf_contents f = [];
  fs_RenameFile_spec : forall from to (w : W) (env : E), exists env', fs_RenameFile from to (fs_Written from w env) = (Ok tt, env')
}.

(** The file [name] can be opened, any time, and holds [data]. *)
Definition fs_holds {E R : Type} `{RandomAccessFS E R} `{RandomAccessFileLaws R} (env : E) (name data : bytes) : Prop :=
  exists file, fs_NewRandomAccessFile name env = (Ok file, env) /\ raf_data file = data.

(** Operations on one file leave the others as they are. *)
Class FileFrameLaws (E W F R : Type) `{FileSystem E W F} `{WritableFileLaws W} `{HandleFS E W} `{RandomAccessFS E R} `{RandomAccessFileLaws R} : Prop := {
  fs_Written_same : forall name w (env : E), fs_holds (fs_Written name w env) name (wf_contents w);
  fs_Written_other : forall name w (env : E) name' data, name' <> name -> fs_holds env name' data -> fs_holds (fs_Written name w env) name' data;
  fs_NewWritableFile_other : forall name (env : E) name' data, name' <> name -> fs_holds env name' data -> fs_holds (snd (fs_NewWritableFile name env)) name' data;
  fs_RemoveFile_other : forall name (env : E) name' data, name' <> name -> fs_holds env name' data -> fs_holds (snd (fs_RemoveFile name env)) name' data;
  fs_RenameFile_other : forall from to (env : E) name' data, name' <> from -> name' <> to -> fs_holds env name' data -> fs_holds (snd (fs_RenameFile from to env)) name' data
}.

(** The file [name] can be read from its start, and holds [data]. *)
Definition fs_reads {E W F : Type} `{FileSystem E W F} `{SequentialFileLaws F} (env : E) (name data : bytes) : Prop :=
  exists file, fs_NewSequentialFile name env = (Ok file, env) /\ sf_rest file = data.

Class FileReadLaws (E W F : Type) `{FileSystem E W F} `{WritableFileLaws W} `{HandleFS E W} `{SequentialFileLaws F} : Prop := {
  fs_Written_reads : forall name w (env : E), fs_reads (fs_Written name w env) name (wf_contents w);
  fs_Written_reads_other : forall name w (env : E) name' data, name' <> name -> fs_reads env name' data -> fs_reads (fs_Written name w env) name' data;
  fs_NewWritableFile_reads_other : forall name (env : E) name' data, name' <> name -> fs_reads env name' data -> fs_reads (snd (fs_NewWritableFile name env)) name' data;
  fs_RemoveFile_reads_other : forall name (env : E) name' data, name' <> name -> fs_reads env name' data -> fs_reads (snd (fs_RemoveFile name env)) name' data;
  fs_RenameFile_readable : forall from to (env : E) data, fs_reads env from data -> exists env', fs_RenameFile from to env = (Ok tt, env');
  fs_RenameFile_reads : forall from to (env : E) data, from <> to -> fs_reads env from data -> fs_reads (snd (fs_RenameFile from to env)) to data;
  fs_RenameFile_reads_other : forall from to (env : E) name' data, name' <> from -> name' <> to -> fs_reads env name' data -> fs_reads (snd (fs_RenameFile from to env)) name' data
}.

(** A directory that can be listed (0x2f is the separator); files come into being only by these operations. *)
Class DirectoryLaws (E W F L : Type) `{FileSystem E W F} `{HandleFS E W} `{DirectoryFS E L} : Prop := {
  fs_GetChildren_exists : forall dir (env : E) names x, fs_GetChildren dir env = Ok names -> x ∈ names -> fs_FileExists (dir ++ [Byte.x2f] ++ x) env = true;
  fs_CreateDir_exists : forall dir (env : E) name, fs_FileExists name (snd (fs_CreateDir dir env)) = true -> name = dir \/ fs_FileExists name env = true;
  fs_NewWritableFile_exists : forall name (env : E) x, fs_FileExists x (snd (fs_NewWritableFile name env)) = true -> x = name \/ fs_FileExists x env = true;
  fs_Written_exists : forall name w (env : E) x, fs_FileExists x (fs_Written name w env) = true -> x = name \/ fs_FileExists x env = true;
  fs_RenameFile_exists : forall from to (env : E) x, fs_FileExists x (snd (fs_RenameFile from to env)) = true -> x = to \/ fs_FileExists x env = true
}.

(** Making a directory leaves the files as they are. *)
Class DirFrameLaws (E W SF F L : Type) `{FileSystem E W SF} `{WritableFileLaws W} `{HandleFS E W} `{SequentialFileLaws SF} `{RandomAccessFS E F} `{RandomAccessFileLaws F} `{DirectoryFS E L} : Prop := {
  fs_CreateDir_reads : forall dir (env : E) name data, fs_reads env name data -> fs_reads (snd (fs_CreateDir dir env)) name data;
  fs_CreateDir_holds : forall dir (env : E) name data, fs_holds env name data -> fs_holds (snd (fs_CreateDir dir env)) name data
}.

(** A directory with a file that can be read can be listed, and the listing has every
    such file once; removing makes no file. *)
Class ListingLaws (E W SF L : Type) `{FileSystem E W SF} `{SequentialFileLaws SF} `{DirectoryFS E L} : Prop := {
  fs_reads_exists : forall name (env : E) data, fs_reads env name data -> fs_FileExists name env = true;
  fs_GetChildren_ok : forall dir (env : E) x data, Byte.x2f ∉ x -> fs_reads env (dir ++ [Byte.x2f] ++ x) data -> exists names, fs_GetChildren dir env = Ok names;
  fs_GetChildren_all : forall dir (env : E) names, fs_GetChildren dir env = Ok names ->
    NoDup names /\ forall x data, Byte.x2f ∉ x -> fs_reads env (dir ++ [Byte.x2f] ++ x) data -> x ∈ names;
  fs_RemoveFile_exists : forall name (env : E) x, fs_FileExists x (snd (fs_RemoveFile name env)) = true -> fs_FileExists x env = true
}.

Class FileSizeLaws (E F : Type) `{RandomAccessFS E F} `{RandomAccessFileLaws F} `{FileSizeFS E} : Prop := {
  fs_GetFileSize_spec : forall name (env : E) data, fs_holds env name data -> fs_GetFileSize name env = Ok (zlen data)
}.

(** ** Changes of a file system *)

(** [env'] comes from [env] by operations on files whose names satisfy [S]. *)
Inductive evolves {E W SF : Type} `{FileSystem E W SF} `{HandleFS E W} (S : bytes -> Prop) : E -> E -> Prop :=
  | ev_refl env : evolves S env env
  | ev_new name env env' : S name -> evolves S (snd (fs_NewWritableFile name env)) env' -> evolves S env env'
  | ev_written name w env env' : S name -> evolves S (fs_Written name w env) env' -> evolves S env env'
  | ev_remove name env env' : S name -> evolves S (snd (fs_RemoveFile name env)) env' -> evolves S env env'
  | ev_rename from to env env' : S from -> S to -> evolves S (snd (fs_RenameFile from to env)) env' -> evolves S env env'.

Section Evolves.
Context {E W SF F L : Type} {FS : FileSystem E W SF} {WF : WritableFile W} {WL : WritableFileLaws W} {HF : HandleFS E W} {QF : SequentialFile SF} {QL : SequentialFileLaws SF} {FR : FileReadLaws E W SF}.
Context {RFS : RandomAccessFS E F} {RF : RandomAccessFile F} {RL : RandomAccessFileLaws F} {FF : FileFrameLaws E W SF F}.
Context {DF : DirectoryFS E L} {DL : DirectoryLaws E W SF L} {LL : ListingLaws E W SF L}.

Lemma evolves_trans (S : bytes -> Prop) (e1 e2 e3 : E) : evolves (W := W) S e1 e2 -> evolves (W := W) S e2 e3 -> evolves (W := W) S e1 e3.
Proof. induction 1 as [|x|x w|x|x y]; intros Ht; [exact Ht|apply (ev_new S x)|apply (ev_written S x w)|apply (ev_remove S x)|apply (ev_rename S x y)]; auto. Qed.

Lemma evolves_weaken (S S' : bytes -> Prop) (e1 e2 : E) : (forall x, S x -> S' x) -> evolves (W := W) S e1 e2 -> evolves (W := W) S' e1 e2.
Proof. intros Hs. induction 1 as [|x|x w|x|x y]; [constructor|apply (ev_new S' x)|apply (ev_written S' x w)|apply (ev_remove S' x)|apply (ev_rename S' x y)]; auto. Qed.

Lemma evolves_reads (S : bytes -> Prop) (env env' : E) (name data : bytes) : evolves (W := W) S env env' -> ~ S name -> fs_reads (W := W) env name data -> fs_reads (W := W) env' name data.
Proof.
  intros He Hn. induction He as [env|x env env' Hx _ IH|x w env env' Hx _ IH|x env env' Hx _ IH|x y env env' Hx Hy _ IH]; intros Hr; [done|apply IH..].
  - apply fs_NewWritableFile_reads_other; [|done]. by intros ->.
  - apply fs_Written_reads_other; [|done]. by intros ->.
  - apply fs_RemoveFile_reads_other; [|done]. by intros ->.
  - apply fs_RenameFile_reads_other; [| |done]; by intros ->.
Qed.

Lemma evolves_holds (S : bytes -> Prop) (env env' : E) (name data : bytes) : evolves (W := W) S env env' -> ~ S name -> fs_holds env name data -> fs_holds env' name data.
Proof.
  intros He Hn. induction He as [env|x env env' Hx _ IH|x w env env' Hx _ IH|x env env' Hx _ IH|x y env env' Hx Hy _ IH]; intros Hr; [done|apply IH..].
  - apply fs_NewWritableFile_other; [|done]. by intros ->.
  - apply fs_Written_other; [|done]. by intros ->.
  - apply fs_RemoveFile_other; [|done]. by intros ->.
  - apply fs_RenameFile_other; [| |done]; by intros ->.
Qed.

Lemma evolves_exists (S : bytes -> Prop) (env env' : E) (name : bytes) : evolves (W := W) S env env' -> fs_FileExists name env' = true -> S name \/ fs_FileExists name env = true.
Proof.
  induction 1 as [env|x env env' Hx _ IH|x w env env' Hx _ IH|x env env' Hx _ IH|x y env env' Hx Hy _ IH]; intros Hr; [by right|..]; (destruct (IH Hr) as [Hs|He]; [left; exact Hs|]).
  - apply fs_NewWritableFile_exists in He as [->|He]; [by left|by right].
  - apply fs_Written_exists in He as [->|He]; [by left|by right].
  - right. by eapply fs_RemoveFile_exists.
  - apply fs_RenameFile_exists in He as [->|He]; [by left|by right].
Qed.
End Evolves.

(** ** A regular file in memory *)

Record MemFile := mkMemFile { mf_data : bytes }.

#[export] Instance MemFile_seq : SequentialFile MemFile := {
  sf_Read n f := (Ok (ztake n (mf_data f)), mkMemFile (zdrop n (mf_data f)));
  sf_Skip n f := (Ok tt, mkMemFile (zdrop n (mf_data f)))
}.

#[export] Instance MemFile_raf : RandomAccessFile MemFile := {
  raf_Read f off n := Ok (ztake n (zdrop off (mf_data f)));
  raf_in_scratch _ := true
}.

#[export] Instance MemFile_wf : WritableFile MemFile := {
  wf_Append data f := (Ok tt, mkMemFile (mf_data f ++ data));
  wf_Close f := (Ok tt, f);
  wf_Flush f := (Ok tt, f);
  wf_Sync f := (Ok tt, f)
}.

#[export, refine] Instance MemFile_seq_laws : SequentialFileLaws MemFile := { sf_rest := mf_data }.
Proof. intros n f _. eexists. split; reflexivity. Defined.

#[export, refine] Instance MemFile_raf_laws : RandomAccessFileLaws MemFile := { raf_data := mf_data }.
Proof. reflexivity. Defined.

#[export, refine] Instance MemFile_wf_laws : WritableFileLaws MemFile := { wf_contents := mf_data }.
Proof.
  - intros data f. eexists. split; reflexivity.
  - intros f. eexists. split; reflexivity.
  - intros f. eexists. split; reflexivity.
  - intros f. eexists. split; reflexivity.
Defined.
