(* ===== verification/LogFile.v ===== *)
(** * LogFile: the write-ahead log ([db/log_format.h], [db/log_writer.h],
    [db/log_reader.h])

    The writer cuts records into fragments that never cross a 32 KiB block; the
    reader reassembles them.  Both are generic in the file, as the templates are.
    The reader's [Reporter] is the list of the drops it was told of. *)

From S2P Require Import Prelude Status Coding Crc32c Env Logging.

Inductive RecordType := kZeroType | kFullType | kFirstType | kMiddleType | kLastType.

Definition rt_z (t : RecordType) : Z :=
  match t with kZeroType => 0 | kFullType => 1 | kFirstType => 2 | kMiddleType => 3 | kLastType => 4 end.

Definition kMaxRecordType : Z := rt_z kLastType.
Definition kBlockSize : Z := 32768.
Definition kHeaderSize : Z := 4 + 2 + 1.

(** The block size is never to be counted out in unary. *)
#[global] Strategy 1000 [ztake zdrop].
#[global] Arguments ztake : simpl never.
#[global] Arguments zdrop : simpl never.

(** ** Writer *)

(** [kTypeCrcs[t]]: the checksum of the type byte alone. *)
Definition kTypeCrcs (t : RecordType) : Z := Value 0 [zb (rt_z t)].

Section WriterDef.
Context {F : Type} `{WritableFile F}.

Record Writer := mkWriter { dest_ : F; block_offset_ : Z }.

Definition newWriter (dest : F) : Writer := mkWriter dest 0.
Definition newWriterAt (dest : F) (dest_length : Z) : Writer := mkWriter dest (dest_length mod kBlockSize).

(** The header: masked checksum, two bytes of length, type. *)
Definition record_header (t : RecordType) (payload : bytes) : bytes :=
  EncodeFixed32 (Mask (Extend 0 (kTypeCrcs t) payload)) ++
  [zb (Z.land (zlen payload) 0xff); zb (Z.shiftr (zlen payload) 8); zb (rt_z t)].

Definition EmitPhysicalRecord (w : Writer) (t : RecordType) (payload : bytes) : Result unit * Writer :=
  let '(r, f) := wf_Append (record_header t payload) (dest_ w) in
  let w := mkWriter f (block_offset_ w) in
  match r with
  | Err s => (Err s, w)
  | Ok _ =>
      let '(r, f) := wf_Append payload (dest_ w) in
      let w := mkWriter f (block_offset_ w) in
      match r with
      | Err s => (Err s, w)
      | Ok _ =>
          let '(r, f) := wf_Flush (dest_ w) in
          let w := mkWriter f (block_offset_ w) in
          match r with
          | Err s => (Err s, w)
          | Ok _ => (Ok tt, mkWriter (dest_ w) (block_offset_ w + (kHeaderSize + zlen payload)))
          end
      end
  end.

(** [if (leftover < kHeaderSize)]: fill the trailer and start a new block. *)
Definition switch_block (w : Writer) : Result unit * Writer :=
  let leftover := kBlockSize - block_offset_ w in
  if leftover <? kHeaderSize then
    if 0 <? leftover then
      let '(r, f) := wf_Append (replicate (Z.to_nat leftover) Byte.x00) (dest_ w) in
      match r with
      | Err s => (Err s, mkWriter f (block_offset_ w))
      | Ok _ => (Ok tt, mkWriter f 0)
      end
    else (Ok tt, mkWriter (dest_ w) 0)
  else (Ok tt, w).

Definition fragment_type (begin end_ : bool) : RecordType :=
  if begin && end_ then kFullType
  else if begin then kFirstType
  else if end_ then kLastType
  else kMiddleType.

(** The [do ... while (left > 0)] loop.  A fragment is empty only where a block
    has exactly room for a header, so two iterations make progress. *)
Fixpoint AddRecord_loop (fuel : nat) (w : Writer) (ptr : bytes) (begin : bool) : Result unit * Writer :=
  match fuel with
  | O => (Err StatusOK, w)
  | S fuel' =>
      let '(r, w) := switch_block w in
      match r with
      | Err s => (Err s, w)
      | Ok _ =>
          let left := zlen ptr in
          let avail := kBlockSize - block_offset_ w - kHeaderSize in
          let fragment_length := if left <? avail then left else avail in
          let end_ := left =? fragment_length in
          let '(r, w) := EmitPhysicalRecord w (fragment_type begin end_) (ztake fragment_length ptr) in
          match r with
          | Err s => (Err s, w)
          | Ok _ =>
              let ptr := zdrop fragment_length ptr in
              if 0 <? left - fragment_length then AddRecord_loop fuel' w ptr false else (Ok tt, w)
          end
      end
  end.

Definition AddRecord (w : Writer) (slice : bytes) : Result unit * Writer :=
  AddRecord_loop (2 * length slice + 2) w slice true.

End WriterDef.

Arguments Writer F : clear implicits.
Arguments mkWriter {F}.
Arguments dest_ {F}.
Arguments block_offset_ {F}.

(** ** Reader *)

(** The extra values [ReadPhysicalRecord] returns beside the record types. *)
Definition kEof : Z := kMaxRecordType + 1.
Definition kBadRecord : Z := kMaxRecordType + 2.

Section ReaderDef.
Context {F : Type} `{SequentialFile F}.

Record Reader := mkReader {
  file_ : F;
  has_reporter : bool;
  checksum_ : bool;
  buffer_ : bytes;
  eof_ : bool;
  last_record_offset_ : Z;
  end_of_buffer_offset_ : Z;
  initial_offset_ : Z;
  resyncing_ : bool;
  reported : list (Z * Status)
}.

Definition newReader (file : F) (reporter checksum : bool) (initial_offset : Z) : Reader :=
  mkReader file reporter checksum [] false 0 0 initial_offset (0 <? initial_offset) [].

Definition set_file (f : F) (s : Reader) : Reader :=
  mkReader f (has_reporter s) (checksum_ s) (buffer_ s) (eof_ s) (last_record_offset_ s)
    (end_of_buffer_offset_ s) (initial_offset_ s) (resyncing_ s) (reported s).
Definition set_buffer (b : bytes) (s : Reader) : Reader :=
  mkReader (file_ s) (has_reporter s) (checksum_ s) b (eof_ s) (last_record_offset_ s)
    (end_of_buffer_offset_ s) (initial_offset_ s) (resyncing_ s) (reported s).
Definition set_eof (s : Reader) : Reader :=
  mkReader (file_ s) (has_reporter s) (checksum_ s) (buffer_ s) true (last_record_offset_ s)
    (end_of_buffer_offset_ s) (initial_offset_ s) (resyncing_ s) (reported s).
Definition set_last (o : Z) (s : Reader) : Reader :=
  mkReader (file_ s) (has_reporter s) (checksum_ s) (buffer_ s) (eof_ s) o
    (end_of_buffer_offset_ s) (initial_offset_ s) (resyncing_ s) (reported s).
Definition set_end (o : Z) (s : Reader) : Reader :=
  mkReader (file_ s) (has_reporter s) (checksum_ s) (buffer_ s) (eof_ s) (last_record_offset_ s)
    o (initial_offset_ s) (resyncing_ s) (reported s).
Definition stop_resync (s : Reader) : Reader :=
  mkReader (file_ s) (has_reporter s) (checksum_ s) (buffer_ s) (eof_ s) (last_record_offset_ s)
    (end_of_buffer_offset_ s) (initial_offset_ s) false (reported s).

Definition ReportDrop (n : Z) (reason : Status) (s : Reader) : Reader :=
  if has_reporter s &&
     (initial_offset_ s <=? u64 (end_of_buffer_offset_ s - zlen (buffer_ s) - n))
  then mkReader (file_ s) (has_reporter s) (checksum_ s) (buffer_ s) (eof_ s) (last_record_offset_ s)
         (end_of_buffer_offset_ s) (initial_offset_ s) (resyncing_ s) (reported s ++ [(n, reason)])
  else s.

Definition ReportCorruption (n : Z) (reason : string) (s : Reader) : Reader :=
  ReportDrop n (Corruption reason "") s.

Definition SkipToInitialBlock (s : Reader) : bool * Reader :=
  let offset_in_block := initial_offset_ s mod kBlockSize in
  let block_start_location := initial_offset_ s - offset_in_block in
  let block_start_location :=
    if kBlockSize - 6 <? offset_in_block then block_start_location + kBlockSize
    else block_start_location in
  let s := set_end block_start_location s in
  if 0 <? block_start_location then
    let '(r, f) := sf_Skip block_start_location (file_ s) in
    let s := set_file f s in
    match r with
    | Err e => (false, ReportDrop block_start_location e s)
    | Ok _ => (true, s)
    end
  else (true, s).

(** [header[6]] is a [char]: its sign extension is converted to [unsigned int]. *)
Definition char_to_uint (b : byte) : Z := if bz b <? 128 then bz b else bz b + (2 ^ 32 - 256).

(** The part of [ReadPhysicalRecord] after the buffer is filled.  The result is
    the record type and the new value of [result] ([None]: left as it was). *)
Definition parse_physical (s : Reader) : Z * option bytes * Reader :=
  let header := buffer_ s in
  let a := bz (nth 4 header Byte.x00) in
  let b := bz (nth 5 header Byte.x00) in
  let type := char_to_uint (nth 6 header Byte.x00) in
  let length := Z.lor a (Z.shiftl b 8) in
  if zlen (buffer_ s) <? kHeaderSize + length then
    let drop_size := zlen (buffer_ s) in
    let s := set_buffer [] s in
    if negb (eof_ s) then (kBadRecord, None, ReportCorruption drop_size "bad record length" s)
    else (kEof, None, s)
  else if (type =? rt_z kZeroType) && (length =? 0) then (kBadRecord, None, set_buffer [] s)
  else
    let expected_crc := Unmask (DecodeFixed32 header) in
    let actual_crc := Value 0 (ztake (1 + length) (drop 6 header)) in
    if checksum_ s && negb (actual_crc =? expected_crc) then
      let drop_size := zlen (buffer_ s) in
      (kBadRecord, None, ReportCorruption drop_size "checksum mismatch" (set_buffer [] s))
    else
      let s := set_buffer (zdrop (kHeaderSize + length) (buffer_ s)) s in
      if u64 (end_of_buffer_offset_ s - zlen (buffer_ s) - kHeaderSize - length) <? initial_offset_ s
      then (kBadRecord, Some [], s)
      else (type, Some (ztake length (zdrop kHeaderSize header)), s).

(** The [while (true)] loop runs its body twice at most: after a read either the
    buffer holds a header or [eof_] is set. *)
Fixpoint ReadPhysicalRecord_loop (fuel : nat) (s : Reader) : Z * option bytes * Reader :=
  match fuel with
  | O => (kEof, None, s)
  | S fuel' =>
      if zlen (buffer_ s) <? kHeaderSize then
        if negb (eof_ s) then
          let s := set_buffer [] s in
          let '(r, f) := sf_Read kBlockSize (file_ s) in
          let s := set_file f s in
          match r with
          | Err e => (kEof, None, set_eof (ReportDrop kBlockSize e (set_buffer [] s)))
          | Ok data =>
              let s := set_buffer data s in
              let s := set_end (u64 (end_of_buffer_offset_ s + zlen data)) s in
              let s := if zlen data <? kBlockSize then set_eof s else s in
              ReadPhysicalRecord_loop fuel' s
          end
        else (kEof, None, set_buffer [] s)
      else parse_physical s
  end.

Definition ReadPhysicalRecord (s : Reader) : Z * option bytes * Reader := ReadPhysicalRecord_loop 3 s.

Inductive ReadOutcome :=
  | Record_ (r : bytes)
  | EndOfLog
  | OutOfFuel.

(** The loop of [ReadRecord]; [fragment] keeps its value where
    [ReadPhysicalRecord] does not assign it. *)
Fixpoint ReadRecord_loop (fuel : nat) (s : Reader) (scratch : bytes) (in_fragmented_record : bool)
    (prospective_record_offset : Z) (fragment : bytes) : ReadOutcome * Reader :=
  match fuel with
  | O => (OutOfFuel, s)
  | S fuel' =>
      let '(record_type, result, s) := ReadPhysicalRecord s in
      let fragment := default fragment result in
      let physical_record_offset :=
        u64 (end_of_buffer_offset_ s - zlen (buffer_ s) - kHeaderSize - zlen fragment) in
      if resyncing_ s && (record_type =? rt_z kMiddleType) then
        ReadRecord_loop fuel' s scratch in_fragmented_record prospective_record_offset fragment
      else if resyncing_ s && (record_type =? rt_z kLastType) then
        ReadRecord_loop fuel' (stop_resync s) scratch in_fragmented_record prospective_record_offset fragment
      else
        let s := stop_resync s in
        if record_type =? rt_z kFullType then
          let s := if in_fragmented_record && (0 <? zlen scratch)
                   then ReportCorruption (zlen scratch) "partial record without end(1)" s else s in
          (Record_ fragment, set_last physical_record_offset s)
        else if record_type =? rt_z kFirstType then
          let s := if in_fragmented_record && (0 <? zlen scratch)
                   then ReportCorruption (zlen scratch) "partial record without end(2)" s else s in
          ReadRecord_loop fuel' s fragment true physical_record_offset fragment
        else if record_type =? rt_z kMiddleType then
          if negb in_fragmented_record then
            let s := ReportCorruption (zlen fragment) "missing start of fragmented record(1)" s in
            ReadRecord_loop fuel' s scratch in_fragmented_record prospective_record_offset fragment
          else
            ReadRecord_loop fuel' s (scratch ++ fragment) in_fragmented_record
              prospective_record_offset fragment
        else if record_type =? rt_z kLastType then
          if negb in_fragmented_record then
            let s := ReportCorruption (zlen fragment) "missing start of fragmented record(2)" s in
            ReadRecord_loop fuel' s scratch in_fragmented_record prospective_record_offset fragment
          else (Record_ (scratch ++ fragment), set_last prospective_record_offset s)
        else if record_type =? kEof then (EndOfLog, s)
        else if record_type =? kBadRecord then
          if in_fragmented_record then
            let s := ReportCorruption (zlen scratch) "error in middle of record" s in
            ReadRecord_loop fuel' s [] false prospective_record_offset fragment
          else ReadRecord_loop fuel' s scratch in_fragmented_record prospective_record_offset fragment
        else
          let s := ReportCorruption (zlen fragment + (if in_fragmented_record then zlen scratch else 0))
                     ("unknown record type " ++ text (NumberToString record_type))%string s in
          ReadRecord_loop fuel' s [] false prospective_record_offset fragment
  end.

Definition ReadRecord (fuel : nat) (s : Reader) : ReadOutcome * Reader :=
  let go s := ReadRecord_loop fuel s [] false 0 [] in
  if last_record_offset_ s <? initial_offset_ s then
    let '(ok, s) := SkipToInitialBlock s in
    if ok then go s else (EndOfLog, s)
  else go s.

(** Once there is enough fuel, more changes nothing. *)
Lemma ReadRecord_loop_fuel (fuel fuel' : nat) (s : Reader) (scratch : bytes) (inf : bool) (off : Z) (fragment : bytes) :
  (fuel <= fuel')%nat -> fst (ReadRecord_loop fuel s scratch inf off fragment) <> OutOfFuel -> ReadRecord_loop fuel' s scratch inf off fragment = ReadRecord_loop fuel s scratch inf off fragment.
Proof.
  revert fuel' s scratch inf off fragment. induction fuel as [|fuel IH]; intros fuel' s scratch inf off fragment Hle Hne; [by destruct Hne|]. destruct fuel' as [|fuel']; [lia|]. cbn [ReadRecord_loop] in *.
  destruct (ReadPhysicalRecord s) as [[t r] s1]. repeat match goal with |- context [if ?b then _ else _] => destruct b end; (done || (apply IH; [lia|done])).
Qed.

Lemma ReadRecord_fuel (fuel fuel' : nat) (s : Reader) : (fuel <= fuel')%nat -> fst (ReadRecord fuel s) <> OutOfFuel -> ReadRecord fuel' s = ReadRecord fuel s.
Proof.
  unfold ReadRecord. intros Hle Hne. destruct (_ <? _); [destruct (SkipToInitialBlock s) as [[] s1]|]; [|done|]; by apply ReadRecord_loop_fuel.
Qed.

(** [while (auto record = reader.ReadRecord(scratch))]: what recovery reads. *)
Fixpoint read_all (n fuel : nat) (s : Reader) : option (list bytes) * Reader :=
  match n with
  | O => (None, s)
  | S n' =>
      match ReadRecord fuel s with
      | (Record_ r, s) => let '(rs, s) := read_all n' fuel s in ((fun rs => r :: rs) <$> rs, s)
      | (EndOfLog, s) => (Some [], s)
      | (OutOfFuel, s) => (None, s)
      end
  end.

End ReaderDef.

Arguments Reader F : clear implicits.
Arguments mkReader {F}.
Arguments file_ {F}.
Arguments buffer_ {F}.
Arguments eof_ {F}.
Arguments reported {F}.

(** ** The layout of a log

    The trailer that is filled before a fragment at block offset [o], and where
    the fragment then starts. *)

Definition pad (o : Z) : bytes :=
  if kBlockSize - o <? kHeaderSize then replicate (Z.to_nat (kBlockSize - o)) Byte.x00 else [].
Definition start (o : Z) : Z := if kBlockSize - o <? kHeaderSize then 0 else o.
Definition room (o : Z) : Z := kBlockSize - start o - kHeaderSize.
Definition phys (t : RecordType) (p : bytes) : bytes := record_header t p ++ p.

Fixpoint frags_bytes (o : Z) (l : list (RecordType * bytes)) : bytes :=
  match l with
  | [] => []
  | (t, p) :: l' => pad o ++ phys t p ++ frags_bytes (start o + kHeaderSize + zlen p) l'
  end.

(** [Frags o begin data l o']: from block offset [o], [data] is cut into the
    fragments [l], and the block offset is then [o']. *)
Inductive Frags : Z -> bool -> bytes -> list (RecordType * bytes) -> Z -> Prop :=
  | Frags_end o b data :
      zlen data <= room o ->
      Frags o b data [(fragment_type b true, data)] (start o + kHeaderSize + zlen data)
  | Frags_more o b data l o' :
      room o < zlen data ->
      Frags kBlockSize false (zdrop (room o) data) l o' ->
      Frags o b data ((fragment_type b false, ztake (room o) data) :: l) o'.

(** The bytes of a sequence of records. *)
Inductive Layout : Z -> list bytes -> bytes -> Z -> Prop :=
  | Layout_nil o : Layout o [] [] o
  | Layout_cons o r rs l o1 b o2 :
      Frags o true r l o1 -> Layout o1 rs b o2 -> Layout o (r :: rs) (frags_bytes o l ++ b) o2.

Definition block_ok (o : Z) : Prop := 0 <= o <= kBlockSize.

Lemma start_range (o : Z) : block_ok o -> 0 <= start o <= kBlockSize - kHeaderSize.
Proof. unfold block_ok, start, kBlockSize, kHeaderSize. intros. destruct (Z.ltb_spec (32768 - o) (4 + 2 + 1)); lia. Qed.

Lemma room_range (o : Z) : block_ok o -> 0 <= room o <= kBlockSize - kHeaderSize.
Proof. intros Ho. apply start_range in Ho. unfold room. lia. Qed.

Lemma zlen_pad (o : Z) : block_ok o ->
  zlen (pad o) = if kBlockSize - o <? kHeaderSize then kBlockSize - o else 0.
Proof.
  intros. unfold pad. destruct (_ <? _); [|done]. apply zlen_replicate.
  unfold block_ok in *. lia.
Qed.

Lemma zlen_record_header (t : RecordType) (p : bytes) : zlen (record_header t p) = kHeaderSize.
Proof. done. Qed.

Lemma zlen_phys (t : RecordType) (p : bytes) : zlen (phys t p) = kHeaderSize + zlen p.
Proof. unfold phys. rewrite zlen_app, zlen_record_header. done. Qed.

Lemma Frags_functional (o : Z) (b : bool) (data : bytes) l1 o1 l2 o2 :
  Frags o b data l1 o1 -> Frags o b data l2 o2 -> l1 = l2 /\ o1 = o2.
Proof.
  intros H1. revert l2 o2. induction H1 as [o b data Hr|o b data l o' Hr HF IH]; intros l2 o2 H2;
    inversion H2 as [|? ? ? l' ? ? HF']; subst; try lia; [done|].
  destruct (IH _ _ HF') as [-> ->]. done.
Qed.

Lemma Layout_functional (o : Z) (rs : list bytes) b1 o1 b2 o2 :
  Layout o rs b1 o1 -> Layout o rs b2 o2 -> b1 = b2 /\ o1 = o2.
Proof.
  intros H1. revert b2 o2. induction H1 as [|o r rs l o1' b o2' HF HL IH]; intros b2 o2 H2;
    inversion H2 as [|o' r' rs' l' o1'' b' o2'' HF' HL']; subst; [done|].
  destruct (Frags_functional _ _ _ _ _ _ _ HF HF') as [-> ->].
  destruct (IH _ _ HL') as [-> ->]. done.
Qed.

Lemma Frags_offset (o : Z) (b : bool) (data : bytes) l o' :
  Frags o b data l o' -> block_ok o -> block_ok o'.
Proof.
  induction 1 as [o b data Hr|o b data l o' Hr HF IH]; intros Ho.
  - pose proof (start_range o Ho). pose proof (zlen_nonneg data). unfold room, block_ok, kHeaderSize in *. lia.
  - apply IH. unfold block_ok, kBlockSize. lia.
Qed.

(** ** The writer lays records out *)

Section WriterSpec.
Context {F : Type} `{FL : WritableFileLaws F}.

Lemma switch_block_spec (f : F) (o : Z) :
  block_ok o ->
  exists f', switch_block (mkWriter f o) = (Ok tt, mkWriter f' (start o)) /\
             wf_contents f' = wf_contents f ++ pad o.
Proof.
  intros Ho. unfold switch_block, start, pad. cbn [block_offset_ dest_].
  destruct (Z.ltb_spec (kBlockSize - o) kHeaderSize); [|exists f; rewrite app_nil_r; done].
  destruct (Z.ltb_spec 0 (kBlockSize - o)).
  - destruct (wf_Append_spec (replicate (Z.to_nat (kBlockSize - o)) Byte.x00) f) as (f' & -> & E).
    exists f'. done.
  - exists f. split; [done|]. replace (kBlockSize - o) with 0 by (unfold block_ok in Ho; lia).
    rewrite app_nil_r. done.
Qed.

Lemma EmitPhysicalRecord_spec (f : F) (o : Z) (t : RecordType) (p : bytes) :
  exists f', EmitPhysicalRecord (mkWriter f o) t p = (Ok tt, mkWriter f' (o + (kHeaderSize + zlen p))) /\
             wf_contents f' = wf_contents f ++ phys t p.
Proof.
  unfold EmitPhysicalRecord. cbn [dest_ block_offset_].
  destruct (wf_Append_spec (record_header t p) f) as (f1 & -> & E1). cbn [dest_ block_offset_].
  destruct (wf_Append_spec p f1) as (f2 & -> & E2). cbn [dest_ block_offset_].
  destruct (wf_Flush_spec f2) as (f3 & -> & E3). exists f3. split; [done|].
  rewrite E3, E2, E1. unfold phys. rewrite app_assoc. done.
Qed.

Definition loop_fuel (o : Z) (data : bytes) : nat := 2 * length data + (if room o =? 0 then 2 else 1).

Lemma AddRecord_loop_spec (fuel : nat) (f : F) (o : Z) (data : bytes) (begin : bool) :
  block_ok o -> (loop_fuel o data <= fuel)%nat ->
  exists l o' f', Frags o begin data l o' /\
    AddRecord_loop fuel (mkWriter f o) data begin = (Ok tt, mkWriter f' o') /\
    wf_contents f' = wf_contents f ++ frags_bytes o l.
Proof.
  revert f o data begin. induction fuel as [|fuel IH]; intros f o data begin Ho Hf.
  { unfold loop_fuel in Hf. destruct (room o =? 0); lia. }
  cbn [AddRecord_loop]. destruct (switch_block_spec f o Ho) as (f1 & -> & E1). cbn [block_offset_].
  change (kBlockSize - start o - kHeaderSize) with (room o).
  pose proof (room_range o Ho) as Hr. pose proof (zlen_nonneg data).
  set (n := if zlen data <? room o then zlen data else room o).
  assert (n = Z.min (zlen data) (room o)) as En by (unfold n; destruct (Z.ltb_spec (zlen data) (room o)); lia).
  clearbody n.
  destruct (EmitPhysicalRecord_spec f1 (start o) (fragment_type begin (zlen data =? n)) (ztake n data)) as (f2 & -> & E2).
  rewrite zlen_ztake in * by lia.
  destruct (Z.ltb_spec 0 (zlen data - n)) as [Hmore|Hend].
  - assert (n = room o) as -> by lia.
    assert ((zlen data =? room o) = false) as Ee by (apply Z.eqb_neq; lia). rewrite Ee in E2.
    assert (start o + (kHeaderSize + room o) = kBlockSize) as -> by (unfold room; lia).
    destruct (IH f2 kBlockSize (zdrop (room o) data) false) as (l & o' & f3 & HF & -> & E3).
    + unfold block_ok, kBlockSize. lia.
    + unfold loop_fuel in *. change (room kBlockSize =? 0) with false.
      pose proof (zlen_zdrop (room o) data ltac:(lia)) as Hd. unfold zlen in *.
      destruct (Z.eqb_spec (room o) 0); lia.
    + exists ((fragment_type begin false, ztake (room o) data) :: l), o', f3. split_and!; [|done|].
      * constructor; [lia|done].
      * rewrite E3, E2, E1. cbn [frags_bytes]. rewrite zlen_ztake by lia.
        replace (start o + kHeaderSize + room o) with kBlockSize by (unfold room; lia).
        rewrite <- !app_assoc. done.
  - assert (n = zlen data) as -> by lia. rewrite Z.eqb_refl in E2.
    assert (ztake (zlen data) data = data) as Et by (rewrite <- (app_nil_r data) at 2; apply ztake_app_exact).
    rewrite Et in *. exists [(fragment_type begin true, data)]. eexists _, f2. split_and!.
    + constructor. lia.
    + rewrite Z.add_assoc. done.
    + rewrite E2, E1. cbn [frags_bytes]. rewrite app_nil_r, <- app_assoc. done.
Qed.

Lemma AddRecord_spec (f : F) (o : Z) (data : bytes) :
  block_ok o ->
  exists l o' f', Frags o true data l o' /\ AddRecord (mkWriter f o) data = (Ok tt, mkWriter f' o') /\
                  wf_contents f' = wf_contents f ++ frags_bytes o l.
Proof.
  intros Ho. apply AddRecord_loop_spec; [done|]. unfold loop_fuel. destruct (room o =? 0); lia.
Qed.

(** Writing records one after the other. *)
Fixpoint AddRecords (w : Writer F) (rs : list bytes) : Result unit * Writer F :=
  match rs with
  | [] => (Ok tt, w)
  | r :: rs => match AddRecord w r with (Ok _, w) => AddRecords w rs | e => e end
  end.

Lemma AddRecords_spec (f : F) (o : Z) (rs : list bytes) :
  block_ok o ->
  exists b o' f', Layout o rs b o' /\ block_ok o' /\
    AddRecords (mkWriter f o) rs = (Ok tt, mkWriter f' o') /\ wf_contents f' = wf_contents f ++ b.
Proof.
  revert f o. induction rs as [|r rs IH]; intros f o Ho.
  - exists [], o, f. rewrite app_nil_r. split_and!; try done. constructor.
  - simpl. destruct (AddRecord_spec f o r Ho) as (l & o1 & f1 & HF & -> & E1).
    pose proof (Frags_offset _ _ _ _ _ HF Ho) as Ho1.
    destruct (IH f1 o1 Ho1) as (b & o2 & f2 & HL & Ho2 & -> & E2).
    exists (frags_bytes o l ++ b), o2, f2. split_and!; [econstructor; done|done|done|].
    rewrite E2, E1, app_assoc. done.
Qed.

End WriterSpec.

(** ** The reader follows the layout *)

Lemma type_crc_extend (t : RecordType) (p : bytes) :
  Extend 0 (kTypeCrcs t) p = Value 0 (zb (rt_z t) :: p).
Proof.
  unfold kTypeCrcs, Value. rewrite !(Extend_ref 0) by (lia || (apply Extend_range; lia)).
  rewrite <- crc32c_ref_app. done.
Qed.

Lemma header_crc (t : RecordType) (p rest : bytes) :
  Unmask (DecodeFixed32 (record_header t p ++ rest)) = Value 0 (zb (rt_z t) :: p).
Proof.
  unfold record_header. rewrite <- app_assoc, DecodeFixed32_Encode by apply Mask_range.
  rewrite type_crc_extend. apply Unmask_Mask. unfold Value. apply Extend_range; lia.
Qed.

Lemma header_length (n : Z) :
  0 <= n < 2 ^ 16 -> Z.lor (bz (zb (Z.land n 0xff))) (Z.shiftl (bz (zb (Z.shiftr n 8))) 8) = n.
Proof.
  intros Hn. change 0xff with (Z.ones 8). rewrite Z.land_ones, Z.shiftr_div_pow2 by lia.
  change (2 ^ 8) with 256. pose proof (Z.mod_pos_bound n 256 ltac:(lia)).
  assert (0 <= n / 256 < 256) by (split; [apply Z.div_pos; lia|apply Z.div_lt_upper_bound; lia]).
  rewrite !bz_zb_small by lia. rewrite lor_shiftl_add by (change (2 ^ 8) with 256; lia).
  change (2 ^ 8) with 256. pose proof (Z.div_mod n 256 ltac:(lia)). lia.
Qed.

Lemma header_type (t : RecordType) : char_to_uint (zb (rt_z t)) = rt_z t.
Proof. destruct t; reflexivity. Qed.

Section ReaderSpec.
Context {F : Type} `{FL : SequentialFileLaws F}.
Implicit Types s : Reader F.

(** [s] is about to read the stream [R] at block offset [o], having reported [rep]. *)
Record at_state s (o : Z) (R : bytes) (rep : list (Z * Status)) : Prop := {
  as_offset : block_ok o;
  as_stream : R = buffer_ s ++ sf_rest (file_ s);
  as_block : (eof_ s = false /\ zlen (buffer_ s) = kBlockSize - o) \/
             (eof_ s = true /\ sf_rest (file_ s) = [] /\ zlen (buffer_ s) < kBlockSize - o);
  as_initial : initial_offset_ s = 0;
  as_resync : resyncing_ s = false;
  as_last : 0 <= last_record_offset_ s;
  as_reported : reported s = rep
}.

Lemma at_state_new (file : F) (reporter checksum : bool) :
  at_state (newReader file reporter checksum 0) kBlockSize (sf_rest file) [].
Proof. split; simpl; try done. left. done. Qed.

(** A header and a payload at the front of the buffer. *)
Lemma parse_physical_full s (t : RecordType) (p b' : bytes) :
  t <> kZeroType -> zlen p < 2 ^ 16 -> initial_offset_ s = 0 -> buffer_ s = phys t p ++ b' ->
  parse_physical s = (rt_z t, Some p, set_buffer b' s).
Proof.
  intros Ht Hp Hi Hb. pose proof (zlen_nonneg p). pose proof (zlen_nonneg b').
  unfold parse_physical. rewrite Hb. unfold phys. rewrite <- app_assoc.
  change (nth 4 (record_header t p ++ p ++ b') Byte.x00) with (zb (Z.land (zlen p) 0xff)).
  change (nth 5 (record_header t p ++ p ++ b') Byte.x00) with (zb (Z.shiftr (zlen p) 8)).
  change (nth 6 (record_header t p ++ p ++ b') Byte.x00) with (zb (rt_z t)).
  rewrite header_length, header_type, !zlen_app, zlen_record_header by lia. cbn zeta.
  destruct (Z.ltb_spec (kHeaderSize + (zlen p + zlen b')) (kHeaderSize + zlen p)); [lia|].
  assert ((rt_z t =? rt_z kZeroType) = false) as -> by (destruct t; done).
  change (drop 6 (record_header t p ++ p ++ b')) with (zb (rt_z t) :: p ++ b').
  rewrite header_crc. rewrite (app_comm_cons p).
  replace (1 + zlen p) with (zlen (zb (rt_z t) :: p)) by (rewrite zlen_cons; lia).
  rewrite ztake_app_exact, Z.eqb_refl, andb_false_r.
  assert (zdrop (kHeaderSize + zlen p) (record_header t p ++ p ++ b') = b') as ->.
  { rewrite app_assoc. replace (kHeaderSize + zlen p) with (zlen (record_header t p ++ p)) by (rewrite zlen_app; done).
    apply zdrop_app_exact. }
  change (initial_offset_ (set_buffer b' s)) with (initial_offset_ s). rewrite Hi.
  pose proof (wrap_range 64 (end_of_buffer_offset_ (set_buffer b' s) - zlen (buffer_ (set_buffer b' s)) - kHeaderSize - zlen p) ltac:(lia)).
  destruct (Z.ltb_spec (u64 (end_of_buffer_offset_ (set_buffer b' s) - zlen (buffer_ (set_buffer b' s)) - kHeaderSize - zlen p)) 0); [lia|].
  change (zdrop kHeaderSize (record_header t p ++ p ++ b')) with (p ++ b').
  rewrite ztake_app_exact. done.
Qed.

(** A record that the end of the file cuts off. *)
Lemma parse_physical_cut s (t : RecordType) (p p1 : bytes) :
  zlen p < 2 ^ 16 -> eof_ s = true -> zlen p1 < zlen p -> buffer_ s = record_header t p ++ p1 ->
  parse_physical s = (kEof, None, set_buffer [] s).
Proof.
  intros Hp He Hl Hb. pose proof (zlen_nonneg p1). unfold parse_physical. rewrite Hb.
  change (nth 4 (record_header t p ++ p1) Byte.x00) with (zb (Z.land (zlen p) 0xff)).
  change (nth 5 (record_header t p ++ p1) Byte.x00) with (zb (Z.shiftr (zlen p) 8)).
  rewrite header_length, !zlen_app, zlen_record_header by lia. cbn zeta.
  destruct (Z.ltb_spec (kHeaderSize + zlen p1) (kHeaderSize + zlen p)); [|lia].
  change (eof_ (set_buffer [] s)) with (eof_ s). rewrite He. done.
Qed.

(** Filling the buffer with the next block. *)
Lemma refill s (fuel : nat) (o : Z) (R : bytes) (rep : list (Z * Status)) :
  zlen (buffer_ s) < kHeaderSize -> eof_ s = false -> at_state s o R rep ->
  exists s', ReadPhysicalRecord_loop (S fuel) s = ReadPhysicalRecord_loop fuel s' /\
             at_state s' 0 (sf_rest (file_ s)) rep /\
             buffer_ s' = ztake kBlockSize (sf_rest (file_ s)).
Proof.
  intros Hb He [Ho HR HB Hi Hrs Hlast Hrep]. cbn [ReadPhysicalRecord_loop].
  destruct (Z.ltb_spec (zlen (buffer_ s)) kHeaderSize); [|lia]. rewrite He. cbn [negb].
  destruct (sf_Read_spec kBlockSize (file_ (set_buffer [] s))) as (f' & E & Hf'); [done|].
  change (file_ (set_buffer [] s)) with (file_ s) in *. rewrite E.
  set (data := ztake kBlockSize (sf_rest (file_ s))) in *.
  eexists. split; [reflexivity|].
  assert (zlen data = Z.min kBlockSize (zlen (sf_rest (file_ s)))) as Hd.
  { unfold data. rewrite zlen_ztake_min; done. }
  split; [|destruct (zlen data <? kBlockSize); done].
  destruct (Z.ltb_spec (zlen data) kBlockSize) as [Hs|Hs]; split; simpl; try done.
  - rewrite Hf'. symmetry. apply ztake_zdrop.
  - right. split; [done|]. split; [|lia]. rewrite Hf'. apply zlen_0.
    rewrite zlen_zdrop_max by done. lia.
  - rewrite Hf'. symmetry. apply ztake_zdrop.
  - left. split; [done|]. lia.
Qed.

Lemma at_state_consume s (o : Z) (t : RecordType) (p b' : bytes) (rep : list (Z * Status)) :
  at_state s o (buffer_ s ++ sf_rest (file_ s)) rep -> buffer_ s = phys t p ++ b' ->
  o + kHeaderSize + zlen p <= kBlockSize ->
  at_state (set_buffer b' s) (o + kHeaderSize + zlen p) (b' ++ sf_rest (file_ s)) rep.
Proof.
  intros [Ho HR HB Hi Hrs Hlast Hrep] Hb Hl. pose proof (zlen_nonneg p). pose proof (zlen_nonneg b').
  rewrite Hb, zlen_app, zlen_phys in HB. split; simpl; try done.
  - unfold block_ok, kHeaderSize in *. lia.
  - destruct HB as [[Hx Hy]|(Hx & Hy & Hz)]; [left|right]; split_and!; try done; lia.
Qed.

Lemma app_prefix_long (a b c d : bytes) :
  a ++ b = c ++ d -> zlen c <= zlen a -> exists a', a = c ++ a' /\ d = a' ++ b.
Proof.
  intros E Hl. destruct (List.app_eq_app _ _ _ _ E) as [l [[-> ->]|[-> ->]]]; [eauto|].
  rewrite zlen_app in Hl. pose proof (zlen_nonneg l). assert (l = []) as -> by (apply zlen_0; lia).
  exists []. rewrite !app_nil_r. done.
Qed.

(** A fragment that is complete in the stream is returned. *)
Lemma read_fragment s (o : Z) (t : RecordType) (p R' : bytes) (rep : list (Z * Status)) :
  at_state s o (pad o ++ phys t p ++ R') rep -> t <> kZeroType -> zlen p <= room o ->
  exists s', ReadPhysicalRecord s = (rt_z t, Some p, s') /\
             at_state s' (start o + kHeaderSize + zlen p) R' rep.
Proof.
  intros A Ht Hp. pose proof (as_offset _ _ _ _ A) as Ho. pose proof (room_range o Ho) as Hroom.
  assert (zlen p < 2 ^ 16) as Hp16 by (unfold kBlockSize, kHeaderSize in *; lia).
  pose proof (zlen_nonneg p). pose proof (zlen_nonneg R').
  assert (forall s1 fuel, at_state s1 (start o) (phys t p ++ R') rep ->
    kHeaderSize + zlen p <= zlen (buffer_ s1) ->
    exists s', ReadPhysicalRecord_loop (S fuel) s1 = (rt_z t, Some p, s') /\
               at_state s' (start o + kHeaderSize + zlen p) R' rep) as Hparse.
  { intros s1 fuel A1 Hl. pose proof (as_stream _ _ _ _ A1) as HR.
    destruct (app_prefix_long (buffer_ s1) (sf_rest (file_ s1)) (phys t p) R') as (b' & Eb & ER);
      [done|rewrite zlen_phys; done|].
    exists (set_buffer b' s1). split.
    - cbn [ReadPhysicalRecord_loop]. destruct (Z.ltb_spec (zlen (buffer_ s1)) kHeaderSize); [lia|].
      apply parse_physical_full; [done|done|apply A1|done].
    - rewrite ER. apply (at_state_consume s1 (start o) t); [rewrite <- HR; done|done|unfold room in Hp; lia]. }
  pose proof (as_stream _ _ _ _ A) as HR. unfold ReadPhysicalRecord. unfold room, start, pad in *.
  destruct (Z.ltb_spec (kBlockSize - o) kHeaderSize) as [Hpad|Hpad].
  - destruct (as_block _ _ _ _ A) as [[He Hb]|(He & Hrest & Hb)].
    + destruct (refill s 2 _ _ _ ltac:(lia) He A) as (s1 & -> & A1 & Eb).
      assert (sf_rest (file_ s) = phys t p ++ R') as Er.
      { assert (buffer_ s = replicate (Z.to_nat (kBlockSize - o)) Byte.x00) as Eb'.
        - symmetry in HR. destruct (app_prefix_long _ _ _ _ HR) as (a' & Ea & _).
          { rewrite zlen_replicate; unfold block_ok in Ho; lia. }
          rewrite Ea, zlen_app, zlen_replicate in Hb by (unfold block_ok in Ho; lia).
          assert (a' = []) as -> by (apply zlen_0; unfold block_ok in Ho; lia). rewrite app_nil_r in Ea. done.
        - rewrite Eb' in HR. apply app_inv_head in HR. done. }
      rewrite Er in A1, Eb. apply Hparse; [done|]. rewrite Eb, zlen_ztake_min, zlen_app, zlen_phys by done. unfold kHeaderSize in *. lia.
    + exfalso. apply (f_equal zlen) in HR. rewrite Hrest, app_nil_r, !zlen_app, zlen_phys in HR.
      pose proof (zlen_nonneg (replicate (Z.to_nat (kBlockSize - o)) Byte.x00)). lia.
  - apply Hparse; [done|]. rewrite app_nil_l in HR.
    destruct (as_block _ _ _ _ A) as [[He Hb]|(He & Hrest & Hb)]; [lia|].
    rewrite Hrest, app_nil_r in HR. rewrite <- HR, zlen_app, zlen_phys. lia.
Qed.

(** A stream that ends inside a fragment (or before it) is the end of the log. *)
Lemma read_cut s (o : Z) (t : RecordType) (p R q : bytes) (rep : list (Z * Status)) :
  at_state s o R rep -> zlen p <= room o -> q <> [] -> pad o ++ phys t p = R ++ q ->
  exists s', ReadPhysicalRecord s = (kEof, None, s') /\ reported s' = rep /\ resyncing_ s' = false.
Proof.
  intros A Hp Hq Ecut. pose proof (as_offset _ _ _ _ A) as Ho. pose proof (room_range o Ho) as Hroom.
  assert (zlen p < 2 ^ 16) as Hp16 by (unfold kBlockSize, kHeaderSize in *; lia).
  pose proof (zlen_nonneg p). assert (0 < zlen q) as Hq0.
  { destruct q; [done|]. rewrite zlen_cons. pose proof (zlen_nonneg q). lia. }
  assert (forall s1 fuel R1, at_state s1 (start o) R1 rep -> eof_ s1 = true -> phys t p = R1 ++ q ->
    exists s', ReadPhysicalRecord_loop (S fuel) s1 = (kEof, None, s') /\ reported s' = rep /\
               resyncing_ s' = false) as Hparse.
  { intros s1 fuel R1 A1 He1 E1. destruct (as_block _ _ _ _ A1) as [[? _]|(_ & Hr1 & _)]; [congruence|].
    pose proof (as_stream _ _ _ _ A1) as HR1. rewrite Hr1, app_nil_r in HR1. subst R1.
    cbn [ReadPhysicalRecord_loop]. exists (set_buffer [] s1). split; [|split; apply A1].
    destruct (Z.ltb_spec (zlen (buffer_ s1)) kHeaderSize) as [|Hl]; [rewrite He1; done|].
    unfold phys in E1. symmetry in E1.
    destruct (app_prefix_long _ _ _ _ E1 Hl) as (p1 & Eb & Ep).
    apply (parse_physical_cut s1 t p p1); [done|done| |done].
    rewrite Ep, zlen_app. lia. }
  pose proof (as_stream _ _ _ _ A) as HR. unfold ReadPhysicalRecord. unfold room, start, pad in *.
  destruct (Z.ltb_spec (kBlockSize - o) kHeaderSize) as [Hpad|Hpad].
  - destruct (as_block _ _ _ _ A) as [[He Hb]|(He & Hrest & Hb)].
    + destruct (refill s 2 _ _ _ ltac:(lia) He A) as (s1 & -> & A1 & Eb).
      assert (phys t p = sf_rest (file_ s) ++ q) as Er.
      { rewrite HR, <- app_assoc in Ecut. symmetry in Ecut.
        destruct (app_prefix_long _ _ _ _ Ecut) as (a' & Ea & Ed).
        { rewrite zlen_replicate; unfold block_ok in Ho; lia. }
        rewrite Ea, zlen_app, zlen_replicate in Hb by (unfold block_ok in Ho; lia).
        assert (a' = []) as -> by (apply zlen_0; unfold block_ok in Ho; lia). done. }
      apply (Hparse s1 1%nat _ A1); [|done].
      destruct (as_block _ _ _ _ A1) as [[_ Hfull]|(He1 & _)]; [|done]. exfalso.
      rewrite Eb in Hfull. apply (f_equal zlen) in Er. rewrite zlen_phys, zlen_app in Er.
      rewrite zlen_ztake_min in Hfull by done. unfold kHeaderSize in *. lia.
    + exists (set_buffer [] s). cbn [ReadPhysicalRecord_loop].
      destruct (Z.ltb_spec (zlen (buffer_ s)) kHeaderSize); [|lia]. rewrite He. split; [done|]. split; apply A.
  - rewrite app_nil_l in Ecut. destruct (as_block _ _ _ _ A) as [[He Hb]|(He & Hrest & Hb)].
    + exfalso. apply (f_equal zlen) in Ecut. rewrite zlen_phys, HR, !zlen_app in Ecut.
      pose proof (zlen_nonneg (sf_rest (file_ s))). lia.
    + apply (Hparse s 2%nat R A He Ecut).
Qed.

Lemma stop_resync_id s : resyncing_ s = false -> stop_resync s = s.
Proof. destruct s. simpl. intros ->. done. Qed.

Lemma at_state_last s (o x : Z) (R : bytes) (rep : list (Z * Status)) :
  at_state s o R rep -> 0 <= x -> at_state (set_last x s) o R rep.
Proof. intros [] Hx. split; done. Qed.

(** One iteration of [ReadRecord] on a fragment. *)
Lemma ReadRecord_step s s' (fuel : nat) (scratch fragment p : bytes) (infrag : bool) (off : Z) (t : RecordType) :
  ReadPhysicalRecord s = (rt_z t, Some p, s') -> resyncing_ s' = false ->
  exists off', 0 <= off' /\ ReadRecord_loop (S fuel) s scratch infrag off fragment =
  match t with
  | kFullType => (Record_ p, set_last off' (if infrag && (0 <? zlen scratch)
                    then ReportCorruption (zlen scratch) "partial record without end(1)" s' else s'))
  | kFirstType => ReadRecord_loop fuel (if infrag && (0 <? zlen scratch)
                    then ReportCorruption (zlen scratch) "partial record without end(2)" s' else s') p true off' p
  | kMiddleType => if infrag then ReadRecord_loop fuel s' (scratch ++ p) infrag off p
                   else ReadRecord_loop fuel (ReportCorruption (zlen p) "missing start of fragmented record(1)" s')
                          scratch infrag off p
  | kLastType => if infrag then (Record_ (scratch ++ p), set_last off s')
                 else ReadRecord_loop fuel (ReportCorruption (zlen p) "missing start of fragmented record(2)" s')
                          scratch infrag off p
  | kZeroType => ReadRecord_loop (S fuel) s scratch infrag off fragment
  end.
Proof.
  intros E Hr. exists (u64 (end_of_buffer_offset_ s' - zlen (buffer_ s') - kHeaderSize - zlen p)).
  split; [apply wrap_range; lia|].
  destruct t; [reflexivity|..]; cbn [ReadRecord_loop]; rewrite E, Hr, (stop_resync_id s') by done;
    cbn [andb default rt_z Z.eqb Pos.eqb id]; try reflexivity; destruct infrag; reflexivity.
Qed.

Lemma ReadRecord_eof s s' (fuel : nat) (scratch fragment : bytes) (infrag : bool) (off : Z) :
  ReadPhysicalRecord s = (kEof, None, s') -> resyncing_ s' = false ->
  ReadRecord_loop (S fuel) s scratch infrag off fragment = (EndOfLog, s').
Proof.
  intros E Hr. cbn [ReadRecord_loop]. rewrite E, Hr, (stop_resync_id s') by done. reflexivity.
Qed.

(** The next fragment of the layout is complete in the stream, or cut off. *)
Lemma read_next s (o : Z) (t : RecordType) (p X R q : bytes) (rep : list (Z * Status)) :
  at_state s o R rep -> t <> kZeroType -> zlen p <= room o -> pad o ++ phys t p ++ X = R ++ q ->
  (exists k s', R = pad o ++ phys t p ++ k /\ X = k ++ q /\
     ReadPhysicalRecord s = (rt_z t, Some p, s') /\ at_state s' (start o + kHeaderSize + zlen p) k rep) \/
  (zlen R < zlen (pad o ++ phys t p) /\
   exists s', ReadPhysicalRecord s = (kEof, None, s') /\ reported s' = rep /\ resyncing_ s' = false).
Proof.
  intros A Ht Hp ER. rewrite app_assoc in ER.
  assert (forall k, R = pad o ++ phys t p ++ k -> X = k ++ q ->
    exists k s', R = pad o ++ phys t p ++ k /\ X = k ++ q /\
      ReadPhysicalRecord s = (rt_z t, Some p, s') /\ at_state s' (start o + kHeaderSize + zlen p) k rep) as Hfull.
  { intros k E Eq. rewrite E in A. destruct (read_fragment s o t p k rep A Ht Hp) as (s' & E' & A').
    exists k, s'. done. }
  destruct (List.app_eq_app _ _ _ _ ER) as [k [[E Eq]|[E Eq]]].
  - destruct (decide (k = [])) as [->|Hk].
    + left. apply (Hfull []); [|done]. rewrite app_nil_r in E. rewrite app_nil_r. done.
    + right. split; [|eapply read_cut; done]. rewrite E, zlen_app. destruct k; [done|].
      rewrite zlen_cons. pose proof (zlen_nonneg k). lia.
  - left. apply (Hfull k); [|done]. rewrite E, app_assoc. done.
Qed.

Lemma length_phys (t : RecordType) (p k : bytes) (o : Z) :
  (length k < length (pad o ++ phys t p ++ k))%nat.
Proof. rewrite !length_app. unfold phys. rewrite length_app. simpl. lia. Qed.

(** Reading one record whose bytes may be cut off by the end of the stream. *)
Lemma ReadRecord_frags (o : Z) (b : bool) (data : bytes) l (o' : Z) :
  Frags o b data l o' -> forall s (R tail q : bytes) rep (fuel : nat) (scratch fragment : bytes) (off : Z),
  at_state s o R rep -> frags_bytes o l ++ tail = R ++ q ->
  (b = true -> scratch = []) -> 0 <= off -> (length R < fuel)%nat ->
  (exists s' R', R = frags_bytes o l ++ R' /\ tail = R' ++ q /\
     ReadRecord_loop fuel s scratch (negb b) off fragment = (Record_ (scratch ++ data), s') /\
     at_state s' o' R' rep) \/
  (zlen R < zlen (frags_bytes o l) /\
   exists s', ReadRecord_loop fuel s scratch (negb b) off fragment = (EndOfLog, s') /\ reported s' = rep).
Proof.
  induction 1 as [o b data Hr|o b data l o' Hr HF IH];
    intros s R tail q rep fuel scratch fragment off A ER Hsc Hoff Hfuel; pose proof (as_offset _ _ _ _ A) as Ho;
    pose proof (room_range o Ho) as Hroom; (destruct fuel as [|fuel]; [lia|]); cbn [frags_bytes] in *.
  - set (t := fragment_type b true) in *. assert (t <> kZeroType) as Ht by (unfold t; destruct b; done).
    rewrite app_nil_r in *. rewrite <- app_assoc in ER.
    destruct (read_next s o t data tail R q rep A Ht Hr ER) as [(k & s' & E & Eq & E' & A')|(Hl & s' & E' & Hrep & Hrs)].
    + left. destruct (ReadRecord_step s s' fuel scratch fragment data (negb b) off t E' (as_resync _ _ _ _ A')) as (off' & Hoff' & ->).
      unfold t. destruct b; cbn [negb andb fragment_type].
      * exists (set_last off' s'), k. rewrite <- app_assoc, Hsc by done. split_and!; try done. apply at_state_last; done.
      * exists (set_last off s'), k. rewrite <- app_assoc. split_and!; try done. apply at_state_last; done.
    + right. split; [done|]. exists s'. split; [apply ReadRecord_eof; done|done].
  - set (t := fragment_type b false) in *. set (p := ztake (room o) data) in *.
    assert (t <> kZeroType) as Ht by (unfold t; destruct b; done).
    assert (zlen p = room o) as Hp by (unfold p; apply zlen_ztake; lia).
    replace (start o + kHeaderSize + zlen p) with kBlockSize in * by (rewrite Hp; unfold room; lia).
    rewrite <- !app_assoc in ER.
    destruct (read_next s o t p _ R q rep A Ht ltac:(lia) ER) as [(k & s' & E & Eq & E' & A')|(Hl & s' & E' & Hrep & Hrs)].
    + replace (start o + kHeaderSize + zlen p) with kBlockSize in A' by (rewrite Hp; unfold room; lia).
      destruct (ReadRecord_step s s' fuel scratch fragment p (negb b) off t E' (as_resync _ _ _ _ A')) as (off' & Hoff' & Estep).
      assert (exists off'', 0 <= off'' /\ ReadRecord_loop (S fuel) s scratch (negb b) off fragment
              = ReadRecord_loop fuel s' (scratch ++ p) true off'' p) as (off'' & Hoff'' & ->).
      { unfold t in Estep. rewrite Estep. destruct b; simpl; [rewrite Hsc by done|]; eauto. }
      pose proof (length_phys t p k o) as Hlen. rewrite <- E in Hlen.
      destruct (IH s' k tail q rep fuel (scratch ++ p) p off'' A' Eq) as [(s2 & R2 & ER2 & Et & Eloop & A2)|[Hl H2]];
        [done|done|lia|left|right].
      * exists s2, R2. split; [rewrite E, ER2, <- !app_assoc; done|]. split; [done|].
        rewrite <- app_assoc in Eloop. unfold p in Eloop. rewrite ztake_zdrop in Eloop. done.
      * split; [rewrite E, !zlen_app in *; lia|done].
    + right. split; [rewrite app_assoc, zlen_app; pose proof (zlen_nonneg (frags_bytes kBlockSize l)); lia|].
      exists s'. split; [apply ReadRecord_eof; done|done].
Qed.

Lemma ReadRecord_start s (o : Z) (R : bytes) rep (fuel : nat) :
  at_state s o R rep -> ReadRecord fuel s = ReadRecord_loop fuel s [] false 0 [].
Proof.
  intros A. unfold ReadRecord. rewrite (as_initial _ _ _ _ A).
  pose proof (as_last _ _ _ _ A). destruct (Z.ltb_spec (last_record_offset_ s) 0); [lia|done].
Qed.

(** The end of the stream ends the log. *)
Lemma ReadRecord_end s (o : Z) rep (fuel : nat) :
  at_state s o [] rep -> (0 < fuel)%nat ->
  exists s', ReadRecord fuel s = (EndOfLog, s') /\ reported s' = rep.
Proof.
  intros A Hf. rewrite (ReadRecord_start s o [] rep) by done. destruct fuel as [|fuel]; [lia|].
  pose proof (room_range o (as_offset _ _ _ _ A)).
  destruct (read_cut s o kFullType [] [] (pad o ++ phys kFullType []) rep A) as (s' & E & Hrep & Hrs).
  - rewrite zlen_nil. lia.
  - destruct (pad o); done.
  - done.
  - exists s'. split; [apply ReadRecord_eof; done|done].
Qed.

Lemma Frags_bytes_length (o : Z) (b : bool) (data : bytes) l (o' : Z) :
  Frags o b data l o' -> (0 < length (frags_bytes o l))%nat.
Proof.
  intros HF. destruct HF; cbn [frags_bytes]; rewrite !length_app; unfold phys; rewrite length_app; simpl; lia.
Qed.

(** The whole log, possibly cut off: the complete records, and nothing else. *)
Lemma read_all_layout (rs : list bytes) : forall (o : Z) (b : bytes) (o' : Z) s (R q : bytes) rep (n fuel : nat),
  Layout o rs b o' -> at_state s o R rep -> b = R ++ q -> (length R < n)%nat -> (length R < fuel)%nat ->
  exists k s', (k <= length rs)%nat /\ read_all n fuel s = (Some (take k rs), s') /\ reported s' = rep /\
    (forall b1 o1, Layout o (take k rs) b1 o1 -> zlen b1 <= zlen R) /\
    ((k < length rs)%nat -> forall b2 o2, Layout o (take (S k) rs) b2 o2 -> zlen R < zlen b2).
Proof.
  induction rs as [|r rs IH]; intros o b o' s R q rep n fuel HL A EB Hn Hfuel;
    (destruct n as [|n]; [simpl in Hn; lia|]); cbn [read_all];
    inversion HL as [|o0 r0 rs0 l o1 b' o2 HF HL']; subst.
  - assert (R = []) as -> by (destruct R; done).
    destruct (ReadRecord_end s o' rep fuel A ltac:(lia)) as (s' & -> & Hrep).
    exists 0%nat, s'. split_and!; try done; [|simpl; lia].
    intros b1 o1 HL1. inversion HL1. done.
  - rewrite (ReadRecord_start s o R rep) by done.
    destruct (ReadRecord_frags _ _ _ _ _ HF s R b' q rep fuel [] [] 0 A) as
      [(s1 & R1 & ER & Eb & E & A1)|(Hl & s1 & E & Hrep)]; [done|done|done|lia|..]; cbn [negb] in E; rewrite E.
    + destruct (IH o1 b' o' s1 R1 q rep n fuel HL' A1 Eb) as (k & s2 & Hk & -> & Hrep & Hlow & Hhigh).
      { pose proof (Frags_bytes_length _ _ _ _ _ HF). rewrite ER, length_app in Hn. lia. }
      { rewrite ER, length_app in Hfuel. lia. }
      exists (S k), s2. simpl. split_and!; [lia|done|done|..].
      * intros b1 o2 HL1. inversion HL1 as [|? ? ? l1 ? b1' ? HF1 HL1']; subst.
        destruct (Frags_functional _ _ _ _ _ _ _ HF HF1) as [<- <-].
        rewrite !zlen_app. apply Hlow in HL1'. lia.
      * intros Hk' b2 o2 HL2. inversion HL2 as [|? ? ? l2 ? b2' ? HF2 HL2']; subst.
        destruct (Frags_functional _ _ _ _ _ _ _ HF HF2) as [<- <-].
        rewrite !zlen_app. apply Hhigh in HL2'; lia.
    + exists 0%nat, s1. simpl. split_and!; try done; [lia|..].
      * intros b1 o2 HL1. inversion HL1; subst. apply zlen_nonneg.
      * intros _ b2 o2 HL2. inversion HL2 as [|? ? ? l2 ? b2' ? HF2 HL2']; subst.
        destruct (Frags_functional _ _ _ _ _ _ _ HF HF2) as [<- <-].
        rewrite zlen_app. pose proof (zlen_nonneg b2'). lia.
Qed.

End ReaderSpec.

(** ** Starting, continuing and reopening a log *)

Lemma Frags_start (o1 o2 : Z) (b : bool) (data : bytes) l (o' : Z) :
  pad o1 = pad o2 -> start o1 = start o2 -> Frags o1 b data l o' ->
  Frags o2 b data l o' /\ frags_bytes o1 l = frags_bytes o2 l.
Proof.
  intros Hp Hs HF. assert (room o1 = room o2) as Hr by (unfold room; rewrite Hs; done).
  destruct HF as [o b data H|o b data l o' H HF]; cbn [frags_bytes]; rewrite Hp, Hs.
  - split; [constructor; lia|done].
  - split; [|done]. rewrite Hr in *. constructor; done.
Qed.

Lemma Layout_start (o1 o2 : Z) (rs : list bytes) (b : bytes) (o' : Z) :
  pad o1 = pad o2 -> start o1 = start o2 -> Layout o1 rs b o' -> exists o'', Layout o2 rs b o''.
Proof.
  intros Hp Hs HL. destruct HL as [|o r rs l o1' b o2' HF HL]; [eexists; constructor|].
  destruct (Frags_start _ _ _ _ _ _ Hp Hs HF) as [HF' ->]. eexists. econstructor; done.
Qed.

Lemma Layout_app (o : Z) (rs1 rs2 : list bytes) (b1 b2 : bytes) (o1 o2 : Z) :
  Layout o rs1 b1 o1 -> Layout o1 rs2 b2 o2 -> Layout o (rs1 ++ rs2) (b1 ++ b2) o2.
Proof.
  intros HL. revert b2 o2. induction HL as [|o r rs l o1 b o2 HF HL IH]; intros b2 o3 H2; [done|].
  simpl. rewrite <- app_assoc. econstructor; [done|]. apply IH. done.
Qed.

(** The first records of a layout are a prefix of it. *)
Lemma Layout_take (k : nat) (o : Z) (rs : list bytes) (b : bytes) (o' : Z) :
  Layout o rs b o' -> exists bk ok q, Layout o (take k rs) bk ok /\ b = bk ++ q.
Proof.
  intros HL. revert k. induction HL as [o|o r rs l o1 b o2 HF HL IH]; intros k.
  - exists [], o, []. rewrite take_nil. split; [constructor|done].
  - destruct k as [|k]; [exists [], o, (frags_bytes o l ++ b); split; [constructor|done]|].
    destruct (IH k) as (bk & ok & q & HLk & ->). exists (frags_bytes o l ++ bk), ok, q.
    split; [econstructor; done|]. rewrite <- app_assoc. done.
Qed.

(** The block offset is the length of the file modulo the block size. *)
Lemma Frags_length (o : Z) (b : bool) (data : bytes) l (o' : Z) :
  Frags o b data l o' -> block_ok o -> (o + zlen (frags_bytes o l)) mod kBlockSize = o' mod kBlockSize.
Proof.
  assert (forall (o : Z) (p : bytes) (X : Z), block_ok o ->
    (o + (zlen (pad o) + (kHeaderSize + zlen p + X))) mod kBlockSize
    = (start o + kHeaderSize + zlen p + X) mod kBlockSize) as Hstart.
  { clear. intros o p X Ho. rewrite zlen_pad by done. unfold start.
    destruct (kBlockSize - o <? kHeaderSize); [|f_equal; lia].
    replace (o + _) with (0 + kHeaderSize + zlen p + X + 1 * kBlockSize) by lia. apply Z.mod_add. done. }
  induction 1 as [o b data Hr|o b data l o' Hr HF IH]; intros Ho; cbn [frags_bytes];
    rewrite !zlen_app, zlen_phys, Hstart by done.
  - rewrite zlen_nil. f_equal. lia.
  - pose proof (room_range o Ho). rewrite zlen_ztake by lia. rewrite <- IH by (unfold block_ok, kBlockSize; lia).
    f_equal.
    replace (start o + kHeaderSize + room o) with kBlockSize by (unfold room; lia). done.
Qed.

Lemma Layout_length (o : Z) (rs : list bytes) (b : bytes) (o' : Z) :
  Layout o rs b o' -> block_ok o -> (o + zlen b) mod kBlockSize = o' mod kBlockSize.
Proof.
  induction 1 as [o|o r rs l o1 b o2 HF HL IH]; intros Ho; [rewrite zlen_nil; f_equal; lia|].
  rewrite zlen_app, Z.add_assoc, <- Z.add_mod_idemp_l, (Frags_length _ _ _ _ _ HF Ho), Z.add_mod_idemp_l by done.
  apply IH. eapply Frags_offset; done.
Qed.

Lemma same_block (o : Z) : block_ok o ->
  pad (o mod kBlockSize) = pad o /\ start (o mod kBlockSize) = start o.
Proof.
  intros Ho. destruct (Z.eq_dec o kBlockSize) as [->|]; [split; reflexivity|].
  rewrite Z.mod_small by (unfold block_ok in Ho; lia). done.
Qed.

(** ** Termination on any input

    Whatever the file holds, every record read consumes bytes of it. *)

Section ReaderTotal.
Context {F : Type} `{FL : SequentialFileLaws F}.
Implicit Types s : Reader F.

Definition unread s : nat := length (buffer_ s) + length (sf_rest (file_ s)).

Lemma unread_report (n : Z) (reason : Status) s : unread (ReportDrop n reason s) = unread s.
Proof. unfold ReportDrop. destruct (_ && _); done. Qed.

Lemma initial_report (n : Z) (reason : Status) s : initial_offset_ (ReportDrop n reason s) = initial_offset_ s.
Proof. unfold ReportDrop. destruct (_ && _); done. Qed.

Lemma parse_physical_initial s : initial_offset_ (snd (parse_physical s)) = initial_offset_ s.
Proof.
  unfold parse_physical, ReportCorruption. cbn zeta.
  repeat (destruct (_ <? _) || destruct (_ && _) || destruct (negb _)); simpl; rewrite ?initial_report; done.
Qed.

Lemma parse_physical_unread s :
  kHeaderSize <= zlen (buffer_ s) -> (unread (snd (parse_physical s)) < unread s)%nat.
Proof.
  intros Hl. assert (0 < length (buffer_ s))%nat as H0 by (unfold zlen, kHeaderSize in Hl; lia).
  unfold parse_physical. cbn zeta. set (n := Z.lor _ _). assert (0 <= n) as Hn.
  { apply Z.lor_nonneg. split; [apply bz_range|]. apply Z.shiftl_nonneg, bz_range. }
  assert (forall s', file_ s' = file_ s -> buffer_ s' = [] -> (unread s' < unread s)%nat) as Hclear.
  { intros s' E1 E2. unfold unread. rewrite E1, E2. simpl. lia. }
  destruct (_ <? _).
  { destruct (negb _); simpl; unfold ReportCorruption; rewrite ?unread_report; apply Hclear; done. }
  destruct (_ && _); [apply Hclear; done|].
  destruct (_ && _); [simpl; unfold ReportCorruption; rewrite unread_report; apply Hclear; done|].
  assert (unread (set_buffer (zdrop (kHeaderSize + n) (buffer_ s)) s) < unread s)%nat as Hd.
  { unfold unread. simpl. unfold zdrop. rewrite length_drop. unfold kHeaderSize. lia. }
  destruct (_ <? _); exact Hd.
Qed.

Lemma ReadPhysicalRecord_loop_unread (fuel : nat) s :
  let '(t, _, s') := ReadPhysicalRecord_loop fuel s in
  (unread s' <= unread s)%nat /\ (t <> kEof -> (unread s' < unread s)%nat) /\
  initial_offset_ s' = initial_offset_ s.
Proof.
  revert s. induction fuel as [|fuel IH]; intros s; [done|]. cbn [ReadPhysicalRecord_loop].
  destruct (Z.ltb_spec (zlen (buffer_ s)) kHeaderSize) as [Hl|Hl].
  - destruct (negb (eof_ s)); [|unfold unread; simpl; split; [lia|done]].
    destruct (sf_Read_spec kBlockSize (file_ (set_buffer [] s))) as (f' & E & Hf'); [done|]. rewrite E.
    set (s1 := if _ <? _ then _ else _).
    assert (unread s1 <= unread s)%nat as H1.
    { change (file_ (set_buffer [] s)) with (file_ s) in *.
      assert (unread s1 = length (sf_rest (file_ s))) as ->; [|unfold unread; lia].
      rewrite <- (ztake_zdrop kBlockSize (sf_rest (file_ s))) at 1. rewrite length_app, <- Hf'.
      unfold s1. destruct (_ <? _); done. }
    specialize (IH s1). destruct (ReadPhysicalRecord_loop fuel s1) as [[t res] s']. destruct IH as (H2 & H3 & H4).
    split_and!; [lia|intros Ht; specialize (H3 Ht); lia|]. rewrite H4. unfold s1. destruct (_ <? _); done.
  - pose proof (parse_physical_unread s Hl) as Hp. pose proof (parse_physical_initial s) as Hi.
    destruct (parse_physical s) as [[t res] s']. simpl in Hp, Hi. split_and!; [lia|done|done].
Qed.

Lemma ReadRecord_loop_total (fuel : nat) s (scratch : bytes) (infrag : bool) (off : Z) (fragment : bytes) :
  (unread s < fuel)%nat ->
  let '(r, s') := ReadRecord_loop fuel s scratch infrag off fragment in
  match r with
  | Record_ _ => (unread s' < unread s)%nat /\ initial_offset_ s' = initial_offset_ s
  | EndOfLog => True
  | OutOfFuel => False
  end.
Proof.
  revert s scratch infrag off fragment. induction fuel as [|fuel IH]; intros s scratch infrag off fragment Hf; [lia|].
  cbn [ReadRecord_loop]. pose proof (ReadPhysicalRecord_loop_unread 3 s) as Hp.
  unfold ReadPhysicalRecord. destruct (ReadPhysicalRecord_loop 3 s) as [[t res] s1]. destruct Hp as (Hle & Hlt & Hinit).
  assert (forall s2 sc inf o fr, unread s2 = unread s1 -> initial_offset_ s2 = initial_offset_ s1 -> t <> kEof ->
    let '(r, s') := ReadRecord_loop fuel s2 sc inf o fr in
    match r with Record_ _ => (unread s' < unread s)%nat /\ initial_offset_ s' = initial_offset_ s | EndOfLog => True | OutOfFuel => False end) as Hgo.
  { intros s2 sc inf o fr E Ei Ht. specialize (Hlt Ht). specialize (IH s2 sc inf o fr ltac:(lia)).
    destruct (ReadRecord_loop fuel s2 sc inf o fr) as [[] s']; [split; [lia|destruct IH; congruence]|done|done]. }
  assert (forall n m, unread (ReportCorruption n m (stop_resync s1)) = unread s1) as Hrep.
  { intros n m. unfold ReportCorruption. rewrite unread_report. done. }
  assert (forall n m, initial_offset_ (ReportCorruption n m (stop_resync s1)) = initial_offset_ s1) as Hrepi.
  { intros n m. unfold ReportCorruption. rewrite initial_report. done. }
  cbv zeta.
  repeat match goal with
  | |- context [if ?b && (?x =? ?y) then ReadRecord_loop _ _ _ _ _ _ else _] =>
      destruct b; cbn [andb]; [destruct (Z.eqb_spec x y); [apply Hgo; [done|done|subst; done]|]|]
  | |- context [if ?x =? ?y then _ else _] => destruct (Z.eqb_spec x y)
  | |- context [if negb ?b then _ else _] => destruct b; cbn [negb]
  | |- context [if ?b && (?x <? ?y) then _ else _] => destruct b; cbn [andb]; [destruct (x <? y)|]
  | |- context [if ?b then ReadRecord_loop _ _ _ _ _ _ else _] => destruct b
  end; try done;
  try (apply Hgo; [rewrite ?Hrep; done|rewrite ?Hrepi; done|subst; done]);
  (change (unread (set_last ?o ?x)) with (unread x); change (initial_offset_ (set_last ?o ?x)) with (initial_offset_ x);
   rewrite ?Hrep, ?Hrepi; split; [apply Hlt; subst; done|done]).
Qed.

Lemma ReadRecord_total (fuel : nat) s :
  initial_offset_ s = 0 -> (unread s < fuel)%nat ->
  let '(r, s') := ReadRecord fuel s in
  match r with
  | Record_ _ => (unread s' < unread s)%nat /\ initial_offset_ s' = initial_offset_ s
  | EndOfLog => True
  | OutOfFuel => False
  end.
Proof.
  intros Hi Hf. unfold ReadRecord. destruct (_ <? _); [|apply ReadRecord_loop_total; done].
  unfold SkipToInitialBlock. rewrite Hi.
  pose proof (ReadRecord_loop_total fuel (set_end 0 s) [] false 0 [] Hf) as Hr.
  change (initial_offset_ (set_end 0 s)) with (initial_offset_ s) in Hr. rewrite Hi in Hr. exact Hr.
Qed.

Lemma read_all_total (n fuel : nat) s :
  initial_offset_ s = 0 -> (unread s < n)%nat -> (unread s < fuel)%nat ->
  exists rs, fst (read_all n fuel s) = Some rs.
Proof.
  revert s. induction n as [|n IH]; intros s Hi Hn Hf; [lia|]. cbn [read_all].
  pose proof (ReadRecord_total fuel s Hi Hf) as Hr. destruct (ReadRecord fuel s) as [[r| |] s']; [|eauto|done].
  destruct Hr as [Hlt Hi']. destruct (IH s') as [rs E]; [congruence|lia|lia|].
  destruct (read_all n fuel s') as [o s'']. simpl in E. subst o. simpl. eauto.
Qed.

End ReaderTotal.

(** ** Properties *)

(** Reading all records of a file, with fuel from its size. *)
Definition recover {F} `{SequentialFile F} (size : nat) (file : F) (reporter checksum : bool)
  : option (list bytes) * Reader F :=
  read_all (S size) (S size) (newReader file reporter checksum 0).

(** What a fresh log file holds after the records [rs] were added. *)
Definition written {W} `{WritableFileLaws W} (dest : W) (rs : list bytes) : bytes :=
  wf_contents (dest_ (snd (AddRecords (newWriter dest) rs))).

Lemma written_layout {W} `{WritableFileLaws W} (dest : W) (rs : list bytes) :
  wf_contents dest = [] ->
  exists o o', Layout 0 rs (written dest rs) o /\ Layout kBlockSize rs (written dest rs) o' /\
               fst (AddRecords (newWriter dest) rs) = Ok tt.
Proof.
  intros Hd. destruct (AddRecords_spec dest 0 rs) as (b & o & f & HL & _ & E & Ec);
    [unfold block_ok, kBlockSize; lia|].
  unfold written, newWriter. rewrite E. simpl. rewrite Ec, Hd. simpl.
  destruct (Layout_start 0 kBlockSize rs b o eq_refl eq_refl HL) as [o' HL'].
  exists o, o'. done.
Qed.

(** C4. The log survives a crash: when the file holds any prefix of what the
    writer wrote (the rest was lost), recovery returns exactly the records that
    are complete in that prefix, in order, reports no corruption, and does not
    run forever; a record is returned iff its last byte is in the prefix. *)
Theorem log_crash_recovery (W F : Type) `(WritableFileLaws W) `(SequentialFileLaws F)
    (dest : W) (file : F) (rs : list bytes) (n : Z) (reporter checksum : bool) :
  wf_contents dest = [] -> 0 <= n -> sf_rest file = ztake n (written dest rs) ->
  fst (AddRecords (newWriter dest) rs) = Ok tt /\
  exists k s, (k <= length rs)%nat /\
    recover (length (sf_rest file)) file reporter checksum = (Some (take k rs), s) /\
    reported s = [] /\
    zlen (written dest (take k rs)) <= zlen (sf_rest file) /\
    ((k < length rs)%nat -> zlen (sf_rest file) < zlen (written dest (take (S k) rs))).
Proof.
  intros Hd Hn Hf. destruct (written_layout dest rs Hd) as (o & o' & _ & HL & E). split; [done|].
  destruct (read_all_layout rs kBlockSize (written dest rs) o' (newReader file reporter checksum 0)
              (sf_rest file) (zdrop n (written dest rs)) [] (S (length (sf_rest file)))
              (S (length (sf_rest file))) HL) as (k & s & Hk & Er & Hrep & Hlow & Hhigh).
  - apply at_state_new.
  - rewrite Hf. symmetry. apply ztake_zdrop.
  - lia.
  - lia.
  - exists k, s. split_and!; [done|exact Er|done|..].
    + destruct (written_layout dest (take k rs) Hd) as (? & ok & _ & HLk & _). eapply Hlow; done.
    + intros Hk'. destruct (written_layout dest (take (S k) rs) Hd) as (? & ok & _ & HLk & _). eapply Hhigh; done.
Qed.

Lemma log_crash_recovery_witness :
  exists k s, recover 20 (mkMemFile (ztake 20 (written (mkMemFile []) [[Byte.x61; Byte.x62]; [Byte.x63]; []]))) true true
  = (Some (take k [[Byte.x61; Byte.x62]; [Byte.x63]; []]), s) /\ reported s = [].
Proof.
  destruct (log_crash_recovery MemFile MemFile _ _ (mkMemFile [])
    (mkMemFile (ztake 20 (written (mkMemFile []) [[Byte.x61; Byte.x62]; [Byte.x63]; []])))
    [[Byte.x61; Byte.x62]; [Byte.x63]; []] 20 true true) as (_ & k & s & _ & E & Hr & _).
  - reflexivity.
  - lia.
  - reflexivity.
  - exists k, s. split; [|exact Hr]. etransitivity; [|exact E]. f_equal; vm_compute; reflexivity.
Defined.

(** The log round-trips, also across a restart: records written, then more
    records written by a writer reopened at the length of the file, are all read
    back in order, byte for byte, whatever their sizes, and nothing is reported. *)
Theorem log_roundtrip (W F : Type) `(WritableFileLaws W) `(SequentialFileLaws F)
    (dest : W) (file : F) (rs1 rs2 : list bytes) (reporter checksum : bool) :
  wf_contents dest = [] ->
  let r1 := AddRecords (newWriter dest) rs1 in
  let w1 := snd r1 in
  let r2 := AddRecords (newWriterAt (dest_ w1) (zlen (wf_contents (dest_ w1)))) rs2 in
  sf_rest file = wf_contents (dest_ (snd r2)) ->
  fst r1 = Ok tt /\ fst r2 = Ok tt /\
  exists s, recover (length (sf_rest file)) file reporter checksum = (Some (rs1 ++ rs2), s) /\ reported s = [].
Proof.
  intros Hd. destruct (AddRecords_spec dest 0 rs1) as (b1 & o1 & f1 & HL1 & Ho1 & E1 & Ec1);
    [unfold block_ok, kBlockSize; lia|].
  unfold newWriter. rewrite E1. cbn [fst snd dest_]. cbn zeta. rewrite Ec1, Hd. simpl app.
  assert (zlen b1 mod kBlockSize = o1 mod kBlockSize) as Em.
  { rewrite <- (Layout_length _ _ _ _ HL1) by (unfold block_ok, kBlockSize; lia). done. }
  unfold newWriterAt. rewrite Em.
  pose proof (Z.mod_pos_bound o1 kBlockSize ltac:(done)) as Hb.
  destruct (AddRecords_spec f1 (o1 mod kBlockSize) rs2) as (b2 & o2 & f2 & HL2 & _ & E2 & Ec2);
    [unfold block_ok; lia|].
  rewrite E2. cbn [fst snd dest_]. rewrite Ec2, Ec1, Hd. simpl app. intros Hf. split; [done|]. split; [done|].
  destruct (same_block o1 Ho1) as [Hp Hs].
  destruct (Layout_start _ _ _ _ _ Hp Hs HL2) as [o2' HL2'].
  pose proof (Layout_app _ _ _ _ _ _ _ HL1 HL2') as HL.
  destruct (Layout_start 0 kBlockSize _ _ _ eq_refl eq_refl HL) as [o' HL'].
  destruct (read_all_layout (rs1 ++ rs2) kBlockSize (b1 ++ b2) o' (newReader file reporter checksum 0)
              (sf_rest file) [] [] (S (length (sf_rest file))) (S (length (sf_rest file))) HL')
    as (k & s & Hk & Er & Hrep & _ & Hhigh).
  - apply at_state_new.
  - rewrite Hf, app_nil_r. done.
  - lia.
  - lia.
  - exists s. split; [|done]. unfold recover. rewrite Er. repeat f_equal. apply take_ge.
    destruct (Nat.le_gt_cases (length (rs1 ++ rs2)) k) as [|Hlt]; [done|]. exfalso.
    destruct (Layout_take (S k) _ _ _ _ HL') as (bk & ok & q & HLk & Eq).
    specialize (Hhigh Hlt _ _ HLk). rewrite Hf, Eq, zlen_app in Hhigh. pose proof (zlen_nonneg q). lia.
Qed.

Lemma log_roundtrip_witness :
  let w1 := snd (AddRecords (newWriter (mkMemFile [])) [[Byte.x61]; []]) in
  let w2 := snd (AddRecords (newWriterAt (dest_ w1) (zlen (mf_data (dest_ w1)))) [[Byte.x62]]) in
  exists s, recover (length (mf_data (dest_ w2))) (dest_ w2) true true
            = (Some [[Byte.x61]; []; [Byte.x62]], s) /\ reported s = [].
Proof.
  pose (w1 := snd (AddRecords (newWriter (mkMemFile [])) [[Byte.x61]; []])).
  pose (w2 := snd (AddRecords (newWriterAt (dest_ w1) (zlen (mf_data (dest_ w1)))) [[Byte.x62]])).
  destruct (log_roundtrip MemFile MemFile _ _ (mkMemFile []) (dest_ w2) [[Byte.x61]; []] [[Byte.x62]] true true)
    as (_ & _ & E).
  - reflexivity.
  - vm_compute. reflexivity.
  - exact E.
Defined.

(** C31. A damaged record is never returned: with checksums on, if the type and
    payload of the record at the front of the buffer differ from what was written
    in a window of at most four bytes, [ReadPhysicalRecord] returns [kBadRecord]
    and drops the buffer. *)
Theorem log_damage_detected (F : Type) `(SequentialFile F) (s : Reader F) (t : RecordType)
    (p pre w w' suf rest : bytes) :
  checksum_ s = true -> zlen p < 2 ^ 16 ->
  zb (rt_z t) :: p = pre ++ w ++ suf -> length w = length w' -> (length w <= 4)%nat -> w <> w' ->
  buffer_ s = take 6 (record_header t p) ++ (pre ++ w' ++ suf) ++ rest ->
  exists s', ReadPhysicalRecord s = (kBadRecord, None, s') /\ buffer_ s' = [].
Proof.
  intros Hc Hp Etp Hlen H4 Hne Hb. pose proof (zlen_nonneg p). set (tp := pre ++ w' ++ suf) in *.
  assert (zlen tp = 1 + zlen p) as Htp.
  { rewrite <- zlen_cons with (x := zb (rt_z t)), Etp. unfold tp. rewrite !zlen_app. unfold zlen. lia. }
  assert (zlen (buffer_ s) = 7 + zlen p + zlen rest) as Hlb.
  { rewrite Hb, !zlen_app, Htp. change (zlen (take 6 (record_header t p))) with 6. lia. }
  pose proof (zlen_nonneg rest). unfold ReadPhysicalRecord. cbn [ReadPhysicalRecord_loop]. unfold kHeaderSize at 1.
  destruct (Z.ltb_spec (zlen (buffer_ s)) (4 + 2 + 1)); [lia|]. unfold parse_physical. cbn zeta.
  assert (nth 4 (buffer_ s) Byte.x00 = zb (Z.land (zlen p) 0xff)) as -> by (rewrite Hb; done).
  assert (nth 5 (buffer_ s) Byte.x00 = zb (Z.shiftr (zlen p) 8)) as -> by (rewrite Hb; done).
  rewrite header_length by lia. unfold kHeaderSize at 1.
  destruct (Z.ltb_spec (zlen (buffer_ s)) (4 + 2 + 1 + zlen p)); [lia|].
  destruct (_ && _); [eexists; split; reflexivity|]. rewrite Hc.
  assert (drop 6 (buffer_ s) = tp ++ rest) as -> by (rewrite Hb; done).
  assert (Unmask (DecodeFixed32 (buffer_ s)) = Value 0 (zb (rt_z t) :: p)) as ->.
  { rewrite <- (header_crc t p []). f_equal. rewrite Hb. done. }
  rewrite <- Htp, ztake_app_exact.
  destruct (Z.eqb_spec (Value 0 tp) (Value 0 (zb (rt_z t) :: p))) as [E|E].
  - exfalso. rewrite Etp in E. symmetry in E. revert E.
    apply burst_changes_value; done.
  - eexists. split; [reflexivity|]. unfold ReportCorruption, ReportDrop. destruct (_ && _); done.
Qed.

Lemma log_damage_detected_witness :
  exists s', ReadPhysicalRecord
    (set_buffer (take 6 (record_header kFullType [Byte.x61; Byte.x62]) ++ [Byte.x01; Byte.x61; Byte.x63])
       (newReader (mkMemFile []) true true 0)) = (kBadRecord, None, s') /\ buffer_ s' = [].
Proof.
  apply (log_damage_detected MemFile _
    (set_buffer (take 6 (record_header kFullType [Byte.x61; Byte.x62]) ++ [Byte.x01; Byte.x61; Byte.x63])
       (newReader (mkMemFile []) true true 0)) kFullType [Byte.x61; Byte.x62]
    [Byte.x01; Byte.x61] [Byte.x62] [Byte.x63] [] []).
  - reflexivity.
  - vm_compute. reflexivity.
  - reflexivity.
  - reflexivity.
  - simpl. lia.
  - discriminate.
  - reflexivity.
Defined.

(** C32. Reading terminates on any file: whatever bytes a log file holds, damaged
    or not, with or without checksums, recovery comes to an end after at most as
    many reads as the file has bytes. *)
Theorem log_reader_terminates (F : Type) `(SequentialFileLaws F) (file : F) (reporter checksum : bool) :
  exists rs, fst (recover (length (sf_rest file)) file reporter checksum) = Some rs.
Proof. apply read_all_total; [done|unfold unread; simpl; lia..]. Qed.
