(* ===== verification/Format.v ===== *)
(** * Format: block handles, the table footer and block reads
    ([table/format.h], [table/format.cc], the trailer of [table/table_builder.cc])

    The decompressors are parameters ([util/compression.h] only calls Snappy and
    Zstd); the builder stores every block uncompressed. *)

From S2P Require Import Prelude Status Coding Crc32c Env.

(** ** [BlockHandle] *)

Record BlockHandle := mkBlockHandle { bh_offset : Z; bh_size : Z }.

#[global] Instance BlockHandle_eq_dec : EqDecision BlockHandle.
Proof. solve_decision. Defined.

(** The default constructor: both fields all ones. *)
Definition newBlockHandle : BlockHandle := mkBlockHandle (2 ^ 64 - 1) (2 ^ 64 - 1).

Definition kMaxEncodedLength : Z := 10 + 10.

Definition BlockHandle_EncodeTo (h : BlockHandle) (dst : bytes) : bytes :=
  PutVarint64 (PutVarint64 dst (bh_offset h)) (bh_size h).

Definition BlockHandle_DecodeFrom (input : bytes) : Result (BlockHandle * bytes) :=
  '(o, input) ← of_option (Corruption "bad block handle (offset)" "") (GetVarint64 input);
  '(s, input) ← of_option (Corruption "bad block handle (size)" "") (GetVarint64 input);
  Ok (mkBlockHandle o s, input).

(** ** [Footer] *)

Record Footer := mkFooter { metaindex_handle_ : BlockHandle; index_handle_ : BlockHandle }.

#[global] Instance Footer_eq_dec : EqDecision Footer.
Proof. solve_decision. Defined.

Definition kEncodedLength : Z := 2 * kMaxEncodedLength + 8.
Definition kTableMagicNumber : Z := 0xdb4775248b80fb57.

(** [dst.resize(n)]: truncates, or pads with zeros. *)
Definition resize (dst : bytes) (n : Z) : bytes :=
  ztake n dst ++ replicate (Z.to_nat (n - zlen dst)) Byte.x00.

Definition Footer_EncodeTo (f : Footer) (dst : bytes) : bytes :=
  let original_size := zlen dst in
  let dst := BlockHandle_EncodeTo (metaindex_handle_ f) dst in
  let dst := BlockHandle_EncodeTo (index_handle_ f) dst in
  let dst := resize dst (original_size + 2 * kMaxEncodedLength) in
  let dst := PutFixed32 dst (Z.land kTableMagicNumber 0xffffffff) in
  PutFixed32 dst (Z.shiftr kTableMagicNumber 32).

Definition Footer_DecodeFrom (input : bytes) : Result (Footer * bytes) :=
  if zlen input <? kEncodedLength then Err (Corruption "not an sstable (footer too short)" "")
  else
    let magic_ptr := zdrop (kEncodedLength - 8) input in
    let magic_lo := DecodeFixed32 magic_ptr in
    let magic_hi := DecodeFixed32 (drop 4 magic_ptr) in
    let magic := Z.lor (u64 (Z.shiftl magic_hi 32)) magic_lo in
    if negb (magic =? kTableMagicNumber) then Err (Corruption "not an sstable (bad magic number)" "")
    else
      '(m, rest) ← BlockHandle_DecodeFrom input;
      '(i, rest) ← BlockHandle_DecodeFrom rest;
      Ok (mkFooter m i, zdrop kEncodedLength input).

(** ** Blocks on disk *)

Inductive CompressionType := kNoCompression | kSnappyCompression | kZstdCompression.

Definition ct_z (t : CompressionType) : Z :=
  match t with kNoCompression => 0 | kSnappyCompression => 1 | kZstdCompression => 2 end.

Definition kBlockTrailerSize : Z := 5.

Record BlockContents := mkBlockContents { bc_data : bytes; bc_cachable : bool }.

(** The trailer that [WriteRawBlock] appends. *)
Definition block_trailer (block_contents : bytes) (type : CompressionType) : bytes :=
  let type_byte := [zb (ct_z type)] in
  let crc := Value 0 block_contents in
  let crc := Extend 0 crc type_byte in
  type_byte ++ EncodeFixed32 (Mask crc).

Section ReadBlockDef.
Context (Snappy_GetUncompressedLength Zstd_GetUncompressedLength : bytes -> option Z).
Context (Snappy_Uncompress Zstd_Uncompress : bytes -> option bytes).
Context {F : Type} `{RandomAccessFile F}.

(** A decompressor fills a buffer of the length it announced. *)
Definition decompress (length : bytes -> option Z) (uncompress : bytes -> option bytes)
    (bad_length bad_contents : Status) (data : bytes) : Result BlockContents :=
  ulength ← of_option bad_length (length data);
  ubuf ← of_option bad_contents (uncompress data);
  Ok (mkBlockContents (resize ubuf ulength) true).

Definition ReadBlock (file : F) (verify_checksums : bool) (handle : BlockHandle) : Result BlockContents :=
  let n := bh_size handle in
  contents ← raf_Read file (bh_offset handle) (u64 (n + kBlockTrailerSize));
  if negb (zlen contents =? u64 (n + kBlockTrailerSize)) then Err (Corruption "truncated block read" "")
  else
    let data := contents in
    let crc := Unmask (DecodeFixed32 (zdrop (n + 1) data)) in
    let actual := Value 0 (ztake (n + 1) data) in
    if verify_checksums && negb (actual =? crc) then Err (Corruption "block checksum mismatch" "")
    else
      let type := bz (nth (Z.to_nat n) data Byte.x00) in
      if type =? ct_z kNoCompression then Ok (mkBlockContents (ztake n data) (raf_in_scratch file))
      else if type =? ct_z kSnappyCompression then
        decompress Snappy_GetUncompressedLength Snappy_Uncompress
          (Corruption "corrupted snappy compressed block length" "")
          (Corruption "corrupted snappy compressed block contents" "") (ztake n data)
      else if type =? ct_z kZstdCompression then
        decompress Zstd_GetUncompressedLength Zstd_Uncompress
          (Corruption "corrupted zstd compressed block length" "")
          (Corruption "corrupted zstd compressed block contents" "") (ztake n data)
      else Err (Corruption "bad block type" "").

End ReadBlockDef.

(** ** Handles *)

Definition handle_ok (h : BlockHandle) : Prop :=
  0 <= bh_offset h < 2 ^ 64 /\ 0 <= bh_size h < 2 ^ 64.

Definition handle_bytes (h : BlockHandle) : bytes := EncodeVarint64 (bh_offset h) ++ EncodeVarint64 (bh_size h).

Lemma BlockHandle_EncodeTo_app (h : BlockHandle) (dst : bytes) :
  BlockHandle_EncodeTo h dst = dst ++ handle_bytes h.
Proof. unfold BlockHandle_EncodeTo, PutVarint64, handle_bytes. rewrite app_assoc. done. Qed.

Lemma handle_bytes_length (h : BlockHandle) : zlen (handle_bytes h) <= kMaxEncodedLength.
Proof.
  unfold handle_bytes, EncodeVarint64, kMaxEncodedLength. rewrite zlen_app. unfold zlen.
  pose proof (length_EncodeVarint64_loop 9 (bh_offset h)). pose proof (length_EncodeVarint64_loop 9 (bh_size h)). lia.
Qed.

Lemma BlockHandle_decode_encode (h : BlockHandle) (rest : bytes) :
  handle_ok h -> BlockHandle_DecodeFrom (handle_bytes h ++ rest) = Ok (h, rest).
Proof.
  intros [Ho Hs]. unfold BlockHandle_DecodeFrom, handle_bytes. rewrite <- app_assoc.
  rewrite GetVarint64_Encode by done. cbn [of_option mbind Result_bind].
  rewrite GetVarint64_Encode by done. destruct h. done.
Qed.

(** ** Footer *)

Lemma resize_app (dst tail : bytes) (n : Z) :
  0 <= n -> zlen tail <= n ->
  resize (dst ++ tail) (zlen dst + n) = dst ++ tail ++ replicate (Z.to_nat (n - zlen tail)) Byte.x00.
Proof.
  intros Hn Ht. unfold resize. rewrite zlen_app.
  replace (zlen dst + n - (zlen dst + zlen tail)) with (n - zlen tail) by lia.
  assert (ztake (zlen dst + n) (dst ++ tail) = dst ++ tail) as ->; [|rewrite app_assoc; done].
  unfold ztake. apply take_ge. rewrite length_app. unfold zlen in *. lia.
Qed.

Definition footer_padding (f : Footer) : bytes :=
  replicate (Z.to_nat (2 * kMaxEncodedLength - zlen (handle_bytes (metaindex_handle_ f) ++ handle_bytes (index_handle_ f)))) Byte.x00.

Definition magic_bytes : bytes :=
  EncodeFixed32 (Z.land kTableMagicNumber 0xffffffff) ++ EncodeFixed32 (Z.shiftr kTableMagicNumber 32).

Definition footer_bytes (f : Footer) : bytes :=
  (handle_bytes (metaindex_handle_ f) ++ handle_bytes (index_handle_ f) ++ footer_padding f) ++ magic_bytes.

Lemma Footer_EncodeTo_app (f : Footer) (dst : bytes) : Footer_EncodeTo f dst = dst ++ footer_bytes f.
Proof.
  unfold Footer_EncodeTo, PutFixed32. rewrite !BlockHandle_EncodeTo_app, <- (app_assoc dst).
  pose proof (handle_bytes_length (metaindex_handle_ f)). pose proof (handle_bytes_length (index_handle_ f)).
  rewrite resize_app; [|unfold kMaxEncodedLength; lia|rewrite zlen_app; lia].
  unfold footer_bytes, footer_padding, magic_bytes. rewrite <- !app_assoc. done.
Qed.

Lemma footer_body_length (f : Footer) :
  zlen (handle_bytes (metaindex_handle_ f) ++ handle_bytes (index_handle_ f) ++ footer_padding f) = kEncodedLength - 8.
Proof.
  pose proof (handle_bytes_length (metaindex_handle_ f)). pose proof (handle_bytes_length (index_handle_ f)).
  unfold footer_padding. rewrite app_assoc, zlen_app, zlen_replicate; rewrite zlen_app; [|lia].
  unfold kEncodedLength. lia.
Qed.

Lemma footer_bytes_length (f : Footer) : zlen (footer_bytes f) = kEncodedLength.
Proof. unfold footer_bytes. rewrite zlen_app, footer_body_length. change (zlen magic_bytes) with 8. lia. Qed.

Lemma Footer_decode_encode (f : Footer) (rest : bytes) :
  handle_ok (metaindex_handle_ f) -> handle_ok (index_handle_ f) ->
  Footer_DecodeFrom (footer_bytes f ++ rest) = Ok (f, rest).
Proof.
  intros Hm Hi. unfold Footer_DecodeFrom. rewrite zlen_app, footer_bytes_length.
  pose proof (zlen_nonneg rest). destruct (Z.ltb_spec (kEncodedLength + zlen rest) kEncodedLength); [lia|].
  assert (zdrop (kEncodedLength - 8) (footer_bytes f ++ rest) = magic_bytes ++ rest) as ->.
  { unfold footer_bytes. rewrite <- app_assoc, <- footer_body_length with (f := f). apply zdrop_app_exact. }
  change (Z.lor (u64 (Z.shiftl (DecodeFixed32 (drop 4 (magic_bytes ++ rest))) 32)) (DecodeFixed32 (magic_bytes ++ rest)))
    with kTableMagicNumber.
  rewrite Z.eqb_refl. cbn [negb].
  assert (zdrop kEncodedLength (footer_bytes f ++ rest) = rest) as ->.
  { rewrite <- (footer_bytes_length f). apply zdrop_app_exact. }
  unfold footer_bytes. rewrite <- !app_assoc.
  rewrite BlockHandle_decode_encode by done. cbn [mbind Result_bind].
  rewrite BlockHandle_decode_encode by done. destruct f. done.
Qed.

(** ** Reading blocks *)

Section ReadBlockSpec.
Context {slen zstlen : bytes -> option Z} {sun zun : bytes -> option bytes}.
Context {F : Type} `{FL : RandomAccessFileLaws F}.

Lemma trailer_crc (contents rest : bytes) (t : CompressionType) :
  Unmask (DecodeFixed32 (drop 1 (block_trailer contents t) ++ rest)) = Value 0 (contents ++ [zb (ct_z t)]).
Proof.
  unfold block_trailer. change (drop 1 ([zb (ct_z t)] ++ ?x)) with x.
  rewrite DecodeFixed32_Encode by apply Mask_range.
  unfold Value. rewrite Unmask_Mask by (apply Extend_range; lia || (apply Extend_range; lia)).
  rewrite !(Extend_ref 0) by (lia || (apply Extend_range; lia)). symmetry. apply crc32c_ref_app.
Qed.

(** The bytes at a handle: block contents with their trailer. *)
Lemma ReadBlock_at (file : F) (verify : bool) (pre contents post : bytes) (h : BlockHandle) :
  raf_data file = pre ++ contents ++ block_trailer contents kNoCompression ++ post ->
  h = mkBlockHandle (zlen pre) (zlen contents) -> zlen contents + kBlockTrailerSize < 2 ^ 64 ->
  ReadBlock slen zstlen sun zun file verify h = Ok (mkBlockContents contents (raf_in_scratch file)).
Proof.
  intros Hd -> Hn. pose proof (zlen_nonneg contents). pose proof (zlen_nonneg pre).
  unfold ReadBlock. cbn [bh_offset bh_size]. rewrite wrap_small by (unfold kBlockTrailerSize in *; lia).
  rewrite raf_Read_spec by (unfold kBlockTrailerSize in *; lia). rewrite Hd, zdrop_app_exact.
  assert (zlen (contents ++ block_trailer contents kNoCompression) = zlen contents + kBlockTrailerSize) as El
    by (rewrite zlen_app; done).
  rewrite (app_assoc contents), <- El, ztake_app_exact. cbn [mbind Result_bind]. rewrite Z.eqb_refl. cbn [negb].
  assert (zdrop (zlen contents + 1) (contents ++ block_trailer contents kNoCompression)
          = drop 1 (block_trailer contents kNoCompression) ++ []) as ->.
  { change (block_trailer contents kNoCompression) with ([zb 0] ++ drop 1 (block_trailer contents kNoCompression)) at 1.
    rewrite app_assoc, app_nil_r.
    replace (zlen contents + 1) with (zlen (contents ++ [zb 0])) by (rewrite zlen_app; done). apply zdrop_app_exact. }
  rewrite trailer_crc.
  assert (ztake (zlen contents + 1) (contents ++ block_trailer contents kNoCompression) = contents ++ [zb 0]) as ->.
  { change (block_trailer contents kNoCompression) with ([zb 0] ++ drop 1 (block_trailer contents kNoCompression)).
    rewrite app_assoc.
    replace (zlen contents + 1) with (zlen (contents ++ [zb 0])) by (rewrite zlen_app; done). apply ztake_app_exact. }
  rewrite Z.eqb_refl, andb_false_r, zlen_to_nat.
  rewrite nth_lookup, lookup_app_r, Nat.sub_diag by lia. simpl.
  rewrite ztake_app_exact. done.
Qed.

(** Damage in a window of four bytes of the block or its type byte. *)
Lemma ReadBlock_damaged (file : F) (pre contents post a w w' b : bytes) (h : BlockHandle) :
  contents ++ [zb 0] = a ++ w ++ b -> length w = length w' -> (length w <= 4)%nat -> w <> w' ->
  raf_data file = pre ++ (a ++ w' ++ b) ++ drop 1 (block_trailer contents kNoCompression) ++ post ->
  h = mkBlockHandle (zlen pre) (zlen contents) -> zlen contents + kBlockTrailerSize < 2 ^ 64 ->
  ReadBlock slen zstlen sun zun file true h = Err (Corruption "block checksum mismatch" "").
Proof.
  intros Ew Hlen H4 Hne Hd -> Hn. pose proof (zlen_nonneg contents). pose proof (zlen_nonneg pre).
  set (damaged := a ++ w' ++ b) in *.
  assert (zlen damaged = zlen contents + 1) as Hdl.
  { apply (f_equal zlen) in Ew. rewrite zlen_app in Ew. change (zlen [zb 0]) with 1 in Ew. rewrite Ew.
    unfold damaged. rewrite !zlen_app. unfold zlen. lia. }
  unfold ReadBlock. cbn [bh_offset bh_size]. rewrite wrap_small by (unfold kBlockTrailerSize in *; lia).
  rewrite raf_Read_spec by (unfold kBlockTrailerSize in *; lia). rewrite Hd, zdrop_app_exact.
  assert (zlen (damaged ++ drop 1 (block_trailer contents kNoCompression)) = zlen contents + kBlockTrailerSize) as El
    by (rewrite zlen_app, Hdl; change (zlen (drop 1 (block_trailer contents kNoCompression))) with 4; unfold kBlockTrailerSize; lia).
  rewrite (app_assoc damaged), <- El, ztake_app_exact. cbn [mbind Result_bind]. rewrite Z.eqb_refl. cbn [negb].
  rewrite <- Hdl, zdrop_app_exact, ztake_app_exact.
  rewrite <- (app_nil_r (drop 1 (block_trailer contents kNoCompression))), trailer_crc.
  change (ct_z kNoCompression) with 0. rewrite Ew.
  destruct (Z.eqb_spec (Value 0 damaged) (Value 0 (a ++ w ++ b))) as [E|E]; [|done].
  exfalso. symmetry in E. revert E. apply burst_changes_value; done.
Qed.

End ReadBlockSpec.

(** ** Properties *)

(** The footer round-trips: it always takes 48 bytes, decodes to the two
    handles it was encoded from and leaves the rest of the input; an input that
    is too short or whose magic number differs is refused. *)
Theorem footer_roundtrip (f : Footer) (dst rest short : bytes) :
  handle_ok (metaindex_handle_ f) -> handle_ok (index_handle_ f) -> zlen short < kEncodedLength ->
  exists enc, Footer_EncodeTo f dst = dst ++ enc /\ zlen enc = 48 /\
    Footer_DecodeFrom (enc ++ rest) = Ok (f, rest) /\
    is_ok (Footer_DecodeFrom short) = false /\
    (forall pre lo hi, zlen pre = 40 -> 0 <= lo < 2 ^ 32 -> 0 <= hi < 2 ^ 32 ->
       Z.lor (u64 (Z.shiftl hi 32)) lo <> kTableMagicNumber ->
       is_ok (Footer_DecodeFrom (pre ++ EncodeFixed32 lo ++ EncodeFixed32 hi ++ rest)) = false).
Proof.
  intros Hm Hi Hs. exists (footer_bytes f). split_and!.
  - apply Footer_EncodeTo_app.
  - apply footer_bytes_length.
  - apply Footer_decode_encode; done.
  - unfold Footer_DecodeFrom. destruct (Z.ltb_spec (zlen short) kEncodedLength); [done|lia].
  - intros pre lo hi Hp Hlo Hhi Hne. unfold Footer_DecodeFrom. destruct (_ <? _); [done|].
    change (kEncodedLength - 8) with 40. rewrite <- Hp, zdrop_app_exact, DecodeFixed32_Encode by done.
    change (drop 4 (EncodeFixed32 lo ++ ?x)) with x. rewrite DecodeFixed32_Encode by done.
    destruct (Z.eqb_spec (Z.lor (u64 (Z.shiftl hi 32)) lo) kTableMagicNumber); done.
Qed.

Lemma footer_roundtrip_witness :
  exists enc, Footer_EncodeTo (mkFooter (mkBlockHandle 300 20) (mkBlockHandle 1 2)) [Byte.x07] = [Byte.x07] ++ enc /\
    zlen enc = 48 /\ Footer_DecodeFrom (enc ++ [Byte.x08]) = Ok (mkFooter (mkBlockHandle 300 20) (mkBlockHandle 1 2), [Byte.x08]).
Proof.
  destruct (footer_roundtrip (mkFooter (mkBlockHandle 300 20) (mkBlockHandle 1 2)) [Byte.x07] [Byte.x08] [])
    as (enc & H1 & H2 & H3 & _).
  - split; simpl; lia.
  - split; simpl; lia.
  - vm_compute. reflexivity.
  - exists enc. split; [exact H1|split; [exact H2|exact H3]].
Defined.

(** Blocks round-trip through a file and damage is detected: a block written
    with its trailer is read back exactly through its handle, and when at most
    four adjacent bytes of it (or of its type byte) changed on disk, a verifying
    read fails with a checksum error. *)
Theorem block_read_roundtrip (F : Type) `(RandomAccessFileLaws F) (file file' : F)
    (slen zlen' : bytes -> option Z) (sun zun : bytes -> option bytes) (verify : bool)
    (pre contents post a w w' b : bytes) :
  zlen contents + kBlockTrailerSize < 2 ^ 64 ->
  raf_data file = pre ++ contents ++ block_trailer contents kNoCompression ++ post ->
  contents ++ [zb 0] = a ++ w ++ b -> length w = length w' -> (length w <= 4)%nat -> w <> w' ->
  raf_data file' = pre ++ (a ++ w' ++ b) ++ drop 1 (block_trailer contents kNoCompression) ++ post ->
  let h := mkBlockHandle (zlen pre) (zlen contents) in
  ReadBlock slen zlen' sun zun file verify h = Ok (mkBlockContents contents (raf_in_scratch file)) /\
  ReadBlock slen zlen' sun zun file' true h = Err (Corruption "block checksum mismatch" "").
Proof.
  intros Hn Hd Ew Hl H4 Hne Hd' h. split.
  - eapply ReadBlock_at; done.
  - eapply ReadBlock_damaged; done.
Qed.

Lemma block_read_roundtrip_witness :
  let no := fun _ : bytes => None in let nob := fun _ : bytes => None in
  ReadBlock no no nob nob
    (mkMemFile ([Byte.x01] ++ [Byte.x61; Byte.x62] ++ block_trailer [Byte.x61; Byte.x62] kNoCompression ++ [])) true
    (mkBlockHandle 1 2) = Ok (mkBlockContents [Byte.x61; Byte.x62] true).
Proof.
  refine (proj1 (block_read_roundtrip MemFile _
    (mkMemFile ([Byte.x01] ++ [Byte.x61; Byte.x62] ++ block_trailer [Byte.x61; Byte.x62] kNoCompression ++ []))
    (mkMemFile ([Byte.x01] ++ ([Byte.x61] ++ [Byte.x63] ++ [Byte.x00]) ++ drop 1 (block_trailer [Byte.x61; Byte.x62] kNoCompression) ++ []))
    (fun _ => None) (fun _ => None) (fun _ => None) (fun _ => None) true
    [Byte.x01] [Byte.x61; Byte.x62] [] [Byte.x61] [Byte.x62] [Byte.x63] [Byte.x00] _ _ _ _ _ _ _)).
  - vm_compute. reflexivity.
  - reflexivity.
  - reflexivity.
  - reflexivity.
  - simpl. lia.
  - discriminate.
  - reflexivity.
Defined.
