(* ===== verification/Iterator.v ===== *)
(** * Iterator: the cursor interface ([include/leveldb/iterator.h],
    [table/iterator.cc], [table/iterator_wrapper.h])

    [Iterator] is the abstract class.  What its comments promise is the abstract
    cursor over a sorted list of entries ([cur_*]); [IterSim] is the refinement
    relation an implementation has to provide.  [run_ops] is a client: any
    sequence of calls that respects the REQUIRES clauses. *)

From S2P Require Import Prelude Status Comparator.
From Stdlib Require Import Sorting.Sorted.

Class Iterator (S : Type) := {
  it_Valid : S -> bool;
  it_SeekToFirst : S -> S;
  it_SeekToLast : S -> S;
  it_Seek : bytes -> S -> S;
  it_Next : S -> S;
  it_Prev : S -> S;
  it_key : S -> bytes;
  it_value : S -> bytes;
  it_status : S -> Status
}.

(** ** The abstract cursor: a position in the list, or not valid *)

Abbreviation entries := (list (bytes * bytes)).

Section Cursor.
Context {C : Comparator}.

Definition at_or_past (target : bytes) (kv : bytes * bytes) : bool :=
  match Compare (fst kv) target with Lt => false | _ => true end.

(** The first position at or past [target]. *)
Fixpoint seek_index (target : bytes) (kvs : entries) : option nat :=
  match kvs with
  | [] => None
  | kv :: kvs => if at_or_past target kv then Some 0%nat else S <$> seek_index target kvs
  end.

Definition in_range (kvs : entries) (i : nat) : option nat := if (i <? length kvs)%nat then Some i else None.
Definition cur_first (kvs : entries) : option nat := in_range kvs 0.
Definition cur_last (kvs : entries) : option nat := in_range kvs (length kvs - 1).
Definition cur_next (kvs : entries) (i : nat) : option nat := in_range kvs (S i).
Definition cur_prev (i : nat) : option nat := match i with O => None | S j => Some j end.

(** [R s c]: the iterator [s] over [kvs] is at the abstract position [c]. *)
Record IterSim {S : Type} `{Iterator S} (kvs : entries) (R : S -> option nat -> Prop) : Prop := {
  sim_valid : forall s c, R s c -> it_Valid s = match c with Some _ => true | None => false end;
  sim_entry : forall s i, R s (Some i) -> kvs !! i = Some (it_key s, it_value s);
  sim_status : forall s c, R s c -> it_status s = StatusOK;
  sim_first : forall s c, R s c -> R (it_SeekToFirst s) (cur_first kvs);
  sim_last : forall s c, R s c -> R (it_SeekToLast s) (cur_last kvs);
  sim_seek : forall s c t, R s c -> R (it_Seek t s) (seek_index t kvs);
  sim_next : forall s i, R s (Some i) -> R (it_Next s) (cur_next kvs i);
  sim_prev : forall s i, R s (Some i) -> R (it_Prev s) (cur_prev i)
}.

(** ** Clients *)

Inductive IterOp := OpSeekToFirst | OpSeekToLast | OpSeek (t : bytes) | OpNext | OpPrev.

(** [Next] and [Prev] are only called on a valid iterator. *)
Definition run_op {S} `{Iterator S} (s : S) (o : IterOp) : S :=
  match o with
  | OpSeekToFirst => it_SeekToFirst s
  | OpSeekToLast => it_SeekToLast s
  | OpSeek t => it_Seek t s
  | OpNext => if it_Valid s then it_Next s else s
  | OpPrev => if it_Valid s then it_Prev s else s
  end.

Definition cur_op (kvs : entries) (c : option nat) (o : IterOp) : option nat :=
  match o with
  | OpSeekToFirst => cur_first kvs
  | OpSeekToLast => cur_last kvs
  | OpSeek t => seek_index t kvs
  | OpNext => match c with Some i => cur_next kvs i | None => None end
  | OpPrev => match c with Some i => cur_prev i | None => None end
  end.

Definition run_ops {S} `{Iterator S} (s : S) (ops : list IterOp) : S := fold_left run_op ops s.
Definition cur_ops (kvs : entries) (c : option nat) (ops : list IterOp) : option nat :=
  fold_left (cur_op kvs) ops c.

(** What a client sees. *)
Definition observe {S} `{Iterator S} (s : S) : option (bytes * bytes) :=
  if it_Valid s then Some (it_key s, it_value s) else None.

Definition cur_observe (kvs : entries) (c : option nat) : option (bytes * bytes) :=
  match c with Some i => kvs !! i | None => None end.

Lemma run_ops_sim {S} `{Iterator S} (kvs : entries) (R : S -> option nat -> Prop) (s : S) (c : option nat) (ops : list IterOp) :
  IterSim kvs R -> R s c -> R (run_ops s ops) (cur_ops kvs c ops).
Proof.
  intros HS. revert s c. induction ops as [|o ops IH]; intros s c HR; [done|].
  unfold run_ops, cur_ops. rewrite !fold_left_cons. apply IH.
  destruct o; simpl.
  - eapply sim_first; done.
  - eapply sim_last; done.
  - eapply sim_seek; done.
  - rewrite (sim_valid _ _ HS _ _ HR). destruct c; [eapply sim_next|]; done.
  - rewrite (sim_valid _ _ HS _ _ HR). destruct c; [eapply sim_prev|]; done.
Qed.

Lemma observe_sim {S} `{Iterator S} (kvs : entries) (R : S -> option nat -> Prop) (s : S) (c : option nat) :
  IterSim kvs R -> R s c -> observe s = cur_observe kvs c /\ it_status s = StatusOK.
Proof.
  intros HS HR. split; [|eapply sim_status; done]. unfold observe. rewrite (sim_valid _ _ HS _ _ HR).
  destruct c as [i|]; [|done]. simpl. symmetry. eapply sim_entry; done.
Qed.

End Cursor.

(** ** Facts about positions *)

Section SeekIndex.
Context {C : Comparator} {CL : ComparatorLaws C}.

Definition keys_sorted (kvs : entries) : Prop := StronglySorted (fun a b => clt (fst a) (fst b)) kvs.

Lemma at_or_past_true (t : bytes) (kv : bytes * bytes) : at_or_past t kv = true <-> cle t (fst kv).
Proof.
  unfold at_or_past. rewrite <- not_clt. unfold clt. destruct (Compare (fst kv) t); naive_solver.
Qed.

Lemma at_or_past_false (t : bytes) (kv : bytes * bytes) : at_or_past t kv = false <-> clt (fst kv) t.
Proof. unfold at_or_past, clt. destruct (Compare (fst kv) t); naive_solver. Qed.

(** The characterisation implementations use: [i] is at or past the target and
    everything before it is not. *)
Lemma seek_index_Some (t : bytes) (kvs : entries) (i : nat) (kv : bytes * bytes) :
  kvs !! i = Some kv -> at_or_past t kv = true ->
  (forall j kv', (j < i)%nat -> kvs !! j = Some kv' -> at_or_past t kv' = false) ->
  seek_index t kvs = Some i.
Proof.
  revert i. induction kvs as [|x kvs IH]; intros i Hi Ht Hb; [done|]. simpl.
  destruct i as [|i]; simpl in Hi.
  - injection Hi as ->. rewrite Ht. done.
  - rewrite (Hb 0%nat x) by (done || lia). rewrite (IH i); [done|done|done|].
    intros j kv' Hj Hkv. apply (Hb (S j)); [lia|done].
Qed.

Lemma seek_index_None (t : bytes) (kvs : entries) :
  (forall j kv, kvs !! j = Some kv -> at_or_past t kv = false) -> seek_index t kvs = None.
Proof.
  induction kvs as [|x kvs IH]; intros Hb; [done|]. simpl.
  rewrite (Hb 0%nat x) by done. rewrite IH; [done|]. intros j kv Hj. apply (Hb (S j)). done.
Qed.

Lemma seek_index_spec (t : bytes) (kvs : entries) (i : nat) :
  seek_index t kvs = Some i ->
  (exists kv, kvs !! i = Some kv /\ at_or_past t kv = true) /\
  (forall j kv', (j < i)%nat -> kvs !! j = Some kv' -> at_or_past t kv' = false).
Proof.
  revert i. induction kvs as [|x kvs IH]; intros i; simpl; [done|].
  destruct (at_or_past t x) eqn:E.
  - intros [= <-]. split; [eauto|]. intros; lia.
  - destruct (seek_index t kvs) as [k|]; [|done]. intros [= <-].
    destruct (IH k eq_refl) as [H1 H2]. split; [done|].
    intros [|j] kv' Hj Hkv; [injection Hkv as <-; done|]. apply (H2 j); [lia|done].
Qed.

Lemma seek_index_end (t : bytes) (kvs : entries) :
  seek_index t kvs = None -> forall j kv, kvs !! j = Some kv -> at_or_past t kv = false.
Proof.
  induction kvs as [|x kvs IH]; intros H [|j] kv Hj; try done; simpl in H;
    destruct (at_or_past t x) eqn:E; try done; destruct (seek_index t kvs) eqn:E2; try done.
  - injection Hj as <-. done.
  - eapply IH; done.
Qed.

(** In a sorted list, keys below a smaller key are below the target. *)
Lemma sorted_lookup_lt (kvs : entries) (i j : nat) (x y : bytes * bytes) :
  keys_sorted kvs -> kvs !! i = Some x -> kvs !! j = Some y -> (i < j)%nat -> clt (fst x) (fst y).
Proof.
  intros HS. revert i j. induction HS as [|z kvs HS IH Hz]; intros [|i] [|j] Hi Hj Hlt; try done; try lia.
  - injection Hi as ->. rewrite Forall_forall in Hz. apply Hz, list_elem_of_lookup. eauto.
  - apply (IH i j); [done|done|lia].
Qed.

Lemma before_target (kvs : entries) (t : bytes) (i j : nat) (x y : bytes * bytes) :
  keys_sorted kvs -> kvs !! i = Some x -> at_or_past t x = false -> (j <= i)%nat -> kvs !! j = Some y ->
  at_or_past t y = false.
Proof.
  intros HS Hi Hx Hj Hy. destruct (decide (j = i)) as [->|]; [congruence|].
  rewrite at_or_past_false in *. eapply clt_trans; [|exact Hx].
  apply (sorted_lookup_lt kvs j i); [done..|lia].
Qed.

(** ** Positions given by a predicate

    The first entry that satisfies [p], and the last one.  The positions a cursor
    moves to are of this form. *)

Fixpoint first_idx (p : bytes * bytes -> bool) (kvs : entries) : option nat :=
  match kvs with
  | [] => None
  | kv :: kvs => if p kv then Some 0%nat else S <$> first_idx p kvs
  end.

Fixpoint last_idx (p : bytes * bytes -> bool) (kvs : entries) : option nat :=
  match kvs with
  | [] => None
  | kv :: kvs =>
      match last_idx p kvs with
      | Some i => Some (S i)
      | None => if p kv then Some 0%nat else None
      end
  end.

(** Strictly after and strictly before a key, and at or before it. *)
Definition after (k : bytes) (kv : bytes * bytes) : bool := match Compare (fst kv) k with Gt => true | _ => false end.
Definition before (k : bytes) (kv : bytes * bytes) : bool := match Compare (fst kv) k with Lt => true | _ => false end.
Definition upto (k : bytes) (kv : bytes * bytes) : bool := match Compare (fst kv) k with Gt => false | _ => true end.

Lemma seek_index_first (t : bytes) (kvs : entries) : seek_index t kvs = first_idx (at_or_past t) kvs.
Proof. induction kvs as [|kv kvs IH]; simpl; [done|]. rewrite IH. done. Qed.

Lemma first_idx_Some (p : bytes * bytes -> bool) (kvs : entries) (i : nat) :
  first_idx p kvs = Some i <->
  (exists kv, kvs !! i = Some kv /\ p kv = true) /\ (forall j kv, (j < i)%nat -> kvs !! j = Some kv -> p kv = false).
Proof.
  revert i. induction kvs as [|x kvs IH]; intros i; simpl.
  - split; [done|]. intros [(kv & Hkv & _) _]. done.
  - destruct (p x) eqn:Ex.
    + split.
      * intros [= <-]. split; [eauto|]. intros; lia.
      * intros [_ Hb]. destruct i; [done|]. specialize (Hb 0%nat x ltac:(lia) eq_refl). congruence.
    + split.
      * destruct (first_idx p kvs) as [k|]; [|done]. intros [= <-]. destruct (proj1 (IH k) eq_refl) as [H1 H2].
        split; [done|]. intros [|j] kv Hj Hkv; [injection Hkv as <-; done|]. apply (H2 j); [lia|done].
      * intros [(kv & Hkv & Hp) Hb]. destruct i as [|i]; [injection Hkv as <-; congruence|].
        rewrite (proj2 (IH i)); [done|]. split; [eauto|]. intros j kv' Hj. apply (Hb (S j)). lia.
Qed.

Lemma first_idx_None (p : bytes * bytes -> bool) (kvs : entries) :
  first_idx p kvs = None <-> forall kv, kv ∈ kvs -> p kv = false.
Proof.
  induction kvs as [|x kvs IH]; simpl.
  - split; [intros _ kv Hk; apply elem_of_nil in Hk as []|done].
  - destruct (p x) eqn:Ex.
    + split; [done|]. intros Hb. specialize (Hb x). rewrite Hb in Ex; [done|left].
    + destruct (first_idx p kvs); split; try done.
      * intros Hb. assert (Some n = None) as [=] by (apply IH; intros kv Hk; apply Hb; right; done).
      * intros _ kv [->|Hk]%elem_of_cons; [done|]. apply IH; done.
Qed.

Lemma last_idx_None (p : bytes * bytes -> bool) (kvs : entries) :
  last_idx p kvs = None <-> forall kv, kv ∈ kvs -> p kv = false.
Proof.
  induction kvs as [|x kvs IH]; simpl.
  - split; [intros _ kv Hk; apply elem_of_nil in Hk as []|done].
  - destruct (last_idx p kvs) eqn:Ek.
    + split; [done|]. intros Hb. assert (Some n = None) as [=] by (apply IH; intros kv Hk; apply Hb; right; done).
    + destruct (p x) eqn:Ex; split; try done.
      * intros Hb. specialize (Hb x). rewrite Hb in Ex; [done|left].
      * intros _ kv [->|Hk]%elem_of_cons; [done|]. apply IH; done.
Qed.

Lemma last_idx_Some (p : bytes * bytes -> bool) (kvs : entries) (i : nat) :
  last_idx p kvs = Some i <->
  (exists kv, kvs !! i = Some kv /\ p kv = true) /\ (forall j kv, (i < j)%nat -> kvs !! j = Some kv -> p kv = false).
Proof.
  revert i. induction kvs as [|x kvs IH]; intros i; simpl.
  - split; [done|]. intros [(kv & Hkv & _) _]. done.
  - destruct (last_idx p kvs) as [k|] eqn:Ek.
    + destruct (proj1 (IH k) eq_refl) as [(kv1 & Hkv1 & Hp1) H2]. split.
      * intros [= <-]. split; [eauto|]. intros [|j] kv Hj Hkv; [lia|]. apply (H2 j); [lia|done].
      * intros [(kv & Hkv & Hp) Hb]. destruct i as [|i]; [specialize (Hb (S k) kv1 ltac:(lia) Hkv1); congruence|].
        assert (Some k = Some i) as [= ->]; [|done]. apply IH. split; [eauto|]. intros j kv' Hj. apply (Hb (S j)). lia.
    + rewrite last_idx_None in Ek.
      assert (forall j kv, kvs !! j = Some kv -> p kv = false) as Hn
        by (intros j kv Hj; apply Ek, list_elem_of_lookup; eauto).
      split.
      * destruct (p x) eqn:Ex; [|done]. intros [= <-]. split; [eauto|]. intros [|j] kv Hj Hkv; [lia|]. apply (Hn j). done.
      * intros [(kv & Hkv & Hp) Hb]. destruct i as [|i]; [injection Hkv as <-; rewrite Hp; done|].
        rewrite (Hn i kv Hkv) in Hp. done.
Qed.

Lemma first_idx_ext (p q : bytes * bytes -> bool) (kvs : entries) :
  (forall kv, kv ∈ kvs -> p kv = q kv) -> first_idx p kvs = first_idx q kvs.
Proof.
  induction kvs as [|x kvs IH]; intros Hpq; simpl; [done|]. rewrite (Hpq x) by left.
  rewrite IH; [done|]. intros kv Hk. apply Hpq. right. done.
Qed.

Lemma last_idx_ext (p q : bytes * bytes -> bool) (kvs : entries) :
  (forall kv, kv ∈ kvs -> p kv = q kv) -> last_idx p kvs = last_idx q kvs.
Proof.
  induction kvs as [|x kvs IH]; intros Hpq; simpl; [done|]. rewrite (Hpq x) by left.
  rewrite IH; [done|]. intros kv Hk. apply Hpq. right. done.
Qed.

Lemma cur_first_idx (kvs : entries) : cur_first kvs = first_idx (fun _ => true) kvs.
Proof. destruct kvs; done. Qed.

Lemma cur_last_idx (kvs : entries) : cur_last kvs = last_idx (fun _ => true) kvs.
Proof.
  unfold cur_last, in_range. destruct kvs as [|x kvs]; [done|]. symmetry.
  destruct (Nat.ltb_spec (length (x :: kvs) - 1) (length (x :: kvs))) as [Hl|Hl]; [|simpl in Hl; lia].
  apply last_idx_Some. split.
  - destruct (lookup_lt_is_Some_2 (x :: kvs) (length (x :: kvs) - 1)) as [kv Hkv]; eauto.
  - intros j kv Hj Hkv. apply lookup_lt_Some in Hkv. lia.
Qed.

Section Sorted.
Context (kvs : entries) (HS : keys_sorted kvs).

Lemma cur_next_idx (i : nat) (kv : bytes * bytes) : kvs !! i = Some kv -> cur_next kvs i = first_idx (after (fst kv)) kvs.
Proof.
  intros Hi. unfold cur_next, in_range. symmetry.
  assert (forall j kv', (j <= i)%nat -> kvs !! j = Some kv' -> after (fst kv) kv' = false) as Hle.
  { intros j kv' Hj Hkv'. unfold after. destruct (decide (j = i)) as [->|].
    - replace kv' with kv by congruence. rewrite cmp_refl. done.
    - rewrite (sorted_lookup_lt kvs j i kv' kv HS Hkv' Hi) by lia. done. }
  destruct (Nat.ltb_spec (S i) (length kvs)) as [Hl|Hl].
  - apply first_idx_Some. destruct (lookup_lt_is_Some_2 kvs (S i) Hl) as [kv' Hkv']. split.
    + exists kv'. split; [done|]. unfold after. pose proof (sorted_lookup_lt kvs i (S i) kv kv' HS Hi Hkv' ltac:(lia)) as Hlt.
      apply cmp_gt in Hlt. rewrite Hlt. done.
    + intros j kv2 Hj. apply Hle. lia.
  - apply first_idx_None. intros kv' Hk. apply list_elem_of_lookup in Hk as [j Hj]. apply (Hle j); [|done].
    apply lookup_lt_Some in Hj. lia.
Qed.

Lemma before_idx (i : nat) (k : bytes) :
  (forall j kv, (j < i)%nat -> kvs !! j = Some kv -> before k kv = true) ->
  (forall j kv, (i <= j)%nat -> kvs !! j = Some kv -> before k kv = false) -> (i <= length kvs)%nat ->
  cur_prev i = last_idx (before k) kvs.
Proof.
  intros Hb Ha Hl. symmetry. destruct i as [|i]; simpl.
  - apply last_idx_None. intros kv Hk. apply list_elem_of_lookup in Hk as [j Hj]. apply (Ha j); [lia|done].
  - apply last_idx_Some. split; [|intros j kv Hj; apply Ha; lia].
    destruct (lookup_lt_is_Some_2 kvs i ltac:(lia)) as [kv Hkv]. exists kv. split; [done|]. apply (Hb i); [lia|done].
Qed.

Lemma cur_prev_idx (i : nat) (kv : bytes * bytes) : kvs !! i = Some kv -> cur_prev i = last_idx (before (fst kv)) kvs.
Proof.
  intros Hi. apply before_idx.
  - intros j kv' Hj Hkv'. unfold before. rewrite (sorted_lookup_lt kvs j i kv' kv HS Hkv' Hi Hj). done.
  - intros j kv' Hj Hkv'. unfold before. destruct (decide (j = i)) as [->|].
    + replace kv' with kv by congruence. rewrite cmp_refl. done.
    + pose proof (sorted_lookup_lt kvs i j kv kv' HS Hi Hkv' ltac:(lia)) as Hlt. apply cmp_gt in Hlt. rewrite Hlt. done.
  - apply lookup_lt_Some in Hi. lia.
Qed.

Lemma before_at_or_past (k : bytes) (kv : bytes * bytes) : before k kv = negb (at_or_past k kv).
Proof. unfold before, at_or_past. destruct (Compare (fst kv) k); done. Qed.

(** [Seek] followed by [Prev], or [SeekToLast] when there is nothing at or past. *)
Lemma seek_prev_idx (k : bytes) :
  match seek_index k kvs with Some i => cur_prev i | None => cur_last kvs end = last_idx (before k) kvs.
Proof.
  destruct (seek_index k kvs) as [i|] eqn:E; [|pose proof (seek_index_end k kvs E) as Hb].
  - destruct (seek_index_spec k kvs i E) as [(kv & Hi & Hp) Hb]. apply before_idx.
    + intros j kv' Hj Hkv'. rewrite before_at_or_past, (Hb j kv' Hj Hkv'). done.
    + intros j kv' Hj Hkv'. rewrite before_at_or_past. apply negb_false_iff.
      destruct (at_or_past k kv') eqn:E'; [done|]. rewrite (before_target kvs k j i kv' kv HS Hkv' E' Hj Hi) in Hp. done.
    + apply lookup_lt_Some in Hi. lia.
  - rewrite cur_last_idx. apply last_idx_ext. intros kv Hk. apply list_elem_of_lookup in Hk as [j Hj].
    rewrite before_at_or_past, (Hb j kv Hj). done.
Qed.

End Sorted.

End SeekIndex.

(** ** The empty iterator *)

Definition EmptyIterator := Status.

#[export] Instance EmptyIterator_iter : Iterator EmptyIterator := {
  it_Valid _ := false;
  it_SeekToFirst s := s;
  it_SeekToLast s := s;
  it_Seek _ s := s;
  it_Next s := s;
  it_Prev s := s;
  it_key _ := [];
  it_value _ := [];
  it_status s := s
}.

Definition NewEmptyIterator : EmptyIterator := StatusOK.
Definition NewErrorIterator (s : Status) : EmptyIterator := s.

(** ** One of two iterators

    [std::unique_ptr<Iterator>] to one of two classes. *)

#[export] Instance sum_iter {A B : Type} {HA : Iterator A} {HB : Iterator B} : Iterator (A + B) := {
  it_Valid s := match s with inl a => it_Valid a | inr b => it_Valid b end;
  it_SeekToFirst s := match s with inl a => inl (it_SeekToFirst a) | inr b => inr (it_SeekToFirst b) end;
  it_SeekToLast s := match s with inl a => inl (it_SeekToLast a) | inr b => inr (it_SeekToLast b) end;
  it_Seek t s := match s with inl a => inl (it_Seek t a) | inr b => inr (it_Seek t b) end;
  it_Next s := match s with inl a => inl (it_Next a) | inr b => inr (it_Next b) end;
  it_Prev s := match s with inl a => inl (it_Prev a) | inr b => inr (it_Prev b) end;
  it_key s := match s with inl a => it_key a | inr b => it_key b end;
  it_value s := match s with inl a => it_value a | inr b => it_value b end;
  it_status s := match s with inl a => it_status a | inr b => it_status b end
}.

Definition right_at {A B : Type} (R : B -> option nat -> Prop) (s : A + B) (c : option nat) : Prop :=
  match s with inl _ => False | inr b => R b c end.

Lemma sum_sim_right {A B : Type} {HA : Iterator A} {HB : Iterator B} {C : Comparator} (kvs : entries) (R : B -> option nat -> Prop) :
  IterSim kvs R -> IterSim kvs (right_at (A := A) R).
Proof. intros []. split; intros [a|b]; simpl; try done; eauto. Qed.

(** ** [IteratorWrapper]: caches [Valid()] and [key()] of the wrapped iterator *)

Record IteratorWrapper (S : Type) := mkWrapper {
  iw_iter : option S;
  iw_valid : bool;
  iw_key : bytes
}.
Arguments mkWrapper {S}.
Arguments iw_iter {S}.
Arguments iw_valid {S}.
Arguments iw_key {S}.

Section Wrapper.
Context {S : Type} `{Iterator S}.

Definition newIteratorWrapper : IteratorWrapper S := mkWrapper None false [].

Definition iw_Update (it : S) (w : IteratorWrapper S) : IteratorWrapper S :=
  let valid := it_Valid it in
  mkWrapper (Some it) valid (if valid then it_key it else iw_key w).

Definition iw_Set (iter : option S) (w : IteratorWrapper S) : IteratorWrapper S :=
  match iter with
  | None => mkWrapper None false (iw_key w)
  | Some it => iw_Update it w
  end.

(** [Next], [Prev], [Seek], [SeekToFirst] and [SeekToLast]: move, then [Update]. *)
Definition iw_move (f : S -> S) (w : IteratorWrapper S) : IteratorWrapper S :=
  match iw_iter w with
  | Some it => iw_Update (f it) w
  | None => w
  end.

Definition iw_Next : IteratorWrapper S -> IteratorWrapper S := iw_move it_Next.
Definition iw_Prev : IteratorWrapper S -> IteratorWrapper S := iw_move it_Prev.
Definition iw_Seek (k : bytes) : IteratorWrapper S -> IteratorWrapper S := iw_move (it_Seek k).
Definition iw_SeekToFirst : IteratorWrapper S -> IteratorWrapper S := iw_move it_SeekToFirst.
Definition iw_SeekToLast : IteratorWrapper S -> IteratorWrapper S := iw_move it_SeekToLast.
Definition iw_value (w : IteratorWrapper S) : bytes :=
  match iw_iter w with Some it => it_value it | None => [] end.

Definition iw_status (w : IteratorWrapper S) : Status :=
  match iw_iter w with Some it => it_status it | None => StatusOK end.

(** The cache is never stale. *)
Definition cache_ok (w : IteratorWrapper S) : Prop :=
  match iw_iter w with
  | Some it => iw_valid w = it_Valid it /\ (it_Valid it = true -> iw_key w = it_key it)
  | None => iw_valid w = false
  end.

Lemma iw_Update_ok (it : S) (w : IteratorWrapper S) : cache_ok (iw_Update it w).
Proof. unfold cache_ok, iw_Update. simpl. split; [done|]. intros ->. done. Qed.

Lemma iw_Set_ok (iter : option S) (w : IteratorWrapper S) : cache_ok (iw_Set iter w).
Proof. destruct iter; [apply iw_Update_ok|done]. Qed.

Lemma iw_move_ok (f : S -> S) (w : IteratorWrapper S) : cache_ok w -> cache_ok (iw_move f w).
Proof. intros Hw. unfold iw_move. destruct (iw_iter w) eqn:E; [apply iw_Update_ok|done]. Qed.

(** A wrapper around an iterator that refines a cursor follows the cursor. *)
Definition iw_at (R : S -> option nat -> Prop) (w : IteratorWrapper S) (c : option nat) : Prop :=
  exists s, iw_iter w = Some s /\ R s c /\ cache_ok w.

Context {C : Comparator} (kvs : entries) (R : S -> option nat -> Prop) (HR : IterSim kvs R).

Lemma iw_at_valid (w : IteratorWrapper S) (c : option nat) :
  iw_at R w c -> iw_valid w = match c with Some _ => true | None => false end.
Proof.
  intros (s & Es & Hs & Hc). unfold cache_ok in Hc. rewrite Es in Hc. destruct Hc as [-> _]. apply (sim_valid _ _ HR _ _ Hs).
Qed.

Lemma iw_at_entry (w : IteratorWrapper S) (i : nat) : iw_at R w (Some i) -> kvs !! i = Some (iw_key w, iw_value w).
Proof.
  intros (s & Es & Hs & Hc). unfold cache_ok in Hc. unfold iw_value. rewrite Es in Hc |- *. destruct Hc as [_ Hk].
  rewrite Hk by apply (sim_valid _ _ HR _ _ Hs). apply (sim_entry _ _ HR _ _ Hs).
Qed.

Lemma iw_at_status (w : IteratorWrapper S) (c : option nat) : iw_at R w c -> iw_status w = StatusOK.
Proof. intros (s & Es & Hs & _). unfold iw_status. rewrite Es. apply (sim_status _ _ HR _ _ Hs). Qed.

Lemma iw_at_move (f : S -> S) (w : IteratorWrapper S) (c c' : option nat) :
  (forall s, R s c -> R (f s) c') -> iw_at R w c -> iw_at R (iw_move f w) c'.
Proof.
  intros Hf (s & Es & Hs & Hc). unfold iw_move. rewrite Es. exists (f s).
  split_and!; [done|auto|apply iw_Update_ok].
Qed.

Lemma iw_at_first (w : IteratorWrapper S) (c : option nat) : iw_at R w c -> iw_at R (iw_SeekToFirst w) (cur_first kvs).
Proof. apply iw_at_move. intros s Hs. apply (sim_first _ _ HR _ _ Hs). Qed.

Lemma iw_at_last (w : IteratorWrapper S) (c : option nat) : iw_at R w c -> iw_at R (iw_SeekToLast w) (cur_last kvs).
Proof. apply iw_at_move. intros s Hs. apply (sim_last _ _ HR _ _ Hs). Qed.

Lemma iw_at_seek (t : bytes) (w : IteratorWrapper S) (c : option nat) :
  iw_at R w c -> iw_at R (iw_Seek t w) (seek_index t kvs).
Proof. apply iw_at_move. intros s Hs. apply (sim_seek _ _ HR _ _ _ Hs). Qed.

Lemma iw_at_next (w : IteratorWrapper S) (i : nat) : iw_at R w (Some i) -> iw_at R (iw_Next w) (cur_next kvs i).
Proof. apply iw_at_move. intros s Hs. apply (sim_next _ _ HR _ _ Hs). Qed.

Lemma iw_at_prev (w : IteratorWrapper S) (i : nat) : iw_at R w (Some i) -> iw_at R (iw_Prev w) (cur_prev i).
Proof. apply iw_at_move. intros s Hs. apply (sim_prev _ _ HR _ _ Hs). Qed.

Lemma iw_at_Set (s : S) (c : option nat) (w : IteratorWrapper S) : R s c -> iw_at R (iw_Set (Some s) w) c.
Proof. intros Hs. exists s. split_and!; [done|done|apply iw_Update_ok]. Qed.

End Wrapper.

(** ** The cursor itself as an iterator

    The reference implementation: every client theorem stated for an arbitrary
    iterator that refines the cursor can be run on it. *)

Record ListIterator := mkListIterator { li_entries : entries; li_pos : option nat }.

Section ListIter.
Context {C : Comparator}.

Definition li_move (f : entries -> option nat) (it : ListIterator) : ListIterator :=
  mkListIterator (li_entries it) (f (li_entries it)).

Definition li_current (it : ListIterator) : bytes * bytes :=
  default ([], []) (cur_observe (li_entries it) (li_pos it)).

#[export] Instance ListIterator_iter : Iterator ListIterator := {
  it_Valid it := match li_pos it with Some _ => true | None => false end;
  it_SeekToFirst := li_move cur_first;
  it_SeekToLast := li_move cur_last;
  it_Seek t := li_move (seek_index t);
  it_Next it := li_move (fun kvs => li_pos it ≫= cur_next kvs) it;
  it_Prev it := li_move (fun _ => li_pos it ≫= cur_prev) it;
  it_key it := fst (li_current it);
  it_value it := snd (li_current it);
  it_status _ := StatusOK
}.

Definition list_at (kvs : entries) (it : ListIterator) (c : option nat) : Prop :=
  li_entries it = kvs /\ li_pos it = c /\ match c with Some i => is_Some (kvs !! i) | None => True end.

Lemma in_range_ok (kvs : entries) (i : nat) :
  match in_range kvs i with Some j => is_Some (kvs !! j) | None => True end.
Proof. unfold in_range. destruct (Nat.ltb_spec i (length kvs)); [apply lookup_lt_is_Some_2; done|done]. Qed.

Lemma ListIterator_sim (kvs : entries) : IterSim kvs (list_at kvs).
Proof.
  assert (forall it c, list_at kvs it c -> it = mkListIterator kvs c) as Hit.
  { intros [k c'] c (E1 & E2 & _). simpl in *. congruence. }
  split.
  - intros it c Hat. rewrite (Hit _ _ Hat). done.
  - intros it i Hat. rewrite (Hit _ _ Hat). destruct Hat as (_ & _ & [[k v] Hkv]).
    simpl. unfold li_current. simpl. rewrite Hkv. done.
  - done.
  - intros it c Hat. rewrite (Hit _ _ Hat). split_and!; [done|done|apply in_range_ok].
  - intros it c Hat. rewrite (Hit _ _ Hat). split_and!; [done|done|apply in_range_ok].
  - intros it c t Hat. rewrite (Hit _ _ Hat). split_and!; [done|done|]. destruct (seek_index t kvs) as [i|] eqn:E; [|done].
    destruct (seek_index_spec t kvs i E) as [(kv & Hkv & _) _]. eauto.
  - intros it i Hat. rewrite (Hit _ _ Hat). split_and!; [done|done|apply in_range_ok].
  - intros it i Hat. rewrite (Hit _ _ Hat). destruct Hat as (_ & _ & [kv Hkv]). split_and!; [done|done|].
    destruct i as [|i]; simpl; [done|]. apply lookup_lt_is_Some_2. apply lookup_lt_Some in Hkv. lia.
Qed.

End ListIter.
