(* ===== verification/Block.v ===== *)
(** * Block: sorted blocks with prefix compression ([table/block_builder.cc],
    [table/block.cc])

    The builder's state and the reader's iterator are kept field by field; the
    iterator's [value_] view is the offset and the size it has in the block.  The
    main result is that an iterator over a built block refines the abstract
    cursor over the entries that were added. *)

From S2P Require Import Prelude Status Coding Comparator Logging Iterator.
From Stdlib Require Import Sorting.Sorted.

(** ** [BlockBuilder] *)

Record BlockBuilder := mkBlockBuilder {
  bb_restart_interval : Z;
  bb_buffer : bytes;
  bb_restarts : list Z;
  bb_counter : Z;
  bb_finished : bool;
  bb_last_key : bytes
}.

Definition newBlockBuilder (block_restart_interval : Z) : BlockBuilder :=
  mkBlockBuilder block_restart_interval [] [0] 0 false [].

Definition BlockBuilder_Reset (b : BlockBuilder) : BlockBuilder :=
  mkBlockBuilder (bb_restart_interval b) [] [0] 0 false [].

Definition CurrentSizeEstimate (b : BlockBuilder) : Z :=
  zlen (bb_buffer b) + zlen (bb_restarts b) * 4 + 4.

Definition BlockBuilder_empty (b : BlockBuilder) : bool := zlen (bb_buffer b) =? 0.

Definition BlockBuilder_Finish (b : BlockBuilder) : BlockBuilder * bytes :=
  let buffer := fold_left PutFixed32 (bb_restarts b) (bb_buffer b) in
  let buffer := PutFixed32 buffer (u32 (zlen (bb_restarts b))) in
  (mkBlockBuilder (bb_restart_interval b) buffer (bb_restarts b) (bb_counter b) true (bb_last_key b), buffer).

Definition BlockBuilder_Add (b : BlockBuilder) (key value : bytes) : BlockBuilder :=
  let last_key_piece := bb_last_key b in
  let '(shared, restarts, counter) :=
    if bb_counter b <? bb_restart_interval b
    then (diff_index last_key_piece key, bb_restarts b, bb_counter b)
    else (0%nat, bb_restarts b ++ [u32 (zlen (bb_buffer b))], 0) in
  let non_shared := zlen key - Z.of_nat shared in
  let buffer := PutVarint32 (bb_buffer b) (u32 (Z.of_nat shared)) in
  let buffer := PutVarint32 buffer (u32 non_shared) in
  let buffer := PutVarint32 buffer (u32 (zlen value)) in
  let buffer := buffer ++ drop shared key in
  let buffer := buffer ++ value in
  let last_key := take shared (bb_last_key b) ++ drop shared key in
  mkBlockBuilder (bb_restart_interval b) buffer restarts (counter + 1) (bb_finished b) last_key.

(** ** [Block] *)

Record Block := mkBlock { blk_data : bytes; blk_size : Z; blk_restart_offset : Z }.

Definition NumRestarts (data : bytes) (size : Z) : Z := DecodeFixed32 (zdrop (size - 4) data).

Definition newBlock (data : bytes) : Block :=
  let size := zlen data in
  if size <? 4 then mkBlock data 0 0
  else
    let max_restarts_allowed := (size - 4) / 4 in
    if max_restarts_allowed <? NumRestarts data size then mkBlock data 0 0
    else mkBlock data size (u32 (size - u32 (1 + NumRestarts data size) * 4)).

(** [DecodeEntry] on the bytes between [p] and [limit].  The sum of the two sizes
    is computed in 32 bits. *)
Definition DecodeEntry (p : bytes) : option (Z * Z * Z * bytes) :=
  if zlen p <? 3 then None
  else
    let b i := bz (nth i p Byte.x00) in
    '(shared, non_shared, value_length, p) ←
      (if Z.lor (Z.lor (b 0%nat) (b 1%nat)) (b 2%nat) <? 128
       then Some (b 0%nat, b 1%nat, b 2%nat, drop 3 p)
       else
         '(shared, p) ← GetVarint32Ptr p;
         '(non_shared, p) ← GetVarint32Ptr p;
         '(value_length, p) ← GetVarint32Ptr p;
         Some (shared, non_shared, value_length, p));
    if u32 (zlen p) <? u32 (non_shared + value_length) then None
    else Some (shared, non_shared, value_length, p).

(** ** [Block::Iter] *)

Record BlockIter := mkBlockIter {
  bi_data : bytes;
  bi_restarts : Z;
  bi_num_restarts : Z;
  bi_current : Z;
  bi_restart_index : Z;
  bi_key : bytes;
  bi_value_off : Z;
  bi_value_len : Z;
  bi_status : Status
}.

Definition newBlockIter (data : bytes) (restarts num_restarts : Z) : BlockIter :=
  mkBlockIter data restarts num_restarts restarts num_restarts [] 0 0 StatusOK.

Section BlockIterDef.
Context {C : Comparator}.

Definition bi_Valid (it : BlockIter) : bool := bi_current it <? bi_restarts it.
Definition bi_value (it : BlockIter) : bytes := ztake (bi_value_len it) (zdrop (bi_value_off it) (bi_data it)).

Definition NextEntryOffset (it : BlockIter) : Z := u32 (bi_value_off it + bi_value_len it).

Definition GetRestartPoint (it : BlockIter) (index : Z) : Z :=
  DecodeFixed32 (zdrop (bi_restarts it + index * 4) (bi_data it)).

Definition SeekToRestartPoint (it : BlockIter) (index : Z) : BlockIter :=
  mkBlockIter (bi_data it) (bi_restarts it) (bi_num_restarts it) (bi_current it) index []
    (GetRestartPoint it index) 0 (bi_status it).

Definition CorruptionError (it : BlockIter) : BlockIter :=
  mkBlockIter (bi_data it) (bi_restarts it) (bi_num_restarts it) (bi_restarts it) (bi_num_restarts it)
    [] 0 0 (Corruption "bad entry in block" "").

(** [while (restart_index_ + 1 < num_restarts_ && GetRestartPoint(restart_index_ + 1) < current_)]. *)
Fixpoint advance_restart (fuel : nat) (it : BlockIter) (current index : Z) : Z :=
  match fuel with
  | O => index
  | S fuel' =>
      if (u32 (index + 1) <? bi_num_restarts it) && (GetRestartPoint it (u32 (index + 1)) <? current)
      then advance_restart fuel' it current (u32 (index + 1)) else index
  end.

Definition ParseNextKey (it : BlockIter) : bool * BlockIter :=
  let current := NextEntryOffset it in
  if bi_restarts it <=? current then
    (false, mkBlockIter (bi_data it) (bi_restarts it) (bi_num_restarts it) (bi_restarts it)
              (bi_num_restarts it) (bi_key it) (bi_value_off it) (bi_value_len it) (bi_status it))
  else
    match DecodeEntry (zdrop current (ztake (bi_restarts it) (bi_data it))) with
    | None => (false, CorruptionError it)
    | Some (shared, non_shared, value_length, p) =>
        if zlen (bi_key it) <? shared then (false, CorruptionError it)
        else
          let key := ztake shared (bi_key it) ++ ztake non_shared p in
          let p_off := bi_restarts it - zlen p in
          let index := advance_restart (Z.to_nat (bi_num_restarts it)) it current (bi_restart_index it) in
          (true, mkBlockIter (bi_data it) (bi_restarts it) (bi_num_restarts it) current index key
                   (p_off + non_shared) value_length (bi_status it))
    end.

Definition bi_Next (it : BlockIter) : BlockIter := snd (ParseNextKey it).

(** [do {} while (ParseNextKey() && NextEntryOffset() < limit)]: every iteration
    moves forward in the block, so its size is enough fuel. *)
Fixpoint parse_until (fuel : nat) (limit : Z) (it : BlockIter) : BlockIter :=
  match fuel with
  | O => it
  | S fuel' =>
      let '(more, it) := ParseNextKey it in
      if more && (NextEntryOffset it <? limit) then parse_until fuel' limit it else it
  end.

(** The first loop of [Prev]: back to a restart point before [original], or
    [None] when there is no entry before. *)
Fixpoint prev_restart (index : nat) (it : BlockIter) (original : Z) : option Z :=
  if original <=? GetRestartPoint it (Z.of_nat index) then
    match index with
    | O => None
    | S index' => prev_restart index' it original
    end
  else Some (Z.of_nat index).

Definition iter_fuel (it : BlockIter) : nat := length (bi_data it).

Definition bi_Prev (it : BlockIter) : BlockIter :=
  let original := bi_current it in
  match prev_restart (Z.to_nat (bi_restart_index it)) it original with
  | None => mkBlockIter (bi_data it) (bi_restarts it) (bi_num_restarts it) (bi_restarts it)
              (bi_num_restarts it) (bi_key it) (bi_value_off it) (bi_value_len it) (bi_status it)
  | Some index => parse_until (S (iter_fuel it)) original (SeekToRestartPoint it index)
  end.

(** The binary search over the restart array; [None] is the corruption return. *)
Fixpoint seek_restart (fuel : nat) (it : BlockIter) (target : bytes) (left right : Z) : option Z :=
  match fuel with
  | O => Some left
  | S fuel' =>
      if left <? right then
        let mid := u32 (left + right + 1) / 2 in
        let region_offset := GetRestartPoint it mid in
        match DecodeEntry (zdrop region_offset (ztake (bi_restarts it) (bi_data it))) with
        | None => None
        | Some (shared, non_shared, value_length, key_ptr) =>
            if negb (shared =? 0) then None
            else
              let mid_key := ztake non_shared key_ptr in
              match Compare mid_key target with
              | Lt => seek_restart fuel' it target mid right
              | _ => seek_restart fuel' it target left (mid - 1)
              end
        end
      else Some left
  end.

(** [while (true)]: the linear search for the first key at or past [target]. *)
Fixpoint seek_linear (fuel : nat) (target : bytes) (it : BlockIter) : BlockIter :=
  match fuel with
  | O => it
  | S fuel' =>
      match ParseNextKey it with
      | (false, it) => it
      | (true, it) =>
          match Compare (bi_key it) target with
          | Lt => seek_linear fuel' target it
          | _ => it
          end
      end
  end.

(** The part of [Seek] after [left], [right] and [current_key_compare] are set. *)
Definition seek_between (target : bytes) (it : BlockIter) (left right : Z) (current_key_compare : comparison) : BlockIter :=
  match seek_restart (Z.to_nat (bi_num_restarts it)) it target left right with
  | None => CorruptionError it
  | Some left_ =>
      let skip_seek := (left_ =? bi_restart_index it) && match current_key_compare with Lt => true | _ => false end in
      let it := if skip_seek then it else SeekToRestartPoint it left_ in
      seek_linear (S (iter_fuel it)) target it
  end.

Definition bi_Seek (target : bytes) (it : BlockIter) : BlockIter :=
  let right := u32 (bi_num_restarts it - 1) in
  if bi_Valid it then
    match Compare (bi_key it) target with
    | Lt => seek_between target it (bi_restart_index it) right Lt
    | Gt => seek_between target it 0 (bi_restart_index it) Gt
    | Eq => it
    end
  else seek_between target it 0 right Eq.

Definition bi_SeekToFirst (it : BlockIter) : BlockIter := snd (ParseNextKey (SeekToRestartPoint it 0)).

Definition bi_SeekToLast (it : BlockIter) : BlockIter :=
  parse_until (S (iter_fuel it)) (bi_restarts it) (SeekToRestartPoint it (u32 (bi_num_restarts it - 1))).

#[export] Instance BlockIter_iter : Iterator BlockIter := {
  it_Valid := bi_Valid;
  it_SeekToFirst := bi_SeekToFirst;
  it_SeekToLast := bi_SeekToLast;
  it_Seek := bi_Seek;
  it_Next := bi_Next;
  it_Prev := bi_Prev;
  it_key := bi_key;
  it_value := bi_value;
  it_status := bi_status
}.

End BlockIterDef.

(** [Block::NewIterator]: an error, an empty or a real iterator. *)
Definition Block_NewIterator (b : Block) : EmptyIterator + BlockIter :=
  if blk_size b <? 4 then inl (NewErrorIterator (Corruption "bad block contents" ""))
  else
    let num_restarts := NumRestarts (blk_data b) (blk_size b) in
    if num_restarts =? 0 then inl NewEmptyIterator
    else inr (newBlockIter (blk_data b) (blk_restart_offset b) num_restarts).

(** ** Sanity of the executable definitions *)

Definition build_block (interval : Z) (kvs : entries) : bytes :=
  snd (BlockBuilder_Finish (fold_left (fun b kv => BlockBuilder_Add b (fst kv) (snd kv)) kvs
                              (newBlockBuilder interval))).

(** ** The layout of a block

    An entry as it is stored, with the number of bytes it shares with the key
    before it. *)

Record ent := mkEnt { en_shared : nat; en_key : bytes; en_val : bytes }.

Definition ent_bytes (e : ent) : bytes :=
  EncodeVarint32 (u32 (Z.of_nat (en_shared e))) ++
  EncodeVarint32 (u32 (zlen (en_key e) - Z.of_nat (en_shared e))) ++
  EncodeVarint32 (u32 (zlen (en_val e))) ++ drop (en_shared e) (en_key e) ++ en_val e.

Definition ents_bytes (l : list ent) : bytes := concat (map ent_bytes l).

(** The offset of the [i]-th entry. *)
Definition off (l : list ent) (i : nat) : Z := zlen (ents_bytes (take i l)).

Definition ent_kv (e : ent) : bytes * bytes := (en_key e, en_val e).

(** [rs] are the entries at the restart points. *)
Record BlockOK (l : list ent) (rs : list nat) : Prop := {
  ok_shared : forall i e, l !! i = Some e ->
    en_shared e = 0%nat \/
    exists i' e', i = S i' /\ l !! i' = Some e' /\
      (en_shared e <= length (en_key e))%nat /\ (en_shared e <= length (en_key e'))%nat /\
      take (en_shared e) (en_key e') = take (en_shared e) (en_key e);
  ok_rs_first : rs !! 0%nat = Some 0%nat;
  ok_rs_range : forall j r, rs !! j = Some r -> r = 0%nat \/ (r < length l)%nat;
  ok_rs_shared : forall j r e, rs !! j = Some r -> l !! r = Some e -> en_shared e = 0%nat;
  ok_rs_mono : forall j1 j2 r1 r2, (j1 < j2)%nat -> rs !! j1 = Some r1 -> rs !! j2 = Some r2 -> (r1 < r2)%nat
}.

Definition restart_array (l : list ent) (rs : list nat) : bytes :=
  concat (map (fun r => EncodeFixed32 (u32 (off l r))) rs).

Definition block_data (l : list ent) (rs : list nat) : bytes :=
  ents_bytes l ++ restart_array l rs ++ EncodeFixed32 (u32 (zlen rs)).

Lemma ents_bytes_app (a b : list ent) : ents_bytes (a ++ b) = ents_bytes a ++ ents_bytes b.
Proof. unfold ents_bytes. rewrite map_app, concat_app. done. Qed.

Lemma ents_bytes_cons (e : ent) (l : list ent) : ents_bytes (e :: l) = ent_bytes e ++ ents_bytes l.
Proof. done. Qed.

Lemma length_EncodeVarint32_pos (v : Z) : (1 <= length (EncodeVarint32 (u32 v)))%nat.
Proof.
  rewrite EncodeVarint32_loop by (apply wrap_range; lia).
  pose proof (length_EncodeVarint64_loop 4 (u32 v)). lia.
Qed.

Lemma ent_bytes_length (e : ent) : 3 + zlen (drop (en_shared e) (en_key e)) + zlen (en_val e) <= zlen (ent_bytes e).
Proof.
  unfold ent_bytes. rewrite !zlen_app.
  pose proof (length_EncodeVarint32_pos (Z.of_nat (en_shared e))).
  pose proof (length_EncodeVarint32_pos (zlen (en_key e) - Z.of_nat (en_shared e))).
  pose proof (length_EncodeVarint32_pos (zlen (en_val e))). unfold zlen in *. lia.
Qed.

Lemma off_S (l : list ent) (i : nat) (e : ent) : l !! i = Some e -> off l (S i) = off l i + zlen (ent_bytes e).
Proof.
  intros Hi. unfold off. rewrite (take_S_r l i e Hi), ents_bytes_app, zlen_app, ents_bytes_cons.
  rewrite zlen_app. change (zlen (ents_bytes [])) with 0. lia.
Qed.

Lemma off_mono (l : list ent) (i j : nat) : (i <= j)%nat -> off l i <= off l j.
Proof.
  intros Hij. unfold off. replace j with (i + (j - i))%nat by lia.
  rewrite <- (take_take_drop l i (j - i)).
  rewrite ents_bytes_app, zlen_app. pose proof (zlen_nonneg (ents_bytes (take (j - i) (drop i l)))). lia.
Qed.

Lemma off_lt (l : list ent) (i j : nat) : (i < j)%nat -> (i < length l)%nat -> off l i < off l j.
Proof.
  intros Hij Hi. apply lookup_lt_is_Some in Hi as [e He]. pose proof (off_S l i e He).
  pose proof (ent_bytes_length e). pose proof (off_mono l (S i) j ltac:(lia)).
  pose proof (zlen_nonneg (drop (en_shared e) (en_key e))). pose proof (zlen_nonneg (en_val e)). lia.
Qed.

Lemma off_end (l : list ent) : off l (length l) = zlen (ents_bytes l).
Proof. unfold off. rewrite firstn_all. done. Qed.

Lemma off_drop (l : list ent) (i : nat) : zdrop (off l i) (ents_bytes l) = ents_bytes (drop i l).
Proof.
  unfold off. rewrite <- (take_drop i l) at 2. rewrite ents_bytes_app. apply zdrop_app_exact.
Qed.

Lemma off_split (l : list ent) (i : nat) : zlen (ents_bytes l) = off l i + zlen (ents_bytes (drop i l)).
Proof. unfold off. rewrite <- zlen_app, <- ents_bytes_app, take_drop. done. Qed.

(** ** Decoding one entry *)

Lemma first_byte_small (v : Z) (rest : bytes) :
  0 <= v < 2 ^ 32 -> v < 128 -> EncodeVarint32 v ++ rest = zb v :: rest.
Proof.
  intros Hv Hs. unfold EncodeVarint32. change (Z.shiftl 1 7) with 128.
  destruct (Z.ltb_spec v 128); [done|lia].
Qed.

Lemma first_byte_large (v : Z) (rest : bytes) :
  0 <= v < 2 ^ 32 -> 128 <= v -> 128 <= bz (nth 0 (EncodeVarint32 v ++ rest) Byte.x00).
Proof.
  intros Hv Hl. rewrite EncodeVarint32_loop by done. cbn [EncodeVarint64_loop].
  destruct (Z.leb_spec 128 v); [|lia]. simpl. rewrite continuation_byte by lia.
  pose proof (Z.mod_pos_bound v 128 ltac:(lia)). lia.
Qed.

Lemma lor_ge_l (a b : Z) : 0 <= a -> 0 <= b -> a <= Z.lor a b.
Proof.
  intros Ha Hb. apply (Z.ldiff_le a (Z.lor a b)); [apply Z.lor_nonneg; lia|].
  apply Zbits_inj_nonneg. intros i _. rewrite Z.ldiff_spec, Z.lor_spec, Z.bits_0.
  destruct (Z.testbit a i); done.
Qed.

Lemma lor_small (a b : Z) : 0 <= a -> 0 <= b -> Z.lor a b < 128 <-> a < 128 /\ b < 128.
Proof.
  intros Ha Hb. split.
  - intros H. pose proof (lor_ge_l a b Ha Hb). pose proof (lor_ge_l b a Hb Ha) as H'.
    rewrite Z.lor_comm in H'. lia.
  - intros [H1 H2]. apply (lor_range 7 a b); lia.
Qed.

Lemma DecodeEntry_header (sh ns vl : Z) (tail : bytes) :
  0 <= sh < 2 ^ 32 -> 0 <= ns < 2 ^ 32 -> 0 <= vl < 2 ^ 32 ->
  DecodeEntry (EncodeVarint32 sh ++ EncodeVarint32 ns ++ EncodeVarint32 vl ++ tail)
  = if u32 (zlen tail) <? u32 (ns + vl) then None else Some (sh, ns, vl, tail).
Proof.
  intros Hsh Hns Hvl. unfold DecodeEntry.
  set (p := EncodeVarint32 sh ++ EncodeVarint32 ns ++ EncodeVarint32 vl ++ tail).
  assert (3 <= zlen p) as H3.
  { pose proof (length_EncodeVarint32_pos sh) as H1. pose proof (length_EncodeVarint32_pos ns) as H2.
    pose proof (length_EncodeVarint32_pos vl) as H4. rewrite !wrap_small in H1, H2, H4 by done.
    unfold p. rewrite !zlen_app. pose proof (zlen_nonneg tail). unfold zlen in *. lia. }
  destruct (Z.ltb_spec (zlen p) 3); [lia|]. cbn zeta.
  assert (forall v rest, 0 <= v < 2 ^ 32 -> bz (nth 0 (EncodeVarint32 v ++ rest) Byte.x00) < 128 ->
            v < 128 /\ EncodeVarint32 v ++ rest = zb v :: rest) as Hsmall.
  { intros v rest Hv Hb. destruct (Z.lt_ge_cases v 128); [split; [done|apply first_byte_small; done]|].
    pose proof (first_byte_large v rest Hv). lia. }
  assert ((if Z.lor (Z.lor (bz (nth 0 p Byte.x00)) (bz (nth 1 p Byte.x00))) (bz (nth 2 p Byte.x00)) <? 128
           then Some (bz (nth 0 p Byte.x00), bz (nth 1 p Byte.x00), bz (nth 2 p Byte.x00), drop 3 p)
           else '(shared, p) ← GetVarint32Ptr p; '(non_shared, p) ← GetVarint32Ptr p;
                '(value_length, p) ← GetVarint32Ptr p; Some (shared, non_shared, value_length, p))
          = Some (sh, ns, vl, tail)) as ->.
  { pose proof (bz_range (nth 0 p Byte.x00)). pose proof (bz_range (nth 1 p Byte.x00)). pose proof (bz_range (nth 2 p Byte.x00)).
    destruct (Z.ltb_spec (Z.lor (Z.lor (bz (nth 0 p Byte.x00)) (bz (nth 1 p Byte.x00))) (bz (nth 2 p Byte.x00))) 128) as [Hlt|_].
    - rewrite !lor_small in Hlt by (try apply Z.lor_nonneg; lia). destruct Hlt as [[Hb0 Hb1] Hb2].
      unfold p in *. destruct (Hsmall _ _ Hsh Hb0) as [Hs0 E0]. rewrite E0 in *. simpl nth in Hb1, Hb2 |- *.
      destruct (Hsmall _ _ Hns Hb1) as [Hs1 E1]. rewrite E1 in *. simpl nth in Hb2 |- *.
      destruct (Hsmall _ _ Hvl Hb2) as [Hs2 E2]. rewrite E2. simpl. rewrite !bz_zb_small by lia. done.
    - assert (forall v rest, 0 <= v < 2 ^ 32 -> GetVarint32Ptr (EncodeVarint32 v ++ rest) = Some (v, rest)) as G
        by (intros; apply GetVarint32_Encode; done).
      unfold p. rewrite G by done. cbn [mbind option_bind]. rewrite G by done. cbn [mbind option_bind].
      rewrite G by done. done. }
  done.
Qed.

Lemma DecodeEntry_encode (sh ns vl : Z) (tail : bytes) :
  0 <= sh < 2 ^ 32 -> 0 <= ns < 2 ^ 32 -> 0 <= vl < 2 ^ 32 -> ns + vl <= zlen tail < 2 ^ 32 ->
  DecodeEntry (EncodeVarint32 sh ++ EncodeVarint32 ns ++ EncodeVarint32 vl ++ tail) = Some (sh, ns, vl, tail).
Proof.
  intros Hsh Hns Hvl Htail. rewrite DecodeEntry_header by done. rewrite !wrap_small by lia.
  destruct (Z.ltb_spec (zlen tail) (ns + vl)); [lia|done].
Qed.

(** ** The iterator on a well-formed block *)

Section Layout.
Context {C : Comparator} {CL : ComparatorLaws C}.
Context (l : list ent) (rs : list nat) (HB : BlockOK l rs).
Context (Hsize : zlen (block_data l rs) < 2 ^ 32).

Lemma restart_array_length (l' : list ent) (rs' : list nat) : zlen (restart_array l' rs') = 4 * zlen rs'.
Proof.
  unfold restart_array. induction rs' as [|r rs' IH]; [done|].
  cbn [map concat]. rewrite zlen_app, IH, zlen_cons, zlen_EncodeFixed32. lia.
Qed.

Lemma size_bounds : zlen (ents_bytes l) + 4 * zlen rs + 4 < 2 ^ 32.
Proof.
  unfold block_data in Hsize. rewrite !zlen_app, restart_array_length, zlen_EncodeFixed32 in Hsize. lia.
Qed.

Lemma off_range (i : nat) : 0 <= off l i <= zlen (ents_bytes l).
Proof.
  split; [apply zlen_nonneg|]. destruct (Nat.le_gt_cases i (length l)).
  - rewrite <- off_end. apply off_mono. done.
  - unfold off. rewrite take_ge by lia. lia.
Qed.

Lemma off_range32 (i : nat) : 0 <= off l i < 2 ^ 32.
Proof. pose proof (off_range i). pose proof size_bounds. pose proof (zlen_nonneg rs). lia. Qed.

Record base (it : BlockIter) : Prop := {
  base_data : bi_data it = block_data l rs;
  base_restarts : bi_restarts it = zlen (ents_bytes l);
  base_num : bi_num_restarts it = zlen rs;
  base_status : bi_status it = StatusOK
}.

Lemma GetRestartPoint_spec (it : BlockIter) (j r : nat) :
  base it -> rs !! j = Some r -> GetRestartPoint it (Z.of_nat j) = off l r.
Proof.
  intros B Hj. unfold GetRestartPoint. rewrite (base_data _ B), (base_restarts _ B). unfold block_data.
  apply list_elem_of_split_length in Hj as (a & b & E & ->).
  unfold restart_array. rewrite E, map_app, concat_app. cbn [map concat]. rewrite <- !app_assoc, app_assoc.
  replace (zlen (ents_bytes l) + Z.of_nat (length a) * 4) with (zlen (ents_bytes l ++ restart_array l a))
    by (rewrite zlen_app, restart_array_length; unfold zlen; lia).
  fold (restart_array l a). rewrite zdrop_app_exact, DecodeFixed32_Encode by (apply wrap_range; lia).
  apply wrap_small, off_range32.
Qed.

Lemma ents_region (it : BlockIter) : base it -> ztake (bi_restarts it) (bi_data it) = ents_bytes l.
Proof. intros B. rewrite (base_data _ B), (base_restarts _ B). apply ztake_app_exact. Qed.

Lemma shared_le (i : nat) (e : ent) : l !! i = Some e -> (en_shared e <= length (en_key e))%nat.
Proof. intros Hi. destruct (ok_shared _ _ HB i e Hi) as [->|(i' & e' & _ & _ & H & _)]; [lia|done]. Qed.

Lemma ent_size (i : nat) (e : ent) :
  l !! i = Some e -> off l i + 3 + (zlen (en_key e) - Z.of_nat (en_shared e)) + zlen (en_val e) <= off l (S i).
Proof.
  intros Hi. rewrite (off_S l i e Hi). pose proof (ent_bytes_length e) as H. pose proof (shared_le i e Hi).
  unfold zlen at 1 in H. rewrite length_drop in H. unfold zlen in *. lia.
Qed.

(** Keys are as short as the block: a shared prefix was once written out. *)
Lemma key_size (i : nat) (e : ent) : l !! i = Some e -> zlen (en_key e) <= off l (S i).
Proof.
  revert e. induction i as [i IH] using lt_wf_ind. intros e Hi. pose proof (ent_size i e Hi) as Hs.
  pose proof (zlen_nonneg (en_val e)). pose proof (off_range i).
  destruct (ok_shared _ _ HB i e Hi) as [Hz|(i' & e' & -> & Hi' & _ & Hl & _)]; [lia|].
  pose proof (IH i' ltac:(lia) e' Hi') as HIH. unfold zlen in *. lia.
Qed.

Lemma decode_at (it : BlockIter) (i : nat) (e : ent) :
  base it -> l !! i = Some e ->
  DecodeEntry (zdrop (off l i) (ztake (bi_restarts it) (bi_data it)))
  = Some (Z.of_nat (en_shared e), zlen (en_key e) - Z.of_nat (en_shared e), zlen (en_val e),
          drop (en_shared e) (en_key e) ++ en_val e ++ ents_bytes (drop (S i) l)).
Proof.
  intros B Hi. rewrite (ents_region it B), off_drop, (drop_S l e i Hi), ents_bytes_cons.
  pose proof (ent_size i e Hi) as Hs. pose proof (shared_le i e Hi). pose proof (off_range32 (S i)).
  pose proof (key_size i e Hi). pose proof (off_range i). pose proof (zlen_nonneg (en_val e)).
  assert (0 <= zlen (en_key e) - Z.of_nat (en_shared e)) by (unfold zlen; lia).
  unfold ent_bytes. rewrite !wrap_small by lia. rewrite <- !app_assoc.
  pose proof (off_split l (S i)) as Hsplit. pose proof size_bounds. pose proof (zlen_nonneg rs).
  pose proof (zlen_nonneg (ents_bytes (drop (S i) l))).
  assert (zlen (drop (en_shared e) (en_key e)) = zlen (en_key e) - Z.of_nat (en_shared e)) as Ed
    by (unfold zlen; rewrite length_drop; lia).
  apply DecodeEntry_encode; [lia|lia|lia|]. rewrite !zlen_app, Ed. lia.
Qed.

(** ** Positions *)

(** A restart index that is not past entry [i]. *)
Definition index_ok (index : Z) (i : nat) : Prop :=
  exists j r, index = Z.of_nat j /\ rs !! j = Some r /\ (r <= i)%nat.

Record at_entry (it : BlockIter) (i : nat) : Prop := {
  ae_base : base it;
  ae_entry : exists e, l !! i = Some e /\ bi_key it = en_key e /\ bi_value_len it = zlen (en_val e);
  ae_current : bi_current it = off l i;
  ae_next : bi_value_off it + bi_value_len it = off l (S i);
  ae_index : index_ok (bi_restart_index it) i
}.

Record ended (it : BlockIter) : Prop := {
  end_base : base it;
  end_current : bi_current it = bi_restarts it
}.

(** The next call of [ParseNextKey] will parse entry [i]. *)
Record ready (it : BlockIter) (i : nat) : Prop := {
  rd_base : base it;
  rd_next : bi_value_off it + bi_value_len it = off l i;
  rd_len : (i <= length l)%nat;
  rd_key : forall e, l !! i = Some e ->
    (en_shared e <= length (bi_key it))%nat /\ take (en_shared e) (bi_key it) = take (en_shared e) (en_key e);
  rd_index : index_ok (bi_restart_index it) i
}.

Lemma advance_restart_ok (fuel : nat) (it : BlockIter) (i : nat) (index : Z) :
  base it -> index_ok index i -> index_ok (advance_restart fuel it (off l i) index) i.
Proof.
  intros B. revert index. induction fuel as [|fuel IH]; intros index HI; [done|]. cbn [advance_restart].
  destruct HI as (j & r & -> & Hj & Hr). pose proof size_bounds. pose proof (zlen_nonneg (ents_bytes l)).
  assert (Z.of_nat j < zlen rs) as Hjl by (apply lookup_lt_Some in Hj; unfold zlen; lia).
  rewrite wrap_small by lia. rewrite (base_num _ B).
  destruct (Z.ltb_spec (Z.of_nat j + 1) (zlen rs)) as [Hlt|]; [|exists j, r; done].
  assert (is_Some (rs !! S j)) as [r' Hr'] by (apply lookup_lt_is_Some; unfold zlen in Hlt; lia).
  replace (Z.of_nat j + 1) with (Z.of_nat (S j)) by lia. rewrite (GetRestartPoint_spec it (S j) r' B Hr'). cbn [andb].
  destruct (Z.ltb_spec (off l r') (off l i)) as [Ho|]; [|exists j, r; done].
  apply IH. exists (S j), r'. split_and!; [done|done|].
  destruct (Nat.le_gt_cases r' i) as [|Hgt]; [done|]. pose proof (off_mono l i r' ltac:(lia)). lia.
Qed.

Lemma ParseNextKey_entry (it : BlockIter) (i : nat) (e : ent) :
  ready it i -> l !! i = Some e -> exists it', ParseNextKey it = (true, it') /\ at_entry it' i.
Proof.
  intros [B Hn Hl Hk HI] Hi. destruct (Hk e Hi) as [Hsh Htk].
  pose proof (off_range32 i). pose proof (ent_size i e Hi) as Hs. pose proof (off_range (S i)).
  pose proof (zlen_nonneg (en_val e)). pose proof (shared_le i e Hi).
  unfold ParseNextKey, NextEntryOffset. rewrite Hn, wrap_small by done.
  pose proof (base_restarts _ B) as Er. cbv zeta.
  destruct (Z.leb_spec (bi_restarts it) (off l i)); [unfold zlen in *; lia|].
  rewrite (decode_at it i e B Hi).
  destruct (Z.ltb_spec (zlen (bi_key it)) (Z.of_nat (en_shared e))); [unfold zlen in *; lia|].
  eexists. split; [reflexivity|]. split; simpl.
  - destruct B. split; done.
  - exists e. split; [done|]. split; [|done]. unfold ztake at 1. rewrite Nat2Z.id, Htk.
    assert (zlen (en_key e) - Z.of_nat (en_shared e) = zlen (drop (en_shared e) (en_key e))) as ->
      by (unfold zlen; rewrite length_drop; lia).
    rewrite ztake_app_exact. apply take_drop.
  - done.
  - rewrite (base_restarts _ B), !zlen_app.
    rewrite (off_split l (S i)).
    assert (zlen (drop (en_shared e) (en_key e)) = zlen (en_key e) - Z.of_nat (en_shared e)) as ->
      by (unfold zlen; rewrite length_drop; lia). lia.
  - apply advance_restart_ok; done.
Qed.

Lemma ParseNextKey_end (it : BlockIter) :
  ready it (length l) -> exists it', ParseNextKey it = (false, it') /\ ended it'.
Proof.
  intros [B Hn Hl Hk HI]. unfold ParseNextKey, NextEntryOffset. rewrite Hn, off_end.
  pose proof (off_range32 (length l)) as Ho. rewrite off_end in Ho. rewrite wrap_small by done.
  pose proof (base_restarts _ B) as Er. cbv zeta.
  destruct (Z.leb_spec (bi_restarts it) (zlen (ents_bytes l))); [|lia].
  eexists. split; [reflexivity|]. split; [destruct B; split; done|done].
Qed.

Lemma at_entry_ready (it : BlockIter) (i : nat) : at_entry it i -> ready it (S i).
Proof.
  intros [B (e & Hi & Ek & Ev) Hc Hn (j & r & Ej & Hj & Hr)]. split; [done|done|..].
  - apply lookup_lt_Some in Hi. lia.
  - intros e' He'. destruct (ok_shared _ _ HB (S i) e' He') as [H0|(i' & e2 & [= <-] & He2 & _ & Hl & Ht)].
    + rewrite H0. split; [lia|done].
    + rewrite Hi in He2. injection He2 as <-. rewrite Ek. done.
  - exists j, r. split_and!; [done|done|lia].
Qed.

Lemma SeekToRestartPoint_ready (it : BlockIter) (j r : nat) :
  base it -> rs !! j = Some r -> ready (SeekToRestartPoint it (Z.of_nat j)) r.
Proof.
  intros B Hj. split; simpl.
  - destruct B. split; done.
  - rewrite (GetRestartPoint_spec it j r B Hj). lia.
  - destruct (ok_rs_range _ _ HB j r Hj); lia.
  - intros e He. rewrite (ok_rs_shared _ _ HB j r e Hj He). split; [lia|done].
  - exists j, r. done.
Qed.

(** ** The loops of the iterator *)

Lemma at_entry_lt (it : BlockIter) (i : nat) : at_entry it i -> (i < length l)%nat.
Proof. intros [_ (e & Hi & _) _ _ _]. eapply lookup_lt_Some; done. Qed.

Lemma at_entry_next (it : BlockIter) (i : nat) : at_entry it i -> NextEntryOffset it = off l (S i).
Proof. intros A. unfold NextEntryOffset. rewrite (ae_next _ _ A). apply wrap_small, off_range32. Qed.

Lemma off_ge (i : nat) : (i <= length l)%nat -> Z.of_nat i <= off l i.
Proof.
  induction i as [|i IH]; intros Hi; [pose proof (off_range 0); lia|].
  pose proof (off_lt l i (S i) ltac:(lia) ltac:(lia)). specialize (IH ltac:(lia)). lia.
Qed.

Lemma fuel_enough (it : BlockIter) : base it -> (length l <= iter_fuel it)%nat.
Proof.
  intros B. unfold iter_fuel. rewrite (base_data _ B). pose proof (off_ge (length l) ltac:(lia)) as H.
  rewrite off_end in H. unfold block_data. rewrite length_app. unfold zlen in H. lia.
Qed.

(** [do {} while (ParseNextKey() && NextEntryOffset() < off(m))] stops at the
    entry before [m]. *)
Lemma parse_until_spec (fuel : nat) (it : BlockIter) (i m : nat) :
  ready it i -> (i < m)%nat -> (m <= length l)%nat -> (m - i <= fuel)%nat ->
  at_entry (parse_until fuel (off l m) it) (m - 1).
Proof.
  revert it i. induction fuel as [|fuel IH]; intros it i Hr Hi Hm Hf; [lia|]. cbn [parse_until].
  destruct (lookup_lt_is_Some_2 l i ltac:(lia)) as [e He].
  destruct (ParseNextKey_entry it i e Hr He) as (it' & -> & A). rewrite (at_entry_next it' i A).
  cbn [andb]. destruct (Z.ltb_spec (off l (S i)) (off l m)) as [Hlt|Hge].
  - apply (IH _ (S i)); [apply at_entry_ready; done| |lia|lia].
    destruct (decide (S i = m)) as [<-|]; lia.
  - destruct (decide (S i = m)) as [<-|Hne]; [replace (S i - 1)%nat with i by lia; done|].
    pose proof (off_lt l (S i) m ltac:(lia) ltac:(lia)). lia.
Qed.

Lemma rs_ge (j r : nat) : rs !! j = Some r -> (j <= r)%nat.
Proof.
  revert r. induction j as [|j IH]; intros r Hj; [lia|].
  destruct (lookup_lt_is_Some_2 rs j) as [r' Hr']; [apply lookup_lt_Some in Hj; lia|].
  pose proof (IH r' Hr'). pose proof (ok_rs_mono _ _ HB j (S j) r' r ltac:(lia) Hr' Hj). lia.
Qed.

Lemma prev_restart_spec (j r i : nat) (it : BlockIter) :
  base it -> rs !! j = Some r -> (r <= i)%nat -> (i < length l)%nat ->
  match prev_restart j it (off l i) with
  | None => i = 0%nat
  | Some index => exists j' r', index = Z.of_nat j' /\ rs !! j' = Some r' /\ (r' < i)%nat
  end.
Proof.
  intros B. revert r. induction j as [|j IH]; intros r Hj Hr Hi; cbn [prev_restart];
    rewrite (GetRestartPoint_spec it _ r B Hj).
  - rewrite (ok_rs_first _ _ HB) in Hj. injection Hj as <-.
    destruct (Z.leb_spec (off l i) (off l 0)); [|exists 0%nat, 0%nat; pose proof (off_lt l 0 i);
      pose proof (ok_rs_first _ _ HB); split_and!; [done|done|]; destruct i; [lia|lia]].
    destruct i as [|i]; [done|]. pose proof (off_lt l 0 (S i) ltac:(lia) ltac:(lia)). lia.
  - destruct (Z.leb_spec (off l i) (off l r)).
    + assert (r = i) as -> by (destruct (decide (r = i)); [done|pose proof (off_lt l r i ltac:(lia) ltac:(lia)); lia]).
      destruct (lookup_lt_is_Some_2 rs j) as [r' Hr']; [apply lookup_lt_Some in Hj; lia|].
      pose proof (ok_rs_mono _ _ HB j (S j) r' i ltac:(lia) Hr' Hj). apply (IH r'); [done|lia|done].
    + exists (S j), r. split_and!; [done|done|]. destruct (decide (r = i)) as [->|]; lia.
Qed.

(** ** Seek *)

Abbreviation kvs := (map ent_kv l).
Context (HS : keys_sorted kvs).

Definition below (t : bytes) (i : nat) : Prop :=
  forall k kv, (k < i)%nat -> kvs !! k = Some kv -> at_or_past t kv = false.

Lemma kvs_lookup (i : nat) (e : ent) : l !! i = Some e -> kvs !! i = Some (ent_kv e).
Proof. intros H. rewrite list_lookup_fmap, H. done. Qed.

Lemma below_S (t : bytes) (i : nat) (e : ent) :
  l !! i = Some e -> at_or_past t (ent_kv e) = false -> below t (S i).
Proof.
  intros Hi Ha k kv Hk Hkv. eapply (before_target kvs t i k); [done|apply kvs_lookup; done|done|lia|done].
Qed.

Lemma below_le (t : bytes) (i i' : nat) : (i' <= i)%nat -> below t i -> below t i'.
Proof. intros Hi H k kv Hk. apply H. lia. Qed.

(** The restart point the binary search chooses is not past the target. *)
Definition left_ok (t : bytes) (left : Z) : Prop :=
  exists j r, left = Z.of_nat j /\ rs !! j = Some r /\ below t r.

Lemma seek_restart_spec (fuel : nat) (it : BlockIter) (t : bytes) (left right : Z) :
  base it -> left_ok t left -> right < zlen rs ->
  exists left', seek_restart fuel it t left right = Some left' /\ left_ok t left'.
Proof.
  intros B. revert left right. induction fuel as [|fuel IH]; intros left right Hl Hr; [exists left; done|].
  cbn [seek_restart]. destruct (Z.ltb_spec left right) as [Hlt|]; [|exists left; done].
  assert (0 <= left) by (destruct Hl as (j & _ & -> & _); lia).
  pose proof size_bounds. pose proof (zlen_nonneg (ents_bytes l)). rewrite (wrap_small 32) by lia.
  set (mid := (left + right + 1) / 2).
  assert (left < mid <= right) as Hmid.
  { unfold mid. split; [apply Z.lt_le_trans with (left + 1); [lia|apply Z.div_le_lower_bound; lia]|].
    apply Z.div_le_upper_bound; lia. }
  destruct (lookup_lt_is_Some_2 rs (Z.to_nat mid)) as [r Hrm]; [unfold zlen in *; lia|].
  pose proof (rs_ge _ _ Hrm). destruct (ok_rs_range _ _ HB _ _ Hrm) as [|Hrl]; [lia|].
  destruct (lookup_lt_is_Some_2 l r Hrl) as [e He].
  assert (mid = Z.of_nat (Z.to_nat mid)) as Em by lia.
  rewrite Em, (GetRestartPoint_spec it _ r B Hrm), (decode_at it r e B He), <- Em.
  rewrite (ok_rs_shared _ _ HB _ _ e Hrm He). cbn [negb Z.of_nat Z.eqb].
  rewrite Z.sub_0_r. change (drop 0 (en_key e)) with (en_key e). rewrite ztake_app_exact.
  destruct (Compare (en_key e) t) eqn:Ec; [apply IH; [done|lia]| |apply IH; [done|lia]].
  apply IH; [|done]. exists (Z.to_nat mid), r. split_and!; [lia|done|].
  apply (below_le t (S r)); [lia|]. apply (below_S t r e He). unfold at_or_past. simpl. rewrite Ec. done.
Qed.

Definition positioned (it : BlockIter) (c : option nat) : Prop :=
  match c with Some i => at_entry it i | None => ended it end.

Lemma seek_linear_spec (fuel : nat) (it : BlockIter) (t : bytes) (i : nat) :
  ready it i -> below t i -> (length l - i < fuel)%nat ->
  positioned (seek_linear fuel t it) (seek_index t kvs).
Proof.
  revert it i. induction fuel as [|fuel IH]; intros it i Hr Hb Hf; [lia|]. cbn [seek_linear].
  pose proof (rd_len _ _ Hr) as Hle. destruct (decide (i = length l)) as [->|Hne].
  - destruct (ParseNextKey_end it Hr) as (it' & -> & E).
    rewrite seek_index_None; [done|]. intros k kv Hk. apply (Hb k); [|done].
    apply lookup_lt_Some in Hk. rewrite length_map in Hk. done.
  - destruct (lookup_lt_is_Some_2 l i ltac:(lia)) as [e He].
    destruct (ParseNextKey_entry it i e Hr He) as (it' & -> & A).
    destruct (ae_entry _ _ A) as (e' & He' & Ek & _). rewrite He in He'. injection He' as <-. rewrite Ek.
    assert (Compare (en_key e) t <> Lt -> positioned it' (seek_index t kvs)) as Hstop.
    { intros Hc. rewrite (seek_index_Some t kvs i (ent_kv e)); [done|apply kvs_lookup; done| |exact Hb].
      unfold at_or_past. simpl. destruct (Compare (en_key e) t); done. }
    destruct (Compare (en_key e) t) eqn:Ec; [apply Hstop; done| |apply Hstop; done].
    apply (IH _ (S i)); [apply at_entry_ready; done| |lia].
    apply (below_S t i e He). unfold at_or_past. simpl. rewrite Ec. done.
Qed.

Lemma positioned_base (it : BlockIter) (c : option nat) : positioned it c -> base it.
Proof. destruct c; [apply ae_base|apply end_base]. Qed.

Lemma left_ok_0 (t : bytes) : left_ok t 0.
Proof. exists 0%nat, 0%nat. split_and!; [done|apply (ok_rs_first _ _ HB)|intros k kv Hk; lia]. Qed.

Lemma Seek_from (it : BlockIter) (t : bytes) (left right : Z) (cmp : comparison) :
  base it -> left_ok t left -> right < zlen rs ->
  (cmp = Lt -> exists i, at_entry it i /\ below t (S i)) ->
  positioned (seek_between t it left right cmp) (seek_index t kvs).
Proof.
  intros B Hl Hr Hc. unfold seek_between. destruct (seek_restart_spec (Z.to_nat (bi_num_restarts it)) it t left right B Hl Hr)
    as (left' & -> & j & r & -> & Hj & Hb). cbv zeta. pose proof (fuel_enough it B) as Hf.
  destruct ((Z.of_nat j =? bi_restart_index it) && match cmp with Lt => true | _ => false end) eqn:Es.
  - apply andb_prop in Es as [_ Ec]. destruct cmp; try done. destruct (Hc eq_refl) as (i & A & Hbi).
    apply (seek_linear_spec _ _ _ (S i)); [apply at_entry_ready; done|done|lia].
  - apply (seek_linear_spec _ _ _ r); [apply SeekToRestartPoint_ready; done|done|].
    unfold iter_fuel in *. simpl. lia.
Qed.

Lemma rs_nonempty : 0 < zlen rs.
Proof. pose proof (lookup_lt_Some _ _ _ (ok_rs_first _ _ HB)). unfold zlen. lia. Qed.

Lemma last_restart (it : BlockIter) : base it -> u32 (bi_num_restarts it - 1) = Z.of_nat (length rs - 1).
Proof.
  intros B. rewrite (base_num _ B). pose proof rs_nonempty. pose proof size_bounds.
  pose proof (zlen_nonneg (ents_bytes l)). rewrite wrap_small by lia. unfold zlen in *. lia.
Qed.

Lemma Seek_positioned (it : BlockIter) (c : option nat) (t : bytes) :
  positioned it c -> positioned (bi_Seek t it) (seek_index t kvs).
Proof.
  intros P. pose proof (positioned_base _ _ P) as B. pose proof rs_nonempty as Hn. pose proof (last_restart it B) as Hlast.
  assert (u32 (bi_num_restarts it - 1) < zlen rs) as Hright by (rewrite Hlast; unfold zlen in *; lia).
  unfold bi_Seek. destruct c as [i|]; cbn [positioned] in P.
  - destruct (ae_entry _ _ P) as (e & He & Ek & _). destruct (ae_index _ _ P) as (j & r & Ej & Hj & Hr).
    assert (bi_Valid it = true) as ->.
    { unfold bi_Valid. rewrite (ae_current _ _ P), (base_restarts _ B), <- off_end.
      apply Z.ltb_lt, off_lt; apply at_entry_lt in P; lia. }
    assert (Z.of_nat j < zlen rs) as Hjl by (apply lookup_lt_Some in Hj; unfold zlen; lia).
    destruct (Compare (bi_key it) t) eqn:Ec; rewrite Ek in Ec.
    + rewrite (seek_index_Some t kvs i (ent_kv e)); [done|apply kvs_lookup; done| |].
      * unfold at_or_past. simpl. rewrite Ec. done.
      * intros k kv Hk Hkv. apply at_or_past_false. apply clt_cle_trans with (en_key e).
        -- apply (sorted_lookup_lt kvs k i kv (ent_kv e)); [done|done|apply kvs_lookup; done|done].
        -- apply ceq_cle. exact Ec.
    + assert (below t (S i)) as Hb by (apply (below_S t i e He); unfold at_or_past; simpl; rewrite Ec; done).
      apply Seek_from; [done| |done|intros _; exists i; done].
      exists j, r. split_and!; [done|done|]. apply (below_le t (S i)); [lia|done].
    + apply Seek_from; [done|apply left_ok_0|lia|done].
  - assert (bi_Valid it = false) as -> by (unfold bi_Valid; rewrite (end_current _ P); apply Z.ltb_irrefl).
    apply Seek_from; [done|apply left_ok_0|done|done].
Qed.

(** ** Refinement of the cursor *)

Lemma in_range_kvs (i : nat) : in_range kvs i = if (i <? length l)%nat then Some i else None.
Proof. unfold in_range. rewrite length_map. done. Qed.

Lemma Parse_positioned (it : BlockIter) (i : nat) :
  ready it i -> positioned (snd (ParseNextKey it)) (in_range kvs i).
Proof.
  intros R. rewrite in_range_kvs. destruct (Nat.ltb_spec i (length l)) as [Hi|Hi].
  - destruct (lookup_lt_is_Some_2 l i Hi) as [e He].
    destruct (ParseNextKey_entry it i e R He) as (it' & -> & A). done.
  - assert (i = length l) as -> by (pose proof (rd_len _ _ R); lia).
    destruct (ParseNextKey_end it R) as (it' & -> & E). done.
Qed.

Lemma First_positioned (it : BlockIter) : base it -> positioned (bi_SeekToFirst it) (cur_first kvs).
Proof.
  intros B. apply Parse_positioned. apply (SeekToRestartPoint_ready it 0 0 B). apply (ok_rs_first _ _ HB).
Qed.

Lemma Last_positioned (it : BlockIter) : base it -> positioned (bi_SeekToLast it) (cur_last kvs).
Proof.
  intros B. unfold bi_SeekToLast, cur_last. rewrite (last_restart it B), in_range_kvs, length_map.
  pose proof rs_nonempty. destruct (lookup_lt_is_Some_2 rs (length rs - 1)) as [r Hr]; [unfold zlen in *; lia|].
  pose proof (SeekToRestartPoint_ready it _ r B Hr) as R. pose proof (fuel_enough it B).
  destruct (Nat.ltb_spec (length l - 1) (length l)) as [Hl|Hl].
  - rewrite (base_restarts _ B), <- off_end. destruct (ok_rs_range _ _ HB _ _ Hr);
      (apply (parse_until_spec _ _ r); [done|lia|lia|lia]).
  - assert (r = length l) as -> by (destruct (ok_rs_range _ _ HB _ _ Hr); lia). cbn [parse_until].
    destruct (ParseNextKey_end _ R) as (it' & -> & E). done.
Qed.

Lemma Prev_positioned (it : BlockIter) (i : nat) : at_entry it i -> positioned (bi_Prev it) (cur_prev i).
Proof.
  intros A. pose proof (ae_base _ _ A) as B. destruct (ae_index _ _ A) as (j & r & Ej & Hj & Hr).
  pose proof (at_entry_lt _ _ A) as Hi. pose proof (fuel_enough it B) as Hf.
  unfold bi_Prev. rewrite Ej, Nat2Z.id, (ae_current _ _ A).
  pose proof (prev_restart_spec j r i it B Hj Hr Hi) as HP.
  destruct (prev_restart j it (off l i)) as [index|].
  - destruct HP as (j' & r' & -> & Hj' & Hr'). destruct i as [|i]; [lia|]. cbn [cur_prev positioned].
    replace i with (S i - 1)%nat at 2 by lia.
    apply (parse_until_spec _ _ r'); [apply SeekToRestartPoint_ready; done|lia|lia|lia].
  - subst i. split; [destruct B; split; done|done].
Qed.

Lemma value_at (it : BlockIter) (i : nat) :
  at_entry it i -> exists e, l !! i = Some e /\ bi_key it = en_key e /\ bi_value it = en_val e.
Proof.
  intros A. destruct (ae_entry _ _ A) as (e & He & Ek & Ev). exists e. split_and!; [done..|].
  pose proof (ae_next _ _ A) as Hn. unfold bi_value. rewrite Ev, (base_data _ (ae_base _ _ A)). unfold block_data.
  rewrite <- (take_drop (S i) l) at 1. rewrite ents_bytes_app, (take_S_r l i e He), ents_bytes_app.
  unfold ents_bytes at 2. cbn [map concat]. rewrite app_nil_r. unfold ent_bytes. rewrite !app_assoc.
  set (X := (((ents_bytes (take i l) ++ _) ++ _) ++ _) ++ _).
  assert (bi_value_off it = zlen X) as ->; [|rewrite <- !app_assoc, zdrop_app_exact; apply ztake_app_exact].
  rewrite (off_S l i e He) in Hn. unfold off in Hn. unfold ent_bytes in Hn. rewrite !zlen_app in Hn.
  unfold X. rewrite !zlen_app. lia.
Qed.

Lemma block_sim : IterSim kvs positioned.
Proof.
  split.
  - intros it [i|] P; simpl; unfold bi_Valid.
    + rewrite (ae_current _ _ P), (base_restarts _ (ae_base _ _ P)), <- off_end.
      apply Z.ltb_lt, off_lt; apply at_entry_lt in P; lia.
    + rewrite (end_current _ P). apply Z.ltb_irrefl.
  - intros it i A. destruct (value_at it i A) as (e & He & Ek & Ev). simpl. rewrite Ek, Ev. apply kvs_lookup. done.
  - intros it c P. apply (base_status _ (positioned_base _ _ P)).
  - intros it c P. apply First_positioned, (positioned_base _ _ P).
  - intros it c P. apply Last_positioned, (positioned_base _ _ P).
  - intros it c t P. apply (Seek_positioned _ _ _ P).
  - intros it i A. apply Parse_positioned, at_entry_ready, A.
  - intros it i A. apply Prev_positioned, A.
Qed.

End Layout.

(** ** The builder writes that layout *)

Record BuilderInv (b : BlockBuilder) (l : list ent) (rs : list nat) : Prop := {
  bi_ok : BlockOK l rs;
  bi_buffer : bb_buffer b = ents_bytes l;
  bi_restarts_ok : bb_restarts b = map (fun r => u32 (off l r)) rs;
  bi_last : bb_last_key b = match last l with Some e => en_key e | None => [] end;
  bi_counter : 0 <= bb_counter b /\ (l = [] -> bb_counter b = 0)
}.

Lemma new_builder_inv (interval : Z) : BuilderInv (newBlockBuilder interval) [] [0%nat].
Proof.
  split; try done. split.
  - intros i e H. rewrite lookup_nil in H. done.
  - done.
  - intros [|j] r H; [injection H as <-; left; done|rewrite lookup_cons, lookup_nil in H; done].
  - intros j r e _ H. rewrite lookup_nil in H. done.
  - intros j1 [|j2] r1 r2 Hj _ H; [lia|]. rewrite lookup_cons, lookup_nil in H. done.
Qed.

Lemma off_snoc (l : list ent) (e : ent) (i : nat) : (i <= length l)%nat -> off (l ++ [e]) i = off l i.
Proof. intros H. unfold off. rewrite take_app_le by done. done. Qed.

(** The invariant is kept by an entry that shares [sh] bytes with the last key,
    and by one that starts a new run. *)
Lemma BlockOK_snoc (l : list ent) (rs : list nat) (e : ent) :
  BlockOK l rs ->
  (en_shared e = 0%nat \/
   exists e', last l = Some e' /\ (en_shared e <= length (en_key e))%nat /\ (en_shared e <= length (en_key e'))%nat /\
              take (en_shared e) (en_key e') = take (en_shared e) (en_key e)) ->
  BlockOK (l ++ [e]) rs.
Proof.
  intros [Hs H0 Hr Hz Hm] He. split.
  - intros i x Hx. apply lookup_app_Some in Hx as [Hx|[Hle Hx]].
    + destruct (Hs i x Hx) as [|(i' & e' & -> & Hi' & Hrest)]; [left; done|right].
      exists i', e'. split; [done|]. split; [apply lookup_app_l_Some; done|done].
    + apply list_lookup_singleton_Some in Hx as [Hi ->]. destruct He as [|(e' & Hl & Hrest)]; [left; done|right].
      destruct l as [|z l' _] using rev_ind; [done|]. rewrite last_snoc in Hl. injection Hl as ->.
      rewrite length_app in Hi, Hle. simpl in Hi, Hle. exists (length l'), e'. split; [lia|]. split; [|done].
      rewrite <- app_assoc. apply list_lookup_middle. done.
  - done.
  - intros j r Hj. destruct (Hr j r Hj); [left; done|right]. rewrite length_app. simpl. lia.
  - intros j r x Hj Hx. apply lookup_app_Some in Hx as [Hx|[Hle Hx]]; [apply (Hz j r); done|].
    apply list_lookup_singleton_Some in Hx as [Hi ->]. destruct He as [|(e' & Hl & _)]; [done|].
    destruct l; [done|]. destruct (Hr j r Hj); simpl in *; lia.
  - done.
Qed.

Lemma BlockOK_restart (l : list ent) (rs : list nat) (e : ent) :
  BlockOK l rs -> l <> [] -> en_shared e = 0%nat -> BlockOK (l ++ [e]) (rs ++ [length l]).
Proof.
  intros B Hne He. destruct (BlockOK_snoc l rs e B (or_introl He)) as [Hs H0 Hr Hz Hm].
  assert (forall j r, rs !! j = Some r -> (r < length l)%nat) as Hold.
  { intros j r Hj. destruct (ok_rs_range _ _ B j r Hj) as [->|]; [destruct l; simpl; [done|lia]|done]. }
  split.
  - done.
  - apply lookup_app_l_Some. done.
  - intros j r Hj. apply lookup_app_Some in Hj as [Hj|[_ Hj]]; [apply (Hr j); done|].
    apply list_lookup_singleton_Some in Hj as [_ <-]. right. rewrite length_app. simpl. lia.
  - intros j r x Hj Hx. apply lookup_app_Some in Hj as [Hj|[_ Hj]]; [apply (Hz j r); done|].
    apply list_lookup_singleton_Some in Hj as [_ <-]. rewrite list_lookup_middle in Hx by done. congruence.
  - intros j1 j2 r1 r2 Hj H1 H2. apply lookup_app_Some in H2 as [H2|[Hle H2]].
    + apply (Hm j1 j2); [done| |done]. rewrite lookup_app_l in H1; [done|apply lookup_lt_Some in H2; lia].
    + apply list_lookup_singleton_Some in H2 as [Hj2 <-]. rewrite lookup_app_l in H1 by lia.
      apply (Hold j1). done.
Qed.

Lemma restarts_snoc (l : list ent) (rs : list nat) (e : ent) :
  BlockOK l rs -> map (fun r => u32 (off (l ++ [e]) r)) rs = map (fun r => u32 (off l r)) rs.
Proof.
  intros B. apply map_ext_in. intros r Hr. apply list_elem_of_In, list_elem_of_lookup in Hr as [j Hj].
  rewrite off_snoc; [done|]. destruct (ok_rs_range _ _ B j r Hj); lia.
Qed.

Lemma Add_inv (b : BlockBuilder) (l : list ent) (rs : list nat) (key value : bytes) :
  1 <= bb_restart_interval b -> BuilderInv b l rs ->
  exists e rs', ent_kv e = (key, value) /\ BuilderInv (BlockBuilder_Add b key value) (l ++ [e]) rs'.
Proof.
  intros Hint [B Hbuf Hrs Hlast [Hc0 Hc]]. unfold BlockBuilder_Add.
  pose proof (diff_index_split (bb_last_key b) key) as (Htake & Hs & Hl & _). cbv zeta in Htake, Hs, Hl.
  set (d := diff_index (bb_last_key b) key) in *.
  assert (forall sh, ents_bytes (l ++ [mkEnt sh key value]) =
    (PutVarint32 (PutVarint32 (PutVarint32 (bb_buffer b) (u32 (Z.of_nat sh))) (u32 (zlen key - Z.of_nat sh)))
       (u32 (zlen value)) ++ drop sh key) ++ value) as Hbytes.
  { intros sh. rewrite ents_bytes_app, Hbuf. unfold ents_bytes at 2, PutVarint32, ent_bytes. simpl.
    rewrite app_nil_r, <- !app_assoc. done. }
  destruct (Z.ltb_spec (bb_counter b) (bb_restart_interval b)) as [Hlt|Hge].
  - exists (mkEnt d key value), rs. split; [done|]. split; simpl; [|done|rewrite restarts_snoc; done| |].
    + apply BlockOK_snoc; [done|]. simpl. rewrite Hlast in *. destruct (last l) as [e'|] eqn:El.
      * right. exists e'. done.
      * left. apply Nat.le_0_r. exact Hs.
    + rewrite last_snoc. simpl. rewrite Htake. apply take_drop.
    + split; [lia|]. intros E. apply app_eq_nil in E as [_ ?]. done.
  - assert (l <> []) as Hne by (intros E; specialize (Hc E); lia).
    exists (mkEnt 0 key value), (rs ++ [length l]). split; [done|]. split; simpl.
    + apply BlockOK_restart; done.
    + done.
    + rewrite map_app, restarts_snoc, Hrs, Hbuf by done. simpl. rewrite off_snoc, off_end by lia. done.
    + rewrite last_snoc. done.
    + split; [lia|]. intros E. apply app_eq_nil in E as [_ ?]. done.
Qed.

Lemma Add_interval (b : BlockBuilder) (key value : bytes) :
  bb_restart_interval (BlockBuilder_Add b key value) = bb_restart_interval b.
Proof. unfold BlockBuilder_Add. destruct (_ <? _); done. Qed.

Definition add_all (b : BlockBuilder) (kvs : entries) : BlockBuilder :=
  fold_left (fun b kv => BlockBuilder_Add b (fst kv) (snd kv)) kvs b.

Lemma add_all_inv (kvs : entries) (b : BlockBuilder) (l : list ent) (rs : list nat) :
  1 <= bb_restart_interval b -> BuilderInv b l rs ->
  exists l' rs', map ent_kv l' = map ent_kv l ++ kvs /\ BuilderInv (add_all b kvs) l' rs'.
Proof.
  revert b l rs. induction kvs as [|[k v] kvs IH]; intros b l rs Hi HI.
  - exists l, rs. rewrite app_nil_r. done.
  - destruct (Add_inv b l rs k v Hi HI) as (e & rs' & Ee & HI').
    destruct (IH (BlockBuilder_Add b k v) (l ++ [e]) rs') as (l2 & rs2 & E2 & HI2); [rewrite Add_interval; done|done|].
    exists l2, rs2. split; [|done]. rewrite E2, map_app. simpl. rewrite Ee, <- app_assoc. done.
Qed.

Lemma Finish_data (b : BlockBuilder) (l : list ent) (rs : list nat) :
  BuilderInv b l rs -> snd (BlockBuilder_Finish b) = block_data l rs.
Proof.
  intros [B Hbuf Hrs _ _]. unfold BlockBuilder_Finish. cbn [snd]. rewrite fold_PutFixed32, Hrs, Hbuf, map_map.
  unfold PutFixed32, block_data, restart_array, zlen. rewrite length_map, <- app_assoc. done.
Qed.

(** Reading the block back gives an iterator that starts off the end. *)
Lemma NewIterator_data (l : list ent) (rs : list nat) :
  BlockOK l rs -> zlen (block_data l rs) < 2 ^ 32 ->
  exists it, Block_NewIterator (newBlock (block_data l rs)) = inr it /\ ended l rs it.
Proof.
  intros B Hsz. pose proof (rs_nonempty l rs B) as Hn. pose proof (size_bounds l rs Hsz) as Hb.
  pose proof (zlen_nonneg (ents_bytes l)).
  assert (zlen (block_data l rs) = zlen (ents_bytes l) + 4 * zlen rs + 4) as Esz
    by (unfold block_data; rewrite !zlen_app, restart_array_length, zlen_EncodeFixed32; lia).
  assert (NumRestarts (block_data l rs) (zlen (block_data l rs)) = zlen rs) as En.
  { unfold NumRestarts. rewrite Esz. unfold block_data. rewrite app_assoc.
    replace (zlen (ents_bytes l) + 4 * zlen rs + 4 - 4) with (zlen (ents_bytes l ++ restart_array l rs))
      by (rewrite zlen_app, restart_array_length; lia).
    rewrite zdrop_app_exact, <- (app_nil_r (EncodeFixed32 _)), DecodeFixed32_Encode by (apply wrap_range; lia).
    apply wrap_small. lia. }
  unfold newBlock, Block_NewIterator. rewrite En.
  destruct (Z.ltb_spec (zlen (block_data l rs)) 4); [lia|].
  assert (zlen rs <= (zlen (block_data l rs) - 4) / 4) by (apply Z.div_le_lower_bound; lia).
  destruct (Z.ltb_spec ((zlen (block_data l rs) - 4) / 4) (zlen rs)); [lia|]. cbn [blk_size blk_data blk_restart_offset].
  destruct (Z.ltb_spec (zlen (block_data l rs)) 4); [lia|]. rewrite En.
  destruct (Z.eqb_spec (zlen rs) 0); [lia|].
  rewrite (wrap_small 32 (1 + zlen rs)) by lia. rewrite wrap_small by lia.
  eexists. split; [reflexivity|]. split; [split; simpl; [done|lia|done|done]|done].
Qed.

(** The relation between an iterator over a built block and the cursor over its
    entries. *)
Definition block_rel (kvs : entries) (it : BlockIter) (c : option nat) : Prop :=
  exists l rs, map ent_kv l = kvs /\ BlockOK l rs /\ zlen (block_data l rs) < 2 ^ 32 /\ positioned l rs it c.

Lemma block_rel_sim {C : Comparator} {CL : ComparatorLaws C} (kvs : entries) : keys_sorted kvs -> IterSim kvs (block_rel kvs).
Proof.
  intros HS. split; intros it c; [| | | | |intros t| |]; intros (l & rs & <- & B & Hsz & P); pose proof (block_sim l rs B Hsz HS) as Sim.
  - apply (sim_valid _ _ Sim _ _ P).
  - apply (sim_entry _ _ Sim _ _ P).
  - apply (sim_status _ _ Sim _ _ P).
  - exists l, rs. split_and!; [done..|]. apply (sim_first _ _ Sim _ _ P).
  - exists l, rs. split_and!; [done..|]. apply (sim_last _ _ Sim _ _ P).
  - exists l, rs. split_and!; [done..|]. apply (sim_seek _ _ Sim _ _ t P).
  - exists l, rs. split_and!; [done..|]. apply (sim_next _ _ Sim _ _ P).
  - exists l, rs. split_and!; [done..|]. apply (sim_prev _ _ Sim _ _ P).
Qed.

Lemma build_block_layout (interval : Z) (kvs : entries) :
  1 <= interval -> exists l rs, map ent_kv l = kvs /\ BlockOK l rs /\ build_block interval kvs = block_data l rs.
Proof.
  intros Hi. destruct (add_all_inv kvs (newBlockBuilder interval) [] [0%nat] Hi (new_builder_inv interval))
    as (l & rs & El & HI). exists l, rs. split_and!; [done|apply (bi_ok _ _ _ HI)|apply (Finish_data _ _ _ HI)].
Qed.

Lemma build_block_opens (interval : Z) (kvs : entries) :
  1 <= interval -> zlen (build_block interval kvs) < 2 ^ 32 ->
  exists it, Block_NewIterator (newBlock (build_block interval kvs)) = inr it /\ block_rel kvs it None.
Proof.
  intros Hi Hsz. destruct (build_block_layout interval kvs Hi) as (l & rs & El & B & Ed). rewrite Ed in *.
  destruct (NewIterator_data l rs B Hsz) as (it & -> & E). exists it. split; [done|]. exists l, rs. done.
Qed.

Lemma build_block_size (interval : Z) (kvs : entries) : 1 <= interval -> zlen kvs + 4 <= zlen (build_block interval kvs).
Proof.
  intros Hi. destruct (build_block_layout interval kvs Hi) as (l & rs & <- & B & ->). unfold block_data.
  rewrite !zlen_app, zlen_EncodeFixed32. pose proof (off_ge l (length l) ltac:(lia)). rewrite off_end in *.
  pose proof (zlen_nonneg (restart_array l rs)). unfold zlen in *. rewrite length_map. lia.
Qed.

(** ** The loops stop on any bytes

    A parsed entry ends after it starts, also where the sum of its sizes wraps
    around, so no loop of the iterator needs more rounds than the block has
    bytes. *)

Lemma GetVarint32Ptr_shrinks (p rest : bytes) (v : Z) : GetVarint32Ptr p = Some (v, rest) -> zlen rest < zlen p.
Proof.
  intros H. apply GetVarint32_suffix in H as (enc & -> & Hne). rewrite zlen_app.
  unfold zlen. destruct enc; [done|]. simpl. lia.
Qed.

Lemma DecodeEntry_bounds (p rest : bytes) (sh ns vl : Z) :
  DecodeEntry p = Some (sh, ns, vl, rest) -> zlen rest + 3 <= zlen p /\ u32 (ns + vl) <= u32 (zlen rest).
Proof.
  unfold DecodeEntry. destruct (Z.ltb_spec (zlen p) 3) as [|H3]; [done|]. cbv zeta.
  destruct (_ <? 128).
  - cbn [mbind option_bind]. destruct (Z.ltb_spec (u32 (zlen (drop 3 p)))
      (u32 (bz (nth 1 p Byte.x00) + bz (nth 2 p Byte.x00)))); [done|].
    intros [= <- <- <- <-]. split; [|done]. unfold zlen in *. rewrite length_drop. lia.
  - destruct (GetVarint32Ptr p) as [[v1 p1]|] eqn:E1; [|done]. cbn [mbind option_bind].
    destruct (GetVarint32Ptr p1) as [[v2 p2]|] eqn:E2; [|done]. cbn [mbind option_bind].
    destruct (GetVarint32Ptr p2) as [[v3 p3]|] eqn:E3; [|done]. cbn [mbind option_bind].
    destruct (Z.ltb_spec (u32 (zlen p3)) (u32 (v2 + v3))); [done|]. intros [= <- <- <- <-].
    apply GetVarint32Ptr_shrinks in E1, E2, E3. split; [lia|done].
Qed.

Record iter_wf (it : BlockIter) : Prop := {
  wf_restarts : 0 <= bi_restarts it <= zlen (bi_data it);
  wf_restarts32 : bi_restarts it < 2 ^ 32;
  wf_num : 0 < bi_num_restarts it <= 2 ^ 30
}.

Definition same_block (a b : BlockIter) : Prop :=
  bi_data a = bi_data b /\ bi_restarts a = bi_restarts b /\ bi_num_restarts a = bi_num_restarts b.

Lemma same_block_wf (a b : BlockIter) : same_block a b -> iter_wf b -> iter_wf a.
Proof. intros (E1 & E2 & E3) []. split; rewrite ?E1, ?E2, ?E3; done. Qed.

Lemma ParseNextKey_progress (it it' : BlockIter) :
  iter_wf it -> ParseNextKey it = (true, it') ->
  NextEntryOffset it + 3 <= NextEntryOffset it' <= bi_restarts it /\ same_block it' it.
Proof.
  intros [Hr H32 _]. unfold ParseNextKey. set (cur := NextEntryOffset it).
  assert (0 <= cur) by (apply wrap_range; lia).
  destruct (Z.leb_spec (bi_restarts it) cur) as [|Hc]; [done|].
  destruct (DecodeEntry _) as [[[[sh ns] vl] p]|] eqn:E; [|done].
  destruct (zlen (bi_key it) <? sh); [done|]. intros [= <-]. split; [|done].
  apply DecodeEntry_bounds in E as [Hp Hsum].
  rewrite zlen_zdrop in Hp by (rewrite zlen_ztake; lia). rewrite zlen_ztake in Hp by lia.
  unfold NextEntryOffset. simpl. pose proof (zlen_nonneg p). rewrite (wrap_small 32 (zlen p)) in Hsum by lia.
  pose proof (wrap_range 32 (ns + vl) ltac:(lia)).
  assert (u32 (bi_restarts it - zlen p + ns + vl) = bi_restarts it - zlen p + u32 (ns + vl)) as ->; [|lia].
  rewrite <- (wrap_small 32 (bi_restarts it - zlen p + u32 (ns + vl))) by lia.
  unfold wrap. rewrite Zplus_mod_idemp_r. f_equal. lia.
Qed.

Lemma parse_until_fuel (fuel k : nat) (limit : Z) (it : BlockIter) :
  iter_wf it -> Z.max 0 (bi_restarts it - NextEntryOffset it) < Z.of_nat fuel ->
  parse_until (fuel + k) limit it = parse_until fuel limit it.
Proof.
  revert it. induction fuel as [|fuel IH]; intros it W Hf; [lia|]. cbn [Nat.add parse_until].
  destruct (ParseNextKey it) as [[] it'] eqn:E; [|done].
  destruct (ParseNextKey_progress it it' W E) as [Hp Hs]. cbn [andb].
  destruct (_ <? limit); [|done]. apply IH; [apply (same_block_wf _ it); done|].
  destruct Hs as (_ & -> & _). lia.
Qed.

Section LoopFuel.
Context {C : Comparator}.

Lemma seek_linear_fuel (fuel k : nat) (t : bytes) (it : BlockIter) :
  iter_wf it -> Z.max 0 (bi_restarts it - NextEntryOffset it) < Z.of_nat fuel ->
  seek_linear (fuel + k) t it = seek_linear fuel t it.
Proof.
  revert it. induction fuel as [|fuel IH]; intros it W Hf; [lia|]. cbn [Nat.add seek_linear].
  destruct (ParseNextKey it) as [[] it'] eqn:E; [|done].
  destruct (ParseNextKey_progress it it' W E) as [Hp Hs].
  destruct (Compare (bi_key it') t); [done| |done]. apply IH; [apply (same_block_wf _ it); done|].
  destruct Hs as (_ & -> & _). lia.
Qed.

Lemma seek_restart_fuel (fuel k : nat) (it : BlockIter) (t : bytes) (left right : Z) :
  0 <= left -> right < 2 ^ 30 -> right - left <= Z.of_nat fuel ->
  seek_restart (fuel + k) it t left right = seek_restart fuel it t left right.
Proof.
  revert left right. induction fuel as [|fuel IH]; intros left right Hl Hr Hf.
  - destruct k as [|k]; [done|]. cbn [Nat.add seek_restart]. destruct (Z.ltb_spec left right); [lia|done].
  - cbn [Nat.add seek_restart]. destruct (Z.ltb_spec left right) as [Hlt|]; [|done].
    rewrite wrap_small by lia. set (mid := (left + right + 1) / 2).
    assert (left < mid <= right) as Hmid.
    { unfold mid. split; [apply Z.lt_le_trans with (left + 1); [lia|apply Z.div_le_lower_bound; lia]|].
      apply Z.div_le_upper_bound; lia. }
    destruct (DecodeEntry _) as [[[[sh ns] vl] p]|]; [|done]. destruct (negb (sh =? 0)); [done|].
    destruct (Compare (ztake ns p) t); apply IH; lia.
Qed.

Lemma advance_restart_fuel (fuel k : nat) (it : BlockIter) (current index : Z) :
  0 <= index -> index + 1 < 2 ^ 32 -> bi_num_restarts it < 2 ^ 32 -> bi_num_restarts it - index <= Z.of_nat fuel ->
  advance_restart (fuel + k) it current index = advance_restart fuel it current index.
Proof.
  revert index. induction fuel as [|fuel IH]; intros index H0 H1 Hn Hf.
  - destruct k as [|k]; [done|]. cbn [Nat.add advance_restart]. rewrite wrap_small by lia.
    destruct (Z.ltb_spec (index + 1) (bi_num_restarts it)); [lia|done].
  - cbn [Nat.add advance_restart]. rewrite wrap_small by lia.
    destruct (Z.ltb_spec (index + 1) (bi_num_restarts it)); [|done]. cbn [andb].
    destruct (_ <? current); [|done]. apply IH; lia.
Qed.

End LoopFuel.

Lemma NumRestarts_range (data : bytes) (size : Z) : 0 <= NumRestarts data size < 2 ^ 32.
Proof. apply DecodeFixed32_range. Qed.

Lemma NewIterator_wf (data : bytes) (it : BlockIter) :
  zlen data < 2 ^ 32 -> Block_NewIterator (newBlock data) = inr it -> iter_wf it.
Proof.
  intros Hsz. unfold Block_NewIterator, newBlock. pose proof (NumRestarts_range data (zlen data)) as Hn.
  destruct (Z.ltb_spec (zlen data) 4); [done|].
  destruct (Z.ltb_spec ((zlen data - 4) / 4) (NumRestarts data (zlen data))) as [|Hle]; [done|].
  cbn [blk_size blk_data blk_restart_offset]. destruct (_ <? 4); [done|].
  destruct (Z.eqb_spec (NumRestarts data (zlen data)) 0); [done|]. intros [= <-].
  assert (NumRestarts data (zlen data) * 4 <= zlen data - 4) as H4.
  { pose proof (Z.mul_div_le (zlen data - 4) 4 ltac:(lia)). lia. }
  rewrite (wrap_small 32 (1 + _)) by lia. split; simpl; rewrite ?wrap_small by lia; lia.
Qed.

(** ** Theorems *)

(** C9. Any client of a block's iterator sees the sorted entries that were added
    to the builder: after any sequence of [Seek], [SeekToFirst], [SeekToLast],
    [Next] and [Prev], in any order and from any position, the entry under the
    iterator is the one the abstract cursor is at, and no error is reported.
    Prefix compression, restart points and the binary search are invisible. *)
Theorem block_iterator_refines {C : Comparator} {CL : ComparatorLaws C}
  (interval : Z) (kvs : entries) (ops : list IterOp) :
  1 <= interval -> keys_sorted kvs -> zlen (build_block interval kvs) < 2 ^ 32 ->
  exists it, Block_NewIterator (newBlock (build_block interval kvs)) = inr it /\
    observe (run_ops it ops) = cur_observe kvs (cur_ops kvs None ops) /\
    it_status (run_ops it ops) = StatusOK.
Proof.
  intros Hi HS Hsz. destruct (build_block_opens interval kvs Hi Hsz) as (it & -> & E). exists it. split; [done|].
  apply observe_sim with (R := block_rel kvs); [apply block_rel_sim; done|].
  apply run_ops_sim; [apply block_rel_sim; done|exact E].
Qed.

Lemma block_iterator_refines_witness :
  exists it, Block_NewIterator (newBlock (build_block 2
      [(lit "ab", lit "1"); (lit "abc", lit "2"); (lit "abd", lit "3")])) = inr it /\
    observe (H := BlockIter_iter (C := BytewiseComparator))
      (run_ops (H := BlockIter_iter (C := BytewiseComparator)) it [OpSeek (lit "abb"); OpNext; OpPrev; OpPrev]) = Some (lit "ab", lit "1").
Proof.
  destruct (block_iterator_refines (C := BytewiseComparator) 2
    [(lit "ab", lit "1"); (lit "abc", lit "2"); (lit "abd", lit "3")]
    [OpSeek (lit "abb"); OpNext; OpPrev; OpPrev]) as (it & E & H & _).
  - lia.
  - repeat constructor.
  - reflexivity.
  - exists it. split; [exact E|exact H].
Defined.

(** On arbitrary bytes, a damaged block included, every loop of the
    iterator stops: with the fuel the operations give it, more fuel changes
    nothing. *)
Theorem block_loops_terminate {C : Comparator} (data : bytes) (it0 it : BlockIter) (k : nat) :
  zlen data < 2 ^ 32 -> Block_NewIterator (newBlock data) = inr it0 -> same_block it it0 ->
  (forall limit, parse_until (S (iter_fuel it) + k) limit it = parse_until (S (iter_fuel it)) limit it) /\
  (forall t, seek_linear (S (iter_fuel it) + k) t it = seek_linear (S (iter_fuel it)) t it) /\
  (forall t left right, 0 <= left -> right < bi_num_restarts it ->
     seek_restart (Z.to_nat (bi_num_restarts it) + k) it t left right
     = seek_restart (Z.to_nat (bi_num_restarts it)) it t left right) /\
  (forall current index, 0 <= index <= bi_num_restarts it ->
     advance_restart (Z.to_nat (bi_num_restarts it) + k) it current index
     = advance_restart (Z.to_nat (bi_num_restarts it)) it current index).
Proof.
  intros Hsz Hnew Hsame. pose proof (same_block_wf _ _ Hsame (NewIterator_wf data it0 Hsz Hnew)) as W.
  assert (Z.max 0 (bi_restarts it - NextEntryOffset it) < Z.of_nat (S (iter_fuel it))) as Hf.
  { destruct (wf_restarts it W). assert (0 <= NextEntryOffset it) by (apply wrap_range; lia).
    unfold iter_fuel, zlen in *. lia. }
  destruct (wf_num it W). split_and!.
  - intros limit. apply parse_until_fuel; done.
  - intros t. apply seek_linear_fuel; done.
  - intros t left right Hl Hr. apply seek_restart_fuel; lia.
  - intros current index Hi. apply advance_restart_fuel; lia.
Qed.

Lemma block_loops_terminate_witness :
  let data := EncodeVarint32 0 ++ EncodeVarint32 (2 ^ 32 - 1) ++ EncodeVarint32 1 ++ EncodeFixed32 0 ++ EncodeFixed32 1 in
  exists it, Block_NewIterator (newBlock data) = inr it /\
    parse_until (S (iter_fuel it) + 100) 7 it = parse_until (S (iter_fuel it)) 7 it.
Proof.
  intros data. exists (newBlockIter data 7 1). split; [reflexivity|].
  refine (proj1 (block_loops_terminate (C := BytewiseComparator) data (newBlockIter data 7 1) _ 100 _ _ _) 7).
  - reflexivity.
  - reflexivity.
  - split_and!; reflexivity.
Defined.

(** C40. [DecodeEntry] adds the two lengths in 32 bits, so its bounds check is wrong.
    On an entry with any three lengths and less than 2^32 bytes after them, it accepts
    exactly when the lengths of key and value add up to at most what is left, as it
    should, or to at least 2^32 and at most 2^32 more than what is left; in the second
    case key and value do not fit before the limit.  So a damaged entry whose key alone
    is longer than the rest of the block is accepted for suitable value lengths. *)
Theorem decode_entry_overflow (shared non_shared value_length : Z) (tail : bytes) :
  0 <= shared < 2 ^ 32 -> 0 <= non_shared < 2 ^ 32 -> 0 <= value_length < 2 ^ 32 -> zlen tail < 2 ^ 32 ->
  DecodeEntry (EncodeVarint32 shared ++ EncodeVarint32 non_shared ++ EncodeVarint32 value_length ++ tail)
  = (if decide (non_shared + value_length <= zlen tail \/ 2 ^ 32 <= non_shared + value_length <= 2 ^ 32 + zlen tail)
     then Some (shared, non_shared, value_length, tail) else None) /\
  (zlen tail < non_shared -> exists vl, 0 <= vl < 2 ^ 32 /\ zlen tail < non_shared + vl /\
     DecodeEntry (EncodeVarint32 shared ++ EncodeVarint32 non_shared ++ EncodeVarint32 vl ++ tail) = Some (shared, non_shared, vl, tail)).
Proof.
  intros Hs Hn Hv Ht. pose proof (zlen_nonneg tail) as Ht0.
  assert (forall vl, 0 <= vl < 2 ^ 32 -> DecodeEntry (EncodeVarint32 shared ++ EncodeVarint32 non_shared ++ EncodeVarint32 vl ++ tail)
    = (if decide (non_shared + vl <= zlen tail \/ 2 ^ 32 <= non_shared + vl <= 2 ^ 32 + zlen tail) then Some (shared, non_shared, vl, tail) else None)) as Hall.
  { intros vl Hvl. rewrite DecodeEntry_header by lia. rewrite (wrap_small 32 (zlen tail)) by lia. destruct (decide (non_shared + vl < 2 ^ 32)) as [Hlt|Hge].
    - rewrite (wrap_small 32 (non_shared + vl)) by lia. destruct (Z.ltb_spec (zlen tail) (non_shared + vl)); case_decide; try done; lia.
    - assert (u32 (non_shared + vl) = non_shared + vl - 2 ^ 32) as ->.
      { unfold wrap. rewrite <- (Z.mod_small (non_shared + vl - 2 ^ 32) (2 ^ 32)) by lia. rewrite <- (Z_mod_plus_full (_ - _) 1). f_equal. lia. }
      destruct (Z.ltb_spec (zlen tail) (non_shared + vl - 2 ^ 32)); case_decide; try done; lia. }
  split; [by apply Hall|]. intros Hlong. exists (2 ^ 32 - non_shared). split_and!; [lia|lia|lia|]. rewrite Hall by lia. rewrite decide_True by lia. done.
Qed.

Lemma decode_entry_overflow_witness :
  DecodeEntry (EncodeVarint32 0 ++ EncodeVarint32 (2 ^ 32 - 1) ++ EncodeVarint32 1 ++ []) = Some (0, 2 ^ 32 - 1, 1, []) /\
  DecodeEntry (EncodeVarint32 0 ++ EncodeVarint32 (2 ^ 32 - 1) ++ EncodeVarint32 (2 ^ 32 - 1) ++ []) = None.
Proof.
  split; [rewrite (proj1 (decode_entry_overflow 0 (2 ^ 32 - 1) 1 [] ltac:(lia) ltac:(lia) ltac:(lia) ltac:(vm_compute; reflexivity)))
         |rewrite (proj1 (decode_entry_overflow 0 (2 ^ 32 - 1) (2 ^ 32 - 1) [] ltac:(lia) ltac:(lia) ltac:(lia) ltac:(vm_compute; reflexivity)))]; reflexivity.
Defined.
