(* ===== verification/Merger.v ===== *)
(** * Merger: one iterator over several ([table/merger.cc])

    The children are [IteratorWrapper]s over any iterator; [current_] is an index
    into them.  The merging iterator refines the cursor over the merge of the
    children's entries, whatever the children are, as long as each refines its
    own cursor and no key occurs twice.

    The proof describes positions by predicates: moving forward, every child is at
    its first entry that satisfies an upward-closed predicate, moving backward at
    its last entry that satisfies a downward-closed one. *)

From S2P Require Import Prelude Status Comparator Logging Iterator.
From Stdlib Require Import Sorting.Sorted.

Inductive Direction := kForward | kReverse.

Record MergingIterator (S : Type) := mkMerging {
  mi_children : list (IteratorWrapper S);
  mi_current : option nat;
  mi_direction : Direction
}.
Arguments mkMerging {S}.
Arguments mi_children {S}.
Arguments mi_current {S}.
Arguments mi_direction {S}.

Section Merging.
Context {C : Comparator} {S : Type} `{Iterator S}.

Definition newMergingIterator (children : list S) : MergingIterator S :=
  mkMerging (map (fun c => iw_Set (Some c) newIteratorWrapper) children) None kForward.

Definition child_key (children : list (IteratorWrapper S)) (i : nat) : bytes :=
  match children !! i with Some w => iw_key w | None => [] end.

(** One round of [FindSmallest] and [FindLargest]: keep the child that compares
    as [want] to the best one so far. *)
Definition find_step (want : comparison) (children : list (IteratorWrapper S)) (best : option nat) (i : nat) : option nat :=
  match children !! i with
  | Some child =>
      if iw_valid child then
        match best with
        | None => Some i
        | Some b => if decide (Compare (iw_key child) (child_key children b) = want) then Some i else best
        end
      else best
  | None => best
  end.

Definition FindSmallest (children : list (IteratorWrapper S)) : option nat :=
  fold_left (find_step Lt children) (seq 0 (length children)) None.

Definition FindLargest (children : list (IteratorWrapper S)) : option nat :=
  fold_left (find_step Gt children) (reverse (seq 0 (length children))) None.

Definition mi_Valid (m : MergingIterator S) : bool := match mi_current m with Some _ => true | None => false end.

Definition mi_SeekToFirst (m : MergingIterator S) : MergingIterator S :=
  let children := map iw_SeekToFirst (mi_children m) in
  mkMerging children (FindSmallest children) kForward.

Definition mi_SeekToLast (m : MergingIterator S) : MergingIterator S :=
  let children := map iw_SeekToLast (mi_children m) in
  mkMerging children (FindLargest children) kReverse.

Definition mi_Seek (target : bytes) (m : MergingIterator S) : MergingIterator S :=
  let children := map (iw_Seek target) (mi_children m) in
  mkMerging children (FindSmallest children) kForward.

(** The loops of [Next] and [Prev] over the children other than [current_]. *)
Definition turn_forward (key : bytes) (cur i : nat) (child : IteratorWrapper S) : IteratorWrapper S :=
  if decide (i = cur) then child
  else
    let child := iw_Seek key child in
    if iw_valid child && bool_decide (Compare key (iw_key child) = Eq) then iw_Next child else child.

Definition turn_reverse (key : bytes) (cur i : nat) (child : IteratorWrapper S) : IteratorWrapper S :=
  if decide (i = cur) then child
  else
    let child := iw_Seek key child in
    if iw_valid child then iw_Prev child else iw_SeekToLast child.

Definition mi_Next (m : MergingIterator S) : MergingIterator S :=
  match mi_current m with
  | None => m
  | Some cur =>
      let children :=
        match mi_direction m with
        | kForward => mi_children m
        | kReverse => imap (turn_forward (child_key (mi_children m) cur) cur) (mi_children m)
        end in
      let children := alter iw_Next cur children in
      mkMerging children (FindSmallest children) kForward
  end.

Definition mi_Prev (m : MergingIterator S) : MergingIterator S :=
  match mi_current m with
  | None => m
  | Some cur =>
      let children :=
        match mi_direction m with
        | kReverse => mi_children m
        | kForward => imap (turn_reverse (child_key (mi_children m) cur) cur) (mi_children m)
        end in
      let children := alter iw_Prev cur children in
      mkMerging children (FindLargest children) kReverse
  end.

Definition mi_key (m : MergingIterator S) : bytes :=
  match mi_current m with Some cur => child_key (mi_children m) cur | None => [] end.

Definition mi_value (m : MergingIterator S) : bytes :=
  match mi_current m with
  | Some cur => match mi_children m !! cur with Some w => iw_value w | None => [] end
  | None => []
  end.

Fixpoint mi_status_loop (children : list (IteratorWrapper S)) (status : Status) : Status :=
  match children with
  | [] => status
  | child :: children =>
      let status := iw_status child in
      if ok status then mi_status_loop children status else status
  end.

#[export] Instance MergingIterator_iter : Iterator (MergingIterator S) := {
  it_Valid := mi_Valid;
  it_SeekToFirst := mi_SeekToFirst;
  it_SeekToLast := mi_SeekToLast;
  it_Seek := mi_Seek;
  it_Next := mi_Next;
  it_Prev := mi_Prev;
  it_key := mi_key;
  it_value := mi_value;
  it_status m := mi_status_loop (mi_children m) StatusOK
}.

(** [NewMergingIterator]: nothing to merge, a single child, or a merge. *)
Definition NewMergingIterator (children : list S) : EmptyIterator + (S + MergingIterator S) :=
  match children with
  | [] => inl NewEmptyIterator
  | [child] => inr (inl child)
  | _ => inr (inr (newMergingIterator children))
  end.

End Merging.

(** ** The search for the next child *)

Section Find.
Context {C : Comparator} {CL : ComparatorLaws C} {S : Type} (children : list (IteratorWrapper S)).

(** [a] does not beat [b]. *)
Definition not_better (want : comparison) (a b : bytes) : Prop := Compare a b <> want.

Lemma not_better_Lt (a b : bytes) : not_better Lt a b <-> cle b a.
Proof. unfold not_better. rewrite <- not_clt. done. Qed.

Lemma not_better_Gt (a b : bytes) : not_better Gt a b <-> cle a b.
Proof. unfold not_better. rewrite cmp_gt, not_clt. done. Qed.

Lemma not_better_trans (want : comparison) (a b c : bytes) :
  want <> Eq -> not_better want a b -> not_better want b c -> not_better want a c.
Proof.
  intros Hw. destruct want; [done|..]; rewrite ?not_better_Lt, ?not_better_Gt; intros; eapply cmp_le_trans; done.
Qed.

Lemma better_not_better (want : comparison) (a b : bytes) : want <> Eq -> Compare a b = want -> not_better want b a.
Proof.
  intros Hw Hab. destruct want; [done|..]; rewrite ?not_better_Lt, ?not_better_Gt; apply clt_cle; [done|].
  apply cmp_gt. done.
Qed.

Definition valid_child (i : nat) : Prop := exists w, children !! i = Some w /\ iw_valid w = true.

Lemma find_step_cases (want : comparison) (best : option nat) (i : nat) :
  (~ valid_child i /\ find_step want children best i = best) \/
  (valid_child i /\ best = None /\ find_step want children best i = Some i) \/
  (exists b, valid_child i /\ best = Some b /\ Compare (child_key children i) (child_key children b) = want /\
             find_step want children best i = Some i) \/
  (exists b, valid_child i /\ best = Some b /\ not_better want (child_key children i) (child_key children b) /\
             find_step want children best i = best).
Proof.
  unfold find_step, valid_child, not_better. destruct (children !! i) as [w|] eqn:Ei; [|left; naive_solver].
  assert (child_key children i = iw_key w) as -> by (unfold child_key; rewrite Ei; done).
  destruct (iw_valid w) eqn:Ew.
  - right. destruct best as [b|]; [right|left; split; [eauto|done]].
    case_decide; [left|right]; exists b; split_and!; eauto.
  - left. split; [|done]. intros (w' & [= <-] & Hw). congruence.
Qed.

Lemma find_spec (want : comparison) (js : list nat) (init : option nat) :
  want <> Eq -> (forall b, init = Some b -> valid_child b) ->
  match fold_left (find_step want children) js init with
  | None => init = None /\ forall i, i ∈ js -> ~ valid_child i
  | Some b => valid_child b /\
      (forall i, i ∈ js -> valid_child i -> not_better want (child_key children i) (child_key children b)) /\
      (forall b0, init = Some b0 -> not_better want (child_key children b0) (child_key children b))
  end.
Proof.
  intros Hw. revert init. induction js as [|i js IH]; intros init Hinit; simpl.
  - destruct init as [b|]; [|split; [done|]; intros i Hi; apply elem_of_nil in Hi as []].
    split_and!; [auto|intros i Hi; apply elem_of_nil in Hi as []|].
    intros b0 [= <-]. unfold not_better. rewrite cmp_refl. congruence.
  - destruct (find_step_cases want init i) as [[Hn ->]|[(Hv & -> & ->)|[(b & Hv & -> & Hb & ->)|(b & Hv & -> & Hb & ->)]]].
    + specialize (IH init Hinit). destruct (fold_left _ js init) as [b|].
      * destruct IH as (H1 & H2 & H3). split_and!; [done| |done]. intros j [->|Hj]%elem_of_cons Hvj; [done|auto].
      * destruct IH as [H1 H2]. split; [done|]. intros j [->|Hj]%elem_of_cons; [done|auto].
    + specialize (IH (Some i)). destruct (fold_left _ js (Some i)) as [b|].
      * destruct IH as (H1 & H2 & H3); [naive_solver|]. split_and!; [done| |done].
        intros j [->|Hj]%elem_of_cons Hvj; auto.
      * destruct IH as [? ?]; [naive_solver|done].
    + specialize (IH (Some i)). destruct (fold_left _ js (Some i)) as [b'|].
      * destruct IH as (H1 & H2 & H3); [naive_solver|]. specialize (H3 i eq_refl). split_and!; [done| |].
        -- intros j [->|Hj]%elem_of_cons Hvj; auto.
        -- intros b0 [= <-]. apply (not_better_trans want _ (child_key children i)); [done| |done].
           apply better_not_better; done.
      * destruct IH as [? ?]; [naive_solver|done].
    + specialize (IH (Some b) Hinit). destruct (fold_left _ js (Some b)) as [b'|].
      * destruct IH as (H1 & H2 & H3). specialize (H3 b eq_refl). split_and!; [done| |naive_solver].
        intros j [->|Hj]%elem_of_cons Hvj; [|auto]. eapply not_better_trans; done.
      * destruct IH as [? ?]; done.
Qed.

End Find.

(** ** Two entries of different lists *)

Lemma two_lists {A} (l : list (list A)) (i j : nat) (a b : list A) :
  l !! i = Some a -> l !! j = Some b -> i <> j -> exists rest, l ≡ₚ a :: b :: rest.
Proof.
  intros Hi Hj Hij. apply list_elem_of_split_length in Hi as (l1 & l2 & -> & ->).
  assert (b ∈ l1 ++ l2) as Hin.
  { apply elem_of_app. apply lookup_app_Some in Hj as [Hj|[Hle Hj]]; [left|right]; apply list_elem_of_lookup; [eauto|].
    destruct (j - length l1)%nat as [|k] eqn:Ek; [lia|]. exists k. done. }
  apply list_elem_of_split in Hin as (m1 & m2 & Em). exists (m1 ++ m2).
  rewrite <- Permutation_middle, Em, <- Permutation_middle. done.
Qed.

Lemma concat_two {A} (l : list (list A)) (i j : nat) (a b : list A) (x y : A) :
  l !! i = Some a -> l !! j = Some b -> i <> j -> x ∈ a -> y ∈ b -> exists rest, concat l ≡ₚ x :: y :: rest.
Proof.
  intros Hi Hj Hij Hx Hy. destruct (two_lists l i j a b Hi Hj Hij) as [rest Hp].
  apply list_elem_of_split in Hx as (a1 & a2 & ->). apply list_elem_of_split in Hy as (b1 & b2 & ->).
  exists ((a1 ++ a2) ++ (b1 ++ b2) ++ concat rest). rewrite Hp. cbn [concat].
  rewrite <- (Permutation_middle a1 a2 x), <- (Permutation_middle b1 b2 y). simpl. apply perm_skip.
  rewrite <- Permutation_middle. done.
Qed.

Lemma sorted_distinct {C : Comparator} {CL : ComparatorLaws C} (M : entries) (x y : bytes * bytes) (rest : entries) :
  keys_sorted M -> M ≡ₚ x :: y :: rest -> ~ ceq (fst x) (fst y).
Proof.
  intros HS Hp Heq. assert (x ∈ M) as HxM by (rewrite Hp; left).
  apply list_elem_of_split in HxM as (l1 & l2 & ->).
  assert (y ∈ l1 ++ l2) as Hyl by (rewrite <- Permutation_middle in Hp; apply Permutation_cons_inv in Hp; rewrite Hp; left).
  assert ((l1 ++ x :: l2) !! length l1 = Some x) as Hx by (apply list_lookup_middle; done).
  apply elem_of_app in Hyl as [Hyl|Hyl]; apply list_elem_of_lookup in Hyl as [k Hk].
  - assert (clt (fst y) (fst x)) as Hlt; [|apply ceq_sym in Heq; unfold clt, ceq in *; congruence].
    apply (sorted_lookup_lt _ k (length l1) y x HS); [apply lookup_app_l_Some; done|done|eapply lookup_lt_Some; done].
  - assert (clt (fst x) (fst y)) as Hlt; [|unfold clt, ceq in *; congruence].
    apply (sorted_lookup_lt _ (length l1) (length l1 + S k) x y HS); [done| |lia].
    rewrite lookup_app_r by lia. replace (length l1 + S k - length l1)%nat with (S k) by lia. done.
Qed.

(** ** Refinement of the merged cursor *)

Section Refine.
Context {C : Comparator} {CL : ComparatorLaws C} {S : Type} `{Iterator S}.
Context (kvss : list entries) (M : entries) (R : nat -> S -> option nat -> Prop).
Context (Hsim : forall i kvs, kvss !! i = Some kvs -> IterSim kvs (R i)).
Context (Hsorted : forall i kvs, kvss !! i = Some kvs -> keys_sorted kvs).
Context (HM : keys_sorted M) (Hperm : M ≡ₚ concat kvss).

(** Child [i] is at position [pos kvs] of its entries. *)
Definition all_at (children : list (IteratorWrapper S)) (pos : nat -> entries -> option nat) : Prop :=
  length children = length kvss /\
  forall i kvs w, kvss !! i = Some kvs -> children !! i = Some w -> iw_at (R i) w (pos i kvs).

Definition any_at (children : list (IteratorWrapper S)) : Prop := exists pos, all_at children pos.

Lemma all_at_ext (children : list (IteratorWrapper S)) (pos pos' : nat -> entries -> option nat) :
  (forall i kvs, kvss !! i = Some kvs -> pos i kvs = pos' i kvs) -> all_at children pos -> all_at children pos'.
Proof. intros Hp [Hl Ha]. split; [done|]. intros i kvs w Hi Hw. rewrite <- Hp by done. apply Ha; done. Qed.

Lemma all_at_map (f : IteratorWrapper S -> IteratorWrapper S) (children : list (IteratorWrapper S))
    (pos : nat -> entries -> option nat) :
  any_at children ->
  (forall i kvs w c, kvss !! i = Some kvs -> iw_at (R i) w c -> iw_at (R i) (f w) (pos i kvs)) ->
  all_at (map f children) pos.
Proof.
  intros (pos0 & Hl & Ha) Hf. split; [rewrite length_map; done|]. intros i kvs w Hi Hw.
  rewrite list_lookup_fmap in Hw. destruct (children !! i) as [w0|] eqn:E; [|done]. injection Hw as <-.
  eapply Hf; [done|]. apply Ha; done.
Qed.

(** ** The entries of the children and of the merge *)

Lemma elem_M (kv : bytes * bytes) : kv ∈ M <-> exists i kvs, kvss !! i = Some kvs /\ kv ∈ kvs.
Proof.
  rewrite Hperm. rewrite list_elem_of_In, in_concat. split.
  - intros (kvs & Hk & Hkv). apply list_elem_of_In, list_elem_of_lookup in Hk as [i Hi].
    exists i, kvs. split; [done|]. apply list_elem_of_In. done.
  - intros (i & kvs & Hi & Hkv). exists kvs. split; [|apply list_elem_of_In; done].
    apply list_elem_of_In, list_elem_of_lookup. eauto.
Qed.

(** Different children never have the same key. *)
Lemma children_distinct (i j : nat) (ki kj : entries) (x y : bytes * bytes) :
  kvss !! i = Some ki -> kvss !! j = Some kj -> i <> j -> x ∈ ki -> y ∈ kj -> ~ ceq (fst x) (fst y).
Proof.
  intros Hi Hj Hij Hx Hy. destruct (concat_two kvss i j ki kj x y Hi Hj Hij Hx Hy) as [rest Hp].
  apply (sorted_distinct M x y rest HM). rewrite Hperm, Hp. done.
Qed.

(** ** Choosing the next child *)

(** [p] holds of every entry from some key on, or up to some key. *)
Definition up_closed (p : bytes * bytes -> bool) : Prop :=
  forall x y, cle (fst x) (fst y) -> p x = true -> p y = true.
Definition down_closed (p : bytes * bytes -> bool) : Prop :=
  forall x y, cle (fst x) (fst y) -> p y = true -> p x = true.

(** The entry under child [i]. *)
Definition child_entry (children : list (IteratorWrapper S)) (i : nat) (kv : bytes * bytes) : Prop :=
  exists w, children !! i = Some w /\ iw_valid w = true /\ kv = (iw_key w, iw_value w).

Lemma all_at_valid (children : list (IteratorWrapper S)) pos (i : nat) :
  all_at children pos -> valid_child children i ->
  exists kvs a kv, kvss !! i = Some kvs /\ pos i kvs = Some a /\ kvs !! a = Some kv /\ child_entry children i kv /\
                   fst kv = child_key children i.
Proof.
  intros [Hl Ha] (w & Hw & Hv). destruct (lookup_lt_is_Some_2 kvss i) as [kvs Hk]; [apply lookup_lt_Some in Hw; lia|].
  pose proof (Ha i kvs w Hk Hw) as Hat. pose proof (iw_at_valid kvs (R i) (Hsim i kvs Hk) w _ Hat) as Hva.
  destruct (pos i kvs) as [a|] eqn:Ea; [|congruence].
  pose proof (iw_at_entry kvs (R i) (Hsim i kvs Hk) w a Hat) as He.
  exists kvs, a, (iw_key w, iw_value w). split_and!; [done..| |].
  - exists w. done.
  - unfold child_key. rewrite Hw. done.
Qed.

Lemma all_at_invalid (children : list (IteratorWrapper S)) pos (i : nat) (kvs : entries) :
  all_at children pos -> kvss !! i = Some kvs -> ~ valid_child children i -> pos i kvs = None.
Proof.
  intros [Hl Ha] Hk Hn. destruct (lookup_lt_is_Some_2 children i) as [w Hw]; [apply lookup_lt_Some in Hk; lia|].
  pose proof (iw_at_valid kvs (R i) (Hsim i kvs Hk) w _ (Ha i kvs w Hk Hw)) as Hva.
  destruct (pos i kvs); [|done]. exfalso. apply Hn. exists w. done.
Qed.

Lemma in_children (children : list (IteratorWrapper S)) pos (i : nat) (kvs : entries) :
  all_at children pos -> kvss !! i = Some kvs -> i ∈ seq 0 (length children).
Proof. intros [Hl _] Hk. apply elem_of_seq. apply lookup_lt_Some in Hk. lia. Qed.

Lemma all_at_some (children : list (IteratorWrapper S)) pos (i b : nat) (kvs : entries) :
  all_at children pos -> kvss !! i = Some kvs -> pos i kvs = Some b ->
  valid_child children i /\ exists eb, kvs !! b = Some eb /\ fst eb = child_key children i.
Proof.
  intros [Hl Ha] Hk Hb. destruct (lookup_lt_is_Some_2 children i) as [w Hw]; [apply lookup_lt_Some in Hk; lia|].
  pose proof (Ha i kvs w Hk Hw) as Hat. rewrite Hb in Hat. split.
  - exists w. split; [done|]. apply (iw_at_valid kvs (R i) (Hsim i kvs Hk) w _ Hat).
  - eexists. split; [apply (iw_at_entry kvs (R i) (Hsim i kvs Hk) w b Hat)|]. unfold child_key. rewrite Hw. done.
Qed.

Lemma sorted_le (kvs : entries) (i j : nat) (x y : bytes * bytes) :
  keys_sorted kvs -> kvs !! i = Some x -> kvs !! j = Some y -> (i <= j)%nat -> cle (fst x) (fst y).
Proof.
  intros HS Hx Hy Hij. destruct (decide (i = j)) as [->|]; [replace y with x by congruence; apply cle_refl|].
  apply clt_cle, (sorted_lookup_lt kvs i j); [done..|lia].
Qed.

(** The least entry of the merge that satisfies [p], and the greatest. *)
Lemma first_in_M (p : bytes * bytes -> bool) (kv : bytes * bytes) :
  kv ∈ M -> p kv = true -> (forall e, e ∈ M -> p e = true -> cle (fst kv) (fst e)) ->
  exists j, first_idx p M = Some j /\ M !! j = Some kv.
Proof.
  intros Hin Hp Hmin. apply list_elem_of_lookup in Hin as [j Hj]. exists j. split; [|done].
  apply first_idx_Some. split; [eauto|]. intros j' e Hlt He. destruct (p e) eqn:Ep; [|done]. exfalso.
  pose proof (sorted_lookup_lt M j' j e kv HM He Hj Hlt) as Hc. apply not_cle in Hc. apply Hc, Hmin; [|done].
  apply list_elem_of_lookup. eauto.
Qed.

Lemma last_in_M (p : bytes * bytes -> bool) (kv : bytes * bytes) :
  kv ∈ M -> p kv = true -> (forall e, e ∈ M -> p e = true -> cle (fst e) (fst kv)) ->
  exists j, last_idx p M = Some j /\ M !! j = Some kv.
Proof.
  intros Hin Hp Hmax. apply list_elem_of_lookup in Hin as [j Hj]. exists j. split; [|done].
  apply last_idx_Some. split; [eauto|]. intros j' e Hlt He. destruct (p e) eqn:Ep; [|done]. exfalso.
  pose proof (sorted_lookup_lt M j j' kv e HM Hj He Hlt) as Hc. apply not_cle in Hc. apply Hc, Hmax; [|done].
  apply list_elem_of_lookup. eauto.
Qed.

Lemma smallest_spec (children : list (IteratorWrapper S)) (p : bytes * bytes -> bool) :
  up_closed p -> all_at children (fun _ => first_idx p) ->
  match FindSmallest children with
  | None => first_idx p M = None
  | Some cur => exists j kv, first_idx p M = Some j /\ M !! j = Some kv /\ child_entry children cur kv /\
                  all_at children (fun _ => first_idx (at_or_past (fst kv)))
  end.
Proof.
  intros Hp Ha. pose proof (find_spec children Lt (seq 0 (length children)) None ltac:(done) ltac:(done)) as HF.
  unfold FindSmallest. destruct (fold_left _ _ None) as [cur|].
  - destruct HF as (Hv & Hmin & _). destruct (all_at_valid _ _ _ Ha Hv) as (kc & a & kv & Hkc & Hpos & Hkv & Hce & Ekey).
    apply first_idx_Some in Hpos as [(kv' & Hkv' & Hpk) _]. replace kv' with kv in * by congruence.
    assert (forall i kvs e, kvss !! i = Some kvs -> e ∈ kvs -> p e = true -> cle (fst kv) (fst e)) as Hle.
    { intros i kvs e Hi He Hpe. destruct (first_idx p kvs) as [b|] eqn:Eb.
      - destruct (all_at_some _ _ i b kvs Ha Hi Eb) as (Hvi & eb & Heb & Ekb).
        specialize (Hmin i (in_children _ _ _ _ Ha Hi) Hvi). rewrite not_better_Lt, <- Ekey, <- Ekb in Hmin.
        eapply cmp_le_trans; [exact Hmin|]. apply first_idx_Some in Eb as [_ Hb].
        apply list_elem_of_lookup in He as [c Hc]. apply (sorted_le kvs b c); [eauto..|].
        destruct (Nat.le_gt_cases b c) as [|Hlt]; [done|]. rewrite (Hb c e Hlt Hc) in Hpe. done.
      - rewrite first_idx_None in Eb. rewrite (Eb e He) in Hpe. done. }
    destruct (first_in_M p kv) as (j & Hj & HjM); [apply elem_M; exists cur, kc; split; [done|]; apply list_elem_of_lookup; eauto|done| |].
    { intros e He. apply elem_M in He as (i & kvs & Hi & He). apply (Hle i kvs); done. }
    exists j, kv. split_and!; [done..|]. eapply all_at_ext; [|exact Ha]. intros i kvs Hi. apply first_idx_ext.
    intros e He. destruct (p e) eqn:Epe; symmetry.
    + apply at_or_past_true, (Hle i kvs); done.
    + destruct (at_or_past (fst kv) e) eqn:Eat; [|done]. apply at_or_past_true in Eat.
      rewrite (Hp kv e Eat Hpk) in Epe. done.
  - destruct HF as [_ Hn]. apply first_idx_None. intros e He. apply elem_M in He as (i & kvs & Hi & He).
    pose proof (all_at_invalid _ _ i kvs Ha Hi (Hn i (in_children _ _ _ _ Ha Hi))) as Hnone.
    rewrite first_idx_None in Hnone. auto.
Qed.

Lemma upto_true (k : bytes) (kv : bytes * bytes) : upto k kv = true <-> cle (fst kv) k.
Proof. unfold upto, cle. destruct (Compare (fst kv) k); naive_solver. Qed.

Lemma largest_spec (children : list (IteratorWrapper S)) (p : bytes * bytes -> bool) :
  down_closed p -> all_at children (fun _ => last_idx p) ->
  match FindLargest children with
  | None => last_idx p M = None
  | Some cur => exists j kv, last_idx p M = Some j /\ M !! j = Some kv /\ child_entry children cur kv /\
                  all_at children (fun _ => last_idx (upto (fst kv)))
  end.
Proof.
  intros Hp Ha. pose proof (find_spec children Gt (reverse (seq 0 (length children))) None ltac:(done) ltac:(done)) as HF.
  unfold FindLargest. destruct (fold_left _ _ None) as [cur|].
  - destruct HF as (Hv & Hmin & _). destruct (all_at_valid _ _ _ Ha Hv) as (kc & a & kv & Hkc & Hpos & Hkv & Hce & Ekey).
    apply last_idx_Some in Hpos as [(kv' & Hkv' & Hpk) _]. replace kv' with kv in * by congruence.
    assert (forall i kvs e, kvss !! i = Some kvs -> e ∈ kvs -> p e = true -> cle (fst e) (fst kv)) as Hle.
    { intros i kvs e Hi He Hpe. destruct (last_idx p kvs) as [b|] eqn:Eb.
      - destruct (all_at_some _ _ i b kvs Ha Hi Eb) as (Hvi & eb & Heb & Ekb).
        assert (i ∈ reverse (seq 0 (length children))) as Hir by (apply elem_of_reverse, (in_children _ _ _ _ Ha Hi)).
        specialize (Hmin i Hir Hvi). rewrite not_better_Gt, <- Ekey, <- Ekb in Hmin.
        eapply cmp_le_trans; [|exact Hmin]. apply last_idx_Some in Eb as [_ Hb].
        apply list_elem_of_lookup in He as [c Hc]. apply (sorted_le kvs c b); [eauto..|].
        destruct (Nat.le_gt_cases c b) as [|Hlt]; [done|]. rewrite (Hb c e Hlt Hc) in Hpe. done.
      - rewrite last_idx_None in Eb. rewrite (Eb e He) in Hpe. done. }
    destruct (last_in_M p kv) as (j & Hj & HjM); [apply elem_M; exists cur, kc; split; [done|]; apply list_elem_of_lookup; eauto|done| |].
    { intros e He. apply elem_M in He as (i & kvs & Hi & He). apply (Hle i kvs); done. }
    exists j, kv. split_and!; [done..|]. eapply all_at_ext; [|exact Ha]. intros i kvs Hi. apply last_idx_ext.
    intros e He. destruct (p e) eqn:Epe; symmetry.
    + apply upto_true, (Hle i kvs); done.
    + destruct (upto (fst kv) e) eqn:Eat; [|done]. apply upto_true in Eat. rewrite (Hp e kv Eat Hpk) in Epe. done.
  - destruct HF as [_ Hn]. apply last_idx_None. intros e He. apply elem_M in He as (i & kvs & Hi & He).
    assert (i ∈ reverse (seq 0 (length children))) as Hir by (apply elem_of_reverse, (in_children _ _ _ _ Ha Hi)).
    pose proof (all_at_invalid _ _ i kvs Ha Hi (Hn i Hir)) as Hnone. rewrite last_idx_None in Hnone. auto.
Qed.

(** ** Moving from the current entry *)

Lemma after_up_closed (k : bytes) : up_closed (after k).
Proof.
  intros x y Hxy Hx. unfold after in *. destruct (Compare (fst x) k) eqn:Ex; try done. apply cmp_gt in Ex.
  assert (Compare (fst y) k = Gt) as ->; [|done]. apply cmp_gt. eapply clt_cle_trans; done.
Qed.

Lemma before_down (k : bytes) : down_closed (before k).
Proof.
  intros x y Hxy Hy. unfold before in *. destruct (Compare (fst y) k) eqn:Ey; try done.
  rewrite (cle_clt_trans _ _ _ Hxy Ey : Compare _ _ = Lt). done.
Qed.

(** For the children that do not hold [kv], "at or past" and "after" agree. *)
Lemma other_first (cur i : nat) (kc kvs : entries) (kv : bytes * bytes) :
  kvss !! cur = Some kc -> kv ∈ kc -> kvss !! i = Some kvs -> i <> cur ->
  first_idx (at_or_past (fst kv)) kvs = first_idx (after (fst kv)) kvs.
Proof.
  intros Hc Hin Hi Hne. apply first_idx_ext. intros e He.
  pose proof (children_distinct i cur kvs kc e kv Hi Hc Hne He Hin) as Hd. unfold ceq in Hd.
  unfold at_or_past, after. destruct (Compare (fst e) (fst kv)); done.
Qed.

Lemma other_last (cur i : nat) (kc kvs : entries) (kv : bytes * bytes) :
  kvss !! cur = Some kc -> kv ∈ kc -> kvss !! i = Some kvs -> i <> cur ->
  last_idx (upto (fst kv)) kvs = last_idx (before (fst kv)) kvs.
Proof.
  intros Hc Hin Hi Hne. apply last_idx_ext. intros e He.
  pose proof (children_distinct i cur kvs kc e kv Hi Hc Hne He Hin) as Hd. unfold ceq in Hd.
  unfold upto, before. destruct (Compare (fst e) (fst kv)); done.
Qed.

Lemma at_key (kvs : entries) (a : nat) (kv : bytes * bytes) :
  keys_sorted kvs -> kvs !! a = Some kv ->
  first_idx (at_or_past (fst kv)) kvs = Some a /\ last_idx (upto (fst kv)) kvs = Some a.
Proof.
  intros HS Ha. split.
  - apply first_idx_Some. split; [exists kv; split; [done|]; apply at_or_past_true, cle_refl|].
    intros j e Hj He. apply at_or_past_false. apply (sorted_lookup_lt kvs j a); done.
  - apply last_idx_Some. split; [exists kv; split; [done|]; apply upto_true, cle_refl|].
    intros j e Hj He. destruct (upto (fst kv) e) eqn:E; [|done]. apply upto_true in E.
    pose proof (sorted_lookup_lt kvs a j kv e HS Ha He Hj) as Hlt. apply not_cle in Hlt. done.
Qed.

(** The merging iterator [m] is at entry [kv]. *)
Record at_kv (m : MergingIterator S) (kv : bytes * bytes) : Prop := {
  ak_cur : exists cur, mi_current m = Some cur /\ child_entry (mi_children m) cur kv;
  ak_children : match mi_direction m with
                | kForward => all_at (mi_children m) (fun _ => first_idx (at_or_past (fst kv)))
                | kReverse => all_at (mi_children m) (fun _ => last_idx (upto (fst kv)))
                end
}.

Lemma at_kv_child (m : MergingIterator S) (kv : bytes * bytes) :
  at_kv m kv ->
  exists cur w kc a, mi_current m = Some cur /\ mi_children m !! cur = Some w /\ kv = (iw_key w, iw_value w) /\
    child_key (mi_children m) cur = fst kv /\ kvss !! cur = Some kc /\ kc !! a = Some kv /\ iw_at (R cur) w (Some a).
Proof.
  intros [(cur & Hcur & w & Hw & Hv & ->) Hch].
  assert (exists pos, all_at (mi_children m) pos) as (pos & Ha) by (destruct (mi_direction m); eauto).
  destruct (all_at_valid _ _ cur Ha) as (kc & a & kv & Hk & Hpos & Hkv & (w' & Hw' & _ & ->) & _); [exists w; done|].
  replace w' with w in * by congruence. exists cur, w, kc, a. split_and!; [done..| |done|done|].
  - unfold child_key. rewrite Hw. done.
  - rewrite <- Hpos. apply (proj2 Ha); done.
Qed.

Lemma all_at_imap (f : nat -> IteratorWrapper S -> IteratorWrapper S) (children : list (IteratorWrapper S)) pos pos' :
  all_at children pos ->
  (forall i kvs w, kvss !! i = Some kvs -> children !! i = Some w -> iw_at (R i) w (pos i kvs) ->
     iw_at (R i) (f i w) (pos' i kvs)) ->
  all_at (imap f children) pos'.
Proof.
  intros [Hl Ha] Hf. split; [rewrite length_imap; done|]. intros i kvs w Hi Hw. rewrite list_lookup_imap in Hw.
  destruct (children !! i) as [w0|] eqn:E; [|done]. injection Hw as <-. apply Hf; [done..|]. apply Ha; done.
Qed.

Lemma all_at_alter (f : IteratorWrapper S -> IteratorWrapper S) (cur : nat) (children : list (IteratorWrapper S)) pos pos' :
  all_at children pos ->
  (forall kvs w, kvss !! cur = Some kvs -> children !! cur = Some w -> iw_at (R cur) w (pos cur kvs) ->
     iw_at (R cur) (f w) (pos' cur kvs)) ->
  (forall i kvs, i <> cur -> kvss !! i = Some kvs -> pos i kvs = pos' i kvs) ->
  all_at (alter f cur children) pos'.
Proof.
  intros [Hl Ha] Hf Hne. split; [rewrite length_alter; done|]. intros i kvs w Hi Hw.
  destruct (decide (i = cur)) as [->|Hn].
  - rewrite list_lookup_alter_eq in Hw. destruct (children !! cur) as [w0|] eqn:E; [|done]. injection Hw as <-.
    apply Hf; [done..|]. apply Ha; done.
  - rewrite list_lookup_alter_ne in Hw by done. rewrite <- Hne by done. apply Ha; done.
Qed.

(** After the loop over the other children, all of them face forward (backward). *)
Lemma turn_forward_at (m : MergingIterator S) (kv : bytes * bytes) (cur : nat) :
  at_kv m kv -> mi_current m = Some cur ->
  all_at (match mi_direction m with
          | kForward => mi_children m
          | kReverse => imap (turn_forward (child_key (mi_children m) cur) cur) (mi_children m)
          end) (fun _ => first_idx (at_or_past (fst kv))).
Proof.
  intros Hat Hcur. destruct (at_kv_child m kv Hat) as (cur' & w & kc & a & Hcur' & Hw & Ekv & Ek & Hkc & Ha & Hiw).
  replace cur' with cur in * by congruence. pose proof (ak_children _ _ Hat) as Hch. destruct (mi_direction m); [done|].
  rewrite Ek. eapply all_at_imap; [exact Hch|]. intros i kvs w' Hi Hw' Hp. unfold turn_forward. case_decide as Hd.
  - subst i. replace w' with w by congruence. replace kvs with kc by congruence.
    rewrite (proj1 (at_key kc a kv (Hsorted _ _ Hkc) Ha)). done.
  - pose proof (iw_at_seek kvs (R i) (Hsim i kvs Hi) (fst kv) w' _ Hp) as Hs. rewrite seek_index_first in Hs.
    pose proof (iw_at_valid kvs (R i) (Hsim i kvs Hi) _ _ Hs) as Hv.
    destruct (first_idx (at_or_past (fst kv)) kvs) as [b|] eqn:Eb; rewrite Hv; [|done]. cbn [andb].
    rewrite bool_decide_eq_false_2; [done|]. intros Heq.
    pose proof (iw_at_entry kvs (R i) (Hsim i kvs Hi) _ _ Hs) as He.
    refine (children_distinct cur i kc kvs kv (iw_key (iw_Seek (fst kv) w'), _) Hkc Hi (not_eq_sym Hd) _ _ Heq);
      apply list_elem_of_lookup; eauto.
Qed.

Lemma turn_reverse_at (m : MergingIterator S) (kv : bytes * bytes) (cur : nat) :
  at_kv m kv -> mi_current m = Some cur ->
  all_at (match mi_direction m with
          | kReverse => mi_children m
          | kForward => imap (turn_reverse (child_key (mi_children m) cur) cur) (mi_children m)
          end) (fun _ => last_idx (upto (fst kv))).
Proof.
  intros Hat Hcur. destruct (at_kv_child m kv Hat) as (cur' & w & kc & a & Hcur' & Hw & Ekv & Ek & Hkc & Ha & Hiw).
  replace cur' with cur in * by congruence. pose proof (ak_children _ _ Hat) as Hch. destruct (mi_direction m); [|done].
  rewrite Ek. eapply all_at_imap; [exact Hch|]. intros i kvs w' Hi Hw' Hp. unfold turn_reverse. case_decide as Hd.
  - subst i. replace w' with w by congruence. replace kvs with kc by congruence.
    rewrite (proj2 (at_key kc a kv (Hsorted _ _ Hkc) Ha)). done.
  - pose proof (iw_at_seek kvs (R i) (Hsim i kvs Hi) (fst kv) w' _ Hp) as Hs.
    pose proof (iw_at_valid kvs (R i) (Hsim i kvs Hi) _ _ Hs) as Hv.
    rewrite (other_last cur i kc kvs kv Hkc) by (done || (apply list_elem_of_lookup; eauto)).
    rewrite <- (seek_prev_idx kvs (Hsorted i kvs Hi) (fst kv)).
    destruct (seek_index (fst kv) kvs) as [b|] eqn:Eb; rewrite Hv.
    + apply (iw_at_prev kvs (R i) (Hsim i kvs Hi)). done.
    + apply (iw_at_last kvs (R i) (Hsim i kvs Hi) _ _ Hs).
Qed.

(** ** The simulation *)

Definition merged_at (m : MergingIterator S) (c : option nat) : Prop :=
  any_at (mi_children m) /\
  match c with
  | None => mi_current m = None
  | Some j => exists kv, M !! j = Some kv /\ at_kv m kv
  end.

Lemma found_smallest (children : list (IteratorWrapper S)) (p : bytes * bytes -> bool) :
  up_closed p -> all_at children (fun _ => first_idx p) ->
  merged_at (mkMerging children (FindSmallest children) kForward) (first_idx p M).
Proof.
  intros Hp Ha. pose proof (smallest_spec children p Hp Ha) as HF. split; [eexists; exact Ha|].
  destruct (FindSmallest children) as [cur|]; [|rewrite HF; done].
  destruct HF as (j & kv & -> & Hj & Hce & Hall). exists kv. split; [done|]. split; simpl; [eauto|done].
Qed.

Lemma found_largest (children : list (IteratorWrapper S)) (p : bytes * bytes -> bool) :
  down_closed p -> all_at children (fun _ => last_idx p) ->
  merged_at (mkMerging children (FindLargest children) kReverse) (last_idx p M).
Proof.
  intros Hp Ha. pose proof (largest_spec children p Hp Ha) as HF. split; [eexists; exact Ha|].
  destruct (FindLargest children) as [cur|]; [|rewrite HF; done].
  destruct HF as (j & kv & -> & Hj & Hce & Hall). exists kv. split; [done|]. split; simpl; [eauto|done].
Qed.

Lemma mi_Next_at (m : MergingIterator S) (i : nat) : merged_at m (Some i) -> merged_at (mi_Next m) (cur_next M i).
Proof.
  intros [_ (kv & Hi & Hat)]. destruct (at_kv_child m kv Hat) as (cur & w & kc & a & Hcur & Hw & Ekv & Ek & Hkc & Ha & Hiw).
  unfold mi_Next. rewrite Hcur, (cur_next_idx M HM i kv Hi). apply found_smallest; [apply after_up_closed|].
  eapply all_at_alter; [apply (turn_forward_at m kv cur Hat Hcur)|..].
  - intros kvs w' Hk _ Hp. replace kvs with kc in * by congruence.
    rewrite (proj1 (at_key kc a kv (Hsorted _ _ Hkc) Ha)) in Hp. rewrite <- (cur_next_idx kc (Hsorted _ _ Hkc) a kv Ha).
    apply (iw_at_next kc (R cur) (Hsim cur kc Hkc)). done.
  - intros j kvs Hne Hj. apply (other_first cur j kc kvs kv); [done| |done|done]. apply list_elem_of_lookup. eauto.
Qed.

Lemma mi_Prev_at (m : MergingIterator S) (i : nat) : merged_at m (Some i) -> merged_at (mi_Prev m) (cur_prev i).
Proof.
  intros [_ (kv & Hi & Hat)]. destruct (at_kv_child m kv Hat) as (cur & w & kc & a & Hcur & Hw & Ekv & Ek & Hkc & Ha & Hiw).
  unfold mi_Prev. rewrite Hcur, (cur_prev_idx M HM i kv Hi). apply found_largest; [apply before_down|].
  eapply all_at_alter; [apply (turn_reverse_at m kv cur Hat Hcur)|..].
  - intros kvs w' Hk _ Hp. replace kvs with kc in * by congruence.
    rewrite (proj2 (at_key kc a kv (Hsorted _ _ Hkc) Ha)) in Hp. rewrite <- (cur_prev_idx kc (Hsorted _ _ Hkc) a kv Ha).
    apply (iw_at_prev kc (R cur) (Hsim cur kc Hkc)). done.
  - intros j kvs Hne Hj. apply (other_last cur j kc kvs kv); [done| |done|done]. apply list_elem_of_lookup. eauto.
Qed.

Lemma mi_status_ok (children : list (IteratorWrapper S)) (s : Status) :
  (forall w, w ∈ children -> iw_status w = StatusOK) -> s = StatusOK -> mi_status_loop children s = StatusOK.
Proof.
  revert s. induction children as [|w children IH]; intros s Hs ->; simpl; [done|].
  rewrite (Hs w) by left. apply IH; [|done]. intros w' Hw'. apply Hs. right. done.
Qed.

Lemma merging_sim : IterSim M merged_at.
Proof.
  split.
  - intros m [j|] [_ Hm]; simpl; unfold mi_Valid.
    + destruct Hm as (kv & _ & Hat). destruct (ak_cur _ _ Hat) as (cur & -> & _). done.
    + rewrite Hm. done.
  - intros m j [_ (kv & Hj & Hat)]. destruct (ak_cur _ _ Hat) as (cur & Hcur & w & Hw & _ & ->).
    simpl. unfold mi_key, mi_value, child_key. rewrite Hcur, Hw. done.
  - intros m c [(pos & Hl & Ha) _]. simpl. apply mi_status_ok; [|done]. intros w Hw.
    apply list_elem_of_lookup in Hw as [i Hi]. destruct (lookup_lt_is_Some_2 kvss i) as [kvs Hk]; [apply lookup_lt_Some in Hi; lia|].
    apply (iw_at_status kvs (R i) (Hsim i kvs Hk) w _ (Ha i kvs w Hk Hi)).
  - intros m c [Hany _]. rewrite cur_first_idx. apply found_smallest; [done|]. apply all_at_map; [done|].
    intros i kvs w c0 Hk Hw. rewrite <- cur_first_idx. apply (iw_at_first kvs (R i) (Hsim i kvs Hk) w c0 Hw).
  - intros m c [Hany _]. rewrite cur_last_idx. apply found_largest; [done|]. apply all_at_map; [done|].
    intros i kvs w c0 Hk Hw. rewrite <- cur_last_idx. apply (iw_at_last kvs (R i) (Hsim i kvs Hk) w c0 Hw).
  - intros m c t [Hany _]. rewrite seek_index_first. apply found_smallest.
    + intros x y Hxy. rewrite !at_or_past_true. intros Hx. eapply cmp_le_trans; done.
    + apply all_at_map; [done|]. intros i kvs w c0 Hk Hw. rewrite <- seek_index_first.
      apply (iw_at_seek kvs (R i) (Hsim i kvs Hk) t w c0 Hw).
  - apply mi_Next_at.
  - apply mi_Prev_at.
Qed.

Lemma newMergingIterator_at (children : list S) :
  length children = length kvss ->
  (forall i s, children !! i = Some s -> exists c, R i s c) ->
  merged_at (newMergingIterator children) None.
Proof.
  intros Hl Hc. split; [|done].
  assert (forall n, exists pos : nat -> option nat, forall i s, (i < n)%nat -> children !! i = Some s -> R i s (pos i)) as Hpos.
  { induction n as [|n [pos IH]]; [exists (fun _ => None); lia|].
    destruct (children !! n) as [s|] eqn:En; [|exists pos; intros i s Hi Hs; apply IH; [|done]].
    - destruct (Hc n s En) as [c Hcn]. exists (fun i => if decide (i = n) then c else pos i).
      intros i s' Hi Hs. case_decide; [subst; congruence|]. apply IH; [lia|done].
    - assert (i <> n) by congruence. lia. }
  destruct (Hpos (length children)) as [pos Hp]. exists (fun i _ => pos i). split; [simpl; rewrite length_map; done|].
  intros i kvs w Hi Hw. simpl in Hw. rewrite list_lookup_fmap in Hw. destruct (children !! i) as [s|] eqn:E; [|done].
  injection Hw as <-. apply iw_at_Set. apply Hp; [apply lookup_lt_Some in E; done|done].
Qed.

End Refine.

(** ** Theorems *)

(** C21. A merging iterator is an iterator over the merge: for any children that
    are iterators over sorted entries with no key in common, after any sequence of
    [Seek], [SeekToFirst], [SeekToLast], [Next] and [Prev], in any order (every
    change of direction included), the entry under the iterator is the one the
    cursor over the merged entries is at, and no error is reported. *)
Theorem merging_iterator_refines {C : Comparator} {CL : ComparatorLaws C} {S : Type} `{Iterator S}
  (kvss : list entries) (M : entries) (R : nat -> S -> option nat -> Prop) (children : list S) (ops : list IterOp) :
  keys_sorted M -> M ≡ₚ concat kvss ->
  (forall i kvs, kvss !! i = Some kvs -> keys_sorted kvs /\ IterSim kvs (R i)) ->
  length children = length kvss -> (forall i s, children !! i = Some s -> exists c, R i s c) ->
  let m := run_ops (newMergingIterator children) ops in
  observe m = cur_observe M (cur_ops M None ops) /\ it_status m = StatusOK.
Proof.
  intros HM Hperm Hk Hl Hc m.
  assert (IterSim M (merged_at kvss M R)) as Hsim
    by (apply merging_sim; [intros i kvs Hi; apply (Hk i kvs Hi)|intros i kvs Hi; apply (Hk i kvs Hi)|done|done]).
  apply (observe_sim M (merged_at kvss M R) m); [done|]. apply run_ops_sim; [done|].
  apply newMergingIterator_at; done.
Qed.

Lemma merging_iterator_refines_witness :
  let children := [mkListIterator [(lit "a", lit "1"); (lit "d", lit "4")] None;
                   mkListIterator [(lit "b", lit "2"); (lit "c", lit "3")] None] in
  observe (H := MergingIterator_iter (C := BytewiseComparator) (H := ListIterator_iter (C := BytewiseComparator)))
    (run_ops (H := MergingIterator_iter (C := BytewiseComparator) (H := ListIterator_iter (C := BytewiseComparator)))
      (newMergingIterator (H := ListIterator_iter (C := BytewiseComparator)) children)
      [OpSeek (lit "bb"); OpPrev; OpNext; OpNext; OpPrev; OpPrev; OpPrev]) = Some (lit "a", lit "1").
Proof.
  intros children.
  refine (proj1 (merging_iterator_refines (C := BytewiseComparator) (H := ListIterator_iter (C := BytewiseComparator))
    [[(lit "a", lit "1"); (lit "d", lit "4")]; [(lit "b", lit "2"); (lit "c", lit "3")]]
    [(lit "a", lit "1"); (lit "b", lit "2"); (lit "c", lit "3"); (lit "d", lit "4")]
    (fun i => list_at (nth i [[(lit "a", lit "1"); (lit "d", lit "4")]; [(lit "b", lit "2"); (lit "c", lit "3")]] []))
    children _ _ _ _ _ _)).
  - repeat constructor.
  - simpl. apply perm_skip. symmetry. apply (Permutation_cons_append [(lit "b", lit "2"); (lit "c", lit "3")]).
  - intros [|[|i]] kvs Hi; simpl in Hi; try discriminate Hi; injection Hi as <-;
      (split; [repeat constructor|apply ListIterator_sim]).
  - reflexivity.
  - intros [|[|i]] s Hs; simpl in Hs; try discriminate Hs; injection Hs as <-; exists None; split_and!; done.
Defined.
