(* ===== verification/TwoLevelIterator.v ===== *)
(** * TwoLevelIterator: an index of blocks ([table/two_level_iterator.cc])

    The index iterator yields block handles, [block_function] turns a handle into
    an iterator over that block; it may change the store it reads from (the block cache),
    which the iterator carries along.  The loops that skip empty blocks take [fuel]
    rounds at most: one more than the index has entries is enough.  The result:
    the iterator refines the cursor over the concatenation of the blocks. *)

From S2P Require Import Prelude Status Comparator Logging Iterator.
From Stdlib Require Import Sorting.Sorted.

Record TwoLevelIterator (I D T : Type) := mkTwoLevel {
  tl_status : Status;
  tl_index_iter : IteratorWrapper I;
  tl_data_iter : IteratorWrapper D;
  tl_data_block_handle : bytes;
  tl_store : T
}.
Arguments mkTwoLevel {I D T}.
Arguments tl_status {I D T}.
Arguments tl_index_iter {I D T}.
Arguments tl_data_iter {I D T}.
Arguments tl_data_block_handle {I D T}.
Arguments tl_store {I D T}.

Section TwoLevel.
Context {I D T : Type} {HI : Iterator I} {HD : Iterator D}.
Context (block_function : bytes -> T -> D * T) (fuel : nat).

Definition newTwoLevelIterator (index_iter : I) (store : T) : TwoLevelIterator I D T :=
  mkTwoLevel StatusOK (iw_Set (Some index_iter) newIteratorWrapper) newIteratorWrapper [] store.

Definition has_data (t : TwoLevelIterator I D T) : bool :=
  match iw_iter (tl_data_iter t) with Some _ => true | None => false end.

Definition SaveError (s : Status) (t : TwoLevelIterator I D T) : TwoLevelIterator I D T :=
  if ok (tl_status t) && negb (ok s)
  then mkTwoLevel s (tl_index_iter t) (tl_data_iter t) (tl_data_block_handle t) (tl_store t) else t.

Definition set_data (w : IteratorWrapper D) (t : TwoLevelIterator I D T) : TwoLevelIterator I D T :=
  mkTwoLevel (tl_status t) (tl_index_iter t) w (tl_data_block_handle t) (tl_store t).

Definition set_index (w : IteratorWrapper I) (t : TwoLevelIterator I D T) : TwoLevelIterator I D T :=
  mkTwoLevel (tl_status t) w (tl_data_iter t) (tl_data_block_handle t) (tl_store t).

Definition SetDataIterator (data_iter : option D) (t : TwoLevelIterator I D T) : TwoLevelIterator I D T :=
  let t := if has_data t then SaveError (iw_status (tl_data_iter t)) t else t in
  set_data (iw_Set data_iter (tl_data_iter t)) t.

Definition InitDataBlock (t : TwoLevelIterator I D T) : TwoLevelIterator I D T :=
  if negb (iw_valid (tl_index_iter t)) then SetDataIterator None t
  else
    let handle := iw_value (tl_index_iter t) in
    if has_data t && bool_decide (handle = tl_data_block_handle t) then t
    else
      let '(iter, store) := block_function handle (tl_store t) in
      let t := mkTwoLevel (tl_status t) (tl_index_iter t) (tl_data_iter t) handle store in
      SetDataIterator (Some iter) t.

(** [if (data_iter_.iter() != nullptr) data_iter_.f()]. *)
Definition on_data (f : IteratorWrapper D -> IteratorWrapper D) (t : TwoLevelIterator I D T) : TwoLevelIterator I D T :=
  if has_data t then set_data (f (tl_data_iter t)) t else t.

Fixpoint SkipEmptyDataBlocksForward (n : nat) (t : TwoLevelIterator I D T) : TwoLevelIterator I D T :=
  match n with
  | O => t
  | S n =>
      if negb (has_data t) || negb (iw_valid (tl_data_iter t)) then
        if negb (iw_valid (tl_index_iter t)) then SetDataIterator None t
        else
          let t := set_index (iw_Next (tl_index_iter t)) t in
          let t := InitDataBlock t in
          let t := on_data iw_SeekToFirst t in
          SkipEmptyDataBlocksForward n t
      else t
  end.

Fixpoint SkipEmptyDataBlocksBackward (n : nat) (t : TwoLevelIterator I D T) : TwoLevelIterator I D T :=
  match n with
  | O => t
  | S n =>
      if negb (has_data t) || negb (iw_valid (tl_data_iter t)) then
        if negb (iw_valid (tl_index_iter t)) then SetDataIterator None t
        else
          let t := set_index (iw_Prev (tl_index_iter t)) t in
          let t := InitDataBlock t in
          let t := on_data iw_SeekToLast t in
          SkipEmptyDataBlocksBackward n t
      else t
  end.

Definition tl_Seek (target : bytes) (t : TwoLevelIterator I D T) : TwoLevelIterator I D T :=
  let t := set_index (iw_Seek target (tl_index_iter t)) t in
  let t := InitDataBlock t in
  let t := on_data (iw_Seek target) t in
  SkipEmptyDataBlocksForward fuel t.

Definition tl_SeekToFirst (t : TwoLevelIterator I D T) : TwoLevelIterator I D T :=
  let t := set_index (iw_SeekToFirst (tl_index_iter t)) t in
  let t := InitDataBlock t in
  let t := on_data iw_SeekToFirst t in
  SkipEmptyDataBlocksForward fuel t.

Definition tl_SeekToLast (t : TwoLevelIterator I D T) : TwoLevelIterator I D T :=
  let t := set_index (iw_SeekToLast (tl_index_iter t)) t in
  let t := InitDataBlock t in
  let t := on_data iw_SeekToLast t in
  SkipEmptyDataBlocksBackward fuel t.

Definition tl_Next (t : TwoLevelIterator I D T) : TwoLevelIterator I D T :=
  SkipEmptyDataBlocksForward fuel (set_data (iw_Next (tl_data_iter t)) t).

Definition tl_Prev (t : TwoLevelIterator I D T) : TwoLevelIterator I D T :=
  SkipEmptyDataBlocksBackward fuel (set_data (iw_Prev (tl_data_iter t)) t).

Definition tl_get_status (t : TwoLevelIterator I D T) : Status :=
  if negb (ok (tl_status t)) then tl_status t
  else if negb (ok (iw_status (tl_index_iter t))) then iw_status (tl_index_iter t)
  else if has_data t && negb (ok (iw_status (tl_data_iter t))) then iw_status (tl_data_iter t)
  else StatusOK.

Definition TwoLevelIterator_iter : Iterator (TwoLevelIterator I D T) := {|
  it_Valid t := iw_valid (tl_data_iter t);
  it_SeekToFirst := tl_SeekToFirst;
  it_SeekToLast := tl_SeekToLast;
  it_Seek := tl_Seek;
  it_Next := tl_Next;
  it_Prev := tl_Prev;
  it_key t := iw_key (tl_data_iter t);
  it_value t := iw_value (tl_data_iter t);
  it_status := tl_get_status
|}.

(** ** Refinement *)

Context {C : Comparator} {CL : ComparatorLaws C}.
Context (index : entries) (RI : I -> option nat -> Prop) (HsimI : IterSim index RI).
Context (content : bytes -> entries) (RD : bytes -> D -> option nat -> Prop).
Context (HsimD : forall h, h ∈ map snd index -> IterSim (content h) (RD h)).
Context (Inv : T -> Prop).
Context (Hopen : forall h s, h ∈ map snd index -> Inv s -> Inv (snd (block_function h s)) /\ exists c, RD h (fst (block_function h s)) c).

Definition blocks : list entries := map (fun kh => content (snd kh)) index.
Definition all_entries : entries := concat blocks.
Definition offset (b : nat) : nat := length (concat (take b blocks)).

(** The data iterator is absent, or somewhere in the block of the handle. *)
Definition data_any (t : TwoLevelIterator I D T) : Prop :=
  iw_iter (tl_data_iter t) = None \/
  (tl_data_block_handle t ∈ map snd index /\
   exists c, iw_at (RD (tl_data_block_handle t)) (tl_data_iter t) c).

Record tl_ok (t : TwoLevelIterator I D T) (ci : option nat) : Prop := {
  to_status : tl_status t = StatusOK;
  to_index : iw_at RI (tl_index_iter t) ci;
  to_data : data_any t;
  to_cache : cache_ok (tl_data_iter t);
  to_store : Inv (tl_store t)
}.

(** The index is at block [b] and the data iterator at [da] in it. *)
Record in_block (t : TwoLevelIterator I D T) (b : nat) (da : option nat) : Prop := {
  ib_ok : tl_ok t (Some b);
  ib_entry : exists k, index !! b = Some (k, tl_data_block_handle t);
  ib_data : iw_at (RD (tl_data_block_handle t)) (tl_data_iter t) da
}.

Lemma handle_in (b : nat) (k h : bytes) : index !! b = Some (k, h) -> h ∈ map snd index.
Proof. intros Hb. apply list_elem_of_fmap. exists (k, h). split; [done|]. apply list_elem_of_lookup. eauto. Qed.

Lemma iw_at_cache (R : D -> option nat -> Prop) (w : IteratorWrapper D) (c : option nat) : iw_at R w c -> cache_ok w.
Proof. intros (s & _ & _ & Hc). done. Qed.

Lemma has_data_at (R : D -> option nat -> Prop) (t : TwoLevelIterator I D T) (c : option nat) :
  iw_at R (tl_data_iter t) c -> has_data t = true.
Proof. intros (s & Es & _). unfold has_data. rewrite Es. done. Qed.

Lemma SetDataIterator_ok (o : option D) (t : TwoLevelIterator I D T) (ci : option nat) :
  (tl_status t = StatusOK) -> iw_at RI (tl_index_iter t) ci ->
  (has_data t = true -> iw_status (tl_data_iter t) = StatusOK) ->
  let t' := SetDataIterator o t in
  tl_status t' = StatusOK /\ iw_at RI (tl_index_iter t') ci /\ tl_data_block_handle t' = tl_data_block_handle t /\
  tl_data_iter t' = iw_Set o (tl_data_iter t) /\ tl_store t' = tl_store t.
Proof.
  intros Hs Hi Hd. unfold SetDataIterator, SaveError. rewrite Hs. simpl. destruct (has_data t); [|done].
  rewrite (Hd eq_refl). done.
Qed.

Lemma data_any_status (t : TwoLevelIterator I D T) :
  data_any t -> has_data t = true -> iw_status (tl_data_iter t) = StatusOK.
Proof.
  intros [E|(Hh & c & Hc)] Hd; [unfold has_data in Hd; rewrite E in Hd; done|].
  apply (iw_at_status _ _ (HsimD _ Hh) _ _ Hc).
Qed.

(** [SetDataIterator(nullptr)] leaves no data iterator. *)
Lemma SetDataIterator_None (t : TwoLevelIterator I D T) (ci : option nat) :
  tl_ok t ci -> tl_ok (SetDataIterator None t) ci /\ iw_iter (tl_data_iter (SetDataIterator None t)) = None.
Proof.
  intros [Hs Hi Hd Hc Ht]. destruct (SetDataIterator_ok None t ci Hs Hi (data_any_status t Hd)) as (H1 & H2 & H3 & H4 & H5).
  split; [|rewrite H4; done]. split; [done|done|left; rewrite H4; done|rewrite H4; done|rewrite H5; done].
Qed.

(** After [InitDataBlock] the data iterator is open on the index's block. *)
Lemma InitDataBlock_in (t : TwoLevelIterator I D T) (b : nat) :
  tl_ok t (Some b) -> exists da, in_block (InitDataBlock t) b da.
Proof.
  intros [Hs Hi Hd Hc Ht]. unfold InitDataBlock. rewrite (iw_at_valid _ _ HsimI _ _ Hi). cbn [negb].
  pose proof (iw_at_entry _ _ HsimI _ _ Hi) as Hentry. set (h := iw_value (tl_index_iter t)) in *.
  destruct (has_data t && bool_decide (h = tl_data_block_handle t)) eqn:E.
  - apply andb_prop in E as [Eh Eb]. apply bool_decide_eq_true in Eb.
    destruct Hd as [En|(Hh & c & Hat)]; [unfold has_data in Eh; rewrite En in Eh; done|].
    exists c. split; [split; [done|done|right; eauto|done|done]|rewrite <- Eb; eauto|done].
  - destruct (Hopen h (tl_store t) (handle_in _ _ _ Hentry) Ht) as (Ht' & c & Hopen'). destruct (block_function h (tl_store t)) as [iter store]. cbn [fst snd] in *.
    set (t0 := mkTwoLevel (tl_status t) (tl_index_iter t) (tl_data_iter t) h store).
    destruct (SetDataIterator_ok (Some iter) t0 (Some b) Hs Hi) as (H1 & H2 & H3 & H4 & H5);
      [exact (data_any_status t Hd)|]. exists c.
    assert (iw_at (RD h) (tl_data_iter (SetDataIterator (Some iter) t0)) c) as Hat
      by (rewrite H4; apply iw_at_Set; done).
    split; [split; [done|done|right| |rewrite H5; done]|..].
    + rewrite H3. split; [apply (handle_in _ _ _ Hentry)|eauto].
    + apply (iw_at_cache _ _ _ Hat).
    + exists (iw_key (tl_index_iter t)). rewrite H3. done.
    + rewrite H3. done.
Qed.

Lemma InitDataBlock_end (t : TwoLevelIterator I D T) :
  tl_ok t None -> tl_ok (InitDataBlock t) None /\ iw_iter (tl_data_iter (InitDataBlock t)) = None.
Proof.
  intros Ht. unfold InitDataBlock. rewrite (iw_at_valid _ _ HsimI _ _ (to_index _ _ Ht)). apply SetDataIterator_None. done.
Qed.

Lemma set_index_ok (w : IteratorWrapper I) (t : TwoLevelIterator I D T) (ci ci' : option nat) :
  tl_ok t ci -> iw_at RI w ci' -> tl_ok (set_index w t) ci'.
Proof. intros [Hs Hi Hd Hc Ht] Hw. split; done. Qed.

Lemma set_data_in (w : IteratorWrapper D) (t : TwoLevelIterator I D T) (b : nat) (da da' : option nat) :
  in_block t b da -> iw_at (RD (tl_data_block_handle t)) w da' -> in_block (set_data w t) b da'.
Proof.
  intros [[Hs Hi Hd Hc Ht] (k & Hk) _] Hw. split; [split; [done|done|right| |done]|eauto|done].
  - simpl. split; [apply (handle_in _ _ _ Hk)|eauto].
  - apply (iw_at_cache _ _ _ Hw).
Qed.

Lemma in_block_sim (t : TwoLevelIterator I D T) (b : nat) (da : option nat) :
  in_block t b da -> IterSim (content (tl_data_block_handle t)) (RD (tl_data_block_handle t)).
Proof. intros [_ (k & Hk) _]. apply HsimD, (handle_in _ _ _ Hk). Qed.

Lemma on_data_in (f : IteratorWrapper D -> IteratorWrapper D) (t : TwoLevelIterator I D T) (b : nat) (da da' : option nat) :
  in_block t b da -> iw_at (RD (tl_data_block_handle t)) (f (tl_data_iter t)) da' -> in_block (on_data f t) b da'.
Proof. intros Hb Hw. unfold on_data. rewrite (has_data_at _ _ _ (ib_data _ _ _ Hb)). apply (set_data_in _ _ _ da); done. Qed.

(** ** Positions in the concatenation *)

Definition tl_at (t : TwoLevelIterator I D T) (c : option nat) : Prop :=
  match c with
  | None => (exists ci, tl_ok t ci) /\ iw_iter (tl_data_iter t) = None
  | Some g => exists b a, in_block t b (Some a) /\ g = (offset b + a)%nat
  end.

Lemma block_at (b : nat) (k h : bytes) : index !! b = Some (k, h) -> blocks !! b = Some (content h).
Proof. intros Hb. unfold blocks. rewrite list_lookup_fmap, Hb. done. Qed.

Lemma offset_S (b : nat) (k h : bytes) : index !! b = Some (k, h) -> offset (S b) = (offset b + length (content h))%nat.
Proof.
  intros Hb. unfold offset. rewrite (take_S_r _ _ _ (block_at _ _ _ Hb)), concat_app, length_app. simpl.
  rewrite app_nil_r. done.
Qed.

Lemma offset_le (b b' : nat) : (b <= b')%nat -> (offset b <= offset b')%nat.
Proof.
  intros Hb. unfold offset. replace b' with (b + (b' - b))%nat by lia.
  rewrite <- (take_take_drop blocks b (b' - b)), concat_app, length_app. lia.
Qed.

Lemma length_blocks : length blocks = length index.
Proof. apply length_map. Qed.

Lemma offset_end : offset (length index) = length all_entries.
Proof. unfold offset. rewrite take_ge by (rewrite length_blocks; done). done. Qed.

Lemma entry_at (b a : nat) (k h : bytes) (e : bytes * bytes) :
  index !! b = Some (k, h) -> content h !! a = Some e -> all_entries !! (offset b + a)%nat = Some e.
Proof.
  intros Hb Ha. unfold all_entries, offset. rewrite <- (take_drop b blocks) at 2. rewrite concat_app.
  rewrite lookup_app_r by lia. rewrite (drop_S _ _ _ (block_at _ _ _ Hb)). simpl.
  replace (length (concat (take b blocks)) + a - length (concat (take b blocks)))%nat with a by lia.
  apply lookup_app_l_Some. done.
Qed.

Lemma in_block_bound (t : TwoLevelIterator I D T) (b a : nat) :
  in_block t b (Some a) ->
  exists k e, index !! b = Some (k, tl_data_block_handle t) /\ content (tl_data_block_handle t) !! a = Some e /\
    e = (iw_key (tl_data_iter t), iw_value (tl_data_iter t)) /\ all_entries !! (offset b + a)%nat = Some e.
Proof.
  intros Hb. destruct (ib_entry _ _ _ Hb) as (k & Hk).
  pose proof (iw_at_entry _ _ (in_block_sim _ _ _ Hb) _ _ (ib_data _ _ _ Hb)) as He.
  exists k, (iw_key (tl_data_iter t), iw_value (tl_data_iter t)). split_and!; [done..|].
  apply (entry_at b a k _ _ Hk He).
Qed.

(** ** Skipping empty blocks *)

Lemma skip_forward_end (n : nat) (t : TwoLevelIterator I D T) :
  (0 < n)%nat -> tl_ok t None -> iw_iter (tl_data_iter t) = None -> tl_at (SkipEmptyDataBlocksForward n t) None.
Proof.
  intros Hn Ht Hd. destruct n as [|n]; [lia|]. cbn [SkipEmptyDataBlocksForward].
  unfold has_data. rewrite Hd. cbn [negb orb]. rewrite (iw_at_valid _ _ HsimI _ _ (to_index _ _ Ht)). cbn [negb].
  destruct (SetDataIterator_None t None Ht) as [H1 H2]. split; [eauto|done].
Qed.

Lemma skip_backward_end (n : nat) (t : TwoLevelIterator I D T) :
  (0 < n)%nat -> tl_ok t None -> iw_iter (tl_data_iter t) = None -> tl_at (SkipEmptyDataBlocksBackward n t) None.
Proof.
  intros Hn Ht Hd. destruct n as [|n]; [lia|]. cbn [SkipEmptyDataBlocksBackward].
  unfold has_data. rewrite Hd. cbn [negb orb]. rewrite (iw_at_valid _ _ HsimI _ _ (to_index _ _ Ht)). cbn [negb].
  destruct (SetDataIterator_None t None Ht) as [H1 H2]. split; [eauto|done].
Qed.

Lemma on_data_none (f : IteratorWrapper D -> IteratorWrapper D) (t : TwoLevelIterator I D T) :
  iw_iter (tl_data_iter t) = None -> on_data f t = t.
Proof. intros E. unfold on_data, has_data. rewrite E. done. Qed.

Lemma in_range_offset (b : nat) (k h : bytes) :
  index !! b = Some (k, h) ->
  match cur_first (content h) with Some a => Some (offset b + a)%nat | None => in_range all_entries (offset (S b)) end
  = in_range all_entries (offset b).
Proof.
  intros Hb. rewrite (offset_S b k h Hb). destruct (content h) as [|e kvs] eqn:E; simpl.
  - rewrite Nat.add_0_r. done.
  - assert (all_entries !! (offset b + 0)%nat = Some e) as He by (apply (entry_at b 0 k h); [done|rewrite E; done]).
    apply lookup_lt_Some in He. unfold in_range. destruct (Nat.ltb_spec (offset b) (length all_entries)); [|lia].
    f_equal. lia.
Qed.

Lemma skip_forward (n : nat) (t : TwoLevelIterator I D T) (b : nat) (da : option nat) :
  in_block t b da -> (length index - b < n)%nat ->
  tl_at (SkipEmptyDataBlocksForward n t)
    (match da with Some a => Some (offset b + a)%nat | None => in_range all_entries (offset (S b)) end).
Proof.
  revert t b da. induction n as [|n IH]; intros t b da Hb Hn; [lia|]. cbn [SkipEmptyDataBlocksForward].
  rewrite (has_data_at _ _ _ (ib_data _ _ _ Hb)), (iw_at_valid _ _ (in_block_sim _ _ _ Hb) _ _ (ib_data _ _ _ Hb)). cbn [negb orb].
  destruct da as [a|]; cbn [negb]; [exists b, a; done|].
  pose proof (ib_ok _ _ _ Hb) as Hok. rewrite (iw_at_valid _ _ HsimI _ _ (to_index _ _ Hok)). cbn [negb].
  pose proof (set_index_ok _ _ _ _ Hok (iw_at_next _ _ HsimI _ _ (to_index _ _ Hok))) as Hok'.
  unfold cur_next, in_range at 1 in Hok'. destruct (ib_entry _ _ _ Hb) as (k & Hk). pose proof (lookup_lt_Some _ _ _ Hk).
  destruct (Nat.ltb_spec (S b) (length index)) as [Hl|Hl].
  - destruct (InitDataBlock_in _ _ Hok') as (da' & Hb').
    pose proof (on_data_in iw_SeekToFirst _ _ _ _ Hb' (iw_at_first _ _ (in_block_sim _ _ _ Hb') _ _ (ib_data _ _ _ Hb'))) as Hb2.
    destruct (ib_entry _ _ _ Hb') as (k' & Hk'). rewrite <- (in_range_offset (S b) k' _ Hk').
    apply (IH _ (S b)); [exact Hb2|lia].
  - destruct (InitDataBlock_end _ Hok') as [H1 H2]. rewrite on_data_none by done.
    replace (S b) with (length index) by lia. rewrite offset_end. unfold in_range.
    rewrite Nat.ltb_irrefl. apply skip_forward_end; [lia|done|done].
Qed.

Lemma prev_offset (b : nat) (k h : bytes) :
  index !! b = Some (k, h) ->
  match cur_last (content h) with Some a => Some (offset b + a)%nat | None => cur_prev (offset b) end = cur_prev (offset (S b)).
Proof.
  intros Hb. rewrite (offset_S b k h Hb). unfold cur_last, in_range.
  destruct (Nat.ltb_spec (length (content h) - 1) (length (content h))) as [Hl|Hl].
  - replace (offset b + length (content h))%nat with (S (offset b + (length (content h) - 1))) by lia. done.
  - replace (length (content h)) with 0%nat by lia. rewrite Nat.add_0_r. done.
Qed.

Lemma skip_backward (n : nat) (t : TwoLevelIterator I D T) (b : nat) (da : option nat) :
  in_block t b da -> (S b < n)%nat ->
  tl_at (SkipEmptyDataBlocksBackward n t)
    (match da with Some a => Some (offset b + a)%nat | None => cur_prev (offset b) end).
Proof.
  revert t b da. induction n as [|n IH]; intros t b da Hb Hn; [lia|]. cbn [SkipEmptyDataBlocksBackward].
  rewrite (has_data_at _ _ _ (ib_data _ _ _ Hb)), (iw_at_valid _ _ (in_block_sim _ _ _ Hb) _ _ (ib_data _ _ _ Hb)). cbn [negb orb].
  destruct da as [a|]; cbn [negb]; [exists b, a; done|].
  pose proof (ib_ok _ _ _ Hb) as Hok. rewrite (iw_at_valid _ _ HsimI _ _ (to_index _ _ Hok)). cbn [negb].
  pose proof (set_index_ok _ _ _ _ Hok (iw_at_prev _ _ HsimI _ _ (to_index _ _ Hok))) as Hok'.
  destruct b as [|b]; cbn [cur_prev] in Hok'.
  - destruct (InitDataBlock_end _ Hok') as [H1 H2]. rewrite on_data_none by done.
    replace (offset 0) with 0%nat by done. apply skip_backward_end; [lia|done|done].
  - destruct (InitDataBlock_in _ _ Hok') as (da' & Hb').
    pose proof (on_data_in iw_SeekToLast _ _ _ _ Hb' (iw_at_last _ _ (in_block_sim _ _ _ Hb') _ _ (ib_data _ _ _ Hb'))) as Hb2.
    destruct (ib_entry _ _ _ Hb') as (k' & Hk'). rewrite <- (prev_offset b k' _ Hk').
    apply (IH _ b); [exact Hb2|lia].
Qed.

(** ** Seek *)

Lemma locate_block (n g : nat) :
  (n <= length index)%nat -> (g < offset n)%nat -> exists b, (b < n)%nat /\ (offset b <= g < offset (S b))%nat.
Proof.
  induction n as [|n IH]; intros Hn Hg; [unfold offset in Hg; simpl in Hg; lia|].
  destruct (Nat.lt_ge_cases g (offset n)) as [Hlt|Hge]; [|exists n; lia].
  destruct (IH ltac:(lia) Hlt) as (b & Hb & Ho). exists b. lia.
Qed.

Lemma locate (g : nat) (e : bytes * bytes) :
  all_entries !! g = Some e ->
  exists b a k h, index !! b = Some (k, h) /\ content h !! a = Some e /\ g = (offset b + a)%nat.
Proof.
  intros Hg. pose proof (lookup_lt_Some _ _ _ Hg) as Hl. rewrite <- offset_end in Hl.
  destruct (locate_block (length index) g ltac:(lia) Hl) as (b & Hb & Ho).
  destruct (lookup_lt_is_Some_2 index b Hb) as [[k h] Hk]. rewrite (offset_S b k h Hk) in Ho.
  destruct (lookup_lt_is_Some_2 (content h) (g - offset b)) as [e' He']; [lia|].
  exists b, (g - offset b)%nat, k, h. split_and!; [done| |lia].
  pose proof (entry_at b (g - offset b) k h e' Hk He') as Ha. replace (offset b + (g - offset b))%nat with g in Ha by lia.
  congruence.
Qed.

(** An index key is at least every key of its block and less than every key of
    the blocks after it. *)
Context (Hsep : forall b k h, index !! b = Some (k, h) ->
  (forall e, e ∈ content h -> cle (fst e) k) /\
  (forall b' k' h' e, (b < b')%nat -> index !! b' = Some (k', h') -> e ∈ content h' -> clt k (fst e))).

Lemma below_block (t : bytes) (b a : nat) (k h : bytes) (e : bytes * bytes) :
  index !! b = Some (k, h) -> content h !! a = Some e -> clt k t -> at_or_past t e = false.
Proof.
  intros Hb Ha Hk. apply at_or_past_false. eapply cle_clt_trans; [|exact Hk].
  apply (proj1 (Hsep b k h Hb)), list_elem_of_lookup. eauto.
Qed.

Lemma seek_none (t : bytes) : seek_index t index = None -> seek_index t all_entries = None.
Proof.
  intros Hn. apply seek_index_None. intros g e Hg. destruct (locate g e Hg) as (b & a & k & h & Hb & Ha & ->).
  apply (below_block t b a k h e Hb Ha). apply (at_or_past_false t (k, h)), (seek_index_end t index Hn b). done.
Qed.

Lemma seek_some (t : bytes) (b : nat) (k h : bytes) :
  seek_index t index = Some b -> index !! b = Some (k, h) ->
  match seek_index t (content h) with
  | Some a => Some (offset b + a)%nat
  | None => in_range all_entries (offset (S b))
  end = seek_index t all_entries.
Proof.
  intros Hs Hb. destruct (seek_index_spec t index b Hs) as [(kh & Hkh & Hp) Hbefore]. replace kh with (k, h) in * by congruence.
  apply at_or_past_true in Hp. cbn [fst] in Hp.
  assert (forall b' a' k' h' e, index !! b' = Some (k', h') -> content h' !! a' = Some e -> (b' < b)%nat -> at_or_past t e = false) as Hlow.
  { intros b' a' k' h' e Hb' Ha' Hlt. apply (below_block t b' a' k' h' e Hb' Ha'). apply (at_or_past_false t (k', h')), (Hbefore b'); done. }
  symmetry. destruct (seek_index t (content h)) as [a|] eqn:Ea.
  - destruct (seek_index_spec t (content h) a Ea) as [(e & He & Hpe) Hba].
    apply (seek_index_Some t all_entries _ e); [apply (entry_at b a k h); done|done|].
    intros j e' Hj He'. destruct (locate j e' He') as (b' & a' & k' & h' & Hb' & Ha' & ->).
    destruct (Nat.lt_trichotomy b' b) as [Hlt|[->|Hgt]]; [eapply Hlow; done| |].
    + replace h' with h in * by congruence. apply (Hba a'); [lia|done].
    + pose proof (offset_le (S b) b' ltac:(lia)). rewrite (offset_S b k h Hb) in *. apply lookup_lt_Some in He. lia.
  - pose proof (seek_index_end t (content h) Ea) as Hall.
    assert (forall j e', (j < offset (S b))%nat -> all_entries !! j = Some e' -> at_or_past t e' = false) as Hbelow.
    { intros j e' Hj He'. destruct (locate j e' He') as (b' & a' & k' & h' & Hb' & Ha' & ->).
      destruct (Nat.lt_trichotomy b' b) as [Hlt|[->|Hgt]]; [eapply Hlow; done| |].
      - replace h' with h in * by congruence. apply (Hall a'). done.
      - pose proof (offset_le (S b) b' ltac:(lia)). lia. }
    unfold in_range. destruct (Nat.ltb_spec (offset (S b)) (length all_entries)) as [Hl|Hl].
    + destruct (lookup_lt_is_Some_2 all_entries _ Hl) as [e He].
      apply (seek_index_Some t all_entries _ e); [done| |done].
      destruct (locate _ e He) as (b' & a' & k' & h' & Hb' & Ha' & Eo). apply at_or_past_true.
      assert (b < b')%nat as Hlt.
      { destruct (Nat.lt_ge_cases b b') as [|Hge]; [done|]. pose proof (offset_le (S b') (S b) ltac:(lia)).
        pose proof (offset_S b' k' h' Hb'). apply lookup_lt_Some in Ha'. lia. }
      eapply cmp_le_trans; [exact Hp|]. apply clt_cle, (proj2 (Hsep b k h Hb) b' k' h'); [done|done|].
      apply list_elem_of_lookup. eauto.
    + apply seek_index_None. intros j e' He'. apply (Hbelow j); [|done]. apply lookup_lt_Some in He'. lia.
Qed.

(** ** The simulation *)

Context (Hfuel : (length index < fuel)%nat).

Lemma tl_at_ok (t : TwoLevelIterator I D T) (c : option nat) : tl_at t c -> exists ci, tl_ok t ci.
Proof. destruct c as [g|]; [intros (b & a & Hb & _); exists (Some b); apply (ib_ok _ _ _ Hb)|intros [H _]; done]. Qed.

Lemma tl_at_store (t : TwoLevelIterator I D T) (c : option nat) : tl_at t c -> Inv (tl_store t).
Proof. intros Hat. destruct (tl_at_ok t c Hat) as [ci Hok]. apply (to_store _ _ Hok). Qed.

(** [Seek] and [SeekToFirst] after the index has moved. *)
Lemma enter_forward (f : IteratorWrapper D -> IteratorWrapper D) (pos : entries -> option nat) (w : IteratorWrapper I)
    (t : TwoLevelIterator I D T) (c ci : option nat) :
  tl_at t c -> iw_at RI w ci ->
  (forall h wd cd, h ∈ map snd index -> iw_at (RD h) wd cd -> iw_at (RD h) (f wd) (pos (content h))) ->
  tl_at (SkipEmptyDataBlocksForward fuel (on_data f (InitDataBlock (set_index w t))))
    (match ci with
     | None => None
     | Some b => match index !! b with
                 | Some (k, h) => match pos (content h) with
                                  | Some a => Some (offset b + a)%nat
                                  | None => in_range all_entries (offset (S b))
                                  end
                 | None => None
                 end
     end).
Proof.
  intros Hat Hw Hf. destruct (tl_at_ok t c Hat) as [ci0 Hok]. pose proof (set_index_ok w t ci0 ci Hok Hw) as Hok'.
  destruct ci as [b|].
  - destruct (InitDataBlock_in _ _ Hok') as (da & Hb). destruct (ib_entry _ _ _ Hb) as (k & Hk). rewrite Hk.
    apply skip_forward; [|lia]. apply (on_data_in f _ b da); [done|].
    apply (Hf _ _ da); [apply (handle_in _ _ _ Hk)|apply (ib_data _ _ _ Hb)].
  - destruct (InitDataBlock_end _ Hok') as [H1 H2]. rewrite on_data_none by done. apply skip_forward_end; [lia|done|done].
Qed.

Lemma tl_Seek_at (t : TwoLevelIterator I D T) (c : option nat) (target : bytes) :
  tl_at t c -> tl_at (tl_Seek target t) (seek_index target all_entries).
Proof.
  intros Hat. destruct (tl_at_ok t c Hat) as [ci Hok].
  pose proof (enter_forward (iw_Seek target) (seek_index target) _ t c _ Hat
    (iw_at_seek _ _ HsimI target _ _ (to_index _ _ Hok))
    (fun h wd cd Hh Hd => iw_at_seek _ _ (HsimD h Hh) target wd cd Hd)) as H.
  destruct (seek_index target index) as [b|] eqn:Es; [|rewrite (seek_none target Es); exact H].
  destruct (seek_index_spec target index b Es) as [([k h] & Hb & _) _]. rewrite Hb, (seek_some target b k h Es Hb) in H. exact H.
Qed.

Lemma tl_First_at (t : TwoLevelIterator I D T) (c : option nat) : tl_at t c -> tl_at (tl_SeekToFirst t) (cur_first all_entries).
Proof.
  intros Hat. destruct (tl_at_ok t c Hat) as [ci Hok].
  pose proof (enter_forward iw_SeekToFirst cur_first _ t c _ Hat (iw_at_first _ _ HsimI _ _ (to_index _ _ Hok))
    (fun h wd cd Hh Hd => iw_at_first _ _ (HsimD h Hh) wd cd Hd)) as H.
  unfold cur_first at 1, in_range at 1 in H. unfold cur_first. change 0%nat with (offset 0).
  destruct (Nat.ltb_spec 0 (length index)) as [Hl|Hl].
  - destruct (lookup_lt_is_Some_2 index 0 Hl) as [[k h] Hk]. rewrite Hk, (in_range_offset 0 k h Hk) in H. exact H.
  - replace 0%nat with (length index) in * by lia. rewrite offset_end. unfold in_range. rewrite Nat.ltb_irrefl. exact H.
Qed.

Lemma tl_Last_at (t : TwoLevelIterator I D T) (c : option nat) : tl_at t c -> tl_at (tl_SeekToLast t) (cur_last all_entries).
Proof.
  intros Hat. destruct (tl_at_ok t c Hat) as [ci Hok]. unfold tl_SeekToLast.
  pose proof (set_index_ok _ t ci _ Hok (iw_at_last _ _ HsimI _ _ (to_index _ _ Hok))) as Hok'.
  assert (cur_last all_entries = cur_prev (length all_entries)) as ->.
  { unfold cur_last, in_range. destruct (length all_entries) as [|n]; [done|]. simpl.
    destruct (Nat.ltb_spec (n - 0) (S n)); [f_equal; lia|lia]. }
  unfold cur_last, in_range in Hok'. destruct (Nat.ltb_spec (length index - 1) (length index)) as [Hl|Hl].
  - destruct (InitDataBlock_in _ _ Hok') as (da & Hb). destruct (ib_entry _ _ _ Hb) as (k & Hk).
    rewrite <- offset_end. replace (length index) with (S (length index - 1)) by lia. rewrite <- (prev_offset _ k _ Hk).
    apply skip_backward; [|lia]. apply (on_data_in _ _ _ da); [done|].
    apply (iw_at_last _ _ (in_block_sim _ _ _ Hb) _ _ (ib_data _ _ _ Hb)).
  - destruct (InitDataBlock_end _ Hok') as [H1 H2]. rewrite on_data_none by done.
    rewrite <- offset_end. replace (length index) with 0%nat by lia. apply skip_backward_end; [lia|done|done].
Qed.

Lemma tl_Next_at (t : TwoLevelIterator I D T) (g : nat) : tl_at t (Some g) -> tl_at (tl_Next t) (cur_next all_entries g).
Proof.
  intros (b & a & Hb & ->). unfold tl_Next. destruct (in_block_bound _ _ _ Hb) as (k & e & Hk & He & _ & Hall).
  pose proof (set_data_in _ t b _ _ Hb (iw_at_next _ _ (in_block_sim _ _ _ Hb) _ _ (ib_data _ _ _ Hb))) as Hb'.
  pose proof (skip_forward fuel _ b _ Hb' ltac:(lia)) as H. unfold cur_next, in_range in *. rewrite (offset_S b k _ Hk) in H.
  pose proof (lookup_lt_Some _ _ _ He). pose proof (lookup_lt_Some _ _ _ Hall).
  pose proof (offset_le (S b) (length index) ltac:(apply lookup_lt_Some in Hk; lia)) as Hle. rewrite offset_end, (offset_S b k _ Hk) in Hle.
  destruct (Nat.ltb_spec (S a) (length (content (tl_data_block_handle t)))).
  - destruct (Nat.ltb_spec (S (offset b + a)) (length all_entries)); [|lia]. rewrite Nat.add_succ_r in H. exact H.
  - replace (S (offset b + a)) with (offset b + length (content (tl_data_block_handle t)))%nat by lia. exact H.
Qed.

Lemma tl_Prev_at (t : TwoLevelIterator I D T) (g : nat) : tl_at t (Some g) -> tl_at (tl_Prev t) (cur_prev g).
Proof.
  intros (b & a & Hb & ->). unfold tl_Prev. destruct (in_block_bound _ _ _ Hb) as (k & e & Hk & _).
  pose proof (set_data_in _ t b _ _ Hb (iw_at_prev _ _ (in_block_sim _ _ _ Hb) _ _ (ib_data _ _ _ Hb))) as Hb'.
  pose proof (lookup_lt_Some _ _ _ Hk). pose proof (skip_backward fuel _ b _ Hb' ltac:(lia)) as H0.
  destruct a as [|a]; cbn [cur_prev] in H0 |- *.
  - rewrite Nat.add_0_r. exact H0.
  - rewrite Nat.add_succ_r. exact H0.
Qed.

Lemma two_level_sim : IterSim (H := TwoLevelIterator_iter) all_entries tl_at.
Proof.
  split.
  - intros t [g|] Hat; simpl.
    + destruct Hat as (b & a & Hb & _). apply (iw_at_valid _ _ (in_block_sim _ _ _ Hb) _ _ (ib_data _ _ _ Hb)).
    + destruct Hat as [(ci & Hok) Hn]. pose proof (to_cache _ _ Hok) as Hc. unfold cache_ok in Hc. rewrite Hn in Hc. done.
  - intros t g (b & a & Hb & ->). destruct (in_block_bound _ _ _ Hb) as (k & e & _ & _ & -> & Hall). exact Hall.
  - intros t c Hat. destruct (tl_at_ok t c Hat) as [ci [Hs Hi Hd Hc Ht]]. simpl. unfold tl_get_status.
    rewrite Hs, (iw_at_status _ _ HsimI _ _ Hi). simpl. destruct (has_data t) eqn:Eh; [|done].
    rewrite (data_any_status t Hd Eh). done.
  - apply tl_First_at.
  - apply tl_Last_at.
  - intros t c target. apply tl_Seek_at.
  - apply tl_Next_at.
  - apply tl_Prev_at.
Qed.

Lemma newTwoLevelIterator_at (index_iter : I) (store : T) (ci : option nat) :
  RI index_iter ci -> Inv store -> tl_at (newTwoLevelIterator index_iter store) None.
Proof.
  intros Hi Ht. split; [|done]. exists ci. split; [done|apply iw_at_Set; done|left; done|done|done].
Qed.

End TwoLevel.

(** ** Theorems *)

(** C17. A two-level iterator is an iterator over all the blocks: for an index
    iterator whose keys separate the blocks (no key of a block is above its index key,
    and all keys of later blocks are), and block iterators over their
    entries, empty blocks included, which may change the store that they share and
    keep its invariant, after any sequence of [Seek], [SeekToFirst],
    [SeekToLast], [Next] and [Prev] the entry under the iterator is the one the
    cursor over the concatenation of the blocks is at, and no error is reported. *)
Theorem two_level_iterator_refines {C : Comparator} {CL : ComparatorLaws C} {I D T : Type} {HI : Iterator I} {HD : Iterator D}
  (block_function : bytes -> T -> D * T) (fuel : nat) (index : entries) (content : bytes -> entries)
  (RI : I -> option nat -> Prop) (RD : bytes -> D -> option nat -> Prop) (Inv : T -> Prop) (index_iter : I) (store : T) (c : option nat) (ops : list IterOp) :
  IterSim index RI -> RI index_iter c -> Inv store ->
  (forall h, h ∈ map snd index -> IterSim (content h) (RD h) /\ forall s, Inv s -> Inv (snd (block_function h s)) /\ exists cd, RD h (fst (block_function h s)) cd) ->
  (forall b k h, index !! b = Some (k, h) ->
     (forall e, e ∈ content h -> cle (fst e) k) /\
     (forall b' k' h' e, (b < b')%nat -> index !! b' = Some (k', h') -> e ∈ content h' -> clt k (fst e))) ->
  (length index < fuel)%nat ->
  let entries := concat (map (fun kh => content (snd kh)) index) in
  let it := run_ops (H := TwoLevelIterator_iter block_function fuel) (newTwoLevelIterator index_iter store) ops in
  observe (H := TwoLevelIterator_iter block_function fuel) it = cur_observe entries (cur_ops entries None ops) /\
  it_status (Iterator := TwoLevelIterator_iter block_function fuel) it = StatusOK.
Proof.
  intros HsimI Hc Hst HD' Hsep Hfuel entries it.
  assert (IterSim (H := TwoLevelIterator_iter block_function fuel) entries (tl_at index RI content RD Inv)) as Hsim.
  { apply two_level_sim; auto; [intros h Hh|intros h s Hh]; apply (HD' h Hh). }
  apply (observe_sim entries (tl_at index RI content RD Inv) it); [done|].
  apply run_ops_sim; [done|]. eapply newTwoLevelIterator_at; done.
Qed.

Lemma two_level_iterator_refines_witness :
  let content h := if decide (h = lit "h1") then [(lit "a", lit "1"); (lit "c", lit "2")]
                   else if decide (h = lit "h3") then [(lit "e", lit "3")] else [] in
  let index := [(lit "c", lit "h1"); (lit "d", lit "h2"); (lit "f", lit "h3")] in
  let L := ListIterator_iter (C := BytewiseComparator) in
  let T := TwoLevelIterator_iter (HI := L) (HD := L) (fun h n => (mkListIterator (content h) None, S n)) 4 in
  observe (H := T) (run_ops (H := T) (newTwoLevelIterator (HI := L) (mkListIterator index None) 0%nat)
    [OpSeek (lit "cc"); OpPrev; OpNext]) = Some (lit "e", lit "3").
Proof.
  intros content index L T.
  refine (proj1 (two_level_iterator_refines (C := BytewiseComparator) (HI := L) (HD := L)
    (fun h n => (mkListIterator (content h) None, S n)) 4 index content (list_at index) (fun h => list_at (content h))
    (fun _ => True) (mkListIterator index None) 0%nat None _ _ _ I _ _ _)).
  - apply ListIterator_sim.
  - split_and!; done.
  - intros h _. split; [apply ListIterator_sim|]. intros n _. split; [done|]. exists None. split_and!; done.
  - assert (forall h e, e ∈ content h -> (h = lit "h1" /\ (e = (lit "a", lit "1") \/ e = (lit "c", lit "2"))) \/
                                          (h = lit "h3" /\ e = (lit "e", lit "3"))) as Hc.
    { intros h e He. unfold content in He. case_decide; [subst h; set_solver|]. case_decide; set_solver. }
    intros [|[|[|b]]] k h Hb; simpl in Hb; try discriminate Hb; injection Hb as <- <-; split;
      try (intros e He; destruct (Hc _ _ He) as [[E [->| ->]]|[E ->]]; (discriminate E || done));
      intros [|[|[|b']]] k' h' e Hlt Hb' He; simpl in Hb'; try lia; try discriminate Hb'; injection Hb' as <- <-;
      destruct (Hc _ _ He) as [[E [->| ->]]|[E ->]]; (discriminate E || reflexivity).
  - simpl. lia.
Defined.
