(* ===== verification/FilterBlock.v ===== *)
(** * FilterBlock: one filter per 2 KiB of table ([table/filter_block.cc])

    The builder collects the keys of the data blocks that start in the same
    2 KiB window of the file, the reader finds the filter of a block from its
    offset.  The result is proved against [FilterPolicyLaws]: for a key of a block
    the reader never answers "absent". *)

From S2P Require Import Prelude Coding FilterPolicy Hash Logging.

Definition kFilterBaseLg : Z := 11.
Definition kFilterBase : Z := Z.shiftl 1 kFilterBaseLg.

Record FilterBlockBuilder := mkFBB {
  fb_keys : bytes;
  fb_start : list Z;
  fb_result : bytes;
  fb_offsets : list Z
}.

Definition newFilterBlockBuilder : FilterBlockBuilder := mkFBB [] [] [] [].

(** The loop over [start_], after [keys_.size()] was pushed: the [i]-th key is
    between the [i]-th and the next start. *)
Fixpoint tmp_keys (keys : bytes) (start : list Z) : list bytes :=
  match start with
  | a :: ((b :: _) as rest) => ztake (b - a) (zdrop a keys) :: tmp_keys keys rest
  | _ => []
  end.

Section Builder.
Context {P : FilterPolicy}.

Definition GenerateFilter (b : FilterBlockBuilder) : FilterBlockBuilder :=
  let num_keys := zlen (fb_start b) in
  if num_keys =? 0 then
    mkFBB (fb_keys b) (fb_start b) (fb_result b) (fb_offsets b ++ [u32 (zlen (fb_result b))])
  else
    let start := fb_start b ++ [zlen (fb_keys b)] in
    let filter_offsets := fb_offsets b ++ [u32 (zlen (fb_result b))] in
    let result := CreateFilter (tmp_keys (fb_keys b) start) (fb_result b) in
    mkFBB [] [] result filter_offsets.

(** [while (filter_index > filter_offsets_.size())]: every round adds one
    offset. *)
Fixpoint StartBlock_loop (fuel : nat) (filter_index : Z) (b : FilterBlockBuilder) : FilterBlockBuilder :=
  match fuel with
  | O => b
  | S fuel' =>
      if zlen (fb_offsets b) <? filter_index
      then StartBlock_loop fuel' filter_index (GenerateFilter b) else b
  end.

Definition StartBlock (block_offset : Z) (b : FilterBlockBuilder) : FilterBlockBuilder :=
  let filter_index := block_offset / kFilterBase in
  StartBlock_loop (Z.to_nat filter_index) filter_index b.

Definition AddKey (key : bytes) (b : FilterBlockBuilder) : FilterBlockBuilder :=
  mkFBB (fb_keys b ++ key) (fb_start b ++ [zlen (fb_keys b)]) (fb_result b) (fb_offsets b).

Definition FilterBlock_Finish (b : FilterBlockBuilder) : bytes :=
  let b := if negb (zlen (fb_start b) =? 0) then GenerateFilter b else b in
  let array_offset := u32 (zlen (fb_result b)) in
  let result := fold_left PutFixed32 (fb_offsets b) (fb_result b) in
  let result := PutFixed32 result array_offset in
  result ++ [zb kFilterBaseLg].

(** ** The reader.  [data_] is the whole block and [offset_] an index into it;
    with [num_ = 0] neither is used. *)

Record FilterBlockReader := mkFBR { fr_data : bytes; fr_offset : Z; fr_num : Z; fr_base_lg : Z }.

(** [size_t x = c] for a signed [char c]. *)
Definition char_to_size (b : byte) : Z := if bz b <? 128 then bz b else bz b + (2 ^ 64 - 256).

Definition newFilterBlockReader (contents : bytes) : FilterBlockReader :=
  let n := zlen contents in
  if n <? 5 then mkFBR [] 0 0 0
  else
    let base_lg := char_to_size (nth (Z.to_nat (n - 1)) contents Byte.x00) in
    let last_word := DecodeFixed32 (zdrop (n - 5) contents) in
    if n - 5 <? last_word then mkFBR [] 0 0 base_lg
    else mkFBR contents last_word ((n - 5 - last_word) / 4) base_lg.

Definition FilterBlock_KeyMayMatch (r : FilterBlockReader) (block_offset : Z) (key : bytes) : bool :=
  let index := Z.shiftr block_offset (fr_base_lg r) in
  if index <? fr_num r then
    let start := DecodeFixed32 (zdrop (fr_offset r + index * 4) (fr_data r)) in
    let limit := DecodeFixed32 (zdrop (fr_offset r + index * 4 + 4) (fr_data r)) in
    if (start <=? limit) && (limit <=? fr_offset r) then
      KeyMayMatch key (ztake (limit - start) (zdrop start (fr_data r)))
    else if start =? limit then false
    else true
  else true.

(** ** Flattened lists of strings *)

Fixpoint starts (base : Z) (xs : list bytes) : list Z :=
  match xs with
  | [] => []
  | x :: xs => base :: starts (base + zlen x) xs
  end.

Lemma length_starts (base : Z) (xs : list bytes) : length (starts base xs) = length xs.
Proof. revert base. induction xs; intros; simpl; auto. Qed.

Lemma starts_snoc (base : Z) (xs : list bytes) (x : bytes) :
  starts base (xs ++ [x]) = starts base xs ++ [base + zlen (concat xs)].
Proof.
  revert base. induction xs as [|y xs IH]; intros base; simpl; [f_equal; rewrite zlen_nil; lia|].
  rewrite IH, zlen_app. do 3 f_equal. lia.
Qed.

Lemma starts_lookup (base : Z) (xs : list bytes) (i : nat) :
  (i < length xs)%nat -> starts base xs !! i = Some (base + zlen (concat (take i xs))).
Proof.
  revert base i. induction xs as [|y xs IH]; intros base [|i] Hi; simpl in *; try lia.
  - rewrite zlen_nil. f_equal. lia.
  - rewrite IH by lia. rewrite zlen_app. f_equal. lia.
Qed.

Lemma tmp_keys_starts (pre : bytes) (xs : list bytes) :
  tmp_keys (pre ++ concat xs) (starts (zlen pre) xs ++ [zlen pre + zlen (concat xs)]) = xs.
Proof.
  revert pre. induction xs as [|x xs IH]; intros pre; [done|].
  specialize (IH (pre ++ x)). rewrite zlen_app, <- app_assoc in IH. simpl.
  rewrite (zlen_app x), Z.add_assoc.
  assert (exists b r, starts (zlen pre + zlen x) xs ++ [zlen pre + zlen x + zlen (concat xs)] = b :: r
                      /\ b = zlen pre + zlen x) as (b & r & E & ->).
  { destruct xs; simpl; [|eauto]. do 2 eexists. split; [reflexivity|]. rewrite zlen_nil. lia. }
  rewrite E in IH |- *. rewrite IH. f_equal. rewrite zdrop_app_exact.
  replace (zlen pre + zlen x - zlen pre) with (zlen x) by lia. apply ztake_app_exact.
Qed.

(** ** What the builder's state stands for: the key sets of the filters written
    so far, and the keys of the current one. *)

Definition filter_bytes (ks : list bytes) : bytes := match ks with [] => [] | _ => CreateFilter ks [] end.

Record FInv (b : FilterBlockBuilder) (fs : list (list bytes)) (cur : list bytes) : Prop := {
  fi_keys : fb_keys b = concat cur;
  fi_start : fb_start b = starts 0 cur;
  fi_result : fb_result b = concat (map filter_bytes fs);
  fi_offsets : fb_offsets b = map u32 (starts 0 (map filter_bytes fs))
}.

Lemma FInv_new : FInv newFilterBlockBuilder [] [].
Proof. done. Qed.

Lemma AddKey_inv (b : FilterBlockBuilder) fs cur (key : bytes) :
  FInv b fs cur -> FInv (AddKey key b) fs (cur ++ [key]).
Proof.
  intros [Hk Hs Hr Ho]. split; simpl; [|..|done|done].
  - rewrite Hk, concat_app. simpl. rewrite app_nil_r. done.
  - rewrite Hs, starts_snoc, Hk. done.
Qed.

Lemma FInv_size (b : FilterBlockBuilder) fs cur : FInv b fs cur -> zlen (fb_offsets b) = zlen fs.
Proof. intros [_ _ _ Ho]. rewrite Ho. unfold zlen. rewrite length_map, length_starts, length_map. done. Qed.

Context {PL : FilterPolicyLaws P}.

Lemma GenerateFilter_inv (b : FilterBlockBuilder) fs cur :
  FInv b fs cur -> FInv (GenerateFilter b) (fs ++ [cur]) [].
Proof.
  intros [Hk Hs Hr Ho]. unfold GenerateFilter. rewrite Hs.
  assert (zlen (starts 0 cur) = zlen cur) as El by (unfold zlen; rewrite length_starts; done).
  rewrite El. destruct (Z.eqb_spec (zlen cur) 0) as [E|E].
  - apply zlen_0 in E as ->. split; simpl; [done|done|..].
    + rewrite map_app, concat_app. simpl. rewrite app_nil_r. done.
    + rewrite map_app. simpl. rewrite starts_snoc, map_app, Ho, Hr. done.
  - assert (filter_bytes cur = CreateFilter cur []) as Ef by (destruct cur; [done|done]).
    split; simpl; [done|done|..].
    + rewrite map_app, concat_app. simpl. rewrite app_nil_r, filter_appends, Hr, Hk, Ef.
      pose proof (tmp_keys_starts [] cur) as Ht. rewrite zlen_nil, Z.add_0_l in Ht. simpl in Ht. rewrite Ht. done.
    + rewrite map_app. simpl. rewrite starts_snoc, map_app, Ho, Hr. done.
Qed.

(** ** Which filter a key is in *)

Definition filed (fs : list (list bytes)) (cur : list bytes) (i : nat) (k : bytes) : Prop :=
  (exists ks, fs !! i = Some ks /\ k ∈ ks) \/ (i = length fs /\ k ∈ cur).

Lemma filed_generate fs cur i k : filed fs cur i k -> filed (fs ++ [cur]) [] i k.
Proof.
  intros [(ks & Hi & Hk)|[-> Hk]]; left.
  - exists ks. split; [apply lookup_app_l_Some; done|done].
  - exists cur. split; [apply list_lookup_middle; done|done].
Qed.

(** [FInv] with the number of keys that were added. *)
Definition FState (b : FilterBlockBuilder) fs cur (n : Z) : Prop := FInv b fs cur /\ zlen (concat fs) + zlen cur = n.

Lemma FState_generate b fs cur n : FState b fs cur n -> FState (GenerateFilter b) (fs ++ [cur]) [] n.
Proof.
  intros [HI Hn]. split; [apply GenerateFilter_inv; done|].
  rewrite concat_app, zlen_app. simpl. rewrite app_nil_r, zlen_nil. lia.
Qed.

Lemma StartBlock_loop_state (fuel : nat) (idx : Z) b fs cur n :
  FState b fs cur n -> zlen fs <= idx -> idx - zlen fs <= Z.of_nat fuel ->
  exists fs' cur', FState (StartBlock_loop fuel idx b) fs' cur' n /\ zlen fs' = idx /\
    (forall i k, filed fs cur i k -> filed fs' cur' i k).
Proof.
  revert b fs cur. induction fuel as [|fuel IH]; intros b fs cur HF Hle Hf.
  - exists fs, cur. split_and!; [done|lia|done].
  - cbn [StartBlock_loop]. rewrite (FInv_size _ _ _ (proj1 HF)). destruct (Z.ltb_spec (zlen fs) idx).
    + destruct (IH (GenerateFilter b) (fs ++ [cur]) []) as (fs' & cur' & HF' & El & Hk).
      * apply FState_generate. done.
      * rewrite zlen_app, zlen_cons, zlen_nil. lia.
      * rewrite zlen_app, zlen_cons, zlen_nil. lia.
      * exists fs', cur'. split_and!; [done|done|]. intros i k Hi. apply Hk, filed_generate, Hi.
    + exists fs, cur. split_and!; [done|lia|done].
Qed.

(** The calls the table builder makes for one data block. *)
Definition add_block (b : FilterBlockBuilder) (blk : Z * list bytes) : FilterBlockBuilder :=
  fold_left (fun b k => AddKey k b) (snd blk) (StartBlock (fst blk) b).

Definition build_filter (blocks : list (Z * list bytes)) : bytes :=
  FilterBlock_Finish (fold_left add_block blocks newFilterBlockBuilder).

Definition window (off : Z) : nat := Z.to_nat (off / kFilterBase).

Lemma AddKeys_state (ks : list bytes) b fs cur n :
  FState b fs cur n -> FState (fold_left (fun b k => AddKey k b) ks b) fs (cur ++ ks) (n + zlen ks).
Proof.
  revert b cur n. induction ks as [|k ks IH]; intros b cur n HF; simpl.
  - rewrite app_nil_r, zlen_nil, Z.add_0_r. done.
  - replace (cur ++ k :: ks) with ((cur ++ [k]) ++ ks) by (rewrite <- app_assoc; done).
    replace (n + zlen (k :: ks)) with (n + 1 + zlen ks) by (rewrite zlen_cons; lia).
    apply IH. destruct HF as [HI Hn]. split; [apply AddKey_inv; done|]. rewrite zlen_app, zlen_cons, zlen_nil. lia.
Qed.

Lemma window_mono (a b : Z) : 0 <= a <= b -> 0 <= a / kFilterBase <= b / kFilterBase.
Proof. intros H. split; [apply Z.div_pos; [lia|done]|apply Z.div_le_mono; [done|lia]]. Qed.

Lemma add_block_state b fs cur n (off : Z) (ks : list bytes) :
  FState b fs cur n -> 0 <= off -> zlen fs <= off / kFilterBase ->
  exists fs' cur', FState (add_block b (off, ks)) fs' cur' (n + zlen ks) /\ zlen fs' = off / kFilterBase /\
    (forall i k, filed fs cur i k -> filed fs' cur' i k) /\
    (forall k, k ∈ ks -> filed fs' cur' (window off) k).
Proof.
  intros HF Ho Hle. unfold add_block, StartBlock. cbn [fst snd].
  pose proof (window_mono 0 off ltac:(lia)) as Hw. pose proof (zlen_nonneg fs).
  destruct (StartBlock_loop_state (Z.to_nat (off / kFilterBase)) (off / kFilterBase) b fs cur n HF Hle ltac:(lia))
    as (fs' & cur' & HF' & El & Hk).
  exists fs', (cur' ++ ks). split_and!; [apply AddKeys_state; done|done| |].
  - intros i k Hi. destruct (Hk i k Hi) as [H1|[-> H1]]; [left; done|right]. split; [done|]. apply elem_of_app. auto.
  - intros k Hi. right. split; [unfold window, zlen in *; lia|]. apply elem_of_app. auto.
Qed.

Definition offsets_ok (o : Z) (blocks : list (Z * list bytes)) : Prop :=
  Forall (fun blk => o <= fst blk) blocks /\
  forall i j x y, (i < j)%nat -> blocks !! i = Some x -> blocks !! j = Some y -> fst x <= fst y.

Lemma offsets_ok_cons (o : Z) blk blocks : offsets_ok o (blk :: blocks) -> o <= fst blk /\ offsets_ok (fst blk) blocks.
Proof.
  intros [Hf Hm]. apply Forall_cons in Hf as [H1 H2]. split; [done|]. split.
  - apply Forall_forall. intros x Hx. apply list_elem_of_lookup in Hx as [j Hj].
    apply (Hm 0%nat (S j) blk x); [lia|done|done].
  - intros i j x y Hij Hx Hy. apply (Hm (S i) (S j)); [lia|done|done].
Qed.

Lemma add_blocks_state blocks b fs cur n (o : Z) :
  FState b fs cur n -> 0 <= o -> zlen fs <= o / kFilterBase -> offsets_ok o blocks ->
  exists fs' cur', FState (fold_left add_block blocks b) fs' cur' (n + zlen (concat (map snd blocks))) /\
    (forall i k, filed fs cur i k -> filed fs' cur' i k) /\
    (forall off ks k, (off, ks) ∈ blocks -> k ∈ ks -> filed fs' cur' (window off) k).
Proof.
  revert b fs cur n o. induction blocks as [|[off ks] blocks IH]; intros b fs cur n o HF Ho Hle Hok.
  - exists fs, cur. rewrite Z.add_0_r. split_and!; [done|done|]. intros ? ? ? H. apply elem_of_nil in H as [].
  - apply offsets_ok_cons in Hok as [H1 Hok]. simpl in H1, Hok. pose proof (window_mono o off ltac:(lia)).
    destruct (add_block_state b fs cur n off ks HF ltac:(lia) ltac:(lia)) as (fs1 & cur1 & HF1 & El & Hold & Hnew).
    destruct (IH (add_block b (off, ks)) fs1 cur1 (n + zlen ks) off HF1 ltac:(lia) ltac:(lia) Hok)
      as (fs2 & cur2 & HF2 & Hold2 & Hnew2).
    exists fs2, cur2. simpl. rewrite zlen_app, Z.add_assoc. split_and!; [done|auto|].
    intros off' ks' k Hin Hk. apply elem_of_cons in Hin as [[= -> ->]|Hin]; [auto|]. eapply Hnew2; done.
Qed.

(** ** The block the builder writes, and reading it *)

Definition filter_data (fs : list (list bytes)) : bytes := concat (map filter_bytes fs).

Definition offset_array (fs : list (list bytes)) : bytes :=
  concat (map EncodeFixed32 (map u32 (starts 0 (map filter_bytes fs)))).

Definition filter_block (fs : list (list bytes)) : bytes :=
  filter_data fs ++ offset_array fs ++ EncodeFixed32 (u32 (zlen (filter_data fs))) ++ [zb kFilterBaseLg].

Lemma Finish_block b fs cur :
  FInv b fs cur -> FilterBlock_Finish b = filter_block (match cur with [] => fs | _ => fs ++ [cur] end).
Proof.
  intros HI.
  assert (forall b fs cur, FInv b fs cur ->
    PutFixed32 (fold_left PutFixed32 (fb_offsets b) (fb_result b)) (u32 (zlen (fb_result b))) ++ [zb kFilterBaseLg]
    = filter_block fs) as Hw.
  { clear. intros b fs cur [_ _ Hr Ho]. rewrite fold_PutFixed32, Hr, Ho. unfold PutFixed32, filter_block.
    rewrite <- !app_assoc. done. }
  unfold FilterBlock_Finish. rewrite (fi_start _ _ _ HI). destruct cur as [|k cur].
  - apply (Hw _ _ []). done.
  - simpl starts. rewrite zlen_cons. pose proof (zlen_nonneg (starts (0 + zlen k) cur)).
    destruct (Z.eqb_spec (1 + zlen (starts (0 + zlen k) cur)) 0); [lia|]. cbn [negb].
    apply (Hw _ _ []). apply GenerateFilter_inv. done.
Qed.

Lemma zlen_offset_array fs : zlen (offset_array fs) = 4 * zlen fs.
Proof. unfold offset_array. rewrite zlen_fixed32s. unfold zlen. rewrite length_map, length_starts, length_map. done. Qed.

(** The offsets and the end of the filters are consecutive words. *)
Definition offset_words (fs : list (list bytes)) : list Z :=
  map u32 (starts 0 (map filter_bytes fs)) ++ [u32 (zlen (filter_data fs))].

Lemma filter_block_words fs :
  filter_block fs = filter_data fs ++ concat (map EncodeFixed32 (offset_words fs)) ++ [zb kFilterBaseLg].
Proof.
  unfold filter_block, offset_words, offset_array. rewrite (map_app EncodeFixed32), concat_app. cbn [map concat].
  rewrite app_nil_r, <- !app_assoc. done.
Qed.

Lemma offset_words_lookup fs (i : nat) :
  (i <= length fs)%nat -> offset_words fs !! i = Some (u32 (zlen (concat (take i (map filter_bytes fs))))).
Proof.
  intros Hi. unfold offset_words.
  destruct (decide (i = length fs)) as [->|].
  - rewrite list_lookup_middle by (rewrite length_map, length_starts, length_map; done).
    rewrite take_ge by (rewrite length_map; done). done.
  - rewrite lookup_app_l by (rewrite length_map, length_starts, length_map; lia).
    rewrite list_lookup_fmap, starts_lookup by (rewrite length_map; lia). done.
Qed.

Lemma reader_of_block fs :
  zlen (filter_block fs) < 2 ^ 32 ->
  newFilterBlockReader (filter_block fs) = mkFBR (filter_block fs) (zlen (filter_data fs)) (zlen fs) kFilterBaseLg.
Proof.
  intros Hsz. pose proof (zlen_nonneg (filter_data fs)). pose proof (zlen_nonneg fs).
  assert (zlen (filter_block fs) = zlen (filter_data fs) + 4 * zlen fs + 5) as El.
  { unfold filter_block. rewrite !zlen_app, zlen_offset_array, zlen_EncodeFixed32, zlen_cons, zlen_nil. lia. }
  unfold newFilterBlockReader. rewrite El. destruct (Z.ltb_spec (zlen (filter_data fs) + 4 * zlen fs + 5) 5); [lia|].
  assert (nth (Z.to_nat (zlen (filter_data fs) + 4 * zlen fs + 5 - 1)) (filter_block fs) Byte.x00 = zb kFilterBaseLg) as ->.
  { unfold filter_block. rewrite !app_assoc, app_nth2; rewrite !length_app;
      pose proof (zlen_offset_array fs); pose proof (zlen_EncodeFixed32 (u32 (zlen (filter_data fs)))); unfold zlen in *; [|lia].
    match goal with |- nth ?k _ _ = _ => replace k with 0%nat by lia end. done. }
  assert (DecodeFixed32 (zdrop (zlen (filter_data fs) + 4 * zlen fs + 5 - 5) (filter_block fs)) = zlen (filter_data fs)) as ->.
  { rewrite filter_block_words. replace (zlen (filter_data fs) + 4 * zlen fs + 5 - 5)
      with (zlen (filter_data fs) + Z.of_nat (length fs) * 4) by (unfold zlen; lia).
    apply fixed32_at; [|lia]. rewrite offset_words_lookup by done. rewrite take_ge by (rewrite length_map; done).
    f_equal. apply wrap_small. unfold filter_data in *. lia. }
  destruct (Z.ltb_spec (zlen (filter_data fs) + 4 * zlen fs + 5 - 5) (zlen (filter_data fs))); [lia|].
  change (char_to_size (zb kFilterBaseLg)) with kFilterBaseLg. f_equal.
  replace (zlen (filter_data fs) + 4 * zlen fs + 5 - 5 - zlen (filter_data fs)) with (zlen fs * 4) by lia.
  apply Z.div_mul. lia.
Qed.

Lemma concat_take_le (xs : list bytes) (i : nat) : zlen (concat (take i xs)) <= zlen (concat xs).
Proof.
  rewrite <- (take_drop i xs) at 2. rewrite concat_app, zlen_app.
  pose proof (zlen_nonneg (concat (drop i xs))). lia.
Qed.

Lemma member_matches fs (off : Z) (ks : list bytes) (k : bytes) :
  zlen (filter_block fs) < 2 ^ 32 -> 0 <= off ->
  fs !! window off = Some ks -> k ∈ ks -> zlen ks < 2 ^ 32 ->
  FilterBlock_KeyMayMatch (newFilterBlockReader (filter_block fs)) off k = true.
Proof.
  intros Hsz Hoff Hi Hk Hn. rewrite reader_of_block by done. unfold FilterBlock_KeyMayMatch.
  cbn [fr_base_lg fr_num fr_offset fr_data]. rewrite Z.shiftr_div_pow2 by done. change (2 ^ kFilterBaseLg) with kFilterBase.
  destruct (Z.ltb_spec (off / kFilterBase) (zlen fs)); [|done].
  assert (off / kFilterBase = Z.of_nat (window off)) as Ew.
  { unfold window. pose proof (window_mono 0 off ltac:(lia)). lia. }
  set (i := window off) in *. rewrite Ew. pose proof (lookup_lt_Some _ _ _ Hi) as Hlt.
  assert (forall j, 0 <= zlen (concat (take j (map filter_bytes fs))) <= zlen (filter_data fs)) as Hb
    by (intros j; split; [apply zlen_nonneg|apply concat_take_le]).
  assert (zlen (filter_data fs) < 2 ^ 32) as H32.
  { unfold filter_block in Hsz. rewrite zlen_app in Hsz.
    match type of Hsz with _ + zlen ?x < _ => pose proof (zlen_nonneg x) end. lia. }
  rewrite filter_block_words.
  rewrite (fixed32_at (filter_data fs) [zb kFilterBaseLg] _ i (zlen (concat (take i (map filter_bytes fs)))))
    by (try (rewrite offset_words_lookup by lia; f_equal; apply wrap_small); pose proof (Hb i); lia).
  replace (zlen (filter_data fs) + Z.of_nat i * 4 + 4) with (zlen (filter_data fs) + Z.of_nat (S i) * 4) by lia.
  rewrite (fixed32_at (filter_data fs) [zb kFilterBaseLg] _ (S i) (zlen (concat (take (S i) (map filter_bytes fs)))))
    by (try (rewrite offset_words_lookup by lia; f_equal; apply wrap_small); pose proof (Hb (S i)); lia).
  assert (map filter_bytes fs !! i = Some (filter_bytes ks)) as Hfi by (rewrite list_lookup_fmap, Hi; done).
  rewrite (take_S_r _ _ _ Hfi), concat_app, zlen_app. simpl concat. rewrite app_nil_r.
  set (pre := concat (take i (map filter_bytes fs))). pose proof (zlen_nonneg (filter_bytes ks)).
  assert (filter_data fs = pre ++ filter_bytes ks ++ concat (drop (S i) (map filter_bytes fs))) as Ed.
  { unfold filter_data, pre. rewrite <- (take_drop (S i) (map filter_bytes fs)) at 1.
    rewrite concat_app, (take_S_r _ _ _ Hfi), concat_app. simpl. rewrite app_nil_r, <- app_assoc. done. }
  assert (zlen pre + zlen (filter_bytes ks) <= zlen (filter_data fs)).
  { rewrite Ed, !zlen_app. pose proof (zlen_nonneg (concat (drop (S i) (map filter_bytes fs)))). lia. }
  destruct (Z.leb_spec (zlen pre) (zlen pre + zlen (filter_bytes ks))); [|lia].
  destruct (Z.leb_spec (zlen pre + zlen (filter_bytes ks)) (zlen (filter_data fs))); [|lia]. cbn [andb].
  replace (zlen pre + zlen (filter_bytes ks) - zlen pre) with (zlen (filter_bytes ks)) by lia.
  rewrite Ed, <- !app_assoc, zdrop_app_exact, ztake_app_exact.
  destruct ks as [|k0 ks0]; [apply elem_of_nil in Hk as []|]. apply filter_matches; done.
Qed.

End Builder.

Lemma build_filter_matches {P : FilterPolicy} {PL : FilterPolicyLaws P}
  (blocks : list (Z * list bytes)) (off : Z) (ks : list bytes) (key : bytes) :
  offsets_ok 0 blocks -> zlen (concat (map snd blocks)) < 2 ^ 32 -> zlen (build_filter blocks) < 2 ^ 32 ->
  (off, ks) ∈ blocks -> key ∈ ks ->
  FilterBlock_KeyMayMatch (newFilterBlockReader (build_filter blocks)) off key = true.
Proof.
  intros Hok Hn Hsz Hin Hk.
  destruct (add_blocks_state blocks newFilterBlockBuilder [] [] 0 0) as (fs & cur & [HI Hc] & _ & Hnew);
    [split; done|done|done|done|].
  assert (0 <= off) as Hoff.
  { destruct Hok as [Hf _]. rewrite Forall_forall in Hf. exact (Hf _ Hin). }
  unfold build_filter in *. rewrite (Finish_block _ _ _ HI) in *. pose proof (zlen_nonneg (concat fs)). pose proof (zlen_nonneg cur).
  assert (exists ks', (match cur with [] => fs | _ => fs ++ [cur] end) !! window off = Some ks' /\ key ∈ ks' /\ zlen ks' < 2 ^ 32)
    as (ks' & Hks & Hin' & Hl).
  { destruct (Hnew off ks key Hin Hk) as [(ks' & Hks & Hk')|[Ew Hk']].
    - exists ks'. split_and!; [destruct cur; [done|apply lookup_app_l_Some; done]|done|].
      apply list_elem_of_split_length in Hks as (a & b & -> & _).
      rewrite concat_app, zlen_app in Hc. simpl in Hc. rewrite zlen_app in Hc.
      pose proof (zlen_nonneg (concat a)). pose proof (zlen_nonneg (concat b)). lia.
    - exists cur. split_and!; [|done|lia]. destruct cur; [apply elem_of_nil in Hk' as []|].
      rewrite Ew. apply list_lookup_middle. done. }
  apply (member_matches _ off ks' key); done.
Qed.

(** ** Theorems *)

(** C25. A filter block has no false negatives: whatever policy keeps the contract,
    for the data blocks of a table in the order they are written (block offsets
    that do not decrease, any number of blocks per 2 KiB window and any number of
    windows without one), the reader answers "may match" for every key of every
    block, asked with the offset of that block. *)
Theorem filter_block_no_false_negatives {P : FilterPolicy} {PL : FilterPolicyLaws P}
  (blocks : list (Z * list bytes)) (off : Z) (ks : list bytes) (key : bytes) :
  offsets_ok 0 blocks -> zlen (concat (map snd blocks)) < 2 ^ 32 -> zlen (build_filter blocks) < 2 ^ 32 ->
  (off, ks) ∈ blocks -> key ∈ ks ->
  FilterBlock_KeyMayMatch (newFilterBlockReader (build_filter blocks)) off key = true.
Proof. apply build_filter_matches. Qed.

Lemma filter_block_no_false_negatives_witness :
  FilterBlock_KeyMayMatch (P := BloomPolicy 10)
    (newFilterBlockReader (build_filter (P := BloomPolicy 10)
       [(0, [lit "a"; lit "b"]); (100, [lit "c"]); (9000, [lit "d"])])) 100 (lit "c") = true.
Proof.
  apply (filter_block_no_false_negatives (PL := BloomLaws 10 ltac:(lia))
    [(0, [lit "a"; lit "b"]); (100, [lit "c"]); (9000, [lit "d"])] 100 [lit "c"]).
  - split; [repeat constructor; simpl; lia|].
    intros [|[|[|i]]] [|[|[|j]]] x y Hij Hx Hy; try lia; try discriminate Hx; try discriminate Hy;
      injection Hx as <-; injection Hy as <-; simpl; lia.
  - reflexivity.
  - vm_compute. reflexivity.
  - right. left.
  - left.
Defined.
