(* ===== verification/TableBuilder.v ===== *)
(** * TableBuilder: writing a table ([table/table_builder.cc])

    The builder's [Rep] field by field, over any writable file, comparator and
    filter policy.  [TInv] says what a builder has written: the data blocks so far,
    the index entries that separate them and the keys handed to the filter
    builder; [table_image] is the file that [Finish] leaves. *)

From S2P Require Import Prelude Status Coding Comparator Crc32c FilterPolicy Env Format Iterator Block FilterBlock Logging.
From Stdlib Require Import Sorting.Sorted.

Record TableBuilderOptions := mkTableBuilderOptions {
  tbo_block_size : Z;
  tbo_block_restart_interval : Z;
  tbo_compression : CompressionType;
  tbo_has_filter : bool
}.

Record TableBuilder (F : Type) := mkTB {
  tb_options : TableBuilderOptions;
  tb_file : F;
  tb_offset : Z;
  tb_status : Result unit;
  tb_data_block : BlockBuilder;
  tb_index_block : BlockBuilder;
  tb_last_key : bytes;
  tb_num_entries : Z;
  tb_closed : bool;
  tb_filter_block : option FilterBlockBuilder;
  tb_pending_index_entry : bool;
  tb_pending_handle : BlockHandle
}.
Arguments mkTB {F}.
Arguments tb_options {F}.
Arguments tb_file {F}.
Arguments tb_offset {F}.
Arguments tb_status {F}.
Arguments tb_data_block {F}.
Arguments tb_index_block {F}.
Arguments tb_last_key {F}.
Arguments tb_num_entries {F}.
Arguments tb_closed {F}.
Arguments tb_filter_block {F}.
Arguments tb_pending_index_entry {F}.
Arguments tb_pending_handle {F}.

Section BuilderDef.
Context {C : Comparator} {P : FilterPolicy} {F : Type} `{WritableFile F}.

Definition newTableBuilder (options : TableBuilderOptions) (file : F) : TableBuilder F :=
  mkTB options file 0 (Ok tt) (newBlockBuilder (tbo_block_restart_interval options)) (newBlockBuilder 1) [] 0 false
    (if tbo_has_filter options then Some (StartBlock 0 newFilterBlockBuilder) else None) false newBlockHandle.

(** [same_comparator] is [options.comparator == rep_->options.comparator]. *)
Definition ChangeOptions (same_comparator : bool) (options : TableBuilderOptions) (r : TableBuilder F)
  : Result unit * TableBuilder F :=
  if negb same_comparator then (Err (InvalidArgument "changing comparator while building table" ""), r)
  else
    (Ok tt, mkTB options (tb_file r) (tb_offset r) (tb_status r) (tb_data_block r) (tb_index_block r) (tb_last_key r)
              (tb_num_entries r) (tb_closed r) (tb_filter_block r) (tb_pending_index_entry r) (tb_pending_handle r)).

Definition tb_ok (r : TableBuilder F) : bool := is_ok (tb_status r).

Definition set_io (file : F) (offset : Z) (status : Result unit) (r : TableBuilder F) : TableBuilder F :=
  mkTB (tb_options r) file offset status (tb_data_block r) (tb_index_block r) (tb_last_key r)
    (tb_num_entries r) (tb_closed r) (tb_filter_block r) (tb_pending_index_entry r) (tb_pending_handle r).

Definition set_data_block (b : BlockBuilder) (h : BlockHandle) (r : TableBuilder F) : TableBuilder F :=
  mkTB (tb_options r) (tb_file r) (tb_offset r) (tb_status r) b (tb_index_block r) (tb_last_key r)
    (tb_num_entries r) (tb_closed r) (tb_filter_block r) (tb_pending_index_entry r) h.

Definition set_pending (p : bool) (r : TableBuilder F) : TableBuilder F :=
  mkTB (tb_options r) (tb_file r) (tb_offset r) (tb_status r) (tb_data_block r) (tb_index_block r) (tb_last_key r)
    (tb_num_entries r) (tb_closed r) (tb_filter_block r) p (tb_pending_handle r).

Definition set_filter (fb : option FilterBlockBuilder) (r : TableBuilder F) : TableBuilder F :=
  mkTB (tb_options r) (tb_file r) (tb_offset r) (tb_status r) (tb_data_block r) (tb_index_block r) (tb_last_key r)
    (tb_num_entries r) (tb_closed r) fb (tb_pending_index_entry r) (tb_pending_handle r).

Definition set_index_block (b : BlockBuilder) (last_key : bytes) (r : TableBuilder F) : TableBuilder F :=
  mkTB (tb_options r) (tb_file r) (tb_offset r) (tb_status r) (tb_data_block r) b last_key
    (tb_num_entries r) (tb_closed r) (tb_filter_block r) (tb_pending_index_entry r) (tb_pending_handle r).

Definition set_closed (r : TableBuilder F) : TableBuilder F :=
  mkTB (tb_options r) (tb_file r) (tb_offset r) (tb_status r) (tb_data_block r) (tb_index_block r) (tb_last_key r)
    (tb_num_entries r) true (tb_filter_block r) (tb_pending_index_entry r) (tb_pending_handle r).

Definition WriteRawBlock (block_contents : bytes) (type : CompressionType) (r : TableBuilder F)
  : BlockHandle * TableBuilder F :=
  let handle := mkBlockHandle (tb_offset r) (zlen block_contents) in
  let '(status, file) := wf_Append block_contents (tb_file r) in
  if is_ok status then
    let '(status, file) := wf_Append (block_trailer block_contents type) file in
    if is_ok status
    then (handle, set_io file (u64 (tb_offset r + (zlen block_contents + kBlockTrailerSize))) status r)
    else (handle, set_io file (tb_offset r) status r)
  else (handle, set_io file (tb_offset r) status r).

(** The compression option is read and replaced by [kNoCompression]; the block is
    returned reset. *)
Definition WriteBlock (block : BlockBuilder) (r : TableBuilder F) : BlockHandle * BlockBuilder * TableBuilder F :=
  let '(block, raw) := BlockBuilder_Finish block in
  let '(handle, r) := WriteRawBlock raw kNoCompression r in
  (handle, BlockBuilder_Reset block, r).

Definition Flush (r : TableBuilder F) : TableBuilder F :=
  if negb (tb_ok r) then r
  else if BlockBuilder_empty (tb_data_block r) then r
  else
    let '(handle, block, r) := WriteBlock (tb_data_block r) r in
    let r := set_data_block block handle r in
    let r := if tb_ok r then
               let r := set_pending true r in
               let '(status, file) := wf_Flush (tb_file r) in
               set_io file (tb_offset r) status r
             else r in
    set_filter (StartBlock (tb_offset r) <$> tb_filter_block r) r.

(** [last_key = shortened; index_block.Add(last_key, pending_handle)]. *)
Definition add_index_entry (shortened : bytes) (r : TableBuilder F) : TableBuilder F :=
  let handle_encoding := BlockHandle_EncodeTo (tb_pending_handle r) [] in
  set_pending false (set_index_block (BlockBuilder_Add (tb_index_block r) shortened handle_encoding) shortened r).

Definition TableBuilder_Add (key value : bytes) (r : TableBuilder F) : TableBuilder F :=
  if negb (tb_ok r) then r
  else
    let r := if tb_pending_index_entry r
             then add_index_entry (FindShortestSeparator (tb_last_key r) key) r else r in
    let r := set_filter (AddKey key <$> tb_filter_block r) r in
    let r := mkTB (tb_options r) (tb_file r) (tb_offset r) (tb_status r) (BlockBuilder_Add (tb_data_block r) key value)
               (tb_index_block r) key (tb_num_entries r + 1) (tb_closed r) (tb_filter_block r)
               (tb_pending_index_entry r) (tb_pending_handle r) in
    let estimated_block_size := CurrentSizeEstimate (tb_data_block r) in
    if tbo_block_size (tb_options r) <=? estimated_block_size then Flush r else r.

Definition filter_meta_key : bytes := lit "filter." ++ lit FilterName.

(** The four parts of [Finish] after its [Flush]: the filter block, the metaindex
    block, the index block and the footer. *)
Definition finish_filter (r : TableBuilder F) : BlockHandle * TableBuilder F :=
  match tb_filter_block r with
  | Some fb => if tb_ok r then WriteRawBlock (FilterBlock_Finish fb) kNoCompression r else (newBlockHandle, r)
  | None => (newBlockHandle, r)
  end.

Definition finish_metaindex (filter_block_handle : BlockHandle) (r : TableBuilder F) : BlockHandle * TableBuilder F :=
  if tb_ok r then
    let meta_index_block := newBlockBuilder (tbo_block_restart_interval (tb_options r)) in
    let meta_index_block :=
      match tb_filter_block r with
      | Some _ => BlockBuilder_Add meta_index_block filter_meta_key (BlockHandle_EncodeTo filter_block_handle [])
      | None => meta_index_block
      end in
    let '(handle, _, r) := WriteBlock meta_index_block r in (handle, r)
  else (newBlockHandle, r).

Definition finish_index (r : TableBuilder F) : BlockHandle * TableBuilder F :=
  if tb_ok r then
    let r := if tb_pending_index_entry r then add_index_entry (FindShortSuccessor (tb_last_key r)) r else r in
    let '(handle, block, r) := WriteBlock (tb_index_block r) r in
    (handle, set_index_block block (tb_last_key r) r)
  else (newBlockHandle, r).

Definition finish_footer (metaindex_block_handle index_block_handle : BlockHandle) (r : TableBuilder F) : TableBuilder F :=
  if tb_ok r then
    let footer := mkFooter metaindex_block_handle index_block_handle in
    let footer_encoding := Footer_EncodeTo footer [] in
    let '(status, file) := wf_Append footer_encoding (tb_file r) in
    set_io file (if is_ok status then u64 (tb_offset r + zlen footer_encoding) else tb_offset r) status r
  else r.

Definition TableBuilder_Finish (r : TableBuilder F) : Result unit * TableBuilder F :=
  let r := set_closed (Flush r) in
  let '(filter_block_handle, r) := finish_filter r in
  let '(metaindex_block_handle, r) := finish_metaindex filter_block_handle r in
  let '(index_block_handle, r) := finish_index r in
  let r := finish_footer metaindex_block_handle index_block_handle r in
  (tb_status r, r).

Definition Abandon (r : TableBuilder F) : TableBuilder F := set_closed r.
Definition NumEntries (r : TableBuilder F) : Z := tb_num_entries r.
Definition FileSize (r : TableBuilder F) : Z := tb_offset r.

End BuilderDef.

(** ** What is on disk *)

Definition block_image (raw : bytes) : bytes := raw ++ block_trailer raw kNoCompression.

Lemma zlen_block_trailer (raw : bytes) (t : CompressionType) : zlen (block_trailer raw t) = kBlockTrailerSize.
Proof. unfold block_trailer. rewrite zlen_app, zlen_EncodeFixed32. done. Qed.

Lemma zlen_block_image (raw : bytes) : zlen (block_image raw) = zlen raw + kBlockTrailerSize.
Proof. unfold block_image. rewrite zlen_app, zlen_block_trailer. done. Qed.

Section Spec.
Context {C : Comparator} {CL : ComparatorLaws C} {P : FilterPolicy} {F : Type} `{WritableFileLaws F}.
Context (opts : TableBuilderOptions).

Abbreviation ri := (tbo_block_restart_interval opts).

(** The data blocks one after the other, and the handle of one. *)
Definition images (blks : list entries) : bytes := concat (map (fun kvs => block_image (build_block ri kvs)) blks).

Definition blk_handle (blks : list entries) (b : nat) (kvs : entries) : BlockHandle :=
  mkBlockHandle (zlen (images (take b blks))) (zlen (build_block ri kvs)).

(** What the filter builder is told: the offset and the keys of every block. *)
Fixpoint feed (off : Z) (blks : list entries) : list (Z * list bytes) :=
  match blks with
  | [] => []
  | kvs :: blks => (off, map fst kvs) :: feed (off + zlen (block_image (build_block ri kvs))) blks
  end.

Lemma images_snoc (blks : list entries) (x : entries) : images (blks ++ [x]) = images blks ++ block_image (build_block ri x).
Proof. unfold images. rewrite map_app, concat_app. simpl. rewrite app_nil_r. done. Qed.

Lemma feed_snoc (off : Z) (blks : list entries) (x : entries) :
  feed off (blks ++ [x]) = feed off blks ++ [(off + zlen (images blks), map fst x)].
Proof.
  revert off. induction blks as [|y blks IH]; intros off; simpl.
  - change (zlen (images [])) with 0. rewrite Z.add_0_r. done.
  - rewrite IH. unfold images. simpl. rewrite zlen_app, Z.add_assoc. done.
Qed.

(** An entry after block [b]. *)
Definition later (blks : list entries) (cur : entries) (b : nat) (e : bytes * bytes) : Prop :=
  (exists b' kvs', (b < b')%nat /\ blks !! b' = Some kvs' /\ e ∈ kvs') \/ e ∈ cur.

(** How the index key of a block is made: from its last key and the key that follows. *)
Definition sep_origin (kvs : entries) (after : bytes * bytes -> Prop) (k : bytes) : Prop :=
  exists kv, kv ∈ kvs /\
    ((exists limit, k = FindShortestSeparator (fst kv) limit /\ clt (fst kv) limit /\ forall e, after e -> cle limit (fst e)) \/
     (k = FindShortSuccessor (fst kv) /\ forall e, ~ after e)).

(** The index entries separate the blocks from each other and from [cur]. *)
Definition index_sep (blks : list entries) (cur : entries) (idx : entries) : Prop :=
  forall b k h kvs, idx !! b = Some (k, h) -> blks !! b = Some kvs ->
    h = handle_bytes (blk_handle blks b kvs) /\ (forall e, e ∈ kvs -> cle (fst e) k) /\
    (forall b' kvs' e, (b < b')%nat -> blks !! b' = Some kvs' -> e ∈ kvs' -> clt k (fst e)) /\
    (forall e, e ∈ cur -> clt k (fst e)) /\ sep_origin kvs (later blks cur b) k.

Lemma sep_origin_mono (kvs : entries) (A B : bytes * bytes -> Prop) (k : bytes) : (forall e, B e -> A e) -> sep_origin kvs A k -> sep_origin kvs B k.
Proof. intros HPQ (kv & Hkv & [(limit & E & Hlt & Hl)|[E Hl]]); exists kv; (split; [done|]); [left; exists limit; naive_solver|right; naive_solver]. Qed.

Definition fed (blks : list entries) (cur : entries) : option FilterBlockBuilder :=
  if tbo_has_filter opts
  then Some (fold_left add_block (feed 0 blks ++ [(zlen (images blks), map fst cur)]) newFilterBlockBuilder)
  else None.

Record TInv (r : TableBuilder F) (blks : list entries) (cur idx : entries) : Prop := {
  ti_options : tb_options r = opts;
  ti_status : tb_status r = Ok tt;
  ti_file : wf_contents (tb_file r) = images blks;
  ti_offset : tb_offset r = zlen (images blks);
  ti_data : tb_data_block r = add_all (newBlockBuilder ri) cur;
  ti_index : tb_index_block r = add_all (newBlockBuilder 1) idx;
  ti_last : forall kv, last (concat blks ++ cur) = Some kv -> tb_last_key r = fst kv;
  ti_pending : if tb_pending_index_entry r
               then cur = [] /\ exists blks' x, blks = blks' ++ [x] /\ length idx = length blks' /\
                      tb_pending_handle r = blk_handle blks (length blks') x
               else length idx = length blks /\ (cur = [] -> blks = []);
  ti_sep : index_sep blks cur idx;
  ti_filter : tb_filter_block r = fed blks cur;
  ti_nonempty : Forall (fun x => x <> []) blks
}.

Lemma TInv_new (file : F) : wf_contents file = [] -> TInv (newTableBuilder opts file) [] [] [].
Proof.
  intros Hf. split; done.
Qed.

(** ** Files only grow *)

Abbreviation size r := (zlen (wf_contents (tb_file r))).

Lemma WriteRawBlock_spec (raw : bytes) (t : CompressionType) (r : TableBuilder F) :
  exists file, WriteRawBlock raw t r = (mkBlockHandle (tb_offset r) (zlen raw),
      set_io file (u64 (tb_offset r + (zlen raw + kBlockTrailerSize))) (Ok tt) r) /\
    wf_contents file = wf_contents (tb_file r) ++ raw ++ block_trailer raw t.
Proof.
  unfold WriteRawBlock. destruct (wf_Append_spec raw (tb_file r)) as (f1 & -> & E1). simpl.
  destruct (wf_Append_spec (block_trailer raw t) f1) as (f2 & -> & E2). simpl.
  exists f2. split; [done|]. rewrite E2, E1, app_assoc. done.
Qed.

Lemma WriteBlock_spec (b : BlockBuilder) (r : TableBuilder F) :
  exists file, WriteBlock b r = (mkBlockHandle (tb_offset r) (zlen (snd (BlockBuilder_Finish b))), newBlockBuilder (bb_restart_interval b),
      set_io file (u64 (tb_offset r + (zlen (snd (BlockBuilder_Finish b)) + kBlockTrailerSize))) (Ok tt) r) /\
    wf_contents file = wf_contents (tb_file r) ++ block_image (snd (BlockBuilder_Finish b)).
Proof.
  unfold WriteBlock. destruct (BlockBuilder_Finish b) as [b' raw] eqn:E.
  destruct (WriteRawBlock_spec raw kNoCompression r) as (file & -> & Ef). exists file. split; [|done].
  assert (BlockBuilder_Reset b' = newBlockBuilder (bb_restart_interval b)) as -> by (unfold BlockBuilder_Finish in E; injection E as <- <-; done).
  done.
Qed.

Lemma Flush_grows (r : TableBuilder F) : size r <= size (Flush r).
Proof.
  unfold Flush. destruct (negb (tb_ok r)); [lia|]. destruct (BlockBuilder_empty _); [lia|].
  destruct (WriteBlock_spec (tb_data_block r) r) as (file & -> & Ef). simpl.
  destruct (wf_Flush_spec file) as (f2 & -> & E2). simpl. rewrite E2, Ef, zlen_app.
  match goal with |- _ <= _ + zlen ?x => pose proof (zlen_nonneg x) end. lia.
Qed.

Lemma Add_grows (key value : bytes) (r : TableBuilder F) : size r <= size (TableBuilder_Add key value r).
Proof.
  unfold TableBuilder_Add. destruct (negb (tb_ok r)); [lia|].
  destruct (tb_pending_index_entry r); cbv zeta; destruct (_ <=? _); simpl; try lia;
    (etransitivity; [|apply Flush_grows]; simpl; lia).
Qed.

(** ** Adding an entry and flushing a block *)

Lemma add_all_empty (i : Z) (kvs : entries) :
  1 <= i -> BlockBuilder_empty (add_all (newBlockBuilder i) kvs) = bool_decide (kvs = []).
Proof.
  intros Hi. destruct (add_all_inv kvs (newBlockBuilder i) [] [0%nat] Hi (new_builder_inv i)) as (l & rs & El & HI).
  simpl in El. unfold BlockBuilder_empty. rewrite (bi_buffer _ _ _ HI). destruct l as [|e l].
  - subst kvs. done.
  - rewrite bool_decide_eq_false_2 by (subst kvs; done). rewrite ents_bytes_cons, zlen_app.
    pose proof (ent_bytes_length e). pose proof (zlen_nonneg (ents_bytes l)).
    pose proof (zlen_nonneg (drop (en_shared e) (en_key e))). pose proof (zlen_nonneg (en_val e)).
    apply Z.eqb_neq. lia.
Qed.

Lemma add_all_interval (kvs : entries) (b : BlockBuilder) : bb_restart_interval (add_all b kvs) = bb_restart_interval b.
Proof.
  revert b. induction kvs as [|kv kvs IH]; intros b; [done|]. unfold add_all in *. simpl. rewrite IH, Add_interval. done.
Qed.

Lemma add_all_snoc (b : BlockBuilder) (kvs : entries) (k v : bytes) :
  add_all b (kvs ++ [(k, v)]) = BlockBuilder_Add (add_all b kvs) k v.
Proof. unfold add_all. rewrite fold_left_app. done. Qed.

Lemma blk_handle_snoc (blks : list entries) (x : entries) (b : nat) (kvs : entries) :
  (b <= length blks)%nat -> blk_handle (blks ++ [x]) b kvs = blk_handle blks b kvs.
Proof. intros Hb. unfold blk_handle. rewrite take_app_le by done. done. Qed.

Lemma index_sep_flush (blks : list entries) (cur idx : entries) :
  (length idx <= length blks)%nat -> index_sep blks cur idx -> index_sep (blks ++ [cur]) [] idx.
Proof.
  intros Hl Hs b k h kvs Hb Hk. pose proof (lookup_lt_Some _ _ _ Hb) as Hlt.
  rewrite lookup_app_l in Hk by lia. destruct (Hs b k h kvs Hb Hk) as (H1 & H2 & H3 & H4 & H5).
  split_and!; [rewrite blk_handle_snoc by lia; done|done| |intros e He; apply elem_of_nil in He as []|].
  - intros b' kvs' e Hlt' Hk' He. apply lookup_app_Some in Hk' as [Hk'|[Hle Hk']]; [eapply H3; done|].
    apply list_lookup_singleton_Some in Hk' as [_ <-]. apply H4. done.
  - eapply sep_origin_mono; [|exact H5]. intros e [(b' & kvs' & Hlt' & Hk' & He)|He]; [|by apply elem_of_nil in He].
    apply lookup_app_Some in Hk' as [Hk'|[Hle Hk']]; [left; eauto 10|]. apply list_lookup_singleton_Some in Hk' as [_ <-]. by right.
Qed.

Lemma fed_flush (blks : list entries) (cur : entries) :
  StartBlock (zlen (images (blks ++ [cur]))) <$> fed blks cur = fed (blks ++ [cur]) [].
Proof.
  unfold fed. destruct (tbo_has_filter opts); [|done]. simpl. f_equal.
  rewrite feed_snoc, Z.add_0_l, (fold_left_app _ (_ ++ _) [_]). done.
Qed.

Context (Hri : 1 <= ri).

Lemma Flush_inv (r : TableBuilder F) (blks : list entries) (cur idx : entries) :
  TInv r blks cur idx -> cur <> [] -> size (Flush r) < 2 ^ 64 ->
  TInv (Flush r) (blks ++ [cur]) [] idx /\ tb_pending_index_entry (Flush r) = true.
Proof.
  intros HT Hc. unfold Flush, tb_ok. rewrite (ti_status _ _ _ _ HT). cbn [is_ok negb].
  rewrite (ti_data _ _ _ _ HT), add_all_empty, bool_decide_eq_false_2 by done.
  destruct (WriteBlock_spec (add_all (newBlockBuilder ri) cur) r) as (file & -> & Ef). rewrite add_all_interval.
  change (snd (BlockBuilder_Finish (add_all (newBlockBuilder ri) cur))) with (build_block ri cur) in *.
  set (raw := build_block ri cur) in *. simpl. destruct (wf_Flush_spec file) as (f2 & -> & E2). unfold raw in *. intros Hsz.
  assert (wf_contents f2 = images (blks ++ [cur])) as Econ by (rewrite E2, Ef, (ti_file _ _ _ _ HT), images_snoc; done).
  cbn [tb_file set_filter set_io set_pending set_data_block] in Hsz. rewrite Econ in Hsz.
  assert (u64 (tb_offset r + (zlen (build_block ri cur) + kBlockTrailerSize)) = zlen (images (blks ++ [cur]))) as Eoff.
  { rewrite (ti_offset _ _ _ _ HT). rewrite images_snoc, zlen_app, zlen_block_image in *.
    pose proof (zlen_nonneg (images blks)). pose proof (zlen_nonneg (build_block ri cur)). apply wrap_small. unfold kBlockTrailerSize in *. lia. }
  pose proof (ti_pending _ _ _ _ HT) as Hp.
  assert (length idx = length blks) as Hl.
  { destruct (tb_pending_index_entry r); [destruct Hp as [E _]; done|apply Hp]. }
  split; [|done]. cbv zeta. rewrite Eoff. split; simpl; try done.
  - apply HT.
  - apply HT.
  - intros kv Hkv. rewrite concat_app, app_nil_r in Hkv. simpl in Hkv. rewrite app_nil_r in Hkv. apply (ti_last _ _ _ _ HT). done.
  - split; [done|]. exists blks, cur. split_and!; [done|done|]. unfold blk_handle.
    rewrite take_app_length, (ti_offset _ _ _ _ HT). done.
  - apply index_sep_flush; [lia|apply HT].
  - rewrite (ti_filter _ _ _ _ HT). apply fed_flush.
  - apply Forall_app. split; [apply HT|]. repeat constructor. done.
Qed.

Lemma Flush_idle (r : TableBuilder F) (blks : list entries) (idx : entries) : TInv r blks [] idx -> Flush r = r.
Proof.
  intros HT. unfold Flush. destruct (negb (tb_ok r)); [done|]. rewrite (ti_data _ _ _ _ HT), add_all_empty by done. done.
Qed.

Lemma fed_add (blks : list entries) (cur : entries) (k v : bytes) :
  AddKey k <$> fed blks cur = fed blks (cur ++ [(k, v)]).
Proof.
  unfold fed. destruct (tbo_has_filter opts); [|done]. simpl. f_equal.
  rewrite !fold_left_app. simpl. unfold add_block at 1 3. simpl. rewrite map_app, fold_left_app. done.
Qed.

(** The key the builder shortens is the last key of the last block. *)
Lemma last_of_blocks (blks' : list entries) (x : entries) :
  x <> [] -> exists kv, last (concat (blks' ++ [x]) ++ []) = Some kv /\ last x = Some kv.
Proof.
  intros Hx. rewrite app_nil_r, concat_app. simpl. rewrite app_nil_r.
  destruct x as [|kv x _] using rev_ind; [done|]. exists kv. rewrite app_assoc, !last_snoc. done.
Qed.

Lemma sorted_last (x : entries) (kv e : bytes * bytes) : keys_sorted x -> last x = Some kv -> e ∈ x -> cle (fst e) (fst kv).
Proof.
  intros HS Hl He. destruct x as [|kv' x _] using rev_ind; [done|]. rewrite last_snoc in Hl. injection Hl as ->.
  apply elem_of_app in He as [He|He]; [|apply list_elem_of_singleton in He as ->; apply cle_refl].
  apply list_elem_of_lookup in He as [i Hi]. apply clt_cle, (sorted_lookup_lt (x ++ [kv]) i (length x)); [done| | |].
  - apply lookup_app_l_Some. done.
  - apply list_lookup_middle. done.
  - eapply lookup_lt_Some. done.
Qed.

Lemma sorted_before_last (l : entries) (k v : bytes) (e : bytes * bytes) :
  keys_sorted (l ++ [(k, v)]) -> e ∈ l -> clt (fst e) k.
Proof.
  intros HS He. apply list_elem_of_lookup in He as [i Hi].
  apply (sorted_lookup_lt (l ++ [(k, v)]) i (length l) e (k, v)); [done| | |].
  - apply lookup_app_l_Some. done.
  - apply list_lookup_middle. done.
  - eapply lookup_lt_Some. done.
Qed.

Lemma keys_sorted_app (a b : entries) : keys_sorted (a ++ b) -> keys_sorted a /\ keys_sorted b.
Proof.
  unfold keys_sorted. induction a as [|x a IH]; simpl; intros HS; [split; [constructor|done]|].
  apply StronglySorted_inv in HS as [HS Hx]. destruct (IH HS) as [H1 H2]. apply Forall_app in Hx as [Hx _].
  split; [constructor; done|done].
Qed.

Lemma index_sep_add (blks : list entries) (cur idx : entries) (k v : bytes) :
  index_sep blks cur idx ->
  (forall b (x : bytes * bytes), idx !! b = Some x -> exists e : bytes * bytes, later blks cur b e /\ clt (fst e) k) ->
  index_sep blks (cur ++ [(k, v)]) idx.
Proof.
  intros Hs Hk b key h kvs Hb Hkvs. destruct (Hs b key h kvs Hb Hkvs) as (H1 & H2 & H3 & H4 & H5). destruct (Hk b _ Hb) as (e & He1 & He2).
  assert (clt key (fst e)) as Hke by (destruct He1 as [(b' & kvs' & Hlt & Hk' & He)|He]; [by eapply H3|by apply H4]). split_and!; [done..| |].
  - intros e' He. apply elem_of_app in He as [He|He]; [auto|]. apply list_elem_of_singleton in He as ->. simpl. eapply clt_trans; done.
  - destruct H5 as (kv & Hkv & [(limit & E & Hlt & Hl)|[E Hl]]); [|by destruct (Hl e)]. exists kv. split; [done|]. left. exists limit. split_and!; [done..|].
    intros e' [Hl'|He']; [apply Hl; by left|]. apply elem_of_app in He' as [He'|He']; [apply Hl; by right|]. apply list_elem_of_singleton in He' as ->.
    simpl. eapply cmp_le_trans; [by apply Hl|by apply clt_cle].
Qed.

(** The index entry of the last block: its key lies between the block and [k]. *)
Lemma index_sep_snoc (blks' : list entries) (x cur idx : entries) (sep : bytes) :
  length idx = length blks' -> index_sep (blks' ++ [x]) cur idx ->
  (forall e, e ∈ x -> cle (fst e) sep) -> (forall e, e ∈ cur -> clt sep (fst e)) -> sep_origin x (fun e => e ∈ cur) sep ->
  index_sep (blks' ++ [x]) cur (idx ++ [(sep, handle_bytes (blk_handle (blks' ++ [x]) (length blks') x))]).
Proof.
  intros Hl Hs Hx Hc Ho b k h kvs Hb Hk. apply lookup_app_Some in Hb as [Hb|[Hle Hb]]; [apply (Hs b k h kvs Hb Hk)|].
  apply list_lookup_singleton_Some in Hb as [Hb0 [= <- <-]]. replace b with (length blks') in * by lia.
  rewrite list_lookup_middle in Hk by done. injection Hk as <-. split_and!; [done|done| |done|].
  - intros b' kvs' e Hlt Hk'. apply lookup_lt_Some in Hk'. rewrite length_app in Hk'. simpl in Hk'. lia.
  - eapply sep_origin_mono; [|exact Ho]. intros e [(b' & kvs' & Hlt & Hk' & _)|He]; [|done]. apply lookup_lt_Some in Hk'. rewrite length_app in Hk'. simpl in Hk'. lia.
Qed.

(** The state after the entry was added and before the size check. *)
Definition added (key value : bytes) (r : TableBuilder F) : TableBuilder F :=
  let r := if tb_pending_index_entry r
           then add_index_entry (FindShortestSeparator (tb_last_key r) key) r else r in
  let r := set_filter (AddKey key <$> tb_filter_block r) r in
  mkTB (tb_options r) (tb_file r) (tb_offset r) (tb_status r) (BlockBuilder_Add (tb_data_block r) key value)
    (tb_index_block r) key (tb_num_entries r + 1) (tb_closed r) (tb_filter_block r)
    (tb_pending_index_entry r) (tb_pending_handle r).

Lemma added_inv (key value : bytes) (r : TableBuilder F) (blks : list entries) (cur idx : entries) :
  TInv r blks cur idx -> keys_sorted ((concat blks ++ cur) ++ [(key, value)]) ->
  exists idx', TInv (added key value r) blks (cur ++ [(key, value)]) idx'.
Proof.
  intros HT HS. pose proof (ti_pending _ _ _ _ HT) as Hp. unfold added.
  assert (forall kv, last (concat blks ++ cur ++ [(key, value)]) = Some kv -> key = fst kv) as Hlast.
  { intros kv Hkv. rewrite app_assoc, last_snoc in Hkv. injection Hkv as <-. done. }
  destruct (tb_pending_index_entry r) eqn:Ep.
  - destruct Hp as [-> (blks' & x & -> & Hl & Hh)]. set (sep := FindShortestSeparator (tb_last_key r) key).
    assert (x <> []) as Hx by (pose proof (ti_nonempty _ _ _ _ HT) as Hn; apply Forall_app in Hn as [_ Hn]; inversion Hn; done).
    destruct (last_of_blocks blks' x Hx) as (kv & Hkv & Hkvx). pose proof (ti_last _ _ _ _ HT kv Hkv) as Elk.
    rewrite app_nil_r in HS. assert (kv ∈ x) as Hin by (apply last_Some_elem_of; done).
    assert (forall e, e ∈ x -> clt (fst e) key) as Hxk.
    { intros e He. apply (sorted_before_last _ key value e HS). rewrite concat_app. apply elem_of_app. right. simpl. rewrite app_nil_r. done. }
    assert (keys_sorted x) as HSx.
    { apply keys_sorted_app in HS as [HS _]. rewrite concat_app in HS. apply keys_sorted_app in HS as [_ HS]. simpl in HS.
      rewrite app_nil_r in HS. done. }
    assert (clt (tb_last_key r) key) as Hlt by (rewrite Elk; apply Hxk; done).
    exists (idx ++ [(sep, handle_bytes (blk_handle (blks' ++ [x]) (length blks') x))]).
    split; simpl; try apply HT; try done.
    + rewrite (ti_data _ _ _ _ HT). done.
    + rewrite add_all_snoc, (ti_index _ _ _ _ HT), BlockHandle_EncodeTo_app, Hh. done.
    + split; [|done]. rewrite !length_app. simpl. lia.
    + apply index_sep_snoc; [done|apply (index_sep_add _ []); [apply HT|]|..].
      * intros b [kb hb] Hb. exists kv. split; [|auto]. pose proof (lookup_lt_Some _ _ _ Hb). left. exists (length blks'), x.
        split_and!; [lia|apply list_lookup_middle; done|done].
      * intros e He. eapply cmp_le_trans; [apply (sorted_last x kv e HSx Hkvx He)|]. rewrite <- Elk. apply sep_ge. done.
      * intros e He. apply list_elem_of_singleton in He as ->. apply sep_lt. done.
      * exists kv. split; [done|]. left. exists key. rewrite <- Elk. split_and!; [done|done|]. intros e He. apply list_elem_of_singleton in He as ->. apply cle_refl.
    + rewrite (ti_filter _ _ _ _ HT). apply (fed_add _ [] key value).
  - destruct Hp as [Hl Hempty]. exists idx. split; simpl; try apply HT; try done.
    + rewrite add_all_snoc, (ti_data _ _ _ _ HT). done.
    + rewrite Ep. split; [done|]. intros E. apply app_eq_nil in E as [_ ?]. done.
    + apply index_sep_add; [apply HT|]. intros b [kb hb] Hb. pose proof (lookup_lt_Some _ _ _ Hb).
      destruct (lookup_lt_is_Some_2 blks b) as [kvs Hkvs]; [lia|].
      destruct cur as [|e cur']; [rewrite (Hempty eq_refl) in Hkvs; done|].
      exists e. split; [right; left|]. apply (sorted_before_last _ key value e HS). apply elem_of_app. right. left.
    + rewrite (ti_filter _ _ _ _ HT). apply fed_add.
Qed.

Lemma Add_inv_tb (key value : bytes) (r : TableBuilder F) (blks : list entries) (cur idx : entries) :
  TInv r blks cur idx -> keys_sorted ((concat blks ++ cur) ++ [(key, value)]) ->
  size (TableBuilder_Add key value r) < 2 ^ 64 ->
  exists blks' cur' idx', TInv (TableBuilder_Add key value r) blks' cur' idx' /\
    concat blks' ++ cur' = (concat blks ++ cur) ++ [(key, value)].
Proof.
  intros HT HS. destruct (added_inv key value r blks cur idx HT HS) as (idx' & HT').
  assert (TableBuilder_Add key value r =
    if tbo_block_size (tb_options (added key value r)) <=? CurrentSizeEstimate (tb_data_block (added key value r))
    then Flush (added key value r) else added key value r) as ->.
  { unfold TableBuilder_Add, tb_ok. rewrite (ti_status _ _ _ _ HT). done. }
  destruct (_ <=? _); intros Hsz.
  - destruct (Flush_inv _ _ _ _ HT') as [HF _]; [intros E; apply app_eq_nil in E as [_ ?]; done|done|].
    exists (blks ++ [cur ++ [(key, value)]]), [], idx'. split; [done|].
    rewrite concat_app, app_nil_r. simpl. rewrite app_nil_r, <- app_assoc. done.
  - exists blks, (cur ++ [(key, value)]), idx'. split; [done|]. apply app_assoc.
Qed.

Definition tb_add_all (kvs : entries) (r : TableBuilder F) : TableBuilder F :=
  fold_left (fun r kv => TableBuilder_Add (fst kv) (snd kv) r) kvs r.

Lemma add_all_grows (kvs : entries) (r : TableBuilder F) : size r <= size (tb_add_all kvs r).
Proof.
  revert r. induction kvs as [|kv kvs IH]; intros r; unfold tb_add_all; [simpl; lia|]. rewrite fold_left_cons.
  etransitivity; [apply Add_grows|apply IH].
Qed.

Lemma add_all_inv_tb (kvs : entries) (r : TableBuilder F) (blks : list entries) (cur idx : entries) :
  TInv r blks cur idx -> keys_sorted ((concat blks ++ cur) ++ kvs) -> size (tb_add_all kvs r) < 2 ^ 64 ->
  exists blks' cur' idx', TInv (tb_add_all kvs r) blks' cur' idx' /\ concat blks' ++ cur' = (concat blks ++ cur) ++ kvs.
Proof.
  revert r blks cur idx. induction kvs as [|[k v] kvs IH]; intros r blks cur idx HT HS Hsz.
  - exists blks, cur, idx. rewrite app_nil_r. done.
  - unfold tb_add_all in Hsz |- *. rewrite fold_left_cons in Hsz |- *. cbn [fst snd] in *.
    fold (tb_add_all kvs (TableBuilder_Add k v r)) in *. pose proof (add_all_grows kvs (TableBuilder_Add k v r)).
    replace ((concat blks ++ cur) ++ (k, v) :: kvs) with (((concat blks ++ cur) ++ [(k, v)]) ++ kvs) in *
      by (rewrite <- app_assoc; done).
    destruct (Add_inv_tb k v r blks cur idx HT) as (b1 & c1 & i1 & HT1 & E1); [apply keys_sorted_app in HS; apply HS|lia|].
    rewrite <- E1 in *. apply (IH _ b1 c1 i1); done.
Qed.

(** ** The finished file *)

Definition filter_raw (blks : list entries) : bytes :=
  FilterBlock_Finish (fold_left add_block (feed 0 blks ++ [(zlen (images blks), [])]) newFilterBlockBuilder).

Definition filter_image (blks : list entries) : bytes :=
  if tbo_has_filter opts then block_image (filter_raw blks) else [].

Definition filter_handle (blks : list entries) : BlockHandle :=
  mkBlockHandle (zlen (images blks)) (zlen (filter_raw blks)).

Definition meta_entries (blks : list entries) : entries :=
  if tbo_has_filter opts then [(filter_meta_key, handle_bytes (filter_handle blks))] else [].

Definition meta_raw (blks : list entries) : bytes := build_block ri (meta_entries blks).

Definition meta_handle (blks : list entries) : BlockHandle :=
  mkBlockHandle (zlen (images blks ++ filter_image blks)) (zlen (meta_raw blks)).

Definition index_handle (blks : list entries) (idx : entries) : BlockHandle :=
  mkBlockHandle (zlen (images blks ++ filter_image blks ++ block_image (meta_raw blks))) (zlen (build_block 1 idx)).

Definition table_footer (blks : list entries) (idx : entries) : Footer := mkFooter (meta_handle blks) (index_handle blks idx).

Definition table_image (blks : list entries) (idx : entries) : bytes :=
  images blks ++ filter_image blks ++ block_image (meta_raw blks) ++ block_image (build_block 1 idx)
    ++ footer_bytes (table_footer blks idx).

(** The offset tracks the file size modulo the word size. *)
Definition tracks (r : TableBuilder F) (contents : bytes) : Prop :=
  tb_status r = Ok tt /\ wf_contents (tb_file r) = contents /\ tb_offset r = u64 (zlen contents).

Lemma u64_add (a b : Z) : u64 (u64 a + b) = u64 (a + b).
Proof. unfold wrap. rewrite Z.add_mod_idemp_l; [done|]. lia. Qed.

Lemma WriteRawBlock_tracks (raw contents : bytes) (r : TableBuilder F) :
  tracks r contents -> exists file,
    let r' := set_io file (u64 (zlen (contents ++ block_image raw))) (Ok tt) r in
    WriteRawBlock raw kNoCompression r = (mkBlockHandle (u64 (zlen contents)) (zlen raw), r') /\
    tracks r' (contents ++ block_image raw).
Proof.
  intros (Hs & Hc & Ho). destruct (WriteRawBlock_spec raw kNoCompression r) as (file & -> & Ef). exists file. cbv zeta.
  rewrite Ho, u64_add, zlen_app, zlen_block_image. split; [done|]. unfold tracks. simpl.
  rewrite Ef, Hc, zlen_app, zlen_block_image. done.
Qed.

Lemma WriteBlock_tracks (interval : Z) (kvs : entries) (contents : bytes) (r : TableBuilder F) :
  tracks r contents -> exists file,
    let raw := build_block interval kvs in
    let r' := set_io file (u64 (zlen (contents ++ block_image raw))) (Ok tt) r in
    WriteBlock (add_all (newBlockBuilder interval) kvs) r
      = (mkBlockHandle (u64 (zlen contents)) (zlen raw), newBlockBuilder interval, r') /\
    tracks r' (contents ++ block_image raw).
Proof.
  intros (Hs & Hc & Ho). destruct (WriteBlock_spec (add_all (newBlockBuilder interval) kvs) r) as (file & -> & Ef). exists file.
  cbv zeta. rewrite add_all_interval.
  change (snd (BlockBuilder_Finish (add_all (newBlockBuilder interval) kvs))) with (build_block interval kvs) in *.
  rewrite Ho, u64_add, zlen_app, zlen_block_image. split; [done|]. unfold tracks. simpl.
  rewrite Ef, Hc, zlen_app, zlen_block_image. done.
Qed.

(** The parts of [Finish] one by one. *)
Definition same_meta (r r' : TableBuilder F) : Prop :=
  tb_options r' = tb_options r /\ tb_filter_block r' = tb_filter_block r /\ tb_index_block r' = tb_index_block r /\
  tb_pending_index_entry r' = tb_pending_index_entry r /\ tb_pending_handle r' = tb_pending_handle r /\ tb_last_key r' = tb_last_key r.

Lemma finish_filter_spec (blks : list entries) (r : TableBuilder F) :
  tracks r (images blks) -> tb_filter_block r = fed blks [] -> zlen (images blks) < 2 ^ 64 ->
  exists h r', finish_filter r = (h, r') /\ tracks r' (images blks ++ filter_image blks) /\ same_meta r r' /\
    (tbo_has_filter opts = true -> h = filter_handle blks).
Proof.
  intros Ht Hf Hsz. unfold finish_filter, filter_image, filter_handle. rewrite Hf. unfold fed. simpl map.
  pose proof (zlen_nonneg (images blks)). destruct (tbo_has_filter opts).
  - unfold tb_ok. rewrite (proj1 Ht). cbn [is_ok].
    destruct (WriteRawBlock_tracks (filter_raw blks) (images blks) r Ht) as (file & E & Ht'). unfold filter_raw in E at 1. rewrite E.
    eexists _, _. split; [reflexivity|]. split_and!; [done|done|]. intros _. rewrite wrap_small by lia. done.
  - exists newBlockHandle, r. rewrite app_nil_r. done.
Qed.

Lemma finish_metaindex_spec (blks : list entries) (h : BlockHandle) (r : TableBuilder F) :
  tracks r (images blks ++ filter_image blks) -> tb_options r = opts -> tb_filter_block r = fed blks [] ->
  (tbo_has_filter opts = true -> h = filter_handle blks) -> zlen (images blks ++ filter_image blks) < 2 ^ 64 ->
  exists r', finish_metaindex h r = (meta_handle blks, r') /\
    tracks r' ((images blks ++ filter_image blks) ++ block_image (meta_raw blks)) /\ same_meta r r'.
Proof.
  intros Ht Ho Hf Hh Hsz. unfold finish_metaindex, tb_ok. rewrite (proj1 Ht), Ho, Hf. cbn [is_ok]. cbv zeta.
  assert (match fed blks [] with
    | Some _ => BlockBuilder_Add (newBlockBuilder ri) filter_meta_key (BlockHandle_EncodeTo h [])
    | None => newBlockBuilder ri
    end = add_all (newBlockBuilder ri) (meta_entries blks)) as ->.
  { unfold fed, meta_entries. destruct (tbo_has_filter opts); [|done]. rewrite BlockHandle_EncodeTo_app, Hh by done. done. }
  destruct (WriteBlock_tracks ri (meta_entries blks) _ r Ht) as (file & -> & Ht').
  eexists. split; [|split; [exact Ht'|done]]. unfold meta_handle.
  pose proof (zlen_nonneg (images blks ++ filter_image blks)). rewrite wrap_small by lia. done.
Qed.

Lemma finish_index_spec (contents : bytes) (idx : entries) (r : TableBuilder F) :
  tracks r contents -> zlen contents < 2 ^ 64 ->
  tb_index_block (if tb_pending_index_entry r then add_index_entry (FindShortSuccessor (tb_last_key r)) r else r)
    = add_all (newBlockBuilder 1) idx ->
  exists r', finish_index r = (mkBlockHandle (zlen contents) (zlen (build_block 1 idx)), r') /\
    tracks r' (contents ++ block_image (build_block 1 idx)).
Proof.
  intros Ht Hsz Hi. unfold finish_index, tb_ok. rewrite (proj1 Ht). cbn [is_ok]. cbv zeta. rewrite Hi.
  set (r1 := if tb_pending_index_entry r then _ else _).
  assert (tracks r1 contents) as Ht1 by (unfold r1; destruct (tb_pending_index_entry r); done).
  destruct (WriteBlock_tracks 1 idx _ r1 Ht1) as (file & -> & Ht'). eexists. pose proof (zlen_nonneg contents).
  rewrite wrap_small by lia. split; [done|]. exact Ht'.
Qed.

Lemma finish_footer_spec (mh ih : BlockHandle) (contents : bytes) (r : TableBuilder F) :
  tracks r contents -> tracks (finish_footer mh ih r) (contents ++ footer_bytes (mkFooter mh ih)).
Proof.
  intros (Hs & Hc & Ho). unfold finish_footer, tb_ok. rewrite Hs. cbn [is_ok]. cbv zeta.
  rewrite Footer_EncodeTo_app. destruct (wf_Append_spec ([] ++ footer_bytes (mkFooter mh ih)) (tb_file r)) as (f & -> & Ef).
  unfold tracks. simpl. rewrite Ef, Hc, Ho, u64_add, zlen_app. done.
Qed.

(** No part of [Finish] shortens the file. *)
Lemma WriteRawBlock_grows (raw : bytes) (t : CompressionType) (r : TableBuilder F) : size r <= size (snd (WriteRawBlock raw t r)).
Proof.
  destruct (WriteRawBlock_spec raw t r) as (file & -> & Ef). simpl. rewrite Ef, zlen_app.
  pose proof (zlen_nonneg (raw ++ block_trailer raw t)). lia.
Qed.

Lemma WriteBlock_grows (b : BlockBuilder) (r : TableBuilder F) : size r <= size (snd (WriteBlock b r)).
Proof.
  destruct (WriteBlock_spec b r) as (file & -> & Ef). simpl. rewrite Ef, zlen_app.
  match goal with |- _ <= _ + zlen ?x => pose proof (zlen_nonneg x) end. lia.
Qed.

Lemma finish_filter_grows (r : TableBuilder F) : size r <= size (snd (finish_filter r)).
Proof.
  unfold finish_filter. destruct (tb_filter_block r); [|simpl; lia]. destruct (tb_ok r); [|simpl; lia]. apply WriteRawBlock_grows.
Qed.

Lemma finish_metaindex_grows (h : BlockHandle) (r : TableBuilder F) : size r <= size (snd (finish_metaindex h r)).
Proof.
  unfold finish_metaindex. destruct (tb_ok r); [|simpl; lia]. cbv zeta.
  match goal with |- context [WriteBlock ?b r] => pose proof (WriteBlock_grows b r) as Hw; destruct (WriteBlock b r) as [[? ?] ?] end.
  done.
Qed.

Lemma finish_index_grows (r : TableBuilder F) : size r <= size (snd (finish_index r)).
Proof.
  unfold finish_index. destruct (tb_ok r); [|simpl; lia]. cbv zeta. set (r1 := if tb_pending_index_entry r then _ else _).
  assert (size r = size r1) as -> by (unfold r1; destruct (tb_pending_index_entry r); done).
  pose proof (WriteBlock_grows (tb_index_block r1) r1) as Hw. destruct (WriteBlock _ r1) as [[? ?] ?]. done.
Qed.

Lemma finish_footer_grows (mh ih : BlockHandle) (r : TableBuilder F) : size r <= size (finish_footer mh ih r).
Proof.
  unfold finish_footer. destruct (tb_ok r); [|lia]. cbv zeta.
  match goal with |- context [wf_Append ?d _] => destruct (wf_Append_spec d (tb_file r)) as (f & -> & Ef) end.
  simpl. rewrite Ef, zlen_app. match goal with |- _ <= _ + zlen ?x => pose proof (zlen_nonneg x) end. lia.
Qed.

(** After its [Flush], [Finish] has every entry in a block and, unless there is
    none, one index entry to write. *)
Lemma Flush_final (r : TableBuilder F) (blks : list entries) (cur idx : entries) :
  TInv r blks cur idx -> size (Flush r) < 2 ^ 64 ->
  exists blks', TInv (Flush r) blks' [] idx /\ concat blks' = concat blks ++ cur.
Proof.
  intros HT Hsz. destruct (decide (cur = [])) as [->|Hc].
  - rewrite (Flush_idle _ _ _ HT). exists blks. rewrite app_nil_r. done.
  - destruct (Flush_inv _ _ _ _ HT Hc Hsz) as [HF _]. exists (blks ++ [cur]). split; [done|].
    rewrite concat_app. simpl. rewrite app_nil_r. done.
Qed.

(** The index that [Finish] writes. *)
Lemma final_index (r : TableBuilder F) (blks : list entries) (idx : entries) :
  TInv r blks [] idx -> keys_sorted (concat blks) ->
  exists idx', length idx' = length blks /\ index_sep blks [] idx' /\
    tb_index_block (if tb_pending_index_entry r then add_index_entry (FindShortSuccessor (tb_last_key r)) r else r)
      = add_all (newBlockBuilder 1) idx'.
Proof.
  intros HT HS. pose proof (ti_pending _ _ _ _ HT) as Hp. destruct (tb_pending_index_entry r).
  - destruct Hp as [_ (blks' & x & -> & Hl & Hh)].
    assert (x <> []) as Hx by (pose proof (ti_nonempty _ _ _ _ HT) as Hn; apply Forall_app in Hn as [_ Hn]; inversion Hn; done).
    destruct (last_of_blocks blks' x Hx) as (kv & Hkv & Hkvx). pose proof (ti_last _ _ _ _ HT kv Hkv) as Elk.
    exists (idx ++ [(FindShortSuccessor (tb_last_key r), handle_bytes (blk_handle (blks' ++ [x]) (length blks') x))]).
    split_and!; [rewrite !length_app; simpl; lia|apply index_sep_snoc; [done|apply HT| | |]|].
    + intros e He. rewrite concat_app in HS. apply keys_sorted_app in HS as [_ HS]. simpl in HS. rewrite app_nil_r in HS.
      eapply cmp_le_trans; [apply (sorted_last x kv e HS Hkvx He)|]. rewrite Elk. apply succ_ge.
    + intros e He. apply elem_of_nil in He as [].
    + exists kv. split; [by apply last_Some_elem_of|]. right. rewrite Elk. split; [done|]. intros e He. by apply elem_of_nil in He.
    + simpl. rewrite add_all_snoc, (ti_index _ _ _ _ HT), BlockHandle_EncodeTo_app, Hh. done.
  - destruct Hp as [Hl _]. exists idx. split_and!; [done|apply HT|apply HT].
Qed.

Lemma Finish_spec (r : TableBuilder F) (blks : list entries) (cur idx : entries) :
  TInv r blks cur idx -> keys_sorted (concat blks ++ cur) -> size (snd (TableBuilder_Finish r)) < 2 ^ 64 ->
  exists blks' idx', concat blks' = concat blks ++ cur /\ length idx' = length blks' /\ index_sep blks' [] idx' /\
    Forall (fun x => x <> []) blks' /\ fst (TableBuilder_Finish r) = Ok tt /\
    wf_contents (tb_file (snd (TableBuilder_Finish r))) = table_image blks' idx' /\
    FileSize (snd (TableBuilder_Finish r)) = zlen (table_image blks' idx').
Proof.
  intros HT HS. unfold TableBuilder_Finish. cbv zeta.
  pose proof (finish_filter_grows (set_closed (Flush r))) as G1. destruct (finish_filter _) as [fh r1] eqn:E1.
  pose proof (finish_metaindex_grows fh r1) as G2. destruct (finish_metaindex fh r1) as [mh r2] eqn:E2.
  pose proof (finish_index_grows r2) as G3. destruct (finish_index r2) as [ih r3] eqn:E3.
  pose proof (finish_footer_grows mh ih r3) as G4. cbn [fst snd] in *. intros Hsz.
  destruct (Flush_final r blks cur idx HT) as (blks' & HF & Ec); [simpl in G1; lia|].
  rewrite <- Ec in HS. destruct (final_index _ _ _ HF HS) as (idx' & Hl & Hsep & Hib).
  assert (tracks (set_closed (Flush r)) (images blks')) as T0.
  { split_and!; [apply HF|apply HF|]. simpl in G1. pose proof (zlen_nonneg (images blks')).
    rewrite wrap_small; [apply HF|]. rewrite <- (ti_file _ _ _ _ HF). split; [apply zlen_nonneg|lia]. }
  destruct (finish_filter_spec blks' _ T0) as (h & r' & E & T1 & M1 & Hh);
    [apply HF|rewrite <- (proj1 (proj2 T0)); lia|]. rewrite E1 in E. injection E as <- <-.
  destruct M1 as (M1 & M2 & M3 & M4 & M5 & M6).
  destruct (finish_metaindex_spec blks' fh r1 T1) as (r' & E & T2 & N1 & N2 & N3 & N4 & N5 & N6);
    [rewrite M1; apply HF|rewrite M2; apply HF|done|rewrite <- (proj1 (proj2 T1)); lia|].
  rewrite E2 in E. injection E as -> <-.
  destruct (finish_index_spec _ idx' r2 T2) as (r' & E & T3).
  { rewrite <- (proj1 (proj2 T2)); lia. }
  { rewrite <- Hib, N4, M4, N6, M6. simpl tb_pending_index_entry. destruct (tb_pending_index_entry (Flush r)); simpl.
    - rewrite N3, M3, N5, M5. done.
    - rewrite N3, M3. done. }
  rewrite E3 in E. injection E as -> <-. pose proof (finish_footer_spec (meta_handle blks')
    (mkBlockHandle (zlen ((images blks' ++ filter_image blks') ++ block_image (meta_raw blks'))) (zlen (build_block 1 idx'))) _ r3 T3) as (T4a & T4b & T4c).
  exists blks', idx'. assert (forall a b c d e : bytes, (((a ++ b) ++ c) ++ d) ++ e = a ++ b ++ c ++ d ++ e) as Eapp
    by (intros; rewrite <- !app_assoc; done).
  split_and!; [done|done|done|apply HF|done| |].
  - rewrite T4b, Eapp. unfold table_image, table_footer, index_handle. rewrite <- (app_assoc (images blks')). done.
  - unfold FileSize. rewrite T4c. rewrite T4b in Hsz. rewrite wrap_small by (split; [apply zlen_nonneg|done]).
    rewrite Eapp. unfold table_image, table_footer, index_handle. rewrite <- (app_assoc (images blks')). done.
Qed.

End Spec.
