(* ===== verification/Cache.v ===== *)
(** * Cache: the sharded LRU cache ([include/leveldb/cache.h], [util/cache.cc])

    [Cache] is the interface a client sees.  Below it the implementation: a shard
    keeps its handles in a heap of numbered objects, the two doubly-linked lists
    as the lists of their nodes (oldest first) and the hash table as the chains of
    its buckets; the calls of the deleter are recorded.  [CInv] relates reference
    counts, lists and table; [Cache] laws hold for the sharded cache. *)

From S2P Require Import Prelude Hash Logging.

(** ** The interface

    [V] is the type of the cached values, [Hd] of the handles: a handle pins an
    entry until it is released. *)
Class Cache (K Hd V : Type) := {
  ca_Insert : bytes -> V -> Z -> K -> Hd * K;
  ca_Lookup : bytes -> K -> option Hd * K;
  ca_Release : Hd -> K -> K;
  ca_Value : K -> Hd -> option V;
  ca_NewId : K -> Z * K
}.

(** What the cache promises: it answers with nothing that was not inserted under
    the key.  It may forget entries at any time. *)
Class CacheLaws (K Hd V : Type) `{Cache K Hd V} := {
  ca_holds : K -> bytes -> V -> Prop;
  ca_Lookup_sound : forall key c h c', ca_Lookup key c = (Some h, c') -> exists v, ca_Value c' h = Some v /\ ca_holds c key v;
  ca_Lookup_keeps : forall key c r c' k v, ca_Lookup key c = (r, c') -> ca_holds c' k v -> ca_holds c k v;
  ca_Insert_keeps : forall key v n c h c' k v', ca_Insert key v n c = (h, c') -> ca_holds c' k v' ->
    (k = key /\ v' = v) \/ ca_holds c k v';
  ca_Release_keeps : forall h c k v, ca_holds (ca_Release h c) k v -> ca_holds c k v
}.

(** The ids are counted, 64 bits wide, and no other operation hands one out. *)
Class CacheIdLaws (K Hd V : Type) `{CacheLaws K Hd V} := {
  ca_last_id : K -> Z;
  ca_NewId_spec : forall c, exists c', ca_NewId c = (u64 (ca_last_id c + 1), c') /\ ca_last_id c' = u64 (ca_last_id c + 1) /\
    forall k v, ca_holds c' k v -> ca_holds c k v;
  ca_Lookup_id : forall key c, ca_last_id (snd (ca_Lookup key c)) = ca_last_id c;
  ca_Insert_id : forall key v n c, ca_last_id (snd (ca_Insert key v n c)) = ca_last_id c;
  ca_Release_id : forall h c, ca_last_id (ca_Release h c) = ca_last_id c
}.

(** ** Handles and the hash table *)

Record LRUHandle (V : Type) := mkLRUHandle {
  lh_value : V;
  lh_charge : Z;
  lh_in_cache : bool;
  lh_refs : Z;
  lh_hash : Z;
  lh_key : bytes
}.
Arguments mkLRUHandle {V}.
Arguments lh_value {V}.
Arguments lh_charge {V}.
Arguments lh_in_cache {V}.
Arguments lh_refs {V}.
Arguments lh_hash {V}.
Arguments lh_key {V}.

(** [list_] with the chain of every bucket in order. *)
Record HandleTable := mkHandleTable { ht_length : Z; ht_elems : Z; ht_list : list (list nat) }.

Section Model.
Context {V : Type}.

Abbreviation heap := (gmap nat (LRUHandle V)).

Definition bucket (length hash : Z) : nat := Z.to_nat (Z.land hash (length - 1)).

Definition ht_matches (h : heap) (key : bytes) (hash : Z) (id : nat) : bool :=
  match h !! id with
  | Some e => (lh_hash e =? hash) && bool_decide (key = lh_key e)
  | None => false
  end.

(** [*FindPointer(key, hash)]: the first match of the chain. *)
Definition FindPointer (h : heap) (t : HandleTable) (key : bytes) (hash : Z) : option nat :=
  List.find (ht_matches h key hash) (nth (bucket (ht_length t) hash) (ht_list t) []).

Definition ht_Lookup := FindPointer.

(** [while (new_length < elems_) new_length *= 2], in 32 bits. *)
Fixpoint grow (fuel : nat) (elems new_length : Z) : Z :=
  match fuel with
  | O => new_length
  | S fuel => if new_length <? elems then grow fuel elems (u32 (new_length * 2)) else new_length
  end.

Definition hash_of (h : heap) (id : nat) : Z := match h !! id with Some e => lh_hash e | None => 0 end.

(** Every handle is moved to the front of its new chain. *)
Definition rehash (h : heap) (new_length : Z) (ids : list nat) (lists : list (list nat)) : list (list nat) :=
  fold_left (fun lists id => alter (cons id) (bucket new_length (hash_of h id)) lists) ids lists.

Definition ht_Resize (h : heap) (t : HandleTable) : HandleTable :=
  let new_length := grow 32 (ht_elems t) 4 in
  mkHandleTable new_length (ht_elems t)
    (rehash h new_length (concat (ht_list t)) (replicate (Z.to_nat new_length) [])).

Definition newHandleTable : HandleTable := ht_Resize ∅ (mkHandleTable 0 0 []).

(** The new handle takes the place of a match, or the end of the chain. *)
Fixpoint chain_put (old : option nat) (id : nat) (chain : list nat) : list nat :=
  match chain with
  | [] => [id]
  | x :: chain => if decide (old = Some x) then id :: chain else x :: chain_put old id chain
  end.

Definition ht_Insert (h : heap) (t : HandleTable) (id : nat) (key : bytes) (hash : Z) : option nat * HandleTable :=
  let old := FindPointer h t key hash in
  let t' := mkHandleTable (ht_length t) (ht_elems t) (alter (chain_put old id) (bucket (ht_length t) hash) (ht_list t)) in
  match old with
  | Some _ => (old, t')
  | None =>
      let t' := mkHandleTable (ht_length t') (u32 (ht_elems t' + 1)) (ht_list t') in
      (None, if ht_length t' <? ht_elems t' then ht_Resize h t' else t')
  end.

Fixpoint chain_remove (id : nat) (chain : list nat) : list nat :=
  match chain with
  | [] => []
  | x :: chain => if decide (x = id) then chain else x :: chain_remove id chain
  end.

Definition ht_Remove (h : heap) (t : HandleTable) (key : bytes) (hash : Z) : option nat * HandleTable :=
  match FindPointer h t key hash with
  | Some id =>
      (Some id, mkHandleTable (ht_length t) (u32 (ht_elems t - 1))
                  (alter (chain_remove id) (bucket (ht_length t) hash) (ht_list t)))
  | None => (None, t)
  end.

(** ** One shard *)

Record LRUCache := mkLRUCache {
  lc_capacity : Z;
  lc_usage : Z;
  lc_lru : list nat;
  lc_in_use : list nat;
  lc_table : HandleTable;
  lc_heap : heap;
  lc_next : nat;
  lc_deleted : list (nat * bytes * V)
}.

Definition newLRUCache : LRUCache := mkLRUCache 0 0 [] [] newHandleTable ∅ 0 [].

Definition SetCapacity (capacity : Z) (c : LRUCache) : LRUCache :=
  mkLRUCache capacity (lc_usage c) (lc_lru c) (lc_in_use c) (lc_table c) (lc_heap c) (lc_next c) (lc_deleted c).

Definition set_handle (id : nat) (e : LRUHandle V) (c : LRUCache) : LRUCache :=
  mkLRUCache (lc_capacity c) (lc_usage c) (lc_lru c) (lc_in_use c) (lc_table c) (<[id := e]> (lc_heap c)) (lc_next c) (lc_deleted c).

Definition set_lists (lru in_use : list nat) (c : LRUCache) : LRUCache :=
  mkLRUCache (lc_capacity c) (lc_usage c) lru in_use (lc_table c) (lc_heap c) (lc_next c) (lc_deleted c).

Definition set_table (t : HandleTable) (c : LRUCache) : LRUCache :=
  mkLRUCache (lc_capacity c) (lc_usage c) (lc_lru c) (lc_in_use c) t (lc_heap c) (lc_next c) (lc_deleted c).

Definition set_usage (u : Z) (c : LRUCache) : LRUCache :=
  mkLRUCache (lc_capacity c) u (lc_lru c) (lc_in_use c) (lc_table c) (lc_heap c) (lc_next c) (lc_deleted c).

Definition with_refs (n : Z) (e : LRUHandle V) : LRUHandle V :=
  mkLRUHandle (lh_value e) (lh_charge e) (lh_in_cache e) n (lh_hash e) (lh_key e).

Definition with_in_cache (b : bool) (e : LRUHandle V) : LRUHandle V :=
  mkLRUHandle (lh_value e) (lh_charge e) b (lh_refs e) (lh_hash e) (lh_key e).

(** Unlinks the node from the list it is on. *)
Definition LRU_Remove (id : nat) (c : LRUCache) : LRUCache :=
  set_lists (chain_remove id (lc_lru c)) (chain_remove id (lc_in_use c)) c.

(** [LRU_Append(&lru_, e)] and [LRU_Append(&in_use_, e)]: as the newest entry. *)
Definition append_lru (id : nat) (c : LRUCache) : LRUCache := set_lists (lc_lru c ++ [id]) (lc_in_use c) c.
Definition append_in_use (id : nat) (c : LRUCache) : LRUCache := set_lists (lc_lru c) (lc_in_use c ++ [id]) c.

Definition Ref (id : nat) (c : LRUCache) : LRUCache :=
  match lc_heap c !! id with
  | None => c
  | Some e =>
      let c := if (lh_refs e =? 1) && lh_in_cache e then append_in_use id (LRU_Remove id c) else c in
      set_handle id (with_refs (u32 (lh_refs e + 1)) e) c
  end.

(** The deleter is called with the key and the value, and the handle is freed. *)
Definition free_handle (id : nat) (e : LRUHandle V) (c : LRUCache) : LRUCache :=
  mkLRUCache (lc_capacity c) (lc_usage c) (lc_lru c) (lc_in_use c) (lc_table c) (delete id (lc_heap c)) (lc_next c)
    (lc_deleted c ++ [(id, lh_key e, lh_value e)]).

Definition Unref (id : nat) (c : LRUCache) : LRUCache :=
  match lc_heap c !! id with
  | None => c
  | Some e =>
      let refs := u32 (lh_refs e - 1) in
      let c := set_handle id (with_refs refs e) c in
      if refs =? 0 then free_handle id e c
      else if lh_in_cache e && (refs =? 1) then append_lru id (LRU_Remove id c)
      else c
  end.

Definition FinishErase (e : option nat) (c : LRUCache) : LRUCache :=
  match e with
  | None => c
  | Some id =>
      match lc_heap c !! id with
      | None => c
      | Some h =>
          let c := LRU_Remove id c in
          let c := set_handle id (with_in_cache false h) c in
          let c := set_usage (u64 (lc_usage c - lh_charge h)) c in
          Unref id c
      end
  end.

Definition lru_Lookup (key : bytes) (hash : Z) (c : LRUCache) : option nat * LRUCache :=
  match ht_Lookup (lc_heap c) (lc_table c) key hash with
  | Some id => (Some id, Ref id c)
  | None => (None, c)
  end.

Definition lru_Release (id : nat) (c : LRUCache) : LRUCache := Unref id c.

(** The oldest unused entry leaves the table and the cache. *)
Definition evict_oldest (old : nat) (c : LRUCache) : LRUCache :=
  match lc_heap c !! old with
  | None => c
  | Some h =>
      let '(e, t) := ht_Remove (lc_heap c) (lc_table c) (lh_key h) (lh_hash h) in
      FinishErase e (set_table t c)
  end.

(** [while (usage_ > capacity_ && lru_.next != &lru_)]. *)
Fixpoint evict_loop (fuel : nat) (c : LRUCache) : LRUCache :=
  match fuel with
  | O => c
  | S fuel =>
      match lc_lru c with
      | [] => c
      | old :: _ => if lc_capacity c <? lc_usage c then evict_loop fuel (evict_oldest old c) else c
      end
  end.

Definition new_handle (e : LRUHandle V) (c : LRUCache) : nat * LRUCache :=
  (lc_next c, mkLRUCache (lc_capacity c) (lc_usage c) (lc_lru c) (lc_in_use c) (lc_table c)
                (<[lc_next c := e]> (lc_heap c)) (S (lc_next c)) (lc_deleted c)).

Definition lru_Insert (key : bytes) (hash : Z) (value : V) (charge : Z) (c : LRUCache) : nat * LRUCache :=
  let e := mkLRUHandle value charge false 1 hash key in
  let '(id, c) := new_handle e c in
  let c :=
    if 0 <? lc_capacity c then
      let c := set_handle id (with_in_cache true (with_refs 2 e)) c in
      let c := append_in_use id c in
      let c := set_usage (u64 (lc_usage c + charge)) c in
      let '(old, t) := ht_Insert (lc_heap c) (lc_table c) id key hash in
      FinishErase old (set_table t c)
    else c in
  (id, evict_loop (length (lc_lru c)) c).

Definition lru_Erase (key : bytes) (hash : Z) (c : LRUCache) : LRUCache :=
  let '(e, t) := ht_Remove (lc_heap c) (lc_table c) key hash in
  FinishErase e (set_table t c).

(** [while (lru_.next != &lru_)]. *)
Fixpoint prune_loop (fuel : nat) (c : LRUCache) : LRUCache :=
  match fuel with
  | O => c
  | S fuel => match lc_lru c with [] => c | e :: _ => prune_loop fuel (evict_oldest e c) end
  end.

Definition lru_Prune (c : LRUCache) : LRUCache := prune_loop (length (lc_lru c)) c.

(** [~LRUCache]: the entries of [lru_] are unreferenced, oldest first. *)
Definition destroy_LRUCache (c : LRUCache) : LRUCache :=
  fold_left (fun c id =>
    match lc_heap c !! id with
    | Some e => Unref id (set_handle id (with_in_cache false e) c)
    | None => c
    end) (lc_lru c) c.

Definition lru_TotalCharge (c : LRUCache) : Z := lc_usage c.

(** ** The sharded cache *)

Definition kNumShardBits : Z := 4.
Definition kNumShards : Z := Z.shiftl 1 kNumShardBits.

Record ShardedLRUCache := mkSharded { sc_shard : list LRUCache; sc_last_id : Z }.

Definition HashSlice (key : bytes) : Z := Hash key 0.
Definition Shard (hash : Z) : nat := Z.to_nat (Z.shiftr hash (32 - kNumShardBits)).

Definition NewLRUCache (capacity : Z) : ShardedLRUCache :=
  let per_shard := u64 (capacity + (kNumShards - 1)) / kNumShards in
  mkSharded (replicate (Z.to_nat kNumShards) (SetCapacity per_shard newLRUCache)) 0.

(** A handle is a pointer to an object of a shard. *)
Record Handle := mkHandle { hd_shard : nat; hd_id : nat }.

Definition shard_at (c : ShardedLRUCache) (i : nat) : LRUCache := nth i (sc_shard c) newLRUCache.

Definition set_shard (i : nat) (s : LRUCache) (c : ShardedLRUCache) : ShardedLRUCache :=
  mkSharded (<[i := s]> (sc_shard c)) (sc_last_id c).

Definition sc_Insert (key : bytes) (value : V) (charge : Z) (c : ShardedLRUCache) : Handle * ShardedLRUCache :=
  let hash := HashSlice key in
  let i := Shard hash in
  let '(id, s) := lru_Insert key hash value charge (shard_at c i) in
  (mkHandle i id, set_shard i s c).

Definition sc_Lookup (key : bytes) (c : ShardedLRUCache) : option Handle * ShardedLRUCache :=
  let hash := HashSlice key in
  let i := Shard hash in
  let '(id, s) := lru_Lookup key hash (shard_at c i) in
  (mkHandle i <$> id, set_shard i s c).

Definition sc_Release (h : Handle) (c : ShardedLRUCache) : ShardedLRUCache :=
  let i := Shard (hash_of (lc_heap (shard_at c (hd_shard h))) (hd_id h)) in
  set_shard i (lru_Release (hd_id h) (shard_at c i)) c.

Definition sc_Erase (key : bytes) (c : ShardedLRUCache) : ShardedLRUCache :=
  let hash := HashSlice key in
  let i := Shard hash in
  set_shard i (lru_Erase key hash (shard_at c i)) c.

Definition sc_Value (c : ShardedLRUCache) (h : Handle) : option V :=
  lh_value <$> lc_heap (shard_at c (hd_shard h)) !! hd_id h.

Definition sc_NewId (c : ShardedLRUCache) : Z * ShardedLRUCache :=
  let id := u64 (sc_last_id c + 1) in (id, mkSharded (sc_shard c) id).

Definition sc_Prune (c : ShardedLRUCache) : ShardedLRUCache := mkSharded (map lru_Prune (sc_shard c)) (sc_last_id c).

Definition sc_TotalCharge (c : ShardedLRUCache) : Z :=
  fold_left (fun total s => u64 (total + lru_TotalCharge s)) (sc_shard c) 0.

End Model.
Arguments LRUCache V : clear implicits.
Arguments ShardedLRUCache V : clear implicits.

#[export] Instance ShardedCache {V : Type} : Cache (ShardedLRUCache V) Handle V := {
  ca_Insert := sc_Insert;
  ca_Lookup := sc_Lookup;
  ca_Release := sc_Release;
  ca_Value := sc_Value;
  ca_NewId := sc_NewId
}.

(** ** The hash table: chains as a set of handles *)

Lemma alter_split {A} (l : list A) (i : nat) (x : A) :
  l !! i = Some x -> exists l1 l2, l = l1 ++ x :: l2 /\ forall f, alter f i l = l1 ++ f x :: l2.
Proof.
  revert i. induction l as [|a l IH]; intros [|i] E; simplify_eq/=.
  - exists [], l. done.
  - destruct (IH i E) as (l1 & l2 & -> & Hf). exists (a :: l1), l2. split; [done|]. intros f. cbn. f_equal. apply Hf.
Qed.

Lemma chain_remove_perm (id : nat) (l : list nat) : id ∈ l -> l ≡ₚ id :: chain_remove id l.
Proof.
  induction l as [|x l IH]; intros Hin; [by apply not_elem_of_nil in Hin|]. cbn.
  case_decide as Ex; [by subst|]. apply elem_of_cons in Hin as [->|Hin]; [done|].
  etrans; [apply Permutation_cons, (IH Hin); reflexivity|]. apply Permutation_swap.
Qed.

Lemma chain_remove_absent (id : nat) (l : list nat) : id ∉ l -> chain_remove id l = l.
Proof.
  induction l as [|x l IH]; intros Hn; [done|]. cbn. apply not_elem_of_cons in Hn as [Hx Hl].
  rewrite decide_False by congruence. f_equal. auto.
Qed.

Lemma chain_remove_incl (id x : nat) (l : list nat) : x ∈ chain_remove id l -> x ∈ l.
Proof.
  induction l as [|y l IH]; cbn; [done|]. case_decide; intros Hin; [by apply elem_of_cons; right|].
  apply elem_of_cons in Hin as [->|Hin]; apply elem_of_cons; auto.
Qed.

Lemma chain_put_None (id : nat) (l : list nat) : chain_put None id l = l ++ [id].
Proof. induction l as [|x l IH]; [done|]. cbn. rewrite decide_False by done. f_equal. done. Qed.

Lemma chain_put_Some (old id : nat) (l : list nat) : old ∈ l -> old :: chain_put (Some old) id l ≡ₚ id :: l.
Proof.
  induction l as [|x l IH]; intros Hin; [by apply not_elem_of_nil in Hin|]. cbn.
  case_decide as Ex; [injection Ex as ->; apply Permutation_swap|].
  apply elem_of_cons in Hin as [->|Hin]; [done|].
  rewrite Permutation_swap, (IH Hin). apply Permutation_swap.
Qed.

Lemma chain_put_elem (old : option nat) (id x : nat) (l : list nat) : x ∈ chain_put old id l -> x = id \/ x ∈ l.
Proof.
  induction l as [|y l IH]; cbn.
  - intros Hx. left. by apply list_elem_of_singleton in Hx.
  - case_decide; intros Hin; apply elem_of_cons in Hin as [->|Hin]; rewrite elem_of_cons; auto. destruct (IH Hin); auto.
Qed.

Lemma concat_elem {A} (x : A) (ls : list (list A)) : x ∈ concat ls <-> exists i l, ls !! i = Some l /\ x ∈ l.
Proof.
  induction ls as [|l ls IH]; cbn.
  - split; [by intros ?%not_elem_of_nil|]. intros (i & l & E & _). done.
  - rewrite elem_of_app, IH. split.
    + intros [Hx|(i & l' & E & Hx)]; [exists 0%nat, l|exists (S i), l']; done.
    + intros ([|i] & l' & E & Hx); simplify_eq/=; [by left|]. right. eauto.
Qed.

Lemma concat_alter {A} (ls : list (list A)) (i : nat) (l : list A) (f : list A -> list A) :
  ls !! i = Some l -> exists rest, concat ls ≡ₚ l ++ rest /\ concat (alter f i ls) ≡ₚ f l ++ rest.
Proof.
  intros E. destruct (alter_split ls i l E) as (l1 & l2 & -> & Hf). exists (concat l1 ++ concat l2).
  rewrite Hf, !concat_app. cbn. split; rewrite !app_assoc; f_equiv; apply Permutation_app_comm.
Qed.

#[export] Instance zlen_perm {A} : Proper (Permutation ==> eq) (@zlen A).
Proof. intros l l' Hp. unfold zlen. by rewrite Hp. Qed.

Section TableFacts.
Context {V : Type}.
Implicit Types (h : gmap nat (LRUHandle V)) (t : HandleTable).

Definition handles t : list nat := concat (ht_list t).

(** The buckets exist and every handle is in the bucket of its hash. *)
Record TOk h t : Prop := {
  to_length : 1 <= ht_length t;
  to_list : length (ht_list t) = Z.to_nat (ht_length t);
  to_bucket : forall i chain id, ht_list t !! i = Some chain -> id ∈ chain -> i = bucket (ht_length t) (hash_of h id)
}.

Lemma bucket_lt (n hash : Z) : 1 <= n -> (bucket n hash < Z.to_nat n)%nat.
Proof.
  intros Hn. unfold bucket. assert (Z.land hash (n - 1) <= n - 1); [|lia].
  pose proof (Z.add_lor_land (Z.land hash (n - 1)) (Z.ldiff (n - 1) hash)) as Ha.
  assert (Z.land (Z.land hash (n - 1)) (Z.ldiff (n - 1) hash) = 0) as Hz.
  { apply Zbits_inj_nonneg. intros i Hi. rewrite !Z.land_spec, Z.ldiff_spec, Z.bits_0. destruct (Z.testbit (n - 1) i), (Z.testbit hash i); done. }
  assert (Z.lor (Z.land hash (n - 1)) (Z.ldiff (n - 1) hash) = n - 1) as Ho.
  { apply Zbits_inj_nonneg. intros i Hi. rewrite Z.lor_spec, Z.land_spec, Z.ldiff_spec. destruct (Z.testbit (n - 1) i), (Z.testbit hash i); done. }
  assert (0 <= Z.ldiff (n - 1) hash) by (apply Z.ldiff_nonneg; left; lia). lia.
Qed.

Lemma bucket_chain h t hash : TOk h t -> exists chain, ht_list t !! bucket (ht_length t) hash = Some chain.
Proof. intros [H1 H2 _]. apply lookup_lt_is_Some_2. rewrite H2. apply bucket_lt. done. Qed.

Lemma TOk_ext h h' t : (forall id, id ∈ handles t -> hash_of h' id = hash_of h id) -> TOk h t -> TOk h' t.
Proof.
  intros He [H1 H2 H3]. split; [done..|]. intros i chain id E Hid. rewrite He; [eauto|]. apply concat_elem. eauto.
Qed.

Lemma FindPointer_Some h t key hash id : FindPointer h t key hash = Some id -> id ∈ handles t /\ exists e, h !! id = Some e /\ lh_hash e = hash /\ lh_key e = key.
Proof.
  unfold FindPointer. intros E. apply List.find_some in E as [Hin Hm]. apply list_elem_of_In in Hin.
  unfold ht_matches in Hm. destruct (h !! id) as [e|] eqn:Ei; [|done]. apply andb_prop in Hm as [Hh Hk].
  apply Z.eqb_eq in Hh. apply bool_decide_eq_true in Hk. split; [|by exists e].
  apply concat_elem. destruct (ht_list t !! bucket (ht_length t) hash) as [chain|] eqn:Ec.
  - exists (bucket (ht_length t) hash), chain. split; [done|]. by rewrite (nth_lookup_Some _ _ _ _ Ec) in Hin.
  - apply lookup_ge_None in Ec. rewrite nth_overflow in Hin by done. by apply not_elem_of_nil in Hin.
Qed.

Lemma FindPointer_None h t key hash id e :
  TOk h t -> FindPointer h t key hash = None -> id ∈ handles t -> h !! id = Some e -> lh_hash e = hash -> lh_key e <> key.
Proof.
  intros Ht E Hin Ei Eh Ek. apply concat_elem in Hin as (i & chain & Ec & Hin).
  pose proof (to_bucket _ _ Ht i chain id Ec Hin) as Hi. unfold hash_of in Hi. rewrite Ei, Eh in Hi. subst i.
  unfold FindPointer in E. rewrite (nth_lookup_Some _ _ _ _ Ec) in E.
  apply list_elem_of_In in Hin. pose proof (List.find_none _ _ E id Hin) as Hm. unfold ht_matches in Hm.
  rewrite Ei, Eh, Z.eqb_refl, bool_decide_eq_true_2 in Hm by done. done.
Qed.

Lemma grow_spec (elems : Z) (fuel : nat) (k : Z) :
  0 <= k <= 31 -> elems <= 2 ^ 31 -> 31 - k < Z.of_nat fuel -> elems <= grow fuel elems (2 ^ k) /\ 1 <= grow fuel elems (2 ^ k) <= 2 ^ 31.
Proof.
  revert k. induction fuel as [|fuel IH]; intros k Hk He Hf; [lia|]. cbn [grow].
  destruct (Z.ltb_spec (2 ^ k) elems) as [Hlt|Hge].
  - assert (k < 31). { destruct (Z.eq_dec k 31) as [->|]; lia. }
    assert (2 ^ k * 2 = 2 ^ (k + 1)) as -> by (rewrite Z.pow_add_r by lia; lia).
    rewrite wrap_small; [apply IH; lia|]. split; [lia|]. apply Z.pow_lt_mono_r; lia.
  - assert (2 ^ k <= 2 ^ 31) by (apply Z.pow_le_mono_r; lia). lia.
Qed.

Lemma rehash_spec h (n : Z) (ids : list nat) (lists : list (list nat)) :
  1 <= n -> length lists = Z.to_nat n ->
  (forall i chain id, lists !! i = Some chain -> id ∈ chain -> i = bucket n (hash_of h id)) ->
  concat (rehash h n ids lists) ≡ₚ ids ++ concat lists /\ length (rehash h n ids lists) = Z.to_nat n /\
  (forall i chain id, rehash h n ids lists !! i = Some chain -> id ∈ chain -> i = bucket n (hash_of h id)).
Proof.
  revert lists. induction ids as [|x ids IH]; intros lists Hn Hl Hb; [done|].
  unfold rehash in *. rewrite fold_left_cons.
  assert (exists chain, lists !! bucket n (hash_of h x) = Some chain) as [chain Ec]
    by (apply lookup_lt_is_Some_2; rewrite Hl; apply bucket_lt; done).
  destruct (IH (alter (cons x) (bucket n (hash_of h x)) lists)) as (H1 & H2 & H3); [done| |clear IH|].
  - rewrite length_alter. done.
  - intros i ch id E Hid. rewrite list_lookup_alter in E. case_decide as Ei.
    + subst i. rewrite Ec in E. cbn in E. injection E as <-. apply elem_of_cons in Hid as [->|Hid]; [done|eauto].
    + eauto.
  - split; [|done]. rewrite H1. destruct (concat_alter lists _ chain (cons x) Ec) as (rest & Ha & Hb').
    rewrite Hb', Ha. cbn. symmetry. apply Permutation_middle.
Qed.

Lemma handles_Resize h t : ht_elems t <= 2 ^ 31 -> TOk h (ht_Resize h t) /\ handles (ht_Resize h t) ≡ₚ handles t.
Proof.
  intros He. destruct (grow_spec (ht_elems t) 32 2) as [_ Hg]; [lia..|]. change (2 ^ 2) with 4 in Hg.
  unfold ht_Resize, handles. cbv zeta.
  set (n := grow 32 (ht_elems t) 4) in *. clearbody n.
  destruct (rehash_spec h n (concat (ht_list t)) (replicate (Z.to_nat n) [])) as (H1 & H2 & H3); [lia|apply length_replicate| |].
  - intros i chain id E Hid. apply lookup_replicate in E as [-> _]. by apply not_elem_of_nil in Hid.
  - split; [split; cbn; [lia|done|done]|]. cbn. rewrite H1.
    assert (concat (replicate (Z.to_nat n) ([] : list nat)) = []) as ->; [|by rewrite app_nil_r].
    clear. induction (Z.to_nat n); done.
Qed.

Lemma ht_Insert_spec h t id key hash old t' :
  TOk h t -> hash_of h id = hash -> ht_elems t = zlen (handles t) -> ht_elems t < 2 ^ 31 -> ht_Insert h t id key hash = (old, t') ->
  old = FindPointer h t key hash /\ TOk h t' /\ ht_elems t' = zlen (handles t') /\
  match old with Some o => o :: handles t' ≡ₚ id :: handles t | None => handles t' ≡ₚ id :: handles t end.
Proof.
  intros Ht Hh He Hlt E. unfold ht_Insert in E. cbv zeta in E.
  destruct (bucket_chain h t hash Ht) as [chain Ec].
  destruct (concat_alter _ _ chain (chain_put (FindPointer h t key hash) id) Ec) as (rest & Ha & Hb).
  assert (TOk h (mkHandleTable (ht_length t) (ht_elems t) (alter (chain_put (FindPointer h t key hash) id) (bucket (ht_length t) hash) (ht_list t)))) as Hok.
  { destruct Ht as [H1 H2 H3]. split; cbn; [done|by rewrite length_alter|]. intros i ch x E' Hx.
    rewrite list_lookup_alter in E'. case_decide as Ei; [|eauto]. subst i. rewrite Ec in E'. cbn in E'. injection E' as <-.
    apply chain_put_elem in Hx as [->|Hx]; [by rewrite Hh|eauto]. }
  destruct (FindPointer h t key hash) as [o|] eqn:Ef.
  - injection E as <- <-. split; [done|]. split; [done|].
    assert (o ∈ chain) as Ho.
    { unfold FindPointer in Ef. apply List.find_some in Ef as [Hin _]. apply list_elem_of_In in Hin.
      by rewrite (nth_lookup_Some _ _ _ _ Ec) in Hin. }
    assert (o :: concat (alter (chain_put (Some o) id) (bucket (ht_length t) hash) (ht_list t)) ≡ₚ id :: concat (ht_list t)) as Hp.
    { rewrite Hb, Ha, !app_comm_cons, (chain_put_Some o id chain Ho). done. }
    split; [|done]. cbn. rewrite He. unfold handles, zlen. cbn. apply Permutation_length in Hp. cbn in Hp. f_equal. lia.
  - injection E as <- <-. rewrite chain_put_None in Hb.
    assert (concat (alter (chain_put None id) (bucket (ht_length t) hash) (ht_list t)) ≡ₚ id :: concat (ht_list t)) as Hp.
    { rewrite Hb, Ha, <- app_assoc. cbn. symmetry. apply Permutation_middle. }
    assert (u32 (ht_elems t + 1) = 1 + zlen (handles t)) as Hu.
    { rewrite wrap_small; [lia|]. pose proof (zlen_nonneg (handles t)). lia. }
    split; [done|]. set (l' := alter _ _ _) in *. clearbody l'.
    cbn [ht_length ht_elems]. destruct (_ <? _).
    + destruct (handles_Resize h (mkHandleTable (ht_length t) (u32 (ht_elems t + 1)) l')) as [R1 R2]; [cbn; rewrite Hu; lia|].
      assert (handles (mkHandleTable (ht_length t) (u32 (ht_elems t + 1)) l') = concat l') as Hl by done.
      rewrite Hl, Hp in R2. split; [done|]. split; [|exact R2]. rewrite R2, zlen_cons. exact Hu.
    + destruct Hok as [H1 H2 H3]. split; [split; done|]. unfold handles at 1 2. cbn [ht_list ht_elems]. split; [|exact Hp].
      rewrite Hp, zlen_cons. exact Hu.
Qed.

Lemma ht_Remove_spec h t key hash e t' :
  TOk h t -> ht_elems t = zlen (handles t) -> ht_elems t <= 2 ^ 31 -> ht_Remove h t key hash = (e, t') ->
  e = FindPointer h t key hash /\ TOk h t' /\ ht_elems t' = zlen (handles t') /\
  match e with Some id => handles t ≡ₚ id :: handles t' | None => t' = t end.
Proof.
  intros Ht He Hlt E. unfold ht_Remove in E. destruct (FindPointer h t key hash) as [id|] eqn:Ef.
  - injection E as <- <-. split; [done|]. destruct (bucket_chain h t hash Ht) as [chain Ec].
    destruct (concat_alter _ _ chain (chain_remove id) Ec) as (rest & Ha & Hb).
    assert (id ∈ chain) as Hin.
    { unfold FindPointer in Ef. apply List.find_some in Ef as [Hin _]. apply list_elem_of_In in Hin.
      by rewrite (nth_lookup_Some _ _ _ _ Ec) in Hin. }
    assert (handles t ≡ₚ id :: concat (alter (chain_remove id) (bucket (ht_length t) hash) (ht_list t))) as Hp.
    { unfold handles. rewrite Ha, Hb. rewrite (chain_remove_perm id chain Hin) at 1. done. }
    split; [|split; [|exact Hp]].
    + destruct Ht as [H1 H2 H3]. split; cbn; [done|by rewrite length_alter|]. intros i ch x E' Hx.
      rewrite list_lookup_alter in E'. case_decide as Ei; [|eauto]. subst i. rewrite Ec in E'. cbn in E'. injection E' as <-.
      apply chain_remove_incl in Hx. eauto.
    + apply Permutation_length in Hp. cbn in Hp. unfold handles, zlen in *. cbn. rewrite wrap_small; lia.
  - injection E as <- <-. done.
Qed.
End TableFacts.

(** ** The cache forgets, and never makes up *)

Section Keeps.
Context {V : Type}.
Implicit Types (c : LRUCache V) (h : gmap nat (LRUHandle V)) (t : HandleTable).

Definition entry h (id : nat) : option (bytes * V) := (fun e => (lh_key e, lh_value e)) <$> h !! id.

Definition holds c (key : bytes) (v : V) : Prop :=
  exists id, id ∈ handles (lc_table c) /\ entry (lc_heap c) id = Some (key, v).

(** [c'] has no handle that [c] has not, and none with other contents. *)
Definition keeps c c' : Prop :=
  (forall id, id ∈ handles (lc_table c') -> id ∈ handles (lc_table c)) /\
  (forall id kv, entry (lc_heap c') id = Some kv -> entry (lc_heap c) id = Some kv).

#[export] Instance keeps_preorder : PreOrder keeps.
Proof. split; [done|]. intros a b c [H1 H2] [H3 H4]. split; eauto. Qed.

Lemma keeps_holds c c' key v : keeps c c' -> holds c' key v -> holds c key v.
Proof. intros [H1 H2] (id & Hin & He). exists id. auto. Qed.

Lemma set_handle_keeps c id e e' : lc_heap c !! id = Some e -> lh_key e' = lh_key e -> lh_value e' = lh_value e -> keeps c (set_handle id e' c).
Proof.
  intros He Hk Hv. split; [done|]. intros id' kv. unfold entry. cbn. destruct (decide (id = id')) as [<-|Hn].
  - rewrite lookup_insert_eq. rewrite He. cbn. congruence.
  - rewrite lookup_insert_ne by done. done.
Qed.

Lemma free_handle_keeps c id e : keeps c (free_handle id e c).
Proof.
  split; [done|]. intros id' kv. unfold entry. cbn. destruct (decide (id = id')) as [<-|Hn].
  - rewrite lookup_delete_eq. done.
  - rewrite lookup_delete_ne by done. done.
Qed.

Lemma Ref_keeps c id : keeps c (Ref id c).
Proof.
  unfold Ref. destruct (lc_heap c !! id) as [e|] eqn:He; [|done]. cbv zeta. destruct (_ && _).
  - change (keeps (append_in_use id (LRU_Remove id c)) (set_handle id (with_refs (u32 (lh_refs e + 1)) e) (append_in_use id (LRU_Remove id c)))).
    by apply (set_handle_keeps _ _ e).
  - by apply (set_handle_keeps _ _ e).
Qed.

Lemma Unref_keeps c id : keeps c (Unref id c).
Proof.
  unfold Unref. destruct (lc_heap c !! id) as [e|] eqn:He; [|done]. cbv zeta.
  etrans; [by apply (set_handle_keeps c id e (with_refs (u32 (lh_refs e - 1)) e))|].
  destruct (_ =? 0); [apply free_handle_keeps|]. destruct (_ && _); done.
Qed.

Lemma FinishErase_keeps c oid : keeps c (FinishErase oid c).
Proof.
  unfold FinishErase. destruct oid as [id|]; [|done]. destruct (lc_heap c !! id) as [e|] eqn:He; [|done].
  etrans; [|apply Unref_keeps]. by apply (set_handle_keeps (LRU_Remove id c) id e (with_in_cache false e)).
Qed.

Lemma concat_alter_elem {A} (x : A) (P : A -> Prop) (f : list A -> list A) (i : nat) (ls : list (list A)) :
  (forall l y, y ∈ f l -> P y \/ y ∈ l) -> x ∈ concat (alter f i ls) -> P x \/ x ∈ concat ls.
Proof.
  intros Hf Hin. apply concat_elem in Hin as (j & l & E & Hx). rewrite list_lookup_alter in E. case_decide as Ej.
  - subst j. destruct (ls !! i) as [l0|] eqn:E0; [|done]. injection E as <-. destruct (Hf l0 x Hx); [by left|].
    right. apply concat_elem. eauto.
  - right. apply concat_elem. eauto.
Qed.

Lemma ht_Remove_incl h t key hash e t' id : ht_Remove h t key hash = (e, t') -> id ∈ handles t' -> id ∈ handles t.
Proof.
  unfold ht_Remove. destruct (FindPointer _ _ _ _) as [x|]; intros E; injection E as <- <-; [|done].
  intros Hin. apply (concat_alter_elem id (fun _ => False)) in Hin as [[]|Hin]; [done|].
  intros l y Hy. right. eapply chain_remove_incl. done.
Qed.

Lemma rehash_incl h n ids lists id : id ∈ concat (rehash h n ids lists) -> id ∈ ids \/ id ∈ concat lists.
Proof.
  unfold rehash. revert lists. induction ids as [|x ids IH]; intros lists Hin; [by right|].
  rewrite fold_left_cons in Hin. apply IH in Hin as [Hin|Hin]; [left; by apply elem_of_cons; right|].
  apply (concat_alter_elem id (eq x)) in Hin as [<-|Hin]; [left; by apply elem_of_cons; left|by right|].
  intros l y Hy. apply elem_of_cons in Hy as [->|Hy]; auto.
Qed.

Lemma ht_Resize_incl h t id : id ∈ handles (ht_Resize h t) -> id ∈ handles t.
Proof.
  intros Hin. apply rehash_incl in Hin as [Hin|Hin]; [done|]. exfalso. apply concat_elem in Hin as (i & l & E & Hx).
  apply lookup_replicate in E as [-> _]. by apply not_elem_of_nil in Hx.
Qed.

Lemma ht_Insert_incl h t id key hash old t' x : ht_Insert h t id key hash = (old, t') -> x ∈ handles t' -> x = id \/ x ∈ handles t.
Proof.
  unfold ht_Insert. cbv zeta. intros E Hin.
  assert (x ∈ concat (alter (chain_put (FindPointer h t key hash) id) (bucket (ht_length t) hash) (ht_list t))) as Hx.
  { destruct (FindPointer h t key hash); injection E as <- <-; [done|]. destruct (_ <? _); [by apply ht_Resize_incl in Hin|done]. }
  apply (concat_alter_elem x (fun y => y = id)) in Hx; [done|]. intros l y. apply chain_put_elem.
Qed.

Lemma evict_oldest_keeps c old : keeps c (evict_oldest old c).
Proof.
  unfold evict_oldest. destruct (lc_heap c !! old) as [h|]; [|done].
  destruct (ht_Remove _ _ _ _) as [e t] eqn:E. etrans; [|apply FinishErase_keeps].
  split; [|done]. cbn. intros id. by apply (ht_Remove_incl _ _ _ _ _ _ _ E).
Qed.

Lemma evict_loop_keeps fuel c : keeps c (evict_loop fuel c).
Proof.
  revert c. induction fuel as [|fuel IH]; intros c; [done|]. cbn. destruct (lc_lru c); [done|].
  destruct (_ <? _); [|done]. etrans; [|apply IH]. apply evict_oldest_keeps.
Qed.

Lemma lru_Insert_keeps key hash v charge c id c' k v' :
  lru_Insert key hash v charge c = (id, c') -> holds c' k v' -> (k = key /\ v' = v) \/ holds c k v'.
Proof.
  unfold lru_Insert, new_handle. cbv zeta. cbn [lc_capacity]. intros E Hh. injection E as Ei Ec. subst c'.
  eapply keeps_holds in Hh; [|apply evict_loop_keeps].
  assert (forall x kv e, lh_key e = key -> lh_value e = v -> entry (<[lc_next c := e]> (lc_heap c)) x = Some kv ->
    kv = (key, v) \/ (x <> lc_next c /\ entry (lc_heap c) x = Some kv)) as Hx.
  { intros x kv e Hk Hv. unfold entry. destruct (decide (lc_next c = x)) as [<-|Hn].
    - rewrite lookup_insert_eq. cbn. intros [= <-]. left. by rewrite Hk, Hv.
    - rewrite lookup_insert_ne by done. right. done. }
  destruct (0 <? lc_capacity c).
  - destruct (ht_Insert _ _ _ _ _) as [old t] eqn:Et. eapply keeps_holds in Hh; [|apply FinishErase_keeps].
    destruct Hh as (x & Hin & He). cbn in Hin, He. rewrite insert_insert_eq in He.
    apply Hx in He as [[= -> ->]|[Hn He]]; [by left| |done..].
    apply (ht_Insert_incl _ _ _ _ _ _ _ _ Et) in Hin as [->|Hin]; [done|]. right. exists x. done.
  - destruct Hh as (x & Hin & He). cbn in Hin, He.
    apply Hx in He as [[= -> ->]|[_ He]]; [by left| |done..]. right. exists x. done.
Qed.

Lemma lru_Lookup_keeps key hash c r c' : lru_Lookup key hash c = (r, c') -> keeps c c'.
Proof. unfold lru_Lookup. destruct (ht_Lookup _ _ _ _); intros E; injection E as <- <-; [apply Ref_keeps|done]. Qed.

Lemma Ref_entry c id x : entry (lc_heap (Ref id c)) x = entry (lc_heap c) x.
Proof.
  unfold Ref. destruct (lc_heap c !! id) as [e|] eqn:He; [|done]. cbv zeta. unfold entry.
  destruct (decide (id = x)) as [<-|Hn]; destruct (_ && _); cbn.
  all: try (rewrite lookup_insert_eq, He; done).
  all: rewrite lookup_insert_ne by done; done.
Qed.

Lemma lru_Lookup_sound key hash c id c' :
  lru_Lookup key hash c = (Some id, c') -> exists v, entry (lc_heap c') id = Some (key, v) /\ holds c key v.
Proof.
  unfold lru_Lookup. destruct (ht_Lookup _ _ _ _) as [x|] eqn:E; intros E'; [|done]. injection E' as -> <-.
  apply FindPointer_Some in E as (Hin & e & He & _ & Hk). exists (lh_value e). rewrite Ref_entry.
  assert (entry (lc_heap c) id = Some (key, lh_value e)) by (unfold entry; rewrite He; cbn; by rewrite Hk).
  split; [done|]. exists id. done.
Qed.
End Keeps.

(** The sharded cache keeps the promise of the interface. *)
Section ShardedLaws.
Context {V : Type}.

Definition sc_holds (c : ShardedLRUCache V) (key : bytes) (v : V) : Prop :=
  exists i s, sc_shard c !! i = Some s /\ holds s key v.

Lemma set_shard_holds (c : ShardedLRUCache V) i s key v :
  sc_holds (set_shard i s c) key v -> (exists s0, sc_shard c !! i = Some s0 /\ holds s key v) \/ sc_holds c key v.
Proof.
  intros (j & s' & E & Hh). cbn in E. rewrite list_lookup_insert in E. case_decide as Ej; [|right; exists j, s'; done].
  destruct Ej as [-> Hlt]. injection E as <-. left. apply lookup_lt_is_Some_2 in Hlt as [s0 E0]. eauto.
Qed.

Lemma shard_at_lookup (c : ShardedLRUCache V) i s : sc_shard c !! i = Some s -> shard_at c i = s.
Proof. apply nth_lookup_Some. Qed.

Lemma set_shard_keeps (c : ShardedLRUCache V) i s key v :
  keeps (shard_at c i) s -> sc_holds (set_shard i s c) key v -> sc_holds c key v.
Proof.
  intros Hk Hh. apply set_shard_holds in Hh as [(s0 & E & Hh)|Hh]; [|done]. rewrite (shard_at_lookup c i s0 E) in Hk.
  exists i, s0. split; [done|]. eapply keeps_holds; done.
Qed.

#[export, refine] Instance ShardedCacheLaws : CacheLaws (ShardedLRUCache V) Handle V := { ca_holds := sc_holds }.
Proof.
  - intros key c h c' E. cbn in E. unfold sc_Lookup in E. cbv zeta in E.
    destruct (lru_Lookup _ _ _) as [[id|] s] eqn:El; [|done]. injection E as <- <-.
    destruct (sc_shard c !! Shard (HashSlice key)) as [s0|] eqn:Es.
    + pose proof El as El'. rewrite (shard_at_lookup c _ s0 Es) in El. apply lru_Lookup_sound in El as (v & He & Hh).
      exists v. split; [|exists (Shard (HashSlice key)), s0; done]. cbn [ca_Value ShardedCache]. unfold sc_Value. cbn [hd_shard hd_id].
      rewrite (shard_at_lookup _ _ s).
      * unfold entry in He. destruct (lc_heap s !! id); [|done]. cbn in *. congruence.
      * cbn. apply list_lookup_insert_eq. apply lookup_lt_is_Some_1. eauto.
    + exfalso. apply lru_Lookup_sound in El as (v & _ & (x & Hin & _)). unfold shard_at in Hin.
      apply lookup_ge_None in Es. rewrite nth_overflow in Hin by done. vm_compute in Hin. by apply not_elem_of_nil in Hin.
  - intros key c r c' k v E Hh. cbn in E. unfold sc_Lookup in E. cbv zeta in E.
    destruct (lru_Lookup _ _ _) as [oid s] eqn:El. injection E as <- <-.
    eapply set_shard_keeps; [|done]. eapply lru_Lookup_keeps. done.
  - intros key v n c h c' k v' E Hh. cbn [ca_Insert ShardedCache] in E. unfold sc_Insert in E. cbv zeta in E.
    destruct (lru_Insert _ _ _ _ _) as [id s] eqn:Ei. injection E as <- <-.
    apply set_shard_holds in Hh as [(s0 & Es & Hh)|Hh]; [|by right]. rewrite (shard_at_lookup c _ s0 Es) in Ei.
    destruct (lru_Insert_keeps _ _ _ _ _ _ _ _ _ Ei Hh) as [|Hh']; [by left|]. right. eexists _, s0. done.
  - intros h c k v Hh. cbn in Hh. unfold sc_Release in Hh. cbv zeta in Hh. eapply set_shard_keeps; [|done]. apply Unref_keeps.
Defined.

#[export, refine] Instance ShardedCacheIdLaws : CacheIdLaws (ShardedLRUCache V) Handle V := { ca_last_id := sc_last_id }.
Proof.
  - intros c. eexists. split; [reflexivity|]. split; [reflexivity|]. done.
  - intros key c. cbn [ca_Lookup ShardedCache]. unfold sc_Lookup. cbv zeta. by destruct (lru_Lookup _ _ _) as [[id|] s].
  - intros key v n c. cbn [ca_Insert ShardedCache]. unfold sc_Insert. cbv zeta. by destruct (lru_Insert _ _ _ _ _) as [id s].
  - intros h c. reflexivity.
Defined.

(** A new cache holds nothing, and handing out an id puts nothing in. *)
Lemma NewLRUCache_holds (capacity : Z) (key : bytes) (v : V) : ~ sc_holds (NewLRUCache capacity) key v.
Proof.
  intros (i & s & E & id & Hin & _). unfold NewLRUCache in E. cbn [sc_shard] in E. apply lookup_replicate in E as [-> _].
  by apply not_elem_of_nil in Hin.
Qed.

Lemma sc_NewId_holds (c : ShardedLRUCache V) (key : bytes) (v : V) : sc_holds (snd (sc_NewId c)) key v -> sc_holds c key v.
Proof. done. Qed.
End ShardedLaws.

(** ** The invariant of a shard

    [held] are the handles clients have and have not released, with repetition;
    [ins] the keys and values of all insertions, by handle.  [ex] are handles that
    have left the table while [FinishErase] is still to come. *)
Section Invariant.
Context {V : Type}.
Implicit Types (c : LRUCache V) (h : gmap nat (LRUHandle V)) (t : HandleTable) (held : list nat) (ins : list (bytes * V)).

Definition outstanding held (id : nat) : Z := Z.of_nat (count_occ Nat.eq_dec held id).

Definition charge_of h (id : nat) : Z := match h !! id with Some e => lh_charge e | None => 0 end.
Definition charges h (ids : list nat) : Z := foldr (fun id acc => charge_of h id + acc) 0 ids.

(** Every handle made is alive with its key and value, or was given to the deleter
    with them, once. *)
Record Life h (next : nat) (deleted : list (nat * bytes * V)) ins : Prop := {
  lf_next : next = length ins;
  lf_alive : forall id e, h !! id = Some e -> ins !! id = Some (lh_key e, lh_value e);
  lf_deleted : forall id k v, (id, k, v) ∈ deleted -> ins !! id = Some (k, v) /\ h !! id = None;
  lf_once : NoDup deleted.*1.*1;
  lf_all : forall id, (id < next)%nat -> is_Some (h !! id) \/ id ∈ deleted.*1.*1
}.

Record CInv (ex : list nat) c held ins : Prop := {
  ci_table : TOk (lc_heap c) (lc_table c);
  ci_elems : ht_elems (lc_table c) = zlen (handles (lc_table c));
  ci_nodup : NoDup (ex ++ handles (lc_table c));
  ci_cached : forall id, id ∈ ex ++ handles (lc_table c) <-> exists e, lc_heap c !! id = Some e /\ lh_in_cache e = true;
  ci_lists : lc_lru c ++ lc_in_use c ≡ₚ ex ++ handles (lc_table c);
  ci_lru : forall id, id ∈ lc_lru c -> id ∉ held;
  ci_use : forall id, id ∈ lc_in_use c -> id ∈ held;
  ci_refs : forall id e, lc_heap c !! id = Some e -> lh_refs e = Z.b2z (lh_in_cache e) + outstanding held id /\ 0 < lh_refs e;
  ci_held : forall id, id ∈ held -> is_Some (lc_heap c !! id);
  ci_unique : forall a b ea eb, a ∈ handles (lc_table c) -> b ∈ handles (lc_table c) ->
    lc_heap c !! a = Some ea -> lc_heap c !! b = Some eb -> lh_key ea = lh_key eb -> a = b;
  ci_hash : forall id e, lc_heap c !! id = Some e -> lh_hash e = HashSlice (lh_key e);
  ci_usage : lc_usage c = u64 (charges (lc_heap c) (ex ++ handles (lc_table c)));
  ci_life : Life (lc_heap c) (lc_next c) (lc_deleted c) ins;
  ci_bound : zlen held < 2 ^ 31;
  ci_made : zlen ins <= 2 ^ 31
}.

#[export] Instance charges_perm h : Proper (Permutation ==> eq) (charges h).
Proof. intros l l' Hp. unfold charges. induction Hp; cbn; lia. Qed.

Lemma charges_ext h h' ids : (forall id, id ∈ ids -> charge_of h' id = charge_of h id) -> charges h' ids = charges h ids.
Proof.
  induction ids as [|x ids IH]; intros He; [done|].
  change (charge_of h' x + charges h' ids = charge_of h x + charges h ids).
  rewrite IH, He; [done|by left|]. intros id Hid. apply He. by right.
Qed.

Lemma outstanding_pos held id : id ∈ held <-> 0 < outstanding held id.
Proof. unfold outstanding. rewrite list_elem_of_In, (count_occ_In Nat.eq_dec). lia. Qed.

Lemma outstanding_zero held id : id ∉ held <-> outstanding held id = 0.
Proof. rewrite outstanding_pos. unfold outstanding. lia. Qed.

Lemma outstanding_le held id : outstanding held id <= zlen held.
Proof. unfold outstanding, zlen. pose proof (count_occ_bound Nat.eq_dec id held). lia. Qed.

Lemma outstanding_cons held id x : outstanding (id :: held) x = (if decide (id = x) then 1 else 0) + outstanding held x.
Proof.
  unfold outstanding. case_decide as E; [rewrite count_occ_cons_eq by done|rewrite count_occ_cons_neq by done]; lia.
Qed.

Lemma outstanding_remove held id x : id ∈ held -> outstanding (chain_remove id held) x = outstanding held x - (if decide (id = x) then 1 else 0).
Proof.
  intros Hin. pose proof (chain_remove_perm id held Hin) as Hp.
  assert (outstanding held x = outstanding (id :: chain_remove id held) x) as ->.
  { unfold outstanding. f_equal. revert x. apply (Permutation_count_occ Nat.eq_dec). done. }
  rewrite outstanding_cons. lia.
Qed.

(** *** Life *)

Definition same_data (e e' : LRUHandle V) : Prop :=
  lh_key e' = lh_key e /\ lh_value e' = lh_value e /\ lh_hash e' = lh_hash e /\ lh_charge e' = lh_charge e.

Lemma Life_update h next deleted ins id e e' :
  h !! id = Some e -> same_data e e' -> Life h next deleted ins -> Life (<[id := e']> h) next deleted ins.
Proof.
  intros He (Hk & Hv & _) [L1 L2 L3 L4 L5]. split; [done| | |done|].
  - intros x ex. destruct (decide (id = x)) as [<-|Hn].
    + rewrite lookup_insert_eq. intros [= <-]. rewrite Hk, Hv. eauto.
    + rewrite lookup_insert_ne by done. eauto.
  - intros x k v Hx. destruct (L3 x k v Hx) as [H1 H2]. split; [done|].
    rewrite lookup_insert_ne; [done|]. intros ->. congruence.
  - intros x Hx. destruct (decide (id = x)) as [<-|Hn]; [left; rewrite lookup_insert_eq; eauto|].
    rewrite lookup_insert_ne by done. auto.
Qed.

Lemma Life_free h next deleted ins id e :
  h !! id = Some e -> Life h next deleted ins -> Life (delete id h) next (deleted ++ [(id, lh_key e, lh_value e)]) ins.
Proof.
  intros He [L1 L2 L3 L4 L5]. split; [done| | | |].
  - intros x ex Hx. apply lookup_delete_Some in Hx as [_ Hx]. eauto.
  - intros x k v [Hx|Hx%list_elem_of_singleton]%elem_of_app.
    + destruct (L3 x k v Hx) as [H1 H2]. split; [done|]. apply lookup_delete_None. by right.
    + injection Hx as -> -> ->. split; [eauto|]. apply lookup_delete_eq.
  - rewrite !fmap_app. cbn. apply NoDup_app. split; [done|]. split; [|apply NoDup_singleton].
    intros x Hx Hx'. apply list_elem_of_singleton in Hx' as ->.
    apply list_elem_of_fmap in Hx as ([x k] & Ex & Hx). apply list_elem_of_fmap in Hx as ([[x' k'] v] & Ex' & Hx).
    cbn in *. simplify_eq. apply L3 in Hx as [_ Hx]. congruence.
  - intros x Hx. rewrite !fmap_app. cbn. destruct (decide (id = x)) as [<-|Hn].
    + right. apply elem_of_app. right. by apply list_elem_of_singleton.
    + rewrite lookup_delete_ne by done. destruct (L5 x Hx); [by left|]. right. apply elem_of_app. by left.
Qed.

Lemma Life_new h next deleted ins k v e :
  Life h next deleted ins -> lh_key e = k -> lh_value e = v -> Life (<[next := e]> h) (S next) deleted (ins ++ [(k, v)]).
Proof.
  intros [L1 L2 L3 L4 L5] Hk Hv. split; [rewrite length_app; cbn; lia| | |done|].
  - intros x ex. destruct (decide (next = x)) as [<-|Hn].
    + rewrite lookup_insert_eq. intros [= <-]. rewrite L1, Hk, Hv. apply list_lookup_middle. done.
    + rewrite lookup_insert_ne by done. intros Hx. apply lookup_app_l_Some. eauto.
  - intros x k' v' Hx. destruct (L3 x k' v' Hx) as [H1 H2]. split; [by apply lookup_app_l_Some|].
    rewrite lookup_insert_ne; [done|]. intros ->. apply lookup_lt_Some in H1. lia.
  - intros x Hx. destruct (decide (next = x)) as [<-|Hn]; [left; rewrite lookup_insert_eq; eauto|].
    rewrite lookup_insert_ne by done. apply L5. lia.
Qed.

(** *** Updating and freeing one handle *)

Lemma lookup_update h id e e' x y : h !! id = Some e -> same_data e e' -> <[id := e']> h !! x = Some y ->
  exists y0, h !! x = Some y0 /\ same_data y0 y /\ (id = x -> y = e') /\ (id <> x -> y = y0).
Proof.
  intros He Hs. destruct (decide (id = x)) as [<-|Hn].
  - rewrite lookup_insert_eq. intros [= <-]. exists e. done.
  - rewrite lookup_insert_ne by done. intros Hy. exists y. split_and!; done.
Qed.

Lemma hash_of_update h id e e' x : h !! id = Some e -> same_data e e' -> hash_of (<[id := e']> h) x = hash_of h x.
Proof.
  intros He (_ & _ & Hh & _). unfold hash_of. destruct (decide (id = x)) as [<-|Hn].
  - by rewrite lookup_insert_eq, He.
  - by rewrite lookup_insert_ne by done.
Qed.

Lemma charge_of_update h id e e' x : h !! id = Some e -> same_data e e' -> charge_of (<[id := e']> h) x = charge_of h x.
Proof.
  intros He (_ & _ & _ & Hc). unfold charge_of. destruct (decide (id = x)) as [<-|Hn].
  - by rewrite lookup_insert_eq, He.
  - by rewrite lookup_insert_ne by done.
Qed.

Lemma outstanding_held held held' (x : nat) : outstanding held' x = outstanding held x -> x ∈ held' <-> x ∈ held.
Proof. intros E. rewrite !outstanding_pos, E. done. Qed.

(** What the lists, the counts and the usage have to be after a change of [id]. *)
Record Changed (ex' : list nat) ex c held held' (id : nat) (lru' use' : list nat) (usage' : Z) : Prop := {
  ch_others : forall x, id <> x -> x ∈ ex' ++ handles (lc_table c) <-> x ∈ ex ++ handles (lc_table c);
  ch_nodup : NoDup (ex' ++ handles (lc_table c));
  ch_lists : lru' ++ use' ≡ₚ ex' ++ handles (lc_table c);
  ch_lru : forall x, x ∈ lru' -> x ∉ held';
  ch_use : forall x, x ∈ use' -> x ∈ held';
  ch_held : forall x, id <> x -> outstanding held' x = outstanding held x;
  ch_usage : usage' = u64 (charges (lc_heap c) (ex' ++ handles (lc_table c)));
  ch_bound : zlen held' < 2 ^ 31
}.

Lemma CInv_update ex ex' c held held' ins id e e' lru' use' usage' :
  CInv ex c held ins -> lc_heap c !! id = Some e -> same_data e e' ->
  Changed ex' ex c held held' id lru' use' usage' ->
  (id ∈ ex' ++ handles (lc_table c) <-> lh_in_cache e' = true) ->
  lh_refs e' = Z.b2z (lh_in_cache e') + outstanding held' id -> 0 < lh_refs e' ->
  CInv ex' (mkLRUCache (lc_capacity c) usage' lru' use' (lc_table c) (<[id := e']> (lc_heap c)) (lc_next c) (lc_deleted c)) held' ins.
Proof.
  intros I He Hs Ch Hc Hr Hp. pose proof (ci_made _ _ _ _ I). destruct Ch. split; cbn; try done.
  - eapply TOk_ext; [|apply I]. intros x _. by apply (hash_of_update _ _ e).
  - apply I.
  - intros x. destruct (decide (id = x)) as [<-|Hn].
    + rewrite lookup_insert_eq, Hc. split; [eauto|]. intros (y & [= <-] & Hy). done.
    + rewrite lookup_insert_ne, ch_others0 by done. apply I.
  - intros x y Hy. destruct (lookup_update _ _ _ _ _ _ He Hs Hy) as (y0 & Hy0 & _ & H1 & H2).
    destruct (decide (id = x)) as [<-|Hn]; [by rewrite (H1 eq_refl)|].
    rewrite ch_held0, (H2 Hn) by done. by apply (ci_refs _ _ _ _ I).
  - intros x Hx. destruct (decide (id = x)) as [<-|Hn]; [rewrite lookup_insert_eq; eauto|].
    rewrite lookup_insert_ne by done. apply (ci_held _ _ _ _ I). by apply (outstanding_held _ held'); auto.
  - intros a b ea eb Ha Hb Ea Eb Ek.
    destruct (lookup_update _ _ _ _ _ _ He Hs Ea) as (ea0 & Ea0 & (Hka & _) & _).
    destruct (lookup_update _ _ _ _ _ _ He Hs Eb) as (eb0 & Eb0 & (Hkb & _) & _).
    apply (ci_unique _ _ _ _ I a b ea0 eb0); congruence.
  - intros x y Hy. destruct (lookup_update _ _ _ _ _ _ He Hs Hy) as (y0 & Hy0 & (Hk & _ & Hh & _) & _).
    rewrite Hk, Hh. by apply (ci_hash _ _ _ _ I x).
  - rewrite ch_usage0. f_equal. symmetry. apply charges_ext. intros x _. by apply (charge_of_update _ _ e).
  - apply (Life_update _ _ _ _ _ e); [done..|apply I].
Qed.

Lemma CInv_free ex ex' c held held' ins id e lru' use' usage' :
  CInv ex c held ins -> lc_heap c !! id = Some e -> Changed ex' ex c held held' id lru' use' usage' ->
  id ∉ ex' ++ handles (lc_table c) -> id ∉ held' ->
  CInv ex' (mkLRUCache (lc_capacity c) usage' lru' use' (lc_table c) (delete id (lc_heap c)) (lc_next c)
              (lc_deleted c ++ [(id, lh_key e, lh_value e)])) held' ins.
Proof.
  intros I He Ch Hc Hnh. pose proof (ci_made _ _ _ _ I). destruct Ch. split; cbn; try done.
  - eapply TOk_ext; [|apply I]. intros x Hx. unfold hash_of. rewrite lookup_delete_ne; [done|].
    intros ->. apply Hc, elem_of_app. by right.
  - apply I.
  - intros x. destruct (decide (id = x)) as [<-|Hn].
    + rewrite lookup_delete_eq. split; [done|]. intros (y & ? & _). done.
    + rewrite lookup_delete_ne, ch_others0 by done. apply I.
  - intros x y Hy. apply lookup_delete_Some in Hy as [Hn Hy]. rewrite ch_held0 by done. by apply (ci_refs _ _ _ _ I).
  - intros x Hx. destruct (decide (id = x)) as [<-|Hn]; [done|].
    rewrite lookup_delete_ne by done. apply (ci_held _ _ _ _ I). by apply (outstanding_held _ held'); auto.
  - intros a b ea eb Ha Hb Ea Eb. apply lookup_delete_Some in Ea as [_ Ea], Eb as [_ Eb]. by apply (ci_unique _ _ _ _ I).
  - intros x y Hy. apply lookup_delete_Some in Hy as [_ Hy]. by apply (ci_hash _ _ _ _ I x).
  - rewrite ch_usage0. f_equal. symmetry. apply charges_ext. intros x Hx. unfold charge_of.
    rewrite lookup_delete_ne; [done|]. by intros ->.
  - apply Life_free; [done|apply I].
Qed.

(** *** The lists *)

Lemma in_lists ex c held ins id e : CInv ex c held ins -> lc_heap c !! id = Some e -> lh_in_cache e = true ->
  (id ∈ lc_lru c /\ id ∉ lc_in_use c /\ id ∉ held) \/ (id ∉ lc_lru c /\ id ∈ lc_in_use c /\ id ∈ held).
Proof.
  intros I He Hc. assert (id ∈ lc_lru c ++ lc_in_use c) as Hin.
  { rewrite (ci_lists _ _ _ _ I). apply I. eauto. }
  pose proof (ci_lru _ _ _ _ I id). pose proof (ci_use _ _ _ _ I id).
  apply elem_of_app in Hin as [Hin|Hin]; [left|right]; split_and!; try done; naive_solver.
Qed.

Lemma not_in_lists ex c held ins id e : CInv ex c held ins -> lc_heap c !! id = Some e -> lh_in_cache e = false ->
  id ∉ ex ++ handles (lc_table c) /\ id ∉ lc_lru c /\ id ∉ lc_in_use c.
Proof.
  intros I He Hc. assert (id ∉ ex ++ handles (lc_table c)) as Hn.
  { intros Hin. apply (ci_cached _ _ _ _ I) in Hin as (e' & He' & Hc'). congruence. }
  split; [done|]. rewrite <- (ci_lists _ _ _ _ I) in Hn. set_solver.
Qed.

Lemma chain_remove_not (id : nat) (l : list nat) : NoDup l -> id ∉ chain_remove id l.
Proof.
  intros Hd Hin. pose proof Hin as Hin'. apply chain_remove_incl in Hin'. rewrite (chain_remove_perm id l Hin') in Hd.
  apply NoDup_cons in Hd as [Hn _]. done.
Qed.

Lemma chain_remove_other (id x : nat) (l : list nat) : id <> x -> x ∈ chain_remove id l <-> x ∈ l.
Proof.
  intros Hn. split; [apply chain_remove_incl|]. destruct (decide (id ∈ l)) as [Hin|Ha].
  - rewrite (chain_remove_perm id l Hin) at 1. intros [->|Hx]%elem_of_cons; done.
  - by rewrite chain_remove_absent.
Qed.

(** *** The operations *)

Lemma u32_refs ex c held ins id e : CInv ex c held ins -> lc_heap c !! id = Some e -> 0 < lh_refs e <= 2 ^ 31.
Proof.
  intros I He. destruct (ci_refs _ _ _ _ I id e He) as [Hr Hp]. pose proof (outstanding_le held id).
  pose proof (ci_bound _ _ _ _ I). destruct (lh_in_cache e); cbn in Hr; lia.
Qed.

Lemma Ref_inv c held ins id :
  CInv [] c held ins -> id ∈ handles (lc_table c) -> zlen held + 1 < 2 ^ 31 -> CInv [] (Ref id c) (id :: held) ins.
Proof.
  intros I Hin Hb. destruct (proj1 (ci_cached _ _ _ _ I id) Hin) as (e & He & Hc).
  destruct (ci_refs _ _ _ _ I id e He) as [Hr _]. pose proof (u32_refs _ _ _ _ _ _ I He) as Hu. rewrite Hc in Hr. cbn in Hr.
  unfold Ref. rewrite He, Hc, andb_true_r. cbv zeta. rewrite wrap_small by lia.
  assert (forall x, id <> x -> outstanding (id :: held) x = outstanding held x) as Ho.
  { intros x Hn. rewrite outstanding_cons, decide_False by done. lia. }
  assert (outstanding (id :: held) id = 1 + outstanding held id) as Hs by (rewrite outstanding_cons, decide_True by done; done).
  destruct (in_lists _ _ _ _ _ _ I He Hc) as [(Hl & Hnu & Hnh)|(Hnl & Hl & Hh)].
  - rewrite (proj1 (outstanding_zero held id) Hnh) in Hr. rewrite Hr. change (1 + 0 =? 1) with true. cbv iota. change (1 + 0 + 1) with 2.
    eapply (CInv_update [] [] c held (id :: held) ins id e (with_refs 2 e)); try done; cbn; try (rewrite ?Hc; done); [|rewrite Hc, Hs; cbn; rewrite (proj1 (outstanding_zero held id) Hnh); lia].
    rewrite (chain_remove_absent id (lc_in_use c)) by done.
    pose proof (ci_nodup _ _ _ _ I) as Hd. rewrite <- (ci_lists _ _ _ _ I) in Hd. apply NoDup_app in Hd as (Hd & _ & _).
    split; try done; cbn.
    + apply I.
    + rewrite <- (ci_lists _ _ _ _ I). rewrite (chain_remove_perm id (lc_lru c) Hl) at 2. rewrite app_assoc. cbn. symmetry. apply Permutation_cons_append.
    + intros x Hx [->|Hx']%elem_of_cons; [by apply chain_remove_not in Hx|].
      apply chain_remove_incl in Hx. by apply (ci_lru _ _ _ _ I x).
    + intros x [Hx|Hx%list_elem_of_singleton]%elem_of_app; apply elem_of_cons; [right; by apply I|by left].
    + apply I.
    + rewrite zlen_cons. lia.
  - pose proof (proj1 (outstanding_pos held id) Hh).
    destruct (Z.eqb_spec (lh_refs e) 1); [lia|].
    eapply (CInv_update [] [] c held (id :: held) ins id e (with_refs (lh_refs e + 1) e)); try done; cbn; try (rewrite ?Hc; done); [|rewrite Hc, Hs; cbn; lia|lia].
    split; try done; cbn; try apply I.
    + intros x Hx [->|Hx']%elem_of_cons; [done|]. by apply (ci_lru _ _ _ _ I x).
    + intros x Hx. apply elem_of_cons. right. by apply I.
    + rewrite zlen_cons. lia.
Qed.

Lemma Release_inv c held ins id :
  CInv [] c held ins -> id ∈ held -> CInv [] (lru_Release id c) (chain_remove id held) ins.
Proof.
  intros I Hh. destruct (ci_held _ _ _ _ I id Hh) as [e He].
  destruct (ci_refs _ _ _ _ I id e He) as [Hr _]. pose proof (u32_refs _ _ _ _ _ _ I He) as Hu.
  assert (forall x, id <> x -> outstanding (chain_remove id held) x = outstanding held x) as Ho.
  { intros x Hn. rewrite outstanding_remove, decide_False by done. lia. }
  assert (outstanding (chain_remove id held) id = outstanding held id - 1) as Hs by (rewrite outstanding_remove, decide_True by done; done).
  assert (zlen (chain_remove id held) < 2 ^ 31) as Hb.
  { pose proof (ci_bound _ _ _ _ I) as Hb. rewrite (chain_remove_perm id held Hh), zlen_cons in Hb. lia. }
  pose proof (proj1 (outstanding_pos held id) Hh) as Hpos.
  unfold lru_Release, Unref. rewrite He. cbv zeta. rewrite wrap_small by lia.
  destruct (lh_in_cache e) eqn:Hc; cbn in Hr.
  - destruct (Z.eqb_spec (lh_refs e - 1) 0) as [|_]; [lia|]. cbn [andb].
    assert (id ∈ handles (lc_table c)) as Hin by (apply (ci_cached _ _ _ _ I id); eauto).
    destruct (in_lists _ _ _ _ _ _ I He Hc) as [(_ & _ & Hnh)|(Hnl & Hl & _)]; [done|].
    pose proof (ci_nodup _ _ _ _ I) as Hd. rewrite <- (ci_lists _ _ _ _ I) in Hd. apply NoDup_app in Hd as (_ & _ & Hd).
    assert (forall l : list nat, (forall x, x ∈ l -> x ∈ lc_in_use c) -> id ∉ l -> forall x, x ∈ l -> x ∈ chain_remove id held) as Huse.
    { intros l Hsub Hn x Hx. apply chain_remove_other; [by intros ->|]. by apply I, Hsub. }
    assert (forall x, x ∈ lc_lru c -> x ∉ chain_remove id held) as Hlru.
    { intros x Hx Hx'. apply chain_remove_incl in Hx'. by apply (ci_lru _ _ _ _ I x). }
    destruct (Z.eqb_spec (lh_refs e - 1) 1) as [E1|E1].
    + eapply (CInv_update [] [] c held (chain_remove id held) ins id e (with_refs (lh_refs e - 1) e)); try done; cbn; try (rewrite ?Hc; done); [|rewrite Hc, Hs; cbn; lia|lia].
      rewrite (chain_remove_absent id (lc_lru c)) by done.
      split; try done; cbn; try apply I.
      * rewrite <- (ci_lists _ _ _ _ I). rewrite (chain_remove_perm id (lc_in_use c) Hl) at 2. rewrite <- app_assoc. done.
      * intros x [Hx|Hx%list_elem_of_singleton]%elem_of_app; [by apply Hlru|]. subst x. apply outstanding_zero. lia.
      * apply Huse; [intros x; apply chain_remove_incl|by apply chain_remove_not].
    + eapply (CInv_update [] [] c held (chain_remove id held) ins id e (with_refs (lh_refs e - 1) e)); try done; cbn; try (rewrite ?Hc; done); [|rewrite Hc, Hs; cbn; lia|lia].
      split; try done; cbn; try apply I.
      intros x Hx. destruct (decide (id = x)) as [<-|Hn]; [apply outstanding_pos; lia|]. apply chain_remove_other; [done|]. by apply I.
  - destruct (not_in_lists _ _ _ _ _ _ I He Hc) as (Hn & Hnl & Hnu).
    assert (Changed [] [] c held (chain_remove id held) id (lc_lru c) (lc_in_use c) (lc_usage c)) as Ch.
    { split; try done; cbn; try apply I.
      - intros x Hx Hx'. apply chain_remove_incl in Hx'. by apply (ci_lru _ _ _ _ I x).
      - intros x Hx. apply chain_remove_other; [by intros ->|]. by apply I. }
    destruct (Z.eqb_spec (lh_refs e - 1) 0) as [E0|E0]; cbn [andb].
    + pose proof (CInv_free [] [] c held (chain_remove id held) ins id e _ _ _ I He Ch Hn) as Hf.
      unfold free_handle. cbn. rewrite delete_insert_eq. apply Hf. apply outstanding_zero. lia.
    + eapply (CInv_update [] [] c held (chain_remove id held) ins id e (with_refs (lh_refs e - 1) e)); try done; cbn; rewrite ?Hc; try done; cbn; try lia.
Qed.

(** The entry leaves the cache; clients that hold it keep it. *)
Lemma FinishErase_inv c held ins id :
  CInv [id] c held ins -> CInv [] (FinishErase (Some id) c) held ins /\
  lc_lru (FinishErase (Some id) c) = chain_remove id (lc_lru c) /\
  lc_table (FinishErase (Some id) c) = lc_table c /\ lc_capacity (FinishErase (Some id) c) = lc_capacity c.
Proof.
  intros I. assert (id ∈ [id] ++ handles (lc_table c)) as Hin by (apply elem_of_app; left; by apply list_elem_of_singleton).
  destruct (proj1 (ci_cached _ _ _ _ I id) Hin) as (e & He & Hc).
  destruct (ci_refs _ _ _ _ I id e He) as [Hr _]. pose proof (u32_refs _ _ _ _ _ _ I He) as Hu. rewrite Hc in Hr. cbn in Hr.
  pose proof (ci_nodup _ _ _ _ I) as Hd. cbn in Hd. apply NoDup_cons in Hd as [Hni Hd].
  assert (Changed [] [id] c held held id (chain_remove id (lc_lru c)) (chain_remove id (lc_in_use c)) (u64 (lc_usage c - lh_charge e))) as Ch.
  { pose proof (ci_lists _ _ _ _ I) as Hp. cbn in Hp. split; try done; cbn.
    - intros x Hn. rewrite elem_of_cons. naive_solver.
    - destruct (in_lists _ _ _ _ _ _ I He Hc) as [(Hl & Hn & _)|(Hn & Hl & _)].
      + rewrite (chain_remove_perm id (lc_lru c) Hl) in Hp. cbn in Hp.
        rewrite (chain_remove_absent id (lc_in_use c)) by done. by apply (Permutation_cons_inv (a := id)).
      + rewrite (chain_remove_perm id (lc_in_use c) Hl), <- Permutation_middle in Hp.
        rewrite (chain_remove_absent id (lc_lru c)) by done. by apply (Permutation_cons_inv (a := id)).
    - intros x Hx. apply (ci_lru _ _ _ _ I). by apply chain_remove_incl in Hx.
    - intros x Hx. apply (ci_use _ _ _ _ I). by apply chain_remove_incl in Hx.
    - rewrite (ci_usage _ _ _ _ I). cbn. unfold charge_of. rewrite He. unfold wrap. rewrite Zminus_mod_idemp_l. f_equal. lia.
    - apply I. }
  unfold FinishErase. rewrite He. cbv zeta. unfold Unref. cbn [lc_heap set_usage set_handle LRU_Remove set_lists].
  rewrite lookup_insert_eq. cbn [lh_refs lh_in_cache with_in_cache andb]. rewrite wrap_small by lia. cbv zeta.
  destruct (Z.eqb_spec (lh_refs e - 1) 0) as [E0|E0].
  - pose proof (CInv_free [id] [] c held held ins id e _ _ _ I He Ch Hni) as Hf. split; [|done].
    unfold free_handle. cbn. rewrite insert_insert_eq, delete_insert_eq. apply Hf. apply outstanding_zero. lia.
  - split; [|done]. unfold set_handle at 1. cbn. rewrite insert_insert_eq.
    eapply (CInv_update [id] [] c held held ins id e (with_refs (lh_refs e - 1) (with_in_cache false e))); try done; cbn; try lia.
Qed.

Lemma FinishErase_usage c id e : lc_heap c !! id = Some e ->
  lc_usage (FinishErase (Some id) c) = u64 (lc_usage c - lh_charge e) /\
  forall x, id <> x -> charge_of (lc_heap (FinishErase (Some id) c)) x = charge_of (lc_heap c) x.
Proof.
  intros He. unfold FinishErase. rewrite He. cbv zeta. unfold Unref. cbn [lc_heap set_usage set_handle LRU_Remove set_lists].
  rewrite lookup_insert_eq. cbn [lh_refs lh_in_cache with_in_cache andb]. cbv zeta.
  destruct (_ =? 0); (split; [done|]); intros x Hn; unfold charge_of; cbn; rewrite insert_insert_eq.
  - rewrite delete_insert_eq, lookup_delete_ne by done. done.
  - rewrite lookup_insert_ne by done. done.
Qed.

Lemma elems_bound ex c held ins : CInv ex c held ins -> zlen (handles (lc_table c)) <= zlen ins.
Proof.
  intros I. pose proof (ci_nodup _ _ _ _ I) as Hd. apply NoDup_app in Hd as (_ & _ & Hd).
  assert (length (handles (lc_table c)) <= length (seq 0 (length ins)))%nat as Hl.
  { apply submseteq_length, NoDup_submseteq; [done|]. intros x Hx. apply elem_of_seq.
    destruct (proj1 (ci_cached _ _ _ _ I x)) as (e & He & _); [apply elem_of_app; by right|].
    apply (lf_alive _ _ _ _ (ci_life _ _ _ _ I)), lookup_lt_Some in He. lia. }
  rewrite length_seq in Hl. unfold zlen. lia.
Qed.

(** [table_.Remove] of a key: the handle found leaves the table. *)
Lemma Remove_inv c held ins key e t :
  CInv [] c held ins -> ht_Remove (lc_heap c) (lc_table c) key (HashSlice key) = (e, t) ->
  match e with
  | Some id => CInv [id] (set_table t c) held ins /\ handles (lc_table c) ≡ₚ id :: handles t /\
      exists x, lc_heap c !! id = Some x /\ lh_key x = key
  | None => t = lc_table c /\ forall id x, id ∈ handles (lc_table c) -> lc_heap c !! id = Some x -> lh_key x <> key
  end.
Proof.
  intros I E. pose proof (elems_bound _ _ _ _ I) as Hb. pose proof (ci_made _ _ _ _ I).
  destruct (ht_Remove_spec _ _ _ _ _ _ (ci_table _ _ _ _ I) (ci_elems _ _ _ _ I) ltac:(rewrite (ci_elems _ _ _ _ I); lia) E) as (He & Ht & Hl & Hm).
  destruct e as [id|].
  - symmetry in He. apply FindPointer_Some in He as (Hin & x & Hx & _ & Hk). split; [|by eauto].
    split; cbn [set_table lc_heap lc_table lc_lru lc_in_use lc_usage lc_next lc_deleted app]; try done; try apply I.
    + rewrite <- Hm. apply I.
    + intros y. rewrite <- Hm. apply I.
    + rewrite <- Hm. apply I.
    + intros a b ea eb Ha Hb'. apply (ci_unique _ _ _ _ I); rewrite Hm; apply elem_of_cons; by right.
    + rewrite <- Hm. apply I.
  - split; [done|]. intros id x Hin Hx Hk.
    apply (FindPointer_None _ _ key (HashSlice key) id x (ci_table _ _ _ _ I)); try done. rewrite (ci_hash _ _ _ _ I id x Hx). congruence.
Qed.

Lemma Erase_inv c held ins key : CInv [] c held ins ->
  CInv [] (lru_Erase key (HashSlice key) c) held ins /\ lc_capacity (lru_Erase key (HashSlice key) c) = lc_capacity c /\
  forall x, x ∈ handles (lc_table (lru_Erase key (HashSlice key) c)) <->
    x ∈ handles (lc_table c) /\ forall e, lc_heap c !! x = Some e -> lh_key e <> key.
Proof.
  intros I. unfold lru_Erase. destruct (ht_Remove _ _ _ _) as [[id|] t] eqn:E; pose proof (Remove_inv _ _ _ _ _ _ I E) as Hr.
  - destruct Hr as (Hi & Hp & e & He & Hk). destruct (FinishErase_inv _ _ _ _ Hi) as (H1 & _ & H3 & H4).
    split; [done|]. split; [by rewrite H4|]. intros x. rewrite H3. cbn.
    pose proof (ci_nodup _ _ _ _ I) as Hd. cbn in Hd. rewrite Hp in Hd. apply NoDup_cons in Hd as [Hn _].
    rewrite Hp, elem_of_cons. split.
    + intros Hx. split; [by right|]. intros e' He' Hk'. assert (x = id) as ->; [|done].
      apply (ci_unique _ _ _ _ I x id e' e); try done; [rewrite Hp; by right|rewrite Hp; by left|congruence].
    + intros [[->|Hx] Hnk]; [|done]. by destruct (Hnk e He).
  - destruct Hr as [-> Hn]. cbn. split; [destruct c; done|]. split; [done|]. intros x. split; [|by intros [? _]]. eauto.
Qed.

Lemma evict_oldest_inv c held ins old rest : CInv [] c held ins -> lc_lru c = old :: rest ->
  CInv [] (evict_oldest old c) held ins /\ lc_lru (evict_oldest old c) = rest /\ lc_capacity (evict_oldest old c) = lc_capacity c /\
  handles (lc_table c) ≡ₚ old :: handles (lc_table (evict_oldest old c)) /\
  lc_usage (evict_oldest old c) = u64 (lc_usage c - charge_of (lc_heap c) old) /\
  forall x, old <> x -> charge_of (lc_heap (evict_oldest old c)) x = charge_of (lc_heap c) x.
Proof.
  intros I Hl. assert (old ∈ handles (lc_table c)) as Hin.
  { pose proof (ci_lists _ _ _ _ I) as Hp. cbn in Hp. rewrite <- Hp, Hl. by left. }
  destruct (proj1 (ci_cached _ _ _ _ I old) Hin) as (h & Hh & _). unfold evict_oldest. rewrite Hh.
  rewrite (ci_hash _ _ _ _ I old h Hh).
  destruct (ht_Remove _ _ _ _) as [[id|] t] eqn:E; pose proof (Remove_inv _ _ _ _ _ _ I E) as Hr.
  - destruct Hr as (Hi & Hp & e & He & Hk).
    assert (id = old) as -> by (apply (ci_unique _ _ _ _ I id old e h); try done; rewrite Hp; by left).
    destruct (FinishErase_inv _ _ _ _ Hi) as (H1 & H2 & H3 & H4). split; [done|]. rewrite H2, H3, H4. cbn [set_table lc_lru lc_table lc_capacity].
    destruct (FinishErase_usage (set_table t c) old h Hh) as [-> Hx]. split; [rewrite Hl; cbn; by rewrite decide_True|].
    split; [done|]. split; [done|]. split; [|done]. unfold charge_of. by rewrite Hh.
  - destruct Hr as [_ Hn]. by destruct (Hn old h Hin Hh).
Qed.

Lemma usage_u64 ex c held ins : CInv ex c held ins -> u64 (lc_usage c - 0) = lc_usage c.
Proof. intros I. rewrite Z.sub_0_r, (ci_usage _ _ _ _ I). by apply wrap_wrap. Qed.

Lemma lru_nodup ex c held ins : CInv ex c held ins -> NoDup (lc_lru c).
Proof. intros I. pose proof (ci_nodup _ _ _ _ I) as Hd. rewrite <- (ci_lists _ _ _ _ I) in Hd. by apply NoDup_app in Hd as (? & _ & _). Qed.

(** The loop of [Insert] drops the oldest unused entries, no more of them than the
    capacity asks for, and stops within the capacity or with none left. *)
Lemma evict_loop_inv fuel c held ins : CInv [] c held ins -> (length (lc_lru c) <= fuel)%nat ->
  let c' := evict_loop fuel c in
  CInv [] c' held ins /\ lc_capacity c' = lc_capacity c /\ (lc_capacity c < lc_usage c' -> lc_lru c' = []) /\
  exists n, lc_lru c' = drop n (lc_lru c) /\ handles (lc_table c) ≡ₚ take n (lc_lru c) ++ handles (lc_table c') /\
    lc_usage c' = u64 (lc_usage c - charges (lc_heap c) (take n (lc_lru c))) /\
    forall m, (m < n)%nat -> lc_capacity c < u64 (lc_usage c - charges (lc_heap c) (take m (lc_lru c))).
Proof.
  cbv zeta. revert c. induction fuel as [|fuel IH]; intros c I Hf; pose proof (usage_u64 _ _ _ _ I) as Hu0.
  - cbn. split; [done|]. split; [done|]. split; [intros _; destruct (lc_lru c); [done|cbn in Hf; lia]|].
    exists 0%nat. cbn. split_and!; [done..|lia].
  - cbn [evict_loop]. destruct (lc_lru c) as [|old rest] eqn:El.
    { split; [done|]. split; [done|]. split; [done|]. exists 0%nat. rewrite El. cbn. split_and!; [done..|lia]. }
    destruct (Z.ltb_spec (lc_capacity c) (lc_usage c)) as [Hlt|Hge].
    2: { split; [done|]. split; [done|]. split; [lia|]. exists 0%nat. cbn. split_and!; [done..|lia]. }
    destruct (evict_oldest_inv c held ins old rest I El) as (I' & Hl & Hc & Hp & Hu & Hch).
    destruct (IH (evict_oldest old c) I') as (H1 & H2 & H3 & n & H4 & H5 & H6 & H7); [rewrite Hl; cbn in Hf; lia|].
    rewrite Hl in H4, H5, H6, H7. rewrite Hc in H2, H3, H7.
    assert (forall m, u64 (lc_usage (evict_oldest old c) - charges (lc_heap (evict_oldest old c)) (take m rest)) =
      u64 (lc_usage c - charges (lc_heap c) (take (S m) (old :: rest)))) as Hm.
    { intros m. rewrite Hu, (charges_ext (lc_heap c)).
      - change (charges (lc_heap c) (take (S m) (old :: rest))) with (charge_of (lc_heap c) old + charges (lc_heap c) (take m rest)).
        unfold wrap. rewrite Zminus_mod_idemp_l. f_equal. lia.
      - intros x Hx. apply Hch. intros <-. pose proof (lru_nodup _ _ _ _ I) as Hd. rewrite El in Hd. apply NoDup_cons in Hd as [Hn _].
        apply Hn. apply elem_of_take in Hx as (i & Hi & _). by apply list_elem_of_lookup_2 in Hi. }
    split; [done|]. split; [done|]. split; [done|]. exists (S n). split; [done|]. split; [by rewrite Hp, H5|].
    split; [by rewrite <- Hm|]. intros [|m] Hlm; [change (lc_capacity c < u64 (lc_usage c - 0)); rewrite Hu0; lia|]. rewrite <- Hm. apply H7. lia.
Qed.

Lemma prune_loop_inv fuel c held ins : CInv [] c held ins -> (length (lc_lru c) <= fuel)%nat ->
  let c' := prune_loop fuel c in
  CInv [] c' held ins /\ lc_capacity c' = lc_capacity c /\ lc_lru c' = [] /\
  handles (lc_table c) ≡ₚ lc_lru c ++ handles (lc_table c').
Proof.
  cbv zeta. revert c. induction fuel as [|fuel IH]; intros c I Hf.
  - cbn. destruct (lc_lru c); [done|cbn in Hf; lia].
  - cbn [prune_loop]. destruct (lc_lru c) as [|old rest] eqn:El; [by rewrite El|].
    destruct (evict_oldest_inv c held ins old rest I El) as (I' & Hl & Hc & Hp & Hu & Hch).
    destruct (IH (evict_oldest old c) I') as (H1 & H2 & H3 & H4); [rewrite Hl; cbn in Hf; lia|].
    split; [done|]. split; [by rewrite H2|]. split; [done|]. by rewrite Hp, H4, Hl.
Qed.

(** The new entry of [Insert], before the replaced one is erased. *)
Definition insert_mid (id : nat) (e : LRUHandle V) (charge : Z) t c : LRUCache V :=
  mkLRUCache (lc_capacity c) (u64 (lc_usage c + charge)) (lc_lru c) (lc_in_use c ++ [id]) t (<[id := e]> (lc_heap c)) (S id) (lc_deleted c).

Lemma fresh_next ex c held ins : CInv ex c held ins -> lc_heap c !! lc_next c = None.
Proof.
  intros I. destruct (lc_heap c !! lc_next c) as [e|] eqn:E; [|done].
  apply (lf_alive _ _ _ _ (ci_life _ _ _ _ I)), lookup_lt_Some in E. rewrite (lf_next _ _ _ _ (ci_life _ _ _ _ I)) in E. lia.
Qed.

Lemma fresh_lists c held ins : CInv [] c held ins ->
  lc_next c ∉ held /\ lc_next c ∉ handles (lc_table c) /\ lc_next c ∉ lc_lru c /\ lc_next c ∉ lc_in_use c.
Proof.
  intros I. pose proof (fresh_next _ _ _ _ I) as Hf.
  assert (lc_next c ∉ handles (lc_table c)) as Hn.
  { intros Hin. apply (ci_cached _ _ _ _ I (lc_next c)) in Hin as (e & He & _). congruence. }
  split; [intros Hin; apply (ci_held _ _ _ _ I) in Hin as [e He]; congruence|]. split; [done|].
  pose proof (ci_lists _ _ _ _ I) as Hp. cbn in Hp. rewrite <- Hp in Hn. set_solver.
Qed.

(** [table_.Insert]: the handle replaced is the one with the key, if any. *)
Lemma insert_table c held ins key e old t :
  CInv [] c held ins -> zlen ins < 2 ^ 31 -> lh_key e = key -> lh_hash e = HashSlice key ->
  ht_Insert (<[lc_next c := e]> (lc_heap c)) (lc_table c) (lc_next c) key (HashSlice key) = (old, t) ->
  TOk (<[lc_next c := e]> (lc_heap c)) t /\ ht_elems t = zlen (handles t) /\
  option_list old ++ handles t ≡ₚ lc_next c :: handles (lc_table c) /\
  (forall x, x ∈ option_list old <-> x ∈ handles (lc_table c) /\ exists e, lc_heap c !! x = Some e /\ lh_key e = key).
Proof.
  intros I Hm Hke Hhe E. destruct (fresh_lists c held ins I) as (Fh & Ft & Fl & Fu).
  assert (forall x, x ∈ handles (lc_table c) -> <[lc_next c := e]> (lc_heap c) !! x = lc_heap c !! x) as Hsame.
  { intros x Hx. apply lookup_insert_ne. by intros <-. }
  assert (TOk (<[lc_next c := e]> (lc_heap c)) (lc_table c)) as Ht.
  { eapply TOk_ext; [|apply I]. intros x Hx. unfold hash_of. by rewrite Hsame. }
  pose proof (elems_bound _ _ _ _ I) as Hel. pose proof (ci_elems _ _ _ _ I) as Hce.
  destruct (ht_Insert_spec _ _ _ _ _ _ _ Ht ltac:(unfold hash_of; by rewrite lookup_insert_eq) Hce ltac:(lia) E) as (Ho & Ht' & Hl & Hp0).
  assert (option_list old ++ handles t ≡ₚ lc_next c :: handles (lc_table c)) as Hp by (destruct old; exact Hp0). clear Hp0.
  assert (forall x, x ∈ option_list old <-> x ∈ handles (lc_table c) /\ exists e, lc_heap c !! x = Some e /\ lh_key e = key) as Hold.
  { intros x. destruct old as [o|].
    - symmetry in Ho. apply FindPointer_Some in Ho as (Hin & eo & Heo & _ & Hk). rewrite Hsame in Heo by done.
      change (x ∈ [o] <-> x ∈ handles (lc_table c) /\ exists e, lc_heap c !! x = Some e /\ lh_key e = key).
      rewrite list_elem_of_singleton. split; [intros ->; eauto|]. intros (Hx & ex & Hex & Hkx).
      apply (ci_unique _ _ _ _ I x o ex eo); congruence.
    - split; [by intros ?%not_elem_of_nil|]. intros (Hx & ex & Hex & Hkx). exfalso.
      apply (FindPointer_None _ _ key (HashSlice key) x ex Ht); rewrite ?Hsame; try done.
      rewrite (ci_hash _ _ _ _ I x ex Hex). congruence. }
  done.
Qed.

Lemma insert_mid_inv c held ins key v charge e old t :
  CInv [] c held ins -> zlen held + 1 < 2 ^ 31 -> zlen ins < 2 ^ 31 ->
  e = mkLRUHandle v charge true 2 (HashSlice key) key ->
  ht_Insert (<[lc_next c := e]> (lc_heap c)) (lc_table c) (lc_next c) key (HashSlice key) = (old, t) ->
  CInv (option_list old) (insert_mid (lc_next c) e charge t c) (lc_next c :: held) (ins ++ [(key, v)]) /\
  option_list old ++ handles t ≡ₚ lc_next c :: handles (lc_table c) /\
  (forall x, x ∈ option_list old <-> x ∈ handles (lc_table c) /\ exists e, lc_heap c !! x = Some e /\ lh_key e = key).
Proof.
  intros I Hb Hm -> E. set (e := mkLRUHandle _ _ _ _ _ _) in *. destruct (fresh_lists c held ins I) as (Fh & Ft & Fl & Fu).
  assert (forall x, x ∈ handles (lc_table c) -> <[lc_next c := e]> (lc_heap c) !! x = lc_heap c !! x) as Hsame.
  { intros x Hx. apply lookup_insert_ne. by intros <-. }
  destruct (insert_table c held ins key e old t I Hm eq_refl eq_refl E) as (Ht' & Hl & Hp & Hold).
  split; [|done]. pose proof (ci_nodup _ _ _ _ I) as Hd. cbn in Hd.
  assert (NoDup (lc_next c :: handles (lc_table c))) as Hd' by (by apply NoDup_cons).
  pose proof (NoDup_app (option_list old) (handles t)) as Hda. rewrite Hp in Hda. apply Hda in Hd' as Hdj. destruct Hdj as (_ & Hdj & _). clear Hda.
  unfold insert_mid. split; cbn [lc_heap lc_table lc_lru lc_in_use lc_usage lc_next lc_deleted]; try done.
  - by rewrite Hp.
  - intros x. rewrite Hp, elem_of_cons. destruct (decide (lc_next c = x)) as [<-|Hn].
    + rewrite lookup_insert_eq. split; [|by left]. intros _. exists e. done.
    + rewrite lookup_insert_ne by done. rewrite <- (ci_cached _ _ _ _ I x). cbn. naive_solver.
  - rewrite Hp, app_assoc, (ci_lists _ _ _ _ I). cbn. symmetry. apply Permutation_cons_append.
  - intros x Hx [->|Hx']%elem_of_cons; [done|]. by apply (ci_lru _ _ _ _ I x).
  - intros x [Hx|Hx%list_elem_of_singleton]%elem_of_app; apply elem_of_cons; [right; by apply I|by left].
  - intros x ex. rewrite outstanding_cons. destruct (decide (lc_next c = x)) as [<-|Hn].
    + rewrite lookup_insert_eq. intros [= <-]. rewrite (proj1 (outstanding_zero held (lc_next c)) Fh). done.
    + rewrite lookup_insert_ne by done. apply (ci_refs _ _ _ _ I).
  - intros x [->|Hx]%elem_of_cons; [rewrite lookup_insert_eq; eauto|]. rewrite lookup_insert_ne; [by apply I|]. by intros <-.
  - assert (forall b eb, b ∈ handles t -> lc_next c <> b -> <[lc_next c:=e]> (lc_heap c) !! b = Some eb -> b ∈ handles (lc_table c) /\ lc_heap c !! b = Some eb /\ lh_key eb <> key) as Hoth.
    { intros b eb Hin Hn Heb. rewrite lookup_insert_ne in Heb by done.
      assert (b ∈ handles (lc_table c)) as Hbt.
      { assert (b ∈ lc_next c :: handles (lc_table c)) as Hx by (rewrite <- Hp; apply elem_of_app; by right).
        apply elem_of_cons in Hx as [->|]; done. }
      split_and!; [done..|]. intros Hk. apply (Hdj b); [|done]. apply Hold. eauto. }
    intros a b ea eb Ha Hb' Ea Eb Ek.
    destruct (decide (lc_next c = a)) as [<-|Hna], (decide (lc_next c = b)) as [<-|Hnb]; [done| | |].
    + rewrite lookup_insert_eq in Ea. injection Ea as <-. destruct (Hoth b eb Hb' Hnb Eb) as (_ & _ & Hk). by destruct Hk.
    + rewrite lookup_insert_eq in Eb. injection Eb as <-. destruct (Hoth a ea Ha Hna Ea) as (_ & _ & Hk). by destruct Hk.
    + destruct (Hoth a ea Ha Hna Ea) as (A1 & A2 & _), (Hoth b eb Hb' Hnb Eb) as (B1 & B2 & _). by apply (ci_unique _ _ _ _ I a b ea eb).
  - intros x ex. destruct (decide (lc_next c = x)) as [<-|Hn].
    + rewrite lookup_insert_eq. intros [= <-]. done.
    + rewrite lookup_insert_ne by done. apply (ci_hash _ _ _ _ I).
  - rewrite Hp. change (charges ?h (lc_next c :: ?l)) with (charge_of h (lc_next c) + charges h l).
    rewrite (charges_ext (lc_heap c)); [|intros x Hx; unfold charge_of; by rewrite Hsame].
    unfold charge_of at 1. rewrite lookup_insert_eq. cbn [e lh_charge]. rewrite (ci_usage _ _ _ _ I). cbn [app].
    unfold wrap. rewrite Zplus_mod_idemp_l. f_equal. lia.
  - apply Life_new; [apply I|done..].
  - rewrite zlen_cons. lia.
  - rewrite zlen_app, zlen_cons, zlen_nil. lia.
Qed.

Lemma handles_alive (c : LRUCache V) held ins id : CInv [] c held ins -> id ∈ handles (lc_table c) -> exists e, lc_heap c !! id = Some e.
Proof. intros I Hin. destruct (proj1 (ci_cached _ _ _ _ I id) Hin) as (e & He & _). eauto. Qed.

Lemma charges_app h (l k : list nat) : charges h (l ++ k) = charges h l + charges h k.
Proof. induction l as [|x l IH]; [done|]. change (charge_of h x + charges h (l ++ k) = charge_of h x + charges h l + charges h k). lia. Qed.

(** The replaced entry leaves, and what the usage is then. *)
Lemma insert_erase c held ins key v charge old t :
  let e := mkLRUHandle v charge true 2 (HashSlice key) key in
  let c1 := FinishErase old (insert_mid (lc_next c) e charge t c) in
  CInv [] c held ins -> CInv (option_list old) (insert_mid (lc_next c) e charge t c) (lc_next c :: held) (ins ++ [(key, v)]) ->
  (forall x, x ∈ option_list old -> x ∈ handles (lc_table c)) ->
  CInv [] c1 (lc_next c :: held) (ins ++ [(key, v)]) /\ lc_lru c1 = foldr chain_remove (lc_lru c) (option_list old) /\
  handles (lc_table c1) = handles t /\ lc_capacity c1 = lc_capacity c /\
  forall l, (forall x, x ∈ l -> x ∈ lc_lru c1) ->
    u64 (lc_usage c1 - charges (lc_heap c1) l) = u64 (lc_usage c + charge - charges (lc_heap c) (option_list old ++ l)).
Proof.
  intros e c1 I Hi Ho. destruct (fresh_lists c held ins I) as (_ & Ft & Fl & _).
  assert (forall x, lc_next c <> x -> charge_of (<[lc_next c := e]> (lc_heap c)) x = charge_of (lc_heap c) x) as Hch.
  { intros x Hn. unfold charge_of. by rewrite lookup_insert_ne. }
  destruct old as [o|].
  - destruct (FinishErase_inv _ _ _ _ Hi) as (F1 & F2 & F3 & F4). fold c1 in F1, F2, F3, F4.
    split; [exact F1|]. split; [exact F2|]. split; [by rewrite F3|]. split; [exact F4|].
    assert (o ∈ handles (lc_table c)) as Hin by (apply Ho; by left).
    destruct (handles_alive c held ins o I Hin) as [eo Heo]. assert (lc_next c <> o) as Hno by congruence.
    destruct (FinishErase_usage (insert_mid (lc_next c) e charge t c) o eo) as [Hu Hx]; [cbn; by rewrite lookup_insert_ne|].
    intros l Hl. unfold c1. rewrite Hu. cbn [insert_mid lc_usage]. rewrite (charges_ext (lc_heap c)).
    + change (charges (lc_heap c) (option_list (Some o) ++ l)) with (charge_of (lc_heap c) o + charges (lc_heap c) l).
      unfold charge_of. rewrite Heo. unfold wrap. rewrite Zminus_mod_idemp_l, <- Z.sub_add_distr, Zminus_mod_idemp_l. done.
    + intros x Hxl. apply Hl in Hxl. pose proof Hxl as Hxl'. rewrite F2 in Hxl. cbn in Hxl.
      assert (o <> x). { intros <-. by apply (chain_remove_not o (lc_lru c)) in Hxl; [|apply (lru_nodup _ _ _ _ I)]. }
      rewrite Hx by done. cbn. apply Hch. intros <-. apply chain_remove_incl in Hxl. done.
  - split; [exact Hi|]. split_and!; [done..|]. intros l Hl. cbn. rewrite (charges_ext (lc_heap c)).
    + unfold wrap. rewrite Zminus_mod_idemp_l. done.
    + intros x Hx. apply Hch. intros <-. by apply Hl in Hx.
Qed.

Lemma Insert_inv c held ins key v charge id c' :
  CInv [] c held ins -> zlen held + 1 < 2 ^ 31 -> zlen ins < 2 ^ 31 -> 0 < lc_capacity c ->
  lru_Insert key (HashSlice key) v charge c = (id, c') ->
  id = length ins /\ CInv [] c' (id :: held) (ins ++ [(key, v)]) /\ lc_capacity c' = lc_capacity c /\
  (lc_capacity c < lc_usage c' -> lc_lru c' = []) /\
  exists old n,
    let unused := foldr chain_remove (lc_lru c) (option_list old) in
    let need m := u64 (lc_usage c + charge - charges (lc_heap c) (option_list old ++ take m unused)) in
    (forall x, x ∈ option_list old <-> x ∈ handles (lc_table c) /\ exists e, lc_heap c !! x = Some e /\ lh_key e = key) /\
    lc_next c :: handles (lc_table c) ≡ₚ option_list old ++ take n unused ++ handles (lc_table c') /\
    lc_lru c' = drop n unused /\ lc_usage c' = need n /\ forall m, (m < n)%nat -> lc_capacity c < need m.
Proof.
  intros I Hb Hm Hcap E. unfold lru_Insert, new_handle in E. cbv zeta in E. cbn [lc_capacity] in E.
  destruct (Z.ltb_spec 0 (lc_capacity c)) as [_|]; [|lia].
  cbn [lc_heap lc_table set_handle append_in_use set_usage set_lists] in E. rewrite insert_insert_eq in E.
  destruct (ht_Insert _ _ _ _ _) as [old t] eqn:Et.
  destruct (insert_mid_inv c held ins key v charge _ old t I Hb Hm eq_refl Et) as (Hi & Hp & Ho).
  injection E as <- <-. rewrite <- (lf_next _ _ _ _ (ci_life _ _ _ _ I)). split; [done|].
  match goal with |- context [FinishErase old ?m] => assert (m = insert_mid (lc_next c) (mkLRUHandle v charge true 2 (HashSlice key) key) charge t c) as Hmid end.
  { unfold insert_mid, set_table. cbn. f_equal. apply insert_insert_eq. }
  rewrite Hmid. clear Hmid. set (c1 := FinishErase old _).
  destruct (insert_erase c held ins key v charge old t I Hi) as (I1 & Hl1 & Ht1 & Hc1 & Hn1); [intros x Hx; by apply Ho|].
  fold c1 in I1, Hl1, Ht1, Hc1, Hn1.
  destruct (evict_loop_inv (length (lc_lru c1)) c1 _ _ I1 ltac:(lia)) as (H1 & H2 & H3 & n & H4 & H5 & H6 & H7).
  split; [exact H1|]. split; [congruence|]. split; [rewrite <- Hc1; exact H3|].
  exists old, n. cbv zeta. split; [exact Ho|]. rewrite <- Hl1. split; [by rewrite <- H5, Ht1, Hp|]. split; [exact H4|].
  assert (forall m, u64 (lc_usage c1 - charges (lc_heap c1) (take m (lc_lru c1))) =
    u64 (lc_usage c + charge - charges (lc_heap c) (option_list old ++ take m (lc_lru c1)))) as Hn.
  { intros m. apply Hn1. intros x Hx. apply elem_of_take in Hx as (i & Hx & _). by apply list_elem_of_lookup_2 in Hx. }
  split; [by rewrite <- Hn|]. intros m Hlm. rewrite <- Hn, <- Hc1. by apply H7.
Qed.

(** Not cached: the handle is the client's alone. *)
Lemma Insert_inv_uncached c held ins key v charge id c' :
  CInv [] c held ins -> zlen held + 1 < 2 ^ 31 -> zlen ins < 2 ^ 31 -> lc_capacity c <= 0 -> handles (lc_table c) = [] ->
  lru_Insert key (HashSlice key) v charge c = (id, c') ->
  id = length ins /\ CInv [] c' (id :: held) (ins ++ [(key, v)]) /\ lc_capacity c' = lc_capacity c /\ handles (lc_table c') = [].
Proof.
  intros I Hb Hm Hcap Hh E. unfold lru_Insert, new_handle in E. cbv zeta in E. cbn [lc_capacity] in E.
  destruct (Z.ltb_spec 0 (lc_capacity c)) as [|_]; [lia|]. cbn [lc_lru] in E.
  destruct (fresh_lists c held ins I) as (Fh & _ & _ & _).
  pose proof (ci_lists _ _ _ _ I) as Hp. rewrite Hh in Hp. symmetry in Hp. apply Permutation_nil in Hp. apply app_eq_nil in Hp as [Hl Hu].
  rewrite Hl in E. cbn in E. injection E as <- <-. rewrite <- (lf_next _ _ _ _ (ci_life _ _ _ _ I)). split; [done|]. split; [|done].
  pose proof (ci_cached _ _ _ _ I) as Hc. rewrite Hh in Hc.
  split; cbn [lc_heap lc_table lc_lru lc_in_use lc_usage lc_next lc_deleted]; rewrite ?Hh, ?Hl, ?Hu; try done.
  - eapply TOk_ext; [|apply I]. rewrite Hh. intros x Hx. by apply not_elem_of_nil in Hx.
  - rewrite (ci_elems _ _ _ _ I), Hh. done.
  - constructor.
  - intros x. split; [by intros ?%not_elem_of_nil|]. destruct (decide (lc_next c = x)) as [<-|Hn].
    + rewrite lookup_insert_eq. intros (y & [= <-] & ?). done.
    + rewrite lookup_insert_ne by done. apply Hc.
  - intros x Hx. by apply not_elem_of_nil in Hx.
  - intros x Hx. by apply not_elem_of_nil in Hx.
  - intros x ex. rewrite outstanding_cons. destruct (decide (lc_next c = x)) as [<-|Hn].
    + rewrite lookup_insert_eq. intros [= <-]. rewrite (proj1 (outstanding_zero held (lc_next c)) Fh). done.
    + rewrite lookup_insert_ne by done. apply (ci_refs _ _ _ _ I).
  - intros x [->|Hx]%elem_of_cons; [rewrite lookup_insert_eq; eauto|]. rewrite lookup_insert_ne; [by apply I|]. by intros <-.
  - intros a b ea eb Ha. by apply not_elem_of_nil in Ha.
  - intros x ex. destruct (decide (lc_next c = x)) as [<-|Hn].
    + rewrite lookup_insert_eq. intros [= <-]. done.
    + rewrite lookup_insert_ne by done. apply (ci_hash _ _ _ _ I).
  - rewrite (ci_usage _ _ _ _ I), Hh. done.
  - apply Life_new; [apply I|done..].
  - rewrite zlen_cons. lia.
  - rewrite zlen_app, zlen_cons, zlen_nil. lia.
Qed.
End Invariant.

(** ** A shard and its clients

    A world is a shard with what its clients know: the handles they hold, the
    insertions made, and for every key the handle of its last insertion that was
    not erased.  A client releases only handles it holds; fewer than [2^31]
    handles are held at a time and fewer than [2^31] insertions are made (reference
    counts and table lengths are 32 bits). *)
Section Clients.
Context {V : Type}.

Record World := mkWorld {
  wo_cache : LRUCache V;
  wo_held : list nat;
  wo_ins : list (bytes * V);
  wo_last : gmap bytes nat
}.

Definition new_world (capacity : Z) : World := mkWorld (SetCapacity capacity newLRUCache) [] [] ∅.

Inductive wstep : World -> World -> Prop :=
| ws_Insert : forall w key v charge id c,
    zlen (wo_held w) + 1 < 2 ^ 31 -> zlen (wo_ins w) < 2 ^ 31 ->
    lru_Insert key (HashSlice key) v charge (wo_cache w) = (id, c) ->
    wstep w (mkWorld c (id :: wo_held w) (wo_ins w ++ [(key, v)]) (<[key := id]> (wo_last w)))
| ws_Lookup : forall w key r c,
    zlen (wo_held w) + 1 < 2 ^ 31 -> lru_Lookup key (HashSlice key) (wo_cache w) = (r, c) ->
    wstep w (mkWorld c (option_list r ++ wo_held w) (wo_ins w) (wo_last w))
| ws_Release : forall w id,
    id ∈ wo_held w -> wstep w (mkWorld (lru_Release id (wo_cache w)) (chain_remove id (wo_held w)) (wo_ins w) (wo_last w))
| ws_Erase : forall w key,
    wstep w (mkWorld (lru_Erase key (HashSlice key) (wo_cache w)) (wo_held w) (wo_ins w) (delete key (wo_last w)))
| ws_Prune : forall w, wstep w (mkWorld (lru_Prune (wo_cache w)) (wo_held w) (wo_ins w) (wo_last w)).

Record WInv (capacity : Z) (w : World) : Prop := {
  wi_inv : CInv [] (wo_cache w) (wo_held w) (wo_ins w);
  wi_capacity : lc_capacity (wo_cache w) = capacity;
  wi_off : capacity <= 0 -> handles (lc_table (wo_cache w)) = [];
  wi_last : forall id k v, id ∈ handles (lc_table (wo_cache w)) -> wo_ins w !! id = Some (k, v) -> wo_last w !! k = Some id;
  wi_kept : forall id k, 0 < capacity -> wo_last w !! k = Some id -> id ∈ wo_held w -> id ∈ handles (lc_table (wo_cache w));
  wi_made : forall id k, wo_last w !! k = Some id -> exists v, wo_ins w !! id = Some (k, v)
}.

Lemma newLRUCache_inv (capacity : Z) : CInv [] (SetCapacity capacity (newLRUCache (V := V))) [] [].
Proof.
  assert (handles (newHandleTable (V := V)) = []) as Hh by done.
  split; cbn [SetCapacity newLRUCache lc_heap lc_table lc_lru lc_in_use lc_usage lc_next lc_deleted]; rewrite ?Hh; try done.
  - split; [done|done|]. intros i chain id E Hid. exfalso.
    assert (id ∈ handles (newHandleTable (V := V))) as Hin by (apply concat_elem; eauto). rewrite Hh in Hin. by apply not_elem_of_nil in Hin.
  - constructor.
  - intros id. split; [by intros ?%not_elem_of_nil|]. intros (e & He & _). done.
  - intros id Hid. by apply not_elem_of_nil in Hid.
  - intros id Hid. by apply not_elem_of_nil in Hid.
  - split; try done; [|constructor|cbn; lia]. intros id k v Hin. by apply not_elem_of_nil in Hin.
Qed.

Lemma new_world_inv (capacity : Z) : WInv capacity (new_world capacity).
Proof.
  assert (handles (newHandleTable (V := V)) = []) as Hh by done.
  split; cbn [new_world wo_cache wo_held wo_ins wo_last SetCapacity newLRUCache lc_table lc_capacity]; rewrite ?Hh; try done.
  apply newLRUCache_inv.
Qed.

Lemma ins_key ex (c : LRUCache V) held ins id e k v :
  CInv ex c held ins -> lc_heap c !! id = Some e -> ins !! id = Some (k, v) -> lh_key e = k /\ lh_value e = v.
Proof. intros I He Hi. apply (lf_alive _ _ _ _ (ci_life _ _ _ _ I)) in He. rewrite He in Hi. by injection Hi as -> ->. Qed.

(** An insertion of an enabled cache: the entries of the table afterwards. *)
Lemma Insert_handles (c : LRUCache V) held ins key v charge id c' :
  CInv [] c held ins -> zlen held + 1 < 2 ^ 31 -> zlen ins < 2 ^ 31 -> 0 < lc_capacity c ->
  lru_Insert key (HashSlice key) v charge c = (id, c') ->
  (forall x, x ∈ handles (lc_table c') -> x = id \/ (x ∈ handles (lc_table c) /\ forall e, lc_heap c !! x = Some e -> lh_key e <> key)) /\
  id ∈ handles (lc_table c') /\
  (forall x, x ∈ handles (lc_table c) -> x ∈ held -> (forall e, lc_heap c !! x = Some e -> lh_key e <> key) -> x ∈ handles (lc_table c')).
Proof.
  intros I Hb Hm Hcap E. destruct (Insert_inv _ _ _ _ _ _ _ _ I Hb Hm Hcap E) as (Hid & I' & _ & _ & old & n & Ho & Hp & Hl & _ & _).
  destruct (fresh_lists c held ins I) as (Fh & Ft & Fl & _).
  assert (id = lc_next c) as -> by (rewrite (lf_next _ _ _ _ (ci_life _ _ _ _ I)); done).
  assert (NoDup (lc_next c :: handles (lc_table c))) as Hd by (apply NoDup_cons; split; [done|apply I]).
  rewrite Hp in Hd. apply NoDup_app in Hd as (_ & Hd & _).
  set (l := foldr chain_remove (lc_lru c) (option_list old)) in *.
  assert (forall x, x ∈ l -> x ∈ lc_lru c) as Hsub.
  { unfold l. destruct old as [o|]; cbn; [|done]. intros x. apply chain_remove_incl. }
  assert (forall x, x ∈ lc_next c :: handles (lc_table c) -> x ∈ option_list old \/ x ∈ take n l \/ x ∈ handles (lc_table c')) as Hcase.
  { intros x. rewrite Hp, !elem_of_app. done. }
  split_and!.
  - intros x Hx. assert (x ∈ lc_next c :: handles (lc_table c)) as Hin by (rewrite Hp, !elem_of_app; auto).
    apply elem_of_cons in Hin as [->|Hin]; [by left|]. right. split; [done|]. intros e He Hk.
    apply (Hd x); [apply Ho; eauto|]. apply elem_of_app. by right.
  - destruct (Hcase (lc_next c)) as [Hx|[Hx|Hx]]; [by left| | |done].
    + apply Ho in Hx as [Hx _]. done.
    + apply elem_of_take in Hx as (i & Hi & _). apply list_elem_of_lookup_2, Hsub in Hi. done.
  - intros x Hx Hxh Hk. destruct (Hcase x) as [Hx'|[Hx'|Hx']]; [by right| | |done].
    + apply Ho in Hx' as (_ & e & He & Hke). by destruct (Hk e He).
    + apply elem_of_take in Hx' as (i & Hi & _). apply list_elem_of_lookup_2, Hsub in Hi. by apply (ci_lru _ _ _ _ I) in Hi.
Qed.

Lemma Lookup_inv (c : LRUCache V) held ins key r c' :
  CInv [] c held ins -> zlen held + 1 < 2 ^ 31 -> lru_Lookup key (HashSlice key) c = (r, c') ->
  CInv [] c' (option_list r ++ held) ins /\ lc_capacity c' = lc_capacity c /\ lc_table c' = lc_table c /\
  (forall id, r = Some id <-> id ∈ handles (lc_table c) /\ exists e, lc_heap c !! id = Some e /\ lh_key e = key).
Proof.
  intros I Hb E. unfold lru_Lookup in E. destruct (ht_Lookup _ _ _ _) as [id|] eqn:Ef; injection E as <- <-.
  - apply FindPointer_Some in Ef as (Hin & e & He & _ & Hk). split; [by apply Ref_inv|].
    assert (lc_capacity (Ref id c) = lc_capacity c /\ lc_table (Ref id c) = lc_table c) as [-> ->].
    { unfold Ref. rewrite He. cbv zeta. destruct (_ && _); done. }
    split_and!; [done..|]. intros x. split; [intros [= <-]; eauto|]. intros (Hx & ex & Hex & Hkx). f_equal.
    apply (ci_unique _ _ _ _ I id x e ex); congruence.
  - split_and!; [done..|]. intros x. split; [done|]. intros (Hx & ex & Hex & Hkx). exfalso.
    apply (FindPointer_None _ _ key (HashSlice key) x ex (ci_table _ _ _ _ I)); try done.
    rewrite (ci_hash _ _ _ _ I x ex Hex). congruence.
Qed.

Lemma wstep_Insert_inv capacity (w : World) key v charge id c :
  WInv capacity w -> zlen (wo_held w) + 1 < 2 ^ 31 -> zlen (wo_ins w) < 2 ^ 31 ->
  lru_Insert key (HashSlice key) v charge (wo_cache w) = (id, c) ->
  WInv capacity (mkWorld c (id :: wo_held w) (wo_ins w ++ [(key, v)]) (<[key := id]> (wo_last w))).
Proof.
  intros [I Hc Hoff Hlast Hkept Hmade] Hb Hm E.
  assert (id = length (wo_ins w) /\ CInv [] c (id :: wo_held w) (wo_ins w ++ [(key, v)]) /\ lc_capacity c = capacity /\
    (capacity <= 0 -> handles (lc_table c) = [])) as (Hid & I' & Hc' & Hoff').
  { destruct (Z.le_gt_cases capacity 0) as [H0|H0].
    - destruct (Insert_inv_uncached _ _ _ _ _ _ _ _ I Hb Hm ltac:(lia) (Hoff H0) E) as (? & ? & ? & ?). by rewrite <- Hc.
    - destruct (Insert_inv _ _ _ _ _ _ _ _ I Hb Hm ltac:(lia) E) as (? & ? & ? & _). rewrite <- Hc. split_and!; try done. lia. }
  assert (forall k i, <[key := id]> (wo_last w) !! k = Some i -> (k = key /\ i = id) \/ (k <> key /\ wo_last w !! k = Some i)) as Hl.
  { intros k i. destruct (decide (key = k)) as [<-|Hn]; [rewrite lookup_insert_eq; intros [= <-]; by left|].
    rewrite lookup_insert_ne by done. right. split; congruence. }
  split; cbn [wo_cache wo_held wo_ins wo_last]; try done.
  - intros x k v' Hx Hi. destruct (Z.le_gt_cases capacity 0) as [H0|H0]; [rewrite (Hoff' H0) in Hx; by apply not_elem_of_nil in Hx|].
    destruct (Insert_handles _ _ _ _ _ _ _ _ I Hb Hm ltac:(lia) E) as (Hh & _ & _). destruct (Hh x Hx) as [->|[Hx' Hk]].
    + rewrite Hid, list_lookup_middle in Hi by done. injection Hi as <- <-. apply lookup_insert_eq.
    + destruct (handles_alive _ _ _ _ I Hx') as [e He]. pose proof (lf_alive _ _ _ _ (ci_life _ _ _ _ I) x e He) as Hix.
      rewrite (lookup_app_l_Some _ _ _ _ Hix) in Hi. injection Hi as <- <-.
      rewrite lookup_insert_ne by (intros Heq; apply (Hk e He); congruence). by apply (Hlast x _ _ Hx' Hix).
  - intros x k H0 Hk Hx. destruct (Insert_handles _ _ _ _ _ _ _ _ I Hb Hm ltac:(lia) E) as (_ & Hin & Hh).
    apply Hl in Hk as [[-> ->]|[Hn Hk]]; [done|]. destruct (Hmade x k Hk) as [v0 Hi].
    apply elem_of_cons in Hx as [->|Hx]; [rewrite Hid in Hi; apply lookup_lt_Some in Hi; lia|].
    apply Hh; [by apply (Hkept x k)|done|]. intros e He. destruct (ins_key _ _ _ _ _ _ _ _ I He Hi) as [Hke _]. congruence.
  - intros x k Hk. apply Hl in Hk as [[-> ->]|[Hn Hk]].
    + exists v. rewrite Hid. by apply list_lookup_middle.
    + destruct (Hmade x k Hk) as [v0 Hi]. exists v0. by apply lookup_app_l_Some.
Qed.

Lemma wstep_inv capacity (w w' : World) : WInv capacity w -> wstep w w' -> WInv capacity w'.
Proof.
  intros W Hs. destruct Hs as [w key v charge id c Hb Hm E|w key r c Hb E|w id Hid|w key|w].
  - eapply wstep_Insert_inv; done.
  - destruct W as [I Hc Hoff Hlast Hkept Hmade].
    destruct (Lookup_inv _ _ _ _ _ _ I Hb E) as (I' & Hc' & Ht & Hr).
    split; cbn [wo_cache wo_held wo_ins wo_last]; rewrite ?Ht; try done; [congruence|].
    intros x k H0 Hk [Hx|Hx]%elem_of_app; [|by apply (Hkept x k)].
    destruct r as [id|]; [|by apply not_elem_of_nil in Hx]. apply list_elem_of_singleton in Hx as ->. by apply (Hr id).
  - destruct W as [I Hc Hoff Hlast Hkept Hmade]. pose proof (Release_inv _ _ _ _ I Hid) as I'.
    assert (lc_capacity (lru_Release id (wo_cache w)) = lc_capacity (wo_cache w) /\ lc_table (lru_Release id (wo_cache w)) = lc_table (wo_cache w)) as [Hc' Ht].
    { unfold lru_Release, Unref. destruct (lc_heap _ !! id); [|done]. cbv zeta. destruct (_ =? 0); [done|]. destruct (_ && _); done. }
    split; cbn [wo_cache wo_held wo_ins wo_last]; rewrite ?Ht; try done; [congruence|].
    intros x k H0 Hk Hx. apply chain_remove_incl in Hx. by apply (Hkept x k).
  - destruct W as [I Hc Hoff Hlast Hkept Hmade]. destruct (Erase_inv _ _ _ key I) as (I' & Hc' & Hh).
    split; cbn [wo_cache wo_held wo_ins wo_last]; try done; [congruence| | | |].
    + intros H0. apply elem_of_nil_inv. intros x Hx. apply Hh in Hx as [Hx _]. rewrite (Hoff H0) in Hx. by apply not_elem_of_nil in Hx.
    + intros x k v Hx Hi. apply Hh in Hx as [Hx Hk]. destruct (handles_alive _ _ _ _ I Hx) as [e He].
      destruct (ins_key _ _ _ _ _ _ _ _ I He Hi) as [Hke _].
      rewrite lookup_delete_ne by (intros Heq; apply (Hk e He); congruence). by apply (Hlast x k v).
    + intros x k H0 Hk Hx. apply lookup_delete_Some in Hk as [Hn Hk]. apply Hh. split; [by apply (Hkept x k)|].
      intros e He. destruct (Hmade x k Hk) as [v Hi]. destruct (ins_key _ _ _ _ _ _ _ _ I He Hi) as [Hke _]. congruence.
    + intros x k Hk. apply lookup_delete_Some in Hk as [_ Hk]. eauto.
  - destruct W as [I Hc Hoff Hlast Hkept Hmade]. destruct (prune_loop_inv _ _ _ _ I ltac:(reflexivity)) as (I' & Hc' & _ & Hp).
    split; cbn [wo_cache wo_held wo_ins wo_last]; try done; unfold lru_Prune; [congruence| | |].
    + intros H0. rewrite (Hoff H0) in Hp. apply Permutation_nil in Hp. by apply app_eq_nil in Hp as [_ ?].
    + intros x k v Hx. apply Hlast. rewrite Hp. apply elem_of_app. by right.
    + intros x k H0 Hk Hx. pose proof (Hkept x k H0 Hk Hx) as Hin. rewrite Hp in Hin. apply elem_of_app in Hin as [Hin|]; [|done].
      by apply (ci_lru _ _ _ _ I) in Hin.
Qed.

Lemma reachable_inv capacity (w : World) : rtc wstep (new_world capacity) w -> WInv capacity w.
Proof.
  intros Hr. remember (new_world capacity) as w0 eqn:E. assert (WInv capacity w0) as H0 by (rewrite E; apply new_world_inv).
  clear E. induction Hr; [done|]. apply IHHr. eapply wstep_inv; done.
Qed.

Lemma Unref_last (c : LRUCache V) id e : lc_heap c !! id = Some e -> lh_refs e = 1 ->
  Unref id (set_handle id (with_in_cache false e) c) =
  mkLRUCache (lc_capacity c) (lc_usage c) (lc_lru c) (lc_in_use c) (lc_table c) (delete id (lc_heap c)) (lc_next c)
    (lc_deleted c ++ [(id, lh_key e, lh_value e)]).
Proof.
  intros He Hr. unfold Unref. cbn [set_handle lc_heap]. rewrite lookup_insert_eq. cbn [lh_refs with_in_cache]. rewrite Hr.
  change (u32 (1 - 1)) with 0. cbv zeta. cbn [Z.eqb]. unfold free_handle. cbn. by rewrite insert_insert_eq, delete_insert_eq.
Qed.

(** With no handle held, the destructor gives every remaining entry to its deleter. *)
Lemma destroy_spec (c : LRUCache V) ins : CInv [] c [] ins ->
  lc_heap (destroy_LRUCache c) = ∅ /\ (lc_deleted (destroy_LRUCache c)).*1.*1 ≡ₚ seq 0 (length ins) /\
  forall id k v, (id, k, v) ∈ lc_deleted (destroy_LRUCache c) -> ins !! id = Some (k, v).
Proof.
  intros I.
  assert (forall ids c0, Life (lc_heap c0) (lc_next c0) (lc_deleted c0) ins -> NoDup ids ->
    (forall id e, lc_heap c0 !! id = Some e -> id ∈ ids /\ lh_refs e = 1) ->
    let c1 := fold_left (fun c id => match lc_heap c !! id with Some e => Unref id (set_handle id (with_in_cache false e) c) | None => c end) ids c0 in
    Life (lc_heap c1) (lc_next c1) (lc_deleted c1) ins /\ lc_heap c1 = ∅) as Hloop.
  { intros ids. induction ids as [|x ids IH]; intros c0 L Hd Hall.
    - split; [done|]. apply map_empty. intros id. destruct (lc_heap c0 !! id) as [e|] eqn:E; [|done].
      destruct (Hall id e E) as [Hin _]. by apply not_elem_of_nil in Hin.
    - apply NoDup_cons in Hd as [Hx Hd]. cbv zeta. rewrite fold_left_cons. apply IH; [|done|].
      + destruct (lc_heap c0 !! x) as [e|] eqn:E; [|done]. destruct (Hall x e E) as [_ Hr]. rewrite Unref_last by done. by apply Life_free.
      + intros id e He. destruct (lc_heap c0 !! x) as [e0|] eqn:E.
        * destruct (Hall x e0 E) as [_ Hr]. rewrite Unref_last in He by done. cbn in He. apply lookup_delete_Some in He as [Hn He].
          destruct (Hall id e He) as [Hin ?]. split; [|done]. apply elem_of_cons in Hin as [->|]; done.
        * destruct (Hall id e He) as [Hin ?]. split; [|done]. apply elem_of_cons in Hin as [->|]; [congruence|done]. }
  destruct (Hloop (lc_lru c) c) as [L Hh].
  - apply I.
  - pose proof (ci_nodup _ _ _ _ I) as Hd. rewrite <- (ci_lists _ _ _ _ I) in Hd. by apply NoDup_app in Hd as (? & _ & _).
  - intros id e He. destruct (ci_refs _ _ _ _ I id e He) as [Hr Hp]. unfold outstanding in Hr. cbn in Hr.
    destruct (lh_in_cache e) eqn:Hc; cbn in Hr; [|lia]. split; [|lia].
    destruct (in_lists _ _ _ _ _ _ I He Hc) as [(? & _)|(_ & _ & Hn)]; [done|by apply not_elem_of_nil in Hn].
  - fold (destroy_LRUCache c) in L, Hh. split; [done|]. split.
    + apply NoDup_Permutation; [apply L|apply NoDup_seq|]. intros id. rewrite elem_of_seq. split.
      * intros Hin. apply list_elem_of_fmap in Hin as ([x k] & -> & Hin). apply list_elem_of_fmap in Hin as ([[y k'] v] & Ey & Hin).
        cbn in Ey. simplify_eq. apply (lf_deleted _ _ _ _ L) in Hin as [Hi _]. apply lookup_lt_Some in Hi. cbn. lia.
      * intros Hlt. destruct (lf_all _ _ _ _ L id) as [Hi|]; [rewrite (lf_next _ _ _ _ L); lia| |done].
        rewrite Hh in Hi. by destruct Hi.
    + intros id k v Hin. by apply (lf_deleted _ _ _ _ L) in Hin as [Hi _].
Qed.
End Clients.
Arguments World V : clear implicits.

(** ** Properties *)

Section CacheProperties.
Context {V : Type}.

(** C20. Whatever clients do with a shard (inserting, looking up, releasing handles
    they hold, erasing, pruning): a handle that is held still refers to the key and
    value it was made with; the deleter has been called with that key and value, at
    most once per handle, and for no handle that is held; no handle is lost; the
    entries on [lru_] are exactly the cached ones nobody holds and those on
    [in_use_] the cached ones somebody holds; the usage is the sum of the charges of
    the cached entries; and once no handle is held the destructor leaves nothing
    behind, every insertion having been given to the deleter exactly once. *)
Theorem lru_cache_safe (capacity : Z) (w : World V) :
  rtc wstep (new_world capacity) w ->
  let c := wo_cache w in
  (forall id, id ∈ wo_held w -> exists e, lc_heap c !! id = Some e /\ wo_ins w !! id = Some (lh_key e, lh_value e)) /\
  (forall id k v, (id, k, v) ∈ lc_deleted c -> wo_ins w !! id = Some (k, v) /\ id ∉ wo_held w) /\
  NoDup (lc_deleted c).*1.*1 /\
  (forall id, (id < length (wo_ins w))%nat -> is_Some (lc_heap c !! id) \/ id ∈ (lc_deleted c).*1.*1) /\
  (forall id, id ∈ lc_lru c <-> id ∈ handles (lc_table c) /\ id ∉ wo_held w) /\
  (forall id, id ∈ lc_in_use c <-> id ∈ handles (lc_table c) /\ id ∈ wo_held w) /\
  lru_TotalCharge c = u64 (charges (lc_heap c) (handles (lc_table c))) /\
  (wo_held w = [] -> lc_heap (destroy_LRUCache c) = ∅ /\
    (lc_deleted (destroy_LRUCache c)).*1.*1 ≡ₚ seq 0 (length (wo_ins w)) /\
    forall id k v, (id, k, v) ∈ lc_deleted (destroy_LRUCache c) -> wo_ins w !! id = Some (k, v)).
Proof.
  intros Hr. apply reachable_inv in Hr as [I _ _ _ _ _]. cbv zeta. pose proof (ci_life _ _ _ _ I) as L.
  assert (forall id, id ∈ handles (lc_table (wo_cache w)) <-> id ∈ lc_lru (wo_cache w) \/ id ∈ lc_in_use (wo_cache w)) as Hin.
  { intros id. rewrite <- elem_of_app, (ci_lists _ _ _ _ I). done. }
  split_and!.
  - intros id Hid. destruct (ci_held _ _ _ _ I id Hid) as [e He]. exists e. split; [done|]. by apply (lf_alive _ _ _ _ L).
  - intros id k v Hd. destruct (lf_deleted _ _ _ _ L id k v Hd) as [Hi Hn]. split; [done|]. intros Hid.
    destruct (ci_held _ _ _ _ I id Hid). congruence.
  - apply L.
  - intros id Hid. apply L. by rewrite (lf_next _ _ _ _ L).
  - intros id. pose proof (ci_lru _ _ _ _ I id). pose proof (ci_use _ _ _ _ I id). pose proof (Hin id). tauto.
  - intros id. pose proof (ci_lru _ _ _ _ I id). pose proof (ci_use _ _ _ _ I id). pose proof (Hin id). tauto.
  - apply (ci_usage _ _ _ _ I).
  - intros Hh. rewrite Hh in I. by apply destroy_spec.
Qed.

(** A lookup answers with the handle of the last insertion under its key that was
    not erased, or with nothing; the handle refers to the key and the value of that
    insertion; and when somebody holds that handle the lookup finds it. *)
Theorem lru_cache_lookup (capacity : Z) (w : World V) (key : bytes) (r : option nat) (c : LRUCache V) :
  rtc wstep (new_world capacity) w -> zlen (wo_held w) + 1 < 2 ^ 31 ->
  lru_Lookup key (HashSlice key) (wo_cache w) = (r, c) ->
  (forall id, r = Some id -> wo_last w !! key = Some id /\
    exists e, lc_heap c !! id = Some e /\ lh_key e = key /\ wo_ins w !! id = Some (key, lh_value e)) /\
  (forall id, 0 < capacity -> wo_last w !! key = Some id -> id ∈ wo_held w -> r = Some id).
Proof.
  intros Hr Hb E. apply reachable_inv in Hr as [I Hc Hoff Hlast Hkept Hmade].
  destruct (Lookup_inv _ _ _ _ _ _ I Hb E) as (I' & _ & Ht & Hfind). split.
  - intros id ->. destruct (proj1 (Hfind id) eq_refl) as (Hin & e & He & Hk).
    pose proof (lf_alive _ _ _ _ (ci_life _ _ _ _ I) id e He) as Hi. rewrite Hk in Hi. split; [by apply (Hlast id key (lh_value e))|].
    assert (id ∈ handles (lc_table c)) as Hin' by by rewrite Ht. destruct (handles_alive _ _ _ id I') as [e' He']; [done|].
    exists e'. split; [done|]. destruct (ins_key _ _ _ _ _ _ _ _ I' He' Hi) as [-> ->]. done.
  - intros id H0 Hl Hh. apply Hfind. pose proof (Hkept id key H0 Hl Hh) as Hin. split; [done|].
    destruct (handles_alive _ _ _ id I) as [e He]; [done|]. destruct (Hmade id key Hl) as [v Hi]. exists e. split; [done|].
    by destruct (ins_key _ _ _ _ _ _ _ _ I He Hi).
Qed.

End CacheProperties.

(** ** Witnesses *)

Definition key_a : bytes := [Byte.x61].
Definition key_b : bytes := [Byte.x62].

(** An entry inserted and released, another one inserted and held. *)
Definition demo_1 : World nat :=
  let '(id, c) := lru_Insert key_a (HashSlice key_a) 10%nat 2 (wo_cache (new_world 3)) in
  mkWorld c [id] [(key_a, 10%nat)] (<[key_a := id]> ∅).
Definition demo_2 : World nat := mkWorld (lru_Release 0 (wo_cache demo_1)) [] [(key_a, 10%nat)] (<[key_a := 0%nat]> ∅).
Definition demo_3 : World nat :=
  let '(id, c) := lru_Insert key_b (HashSlice key_b) 20%nat 1 (wo_cache demo_2) in
  mkWorld c [id] [(key_a, 10%nat); (key_b, 20%nat)] (<[key_b := id]> (<[key_a := 0%nat]> ∅)).

Lemma demo_reachable : rtc wstep (new_world 3) demo_3.
Proof.
  apply (rtc_l _ _ demo_1); [apply (ws_Insert (new_world 3) key_a 10%nat 2); [done|done|reflexivity]|].
  apply (rtc_l _ _ demo_2); [apply (ws_Release demo_1 0%nat); apply list_elem_of_lookup; exists 0%nat; vm_compute; reflexivity|].
  apply (rtc_l _ _ demo_3); [apply (ws_Insert demo_2 key_b 20%nat 1); [done|done|reflexivity]|]. apply rtc_refl.
Qed.

Lemma lru_cache_safe_witness : lru_TotalCharge (wo_cache demo_3) = 3 /\ lc_lru (wo_cache demo_3) = [0%nat] /\ lc_in_use (wo_cache demo_3) = [1%nat].
Proof.
  pose proof (lru_cache_safe 3 demo_3 demo_reachable) as (_ & _ & _ & _ & _ & _ & Hu & _).
  split; [etransitivity; [exact Hu|vm_compute; reflexivity]|]. split; vm_compute; reflexivity.
Defined.

Lemma lru_cache_lookup_witness : exists r c, lru_Lookup key_b (HashSlice key_b) (wo_cache demo_3) = (r, c) /\ r = Some 1%nat.
Proof.
  exists (fst (lru_Lookup key_b (HashSlice key_b) (wo_cache demo_3))), (snd (lru_Lookup key_b (HashSlice key_b) (wo_cache demo_3))).
  assert (forall r c, lru_Lookup key_b (HashSlice key_b) (wo_cache demo_3) = (r, c) -> r = Some 1%nat) as Hr; [|split; [apply surjective_pairing|]; eapply Hr, surjective_pairing].
  intros r c E. apply (proj2 (lru_cache_lookup 3 demo_3 key_b r c demo_reachable ltac:(vm_compute; reflexivity) E) 1%nat); [lia|vm_compute; reflexivity|].
  apply list_elem_of_lookup. exists 0%nat. vm_compute. reflexivity.
Defined.

