(* ===== verification/Table.v ===== *)
(** * Table: reading a table ([table/table.cc], [table/table.h])

    [Open] checks the footer and reads the index and the filter, [BlockReader]
    turns an index value into an iterator over a data block, through the block
    cache when there is one, [NewIterator] is the two-level iterator over them and
    [InternalGet] a point lookup.  The file, the cache and the decompressors are
    parameters.  The main result: what [TableBuilder] wrote is what a table reads. *)

From stdpp Require Import sorting.
From S2P Require Import Prelude Status Coding Comparator Crc32c FilterPolicy Env Format Iterator Block FilterBlock Logging.
From S2P Require Import TwoLevelIterator TableBuilder Cache.
From Stdlib Require Import Sorting.Sorted.

(** A success as [Result<void>]. *)
Definition to_result (s : Status) : Result unit := if ok s then Ok tt else Err s.
Definition of_result {T : Type} (r : Result T) : Status := match r with Ok _ => StatusOK | Err s => s end.

Record TableOptions := mkTableOptions { to_has_filter : bool; to_paranoid_checks : bool }.
Record ReadOptions := mkReadOptions { ro_verify_checksums : bool; ro_fill_cache : bool }.

(** The defaults of [ReadOptions], with the checksums when asked for. *)
Definition meta_read_options (paranoid_checks : bool) : ReadOptions := mkReadOptions paranoid_checks true.

(** [Table::Rep].  [status] is never assigned and [filter_data] only owns memory. *)
Record Table (F : Type) := mkTable {
  t_options : TableOptions;
  t_file : F;
  t_cache_id : Z;
  t_filter : option FilterBlockReader;
  t_metaindex_handle : BlockHandle;
  t_index_block : Block
}.
Arguments mkTable {F}.
Arguments t_options {F}.
Arguments t_file {F}.
Arguments t_cache_id {F}.
Arguments t_filter {F}.
Arguments t_metaindex_handle {F}.
Arguments t_index_block {F}.

Abbreviation AnyBlockIter := (EmptyIterator + BlockIter)%type.

Section TableDef.
Context (slen zstlen : bytes -> option Z) (sun zun : bytes -> option bytes).
Context {C : Comparator} {P : FilterPolicy} {F : Type} `{RandomAccessFile F} {K Hd : Type} `{Cache K Hd Block}.

Abbreviation read := (ReadBlock slen zstlen sun zun).

Definition set_table_filter (filter : FilterBlockReader) (t : Table F) : Table F :=
  mkTable (t_options t) (t_file t) (t_cache_id t) (Some filter) (t_metaindex_handle t) (t_index_block t).

Definition ReadFilter (filter_handle_value : bytes) (t : Table F) : Table F :=
  match BlockHandle_DecodeFrom filter_handle_value with
  | Err _ => t
  | Ok (filter_handle, _) =>
      let opt := meta_read_options (to_paranoid_checks (t_options t)) in
      match read (t_file t) (ro_verify_checksums opt) filter_handle with
      | Err _ => t
      | Ok block => set_table_filter (newFilterBlockReader (bc_data block)) t
      end
  end.

Definition BytewiseIter : Iterator AnyBlockIter := sum_iter (HB := BlockIter_iter (C := BytewiseComparator)).

Definition ReadMeta (footer : Footer) (t : Table F) : Table F :=
  if negb (to_has_filter (t_options t)) then t
  else
    let opt := meta_read_options (to_paranoid_checks (t_options t)) in
    match read (t_file t) (ro_verify_checksums opt) (metaindex_handle_ footer) with
    | Err _ => t
    | Ok contents =>
        let meta := newBlock (bc_data contents) in
        let iter := it_Seek (Iterator := BytewiseIter) filter_meta_key (Block_NewIterator meta) in
        if it_Valid (Iterator := BytewiseIter) iter && bool_decide (it_key (Iterator := BytewiseIter) iter = filter_meta_key)
        then ReadFilter (it_value (Iterator := BytewiseIter) iter) t else t
    end.

(** [cache] is [options.block_cache]. *)
Definition Table_Open (options : TableOptions) (file : F) (size : Z) (cache : option K) : Result (Table F) * option K :=
  if size <? kEncodedLength then (Err (Corruption "file is too short to be an sstable" ""), cache)
  else
    let res :=
      footer_input ← raf_Read file (size - kEncodedLength) kEncodedLength;
      '(footer, _) ← Footer_DecodeFrom footer_input;
      let opt := meta_read_options (to_paranoid_checks options) in
      contents ← read file (ro_verify_checksums opt) (index_handle_ footer);
      Ok (footer, newBlock (bc_data contents)) in
    match res with
    | Err s => (Err s, cache)
    | Ok (footer, index_block) =>
        let '(cache_id, cache) :=
          match cache with Some c => let '(id, c) := ca_NewId c in (id, Some c) | None => (0, None) end in
        (Ok (ReadMeta footer (mkTable options file cache_id None (metaindex_handle_ footer) index_block)), cache)
    end.

Definition cache_key (t : Table F) (handle : BlockHandle) : bytes :=
  EncodeFixed64 (t_cache_id t) ++ EncodeFixed64 (bh_offset handle).

(** The iterator, the cache, and the cache handle its cleanup releases.  (The value
    of a handle just looked up is there: [ca_Lookup_sound].) *)
Definition BlockReader (t : Table F) (options : ReadOptions) (index_value : bytes) (cache : option K)
  : AnyBlockIter * option Hd * option K :=
  match BlockHandle_DecodeFrom index_value with
  | Err s => (inl (NewErrorIterator s), None, cache)
  | Ok (handle, _) =>
      match cache with
      | Some c =>
          let key := cache_key t handle in
          let '(cache_handle, c) := ca_Lookup key c in
          match cache_handle with
          | Some h =>
              match ca_Value c h with
              | Some block => (Block_NewIterator block, Some h, Some c)
              | None => (inl (NewEmptyIterator), Some h, Some c)
              end
          | None =>
              match read (t_file t) (ro_verify_checksums options) handle with
              | Ok contents =>
                  let block := newBlock (bc_data contents) in
                  if bc_cachable contents && ro_fill_cache options then
                    let '(h, c) := ca_Insert key block (blk_size block) c in (Block_NewIterator block, Some h, Some c)
                  else (Block_NewIterator block, None, Some c)
              | Err s => (inl (NewErrorIterator s), None, Some c)
              end
          end
      | None =>
          match read (t_file t) (ro_verify_checksums options) handle with
          | Ok contents => (Block_NewIterator (newBlock (bc_data contents)), None, None)
          | Err s => (inl (NewErrorIterator s), None, None)
          end
      end
  end.

(** The function given to [NewTwoLevelIterator].  The block iterator has the block, so
    the handle is released here; the code does it when the block iterator is destroyed,
    which only makes a difference for what the cache evicts in between. *)
Definition BlockReader_iter (t : Table F) (options : ReadOptions) (index_value : bytes) (cache : option K) : AnyBlockIter * option K :=
  let '(block_iter, cache_handle, cache) := BlockReader t options index_value cache in
  (block_iter, match cache_handle, cache with Some h, Some c => Some (ca_Release h c) | _, _ => cache end).

(** The loops of the two-level iterator need one round per index entry, and an
    entry takes a byte at least. *)
Definition table_fuel (t : Table F) : nat := S (length (blk_data (t_index_block t))).

(** The iterator carries the block cache: every block is looked up there when it is
    reached, and inserted when it is not found. *)
Definition Table_NewIterator (t : Table F) (cache : option K) : TwoLevelIterator AnyBlockIter AnyBlockIter (option K) :=
  newTwoLevelIterator (Block_NewIterator (t_index_block t)) cache.

(** The operations of that iterator. *)
Definition TableIterator (t : Table F) (options : ReadOptions) : Iterator (TwoLevelIterator AnyBlockIter AnyBlockIter (option K)) :=
  TwoLevelIterator_iter (BlockReader_iter t options) (table_fuel t).

(** The result, and the entry [handle_result] is called with. *)
Definition InternalGet (t : Table F) (options : ReadOptions) (k : bytes) (cache : option K)
  : Result unit * option (bytes * bytes) * option K :=
  let iiter := it_Seek k (Block_NewIterator (t_index_block t)) in
  let '(s, found, cache) :=
    if it_Valid iiter then
      let handle_value := it_value iiter in
      let skip :=
        match t_filter t, BlockHandle_DecodeFrom handle_value with
        | Some filter, Ok (handle, _) => negb (FilterBlock_KeyMayMatch filter (bh_offset handle) k)
        | _, _ => false
        end in
      if skip then (Ok tt, None, cache)
      else
        let '(block_iter, cache_handle, cache) := BlockReader t options handle_value cache in
        let block_iter := it_Seek k block_iter in
        let found := if it_Valid block_iter then Some (it_key block_iter, it_value block_iter) else None in
        let s := to_result (it_status block_iter) in
        let cache := match cache_handle, cache with Some h, Some c => Some (ca_Release h c) | _, _ => cache end in
        (s, found, cache)
    else (Ok tt, None, cache) in
  (if is_ok s then to_result (it_status iiter) else s, found, cache).

Definition ApproximateOffsetOf (t : Table F) (key : bytes) : Z :=
  let index_iter := it_Seek key (Block_NewIterator (t_index_block t)) in
  if it_Valid index_iter then
    match BlockHandle_DecodeFrom (it_value index_iter) with
    | Ok (handle, _) => bh_offset handle
    | Err _ => bh_offset (t_metaindex_handle t)
    end
  else bh_offset (t_metaindex_handle t).

End TableDef.

(** ** The layout of a finished table *)

Section Layout.
Context {C : Comparator} {CL : ComparatorLaws C} {P : FilterPolicy} {PL : FilterPolicyLaws P}.
Context (slen zstlen : bytes -> option Z) (sun zun : bytes -> option bytes).
Context {F : Type} `{RandomAccessFileLaws F}.
Context (opts : TableBuilderOptions) (blks : list entries) (idx : entries).

Abbreviation ri := (tbo_block_restart_interval opts).
Abbreviation read := (ReadBlock slen zstlen sun zun).
Abbreviation imgs := (images opts).
Abbreviation table := (table_image opts blks idx).

Context (file : F) (Hfile : raf_data file = table) (Hsize : zlen table < 2 ^ 32) (Hri : 1 <= ri).
Context (Hlen : length idx = length blks) (Hsep : index_sep opts blks [] idx) (Hne : Forall (fun x => x <> []) blks).
Context (HS : keys_sorted (concat blks)).

Lemma images_app (a b : list entries) : imgs (a ++ b) = imgs a ++ imgs b.
Proof. unfold images. rewrite map_app, concat_app. done. Qed.

(** Any block image of the file can be read through its handle. *)
Lemma read_image (pre raw post : bytes) (verify : bool) :
  table = pre ++ block_image raw ++ post ->
  read file verify (mkBlockHandle (zlen pre) (zlen raw)) = Ok (mkBlockContents raw (raf_in_scratch file)) /\
  zlen pre + zlen raw < 2 ^ 32 /\ handle_ok (mkBlockHandle (zlen pre) (zlen raw)).
Proof.
  intros E. pose proof Hsize as Hs. rewrite E, !zlen_app, zlen_block_image in Hs. unfold kBlockTrailerSize in Hs.
  pose proof (zlen_nonneg pre). pose proof (zlen_nonneg raw). pose proof (zlen_nonneg post). split_and!.
  - eapply ReadBlock_at; [|done|unfold kBlockTrailerSize; lia]. rewrite Hfile, E. unfold block_image. rewrite <- !app_assoc. done.
  - lia.
  - split; simpl; lia.
Qed.

Lemma table_data_block (b : nat) (kvs : entries) : blks !! b = Some kvs ->
  exists post, table = imgs (take b blks) ++ block_image (build_block ri kvs) ++ post.
Proof.
  intros Hb. assert (imgs blks = imgs (take b blks) ++ block_image (build_block ri kvs) ++ imgs (drop (S b) blks)) as E.
  { rewrite <- (take_drop_middle blks b kvs Hb) at 1. rewrite images_app.
    change (kvs :: drop (S b) blks) with ([kvs] ++ drop (S b) blks). rewrite images_app.
    change (imgs [kvs]) with (block_image (build_block ri kvs) ++ []). rewrite app_nil_r. done. }
  unfold table_image. rewrite E, <- !app_assoc. eauto.
Qed.

Lemma table_filter_block : tbo_has_filter opts = true ->
  exists post, table = imgs blks ++ block_image (filter_raw opts blks) ++ post.
Proof. intros E. unfold table_image, filter_image. rewrite E. eauto. Qed.

Lemma table_meta_block : exists post,
  table = (imgs blks ++ filter_image opts blks) ++ block_image (meta_raw opts blks) ++ post.
Proof. unfold table_image. eexists. rewrite <- !app_assoc. done. Qed.

Lemma table_index_block : exists post,
  table = (imgs blks ++ filter_image opts blks ++ block_image (meta_raw opts blks)) ++ block_image (build_block 1 idx) ++ post.
Proof. unfold table_image. eexists. rewrite <- !app_assoc. done. Qed.

(** Block offsets increase, so a handle names one block. *)
Lemma images_take_lt (b b' : nat) : (b < b')%nat -> (b < length blks)%nat -> zlen (imgs (take b blks)) < zlen (imgs (take b' blks)).
Proof.
  intros Hlt Hb. destruct (lookup_lt_is_Some_2 blks b Hb) as [kvs Hk].
  replace b' with (S b + (b' - S b))%nat by lia. rewrite <- take_take_drop, images_app, zlen_app.
  rewrite (take_S_r _ _ _ Hk), images_snoc, zlen_app, zlen_block_image.
  pose proof (zlen_nonneg (build_block ri kvs)). unfold kBlockTrailerSize.
  match goal with |- _ < _ + _ + zlen ?x => pose proof (zlen_nonneg x) end. lia.
Qed.

Lemma data_read (b : nat) (kvs : entries) (verify : bool) : blks !! b = Some kvs ->
  read file verify (blk_handle opts blks b kvs) = Ok (mkBlockContents (build_block ri kvs) (raf_in_scratch file)) /\
  zlen (build_block ri kvs) < 2 ^ 32 /\ handle_ok (blk_handle opts blks b kvs).
Proof.
  intros Hb. destruct (table_data_block b kvs Hb) as [post E]. destruct (read_image _ _ _ verify E) as (H1 & H2 & H3).
  pose proof (zlen_nonneg (imgs (take b blks))). split_and!; [done|lia|done].
Qed.

Lemma handle_decodes (b : nat) (kvs : entries) : blks !! b = Some kvs ->
  BlockHandle_DecodeFrom (handle_bytes (blk_handle opts blks b kvs)) = Ok (blk_handle opts blks b kvs, []).
Proof.
  intros Hb. rewrite <- (app_nil_r (handle_bytes _)). apply BlockHandle_decode_encode. apply (data_read b kvs true Hb).
Qed.

Lemma handle_names_block (b b' : nat) (kvs kvs' : entries) : blks !! b = Some kvs -> blks !! b' = Some kvs' ->
  handle_bytes (blk_handle opts blks b kvs) = handle_bytes (blk_handle opts blks b' kvs') -> b = b'.
Proof.
  intros Hb Hb' E. pose proof (handle_decodes b kvs Hb) as D. rewrite E, (handle_decodes b' kvs' Hb') in D.
  injection D as Eo _. pose proof (lookup_lt_Some _ _ _ Hb). pose proof (lookup_lt_Some _ _ _ Hb').
  destruct (Nat.lt_trichotomy b b') as [Hlt|[->|Hlt]]; [|done|]; exfalso.
  - pose proof (images_take_lt b b' Hlt ltac:(lia)). lia.
  - pose proof (images_take_lt b' b Hlt ltac:(lia)). lia.
Qed.

(** The entries behind an index value. *)
Definition content (h : bytes) : entries :=
  match list_find (fun p : bytes * entries => fst p = h) (zip (map snd idx) blks) with Some (_, p) => snd p | None => [] end.

Lemma zip_at (b : nat) (p : bytes * entries) : zip (map snd idx) blks !! b = Some p <->
  exists k, idx !! b = Some (k, fst p) /\ blks !! b = Some (snd p).
Proof.
  rewrite lookup_zip_with_Some, list_lookup_fmap. destruct p as [h kvs]. simpl. split.
  - intros (x & y & E1 & E2 & E3). injection E1 as -> ->. destruct (idx !! b) as [[k h']|]; [|done]. injection E2 as ->. eauto.
  - intros (k & -> & ->). exists h, kvs. done.
Qed.

Lemma content_at (b : nat) (k h : bytes) (kvs : entries) : idx !! b = Some (k, h) -> blks !! b = Some kvs -> content h = kvs.
Proof.
  intros Hi Hb. unfold content. destruct (list_find _ _) as [[b' [h' kvs']]|] eqn:E.
  - apply list_find_Some in E as (E1 & E2 & _). simpl in E2. subst h'. apply zip_at in E1 as (k' & Hi' & Hb'). simpl in *.
    destruct (Hsep b k h kvs Hi Hb) as [Eh _]. destruct (Hsep b' k' h kvs' Hi' Hb') as [Eh' _].
    assert (b = b') as -> by (eapply handle_names_block; [done|done|congruence]). congruence.
  - apply list_find_None in E. rewrite Forall_forall in E. exfalso. apply (E (h, kvs)); [|done].
    apply list_elem_of_lookup. exists b. apply zip_at. eauto.
Qed.

Lemma index_block_at (b : nat) (k h : bytes) : idx !! b = Some (k, h) -> exists kvs, blks !! b = Some kvs /\ content h = kvs.
Proof.
  intros Hi. destruct (lookup_lt_is_Some_2 blks b) as [kvs Hb]; [apply lookup_lt_Some in Hi; lia|].
  exists kvs. split; [done|]. eapply content_at; done.
Qed.

Lemma content_blocks : map (fun kh => content (snd kh)) idx = blks.
Proof.
  apply list_eq. intros b. rewrite list_lookup_fmap. destruct (idx !! b) as [[k h]|] eqn:Hi.
  - destruct (index_block_at b k h Hi) as (kvs & Hb & Ec). simpl. rewrite Hb, Ec. done.
  - symmetry. apply lookup_ge_None. apply lookup_ge_None in Hi. lia.
Qed.

Lemma block_sorted (b : nat) (kvs : entries) : blks !! b = Some kvs -> keys_sorted kvs.
Proof.
  intros Hb. rewrite <- (take_drop_middle blks b kvs Hb), concat_app in HS. apply keys_sorted_app in HS as [_ HS'].
  simpl in HS'. apply keys_sorted_app in HS' as [HS' _]. done.
Qed.

(** The index keys are sorted themselves. *)
Lemma keys_sorted_lookup (kvs : entries) :
  (forall i j x y, (i < j)%nat -> kvs !! i = Some x -> kvs !! j = Some y -> clt (fst x) (fst y)) -> keys_sorted kvs.
Proof.
  induction kvs as [|x kvs IH]; intros Hp; [constructor|]. constructor.
  - apply IH. intros i j a b Hij Hi Hj. apply (Hp (S i) (S j)); [lia|done|done].
  - apply Forall_forall. intros y Hy. apply list_elem_of_lookup in Hy as [j Hj]. apply (Hp 0%nat (S j)); [lia|done|done].
Qed.

Lemma index_sorted : keys_sorted idx.
Proof.
  apply keys_sorted_lookup. intros i j [k h] [k' h'] Hij Hi Hj.
  destruct (index_block_at i k h Hi) as (kvs & Hb & _). destruct (index_block_at j k' h' Hj) as (kvs' & Hb' & _).
  destruct (Hsep i k h kvs Hi Hb) as (_ & _ & H3 & _). destruct (Hsep j k' h' kvs' Hj Hb') as (_ & H2 & _).
  assert (kvs' <> []) as Hn by (rewrite Forall_lookup in Hne; apply (Hne j); done).
  destruct kvs' as [|e kvs']; [done|]. eapply clt_cle_trans; [apply (H3 j _ e Hij Hb'); left|apply H2; left].
Qed.

(** ** Opening it *)

Lemma any_block_sim {C' : Comparator} {CL' : ComparatorLaws C'} (kvs : entries) :
  keys_sorted kvs -> IterSim kvs (right_at (A := EmptyIterator) (block_rel kvs)).
Proof. intros Hk. apply sum_sim_right, block_rel_sim. done. Qed.

Definition expected_filter (options : TableOptions) : option FilterBlockReader :=
  if to_has_filter options && tbo_has_filter opts then Some (newFilterBlockReader (filter_raw opts blks)) else None.

Lemma ReadFilter_spec (t : Table F) : tbo_has_filter opts = true -> t_file t = file ->
  ReadFilter slen zstlen sun zun (handle_bytes (filter_handle opts blks)) t
    = set_table_filter (newFilterBlockReader (filter_raw opts blks)) t.
Proof.
  intros Hf Ht. destruct (table_filter_block Hf) as [post E]. destruct (read_image _ _ _ (to_paranoid_checks (t_options t)) E) as (Hr & _ & Hh).
  unfold ReadFilter. rewrite <- (app_nil_r (handle_bytes _)), BlockHandle_decode_encode by exact Hh. cbv zeta.
  unfold filter_handle, meta_read_options. cbn [ro_verify_checksums]. rewrite Ht, Hr. done.
Qed.

Lemma ReadMeta_spec (t : Table F) : t_file t = file -> t_filter t = None ->
  ReadMeta slen zstlen sun zun (table_footer opts blks idx) t
    = mkTable (t_options t) file (t_cache_id t) (expected_filter (t_options t)) (t_metaindex_handle t) (t_index_block t).
Proof.
  intros Ht Hn. unfold ReadMeta, expected_filter. destruct (to_has_filter (t_options t)) eqn:Eo; cbn [negb andb].
  2: { destruct t. simpl in *. subst. done. }
  destruct table_meta_block as [post E]. destruct (read_image _ _ _ (to_paranoid_checks (t_options t)) E) as (Hr & Hb & _).
  cbv zeta. cbn [table_footer metaindex_handle_]. unfold meta_handle, meta_read_options. cbn [ro_verify_checksums]. rewrite Ht, Hr. cbn [bc_data].
  destruct (build_block_opens ri (meta_entries opts blks) Hri) as (it & Eit & Hrel);
    [pose proof (zlen_nonneg (imgs blks ++ filter_image opts blks)); unfold meta_raw in Hb; lia|].
  unfold meta_raw. rewrite Eit.
  assert (keys_sorted (C := BytewiseComparator) (meta_entries opts blks)) as Hms
    by (unfold meta_entries; destruct (tbo_has_filter opts); repeat constructor).
  pose proof (any_block_sim (C' := BytewiseComparator) _ Hms) as Sim. change (sum_iter (HB := BlockIter_iter)) with BytewiseIter in Sim.
  pose proof (sim_seek _ _ Sim (inr it) None filter_meta_key Hrel) as Hs.
  remember (it_Seek (Iterator := BytewiseIter) filter_meta_key (inr it)) as X eqn:HX. clear HX.
  pose proof (sim_valid _ _ Sim _ _ Hs) as Hv. rewrite Hv. unfold meta_entries in Hs, Hv, Sim |- *.
  destruct (tbo_has_filter opts) eqn:Ef.
  - assert (seek_index (C := BytewiseComparator) filter_meta_key [(filter_meta_key, handle_bytes (filter_handle opts blks))] = Some 0%nat) as Es.
    { simpl. unfold at_or_past. simpl fst. rewrite (cmp_refl (C := BytewiseComparator)). done. }
    rewrite Es in *. pose proof (sim_entry _ _ Sim _ _ Hs) as He.
    assert (it_key (Iterator := BytewiseIter) X = filter_meta_key /\
            it_value (Iterator := BytewiseIter) X = handle_bytes (filter_handle opts blks)) as [-> ->] by (injection He as Ek Ev; done).
    rewrite bool_decide_eq_true_2 by done. cbn [andb]. rewrite ReadFilter_spec by done. destruct t. simpl in *. subst. done.
  - simpl. destruct t. simpl in *. subst. done.
Qed.

Lemma table_footer_read :
  raf_Read file (zlen table - kEncodedLength) kEncodedLength = Ok (footer_bytes (table_footer opts blks idx)) /\
  kEncodedLength <= zlen table.
Proof.
  set (body := imgs blks ++ filter_image opts blks ++ block_image (meta_raw opts blks) ++ block_image (build_block 1 idx)).
  assert (table = body ++ footer_bytes (table_footer opts blks idx)) as E by (unfold table_image, body; rewrite <- !app_assoc; done).
  assert (zlen table = zlen body + kEncodedLength) as El by (rewrite E, zlen_app, footer_bytes_length; done).
  pose proof (zlen_nonneg body). split; [|lia].
  rewrite raf_Read_spec by (unfold kEncodedLength, kMaxEncodedLength in *; lia). rewrite Hfile, El, E.
  replace (zlen body + kEncodedLength - kEncodedLength) with (zlen body) by lia.
  rewrite zdrop_app_exact, <- (footer_bytes_length (table_footer opts blks idx)).
  rewrite <- (app_nil_r (footer_bytes _)) at 2. rewrite ztake_app_exact. done.
Qed.

Context {K Hd : Type} `{CacheLaws K Hd Block}.

Definition opened (options : TableOptions) (cache_id : Z) : Table F :=
  mkTable options file cache_id (expected_filter options) (meta_handle opts blks) (newBlock (build_block 1 idx)).

Lemma Open_spec (options : TableOptions) (cache : option K) :
  Table_Open slen zstlen sun zun options file (zlen table) cache
  = match cache with
    | Some c => (Ok (opened options (fst (ca_NewId c))), Some (snd (ca_NewId c)))
    | None => (Ok (opened options 0), None)
    end.
Proof.
  destruct table_footer_read as [Hr Hl]. destruct table_meta_block as [pm Em]. destruct table_index_block as [pi Ei].
  destruct (read_image _ _ _ true Em) as (_ & _ & Hm). destruct (read_image _ _ _ (to_paranoid_checks options) Ei) as (Hri' & _ & Hi).
  unfold Table_Open. destruct (Z.ltb_spec (zlen table) kEncodedLength); [lia|]. rewrite Hr. cbn [mbind Result_bind].
  rewrite <- (app_nil_r (footer_bytes _)), Footer_decode_encode by done. cbn [mbind Result_bind]. unfold meta_read_options.
  cbn [ro_verify_checksums table_footer index_handle_]. unfold index_handle. rewrite Hri'. cbn [mbind Result_bind bc_data].
  destruct cache as [c|]; [destruct (ca_NewId c) as [id c']|]; cbv zeta; rewrite ReadMeta_spec by done; done.
Qed.

(** ** Reading its blocks *)

(** A coherent cache holds nothing but the blocks of the file under their keys. *)
Definition coherent (t : Table F) (cache : option K) : Prop :=
  match cache with
  | Some c => forall b kvs blk, blks !! b = Some kvs -> ca_holds c (cache_key t (blk_handle opts blks b kvs)) blk ->
                blk = newBlock (build_block ri kvs)
  | None => True
  end.

Lemma cache_key_inj (t : Table F) (b b' : nat) (kvs kvs' : entries) : blks !! b = Some kvs -> blks !! b' = Some kvs' ->
  cache_key t (blk_handle opts blks b kvs) = cache_key t (blk_handle opts blks b' kvs') -> kvs = kvs'.
Proof.
  intros Hb Hb' E. unfold cache_key in E. apply app_inv_head in E.
  apply (f_equal (fun x => DecodeFixed64 (x ++ []))) in E. rewrite !DecodeFixed64_Encode in E; [|eapply (data_read _ _ true); done..].
  unfold blk_handle in E. cbn [bh_offset] in E. pose proof (lookup_lt_Some _ _ _ Hb). pose proof (lookup_lt_Some _ _ _ Hb').
  destruct (Nat.lt_trichotomy b b') as [Hlt|[->|Hlt]]; [|congruence|]; exfalso.
  - pose proof (images_take_lt b b' Hlt ltac:(lia)). lia.
  - pose proof (images_take_lt b' b Hlt ltac:(lia)). lia.
Qed.

(** With or without a cache, whatever it has kept, a data block is what was
    written, and the cache stays coherent. *)
Lemma BlockReader_cached (t : Table F) (ro : ReadOptions) (cache : option K) (b : nat) (kvs : entries) :
  t_file t = file -> coherent t cache -> blks !! b = Some kvs ->
  exists h cache', BlockReader slen zstlen sun zun t ro (handle_bytes (blk_handle opts blks b kvs)) cache
      = (Block_NewIterator (newBlock (build_block ri kvs)), h, cache') /\ coherent t cache'.
Proof.
  intros Ht Hc Hb. unfold BlockReader. rewrite (handle_decodes b kvs Hb), Ht.
  rewrite (proj1 (data_read b kvs (ro_verify_checksums ro) Hb)). destruct cache as [c|]; [|eauto]. cbv zeta.
  destruct (ca_Lookup _ c) as [hit c1] eqn:El.
  assert (coherent t (Some c1)) as Hc1.
  { intros b' kvs' blk Hb' Hh. apply (Hc b' kvs' blk Hb'). eapply ca_Lookup_keeps; done. }
  destruct hit as [h|].
  - exists (Some h), (Some c1). split; [|done]. destruct (ca_Lookup_sound _ _ _ _ El) as (blk & -> & Hh).
    by rewrite (Hc b kvs blk Hb).
  - cbn [bc_cachable bc_data]. destruct (raf_in_scratch file && ro_fill_cache ro); [|eauto].
    destruct (ca_Insert _ _ _ c1) as [h c2] eqn:Ei. exists (Some h), (Some c2). split; [done|].
    intros b' kvs' blk Hb' Hh. destruct (ca_Insert_keeps _ _ _ _ _ _ _ _ Ei Hh) as [[Ek ->]|Hh']; [|apply (Hc1 b' kvs' blk Hb' Hh')].
    rewrite (cache_key_inj t b' b kvs' kvs Hb' Hb Ek). done.
Qed.

Lemma coherent_release (t : Table F) (h : option Hd) (cache : option K) :
  coherent t cache -> coherent t (match h, cache with Some h, Some c => Some (ca_Release h c) | _, _ => cache end).
Proof. intros Hc. destruct h as [h|], cache as [c|]; try done. intros b kvs blk Hb Hh. apply (Hc b kvs blk Hb). eapply ca_Release_keeps. done. Qed.

(** ** The table's iterator *)

Lemma index_opens : exists it, Block_NewIterator (newBlock (build_block 1 idx)) = inr it /\ block_rel idx it None.
Proof.
  destruct table_index_block as [post E]. destruct (read_image _ _ _ true E) as (_ & Hsz & _).
  apply build_block_opens; [lia|].
  match type of Hsz with zlen ?x + _ < _ => pose proof (zlen_nonneg x) end. lia.
Qed.

Lemma data_opens (b : nat) (kvs : entries) : blks !! b = Some kvs ->
  exists it, Block_NewIterator (newBlock (build_block ri kvs)) = inr it /\ block_rel kvs it None.
Proof. intros Hb. apply build_block_opens; [done|]. apply (data_read b kvs true Hb). Qed.

Lemma index_value (h : bytes) : h ∈ map snd idx ->
  exists b kvs, blks !! b = Some kvs /\ content h = kvs /\ h = handle_bytes (blk_handle opts blks b kvs).
Proof.
  intros Hh. apply list_elem_of_fmap in Hh as ([k h'] & Eh & Hin). simpl in Eh. subst h'.
  apply list_elem_of_lookup in Hin as [b Hi]. destruct (index_block_at b k h Hi) as (kvs & Hb & Ec).
  exists b, kvs. split_and!; [done|done|]. apply (Hsep b k h kvs Hi Hb).
Qed.

Lemma index_separates (b : nat) (k h : bytes) : idx !! b = Some (k, h) ->
  (forall e, e ∈ content h -> cle (fst e) k) /\
  (forall b' k' h' e, (b < b')%nat -> idx !! b' = Some (k', h') -> e ∈ content h' -> clt k (fst e)).
Proof.
  intros Hi. destruct (index_block_at b k h Hi) as (kvs & Hb & Ec). destruct (Hsep b k h kvs Hi Hb) as (_ & Hle & Hlt & _). split.
  - rewrite Ec. done.
  - intros b' k' h' e Hbb Hi'. destruct (index_block_at b' k' h' Hi') as (kvs' & Hb' & ->). apply (Hlt b'); done.
Qed.

Definition index_rel : AnyBlockIter -> option nat -> Prop := right_at (block_rel idx).
Definition data_rel (h : bytes) : AnyBlockIter -> option nat -> Prop := right_at (block_rel (content h)).

Lemma data_rel_sim (h : bytes) : h ∈ map snd idx -> IterSim (content h) (data_rel h).
Proof. intros Hh. unfold data_rel. destruct (index_value h Hh) as (b & kvs & Hb & -> & _). apply any_block_sim. eapply block_sorted. done. Qed.

Abbreviation table_at t := (tl_at idx index_rel content data_rel (coherent t)).

Lemma TableIterator_sim (options : TableOptions) (id : Z) (ro : ReadOptions) :
  let t := opened options id in
  IterSim (H := TableIterator slen zstlen sun zun t ro) (concat blks) (table_at t) /\
  forall cache, coherent t cache -> table_at t (Table_NewIterator t cache) None.
Proof.
  intros t. rewrite <- content_blocks. change (concat (map _ idx)) with (all_entries idx content). split.
  - apply two_level_sim; try exact CL.
    + apply any_block_sim, index_sorted.
    + apply data_rel_sim.
    + intros h cache Hh Hc. destruct (index_value h Hh) as (b & kvs & Hb & Ec & ->). unfold BlockReader_iter, data_rel.
      destruct (BlockReader_cached t ro cache b kvs eq_refl Hc Hb) as (hd & cache' & -> & Hc'). cbn [fst snd]. split; [by apply coherent_release|]. exists None. rewrite Ec.
      destruct (data_opens b kvs Hb) as (it & -> & Hrel). exact Hrel.
    + apply index_separates.
    + unfold table_fuel, t, opened. cbn [t_index_block]. pose proof (build_block_size 1 idx ltac:(lia)).
      assert (blk_data (newBlock (build_block 1 idx)) = build_block 1 idx) as ->
        by (unfold newBlock; destruct (_ <? _); [done|]; destruct (_ <? _); done).
      unfold zlen in *. lia.
  - intros cache Hc. unfold Table_NewIterator, t, opened. cbn [t_index_block]. destruct index_opens as (it & -> & Hrel).
    eapply newTwoLevelIterator_at; [exact Hrel|exact Hc].
Qed.

(** ** Point lookups *)

Definition filter_passes (options : TableOptions) (b : nat) (k : bytes) : bool :=
  match expected_filter options with
  | Some f => FilterBlock_KeyMayMatch f (zlen (imgs (take b blks))) k
  | None => true
  end.

(** The block the index points to, when the filter lets the key through. *)
Definition lookup_spec (options : TableOptions) (k : bytes) : option (bytes * bytes) :=
  match seek_index k idx with
  | Some b =>
      match blks !! b with
      | Some kvs => if filter_passes options b k then cur_observe kvs (seek_index k kvs) else None
      | None => None
      end
  | None => None
  end.

Lemma InternalGet_spec (options : TableOptions) (id : Z) (ro : ReadOptions) (k : bytes) (cache : option K) :
  let t := opened options id in coherent t cache ->
  exists cache', InternalGet slen zstlen sun zun t ro k cache = (Ok tt, lookup_spec options k, cache') /\ coherent t cache'.
Proof.
  intros t Hc. unfold InternalGet, lookup_spec. change (t_index_block t) with (newBlock (build_block 1 idx)).
  destruct index_opens as (it & -> & Hrel). pose proof (any_block_sim idx index_sorted) as Sim.
  pose proof (sim_seek _ _ Sim (inr it) None k Hrel) as Hs. cbv zeta.
  remember (it_Seek k (inr it)) as iiter eqn:HX. clear HX. rewrite (sim_status _ _ Sim _ _ Hs), (sim_valid _ _ Sim _ _ Hs).
  destruct (seek_index k idx) as [b|]; [|exists cache; done].
  pose proof (sim_entry _ _ Sim _ _ Hs) as He. destruct (index_block_at b _ _ He) as (kvs & Hb & _). rewrite Hb.
  destruct (Hsep b _ _ kvs He Hb) as [-> _]. rewrite (handle_decodes b kvs Hb).
  change (t_filter t) with (expected_filter options). unfold filter_passes.
  match goal with |- context [if ?x then (Ok tt, None, cache) else _] =>
    assert (x = negb (match expected_filter options with
                      | Some f => FilterBlock_KeyMayMatch f (zlen (imgs (take b blks))) k | None => true end)) as ->
      by (destruct (expected_filter options); done) end.
  destruct (match expected_filter options with Some f => _ | None => true end); cbn [negb]; [|exists cache; done].
  destruct (BlockReader_cached t ro cache b kvs eq_refl Hc Hb) as (hd & cache' & -> & Hc').
  destruct (data_opens b kvs Hb) as (bi & -> & Hbrel). pose proof (any_block_sim kvs (block_sorted b kvs Hb)) as Simb.
  pose proof (sim_seek _ _ Simb (inr bi) None k Hbrel) as Hsb. remember (it_Seek k (inr bi)) as X eqn:HX. clear HX.
  rewrite (sim_status _ _ Simb _ _ Hsb). destruct (observe_sim _ _ _ _ Simb Hsb) as [Hobs _]. unfold observe in Hobs. rewrite Hobs.
  eexists. split; [reflexivity|]. by apply coherent_release.
Qed.

(** ** The filter lets the stored keys through *)

Definition filter_input : list (Z * list bytes) := feed opts 0 blks ++ [(zlen (imgs blks), [])].

Lemma feed_lookup (off : Z) (l : list entries) (b : nat) :
  feed opts off l !! b = (fun kvs => (off + zlen (imgs (take b l)), map fst kvs)) <$> l !! b.
Proof.
  revert off b. induction l as [|x l IH]; intros off [|b]; simpl; [done|done|rewrite Z.add_0_r; done|].
  rewrite IH. change (imgs (x :: take b l)) with (block_image (build_block ri x) ++ imgs (take b l)).
  destruct (l !! b); [|done]. simpl. rewrite zlen_app, Z.add_assoc. done.
Qed.

Lemma length_feed (off : Z) (l : list entries) : length (feed opts off l) = length l.
Proof. revert off. induction l as [|x l IH]; intros off; simpl; [done|]. rewrite IH. done. Qed.

Lemma filter_input_offset (i : nat) (x : Z * list bytes) : filter_input !! i = Some x -> fst x = zlen (imgs (take i blks)).
Proof.
  intros Hx. apply lookup_app_Some in Hx as [Hx|[Hi Hx]].
  - rewrite feed_lookup in Hx. destruct (blks !! i); [|done]. injection Hx as <-. done.
  - rewrite length_feed in *. apply list_lookup_singleton_Some in Hx as [_ <-]. simpl. rewrite take_ge by done. done.
Qed.

Lemma images_take_le (i j : nat) : (i <= j)%nat -> zlen (imgs (take i blks)) <= zlen (imgs (take j blks)).
Proof.
  intros Hij. replace j with (i + (j - i))%nat by lia. rewrite <- take_take_drop, images_app, zlen_app.
  match goal with |- _ <= _ + zlen ?x => pose proof (zlen_nonneg x) end. lia.
Qed.

Lemma filter_input_ok : offsets_ok 0 filter_input.
Proof.
  split.
  - apply Forall_lookup. intros i x Hx. rewrite (filter_input_offset i x Hx). apply zlen_nonneg.
  - intros i j x y Hij Hx Hy. rewrite (filter_input_offset i x Hx), (filter_input_offset j y Hy). apply images_take_le. lia.
Qed.

Lemma filter_input_keys (off : Z) (l : list entries) : zlen (concat (map snd (feed opts off l))) <= zlen (imgs l).
Proof.
  revert off. induction l as [|x l IH]; intros off; [done|]. simpl.
  change (imgs (x :: l)) with (block_image (build_block ri x) ++ imgs l). rewrite !zlen_app, zlen_block_image.
  specialize (IH (off + zlen (block_image (build_block ri x)))). rewrite zlen_block_image in IH. pose proof (build_block_size ri x Hri).
  assert (zlen (map fst x) = zlen x) as -> by (unfold zlen; rewrite length_map; done).
  unfold kBlockTrailerSize in *. lia.
Qed.

Lemma stored_key_passes (options : TableOptions) (b : nat) (kvs : entries) (k v : bytes) :
  blks !! b = Some kvs -> (k, v) ∈ kvs -> filter_passes options b k = true.
Proof.
  intros Hb Hk. unfold filter_passes, expected_filter. destruct (to_has_filter options); [|done].
  destruct (tbo_has_filter opts) eqn:Ef; [|done]. cbn [andb].
  destruct (table_filter_block Ef) as [post E]. destruct (read_image _ _ _ true E) as (_ & Hsz & _).
  pose proof (zlen_nonneg (imgs blks)). pose proof (zlen_nonneg (filter_raw opts blks)).
  apply (build_filter_matches filter_input _ (map fst kvs) k).
  - apply filter_input_ok.
  - unfold filter_input. rewrite map_app, concat_app. simpl. rewrite app_nil_r.
    pose proof (filter_input_keys 0 blks). lia.
  - change (build_filter filter_input) with (filter_raw opts blks). lia.
  - apply elem_of_app. left. apply list_elem_of_lookup. exists b. rewrite feed_lookup, Hb. done.
  - apply list_elem_of_fmap. exists (k, v). done.
Qed.

(** A point lookup answers with the first entry at or past the key or with
    nothing, and always finds a stored key. *)
Lemma lookup_spec_first (options : TableOptions) (k : bytes) (e : bytes * bytes) :
  lookup_spec options k = Some e -> cur_observe (concat blks) (seek_index k (concat blks)) = Some e.
Proof.
  unfold lookup_spec. destruct (seek_index k idx) as [b|] eqn:Es; [|done]. destruct (blks !! b) as [kvs|] eqn:Hb; [|done].
  destruct (filter_passes options b k); [|done]. destruct (seek_index k kvs) as [a|] eqn:Ea; [|done]. simpl. intros He.
  destruct (seek_index_spec k idx b Es) as [([s h] & Hi & _) _].
  pose proof (seek_some idx content index_separates k b s h Es Hi) as Hseek. rewrite (content_at b s h kvs Hi Hb), Ea in Hseek.
  unfold all_entries, blocks in Hseek. rewrite content_blocks in Hseek. rewrite <- Hseek. cbn [cur_observe].
  pose proof (entry_at idx content b a s h e Hi) as Hall. rewrite (content_at b s h kvs Hi Hb) in Hall.
  unfold all_entries, blocks in Hall. rewrite content_blocks in Hall. apply Hall. done.
Qed.

Lemma seek_stored (kvs : entries) (k v : bytes) : keys_sorted kvs -> (k, v) ∈ kvs -> cur_observe kvs (seek_index k kvs) = Some (k, v).
Proof.
  intros Hk Hin. apply list_elem_of_lookup in Hin as [a Ha].
  rewrite (seek_index_Some k kvs a (k, v)); [done|done|apply at_or_past_true, cle_refl|].
  intros j kv' Hj Hkv. apply at_or_past_false. apply (sorted_lookup_lt kvs j a kv' (k, v)); done.
Qed.

Lemma lookup_spec_stored (options : TableOptions) (k v : bytes) : (k, v) ∈ concat blks -> lookup_spec options k = Some (k, v).
Proof.
  intros Hin. apply list_elem_of_In, in_concat in Hin as (kvs & Hkvs & Hin). apply list_elem_of_In in Hkvs, Hin.
  apply list_elem_of_lookup in Hkvs as [b Hb]. destruct (lookup_lt_is_Some_2 idx b) as [[s h] Hi]; [apply lookup_lt_Some in Hb; lia|].
  destruct (Hsep b s h kvs Hi Hb) as (_ & Hle & _). unfold lookup_spec.
  rewrite (seek_index_Some k idx b (s, h) Hi).
  - rewrite Hb, (stored_key_passes options b kvs k v Hb Hin). apply seek_stored; [eapply block_sorted|]; done.
  - apply at_or_past_true. apply (Hle (k, v) Hin).
  - intros j [s' h'] Hj Hi'. apply at_or_past_false. destruct (index_block_at j s' h' Hi') as (kvs' & Hb' & _).
    destruct (Hsep j s' h' kvs' Hi' Hb') as (_ & _ & Hlt & _). apply (Hlt b kvs (k, v)); done.
Qed.

(** ** Approximate offsets *)

Definition offset_spec (k : bytes) : Z :=
  match seek_index k idx with
  | Some b => zlen (imgs (take b blks))
  | None => zlen (imgs blks ++ filter_image opts blks)
  end.

Lemma ApproximateOffsetOf_spec (options : TableOptions) (id : Z) (k : bytes) :
  ApproximateOffsetOf (opened options id) k = offset_spec k.
Proof.
  unfold ApproximateOffsetOf, offset_spec. change (t_index_block (opened options id)) with (newBlock (build_block 1 idx)).
  destruct index_opens as (it & -> & Hrel). pose proof (any_block_sim idx index_sorted) as Sim.
  pose proof (sim_seek _ _ Sim (inr it) None k Hrel) as Hs. cbv zeta.
  remember (it_Seek k (inr it)) as iiter eqn:HX. clear HX. rewrite (sim_valid _ _ Sim _ _ Hs).
  destruct (seek_index k idx) as [b|]; [|done].
  pose proof (sim_entry _ _ Sim _ _ Hs) as He. destruct (index_block_at b _ _ He) as (kvs & Hb & _).
  destruct (Hsep b _ _ kvs He Hb) as [-> _]. rewrite (handle_decodes b kvs Hb). done.
Qed.

Lemma seek_index_mono (k1 k2 : bytes) (i2 : nat) : cle k1 k2 -> seek_index k2 idx = Some i2 ->
  exists i1, seek_index k1 idx = Some i1 /\ (i1 <= i2)%nat.
Proof.
  intros Hk H2'. destruct (seek_index_spec k2 idx i2 H2') as [(kv & Hi & Hp) _]. apply at_or_past_true in Hp.
  assert (at_or_past k1 kv = true) as Hp1 by (apply at_or_past_true; eapply cmp_le_trans; done).
  destruct (seek_index k1 idx) as [i1|] eqn:E1.
  - exists i1. split; [done|]. destruct (Nat.le_gt_cases i1 i2) as [|Hgt]; [done|].
    destruct (seek_index_spec k1 idx i1 E1) as [_ Hb]. rewrite (Hb i2 kv Hgt Hi) in Hp1. done.
  - rewrite (seek_index_end k1 idx E1 i2 kv Hi) in Hp1. done.
Qed.

Lemma offset_spec_bounds (k1 k2 : bytes) : cle k1 k2 -> 0 <= offset_spec k1 <= offset_spec k2 /\ offset_spec k2 < zlen table.
Proof.
  intros Hk. unfold offset_spec.
  assert (forall b, zlen (imgs (take b blks)) <= zlen (imgs blks)) as Hle.
  { intros b. rewrite <- (take_ge blks (b + length blks)) at 2 by lia. apply images_take_le. lia. }
  assert (zlen (imgs blks ++ filter_image opts blks) < zlen table) as Ht.
  { unfold table_image. rewrite (app_assoc (imgs blks)), (zlen_app (imgs blks ++ _)), (zlen_app (block_image _)), zlen_block_image.
    pose proof (zlen_nonneg (meta_raw opts blks)).
    match goal with |- _ < _ + (_ + zlen ?x) => pose proof (zlen_nonneg x) end. unfold kBlockTrailerSize. lia. }
  rewrite zlen_app in *. pose proof (zlen_nonneg (filter_image opts blks)). pose proof (zlen_nonneg (imgs blks)).
  destruct (seek_index k2 idx) as [i2|] eqn:E2.
  - destruct (seek_index_mono k1 k2 i2 Hk E2) as (i1 & -> & Hi). pose proof (images_take_le i1 i2 Hi). specialize (Hle i2).
    pose proof (zlen_nonneg (imgs (take i1 blks))). lia.
  - destruct (seek_index k1 idx) as [i1|]; [|lia]. specialize (Hle i1). pose proof (zlen_nonneg (imgs (take i1 blks))). lia.
Qed.

End Layout.

(** ** From the builder to the reader *)

Section Built.
Context {C : Comparator} {CL : ComparatorLaws C} {P : FilterPolicy} {PL : FilterPolicyLaws P}.
Context (slen zstlen : bytes -> option Z) (sun zun : bytes -> option bytes).
Context {W : Type} `{WritableFileLaws W}.

(** A table of [kvs] written to the empty file [file]. *)
Definition build_table (opts : TableBuilderOptions) (kvs : entries) (file : W) : Result unit * TableBuilder W :=
  TableBuilder_Finish (tb_add_all kvs (newTableBuilder opts file)).

Lemma Finish_grows (r : TableBuilder W) : zlen (wf_contents (tb_file r)) <= zlen (wf_contents (tb_file (snd (TableBuilder_Finish r)))).
Proof.
  unfold TableBuilder_Finish. cbv zeta. pose proof (Flush_grows r) as G0.
  pose proof (finish_filter_grows (set_closed (Flush r))) as G1. destruct (finish_filter _) as [fh r1].
  pose proof (finish_metaindex_grows fh r1) as G2. destruct (finish_metaindex fh r1) as [mh r2].
  pose proof (finish_index_grows r2) as G3. destruct (finish_index r2) as [ih r3].
  pose proof (finish_footer_grows mh ih r3) as G4. cbn [fst snd set_closed tb_file] in *. lia.
Qed.

Lemma built_layout (opts : TableBuilderOptions) (kvs : entries) (file : W) :
  1 <= tbo_block_restart_interval opts -> keys_sorted kvs -> wf_contents file = [] ->
  zlen (wf_contents (tb_file (snd (build_table opts kvs file)))) < 2 ^ 32 ->
  exists blks idx, concat blks = kvs /\ length idx = length blks /\ index_sep opts blks [] idx /\
    Forall (fun x => x <> []) blks /\ fst (build_table opts kvs file) = Ok tt /\
    wf_contents (tb_file (snd (build_table opts kvs file))) = table_image opts blks idx /\
    FileSize (snd (build_table opts kvs file)) = zlen (table_image opts blks idx).
Proof.
  intros Hri HS Hf Hsz. unfold build_table in *. pose proof (Finish_grows (tb_add_all kvs (newTableBuilder opts file))).
  destruct (add_all_inv_tb opts Hri kvs (newTableBuilder opts file) [] [] [] (TInv_new opts file Hf)) as (b1 & c1 & i1 & HT & E1);
    [done|lia|]. cbn [concat app] in E1.
  destruct (Finish_spec opts Hri _ b1 c1 i1 HT) as (blks & idx & Ec & Hrest); [rewrite E1; done|lia|].
  exists blks, idx. rewrite Ec, E1. done.
Qed.

End Built.

(** A sequence of point lookups through one cache. *)
Fixpoint get_all (slen zstlen : bytes -> option Z) (sun zun : bytes -> option bytes) {C : Comparator} {P : FilterPolicy} {F : Type}
    `{RandomAccessFile F} {K Hd : Type} `{Cache K Hd Block} (t : Table F) (ro : ReadOptions) (keys : list bytes) (cache : option K)
  : list (Result unit * option (bytes * bytes)) :=
  match keys with
  | [] => []
  | k :: keys =>
      let '(s, found, cache) := InternalGet slen zstlen sun zun t ro k cache in
      (s, found) :: get_all slen zstlen sun zun t ro keys cache
  end.

(** ** Theorems *)

Section Theorems.
Context {C : Comparator} {CL : ComparatorLaws C} {P : FilterPolicy} {PL : FilterPolicyLaws P}.
Context (slen zstlen : bytes -> option Z) (sun zun : bytes -> option bytes).
Context {W : Type} `{WritableFileLaws W} {F : Type} `{RandomAccessFileLaws F} {K Hd : Type} `{CacheLaws K Hd Block}.

(** Nothing is cached under the id that the cache hands out next. *)
Definition fresh_id (cache : option K) : Prop :=
  match cache with
  | Some c => forall key blk, ~ ca_holds (snd (ca_NewId c)) (EncodeFixed64 (fst (ca_NewId c)) ++ key) blk
  | None => True
  end.

Lemma fresh_coherent (opts : TableBuilderOptions) (blks : list entries) (idx : entries) (options : TableOptions) (file : F) (c : K) :
  fresh_id (Some c) -> coherent opts blks (opened opts blks idx file options (fst (ca_NewId c))) (Some (snd (ca_NewId c))).
Proof. intros Hf b kvs blk _ Hh. destruct (Hf _ _ Hh). Qed.

(** C11. A table gives back what was written to it, in order: the builder succeeds on any
    sorted entries with distinct keys, as long as the file stays below 2^32 bytes (the
    offsets inside blocks have 32 bits) and has blocks with restart points at positive intervals; [FileSize]
    is the size of the file; and the table opens, with or without a filter, and with or
    without a block cache that has nothing under the id that the table gets.  After any
    sequence of cursor calls its iterator shows the entry the cursor over the entries is
    at, with no error.  The blocks it reads go through the cache, so that it finds those
    it comes back to; and a second iterator, which starts with the cache that the first
    one left after any cursor calls, shows the same. *)
Theorem table_iterator_roundtrip (bopts : TableBuilderOptions) (topts : TableOptions) (ro : ReadOptions) (kvs : entries)
    (wfile : W) (file : F) (cache : option K) (ops : list IterOp) :
  1 <= tbo_block_restart_interval bopts -> keys_sorted kvs -> wf_contents wfile = [] -> fresh_id cache ->
  raf_data file = wf_contents (tb_file (snd (build_table bopts kvs wfile))) -> zlen (raf_data file) < 2 ^ 32 ->
  fst (build_table bopts kvs wfile) = Ok tt /\ FileSize (snd (build_table bopts kvs wfile)) = zlen (raf_data file) /\
  exists t cache', Table_Open slen zstlen sun zun topts file (FileSize (snd (build_table bopts kvs wfile))) cache = (Ok t, cache') /\
    let I := TableIterator slen zstlen sun zun t ro in
    let first := run_ops (H := I) (Table_NewIterator t cache') ops in
    observe (H := I) first = cur_observe kvs (cur_ops kvs None ops) /\ it_status (Iterator := I) first = StatusOK /\
    forall ops', let second := run_ops (H := I) (Table_NewIterator t (tl_store first)) ops' in
      observe (H := I) second = cur_observe kvs (cur_ops kvs None ops') /\ it_status (Iterator := I) second = StatusOK.
Proof.
  intros Hri HS Hw Hfresh Hfile Hsz. rewrite Hfile in Hsz.
  destruct (built_layout bopts kvs wfile Hri HS Hw Hsz) as (blks & idx & <- & Hl & Hsep & Hne & Hok & Econ & Efs).
  split; [done|]. split; [by rewrite Efs, Hfile, Econ|]. rewrite Econ in *. rewrite Efs.
  rewrite (Open_spec slen zstlen sun zun bopts blks idx file Hfile Hsz Hri Hl).
  assert (forall id cache', coherent bopts blks (opened bopts blks idx file topts id) cache' ->
    let t := opened bopts blks idx file topts id in let I := TableIterator slen zstlen sun zun t ro in
    let first := run_ops (H := I) (Table_NewIterator t cache') ops in
    observe (H := I) first = cur_observe (concat blks) (cur_ops (concat blks) None ops) /\ it_status (Iterator := I) first = StatusOK /\
    forall ops', let second := run_ops (H := I) (Table_NewIterator t (tl_store first)) ops' in
      observe (H := I) second = cur_observe (concat blks) (cur_ops (concat blks) None ops') /\ it_status (Iterator := I) second = StatusOK) as Hmain.
  { intros id cache' Hc t I. destruct (TableIterator_sim slen zstlen sun zun bopts blks idx file Hfile Hsz Hri Hl Hsep Hne HS topts id ro) as [Sim Hat].
    pose proof (run_ops_sim _ _ _ _ ops Sim (Hat cache' Hc)) as Hfirst. intros first. destruct (observe_sim _ _ _ _ Sim Hfirst) as [Ho Hst]. split_and!; [exact Ho|exact Hst|].
    intros ops'. refine (observe_sim _ _ _ _ Sim (run_ops_sim _ _ _ _ ops' Sim (Hat _ _))). eapply tl_at_store. exact Hfirst. }
  destruct cache as [c|]; eexists _, _; (split; [reflexivity|]); apply Hmain; [apply fresh_coherent|]; done.
Qed.

(** C12. Point lookups in a written table: each of any sequence of lookups through
    one block cache succeeds; a key that was written is always found with its
    value, the filter included, and anything reported is the first entry at or
    past the key. *)
Theorem table_get_roundtrip (bopts : TableBuilderOptions) (topts : TableOptions) (ro : ReadOptions) (kvs : entries)
    (wfile : W) (file : F) (cache : option K) (keys : list bytes) :
  1 <= tbo_block_restart_interval bopts -> keys_sorted kvs -> wf_contents wfile = [] -> fresh_id cache ->
  raf_data file = wf_contents (tb_file (snd (build_table bopts kvs wfile))) -> zlen (raf_data file) < 2 ^ 32 ->
  exists t cache', Table_Open slen zstlen sun zun topts file (FileSize (snd (build_table bopts kvs wfile))) cache = (Ok t, cache') /\
    Forall2 (fun k r => fst r = Ok tt /\ (forall v, (k, v) ∈ kvs -> snd r = Some (k, v)) /\
                (forall e, snd r = Some e -> cur_observe kvs (seek_index k kvs) = Some e))
      keys (get_all slen zstlen sun zun t ro keys cache').
Proof.
  intros Hri HS Hw Hfresh Hfile Hsz. rewrite Hfile in Hsz.
  destruct (built_layout bopts kvs wfile Hri HS Hw Hsz) as (blks & idx & <- & Hl & Hsep & Hne & Hok & Econ & Efs).
  rewrite Econ in *. rewrite Efs. rewrite (Open_spec slen zstlen sun zun bopts blks idx file Hfile Hsz Hri Hl).
  set (Q := fun k (r : Result unit * option (bytes * bytes)) => _).
  assert (forall id cache', coherent bopts blks (opened bopts blks idx file topts id) cache' ->
    Forall2 Q keys (get_all slen zstlen sun zun (opened bopts blks idx file topts id) ro keys cache')) as Hmain.
  { intros id. induction keys as [|k keys IH]; intros cache' Hc; [constructor|]. simpl.
    destruct (InternalGet_spec slen zstlen sun zun bopts blks idx file Hfile Hsz Hri Hl Hsep Hne HS topts id ro k cache' Hc)
      as (cache2 & -> & Hc2). constructor; [|apply IH; done]. split_and!; [done| |].
    - intros v Hv. eapply lookup_spec_stored; done.
    - intros e. eapply lookup_spec_first; done. }
  destruct cache as [c|]; eexists _, _; (split; [reflexivity|]); apply Hmain; [apply fresh_coherent|]; done.
Qed.

(** Approximate offsets follow the key order and stay inside the file: for
    keys in order the reported offsets are in order, not negative and below the
    size of the file. *)
Theorem approximate_offset_monotone (bopts : TableBuilderOptions) (topts : TableOptions) (kvs : entries)
    (wfile : W) (file : F) (cache : option K) (k1 k2 : bytes) :
  1 <= tbo_block_restart_interval bopts -> keys_sorted kvs -> wf_contents wfile = [] ->
  raf_data file = wf_contents (tb_file (snd (build_table bopts kvs wfile))) -> zlen (raf_data file) < 2 ^ 32 -> cle k1 k2 ->
  exists t cache', Table_Open slen zstlen sun zun topts file (FileSize (snd (build_table bopts kvs wfile))) cache = (Ok t, cache') /\
    0 <= ApproximateOffsetOf t k1 <= ApproximateOffsetOf t k2 /\ ApproximateOffsetOf t k2 < zlen (raf_data file).
Proof.
  intros Hri HS Hw Hfile Hsz Hk. rewrite Hfile in Hsz |- *.
  destruct (built_layout bopts kvs wfile Hri HS Hw Hsz) as (blks & idx & <- & Hl & Hsep & Hne & Hok & Econ & Efs).
  rewrite Econ in *. rewrite Efs. rewrite (Open_spec slen zstlen sun zun bopts blks idx file Hfile Hsz Hri Hl).
  destruct cache as [c|]; eexists _, _; (split; [reflexivity|]);
    rewrite !(ApproximateOffsetOf_spec slen zstlen sun zun bopts blks idx file Hfile Hsz Hl Hsep Hne); apply offset_spec_bounds; done.
Qed.

End Theorems.

(** A table of five entries in several blocks, with a Bloom filter. *)
Definition demo_kvs : entries :=
  [(lit "apple", lit "1"); (lit "apricot", lit "2"); (lit "banana", lit "3"); (lit "cherry", lit "4"); (lit "damson", lit "5")].

Definition demo_options : TableBuilderOptions := mkTableBuilderOptions 24 2 kNoCompression true.
Definition demo_file : MemFile :=
  tb_file (snd (build_table (C := BytewiseComparator) (P := BloomPolicy 10) demo_options demo_kvs (mkMemFile []))).

Lemma table_iterator_roundtrip_witness :
  let no := fun _ : bytes => None in let nob := fun _ : bytes => None in let C := BytewiseComparator in let P := BloomPolicy 10 in
  exists t cache', Table_Open (P := P) no no nob nob (mkTableOptions true true) demo_file
      (FileSize (snd (build_table (C := C) (P := P) demo_options demo_kvs (mkMemFile [])))) (Some (NewLRUCache 4096)) = (Ok t, cache') /\
    let I := TableIterator (C := C) no no nob nob t (mkReadOptions true true) in
    observe (H := I) (run_ops (H := I) (Table_NewIterator t cache') [OpSeek (lit "b"); OpNext; OpPrev; OpPrev]) = Some (lit "apricot", lit "2").
Proof.
  intros no nob C P.
  destruct (table_iterator_roundtrip (C := C) (P := P) no no nob nob demo_options (mkTableOptions true true) (mkReadOptions true true)
    demo_kvs (mkMemFile []) demo_file (Some (NewLRUCache 4096)) [OpSeek (lit "b"); OpNext; OpPrev; OpPrev]) as (_ & _ & t & cache' & H1 & H2 & _).
  - simpl. lia.
  - repeat constructor.
  - reflexivity.
  - intros key blk H. exact (NewLRUCache_holds 4096 _ _ (sc_NewId_holds _ _ _ H)).
  - vm_compute. reflexivity.
  - vm_compute. reflexivity.
  - exists t, cache'. split; [exact H1|exact H2].
Defined.

Lemma table_get_roundtrip_witness :
  let no := fun _ : bytes => None in let nob := fun _ : bytes => None in let C := BytewiseComparator in let P := BloomPolicy 10 in
  exists t cache', Table_Open (P := P) no no nob nob (mkTableOptions true true) demo_file
      (FileSize (snd (build_table (C := C) (P := P) demo_options demo_kvs (mkMemFile [])))) (None : option (ShardedLRUCache Block)) = (Ok t, cache') /\
    map snd (get_all (C := C) (P := P) no no nob nob t (mkReadOptions true true) [lit "cherry"; lit "apple"] cache')
      = [Some (lit "cherry", lit "4"); Some (lit "apple", lit "1")].
Proof.
  intros no nob C P. assert (PL : FilterPolicyLaws P) by (apply BloomLaws; lia).
  destruct (table_get_roundtrip (C := C) (P := P) (PL := PL) no no nob nob demo_options (mkTableOptions true true) (mkReadOptions true true)
    demo_kvs (mkMemFile []) demo_file (None : option (ShardedLRUCache Block)) [lit "cherry"; lit "apple"]) as (t & cache' & H1 & H2).
  - simpl. lia.
  - repeat constructor.
  - reflexivity.
  - exact I.
  - vm_compute. reflexivity.
  - vm_compute. reflexivity.
  - exists t, cache'. split; [exact H1|].
    remember (get_all no no nob nob t (mkReadOptions true true) [lit "cherry"; lit "apple"] cache') as rs eqn:E. clear E.
    apply Forall2_cons_inv_l in H2 as (r1 & rs1 & (_ & Hc & _) & H2 & ->).
    apply Forall2_cons_inv_l in H2 as (r2 & rs2 & (_ & Ha & _) & H2 & ->). apply Forall2_nil_inv_l in H2 as ->.
    simpl. rewrite (Hc (lit "4")), (Ha (lit "1")); [reflexivity|..]; apply list_elem_of_lookup;
      [exists 0%nat; reflexivity|exists 3%nat; reflexivity].
Defined.

Lemma approximate_offset_monotone_witness :
  let no := fun _ : bytes => None in let nob := fun _ : bytes => None in let C := BytewiseComparator in let P := BloomPolicy 10 in
  exists t cache', Table_Open (P := P) no no nob nob (mkTableOptions true true) demo_file
      (FileSize (snd (build_table (C := C) (P := P) demo_options demo_kvs (mkMemFile [])))) (None : option (ShardedLRUCache Block)) = (Ok t, cache') /\
    ApproximateOffsetOf (C := C) t (lit "apple") <= ApproximateOffsetOf (C := C) t (lit "cherry").
Proof.
  intros no nob C P.
  destruct (approximate_offset_monotone (C := C) (P := P) no no nob nob demo_options (mkTableOptions true true)
    demo_kvs (mkMemFile []) demo_file (None : option (ShardedLRUCache Block)) (lit "apple") (lit "cherry")) as (t & cache' & H1 & [_ H2] & _).
  - simpl. lia.
  - repeat constructor.
  - reflexivity.
  - vm_compute. reflexivity.
  - vm_compute. reflexivity.
  - discriminate.
  - exists t, cache'. split; [exact H1|exact H2].
Defined.
