(* ===== verification/VersionEdit.v ===== *)
(** * VersionEdit: the records of the MANIFEST ([db/version_edit.h],
    [db/version_edit.cc])

    An edit with its optional fields, compaction pointers, deleted files (a
    [std::set] of pairs: a sorted list) and new files, its encoder and its
    decoder.  [DecodeFrom] works on the object in place, so it returns the object
    also when it fails. *)

From stdpp Require Import sorting.
From S2P Require Import Prelude Status Coding Logging DbFormat.
From Stdlib Require Import Sorting.Sorted.

Record FileMetaData := mkFileMetaData {
  fm_allowed_seeks : Z;
  fm_number : Z;
  fm_file_size : Z;
  fm_smallest : InternalKey;
  fm_largest : InternalKey
}.

Definition default_allowed_seeks : Z := Z.shiftl 1 30.

(** ** [std::set<std::pair<int, uint64_t>>] *)

Definition pair_compare (x y : Z * Z) : comparison :=
  match fst x ?= fst y with Eq => snd x ?= snd y | c => c end.

Fixpoint set_emplace (x : Z * Z) (l : list (Z * Z)) : list (Z * Z) :=
  match l with
  | [] => [x]
  | y :: l' =>
      match pair_compare x y with
      | Lt => x :: l
      | Eq => l
      | Gt => y :: set_emplace x l'
      end
  end.

Record VersionEdit := mkVersionEdit {
  ve_comparator : option bytes;
  ve_log_number : option Z;
  ve_prev_log_number : option Z;
  ve_next_file_number : option Z;
  ve_last_sequence : option SequenceNumber;
  ve_compact_pointers : list (Z * InternalKey);
  ve_deleted_files : list (Z * Z);
  ve_new_files : list (Z * FileMetaData)
}.

Definition VersionEdit_Clear : VersionEdit := mkVersionEdit None None None None None [] [] [].
Definition newVersionEdit : VersionEdit := VersionEdit_Clear.

Definition SetComparatorName (name : bytes) (e : VersionEdit) : VersionEdit :=
  mkVersionEdit (Some name) (ve_log_number e) (ve_prev_log_number e) (ve_next_file_number e) (ve_last_sequence e)
    (ve_compact_pointers e) (ve_deleted_files e) (ve_new_files e).

Definition SetLogNumber (num : Z) (e : VersionEdit) : VersionEdit :=
  mkVersionEdit (ve_comparator e) (Some num) (ve_prev_log_number e) (ve_next_file_number e) (ve_last_sequence e)
    (ve_compact_pointers e) (ve_deleted_files e) (ve_new_files e).

Definition SetPrevLogNumber (num : Z) (e : VersionEdit) : VersionEdit :=
  mkVersionEdit (ve_comparator e) (ve_log_number e) (Some num) (ve_next_file_number e) (ve_last_sequence e)
    (ve_compact_pointers e) (ve_deleted_files e) (ve_new_files e).

Definition SetNextFile (num : Z) (e : VersionEdit) : VersionEdit :=
  mkVersionEdit (ve_comparator e) (ve_log_number e) (ve_prev_log_number e) (Some num) (ve_last_sequence e)
    (ve_compact_pointers e) (ve_deleted_files e) (ve_new_files e).

Definition SetLastSequence (seq : SequenceNumber) (e : VersionEdit) : VersionEdit :=
  mkVersionEdit (ve_comparator e) (ve_log_number e) (ve_prev_log_number e) (ve_next_file_number e) (Some seq)
    (ve_compact_pointers e) (ve_deleted_files e) (ve_new_files e).

Definition SetCompactPointer (level : Z) (key : InternalKey) (e : VersionEdit) : VersionEdit :=
  mkVersionEdit (ve_comparator e) (ve_log_number e) (ve_prev_log_number e) (ve_next_file_number e) (ve_last_sequence e)
    (ve_compact_pointers e ++ [(level, key)]) (ve_deleted_files e) (ve_new_files e).

Definition emplace_new_file (level : Z) (f : FileMetaData) (e : VersionEdit) : VersionEdit :=
  mkVersionEdit (ve_comparator e) (ve_log_number e) (ve_prev_log_number e) (ve_next_file_number e) (ve_last_sequence e)
    (ve_compact_pointers e) (ve_deleted_files e) (ve_new_files e ++ [(level, f)]).

Definition AddFile (level file file_size : Z) (smallest largest : InternalKey) (e : VersionEdit) : VersionEdit :=
  emplace_new_file level (mkFileMetaData default_allowed_seeks file file_size smallest largest) e.

Definition RemoveFile (level file : Z) (e : VersionEdit) : VersionEdit :=
  mkVersionEdit (ve_comparator e) (ve_log_number e) (ve_prev_log_number e) (ve_next_file_number e) (ve_last_sequence e)
    (ve_compact_pointers e) (set_emplace (level, file) (ve_deleted_files e)) (ve_new_files e).

(** ** Encoding *)

Inductive Tag :=
  | kComparator | kLogNumber | kNextFileNumber | kLastSequence
  | kCompactPointer | kDeletedFile | kNewFile | kPrevLogNumber.

Definition tag_z (t : Tag) : Z :=
  match t with
  | kComparator => 1
  | kLogNumber => 2
  | kNextFileNumber => 3
  | kLastSequence => 4
  | kCompactPointer => 5
  | kDeletedFile => 6
  | kNewFile => 7
  | kPrevLogNumber => 9
  end.

(** [if (field) { PutVarint32(dst, tag); PutVarint64(dst, *field); }]. *)
Definition put_number (t : Tag) (field : option Z) (dst : bytes) : bytes :=
  match field with
  | Some v => PutVarint64 (PutVarint32 dst (tag_z t)) v
  | None => dst
  end.

Definition put_compact_pointer (dst : bytes) (p : Z * InternalKey) : bytes :=
  PutLengthPrefixedSlice (PutVarint32 (PutVarint32 dst (tag_z kCompactPointer)) (u32 (fst p))) (InternalKey_Encode (snd p)).

Definition put_deleted_file (dst : bytes) (p : Z * Z) : bytes :=
  PutVarint64 (PutVarint32 (PutVarint32 dst (tag_z kDeletedFile)) (u32 (fst p))) (snd p).

Definition put_new_file (dst : bytes) (p : Z * FileMetaData) : bytes :=
  let f := snd p in
  let dst := PutVarint32 (PutVarint32 dst (tag_z kNewFile)) (u32 (fst p)) in
  let dst := PutVarint64 dst (fm_number f) in
  let dst := PutVarint64 dst (fm_file_size f) in
  let dst := PutLengthPrefixedSlice dst (InternalKey_Encode (fm_smallest f)) in
  PutLengthPrefixedSlice dst (InternalKey_Encode (fm_largest f)).

Definition VersionEdit_EncodeTo (e : VersionEdit) (dst : bytes) : bytes :=
  let dst := match ve_comparator e with
             | Some s => PutLengthPrefixedSlice (PutVarint32 dst (tag_z kComparator)) s
             | None => dst
             end in
  let dst := put_number kLogNumber (ve_log_number e) dst in
  let dst := put_number kPrevLogNumber (ve_prev_log_number e) dst in
  let dst := put_number kNextFileNumber (ve_next_file_number e) dst in
  let dst := put_number kLastSequence (ve_last_sequence e) dst in
  let dst := fold_left put_compact_pointer (ve_compact_pointers e) dst in
  let dst := fold_left put_deleted_file (ve_deleted_files e) dst in
  fold_left put_new_file (ve_new_files e) dst.

(** The assertions that [EncodeTo] passes: every key it writes goes through
    [InternalKey::Encode].  A build with assertions stops when one fails. *)
Definition VersionEdit_EncodeTo_asserts (e : VersionEdit) : bool :=
  forallb (fun lk => InternalKey_Encode_asserts (snd lk)) (ve_compact_pointers e) &&
  forallb (fun lf => InternalKey_Encode_asserts (fm_smallest (snd lf)) && InternalKey_Encode_asserts (fm_largest (snd lf))) (ve_new_files e).

(** ** Decoding *)

Definition GetInternalKey (input : bytes) : Result (InternalKey * bytes) :=
  match GetLengthPrefixedSlice input with
  | Some (str, input) =>
      let '(key, nonempty) := InternalKey_DecodeFrom str in
      if nonempty : bool then Ok (key, input) else Err (Corruption "VersionEdit: bad InternalKey" "")
  | None => Err (Corruption "VersionEdit: bad InternalKey" "")
  end.

Definition GetLevel (input : bytes) : Result (Z * bytes) :=
  match GetVarint32 input with
  | Some (v, input) =>
      if v <? Z.of_nat kNumLevels then Ok (v, input) else Err (Corruption "VersionEdit: bad level" "")
  | None => Err (Corruption "VersionEdit: bad level" "")
  end.

(** One round of the [switch]: the object only changes when the field is
    complete. *)
Definition decode_field (tag : Z) (input : bytes) (e : VersionEdit) : Result (VersionEdit * bytes) :=
  if tag =? tag_z kComparator then
    '(str, input) ← of_option (Corruption "VersionEdit: comparator name" "") (GetLengthPrefixedSlice input);
    Ok (SetComparatorName str e, input)
  else if tag =? tag_z kLogNumber then
    '(num, input) ← of_option (Corruption "VersionEdit: log number" "") (GetVarint64 input);
    Ok (SetLogNumber num e, input)
  else if tag =? tag_z kPrevLogNumber then
    '(num, input) ← of_option (Corruption "VersionEdit: previous log number" "") (GetVarint64 input);
    Ok (SetPrevLogNumber num e, input)
  else if tag =? tag_z kNextFileNumber then
    '(num, input) ← of_option (Corruption "VersionEdit: next file number" "") (GetVarint64 input);
    Ok (SetNextFile num e, input)
  else if tag =? tag_z kLastSequence then
    '(num, input) ← of_option (Corruption "VersionEdit: last sequence number" "") (GetVarint64 input);
    Ok (SetLastSequence num e, input)
  else if tag =? tag_z kCompactPointer then
    '(level, input) ← GetLevel input;
    '(key, input) ← GetInternalKey input;
    Ok (SetCompactPointer level key e, input)
  else if tag =? tag_z kDeletedFile then
    '(level, input) ← GetLevel input;
    '(num, input) ← of_option (Corruption "VersionEdit: deleted file" "") (GetVarint64 input);
    Ok (RemoveFile level num e, input)
  else if tag =? tag_z kNewFile then
    '(level, input) ← GetLevel input;
    '(num, input) ← of_option (Corruption "VersionEdit: new-file entry" "") (GetVarint64 input);
    '(size, input) ← of_option (Corruption "VersionEdit: new-file entry" "") (GetVarint64 input);
    '(smallest, input) ← GetInternalKey input;
    '(largest, input) ← GetInternalKey input;
    Ok (emplace_new_file level (mkFileMetaData default_allowed_seeks num size smallest largest) e, input)
  else if tag =? 8 then Err (Corruption "VersionEdit: unknown tag 8" "")
  else Err (Corruption "VersionEdit: unknown tag" "").

(** [while (auto tag_opt = GetVarint32(input))]: every round consumes at least
    the byte of the tag, so one more round than [input] has bytes is enough. *)
Fixpoint DecodeFrom_loop (fuel : nat) (input : bytes) (e : VersionEdit) : VersionEdit * Result unit :=
  match fuel with
  | O => (e, Ok tt)
  | S fuel' =>
      match GetVarint32 input with
      | None =>
          if zlen input =? 0 then (e, Ok tt) else (e, Err (Corruption "VersionEdit: trailing garbage" ""))
      | Some (tag, input) =>
          match decode_field tag input e with
          | Ok (e, input) => DecodeFrom_loop fuel' input e
          | Err s => (e, Err s)
          end
      end
  end.

Definition VersionEdit_DecodeFrom (src : bytes) (e : VersionEdit) : VersionEdit * Result unit :=
  DecodeFrom_loop (S (length src)) src VersionEdit_Clear.

(** ** [DebugString] *)

Definition debug_number (label : string) (field : option Z) (r : bytes) : bytes :=
  match field with
  | Some v => AppendNumberTo (r ++ Byte.x0a :: lit label) v
  | None => r
  end.

Definition debug_compact_pointer (r : bytes) (p : Z * InternalKey) : bytes :=
  let r := AppendNumberTo (r ++ Byte.x0a :: lit "  CompactPointer: ") (u64 (fst p)) in
  r ++ lit " " ++ InternalKey_DebugString (snd p).

Definition debug_deleted_file (r : bytes) (p : Z * Z) : bytes :=
  let r := AppendNumberTo (r ++ Byte.x0a :: lit "  DeletedFile: ") (u64 (fst p)) in
  AppendNumberTo (r ++ lit " ") (snd p).

Definition debug_new_file (r : bytes) (p : Z * FileMetaData) : bytes :=
  let f := snd p in
  let r := AppendNumberTo (r ++ Byte.x0a :: lit "  AddedFile: ") (u64 (fst p)) in
  let r := AppendNumberTo (r ++ lit " ") (fm_number f) in
  let r := AppendNumberTo (r ++ lit " ") (fm_file_size f) in
  r ++ lit " " ++ InternalKey_DebugString (fm_smallest f) ++ lit " .. " ++ InternalKey_DebugString (fm_largest f).

Definition VersionEdit_DebugString (e : VersionEdit) : bytes :=
  let r := lit "VersionEdit {" in
  let r := match ve_comparator e with Some s => r ++ Byte.x0a :: lit "  Comparator: " ++ s | None => r end in
  let r := debug_number "  LogNumber: " (ve_log_number e) r in
  let r := debug_number "  PrevLogNumber: " (ve_prev_log_number e) r in
  let r := debug_number "  NextFile: " (ve_next_file_number e) r in
  let r := debug_number "  LastSeq: " (ve_last_sequence e) r in
  let r := fold_left debug_compact_pointer (ve_compact_pointers e) r in
  let r := fold_left debug_deleted_file (ve_deleted_files e) r in
  let r := fold_left debug_new_file (ve_new_files e) r in
  r ++ Byte.x0a :: lit "}" ++ [Byte.x0a].

(** ** The calls that build an edit *)

Inductive VeOp :=
  | VComparator (name : bytes)
  | VLogNumber (num : Z)
  | VPrevLogNumber (num : Z)
  | VNextFile (num : Z)
  | VLastSequence (seq : SequenceNumber)
  | VCompactPointer (level : Z) (key : InternalKey)
  | VRemoveFile (level file : Z)
  | VAddFile (level file size : Z) (smallest largest : InternalKey).

Definition ve_apply (e : VersionEdit) (op : VeOp) : VersionEdit :=
  match op with
  | VComparator name => SetComparatorName name e
  | VLogNumber num => SetLogNumber num e
  | VPrevLogNumber num => SetPrevLogNumber num e
  | VNextFile num => SetNextFile num e
  | VLastSequence seq => SetLastSequence seq e
  | VCompactPointer level key => SetCompactPointer level key e
  | VRemoveFile level file => RemoveFile level file e
  | VAddFile level file size smallest largest => AddFile level file size smallest largest e
  end.

Definition level_ok (level : Z) : Prop := 0 <= level < Z.of_nat kNumLevels.
Definition num_ok (n : Z) : Prop := 0 <= n < 2 ^ 64.

(** [InternalKey::Encode] asserts that the key is not empty. *)
Definition key_ok (k : InternalKey) : Prop := 0 < zlen k < 2 ^ 32.

Definition ve_op_ok (op : VeOp) : Prop :=
  match op with
  | VComparator name => zlen name < 2 ^ 32
  | VLogNumber num | VPrevLogNumber num | VNextFile num | VLastSequence num => num_ok num
  | VCompactPointer level key => level_ok level /\ key_ok key
  | VRemoveFile level file => level_ok level /\ num_ok file
  | VAddFile level file size smallest largest =>
      level_ok level /\ num_ok file /\ num_ok size /\ key_ok smallest /\ key_ok largest
  end.

(** The bytes of one field. *)
Definition ve_op_bytes (op : VeOp) : bytes :=
  match op with
  | VComparator name => PutLengthPrefixedSlice (PutVarint32 [] (tag_z kComparator)) name
  | VLogNumber num => put_number kLogNumber (Some num) []
  | VPrevLogNumber num => put_number kPrevLogNumber (Some num) []
  | VNextFile num => put_number kNextFileNumber (Some num) []
  | VLastSequence num => put_number kLastSequence (Some num) []
  | VCompactPointer level key => put_compact_pointer [] (level, key)
  | VRemoveFile level file => put_deleted_file [] (level, file)
  | VAddFile level file size smallest largest =>
      put_new_file [] (level, mkFileMetaData default_allowed_seeks file size smallest largest)
  end.

Definition ve_ops_bytes (ops : list VeOp) : bytes := concat (map ve_op_bytes ops).

Lemma GetLevel_Put (level : Z) (rest : bytes) :
  level_ok level -> GetLevel (EncodeVarint32 (u32 level) ++ rest) = Ok (level, rest).
Proof.
  intros [H0 H7]. assert (Z.of_nat kNumLevels = 7) as E by done. unfold GetLevel.
  rewrite wrap_small by lia. rewrite GetVarint32_Encode by lia.
  destruct (Z.ltb_spec level (Z.of_nat kNumLevels)); [done|lia].
Qed.

Lemma GetInternalKey_Put (k : InternalKey) (rest : bytes) :
  key_ok k -> GetInternalKey (lp_slice k ++ rest) = Ok (k, rest).
Proof.
  intros [H0 H32]. unfold GetInternalKey. rewrite GetLengthPrefixedSlice_Put by done. simpl.
  destruct (Z.eqb_spec (zlen k) 0); [lia|done].
Qed.

Lemma GetTag_Put (t : Tag) (rest : bytes) :
  GetVarint32 (EncodeVarint32 (tag_z t) ++ rest) = Some (tag_z t, rest).
Proof. apply GetVarint32_Encode. destruct t; simpl; lia. Qed.

Create Rewrite HintDb ve.
#[local] Hint Rewrite GetLevel_Put GetInternalKey_Put GetVarint64_Encode GetLengthPrefixedSlice_Put using done : ve.

(** Decoding a field is the call that set it. *)
Lemma decode_op (op : VeOp) (rest : bytes) (e : VersionEdit) :
  ve_op_ok op ->
  exists tag r, GetVarint32 (ve_op_bytes op ++ rest) = Some (tag, r) /\
    decode_field tag r e = Ok (ve_apply e op, rest).
Proof.
  intros Hop.
  destruct op; cbn [ve_op_bytes put_number put_compact_pointer put_deleted_file put_new_file fst snd
    fm_number fm_file_size fm_smallest fm_largest];
    unfold put_compact_pointer, put_deleted_file, put_new_file; cbn zeta; cbn [fst snd
    fm_number fm_file_size fm_smallest fm_largest];
    rewrite ?PutLengthPrefixedSlice_app; unfold PutVarint32, PutVarint64; rewrite ?app_nil_l, <- ?app_assoc;
    rewrite GetTag_Put; do 2 eexists; (split; [reflexivity|]); unfold decode_field; cbn [tag_z Z.eqb Pos.eqb];
    simpl in Hop; destruct_and?; autorewrite with ve;
    repeat (cbn [of_option mbind Result_bind]; autorewrite with ve); done.
Qed.

Lemma decode_ops (ops : list VeOp) (fuel : nat) (rest : bytes) (e : VersionEdit) :
  Forall ve_op_ok ops ->
  DecodeFrom_loop (length ops + fuel) (ve_ops_bytes ops ++ rest) e = DecodeFrom_loop fuel rest (fold_left ve_apply ops e).
Proof.
  intros Hok. revert e. induction Hok as [|op ops Hop Hok IH]; intros e; [done|].
  unfold ve_ops_bytes. cbn [map concat length Nat.add DecodeFrom_loop]. fold (ve_ops_bytes ops). rewrite <- app_assoc.
  destruct (decode_op op (ve_ops_bytes ops ++ rest) e Hop) as (tag & r & -> & ->). apply IH.
Qed.

Lemma ve_op_bytes_pos (op : VeOp) : ve_op_ok op -> (1 <= length (ve_op_bytes op))%nat.
Proof.
  intros Hop. destruct (decode_op op [] newVersionEdit Hop) as (tag & r & H & _).
  apply GetVarint32_suffix in H as (pre & E & Hne). rewrite app_nil_r in E. rewrite E, length_app.
  destruct pre; [done|]. simpl. lia.
Qed.

Lemma ve_ops_bytes_length (ops : list VeOp) : Forall ve_op_ok ops -> (length ops <= length (ve_ops_bytes ops))%nat.
Proof.
  induction 1 as [|op ops Hop Hok IH]; [done|]. unfold ve_ops_bytes. cbn [map concat length].
  rewrite length_app. fold (ve_ops_bytes ops). pose proof (ve_op_bytes_pos op Hop). lia.
Qed.

(** ** An edit as the calls that decoding it makes *)

Definition opt_ops {A} (f : A -> VeOp) (o : option A) : list VeOp := match o with Some x => [f x] | None => [] end.
Definition compact_op (p : Z * InternalKey) : VeOp := VCompactPointer (fst p) (snd p).
Definition remove_op (p : Z * Z) : VeOp := VRemoveFile (fst p) (snd p).
Definition add_op (p : Z * FileMetaData) : VeOp :=
  VAddFile (fst p) (fm_number (snd p)) (fm_file_size (snd p)) (fm_smallest (snd p)) (fm_largest (snd p)).

Definition ops_of (e : VersionEdit) : list VeOp :=
  opt_ops VComparator (ve_comparator e) ++ opt_ops VLogNumber (ve_log_number e) ++
  opt_ops VPrevLogNumber (ve_prev_log_number e) ++ opt_ops VNextFile (ve_next_file_number e) ++
  opt_ops VLastSequence (ve_last_sequence e) ++ map compact_op (ve_compact_pointers e) ++
  map remove_op (ve_deleted_files e) ++ map add_op (ve_new_files e).

Lemma fold_put {A} (put : bytes -> A -> bytes) (op : A -> VeOp) :
  (forall dst x, put dst x = dst ++ ve_op_bytes (op x)) ->
  forall xs dst, fold_left put xs dst = dst ++ ve_ops_bytes (map op xs).
Proof.
  intros Hp xs. induction xs as [|x xs IH]; intros dst; simpl; [rewrite app_nil_r; done|].
  rewrite IH, Hp, <- app_assoc. done.
Qed.

Lemma opt_put {A} (f : A -> VeOp) (put : A -> bytes) (o : option A) (dst : bytes) :
  (forall x, put x = dst ++ ve_op_bytes (f x)) ->
  match o with Some x => put x | None => dst end = dst ++ ve_ops_bytes (opt_ops f o).
Proof.
  intros Hp. destruct o as [x|]; simpl; [|rewrite app_nil_r; done].
  rewrite Hp. unfold ve_ops_bytes. simpl. rewrite app_nil_r. done.
Qed.

Lemma ve_ops_bytes_app (a b : list VeOp) : ve_ops_bytes (a ++ b) = ve_ops_bytes a ++ ve_ops_bytes b.
Proof. unfold ve_ops_bytes. rewrite map_app, concat_app. done. Qed.

(** The edits the setters build. *)
Record edit_ok (e : VersionEdit) : Prop := {
  eo_ops : Forall ve_op_ok (ops_of e);
  eo_sorted : StronglySorted (fun a b => pair_compare a b = Lt) (ve_deleted_files e);
  eo_seeks : Forall (fun p => fm_allowed_seeks (snd p) = default_allowed_seeks) (ve_new_files e)
}.

(** Moves the destination out of an encoder. *)
Ltac put_bytes :=
  intros; cbn [ve_op_bytes put_number compact_op remove_op add_op]; unfold put_compact_pointer, put_deleted_file, put_new_file;
  cbn zeta; cbn [fst snd fm_number fm_file_size fm_smallest fm_largest];
  rewrite ?PutLengthPrefixedSlice_app; unfold PutVarint32, PutVarint64; rewrite ?app_nil_l, <- ?app_assoc; reflexivity.

Lemma put_number_ops (t : Tag) (f : Z -> VeOp) (o : option Z) (dst : bytes) :
  (forall x, ve_op_bytes (f x) = put_number t (Some x) []) ->
  put_number t o dst = dst ++ ve_ops_bytes (opt_ops f o).
Proof. intros Hf. apply (opt_put f). intros x. rewrite Hf. put_bytes. Qed.

Lemma EncodeTo_ops (e : VersionEdit) (dst : bytes) : VersionEdit_EncodeTo e dst = dst ++ ve_ops_bytes (ops_of e).
Proof.
  unfold VersionEdit_EncodeTo, ops_of. rewrite !ve_ops_bytes_app, !app_assoc.
  rewrite (fold_put put_new_file add_op), (fold_put put_deleted_file remove_op), (fold_put put_compact_pointer compact_op)
    by put_bytes.
  rewrite (put_number_ops kLastSequence VLastSequence), (put_number_ops kNextFileNumber VNextFile),
    (put_number_ops kPrevLogNumber VPrevLogNumber), (put_number_ops kLogNumber VLogNumber) by put_bytes.
  rewrite (opt_put VComparator) by put_bytes. done.
Qed.

(** ** Replaying the calls *)

Lemma pair_compare_antisym (x y : Z * Z) : pair_compare x y = CompOpp (pair_compare y x).
Proof.
  unfold pair_compare. rewrite (Z.compare_antisym (fst y) (fst x)), (Z.compare_antisym (snd y) (snd x)).
  destruct (fst y ?= fst x); done.
Qed.

Lemma pair_compare_eq (x y : Z * Z) : pair_compare x y = Eq -> x = y.
Proof.
  destruct x, y. unfold pair_compare. simpl. destruct (Z.compare_spec z z1); [|done..]. intros E%Z.compare_eq. congruence.
Qed.

Lemma pair_compare_trans (x y z : Z * Z) : pair_compare x y = Lt -> pair_compare y z = Lt -> pair_compare x z = Lt.
Proof.
  destruct x, y, z. unfold pair_compare. simpl.
  repeat match goal with |- context [?a ?= ?b] => destruct (Z.compare_spec a b); try done; try lia end.
Qed.

Lemma set_emplace_last (x : Z * Z) (l : list (Z * Z)) :
  Forall (fun y => pair_compare y x = Lt) l -> set_emplace x l = l ++ [x].
Proof.
  induction 1 as [|y l Hy Hl IH]; [done|]. simpl. rewrite pair_compare_antisym, Hy, IH. done.
Qed.

Lemma set_emplace_elem (x y : Z * Z) (l : list (Z * Z)) : y ∈ set_emplace x l <-> y = x \/ y ∈ l.
Proof.
  induction l as [|z l IH]; simpl; [set_solver|].
  destruct (pair_compare x z) eqn:E; [apply pair_compare_eq in E as ->|..]; set_solver.
Qed.

Lemma set_emplace_sorted (x : Z * Z) (l : list (Z * Z)) :
  StronglySorted (fun a b => pair_compare a b = Lt) l -> StronglySorted (fun a b => pair_compare a b = Lt) (set_emplace x l).
Proof.
  induction 1 as [|y l HS IH Hy]; simpl; [repeat constructor|].
  destruct (pair_compare x y) eqn:E; [constructor; done|..].
  - constructor; [constructor; done|]. constructor; [done|].
    eapply Forall_impl; [exact Hy|]. intros z Hz. eapply pair_compare_trans; done.
  - constructor; [done|]. apply Forall_forall. intros z Hz. apply set_emplace_elem in Hz as [->|Hz].
    + rewrite pair_compare_antisym, E. done.
    + rewrite Forall_forall in Hy. apply Hy. done.
Qed.

Lemma replay_removes (l1 l2 : list (Z * Z)) (e : VersionEdit) :
  ve_deleted_files e = l1 -> StronglySorted (fun a b => pair_compare a b = Lt) (l1 ++ l2) ->
  fold_left ve_apply (map remove_op l2) e =
  mkVersionEdit (ve_comparator e) (ve_log_number e) (ve_prev_log_number e) (ve_next_file_number e) (ve_last_sequence e)
    (ve_compact_pointers e) (l1 ++ l2) (ve_new_files e).
Proof.
  revert l1 e. induction l2 as [|x l2 IH]; intros l1 e He HS; simpl.
  - rewrite app_nil_r. destruct e; simpl in *; congruence.
  - rewrite (IH (l1 ++ [x])); [simpl; rewrite <- app_assoc; done| |rewrite <- app_assoc; done].
    simpl. rewrite He. destruct x; simpl. apply set_emplace_last.
    apply Forall_forall. intros y Hy. 
    apply (StronglySorted_app_1_elem_of _ _ _ y (z, z0) HS); [done|left].
Qed.

Lemma replay_compacts (l : list (Z * InternalKey)) (e : VersionEdit) :
  fold_left ve_apply (map compact_op l) e =
  mkVersionEdit (ve_comparator e) (ve_log_number e) (ve_prev_log_number e) (ve_next_file_number e) (ve_last_sequence e)
    (ve_compact_pointers e ++ l) (ve_deleted_files e) (ve_new_files e).
Proof.
  revert e. induction l as [|[lv k] l IH]; intros e; simpl.
  - rewrite app_nil_r. destruct e; done.
  - rewrite IH. simpl. rewrite <- app_assoc. done.
Qed.

Lemma replay_adds (l : list (Z * FileMetaData)) (e : VersionEdit) :
  Forall (fun p => fm_allowed_seeks (snd p) = default_allowed_seeks) l ->
  fold_left ve_apply (map add_op l) e =
  mkVersionEdit (ve_comparator e) (ve_log_number e) (ve_prev_log_number e) (ve_next_file_number e) (ve_last_sequence e)
    (ve_compact_pointers e) (ve_deleted_files e) (ve_new_files e ++ l).
Proof.
  intros Hs. revert e. induction Hs as [|[lv [a n z s g]] l Ha Hs IH]; intros e; simpl.
  - rewrite app_nil_r. destruct e; done.
  - rewrite IH. simpl in *. rewrite <- app_assoc, Ha. done.
Qed.

(** Replaying the calls of an edit on an empty one gives the edit. *)
Lemma replay (e : VersionEdit) : edit_ok e -> fold_left ve_apply (ops_of e) VersionEdit_Clear = e.
Proof.
  intros [_ HS Hseeks]. unfold ops_of. rewrite !fold_left_app, replay_adds by done.
  rewrite replay_compacts, (replay_removes []).
  - destruct e as [[] [] [] [] [] ? ? ?]; done.
  - destruct e as [[] [] [] [] [] ? ? ?]; done.
  - done.
Qed.

Lemma ve_apply_ok (e : VersionEdit) (op : VeOp) : ve_op_ok op -> edit_ok e -> edit_ok (ve_apply e op).
Proof.
  intros Hop [Ho HS Hs]. unfold ops_of in Ho. rewrite !Forall_app in Ho.
  destruct Ho as (H1 & H2 & H3 & H4 & H5 & H6 & H7 & H8).
  destruct op; split; simpl; unfold ops_of; simpl; rewrite ?map_app, ?Forall_app; split_and?; try done.
  all: try (apply Forall_cons; split; [done|]; rewrite ?Forall_app; split_and?; done).
  - apply Forall_forall. intros o Ho. apply list_elem_of_fmap in Ho as (p & -> & Hp).
    apply set_emplace_elem in Hp as [->|Hp]; [done|]. rewrite Forall_forall in H7. apply H7, list_elem_of_fmap. eauto.
  - apply set_emplace_sorted. done.
Qed.

Lemma newVersionEdit_ok : edit_ok newVersionEdit.
Proof. split; constructor. Qed.

Lemma fold_ve_apply_ok (ops : list VeOp) (e : VersionEdit) :
  Forall ve_op_ok ops -> edit_ok e -> edit_ok (fold_left ve_apply ops e).
Proof. intros H. revert e. induction H; intros e He; simpl; [done|]. apply IHForall, ve_apply_ok; done. Qed.

Lemma decode_encode (e old : VersionEdit) :
  edit_ok e -> VersionEdit_DecodeFrom (VersionEdit_EncodeTo e []) old = (e, Ok tt).
Proof.
  intros He. unfold VersionEdit_DecodeFrom. rewrite EncodeTo_ops, app_nil_l.
  pose proof (ve_ops_bytes_length _ (eo_ops _ He)) as Hl.
  replace (S (length (ve_ops_bytes (ops_of e)))) with
    (length (ops_of e) + S (length (ve_ops_bytes (ops_of e)) - length (ops_of e)))%nat by lia.
  rewrite <- (app_nil_r (ve_ops_bytes (ops_of e))) at 2. rewrite decode_ops by apply He. rewrite replay; done.
Qed.

Lemma key_ok_asserts (k : InternalKey) : key_ok k -> InternalKey_Encode_asserts k = true.
Proof. intros [Hk _]. unfold InternalKey_Encode_asserts. destruct (Z.eqb_spec (zlen k) 0); [lia|done]. Qed.

Lemma edit_ok_asserts (e : VersionEdit) : edit_ok e -> VersionEdit_EncodeTo_asserts e = true.
Proof.
  intros He. pose proof (eo_ops _ He) as Hops. unfold ops_of in Hops. rewrite !Forall_app in Hops. destruct Hops as (_ & _ & _ & _ & _ & Hp & _ & Hn).
  unfold VersionEdit_EncodeTo_asserts. apply andb_true_iff. split; apply forallb_forall; intros x Hx%list_elem_of_In.
  - rewrite Forall_forall in Hp. apply key_ok_asserts. apply (Hp (compact_op x)). by apply list_elem_of_fmap_2.
  - rewrite Forall_forall in Hn. destruct (Hn (add_op x)) as (_ & _ & _ & H1 & H2); [by apply list_elem_of_fmap_2|]. by rewrite !key_ok_asserts.
Qed.

(** ** Theorems *)

(** C30. A MANIFEST record is read back as it was written: for every edit that calls
    of the setters, [AddFile], [RemoveFile] and [SetCompactPointer] build, in any
    order and number, the assertions in [EncodeTo] hold, and [DecodeFrom] of what it
    wrote succeeds and gives the same edit, whatever the object held before.  The calls
    are those whose arguments the format can hold: keys that are not empty and shorter
    than 2^32 bytes, levels from 0 to 6, numbers and sizes of 64 bits, and a comparator name shorter
    than 2^32 bytes.  (An empty key fails the assertion, and a build without assertions
    writes a record that cannot be read.) *)
Theorem version_edit_roundtrip (ops : list VeOp) (old : VersionEdit) :
  Forall ve_op_ok ops ->
  let e := fold_left ve_apply ops newVersionEdit in
  VersionEdit_EncodeTo_asserts e = true /\ VersionEdit_DecodeFrom (VersionEdit_EncodeTo e []) old = (e, Ok tt).
Proof.
  intros Hops e. assert (edit_ok e) as He by (apply fold_ve_apply_ok; [done|apply newVersionEdit_ok]). split; [by apply edit_ok_asserts|by apply decode_encode].
Qed.

Lemma version_edit_roundtrip_witness :
  VersionEdit_DecodeFrom (VersionEdit_EncodeTo (fold_left ve_apply
      [VRemoveFile 3 9; VComparator (lit "c"); VRemoveFile 1 12; VAddFile 2 7 4096 (lit "aaaaaaaaa") (lit "bbbbbbbbb")]
      newVersionEdit) []) (SetLogNumber 5 newVersionEdit)
  = (mkVersionEdit (Some (lit "c")) None None None None [] [(1, 12); (3, 9)]
       [(2, mkFileMetaData (2 ^ 30) 7 4096 (lit "aaaaaaaaa") (lit "bbbbbbbbb"))], Ok tt).
Proof.
  refine (proj2 (version_edit_roundtrip
    [VRemoveFile 3 9; VComparator (lit "c"); VRemoveFile 1 12; VAddFile 2 7 4096 (lit "aaaaaaaaa") (lit "bbbbbbbbb")] _ _)).
  repeat constructor; simpl; unfold level_ok, num_ok, key_ok; vm_compute; intuition congruence.
Defined.

(** Without the assertions a new file with an empty smallest key is written and cannot
    be read back. *)
Lemma decode_empty_key (e old : VersionEdit) (level file size : Z) (largest : InternalKey) :
  edit_ok e -> level_ok level -> num_ok file -> num_ok size ->
  snd (VersionEdit_DecodeFrom (VersionEdit_EncodeTo (AddFile level file size [] largest e) []) old) = Err (Corruption "VersionEdit: bad InternalKey" "").
Proof.
  intros He Hl Hf Hs. unfold VersionEdit_DecodeFrom. rewrite EncodeTo_ops, app_nil_l.
  assert (ops_of (AddFile level file size [] largest e) = ops_of e ++ [VAddFile level file size [] largest]) as ->.
  { unfold ops_of. simpl. rewrite map_app, <- !app_assoc. done. }
  rewrite ve_ops_bytes_app. pose proof (ve_ops_bytes_length _ (eo_ops _ He)) as Hlen.
  set (last := ve_ops_bytes [VAddFile level file size [] largest]).
  replace (S (length (ve_ops_bytes (ops_of e) ++ last))) with
    (length (ops_of e) + S (length (ve_ops_bytes (ops_of e) ++ last) - length (ops_of e)))%nat by (rewrite length_app; lia).
  rewrite decode_ops by apply He. cbn [DecodeFrom_loop].
  unfold last, ve_ops_bytes. cbn [map concat ve_op_bytes]. unfold put_new_file. cbn zeta.
  cbn [fst snd fm_number fm_file_size fm_smallest fm_largest]. rewrite !PutLengthPrefixedSlice_app.
  unfold PutVarint32, PutVarint64. rewrite ?app_nil_l, ?app_nil_r, <- ?app_assoc, GetTag_Put.
  unfold decode_field. cbn [tag_z Z.eqb Pos.eqb]. rewrite GetLevel_Put by done. cbn [mbind Result_bind].
  rewrite GetVarint64_Encode by done. cbn [of_option mbind Result_bind]. rewrite GetVarint64_Encode by done.
  cbn [of_option mbind Result_bind]. unfold GetInternalKey. rewrite GetLengthPrefixedSlice_Put by done. done.
Qed.

Definition without_new_files (e : VersionEdit) : VersionEdit :=
  mkVersionEdit (ve_comparator e) (ve_log_number e) (ve_prev_log_number e) (ve_next_file_number e) (ve_last_sequence e) (ve_compact_pointers e) (ve_deleted_files e) [].

