(* ===== verification/FileName.v ===== *)
(** * FileName: the names of the database's files ([db/filename.cc])

    [snprintf("%06llu")] is [format6]; [std::from_chars] on an unsigned integer
    reads the longest run of digits and fails without a digit or when the value
    does not fit ([from_chars]). *)

From S2P Require Import Prelude Logging.

Inductive FileType :=
  | kLogFile | kDBLockFile | kTableFile | kDescriptorFile | kCurrentFile | kTempFile | kInfoLogFile.

#[global] Instance FileType_eq_dec : EqDecision FileType.
Proof. solve_decision. Defined.

Record ParsedFile := mkParsedFile { pf_number : Z; pf_type : FileType }.

Definition format6 (number : Z) : bytes :=
  let ds := NumberToString number in
  replicate (6 - length ds) Byte.x30 ++ ds.

Definition MakeFileName (dbname : bytes) (number : Z) (suffix : bytes) : bytes :=
  dbname ++ (lit "/" ++ format6 number) ++ suffix.

Definition LogFileName (dbname : bytes) (number : Z) : bytes := MakeFileName dbname number (lit ".log").
Definition TableFileName (dbname : bytes) (number : Z) : bytes := MakeFileName dbname number (lit ".ldb").
Definition SSTTableFileName (dbname : bytes) (number : Z) : bytes := MakeFileName dbname number (lit ".sst").
Definition DescriptorFileName (dbname : bytes) (number : Z) : bytes := dbname ++ lit "/MANIFEST-" ++ format6 number.
Definition CurrentFileName (dbname : bytes) : bytes := dbname ++ lit "/CURRENT".
Definition LockFileName (dbname : bytes) : bytes := dbname ++ lit "/LOCK".
Definition TempFileName (dbname : bytes) (number : Z) : bytes := MakeFileName dbname number (lit ".dbtmp").
Definition InfoLogFileName (dbname : bytes) : bytes := dbname ++ lit "/LOG".
Definition OldInfoLogFileName (dbname : bytes) : bytes := dbname ++ lit "/LOG.old".

Definition from_chars (s : bytes) : option (Z * bytes) :=
  let '(ds, rest) := span_digits s in
  if (zlen ds =? 0) || (2 ^ 64 <=? decimal_value 0 ds) then None else Some (decimal_value 0 ds, rest).

(** [filename.find('.')]. *)
Fixpoint find_dot (s : bytes) : option nat :=
  match s with
  | [] => None
  | c :: s => if bz c =? 46 then Some 0%nat else S <$> find_dot s
  end.

Definition starts_with (p s : bytes) : bool := bool_decide (take (length p) s = p).

(** The whole of [s] is a number. *)
Definition whole_number (s : bytes) : option Z :=
  match from_chars s with Some (num, []) => Some num | _ => None end.

Definition ParseFileName (filename : bytes) : option ParsedFile :=
  if bool_decide (filename = lit "CURRENT") then Some (mkParsedFile 0 kCurrentFile)
  else if bool_decide (filename = lit "LOCK") then Some (mkParsedFile 0 kDBLockFile)
  else if bool_decide (filename = lit "LOG") || bool_decide (filename = lit "LOG.old")
       then Some (mkParsedFile 0 kInfoLogFile)
  else if starts_with (lit "MANIFEST-") filename then
    num ← whole_number (drop 9 filename);
    Some (mkParsedFile num kDescriptorFile)
  else
    dot_pos ← find_dot filename;
    num ← whole_number (take dot_pos filename);
    let suffix := drop dot_pos filename in
    if bool_decide (suffix = lit ".log") then Some (mkParsedFile num kLogFile)
    else if bool_decide (suffix = lit ".sst") || bool_decide (suffix = lit ".ldb") then Some (mkParsedFile num kTableFile)
    else if bool_decide (suffix = lit ".dbtmp") then Some (mkParsedFile num kTempFile)
    else None.

(** ** Lemmas *)

Lemma decimal_value_zeros (k : nat) (ds : bytes) :
  decimal_value 0 (replicate k Byte.x30 ++ ds) = decimal_value 0 ds.
Proof. induction k as [|k IH]; [done|]. exact IH. Qed.

Lemma format6_spec (n : Z) :
  0 <= n < 2 ^ 64 ->
  Forall (fun d => is_digit d = true) (format6 n) /\ format6 n <> [] /\ decimal_value 0 (format6 n) = n.
Proof.
  intros Hn. destruct (NumberToString_spec n Hn) as (H1 & H2 & H3). unfold format6. split_and!.
  - apply Forall_app. split; [|done]. apply Forall_forall. intros d Hd. apply elem_of_replicate in Hd as [-> _]. done.
  - intros H. apply app_eq_nil in H as [_ H]. done.
  - rewrite decimal_value_zeros. done.
Qed.

Lemma whole_number_format6 (n : Z) : 0 <= n < 2 ^ 64 -> whole_number (format6 n) = Some n.
Proof.
  intros Hn. destruct (format6_spec n Hn) as (H1 & H2 & H3). unfold whole_number, from_chars.
  rewrite <- (app_nil_r (format6 n)) at 1. rewrite span_digits_exact by done. rewrite H3.
  destruct (Z.eqb_spec (zlen (format6 n)) 0) as [E|_]; [apply zlen_0 in E; done|].
  destruct (Z.leb_spec (2 ^ 64) n); [lia|done].
Qed.

Lemma find_dot_digits (ds rest : bytes) :
  Forall (fun d => is_digit d = true) ds -> find_dot (ds ++ Byte.x2e :: rest) = Some (length ds).
Proof.
  induction 1 as [|d ds Hd Hds IH]; [done|]. simpl. apply is_digit_range in Hd.
  destruct (Z.eqb_spec (bz d) 46); [lia|]. rewrite IH. done.
Qed.

(** A name that starts with a digit is none of the fixed names. *)
Lemma digit_name (d c : byte) (s t : bytes) : is_digit d = true -> is_digit c = false -> d :: s <> c :: t.
Proof. intros Hd Hc [= ->]. congruence. Qed.

Lemma Parse_numbered (n : Z) (rest : bytes) :
  0 <= n < 2 ^ 64 ->
  ParseFileName (format6 n ++ Byte.x2e :: rest) =
  let suffix := Byte.x2e :: rest in
  if bool_decide (suffix = lit ".log") then Some (mkParsedFile n kLogFile)
  else if bool_decide (suffix = lit ".sst") || bool_decide (suffix = lit ".ldb") then Some (mkParsedFile n kTableFile)
  else if bool_decide (suffix = lit ".dbtmp") then Some (mkParsedFile n kTempFile)
  else None.
Proof.
  intros Hn. destruct (format6_spec n Hn) as (H1 & H2 & H3). unfold ParseFileName.
  rewrite find_dot_digits by done. cbn [mbind option_bind].
  rewrite take_app_length, drop_app_length, whole_number_format6 by done. cbn [mbind option_bind].
  destruct (format6 n) as [|d ds] eqn:E; [done|]. apply Forall_cons in H1 as [Hd _].
  rewrite <- app_comm_cons. rewrite !(bool_decide_eq_false_2 (d :: _ = lit _)) by (apply digit_name; done).
  assert (starts_with (lit "MANIFEST-") (d :: ds ++ Byte.x2e :: rest) = false) as ->; [|done].
  apply bool_decide_eq_false_2. simpl. apply digit_name; done.
Qed.

Lemma file_names_parse (dbname : bytes) (n : Z) :
  0 <= n < 2 ^ 64 ->
  let parse path := ParseFileName (zdrop (zlen dbname + 1) path) in
  parse (LogFileName dbname n) = Some (mkParsedFile n kLogFile) /\
  parse (TableFileName dbname n) = Some (mkParsedFile n kTableFile) /\
  parse (SSTTableFileName dbname n) = Some (mkParsedFile n kTableFile) /\
  parse (TempFileName dbname n) = Some (mkParsedFile n kTempFile) /\
  parse (DescriptorFileName dbname n) = Some (mkParsedFile n kDescriptorFile) /\
  parse (CurrentFileName dbname) = Some (mkParsedFile 0 kCurrentFile) /\
  parse (LockFileName dbname) = Some (mkParsedFile 0 kDBLockFile) /\
  parse (InfoLogFileName dbname) = Some (mkParsedFile 0 kInfoLogFile) /\
  parse (OldInfoLogFileName dbname) = Some (mkParsedFile 0 kInfoLogFile).
Proof.
  intros Hn parse.
  assert (forall s, zdrop (zlen dbname + 1) (dbname ++ Byte.x2f :: s) = s) as Hd.
  { intros s. change (Byte.x2f :: s) with ([Byte.x2f] ++ s). rewrite app_assoc.
    replace (zlen dbname + 1) with (zlen (dbname ++ [Byte.x2f])) by (rewrite zlen_app; done). apply zdrop_app_exact. }
  unfold parse, LogFileName, TableFileName, SSTTableFileName, TempFileName, MakeFileName, DescriptorFileName,
    CurrentFileName, LockFileName, InfoLogFileName, OldInfoLogFileName.
  change (lit "/" ++ format6 n) with (Byte.x2f :: format6 n). rewrite <- !app_comm_cons.
  change (lit "/CURRENT") with (Byte.x2f :: lit "CURRENT"). change (lit "/LOCK") with (Byte.x2f :: lit "LOCK").
  change (lit "/LOG") with (Byte.x2f :: lit "LOG"). change (lit "/LOG.old") with (Byte.x2f :: lit "LOG.old").
  change (lit "/MANIFEST-" ++ format6 n) with (Byte.x2f :: lit "MANIFEST-" ++ format6 n).
  split_and!; rewrite Hd; try (apply Parse_numbered; done); try done.
  unfold ParseFileName. cbn [lit]. change (drop 9 (lit "MANIFEST-" ++ format6 n)) with (format6 n).
  rewrite whole_number_format6 by done. done.
Qed.

(** So the names of different files differ. *)
Lemma TableFileName_inj (dbname : bytes) (n m : Z) : 0 <= n < 2 ^ 64 -> 0 <= m < 2 ^ 64 -> TableFileName dbname n = TableFileName dbname m -> n = m.
Proof.
  intros Hn Hm E. destruct (file_names_parse dbname n Hn) as (_ & H1 & _). destruct (file_names_parse dbname m Hm) as (_ & H2 & _). rewrite E, H2 in H1. congruence.
Qed.

Lemma TableFileName_other (dbname : bytes) (n m : Z) : 0 <= n < 2 ^ 64 -> 0 <= m < 2 ^ 64 ->
  TableFileName dbname n <> LogFileName dbname m /\ TableFileName dbname n <> TempFileName dbname m /\ TableFileName dbname n <> DescriptorFileName dbname m /\
  TableFileName dbname n <> CurrentFileName dbname.
Proof.
  intros Hn Hm. destruct (file_names_parse dbname n Hn) as (_ & H1 & _). destruct (file_names_parse dbname m Hm) as (Hl & _ & _ & Ht & Hd & Hc & _).
  split_and!; intros E; rewrite E in H1; congruence.
Qed.

(** ** Theorems *)

(** File names round-trip: the last component of every name the database
    generates, for every 64-bit file number (also those of more than six
    digits), is parsed back to its number and its type. *)
Theorem file_name_roundtrip (dbname : bytes) (n : Z) :
  0 <= n < 2 ^ 64 ->
  let parse path := ParseFileName (zdrop (zlen dbname + 1) path) in
  parse (LogFileName dbname n) = Some (mkParsedFile n kLogFile) /\
  parse (TableFileName dbname n) = Some (mkParsedFile n kTableFile) /\
  parse (SSTTableFileName dbname n) = Some (mkParsedFile n kTableFile) /\
  parse (TempFileName dbname n) = Some (mkParsedFile n kTempFile) /\
  parse (DescriptorFileName dbname n) = Some (mkParsedFile n kDescriptorFile) /\
  parse (CurrentFileName dbname) = Some (mkParsedFile 0 kCurrentFile) /\
  parse (LockFileName dbname) = Some (mkParsedFile 0 kDBLockFile) /\
  parse (InfoLogFileName dbname) = Some (mkParsedFile 0 kInfoLogFile) /\
  parse (OldInfoLogFileName dbname) = Some (mkParsedFile 0 kInfoLogFile).
Proof. exact (file_names_parse dbname n). Qed.

Lemma file_name_roundtrip_witness :
  ParseFileName (lit "1234567.ldb") = Some (mkParsedFile 1234567 kTableFile) /\
  ParseFileName (lit "000007.log") = Some (mkParsedFile 7 kLogFile).
Proof.
  split; [exact (proj1 (proj2 (file_name_roundtrip [] 1234567 ltac:(lia))))|exact (proj1 (file_name_roundtrip [] 7 ltac:(lia)))].
Defined.
