(* ===== verification/Children.v ===== *)
(** * Children: the names of the files of a database directory

    The files of a database are children of its directory, named by a number and a
    suffix ([db/filename.cc]).  Names that parse differently are different files. *)

From S2P Require Import Prelude Status Env Logging VersionEdit FileName.

(** A name without separators, and without the character that ends C strings. *)
Definition plain_name (x : bytes) : Prop := Byte.x2f ∉ x /\ Byte.x00 ∉ x.

Lemma child_inj (dbname x y : bytes) : dbname ++ lit "/" ++ x = dbname ++ lit "/" ++ y -> x = y.
Proof. intros E0. by apply app_inv_head, app_inv_head in E0. Qed.

Lemma format6_plain (n : Z) : num_ok n -> Forall (fun c => c <> Byte.x2f /\ c <> Byte.x00) (format6 n).
Proof.
  intros Hn. destruct (format6_spec n Hn) as (Hd & _). eapply Forall_impl; [exact Hd|]. intros c Hc. split; intros ->; vm_compute in Hc; discriminate.
Qed.

Lemma plain_Forall (x : bytes) : Forall (fun c => c <> Byte.x2f /\ c <> Byte.x00) x -> plain_name x.
Proof. intros Hx. rewrite Forall_forall in Hx. split; intros Hc; by destruct (Hx _ Hc). Qed.

Lemma numbered_plain (n : Z) (suffix : string) : num_ok n -> Forall (fun c => c <> Byte.x2f /\ c <> Byte.x00) (lit suffix) -> plain_name (format6 n ++ lit suffix).
Proof. intros Hn Hs. apply plain_Forall, Forall_app. split; [by apply format6_plain|done]. Qed.

Ltac plain_suffix := vm_compute; repeat constructor; discriminate.

(** The files of the directory by their numbers. *)
Definition numbered (n : Z) (suffix : string) : bytes := format6 n ++ lit suffix.

Lemma log_child (dbname : bytes) (n : Z) : LogFileName dbname n = dbname ++ lit "/" ++ numbered n ".log".
Proof. unfold LogFileName, MakeFileName, numbered. by rewrite <- ?app_assoc. Qed.

Lemma table_child (dbname : bytes) (n : Z) : TableFileName dbname n = dbname ++ lit "/" ++ numbered n ".ldb".
Proof. unfold TableFileName, MakeFileName, numbered. by rewrite <- ?app_assoc. Qed.

Lemma tmp_child (dbname : bytes) (n : Z) : TempFileName dbname n = dbname ++ lit "/" ++ numbered n ".dbtmp".
Proof. unfold TempFileName, MakeFileName, numbered. by rewrite <- ?app_assoc. Qed.

Lemma table_plain (n : Z) : num_ok n -> plain_name (numbered n ".ldb").
Proof. intros Hn. apply numbered_plain; [done|plain_suffix]. Qed.

Lemma log_plain (n : Z) : num_ok n -> plain_name (numbered n ".log").
Proof. intros Hn. apply numbered_plain; [done|plain_suffix]. Qed.

Lemma tmp_plain (n : Z) : num_ok n -> plain_name (numbered n ".dbtmp").
Proof. intros Hn. apply numbered_plain; [done|plain_suffix]. Qed.

Lemma log_numbered_ne (n m : Z) : num_ok n -> num_ok m -> numbered n ".ldb" <> numbered m ".log".
Proof.
  intros Hn Hm E0. destruct (file_names_parse [] n ltac:(exact Hn)) as (_ & H1 & _). destruct (file_names_parse [] m ltac:(exact Hm)) as (H2 & _).
  rewrite table_child in H1. rewrite log_child, <- E0 in H2. congruence.
Qed.

Lemma log_numbered_inj (n m : Z) : num_ok n -> num_ok m -> numbered n ".log" = numbered m ".log" -> n = m.
Proof.
  intros Hn Hm E0. destruct (file_names_parse [] n ltac:(exact Hn)) as (H1 & _). destruct (file_names_parse [] m ltac:(exact Hm)) as (H2 & _).
  rewrite log_child in H1, H2. rewrite E0 in H1. congruence.
Qed.

Definition manifest_name (n : Z) : bytes := lit "MANIFEST-" ++ format6 n.

Lemma descriptor_child (dbname : bytes) (n : Z) : DescriptorFileName dbname n = dbname ++ lit "/" ++ manifest_name n.
Proof. done. Qed.

Lemma current_child (dbname : bytes) : CurrentFileName dbname = dbname ++ lit "/" ++ lit "CURRENT".
Proof. done. Qed.

Lemma children_parse (n : Z) : num_ok n ->
  ParseFileName (numbered n ".ldb") = Some (mkParsedFile n kTableFile) /\ ParseFileName (numbered n ".dbtmp") = Some (mkParsedFile n kTempFile) /\
  ParseFileName (manifest_name n) = Some (mkParsedFile n kDescriptorFile) /\ ParseFileName (lit "CURRENT") = Some (mkParsedFile 0 kCurrentFile).
Proof.
  intros Hn. destruct (file_names_parse [] n Hn) as (_ & H1 & _ & H3 & H4 & H5 & _). rewrite table_child in H1. rewrite tmp_child in H3. split_and!; [exact H1|exact H3|exact H4|exact H5].
Qed.

Lemma log_parse (n : Z) : num_ok n -> ParseFileName (numbered n ".log") = Some (mkParsedFile n kLogFile).
Proof. intros Hn. destruct (file_names_parse [] n Hn) as (H1 & _). by rewrite log_child in H1. Qed.

(** Names that parse differently. *)
Lemma child_ne (dbname x y : bytes) (p q : ParsedFile) : ParseFileName x = Some p -> ParseFileName y = Some q -> p <> q -> dbname ++ lit "/" ++ x <> dbname ++ lit "/" ++ y.
Proof. intros Hx Hy Hpq E0. apply child_inj in E0. congruence. Qed.

Lemma manifest_plain (n : Z) : num_ok n -> plain_name (manifest_name n).
Proof. intros Hn. apply plain_Forall, Forall_app. split; [plain_suffix|by apply format6_plain]. Qed.
