(* ===== verification/DBIter.v ===== *)
(** * DBIter: the user's iterator ([db/db_iter.cc])

    An internal iterator yields versions of user keys, newest first; [DBIter] hides
    the versions above its sequence number, the older versions and the deleted
    keys.  The internal iterator is any implementation of the interface, the
    random generator ([std::mt19937]) is a parameter, and the calls of
    [RecordReadSample] are recorded.  The result: the iterator refines the cursor
    over the visible entries. *)

From S2P Require Import Prelude Status Coding Comparator DbFormat Logging Iterator.
From Stdlib Require Import Sorting.Sorted.

Inductive IterDirection := kForward | kReverse.

Record DBIter (S R : Type) := mkDBIter {
  di_iter : S;
  di_sequence : SequenceNumber;
  di_status : Status;
  di_saved_key : bytes;
  di_saved_value : bytes;
  di_direction : IterDirection;
  di_valid : bool;
  di_rnd : R;
  di_bytes_until_read_sampling : Z;
  di_samples : list bytes
}.
Arguments mkDBIter {S R}.
Arguments di_iter {S R}.
Arguments di_sequence {S R}.
Arguments di_status {S R}.
Arguments di_saved_key {S R}.
Arguments di_saved_value {S R}.
Arguments di_direction {S R}.
Arguments di_valid {S R}.
Arguments di_rnd {S R}.
Arguments di_bytes_until_read_sampling {S R}.
Arguments di_samples {S R}.

Section DBIterDef.
Context {C : Comparator} {S R : Type} {HI : Iterator S}.
(** [rnd_.Uniform(n)], the rounds the sampling loop may take and the rounds of the
    scanning loops. *)
Context (Uniform : Z -> R -> Z * R) (sample_fuel fuel : nat).

Definition RandomCompactionPeriod (r : R) : Z * R := Uniform (2 * kReadBytesPeriod) r.

Definition newDBIter (iter : S) (s : SequenceNumber) (rnd : R) : DBIter S R :=
  let '(period, rnd) := RandomCompactionPeriod rnd in
  mkDBIter iter s StatusOK [] [] kForward false rnd period [].

Definition set_iter (iter : S) (d : DBIter S R) : DBIter S R :=
  mkDBIter iter (di_sequence d) (di_status d) (di_saved_key d) (di_saved_value d) (di_direction d) (di_valid d)
    (di_rnd d) (di_bytes_until_read_sampling d) (di_samples d).

Definition set_status (s : Status) (d : DBIter S R) : DBIter S R :=
  mkDBIter (di_iter d) (di_sequence d) s (di_saved_key d) (di_saved_value d) (di_direction d) (di_valid d)
    (di_rnd d) (di_bytes_until_read_sampling d) (di_samples d).

(** [SaveKey(k, &saved_key_)], and [saved_key_.clear()] with [[]]. *)
Definition SaveKey (k : bytes) (d : DBIter S R) : DBIter S R :=
  mkDBIter (di_iter d) (di_sequence d) (di_status d) k (di_saved_value d) (di_direction d) (di_valid d)
    (di_rnd d) (di_bytes_until_read_sampling d) (di_samples d).

Definition save_value (v : bytes) (d : DBIter S R) : DBIter S R :=
  mkDBIter (di_iter d) (di_sequence d) (di_status d) (di_saved_key d) v (di_direction d) (di_valid d)
    (di_rnd d) (di_bytes_until_read_sampling d) (di_samples d).

(** Both branches, on the capacity of the string, leave it empty. *)
Definition ClearSavedValue (d : DBIter S R) : DBIter S R := save_value [] d.

Definition set_direction (r : IterDirection) (d : DBIter S R) : DBIter S R :=
  mkDBIter (di_iter d) (di_sequence d) (di_status d) (di_saved_key d) (di_saved_value d) r (di_valid d)
    (di_rnd d) (di_bytes_until_read_sampling d) (di_samples d).

Definition set_valid (b : bool) (d : DBIter S R) : DBIter S R :=
  mkDBIter (di_iter d) (di_sequence d) (di_status d) (di_saved_key d) (di_saved_value d) (di_direction d) b
    (di_rnd d) (di_bytes_until_read_sampling d) (di_samples d).

Definition set_sampling (r : R) (n : Z) (samples : list bytes) (d : DBIter S R) : DBIter S R :=
  mkDBIter (di_iter d) (di_sequence d) (di_status d) (di_saved_key d) (di_saved_value d) (di_direction d) (di_valid d)
    r n samples.

(** [while (bytes_until_read_sampling_ < bytes_read)]. *)
Fixpoint sample_loop (n : nat) (k : bytes) (bytes_read : Z) (d : DBIter S R) : DBIter S R :=
  match n with
  | O => d
  | Datatypes.S n =>
      if di_bytes_until_read_sampling d <? bytes_read then
        let '(period, rnd) := RandomCompactionPeriod (di_rnd d) in
        sample_loop n k bytes_read
          (set_sampling rnd (u64 (di_bytes_until_read_sampling d + period)) (di_samples d ++ [k]) d)
      else d
  end.

Definition ParseKey (d : DBIter S R) : option ParsedInternalKey * DBIter S R :=
  let k := it_key (di_iter d) in
  let bytes_read := zlen k + zlen (it_value (di_iter d)) in
  let d := sample_loop sample_fuel k bytes_read d in
  let d := set_sampling (di_rnd d) (u64 (di_bytes_until_read_sampling d - bytes_read)) (di_samples d) d in
  match ParseInternalKey k with
  | None => (None, set_status (Corruption "corrupted internal key in DBIter" "") d)
  | Some ikey => (Some ikey, d)
  end.

(** One round of [FindNextUserEntry]: whether it returns, and [skipping].  [skip]
    is always [&saved_key_]. *)
Definition next_round (skipping : bool) (d : DBIter S R) : bool * bool * DBIter S R :=
  let '(p, d) := ParseKey d in
  match p with
  | Some ikey =>
      if pik_sequence ikey <=? di_sequence d then
        match pik_type ikey with
        | kTypeDeletion => (false, true, SaveKey (pik_user_key ikey) d)
        | kTypeValue =>
            if skipping && match Compare (pik_user_key ikey) (di_saved_key d) with Gt => false | _ => true end
            then (false, skipping, d)
            else (true, skipping, SaveKey [] (set_valid true d))
        end
      else (false, skipping, d)
  | None => (false, skipping, d)
  end.

Fixpoint FindNextUserEntry_loop (n : nat) (skipping : bool) (d : DBIter S R) : DBIter S R :=
  match n with
  | O => d
  | Datatypes.S n =>
      let '(found, skipping, d) := next_round skipping d in
      if found then d
      else
        let d := set_iter (it_Next (di_iter d)) d in
        if it_Valid (di_iter d) then FindNextUserEntry_loop n skipping d
        else set_valid false (SaveKey [] d)
  end.

Definition FindNextUserEntry (skipping : bool) (d : DBIter S R) : DBIter S R := FindNextUserEntry_loop fuel skipping d.

(** One round of [FindPrevUserEntry]: whether the loop breaks, and [value_type]. *)
Definition prev_round (value_type : ValueType) (d : DBIter S R) : bool * ValueType * DBIter S R :=
  let '(p, d) := ParseKey d in
  match p with
  | Some ikey =>
      if pik_sequence ikey <=? di_sequence d then
        if negb (bool_decide (value_type = kTypeDeletion)) &&
           match Compare (pik_user_key ikey) (di_saved_key d) with Lt => true | _ => false end
        then (true, value_type, d)
        else
          match pik_type ikey with
          | kTypeDeletion => (false, kTypeDeletion, ClearSavedValue (SaveKey [] d))
          | kTypeValue =>
              (false, kTypeValue, save_value (it_value (di_iter d)) (SaveKey (ExtractUserKey (it_key (di_iter d))) d))
          end
      else (false, value_type, d)
  | None => (false, value_type, d)
  end.

Fixpoint FindPrevUserEntry_loop (n : nat) (value_type : ValueType) (d : DBIter S R) : ValueType * DBIter S R :=
  match n with
  | O => (value_type, d)
  | Datatypes.S n =>
      let '(stop, value_type, d) := prev_round value_type d in
      if stop then (value_type, d)
      else
        let d := set_iter (it_Prev (di_iter d)) d in
        if it_Valid (di_iter d) then FindPrevUserEntry_loop n value_type d else (value_type, d)
  end.

Definition FindPrevUserEntry (d : DBIter S R) : DBIter S R :=
  let '(value_type, d) :=
    if it_Valid (di_iter d) then FindPrevUserEntry_loop fuel kTypeDeletion d else (kTypeDeletion, d) in
  if decide (value_type = kTypeDeletion)
  then set_direction kForward (ClearSavedValue (SaveKey [] (set_valid false d)))
  else set_valid true d.

Definition di_Next (d : DBIter S R) : DBIter S R :=
  match di_direction d with
  | kReverse =>
      let d := set_direction kForward d in
      let d := set_iter (if negb (it_Valid (di_iter d)) then it_SeekToFirst (di_iter d) else it_Next (di_iter d)) d in
      if negb (it_Valid (di_iter d)) then SaveKey [] (set_valid false d) else FindNextUserEntry true d
  | kForward =>
      let d := SaveKey (ExtractUserKey (it_key (di_iter d))) d in
      let d := set_iter (it_Next (di_iter d)) d in
      if negb (it_Valid (di_iter d)) then SaveKey [] (set_valid false d) else FindNextUserEntry true d
  end.

(** The loop of [Prev] that leaves the entries of the current key; [false] when
    it ran off the front. *)
Fixpoint leave_key (n : nat) (d : DBIter S R) : bool * DBIter S R :=
  match n with
  | O => (true, d)
  | Datatypes.S n =>
      let d := set_iter (it_Prev (di_iter d)) d in
      if negb (it_Valid (di_iter d)) then (false, ClearSavedValue (SaveKey [] (set_valid false d)))
      else
        match Compare (ExtractUserKey (it_key (di_iter d))) (di_saved_key d) with
        | Lt => (true, d)
        | _ => leave_key n d
        end
  end.

Definition di_Prev (d : DBIter S R) : DBIter S R :=
  match di_direction d with
  | kForward =>
      let d := SaveKey (ExtractUserKey (it_key (di_iter d))) d in
      let '(more, d) := leave_key fuel d in
      if more then FindPrevUserEntry (set_direction kReverse d) else d
  | kReverse => FindPrevUserEntry d
  end.

Definition di_Seek (target : bytes) (d : DBIter S R) : DBIter S R :=
  let d := ClearSavedValue (set_direction kForward d) in
  let d := SaveKey (AppendInternalKey [] (mkPIK target (di_sequence d) kValueTypeForSeek)) d in
  let d := set_iter (it_Seek (di_saved_key d) (di_iter d)) d in
  if it_Valid (di_iter d) then FindNextUserEntry false d else set_valid false d.

Definition di_SeekToFirst (d : DBIter S R) : DBIter S R :=
  let d := ClearSavedValue (set_direction kForward d) in
  let d := set_iter (it_SeekToFirst (di_iter d)) d in
  if it_Valid (di_iter d) then FindNextUserEntry false d else set_valid false d.

Definition di_SeekToLast (d : DBIter S R) : DBIter S R :=
  let d := ClearSavedValue (set_direction kReverse d) in
  let d := set_iter (it_SeekToLast (di_iter d)) d in
  FindPrevUserEntry d.

Definition di_key (d : DBIter S R) : bytes :=
  match di_direction d with kForward => ExtractUserKey (it_key (di_iter d)) | kReverse => di_saved_key d end.

Definition di_value (d : DBIter S R) : bytes :=
  match di_direction d with kForward => it_value (di_iter d) | kReverse => di_saved_value d end.

Definition di_get_status (d : DBIter S R) : Status :=
  if ok (di_status d) then it_status (di_iter d) else di_status d.

Definition DBIter_iter : Iterator (DBIter S R) := {|
  it_Valid := di_valid;
  it_SeekToFirst := di_SeekToFirst;
  it_SeekToLast := di_SeekToLast;
  it_Seek := di_Seek;
  it_Next := di_Next;
  it_Prev := di_Prev;
  it_key := di_key;
  it_value := di_value;
  it_status := di_get_status
|}.

End DBIterDef.

(** ** What the user sees

    [P] are the versions in internal order, [s] the sequence number of the
    iterator: a version is visible when it is a value, not newer than [s], and the
    newest such version of its key. *)

Abbreviation versions := (list (ParsedInternalKey * bytes)).

Definition internal_entries (P : versions) : entries := map (fun pv => (encode_key (fst pv), snd pv)) P.

Section Visible.
Context {C : Comparator} (P : versions) (s : SequenceNumber).

Definition live (p : ParsedInternalKey) : bool := pik_sequence p <=? s.

Definition same_user (p q : ParsedInternalKey) : bool :=
  match Compare (pik_user_key p) (pik_user_key q) with Eq => true | _ => false end.

Definition visible_at (i : nat) : bool :=
  match P !! i with
  | Some (p, _) =>
      live p && bool_decide (pik_type p = kTypeValue) &&
      forallb (fun qv => negb (live (fst qv) && same_user (fst qv) p)) (take i P)
  | None => false
  end.

Definition entry_of (i : nat) : bytes * bytes :=
  match P !! i with Some (p, v) => (pik_user_key p, v) | None => ([], []) end.

Definition visible_indices : list nat := List.filter visible_at (seq 0 (length P)).
Definition visible_entries : entries := map entry_of visible_indices.

End Visible.

(** ** Positions among the visible entries *)

Section Positions.
Context {C : Comparator} {CL : ComparatorLaws C} (P : versions) (s : SequenceNumber).
Context (Hseq : forall p v, (p, v) ∈ P -> seq_ok (pik_sequence p)).
Context (HS : keys_sorted (C := InternalKeyComparator C) (internal_entries P)).

Abbreviation vis := (visible_at P s).
Abbreviation U := (visible_entries P s).

Lemma internal_lookup (i : nat) (p : ParsedInternalKey) (v : bytes) :
  P !! i = Some (p, v) -> internal_entries P !! i = Some (encode_key p, v).
Proof. intros H. unfold internal_entries. rewrite list_lookup_fmap, H. done. Qed.

Lemma seq_at (i : nat) (p : ParsedInternalKey) (v : bytes) : P !! i = Some (p, v) -> seq_ok (pik_sequence p).
Proof. intros H. apply (Hseq p v), list_elem_of_lookup. eauto. Qed.

(** The internal order: by user key, then newest first. *)
Lemma order_at (i j : nat) (p q : ParsedInternalKey) (v w : bytes) :
  P !! i = Some (p, v) -> P !! j = Some (q, w) -> (i <= j)%nat -> cle (pik_user_key p) (pik_user_key q).
Proof.
  intros Hi Hj Hle. destruct (decide (i = j)) as [->|].
  - rewrite Hi in Hj. injection Hj as <- <-. apply cle_refl.
  - pose proof (sorted_lookup_lt _ i j _ _ HS (internal_lookup _ _ _ Hi) (internal_lookup _ _ _ Hj) ltac:(lia)) as Hlt.
    cbn [fst] in Hlt. apply clt_cle, ikc_cle in Hlt. rewrite !ExtractUserKey_encode in Hlt.
    destruct Hlt as [H|[H _]]; [apply clt_cle|apply ceq_cle]; done.
Qed.

Lemma same_user_true (p q : ParsedInternalKey) : same_user p q = true <-> ceq (pik_user_key p) (pik_user_key q).
Proof. unfold same_user, ceq. destruct (Compare _ _); naive_solver. Qed.

Lemma live_true (p : ParsedInternalKey) : live s p = true <-> pik_sequence p <= s.
Proof. unfold live. apply Z.leb_le. Qed.

Lemma vis_true (i : nat) : vis i = true <->
  exists p v, P !! i = Some (p, v) /\ live s p = true /\ pik_type p = kTypeValue /\
    forall j q w, (j < i)%nat -> P !! j = Some (q, w) -> live s q = true -> ~ ceq (pik_user_key q) (pik_user_key p).
Proof.
  unfold visible_at. destruct (P !! i) as [[p v]|] eqn:E; [|split; [done|]; intros (p & v & H & _); done].
  rewrite !andb_true_iff, bool_decide_eq_true, forallb_forall. split.
  - intros ((Hl & Ht) & Hf). exists p, v. split_and!; [done..|]. intros j q w Hj Hq Hlq Hc.
    specialize (Hf (q, w)). apply negb_true_iff in Hf; [|apply list_elem_of_In, list_elem_of_lookup; exists j; rewrite lookup_take_lt; done].
    cbn [fst] in Hf. rewrite Hlq in Hf. apply same_user_true in Hc. rewrite Hc in Hf. done.
  - intros (p' & v' & [= <- <-] & Hl & Ht & Hf). split_and!; [done..|]. intros [q w] Hin.
    apply list_elem_of_In, list_elem_of_lookup in Hin as [j Hj]. apply lookup_take_Some in Hj as [Hj Hlt]. cbn [fst].
    apply negb_true_iff, andb_false_iff. destruct (live s q) eqn:Elq; [right|left; done].
    destruct (same_user q p) eqn:Es; [|done]. apply same_user_true in Es. destruct (Hf j q w Hlt Hj Elq Es).
Qed.

Lemma vis_lt_length (i : nat) : vis i = true -> (i < length P)%nat.
Proof. intros H. apply vis_true in H as (p & v & H & _). eapply lookup_lt_Some. done. Qed.

(** An older live version of the same key is hidden. *)
Lemma hidden (i j : nat) (p q : ParsedInternalKey) (v w : bytes) :
  (i < j)%nat -> P !! i = Some (p, v) -> P !! j = Some (q, w) -> live s p = true ->
  cle (pik_user_key q) (pik_user_key p) -> vis j = false.
Proof.
  intros Hlt Hi Hj Hl Hc. apply not_true_iff_false. intros (q' & w' & Hj' & _ & _ & Hf)%vis_true.
  rewrite Hj in Hj'. injection Hj' as <- <-. apply (Hf i p v Hlt Hi Hl).
  apply cle_antisym; [eapply order_at; [done|done|lia]|done].
Qed.

Lemma visible_index (i : nat) : i ∈ visible_indices P s <-> vis i = true.
Proof.
  unfold visible_indices. rewrite list_elem_of_In, filter_In, in_seq. split; [intros [_ H]; done|].
  intros H. split; [|done]. apply vis_lt_length in H. lia.
Qed.

Lemma filter_seq_sorted (f : nat -> bool) (a n i j x y : nat) :
  List.filter f (seq a n) !! i = Some x -> List.filter f (seq a n) !! j = Some y -> (i < j)%nat -> (x < y)%nat.
Proof.
  revert a i j. induction n as [|n IH]; intros a i j; simpl; [done|]. destruct (f a); [|apply IH].
  destruct i as [|i], j as [|j]; simpl; intros Hi Hj Hij; try lia; [|apply (IH (S a) i j); [done|done|lia]].
  injection Hi as <-. assert (y ∈ List.filter f (seq (S a) n)) as Hy by (apply list_elem_of_lookup; eauto).
  apply list_elem_of_In, filter_In in Hy as [Hy _]. apply in_seq in Hy. lia.
Qed.

Lemma U_lookup (n : nat) (e : bytes * bytes) : U !! n = Some e <-> exists i, visible_indices P s !! n = Some i /\ e = entry_of P i.
Proof.
  unfold visible_entries. rewrite list_lookup_fmap. destruct (visible_indices P s !! n); simpl; naive_solver.
Qed.

Lemma U_sorted : keys_sorted U.
Proof.
  unfold keys_sorted, visible_entries. 
  assert (forall i j x y, U !! i = Some x -> U !! j = Some y -> (i < j)%nat -> clt (fst x) (fst y)) as Hp.
  { intros i j x y (a & Ha & ->)%U_lookup (b & Hb & ->)%U_lookup Hij.
    pose proof (filter_seq_sorted _ _ _ _ _ _ _ Ha Hb Hij) as Hlt.
    assert (vis a = true) as Va by (apply visible_index, list_elem_of_lookup; eauto).
    assert (vis b = true) as Vb by (apply visible_index, list_elem_of_lookup; eauto).
    apply vis_true in Va as (p & v & Hpa & Hl & _). apply vis_true in Vb as (q & w & Hqb & _ & _ & Hf).
    unfold entry_of. rewrite Hpa, Hqb. cbn [fst]. pose proof (order_at a b p q v w Hpa Hqb ltac:(lia)) as Hle.
    destruct (Compare_spec (pik_user_key p) (pik_user_key q)) as [H|H|H]; [|done|].
    - destruct (Hf a p v Hlt Hpa Hl H).
    - apply not_cle in H; done. }
  revert Hp. fold U. generalize U as l. induction l as [|x l IH]; intros Hp; [constructor|]. constructor.
  - apply IH. intros i j a b Hi Hj Hij. apply (Hp (S i) (S j)); [done|done|lia].
  - apply Forall_forall. intros y Hy. apply list_elem_of_lookup in Hy as [j Hj]. apply (Hp 0%nat (S j)); [done|done|lia].
Qed.

(** The first visible version that satisfies a predicate, and the last. *)
Lemma first_visible (f : bytes * bytes -> bool) (i : nat) :
  vis i = true -> f (entry_of P i) = true -> (forall j, (j < i)%nat -> vis j = true -> f (entry_of P j) = false) ->
  exists n, first_idx f U = Some n /\ U !! n = Some (entry_of P i).
Proof.
  intros Hv Hf Hb. apply visible_index, list_elem_of_lookup in Hv as [n Hn]. exists n.
  assert (U !! n = Some (entry_of P i)) as HU by (apply U_lookup; eauto). split; [|done].
  apply first_idx_Some. split; [eauto|]. intros j kv Hj (x & Hx & ->)%U_lookup. apply Hb.
  - eapply filter_seq_sorted; done.
  - apply visible_index, list_elem_of_lookup. eauto.
Qed.

Lemma last_visible (f : bytes * bytes -> bool) (i : nat) :
  vis i = true -> f (entry_of P i) = true -> (forall j, (i < j)%nat -> vis j = true -> f (entry_of P j) = false) ->
  exists n, last_idx f U = Some n /\ U !! n = Some (entry_of P i).
Proof.
  intros Hv Hf Hb. apply visible_index, list_elem_of_lookup in Hv as [n Hn]. exists n.
  assert (U !! n = Some (entry_of P i)) as HU by (apply U_lookup; eauto). split; [|done].
  apply last_idx_Some. split; [eauto|]. intros j kv Hj (x & Hx & ->)%U_lookup. apply Hb.
  - eapply filter_seq_sorted; [exact Hn|exact Hx|done].
  - apply visible_index, list_elem_of_lookup. eauto.
Qed.

Lemma none_visible (f : bytes * bytes -> bool) :
  (forall j, vis j = true -> f (entry_of P j) = false) -> first_idx f U = None /\ last_idx f U = None.
Proof.
  intros Hb. assert (forall kv, kv ∈ U -> f kv = false) as H.
  { intros kv Hk. apply list_elem_of_lookup in Hk as [n Hn]. apply U_lookup in Hn as (x & Hx & ->).
    apply Hb, visible_index, list_elem_of_lookup. eauto. }
  split; [apply first_idx_None|apply last_idx_None]; done.
Qed.

End Positions.

(** ** The scanning loops *)

Section Loops.
Context {C : Comparator} {CL : ComparatorLaws C} {S R : Type} {HI : Iterator S}.
Context (Uniform : Z -> R -> Z * R) (sample_fuel fuel : nat).
Context (P : versions) (s : SequenceNumber) (Hs : seq_ok s).
Context (Hseq : forall p v, (p, v) ∈ P -> seq_ok (pik_sequence p)).
Context (HS : keys_sorted (C := InternalKeyComparator C) (internal_entries P)).
Context (RI : S -> option nat -> Prop) (Sim : IterSim (C := InternalKeyComparator C) (internal_entries P) RI).
Context (Hfuel : (length P < fuel)%nat).

Abbreviation vis := (visible_at P s).
Abbreviation U := (visible_entries P s).
Abbreviation parse := (ParseKey Uniform sample_fuel).
Abbreviation user i := (fst (entry_of P i)).

Lemma sample_loop_spec (n : nat) (k : bytes) (b : Z) (d : DBIter S R) :
  exists r m l, sample_loop Uniform n k b d = set_sampling r m l d.
Proof.
  revert d. induction n as [|n IH]; intros d; simpl.
  - exists (di_rnd d), (di_bytes_until_read_sampling d), (di_samples d). destruct d; done.
  - destruct (_ <? _).
    + destruct (RandomCompactionPeriod Uniform (di_rnd d)) as [period rnd].
      destruct (IH (set_sampling rnd (u64 (di_bytes_until_read_sampling d + period)) (di_samples d ++ [k]) d)) as (r & m & l & ->).
      exists r, m, l. done.
    + exists (di_rnd d), (di_bytes_until_read_sampling d), (di_samples d). destruct d; done.
Qed.

(** The user's position and the samples are independent. *)
Record common (d : DBIter S R) : Prop := { co_sequence : di_sequence d = s; co_status : di_status d = StatusOK }.

Lemma at_entry_spec (d : DBIter S R) (i : nat) : RI (di_iter d) (Some i) ->
  exists p v, P !! i = Some (p, v) /\ it_key (di_iter d) = encode_key p /\ it_value (di_iter d) = v /\
    ExtractUserKey (it_key (di_iter d)) = pik_user_key p /\ seq_ok (pik_sequence p).
Proof.
  intros HR. pose proof (sim_entry _ _ Sim _ _ HR) as He. unfold internal_entries in He. rewrite list_lookup_fmap in He.
  destruct (P !! i) as [[p v]|] eqn:E; [|done]. injection He as Ek Ev. cbn [fst snd] in *. exists p, v.
  rewrite <- Ek, <- Ev, ExtractUserKey_encode. split_and!; try done. apply (seq_at P Hseq i p v). done.
Qed.

Lemma ParseKey_spec (d : DBIter S R) (i : nat) : RI (di_iter d) (Some i) ->
  exists p v r m l, P !! i = Some (p, v) /\ parse d = (Some p, set_sampling r m l d) /\
    it_value (di_iter d) = v /\ ExtractUserKey (it_key (di_iter d)) = pik_user_key p.
Proof.
  intros HR. destruct (at_entry_spec d i HR) as (p & v & Hp & Ek & Ev & Eu & Hok). unfold ParseKey.
  destruct (sample_loop_spec sample_fuel (it_key (di_iter d)) (zlen (it_key (di_iter d)) + zlen (it_value (di_iter d))) d)
    as (r & m & l & ->). cbv zeta.
  assert (ParseInternalKey (it_key (di_iter d)) = Some p) as -> by (rewrite Ek; apply ParseInternalKey_encode; done).
  eexists p, v, _, _, _. done.
Qed.

Lemma entry_user (i : nat) (p : ParsedInternalKey) (v : bytes) : P !! i = Some (p, v) -> entry_of P i = (pik_user_key p, v).
Proof. intros E. unfold entry_of. rewrite E. done. Qed.

Lemma move_next (d : DBIter S R) (i : nat) : RI (di_iter d) (Some i) ->
  (RI (it_Next (di_iter d)) (Some (Datatypes.S i)) /\ it_Valid (it_Next (di_iter d)) = true /\ (Datatypes.S i < length P)%nat) \/
  (RI (it_Next (di_iter d)) None /\ it_Valid (it_Next (di_iter d)) = false /\ (length P <= Datatypes.S i)%nat).
Proof.
  intros HR. pose proof (sim_next _ _ Sim _ _ HR) as Hn. pose proof (sim_valid _ _ Sim _ _ Hn) as Hv.
  unfold cur_next, in_range, internal_entries in *. rewrite length_map in *.
  destruct (Nat.ltb_spec (Datatypes.S i) (length P)); [left|right]; split_and!; try done.
Qed.

Lemma move_prev (d : DBIter S R) (i : nat) : RI (di_iter d) (Some i) ->
  match i with
  | O => RI (it_Prev (di_iter d)) None /\ it_Valid (it_Prev (di_iter d)) = false
  | Datatypes.S j => RI (it_Prev (di_iter d)) (Some j) /\ it_Valid (it_Prev (di_iter d)) = true
  end.
Proof.
  intros HR. pose proof (sim_prev _ _ Sim _ _ HR) as Hn. pose proof (sim_valid _ _ Sim _ _ Hn) as Hv. destruct i; done.
Qed.

(** Going forward *)

Record fwd (d : DBIter S R) (i : nat) : Prop := {
  fw_common : common d;
  fw_direction : di_direction d = kForward;
  fw_valid : di_valid d = true;
  fw_iter : RI (di_iter d) (Some i);
  fw_visible : vis i = true
}.

Definition ended (d : DBIter S R) : Prop := common d /\ di_valid d = false /\ exists c, RI (di_iter d) c.

(** [k0]: the key that the search has to pass, if any. *)
Definition passes (k0 : option bytes) (i : nat) : Prop := match k0 with Some k => clt k (user i) | None => True end.

Definition skip_inv (skipping : bool) (d : DBIter S R) (i : nat) (k0 : option bytes) : Prop :=
  if skipping then
    (forall x q w, (x < i)%nat -> P !! x = Some (q, w) -> live s q = true -> cle (pik_user_key q) (di_saved_key d)) /\
    (k0 = Some (di_saved_key d) \/
     exists x q w, (x < i)%nat /\ P !! x = Some (q, w) /\ live s q = true /\ ceq (pik_user_key q) (di_saved_key d)) /\
    match k0 with Some k => cle k (di_saved_key d) | None => True end
  else
    k0 = None /\
    (forall x y p q v w, (x < i <= y)%nat -> P !! x = Some (q, w) -> P !! y = Some (p, v) -> live s q = true ->
       ~ ceq (pik_user_key q) (pik_user_key p)).

Lemma skip_inv_deletion (skipping : bool) (d d' : DBIter S R) (i : nat) (p : ParsedInternalKey) (v : bytes) (k0 : option bytes) :
  P !! i = Some (p, v) -> live s p = true -> di_saved_key d' = pik_user_key p ->
  match k0 with Some k => cle k (pik_user_key p) | None => True end ->
  skip_inv skipping d i k0 -> skip_inv true d' (Datatypes.S i) k0.
Proof.
  intros Hi Hl Ek Hk _. unfold skip_inv. rewrite Ek. split_and!; [|right|done].
  - intros x q w Hx Hq Hlq. eapply (order_at P HS x i); [done|done|lia].
  - exists i, p, v. split_and!; [lia|done|done|apply ceq_refl].
Qed.

Lemma skip_inv_step (skipping : bool) (d d' : DBIter S R) (i : nat) (p : ParsedInternalKey) (v : bytes) (k0 : option bytes) :
  P !! i = Some (p, v) -> di_saved_key d' = di_saved_key d ->
  (live s p = true -> skipping = true /\ cle (pik_user_key p) (di_saved_key d)) ->
  skip_inv skipping d i k0 -> skip_inv skipping d' (Datatypes.S i) k0.
Proof.
  intros Hi Ek Hl. unfold skip_inv. rewrite Ek. destruct skipping.
  - intros (H1 & H2 & H3). split_and!; [| |done].
    + intros x q w Hx Hq Hlq. destruct (decide (x = i)) as [->|]; [|apply (H1 x q w); [lia|done|done]].
      rewrite Hi in Hq. injection Hq as <- <-. apply (Hl Hlq).
    + destruct H2 as [->|(x & q & w & Hx & Hrest)]; [left; done|right]. exists x, q, w. split; [lia|done].
  - intros [-> H2]. split; [done|]. intros x y p' q v' w Hxy Hx Hy Hlq.
    destruct (decide (x = i)) as [->|]; [|apply (H2 x y p' q v' w); [lia|done|done|done]].
    rewrite Hi in Hx. injection Hx as <- <-. destruct (Hl Hlq) as [[=] _].
Qed.

Lemma next_hidden (d : DBIter S R) (i : nat) (p : ParsedInternalKey) (v : bytes) (k0 : option bytes) :
  P !! i = Some (p, v) -> skip_inv true d i k0 -> cle (pik_user_key p) (di_saved_key d) -> vis i = true -> ~ passes k0 i.
Proof.
  intros Hi (_ & H2 & _) Hle Hv Hp. destruct H2 as [->|(x & q & w & Hx & Hq & Hlq & Hc)].
  - unfold passes in Hp. rewrite (entry_user i p v Hi) in Hp. cbn [fst] in Hp. apply not_clt in Hle. done.
  - rewrite (hidden P s HS x i q p w v Hx Hq Hi Hlq) in Hv; [done|].
    eapply cmp_le_trans; [exact Hle|]. apply ceq_cle. symmetry. done.
Qed.

Lemma next_found (skipping : bool) (d : DBIter S R) (i : nat) (p : ParsedInternalKey) (v : bytes) (k0 : option bytes) :
  P !! i = Some (p, v) -> skip_inv skipping d i k0 -> live s p = true -> pik_type p = kTypeValue ->
  (skipping = true -> clt (di_saved_key d) (pik_user_key p)) -> vis i = true /\ passes k0 i.
Proof.
  intros Hi Hinv Hl Ht Hlt. unfold passes. rewrite (entry_user i p v Hi). cbn [fst]. destruct skipping; simpl in Hinv.
  - destruct Hinv as (H1 & _ & H3). specialize (Hlt eq_refl). split.
    + apply vis_true. exists p, v. split_and!; [done..|]. intros j q w Hj Hq Hlq Hc.
      pose proof (cle_clt_trans _ _ _ (H1 j q w Hj Hq Hlq) Hlt) as H. unfold clt, ceq in *. congruence.
    + destruct k0; [|done]. eapply cle_clt_trans; done.
  - destruct Hinv as [-> H2]. split; [|done]. apply vis_true. exists p, v. split_and!; [done..|].
    intros j q w Hj Hq Hlq. apply (H2 j i p q v w); [lia|done|done|done].
Qed.

Definition next_result (d : DBIter S R) (i : nat) (k0 : option bytes) : Prop :=
  (exists w, (i <= w)%nat /\ fwd d w /\ passes k0 w /\ forall x, (i <= x < w)%nat -> vis x = true -> ~ passes k0 x) \/
  (ended d /\ forall x, (i <= x)%nat -> vis x = true -> ~ passes k0 x).

Lemma next_result_step (d : DBIter S R) (i : nat) (k0 : option bytes) :
  (vis i = true -> ~ passes k0 i) -> next_result d (Datatypes.S i) k0 -> next_result d i k0.
Proof.
  intros Hi [(w & Hw & Hf & Hp & Hx)|[He Hx]].
  - left. exists w. split_and!; [lia|done|done|]. intros x Hxw Hv. destruct (decide (x = i)) as [->|]; [auto|]. apply Hx; [lia|done].
  - right. split; [done|]. intros x Hxw Hv. destruct (decide (x = i)) as [->|]; [auto|]. apply Hx; [lia|done].
Qed.

Lemma FindNext_spec (n : nat) (skipping : bool) (d : DBIter S R) (i : nat) (k0 : option bytes) :
  (length P - i < n)%nat -> common d -> di_direction d = kForward -> RI (di_iter d) (Some i) ->
  (forall k, k0 = Some k -> forall y p v, (i <= y)%nat -> P !! y = Some (p, v) -> live s p = true -> cle k (pik_user_key p)) ->
  skip_inv skipping d i k0 -> next_result (FindNextUserEntry_loop Uniform sample_fuel n skipping d) i k0.
Proof.
  revert skipping d i. induction n as [|n IH]; intros skipping d i Hn Hco Hdir HR Hge Hinv; [lia|]. simpl.
  unfold next_round. destruct (ParseKey_spec d i HR) as (p & v & r & m & l & Hi & -> & Ev & Eu).
  change (di_sequence (set_sampling r m l d)) with (di_sequence d). rewrite (co_sequence d Hco). fold (live s p).
  (* what remains when the entry at [i] is passed over *)
  assert (forall skipping' d', di_iter d' = di_iter d -> common d' -> di_direction d' = kForward ->
    (vis i = true -> ~ passes k0 i) -> skip_inv skipping' d' (Datatypes.S i) k0 ->
    next_result (let d := set_iter (it_Next (di_iter d')) d' in
      if it_Valid (di_iter d) then FindNextUserEntry_loop Uniform sample_fuel n skipping' d else set_valid false (SaveKey [] d)) i k0) as Hgo.
  { intros sk d' Eit Hco' Hdir' Hnv Hinv'. apply next_result_step; [done|]. rewrite Eit. cbv zeta. cbn [set_iter di_iter].
    destruct (move_next d i HR) as [(HR' & -> & Hlt)|(HR' & -> & Hge')].
    - apply IH; [lia|destruct Hco'; split; done|done|exact HR'| |].
      + intros k Ek y p' v' Hy. apply (Hge k Ek y p' v'). lia.
      + exact Hinv'.
    - right. split; [split_and!; [destruct Hco'; split; done|done|eexists; exact HR']|].
      intros x Hx Hv. apply vis_lt_length in Hv. lia. }
  destruct (live s p) eqn:El; [destruct (pik_type p) eqn:Et|].
  - apply Hgo; [done|destruct Hco; split; done|done| |].
    + intros (p' & v' & Hi' & _ & Ht' & _)%vis_true. congruence.
    + eapply (skip_inv_deletion skipping d); [done|done|done| |done]. destruct k0 as [k|]; [|done]. eapply (Hge k eq_refl i p v); done.
  - change (di_saved_key (set_sampling r m l d)) with (di_saved_key d). destruct (skipping && _) eqn:Esk.
    + apply andb_true_iff in Esk as [-> Hc]. assert (cle (pik_user_key p) (di_saved_key d)) as Hle
        by (unfold cle; destruct (Compare _ _); done).
      apply Hgo; [done|destruct Hco; split; done|done| |].
      * intros Hv. eapply (next_hidden d i p v k0); done.
      * eapply (skip_inv_step true d); [done|done|auto|done].
    + destruct (next_found skipping d i p v k0 Hi Hinv El Et) as [Hv Hp].
      { intros ->. simpl in Esk. apply not_cle. unfold cle. destruct (Compare _ _); naive_solver. }
      left. exists i. split_and!; [done|split; try done; destruct Hco; split; done|done|]. intros x Hx. lia.
  - apply Hgo; [done|destruct Hco; split; done|done| |].
    + intros (p' & v' & Hi' & Hl' & _)%vis_true. congruence.
    + eapply (skip_inv_step skipping d); [done|done|congruence|done].
Qed.

(** Going backward *)

(** The first position the internal iterator has not passed yet. *)
Definition above (c : option nat) : nat := match c with Some j => Datatypes.S j | None => O end.

(** [c] is before the versions of the key at [i], and every live version after it
    is of that key or a later one. *)
Definition before_key (c : option nat) (i : nat) : Prop :=
  (forall j, c = Some j -> clt (user j) (user i)) /\
  (forall x q w, (above c <= x)%nat -> P !! x = Some (q, w) -> live s q = true -> cle (user i) (pik_user_key q)).

Record rev (d : DBIter S R) (i : nat) : Prop := {
  rv_common : common d;
  rv_direction : di_direction d = kReverse;
  rv_valid : di_valid d = true;
  rv_saved : (di_saved_key d, di_saved_value d) = entry_of P i;
  rv_visible : vis i = true;
  rv_iter : exists c, RI (di_iter d) c /\ before_key c i
}.

(** The versions in [[lo, hi)] have been scanned. *)
Definition scan_inv (vt : ValueType) (d : DBIter S R) (lo hi : nat) : Prop :=
  match vt with
  | kTypeDeletion => forall x, (lo <= x < hi)%nat -> vis x = false
  | kTypeValue =>
      exists w p v, (lo <= w < hi)%nat /\ P !! w = Some (p, v) /\ live s p = true /\ pik_type p = kTypeValue /\
        di_saved_key d = pik_user_key p /\ di_saved_value d = v /\
        (forall x q u, (lo <= x < w)%nat -> P !! x = Some (q, u) -> live s q = false) /\
        (forall x, (w < x < hi)%nat -> vis x = false)
  end.

Lemma dead_not_visible (x : nat) (q : ParsedInternalKey) (u : bytes) : P !! x = Some (q, u) -> live s q = false -> vis x = false.
Proof. intros Hq Hl. apply not_true_iff_false. intros (q' & u' & Hq' & Hl' & _)%vis_true. congruence. Qed.

(** When the version at [lo - 1] does not end the search, nothing scanned is visible. *)
Lemma scan_hidden (vt : ValueType) (d : DBIter S R) (j hi : nat) (p : ParsedInternalKey) (v : bytes) :
  scan_inv vt d (Datatypes.S j) hi -> P !! j = Some (p, v) -> live s p = true ->
  (vt = kTypeValue -> cle (di_saved_key d) (pik_user_key p)) -> forall x, (Datatypes.S j <= x < hi)%nat -> vis x = false.
Proof.
  intros Hinv Hj Hl Hle x Hx. destruct vt; [apply Hinv; done|].
  destruct Hinv as (w & p' & v' & Hw & Hp & _ & _ & Ek & _ & Hbelow & Habove). specialize (Hle eq_refl).
  destruct (Nat.lt_trichotomy x w) as [Hlt|[->|Hgt]].
  - destruct (lookup_lt_is_Some_2 P x) as [[q u] Hq]; [apply lookup_lt_Some in Hp; lia|].
    eapply dead_not_visible; [done|]. eapply (Hbelow x q u); [lia|done].
  - eapply (hidden P s HS j w p p' v v'); [lia|done|done|done|]. rewrite <- Ek. done.
  - apply Habove. lia.
Qed.

Lemma scan_dead (vt : ValueType) (d d' : DBIter S R) (j hi : nat) (p : ParsedInternalKey) (v : bytes) :
  scan_inv vt d (Datatypes.S j) hi -> P !! j = Some (p, v) -> live s p = false ->
  di_saved_key d' = di_saved_key d -> di_saved_value d' = di_saved_value d -> scan_inv vt d' j hi.
Proof.
  intros Hinv Hj Hl Ek Ev. destruct vt; simpl in *.
  - intros x Hx. destruct (decide (x = j)) as [->|]; [eapply dead_not_visible; done|]. apply Hinv. lia.
  - destruct Hinv as (w & p' & v' & Hw & Hp & Hlp & Ht & Ek' & Ev' & Hbelow & Habove).
    exists w, p', v'. rewrite Ek, Ev. split_and!; try done; try lia.
    intros x q u Hx Hq. destruct (decide (x = j)) as [->|]; [congruence|]. apply (Hbelow x q u); [lia|done].
Qed.

(** The found version is visible once a smaller key or the front is reached. *)
Lemma scan_found (d : DBIter S R) (lo hi : nat) (c : option nat) :
  scan_inv kTypeValue d lo hi -> above c = lo ->
  (forall j, c = Some j -> clt (user j) (di_saved_key d)) ->
  exists w, (w < hi)%nat /\ vis w = true /\ (di_saved_key d, di_saved_value d) = entry_of P w /\ before_key c w /\
    forall x, (w < x < hi)%nat -> vis x = false.
Proof.
  intros (w & p & v & Hw & Hp & Hl & Ht & Ek & Ev & Hbelow & Habove) Hc Hlt.
  pose proof (entry_user w p v Hp) as Ew. exists w. split_and!; [lia| |congruence| |done].
  - apply vis_true. exists p, v. split_and!; [done..|]. intros x q u Hx Hq Hlq Hceq.
    destruct (Nat.lt_ge_cases x lo) as [Hxl|Hxl]; [|rewrite (Hbelow x q u) in Hlq; [done|lia|done]].
    destruct c as [j|]; simpl in Hc; [|lia]. destruct (lookup_lt_is_Some_2 P j) as [[pj vj] Hj]; [apply lookup_lt_Some in Hp; lia|].
    specialize (Hlt j eq_refl). rewrite (entry_user j pj vj Hj), Ek in Hlt. cbn [fst] in Hlt.
    pose proof (order_at P HS x j q pj u vj Hq Hj ltac:(lia)) as Hle. pose proof (cle_clt_trans _ _ _ Hle Hlt) as H.
    unfold clt, ceq in *. congruence.
  - split; [intros j Ej; rewrite Ew; cbn [fst]; rewrite <- Ek; auto|]. rewrite Hc, Ew. cbn [fst].
    intros x q u Hx Hq Hlq. destruct (Nat.lt_ge_cases x w) as [Hxw|Hxw]; [rewrite (Hbelow x q u) in Hlq; [done|lia|done]|].
    apply (order_at P HS w x p q v u Hp Hq Hxw).
Qed.

Definition prev_result (vt : ValueType) (d : DBIter S R) (hi : nat) : Prop :=
  common d /\ di_direction d = kReverse /\
  match vt with
  | kTypeValue => exists w c, (w < hi)%nat /\ vis w = true /\ (di_saved_key d, di_saved_value d) = entry_of P w /\
                    RI (di_iter d) c /\ before_key c w /\ forall x, (w < x < hi)%nat -> vis x = false
  | kTypeDeletion => (exists c, RI (di_iter d) c) /\ forall x, (x < hi)%nat -> vis x = false
  end.

Lemma prev_done (vt : ValueType) (d : DBIter S R) (lo hi : nat) (c : option nat) :
  common d -> di_direction d = kReverse -> scan_inv vt d lo hi -> above c = lo -> RI (di_iter d) c ->
  (vt = kTypeValue -> forall j, c = Some j -> clt (user j) (di_saved_key d)) -> (vt = kTypeDeletion -> lo = O) ->
  prev_result vt d hi.
Proof.
  intros Hco Hdir Hinv Hc HR Hlt Hz. split_and!; [done|done|]. destruct vt.
  - split; [eauto|]. intros x Hx. apply Hinv. rewrite (Hz eq_refl). lia.
  - destruct (scan_found d lo hi c Hinv Hc (Hlt eq_refl)) as (w & H1 & H2 & H3 & H4 & H5). exists w, c. done.
Qed.

Lemma FindPrev_spec (n : nat) (vt : ValueType) (d : DBIter S R) (j hi : nat) :
  (j < n)%nat -> (j < hi)%nat -> common d -> di_direction d = kReverse -> RI (di_iter d) (Some j) ->
  scan_inv vt d (Datatypes.S j) hi ->
  let '(vt', d') := FindPrevUserEntry_loop Uniform sample_fuel n vt d in prev_result vt' d' hi.
Proof.
  revert vt d j. induction n as [|n IH]; intros vt d j Hn Hhi Hco Hdir HR Hinv; [lia|]. simpl.
  unfold prev_round. destruct (ParseKey_spec d j HR) as (p & v & r & m & l & Hj & -> & Ev & Eu).
  change (di_sequence (set_sampling r m l d)) with (di_sequence d). rewrite (co_sequence d Hco). fold (live s p).
  change (di_saved_key (set_sampling r m l d)) with (di_saved_key d).
  assert (forall vt' d', di_iter d' = di_iter d -> common d' -> di_direction d' = kReverse -> scan_inv vt' d' j hi ->
    let '(vt2, d2) := (let d := set_iter (it_Prev (di_iter d')) d' in
      if it_Valid (di_iter d) then FindPrevUserEntry_loop Uniform sample_fuel n vt' d else (vt', d)) in prev_result vt2 d2 hi) as Hgo.
  { intros vt' d' Eit Hco' Hdir' Hinv'. rewrite Eit. cbv zeta. cbn [set_iter di_iter]. pose proof (move_prev d j HR) as Hm. destruct j as [|j].
    - destruct Hm as [HR' ->]. eapply (prev_done _ _ 0 hi None); [destruct Hco'; split; done|done|exact Hinv'|done|exact HR'|done|done].
    - destruct Hm as [HR' ->]. apply (IH vt' _ j); [lia|lia|destruct Hco'; split; done|done|exact HR'|exact Hinv']. }
  destruct (live s p) eqn:El; [destruct (negb _ && _) eqn:Est|].
  - apply andb_true_iff in Est as [Hvt Hc]. destruct vt; [done|].
    assert (clt (pik_user_key p) (di_saved_key d)) as Hlt by (unfold clt; destruct (Compare _ _); done).
    eapply (prev_done kTypeValue _ (Datatypes.S j) hi (Some j)); [destruct Hco; split; done|done|exact Hinv|done|exact HR| |done].
    intros _ j' [= <-]. rewrite (entry_user j p v Hj). done.
  - assert (vt = kTypeValue -> cle (di_saved_key d) (pik_user_key p)) as Hle.
    { intros ->. simpl in Est. apply not_clt. unfold clt. destruct (Compare _ _); naive_solver. }
    pose proof (scan_hidden vt d j hi p v Hinv Hj El Hle) as Hhid. destruct (pik_type p) eqn:Et.
    + apply Hgo; [done|destruct Hco; split; done|done|]. intros x Hx. destruct (decide (x = j)) as [->|]; [|apply Hhid; lia].
      apply not_true_iff_false. intros (p' & v' & Hj' & _ & Ht' & _)%vis_true. congruence.
    + apply Hgo; [done|destruct Hco; split; done|done|]. exists j, p, v. split_and!; try done; try lia.
  - apply Hgo; [done|destruct Hco; split; done|done|]. eapply scan_dead; done.
Qed.

Lemma FindPrevUserEntry_spec (d : DBIter S R) (c : option nat) :
  common d -> di_direction d = kReverse -> RI (di_iter d) c -> (forall j, c = Some j -> (j < length P)%nat) ->
  let d' := FindPrevUserEntry Uniform sample_fuel fuel d in
  (exists w, (w < above c)%nat /\ rev d' w /\ forall x, (w < x < above c)%nat -> vis x = false) \/
  (ended d' /\ forall x, (x < above c)%nat -> vis x = false).
Proof.
  intros Hco Hdir HR Hc. unfold FindPrevUserEntry. rewrite (sim_valid _ _ Sim _ _ HR). destruct c as [j|]; cbn [above].
  - specialize (Hc j eq_refl). pose proof (FindPrev_spec fuel kTypeDeletion d j (Datatypes.S j)) as Hspec.
    destruct (FindPrevUserEntry_loop _ _ fuel kTypeDeletion d) as [vt d'].
    destruct Hspec as (Hco' & Hdir' & Hr); [lia|lia|done|done|done|intros x Hx; lia|]. destruct vt; case_decide; try done.
    + right. destruct Hr as [[c HR'] Hx]. split; [|done]. split_and!; [destruct Hco'; split; done|done|eauto].
    + left. destruct Hr as (w & c & Hw & Hv & Hsv & HR' & Hb & Hx). exists w. split_and!; [done| |done].
      split; [destruct Hco'; split; done|done|done|done|done|eauto].
  - right. simpl. split; [|intros; lia]. split_and!; [destruct Hco; split; done|done|eauto].
Qed.

(** The loop of [Prev] stops at the last version of a smaller key. *)
Lemma leave_key_spec (n : nat) (d : DBIter S R) (i : nat) :
  (i < n)%nat -> common d -> RI (di_iter d) (Some i) ->
  let '(more, d') := leave_key n d in
  common d' /\
  if more then
    exists j, (j < i)%nat /\ RI (di_iter d') (Some j) /\ clt (user j) (di_saved_key d) /\
      forall x, (j < x < i)%nat -> cle (di_saved_key d) (user x)
  else ended d' /\ forall x, (x < i)%nat -> cle (di_saved_key d) (user x).
Proof.
  revert d i. induction n as [|n IH]; intros d i Hn Hco HR; [lia|]. simpl. pose proof (move_prev d i HR) as Hm. destruct i as [|i].
  - destruct Hm as [HR' ->]. simpl. split; [destruct Hco; split; done|]. split; [|lia].
    split_and!; [destruct Hco; split; done|done|eexists; exact HR'].
  - destruct Hm as [HR' ->]. simpl. destruct (at_entry_spec (set_iter (it_Prev (di_iter d)) d) i HR') as (p & v & Hp & _ & _ & Eu & _).
    cbn [set_iter di_iter] in Eu. rewrite Eu. destruct (Compare (pik_user_key p) (di_saved_key d)) eqn:Ec.
    2: { split; [destruct Hco; split; done|]. exists i. rewrite (entry_user i p v Hp). split_and!; [lia|exact HR'|exact Ec|intros; lia]. }
    all: assert (cle (di_saved_key d) (user i)) as Hle
      by (rewrite (entry_user i p v Hp); apply not_clt; unfold clt; cbn [fst]; congruence).
    all: pose proof (IH (set_iter (it_Prev (di_iter d)) d) i ltac:(lia) ltac:(destruct Hco; split; done) HR') as Hr;
      destruct (leave_key n _) as [[] d'];
      [destruct Hr as (Hco' & j & Hj & HRj & Hlt & Hx)|destruct Hr as (Hco' & He & Hx)]; (split; [done|]).
    all: try (exists j; split_and!; [lia|done|done|]; intros x Hxj; destruct (decide (x = i)) as [->|]; [done|apply Hx; lia]).
    all: split; [done|]; intros x Hxi; destruct (decide (x = i)) as [->|]; [done|apply Hx; lia].
Qed.

(** ** The simulation *)

Definition di_at (d : DBIter S R) (c : option nat) : Prop :=
  match c with
  | Some n => exists i, (fwd d i \/ rev d i) /\ U !! n = Some (entry_of P i)
  | None => ended d
  end.

Lemma di_at_any (d : DBIter S R) (c : option nat) : di_at d c -> common d /\ exists ci, RI (di_iter d) ci.
Proof.
  destruct c; [intros (i & [[]|[? ? ? ? ? (ci & ? & _)]] & _)|intros (? & _ & ?)]; eauto.
Qed.

Lemma next_at (d : DBIter S R) (lo : nat) (k0 : option bytes) (f : bytes * bytes -> bool) :
  next_result d lo k0 -> (forall x, (lo <= x)%nat -> vis x = true -> f (entry_of P x) = true <-> passes k0 x) ->
  (forall x, (x < lo)%nat -> vis x = true -> f (entry_of P x) = false) -> di_at d (first_idx f U).
Proof.
  intros [(w & Hw & Hf & Hp & Hx)|[He Hx]] Hge Hlt.
  - destruct (first_visible P s f w (fw_visible _ _ Hf)) as (n & -> & HU).
    + apply (Hge w Hw (fw_visible _ _ Hf)), Hp.
    + intros j Hj Hv. destruct (Nat.lt_ge_cases j lo) as [|Hjl]; [apply Hlt; done|].
      apply not_true_iff_false. intros Hfj. apply (Hx j ltac:(lia) Hv), (Hge j Hjl Hv), Hfj.
    + exists w. auto.
  - destruct (none_visible P s f) as [-> _]; [|done]. intros j Hv.
    destruct (Nat.lt_ge_cases j lo) as [|Hjl]; [apply Hlt; done|].
    apply not_true_iff_false. intros Hfj. apply (Hx j Hjl Hv), (Hge j Hjl Hv), Hfj.
Qed.

Lemma prev_at (d : DBIter S R) (c : option nat) (f : bytes * bytes -> bool) :
  common d -> di_direction d = kReverse -> RI (di_iter d) c -> (forall j, c = Some j -> (j < length P)%nat) ->
  (forall x, (x < above c)%nat -> vis x = true -> f (entry_of P x) = true) ->
  (forall x, (above c <= x)%nat -> vis x = true -> f (entry_of P x) = false) ->
  di_at (FindPrevUserEntry Uniform sample_fuel fuel d) (last_idx f U).
Proof.
  intros Hco Hdir HR Hc Hlt Hge. destruct (FindPrevUserEntry_spec d c Hco Hdir HR Hc) as [(w & Hw & Hr & Hx)|[He Hx]].
  - destruct (last_visible P s f w (rv_visible _ _ Hr)) as (n & -> & HU); [apply Hlt; [done|apply Hr]| |exists w; auto].
    intros j Hj Hv. destruct (Nat.lt_ge_cases j (above c)) as [|Hjl]; [|apply Hge; done]. rewrite Hx in Hv; [done|lia].
  - destruct (none_visible P s f) as [_ ->]; [|done]. intros j Hv.
    destruct (Nat.lt_ge_cases j (above c)) as [|Hjl]; [|apply Hge; done]. rewrite Hx in Hv; done.
Qed.

Lemma user_le (i j : nat) : (i <= j < length P)%nat -> cle (user i) (user j).
Proof.
  intros Hij. destruct (lookup_lt_is_Some_2 P i) as [[p v] Hp]; [lia|]. destruct (lookup_lt_is_Some_2 P j) as [[q w] Hq]; [lia|].
  rewrite (entry_user i p v Hp), (entry_user j q w Hq). apply (order_at P HS i j p q v w); [done|done|lia].
Qed.

Lemma after_spec (k : bytes) (e : bytes * bytes) : after k e = true <-> clt k (fst e).
Proof. unfold after. rewrite <- cmp_gt. destruct (Compare (fst e) k); naive_solver. Qed.

Lemma before_spec (k : bytes) (e : bytes * bytes) : before k e = true <-> clt (fst e) k.
Proof. unfold before, clt. destruct (Compare (fst e) k); naive_solver. Qed.

(** Skipping past the key of a visible version from a position behind it. *)
Lemma next_past (d : DBIter S R) (lo i : nat) :
  common d -> di_direction d = kForward -> RI (di_iter d) (Some lo) -> (lo < length P)%nat -> di_saved_key d = user i ->
  (forall x q w, (x < lo)%nat -> P !! x = Some (q, w) -> cle (pik_user_key q) (user i)) ->
  (forall x q w, (lo <= x)%nat -> P !! x = Some (q, w) -> live s q = true -> cle (user i) (pik_user_key q)) ->
  di_at (FindNextUserEntry Uniform sample_fuel fuel true d) (first_idx (after (user i)) U).
Proof.
  intros Hco Hdir HR Hlo Ek Hlt Hge. apply (next_at _ lo (Some (user i))).
  - apply FindNext_spec; [lia|done|done|done| |].
    + intros k [= <-]. exact Hge.
    + unfold skip_inv. rewrite Ek. split_and!; [|left; done|apply cle_refl]. intros x q w Hx Hq _. apply (Hlt x q w); done.
  - intros x _ _. apply after_spec.
  - intros x Hx Hv. apply not_true_iff_false. intros Ha%after_spec. apply vis_true in Hv as (p & v & Hp & _).
    rewrite (entry_user x p v Hp) in Ha. apply not_cle in Ha. apply Ha. apply (Hlt x p v); done.
Qed.

Lemma di_Next_at (d : DBIter S R) (n : nat) : di_at d (Some n) -> di_at (di_Next Uniform sample_fuel fuel d) (cur_next U n).
Proof.
  intros (i & Hd & HU). rewrite (cur_next_idx U (U_sorted P s HS) n _ HU). unfold di_Next. destruct Hd as [Hf|Hr].
  - destruct Hf as [Hco Hdir Hvd HR Hv]. rewrite Hdir. pose proof (vis_lt_length _ _ _ Hv) as Hil.
    destruct (at_entry_spec d i HR) as (p & v & Hp & _ & _ & Eu & _). cbn [SaveKey di_iter set_iter]. rewrite Eu.
    destruct (move_next d i HR) as [(HR' & -> & Hlt)|(HR' & -> & Hge)]; cbn [negb].
    + apply (next_past _ (Datatypes.S i) i); [destruct Hco; split; done|done|exact HR'|done|rewrite (entry_user i p v Hp); done| |].
      * intros x q w Hx Hq. rewrite (entry_user i p v Hp). apply (order_at P HS x i q p w v); [done|done|lia].
      * intros x q w Hx Hq _. rewrite (entry_user i p v Hp). apply (order_at P HS i x p q v w); [done|done|lia].
    + destruct (none_visible P s (after (user i))) as [-> _].
      * intros j Hj. apply not_true_iff_false. intros Ha%after_spec. apply vis_lt_length in Hj.
        apply not_cle in Ha. apply Ha. apply user_le. lia.
      * split_and!; [destruct Hco; split; done|done|eexists; exact HR'].
  - destruct Hr as [Hco -> Hvd Hsv Hv (c & HR & Hb1 & Hb2)]. pose proof (vis_lt_length _ _ _ Hv) as Hil.
    cbn [set_direction di_iter set_iter]. rewrite (sim_valid _ _ Sim _ _ HR).
    assert (above c <= i)%nat as Hci.
    { destruct c as [j|]; simpl; [|lia]. destruct (Nat.le_gt_cases i j) as [Hge|]; [|lia]. exfalso.
      pose proof (Hb1 j eq_refl) as Hlt. destruct (at_entry_spec d j HR) as (p & v & Hp & _).
      apply not_cle in Hlt. apply Hlt. apply user_le. apply lookup_lt_Some in Hp. lia. }
    assert (exists it, (if negb (match c with Some _ => true | None => false end) then it_SeekToFirst (di_iter d) else it_Next (di_iter d)) = it /\
      RI it (Some (above c)) /\ it_Valid it = true) as (it & -> & HR' & Hvi).
    { eexists. split; [reflexivity|]. destruct c as [j|]; simpl.
      - destruct (move_next d j HR) as [(H1 & H2 & _)|(_ & _ & H3)]; [done|simpl in Hci; lia].
      - pose proof (sim_first _ _ Sim _ _ HR) as Hf. pose proof (sim_valid _ _ Sim _ _ Hf) as Hvf.
        unfold cur_first, in_range, internal_entries in *. rewrite length_map in *. destruct (Nat.ltb_spec 0 (length P)); [done|lia]. }
    rewrite Hvi. cbn [negb]. apply (next_past _ (above c) i); [destruct Hco; split; done|done|exact HR'|lia| | |exact Hb2].
    + cbn [set_iter di_saved_key set_direction]. rewrite <- Hsv. done.
    + intros x q w Hx Hq. change (pik_user_key q) with (fst (pik_user_key q, w)). rewrite <- (entry_user x q w Hq). apply user_le. lia.
Qed.

Lemma di_Prev_at (d : DBIter S R) (n : nat) : di_at d (Some n) -> di_at (di_Prev Uniform sample_fuel fuel d) (cur_prev n).
Proof.
  intros (i & Hd & HU). rewrite (cur_prev_idx U (U_sorted P s HS) n _ HU). unfold di_Prev. destruct Hd as [Hf|Hr].
  - destruct Hf as [Hco Hdir Hvd HR Hv]. rewrite Hdir. pose proof (vis_lt_length _ _ _ Hv) as Hil.
    destruct (at_entry_spec d i HR) as (p & v & Hp & _ & _ & Eu & _). rewrite Eu. cbv zeta.
    pose proof (leave_key_spec fuel (SaveKey (pik_user_key p) d) i ltac:(lia) ltac:(destruct Hco; split; done) HR) as Hl.
    destruct (leave_key fuel (SaveKey (pik_user_key p) d)) as [[] d'].
    + destruct Hl as (Hco' & j & Hj & HRj & Hlt & Hx). cbn [SaveKey di_saved_key] in *.
      apply (prev_at _ (Some j)); [destruct Hco'; split; done|done|exact HRj|intros ? [= <-]; lia| |]; cbn [above].
      * intros x Hxj Hvx. apply before_spec. rewrite (entry_user i p v Hp). eapply cle_clt_trans; [|exact Hlt].
        apply user_le. lia.
      * intros x Hxj Hvx. apply not_true_iff_false. intros Hb%before_spec. apply not_cle in Hb. apply Hb.
        rewrite (entry_user i p v Hp). cbn [fst]. apply vis_lt_length in Hvx. destruct (Nat.lt_ge_cases x i).
        -- apply Hx. lia.
        -- change (pik_user_key p) with (fst (pik_user_key p, v)). rewrite <- (entry_user i p v Hp). apply user_le. lia.
    + destruct Hl as (Hco' & He & Hx). cbn [SaveKey di_saved_key] in *.
      destruct (none_visible P s (before (user i))) as [_ ->]; [|done]. intros x Hvx. apply not_true_iff_false. intros Hb%before_spec.
      apply not_cle in Hb. apply Hb. rewrite (entry_user i p v Hp). cbn [fst]. apply vis_lt_length in Hvx. destruct (Nat.lt_ge_cases x i).
      * apply Hx. lia.
      * change (pik_user_key p) with (fst (pik_user_key p, v)). rewrite <- (entry_user i p v Hp). apply user_le. lia.
  - destruct Hr as [Hco Hdir Hvd Hsv Hv (c & HR & Hb1 & Hb2)]. rewrite Hdir. apply (prev_at _ c); try done.
    + intros j ->. destruct (at_entry_spec d j HR) as (p & v & Hp & _). eapply lookup_lt_Some. done.
    + intros x Hx Hvx. apply before_spec. destruct c as [j|]; [|simpl in Hx; lia]. eapply cle_clt_trans; [|apply (Hb1 j eq_refl)].
      apply user_le. destruct (at_entry_spec d j HR) as (p & v & Hp & _). apply lookup_lt_Some in Hp. simpl in Hx. lia.
    + intros x Hx Hvx. apply not_true_iff_false. intros Hb%before_spec. apply not_cle in Hb. apply Hb.
      apply vis_true in Hvx as (p & v & Hp & Hl & _). rewrite (entry_user x p v Hp). apply (Hb2 x p v); done.
Qed.

(** The versions before the target of [Seek] that are live have smaller keys. *)
Lemma before_target_live (t : bytes) (x : nat) (q : ParsedInternalKey) (w : bytes) :
  P !! x = Some (q, w) -> live s q = true ->
  at_or_past (C := InternalKeyComparator C) (encode_key (mkPIK t s kValueTypeForSeek)) (encode_key q, w) = false ->
  clt (pik_user_key q) t.
Proof.
  intros Hq Hl Hb. apply (at_or_past_false (C := InternalKeyComparator C)) in Hb. unfold clt in *. simpl in Hb.
  rewrite ikc_Compare_encode in Hb; [|eapply seq_at; done|done]. simpl in Hb.
  destruct (Compare (pik_user_key q) t); try done. apply live_true in Hl.
  destruct (Z.compare_spec s (pik_sequence q)); [|lia|done]. destruct (pik_type q); done.
Qed.

Lemma at_target (t : bytes) (x : nat) (q : ParsedInternalKey) (w : bytes) :
  P !! x = Some (q, w) ->
  at_or_past (C := InternalKeyComparator C) (encode_key (mkPIK t s kValueTypeForSeek)) (encode_key q, w) = true ->
  cle t (pik_user_key q).
Proof.
  intros Hq Hb. apply (at_or_past_true (C := InternalKeyComparator C)) in Hb. apply ikc_cle in Hb.
  cbn [fst] in Hb. rewrite !ExtractUserKey_encode in Hb. destruct Hb as [H|[H _]]; [apply clt_cle|apply ceq_cle]; done.
Qed.

Lemma di_Seek_at (d : DBIter S R) (c : option nat) (t : bytes) :
  di_at d c -> di_at (di_Seek Uniform sample_fuel fuel t d) (seek_index t U).
Proof.
  intros Hat. destruct (di_at_any d c Hat) as [Hco [ci HR]].
  unfold di_Seek. cbn [SaveKey set_direction ClearSavedValue save_value di_iter di_saved_key di_sequence].
  rewrite (co_sequence d Hco). fold (encode_key (mkPIK t s kValueTypeForSeek)).
  pose proof (sim_seek _ _ Sim _ _ (encode_key (mkPIK t s kValueTypeForSeek)) HR) as HR'.
  cbn [set_iter di_iter]. rewrite (sim_valid _ _ Sim _ _ HR'), (seek_index_first t U).
  destruct (seek_index _ (internal_entries P)) as [i|] eqn:Ei.
  - destruct (seek_index_spec _ _ _ Ei) as [([k0 v0] & Hk0 & Hp) Hb]. pose proof (lookup_lt_Some _ _ _ Hk0) as Hil.
    unfold internal_entries in Hil. rewrite length_map in Hil.
    assert (forall x q w, (x < i)%nat -> P !! x = Some (q, w) -> live s q = true -> clt (pik_user_key q) t) as Hlow.
    { intros x q w Hx Hq Hl. apply (before_target_live t x q w Hq Hl). apply (Hb x _ Hx). apply internal_lookup. done. }
    assert (forall y q w, (i <= y)%nat -> P !! y = Some (q, w) -> cle t (pik_user_key q)) as Hhigh.
    { intros y q w Hy Hq. apply (at_target t y q w Hq). match goal with |- ?b = true => destruct b eqn:E end; [done|].
      rewrite (before_target (C := InternalKeyComparator C) _ _ y i _ (k0, v0) HS (internal_lookup P _ _ _ Hq) E Hy Hk0) in Hp. done. }
    apply (next_at _ i None).
    + apply FindNext_spec; [lia|destruct Hco; split; done|done|exact HR'|intros k [=]|]. split; [done|].
      intros x y p q v w Hxy Hq Hpy Hl Hc. pose proof (clt_cle_trans _ _ _ (Hlow x q w ltac:(lia) Hq Hl) (Hhigh y p v ltac:(lia) Hpy)) as H.
      unfold clt, ceq in *. congruence.
    + intros x Hx Hv. split; [done|]. intros _. apply at_or_past_true. apply vis_true in Hv as (p & v & Hpx & _).
      rewrite (entry_user x p v Hpx). apply (Hhigh x p v); done.
    + intros x Hx Hv. apply at_or_past_false. apply vis_true in Hv as (p & v & Hpx & Hl & _).
      rewrite (entry_user x p v Hpx). apply (Hlow x p v); done.
  - destruct (none_visible P s (at_or_past t)) as [-> _].
    + intros x Hv. apply at_or_past_false. apply vis_true in Hv as (p & v & Hpx & Hl & _). rewrite (entry_user x p v Hpx).
      apply (before_target_live t x p v Hpx Hl). apply (seek_index_end _ _ Ei x). apply internal_lookup. done.
    + split_and!; [destruct Hco; split; done|done|eexists; exact HR'].
Qed.

Lemma di_First_at (d : DBIter S R) (c : option nat) : di_at d c -> di_at (di_SeekToFirst Uniform sample_fuel fuel d) (cur_first U).
Proof.
  intros Hat. destruct (di_at_any d c Hat) as [Hco [ci HR]].
  unfold di_SeekToFirst. cbn [set_direction ClearSavedValue save_value di_iter set_iter].
  pose proof (sim_first _ _ Sim _ _ HR) as HR'. rewrite (sim_valid _ _ Sim _ _ HR'), (cur_first_idx U).
  assert (cur_first (internal_entries P) = if (0 <? length P)%nat then Some O else None) as Ef
    by (unfold cur_first, in_range, internal_entries; rewrite length_map; done).
  rewrite Ef in HR' |- *. destruct (Nat.ltb_spec 0 (length P)) as [Hl|Hl].
  - apply (next_at _ 0 None).
    + apply FindNext_spec; [lia|destruct Hco; split; done|done|exact HR'|intros k [=]|]. split; [done|]. intros. lia.
    + intros x _ _. done.
    + intros. lia.
  - destruct (none_visible P s (fun _ => true)) as [-> _]; [intros j Hv; apply vis_lt_length in Hv; lia|].
    split_and!; [destruct Hco; split; done|done|eexists; exact HR'].
Qed.

Lemma di_Last_at (d : DBIter S R) (c : option nat) : di_at d c -> di_at (di_SeekToLast Uniform sample_fuel fuel d) (cur_last U).
Proof.
  intros Hat. destruct (di_at_any d c Hat) as [Hco [ci HR]].
  unfold di_SeekToLast. cbn [set_direction ClearSavedValue save_value di_iter set_iter].
  pose proof (sim_last _ _ Sim _ _ HR) as HR'. rewrite (cur_last_idx U). apply (prev_at _ (cur_last (internal_entries P))).
  - destruct Hco; split; done.
  - done.
  - exact HR'.
  - unfold cur_last, in_range, internal_entries. rewrite length_map. intros j.
    destruct (Nat.ltb_spec (length P - 1) (length P)); [|done]. intros [= <-]. lia.
  - done.
  - unfold cur_last, in_range, internal_entries. rewrite length_map. intros x Hx Hv. apply vis_lt_length in Hv.
    destruct (Nat.ltb_spec (length P - 1) (length P)); simpl in Hx; lia.
Qed.

Lemma db_iter_sim : IterSim (H := DBIter_iter Uniform sample_fuel fuel) U di_at.
Proof.
  split.
  - intros d [n|] Hat; simpl; [destruct Hat as (i & [[]|[]] & _)|destruct Hat as (_ & ? & _)]; done.
  - intros d n (i & Hd & HU). rewrite HU. f_equal. simpl. unfold di_key, di_value. destruct Hd as [[Hco Hdir _ HR _]|Hr].
    + rewrite Hdir. destruct (at_entry_spec d i HR) as (p & v & Hp & _ & Ev & Eu & _). rewrite Eu, Ev. apply entry_user. done.
    + rewrite (rv_direction _ _ Hr). symmetry. apply Hr.
  - intros d c Hat. simpl. unfold di_get_status. destruct (di_at_any d c Hat) as [Hco [ci HR]].
    rewrite (co_status d Hco). simpl. apply (sim_status _ _ Sim _ _ HR).
  - intros d c. apply di_First_at.
  - intros d c. apply di_Last_at.
  - intros d c t. apply di_Seek_at.
  - intros d n. apply di_Next_at.
  - intros d n. apply di_Prev_at.
Qed.

Lemma newDBIter_at (it : S) (rnd : R) (c : option nat) : RI it c -> di_at (newDBIter Uniform it s rnd) None.
Proof.
  intros HR. unfold newDBIter. destruct (RandomCompactionPeriod Uniform rnd). split_and!; [split; done|done|exists c; done].
Qed.

End Loops.

(** ** Theorems *)

(** C19. The user's iterator shows the database at its sequence number: over any
    internal iterator whose versions are sorted, after any sequence of [Seek],
    [SeekToFirst], [SeekToLast], [Next] and [Prev], changes of direction included,
    the entry under the iterator is the one the cursor over the visible entries is
    at (of every key the newest version that is not newer than the sequence
    number, unless it is a deletion), and no error is reported.  Read sampling,
    whatever the random generator draws, does not change what is seen. *)
Theorem db_iterator_refines {C : Comparator} {CL : ComparatorLaws C} {S R : Type} {HI : Iterator S}
    (Uniform : Z -> R -> Z * R) (sample_fuel fuel : nat) (P : versions) (s : SequenceNumber)
    (RI : S -> option nat -> Prop) (it : S) (c : option nat) (rnd : R) (ops : list IterOp) :
  seq_ok s -> (forall p v, (p, v) ∈ P -> seq_ok (pik_sequence p)) ->
  keys_sorted (C := InternalKeyComparator C) (internal_entries P) ->
  IterSim (C := InternalKeyComparator C) (internal_entries P) RI -> RI it c -> (length P < fuel)%nat ->
  let D := DBIter_iter Uniform sample_fuel fuel in
  let d := run_ops (H := D) (newDBIter Uniform it s rnd) ops in
  observe (H := D) d = cur_observe (visible_entries P s) (cur_ops (visible_entries P s) None ops) /\
  it_status (Iterator := D) d = StatusOK.
Proof.
  intros Hs Hseq HS Sim Hc Hfuel D d. pose proof (db_iter_sim Uniform sample_fuel fuel P s Hs Hseq HS RI Sim Hfuel) as HD.
  eapply observe_sim; [exact HD|]. apply run_ops_sim; [exact HD|]. eapply newDBIter_at. done.
Qed.

(** Four versions of three keys; at sequence 4 the deletion of [b] is visible and
    the newer value of [a] is not. *)
Definition demo_versions : versions :=
  [(mkPIK (lit "a") 5 kTypeValue, lit "new"); (mkPIK (lit "a") 1 kTypeValue, lit "old");
   (mkPIK (lit "b") 3 kTypeDeletion, []); (mkPIK (lit "b") 2 kTypeValue, lit "gone"); (mkPIK (lit "c") 4 kTypeValue, lit "v")].

Lemma db_iterator_refines_witness :
  let C := BytewiseComparator in
  let L := ListIterator_iter (C := InternalKeyComparator C) in
  let D := DBIter_iter (C := C) (HI := L) (fun _ (r : unit) => (7, r)) 20 6 in
  let start := newDBIter (fun _ (r : unit) => (7, r)) (mkListIterator (internal_entries demo_versions) None) 4 tt in
  observe (H := D) (run_ops (H := D) start [OpSeek (lit "b"); OpPrev]) = Some (lit "a", lit "old") /\
  observe (H := D) (run_ops (H := D) start [OpSeek (lit "b"); OpPrev; OpNext]) = Some (lit "c", lit "v").
Proof.
  intros C L D start.
  assert (forall ops, observe (H := D) (run_ops (H := D) start ops)
    = cur_observe (visible_entries demo_versions 4) (cur_ops (visible_entries demo_versions 4) None ops)) as H.
  { intros ops. refine (proj1 (db_iterator_refines (C := C) (HI := L) (fun _ (r : unit) => (7, r)) 20 6 demo_versions 4
      (list_at (internal_entries demo_versions)) (mkListIterator (internal_entries demo_versions) None) None tt ops _ _ _ _ _ _)).
    - split; vm_compute; congruence.
    - intros p v Hp. unfold demo_versions in Hp. rewrite !elem_of_cons, elem_of_nil in Hp.
      destruct Hp as [[= -> ->]|[[= -> ->]|[[= -> ->]|[[= -> ->]|[[= -> ->]|[]]]]]]; split; vm_compute; congruence.
    - repeat constructor.
    - apply ListIterator_sim.
    - split_and!; done.
    - simpl. lia. }
  rewrite !H. split; reflexivity.
Defined.
