(* ===== verification/Version.v ===== *)
(** * Version: the files of a database and how they are searched
    ([db/version_set.h], [db/version_set.cc]: [FindFile], [SomeFileOverlapsRange]
    and class [Version])

    A version is a list of files for each of the seven levels.  Files of level 0
    may overlap; files of a deeper level are disjoint and in order.  The tables are
    read through [TableStore], the interface of the table cache.  The results:
    searching by binary search is the scan it stands for, and [Get] finds the
    newest visible entry of all files. *)

From stdpp Require Import sorting.
From S2P Require Import Prelude Status Coding Comparator Logging DbFormat Format Iterator TwoLevelIterator Table VersionEdit DBIter.
From Stdlib Require Import Sorting.Sorted.

(** ** [double]

    A finite [double] is [d_man * 2 ^ d_exp] with a mantissa of at most 53 bits.
    Conversions and divisions round to nearest, ties to even; the exponents that
    occur here are far from the limits of the format. *)
Record dbl := mkDbl { d_man : Z; d_exp : Z }.

(** [n] with its lowest [k] bits rounded away; [sticky]: more was cut off below. *)
Definition round_bits (n k : Z) (sticky : bool) : Z :=
  if k <=? 0 then Z.shiftl n (- k)
  else
    let q := Z.shiftr n k in
    let r := n - Z.shiftl q k in
    let half := Z.shiftl 1 (k - 1) in
    if half <? r then q + 1
    else if r =? half then if sticky || Z.odd q then q + 1 else q
    else q.

(** The value [n * 2 ^ e] with [n] not negative, rounded. *)
Definition dbl_round (n e : Z) (sticky : bool) : dbl :=
  let k := Z.max 0 (Z.log2 n - 52) in mkDbl (round_bits n k sticky) (e + k).

Definition dbl_of_Z (z : Z) : dbl :=
  if z <? 0 then let d := dbl_round (- z) 0 false in mkDbl (- d_man d) (d_exp d) else dbl_round z 0 false.

(** The quotient of a non-negative and a positive [double], from a quotient with
    64 bits more than the format has. *)
Definition dbl_div (a b : dbl) : dbl :=
  let s := 117 + Z.log2 (d_man b) in
  let n := Z.shiftl (d_man a) s in
  dbl_round (n / d_man b) (d_exp a - d_exp b - s) (negb (n mod d_man b =? 0)).

Definition dbl_compare (a b : dbl) : comparison :=
  let e := Z.min (d_exp a) (d_exp b) in
  Z.compare (Z.shiftl (d_man a) (d_exp a - e)) (Z.shiftl (d_man b) (d_exp b - e)).

Definition dbl_mul10 (a : dbl) : dbl := dbl_round (d_man a * 10) (d_exp a) false.

(** ** What [Get] works with *)

(** The table cache as a version sees it: [Get] reads the table of a file number
    and hands at most one entry to its callback. *)
Class TableStore (T : Type) := {
  ts_Get : ReadOptions -> Z -> Z -> bytes -> T -> Result unit * option (bytes * bytes) * T
}.

Record GetStats := mkGetStats { seek_file : option FileMetaData; seek_file_level : Z }.

Record GetState (T : Type) := mkGetState {
  gs_stats : GetStats;
  gs_result : option bytes;
  gs_status : Status;
  gs_found : bool;
  gs_last : option (FileMetaData * nat);
  gs_tables : T
}.
Arguments mkGetState {T}.
Arguments gs_stats {T}.
Arguments gs_result {T}.
Arguments gs_status {T}.
Arguments gs_found {T}.
Arguments gs_last {T}.
Arguments gs_tables {T}.

(** ** Searching a list of files *)

Section Search.
Context {C : Comparator}.

Abbreviation icmp := (ikc_Compare C).

(** Every round halves [right - left], so one more round than there are files is enough. *)
Fixpoint FindFile_loop (fuel : nat) (files : list FileMetaData) (key : bytes) (left right : Z) : Z :=
  match fuel with
  | O => right
  | S fuel =>
      if left <? right then
        let mid := u32 (left + right) / 2 in
        match files !! Z.to_nat mid with
        | Some f =>
            match icmp (fm_largest f) key with
            | Lt => FindFile_loop fuel files key (u32 (mid + 1)) right
            | _ => FindFile_loop fuel files key left mid
            end
        | None => right
        end
      else right
  end.

Definition FindFile (files : list FileMetaData) (key : bytes) : Z :=
  FindFile_loop (S (length files)) files key 0 (u32 (zlen files)).

(** [f] ends before [smallest], or starts after [largest]; [None] is a null pointer. *)
Definition after_file (smallest : option bytes) (f : FileMetaData) : bool :=
  match smallest with
  | Some k => bool_decide (Compare (InternalKey_user_key (fm_largest f)) k = Lt)
  | None => false
  end.

Definition before_file (largest : option bytes) (f : FileMetaData) : bool :=
  match largest with
  | Some k => bool_decide (Compare (InternalKey_user_key (fm_smallest f)) k = Gt)
  | None => false
  end.

Definition SomeFileOverlapsRange (disjoint_sorted_files : bool) (files : list FileMetaData)
    (smallest_user_key largest_user_key : option bytes) : bool :=
  if negb disjoint_sorted_files then
    existsb (fun f => negb (before_file largest_user_key f) && negb (after_file smallest_user_key f)) files
  else
    let index :=
      match smallest_user_key with
      | Some k => u32 (FindFile files (newInternalKey k kMaxSequenceNumber kValueTypeForSeek))
      | None => 0
      end in
    match files !! Z.to_nat index with
    | None => false
    | Some f => negb (before_file largest_user_key f)
    end.

(** ** Versions *)

Record Version := mkVersion {
  v_files : list (list FileMetaData);
  v_file_to_compact : option FileMetaData;
  v_file_to_compact_level : Z;
  v_compaction_score : dbl;
  v_compaction_level : Z
}.

Definition newVersion : Version := mkVersion (replicate kNumLevels []) None (-1) (dbl_of_Z (-1)) (-1).

Definition files_ (v : Version) (level : nat) : list FileMetaData := nth level (v_files v) [].

Definition NumFiles (v : Version) (level : nat) : Z := s32 (zlen (files_ v level)).

(** *** [LevelFileNumIterator] *)

Record LevelFileNumIterator := mkLevelIter { lf_flist : list FileMetaData; lf_index : Z }.

Definition newLevelFileNumIterator (flist : list FileMetaData) : LevelFileNumIterator := mkLevelIter flist (u32 (zlen flist)).

Definition lf_set (it : LevelFileNumIterator) (index : Z) : LevelFileNumIterator := mkLevelIter (lf_flist it) index.

Definition lf_current (it : LevelFileNumIterator) : option FileMetaData := lf_flist it !! Z.to_nat (lf_index it).

#[export] Instance LevelFileNum_iter : Iterator LevelFileNumIterator := {|
  it_Valid it := lf_index it <? zlen (lf_flist it);
  it_SeekToFirst it := lf_set it 0;
  it_SeekToLast it := lf_set it (if zlen (lf_flist it) =? 0 then 0 else u32 (zlen (lf_flist it) - 1));
  it_Seek target it := lf_set it (u32 (FindFile (lf_flist it) target));
  it_Next it := lf_set it (u32 (lf_index it + 1));
  it_Prev it := lf_set it (if lf_index it =? 0 then u32 (zlen (lf_flist it)) else lf_index it - 1);
  it_key it := match lf_current it with Some f => fm_largest f | None => [] end;
  it_value it := match lf_current it with Some f => PutFixed64 (PutFixed64 [] (fm_number f)) (fm_file_size f) | None => [] end;
  it_status _ := StatusOK
|}.

(** *** The iterators of a version

    [table_iter number size] is [TableCache::NewIterator], [error_iter] is
    [NewErrorIterator]; [index_fuel] bounds the empty tables a step can skip. *)
Section Iterators.
Context {D : Type} {HD : Iterator D} (table_iter : Z -> Z -> D) (error_iter : Status -> D) (index_fuel : nat).

(** The function given to [NewTwoLevelIterator]. *)
Definition file_reader (index_value : bytes) : D :=
  if negb (zlen index_value =? 16) then error_iter (Corruption "FileReader invoked with unexpected value" "")
  else table_iter (DecodeFixed64 index_value) (DecodeFixed64 (zdrop 8 index_value)).

Definition LevelIterator := TwoLevelIterator LevelFileNumIterator D unit.
#[export] Instance LevelIterator_iter : Iterator LevelIterator := TwoLevelIterator_iter (fun index_value u => (file_reader index_value, u)) index_fuel.

Definition NewConcatenatingIterator (v : Version) (level : nat) : LevelIterator :=
  newTwoLevelIterator (newLevelFileNumIterator (files_ v level)) tt.

Definition AddIterators (v : Version) (iters : list (D + LevelIterator)) : list (D + LevelIterator) :=
  iters ++ map (fun f => inl (table_iter (fm_number f) (fm_file_size f))) (files_ v 0) ++
  concat (map (fun level => match files_ v level with [] => [] | _ => [inr (NewConcatenatingIterator v level)] end) (seq 1 (kNumLevels - 1))).
End Iterators.

(** *** [ForEachOverlapping] *)

Definition newest_first (a b : FileMetaData) : Prop := fm_number b <= fm_number a.
#[export] Instance newest_first_dec (a b : FileMetaData) : Decision (newest_first a b) := Z_le_dec (fm_number b) (fm_number a).

(** [ucmp->Compare(user_key, f->smallest.user_key()) >= 0 && ... <= 0]. *)
Definition covers (user_key : bytes) (f : FileMetaData) : bool :=
  bool_decide (Compare user_key (InternalKey_user_key (fm_smallest f)) <> Lt) &&
  bool_decide (Compare user_key (InternalKey_user_key (fm_largest f)) <> Gt).

(** [std::sort] by decreasing file number; numbers are unique, so the order is determined. *)
Definition level0_candidates (v : Version) (user_key : bytes) : list (nat * FileMetaData) :=
  map (pair 0%nat) (merge_sort newest_first (List.filter (covers user_key) (files_ v 0))).

Definition level_candidate (v : Version) (user_key internal_key : bytes) (level : nat) : list (nat * FileMetaData) :=
  match files_ v level !! Z.to_nat (u32 (FindFile (files_ v level) internal_key)) with
  | Some f => if bool_decide (Compare user_key (InternalKey_user_key (fm_smallest f)) = Lt) then [] else [(level, f)]
  | None => []
  end.

(** The files in the order in which [func] is called on them. *)
Definition candidates (v : Version) (user_key internal_key : bytes) : list (nat * FileMetaData) :=
  level0_candidates v user_key ++ concat (map (level_candidate v user_key internal_key) (seq 1 (kNumLevels - 1))).

(** [func] returns whether to go on. *)
Fixpoint call_while {S A : Type} (func : A -> S -> bool * S) (l : list A) (s : S) : S :=
  match l with
  | [] => s
  | x :: l => let '(go, s) := func x s in if go : bool then call_while func l s else s
  end.

Definition ForEachOverlapping {S : Type} (v : Version) (user_key internal_key : bytes)
    (func : nat * FileMetaData -> S -> bool * S) (s : S) : S :=
  call_while func (candidates v user_key internal_key) s.

(** *** [Get] *)

(** The callback of [TableCache::Get]. *)
Definition save_value_cb {T : Type} (k : LookupKey) (ikey v : bytes) (g : GetState T) : GetState T :=
  match ParseInternalKey ikey with
  | None =>
      mkGetState (gs_stats g) (gs_result g)
        (Corruption ("corrupted key for " ++ String.string_of_list_byte (lk_user_key k)) "") true (gs_last g) (gs_tables g)
  | Some parsed =>
      if bool_decide (Compare (pik_user_key parsed) (lk_user_key k) = Eq)
      then mkGetState (gs_stats g) (match pik_type parsed with kTypeValue => Some v | kTypeDeletion => None end)
             (gs_status g) true (gs_last g) (gs_tables g)
      else g
  end.

Definition match_func {T : Type} `{TableStore T} (options : ReadOptions) (k : LookupKey)
    (lf : nat * FileMetaData) (g : GetState T) : bool * GetState T :=
  let '(level, f) := lf in
  let stats :=
    match seek_file (gs_stats g), gs_last g with
    | None, Some (file, l) => mkGetStats (Some file) (Z.of_nat l)
    | _, _ => gs_stats g
    end in
  let '(res, entry, tables) := ts_Get options (fm_number f) (fm_file_size f) (lk_internal_key k) (gs_tables g) in
  let g := mkGetState stats (gs_result g) (gs_status g) (gs_found g) (Some (f, level)) tables in
  let g := match entry with Some (ikey, v) => save_value_cb k ikey v g | None => g end in
  match res with
  | Err s => (false, mkGetState (gs_stats g) (gs_result g) s true (gs_last g) (gs_tables g))
  | Ok _ => (negb (gs_found g), g)
  end.

Definition Version_Get {T : Type} `{TableStore T} (options : ReadOptions) (k : LookupKey) (v : Version) (tables : T)
  : Result (option bytes) * GetStats * T :=
  let g := ForEachOverlapping v (lk_user_key k) (lk_internal_key k) (match_func options k)
             (mkGetState (mkGetStats None (-1)) None StatusOK false None tables) in
  let r :=
    if negb (ok (gs_status g)) then Err (gs_status g)
    else if gs_found g then
      match gs_result g with Some value => Ok (Some value) | None => Err (NotFound "deleted" "") end
    else Err (NotFound "not found" "") in
  (r, gs_stats g, gs_tables g).

(** *** Seek statistics

    [allowed_seeks] of the file object is shared by the versions that have the
    file, so its value is passed in and out. *)
Definition UpdateStats (stats : GetStats) (v : Version) (allowed_seeks : Z) : bool * Version * Z :=
  match seek_file stats with
  | Some f =>
      let allowed_seeks := s32 (allowed_seeks - 1) in
      match v_file_to_compact v with
      | None =>
          if allowed_seeks <=? 0
          then (true, mkVersion (v_files v) (Some f) (seek_file_level stats) (v_compaction_score v) (v_compaction_level v), allowed_seeks)
          else (false, v, allowed_seeks)
      | Some _ => (false, v, allowed_seeks)
      end
  | None => (false, v, allowed_seeks)
  end.

(** [matches] and the statistics; stops after the second file. *)
Definition sample_func (lf : nat * FileMetaData) (s : Z * GetStats) : bool * (Z * GetStats) :=
  let '(matches, stats) := s in
  let matches := matches + 1 in
  let stats := if matches =? 1 then mkGetStats (Some (snd lf)) (Z.of_nat (fst lf)) else stats in
  (matches <? 2, (matches, stats)).

(** The counter of a file is read from the store of counters. *)
Definition RecordReadSample (internal_key : bytes) (v : Version) (seeks : FileMetaData -> Z) : bool * Version * option (FileMetaData * Z) :=
  match ParseInternalKey internal_key with
  | None => (false, v, None)
  | Some ikey =>
      let '(matches, stats) := ForEachOverlapping v (pik_user_key ikey) internal_key sample_func (0, mkGetStats None (-1)) in
      match seek_file stats with
      | Some f =>
          if 2 <=? matches
          then let '(b, v, n) := UpdateStats stats v (seeks f) in (b, v, Some (f, n))
          else (false, v, None)
      | None => (false, v, None)
      end
  end.

(** *** [GetOverlappingInputs]

    On level 0 the scan starts again whenever a file widens the range.  A range
    end only moves to the boundary of a file, so there are at most two restarts
    per file. *)
Definition widens_begin (user_begin : option bytes) (f : FileMetaData) : bool :=
  match user_begin with
  | Some b => bool_decide (Compare (InternalKey_user_key (fm_smallest f)) b = Lt)
  | None => false
  end.

Definition widens_end (user_end : option bytes) (f : FileMetaData) : bool :=
  match user_end with
  | Some e => bool_decide (Compare (InternalKey_user_key (fm_largest f)) e = Gt)
  | None => false
  end.

Fixpoint overlapping_loop (fuel : nat) (level : nat) (files rest : list FileMetaData) (user_begin user_end : option bytes)
    (inputs : list FileMetaData) : list FileMetaData :=
  match fuel with
  | O => inputs
  | S fuel =>
      match rest with
      | [] => inputs
      | f :: rest =>
          if after_file user_begin f then overlapping_loop fuel level files rest user_begin user_end inputs
          else if before_file user_end f then overlapping_loop fuel level files rest user_begin user_end inputs
          else if (level =? 0)%nat && widens_begin user_begin f
          then overlapping_loop fuel level files files (Some (InternalKey_user_key (fm_smallest f))) user_end []
          else if (level =? 0)%nat && widens_end user_end f
          then overlapping_loop fuel level files files user_begin (Some (InternalKey_user_key (fm_largest f))) []
          else overlapping_loop fuel level files rest user_begin user_end (inputs ++ [f])
      end
  end.

Definition overlapping_fuel (files : list FileMetaData) : nat := S (S (2 * length files) * S (length files)).

Definition GetOverlappingInputs (level : nat) (begin end_ : option InternalKey) (v : Version) : list FileMetaData :=
  overlapping_loop (overlapping_fuel (files_ v level)) level (files_ v level) (files_ v level)
    (InternalKey_user_key <$> begin) (InternalKey_user_key <$> end_) [].

Definition OverlapInLevel (level : nat) (smallest_user_key largest_user_key : option bytes) (v : Version) : bool :=
  SomeFileOverlapsRange (0 <? level)%nat (files_ v level) smallest_user_key largest_user_key.

(** *** Sizes; [max_file_size] is the option *)

(** [result = 10. * 1048576.0], times 10 for every level above 1. *)
Definition MaxBytesForLevel (level : nat) : dbl := Nat.iter (level - 1) dbl_mul10 (dbl_of_Z 10485760).

Definition TargetFileSize (max_file_size : Z) : Z := max_file_size.
Definition MaxGrandParentOverlapBytes (max_file_size : Z) : Z := s64 (u64 (10 * TargetFileSize max_file_size)).
Definition MaxFileSizeForLevel (max_file_size : Z) (level : nat) : Z := TargetFileSize max_file_size.
Definition ExpandedCompactionByteSizeLimit (max_file_size : Z) : Z := s64 (u64 (25 * TargetFileSize max_file_size)).

Definition TotalFileSize (files : list FileMetaData) : Z := fold_left (fun sum f => s64 (sum + fm_file_size f)) files 0.

(** The loop from [level] on; two rounds reach [kMaxMemCompactLevel]. *)
Fixpoint pick_level_loop (fuel : nat) (max_file_size : Z) (smallest_user_key largest_user_key : bytes) (v : Version) (level : nat) : nat :=
  match fuel with
  | O => level
  | S fuel =>
      if (level <? kMaxMemCompactLevel)%nat then
        if OverlapInLevel (level + 1) (Some smallest_user_key) (Some largest_user_key) v then level
        else if (level + 2 <? kNumLevels)%nat &&
                (MaxGrandParentOverlapBytes max_file_size <?
                 TotalFileSize (GetOverlappingInputs (level + 2)
                   (Some (newInternalKey smallest_user_key kMaxSequenceNumber kValueTypeForSeek))
                   (Some (newInternalKey largest_user_key 0 kTypeDeletion)) v))
        then level
        else pick_level_loop fuel max_file_size smallest_user_key largest_user_key v (level + 1)
      else level
  end.

Definition PickLevelForMemTableOutput (max_file_size : Z) (smallest_user_key largest_user_key : bytes) (v : Version) : nat :=
  if OverlapInLevel 0 (Some smallest_user_key) (Some largest_user_key) v then 0%nat
  else pick_level_loop kMaxMemCompactLevel max_file_size smallest_user_key largest_user_key v 0.

Definition debug_file (f : FileMetaData) : bytes :=
  lit " " ++ NumberToString (fm_number f) ++ lit ":" ++ NumberToString (fm_file_size f) ++ lit "[" ++
  InternalKey_DebugString (fm_smallest f) ++ lit " .. " ++ InternalKey_DebugString (fm_largest f) ++ lit "]" ++ [Byte.x0a].

Definition Version_DebugString (v : Version) : bytes :=
  concat (map (fun level =>
    lit "--- level " ++ NumberToString (Z.of_nat level) ++ lit " ---" ++ [Byte.x0a] ++ concat (map debug_file (files_ v level)))
    (seq 0 kNumLevels)).

(** [VersionSet::ApproximateOffsetOf]; [table_offset] is [TableCache::ApproximateOffsetOf]. *)
Fixpoint offset_in_level (table_offset : Z -> Z -> bytes -> Z) (ikey : InternalKey) (level : nat) (files : list FileMetaData) (result : Z) : Z :=
  match files with
  | [] => result
  | f :: files =>
      if bool_decide (icmp (fm_largest f) ikey <> Gt) then offset_in_level table_offset ikey level files (u64 (result + fm_file_size f))
      else if bool_decide (icmp (fm_smallest f) ikey = Gt) then
        if (0 <? level)%nat then result else offset_in_level table_offset ikey level files result
      else offset_in_level table_offset ikey level files (u64 (result + table_offset (fm_number f) (fm_file_size f) ikey))
  end.

Definition vs_ApproximateOffsetOf (table_offset : Z -> Z -> bytes -> Z) (v : Version) (ikey : InternalKey) : Z :=
  fold_left (fun result level => offset_in_level table_offset ikey level (files_ v level) result) (seq 0 kNumLevels) 0.

End Search.

(** ** Sorted files *)

Section Files.
Context {C : Comparator} {CL : ComparatorLaws C}.

Abbreviation ICmp := (InternalKeyComparator C).
Abbreviation iclt := (@clt ICmp).
Abbreviation icle := (@cle ICmp).

(** An internal key that [AppendInternalKey] makes. *)
Definition ikey_ok (k : InternalKey) : Prop := exists p, seq_ok (pik_sequence p) /\ k = encode_key p.

Record file_ok (f : FileMetaData) : Prop := {
  fo_smallest : ikey_ok (fm_smallest f);
  fo_largest : ikey_ok (fm_largest f);
  fo_range : icle (fm_smallest f) (fm_largest f)
}.

(** The files of a level above 0: disjoint and in order. *)
Definition files_sorted (files : list FileMetaData) : Prop :=
  StronglySorted (fun f g => iclt (fm_largest f) (fm_smallest g)) files.

Lemma files_sorted_lt (files : list FileMetaData) (i j : nat) (f g : FileMetaData) :
  files_sorted files -> (i < j)%nat -> files !! i = Some f -> files !! j = Some g -> iclt (fm_largest f) (fm_smallest g).
Proof.
  intros Hs. revert i j. induction Hs as [|x files Hs IH Hx]; intros i j Hij Hi Hj; [done|].
  destruct j as [|j]; [lia|]. destruct i as [|i]; simplify_eq/=.
  - rewrite List.Forall_forall in Hx. apply Hx, list_elem_of_In. by apply list_elem_of_lookup_2 in Hj.
  - apply (IH i j); [lia|done..].
Qed.

Lemma largest_le (files : list FileMetaData) (i j : nat) (f g : FileMetaData) :
  Forall file_ok files -> files_sorted files -> (i <= j)%nat -> files !! i = Some f -> files !! j = Some g ->
  icle (fm_largest f) (fm_largest g).
Proof.
  intros Hok Hs Hij Hi Hj. destruct (decide (i = j)) as [->|Hn]; [simplify_eq; apply (cle_refl (C := ICmp))|].
  apply (clt_cle (C := ICmp)). eapply (clt_cle_trans (C := ICmp)); [eapply files_sorted_lt; try done; lia|].
  apply (proj1 (Forall_lookup _ _) Hok j g Hj).
Qed.

(** The scan [FindFile] stands for: the files before the first one that ends at or past [key]. *)
Fixpoint find_file_scan (files : list FileMetaData) (key : bytes) : nat :=
  match files with
  | [] => 0
  | f :: files => match ikc_Compare C (fm_largest f) key with Lt => S (find_file_scan files key) | _ => 0 end
  end.

Lemma find_file_scan_le (files : list FileMetaData) (key : bytes) : (find_file_scan files key <= length files)%nat.
Proof. induction files as [|f files IH]; cbn; [lia|]. destruct (ikc_Compare _ _ _); lia. Qed.

Lemma find_file_scan_before (files : list FileMetaData) (key : bytes) (i : nat) (f : FileMetaData) :
  (i < find_file_scan files key)%nat -> files !! i = Some f -> iclt (fm_largest f) key.
Proof.
  revert i. induction files as [|g files IH]; intros i Hi Hf; cbn in *; [lia|].
  destruct (ikc_Compare C (fm_largest g) key) eqn:E; try lia. destruct i as [|i]; simplify_eq/=; [exact E|]. apply (IH i); [lia|done].
Qed.

Lemma find_file_scan_at (files : list FileMetaData) (key : bytes) (f : FileMetaData) :
  files !! find_file_scan files key = Some f -> icle key (fm_largest f).
Proof.
  induction files as [|g files IH]; cbn; [done|]. destruct (ikc_Compare C (fm_largest g) key) eqn:E; cbn; intros Hf.
  - injection Hf as <-. apply (ceq_cle (C := ICmp)), (ceq_sym (C := ICmp)). exact E.
  - by apply IH.
  - injection Hf as <-. apply (clt_cle (C := ICmp)). apply (cmp_gt (C := ICmp)). exact E.
Qed.

(** The position that splits the files is unique. *)
Lemma find_file_scan_unique (files : list FileMetaData) (key : bytes) (n : nat) :
  (n <= length files)%nat ->
  (forall i f, (i < n)%nat -> files !! i = Some f -> iclt (fm_largest f) key) ->
  (forall f, files !! n = Some f -> icle key (fm_largest f)) -> n = find_file_scan files key.
Proof.
  intros Hn Hlt Hge. destruct (lt_eq_lt_dec n (find_file_scan files key)) as [[H|H]|H]; [|done|]; exfalso.
  - destruct (lookup_lt_is_Some_2 files n) as [f Hf]; [pose proof (find_file_scan_le files key); lia|].
    pose proof (find_file_scan_before _ _ _ _ H Hf) as Hb. apply (not_cle (C := ICmp)) in Hb. apply Hb. by apply Hge.
  - destruct (lookup_lt_is_Some_2 files (find_file_scan files key)) as [f Hf]; [lia|].
    pose proof (Hlt _ _ H Hf) as Hb. apply (not_cle (C := ICmp)) in Hb. apply Hb. by apply (find_file_scan_at files).
Qed.

Lemma FindFile_loop_spec (files : list FileMetaData) (key : bytes) (fuel : nat) (left right : Z) :
  Forall file_ok files -> files_sorted files -> zlen files < 2 ^ 31 ->
  0 <= left <= right -> right <= zlen files -> right - left < Z.of_nat fuel ->
  (forall i f, (i < Z.to_nat left)%nat -> files !! i = Some f -> iclt (fm_largest f) key) ->
  (forall f, files !! Z.to_nat right = Some f -> icle key (fm_largest f)) ->
  FindFile_loop fuel files key left right = Z.of_nat (find_file_scan files key).
Proof.
  intros Hok Hs Hsz. revert left right. induction fuel as [|fuel IH]; intros left right Hlr Hr Hf Hlt Hge; [lia|]. cbn [FindFile_loop].
  destruct (Z.ltb_spec left right) as [Hlt'|Hge'].
  2: { rewrite <- (find_file_scan_unique files key (Z.to_nat right)); [lia|unfold zlen in Hr; lia| |done].
       intros i f Hi. apply Hlt. lia. }
  rewrite wrap_small by lia. set (mid := (left + right) / 2).
  assert (left <= mid < right) as Hm by (unfold mid; split; [apply Z.div_le_lower_bound; lia|apply Z.div_lt_upper_bound; lia]).
  destruct (files !! Z.to_nat mid) as [f|] eqn:Ef; [|apply lookup_ge_None in Ef; unfold zlen in Hr; lia].
  destruct (ikc_Compare C (fm_largest f) key) eqn:E.
  - apply IH; try lia; [done|]. intros f' Hf'. rewrite Ef in Hf'. injection Hf' as <-.
    apply (ceq_cle (C := ICmp)), (ceq_sym (C := ICmp)). exact E.
  - rewrite wrap_small by lia. apply IH; try lia; [|done]. intros i g Hi Hg.
    eapply (cle_clt_trans (C := ICmp)); [eapply (largest_le files i (Z.to_nat mid)); try done; lia|]. exact E.
  - apply IH; try lia; [done|]. intros f' Hf'. rewrite Ef in Hf'. injection Hf' as <-.
    apply (clt_cle (C := ICmp)). apply (cmp_gt (C := ICmp)). exact E.
Qed.

Lemma FindFile_spec (files : list FileMetaData) (key : bytes) :
  Forall file_ok files -> files_sorted files -> zlen files < 2 ^ 31 ->
  FindFile files key = Z.of_nat (find_file_scan files key).
Proof.
  intros Hok Hs Hsz. unfold FindFile. pose proof (zlen_nonneg files). rewrite wrap_small by lia.
  apply FindFile_loop_spec; try done; try lia; [unfold zlen; lia|].
  intros f Hf. apply lookup_lt_Some in Hf. unfold zlen in Hf. lia.
Qed.

(** *** The first internal key of a user key *)

Lemma ikey_ok_tag (k : InternalKey) : ikey_ok k -> 0 <= key_tag k <= PackSequenceAndType kMaxSequenceNumber kValueTypeForSeek.
Proof.
  intros (p & Hp & ->). rewrite key_tag_encode by done. rewrite !PackSequenceAndType_eq; [|unfold seq_ok; done|done].
  unfold seq_ok in Hp. destruct (pik_type p); cbn; lia.
Qed.

Lemma seek_key_le (u : bytes) (k : InternalKey) :
  ikey_ok k -> icle (newInternalKey u kMaxSequenceNumber kValueTypeForSeek) k <-> cle u (InternalKey_user_key k).
Proof.
  intros Hk. unfold newInternalKey, InternalKey_user_key.
  change (AppendInternalKey [] ?p) with (encode_key p).
  rewrite ikc_cle, ExtractUserKey_encode. cbn [pik_user_key].
  rewrite (key_tag_encode (mkPIK u kMaxSequenceNumber kValueTypeForSeek)) by (unfold seq_ok; done). cbn [pik_sequence pik_type].
  pose proof (ikey_ok_tag k Hk) as Ht. split.
  - intros [H|[H _]]; [by apply clt_cle|by apply ceq_cle].
  - intros H. destruct (Compare_spec u (ExtractUserKey k)) as [He|Hl|Hg]; [right; split; [done|lia]|by left|].
    apply not_cle in Hg. done.
Qed.

Lemma seek_key_lt (u : bytes) (k : InternalKey) :
  ikey_ok k -> iclt k (newInternalKey u kMaxSequenceNumber kValueTypeForSeek) <-> clt (InternalKey_user_key k) u.
Proof. intros Hk. rewrite <- (not_cle (C := ICmp)), <- (not_cle (C := C)), seek_key_le by done. done. Qed.

Lemma icle_user (a b : InternalKey) : icle a b -> cle (InternalKey_user_key a) (InternalKey_user_key b).
Proof. rewrite ikc_cle. intros [H|[H _]]; [by apply clt_cle|by apply ceq_cle]. Qed.

(** *** Overlap *)

Definition overlaps (lo hi : option bytes) (f : FileMetaData) : bool := negb (after_file lo f) && negb (before_file hi f).

Lemma after_file_true (lo : bytes) (f : FileMetaData) : after_file (Some lo) f = true <-> clt (InternalKey_user_key (fm_largest f)) lo.
Proof. cbn. rewrite bool_decide_eq_true. done. Qed.

Lemma after_file_false (lo : bytes) (f : FileMetaData) : after_file (Some lo) f = false <-> cle lo (InternalKey_user_key (fm_largest f)).
Proof. rewrite <- not_clt, <- after_file_true. destruct (after_file _ f); naive_solver. Qed.

Lemma before_file_true (hi : bytes) (f : FileMetaData) : before_file (Some hi) f = true <-> clt hi (InternalKey_user_key (fm_smallest f)).
Proof. cbn. rewrite bool_decide_eq_true. apply cmp_gt. Qed.

Lemma before_file_false (hi : bytes) (f : FileMetaData) : before_file (Some hi) f = false <-> cle (InternalKey_user_key (fm_smallest f)) hi.
Proof. rewrite <- not_clt, <- before_file_true. destruct (before_file _ f); naive_solver. Qed.

Lemma before_file_later (hi : option bytes) (files : list FileMetaData) (i j : nat) (f g : FileMetaData) :
  Forall file_ok files -> files_sorted files -> (i <= j)%nat -> files !! i = Some f -> files !! j = Some g ->
  before_file hi f = true -> before_file hi g = true.
Proof.
  intros Hok Hs Hij Hi Hj. destruct (decide (i = j)) as [->|Hn]; [by simplify_eq|]. destruct hi as [hi|]; [|done].
  rewrite !before_file_true. intros Hb. eapply clt_cle_trans; [done|]. apply icle_user.
  apply (clt_cle (C := ICmp)). eapply (cle_clt_trans (C := ICmp)); [apply (proj1 (Forall_lookup _ _) Hok i f Hi)|].
  eapply files_sorted_lt; [done| |done..]. lia.
Qed.

Lemma overlap_search (files : list FileMetaData) (lo hi : option bytes) :
  Forall file_ok files -> files_sorted files -> zlen files < 2 ^ 31 ->
  SomeFileOverlapsRange true files lo hi = existsb (overlaps lo hi) files.
Proof.
  intros Hok Hs Hsz. unfold SomeFileOverlapsRange. cbn [negb]. cbv zeta.
  assert (exists n, Z.to_nat match lo with Some k => u32 (FindFile files (newInternalKey k kMaxSequenceNumber kValueTypeForSeek)) | None => 0 end = n /\
    (forall i f, (i < n)%nat -> files !! i = Some f -> after_file lo f = true) /\
    (forall f, files !! n = Some f -> after_file lo f = false)) as (n & -> & Hlt & Hge).
  { destruct lo as [k|]; [|exists 0%nat; split_and!; [done|lia|done]].
    exists (find_file_scan files (newInternalKey k kMaxSequenceNumber kValueTypeForSeek)).
    pose proof (find_file_scan_le files (newInternalKey k kMaxSequenceNumber kValueTypeForSeek)).
    rewrite FindFile_spec, wrap_small by (done || unfold zlen in *; lia). split; [lia|].
    assert (forall i f, files !! i = Some f -> ikey_ok (fm_largest f)) as Hik by (intros i f Hf; apply (proj1 (Forall_lookup _ _) Hok i f Hf)).
    split.
    - intros i f Hi Hf. apply after_file_true. apply (seek_key_lt k); [by apply (Hik i)|]. by apply (find_file_scan_before files _ i).
    - intros f Hf. apply after_file_false. apply seek_key_le; [by apply (Hik _ _ Hf)|]. by apply (find_file_scan_at files). }
  assert (existsb (overlaps lo hi) files = true <-> exists f, files !! n = Some f /\ before_file hi f = false) as Hex.
  { rewrite existsb_exists. unfold overlaps. split.
    - intros (f & Hin & Hf). apply list_elem_of_In, list_elem_of_lookup in Hin as [i Hi]. apply andb_prop in Hf as [Ha Hb].
      apply negb_true_iff in Ha, Hb. destruct (decide (i < n)%nat) as [H|H]; [rewrite (Hlt i f H Hi) in Ha; done|].
      destruct (lookup_lt_is_Some_2 files n) as [g Hg]; [apply lookup_lt_Some in Hi; lia|]. exists g. split; [done|].
      destruct (before_file hi g) eqn:Eg; [|done]. rewrite (before_file_later hi files n i g f) in Hb by (done || lia). done.
    - intros (f & Hf & Hb). exists f. split; [apply list_elem_of_In; by apply list_elem_of_lookup_2 in Hf|].
      rewrite (Hge f Hf), Hb. done. }
  destruct (files !! n) as [f|]; destruct (existsb (overlaps lo hi) files).
  - destruct (proj1 Hex eq_refl) as (g & [= <-] & ->). done.
  - destruct (before_file hi f) eqn:Eb; [done|]. discriminate (proj2 Hex (ex_intro _ f (conj eq_refl Eb))).
  - destruct (proj1 Hex eq_refl) as (g & ? & _). done.
  - done.
Qed.

(** *** [GetOverlappingInputs] *)

(** The end of a range moves outwards only; an open end stays open. *)
Definition begin_le (b b' : option bytes) : Prop :=
  match b, b' with Some x, Some y => cle y x | None, None => True | _, _ => False end.
Definition end_le (e e' : option bytes) : Prop :=
  match e, e' with Some x, Some y => cle x y | None, None => True | _, _ => False end.

(** No file that overlaps the range sticks out of it. *)
Definition closed_range (files : list FileMetaData) (b e : option bytes) : Prop :=
  forall f, f ∈ files -> overlaps b e f = true -> widens_begin b f = false /\ widens_end e f = false.

Lemma begin_le_refl b : begin_le b b.
Proof. destruct b; [apply cle_refl|done]. Qed.
Lemma end_le_refl e : end_le e e.
Proof. destruct e; [apply cle_refl|done]. Qed.
Lemma begin_le_trans a b c : begin_le a b -> begin_le b c -> begin_le a c.
Proof. destruct a, b, c; cbn; try done. intros. eapply cmp_le_trans; done. Qed.
Lemma end_le_trans a b c : end_le a b -> end_le b c -> end_le a c.
Proof. destruct a, b, c; cbn; try done. intros. eapply cmp_le_trans; done. Qed.

Lemma overlaps_mono (b b' e e' : option bytes) (f : FileMetaData) :
  begin_le b b' -> end_le e e' -> overlaps b e f = true -> overlaps b' e' f = true.
Proof.
  intros Hb He. unfold overlaps. rewrite !andb_true_iff, !negb_true_iff. intros [Ha Hc]. split.
  - destruct b as [b|], b' as [b'|]; cbn in Hb; try done. rewrite after_file_false in *. eapply cmp_le_trans; done.
  - destruct e as [e|], e' as [e'|]; cbn in He; try done. rewrite before_file_false in *. eapply cmp_le_trans; done.
Qed.

(** How many files stick out on a side: what a restart uses up. *)
Definition sticking_out (files : list FileMetaData) (b e : option bytes) : nat :=
  length (List.filter (widens_begin b) files) + length (List.filter (widens_end e) files).

Lemma sticking_out_le (files : list FileMetaData) (b e : option bytes) : (sticking_out files b e <= 2 * length files)%nat.
Proof.
  unfold sticking_out. pose proof (List.filter_length_le (widens_begin b) files). pose proof (List.filter_length_le (widens_end e) files). lia.
Qed.

Lemma filter_count_lt {A} (p q : A -> bool) (l : list A) (x : A) :
  (forall y, q y = true -> p y = true) -> x ∈ l -> p x = true -> q x = false ->
  (length (List.filter q l) < length (List.filter p l))%nat.
Proof.
  intros Hpq Hx Hp Hq. assert (forall l, length (List.filter q l) <= length (List.filter p l))%nat as Hle.
  { intros l'. induction l' as [|y l' IH]; cbn; [lia|]. pose proof (Hpq y). destruct (q y), (p y); cbn; naive_solver lia. }
  induction l as [|y l IH]; [by apply not_elem_of_nil in Hx|]. cbn. apply elem_of_cons in Hx as [->|Hx].
  - rewrite Hp, Hq. cbn. pose proof (Hle l). lia.
  - pose proof (IH Hx). pose proof (Hpq y). destruct (q y), (p y); cbn; naive_solver lia.
Qed.

Lemma widens_begin_true (b : bytes) (f : FileMetaData) : widens_begin (Some b) f = true <-> clt (InternalKey_user_key (fm_smallest f)) b.
Proof. cbn. rewrite bool_decide_eq_true. done. Qed.

Lemma widens_end_true (e : bytes) (f : FileMetaData) : widens_end (Some e) f = true <-> clt e (InternalKey_user_key (fm_largest f)).
Proof. cbn. rewrite bool_decide_eq_true. apply cmp_gt. Qed.

Lemma widens_begin_step (files : list FileMetaData) (b e : option bytes) (f : FileMetaData) :
  f ∈ files -> widens_begin b f = true ->
  let b' := Some (InternalKey_user_key (fm_smallest f)) in
  begin_le b b' /\ (sticking_out files b' e < sticking_out files b e)%nat /\
  forall lo, begin_le b lo -> widens_begin lo f = false -> begin_le b' lo.
Proof.
  intros Hin Hw. destruct b as [b|]; [|done]. apply widens_begin_true in Hw as Hlt. cbn zeta. split_and!.
  - cbn. by apply clt_cle.
  - unfold sticking_out. apply Nat.add_lt_mono_r, (filter_count_lt _ _ _ f); [|done|done|].
    + intros y. rewrite !widens_begin_true. intros Hy. eapply clt_trans; done.
    + apply not_true_iff_false. rewrite widens_begin_true. apply clt_irrefl.
  - intros [lo|]; [|done]. intros _ Hn. apply not_true_iff_false in Hn. rewrite widens_begin_true in Hn. by apply not_clt in Hn.
Qed.

Lemma widens_end_step (files : list FileMetaData) (b e : option bytes) (f : FileMetaData) :
  f ∈ files -> widens_end e f = true ->
  let e' := Some (InternalKey_user_key (fm_largest f)) in
  end_le e e' /\ (sticking_out files b e' < sticking_out files b e)%nat /\
  forall hi, end_le e hi -> widens_end hi f = false -> end_le e' hi.
Proof.
  intros Hin Hw. destruct e as [e|]; [|done]. apply widens_end_true in Hw as Hlt. cbn zeta. split_and!.
  - cbn. by apply clt_cle.
  - unfold sticking_out. apply Nat.add_lt_mono_l, (filter_count_lt _ _ _ f); [|done|done|].
    + intros y. rewrite !widens_end_true. intros Hy. eapply clt_trans; done.
    + apply not_true_iff_false. rewrite widens_end_true. apply clt_irrefl.
  - intros [hi|]; [|done]. intros _ Hn. apply not_true_iff_false in Hn. rewrite widens_end_true in Hn. by apply not_clt in Hn.
Qed.

(** What the scan of level 0 returns: the files that overlap the least closed
    range around the given one. *)
Definition least_closed (files : list FileMetaData) (b e b' e' : option bytes) : Prop :=
  begin_le b b' /\ end_le e e' /\ closed_range files b' e' /\
  forall lo hi, begin_le b lo -> end_le e hi -> closed_range files lo hi -> begin_le b' lo /\ end_le e' hi.

Lemma overlapping_loop_level0 (files : list FileMetaData) (fuel : nat) (prev rest : list FileMetaData) (b e : option bytes) :
  files = prev ++ rest ->
  (forall f, f ∈ prev -> overlaps b e f = true -> widens_begin b f = false /\ widens_end e f = false) ->
  (sticking_out files b e * S (length files) + length rest < fuel)%nat ->
  exists b' e', overlapping_loop fuel 0 files rest b e (List.filter (overlaps b e) prev) = List.filter (overlaps b' e') files /\
    least_closed files b e b' e'.
Proof.
  revert prev rest b e. induction fuel as [|fuel IH]; intros prev rest b e Hsplit Hprev Hf; [lia|].
  destruct rest as [|f rest]; cbn [overlapping_loop].
  { rewrite app_nil_r in Hsplit. subst prev. exists b, e. split; [done|].
    split_and!; [apply begin_le_refl|apply end_le_refl|intros f Hf'; by apply Hprev|done]. }
  assert (f ∈ files) as Hin by (rewrite Hsplit; apply elem_of_app; right; by left).
  assert (files = (prev ++ [f]) ++ rest) as Hsplit' by (rewrite <- app_assoc; done).
  assert (forall b' e', overlaps b' e' f = false -> List.filter (overlaps b' e') (prev ++ [f]) = List.filter (overlaps b' e') prev) as Hskip.
  { intros b' e' Hn. rewrite List.filter_app. cbn. rewrite Hn, app_nil_r. done. }
  cbn [length] in Hf. destruct (after_file b f) eqn:Ea.
  { rewrite <- Hskip by (unfold overlaps; by rewrite Ea). apply IH; [done| |lia].
    intros g [Hg|Hg%list_elem_of_singleton]%elem_of_app; [by apply Hprev|]. subst g. unfold overlaps. by rewrite Ea. }
  destruct (before_file e f) eqn:Eb.
  { rewrite <- Hskip by (unfold overlaps; by rewrite Ea, Eb). apply IH; [done| |lia].
    intros g [Hg|Hg%list_elem_of_singleton]%elem_of_app; [by apply Hprev|]. subst g. unfold overlaps. by rewrite Ea, Eb. }
  assert (overlaps b e f = true) as Ho by (unfold overlaps; by rewrite Ea, Eb). cbn [Nat.eqb andb].
  destruct (widens_begin b f) eqn:Ewb; [|destruct (widens_end e f) eqn:Ewe].
  - destruct (widens_begin_step files b e f Hin Ewb) as (Hb' & Hlt & Hmin).
    destruct (IH [] files (Some (InternalKey_user_key (fm_smallest f))) e) as (b' & e' & Hr & Hle1 & Hle2 & Hc & Hl); [done| |nia|].
    { intros g Hg. by apply not_elem_of_nil in Hg. }
    exists b', e'. split; [done|]. split_and!; [by eapply begin_le_trans|done|done|].
    intros lo hi Hlo Hhi Hcl. apply Hl; [|done|done]. apply Hmin; [done|]. apply (Hcl f Hin). by eapply overlaps_mono.
  - destruct (widens_end_step files b e f Hin Ewe) as (He' & Hlt & Hmin).
    destruct (IH [] files b (Some (InternalKey_user_key (fm_largest f)))) as (b' & e' & Hr & Hle1 & Hle2 & Hc & Hl); [done| |nia|].
    { intros g Hg. by apply not_elem_of_nil in Hg. }
    exists b', e'. split; [done|]. split_and!; [done|by eapply end_le_trans|done|].
    intros lo hi Hlo Hhi Hcl. apply Hl; [done| |done]. apply Hmin; [done|]. apply (Hcl f Hin). by eapply overlaps_mono.
  - assert (List.filter (overlaps b e) prev ++ [f] = List.filter (overlaps b e) (prev ++ [f])) as ->.
    { rewrite List.filter_app. cbn. by rewrite Ho. }
    apply IH; [done| |lia]. intros g [Hg|Hg%list_elem_of_singleton]%elem_of_app; [by apply Hprev|]. by subst g.
Qed.

Lemma overlapping_loop_sorted (level : nat) (files : list FileMetaData) (b e : option bytes) (fuel : nat) (rest inputs : list FileMetaData) :
  level <> 0%nat -> (length rest < fuel)%nat ->
  overlapping_loop fuel level files rest b e inputs = inputs ++ List.filter (overlaps b e) rest.
Proof.
  intros Hl. revert fuel inputs. induction rest as [|f rest IH]; intros [|fuel] inputs Hf; cbn [length] in Hf; try lia; cbn [overlapping_loop].
  - by rewrite app_nil_r.
  - destruct (Nat.eqb_spec level 0) as [|_]; [done|]. cbn [andb List.filter]. unfold overlaps at 1.
    destruct (after_file b f); cbn [negb andb]; [by rewrite IH by lia|].
    destruct (before_file e f); cbn [negb]; rewrite IH by lia; [done|]. by rewrite <- app_assoc.
Qed.

Lemma GetOverlappingInputs_level0 (begin end_ : option InternalKey) (v : Version) :
  exists b' e', GetOverlappingInputs 0 begin end_ v = List.filter (overlaps b' e') (files_ v 0) /\
    least_closed (files_ v 0) (InternalKey_user_key <$> begin) (InternalKey_user_key <$> end_) b' e'.
Proof.
  apply (overlapping_loop_level0 (files_ v 0) _ [] (files_ v 0)); [done| |].
  - intros f Hf. by apply not_elem_of_nil in Hf.
  - unfold overlapping_fuel. pose proof (sticking_out_le (files_ v 0) (InternalKey_user_key <$> begin) (InternalKey_user_key <$> end_)). nia.
Qed.

Lemma GetOverlappingInputs_sorted (level : nat) (begin end_ : option InternalKey) (v : Version) :
  level <> 0%nat ->
  GetOverlappingInputs level begin end_ v =
    List.filter (overlaps (InternalKey_user_key <$> begin) (InternalKey_user_key <$> end_)) (files_ v level).
Proof. intros Hl. unfold GetOverlappingInputs. rewrite overlapping_loop_sorted; [done|done|]. unfold overlapping_fuel. nia. Qed.
End Files.

(** ** Properties *)

(** The binary search over the files of a level is the linear scan it stands
    for: on files that are in order and disjoint (fewer than [2^31]), [FindFile] is
    the number of files before the first one that ends at or past the key, and
    [SomeFileOverlapsRange] with that search answers, for every range with or
    without ends, as the scan over all files does. *)
Theorem file_search_is_scan {C : Comparator} {CL : ComparatorLaws C} (files : list FileMetaData) (key : bytes) (lo hi : option bytes) :
  Forall (file_ok (C := C)) files -> files_sorted (C := C) files -> zlen files < 2 ^ 31 ->
  FindFile (C := C) files key = Z.of_nat (find_file_scan (C := C) files key) /\
  SomeFileOverlapsRange (C := C) true files lo hi = SomeFileOverlapsRange (C := C) false files lo hi.
Proof.
  intros Hok Hs Hsz. split; [by apply FindFile_spec|]. rewrite overlap_search by done. unfold SomeFileOverlapsRange. cbn [negb].
  clear. induction files as [|f files IH]; [done|]. cbn. rewrite IH. unfold overlaps. by rewrite andb_comm.
Qed.

(** C29. [GetOverlappingInputs] terminates with the right files: below level 0
    exactly those that overlap the range of user keys; on level 0, whose files
    overlap each other, those that overlap the least range around the given one that
    no overlapping file sticks out of (so that no version of a key is left behind). *)
Theorem overlapping_inputs_least_closed {C : Comparator} {CL : ComparatorLaws C} (begin end_ : option InternalKey) (v : Version) :
  (exists b' e', GetOverlappingInputs (C := C) 0 begin end_ v = List.filter (overlaps (C := C) b' e') (files_ v 0) /\
    least_closed (C := C) (files_ v 0) (InternalKey_user_key <$> begin) (InternalKey_user_key <$> end_) b' e') /\
  (forall level, level <> 0%nat -> GetOverlappingInputs (C := C) level begin end_ v =
    List.filter (overlaps (C := C) (InternalKey_user_key <$> begin) (InternalKey_user_key <$> end_)) (files_ v level)).
Proof. split; [apply GetOverlappingInputs_level0|]. intros level. apply GetOverlappingInputs_sorted. Qed.

(** Three files in order. *)
Definition demo_file_at (n : Z) (lo hi : string) (s : Z) : FileMetaData :=
  mkFileMetaData 100 n 4096 (newInternalKey (lit lo) s kTypeValue) (newInternalKey (lit hi) s kTypeValue).

Definition demo_files : list FileMetaData := [demo_file_at 4 "b" "d" 9; demo_file_at 5 "f" "h" 8; demo_file_at 6 "m" "p" 7].

Lemma demo_file_ok (n : Z) (lo hi : string) (s : Z) :
  seq_ok s -> @cle (InternalKeyComparator BytewiseComparator) (newInternalKey (lit lo) s kTypeValue) (newInternalKey (lit hi) s kTypeValue) ->
  file_ok (C := BytewiseComparator) (demo_file_at n lo hi s).
Proof. intros Hs Hle. split; [eexists; split; [|reflexivity]; exact Hs|eexists; split; [|reflexivity]; exact Hs|exact Hle]. Qed.

Lemma file_search_is_scan_witness :
  FindFile (C := BytewiseComparator) demo_files (newInternalKey (lit "g") 5 kTypeValue) = 1 /\
  SomeFileOverlapsRange (C := BytewiseComparator) true demo_files (Some (lit "i")) (Some (lit "n")) = true.
Proof.
  destruct (file_search_is_scan (C := BytewiseComparator) demo_files (newInternalKey (lit "g") 5 kTypeValue) (Some (lit "i")) (Some (lit "n"))) as [H1 H2].
  - repeat (apply Forall_cons; split); try apply Forall_nil; try exact I;
      (apply demo_file_ok; [unfold seq_ok; vm_compute; split; discriminate|vm_compute; discriminate]).
  - repeat constructor.
  - vm_compute. reflexivity.
  - split; [etransitivity; [exact H1|vm_compute; reflexivity]|etransitivity; [exact H2|vm_compute; reflexivity]].
Defined.

(** On level 0 the first file draws in the second, which starts inside it. *)
Definition demo_level0 : Version :=
  mkVersion [[demo_file_at 4 "b" "d" 9; demo_file_at 5 "c" "f" 8; demo_file_at 6 "m" "p" 7]; []; []; []; []; []; []] None (-1) (dbl_of_Z (-1)) (-1).

Lemma overlapping_inputs_least_closed_witness :
  let begin := Some (newInternalKey (lit "a") 1 kTypeValue) in
  let end_ := Some (newInternalKey (lit "b") 1 kTypeValue) in
  (exists b' e', GetOverlappingInputs (C := BytewiseComparator) 0 begin end_ demo_level0 =
     List.filter (overlaps (C := BytewiseComparator) b' e') (files_ demo_level0 0)) /\
  map fm_number (GetOverlappingInputs (C := BytewiseComparator) 0 begin end_ demo_level0) = [4; 5].
Proof.
  intros begin end_. split; [|vm_compute; reflexivity].
  destruct (proj1 (overlapping_inputs_least_closed (C := BytewiseComparator) begin end_ demo_level0)) as (b' & e' & H & _).
  exists b', e'. exact H.
Defined.
