(* ===== verification/VersionRead.v ===== *)
(** * VersionRead: what a version reads ([Version::Get] and the level iterators)

    [TableStoreLaws] is what the table cache promises: a table answers a lookup
    with the first entry at or past the key, or with nothing when that entry has
    another user key.  [VersionOk] is the invariant compactions keep: the files of
    a level above 0 are disjoint and in order, and what is searched first is newer.
    Under it [Get] finds the newest visible entry of all files. *)

From stdpp Require Import sorting.
From S2P Require Import Prelude Status Coding Comparator Logging DbFormat Format Iterator TwoLevelIterator Table.
From S2P Require Import VersionEdit DBIter Version.
From Stdlib Require Import Sorting.Sorted.

(** ** The interface of the table cache *)

Section Lookup.
Context {C : Comparator}.

(** The first entry at or past [k]. *)
Definition lookup_first (k : bytes) (P : versions) : option (ParsedInternalKey * bytes) :=
  List.find (fun pv => match ikc_Compare C (encode_key (fst pv)) k with Lt => false | _ => true end) P.

Definition table_entry (pv : ParsedInternalKey * bytes) : bytes * bytes := (encode_key (fst pv), snd pv).
End Lookup.

Class TableStoreLaws {C : Comparator} (T : Type) `{TableStore T} := {
  ts_table : T -> Z -> Z -> versions -> Prop;
  ts_Get_ok : forall ro n size k t P, ts_table t n size P ->
    exists r t', ts_Get ro n size k t = (Ok tt, r, t') /\
      (r = None \/ r = table_entry <$> lookup_first k P) /\
      (forall p v, lookup_first k P = Some (p, v) -> pik_user_key p = ExtractUserKey k -> r = Some (table_entry (p, v))) /\
      (forall n' size' P', ts_table t n' size' P' -> ts_table t' n' size' P')
}.

(** ** Versions whose tables are known *)

Section Read.
Context {C : Comparator} {CL : ComparatorLaws C}.

(** [contents f] are the entries of the table of [f]. *)
Record contents_ok (f : FileMetaData) (P : versions) : Prop := {
  co_seq : forall p v, (p, v) ∈ P -> seq_ok (pik_sequence p);
  co_sorted : keys_sorted (C := InternalKeyComparator C) (internal_entries P);
  co_range : forall p v, (p, v) ∈ P ->
    @cle (InternalKeyComparator C) (fm_smallest f) (encode_key p) /\ @cle (InternalKeyComparator C) (encode_key p) (fm_largest f);
  co_largest : exists p v, (p, v) ∈ P /\ fm_largest f = encode_key p
}.

(** [f] is searched before [g]. *)
Definition searched_before (lf lg : nat * FileMetaData) : Prop :=
  (fst lf < fst lg)%nat \/ (fst lf = 0%nat /\ fst lg = 0%nat /\ fm_number (snd lg) < fm_number (snd lf)).

Definition in_version (v : Version) (lf : nat * FileMetaData) : Prop := (fst lf < kNumLevels)%nat /\ snd lf ∈ files_ v (fst lf).

Record VersionOk (v : Version) (contents : FileMetaData -> versions) : Prop := {
  vo_files : forall lf, in_version v lf -> file_ok (C := C) (snd lf) /\ contents_ok (snd lf) (contents (snd lf));
  vo_sorted : forall level, (0 < level < kNumLevels)%nat -> files_sorted (C := C) (files_ v level);
  vo_size : forall level, zlen (files_ v level) < 2 ^ 31;
  vo_numbers : NoDup (map fm_number (files_ v 0));
  vo_recent : forall lf lg p q v1 v2, in_version v lf -> in_version v lg -> searched_before lf lg ->
    (p, v1) ∈ contents (snd lf) -> (q, v2) ∈ contents (snd lg) -> pik_user_key p = pik_user_key q ->
    pik_sequence q < pik_sequence p
}.

(** *** One table *)

Definition visible (u : bytes) (s : SequenceNumber) (p : ParsedInternalKey) : Prop := pik_user_key p = u /\ pik_sequence p <= s.

(** The internal key of a lookup. *)
Definition seek_key (u : bytes) (s : SequenceNumber) : bytes := encode_key (mkPIK u s kValueTypeForSeek).

(** The comparison of an entry with the key of a lookup. *)
Lemma at_seek_key (u : bytes) (s : SequenceNumber) (p : ParsedInternalKey) :
  seq_ok s -> seq_ok (pik_sequence p) ->
  (ikc_Compare C (encode_key p) (seek_key u s) <> Lt <-> clt u (pik_user_key p) \/ (ceq u (pik_user_key p) /\ pik_sequence p <= s)).
Proof.
  intros Hs Hp. unfold seek_key. rewrite ikc_Compare_encode by done. cbn [pik_user_key pik_sequence pik_type].
  destruct (Compare_spec (pik_user_key p) u) as [He|Hl|Hg].
  - assert (ceq u (pik_user_key p)) as He' by by apply ceq_sym.
    assert (~ clt u (pik_user_key p)) as Hn by (unfold clt, ceq in *; congruence).
    destruct (Z.compare_spec s (pik_sequence p)); [|split; [done|]; intros [?|[_ ?]]; [done|lia]|split; [intros _; right; split; [done|lia]|done]].
    split; [intros _; right; split; [done|lia]|]. intros _. destruct (pik_type p); done.
  - split; [done|]. intros [H|[H _]].
    + destruct (clt_irrefl u). eapply clt_trans; done.
    + apply ceq_sym in H. unfold ceq, clt in *. congruence.
  - split; [intros _; by left|done].
Qed.

Lemma lookup_first_Some (k : bytes) (P : versions) (p : ParsedInternalKey) (v : bytes) :
  lookup_first (C := C) k P = Some (p, v) -> (p, v) ∈ P /\ ikc_Compare C (encode_key p) k <> Lt.
Proof.
  intros E. apply List.find_some in E as [Hin Hc]. split; [by apply list_elem_of_In|]. cbn [fst] in Hc. by destruct (ikc_Compare _ _ _).
Qed.

Lemma lookup_first_None (k : bytes) (P : versions) (p : ParsedInternalKey) (v : bytes) :
  lookup_first (C := C) k P = None -> (p, v) ∈ P -> ikc_Compare C (encode_key p) k = Lt.
Proof.
  intros E Hin. apply list_elem_of_In in Hin. pose proof (List.find_none _ _ E _ Hin) as Hc. cbn [fst] in Hc. by destruct (ikc_Compare _ _ _).
Qed.

(** Every entry at or past [k] is at or past the first one. *)
Lemma lookup_first_least (k : bytes) (P : versions) (p q : ParsedInternalKey) (v w : bytes) :
  keys_sorted (C := InternalKeyComparator C) (internal_entries P) -> lookup_first (C := C) k P = Some (p, v) -> (q, w) ∈ P ->
  ikc_Compare C (encode_key q) k <> Lt -> @cle (InternalKeyComparator C) (encode_key p) (encode_key q).
Proof.
  induction P as [|[p0 v0] P IH]; intros Hs E Hin Hq; [by apply not_elem_of_nil in Hin|].
  unfold lookup_first in E. cbn [List.find fst] in E. apply StronglySorted_inv in Hs as [Hs Hx].
  destruct (ikc_Compare C (encode_key p0) k) eqn:Ec.
  2: { apply elem_of_cons in Hin as [Heq|Hin]; [injection Heq as -> ->; done|]. exact (IH Hs E Hin Hq). }
  all: injection E as -> ->; apply elem_of_cons in Hin as [Heq|Hin]; [injection Heq as -> ->; apply (cle_refl (C := InternalKeyComparator C))|].
  all: apply (clt_cle (C := InternalKeyComparator C)); rewrite List.Forall_forall in Hx; apply (Hx (encode_key q, w)).
  all: apply list_elem_of_In, list_elem_of_fmap; exists (q, w); done.
Qed.

(** What a lookup of [u] at [s] finds in the entries [P]. *)
Definition hit (u : bytes) (s : SequenceNumber) (P : versions) : option (ParsedInternalKey * bytes) :=
  match lookup_first (C := C) (seek_key u s) P with
  | Some (p, v) => if decide (pik_user_key p = u) then Some (p, v) else None
  | None => None
  end.

Lemma hit_Some (u : bytes) (s : SequenceNumber) (f : FileMetaData) (P : versions) (p : ParsedInternalKey) (v : bytes) :
  seq_ok s -> contents_ok f P -> hit u s P = Some (p, v) -> (p, v) ∈ P /\ visible u s p.
Proof.
  intros Hs Hok. unfold hit. destruct (lookup_first _ P) as [[p0 v0]|] eqn:E; [|done]. case_decide as Hu; [|done]. intros [= -> ->].
  apply lookup_first_Some in E as [Hin Hc]. split; [done|]. split; [done|].
  apply at_seek_key in Hc; [|done|by apply (co_seq _ _ Hok p v)]. destruct Hc as [Hc|[_ Hc]]; [|done]. rewrite Hu in Hc. by apply clt_irrefl in Hc.
Qed.

(** User keys that compare equal are equal (a Bloom filter hashes their bytes). *)
Context (Heq : forall a b, ceq a b -> a = b).

Lemma at_seek_visible (u : bytes) (s : SequenceNumber) (p : ParsedInternalKey) :
  seq_ok s -> seq_ok (pik_sequence p) -> visible u s p -> ikc_Compare C (encode_key p) (seek_key u s) <> Lt.
Proof. intros Hs Hp [<- Hv]. apply at_seek_key; [done..|]. right. split; [apply ceq_refl|done]. Qed.

(** Of two entries of one user key, the one that comes first is at least as new. *)
Lemma first_is_newer (p q : ParsedInternalKey) :
  seq_ok (pik_sequence p) -> seq_ok (pik_sequence q) -> @cle (InternalKeyComparator C) (encode_key p) (encode_key q) ->
  pik_user_key p = pik_user_key q -> pik_sequence q <= pik_sequence p.
Proof.
  intros Hp Hq Hle Hu. unfold cle in Hle. cbn [Compare InternalKeyComparator] in Hle. rewrite ikc_Compare_encode in Hle by done.
  rewrite Hu, cmp_refl in Hle. destruct (Z.compare_spec (pik_sequence q) (pik_sequence p)); [lia|lia|done].
Qed.

Lemma icle_encode_user (p q : ParsedInternalKey) :
  @cle (InternalKeyComparator C) (encode_key p) (encode_key q) -> cle (pik_user_key p) (pik_user_key q).
Proof. intros H. apply icle_user in H. unfold InternalKey_user_key in H. by rewrite !ExtractUserKey_encode in H. Qed.

Lemma hit_complete (u : bytes) (s : SequenceNumber) (f : FileMetaData) (P : versions) (q : ParsedInternalKey) (w : bytes) :
  seq_ok s -> contents_ok f P -> (q, w) ∈ P -> visible u s q -> exists p v, hit u s P = Some (p, v) /\ pik_sequence q <= pik_sequence p.
Proof.
  intros Hs Hok Hin Hv. pose proof (co_seq _ _ Hok q w Hin) as Hq. pose proof (at_seek_visible u s q Hs Hq Hv) as Hge.
  unfold hit. destruct (lookup_first (seek_key u s) P) as [[p v]|] eqn:E.
  2: { by rewrite (lookup_first_None _ _ _ _ E Hin) in Hge. }
  pose proof (lookup_first_least _ _ _ _ _ _ (co_sorted _ _ Hok) E Hin Hge) as Hle.
  apply lookup_first_Some in E as [Hp Hc]. pose proof (co_seq _ _ Hok p v Hp) as Hps.
  assert (pik_user_key p = u) as Hu.
  { apply Heq, cle_antisym; [rewrite <- (proj1 Hv); by apply icle_encode_user|].
    apply at_seek_key in Hc; [|done..]. destruct Hc as [Hc|[Hc _]]; [by apply clt_cle|by apply ceq_cle]. }
  rewrite decide_True by done. exists p, v. split; [done|]. apply first_is_newer; [done..|]. rewrite Hu. symmetry. apply Hv.
Qed.

(** *** The files that are searched *)

Section Candidates.
Context (v : Version) (contents : FileMetaData -> versions) (Hv : VersionOk v contents) (u : bytes) (s : SequenceNumber) (Hs : seq_ok s).

Lemma level_FindFile (level : nat) : (0 < level < kNumLevels)%nat ->
  Z.to_nat (u32 (FindFile (C := C) (files_ v level) (seek_key u s))) = find_file_scan (C := C) (files_ v level) (seek_key u s).
Proof.
  intros Hl. pose proof (find_file_scan_le (C := C) (files_ v level) (seek_key u s)). pose proof (vo_size _ _ Hv level).
  rewrite FindFile_spec; [|apply Forall_lookup; intros i f Hf|by apply (vo_sorted _ _ Hv)|done].
  - rewrite wrap_small by (unfold zlen in *; lia). lia.
  - apply list_elem_of_lookup_2 in Hf. apply (vo_files _ _ Hv (level, f)). split; [cbn; lia|done].
Qed.

Lemma level_candidate_complete (level : nat) (g : FileMetaData) (q : ParsedInternalKey) (w : bytes) :
  (0 < level < kNumLevels)%nat -> g ∈ files_ v level -> (q, w) ∈ contents g -> visible u s q ->
  exists f p v', level_candidate (C := C) v u (seek_key u s) level = [(level, f)] /\ hit u s (contents f) = Some (p, v') /\ pik_sequence q <= pik_sequence p.
Proof.
  intros Hl Hg Hq Hvis. unfold level_candidate. rewrite level_FindFile by done.
  apply list_elem_of_lookup in Hg as [j Hj]. set (n := find_file_scan _ _).
  assert (forall i f, files_ v level !! i = Some f -> file_ok (C := C) f /\ contents_ok f (contents f)) as Hfiles.
  { intros i f Hf. apply list_elem_of_lookup_2 in Hf. apply (vo_files _ _ Hv (level, f)). split; [cbn; lia|done]. }
  destruct (Hfiles j g Hj) as [Hgok Hgc]. pose proof (co_seq _ _ Hgc q w Hq) as Hqs. destruct (co_range _ _ Hgc q w Hq) as [Hsm Hla].
  assert (@cle (InternalKeyComparator C) (seek_key u s) (encode_key q)) as Hge.
  { apply (not_clt (C := InternalKeyComparator C)). exact (at_seek_visible u s q Hs Hqs Hvis). }
  assert (n <= j)%nat as Hnj.
  { destruct (decide (n <= j)%nat) as [|Hn]; [done|]. exfalso. assert (j < n)%nat as Hlt by lia.
    pose proof (find_file_scan_before _ _ _ _ Hlt Hj) as Hb. apply (not_cle (C := InternalKeyComparator C)) in Hb. apply Hb.
    eapply (cmp_le_trans (C := InternalKeyComparator C)); done. }
  destruct (lookup_lt_is_Some_2 (files_ v level) n) as [f Hf]; [apply lookup_lt_Some in Hj; lia|]. rewrite Hf.
  destruct (Hfiles n f Hf) as [Hfok Hfc]. pose proof (find_file_scan_at _ _ _ Hf) as Hlf.
  assert (@cle (InternalKeyComparator C) (fm_smallest f) (encode_key q) /\ exists p v', hit u s (contents f) = Some (p, v') /\ pik_sequence q <= pik_sequence p) as [Hle Hhit].
  { destruct (decide (n = j)) as [Enj|Hne].
    - assert (f = g) as -> by (rewrite Enj in Hf; congruence). split; [done|]. by apply (hit_complete u s g _ q w).
    - assert (@clt (InternalKeyComparator C) (fm_largest f) (encode_key q)) as Hlq.
      { eapply (clt_cle_trans (C := InternalKeyComparator C)); [|exact Hsm].
        apply (files_sorted_lt (C := C) (files_ v level) n j); [by apply (vo_sorted _ _ Hv)|lia|done|done]. }
      split. { apply (clt_cle (C := InternalKeyComparator C)). eapply (cle_clt_trans (C := InternalKeyComparator C)); [apply Hfok|done]. }
      destruct (co_largest _ _ Hfc) as (pl & vl & Hpl & El). pose proof (co_seq _ _ Hfc pl vl Hpl) as Hpls. rewrite El in Hlf, Hlq.
      assert (pik_user_key pl = u) as Hu.
      { apply Heq, cle_antisym; [rewrite <- (proj1 Hvis); apply icle_encode_user; by apply (clt_cle (C := InternalKeyComparator C))|].
        by apply (icle_encode_user (mkPIK u s kValueTypeForSeek)). }
      assert (visible u s pl) as Hvl. { split; [done|]. by apply (first_is_newer (mkPIK u s kValueTypeForSeek) pl). }
      destruct (hit_complete u s f _ pl vl Hs Hfc Hpl Hvl) as (p & v' & Hh & Hle). exists p, v'. split; [done|].
      etrans; [|exact Hle]. apply first_is_newer; [done..|by apply (clt_cle (C := InternalKeyComparator C))|].
      rewrite Hu. symmetry. apply Hvis. }
  destruct Hhit as (p & v' & Hh & Hpq). exists f, p, v'. split_and!; [|done|done].
  rewrite bool_decide_eq_false_2; [done|]. apply icle_user in Hle. unfold InternalKey_user_key in *. rewrite ExtractUserKey_encode, (proj1 Hvis) in Hle.
  intros Hlt. by apply not_cle in Hlt.
Qed.

Lemma level0_candidate_complete (g : FileMetaData) (q : ParsedInternalKey) (w : bytes) :
  g ∈ files_ v 0 -> (q, w) ∈ contents g -> visible u s q ->
  (0%nat, g) ∈ level0_candidates (C := C) v u /\ exists p v', hit u s (contents g) = Some (p, v') /\ pik_sequence q <= pik_sequence p.
Proof.
  intros Hg Hq Hvis. destruct (vo_files _ _ Hv (0%nat, g)) as [Hgok Hgc]; [split; [cbn; unfold kNumLevels; lia|done]|]. cbn [snd] in Hgok, Hgc.
  split; [|by apply (hit_complete u s g _ q w)].
  apply list_elem_of_fmap. exists g. split; [done|]. rewrite merge_sort_Permutation. apply list_elem_of_In, filter_In.
  split; [by apply list_elem_of_In|]. destruct (co_range _ _ Hgc q w Hq) as [Hsm Hla]. apply icle_user in Hsm, Hla.
  unfold InternalKey_user_key in *. rewrite ExtractUserKey_encode, (proj1 Hvis) in Hsm, Hla. unfold covers, InternalKey_user_key.
  rewrite !bool_decide_eq_true_2; [done|exact Hla|]. intros Hlt. by apply not_cle in Hlt.
Qed.

Lemma level_candidate_elem (level : nat) (lf : nat * FileMetaData) :
  lf ∈ level_candidate (C := C) v u (seek_key u s) level -> fst lf = level /\ snd lf ∈ files_ v level.
Proof.
  unfold level_candidate. destruct (files_ v level !! _) as [f|] eqn:E; [|by intros ?%not_elem_of_nil].
  case_bool_decide; [by intros ?%not_elem_of_nil|]. intros ->%list_elem_of_singleton. split; [done|]. by apply list_elem_of_lookup_2 in E.
Qed.

Lemma level0_candidates_elem (lf : nat * FileMetaData) : lf ∈ level0_candidates (C := C) v u -> fst lf = 0%nat /\ snd lf ∈ files_ v 0.
Proof.
  intros (f & -> & Hf)%list_elem_of_fmap. rewrite merge_sort_Permutation in Hf. apply list_elem_of_In, filter_In in Hf as [Hf _].
  split; [done|]. by apply list_elem_of_In.
Qed.

Lemma levels_elem (a n : nat) (lf : nat * FileMetaData) :
  lf ∈ concat (map (level_candidate (C := C) v u (seek_key u s)) (seq a n)) -> (a <= fst lf < a + n)%nat /\ snd lf ∈ files_ v (fst lf).
Proof.
  revert a. induction n as [|n IH]; intros a; [by intros ?%not_elem_of_nil|]. cbn [seq map concat].
  intros [H|H]%elem_of_app; [apply level_candidate_elem in H as [-> H]; split; [lia|done]|]. apply IH in H as [? ?]. split; [lia|done].
Qed.

Lemma candidates_elem (lf : nat * FileMetaData) : lf ∈ candidates (C := C) v u (seek_key u s) -> in_version v lf.
Proof.
  unfold candidates, kNumLevels. intros [H|H]%elem_of_app.
  - apply level0_candidates_elem in H as [E H]. split; rewrite E; [unfold kNumLevels; lia|done].
  - apply levels_elem in H as [E H]. split; [unfold kNumLevels; lia|done].
Qed.

Lemma levels_sorted (a n : nat) : StronglySorted searched_before (concat (map (level_candidate (C := C) v u (seek_key u s)) (seq a n))).
Proof.
  revert a. induction n as [|n IH]; intros a; [constructor|]. cbn [seq map concat].
  destruct (level_candidate v u (seek_key u s) a) as [|x l] eqn:E; [apply IH|].
  assert (l = []) as ->.
  { unfold level_candidate in E. destruct (files_ v a !! _); [|done]. case_bool_decide; [done|]. by injection E. }
  cbn [app]. constructor; [apply IH|]. apply List.Forall_forall. intros y Hy. apply list_elem_of_In, levels_elem in Hy as [Hy _].
  destruct (level_candidate_elem a x) as [Hx _]; [rewrite E; by left|]. left. lia.
Qed.

Lemma level0_sorted : StronglySorted searched_before (level0_candidates (C := C) v u).
Proof.
  unfold level0_candidates. pose proof (vo_numbers _ _ Hv) as Hnd.
  assert (StronglySorted newest_first (merge_sort newest_first (List.filter (covers u) (files_ v 0)))) as Hs'.
  { apply StronglySorted_merge_sort; [intros x y z; unfold newest_first; lia|intros x y; unfold newest_first; lia]. }
  assert (NoDup (map fm_number (merge_sort newest_first (List.filter (covers u) (files_ v 0))))) as Hnd'.
  { rewrite merge_sort_Permutation. clear Hs'. induction (files_ v 0) as [|f l IH]; [constructor|]. cbn in Hnd |- *.
    apply NoDup_cons in Hnd as [Hn Hnd]. destruct (covers u f); [|by apply IH]. cbn. apply NoDup_cons. split; [|by apply IH].
    intros (g & Eg & Hg)%list_elem_of_fmap. apply Hn, list_elem_of_fmap. exists g. split; [done|].
    apply list_elem_of_In in Hg. apply filter_In in Hg as [Hg _]. by apply list_elem_of_In. }
  induction Hs' as [|f l Hl IH Hf]; [constructor|]. cbn in Hnd' |- *. apply NoDup_cons in Hnd' as [Hn Hnd'].
  constructor; [by apply IH|]. apply List.Forall_forall. intros [i g] Hg. apply in_map_iff in Hg as (g' & [= <- <-] & Hg).
  right. split_and!; [done..|]. cbn. rewrite List.Forall_forall in Hf. pose proof (Hf g' Hg) as Hle. unfold newest_first in Hle.
  assert (fm_number g' <> fm_number f); [|lia]. intros E. apply Hn. rewrite <- E. apply list_elem_of_In, in_map. done.
Qed.

Lemma candidates_sorted : StronglySorted searched_before (candidates (C := C) v u (seek_key u s)).
Proof.
  unfold candidates. pose proof level0_candidates_elem as H0. pose proof (levels_elem 1 (kNumLevels - 1)) as H1.
  pose proof (levels_sorted 1 (kNumLevels - 1)) as HS1. pose proof level0_sorted as HS0.
  induction HS0 as [|x l Hl IH Hx]; [done|]. cbn. constructor.
  - apply IH. intros y Hy. apply H0. by right.
  - apply List.Forall_app. split; [done|]. apply List.Forall_forall. intros y Hy. left. apply list_elem_of_In, H1 in Hy as [Hy _].
    destruct (H0 x) as [-> _]; [by left|]. lia.
Qed.

(** The search hits a file of the level of every visible entry, at least as new. *)
Lemma candidates_complete (lg : nat * FileMetaData) (q : ParsedInternalKey) (w : bytes) :
  in_version v lg -> (q, w) ∈ contents (snd lg) -> visible u s q ->
  exists lf p v', lf ∈ candidates (C := C) v u (seek_key u s) /\ hit u s (contents (snd lf)) = Some (p, v') /\ pik_sequence q <= pik_sequence p.
Proof.
  destruct lg as [level g]. intros [Hl Hg] Hq Hvis. cbn in Hl, Hg, Hq. destruct (decide (level = 0%nat)) as [->|Hn].
  - destruct (level0_candidate_complete g q w Hg Hq Hvis) as (Hin & p & v' & Hh & Hle). exists (0%nat, g), p, v'.
    split_and!; [|done|done]. apply elem_of_app. by left.
  - destruct (level_candidate_complete level g q w) as (f & p & v' & Hc & Hh & Hle); [lia|done..|]. exists (level, f), p, v'.
    split_and!; [|done|done]. apply elem_of_app. right. apply list_elem_of_In, in_concat.
    exists (level_candidate v u (seek_key u s) level). split; [|rewrite Hc; by left].
    apply in_map. apply in_seq. unfold kNumLevels in *. lia.
Qed.
End Candidates.

(** *** The search *)

Definition entry_answer (pv : ParsedInternalKey * bytes) : option bytes :=
  match pik_type (fst pv) with kTypeValue => Some (snd pv) | kTypeDeletion => None end.

Section Loop.
Context {T : Type} {TS : TableStore T} {TL : TableStoreLaws (C := C) T} (ro : ReadOptions) (u : bytes) (s : SequenceNumber) (Hs : seq_ok s).
Context (contents : FileMetaData -> versions).

Definition tables_ok (L : list (nat * FileMetaData)) (t : T) : Prop :=
  forall lf, lf ∈ L -> ts_table t (fm_number (snd lf)) (fm_file_size (snd lf)) (contents (snd lf)) /\ contents_ok (snd lf) (contents (snd lf)).

Lemma match_func_spec (lf : nat * FileMetaData) (L : list (nat * FileMetaData)) (g : GetState T) :
  tables_ok L (gs_tables g) -> lf ∈ L -> gs_found g = false -> gs_status g = StatusOK ->
  exists g', match_func (C := C) ro (newLookupKey u s) lf g = (bool_decide (hit u s (contents (snd lf)) = None), g') /\
    gs_status g' = StatusOK /\ tables_ok L (gs_tables g') /\
    gs_found g' = bool_decide (hit u s (contents (snd lf)) <> None) /\
    forall pv, hit u s (contents (snd lf)) = Some pv -> gs_result g' = entry_answer pv.
Proof.
  intros Ht Hin Hf Hst. destruct lf as [level f]. cbn [snd]. destruct (newLookupKey_views u s) as (Hik & Huk & _).
  destruct (Ht _ Hin) as [Htab Hok]. cbn [snd] in Htab, Hok.
  destruct (ts_Get_ok ro _ _ (seek_key u s) _ _ Htab) as (r & t' & Hget & Hr & Hhit & Hkeep).
  unfold match_func. rewrite Hik. unfold seek_key in Hget. rewrite Hget.
  set (stats := match seek_file (gs_stats g) with Some _ => _ | None => _ end).
  set (g0 := mkGetState stats (gs_result g) (gs_status g) (gs_found g) (Some (f, level)) t').
  assert (tables_ok L t') as Ht' by (intros lf Hlf; split; [by apply Hkeep, Ht|by apply Ht]).
  assert (hit u s (contents f) = None -> match r with Some (ikey, v) => save_value_cb (C := C) (newLookupKey u s) ikey v g0 | None => g0 end = g0) as Hmiss.
  { intros Hh. destruct r as [[ik v]|]; [|done]. destruct Hr as [?|Hr]; [done|]. unfold hit in Hh.
    destruct (lookup_first (seek_key u s) (contents f)) as [[p v']|] eqn:El; [|done]. case_decide as Hu; [done|].
    injection Hr as -> ->. apply lookup_first_Some in El as [Hp _]. unfold save_value_cb.
    change (encode_key (p, v').1) with (encode_key p).
    rewrite ParseInternalKey_encode by (by apply (co_seq _ _ Hok p v')). rewrite Huk, bool_decide_eq_false_2; [done|]. intros E. by apply Hu, Heq. }
  destruct (hit u s (contents f)) as [[p v]|] eqn:Eh.
  - assert (r = Some (encode_key p, v)) as ->.
    { unfold hit in Eh. destruct (lookup_first (seek_key u s) (contents f)) as [[p' v']|] eqn:El; [|done]. case_decide as Hu; [|done].
      injection Eh as -> ->. apply (Hhit p v); [done|]. unfold seek_key. by rewrite ExtractUserKey_encode. }
    destruct (hit_Some u s f _ p v Hs Hok Eh) as [Hp [Hu _]]. unfold save_value_cb.
    rewrite ParseInternalKey_encode by (by apply (co_seq _ _ Hok p v)). rewrite Huk, Hu, cmp_refl, bool_decide_eq_true_2 by done. cbn.
    eexists. split; [reflexivity|]. split_and!; try done. intros pv [= <-]. done.
  - rewrite Hmiss by done. unfold g0. cbn [gs_found]. rewrite Hf. cbn. eexists. split; [reflexivity|]. split_and!; done.
Qed.

(** The loop stops at the first hit. *)
Lemma search_spec (L0 L : list (nat * FileMetaData)) (g : GetState T) :
  (forall lf, lf ∈ L -> lf ∈ L0) -> tables_ok L0 (gs_tables g) -> gs_found g = false -> gs_status g = StatusOK ->
  let g' := call_while (match_func (C := C) ro (newLookupKey u s)) L g in
  gs_status g' = StatusOK /\ tables_ok L0 (gs_tables g') /\
  ((gs_found g' = false /\ forall lf, lf ∈ L -> hit u s (contents (snd lf)) = None) \/
   (exists L1 lf L2 pv, L = L1 ++ lf :: L2 /\ (forall lf, lf ∈ L1 -> hit u s (contents (snd lf)) = None) /\
      hit u s (contents (snd lf)) = Some pv /\ gs_found g' = true /\ gs_result g' = entry_answer pv)).
Proof.
  intros Hsub. revert g. induction L as [|lf L IH]; intros g Ht Hf Hst g'.
  - unfold g'. cbn. split_and!; [done..|]. left. split; [done|]. intros lf Hlf. by apply not_elem_of_nil in Hlf.
  - destruct (match_func_spec lf L0 g Ht (Hsub lf ltac:(by left)) Hf Hst) as (g1 & Em & Hs1 & Ht1 & Hf1 & Hr1).
    unfold g'. cbn [call_while]. rewrite Em. destruct (hit u s (contents (snd lf))) as [pv|] eqn:Eh; cbn [bool_decide].
    + rewrite bool_decide_eq_false_2 by done. rewrite bool_decide_eq_true_2 in Hf1 by done. split_and!; [done..|]. right.
      exists [], lf, L, pv. split_and!; try done; [|by apply Hr1]. intros x Hx. by apply not_elem_of_nil in Hx.
    + rewrite bool_decide_eq_true_2 by done. rewrite bool_decide_eq_false_2 in Hf1 by (intros H; by apply H).
      destruct (IH (fun x Hx => Hsub x ltac:(by right)) g1 Ht1 Hf1 Hs1) as (H1 & H2 & H3). split_and!; [done..|].
      destruct H3 as [[H3 H4]|(L1 & lf' & L2 & pv & -> & H4 & H5 & H6 & H7)]; [left|right].
      * split; [done|]. intros x [->|Hx]%elem_of_cons; [done|by apply H4].
      * exists (lf :: L1), lf', L2, pv. split_and!; try done. intros x [->|Hx]%elem_of_cons; [done|by apply H4].
Qed.
End Loop.

(** What [Get] should answer: with the newest visible entry of all files. *)
Definition version_get_spec (v : Version) (contents : FileMetaData -> versions) (u : bytes) (s : SequenceNumber) (r : Result (option bytes)) : Prop :=
  (r = Err (NotFound "not found" "") /\ forall lf p w, in_version v lf -> (p, w) ∈ contents (snd lf) -> ~ visible u s p) \/
  (exists lf p w, in_version v lf /\ (p, w) ∈ contents (snd lf) /\ visible u s p /\
     r = match pik_type p with kTypeValue => Ok (Some w) | kTypeDeletion => Err (NotFound "deleted" "") end /\
     forall lg q x, in_version v lg -> (q, x) ∈ contents (snd lg) -> visible u s q -> pik_sequence q <= pik_sequence p).

Lemma Version_Get_spec {T : Type} {TS : TableStore T} {TL : TableStoreLaws (C := C) T} (ro : ReadOptions)
    (v : Version) (contents : FileMetaData -> versions) (u : bytes) (s : SequenceNumber) (t : T) :
  VersionOk v contents -> seq_ok s ->
  (forall lf, in_version v lf -> ts_table t (fm_number (snd lf)) (fm_file_size (snd lf)) (contents (snd lf))) ->
  version_get_spec v contents u s (fst (fst (Version_Get (C := C) ro (newLookupKey u s) v t))).
Proof.
  intros Hv Hs Ht. destruct (newLookupKey_views u s) as (Hik & Huk & _). unfold Version_Get, ForEachOverlapping. cbv zeta. cbn [fst].
  rewrite Huk, Hik. fold (seek_key u s). set (L := candidates v u (seek_key u s)). set (g0 := mkGetState _ _ _ _ _ t).
  assert (tables_ok contents L (gs_tables g0)) as Htab.
  { intros lf Hlf. apply (candidates_elem v u s) in Hlf. split; [by apply Ht|by apply (vo_files _ _ Hv)]. }
  destruct (search_spec ro u s Hs contents L L g0 (fun x Hx => Hx) Htab eq_refl eq_refl) as (Hst & _ & Hres).
  rewrite Hst. cbn [ok negb]. destruct Hres as [[Hf Hmiss]|(L1 & lf & L2 & [p w] & EL & Hmiss & Hhit & Hf & Hr)]; rewrite Hf.
  - left. split; [done|]. intros lg q x Hlg Hq Hvis.
    destruct (candidates_complete v contents Hv u s Hs lg q x Hlg Hq Hvis) as (lf & p & v' & Hin & Hh & _). by rewrite (Hmiss lf Hin) in Hh.
  - right. assert (lf ∈ L) as Hlf by (rewrite EL; apply elem_of_app; right; by left).
    pose proof (candidates_elem v u s lf Hlf) as Hiv. destruct (vo_files _ _ Hv lf Hiv) as [_ Hok].
    destruct (hit_Some u s (snd lf) _ p w Hs Hok Hhit) as [Hp Hvis]. exists lf, p, w. split_and!; try done.
    + rewrite Hr. unfold entry_answer. cbn. by destruct (pik_type p).
    + intros lg q x Hlg Hq Hvq. destruct (candidates_complete v contents Hv u s Hs lg q x Hlg Hq Hvq) as (lf' & p' & v' & Hin & Hh & Hle).
      destruct (vo_files _ _ Hv lf' (candidates_elem v u s lf' Hin)) as [_ Hok'].
      destruct (hit_Some u s (snd lf') _ p' v' Hs Hok' Hh) as [Hp' Hvis']. fold L in Hin. rewrite EL in Hin.
      apply elem_of_app in Hin as [Hin|[->|Hin]%elem_of_cons]; [by rewrite (Hmiss lf' Hin) in Hh| |].
      * rewrite Hhit in Hh. by injection Hh as -> ->.
      * pose proof (candidates_sorted v contents Hv u s) as HS. fold L in HS. rewrite EL in HS.
        assert (searched_before lf lf') as Hb.
        { clear -HS Hin. induction L1 as [|y L1 IH]; cbn in HS; apply StronglySorted_inv in HS as [HS Hy]; [|by apply IH].
          rewrite List.Forall_forall in Hy. by apply Hy, list_elem_of_In. }
        assert (in_version v lf') as Hiv'.
        { apply (candidates_elem v u s). fold L. rewrite EL. apply elem_of_app. right. by right. }
        pose proof (vo_recent _ _ Hv lf lf' p p' w v' Hiv Hiv' Hb Hp Hp') as Hlt. rewrite (proj1 Hvis), (proj1 Hvis') in Hlt.
        specialize (Hlt eq_refl). lia.
Qed.

(** The tables stay as they are, so that the next lookup can be made. *)
Lemma in_version_list (v : Version) (lf : nat * FileMetaData) :
  in_version v lf <-> lf ∈ concat (map (fun l => map (pair l) (files_ v l)) (seq 0 kNumLevels)).
Proof.
  rewrite list_elem_of_In, in_concat. destruct lf as [l f]. unfold in_version. cbn [fst snd]. split.
  - intros [Hl Hf]. exists (map (pair l) (files_ v l)). split; [apply in_map_iff; exists l; split; [done|]; apply in_seq; lia|].
    apply in_map_iff. exists f. by rewrite <- list_elem_of_In.
  - intros (x & (l' & <- & Hl)%in_map_iff & (f' & [= -> ->] & Hf)%in_map_iff). apply in_seq in Hl. split; [lia|by apply list_elem_of_In].
Qed.

Lemma Version_Get_tables {T : Type} {TS : TableStore T} {TL : TableStoreLaws (C := C) T} (ro : ReadOptions)
    (v : Version) (contents : FileMetaData -> versions) (u : bytes) (s : SequenceNumber) (t : T) :
  VersionOk v contents -> seq_ok s ->
  (forall lf, in_version v lf -> ts_table t (fm_number (snd lf)) (fm_file_size (snd lf)) (contents (snd lf))) ->
  forall lf, in_version v lf -> ts_table (snd (Version_Get (C := C) ro (newLookupKey u s) v t)) (fm_number (snd lf)) (fm_file_size (snd lf)) (contents (snd lf)).
Proof.
  intros Hv Hs Ht lf Hlf. destruct (newLookupKey_views u s) as (Hik & Huk & _). unfold Version_Get, ForEachOverlapping. cbv zeta. cbn [snd].
  rewrite Huk, Hik. fold (seek_key u s). set (L := candidates v u (seek_key u s)). set (g0 := mkGetState _ _ _ _ _ t).
  edestruct (search_spec ro u s Hs contents (concat (map (fun l => map (pair l) (files_ v l)) (seq 0 kNumLevels))) L g0) as (_ & Htab & _); try done.
  - intros x Hx. apply in_version_list. by apply (candidates_elem v u s).
  - intros x Hx. apply in_version_list in Hx. split; [by apply Ht|by apply (vo_files _ _ Hv)].
  - apply Htab. by apply in_version_list.
Qed.
End Read.

(** ** The iterators over the files *)

Section Levels.
Context {C : Comparator} {CL : ComparatorLaws C}.
Abbreviation IC := (InternalKeyComparator C).

Definition file_handle (f : FileMetaData) : bytes := EncodeFixed64 (fm_number f) ++ EncodeFixed64 (fm_file_size f).
Definition level_index (files : list FileMetaData) : entries := map (fun f => (fm_largest f, file_handle f)) files.

(** A position past the end is the number of files. *)
Definition lf_at (files : list FileMetaData) (it : LevelFileNumIterator) (c : option nat) : Prop :=
  lf_flist it = files /\ match c with Some i => lf_index it = Z.of_nat i /\ (i < length files)%nat | None => lf_index it = zlen files end.

Lemma level_seek_index (files : list FileMetaData) (t : bytes) :
  seek_index (C := IC) t (level_index files) = in_range (level_index files) (find_file_scan (C := C) files t).
Proof.
  unfold level_index. induction files as [|f files IH]; [done|]. cbn [map seek_index find_file_scan]. unfold at_or_past. cbn [fst Compare].
  change (Compare (Comparator := IC) (fm_largest f) t) with (ikc_Compare C (fm_largest f) t).
  destruct (ikc_Compare C (fm_largest f) t); [done| |done]. rewrite IH. unfold in_range. cbn [length].
  change (S ?a <? S ?b)%nat with (a <? b)%nat. by destruct (_ <? _)%nat.
Qed.

Lemma lf_at_in_range (files : list FileMetaData) (it : LevelFileNumIterator) (i : nat) (z : Z) :
  lf_flist it = files -> (i <= length files)%nat -> z = Z.of_nat i -> lf_at files (lf_set it z) (in_range (level_index files) i).
Proof.
  intros Hl Hi ->. split; [done|]. unfold in_range. unfold level_index. rewrite length_map. destruct (Nat.ltb_spec i (length files)); cbn; [done|].
  unfold zlen. lia.
Qed.

Lemma LevelFileNum_sim (files : list FileMetaData) :
  Forall (file_ok (C := C)) files -> files_sorted (C := C) files -> zlen files < 2 ^ 31 ->
  IterSim (H := LevelFileNum_iter (C := C)) (C := IC) (level_index files) (lf_at files).
Proof.
  intros Hok Hs Hsz. split; cbn [it_Valid it_SeekToFirst it_SeekToLast it_Seek it_Next it_Prev it_key it_value it_status LevelFileNum_iter].
  - intros it [i|] [-> H]; [destruct H as [-> H]; apply Z.ltb_lt; unfold zlen; lia|rewrite H; apply Z.ltb_irrefl].
  - intros it i [Hl [Hi Hlt]]. unfold lf_current. rewrite Hl, Hi, Nat2Z.id. unfold level_index.
    destruct (lookup_lt_is_Some_2 files i Hlt) as [f Hf]. rewrite list_lookup_fmap, Hf. done.
  - done.
  - intros it c [Hl _]. apply lf_at_in_range; [done|lia|done].
  - intros it c [Hl _]. rewrite Hl. unfold cur_last. unfold level_index at 2. rewrite length_map. destruct (Z.eqb_spec (zlen files) 0) as [E|E].
    + assert (files = []) as -> by by apply zlen_0. apply lf_at_in_range; done.
    + pose proof (zlen_nonneg files). rewrite wrap_small by lia. apply lf_at_in_range; [done|lia|unfold zlen in *; lia].
  - intros it c t [Hl _]. rewrite level_seek_index, Hl, FindFile_spec by done.
    pose proof (find_file_scan_le (C := C) files t). rewrite wrap_small by (unfold zlen in *; lia). by apply lf_at_in_range.
  - intros it i [Hl [Hi Hlt]]. unfold cur_next. rewrite Hi, wrap_small by (unfold zlen in *; lia). apply lf_at_in_range; [done|lia|lia].
  - intros it i [Hl [Hi Hlt]]. rewrite Hi. destruct i as [|i]; cbn [cur_prev].
    + cbn. rewrite Hl. split; [done|]. cbn. rewrite wrap_small by (unfold zlen in *; lia). done.
    + destruct (Z.eqb_spec (Z.of_nat (S i)) 0); [lia|]. split; [done|]. cbn. split; [lia|lia].
Qed.

Lemma newLevelFileNumIterator_at (files : list FileMetaData) : zlen files < 2 ^ 31 -> lf_at files (newLevelFileNumIterator files) None.
Proof. intros H. split; [done|]. cbn. pose proof (zlen_nonneg files). rewrite wrap_small by lia. done. Qed.

(** [tab number size] are the entries of a table; [RD] relates its iterators to cursors. *)
Context {D : Type} {HD : Iterator D} (table_iter : Z -> Z -> D) (error_iter : Status -> D) (fuel : nat) (tab : Z -> Z -> versions).
Context (RD : Z -> Z -> D -> option nat -> Prop).

Abbreviation contents := (fun f => tab (fm_number f) (fm_file_size f)).

Definition handle_contents (h : bytes) : entries := internal_entries (tab (DecodeFixed64 h) (DecodeFixed64 (zdrop 8 h))).
Definition handle_at (h : bytes) : D -> option nat -> Prop := RD (DecodeFixed64 h) (DecodeFixed64 (zdrop 8 h)).

Definition nums_ok (f : FileMetaData) : Prop := num_ok (fm_number f) /\ num_ok (fm_file_size f).

Lemma file_handle_decode (f : FileMetaData) : nums_ok f ->
  DecodeFixed64 (file_handle f) = fm_number f /\ DecodeFixed64 (zdrop 8 (file_handle f)) = fm_file_size f /\ zlen (file_handle f) = 16.
Proof.
  intros [Hn Hs]. unfold file_handle. rewrite DecodeFixed64_Encode by exact Hn. split; [done|].
  rewrite <- (zlen_EncodeFixed64 (fm_number f)) at 1. rewrite zdrop_app_exact, zlen_app, !zlen_EncodeFixed64. split; [|done].
  rewrite <- (app_nil_r (EncodeFixed64 (fm_file_size f))). by apply DecodeFixed64_Encode.
Qed.

(** The entries of a level in order. *)
Definition level_entries (files : list FileMetaData) : entries := concat (map (fun f => internal_entries (contents f)) files).

Lemma level_entries_index (files : list FileMetaData) : Forall nums_ok files ->
  concat (map (fun kh => handle_contents (snd kh)) (level_index files)) = level_entries files.
Proof.
  intros Hn. unfold level_entries, level_index. rewrite map_map. f_equal. apply map_ext_in. intros f Hf. cbn [snd]. unfold handle_contents.
  rewrite Forall_forall in Hn. apply list_elem_of_In in Hf. destruct (file_handle_decode f (Hn f Hf)) as (-> & -> & _). done.
Qed.

Definition level_at (files : list FileMetaData) : TwoLevelIterator LevelFileNumIterator D unit -> option nat -> Prop :=
  tl_at (level_index files) (lf_at files) handle_contents handle_at (fun _ => True).

Lemma level_separated (files : list FileMetaData) :
  Forall nums_ok files -> Forall (file_ok (C := C)) files -> files_sorted (C := C) files ->
  Forall (fun f => contents_ok (C := C) f (contents f)) files ->
  forall b k h, level_index files !! b = Some (k, h) ->
    (forall e, e ∈ handle_contents h -> @cle IC (fst e) k) /\
    (forall b' k' h' e, (b < b')%nat -> level_index files !! b' = Some (k', h') -> e ∈ handle_contents h' -> @clt IC k (fst e)).
Proof.
  intros Hn Hok Hs Hc.
  assert (forall b k h, level_index files !! b = Some (k, h) -> exists f, files !! b = Some f /\ k = fm_largest f /\
    handle_contents h = internal_entries (contents f) /\ contents_ok (C := C) f (contents f)) as Hidx.
  { intros b k h E. unfold level_index in E. rewrite list_lookup_fmap in E. destruct (files !! b) as [f|] eqn:Ef; [|done].
    change (Some (fm_largest f, file_handle f) = Some (k, h)) in E. injection E as <- <-.
    exists f. rewrite Forall_lookup in Hn, Hc. destruct (file_handle_decode f (Hn b f Ef)) as (E1 & E2 & _). unfold handle_contents. rewrite E1, E2.
    split_and!; try done. by apply (Hc b). }
  assert (forall (f : FileMetaData) e, contents_ok (C := C) f (contents f) -> e ∈ internal_entries (contents f) ->
    @cle IC (fm_smallest f) (fst e) /\ @cle IC (fst e) (fm_largest f)) as Hrange.
  { intros f e Hco He. apply list_elem_of_fmap in He as ([p w] & -> & He). by apply (co_range _ _ Hco p w). }
  intros b k h E. destruct (Hidx b k h E) as (f & Hf & -> & Hh & Hco). split.
  - intros e He. rewrite Hh in He. by apply (Hrange f).
  - intros b' k' h' e Hlt E' He. destruct (Hidx b' k' h' E') as (g & Hg & -> & Hh' & Hco'). rewrite Hh' in He.
    eapply (clt_cle_trans (C := IC)); [by apply (files_sorted_lt (C := C) files b b' f g)|]. by apply (Hrange g).
Qed.

Lemma level_sim (files : list FileMetaData) :
  Forall nums_ok files -> Forall (file_ok (C := C)) files -> files_sorted (C := C) files -> zlen files < 2 ^ 31 ->
  Forall (fun f => contents_ok (C := C) f (contents f)) files ->
  (forall f, f ∈ files -> IterSim (C := IC) (internal_entries (contents f)) (RD (fm_number f) (fm_file_size f)) /\
     exists c, RD (fm_number f) (fm_file_size f) (table_iter (fm_number f) (fm_file_size f)) c) ->
  (length files < fuel)%nat ->
  IterSim (C := IC) (H := LevelIterator_iter (C := C) table_iter error_iter fuel) (level_entries files) (level_at files) /\
  level_at files (newTwoLevelIterator (newLevelFileNumIterator files) tt) None.
Proof.
  intros Hn Hok Hs Hsz Hc Ht Hf. rewrite <- (level_entries_index files Hn).
  pose proof (LevelFileNum_sim files Hok Hs Hsz) as Hsim.
  assert (forall h, h ∈ map snd (level_index files) -> exists f, f ∈ files /\ h = file_handle f /\
    DecodeFixed64 h = fm_number f /\ DecodeFixed64 (zdrop 8 h) = fm_file_size f /\ zlen h = 16) as Hh.
  { intros h Hin. unfold level_index in Hin. rewrite map_map in Hin. apply list_elem_of_fmap in Hin as (f & -> & Hf'). exists f. cbn [snd].
    rewrite Forall_forall in Hn. destruct (file_handle_decode f (Hn f Hf')) as (E1 & E2 & E3). done. }
  split.
  - apply (two_level_sim (C := IC) (HI := LevelFileNum_iter (C := C)) (fun h u => (file_reader table_iter error_iter h, u)) fuel (level_index files) (lf_at files) Hsim handle_contents handle_at).
    + intros h Hin. destruct (Hh h Hin) as (f & Hf' & _ & E1 & E2 & _). unfold handle_contents, handle_at. rewrite E1, E2. by apply Ht.
    + intros h u Hin Hu. cbn [fst snd]. split; [done|]. destruct (Hh h Hin) as (f & Hf' & _ & E1 & E2 & E3). unfold handle_at, file_reader. rewrite E1, E2, E3. cbn. by apply Ht.
    + by apply level_separated.
    + unfold level_index. rewrite length_map. done.
  - eapply newTwoLevelIterator_at; [by apply newLevelFileNumIterator_at|done].
Qed.
End Levels.

(** ** Properties *)

(** C8. [Version::Get] finds the newest visible entry: in a version whose tables are
    as recorded, whose levels are in order and where what is searched first is
    newer, a lookup of a user key at a sequence number answers with the value of
    the entry with the largest sequence number not above it among all entries of
    that key in all files, with "deleted" when that entry is a deletion, and with
    "not found" when there is none; whatever the table cache keeps in between. *)
Theorem version_get_newest {C : Comparator} {CL : ComparatorLaws C} {T : Type} {TS : TableStore T} {TL : TableStoreLaws (C := C) T}
    (ro : ReadOptions) (v : Version) (contents : FileMetaData -> versions) (u : bytes) (s : SequenceNumber) (t : T) :
  (forall a b, ceq a b -> a = b) -> VersionOk (C := C) v contents -> seq_ok s ->
  (forall lf, in_version v lf -> ts_table t (fm_number (snd lf)) (fm_file_size (snd lf)) (contents (snd lf))) ->
  version_get_spec v contents u s (fst (fst (Version_Get (C := C) ro (newLookupKey u s) v t))).
Proof. intros Heq Hv Hs Ht. exact (Version_Get_spec Heq ro v contents u s t Hv Hs Ht). Qed.

(** *** Witness: two tables on two levels *)

(** Tables in memory. *)
#[export] Instance ListTables {C : Comparator} : TableStore (Z -> versions) := {
  ts_Get _ n _ k t := (Ok tt, table_entry <$> lookup_first (C := C) k (t n), t)
}.

#[export, refine] Instance ListTablesLaws {C : Comparator} : TableStoreLaws (C := C) (Z -> versions) := {
  ts_table t n _ P := t n = P
}.
Proof.
  intros ro n size k t P <-. exists (table_entry <$> lookup_first k (t n)), t. split_and!; [done|by right| |done]. intros p v -> _. done.
Defined.

Definition demo_tables (n : Z) : versions :=
  if n =? 7 then [(mkPIK (lit "a") 5 kTypeValue, lit "new")]
  else if n =? 3 then [(mkPIK (lit "a") 1 kTypeValue, lit "old"); (mkPIK (lit "b") 2 kTypeDeletion, [])] else [].

Definition demo_meta (size : Z -> Z) (n : Z) (lo hi : ParsedInternalKey) : FileMetaData := mkFileMetaData 100 n (size n) (encode_key lo) (encode_key hi).
Definition demo_new (size : Z -> Z) : FileMetaData := demo_meta size 7 (mkPIK (lit "a") 5 kTypeValue) (mkPIK (lit "a") 5 kTypeValue).
Definition demo_old (size : Z -> Z) : FileMetaData := demo_meta size 3 (mkPIK (lit "a") 1 kTypeValue) (mkPIK (lit "b") 2 kTypeDeletion).
Definition demo_version (size : Z -> Z) : Version := mkVersion [[demo_new size]; [demo_old size]; []; []; []; []; []] None (-1) (dbl_of_Z (-1)) (-1).

Lemma demo_in_version (size : Z -> Z) (lf : nat * FileMetaData) : in_version (demo_version size) lf -> lf = (0%nat, demo_new size) \/ lf = (1%nat, demo_old size).
Proof.
  destruct lf as [l f]. intros [_ H]. cbn [fst snd] in H. unfold files_, demo_version in H. cbn [v_files] in H.
  do 7 (destruct l as [|l]; [cbn [nth] in H; (apply list_elem_of_singleton in H as ->; auto) || by apply not_elem_of_nil in H|]).
  destruct l; by apply not_elem_of_nil in H.
Qed.

Lemma demo_version_ok (size : Z -> Z) : VersionOk (C := BytewiseComparator) (demo_version size) (fun f => demo_tables (fm_number f)).
Proof.
  split.
  - intros lf H. destruct (demo_in_version size lf H) as [->| ->]; cbn [snd].
    + split; [split; [eexists; split; [|reflexivity]; split; vm_compute; discriminate..|vm_compute; discriminate]|]. split.
      * intros p v Hin. apply list_elem_of_singleton in Hin as [= -> ->]. split; vm_compute; discriminate.
      * repeat constructor.
      * intros p v Hin. apply list_elem_of_singleton in Hin as [= -> ->]. split; vm_compute; discriminate.
      * eexists _, _. split; [by left|reflexivity].
    + split; [split; [eexists; split; [|reflexivity]; split; vm_compute; discriminate..|vm_compute; discriminate]|]. split.
      * intros p v Hin. apply elem_of_cons in Hin as [[= -> ->]|Hin]; [split; vm_compute; discriminate|].
        apply list_elem_of_singleton in Hin as [= -> ->]. split; vm_compute; discriminate.
      * repeat constructor.
      * intros p v Hin. apply elem_of_cons in Hin as [[= -> ->]|Hin]; [split; vm_compute; discriminate|].
        apply list_elem_of_singleton in Hin as [= -> ->]. split; vm_compute; discriminate.
      * eexists _, _. split; [right; by left|reflexivity].
  - intros level Hl. unfold files_, demo_version. cbn [v_files]. do 7 (destruct level as [|level]; [repeat constructor|]). destruct level; constructor.
  - intros level. unfold files_, demo_version. cbn [v_files]. do 7 (destruct level as [|level]; [reflexivity|]). destruct level; reflexivity.
  - cbn. apply NoDup_singleton.
  - intros lf lg p q v1 v2 Hf Hg Hb Hp Hq Hu. destruct (demo_in_version size lf Hf) as [->| ->], (demo_in_version size lg Hg) as [->| ->]; cbn [snd] in *.
    1, 3, 4: destruct Hb as [Hb|(_ & _ & Hb)]; cbn in Hb; lia.
    apply list_elem_of_singleton in Hp as [= -> ->]. apply elem_of_cons in Hq as [[= -> ->]|Hq]; [done|].
    apply list_elem_of_singleton in Hq as [= -> ->]. discriminate Hu.
Qed.

Lemma version_get_newest_witness :
  version_get_spec (demo_version (fun _ => 50)) (fun f => demo_tables (fm_number f)) (lit "a") 6
    (fst (fst (Version_Get (C := BytewiseComparator) (H := ListTables (C := BytewiseComparator)) (mkReadOptions true true) (newLookupKey (lit "a") 6) (demo_version (fun _ => 50)) demo_tables))) /\
  fst (fst (Version_Get (C := BytewiseComparator) (H := ListTables (C := BytewiseComparator)) (mkReadOptions true true) (newLookupKey (lit "a") 6) (demo_version (fun _ => 50)) demo_tables)) = Ok (Some (lit "new")) /\
  fst (fst (Version_Get (C := BytewiseComparator) (H := ListTables (C := BytewiseComparator)) (mkReadOptions true true) (newLookupKey (lit "a") 3) (demo_version (fun _ => 50)) demo_tables)) = Ok (Some (lit "old")).
Proof.
  split; [|split; vm_compute; reflexivity].
  apply (version_get_newest (C := BytewiseComparator) (TS := ListTables (C := BytewiseComparator)) (mkReadOptions true true) (demo_version (fun _ => 50)) (fun f => demo_tables (fm_number f)) (lit "a") 6 demo_tables).
  - intros a b H. apply string_compare_eq. exact H.
  - apply demo_version_ok.
  - split; vm_compute; discriminate.
  - intros lf _. reflexivity.
Defined.
