(* ===== verification/VersionBuilder.v ===== *)
(** * VersionBuilder: applying edits to a version ([db/version_set.cc], class
    [VersionSet::Builder])

    The builder collects per level the numbers deleted and the files added, and
    merges them with the files of the base version.  The result: the new version
    has exactly the files that applying the edits one after another to the set of
    files gives, sorted. *)

From S2P Require Import Prelude Status Coding Comparator DbFormat VersionEdit Version.
From Stdlib Require Import Sorting.Sorted.

Section Builder.
Context {C : Comparator}.

(** [BySmallestKey]. *)
Definition BySmallestKey (f1 f2 : FileMetaData) : comparison :=
  match ikc_Compare C (fm_smallest f1) (fm_smallest f2) with
  | Eq => fm_number f1 ?= fm_number f2
  | r => r
  end.

(** [FileSet::insert]: a [std::set] in the order of [BySmallestKey]. *)
Fixpoint FileSet_insert (f : FileMetaData) (l : list FileMetaData) : list FileMetaData :=
  match l with
  | [] => [f]
  | g :: l' =>
      match BySmallestKey f g with
      | Lt => f :: l
      | Eq => l
      | Gt => g :: FileSet_insert f l'
      end
  end.

Record LevelState := mkLevelState { deleted_files : gset Z; added_files : list FileMetaData }.

Record Builder := mkBuilder {
  bld_base : Version;
  bld_levels : list LevelState;
  bld_compact_pointer : list bytes
}.

(** The builder writes to [compact_pointer_] of its version set. *)
Definition newBuilder (compact_pointer : list bytes) (base : Version) : Builder :=
  mkBuilder base (replicate kNumLevels (mkLevelState ∅ [])) compact_pointer.

Definition set_levels (levels : list LevelState) (b : Builder) : Builder := mkBuilder (bld_base b) levels (bld_compact_pointer b).

Definition apply_pointer (b : Builder) (p : Z * InternalKey) : Builder :=
  mkBuilder (bld_base b) (bld_levels b) (<[Z.to_nat (fst p) := snd p]> (bld_compact_pointer b)).

Definition apply_deleted (b : Builder) (p : Z * Z) : Builder :=
  set_levels (alter (fun st => mkLevelState ({[snd p]} ∪ deleted_files st) (added_files st)) (Z.to_nat (fst p)) (bld_levels b)) b.

(** One seek costs as much as compacting 16 KB. *)
Definition with_allowed_seeks (f : FileMetaData) : FileMetaData :=
  let allowed_seeks := s32 (fm_file_size f / 16384) in
  mkFileMetaData (if allowed_seeks <? 100 then 100 else allowed_seeks) (fm_number f) (fm_file_size f) (fm_smallest f) (fm_largest f).

Definition apply_new (b : Builder) (p : Z * FileMetaData) : Builder :=
  let f := with_allowed_seeks (snd p) in
  set_levels (alter (fun st => mkLevelState (deleted_files st ∖ {[fm_number f]}) (FileSet_insert f (added_files st)))
    (Z.to_nat (fst p)) (bld_levels b)) b.

Definition Builder_Apply (b : Builder) (edit : VersionEdit) : Builder :=
  let b := fold_left apply_pointer (ve_compact_pointers edit) b in
  let b := fold_left apply_deleted (ve_deleted_files edit) b in
  fold_left apply_new (ve_new_files edit) b.

(** [std::upper_bound]: halving the range; the first element that [f] is less than. *)
Fixpoint upper_bound (fuel : nat) (f : FileMetaData) (base : list FileMetaData) (first len : nat) : nat :=
  match fuel with
  | O => first
  | S fuel =>
      match len with
      | O => first
      | S _ =>
          let half := Nat.div2 len in
          match base !! (first + half)%nat with
          | Some g =>
              match BySmallestKey f g with
              | Lt => upper_bound fuel f base first half
              | _ => upper_bound fuel f base (first + half + 1) (len - half - 1)
              end
          | None => first
          end
      end
  end.

Definition MaybeAddFile (deleted : gset Z) (files : list FileMetaData) (f : FileMetaData) : list FileMetaData :=
  if bool_decide (fm_number f ∈ deleted) then files else files ++ [f].

(** Files [from .. upto) of [base]. *)
Definition add_base (deleted : gset Z) (base : list FileMetaData) (from upto : nat) (files : list FileMetaData) : list FileMetaData :=
  fold_left (MaybeAddFile deleted) (take (upto - from) (drop from base)) files.

Definition save_added (deleted : gset Z) (base : list FileMetaData) (s : nat * list FileMetaData) (added_file : FileMetaData)
  : nat * list FileMetaData :=
  let '(base_iter, files) := s in
  let bpos := upper_bound (S (length base)) added_file base base_iter (length base - base_iter) in
  (bpos, MaybeAddFile deleted (add_base deleted base base_iter bpos files) added_file).

Definition save_level (st : LevelState) (base : list FileMetaData) : list FileMetaData :=
  let '(base_iter, files) := fold_left (save_added (deleted_files st) base) (added_files st) (0%nat, []) in
  add_base (deleted_files st) base base_iter (length base) files.

Definition SaveTo (b : Builder) : Version :=
  mkVersion (imap (fun level st => save_level st (files_ (bld_base b) level)) (bld_levels b)) None (-1) (dbl_of_Z (-1)) (-1).

End Builder.

(** ** Merging the sorted files *)

Section SaveLevel.
Context {C : Comparator} {CL : ComparatorLaws C}.

Definition smaller (f g : FileMetaData) : Prop := BySmallestKey (C := C) f g = Lt.

Lemma BySmallestKey_antisym (f g : FileMetaData) : BySmallestKey (C := C) f g = CompOpp (BySmallestKey g f).
Proof.
  unfold BySmallestKey. pose proof (cmp_antisym (C := InternalKeyComparator C) (fm_smallest g) (fm_smallest f)) as E. cbn in E. rewrite E.
  destruct (ikc_Compare C (fm_smallest g) (fm_smallest f)); cbn; [|done..]. apply Z.compare_antisym.
Qed.

Lemma smaller_trans (f g h : FileMetaData) : smaller f g -> smaller g h -> smaller f h.
Proof.
  unfold smaller, BySmallestKey. intros Hfg Hgh.
  destruct (ikc_Compare C (fm_smallest f) (fm_smallest g)) eqn:E1; [| |done]; destruct (ikc_Compare C (fm_smallest g) (fm_smallest h)) eqn:E2; try done.
  - assert (ikc_Compare C (fm_smallest f) (fm_smallest h) = Eq) as ->.
    { exact (ceq_trans (C := InternalKeyComparator C) _ _ _ E1 E2). }
    rewrite Z.compare_lt_iff in *. lia.
  - assert (ikc_Compare C (fm_smallest f) (fm_smallest h) = Lt) as ->; [|done].
    apply (cle_clt_trans (C := InternalKeyComparator C) _ (fm_smallest g)); [by apply (ceq_cle (C := InternalKeyComparator C))|exact E2].
  - assert (ikc_Compare C (fm_smallest f) (fm_smallest h) = Lt) as ->; [|done].
    apply (clt_cle_trans (C := InternalKeyComparator C) _ (fm_smallest g)); [exact E1|by apply (ceq_cle (C := InternalKeyComparator C))].
  - assert (ikc_Compare C (fm_smallest f) (fm_smallest h) = Lt) as ->; [|done].
    exact (clt_trans (C := InternalKeyComparator C) _ _ _ E1 E2).
Qed.

Lemma smaller_irrefl (f : FileMetaData) : ~ smaller f f.
Proof. unfold smaller, BySmallestKey. pose proof (cmp_refl (C := InternalKeyComparator C) (fm_smallest f)) as E. cbn in E. rewrite E, Z.compare_refl. done. Qed.

Abbreviation sorted := (StronglySorted smaller).

Lemma FileSet_insert_elem (f g : FileMetaData) (l : list FileMetaData) :
  (forall x, x ∈ l -> BySmallestKey (C := C) f x <> Eq) -> g ∈ FileSet_insert (C := C) f l <-> g = f \/ g ∈ l.
Proof.
  induction l as [|x l IH]; intros Hn; cbn.
  - rewrite list_elem_of_singleton. split; [by left|]. intros [|H]; [done|by apply not_elem_of_nil in H].
  - pose proof (Hn x ltac:(by left)) as Hx. destruct (BySmallestKey f x); [done|by rewrite elem_of_cons|].
    rewrite !elem_of_cons, IH; [tauto|]. intros y Hy. apply Hn. by right.
Qed.

Lemma FileSet_insert_sorted (f : FileMetaData) (l : list FileMetaData) : sorted l -> sorted (FileSet_insert (C := C) f l).
Proof.
  induction 1 as [|x l Hl IH Hx]; cbn; [constructor; constructor|].
  destruct (BySmallestKey f x) eqn:E; [by constructor| |].
  - constructor; [by constructor|]. constructor; [done|]. eapply List.Forall_impl; [|exact Hx]. intros y Hy. by eapply smaller_trans.
  - constructor; [done|]. apply List.Forall_forall. intros y Hy.
    assert (y = f \/ y ∈ l) as [->|Hy'].
    { clear -Hy. induction l as [|z l IHl]; cbn in Hy; [destruct Hy as [->|[]]; by left|].
      destruct (BySmallestKey f z); [right; by apply list_elem_of_In| |].
      - destruct Hy as [->|Hy]; [by left|right; by apply list_elem_of_In].
      - destruct Hy as [->|Hy]; [right; by left|]. destruct (IHl Hy); [by left|right; by right]. }
    + unfold smaller. rewrite BySmallestKey_antisym, E. done.
    + rewrite List.Forall_forall in Hx. by apply Hx, list_elem_of_In.
Qed.

(** *** [std::upper_bound] on a sorted range *)

Lemma sorted_lookup (l : list FileMetaData) (i j : nat) (f g : FileMetaData) :
  sorted l -> (i < j)%nat -> l !! i = Some f -> l !! j = Some g -> smaller f g.
Proof.
  intros Hs. revert i j. induction Hs as [|x l Hs IH Hx]; intros i j Hij Hi Hj; [done|].
  destruct j as [|j]; [lia|]. destruct i as [|i]; simplify_eq/=.
  - rewrite List.Forall_forall in Hx. apply Hx, list_elem_of_In. by apply list_elem_of_lookup_2 in Hj.
  - apply (IH i j); [lia|done..].
Qed.

Lemma upper_bound_spec (f : FileMetaData) (base : list FileMetaData) (fuel first len : nat) :
  sorted base -> (first + len <= length base)%nat -> (len < fuel)%nat ->
  (forall g, base !! (first + len)%nat = Some g -> smaller f g) ->
  let n := upper_bound (C := C) fuel f base first len in
  (first <= n <= first + len)%nat /\
  (forall i g, (first <= i < n)%nat -> base !! i = Some g -> ~ smaller f g) /\
  (forall g, base !! n = Some g -> smaller f g).
Proof.
  intros Hs. revert first len. induction fuel as [|fuel IH]; intros first len Hle Hf Hend; [lia|]. cbv zeta. cbn [upper_bound].
  destruct len as [|len'] eqn:El; [split_and!; [lia|lia|lia|rewrite Nat.add_0_r in Hend; done]|].
  set (half := Nat.div2 (S len')). assert (half < S len')%nat as Hh by (apply Nat.lt_div2; lia).
  destruct (lookup_lt_is_Some_2 base (first + half)%nat) as [g Hg]; [lia|]. rewrite Hg.
  assert (BySmallestKey f g <> Lt -> forall i x, (i <= first + half)%nat -> base !! i = Some x -> ~ smaller f x) as Hlow.
  { intros Hn i x Hi Hx Hlt. apply Hn. destruct (decide (i = (first + half)%nat)) as [->|]; [congruence|].
    eapply smaller_trans; [exact Hlt|]. eapply sorted_lookup; [done| |done|done]. lia. }
  destruct (BySmallestKey f g) eqn:E.
  2: { destruct (IH first half) as (H1 & H2 & H3); [lia|lia|intros x Hx; rewrite Hg in Hx; by injection Hx as <-|]. split_and!; [lia|lia|done|done]. }
  all: destruct (IH (first + half + 1)%nat (S len' - half - 1)%nat) as (H1 & H2 & H3);
    [lia|lia|replace (first + half + 1 + (S len' - half - 1))%nat with (first + S len')%nat by lia; exact Hend|].
  all: split_and!; [lia|lia| |exact H3].
  all: intros i x Hi Hx; destruct (decide (i <= first + half)%nat); [by apply (Hlow ltac:(done) i)|apply (H2 i x); [lia|done]].
Qed.

(** *** The merge *)

Definition kept (deleted : gset Z) (f : FileMetaData) : Prop := fm_number f ∉ deleted.

Lemma fold_MaybeAdd (deleted : gset Z) (l files : list FileMetaData) :
  fold_left (MaybeAddFile deleted) l files = files ++ filter (kept deleted) l.
Proof.
  revert files. induction l as [|f l IH]; intros files; cbn [fold_left]; [by rewrite app_nil_r|]. rewrite IH. unfold MaybeAddFile.
  unfold kept. rewrite filter_cons. case_bool_decide as E; case_decide as E'; try done. by rewrite <- app_assoc.
Qed.

Lemma sorted_app (l k : list FileMetaData) : sorted l -> sorted k -> (forall x y, x ∈ l -> y ∈ k -> smaller x y) -> sorted (l ++ k).
Proof.
  induction 1 as [|x l Hl IH Hx]; intros Hk Hlk; [done|]. cbn. constructor.
  - apply IH; [done|]. intros a b Ha. apply Hlk. by right.
  - apply List.Forall_app. split; [done|]. apply List.Forall_forall. intros y Hy. apply Hlk; [by left|by apply list_elem_of_In].
Qed.

Lemma sorted_app_inv (l k : list FileMetaData) : sorted (l ++ k) -> sorted l /\ sorted k /\ forall x y, x ∈ l -> y ∈ k -> smaller x y.
Proof.
  induction l as [|a l IH]; cbn; intros Hs; [split_and!; [constructor|done|]; intros x y Hx; by apply not_elem_of_nil in Hx|].
  apply StronglySorted_inv in Hs as [Hs Ha]. destruct (IH Hs) as (H1 & H2 & H3). apply List.Forall_app in Ha as [Ha1 Ha2]. split_and!.
  - by constructor.
  - done.
  - intros x y [->|Hx]%elem_of_cons Hy; [rewrite List.Forall_forall in Ha2; by apply Ha2, list_elem_of_In|by apply H3].
Qed.

Lemma sorted_filter (P : FileMetaData -> Prop) `{forall x, Decision (P x)} (l : list FileMetaData) : sorted l -> sorted (filter P l).
Proof.
  induction 1 as [|x l Hl IH Hx]; [constructor|]. rewrite filter_cons. case_decide; [|done]. constructor; [done|].
  apply List.Forall_forall. intros y Hy. apply list_elem_of_In, list_elem_of_filter in Hy as [_ Hy].
  rewrite List.Forall_forall in Hx. by apply Hx, list_elem_of_In.
Qed.

(** After the added files [done_], with the base files from [pos] on and the added
    files [rest] to come. *)
Record merged (deleted : gset Z) (base done_ rest : list FileMetaData) (pos : nat) (files : list FileMetaData) : Prop := {
  mg_pos : (pos <= length base)%nat;
  mg_perm : files ≡ₚ filter (kept deleted) (take pos base ++ done_);
  mg_sorted : sorted files;
  mg_before : forall x y, x ∈ files -> y ∈ drop pos base ++ rest -> smaller x y
}.

Lemma smaller_not_eq (f g : FileMetaData) : ~ smaller f g -> BySmallestKey (C := C) f g <> Eq -> smaller g f.
Proof. unfold smaller. rewrite (BySmallestKey_antisym g f). by destruct (BySmallestKey f g). Qed.

Lemma save_added_spec (deleted : gset Z) (base done_ rest files : list FileMetaData) (pos : nat) (a : FileMetaData) :
  sorted base -> sorted (a :: rest) -> (forall g, g ∈ base -> BySmallestKey (C := C) a g <> Eq) ->
  merged deleted base done_ (a :: rest) pos files ->
  let '(pos', files') := save_added (C := C) deleted base (pos, files) a in merged deleted base (done_ ++ [a]) rest pos' files'.
Proof.
  intros Hb Ha Hne [Hpos Hperm Hsort Hbef]. unfold save_added. cbv zeta.
  destruct (upper_bound_spec a base (S (length base)) pos (length base - pos) Hb) as (Hn & Hlow & Hhigh);
    [lia|lia|intros g Hg; apply lookup_lt_Some in Hg; lia|].
  set (n := upper_bound _ _ _ _ _) in *. unfold add_base. rewrite fold_MaybeAdd.
  set (seg := take (n - pos) (drop pos base)).
  assert (drop pos base = seg ++ drop n base) as Hdrop.
  { unfold seg. rewrite <- (take_drop (n - pos) (drop pos base)) at 1. rewrite drop_drop. do 2 f_equal. lia. }
  assert (take n base = take pos base ++ seg) as Htake.
  { unfold seg. replace n with (pos + (n - pos))%nat at 1 by lia. symmetry. apply take_take_drop. }
  assert (sorted seg /\ sorted (drop n base) /\ forall x y, x ∈ seg -> y ∈ drop n base -> smaller x y) as (Hss & Hsd & Hsb).
  { apply sorted_app_inv. rewrite <- Hdrop. rewrite <- (take_drop pos base) in Hb. by apply sorted_app_inv in Hb as (_ & ? & _). }
  assert (forall g, g ∈ seg -> smaller g a) as Hsega.
  { intros g Hg. apply list_elem_of_lookup in Hg as [i Hi]. unfold seg in Hi. apply lookup_take_Some in Hi as [Hi Hlt]. rewrite lookup_drop in Hi.
    apply smaller_not_eq; [apply (Hlow (pos + i)%nat); [lia|done]|apply Hne; by apply list_elem_of_lookup_2 in Hi]. }
  assert (forall g, g ∈ drop n base -> smaller a g) as Hafter.
  { intros g Hg. apply list_elem_of_lookup in Hg as [i Hi]. rewrite lookup_drop in Hi.
    destruct (decide (i = 0%nat)) as [->|]; [rewrite Nat.add_0_r in Hi; by apply Hhigh|].
    destruct (lookup_lt_is_Some_2 base n) as [g0 Hg0]; [apply lookup_lt_Some in Hi; lia|].
    apply (smaller_trans _ g0); [by apply Hhigh|]. apply (sorted_lookup base n (n + i)%nat); [done|lia|done|done]. }
  apply StronglySorted_inv in Ha as [Har Haf]. rewrite List.Forall_forall in Haf.
  assert (forall x y, x ∈ files ++ filter (kept deleted) seg -> y ∈ a :: drop n base ++ rest -> smaller x y) as Hlt.
  { intros x y Hx Hy. apply elem_of_app in Hx as [Hx|Hx].
    - apply Hbef; [done|]. rewrite Hdrop, !elem_of_app, elem_of_cons. rewrite elem_of_cons, elem_of_app in Hy. tauto.
    - apply list_elem_of_filter in Hx as [_ Hx]. apply elem_of_cons in Hy as [->|[Hy|Hy]%elem_of_app]; [by apply Hsega|by apply Hsb|].
      eapply smaller_trans; [by apply Hsega|]. by apply Haf, list_elem_of_In. }
  assert (sorted (files ++ filter (kept deleted) seg)) as Hs1.
  { apply sorted_app; [done|by apply sorted_filter|]. intros x y Hx Hy. apply list_elem_of_filter in Hy as [_ Hy].
    apply Hbef; [done|]. rewrite Hdrop, !elem_of_app. tauto. }
  assert (MaybeAddFile deleted (files ++ filter (kept deleted) seg) a = files ++ filter (kept deleted) seg ++ filter (kept deleted) [a]) as ->.
  { unfold MaybeAddFile, kept at 3. rewrite filter_cons, filter_nil. case_bool_decide; case_decide; try done; [by rewrite app_nil_r|by rewrite <- app_assoc]. }
  rewrite app_assoc. split.
  - lia.
  - rewrite Hperm, Htake, !filter_app. rewrite <- !app_assoc. apply Permutation_app_head. rewrite !app_assoc.
    apply Permutation_app_tail, Permutation_app_comm.
  - apply sorted_app; [done|apply sorted_filter; constructor; constructor|]. intros x y Hx Hy. apply list_elem_of_filter in Hy as [_ Hy%list_elem_of_singleton]. subst y.
    apply Hlt; [done|by left].
  - intros x y [Hx|Hx]%elem_of_app Hy; [apply Hlt; [done|by right]|]. apply list_elem_of_filter in Hx as [_ Hx%list_elem_of_singleton]. subst x.
    apply elem_of_app in Hy as [Hy|Hy]; [by apply Hafter|]. by apply Haf, list_elem_of_In.
Qed.

Lemma save_level_spec (st : LevelState) (base : list FileMetaData) :
  sorted base -> sorted (added_files st) -> (forall a g, a ∈ added_files st -> g ∈ base -> BySmallestKey (C := C) a g <> Eq) ->
  save_level (C := C) st base ≡ₚ filter (kept (deleted_files st)) (base ++ added_files st) /\ sorted (save_level (C := C) st base).
Proof.
  intros Hb Ha Hne. unfold save_level.
  assert (forall done_ rest pos files, sorted rest -> (forall a g, a ∈ rest -> g ∈ base -> BySmallestKey (C := C) a g <> Eq) ->
    merged (deleted_files st) base done_ rest pos files ->
    let '(pos', files') := fold_left (save_added (deleted_files st) base) rest (pos, files) in
    merged (deleted_files st) base (done_ ++ rest) [] pos' files') as Hloop.
  { intros done_ rest. revert done_. induction rest as [|a rest IH]; intros done_ pos files Hr Hnr Hm; cbn [fold_left]; [by rewrite app_nil_r|].
    pose proof (save_added_spec _ base done_ rest files pos a Hb Hr (fun g => Hnr a g ltac:(by left)) Hm) as Hstep.
    destruct (save_added (deleted_files st) base (pos, files) a) as [pos' files'].
    apply StronglySorted_inv in Hr as [Hr _]. replace (done_ ++ a :: rest) with ((done_ ++ [a]) ++ rest) by (by rewrite <- app_assoc).
    apply IH; [done| |done]. intros x g Hx. apply Hnr. by right. }
  specialize (Hloop [] (added_files st) 0%nat [] Ha Hne). destruct (fold_left _ _ _) as [pos files].
  destruct Hloop as [Hpos Hperm Hsort Hbef]; [split; [lia|done|constructor|]; intros x y Hx; by apply not_elem_of_nil in Hx|].
  unfold add_base. rewrite fold_MaybeAdd. rewrite take_ge by (rewrite length_drop; lia). cbn [app] in Hperm. split.
  - rewrite Hperm. rewrite <- (take_drop pos base) at 3. rewrite !filter_app, <- !app_assoc. apply Permutation_app_head, Permutation_app_comm.
  - apply sorted_app; [done| |].
    + apply sorted_filter. rewrite <- (take_drop pos base) in Hb. by apply sorted_app_inv in Hb as (_ & ? & _).
    + intros x y Hx Hy. apply list_elem_of_filter in Hy as [_ Hy]. apply Hbef; [done|]. apply elem_of_app. by left.
Qed.
End SaveLevel.

(** ** The set of files and its edits *)

Abbreviation file_map := (gmap (nat * Z) FileMetaData).

(** What an edit means: its deletions, then its additions. *)
Definition del_file (M : file_map) (p : Z * Z) : file_map := delete (Z.to_nat (fst p), snd p) M.
Definition add_file (M : file_map) (p : Z * FileMetaData) : file_map :=
  <[(Z.to_nat (fst p), fm_number (snd p)) := with_allowed_seeks (snd p)]> M.
Definition apply_edit (M : file_map) (e : VersionEdit) : file_map :=
  fold_left add_file (ve_new_files e) (fold_left del_file (ve_deleted_files e) M).

Definition new_id (p : Z * FileMetaData) : nat * Z := (Z.to_nat (fst p), fm_number (snd p)).
Definition new_ids (es : list VersionEdit) : list (nat * Z) := concat (map (fun e => map new_id (ve_new_files e)) es).

Definition set_pointer (cp : list bytes) (p : Z * InternalKey) : list bytes := <[Z.to_nat (fst p) := snd p]> cp.

Definition edit_levels_ok (e : VersionEdit) : Prop :=
  (forall p, p ∈ ve_deleted_files e -> level_ok (fst p)) /\ (forall p, p ∈ ve_new_files e -> level_ok (fst p)).

Section Refine.
Context {C : Comparator} {CL : ComparatorLaws C}.

(** The version [v] has the files [M], each level sorted. *)
Record version_rep (v : Version) (M : file_map) : Prop := {
  vr_length : length (v_files v) = kNumLevels;
  vr_sorted : forall level, StronglySorted (smaller (C := C)) (files_ v level);
  vr_files : forall level f, f ∈ files_ v level <-> M !! (level, fm_number f) = Some f;
  vr_number : forall level n f, M !! (level, n) = Some f -> fm_number f = n /\ (level < kNumLevels)%nat
}.

Definition state_at (b : Builder) (level : nat) : LevelState := nth level (bld_levels b) (mkLevelState ∅ []).

(** The builder [b] over [base] stands for the files [M]; [ids] were added so far. *)
Record builder_rep (base : Version) (M0 : file_map) (ids : list (nat * Z)) (b : Builder) (M : file_map) : Prop := {
  br_base : bld_base b = base;
  br_length : length (bld_levels b) = kNumLevels;
  br_sorted : forall level, StronglySorted (smaller (C := C)) (added_files (state_at b level));
  br_fresh : forall level f, f ∈ added_files (state_at b level) -> M0 !! (level, fm_number f) = None /\ (level, fm_number f) ∈ ids;
  br_files : forall level f, M !! (level, fm_number f) = Some f <->
    fm_number f ∉ deleted_files (state_at b level) /\ (f ∈ files_ base level \/ f ∈ added_files (state_at b level));
  br_number : forall level n f, M !! (level, n) = Some f -> fm_number f = n /\ (level < kNumLevels)%nat
}.

Lemma state_at_alter (b : Builder) (g : LevelState -> LevelState) (i level : nat) :
  (i < length (bld_levels b))%nat ->
  state_at (set_levels (alter g i (bld_levels b)) b) level = if decide (level = i) then g (state_at b i) else state_at b level.
Proof.
  intros Hi. unfold state_at. cbn [set_levels bld_levels]. case_decide as E.
  - subst level. destruct (lookup_lt_is_Some_2 _ _ Hi) as [st Hst]. rewrite (nth_lookup_Some (bld_levels b) i _ st Hst).
    apply nth_lookup_Some. rewrite list_lookup_alter, decide_True by done. by rewrite Hst.
  - rewrite !nth_lookup. rewrite list_lookup_alter, decide_False by done. done.
Qed.

Lemma deleted_step (base : Version) (M0 : file_map) ids b M (p : Z * Z) :
  level_ok (fst p) -> builder_rep base M0 ids b M -> builder_rep base M0 ids (apply_deleted b p) (del_file M p).
Proof.
  intros Hl [B1 B2 B3 B4 B5 B6]. assert (Z.to_nat (fst p) < length (bld_levels b))%nat as Hlt by (rewrite B2; unfold level_ok, kNumLevels in *; lia).
  unfold apply_deleted, del_file. set (i := Z.to_nat (fst p)) in *.
  assert (forall level, state_at (set_levels (alter (fun st => mkLevelState ({[snd p]} ∪ deleted_files st) (added_files st)) i (bld_levels b)) b) level =
    if decide (level = i) then mkLevelState ({[snd p]} ∪ deleted_files (state_at b i)) (added_files (state_at b i)) else state_at b level) as Hst.
  { intros level. by rewrite state_at_alter. }
  split.
  - exact B1.
  - cbn [set_levels bld_levels]. by rewrite length_alter.
  - intros level. rewrite Hst. case_decide; [apply B3|apply B3].
  - intros level f. rewrite Hst. case_decide as E; [subst level; apply B4|apply B4].
  - intros level f. rewrite Hst. destruct (decide ((i, snd p) = (level, fm_number f))) as [E|E].
    + rewrite E, lookup_delete_eq. split; [done|]. intros [Hn _]. injection E as <- E'. rewrite decide_True in Hn by done. cbn in Hn. set_solver.
    + rewrite lookup_delete_ne, B5 by done. case_decide as El; [|done]. subst level. cbn. rewrite not_elem_of_union, not_elem_of_singleton.
      split; [intros [H1 H2]; split_and!; try done; congruence|]. intros [[_ H1] H2]. done.
  - intros level n f. rewrite lookup_delete_Some. intros [_ H]. by apply B6.
Qed.

Lemma new_step (base : Version) (M0 : file_map) ids b M (p : Z * FileMetaData) :
  version_rep base M0 -> level_ok (fst p) -> new_id p ∉ ids -> M0 !! new_id p = None ->
  builder_rep base M0 ids b M -> builder_rep base M0 (new_id p :: ids) (apply_new (C := C) b p) (add_file M p).
Proof.
  intros Hbase Hl Hid HM0 [B1 B2 B3 B4 B5 B6].
  assert (Z.to_nat (fst p) < length (bld_levels b))%nat as Hlt by (rewrite B2; unfold level_ok, kNumLevels in *; lia).
  unfold apply_new, add_file. cbv zeta. set (i := Z.to_nat (fst p)) in *. set (f0 := with_allowed_seeks (snd p)).
  assert (fm_number f0 = fm_number (snd p)) as En by done. unfold new_id in Hid, HM0. fold i in Hid, HM0. rewrite <- En in *.
  assert (forall level, state_at (set_levels (alter (fun st => mkLevelState (deleted_files st ∖ {[fm_number f0]}) (FileSet_insert (C := C) f0 (added_files st))) i (bld_levels b)) b) level =
    if decide (level = i) then mkLevelState (deleted_files (state_at b i) ∖ {[fm_number f0]}) (FileSet_insert (C := C) f0 (added_files (state_at b i))) else state_at b level) as Hst.
  { intros level. by rewrite state_at_alter. }
  assert (forall g, g ∈ added_files (state_at b i) -> fm_number g <> fm_number f0) as Hfresh.
  { intros g Hg E. apply Hid. rewrite <- E. by apply B4. }
  assert (forall g, g ∈ files_ base i -> fm_number g <> fm_number f0) as Hfresh0.
  { intros g Hg E. apply (vr_files _ _ Hbase) in Hg. rewrite E in Hg. congruence. }
  assert (forall g, g ∈ FileSet_insert (C := C) f0 (added_files (state_at b i)) <-> g = f0 \/ g ∈ added_files (state_at b i)) as Hins.
  { intros g. apply FileSet_insert_elem. intros x Hx E. apply (Hfresh x Hx). unfold BySmallestKey in E.
    destruct (ikc_Compare _ _ _); try done. apply Z.compare_eq_iff in E. done. }
  split.
  - exact B1.
  - cbn [set_levels bld_levels]. by rewrite length_alter.
  - intros level. rewrite Hst. case_decide; [apply FileSet_insert_sorted, B3|apply B3].
  - intros level f. rewrite Hst. case_decide as E.
    + subst level. cbn. rewrite Hins. intros [->|Hf]; [split; [done|by left]|]. destruct (B4 i f Hf). split; [done|by right].
    + intros Hf. destruct (B4 level f Hf). split; [done|by right].
  - intros level f. rewrite Hst. destruct (decide ((i, fm_number f0) = (level, fm_number f))) as [E|E].
    + rewrite E, lookup_insert_eq. injection E as <- E'. rewrite decide_True by done. cbn. rewrite Hins. split.
      * intros [= <-]. split; [set_solver|]. right. by left.
      * intros [_ [Hf|[->|Hf]]]; [by apply Hfresh0 in Hf|done|by apply Hfresh in Hf].
    + rewrite lookup_insert_ne, B5 by done. case_decide as El; [|done]. subst level. cbn. rewrite Hins, not_elem_of_difference, elem_of_singleton.
      assert (fm_number f <> fm_number f0) by congruence. assert (f <> f0) by congruence. naive_solver.
  - intros level n f. destruct (decide ((i, fm_number f0) = (level, n))) as [E|E].
    + rewrite E, lookup_insert_eq. intros [= <-]. injection E as <- <-. split; [done|]. rewrite <- B2. done.
    + rewrite lookup_insert_ne by done. apply B6.
Qed.

Lemma pointers_rep (base : Version) (M0 : file_map) ids b M (ps : list (Z * InternalKey)) :
  builder_rep base M0 ids b M -> builder_rep base M0 ids (fold_left apply_pointer ps b) M.
Proof. revert b. induction ps as [|p ps IH]; intros b Hb; [done|]. cbn. apply IH. destruct Hb. split; done. Qed.

Lemma Apply_rep (base : Version) (M0 : file_map) ids b M (e : VersionEdit) :
  version_rep base M0 -> edit_levels_ok e -> NoDup (map new_id (ve_new_files e)) ->
  (forall i, i ∈ map new_id (ve_new_files e) -> i ∉ ids /\ M0 !! i = None) ->
  builder_rep base M0 ids b M ->
  exists ids', (forall i, i ∈ ids' <-> i ∈ map new_id (ve_new_files e) \/ i ∈ ids) /\
    builder_rep base M0 ids' (Builder_Apply (C := C) b e) (apply_edit M e).
Proof.
  intros Hbase [Hd Hn] Hnd Hfr Hb. unfold Builder_Apply, apply_edit. apply (pointers_rep _ _ _ _ _ (ve_compact_pointers e)) in Hb.
  set (b1 := fold_left apply_pointer _ b) in *. clearbody b1.
  assert (builder_rep base M0 ids (fold_left apply_deleted (ve_deleted_files e) b1) (fold_left del_file (ve_deleted_files e) M)) as Hb2.
  { clear Hn Hnd Hfr. revert b1 M Hb. induction (ve_deleted_files e) as [|p ps IH]; intros b1 M Hb; [done|]. cbn. apply IH.
    - intros q Hq. apply Hd. by right.
    - apply deleted_step; [apply Hd; by left|done]. }
  set (b2 := fold_left apply_deleted _ b1) in *. set (M2 := fold_left del_file _ M) in *. clearbody b2 M2. clear Hb Hd.
  revert ids b2 M2 Hfr Hb2. induction (ve_new_files e) as [|p ps IH]; intros ids b2 M2 Hfr Hb2.
  - exists ids. split; [|done]. intros i. cbn. split; [by right|]. intros [H|H]; [by apply not_elem_of_nil in H|done].
  - cbn in Hnd. apply NoDup_cons in Hnd as [Hp Hnd]. cbn [fold_left].
    destruct (IH (fun q Hq => Hn q ltac:(by right)) Hnd (new_id p :: ids) (apply_new b2 p) (add_file M2 p)) as (ids' & Hids & Hb').
    + intros i Hi. destruct (Hfr i ltac:(by right)) as [H1 H2]. split; [|done]. apply not_elem_of_cons. split; [by intros ->|done].
    + destruct (Hfr (new_id p) ltac:(by left)). apply new_step; try done. apply Hn. by left.
    + exists ids'. split; [|done]. intros i. rewrite Hids. cbn. rewrite !elem_of_cons. tauto.
Qed.

Lemma newBuilder_rep (cp : list bytes) (base : Version) (M0 : file_map) : version_rep base M0 -> builder_rep base M0 [] (newBuilder cp base) M0.
Proof.
  intros Hb. assert (forall level, state_at (newBuilder cp base) level = mkLevelState ∅ []) as Hst.
  { intros level. unfold state_at, newBuilder. cbn [bld_levels]. rewrite nth_lookup. destruct (replicate _ _ !! level) eqn:E; [|done].
    by apply lookup_replicate in E as [-> _]. }
  split; try done.
  - intros level. rewrite Hst. constructor.
  - intros level f. rewrite Hst. by intros ?%not_elem_of_nil.
  - intros level f. rewrite Hst. rewrite <- (vr_files _ _ Hb). cbn. split; [intros Hf; split; [set_solver|by left]|].
    intros [_ [?|Hf]]; [done|by apply not_elem_of_nil in Hf].
  - apply Hb.
Qed.

Lemma SaveTo_rep (base : Version) (M0 : file_map) ids b M :
  version_rep base M0 -> builder_rep base M0 ids b M -> version_rep (SaveTo (C := C) b) M.
Proof.
  intros Hbase [B1 B2 B3 B4 B5 B6].
  assert (forall level, files_ (SaveTo (C := C) b) level = if decide (level < kNumLevels)%nat then save_level (C := C) (state_at b level) (files_ base level) else []) as Hf.
  { intros level. unfold files_ at 1. unfold SaveTo. cbn [v_files]. rewrite nth_lookup, list_lookup_imap. unfold state_at. rewrite nth_lookup.
    case_decide as E.
    - destruct (lookup_lt_is_Some_2 (bld_levels b) level) as [st Hst]; [lia|]. rewrite Hst, B1. done.
    - rewrite lookup_ge_None_2 by lia. done. }
  assert (forall level, (level < kNumLevels)%nat -> save_level (C := C) (state_at b level) (files_ base level) ≡ₚ
      filter (kept (deleted_files (state_at b level))) (files_ base level ++ added_files (state_at b level)) /\
      StronglySorted (smaller (C := C)) (save_level (C := C) (state_at b level) (files_ base level))) as Hs.
  { intros level _. apply save_level_spec; [apply Hbase|apply B3|]. intros a g Ha Hg E. unfold BySmallestKey in E.
    destruct (ikc_Compare _ _ _); try done. apply Z.compare_eq_iff in E. destruct (B4 level a Ha) as [Hn _]. apply (vr_files _ _ Hbase) in Hg.
    rewrite E in Hn. congruence. }
  split.
  - unfold SaveTo. cbn [v_files]. by rewrite length_imap.
  - intros level. rewrite Hf. case_decide; [by apply Hs|constructor].
  - intros level f. rewrite Hf. case_decide as E.
    + rewrite (proj1 (Hs level E)), list_elem_of_filter, elem_of_app, B5. unfold kept. done.
    + split; [by intros ?%not_elem_of_nil|]. intros H. by apply B6 in H as [_ ?].
  - exact B6.
Qed.

(** Several edits. *)
Lemma Apply_all_rep (base : Version) (M0 : file_map) (es : list VersionEdit) ids b M :
  version_rep base M0 -> Forall edit_levels_ok es -> NoDup (new_ids es) ->
  (forall i, i ∈ new_ids es -> i ∉ ids /\ M0 !! i = None) -> builder_rep base M0 ids b M ->
  exists ids', builder_rep base M0 ids' (fold_left (Builder_Apply (C := C)) es b) (fold_left apply_edit es M).
Proof.
  intros Hbase Hl. revert ids b M. induction Hl as [|e es He Hl IH]; intros ids b M Hnd Hfr Hb; [by exists ids|].
  unfold new_ids in Hnd, Hfr. cbn [map concat] in Hnd, Hfr. fold (new_ids es) in Hnd, Hfr. apply NoDup_app in Hnd as (Hnd1 & Hdj & Hnd2).
  destruct (Apply_rep base M0 ids b M e Hbase He Hnd1) as (ids' & Hids & Hb'); [|done|].
  { intros i Hi. apply Hfr, elem_of_app. by left. }
  cbn [fold_left]. apply (IH ids'); [done| |done]. intros i Hi. destruct (Hfr i) as [H1 H2]; [apply elem_of_app; by right|].
  split; [|done]. rewrite Hids. intros [H|H]; [by apply (Hdj i)|done].
Qed.

Lemma pointers_of_edits (es : list VersionEdit) (b : Builder) :
  bld_compact_pointer (fold_left (Builder_Apply (C := C)) es b) =
  fold_left (fun cp e => fold_left set_pointer (ve_compact_pointers e) cp) es (bld_compact_pointer b).
Proof.
  revert b. induction es as [|e es IH]; intros b; [done|]. cbn [fold_left]. rewrite IH. f_equal. unfold Builder_Apply.
  assert (forall ps b, bld_compact_pointer (fold_left (apply_new (C := C)) ps b) = bld_compact_pointer b) as H1.
  { intros ps. induction ps as [|p ps IHp]; intros b0; [done|]. cbn [fold_left]. by rewrite IHp. }
  assert (forall ps b, bld_compact_pointer (fold_left apply_deleted ps b) = bld_compact_pointer b) as H2.
  { intros ps. induction ps as [|p ps IHp]; intros b0; [done|]. cbn [fold_left]. by rewrite IHp. }
  rewrite H1, H2. clear. revert b. induction (ve_compact_pointers e) as [|p ps IHp]; intros b; [done|]. cbn [fold_left]. by rewrite IHp.
Qed.
(** *** Disjoint files are in order *)

Definition disjoint_files (fs : list FileMetaData) : Prop :=
  forall f g, f ∈ fs -> g ∈ fs -> f <> g ->
    @clt (InternalKeyComparator C) (fm_largest f) (fm_smallest g) \/ @clt (InternalKeyComparator C) (fm_largest g) (fm_smallest f).

Lemma smaller_cle (f g : FileMetaData) : smaller (C := C) f g -> @cle (InternalKeyComparator C) (fm_smallest f) (fm_smallest g).
Proof. unfold smaller, BySmallestKey, cle. intros Hs Hc. cbn in Hc. rewrite Hc in Hs. done. Qed.

Lemma disjoint_sorted (fs : list FileMetaData) :
  StronglySorted (smaller (C := C)) fs -> (forall f, f ∈ fs -> @cle (InternalKeyComparator C) (fm_smallest f) (fm_largest f)) -> disjoint_files fs ->
  files_sorted (C := C) fs.
Proof.
  induction 1 as [|f fs Hs IH Hf]; intros Hr Hd; [constructor|]. rewrite List.Forall_forall in Hf. constructor.
  - apply IH; [intros g Hg; apply Hr; by right|]. intros a b Ha Hb. apply Hd; by right.
  - apply List.Forall_forall. intros g Hg. specialize (Hf g Hg). apply list_elem_of_In in Hg.
    destruct (Hd f g) as [|Hlt]; [by left|by right|intros ->; by apply (smaller_irrefl g)|done|]. exfalso.
    apply (clt_irrefl (C := InternalKeyComparator C) (fm_smallest f)).
    eapply (cle_clt_trans (C := InternalKeyComparator C)); [by apply smaller_cle|].
    eapply (cle_clt_trans (C := InternalKeyComparator C)); [apply Hr; by right|exact Hlt].
Qed.

End Refine.

(** A file moves from level 0 to level 1, and a second one is added beside it. *)
Definition example_file (n : Z) (k : byte) : FileMetaData :=
  mkFileMetaData default_allowed_seeks n 4096 (newInternalKey [k] 1 kTypeValue) (newInternalKey [k] 1 kTypeValue).
Definition example_base : Version := mkVersion [[with_allowed_seeks (example_file 5 Byte.x62)]; []; []; []; []; []; []] None (-1) (dbl_of_Z (-1)) (-1).
Definition example_edits : list VersionEdit :=
  [mkVersionEdit None None None None None [] [(0, 5)] [(1, example_file 5 Byte.x62)]; mkVersionEdit None None None None None [] [] [(1, example_file 6 Byte.x61)]].

Lemma example_base_rep : version_rep (C := BytewiseComparator) example_base {[(0%nat, 5) := with_allowed_seeks (example_file 5 Byte.x62)]}.
Proof.
  split; [done| | |].
  - intros level. do 7 (destruct level as [|level]; [repeat constructor|]). destruct level; constructor.
  - intros level f. rewrite lookup_singleton_Some. destruct level as [|level].
    + cbn. rewrite list_elem_of_singleton. split; [by intros ->|by intros [_ <-]].
    + split; [|by intros [[=] _]]. intros Hf. exfalso. do 6 (destruct level as [|level]; [by apply not_elem_of_nil in Hf|]). destruct level; by apply not_elem_of_nil in Hf.
  - intros level n f Hf. apply lookup_singleton_Some in Hf as [[= <- <-] <-]. split; [done|]. unfold kNumLevels. lia.
Qed.

