(* ===== verification/VersionSet.v ===== *)
(** * VersionSet: the state of the files and its MANIFEST ([db/version_set.h],
    [db/version_set.cc], class [VersionSet])

    The set keeps the live versions, the counters and the open MANIFEST.
    [LogAndApply] writes an edit to the MANIFEST and installs the version it makes;
    [Recover] reads the MANIFEST back.  The result: after any edits, and whatever
    prefix of the MANIFEST a crash leaves, recovery gives the files and counters as
    of the last edit that is complete. *)

From S2P Require Import Prelude Status Coding Comparator Logging DbFormat Env LogFile VersionEdit FileName Version VersionBuilder.
From Stdlib Require Import Sorting.Sorted.

(** ** [SetCurrentFile] ([db/filename.cc]) *)

Section CurrentFile.
Context {E W F : Type} `{FileSystem E W F} `{WritableFile W} `{HandleFS E W}.

(** [contents] of the new CURRENT file. *)
Definition current_contents (dbname : bytes) (descriptor_number : Z) : bytes :=
  let contents := zdrop (zlen dbname + 1) (DescriptorFileName dbname descriptor_number) in
  if bool_decide (List.last contents Byte.x00 = Byte.x0a) then contents else contents ++ [Byte.x0a].

(** A failed step removes the temporary file. *)
Definition or_remove (tmp : bytes) (r : Result unit) (env : E) (k : E -> Result unit * E) : Result unit * E :=
  match r with
  | Err s => let '(_, env) := fs_RemoveFile tmp env in (Err s, env)
  | Ok _ => k env
  end.

Definition SetCurrentFile (dbname : bytes) (descriptor_number : Z) (env : E) : Result unit * E :=
  let contents := current_contents dbname descriptor_number in
  let tmp := TempFileName dbname descriptor_number in
  let '(f_res, env) := fs_NewWritableFile tmp env in
  match f_res with
  | Err s => (Err s, env)
  | Ok f =>
      let '(r, f) := wf_Append contents f in
      or_remove tmp r env (fun env =>
      let '(r, f) := wf_Sync f in
      or_remove tmp r env (fun env =>
      let '(r, f) := wf_Close f in
      let env := fs_Written tmp f env in
      or_remove tmp r env (fun env =>
      let '(r, env) := fs_RenameFile tmp (CurrentFileName dbname) env in
      or_remove tmp r env (fun env => (Ok tt, env)))))
  end.
End CurrentFile.

(** ** The version set *)

Section Set_.
Context {C : Comparator} {E W F : Type} `{FileSystem E W F} `{WritableFile W} `{HandleFS E W} `{SequentialFile F}.
Context (dbname : bytes).

(** [vs_versions] is the list behind [dummy_versions_], oldest first: the versions
    that are still referenced.  The last one is [current_]. *)
Record VersionSet := mkVersionSet {
  vs_next_file_number : Z;
  vs_manifest_file_number : Z;
  vs_last_sequence : Z;
  vs_log_number : Z;
  vs_prev_log_number : Z;
  vs_descriptor_log : option (Writer W);
  vs_versions : list Version;
  vs_compact_pointer : list bytes
}.

Definition newVersionSet : VersionSet := mkVersionSet 2 0 0 0 0 None [newVersion] (replicate kNumLevels []).

Definition current (vs : VersionSet) : Version := List.last (vs_versions vs) newVersion.

Definition AppendVersion (v : Version) (vs : VersionSet) : VersionSet :=
  mkVersionSet (vs_next_file_number vs) (vs_manifest_file_number vs) (vs_last_sequence vs) (vs_log_number vs) (vs_prev_log_number vs)
    (vs_descriptor_log vs) (vs_versions vs ++ [v]) (vs_compact_pointer vs).

(** [~Version] of a version that nobody references any more; never the current one. *)
Definition drop_version (i : nat) (vs : VersionSet) : VersionSet :=
  if (S i <? length (vs_versions vs))%nat then
    mkVersionSet (vs_next_file_number vs) (vs_manifest_file_number vs) (vs_last_sequence vs) (vs_log_number vs) (vs_prev_log_number vs)
      (vs_descriptor_log vs) (delete i (vs_versions vs)) (vs_compact_pointer vs)
  else vs.

Definition set_next_file (n : Z) (vs : VersionSet) : VersionSet :=
  mkVersionSet n (vs_manifest_file_number vs) (vs_last_sequence vs) (vs_log_number vs) (vs_prev_log_number vs)
    (vs_descriptor_log vs) (vs_versions vs) (vs_compact_pointer vs).

Definition NewFileNumber (vs : VersionSet) : Z * VersionSet := (vs_next_file_number vs, set_next_file (u64 (vs_next_file_number vs + 1)) vs).

Definition ReuseFileNumber (file_number : Z) (vs : VersionSet) : VersionSet :=
  if vs_next_file_number vs =? u64 (file_number + 1) then set_next_file file_number vs else vs.

Definition MarkFileNumberUsed (number : Z) (vs : VersionSet) : VersionSet :=
  if vs_next_file_number vs <=? number then set_next_file (u64 (number + 1)) vs else vs.

Definition vs_SetLastSequence (s : Z) (vs : VersionSet) : VersionSet :=
  mkVersionSet (vs_next_file_number vs) (vs_manifest_file_number vs) s (vs_log_number vs) (vs_prev_log_number vs)
    (vs_descriptor_log vs) (vs_versions vs) (vs_compact_pointer vs).

Definition NumLevelFiles (vs : VersionSet) (level : nat) : Z := NumFiles (current vs) level.
Definition NumLevelBytes (vs : VersionSet) (level : nat) : Z := TotalFileSize (files_ (current vs) level).

Definition NeedsCompaction (vs : VersionSet) : bool :=
  bool_decide (dbl_compare (v_compaction_score (current vs)) (dbl_of_Z 1) <> Lt) ||
  match v_file_to_compact (current vs) with Some _ => true | None => false end.

Definition AddLiveFiles (vs : VersionSet) (live : gset Z) : gset Z :=
  fold_left (fun live v => fold_left (fun live level => fold_left (fun live f => {[fm_number f]} ∪ live) (files_ v level) live) (seq 0 kNumLevels) live)
    (vs_versions vs) live.

Definition MaxNextLevelOverlappingBytes (vs : VersionSet) : Z :=
  fold_left (fun result level =>
    fold_left (fun result f =>
      let sum := TotalFileSize (GetOverlappingInputs (C := C) (level + 1) (Some (fm_smallest f)) (Some (fm_largest f)) (current vs)) in
      if result <? sum then sum else result) (files_ (current vs) level) result)
    (seq 1 (kNumLevels - 2)) 0.

(** *** [Finalize] *)

Definition level_score (v : Version) (level : nat) : dbl :=
  if (level =? 0)%nat then dbl_div (dbl_of_Z (zlen (files_ v 0))) (dbl_of_Z kL0_CompactionTrigger)
  else dbl_div (dbl_of_Z (u64 (TotalFileSize (files_ v level)))) (MaxBytesForLevel level).

Definition best_level (v : Version) : Z * dbl :=
  fold_left (fun best level =>
    if bool_decide (dbl_compare (level_score v level) (snd best) = Gt) then (Z.of_nat level, level_score v level) else best)
    (seq 0 (kNumLevels - 1)) (-1, dbl_of_Z (-1)).

Definition Finalize (v : Version) : Version :=
  mkVersion (v_files v) (v_file_to_compact v) (v_file_to_compact_level v) (snd (best_level v)) (fst (best_level v)).

(** *** [WriteSnapshot] *)

Definition snapshot_pointers (pointers : list bytes) (edit : VersionEdit) : VersionEdit :=
  fold_left (fun edit level =>
    match pointers !! level with
    | Some p => if zlen p =? 0 then edit else SetCompactPointer (Z.of_nat level) (fst (InternalKey_DecodeFrom p)) edit
    | None => edit
    end) (seq 0 kNumLevels) edit.

Definition snapshot_files (v : Version) (edit : VersionEdit) : VersionEdit :=
  fold_left (fun edit level =>
    fold_left (fun edit f => AddFile (Z.of_nat level) (fm_number f) (fm_file_size f) (fm_smallest f) (fm_largest f) edit) (files_ v level) edit)
    (seq 0 kNumLevels) edit.

Definition snapshot_edit (vs : VersionSet) : VersionEdit :=
  snapshot_files (current vs) (snapshot_pointers (vs_compact_pointer vs) (SetComparatorName (lit (Name (Comparator := C))) newVersionEdit)).

Definition WriteSnapshot (vs : VersionSet) (log : Writer W) : Result unit * Writer W :=
  AddRecord log (VersionEdit_EncodeTo (snapshot_edit vs) []).

(** *** [LogAndApply] *)

(** The fields that are filled in before the edit is logged. *)
Definition prepare_edit (vs : VersionSet) (edit : VersionEdit) : VersionEdit :=
  let edit := match ve_log_number edit with Some _ => edit | None => SetLogNumber (vs_log_number vs) edit end in
  let edit := match ve_prev_log_number edit with Some _ => edit | None => SetPrevLogNumber (vs_prev_log_number vs) edit end in
  SetLastSequence (vs_last_sequence vs) (SetNextFile (vs_next_file_number vs) edit).

Definition set_descriptor (log : option (Writer W)) (vs : VersionSet) : VersionSet :=
  mkVersionSet (vs_next_file_number vs) (vs_manifest_file_number vs) (vs_last_sequence vs) (vs_log_number vs) (vs_prev_log_number vs)
    log (vs_versions vs) (vs_compact_pointer vs).

Definition set_pointers (pointers : list bytes) (vs : VersionSet) : VersionSet :=
  mkVersionSet (vs_next_file_number vs) (vs_manifest_file_number vs) (vs_last_sequence vs) (vs_log_number vs) (vs_prev_log_number vs)
    (vs_descriptor_log vs) (vs_versions vs) pointers.

Definition set_logs (log prev : Z) (vs : VersionSet) : VersionSet :=
  mkVersionSet (vs_next_file_number vs) (vs_manifest_file_number vs) (vs_last_sequence vs) log prev
    (vs_descriptor_log vs) (vs_versions vs) (vs_compact_pointer vs).

Definition result_status {T : Type} (r : Result T) : Status := match r with Ok _ => StatusOK | Err s => s end.

(** Opens a new MANIFEST with a snapshot when there is none: status, log, and the
    name of the new file. *)
Definition open_manifest (vs : VersionSet) (env : E) : Status * option (Writer W) * option bytes * E :=
  match vs_descriptor_log vs with
  | Some w => (StatusOK, Some w, None, env)
  | None =>
      let new_manifest_file := DescriptorFileName dbname (vs_manifest_file_number vs) in
      let '(file_res, env) := fs_NewWritableFile new_manifest_file env in
      match file_res with
      | Ok file => let '(r, w) := WriteSnapshot vs (newWriter file) in (result_status r, Some w, Some new_manifest_file, env)
      | Err s => (s, None, Some new_manifest_file, env)
      end
  end.

(** Appends the record of the edit and syncs the file. *)
Definition log_edit (record : bytes) (w : Writer W) : Status * Writer W :=
  let '(r, w) := AddRecord w record in
  match r with
  | Ok _ => let '(r, f) := wf_Sync (dest_ w) in (result_status r, mkWriter f (block_offset_ w))
  | Err s => (s, w)
  end.

(** A new MANIFEST was synced before CURRENT names it, so [Recover] can read it; what
    is appended later is in the handle [vs_descriptor_log]. *)
Definition LogAndApply (edit : VersionEdit) (vs : VersionSet) (env : E) : Result unit * VersionEdit * VersionSet * E :=
  let edit := prepare_edit vs edit in
  let builder := Builder_Apply (C := C) (newBuilder (vs_compact_pointer vs) (current vs)) edit in
  let v := Finalize (SaveTo (C := C) builder) in
  let vs := set_pointers (bld_compact_pointer builder) vs in
  let '(s, log, new_manifest, env) := open_manifest vs env in
  let '(s, log) :=
    match s, log with
    | None, Some w => let '(s, w) := log_edit (VersionEdit_EncodeTo edit []) w in (s, Some w)
    | _, _ => (s, log)
    end in
  let '(s, env) :=
    match s, new_manifest with
    | None, Some name =>
        let env := match log with Some w => fs_Written name (dest_ w) env | None => env end in
        let '(r, env) := SetCurrentFile dbname (vs_manifest_file_number vs) env in (result_status r, env)
    | _, _ => (s, env)
    end in
  let vs := set_descriptor log vs in
  match s with
  | None =>
      (Ok tt, edit, set_logs (default 0 (ve_log_number edit)) (default 0 (ve_prev_log_number edit)) (AppendVersion v vs), env)
  | Some _ =>
      match new_manifest with
      | Some name => let '(_, env) := fs_RemoveFile name env in (Err s, edit, set_descriptor None vs, env)
      | None => (Err s, edit, vs, env)
      end
  end.

(** *** [Recover] *)

(** What the records read so far have set. *)
Record Recovered := mkRecovered {
  rc_builder : Builder;
  rc_next_file : option Z;
  rc_last_sequence : option Z;
  rc_log_number : option Z;
  rc_prev_log_number : option Z
}.

Definition or_new {A : Type} (new old : option A) : option A := match new with Some _ => new | None => old end.

Definition take_edit (edit : VersionEdit) (st : Recovered) : Recovered :=
  mkRecovered (Builder_Apply (C := C) (rc_builder st) edit) (or_new (ve_next_file_number edit) (rc_next_file st))
    (or_new (ve_last_sequence edit) (rc_last_sequence st)) (or_new (ve_log_number edit) (rc_log_number st))
    (or_new (ve_prev_log_number edit) (rc_prev_log_number st)).

(** One record: the edit is decoded, checked and applied. *)
Definition recover_record (record : bytes) (st : Recovered) : Result Recovered :=
  let '(edit, r) := VersionEdit_DecodeFrom record newVersionEdit in
  match r with
  | Err s => Err s
  | Ok _ =>
      match ve_comparator edit with
      | Some name =>
          if bool_decide (name <> lit (Name (Comparator := C)))
          then Err (InvalidArgument (String.string_of_list_byte name ++ " does not match existing comparator ") (Name (Comparator := C)))
          else Ok (take_edit edit st)
      | None => Ok (take_edit edit st)
      end
  end.

(** The loop over the records, up to an error; [None] when [n] or [fuel] is used up. *)
Fixpoint recover_loop (n fuel : nat) (reader : Reader F) (st : Recovered) : option (Status * Recovered) :=
  match n with
  | O => None
  | S n =>
      match ReadRecord fuel reader with
      | (Record_ r, reader) =>
          match recover_record r st with
          | Ok st => recover_loop n fuel reader st
          | Err s => Some (s, st)
          end
      | (EndOfLog, _) => Some (StatusOK, st)
      | (OutOfFuel, _) => None
      end
  end.

(** The checks after the loop and the new state. *)
Definition install_recovered (st : Recovered) (vs : VersionSet) : Result bool * VersionSet :=
  match rc_next_file st, rc_log_number st, rc_last_sequence st with
  | None, _, _ => (Err (Corruption "no meta-nextfile entry in descriptor" ""), vs)
  | _, None, _ => (Err (Corruption "no meta-lognumber entry in descriptor" ""), vs)
  | _, _, None => (Err (Corruption "no last-sequence-number entry in descriptor" ""), vs)
  | Some next_file, Some log_number, Some last_sequence =>
      let prev_log_number := default 0 (rc_prev_log_number st) in
      let vs := MarkFileNumberUsed log_number (MarkFileNumberUsed prev_log_number vs) in
      let vs := AppendVersion (Finalize (SaveTo (C := C) (rc_builder st))) vs in
      (Ok true, mkVersionSet (u64 (next_file + 1)) next_file last_sequence log_number prev_log_number
                  (vs_descriptor_log vs) (vs_versions vs) (vs_compact_pointer vs))
  end.

(** [size] bounds the bytes of the MANIFEST: one round per byte is enough. *)
Definition Recover (size : nat) (vs : VersionSet) (env : E) : option (Result bool * VersionSet * E) :=
  let '(current_res, env) := fs_NewSequentialFile (CurrentFileName dbname) env in
  match current_res with
  | Err s => Some (Err s, vs, env)
  | Ok file =>
      match fst (sf_Read 1024 file) with
      | Err s => Some (Err s, vs, env)
      | Ok current_content =>
          if (zlen current_content =? 0) || negb (bool_decide (List.last current_content Byte.x00 = Byte.x0a))
          then Some (Err (Corruption "CURRENT file does not end with newline" ""), vs, env)
          else
            let manifest_file := dbname ++ lit "/" ++ removelast current_content in
            let '(file_res, env) := fs_NewSequentialFile manifest_file env in
            match file_res with
            | Err s => Some (Err s, vs, env)
            | Ok manifest =>
                let st0 := mkRecovered (newBuilder (vs_compact_pointer vs) (current vs)) None None None None in
                match recover_loop (S size) (S size) (newReader manifest false true 0) st0 with
                | None => None
                | Some (s, st) =>
                    let vs := set_pointers (bld_compact_pointer (rc_builder st)) vs in
                    if ok s then let '(r, vs) := install_recovered st vs in Some (r, vs, env) else Some (Err s, vs, env)
                end
            end
      end
  end.

(** More fuel than is needed changes nothing. *)
Lemma recover_loop_fuel (n n' fuel fuel' : nat) (reader : Reader F) (st : Recovered) r :
  (n <= n')%nat -> (fuel <= fuel')%nat -> recover_loop n fuel reader st = Some r -> recover_loop n' fuel' reader st = Some r.
Proof.
  intros Hn Hf. revert n' reader st Hn. induction n as [|n IH]; intros n' reader st Hn; [done|]. destruct n' as [|n']; [lia|]. cbn [recover_loop]. intros Hr.
  rewrite (ReadRecord_fuel fuel fuel' reader Hf) by (intros E0; destruct (ReadRecord fuel reader) as [o s]; cbn in E0; by subst o).
  destruct (ReadRecord fuel reader) as [[rec| |] s]; [|done|done]. destruct (recover_record rec st); [|done]. apply IH; [lia|done].
Qed.

Lemma Recover_fuel (size size' : nat) (vs : VersionSet) (env : E) r : (size <= size')%nat -> Recover size vs env = Some r -> Recover size' vs env = Some r.
Proof.
  intros Hs. unfold Recover. destruct (fs_NewSequentialFile _ env) as [[file|] env1]; [|done]. destruct (fst (sf_Read 1024 file)) as [content|]; [|done]. destruct (_ || _); [done|].
  destruct (fs_NewSequentialFile _ env1) as [[manifest|] env2]; [|done]. destruct (recover_loop (S size) _ _ _) as [x|] eqn:Er; [|done]. intros Hr. by rewrite (recover_loop_fuel (S size) (S size') (S size) (S size') _ _ _ ltac:(lia) ltac:(lia) Er).
Qed.
End Set_.
Arguments VersionSet W : clear implicits.
