(* ===== verification/Manifest.v ===== *)
(** * Manifest: what [LogAndApply] writes, [Recover] reads

    Proofs about [VersionSet]: the records of a MANIFEST are a snapshot and the
    edits since; applied in order they give the files of the current version; and
    recovery applies a prefix of them. *)

From stdpp Require Import sorting.
From S2P Require Import Prelude Status Coding Comparator Logging DbFormat Env LogFile VersionEdit FileName Version VersionBuilder VersionSet.
From Stdlib Require Import Sorting.Sorted.

(** ** The log of a MANIFEST *)

Section LogHolds.
Context {W : Type} `{WritableFileLaws W}.

Definition log_holds (w : Writer W) (rs : list bytes) : Prop :=
  Layout 0 rs (wf_contents (dest_ w)) (block_offset_ w) /\ block_ok (block_offset_ w).

Lemma log_holds_new (f : W) : wf_contents f = [] -> log_holds (newWriter f) [].
Proof. intros Hf. split; [cbn; rewrite Hf; constructor|unfold block_ok, kBlockSize; cbn; lia]. Qed.

Lemma log_holds_add (w : Writer W) (rs : list bytes) (r : bytes) :
  log_holds w rs -> exists w', AddRecord w r = (Ok tt, w') /\ log_holds w' (rs ++ [r]).
Proof.
  destruct w as [f o]. intros [HL Ho]. cbn [dest_ block_offset_] in *.
  destruct (AddRecord_spec f o r Ho) as (l & o' & f' & HF & E & Ec). exists (mkWriter f' o'). split; [done|]. split; cbn [dest_ block_offset_].
  - rewrite Ec. eapply Layout_app; [done|]. rewrite <- (app_nil_r (frags_bytes o l)). econstructor; [done|constructor].
  - eapply Frags_offset; done.
Qed.

Lemma log_edit_ok (w : Writer W) (rs : list bytes) (r : bytes) :
  log_holds w rs -> exists w', log_edit r w = (StatusOK, w') /\ log_holds w' (rs ++ [r]).
Proof.
  intros Hw. destruct (log_holds_add w rs r Hw) as (w1 & E & HL & Ho). unfold log_edit. rewrite E.
  destruct (wf_Sync_spec (dest_ w1)) as (f & Es & Ec). rewrite Es. exists (mkWriter f (block_offset_ w1)). split; [done|].
  split; cbn [dest_ block_offset_]; [by rewrite Ec|done].
Qed.
End LogHolds.

(** ** What the snapshot holds *)

(** The metadata of a file as an edit carries it. *)
Definition strip (f : FileMetaData) : FileMetaData := mkFileMetaData default_allowed_seeks (fm_number f) (fm_file_size f) (fm_smallest f) (fm_largest f).

Definition snapshot_list (v : Version) : list (Z * FileMetaData) :=
  concat (map (fun level => map (fun f => (Z.of_nat level, strip f)) (files_ v level)) (seq 0 kNumLevels)).

(** The files of a version can be written to a MANIFEST, and their seek counts are
    those the builder sets. *)
Definition meta_ok (f : FileMetaData) : Prop :=
  num_ok (fm_number f) /\ num_ok (fm_file_size f) /\ key_ok (fm_smallest f) /\ key_ok (fm_largest f) /\ with_allowed_seeks f = f.

Lemma with_allowed_seeks_strip (f : FileMetaData) : meta_ok f -> with_allowed_seeks (strip f) = f.
Proof. intros (_ & _ & _ & _ & Hf). rewrite <- Hf at 2. done. Qed.

Section Snapshot.
Context {C : Comparator} {CL : ComparatorLaws C}.

Lemma add_files_level (level : nat) (fs : list FileMetaData) (e : VersionEdit) :
  fold_left (fun edit f => AddFile (Z.of_nat level) (fm_number f) (fm_file_size f) (fm_smallest f) (fm_largest f) edit) fs e =
  fold_left ve_apply (map (fun f => VAddFile (Z.of_nat level) (fm_number f) (fm_file_size f) (fm_smallest f) (fm_largest f)) fs) e.
Proof. revert e. induction fs as [|f fs IH]; intros e; [done|]. cbn [fold_left map]. apply IH. Qed.

Definition snapshot_file_ops (v : Version) : list VeOp :=
  concat (map (fun level => map (fun f => VAddFile (Z.of_nat level) (fm_number f) (fm_file_size f) (fm_smallest f) (fm_largest f)) (files_ v level)) (seq 0 kNumLevels)).

Definition snapshot_pointer_ops (pointers : list bytes) : list VeOp :=
  concat (map (fun level => match pointers !! level with
    | Some p => if zlen p =? 0 then [] else [VCompactPointer (Z.of_nat level) p] | None => [] end) (seq 0 kNumLevels)).

Lemma fold_left_concat {A B} (f : A -> B -> A) (ls : list (list B)) (a : A) : fold_left f (concat ls) a = fold_left (fun a l => fold_left f l a) ls a.
Proof. revert a. induction ls as [|l ls IH]; intros a; [done|]. cbn [concat fold_left]. rewrite fold_left_app. apply IH. Qed.

Lemma fold_left_map' {A B D} (f : A -> B -> A) (g : D -> B) (l : list D) (a : A) : fold_left f (map g l) a = fold_left (fun a x => f a (g x)) l a.
Proof. revert a. induction l as [|x l IH]; intros a; [done|]. cbn. apply IH. Qed.

Lemma fold_left_ext' {A B} (f g : A -> B -> A) (l : list B) (a : A) : (forall a x, f a x = g a x) -> fold_left f l a = fold_left g l a.
Proof. intros Hfg. revert a. induction l as [|x l IH]; intros a; [done|]. cbn. by rewrite Hfg, IH. Qed.

Lemma snapshot_edit_ops {W : Type} (vs : VersionSet W) :
  snapshot_edit (C := C) vs =
  fold_left ve_apply (VComparator (lit (Name (Comparator := C))) :: snapshot_pointer_ops (vs_compact_pointer vs) ++ snapshot_file_ops (current vs)) newVersionEdit.
Proof.
  unfold snapshot_edit, snapshot_files, snapshot_pointers. cbn [fold_left ve_apply]. rewrite fold_left_app.
  unfold snapshot_file_ops, snapshot_pointer_ops. rewrite !fold_left_concat, !fold_left_map'.
  rewrite (fold_left_ext' _ (fun e level => fold_left ve_apply
    (map (fun f => VAddFile (Z.of_nat level) (fm_number f) (fm_file_size f) (fm_smallest f) (fm_largest f)) (files_ (current vs) level)) e));
    [|intros e level; apply add_files_level].
  f_equal. apply fold_left_ext'. intros e level. destruct (vs_compact_pointer vs !! level) as [p|]; [|done]. by destruct (zlen p =? 0).
Qed.

Lemma snapshot_edit_ok {W : Type} (vs : VersionSet W) :
  zlen (lit (Name (Comparator := C))) < 2 ^ 32 -> (forall level f, f ∈ files_ (current vs) level -> meta_ok f) ->
  (forall p, p ∈ vs_compact_pointer vs -> zlen p < 2 ^ 32) -> edit_ok (snapshot_edit (C := C) vs).
Proof.
  intros Hn Hf Hp. rewrite snapshot_edit_ops. apply fold_ve_apply_ok; [|apply newVersionEdit_ok].
  constructor; [exact Hn|]. apply Forall_app. split; apply Forall_forall; intros op Hop; apply list_elem_of_In, in_concat in Hop as (l & Hl & Hop);
    apply in_map_iff in Hl as (level & <- & Hlev); apply in_seq in Hlev.
  - destruct (vs_compact_pointer vs !! level) as [p|] eqn:E; [|done]. destruct (Z.eqb_spec (zlen p) 0) as [|Hz]; [done|]. destruct Hop as [<-|[]].
    apply list_elem_of_lookup_2 in E. specialize (Hp p E). pose proof (zlen_nonneg p). split; [unfold level_ok, kNumLevels in *; lia|]. split; lia.
  - apply in_map_iff in Hop as (f & <- & Hin). apply list_elem_of_In in Hin. destruct (Hf level f Hin) as (H1 & H2 & H3 & H4 & _).
    split; [unfold level_ok, kNumLevels in *; lia|done].
Qed.

(** The fields of an edit after a sequence of calls. *)
Lemma adds_fields (ops : list VeOp) (e : VersionEdit) :
  (forall op, op ∈ ops -> exists l n sz a b, op = VAddFile l n sz a b) ->
  let e' := fold_left ve_apply ops e in
  ve_comparator e' = ve_comparator e /\ ve_log_number e' = ve_log_number e /\ ve_prev_log_number e' = ve_prev_log_number e /\
  ve_next_file_number e' = ve_next_file_number e /\ ve_last_sequence e' = ve_last_sequence e /\
  ve_compact_pointers e' = ve_compact_pointers e /\ ve_deleted_files e' = ve_deleted_files e /\
  ve_new_files e' = ve_new_files e ++ map (fun op => match op with VAddFile l n sz a b => (l, mkFileMetaData default_allowed_seeks n sz a b) | _ => (0, mkFileMetaData 0 0 0 [] []) end) ops.
Proof.
  revert e. induction ops as [|op ops IH]; intros e Hops e'; [cbn in e'; subst e'; rewrite app_nil_r; done|].
  destruct (Hops op ltac:(by left)) as (l & n & sz & a & b & ->). unfold e'. cbn [fold_left].
  destruct (IH (ve_apply e (VAddFile l n sz a b))) as (H1 & H2 & H3 & H4 & H5 & H6 & H7 & H8); [intros op Hop; apply Hops; by right|].
  rewrite H1, H2, H3, H4, H5, H6, H7, H8. cbn. split_and!; try done. by rewrite <- app_assoc.
Qed.

Lemma pointers_fields (ops : list VeOp) (e : VersionEdit) :
  (forall op, op ∈ ops -> exists l k, op = VCompactPointer l k) ->
  let e' := fold_left ve_apply ops e in
  ve_comparator e' = ve_comparator e /\ ve_log_number e' = ve_log_number e /\ ve_prev_log_number e' = ve_prev_log_number e /\
  ve_next_file_number e' = ve_next_file_number e /\ ve_last_sequence e' = ve_last_sequence e /\
  ve_deleted_files e' = ve_deleted_files e /\ ve_new_files e' = ve_new_files e.
Proof.
  revert e. induction ops as [|op ops IH]; intros e Hops e'; [done|].
  destruct (Hops op ltac:(by left)) as (l & k & ->). unfold e'. cbn [fold_left].
  destruct (IH (ve_apply e (VCompactPointer l k))) as (H1 & H2 & H3 & H4 & H5 & H6 & H7); [intros op Hop; apply Hops; by right|].
  rewrite H1, H2, H3, H4, H5, H6, H7. done.
Qed.

Lemma snapshot_fields {W : Type} (vs : VersionSet W) :
  let e := snapshot_edit (C := C) vs in
  ve_comparator e = Some (lit (Name (Comparator := C))) /\ ve_log_number e = None /\ ve_prev_log_number e = None /\
  ve_next_file_number e = None /\ ve_last_sequence e = None /\ ve_deleted_files e = [] /\ ve_new_files e = snapshot_list (current vs).
Proof.
  cbv zeta. rewrite snapshot_edit_ops. cbn [fold_left]. rewrite fold_left_app.
  set (e1 := fold_left ve_apply (snapshot_pointer_ops _) _).
  destruct (pointers_fields (snapshot_pointer_ops (vs_compact_pointer vs)) (ve_apply newVersionEdit (VComparator (lit (Name (Comparator := C)))))) as (P1 & P2 & P3 & P4 & P5 & P6 & P7).
  { intros op Hop. apply list_elem_of_In, in_concat in Hop as (l & Hl & Hop). apply in_map_iff in Hl as (level & <- & _).
    destruct (_ !! level) as [p|]; [|done]. destruct (zlen p =? 0); [done|]. destruct Hop as [<-|[]]. eauto. }
  fold e1 in P1, P2, P3, P4, P5, P6, P7.
  destruct (adds_fields (snapshot_file_ops (current vs)) e1) as (A1 & A2 & A3 & A4 & A5 & _ & A7 & A8).
  { intros op Hop. apply list_elem_of_In, in_concat in Hop as (l & Hl & Hop). apply in_map_iff in Hl as (level & <- & _).
    apply in_map_iff in Hop as (f & <- & _). do 5 eexists. reflexivity. }
  rewrite A1, A2, A3, A4, A5, A7, A8, P1, P2, P3, P4, P5, P6, P7. split_and!; try done.
  unfold snapshot_file_ops, snapshot_list. cbn [ve_new_files ve_apply newVersionEdit VersionEdit_Clear SetComparatorName app].
  rewrite concat_map, map_map. f_equal. apply map_ext. intros level. by rewrite map_map.
Qed.
End Snapshot.

(** ** The snapshot gives the files back *)

Lemma add_files_lookup (l : list (Z * FileMetaData)) (M : file_map) (i : nat * Z) (f : FileMetaData) :
  NoDup (map new_id l) ->
  fold_left add_file l M !! i = Some f <->
  (exists p, p ∈ l /\ new_id p = i /\ f = with_allowed_seeks (snd p)) \/ (i ∉ map new_id l /\ M !! i = Some f).
Proof.
  revert M. induction l as [|p l IH]; intros M Hnd; cbn [fold_left map].
  - split; [intros H; right; split; [apply not_elem_of_nil|done]|]. intros [(p & Hp & _)|[_ H]]; [by apply not_elem_of_nil in Hp|done].
  - cbn [map] in Hnd. apply NoDup_cons in Hnd as [Hp Hnd]. rewrite (IH _ Hnd). unfold add_file at 1. fold (new_id p). split.
    + intros [(q & Hq & E & Ef)|[Hi HM]]; [left; exists q; split; [by right|done]|].
      destruct (decide (new_id p = i)) as [E|E].
      * left. exists p. rewrite E, lookup_insert_eq in HM. injection HM as <-. split; [by left|done].
      * right. rewrite lookup_insert_ne in HM by done. split; [by apply not_elem_of_cons|done].
    + intros [(q & Hq & E & Ef)|[Hi HM]].
      * apply elem_of_cons in Hq as [->|Hq]; [|left; by exists q]. right. rewrite E in Hp. split; [done|]. rewrite E, lookup_insert_eq. by subst f.
      * apply not_elem_of_cons in Hi as [H1 H2]. right. split; [done|]. by rewrite lookup_insert_ne.
Qed.

Section SnapshotMap.
Context {C : Comparator} {CL : ComparatorLaws C}.

Lemma smaller_NoDup (l : list FileMetaData) : StronglySorted (smaller (C := C)) l -> NoDup l.
Proof.
  induction 1 as [|f l Hl IH Hf]; constructor; [|done]. intros Hin. rewrite List.Forall_forall in Hf.
  apply (smaller_irrefl f), Hf. by apply list_elem_of_In.
Qed.

Lemma level_numbers_NoDup (v : Version) (M : file_map) (level : nat) : version_rep (C := C) v M -> NoDup (map fm_number (files_ v level)).
Proof.
  intros Hv. apply NoDup_fmap_2_strong; [|eapply smaller_NoDup, Hv]. intros f g Hf Hg E.
  apply (vr_files _ _ Hv) in Hf, Hg. rewrite E in Hf. congruence.
Qed.

Lemma snapshot_ids_of_levels (v : Version) (levels : list nat) :
  map new_id (concat (map (fun level => map (fun f => (Z.of_nat level, strip f)) (files_ v level)) levels)) =
  concat (map (fun level => map (fun f => (level, fm_number f)) (files_ v level)) levels).
Proof.
  rewrite concat_map, map_map. f_equal. apply map_ext. intros level. rewrite map_map. apply map_ext. intros f. unfold new_id. cbn. by rewrite Nat2Z.id.
Qed.

Lemma snapshot_ids_NoDup (v : Version) (M : file_map) : version_rep (C := C) v M -> NoDup (map new_id (snapshot_list v)).
Proof.
  intros Hv. unfold snapshot_list. rewrite snapshot_ids_of_levels. pose proof (NoDup_seq 0 kNumLevels) as Hnd.
  induction Hnd as [|level levels Hl Hnd IH]; cbn [map concat]; [constructor|]. apply NoDup_app. split_and!; [| |done].
  - rewrite <- (map_map fm_number (fun n => (level, n))). apply (NoDup_fmap_2 (fun n => (level, n))). by eapply level_numbers_NoDup.
  - intros [l n] Hin Hin2. apply list_elem_of_In, in_map_iff in Hin as (f & [= <- <-] & _).
    apply list_elem_of_In, in_concat in Hin2 as (x & Hx & Hin2). apply in_map_iff in Hx as (level' & <- & Hl').
    apply in_map_iff in Hin2 as (g & [= -> _] & _). apply Hl. by apply list_elem_of_In.
Qed.

Lemma snapshot_list_elem (v : Version) (level : Z) (g : FileMetaData) :
  (level, g) ∈ snapshot_list v <-> exists k f, level = Z.of_nat k /\ (k < kNumLevels)%nat /\ f ∈ files_ v k /\ g = strip f.
Proof.
  unfold snapshot_list. rewrite list_elem_of_In, in_concat. split.
  - intros (x & Hx & Hin). apply in_map_iff in Hx as (k & <- & Hk). apply in_map_iff in Hin as (f & [= <- <-] & Hf). apply in_seq in Hk.
    exists k, f. split_and!; [done|lia|by apply list_elem_of_In|done].
  - intros (k & f & -> & Hk & Hf & ->). exists (map (fun f => (Z.of_nat k, strip f)) (files_ v k)). split.
    + apply in_map_iff. exists k. split; [done|]. apply in_seq. lia.
    + apply in_map_iff. exists f. split; [done|by apply list_elem_of_In].
Qed.

Lemma snapshot_map (v : Version) (M : file_map) (snap : VersionEdit) :
  version_rep (C := C) v M -> (forall level f, f ∈ files_ v level -> meta_ok f) ->
  ve_deleted_files snap = [] -> ve_new_files snap = snapshot_list v -> apply_edit ∅ snap = M.
Proof.
  intros Hv Hm Hd Hn. unfold apply_edit. rewrite Hd, Hn. cbn [fold_left]. apply map_eq. intros [level n]. apply option_eq. intros f.
  rewrite add_files_lookup by by eapply snapshot_ids_NoDup. split.
  - intros [([z g] & Hp & E & Ef)|[_ H]]; [|by rewrite lookup_empty in H]. apply snapshot_list_elem in Hp as (k & f' & -> & Hk & Hf & ->).
    unfold new_id in E. cbn in E, Ef. rewrite Nat2Z.id in E. injection E as <- <-. rewrite with_allowed_seeks_strip in Ef by by eapply Hm.
    subst f. by apply (vr_files _ _ Hv).
  - intros HM. destruct (vr_number _ _ Hv _ _ _ HM) as [<- Hl]. apply (vr_files _ _ Hv) in HM. left. exists (Z.of_nat level, strip f). split_and!.
    + apply snapshot_list_elem. eauto 10.
    + unfold new_id. cbn. by rewrite Nat2Z.id.
    + cbn. symmetry. eapply with_allowed_seeks_strip, Hm, HM.
Qed.

(** A version is determined by its files. *)
Lemma smaller_unique (l k : list FileMetaData) :
  StronglySorted (smaller (C := C)) l -> StronglySorted (smaller (C := C)) k -> (forall f, f ∈ l <-> f ∈ k) -> l = k.
Proof.
  intros Hl Hk Heq. assert (AntiSymm (=) (smaller (C := C))) as HA.
  { intros a b Hab Hba. exfalso. by apply (smaller_irrefl a), (smaller_trans _ b). }
  apply (StronglySorted_unique (smaller (C := C))); [done..|]. apply NoDup_Permutation; [by apply smaller_NoDup..|done].
Qed.

Lemma version_rep_unique (v v' : Version) (M : file_map) : version_rep (C := C) v M -> version_rep (C := C) v' M -> v_files v = v_files v'.
Proof.
  intros Hv Hv'. apply (nth_ext _ _ [] []); [by rewrite (vr_length _ _ Hv), (vr_length _ _ Hv')|]. intros level _.
  apply smaller_unique; [apply Hv|apply Hv'|]. intros f. change (f ∈ files_ v level <-> f ∈ files_ v' level).
  by rewrite (vr_files _ _ Hv), (vr_files _ _ Hv').
Qed.
End SnapshotMap.

(** ** Logging edits *)

Abbreviation enc e := (VersionEdit_EncodeTo e []).

Definition edit_pointers (cp : list bytes) (e : VersionEdit) : list bytes := fold_left set_pointer (ve_compact_pointers e) cp.

(** What [LogAndApply] fills in. *)
Lemma prepare_edit_fields {W : Type} (vs : VersionSet W) (edit : VersionEdit) :
  let e := prepare_edit vs edit in
  ve_comparator e = ve_comparator edit /\ ve_compact_pointers e = ve_compact_pointers edit /\
  ve_deleted_files e = ve_deleted_files edit /\ ve_new_files e = ve_new_files edit /\
  ve_next_file_number e = Some (vs_next_file_number vs) /\ ve_last_sequence e = Some (vs_last_sequence vs) /\
  (exists n, ve_log_number e = Some n) /\ (exists n, ve_prev_log_number e = Some n).
Proof. unfold prepare_edit. destruct edit as [c [n|] [p|] nf sq cp d a]; cbn; split_and!; eauto. Qed.

Lemma prepare_edit_ok {W : Type} (vs : VersionSet W) (edit : VersionEdit) :
  num_ok (vs_next_file_number vs) -> num_ok (vs_last_sequence vs) -> num_ok (vs_log_number vs) -> num_ok (vs_prev_log_number vs) ->
  edit_ok edit -> edit_ok (prepare_edit vs edit).
Proof.
  intros Hn Hs Hl Hp He. unfold prepare_edit.
  apply (ve_apply_ok _ (VLastSequence (vs_last_sequence vs))); [exact Hs|]. apply (ve_apply_ok _ (VNextFile (vs_next_file_number vs))); [exact Hn|].
  set (e1 := match ve_log_number edit with Some _ => edit | None => _ end). assert (edit_ok e1) as He1.
  { unfold e1. destruct (ve_log_number edit); [done|]. by apply (ve_apply_ok _ (VLogNumber (vs_log_number vs))). }
  destruct (ve_prev_log_number e1); [done|]. by apply (ve_apply_ok _ (VPrevLogNumber (vs_prev_log_number vs))).
Qed.

Lemma edit_ok_numbers (e : VersionEdit) (n : Z) :
  edit_ok e -> ve_log_number e = Some n \/ ve_prev_log_number e = Some n -> num_ok n.
Proof.
  intros [Ho _ _] Hn. unfold ops_of in Ho. rewrite Forall_forall in Ho.
  destruct Hn as [E|E]; [apply (Ho (VLogNumber n))|apply (Ho (VPrevLogNumber n))]; rewrite E, !elem_of_app; cbn [opt_ops]; rewrite list_elem_of_singleton; tauto.
Qed.

Lemma edit_ok_levels (e : VersionEdit) : edit_ok e -> edit_levels_ok e.
Proof.
  intros [Ho _ _]. unfold ops_of in Ho. rewrite !Forall_app in Ho. destruct Ho as (_ & _ & _ & _ & _ & _ & H7 & H8). split; intros p Hp.
  - rewrite Forall_forall in H7. apply (H7 (remove_op p)). apply list_elem_of_fmap. eauto.
  - rewrite Forall_forall in H8. apply (H8 (add_op p)). apply list_elem_of_fmap. eauto.
Qed.

Lemma edit_ok_pointers (e : VersionEdit) p : edit_ok e -> p ∈ ve_compact_pointers e -> level_ok (fst p) /\ key_ok (snd p).
Proof.
  intros [Ho _ _] Hp. unfold ops_of in Ho. rewrite !Forall_app in Ho. destruct Ho as (_ & _ & _ & _ & _ & H6 & _ & _).
  rewrite Forall_forall in H6. apply (H6 (compact_op p)). apply list_elem_of_fmap. eauto.
Qed.

Section LogAndApply_.
Context {C : Comparator} {CL : ComparatorLaws C} {E W F : Type} `{FileSystemLaws E W F}.
Context (dbname : bytes).

Lemma SetCurrentFile_ok (n : Z) (env : E) : exists env', SetCurrentFile dbname n env = (Ok tt, env').
Proof.
  unfold SetCurrentFile. destruct (fs_NewWritableFile_spec (TempFileName dbname n) env) as (f & env1 & -> & _).
  destruct (wf_Append_spec (current_contents dbname n) f) as (f1 & -> & _). cbn [or_remove].
  destruct (wf_Sync_spec f1) as (f2 & -> & _). cbn [or_remove]. destruct (wf_Close_spec f2) as (f3 & -> & _). cbn [or_remove].
  destruct (fs_RenameFile_spec (TempFileName dbname n) (CurrentFileName dbname) f3 env1) as (env2 & ->). cbn [or_remove]. eauto.
Qed.

(** The records of the log when an edit is about to be appended. *)
Definition log_before (vs : VersionSet W) (rs : list bytes) : Prop :=
  match vs_descriptor_log vs with
  | Some w => log_holds w rs
  | None => rs = [enc (snapshot_edit (C := C) vs)]
  end.

Lemma open_manifest_ok (vs : VersionSet W) (env : E) (rs : list bytes) :
  log_before vs rs ->
  exists w name env', open_manifest (C := C) dbname vs env = (StatusOK, Some w, name, env') /\ log_holds w rs.
Proof.
  unfold log_before, open_manifest. destruct (vs_descriptor_log vs) as [w|]; [intros Hw; exists w, None, env; done|]. intros ->.
  destruct (fs_NewWritableFile_spec (DescriptorFileName dbname (vs_manifest_file_number vs)) env) as (f & env1 & -> & Hf).
  unfold WriteSnapshot. destruct (log_holds_add (newWriter f) [] (enc (snapshot_edit (C := C) vs)) (log_holds_new f Hf)) as (w & -> & Hw).
  cbn [result_status]. eauto 10.
Qed.

(** The version an edit makes of the current one. *)
Definition next_version (vs : VersionSet W) (e : VersionEdit) : Version :=
  Finalize (SaveTo (C := C) (Builder_Apply (C := C) (newBuilder (vs_compact_pointer vs) (current vs)) e)).

Lemma LogAndApply_ok (edit : VersionEdit) (vs : VersionSet W) (env : E) (rs : list bytes) :
  let e := prepare_edit vs edit in
  let cp := edit_pointers (vs_compact_pointer vs) e in
  log_before (set_pointers cp vs) rs ->
  exists w env', log_holds w (rs ++ [enc e]) /\
    LogAndApply (C := C) dbname edit vs env =
      (Ok tt, e, mkVersionSet (vs_next_file_number vs) (vs_manifest_file_number vs) (vs_last_sequence vs)
                   (default 0 (ve_log_number e)) (default 0 (ve_prev_log_number e)) (Some w) (vs_versions vs ++ [next_version vs e]) cp, env').
Proof.
  intros e cp Hrs. unfold LogAndApply. fold e. cbv zeta.
  pose proof (pointers_of_edits (C := C) [e] (newBuilder (vs_compact_pointer vs) (current vs))) as Hcp. cbn [fold_left newBuilder bld_compact_pointer] in Hcp.
  fold (newBuilder (vs_compact_pointer vs) (current vs)) in Hcp. fold (edit_pointers (vs_compact_pointer vs) e) in Hcp. fold cp in Hcp.
  rewrite Hcp. fold (next_version vs e). destruct (open_manifest_ok (set_pointers cp vs) env rs Hrs) as (w & name & env1 & -> & Hw). cbn [StatusOK].
  destruct (log_edit_ok w rs (enc e) Hw) as (w' & -> & Hw'). cbn [StatusOK].
  destruct name as [name|]; [|exists w', env1; split; [done|reflexivity]].
  destruct (SetCurrentFile_ok (vs_manifest_file_number (set_pointers cp vs)) (fs_Written name (dest_ w') env1)) as (env2 & ->). cbn [result_status StatusOK].
  exists w', env2. split; [done|reflexivity].
Qed.
End LogAndApply_.

(** ** The compaction pointers *)

Definition snapshot_pointer_list (levels : list nat) (cp : list bytes) : list (Z * InternalKey) :=
  concat (map (fun level => match cp !! level with Some p => if zlen p =? 0 then [] else [(Z.of_nat level, p)] | None => [] end) levels).

Lemma fold_pointer_ops (cp : list bytes) (levels : list nat) (e : VersionEdit) :
  ve_compact_pointers (fold_left ve_apply (concat (map (fun level => match cp !! level with
    | Some p => if zlen p =? 0 then [] else [VCompactPointer (Z.of_nat level) p] | None => [] end) levels)) e) =
  ve_compact_pointers e ++ snapshot_pointer_list levels cp.
Proof.
  unfold snapshot_pointer_list. revert e. induction levels as [|level levels IH]; intros e; cbn [map concat]; [by rewrite app_nil_r|].
  rewrite fold_left_app, IH. destruct (cp !! level) as [p|]; [|done]. destruct (zlen p =? 0); [done|]. cbn. by rewrite <- app_assoc.
Qed.

Lemma snapshot_compact_pointers {C : Comparator} {W : Type} (vs : VersionSet W) :
  ve_compact_pointers (snapshot_edit (C := C) vs) = snapshot_pointer_list (seq 0 kNumLevels) (vs_compact_pointer vs).
Proof.
  rewrite snapshot_edit_ops. cbn [fold_left]. rewrite fold_left_app.
  destruct (adds_fields (snapshot_file_ops (current vs)) (fold_left ve_apply (snapshot_pointer_ops (vs_compact_pointer vs))
    (ve_apply newVersionEdit (VComparator (lit (Name (Comparator := C))))))) as (_ & _ & _ & _ & _ & E & _).
  { intros op Hop. apply list_elem_of_In, in_concat in Hop as (l & Hl & Hop). apply in_map_iff in Hl as (level & <- & _).
    apply in_map_iff in Hop as (f & <- & _). do 5 eexists. reflexivity. }
  rewrite E. unfold snapshot_pointer_ops. by rewrite fold_pointer_ops.
Qed.

Lemma snapshot_pointer_list_app (a b : list nat) (cp : list bytes) :
  snapshot_pointer_list (a ++ b) cp = snapshot_pointer_list a cp ++ snapshot_pointer_list b cp.
Proof. unfold snapshot_pointer_list. by rewrite map_app, concat_app. Qed.

Lemma snapshot_pointers_back (cp : list bytes) :
  length cp = kNumLevels -> fold_left set_pointer (snapshot_pointer_list (seq 0 kNumLevels) cp) (replicate kNumLevels []) = cp.
Proof.
  intros Hl. assert (forall k, (k <= kNumLevels)%nat -> fold_left set_pointer (snapshot_pointer_list (seq 0 k) cp) (replicate kNumLevels []) =
    take k cp ++ replicate (kNumLevels - k) []) as Hk.
  { induction k as [|k IH]; intros Hk; [by rewrite Nat.sub_0_r|]. rewrite seq_S, snapshot_pointer_list_app, fold_left_app, IH by lia. unfold snapshot_pointer_list. cbn [map concat].
    destruct (lookup_lt_is_Some_2 cp k) as [p Hp]; [lia|]. cbn [Nat.add]. rewrite Hp, app_nil_r. rewrite (take_S_r cp k p Hp), <- app_assoc.
    replace (kNumLevels - k)%nat with (S (kNumLevels - S k)) by lia. cbn [replicate app].
    destruct (Z.eqb_spec (zlen p) 0) as [Ez|Ez]; [apply zlen_0 in Ez; by subst p|]. cbn [fold_left]. unfold set_pointer. cbn [fst snd]. rewrite Nat2Z.id.
    replace k with (length (take k cp) + 0)%nat at 1 by (rewrite length_take; lia). rewrite insert_app_r. done. }
  rewrite Hk, Nat.sub_diag, app_nil_r by lia. apply take_ge. lia.
Qed.

(** Setting pointers twice is setting them once. *)
Lemma set_pointers_length (ps : list (Z * InternalKey)) (cp : list bytes) : length (fold_left set_pointer ps cp) = length cp.
Proof. revert cp. induction ps as [|p ps IH]; intros cp; [done|]. cbn. rewrite IH. apply length_insert. Qed.

Lemma set_pointers_agree (ps : list (Z * InternalKey)) (cp cp' : list bytes) :
  length cp = length cp' -> (forall i, i ∉ map (fun p => Z.to_nat (fst p)) ps -> cp !! i = cp' !! i) -> fold_left set_pointer ps cp = fold_left set_pointer ps cp'.
Proof.
  revert cp cp'. induction ps as [|p ps IH]; intros cp cp' Hl Hag; cbn [fold_left].
  - apply list_eq. intros i. apply Hag. apply not_elem_of_nil.
  - apply IH; [unfold set_pointer; by rewrite !length_insert|]. intros i Hi. unfold set_pointer. rewrite !list_lookup_insert.
    rewrite Hl. case_decide as Ed; [done|]. destruct (decide (i = Z.to_nat (fst p))) as [->|Hne].
    + rewrite !lookup_ge_None_2; [done|lia..].
    + apply Hag. cbn [map]. by apply not_elem_of_cons.
Qed.

Lemma set_pointers_other (ps : list (Z * InternalKey)) (cp : list bytes) (i : nat) :
  i ∉ map (fun p => Z.to_nat (fst p)) ps -> fold_left set_pointer ps cp !! i = cp !! i.
Proof.
  revert cp. induction ps as [|p ps IH]; intros cp Hi; [done|]. cbn [map] in Hi. apply not_elem_of_cons in Hi as [H1 H2]. cbn [fold_left].
  rewrite IH by done. unfold set_pointer. by rewrite list_lookup_insert_ne.
Qed.

Lemma edit_pointers_idemp (cp : list bytes) (e : VersionEdit) : edit_pointers (edit_pointers cp e) e = edit_pointers cp e.
Proof. apply set_pointers_agree; [apply set_pointers_length|]. intros i Hi. by apply set_pointers_other. Qed.

Lemma set_pointers_small (ps : list (Z * InternalKey)) (cp : list bytes) :
  (forall p, p ∈ ps -> zlen (snd p) < 2 ^ 32) -> (forall p, p ∈ cp -> zlen p < 2 ^ 32) -> forall p, p ∈ fold_left set_pointer ps cp -> zlen p < 2 ^ 32.
Proof.
  revert cp. induction ps as [|q ps IH]; intros cp Hps Hcp p; [apply Hcp|]. cbn [fold_left]. apply IH; [intros x Hx; apply Hps; by right|].
  intros x Hx. apply list_elem_of_lookup in Hx as [i Hi]. unfold set_pointer in Hi. apply list_lookup_insert_Some in Hi as [(_ & <- & _)|[_ Hi]].
  - apply Hps. by left.
  - apply Hcp. by apply list_elem_of_lookup_2 in Hi.
Qed.

(** ** A run of [LogAndApply] *)

(** An edit, with the values of the file and sequence counters when it is logged. *)
Record LogStep := mkLogStep { ls_edit : VersionEdit; ls_next_file : Z; ls_last_sequence : Z }.

Section Run.
Context {C : Comparator} {E W F : Type} `{FileSystem E W F} `{WritableFile W} `{HandleFS E W}.
Context (dbname : bytes).

Definition log_step (s : LogStep) (vs : VersionSet W) (env : E) : Result unit * VersionEdit * VersionSet W * E :=
  LogAndApply (C := C) dbname (ls_edit s) (vs_SetLastSequence (ls_last_sequence s) (set_next_file (ls_next_file s) vs)) env.

Fixpoint log_all (steps : list LogStep) (vs : VersionSet W) (env : E) : option (VersionSet W * E) :=
  match steps with
  | [] => Some (vs, env)
  | s :: steps =>
      match log_step s vs env with
      | (Ok _, _, vs, env) => log_all steps vs env
      | (Err _, _, _, _) => None
      end
  end.
End Run.

Lemma apply_edits_dom (es : list VersionEdit) (M : file_map) (i : nat * Z) (f : FileMetaData) :
  fold_left apply_edit es M !! i = Some f -> i ∈ new_ids es \/ is_Some (M !! i).
Proof.
  assert (forall ps M, is_Some (fold_left del_file ps M !! i) -> is_Some (M !! i)) as Hd.
  { intros ps. induction ps as [|p ps IH]; intros M1; [done|]. cbn. intros Hx%IH. unfold del_file in Hx. destruct Hx as [x Hx].
    apply lookup_delete_Some in Hx as [_ Hx]. eauto. }
  assert (forall ps M, is_Some (fold_left add_file ps M !! i) -> i ∈ map new_id ps \/ is_Some (M !! i)) as Ha.
  { intros ps. induction ps as [|p ps IH]; intros M1; [by right|]. cbn. rewrite elem_of_cons. intros [Hx|Hx]%IH; [by left; right|].
    unfold add_file in Hx. fold (new_id p) in Hx. destruct (decide (new_id p = i)) as [<-|Hne]; [by left; left|]. rewrite lookup_insert_ne in Hx by done. by right. }
  revert M. induction es as [|e es IH]; intros M Hf; [right; by exists f|]. cbn [fold_left] in Hf. unfold new_ids. cbn [map concat]. rewrite elem_of_app.
  apply IH in Hf as [Hf|Hf]; [by left; right|]. unfold apply_edit in Hf. apply Ha in Hf as [Hf|Hf]; [by left; left|right; by eapply Hd].
Qed.

Lemma new_ids_app (es es' : list VersionEdit) : new_ids (es ++ es') = new_ids es ++ new_ids es'.
Proof. unfold new_ids. by rewrite map_app, concat_app. Qed.

Section Logged.
Context {C : Comparator} {CL : ComparatorLaws C} {E W F : Type} `{FileSystemLaws E W F}.
Context (dbname : bytes).

(** An edit that can be logged: it can be encoded and names no other comparator. *)
Definition loggable (e : VersionEdit) : Prop :=
  edit_ok e /\ (ve_comparator e = None \/ ve_comparator e = Some (lit (Name (Comparator := C)))).

(** The MANIFEST of [vs] holds the snapshot [snap] of the files [M0] and the edits [es]. *)
Record Logged (snap : VersionEdit) (M0 : file_map) (es : list VersionEdit) (vs : VersionSet W) : Prop := {
  lg_log : exists w, vs_descriptor_log vs = Some w /\ log_holds w (map (fun e => enc e) (snap :: es));
  lg_ok : Forall loggable (snap :: es);
  lg_rep : version_rep (C := C) (current vs) (fold_left apply_edit es M0);
  lg_final : exists files, current vs = Finalize (mkVersion files None (-1) (dbl_of_Z (-1)) (-1));
  lg_pointers : vs_compact_pointer vs = fold_left edit_pointers (snap :: es) (replicate kNumLevels []);
  lg_counters : exists e, last es = Some e /\ ve_next_file_number e = Some (vs_next_file_number vs) /\
    ve_last_sequence e = Some (vs_last_sequence vs) /\ ve_log_number e = Some (vs_log_number vs) /\ ve_prev_log_number e = Some (vs_prev_log_number vs)
}.

Lemma Finalize_rep (v : Version) (M : file_map) : version_rep (C := C) v M -> version_rep (C := C) (Finalize v) M.
Proof. intros []. by split. Qed.

(** The files of the next version. *)
Lemma next_version_rep (vs : VersionSet W) (M : file_map) (e : VersionEdit) :
  version_rep (C := C) (current vs) M -> edit_levels_ok e -> NoDup (map new_id (ve_new_files e)) -> (forall i, i ∈ map new_id (ve_new_files e) -> M !! i = None) ->
  version_rep (C := C) (next_version (C := C) vs e) (apply_edit M e).
Proof.
  intros Hv He Hnd Hfr. apply Finalize_rep.
  destruct (Apply_rep (current vs) M [] (newBuilder (vs_compact_pointer vs) (current vs)) M e Hv He Hnd) as (ids & _ & Hb).
  - intros i Hi. split; [apply not_elem_of_nil|by apply Hfr].
  - by apply newBuilder_rep.
  - by eapply SaveTo_rep.
Qed.

Lemma current_append (vs : VersionSet W) next man seq log prev (d : option (Writer W)) (v : Version) cp :
  current (mkVersionSet next man seq log prev d (vs_versions vs ++ [v]) cp) = v.
Proof. unfold current. cbn [vs_versions]. apply last_last. Qed.

(** What is fixed for a step: the edit can be logged, the counters fit. *)
Definition step_ok (s : LogStep) : Prop := loggable (ls_edit s) /\ num_ok (ls_next_file s) /\ num_ok (ls_last_sequence s).

Abbreviation ready s vs := (vs_SetLastSequence (ls_last_sequence s) (set_next_file (ls_next_file s) vs)).

Lemma prepare_loggable (s : LogStep) (vs : VersionSet W) :
  step_ok s -> num_ok (vs_log_number vs) -> num_ok (vs_prev_log_number vs) -> loggable (prepare_edit (ready s vs) (ls_edit s)).
Proof.
  intros ((He & Hc) & Hn & Hs) Hl Hp. split; [by apply prepare_edit_ok|]. by destruct (prepare_edit_fields (ready s vs) (ls_edit s)) as (-> & _).
Qed.

(** The state after a successful call. *)
Lemma Logged_after (snap : VersionEdit) (M0 : file_map) (es : list VersionEdit) (s : LogStep) (vs : VersionSet W) (w : Writer W) :
  let vs0 := ready s vs in
  let e := prepare_edit vs0 (ls_edit s) in
  log_holds w (map (fun e => enc e) (snap :: es) ++ [enc e]) -> Forall loggable (snap :: es) -> loggable e ->
  version_rep (C := C) (current vs) (fold_left apply_edit es M0) ->
  NoDup (map new_id (ve_new_files e)) -> (forall i, i ∈ map new_id (ve_new_files e) -> fold_left apply_edit es M0 !! i = None) ->
  edit_pointers (vs_compact_pointer vs) e = fold_left edit_pointers (snap :: es ++ [e]) (replicate kNumLevels []) ->
  Logged snap M0 (es ++ [e]) (mkVersionSet (vs_next_file_number vs0) (vs_manifest_file_number vs0) (vs_last_sequence vs0)
    (default 0 (ve_log_number e)) (default 0 (ve_prev_log_number e)) (Some w) (vs_versions vs0 ++ [next_version (C := C) vs0 e])
    (edit_pointers (vs_compact_pointer vs0) e)).
Proof.
  intros vs0 e Hw Hok He Hrep Hnd Hfr Hcp. split.
  - exists w. split; [done|]. change (snap :: es ++ [e]) with ((snap :: es) ++ [e]). by rewrite map_app.
  - change (snap :: es ++ [e]) with ((snap :: es) ++ [e]). apply Forall_app. split; [done|]. by constructor.
  - rewrite current_append, fold_left_app. apply next_version_rep; [done|apply edit_ok_levels, He|done|done].
  - rewrite current_append. unfold next_version, SaveTo. eexists. reflexivity.
  - exact Hcp.
  - exists e. rewrite last_snoc. split; [done|]. destruct (prepare_edit_fields vs0 (ls_edit s)) as (_ & _ & _ & _ & Hn & Hs & (l & Hl) & (p & Hp)).
    fold e in Hn, Hs, Hl, Hp. rewrite Hn, Hs, Hl, Hp. done.
Qed.

(** A set that has no MANIFEST open: a new or a recovered one. *)
Record Start (vs : VersionSet W) (M0 : file_map) : Prop := {
  st_log : vs_descriptor_log vs = None;
  st_rep : version_rep (C := C) (current vs) M0;
  st_meta : forall level f, f ∈ files_ (current vs) level -> meta_ok f;
  st_pointers : length (vs_compact_pointer vs) = kNumLevels /\ forall p, p ∈ vs_compact_pointer vs -> zlen p < 2 ^ 32;
  st_numbers : num_ok (vs_log_number vs) /\ num_ok (vs_prev_log_number vs)
}.

(** The files the edits add are new. *)
Definition edits_fresh (M0 : file_map) (es : list VersionEdit) : Prop := NoDup (new_ids es) /\ forall i, i ∈ new_ids es -> M0 !! i = None.

Lemma edits_fresh_step (M0 : file_map) (es : list VersionEdit) (e : VersionEdit) :
  edits_fresh M0 (es ++ [e]) ->
  NoDup (map new_id (ve_new_files e)) /\ forall i, i ∈ map new_id (ve_new_files e) -> fold_left apply_edit es M0 !! i = None.
Proof.
  intros [Hnd Hfr]. rewrite new_ids_app in Hnd, Hfr. assert (new_ids [e] = map new_id (ve_new_files e)) as E1.
  { unfold new_ids. cbn [map concat]. apply app_nil_r. }
  rewrite E1 in Hnd, Hfr. apply NoDup_app in Hnd as (_ & Hdj & Hnd). split; [done|]. intros i Hi.
  destruct (fold_left apply_edit es M0 !! i) as [f|] eqn:Ef; [|done]. apply apply_edits_dom in Ef as [Ef|[g Eg]].
  - by destruct (Hdj i Ef).
  - rewrite Hfr in Eg; [done|]. apply elem_of_app. by right.
Qed.

Lemma snapshot_loggable (vs : VersionSet W) (M0 : file_map) (cp : list bytes) :
  Start vs M0 -> zlen (lit (Name (Comparator := C))) < 2 ^ 32 -> (forall p, p ∈ cp -> zlen p < 2 ^ 32) ->
  loggable (snapshot_edit (C := C) (set_pointers cp vs)).
Proof.
  intros [_ _ Hm _ _] Hn Hcp. split; [by apply snapshot_edit_ok|]. right. by destruct (snapshot_fields (C := C) (set_pointers cp vs)) as (-> & _).
Qed.

(** The first edit: a new MANIFEST with a snapshot. *)
Lemma log_first (M0 : file_map) (s : LogStep) (vs : VersionSet W) (env : E) :
  Start vs M0 -> step_ok s -> zlen (lit (Name (Comparator := C))) < 2 ^ 32 -> edits_fresh M0 [ls_edit s] ->
  exists snap e vs' env', log_step (C := C) dbname s vs env = (Ok tt, e, vs', env') /\ ve_new_files e = ve_new_files (ls_edit s) /\
    vs_manifest_file_number vs' = vs_manifest_file_number vs /\ apply_edit ∅ snap = M0 /\ ve_deleted_files snap = [] /\ NoDup (map new_id (ve_new_files snap)) /\
    Logged snap M0 [e] vs'.
Proof.
  intros HS Hs Hname Hfr. pose proof HS as [S1 S2 S3 [S4 S5] [S6 S7]]. unfold log_step.
  set (vs0 := ready s vs). set (e := prepare_edit vs0 (ls_edit s)). set (cp := edit_pointers (vs_compact_pointer vs0) e).
  pose proof (prepare_loggable s vs Hs S6 S7) as He. fold vs0 e in He. destruct (prepare_edit_fields vs0 (ls_edit s)) as (_ & _ & _ & Hnew & _). fold e in Hnew.
  assert (forall p, p ∈ cp -> zlen p < 2 ^ 32) as Hcp.
  { apply set_pointers_small; [|exact S5]. intros p Hp. apply (edit_ok_pointers e p) in Hp as [_ Hp]; [apply Hp|apply He]. }
  assert (Start vs0 M0) as HS0 by (by split). set (snap := snapshot_edit (C := C) (set_pointers cp vs0)).
  destruct (LogAndApply_ok (C := C) dbname (ls_edit s) vs0 env [enc snap]) as (w & env' & Hw & Eq).
  { unfold log_before. fold e cp. cbn [set_pointers vs_descriptor_log]. unfold vs0. cbn. by rewrite S1. }
  fold e in Hw, Eq. rewrite Eq. destruct (edits_fresh_step M0 [] (ls_edit s) Hfr) as [Hnd Hfr']. rewrite <- Hnew in Hnd, Hfr'.
  destruct (snapshot_fields (C := C) (set_pointers cp vs0)) as (_ & _ & _ & _ & _ & Hd & Hf). fold snap in Hd, Hf. change (current (set_pointers cp vs0)) with (current vs) in Hf.
  exists snap, e. eexists _, env'. split_and!; [reflexivity|done|done|by eapply snapshot_map|done|rewrite Hf; by eapply snapshot_ids_NoDup|].
  apply (Logged_after snap M0 [] s vs w); fold vs0 e; try done.
  - constructor; [|constructor]. by apply snapshot_loggable with M0.
  - cbn [fold_left app]. unfold edit_pointers at 3. unfold snap. rewrite snapshot_compact_pointers.
    change (vs_compact_pointer (set_pointers cp vs0)) with cp. rewrite snapshot_pointers_back; [|unfold cp, edit_pointers; rewrite set_pointers_length; exact S4].
    change cp with (edit_pointers (vs_compact_pointer vs) e). symmetry. apply edit_pointers_idemp.
Qed.

(** Every further edit. *)
Lemma log_more (snap : VersionEdit) (M0 : file_map) (es : list VersionEdit) (s : LogStep) (vs : VersionSet W) (env : E) :
  Logged snap M0 es vs -> step_ok s -> edits_fresh M0 (es ++ [ls_edit s]) ->
  exists e vs' env', log_step (C := C) dbname s vs env = (Ok tt, e, vs', env') /\ ve_new_files e = ve_new_files (ls_edit s) /\
    vs_manifest_file_number vs' = vs_manifest_file_number vs /\ Logged snap M0 (es ++ [e]) vs'.
Proof.
  intros [(w & Ew & Hw) Hok Hrep Hfin Hcp (e0 & He0 & _ & _ & Hl & Hp)] Hs Hfr. unfold log_step.
  set (vs0 := ready s vs). set (e := prepare_edit vs0 (ls_edit s)).
  assert (edit_ok e0) as Hok0.
  { apply last_Some_elem_of in He0. apply Forall_cons in Hok as [_ Hok]. rewrite Forall_forall in Hok. by apply Hok. }
  pose proof (prepare_loggable s vs Hs (edit_ok_numbers e0 _ Hok0 (or_introl Hl)) (edit_ok_numbers e0 _ Hok0 (or_intror Hp))) as He. fold vs0 e in He.
  destruct (prepare_edit_fields vs0 (ls_edit s)) as (_ & _ & _ & Hnew & _). fold e in Hnew.
  destruct (LogAndApply_ok (C := C) dbname (ls_edit s) vs0 env (map (fun e => enc e) (snap :: es))) as (w' & env' & Hw' & Eq).
  { unfold log_before. fold e. cbn [set_pointers vs_descriptor_log]. unfold vs0. cbn [vs_SetLastSequence set_next_file vs_descriptor_log]. by rewrite Ew. }
  fold e in Hw', Eq. rewrite Eq. destruct (edits_fresh_step M0 es (ls_edit s) Hfr) as [Hnd Hfr']. rewrite <- Hnew in Hnd, Hfr'.
  exists e. eexists _, env'. split_and!; [reflexivity|done|done|].
  apply (Logged_after snap M0 es s vs w'); fold vs0 e; try done.
  change (snap :: es ++ [e]) with ((snap :: es) ++ [e]). rewrite fold_left_app, <- Hcp. done.
Qed.

(** All of them. *)
Lemma log_rest (snap : VersionEdit) (M0 : file_map) (steps : list LogStep) (es : list VersionEdit) (vs : VersionSet W) (env : E) :
  Logged snap M0 es vs -> Forall step_ok steps -> edits_fresh M0 (es ++ map ls_edit steps) ->
  exists es', length es' = length steps /\ new_ids es' = new_ids (map ls_edit steps) /\
    forall j, (j <= length steps)%nat -> exists vs' env', log_all (C := C) dbname (take j steps) vs env = Some (vs', env') /\
      vs_manifest_file_number vs' = vs_manifest_file_number vs /\ Logged snap M0 (es ++ take j es') vs'.
Proof.
  intros HL Hs. revert es vs env HL. induction Hs as [|s steps Hs Hss IH]; intros es vs env HL Hfr.
  - exists []. split_and!; [done|done|]. intros j _. exists vs, env. rewrite !take_nil, app_nil_r. done.
  - destruct (log_more snap M0 es s vs env HL Hs) as (e & vs1 & env1 & Eq & Hnew & Hman & HL1).
    { destruct Hfr as [Hnd Hfr]. cbn [map] in *. change (ls_edit s :: map ls_edit steps) with ([ls_edit s] ++ map ls_edit steps) in *.
      rewrite app_assoc, new_ids_app in Hnd, Hfr. apply NoDup_app in Hnd as (Hnd & _ & _). split; [done|]. intros i Hi. apply Hfr, elem_of_app. by left. }
    assert (new_ids [e] = new_ids [ls_edit s]) as Hid by (unfold new_ids; cbn; by rewrite Hnew).
    destruct (IH (es ++ [e]) vs1 env1 HL1) as (es' & Hlen & Hids & Hall).
    { unfold edits_fresh in *. rewrite <- app_assoc. cbn [map] in Hfr. change (ls_edit s :: map ls_edit steps) with ([ls_edit s] ++ map ls_edit steps) in Hfr.
      rewrite !new_ids_app in *. by rewrite Hid. }
    exists (e :: es'). split_and!; [cbn; by rewrite Hlen| |].
    + cbn [map]. change (e :: es') with ([e] ++ es'). change (ls_edit s :: map ls_edit steps) with ([ls_edit s] ++ map ls_edit steps).
      by rewrite !new_ids_app, Hid, Hids.
    + intros [|j] Hj; [exists vs, env; cbn [take]; by rewrite app_nil_r|]. cbn in Hj. destruct (Hall j ltac:(lia)) as (vs' & env' & Hrun & Hman' & HL').
      exists vs', env'. cbn [take log_all]. rewrite Eq. split_and!; [done|by rewrite Hman'|]. by rewrite <- app_assoc in HL'.
Qed.
End Logged.

(** ** Reading the MANIFEST back *)

Lemma ztake_all {A} (n : Z) (l : list A) : zlen l <= n -> ztake n l = l.
Proof. unfold zlen, ztake. intros Hl. apply take_ge. lia. Qed.

(** The CURRENT file is one short line: the name of the MANIFEST. *)
Lemma current_contents_spec (dbname : bytes) (n : Z) :
  num_ok n -> exists name, current_contents dbname n = name ++ [Byte.x0a] /\ zlen name < 1024 /\ dbname ++ lit "/" ++ name = DescriptorFileName dbname n.
Proof.
  intros Hn. exists (lit "MANIFEST-" ++ format6 n). destruct (format6_spec n Hn) as (Hd & Hne & _).
  assert (zdrop (zlen dbname + 1) (DescriptorFileName dbname n) = lit "MANIFEST-" ++ format6 n) as Ez.
  { unfold DescriptorFileName. change (lit "/MANIFEST-" ++ format6 n) with ([Byte.x2f] ++ lit "MANIFEST-" ++ format6 n). rewrite app_assoc.
    replace (zlen dbname + 1) with (zlen (dbname ++ [Byte.x2f])) by (rewrite zlen_app; done). apply zdrop_app_exact. }
  unfold current_contents. cbv zeta. rewrite Ez. split_and!; [| |done].
  - rewrite bool_decide_eq_false_2; [done|]. destruct (exists_last Hne) as (ds & d & E). rewrite E, app_assoc, last_last. intros ->.
    rewrite E in Hd. apply Forall_app in Hd as [_ Hd]. apply Forall_cons in Hd as [Hd _]. done.
  - assert (length (format6 n) <= 26)%nat as Hl.
    { unfold format6. rewrite length_app, length_replicate. unfold NumberToString. rewrite length_reverse.
      assert (forall k m, (length (to_string_rev k m) <= k)%nat) as Hk.
      { induction k as [|k IH]; intros m; cbn; [lia|]. case_match; cbn; [lia|]. specialize (IH (m / 10)). lia. }
      specialize (Hk 20%nat n). lia. }
    rewrite zlen_app. unfold zlen at 2. change (zlen (lit "MANIFEST-")) with 9. lia.
Qed.

Section Recovery.
Context {C : Comparator} {CL : ComparatorLaws C} {F : Type} `{SequentialFile F}.

Lemma recover_loop_read_all (es : list VersionEdit) (n fuel : nat) (s s' : Reader F) (st : Recovered) :
  Forall (loggable (C := C)) es -> read_all n fuel s = (Some (map (fun e => enc e) es), s') ->
  recover_loop (C := C) n fuel s st = Some (StatusOK, fold_left (fun st e => take_edit (C := C) e st) es st).
Proof.
  intros Hes. revert n s st. induction Hes as [|e es [He Hc] Hes IH]; intros [|n] s st Hr; cbn [read_all] in Hr; try done; cbn [recover_loop].
  - destruct (ReadRecord fuel s) as [[r| |] s1]; try done. by destruct (read_all n fuel s1) as [[rs|] s2].
  - destruct (ReadRecord fuel s) as [[r| |] s1]; try done. destruct (read_all n fuel s1) as [[rs|] s2] eqn:Er; [|done].
    cbn in Hr. injection Hr as -> -> ->. unfold recover_record. rewrite decode_encode by done.
    assert (recover_loop n fuel s1 (take_edit e st) = Some (StatusOK, fold_left (fun st e => take_edit (C := C) e st) (e :: es) st)) as Hgo by (by apply IH).
    destruct Hc as [-> | ->]; [done|]. by rewrite bool_decide_eq_false_2 by (intros []; done).
Qed.

Lemma take_edits_builder (es : list VersionEdit) (st : Recovered) :
  rc_builder (fold_left (fun st e => take_edit (C := C) e st) es st) = fold_left (Builder_Apply (C := C)) es (rc_builder st).
Proof. revert st. induction es as [|e es IH]; intros st; [done|]. cbn [fold_left]. apply IH. Qed.

Lemma newVersion_rep : version_rep (C := C) newVersion ∅.
Proof.
  assert (forall level, files_ newVersion level = []) as Hf.
  { intros level. unfold files_, newVersion. cbn [v_files]. rewrite nth_lookup. destruct (replicate _ _ !! level) eqn:Er; [|done]. by apply lookup_replicate in Er as [-> _]. }
  split; [done|intros level; rewrite Hf; constructor| |].
  - intros level f. rewrite Hf, lookup_empty. split; [by intros ?%not_elem_of_nil|done].
  - intros level n f. by rewrite lookup_empty.
Qed.

(** The files that the records give. *)
Lemma recovered_rep (cp : list bytes) (snap : VersionEdit) (M0 : file_map) (es : list VersionEdit) :
  Forall edit_ok (snap :: es) -> apply_edit ∅ snap = M0 -> ve_deleted_files snap = [] -> NoDup (map new_id (ve_new_files snap)) -> edits_fresh M0 es ->
  version_rep (C := C) (SaveTo (C := C) (fold_left (Builder_Apply (C := C)) (snap :: es) (newBuilder cp newVersion))) (fold_left apply_edit es M0).
Proof.
  intros Hok HM Hdel Hnd [Hnd' Hfr]. destruct (Apply_all_rep newVersion ∅ (snap :: es) [] (newBuilder cp newVersion) ∅) as (ids & Hb).
  - apply newVersion_rep.
  - eapply Forall_impl; [exact Hok|]. apply edit_ok_levels.
  - unfold new_ids. cbn [map concat]. apply NoDup_app. split_and!; [done| |done]. intros i Hi Hi'. apply Hfr in Hi'.
    apply list_elem_of_In, in_map_iff in Hi as (p & <- & Hp). apply list_elem_of_In in Hp.
    assert (M0 !! new_id p = Some (with_allowed_seeks (snd p))) as Hs; [|congruence].
    rewrite <- HM. unfold apply_edit. rewrite Hdel. cbn [fold_left]. apply add_files_lookup; [done|]. left. by exists p.
  - intros i _. split; [apply not_elem_of_nil|apply lookup_empty].
  - apply newBuilder_rep, newVersion_rep.
  - cbn [fold_left] in Hb. rewrite HM in Hb. eapply SaveTo_rep; [apply newVersion_rep|exact Hb].
Qed.
End Recovery.

(** ** Crash and recovery *)

Section Crash.
Context {C : Comparator} {CL : ComparatorLaws C} {E W F : Type} `{FileSystemLaws E W F} `{SequentialFileLaws F}.
Context (dbname : bytes).

Definition manifest_of (vs : VersionSet W) : bytes := match vs_descriptor_log vs with Some w => wf_contents (dest_ w) | None => [] end.

(** After a crash, opening CURRENT and then the MANIFEST it names gives the first
    [n] bytes of [manifest]. *)
Definition crashed (manifest_number : Z) (manifest : bytes) (n : Z) (env env' : E) : Prop :=
  exists cf env1 mf,
    fs_NewSequentialFile (CurrentFileName dbname) env = (Ok cf, env1) /\ sf_rest cf = current_contents dbname manifest_number /\
    fs_NewSequentialFile (DescriptorFileName dbname manifest_number) env1 = (Ok mf, env') /\ sf_rest mf = ztake n manifest.

(** [vs'] is what recovery makes of the state [vs]: the same version, pointers, log
    numbers and last sequence; its next MANIFEST takes the next file number. *)
Definition recovers (vs vs' : VersionSet W) : Prop :=
  current vs' = current vs /\ vs_compact_pointer vs' = vs_compact_pointer vs /\ vs_last_sequence vs' = vs_last_sequence vs /\
  vs_log_number vs' = vs_log_number vs /\ vs_prev_log_number vs' = vs_prev_log_number vs /\
  vs_manifest_file_number vs' = vs_next_file_number vs /\ vs_next_file_number vs' = u64 (vs_next_file_number vs + 1) /\
  vs_descriptor_log vs' = None.

Lemma MarkFileNumberUsed_fields (n : Z) (vs : VersionSet W) :
  exists next, MarkFileNumberUsed n vs = set_next_file next vs.
Proof. unfold MarkFileNumberUsed. case_match; [by eexists|]. exists (vs_next_file_number vs). by destruct vs. Qed.

Lemma install_logged (snap : VersionEdit) (M0 : file_map) (es : list VersionEdit) (vs : VersionSet W) :
  Logged (C := C) snap M0 es vs -> apply_edit ∅ snap = M0 -> ve_deleted_files snap = [] -> NoDup (map new_id (ve_new_files snap)) -> edits_fresh M0 es ->
  let st := fold_left (fun st e => take_edit (C := C) e st) (snap :: es)
    (mkRecovered (newBuilder (vs_compact_pointer (newVersionSet (W := W))) (current (newVersionSet (W := W)))) None None None None) in
  exists vs', install_recovered (C := C) st (set_pointers (bld_compact_pointer (rc_builder st)) (newVersionSet (W := W))) = (Ok true, vs') /\ recovers vs vs'.
Proof.
  intros [_ Hok Hrep (files & Hfin) Hcp (e & He & Hnf & Hls & Hln & Hpn)] HM Hdel Hnd Hfr st.
  pose proof (recovered_rep (C := C) (vs_compact_pointer (newVersionSet (W := W))) snap M0 es ltac:(eapply Forall_impl; [exact Hok|]; by intros x []) HM Hdel Hnd Hfr) as Hrec.
  assert (rc_builder st = fold_left (Builder_Apply (C := C)) (snap :: es) (newBuilder (vs_compact_pointer (newVersionSet (W := W))) newVersion)) as Hb by apply take_edits_builder.
  apply last_Some in He as (es' & ->).
  assert (rc_next_file st = Some (vs_next_file_number vs) /\ rc_last_sequence st = Some (vs_last_sequence vs) /\
    rc_log_number st = Some (vs_log_number vs) /\ rc_prev_log_number st = Some (vs_prev_log_number vs)) as (H1' & H2' & H3' & H4').
  { unfold st. change (snap :: es' ++ [e]) with ((snap :: es') ++ [e]). rewrite fold_left_app. set (st1 := fold_left _ (snap :: es') _). cbn [fold_left].
    unfold take_edit. cbn [rc_next_file rc_last_sequence rc_log_number rc_prev_log_number]. rewrite Hnf, Hls, Hln, Hpn. done. }
  unfold install_recovered. rewrite H1', H2', H3', H4'. change (default 0 (Some (vs_prev_log_number vs))) with (vs_prev_log_number vs).
  destruct (MarkFileNumberUsed_fields (vs_prev_log_number vs) (set_pointers (bld_compact_pointer (rc_builder st)) (newVersionSet (W := W)))) as (n1 & ->).
  destruct (MarkFileNumberUsed_fields (vs_log_number vs) (set_next_file n1 (set_pointers (bld_compact_pointer (rc_builder st)) (newVersionSet (W := W))))) as (n2 & ->).
  eexists. split; [reflexivity|]. unfold recovers. split_and!; try done.
  - unfold current at 1. cbn [AppendVersion vs_versions set_next_file]. rewrite last_last, Hb. pose proof (version_rep_unique _ _ _ Hrec Hrep) as Hv. rewrite Hfin in Hv. cbn [Finalize v_files] in Hv. rewrite Hfin.
    unfold Finalize, best_level, level_score, files_ in *. unfold SaveTo in *. cbn [v_files v_file_to_compact v_file_to_compact_level] in *. by rewrite Hv.
  - rewrite Hcp. cbn [AppendVersion vs_compact_pointer set_next_file set_pointers]. rewrite Hb. apply pointers_of_edits.
Qed.

Lemma Recover_logged (snap : VersionEdit) (M0 : file_map) (es : list VersionEdit) (vs : VersionSet W) (num : Z) (cf mf : F) s' (env env1 env' : E) (size : nat) :
  Logged (C := C) snap M0 es vs -> apply_edit ∅ snap = M0 -> ve_deleted_files snap = [] -> NoDup (map new_id (ve_new_files snap)) -> edits_fresh M0 es ->
  num_ok num -> fs_NewSequentialFile (CurrentFileName dbname) env = (Ok cf, env1) -> sf_rest cf = current_contents dbname num ->
  fs_NewSequentialFile (DescriptorFileName dbname num) env1 = (Ok mf, env') ->
  read_all (S size) (S size) (newReader mf false true 0) = (Some (map (fun e => enc e) (snap :: es)), s') ->
  exists vs', Recover (C := C) dbname size (newVersionSet (W := W)) env = Some (Ok true, vs', env') /\ recovers vs vs'.
Proof.
  intros HL HM Hdel Hnd Hfr Hnum Ecf Hcf Emf Er. unfold Recover. rewrite Ecf.
  destruct (current_contents_spec dbname num Hnum) as (name & Ename & Hlen & Epath).
  destruct (sf_Read_spec 1024 cf ltac:(lia)) as (cf' & Ercf & _). rewrite Ercf, Hcf, Ename. cbn [fst].
  rewrite ztake_all by (rewrite zlen_app; change (zlen [Byte.x0a]) with 1; lia).
  destruct (Z.eqb_spec (zlen (name ++ [Byte.x0a])) 0) as [Ez|_]; [rewrite zlen_app in Ez; pose proof (zlen_nonneg name); change (zlen [Byte.x0a]) with 1 in Ez; lia|].
  rewrite last_last, bool_decide_eq_true_2 by done. cbn [orb negb]. rewrite removelast_last, Epath, Emf. cbv zeta.
  erewrite recover_loop_read_all; [|apply HL|exact Er]. cbn [StatusOK ok].
  destruct (install_logged snap M0 es vs HL HM Hdel Hnd Hfr) as (vs' & Ei & Hv). change (ok StatusOK) with true. cbv iota. rewrite Ei. eauto.
Qed.

(** Every state of a run is [Logged]. *)
Lemma run_logged (vs0 : VersionSet W) (env0 : E) (M0 : file_map) (steps : list LogStep) :
  Start (C := C) vs0 M0 -> zlen (lit (Name (Comparator := C))) < 2 ^ 32 -> Forall (step_ok (C := C)) steps -> edits_fresh M0 (map ls_edit steps) -> steps <> [] ->
  exists snap es, length es = length steps /\ apply_edit ∅ snap = M0 /\ ve_deleted_files snap = [] /\ NoDup (map new_id (ve_new_files snap)) /\
    new_ids es = new_ids (map ls_edit steps) /\
    forall j, (1 <= j <= length steps)%nat -> exists vs env, log_all (C := C) dbname (take j steps) vs0 env0 = Some (vs, env) /\ Logged (C := C) snap M0 (take j es) vs.
Proof.
  intros HS Hname Hok Hfr Hne. destruct steps as [|s steps]; [done|]. apply Forall_cons in Hok as [Hs Hok].
  change (map ls_edit (s :: steps)) with ([ls_edit s] ++ map ls_edit steps) in *.
  destruct (log_first dbname M0 s vs0 env0 HS Hs Hname) as (snap & e & vs1 & env1 & E1 & Hnew & _ & HM & Hdel & Hnd & HL).
  { destruct Hfr as [Hnd Hfr]. rewrite new_ids_app in Hnd, Hfr. apply NoDup_app in Hnd as (Hnd & _ & _). split; [done|]. intros i Hi. apply Hfr, elem_of_app. by left. }
  assert (new_ids [e] = new_ids [ls_edit s]) as Hid by (unfold new_ids; cbn; by rewrite Hnew).
  destruct (log_rest dbname snap M0 steps [e] vs1 env1 HL Hok) as (es' & Hlen & Hids & Hall).
  { unfold edits_fresh in *. rewrite new_ids_app in *. by rewrite Hid. }
  exists snap, (e :: es'). split_and!; [cbn; by rewrite Hlen|done|done|done| |].
  - change (e :: es') with ([e] ++ es'). by rewrite !new_ids_app, Hid, Hids.
  - intros [|j] Hj; [lia|]. cbn in Hj. destruct (Hall j ltac:(lia)) as (vs & env & Er & _ & HLj). exists vs, env. cbn [take log_all]. rewrite E1. done.
Qed.

(** The MANIFEST after [j] edits of a run. *)
Definition manifest_after (vs0 : VersionSet W) (env0 : E) (steps : list LogStep) (j : nat) : bytes :=
  match log_all (C := C) dbname (take j steps) vs0 env0 with Some (vs, _) => manifest_of vs | None => [] end.

Lemma Logged_layout (snap : VersionEdit) (M0 : file_map) (es : list VersionEdit) (vs : VersionSet W) :
  Logged (C := C) snap M0 es vs -> exists o, Layout kBlockSize (map (fun e => enc e) (snap :: es)) (manifest_of vs) o.
Proof.
  intros [(w & Ew & HLw & _) _ _ _ _ _]. unfold manifest_of. rewrite Ew. exact (Layout_start 0 kBlockSize _ _ _ eq_refl eq_refl HLw).
Qed.

End Crash.

(** ** A file system in memory, to instantiate the laws *)

Definition MapFS : Type := gmap bytes bytes.

#[export] Instance MapFS_fs : FileSystem MapFS MemFile MemFile := {
  fs_NewSequentialFile name env :=
    match env !! name with Some data => (Ok (mkMemFile data), env) | None => (Err (NotFound "" ""), env) end;
  fs_NewWritableFile name env := (Ok (mkMemFile []), <[name := []]> env);
  fs_RemoveFile name env := (Ok tt, delete name env);
  fs_RenameFile from to env :=
    match env !! from with Some data => (Ok tt, <[to := data]> (delete from env)) | None => (Err (NotFound "" ""), env) end
}.

#[export] Instance MapFS_handle : HandleFS MapFS MemFile := { fs_Written name w env := <[name := mf_data w]> env }.

#[export] Instance MapFS_laws : FileSystemLaws MapFS MemFile MemFile.
Proof. split; intros; [by eexists _, _|]. cbn [fs_RenameFile MapFS_fs fs_Written MapFS_handle]. unfold MapFS in *. rewrite lookup_insert_eq. by eexists. Defined.

(** Two files are added, with one edit each. *)
Definition example_edit (n : Z) (k : byte) : VersionEdit :=
  ve_apply newVersionEdit (VAddFile 1 n 4096 (newInternalKey [k] 1 kTypeValue) (newInternalKey [k] 1 kTypeValue)).
Lemma example_step_ok (n : Z) (k : byte) (next seq : Z) :
  num_ok n -> num_ok next -> num_ok seq -> step_ok (C := BytewiseComparator) (mkLogStep (example_edit n k) next seq).
Proof.
  intros Hn Hnext Hseq. split; [split; [|by left]|done]. apply ve_apply_ok; [|apply newVersionEdit_ok].
  assert (key_ok (newInternalKey [k] 1 kTypeValue)) as Hk by (split; vm_compute; reflexivity). split; [vm_compute; done|]. split_and!; try done.
Qed.

Definition example_steps : list LogStep := [mkLogStep (example_edit 5 Byte.x61) 6 10; mkLogStep (example_edit 7 Byte.x62) 8 20].
Definition example_crash (manifest : bytes) : MapFS :=
  <[CurrentFileName (lit "db") := current_contents (lit "db") 0]> (<[DescriptorFileName (lit "db") 0 := ztake 1000 manifest]> ∅).

