(* ===== verification/Compaction.v ===== *)
(** * Compaction: what a compaction reads ([db/version_set.cc], [db/version_set.h])

    The choice of the input files ([PickCompaction], [CompactRange],
    [SetupOtherInputs]) and the methods of class [Compaction].  The results: a chosen
    compaction leaves no older version of a key behind on its level, takes every file
    of the next level that it overlaps, and the two cursors it keeps while it runs
    answer as the scans they replace. *)

From stdpp Require Import sorting.
From S2P Require Import Prelude Status Coding Comparator Logging DbFormat Env LogFile Table VersionEdit Iterator TwoLevelIterator Merger Version VersionBuilder VersionSet.
From Stdlib Require Import Sorting.Sorted.

(** ** Ranges and boundary files *)

Section Inputs.
Context {C : Comparator}.

Abbreviation icmp := (ikc_Compare C).

(** One more file of the range: the smaller start, the larger end. *)
Definition widen_range (r : InternalKey * InternalKey) (f : FileMetaData) : InternalKey * InternalKey :=
  (match icmp (fm_smallest f) (fst r) with Lt => fm_smallest f | _ => fst r end,
   match icmp (fm_largest f) (snd r) with Gt => fm_largest f | _ => snd r end).

(** The keys are cleared first; the code asserts that there are inputs. *)
Definition GetRange (inputs : list FileMetaData) : InternalKey * InternalKey :=
  match inputs with
  | [] => ([], [])
  | f :: inputs => fold_left widen_range inputs (fm_smallest f, fm_largest f)
  end.

Definition GetRange2 (inputs1 inputs2 : list FileMetaData) : InternalKey * InternalKey := GetRange (inputs1 ++ inputs2).

Definition FindLargestKey (files : list FileMetaData) : option InternalKey :=
  match files with
  | [] => None
  | f :: files => Some (fold_left (fun k f => match icmp (fm_largest f) k with Gt => fm_largest f | _ => k end) files (fm_largest f))
  end.

(** [f] starts after [largest_key] but with its user key. *)
Definition is_boundary (largest_key : InternalKey) (f : FileMetaData) : bool :=
  bool_decide (icmp (fm_smallest f) largest_key = Gt) &&
  bool_decide (Compare (InternalKey_user_key (fm_smallest f)) (InternalKey_user_key largest_key) = Eq).

Definition smaller_boundary (largest_key : InternalKey) (best : option FileMetaData) (f : FileMetaData) : option FileMetaData :=
  if is_boundary largest_key f then
    match best with
    | None => Some f
    | Some b => if bool_decide (icmp (fm_smallest f) (fm_smallest b) = Lt) then Some f else best
    end
  else best.

Definition FindSmallestBoundaryFile (level_files : list FileMetaData) (largest_key : InternalKey) : option FileMetaData :=
  fold_left (smaller_boundary largest_key) level_files None.

(** Every round takes a file that starts after all files taken so far, so a round
    per file and one more are enough. *)
Fixpoint boundary_loop (fuel : nat) (level_files : list FileMetaData) (largest_key : InternalKey) (compaction_files : list FileMetaData)
  : list FileMetaData :=
  match fuel with
  | O => compaction_files
  | S fuel =>
      match FindSmallestBoundaryFile level_files largest_key with
      | Some f => boundary_loop fuel level_files (fm_largest f) (compaction_files ++ [f])
      | None => compaction_files
      end
  end.

Definition AddBoundaryInputs (level_files compaction_files : list FileMetaData) : list FileMetaData :=
  match FindLargestKey compaction_files with
  | None => compaction_files
  | Some largest_key => boundary_loop (S (length level_files)) level_files largest_key compaction_files
  end.

(** ** Compactions *)

Record Compaction := mkCompaction {
  c_level : nat;
  c_max_output_file_size : Z;
  c_input_version : Version;
  c_edit : VersionEdit;
  c_inputs0 : list FileMetaData;
  c_inputs1 : list FileMetaData;
  c_grandparents : list FileMetaData;
  c_grandparent_index : nat;
  c_seen_key : bool;
  c_overlapped_bytes : Z;
  c_level_ptrs : list nat
}.

(** The constructor; [input_version_] and the inputs are set by the caller. *)
Definition newCompaction (max_file_size : Z) (level : nat) (v : Version) (inputs : list FileMetaData) : Compaction :=
  mkCompaction level (MaxFileSizeForLevel max_file_size level) v newVersionEdit inputs [] [] 0 false 0 (replicate kNumLevels 0%nat).

Definition c_num_input_files (c : Compaction) (which : nat) : Z := s32 (zlen (if (which =? 0)%nat then c_inputs0 c else c_inputs1 c)).

(** The larger inputs of the level, when they do not draw in more files of the next
    level: the two input lists and the range of the first. *)
Definition expand_inputs (max_file_size : Z) (v : Version) (level : nat) (inputs0 inputs1 : list FileMetaData)
    (range : InternalKey * InternalKey) : list FileMetaData * list FileMetaData * (InternalKey * InternalKey) :=
  match inputs1 with
  | [] => (inputs0, inputs1, range)
  | _ =>
      let '(all_start, all_limit) := GetRange2 inputs0 inputs1 in
      let expanded0 := AddBoundaryInputs (files_ v level) (GetOverlappingInputs (C := C) level (Some all_start) (Some all_limit) v) in
      if (zlen inputs0 <? zlen expanded0) && (s64 (TotalFileSize inputs1 + TotalFileSize expanded0) <? ExpandedCompactionByteSizeLimit max_file_size) then
        let '(new_start, new_limit) := GetRange expanded0 in
        let expanded1 := AddBoundaryInputs (files_ v (level + 1)) (GetOverlappingInputs (C := C) (level + 1) (Some new_start) (Some new_limit) v) in
        if zlen expanded1 =? zlen inputs1 then (expanded0, expanded1, (new_start, new_limit)) else (inputs0, inputs1, range)
      else (inputs0, inputs1, range)
  end.

(** The inputs and the grandparents for the files [seed] of the level; the end of
    the range becomes the new compaction pointer. *)
Definition SetupOtherInputs (max_file_size : Z) (pointers : list bytes) (c : Compaction) : Compaction * list bytes :=
  let v := c_input_version c in
  let level := c_level c in
  let inputs0 := AddBoundaryInputs (files_ v level) (c_inputs0 c) in
  let '(smallest, largest) := GetRange inputs0 in
  let inputs1 := AddBoundaryInputs (files_ v (level + 1)) (GetOverlappingInputs (C := C) (level + 1) (Some smallest) (Some largest) v) in
  let '(inputs0, inputs1, (smallest, largest)) := expand_inputs max_file_size v level inputs0 inputs1 (smallest, largest) in
  let '(all_start, all_limit) := GetRange2 inputs0 inputs1 in
  let grandparents :=
    if (level + 2 <? kNumLevels)%nat then GetOverlappingInputs (C := C) (level + 2) (Some all_start) (Some all_limit) v else c_grandparents c in
  (mkCompaction level (c_max_output_file_size c) v (SetCompactPointer (Z.of_nat level) largest (c_edit c)) inputs0 inputs1 grandparents
     (c_grandparent_index c) (c_seen_key c) (c_overlapped_bytes c) (c_level_ptrs c),
   <[level := largest]> pointers).

(** The first file of the level past the compaction pointer, or the first file. *)
Definition size_seed (pointer : bytes) (files : list FileMetaData) : list FileMetaData :=
  match List.find (fun f => (zlen pointer =? 0) || bool_decide (icmp (fm_largest f) pointer = Gt)) files with
  | Some f => [f]
  | None => take 1 files
  end.

(** The files a compaction of [v] starts from. *)
Definition pick_seed (pointers : list bytes) (v : Version) : option (nat * list FileMetaData) :=
  if bool_decide (dbl_compare (v_compaction_score v) (dbl_of_Z 1) <> Lt) then
    let level := Z.to_nat (v_compaction_level v) in Some (level, size_seed (nth level pointers []) (files_ v level))
  else
    match v_file_to_compact v with
    | Some f => Some (Z.to_nat (v_file_to_compact_level v), [f])
    | None => None
    end.

Definition PickCompaction {W : Type} (max_file_size : Z) (vs : VersionSet W) : option Compaction * VersionSet W :=
  let v := current vs in
  match pick_seed (vs_compact_pointer vs) v with
  | None => (None, vs)
  | Some (level, seed) =>
      let inputs :=
        if (level =? 0)%nat then let '(smallest, largest) := GetRange seed in GetOverlappingInputs (C := C) 0 (Some smallest) (Some largest) v
        else seed in
      let '(c, pointers) := SetupOtherInputs max_file_size (vs_compact_pointer vs) (newCompaction max_file_size level v inputs) in
      (Some c, set_pointers pointers vs)
  end.

(** The inputs up to the one that reaches the size limit. *)
Fixpoint limit_inputs (limit total : Z) (inputs : list FileMetaData) : list FileMetaData :=
  match inputs with
  | [] => []
  | f :: inputs => let total := u64 (total + fm_file_size f) in f :: (if limit <=? total then [] else limit_inputs limit total inputs)
  end.

(** [level] is below the last level, as [TEST_CompactRange] asserts
    ([assert(level + 1 < config::kNumLevels)]): the code reads the files of the next level
    in any case.  Above, [files_] gives no files here. *)
Definition CompactRange {W : Type} (max_file_size : Z) (level : nat) (begin end_ : option InternalKey) (vs : VersionSet W)
  : option Compaction * VersionSet W :=
  let inputs := GetOverlappingInputs (C := C) level begin end_ (current vs) in
  match inputs with
  | [] => (None, vs)
  | _ =>
      let inputs := if (0 <? level)%nat then limit_inputs (MaxFileSizeForLevel max_file_size level) 0 inputs else inputs in
      let '(c, pointers) := SetupOtherInputs max_file_size (vs_compact_pointer vs) (newCompaction max_file_size level (current vs) inputs) in
      (Some c, set_pointers pointers vs)
  end.

(** *** The methods of a compaction *)

Definition IsTrivialMove (max_file_size : Z) (c : Compaction) : bool :=
  (c_num_input_files c 0 =? 1) && (c_num_input_files c 1 =? 0) &&
  (TotalFileSize (c_grandparents c) <=? MaxGrandParentOverlapBytes max_file_size).

Definition AddInputDeletions (c : Compaction) (edit : VersionEdit) : VersionEdit :=
  let edit := fold_left (fun edit f => RemoveFile (Z.of_nat (c_level c)) (fm_number f) edit) (c_inputs0 c) edit in
  fold_left (fun edit f => RemoveFile (Z.of_nat (c_level c) + 1) (fm_number f) edit) (c_inputs1 c) edit.

(** The files from [level_ptrs_[lvl]] on: whether one of them holds the key, and the
    new cursor. *)
Fixpoint level_holds (user_key : bytes) (files : list FileMetaData) (ptr : nat) : bool * nat :=
  match files with
  | [] => (false, ptr)
  | f :: files =>
      if bool_decide (Compare user_key (InternalKey_user_key (fm_largest f)) <> Gt)
      then (bool_decide (Compare user_key (InternalKey_user_key (fm_smallest f)) <> Lt), ptr)
      else level_holds user_key files (S ptr)
  end.

Fixpoint base_level_loop (user_key : bytes) (v : Version) (levels : list nat) (ptrs : list nat) : bool * list nat :=
  match levels with
  | [] => (true, ptrs)
  | lvl :: levels =>
      let ptr := nth lvl ptrs 0%nat in
      let '(holds, ptr) := level_holds user_key (drop ptr (files_ v lvl)) ptr in
      let ptrs := <[lvl := ptr]> ptrs in
      if holds : bool then (false, ptrs) else base_level_loop user_key v levels ptrs
  end.

Definition set_level_ptrs (ptrs : list nat) (c : Compaction) : Compaction :=
  mkCompaction (c_level c) (c_max_output_file_size c) (c_input_version c) (c_edit c) (c_inputs0 c) (c_inputs1 c) (c_grandparents c)
    (c_grandparent_index c) (c_seen_key c) (c_overlapped_bytes c) ptrs.

Definition IsBaseLevelForKey (user_key : bytes) (c : Compaction) : bool * Compaction :=
  let '(base, ptrs) := base_level_loop user_key (c_input_version c) (seq (c_level c + 2) (kNumLevels - (c_level c + 2))) (c_level_ptrs c) in
  (base, set_level_ptrs ptrs c).

(** The grandparents before [internal_key]: the new index and overlapped bytes. *)
Fixpoint skip_grandparents (internal_key : bytes) (grandparents : list FileMetaData) (seen_key : bool) (index : nat) (overlapped : Z) : nat * Z :=
  match grandparents with
  | [] => (index, overlapped)
  | g :: grandparents =>
      match icmp internal_key (fm_largest g) with
      | Gt => skip_grandparents internal_key grandparents seen_key (S index) (if seen_key then s64 (overlapped + fm_file_size g) else overlapped)
      | _ => (index, overlapped)
      end
  end.

Definition ShouldStopBefore (max_file_size : Z) (internal_key : bytes) (c : Compaction) : bool * Compaction :=
  let '(index, overlapped) :=
    skip_grandparents internal_key (drop (c_grandparent_index c) (c_grandparents c)) (c_seen_key c) (c_grandparent_index c) (c_overlapped_bytes c) in
  let stop := MaxGrandParentOverlapBytes max_file_size <? overlapped in
  (stop, mkCompaction (c_level c) (c_max_output_file_size c) (c_input_version c) (c_edit c) (c_inputs0 c) (c_inputs1 c) (c_grandparents c)
           index true (if stop then 0 else overlapped) (c_level_ptrs c)).

(** *** [MakeInputIterator]: the children of the merging iterator *)
Section InputIterator.
Context {D : Type} {HD : Iterator D} (table_iter : Z -> Z -> D) (error_iter : Status -> D) (index_fuel : nat).

Definition input_children (level which : nat) (files : list FileMetaData) : list (D + LevelIterator (D := D)) :=
  match files with
  | [] => []
  | _ =>
      if (level + which =? 0)%nat then map (fun f => inl (table_iter (fm_number f) (fm_file_size f))) files
      else [inr (newTwoLevelIterator (newLevelFileNumIterator files) tt)]
  end.

Definition MakeInputIterator_list (c : Compaction) : list (D + LevelIterator (D := D)) :=
  input_children (c_level c) 0 (c_inputs0 c) ++ input_children (c_level c) 1 (c_inputs1 c).

Definition MakeInputIterator (c : Compaction)
  : EmptyIterator + ((D + LevelIterator (D := D)) + MergingIterator (D + LevelIterator (D := D))) :=
  NewMergingIterator (H := sum_iter (HA := HD) (HB := LevelIterator_iter (C := C) table_iter error_iter index_fuel)) (MakeInputIterator_list c).
End InputIterator.
End Inputs.

(** ** Ranges and boundary files: what they compute *)

Section InputsSpec.
Context {C : Comparator} {CL : ComparatorLaws C}.

Abbreviation ICmp := (InternalKeyComparator C).
Abbreviation iclt := (@clt ICmp).
Abbreviation icle := (@cle ICmp).
Abbreviation ukey := InternalKey_user_key.

Lemma icle_cases (a b : bytes) : icle a b <-> iclt a b \/ @ceq ICmp a b.
Proof.
  split.
  - intros Hle. destruct (Compare_spec (C := ICmp) a b) as [He|Hl|Hg]; [by right|by left|]. by apply (not_cle (C := ICmp)) in Hg.
  - intros [Hl|He]; [by apply (clt_cle (C := ICmp))|by apply (ceq_cle (C := ICmp))].
Qed.

(** The smaller and the larger of two keys, as the code picks them. *)
Lemma pick_smaller (a b : InternalKey) :
  let m := match ikc_Compare C a b with Lt => a | _ => b end in icle m a /\ icle m b /\ (m = a \/ m = b).
Proof.
  cbv zeta. change (ikc_Compare C a b) with (Compare (Comparator := ICmp) a b). destruct (Compare (Comparator := ICmp) a b) eqn:E.
  - split_and!; [apply (ceq_cle (C := ICmp)), (ceq_sym (C := ICmp)); exact E|apply (cle_refl (C := ICmp))|by right].
  - split_and!; [apply (cle_refl (C := ICmp))|apply (clt_cle (C := ICmp)); exact E|by left].
  - split_and!; [apply (clt_cle (C := ICmp)), (cmp_gt (C := ICmp)); exact E|apply (cle_refl (C := ICmp))|by right].
Qed.

Lemma pick_larger (a b : InternalKey) :
  let m := match ikc_Compare C a b with Gt => a | _ => b end in icle a m /\ icle b m /\ (m = a \/ m = b).
Proof.
  cbv zeta. change (ikc_Compare C a b) with (Compare (Comparator := ICmp) a b). destruct (Compare (Comparator := ICmp) a b) eqn:E.
  - split_and!; [apply (ceq_cle (C := ICmp)); exact E|apply (cle_refl (C := ICmp))|by right].
  - split_and!; [apply (clt_cle (C := ICmp)); exact E|apply (cle_refl (C := ICmp))|by right].
  - split_and!; [apply (cle_refl (C := ICmp))|apply (clt_cle (C := ICmp)), (cmp_gt (C := ICmp)); exact E|by left].
Qed.

(** The range covers the inputs and each end is the end of one of them. *)
Definition range_of (inputs : list FileMetaData) (r : InternalKey * InternalKey) : Prop :=
  (forall f, f ∈ inputs -> icle (fst r) (fm_smallest f) /\ icle (fm_largest f) (snd r)) /\
  (exists f, f ∈ inputs /\ fst r = fm_smallest f) /\ (exists f, f ∈ inputs /\ snd r = fm_largest f).

Lemma widen_range_spec (seen : list FileMetaData) (r : InternalKey * InternalKey) (g : FileMetaData) :
  range_of seen r -> range_of (seen ++ [g]) (widen_range (C := C) r g).
Proof.
  intros (Hb & (fl & Hfl & Efl) & (fh & Hfh & Efh)). unfold widen_range.
  destruct (pick_smaller (fm_smallest g) (fst r)) as (L1 & L2 & L3). destruct (pick_larger (fm_largest g) (snd r)) as (U1 & U2 & U3).
  split_and!; cbn [fst snd].
  - intros f [Hf|Hf%list_elem_of_singleton]%elem_of_app; [|by subst f]. destruct (Hb f Hf). split; eapply (cmp_le_trans (C := ICmp)); done.
  - destruct L3 as [->| ->]; [exists g; split; [apply elem_of_app; right; by left|done]|exists fl; split; [apply elem_of_app; by left|done]].
  - destruct U3 as [->| ->]; [exists g; split; [apply elem_of_app; right; by left|done]|exists fh; split; [apply elem_of_app; by left|done]].
Qed.

Lemma GetRange_spec (inputs : list FileMetaData) : inputs <> [] -> range_of inputs (GetRange (C := C) inputs).
Proof.
  destruct inputs as [|f0 inputs]; [done|]. intros _. cbn [GetRange].
  assert (range_of [f0] (fm_smallest f0, fm_largest f0)) as H0.
  { split_and!; [intros f ->%list_elem_of_singleton; split; apply (cle_refl (C := ICmp))|exists f0; split; [by left|done]..]. }
  change (f0 :: inputs) with ([f0] ++ inputs). revert H0. generalize [f0] as seen, (fm_smallest f0, fm_largest f0) as r.
  induction inputs as [|g inputs IH]; intros seen r Hr; [by rewrite app_nil_r|]. cbn [fold_left].
  replace (seen ++ g :: inputs) with ((seen ++ [g]) ++ inputs) by (by rewrite <- app_assoc). apply IH. by apply widen_range_spec.
Qed.

Lemma FindLargestKey_range (files : list FileMetaData) : files <> [] -> FindLargestKey (C := C) files = Some (snd (GetRange (C := C) files)).
Proof.
  destruct files as [|f files]; [done|]. intros _. cbn [FindLargestKey GetRange]. f_equal.
  assert (forall s k, fold_left (fun k f => match ikc_Compare C (fm_largest f) k with Gt => fm_largest f | _ => k end) files k =
    snd (fold_left (widen_range (C := C)) files (s, k))) as Hgo; [|apply Hgo].
  induction files as [|g files IH]; intros s k; [done|]. cbn [fold_left]. apply IH.
Qed.

Lemma is_boundary_true (k : InternalKey) (f : FileMetaData) :
  is_boundary (C := C) k f = true <-> iclt k (fm_smallest f) /\ ceq (ukey (fm_smallest f)) (ukey k).
Proof.
  unfold is_boundary. rewrite andb_true_iff, !bool_decide_eq_true. rewrite <- (cmp_gt (C := ICmp)). done.
Qed.

Lemma FindSmallestBoundaryFile_spec (files : list FileMetaData) (k : InternalKey) :
  match FindSmallestBoundaryFile (C := C) files k with
  | None => forall f, f ∈ files -> is_boundary (C := C) k f = false
  | Some b => b ∈ files /\ is_boundary (C := C) k b = true /\ forall f, f ∈ files -> is_boundary (C := C) k f = true -> icle (fm_smallest b) (fm_smallest f)
  end.
Proof.
  unfold FindSmallestBoundaryFile.
  assert (forall rest seen best, match best with
      | None => forall f, f ∈ seen -> is_boundary (C := C) k f = false
      | Some b => b ∈ seen /\ is_boundary (C := C) k b = true /\ forall f, f ∈ seen -> is_boundary (C := C) k f = true -> icle (fm_smallest b) (fm_smallest f) end ->
    match fold_left (smaller_boundary (C := C) k) rest best with
      | None => forall f, f ∈ seen ++ rest -> is_boundary (C := C) k f = false
      | Some b => b ∈ seen ++ rest /\ is_boundary (C := C) k b = true /\ forall f, f ∈ seen ++ rest -> is_boundary (C := C) k f = true -> icle (fm_smallest b) (fm_smallest f) end) as Hgo.
  { induction rest as [|g rest IH]; intros seen best Hb; [by rewrite app_nil_r|]. cbn [fold_left].
    replace (seen ++ g :: rest) with ((seen ++ [g]) ++ rest) by (by rewrite <- app_assoc). apply IH. unfold smaller_boundary.
    destruct (is_boundary k g) eqn:Eg.
    - destruct best as [b|].
      + destruct Hb as (B1 & B2 & B3). case_bool_decide as Ec.
        * split_and!; [apply elem_of_app; right; by left|done|]. intros f [Hf|Hf%list_elem_of_singleton]%elem_of_app Hbf; [|subst f; apply (cle_refl (C := ICmp))].
          eapply (cmp_le_trans (C := ICmp)); [apply (clt_cle (C := ICmp)); exact Ec|by apply B3].
        * split_and!; [apply elem_of_app; by left|done|]. intros f [Hf|Hf%list_elem_of_singleton]%elem_of_app Hbf; [by apply B3|]. subst f.
          apply (not_clt (C := ICmp)). exact Ec.
      + split_and!; [apply elem_of_app; right; by left|done|]. intros f [Hf|Hf%list_elem_of_singleton]%elem_of_app Hbf; [rewrite (Hb f Hf) in Hbf; done|].
        subst f. apply (cle_refl (C := ICmp)).
    - destruct best as [b|].
      + destruct Hb as (B1 & B2 & B3). split_and!; [apply elem_of_app; by left|done|]. intros f [Hf|Hf%list_elem_of_singleton]%elem_of_app Hbf; [by apply B3|]. congruence.
      + intros f [Hf|Hf%list_elem_of_singleton]%elem_of_app; [by apply Hb|]. by subst f. }
  apply (Hgo files [] None). intros f Hf. by apply not_elem_of_nil in Hf.
Qed.

(** *** Levels above 0: runs of files *)

Lemma files_sorted_app (l k : list FileMetaData) : files_sorted (C := C) (l ++ k) ->
  files_sorted (C := C) l /\ files_sorted (C := C) k /\ forall f g, f ∈ l -> g ∈ k -> iclt (fm_largest f) (fm_smallest g).
Proof.
  induction l as [|x l IH]; cbn [app]; intros Hs; [split_and!; [constructor|done|]; intros f g Hf; by apply not_elem_of_nil in Hf|].
  apply StronglySorted_inv in Hs as [Hs Hx]. destruct (IH Hs) as (H1 & H2 & H3). rewrite List.Forall_forall in Hx. split_and!.
  - constructor; [done|]. apply List.Forall_forall. intros y Hy. apply Hx, in_app_iff. by left.
  - done.
  - intros f g [->|Hf]%elem_of_cons Hg; [apply Hx, in_app_iff; right; by apply list_elem_of_In|by apply H3].
Qed.

(** [l] is a run of the files. *)
Definition run_of (l files : list FileMetaData) : Prop := exists a b, files = a ++ l ++ b.

Lemma run_of_elem (l files : list FileMetaData) (f : FileMetaData) : run_of l files -> f ∈ l -> f ∈ files.
Proof. intros (a & b & ->) Hf. rewrite !elem_of_app. tauto. Qed.

Lemma run_of_sublist (l files : list FileMetaData) : run_of l files -> sublist l files.
Proof. intros (a & b & ->). apply sublist_inserts_l, sublist_inserts_r. done. Qed.

Lemma list_filter_sublist (g : FileMetaData -> bool) (l : list FileMetaData) : sublist (List.filter g l) l.
Proof. induction l as [|x l IH]; [done|]. cbn. destruct (g x); by constructor. Qed.

Lemma run_of_sorted (l files : list FileMetaData) : run_of l files -> files_sorted (C := C) files -> files_sorted (C := C) l.
Proof. intros (a & b & ->) Hs. apply files_sorted_app in Hs as (_ & Hs & _). by apply files_sorted_app in Hs as (? & _ & _). Qed.

Lemma filter_before_prefix (hi : option bytes) (files : list FileMetaData) :
  Forall (file_ok (C := C)) files -> files_sorted (C := C) files ->
  exists b, files = List.filter (fun f => negb (before_file (C := C) hi f)) files ++ b.
Proof.
  intros Hok Hs. induction files as [|f files IH]; [by exists []|]. cbn [List.filter]. destruct (before_file hi f) eqn:E; cbn [negb].
  - exists (f :: files). assert (List.filter (fun f => negb (before_file (C := C) hi f)) files = []) as ->; [|done].
    destruct (List.filter _ files) as [|g l] eqn:Eg; [done|]. exfalso. assert (In g (List.filter (fun f => negb (before_file (C := C) hi f)) files)) as Hg by (rewrite Eg; by left).
    apply filter_In in Hg as [Hg Hn]. apply list_elem_of_In, list_elem_of_lookup in Hg as [i Hi].
    rewrite (before_file_later (C := C) hi (f :: files) 0 (S i) f g) in Hn by (done || lia). done.
  - apply Forall_cons in Hok as [_ Hok]. apply StronglySorted_inv in Hs as [Hs _]. destruct (IH Hok Hs) as (b & Eb). exists b. cbn. by f_equal.
Qed.

Lemma overlaps_run (lo hi : option bytes) (files : list FileMetaData) :
  Forall (file_ok (C := C)) files -> files_sorted (C := C) files -> run_of (List.filter (overlaps (C := C) lo hi) files) files.
Proof.
  induction files as [|f files IH]; intros Hok Hs; [by exists [], []|]. cbn [List.filter].
  assert (Forall (file_ok (C := C)) files) as Hok' by (by apply Forall_cons in Hok as [_ ?]).
  assert (files_sorted (C := C) files) as Hs' by (by apply StronglySorted_inv in Hs as [? _]).
  destruct (overlaps lo hi f) eqn:E.
  - assert (List.filter (overlaps (C := C) lo hi) files = List.filter (fun f => negb (before_file (C := C) hi f)) files) as ->.
    { apply List.filter_ext_in. intros g Hg. unfold overlaps. destruct (after_file lo g) eqn:Eg; [|done]. exfalso.
      apply list_elem_of_In, list_elem_of_lookup in Hg as [i Hi]. unfold overlaps in E. apply andb_true_iff in E as [Ea _]. apply negb_true_iff in Ea.
      destruct lo as [lo|]; [|done]. apply after_file_true in Eg. apply after_file_false in Ea.
      pose proof (largest_le (C := C) (f :: files) 0 (S i) f g Hok Hs ltac:(lia) eq_refl Hi) as Hle. apply icle_user in Hle.
      apply (clt_irrefl lo). eapply cle_clt_trans; [|exact Eg]. eapply cmp_le_trans; done. }
    destruct (filter_before_prefix hi files Hok' Hs') as (b & Eb). exists [], b. cbn. by f_equal.
  - destruct (IH Hok' Hs') as (a & b & Eab). exists (f :: a), b. cbn. by f_equal.
Qed.

(** The boundary file of a run is the file after it. *)
Lemma boundary_of_run (files a l b : list FileMetaData) (k : InternalKey) :
  Forall (file_ok (C := C)) files -> files_sorted (C := C) files -> files = a ++ l ++ b ->
  (forall f, f ∈ a ++ l -> icle (fm_largest f) k) -> (exists f, f ∈ l /\ k = fm_largest f) ->
  FindSmallestBoundaryFile (C := C) files k = match b with g :: _ => if is_boundary (C := C) k g then Some g else None | [] => None end.
Proof.
  intros Hok Hs Efs Hle (fk & Hfk & Ek). pose proof (FindSmallestBoundaryFile_spec files k) as Hspec. rewrite Forall_forall in Hok.
  assert (forall f, f ∈ files -> is_boundary (C := C) k f = true -> f ∈ b) as Hinb.
  { intros f Hf Hb. rewrite Efs, app_assoc in Hf. apply elem_of_app in Hf as [Hf|Hf]; [|done]. exfalso. apply is_boundary_true in Hb as [Hlt _].
    apply (clt_irrefl (C := ICmp) k). eapply (clt_cle_trans (C := ICmp)); [exact Hlt|]. eapply (cmp_le_trans (C := ICmp)); [|by apply Hle].
    apply Hok. rewrite Efs, app_assoc. apply elem_of_app. by left. }
  rewrite Efs in Hs. apply files_sorted_app in Hs as (_ & Hs & _). apply files_sorted_app in Hs as (_ & Hsb & Hlb).
  assert (forall g b', b = g :: b' -> forall f, f ∈ b' -> is_boundary (C := C) k f = true -> is_boundary (C := C) k g = true /\ iclt (fm_smallest g) (fm_smallest f)) as Hhead.
  { intros g b' -> f Hf Hb. apply StronglySorted_inv in Hsb as [_ Hg]. rewrite List.Forall_forall in Hg. specialize (Hg f ltac:(by apply list_elem_of_In)).
    assert (file_ok (C := C) g) as [_ _ Hgr] by (apply Hok; rewrite Efs, !elem_of_app; right; right; by left).
    assert (iclt (fm_smallest g) (fm_smallest f)) as Hgf by (by eapply (cle_clt_trans (C := ICmp))). split; [|done].
    apply is_boundary_true in Hb as [_ He]. apply is_boundary_true.
    assert (iclt k (fm_smallest g)) as Hkg by (rewrite Ek; apply Hlb; [done|by left]). split; [done|]. apply cle_antisym.
    - eapply cmp_le_trans; [apply icle_user, (clt_cle (C := ICmp)); exact Hgf|by apply ceq_cle].
    - apply icle_user, (clt_cle (C := ICmp)). exact Hkg. }
  destruct (FindSmallestBoundaryFile files k) as [f|].
  - destruct Hspec as (Hf & Hb & Hmin). specialize (Hinb f Hf Hb). destruct b as [|g b]; [by apply not_elem_of_nil in Hinb|].
    apply elem_of_cons in Hinb as [->|Hin]; [by rewrite Hb|]. destruct (Hhead g b eq_refl f Hin Hb) as [Hg Hlt]. exfalso.
    apply (clt_irrefl (C := ICmp) (fm_smallest g)). eapply (clt_cle_trans (C := ICmp)); [exact Hlt|]. apply Hmin; [|done].
    rewrite Efs, !elem_of_app. right. right. by left.
  - destruct b as [|g b]; [done|]. rewrite Hspec; [done|]. rewrite Efs, !elem_of_app. right. right. by left.
Qed.

Lemma boundary_loop_run (files a : list FileMetaData) (fuel : nat) (l b : list FileMetaData) (k : InternalKey) :
  Forall (file_ok (C := C)) files -> files_sorted (C := C) files -> files = a ++ l ++ b -> (length b < fuel)%nat ->
  (forall f, f ∈ a ++ l -> icle (fm_largest f) k) -> (exists f, f ∈ l /\ k = fm_largest f) ->
  exists l2 b2 k2, b = l2 ++ b2 /\ boundary_loop (C := C) fuel files k l = l ++ l2 /\ (forall f, f ∈ files -> is_boundary (C := C) k2 f = false) /\
    (forall f, f ∈ a ++ l ++ l2 -> icle (fm_largest f) k2) /\ (exists f, f ∈ l ++ l2 /\ k2 = fm_largest f).
Proof.
  intros Hok Hs. revert l b k. induction fuel as [|fuel IH]; intros l b k Efs Hf Hle Hk; [lia|]. cbn [boundary_loop].
  pose proof (boundary_of_run files a l b k Hok Hs Efs Hle Hk) as Eb. pose proof (FindSmallestBoundaryFile_spec files k) as Hspec.
  destruct (FindSmallestBoundaryFile files k) as [f|].
  - destruct b as [|g b]; [done|]. destruct (is_boundary k g); [|done]. injection Eb as <-.
    destruct Hspec as (Hfin & Hb & _). apply is_boundary_true in Hb as [Hlt _].
    assert (icle (fm_smallest f) (fm_largest f)) as Hfr by (rewrite Forall_forall in Hok; by apply Hok).
    destruct (IH (l ++ [f]) b (fm_largest f)) as (l2 & b2 & k2 & -> & E2 & Hno & Hle2 & f2 & Hf2 & Ek2).
    + rewrite Efs, <- !app_assoc. done.
    + cbn in Hf. lia.
    + intros x. rewrite app_assoc. intros [Hx|Hx%list_elem_of_singleton]%elem_of_app; [|subst x; apply (cle_refl (C := ICmp))].
      eapply (cmp_le_trans (C := ICmp)); [by apply Hle|]. apply (clt_cle (C := ICmp)). by eapply (clt_cle_trans (C := ICmp)).
    + exists f. split; [apply elem_of_app; right; by left|done].
    + exists (f :: l2), b2, k2. rewrite <- !app_assoc in *. cbn [app] in *. split_and!; try done. by exists f2.
  - exists [], b, k. rewrite !app_nil_r. split_and!; done.
Qed.

(** [AddBoundaryInputs] on a run: the run grows to the right until no file left on
    the level starts with the user key it ends with. *)
Lemma AddBoundaryInputs_run (files l : list FileMetaData) :
  Forall (file_ok (C := C)) files -> files_sorted (C := C) files -> l <> [] -> run_of l files ->
  let l' := AddBoundaryInputs (C := C) files l in
  run_of l' files /\ (forall f, f ∈ l -> f ∈ l') /\ l' <> [] /\ (forall f, f ∈ files -> is_boundary (C := C) (snd (GetRange (C := C) l')) f = false).
Proof.
  intros Hok Hs Hl (a & b & Efs). cbv zeta. unfold AddBoundaryInputs. rewrite FindLargestKey_range by done.
  destruct (GetRange_spec l Hl) as (Hr & _ & (fl & Hfl & Ek)). set (k := snd (GetRange (C := C) l)) in *.
  destruct (boundary_loop_run files a (S (length files)) l b k Hok Hs Efs) as (l2 & b2 & k2 & -> & E2 & Hno & Hle2 & f2 & Hf2 & Ek2).
  - rewrite Efs, !length_app. lia.
  - intros f [Hf|Hf]%elem_of_app; [|by apply Hr]. rewrite Ek. pose proof Hs as Hs'. rewrite Efs in Hs'. apply files_sorted_app in Hs' as (_ & _ & Hal).
    rewrite Forall_forall in Hok. assert (file_ok (C := C) fl) as [_ _ Hflr] by (apply Hok; rewrite Efs, !elem_of_app; tauto).
    apply (clt_cle (C := ICmp)). eapply (clt_cle_trans (C := ICmp)); [apply (Hal f fl); [done|apply elem_of_app; by left]|done].
  - by exists fl.
  - rewrite E2. assert (l ++ l2 <> []) as Hne by (destruct l; done). split_and!.
    + exists a, b2. by rewrite <- app_assoc in *.
    + intros f Hf. apply elem_of_app. by left.
    + done.
    + destruct (GetRange_spec (l ++ l2) Hne) as (Hr' & _ & (f' & Hf' & Ek')). intros f Hf. specialize (Hno f Hf). apply not_true_iff_false in Hno. apply not_true_iff_false.
      intros Hb. apply Hno. apply is_boundary_true in Hb as [Hlt He]. apply is_boundary_true.
      assert (@ceq ICmp k2 (snd (GetRange (C := C) (l ++ l2)))) as Hk.
      { apply (cle_antisym (C := ICmp)); [rewrite Ek2; by apply Hr'|rewrite Ek'; apply Hle2, elem_of_app; by right]. }
      split; [eapply (cle_clt_trans (C := ICmp)); [apply (ceq_cle (C := ICmp)); exact Hk|exact Hlt]|].
      eapply ceq_trans; [exact He|]. apply cle_antisym; apply icle_user, (ceq_cle (C := ICmp)); [by apply (ceq_sym (C := ICmp))|done].
Qed.

(** *** Level 0: closed ranges *)

Lemma AddBoundaryInputs_nil (files : list FileMetaData) : AddBoundaryInputs (C := C) files [] = [].
Proof. done. Qed.

Lemma closed_overlaps (files : list FileMetaData) (b e : option bytes) (f : FileMetaData) :
  closed_range (C := C) files b e -> f ∈ List.filter (overlaps (C := C) b e) files ->
  f ∈ files /\ (forall x, b = Some x -> cle x (ukey (fm_smallest f))) /\ (forall y, e = Some y -> cle (ukey (fm_largest f)) y).
Proof.
  intros Hc Hf. apply list_elem_of_In, filter_In in Hf as [Hf Ho]. apply list_elem_of_In in Hf. destruct (Hc f Hf Ho) as [Hwb Hwe]. split_and!; [done| |].
  - intros x ->. apply not_clt. intros Hlt. apply widens_begin_true in Hlt. congruence.
  - intros y ->. apply not_clt. intros Hlt. apply widens_end_true in Hlt. congruence.
Qed.

(** A file that shares a user key with a file of a closed range is in it. *)
Lemma closed_draws_in (files : list FileMetaData) (b e : option bytes) (f g : FileMetaData) :
  closed_range (C := C) files b e -> f ∈ List.filter (overlaps (C := C) b e) files -> g ∈ files ->
  cle (ukey (fm_smallest g)) (ukey (fm_largest f)) -> cle (ukey (fm_smallest f)) (ukey (fm_largest g)) ->
  g ∈ List.filter (overlaps (C := C) b e) files.
Proof.
  intros Hc Hf Hg H1 H2. destruct (closed_overlaps files b e f Hc Hf) as (_ & Hb & He). apply list_elem_of_In, filter_In. split; [by apply list_elem_of_In|].
  unfold overlaps. apply andb_true_iff. rewrite !negb_true_iff. split.
  - destruct b as [b|]; [|done]. apply after_file_false. eapply cmp_le_trans; [by apply Hb|done].
  - destruct e as [e|]; [|done]. apply before_file_false. eapply cmp_le_trans; [done|by apply He].
Qed.

Lemma AddBoundaryInputs_closed (files : list FileMetaData) (b e : option bytes) :
  Forall (file_ok (C := C)) files -> closed_range (C := C) files b e ->
  AddBoundaryInputs (C := C) files (List.filter (overlaps (C := C) b e) files) = List.filter (overlaps (C := C) b e) files.
Proof.
  intros Hok Hc. set (l := List.filter (overlaps (C := C) b e) files). unfold AddBoundaryInputs.
  destruct (decide (l = [])) as [->|Hl]; [done|]. rewrite FindLargestKey_range by done. destruct (GetRange_spec l Hl) as (Hr & _ & (f & Hf & Ek)).
  set (k := snd (GetRange (C := C) l)) in *. cbn [boundary_loop]. pose proof (FindSmallestBoundaryFile_spec files k) as Hspec.
  destruct (FindSmallestBoundaryFile files k) as [g|]; [|done]. exfalso. destruct Hspec as (Hg & Hb & _). apply is_boundary_true in Hb as [Hlt He].
  rewrite Forall_forall in Hok. destruct (Hok g Hg) as [_ _ Hgr]. destruct (Hok f) as [_ _ Hfr]; [by apply (closed_overlaps files b e)|].
  assert (g ∈ l) as Hgl.
  { apply (closed_draws_in files b e f g); [done|done|done|rewrite <- Ek; by apply ceq_cle|]. eapply cmp_le_trans; [|by apply icle_user].
    eapply cmp_le_trans; [by apply icle_user|]. rewrite <- Ek. by apply ceq_cle, ceq_sym. }
  apply (clt_irrefl (C := ICmp) k). eapply (clt_cle_trans (C := ICmp)); [exact Hlt|]. eapply (cmp_le_trans (C := ICmp)); [exact Hgr|by apply Hr].
Qed.

(** *** The inputs of a level *)

Record version_sorted (v : Version) : Prop := {
  vs_ok : forall level, Forall (file_ok (C := C)) (files_ v level);
  vs_in_order : forall level, (0 < level)%nat -> files_sorted (C := C) (files_ v level)
}.

(** What a compaction starts from: on level 0 a closed set of files, below a run. *)
Definition seed_ok (v : Version) (level : nat) (l : list FileMetaData) : Prop :=
  l <> [] /\
  match level with
  | O => exists b e, closed_range (C := C) (files_ v 0) b e /\ l = List.filter (overlaps (C := C) b e) (files_ v 0)
  | S _ => run_of l (files_ v level)
  end.

(** The two files can hold the same user key. *)
Definition share_key (f g : FileMetaData) : Prop :=
  cle (ukey (fm_smallest g)) (ukey (fm_largest f)) /\ cle (ukey (fm_smallest f)) (ukey (fm_largest g)).

(** A file of the level that is left out and shares a key with an input lies before
    it: what it holds of the key is newer. *)
Record level_closed (v : Version) (level : nat) (l : list FileMetaData) : Prop := {
  lc_nonempty : l <> [];
  lc_files : forall f, f ∈ l -> f ∈ files_ v level;
  lc_run : (0 < level)%nat -> run_of l (files_ v level);
  lc_sub : sublist l (files_ v level);
  lc_newer : forall f g, f ∈ l -> g ∈ files_ v level -> g ∉ l -> share_key f g -> (0 < level)%nat /\ iclt (fm_largest g) (fm_smallest f)
}.

Lemma boundary_closed (v : Version) (level : nat) (seed : list FileMetaData) :
  version_sorted v -> seed_ok v level seed ->
  level_closed v level (AddBoundaryInputs (C := C) (files_ v level) seed) /\ forall f, f ∈ seed -> f ∈ AddBoundaryInputs (C := C) (files_ v level) seed.
Proof.
  intros Hv [Hne Hseed]. destruct level as [|level].
  - destruct Hseed as (b & e & Hc & ->). rewrite AddBoundaryInputs_closed by (done || apply Hv). split; [|done]. split; [done| |lia|apply list_filter_sublist|].
    + intros f Hf. by apply (closed_overlaps _ b e).
    + intros f g Hf Hg Hn [H1 H2]. exfalso. apply Hn. by apply (closed_draws_in _ b e f).
  - destruct (AddBoundaryInputs_run (files_ v (S level)) seed (vs_ok v Hv (S level)) (vs_in_order v Hv (S level) ltac:(lia)) Hne Hseed) as (Hrun & Hsub & Hne' & Hno).
    set (l := AddBoundaryInputs (C := C) (files_ v (S level)) seed) in *. split; [|done]. split; [done|intros f; by apply run_of_elem|done|by apply run_of_sublist|].
    intros f g Hf Hg Hn [H1 H2]. split; [lia|]. destruct (GetRange_spec l Hne') as (Hr & _ & (fl & Hfl & Ek)). pose proof (vs_in_order v Hv (S level) ltac:(lia)) as Hs.
    specialize (Hno g Hg). destruct Hrun as (a & b & Efs). rewrite Efs in Hs, Hg. apply files_sorted_app in Hs as (_ & Hs & Hal). apply files_sorted_app in Hs as (_ & _ & Hlb).
    apply elem_of_app in Hg as [Hg|[Hg|Hg]%elem_of_app]; [apply Hal; [done|apply elem_of_app; by left]|done|].
    exfalso. apply not_true_iff_false in Hno. apply Hno. apply is_boundary_true. rewrite Ek. split; [by apply Hlb|]. apply cle_antisym.
    + eapply cmp_le_trans; [exact H1|]. rewrite <- Ek. apply icle_user. by apply Hr.
    + apply icle_user, (clt_cle (C := ICmp)). by apply Hlb.
Qed.

Lemma overlapping_seed (v : Version) (level : nat) (begin end_ : option InternalKey) :
  version_sorted v -> GetOverlappingInputs (C := C) level begin end_ v <> [] -> seed_ok v level (GetOverlappingInputs (C := C) level begin end_ v).
Proof.
  intros Hv Hne. split; [done|]. destruct level as [|level].
  - destruct (GetOverlappingInputs_level0 (C := C) begin end_ v) as (b & e & E & (_ & _ & Hc & _)). exists b, e. done.
  - rewrite GetOverlappingInputs_sorted by done. apply overlaps_run; [apply Hv|apply Hv; lia].
Qed.

(** *** The inputs of the next level *)

(** Every file of the level whose user keys overlap the range of [inputs] is taken,
    and what is taken is a run of the level around such a file; a file that is left
    out and shares a key with one that is taken lies before it. *)
Record next_closed (v : Version) (level : nat) (inputs l : list FileMetaData) : Prop := {
  nc_run : run_of l (files_ v level);
  nc_all : forall g, g ∈ files_ v level ->
    overlaps (C := C) (Some (ukey (fst (GetRange (C := C) inputs)))) (Some (ukey (snd (GetRange (C := C) inputs)))) g = true -> g ∈ l;
  nc_touch : l <> [] -> exists h, h ∈ l /\
    overlaps (C := C) (Some (ukey (fst (GetRange (C := C) inputs)))) (Some (ukey (snd (GetRange (C := C) inputs)))) h = true;
  nc_newer : forall f g, f ∈ l -> g ∈ files_ v level -> g ∉ l -> share_key f g -> iclt (fm_largest g) (fm_smallest f)
}.

Lemma next_inputs_closed (v : Version) (level : nat) (inputs : list FileMetaData) :
  version_sorted v ->
  next_closed v (level + 1) inputs (AddBoundaryInputs (C := C) (files_ v (level + 1))
    (GetOverlappingInputs (C := C) (level + 1) (Some (fst (GetRange (C := C) inputs))) (Some (snd (GetRange (C := C) inputs))) v)).
Proof.
  intros Hv. set (l := GetOverlappingInputs (C := C) (level + 1) _ _ v).
  assert (l = List.filter (overlaps (C := C) (Some (ukey (fst (GetRange (C := C) inputs)))) (Some (ukey (snd (GetRange (C := C) inputs))))) (files_ v (level + 1))) as El
    by (unfold l; rewrite GetOverlappingInputs_sorted by lia; done).
  assert (run_of l (files_ v (level + 1))) as Hrun by (rewrite El; apply overlaps_run; [apply Hv|apply Hv; lia]).
  assert (forall g, g ∈ files_ v (level + 1) -> overlaps (C := C) (Some (ukey (fst (GetRange (C := C) inputs)))) (Some (ukey (snd (GetRange (C := C) inputs)))) g = true -> g ∈ l) as Hall.
  { intros g Hg Ho. rewrite El. apply list_elem_of_In, filter_In. split; [by apply list_elem_of_In|done]. }
  destruct (decide (l = [])) as [Hnil|Hne].
  { rewrite Hnil, AddBoundaryInputs_nil. rewrite Hnil in Hrun, Hall. split; [done|done|done|]. intros f g Hf. by apply not_elem_of_nil in Hf. }
  destruct (AddBoundaryInputs_run (files_ v (level + 1)) l (vs_ok v Hv (level + 1)) (vs_in_order v Hv (level + 1) ltac:(lia)) Hne Hrun) as (Hrun' & Hsub & _ & _).
  destruct (boundary_closed v (level + 1) l Hv) as [Hlc _]; [split; [done|]; rewrite Nat.add_1_r in *; exact Hrun|].
  split; [done|intros g Hg Ho; apply Hsub; by apply Hall| |intros f g Hf Hg Hn Hsh; by apply (lc_newer _ _ _ Hlc f g)].
  intros _. destruct l as [|h l']; [done|]. exists h. split; [apply Hsub; by left|]. assert (In h (h :: l')) as Hh by (by left). rewrite El in Hh. by apply filter_In in Hh as [_ Hh].
Qed.

Lemma expand_inputs_closed (max_file_size : Z) (v : Version) (level : nat) (inputs0 inputs1 : list FileMetaData) :
  version_sorted v -> level_closed v level inputs0 -> next_closed v (level + 1) inputs0 inputs1 ->
  let '(e0, e1, r) := expand_inputs (C := C) max_file_size v level inputs0 inputs1 (GetRange (C := C) inputs0) in
  level_closed v level e0 /\ next_closed v (level + 1) e0 e1 /\ r = GetRange (C := C) e0.
Proof.
  intros Hv H0 H1. unfold expand_inputs. destruct inputs1 as [|f1 rest]; [done|]. set (inputs1 := f1 :: rest) in *. destruct (GetRange2 inputs0 inputs1) as [all_start all_limit].
  set (seed := GetOverlappingInputs (C := C) level (Some all_start) (Some all_limit) v). set (e0 := AddBoundaryInputs (C := C) (files_ v level) seed).
  destruct ((zlen inputs0 <? zlen e0) && _) eqn:Eg; [|done]. apply andb_true_iff in Eg as [Egt _]. apply Z.ltb_lt in Egt.
  assert (seed <> []) as Hne by (intros Hn; unfold e0 in Egt; rewrite Hn, AddBoundaryInputs_nil in Egt; pose proof (zlen_nonneg inputs0); change (zlen (@nil FileMetaData)) with 0 in Egt; lia).
  destruct (boundary_closed v level seed Hv (overlapping_seed v level _ _ Hv Hne)) as [He0 _]. fold e0 in He0.
  pose proof (next_inputs_closed v level e0 Hv) as He1. destruct (GetRange e0) as [ns nl] eqn:Er. cbn [fst snd] in He1.
  set (e1 := AddBoundaryInputs (C := C) (files_ v (level + 1)) _) in *. destruct (zlen e1 =? zlen inputs1); [|done]. done.
Qed.

(** *** A compaction whose inputs are closed *)

Record inputs_closed (v : Version) (c : Compaction) : Prop := {
  ic_version : c_input_version c = v;
  ic_start : c_level_ptrs c = replicate kNumLevels 0%nat /\ ve_new_files (c_edit c) = [] /\ ve_deleted_files (c_edit c) = [];
  ic_edit : c_edit c = SetCompactPointer (Z.of_nat (c_level c)) (snd (GetRange (C := C) (c_inputs0 c))) newVersionEdit;
  ic_level : level_closed v (c_level c) (c_inputs0 c);
  ic_next : next_closed v (c_level c + 1) (c_inputs0 c) (c_inputs1 c);
  ic_grandparents : (c_level c + 2 < kNumLevels)%nat -> forall g, g ∈ c_grandparents c <-> g ∈ files_ v (c_level c + 2) /\
    overlaps (C := C) (Some (ukey (fst (GetRange (C := C) (c_inputs0 c ++ c_inputs1 c))))) (Some (ukey (snd (GetRange (C := C) (c_inputs0 c ++ c_inputs1 c))))) g = true
}.

Lemma SetupOtherInputs_closed (max_file_size : Z) (pointers : list bytes) (v : Version) (level : nat) (seed : list FileMetaData) :
  version_sorted v -> seed_ok v level seed ->
  let '(c, pointers') := SetupOtherInputs (C := C) max_file_size pointers (newCompaction max_file_size level v seed) in
  inputs_closed v c /\ c_level c = level /\ pointers' = <[level := snd (GetRange (C := C) (c_inputs0 c))]> pointers.
Proof.
  intros Hv Hseed. unfold SetupOtherInputs. cbn [newCompaction c_input_version c_level c_inputs0 c_max_output_file_size c_edit c_grandparents c_grandparent_index c_seen_key c_overlapped_bytes c_level_ptrs].
  destruct (boundary_closed v level seed Hv Hseed) as [H0 _]. set (i0 := AddBoundaryInputs (C := C) (files_ v level) seed) in *.
  pose proof (next_inputs_closed v level i0 Hv) as H1. rewrite (surjective_pairing (GetRange i0)).
  set (i1 := AddBoundaryInputs (C := C) (files_ v (level + 1)) _) in *. pose proof (expand_inputs_closed max_file_size v level i0 i1 Hv H0 H1) as He.
  rewrite (surjective_pairing (GetRange i0)) in He. destruct (expand_inputs max_file_size v level i0 i1 _) as [[e0 e1] r]. destruct He as (He0 & He1 & ->).
  rewrite (surjective_pairing (GetRange e0)), (surjective_pairing (GetRange2 e0 e1)). split_and!; [|done|done].
  split; cbn [c_input_version c_level c_inputs0 c_inputs1 c_grandparents c_level_ptrs c_edit]; [done|done|done|done|done|]. intros Hl g. destruct (Nat.ltb_spec (level + 2) kNumLevels); [|lia].
  rewrite GetOverlappingInputs_sorted by lia. rewrite list_elem_of_In, filter_In, <- list_elem_of_In. done.
Qed.
End InputsSpec.

(** ** Which level is compacted *)

Section Pick.
Context {C : Comparator} {CL : ComparatorLaws C}.

(** A compaction can be picked: the level and the file exist, and so does the next level. *)
Definition pick_at (v : Version) (level : Z) : Prop := 0 <= level /\ level + 1 < Z.of_nat kNumLevels.
Definition pickable (v : Version) : Prop :=
  (dbl_compare (v_compaction_score v) (dbl_of_Z 1) <> Lt -> pick_at v (v_compaction_level v) /\ files_ v (Z.to_nat (v_compaction_level v)) <> []) /\
  (forall f, v_file_to_compact v = Some f -> pick_at v (v_file_to_compact_level v) /\ f ∈ files_ v (Z.to_nat (v_file_to_compact_level v))).

(** *** [Finalize] *)

Lemma level_score_empty (v : Version) (level : nat) : files_ v level = [] -> d_man (level_score v level) = 0.
Proof.
  intros Hf. assert (forall d, d_man (dbl_div (dbl_of_Z 0) d) = 0) as Hd.
  { intros d. unfold dbl_div. change (d_man (dbl_of_Z 0)) with 0. rewrite Z.shiftl_0_l. cbv zeta. rewrite Zdiv_0_l. reflexivity. }
  unfold level_score. destruct (Nat.eqb_spec level 0) as [->|_]; rewrite Hf; apply Hd.
Qed.

Lemma zero_score (d : dbl) : d_man d = 0 -> dbl_compare d (dbl_of_Z 1) = Lt.
Proof.
  intros Hd. unfold dbl_compare. rewrite Hd, Z.shiftl_0_l. change (d_man (dbl_of_Z 1)) with 1. change (d_exp (dbl_of_Z 1)) with 0.
  apply Z.compare_lt_iff. rewrite Z.shiftl_1_l. apply Z.pow_pos_nonneg; lia.
Qed.

Lemma best_level_spec (v : Version) :
  best_level v = (-1, dbl_of_Z (-1)) \/ exists level, (level + 1 < kNumLevels)%nat /\ best_level v = (Z.of_nat level, level_score v level).
Proof.
  unfold best_level. assert (forall levels best, (forall l, l ∈ levels -> (l + 1 < kNumLevels)%nat) ->
    (best = (-1, dbl_of_Z (-1)) \/ exists level, (level + 1 < kNumLevels)%nat /\ best = (Z.of_nat level, level_score v level)) ->
    let r := fold_left (fun best level => if bool_decide (dbl_compare (level_score v level) (snd best) = Gt) then (Z.of_nat level, level_score v level) else best) levels best in
    r = (-1, dbl_of_Z (-1)) \/ exists level, (level + 1 < kNumLevels)%nat /\ r = (Z.of_nat level, level_score v level)) as Hgo.
  { induction levels as [|l levels IH]; intros best Hl Hb; [done|]. cbn [fold_left]. apply IH; [intros x Hx; apply Hl; by right|].
    case_bool_decide; [|done]. right. exists l. split; [apply Hl; by left|done]. }
  apply Hgo; [|by left]. intros l Hl. apply elem_of_seq in Hl. unfold kNumLevels in *. lia.
Qed.

Lemma Finalize_pickable (v : Version) : v_file_to_compact v = None -> pickable (Finalize v).
Proof.
  intros Hn. split; [|cbn [Finalize v_file_to_compact]; rewrite Hn; done]. cbn [Finalize v_compaction_score v_compaction_level]. intros Hs.
  destruct (best_level_spec v) as [E|(level & Hl & E)]; rewrite E in *; cbn [fst snd] in *; [exfalso; apply Hs; reflexivity|]. split; [split; lia|].
  rewrite Nat2Z.id. change (files_ (Finalize v) level) with (files_ v level). intros Hf. apply Hs, zero_score, level_score_empty, Hf.
Qed.

(** *** Seek statistics *)

Definition cand_before (x y : nat * FileMetaData) : Prop := fst x = 0%nat \/ (fst x < fst y)%nat.

Lemma level_candidates_sorted (v : Version) (u k : bytes) (a n : nat) :
  StronglySorted cand_before (concat (map (level_candidate (C := C) v u k) (seq a n))) /\
  forall x, x ∈ concat (map (level_candidate (C := C) v u k) (seq a n)) -> (a <= fst x < a + n)%nat /\ snd x ∈ files_ v (fst x).
Proof.
  revert a. induction n as [|n IH]; intros a; cbn [seq map concat]; [split; [constructor|]; intros x Hx; by apply not_elem_of_nil in Hx|].
  destruct (IH (S a)) as [IHs IHe]. assert (forall x, x ∈ level_candidate (C := C) v u k a -> fst x = a /\ snd x ∈ files_ v a) as Ha.
  { unfold level_candidate. destruct (files_ v a !! _) as [f|] eqn:Ef; [|intros x Hx; by apply not_elem_of_nil in Hx]. case_bool_decide; intros x Hx.
    - by apply not_elem_of_nil in Hx.
    - apply list_elem_of_singleton in Hx as ->. split; [done|]. by apply list_elem_of_lookup_2 in Ef. }
  split.
  - assert (length (level_candidate (C := C) v u k a) <= 1)%nat as Hl by (unfold level_candidate; repeat case_match; cbn; lia).
    destruct (level_candidate v u k a) as [|x [|]]; cbn in Hl; [done| |lia]. cbn. constructor; [done|]. apply List.Forall_forall. intros y Hy.
    apply list_elem_of_In, IHe in Hy as [Hy _]. right. destruct (Ha x ltac:(by left)) as [-> _]. lia.
  - intros x [Hx|Hx]%elem_of_app; [destruct (Ha x Hx) as [-> ?]; split; [lia|done]|]. destruct (IHe x Hx) as [? ?]. split; [lia|done].
Qed.

Lemma candidates_ordered (v : Version) (u k : bytes) :
  StronglySorted cand_before (candidates (C := C) v u k) /\ forall x, x ∈ candidates (C := C) v u k -> (fst x < kNumLevels)%nat /\ snd x ∈ files_ v (fst x).
Proof.
  unfold candidates. destruct (level_candidates_sorted v u k 1 (kNumLevels - 1)) as [Hs He].
  assert (forall x, x ∈ level0_candidates (C := C) v u -> fst x = 0%nat /\ snd x ∈ files_ v 0) as H0.
  { intros x Hx. unfold level0_candidates in Hx. apply list_elem_of_fmap in Hx as (f & -> & Hf). split; [done|].
    rewrite merge_sort_Permutation in Hf. apply list_elem_of_In, filter_In in Hf as [Hf _]. by apply list_elem_of_In. }
  split.
  - induction (level0_candidates v u) as [|x l IH]; [done|]. cbn. constructor; [apply IH; intros y Hy; apply H0; by right|].
    apply List.Forall_forall. intros y _. left. by apply H0; left.
  - intros x [Hx|Hx]%elem_of_app; [destruct (H0 x Hx) as [-> ?]; split; [unfold kNumLevels; lia|done]|]. destruct (He x Hx) as [? ?]. split; [unfold kNumLevels in *; lia|done].
Qed.

(** A file that is charged a seek was followed by another one. *)
Definition stats_ok (v : Version) (stats : GetStats) : Prop :=
  forall f, seek_file stats = Some f -> pick_at v (seek_file_level stats) /\ f ∈ files_ v (Z.to_nat (seek_file_level stats)).

Lemma followed_ok (v : Version) (done_ rest : list (nat * FileMetaData)) (x y : nat * FileMetaData) :
  StronglySorted cand_before (done_ ++ y :: rest) -> (forall x, x ∈ done_ ++ y :: rest -> (fst x < kNumLevels)%nat /\ snd x ∈ files_ v (fst x)) -> x ∈ done_ ->
  pick_at v (Z.of_nat (fst x)) /\ snd x ∈ files_ v (Z.to_nat (Z.of_nat (fst x))).
Proof.
  intros Hs He Hx. destruct (He x) as [Hl Hf]; [apply elem_of_app; by left|]. destruct (He y) as [Hy _]; [apply elem_of_app; right; by left|].
  rewrite Nat2Z.id. split; [|done]. assert (cand_before x y) as Hb.
  { clear -Hs Hx. induction done_ as [|z l IH]; [by apply not_elem_of_nil in Hx|]. cbn in Hs. apply StronglySorted_inv in Hs as [Hs Hz].
    apply elem_of_cons in Hx as [->|Hx]; [|by apply IH]. rewrite List.Forall_forall in Hz. apply Hz, in_app_iff. right. by left. }
  unfold pick_at. unfold cand_before in Hb. unfold kNumLevels in *. lia.
Qed.

Lemma Get_stats_ok {T : Type} `{TableStore T} (options : ReadOptions) (k : LookupKey) (v : Version) (tables : T) :
  stats_ok v (snd (fst (Version_Get (C := C) options k v tables))).
Proof.
  unfold Version_Get, ForEachOverlapping. cbn [fst snd]. destruct (candidates_ordered v (lk_user_key k) (lk_internal_key k)) as [Hs He].
  set (L := candidates v _ _) in *.
  assert (forall rest done_ (g : GetState T), L = done_ ++ rest -> stats_ok v (gs_stats g) -> (forall f l, gs_last g = Some (f, l) -> (l, f) ∈ done_) ->
    stats_ok v (gs_stats (call_while (match_func (C := C) options k) rest g))) as Hgo.
  { induction rest as [|[l f] rest IH]; intros done_ g EL Hst Hlast; [done|]. cbn [call_while]. unfold match_func.
    set (stats := match seek_file (gs_stats g) with Some _ => _ | None => _ end).
    assert (stats_ok v stats) as Hst'.
    { unfold stats. destruct (seek_file (gs_stats g)) eqn:Es; [done|]. destruct (gs_last g) as [[f' l']|] eqn:El; [|done].
      intros f0 [= <-]. rewrite EL in Hs, He. apply (followed_ok v done_ rest (l', f') (l, f)); [done|done|]. by apply Hlast. }
    destruct (ts_Get _ _ _ _ _) as [[res entry] tables'].
    set (g1 := mkGetState stats _ _ _ _ tables'). set (g2 := match entry with Some (ikey, w) => save_value_cb k ikey w g1 | None => g1 end).
    assert (gs_stats g2 = stats /\ gs_last g2 = Some (f, l)) as [E1 E2].
    { unfold g2. destruct entry as [[ikey w]|]; [|done]. unfold save_value_cb. repeat case_match; done. }
    destruct res as [[]|st]; [|cbn [gs_stats]; by rewrite E1]. destruct (negb (gs_found g2)); [|by rewrite E1].
    apply (IH (done_ ++ [(l, f)])); [rewrite EL; by rewrite <- app_assoc|by rewrite E1|]. intros f0 l0. rewrite E2. intros [= <- <-]. apply elem_of_app. right. by left. }
  apply (Hgo L [] _ eq_refl); [intros f Hf; discriminate Hf|intros f l Hf; discriminate Hf].
Qed.

Lemma UpdateStats_pickable (v : Version) (stats : GetStats) (seeks : Z) : pickable v -> stats_ok v stats -> pickable (snd (fst (UpdateStats stats v seeks))).
Proof.
  intros Hp Hs. pose proof Hp as [Hp1 Hp2]. unfold UpdateStats. destruct (seek_file stats) as [f|] eqn:Ef; [|done]. cbv zeta.
  destruct (v_file_to_compact v) eqn:Ec; [done|]. destruct (_ <=? 0); [|done]. split; [exact Hp1|]. intros f' [= <-]. by apply Hs.
Qed.

Lemma RecordReadSample_pickable (key : bytes) (v : Version) (seeks : FileMetaData -> Z) : pickable v -> pickable (snd (fst (RecordReadSample (C := C) key v seeks))).
Proof.
  intros Hp. unfold RecordReadSample. destruct (ParseInternalKey key) as [ikey|]; [|done]. unfold ForEachOverlapping.
  destruct (candidates_ordered v (pik_user_key ikey) key) as [Hs He]. destruct (candidates v (pik_user_key ikey) key) as [|x [|y L]]; [exact Hp|exact Hp|].
  change (call_while sample_func (x :: y :: L) (0, mkGetStats None (-1))) with (2, mkGetStats (Some (snd x)) (Z.of_nat (fst x))). cbn [seek_file Z.leb Z.compare].
  assert (stats_ok v (mkGetStats (Some (snd x)) (Z.of_nat (fst x)))) as Hst.
  { intros f [= <-]. apply (followed_ok v [x] L x y); [done|done|by left]. }
  pose proof (UpdateStats_pickable v _ (seeks (snd x)) Hp Hst) as Hu. destruct (UpdateStats _ v (seeks (snd x))) as [[b v'] n]. exact Hu.
Qed.

(** *** The seeds are good *)

Lemma single_run (f : FileMetaData) (files : list FileMetaData) : f ∈ files -> run_of [f] files.
Proof. intros Hf. apply list_elem_of_split in Hf as (a & b & ->). by exists a, b. Qed.

Lemma size_seed_spec (pointer : bytes) (files : list FileMetaData) : files <> [] -> exists f, size_seed (C := C) pointer files = [f] /\ f ∈ files.
Proof.
  intros Hne. unfold size_seed. destruct (List.find _ files) as [f|] eqn:Ef.
  - exists f. split; [done|]. apply find_some in Ef as [Hf _]. by apply list_elem_of_In.
  - destruct files as [|f files]; [done|]. exists f. split; [done|by left].
Qed.

Lemma pick_seed_spec (pointers : list bytes) (v : Version) (level : nat) (seed : list FileMetaData) :
  pickable v -> pick_seed (C := C) pointers v = Some (level, seed) -> (level + 1 < kNumLevels)%nat /\ exists f, seed = [f] /\ f ∈ files_ v level.
Proof.
  intros [Hp1 Hp2]. unfold pick_seed. case_bool_decide as Hs.
  - intros [= <- <-]. destruct (Hp1 Hs) as [[H0 H1] Hne]. split; [lia|]. by apply size_seed_spec.
  - destruct (v_file_to_compact v) as [f|]; [|done]. intros [= <- <-]. destruct (Hp2 f eq_refl) as [[H0 H1] Hf]. split; [lia|]. by exists f.
Qed.

(** The files of level 0 that a file of it draws in. *)
Lemma level0_seed (v : Version) (f : FileMetaData) :
  version_sorted (C := C) v -> f ∈ files_ v 0 -> seed_ok (C := C) v 0 (GetOverlappingInputs (C := C) 0 (Some (fm_smallest f)) (Some (fm_largest f)) v).
Proof.
  intros Hv Hf. apply overlapping_seed; [done|].
  destruct (GetOverlappingInputs_level0 (C := C) (Some (fm_smallest f)) (Some (fm_largest f)) v) as (b & e & E & (Hb & He & _ & _)). rewrite E.
  assert (In f (List.filter (overlaps (C := C) b e) (files_ v 0))) as Hin; [|intros Hn; rewrite Hn in Hin; done].
  apply filter_In. split; [by apply list_elem_of_In|]. eapply overlaps_mono; [exact Hb|exact He|].
  pose proof (vs_ok v Hv 0) as Hok. rewrite Forall_forall in Hok. destruct (Hok f Hf) as [_ _ Hr]. apply icle_user in Hr.
  unfold overlaps. apply andb_true_iff. rewrite !negb_true_iff. split; [by apply after_file_false|by apply before_file_false].
Qed.

Lemma limit_inputs_prefix (limit total : Z) (inputs : list FileMetaData) : exists b, inputs = limit_inputs limit total inputs ++ b.
Proof.
  revert total. induction inputs as [|f inputs IH]; intros total; [by exists []|]. cbn [limit_inputs].
  destruct (limit <=? _); [by exists inputs|]. destruct (IH (u64 (total + fm_file_size f))) as (b & Eb). exists b. cbn. by f_equal.
Qed.

Lemma limited_seed (v : Version) (level : nat) (limit : Z) (inputs : list FileMetaData) :
  inputs <> [] -> run_of inputs (files_ v level) -> run_of (limit_inputs limit 0 inputs) (files_ v level) /\ limit_inputs limit 0 inputs <> [].
Proof.
  intros Hne (a & b & E). destruct (limit_inputs_prefix limit 0 inputs) as (b' & E'). split; [|destruct inputs; [done|cbn; done]].
  exists a, (b' ++ b). rewrite E. rewrite E' at 1. by rewrite <- !app_assoc.
Qed.

Lemma PickCompaction_closed {W : Type} (max_file_size : Z) (vs : VersionSet W) :
  version_sorted (C := C) (current vs) -> pickable (current vs) ->
  match PickCompaction (C := C) max_file_size vs with
  | (Some c, vs') => NeedsCompaction vs = true /\ inputs_closed (C := C) (current vs) c /\ (c_level c + 1 < kNumLevels)%nat /\
      vs' = set_pointers (<[c_level c := snd (GetRange (C := C) (c_inputs0 c))]> (vs_compact_pointer vs)) vs
  | (None, vs') => NeedsCompaction vs = false /\ vs' = vs
  end.
Proof.
  intros Hv Hp. unfold PickCompaction. destruct (pick_seed (vs_compact_pointer vs) (current vs)) as [[level seed]|] eqn:Es.
  - destruct (pick_seed_spec _ _ _ _ Hp Es) as (Hl & f & -> & Hf).
    set (inputs := if (level =? 0)%nat then _ else [f]). assert (seed_ok (C := C) (current vs) level inputs) as Hseed.
    { unfold inputs. destruct (Nat.eqb_spec level 0) as [->|Hn]; [by apply level0_seed|]. split; [done|]. destruct level; [done|]. by apply single_run. }
    pose proof (SetupOtherInputs_closed max_file_size (vs_compact_pointer vs) (current vs) level inputs Hv Hseed) as Hset.
    destruct (SetupOtherInputs max_file_size _ _) as [c pointers]. destruct Hset as (Hc & El & ->). subst level. split_and!; [|done|done|done].
    unfold pick_seed in Es. unfold NeedsCompaction. destruct (bool_decide _); [done|]. by destruct (v_file_to_compact (current vs)).
  - split; [|done]. unfold pick_seed in Es. unfold NeedsCompaction. destruct (bool_decide _); [done|]. by destruct (v_file_to_compact (current vs)).
Qed.

Lemma CompactRange_closed {W : Type} (max_file_size : Z) (level : nat) (begin end_ : option InternalKey) (vs : VersionSet W) :
  version_sorted (C := C) (current vs) ->
  match CompactRange (C := C) max_file_size level begin end_ vs with
  | (Some c, vs') => inputs_closed (C := C) (current vs) c /\ c_level c = level /\ vs' = set_pointers (<[level := snd (GetRange (C := C) (c_inputs0 c))]> (vs_compact_pointer vs)) vs
  | (None, vs') => GetOverlappingInputs (C := C) level begin end_ (current vs) = [] /\ vs' = vs
  end.
Proof.
  intros Hv. unfold CompactRange. destruct (GetOverlappingInputs level begin end_ (current vs)) as [|f rest] eqn:E; [done|]. rewrite <- E.
  assert (GetOverlappingInputs (C := C) level begin end_ (current vs) <> []) as Hne by (by rewrite E).
  pose proof (overlapping_seed (current vs) level begin end_ Hv Hne) as Hseed0.
  set (inputs := if (0 <? level)%nat then _ else _). assert (seed_ok (C := C) (current vs) level inputs) as Hseed.
  { unfold inputs. destruct level as [|level]; [done|]. change (0 <? S level)%nat with true. cbv iota. destruct Hseed0 as [_ Hrun].
    destruct (limited_seed (current vs) (S level) (MaxFileSizeForLevel max_file_size (S level)) _ Hne Hrun) as [H1 H2]. by split. }
  pose proof (SetupOtherInputs_closed max_file_size (vs_compact_pointer vs) (current vs) level inputs Hv Hseed) as Hset.
  destruct (SetupOtherInputs max_file_size _ _) as [c pointers]. destruct Hset as (Hc & El & ->). done.
Qed.
End Pick.

(** ** The base-level cursor *)

Section BaseLevel.
Context {C : Comparator} {CL : ComparatorLaws C}.

(** No file below the output level covers the key. *)
Definition is_base (v : Version) (level : nat) (u : bytes) : bool :=
  forallb (fun lvl => negb (existsb (covers (C := C) u) (files_ v lvl))) (seq (level + 2) (kNumLevels - (level + 2))).

(** The files before the cursor end before [u]. *)
Definition ptr_ok (v : Version) (u : bytes) (lvl ptr : nat) : Prop :=
  forall i f, (i < ptr)%nat -> files_ v lvl !! i = Some f -> clt (InternalKey_user_key (fm_largest f)) u.

Lemma covers_true (u : bytes) (f : FileMetaData) :
  covers (C := C) u f = true <-> cle (InternalKey_user_key (fm_smallest f)) u /\ cle u (InternalKey_user_key (fm_largest f)).
Proof.
  unfold covers. rewrite andb_true_iff, !bool_decide_eq_true. fold (clt u (InternalKey_user_key (fm_smallest f))). rewrite not_clt. done.
Qed.

Lemma level_holds_spec (v : Version) (u : bytes) (lvl ptr : nat) :
  version_sorted (C := C) v -> (0 < lvl)%nat -> ptr_ok v u lvl ptr ->
  let '(holds, ptr') := level_holds (C := C) u (drop ptr (files_ v lvl)) ptr in holds = existsb (covers (C := C) u) (files_ v lvl) /\ ptr_ok v u lvl ptr'.
Proof.
  intros Hv Hl Hptr. pose proof (vs_ok v Hv lvl) as Hok. pose proof (vs_in_order v Hv lvl Hl) as Hs.
  remember (drop ptr (files_ v lvl)) as rest eqn:Er. revert ptr Er Hptr. induction rest as [|f rest IH]; intros ptr Er Hptr; cbn [level_holds].
  - split; [|done]. symmetry. apply not_true_iff_false. rewrite existsb_exists. intros (f & Hf & Hc). apply list_elem_of_In, list_elem_of_lookup in Hf as [i Hi].
    apply covers_true in Hc as [_ Hc]. assert (i < ptr)%nat as Hip by (apply lookup_lt_Some in Hi; apply (f_equal length) in Er; rewrite length_drop in Er; cbn in Er; lia).
    specialize (Hptr i f Hip Hi). apply (clt_irrefl u). by eapply cle_clt_trans.
  - assert (files_ v lvl !! ptr = Some f) as Hf by (rewrite <- (Nat.add_0_r ptr), <- lookup_drop, <- Er; done).
    assert (rest = drop (S ptr) (files_ v lvl)) as Er' by (rewrite <- (Nat.add_1_r ptr), <- drop_drop, <- Er; done).
    destruct (bool_decide (Compare u (InternalKey_user_key (fm_largest f)) <> Gt)) eqn:Eb; [apply bool_decide_eq_true in Eb as Hle|apply bool_decide_eq_false in Eb as Hgt].
    + split; [|done]. fold (cle u (InternalKey_user_key (fm_largest f))) in Hle. apply eq_true_iff_eq. rewrite bool_decide_eq_true, existsb_exists.
      fold (clt u (InternalKey_user_key (fm_smallest f))). rewrite not_clt. split.
      * intros Hsm. exists f. split; [apply list_elem_of_In; by apply list_elem_of_lookup_2 in Hf|]. by apply covers_true.
      * intros (g & Hg & Hc). apply list_elem_of_In, list_elem_of_lookup in Hg as [i Hi]. apply covers_true in Hc as [Hc1 Hc2].
        destruct (lt_eq_lt_dec i ptr) as [[Hip|Hip]|Hip].
        -- exfalso. specialize (Hptr i g Hip Hi). apply (clt_irrefl u). by eapply cle_clt_trans.
        -- subst i. rewrite Hf in Hi. by injection Hi as <-.
        -- pose proof (files_sorted_lt (C := C) _ _ _ _ _ Hs Hip Hf Hi) as Hfg. apply (clt_cle (C := InternalKeyComparator C)), icle_user in Hfg.
           apply (cmp_le_trans _ (InternalKey_user_key (fm_largest f))); [|by eapply cmp_le_trans]. apply icle_user. rewrite Forall_lookup in Hok. by apply (Hok ptr).
    + apply (IH (S ptr) Er'). intros i g Hi Hg. destruct (decide (i = ptr)) as [->|]; [|apply (Hptr i g); [lia|done]]. rewrite Hf in Hg. injection Hg as <-.
      apply not_cle. exact Hgt.
Qed.

Lemma base_level_loop_spec (v : Version) (u : bytes) (levels ptrs : list nat) :
  version_sorted (C := C) v -> (forall lvl, lvl ∈ levels -> (0 < lvl)%nat /\ (lvl < length ptrs)%nat) -> (forall lvl, ptr_ok v u lvl (nth lvl ptrs 0%nat)) ->
  let '(base, ptrs') := base_level_loop (C := C) u v levels ptrs in
  base = forallb (fun lvl => negb (existsb (covers (C := C) u) (files_ v lvl))) levels /\ length ptrs' = length ptrs /\ forall lvl, ptr_ok v u lvl (nth lvl ptrs' 0%nat).
Proof.
  intros Hv. revert ptrs. induction levels as [|lvl levels IH]; intros ptrs Hl Hptr; [done|]. cbn [base_level_loop forallb].
  destruct (Hl lvl ltac:(by left)) as [H0 H1]. pose proof (level_holds_spec v u lvl (nth lvl ptrs 0%nat) Hv H0 (Hptr lvl)) as Hh.
  destruct (level_holds u _ _) as [holds ptr']. destruct Hh as [<- Hp'].
  assert (forall l, ptr_ok v u l (nth l (<[lvl := ptr']> ptrs) 0%nat)) as Hptr'.
  { intros l. destruct (decide (l = lvl)) as [->|Hn].
    - rewrite nth_lookup, list_lookup_insert_eq by done. done.
    - rewrite nth_lookup, list_lookup_insert_ne by done. rewrite <- nth_lookup. apply Hptr. }
  destruct holds; cbn [negb andb]; [by rewrite length_insert|].
  assert (length (<[lvl := ptr']> ptrs) = length ptrs) as El by apply length_insert.
  pose proof (IH (<[lvl := ptr']> ptrs)) as IH'. destruct (base_level_loop u v levels _) as [base ptrs']. rewrite El in IH'. apply IH'; [intros l Hin; apply Hl; by right|done].
Qed.

(** The answers for a sequence of keys. *)
Fixpoint base_answers (keys : list bytes) (c : Compaction) : list bool :=
  match keys with
  | [] => []
  | u :: keys => let '(base, c) := IsBaseLevelForKey (C := C) u c in base :: base_answers keys c
  end.

Lemma base_answers_spec (keys : list bytes) (c : Compaction) :
  version_sorted (C := C) (c_input_version c) -> length (c_level_ptrs c) = kNumLevels -> Sorted cle keys ->
  (forall u lvl, head keys = Some u -> ptr_ok (c_input_version c) u lvl (nth lvl (c_level_ptrs c) 0%nat)) ->
  base_answers keys c = map (is_base (c_input_version c) (c_level c)) keys.
Proof.
  intros Hv Hlen Hs. revert c Hv Hlen. induction Hs as [|u keys Hs IH Hu]; intros c Hv Hlen Hptr; [done|]. cbn [base_answers map]. unfold IsBaseLevelForKey.
  pose proof (base_level_loop_spec (c_input_version c) u (seq (c_level c + 2) (kNumLevels - (c_level c + 2))) (c_level_ptrs c) Hv) as Hb.
  destruct (base_level_loop u _ _ _) as [base ptrs]. destruct Hb as (-> & Hl & Hp).
  - intros lvl Hlvl. apply elem_of_seq in Hlvl. rewrite Hlen. lia.
  - intros lvl. by apply Hptr.
  - unfold is_base at 1. f_equal. rewrite IH; [done|done|cbn [set_level_ptrs c_level_ptrs]; congruence|]. intros u' lvl Hu' i f Hi Hf. destruct keys as [|u0 keys]; [done|]. cbn in Hu'. injection Hu' as ->.
    inversion Hu; subst. eapply clt_cle_trans; [by apply (Hp lvl i f)|done].
Qed.
End BaseLevel.

(** ** Properties *)

(** C27. The inputs of a compaction are safe to compact: on a version whose levels
    below 0 are in order, [PickCompaction] returns a compaction exactly when
    [NeedsCompaction] says so, and for every compaction that [PickCompaction] or
    [CompactRange] returns: the input files are files of the two levels; a file of
    the level that is left out and shares a user key with an input lies before it in
    the order of internal keys, so what it holds of the key is newer (on level 0 none
    is left out); every file of the next level that overlaps the range of the inputs
    is taken, as a run of neighbours; the grandparents are the files of the level
    after that which overlap both; and the compaction pointer moves to the end of
    the inputs.  In particular the search for boundary files ends. *)
Theorem compaction_inputs_safe {C : Comparator} {CL : ComparatorLaws C} {W : Type} (max_file_size : Z) (vs : VersionSet W) :
  version_sorted (C := C) (current vs) -> pickable (current vs) ->
  match PickCompaction (C := C) max_file_size vs with
  | (Some c, vs') => NeedsCompaction vs = true /\ inputs_closed (C := C) (current vs) c /\ (c_level c + 1 < kNumLevels)%nat /\
      vs' = set_pointers (<[c_level c := snd (GetRange (C := C) (c_inputs0 c))]> (vs_compact_pointer vs)) vs
  | (None, vs') => NeedsCompaction vs = false /\ vs' = vs
  end /\
  forall level begin end_,
  match CompactRange (C := C) max_file_size level begin end_ vs with
  | (Some c, vs') => inputs_closed (C := C) (current vs) c /\ c_level c = level /\ vs' = set_pointers (<[level := snd (GetRange (C := C) (c_inputs0 c))]> (vs_compact_pointer vs)) vs
  | (None, vs') => GetOverlappingInputs (C := C) level begin end_ (current vs) = [] /\ vs' = vs
  end.
Proof. intros Hv Hp. split; [by apply PickCompaction_closed|]. intros level begin end_. by apply CompactRange_closed. Qed.

(** The steps that change what a version says about compaction: reads and samples. *)
Inductive stat_step {C : Comparator} : Version -> Version -> Prop :=
  | step_get (T : Type) (HT : TableStore T) options k (tables : T) v seeks :
      stat_step v (snd (fst (UpdateStats (snd (fst (Version_Get (C := C) options k v tables))) v seeks)))
  | step_sample key v seeks : stat_step v (snd (fst (RecordReadSample (C := C) key v seeks))).

(** The level to compact always exists: in every version made by [Finalize],
    after any reads and read samples on it, the level that [PickCompaction] takes
    files from is in range, so is the level below it, and the file it starts from is
    a file of that level; whatever the tables answer.  (So no access to the arrays
    of levels and files is out of bounds.) *)
Theorem pick_in_bounds {C : Comparator} {CL : ComparatorLaws C} (v0 v : Version) (pointers : list bytes) (level : nat) (seed : list FileMetaData) :
  v_file_to_compact v0 = None -> rtc (stat_step (C := C)) (Finalize v0) v -> pick_seed (C := C) pointers v = Some (level, seed) ->
  (level + 1 < kNumLevels)%nat /\ exists f, seed = [f] /\ f ∈ files_ v level.
Proof.
  intros Hn Hr Hs. apply (pick_seed_spec pointers v level seed); [|done].
  assert (pickable (Finalize v0)) as Hp by by apply Finalize_pickable. clear -CL Hr Hp. induction Hr as [|x y z Hxy _ IH]; [done|]. apply IH.
  destruct Hxy; [apply UpdateStats_pickable; [done|apply Get_stats_ok]|by apply RecordReadSample_pickable].
Qed.

(** C28. The cursors of a compaction answer as the scan they replace: for user keys
    in order, as the merged input gives them, [IsBaseLevelForKey] says at every key
    whether no file of a level below the output covers it, though it never looks at
    a file twice once it has passed it. *)
Theorem base_level_cursor {C : Comparator} {CL : ComparatorLaws C} (max_file_size : Z) (level : nat) (v : Version) (inputs : list FileMetaData) (keys : list bytes) :
  version_sorted (C := C) v -> Sorted cle keys ->
  base_answers (C := C) keys (newCompaction max_file_size level v inputs) = map (is_base (C := C) v level) keys.
Proof.
  intros Hv Hs. apply (base_answers_spec keys (newCompaction max_file_size level v inputs)); [done|done|done|]. intros u lvl _ i f Hi.
  cbn [newCompaction c_level_ptrs] in Hi. rewrite nth_lookup in Hi. destruct (replicate kNumLevels 0%nat !! lvl) eqn:E; [|cbn in Hi; lia].
  apply lookup_replicate in E as [-> _]. cbn in Hi. lia.
Qed.

(** ** Examples *)

Definition example_span (n : Z) (lo : string) (lo_seq : Z) (hi : string) (hi_seq : Z) : FileMetaData :=
  mkFileMetaData 100 n 4096 (newInternalKey (lit lo) lo_seq kTypeValue) (newInternalKey (lit hi) hi_seq kTypeValue).

(** On level 1 the second file goes on with the user key the first one ends with. *)
Definition example_level1 : list FileMetaData := [example_span 1 "a" 9 "c" 5; example_span 2 "c" 3 "e" 2; example_span 3 "g" 8 "h" 7].
Definition example_level2 : list FileMetaData := [example_span 11 "b" 1 "d" 1; example_span 12 "m" 1 "p" 1].
Definition example_levels : Version :=
  mkVersion [[]; example_level1; example_level2; [example_span 21 "d" 1 "d" 1]; []; []; []] None (-1) (dbl_of_Z 2) 1.
Definition example_set : VersionSet unit := mkVersionSet 30 0 100 0 0 None [example_levels] (replicate kNumLevels []).

Lemma example_span_ok (n : Z) (lo : string) (lo_seq : Z) (hi : string) (hi_seq : Z) :
  seq_ok lo_seq -> seq_ok hi_seq ->
  @cle (InternalKeyComparator BytewiseComparator) (newInternalKey (lit lo) lo_seq kTypeValue) (newInternalKey (lit hi) hi_seq kTypeValue) ->
  file_ok (C := BytewiseComparator) (example_span n lo lo_seq hi hi_seq).
Proof. intros H1 H2 Hle. split; [eexists; split; [|reflexivity]; exact H1|eexists; split; [|reflexivity]; exact H2|exact Hle]. Qed.

Lemma example_levels_sorted : version_sorted (C := BytewiseComparator) example_levels.
Proof.
  split; intros level.
  - do 7 (destruct level as [|level];
      [repeat (apply Forall_cons; split); try apply Forall_nil; try exact I; (apply example_span_ok; [unfold seq_ok; vm_compute; split; discriminate..|vm_compute; discriminate])|]).
    destruct level; apply Forall_nil; exact I.
  - intros _. do 7 (destruct level as [|level]; [repeat constructor|]). destruct level; constructor.
Qed.

Lemma compaction_inputs_safe_witness :
  (match PickCompaction (C := BytewiseComparator) 2097152 example_set with (Some c, _) => inputs_closed (C := BytewiseComparator) example_levels c | _ => False end) /\
  option_map (fun c => (map fm_number (c_inputs0 c), map fm_number (c_inputs1 c), map fm_number (c_grandparents c)))
    (fst (PickCompaction (C := BytewiseComparator) 2097152 example_set)) = Some ([1; 2], [11], [21]).
Proof.
  split; [|vm_compute; reflexivity].
  destruct (compaction_inputs_safe (C := BytewiseComparator) 2097152 example_set) as [Hp _].
  - exact example_levels_sorted.
  - split; [intros _; split; [split; vm_compute; congruence|vm_compute; congruence]|]. intros f Hf. discriminate Hf.
  - destruct (PickCompaction 2097152 example_set) as [[c|] vs'].
    + destruct Hp as (_ & Hc & _). exact Hc.
    + destruct Hp as [Hn _]. vm_compute in Hn. discriminate Hn.
Defined.

(** A level of more than 10 MB. *)
Definition example_large : FileMetaData := mkFileMetaData 100 7 20000000 (newInternalKey (lit "a") 9 kTypeValue) (newInternalKey (lit "c") 5 kTypeValue).
Definition example_busy : Version := mkVersion [[]; [example_large]; []; []; []; []; []] None (-1) (dbl_of_Z (-1)) (-1).

Lemma pick_in_bounds_witness :
  exists f, pick_seed (C := BytewiseComparator) (replicate kNumLevels []) (Finalize example_busy) = Some (1%nat, [f]) /\ f ∈ files_ (Finalize example_busy) 1.
Proof.
  destruct (pick_in_bounds (C := BytewiseComparator) example_busy (Finalize example_busy) (replicate kNumLevels []) 1 [example_large]) as (_ & f & E & Hf).
  - reflexivity.
  - apply rtc_refl.
  - vm_compute. reflexivity.
  - exists f. split; [rewrite <- E; vm_compute; reflexivity|exact Hf].
Defined.

Lemma base_level_cursor_witness :
  base_answers (C := BytewiseComparator) [lit "a"; lit "d"; lit "d"; lit "z"] (newCompaction 2097152 1 example_levels example_level1) = [true; false; false; true].
Proof.
  etransitivity; [apply (base_level_cursor (C := BytewiseComparator))|vm_compute; reflexivity].
  - exact example_levels_sorted.
  - repeat constructor; vm_compute; discriminate.
Defined.
