(* ===== verification/TableCache.v ===== *)
(** * TableCache: opened tables ([db/table_cache.cc], [db/table_cache.h])

    The map from file numbers to opened tables.  The lookups run under a mutex, so
    they are atomic steps on the state.  The main result: over tables that the table
    builder wrote, the table cache keeps the promise that [VersionRead] reads through
    ([TableStoreLaws]), block cache and filters included; so a lookup in a version
    reaches the entries on disk. *)

From stdpp Require Import fin_sets.
From S2P Require Import Prelude Status Coding Comparator Logging FilterPolicy DbFormat Env Format Iterator Block FilterBlock.
From S2P Require Import TwoLevelIterator TableBuilder Cache Table VersionEdit FileName DBIter Version VersionRead.
From Stdlib Require Import Sorting.Sorted.

(** ** The table cache *)

Record TableCache (E F K : Type) := mkTableCache { tc_env : E; tc_tables : gmap Z (Table F); tc_block_cache : option K }.
Arguments mkTableCache {E F K}.
Arguments tc_env {E F K}.
Arguments tc_tables {E F K}.
Arguments tc_block_cache {E F K}.

(** The iterator of a table keeps the table, and the block cache from the time it was
    opened on. *)
Record TableIter (F K : Type) := mkTableIter {
  tit_table : Table F; tit_options : ReadOptions; tit_iter : TwoLevelIterator (EmptyIterator + BlockIter) (EmptyIterator + BlockIter) (option K)
}.
Arguments mkTableIter {F K}.
Arguments tit_table {F K}.
Arguments tit_options {F K}.
Arguments tit_iter {F K}.

Section TableCacheDef.
Context (slen zstlen : bytes -> option Z) (sun zun : bytes -> option bytes).
Context {C : Comparator} {P : FilterPolicy} {E F : Type} `{RandomAccessFS E F} `{RandomAccessFile F} {K Hd : Type} `{Cache K Hd Block}.
Context (dbname : bytes) (topts : TableOptions).

(** The number of entries the constructor is given is not used. *)
Definition newTableCache (env : E) (block_cache : option K) : TableCache E F K := mkTableCache env ∅ block_cache.

(** The second critical section of [FindTable]: another thread may have opened the
    table in between, and then its entry is used. *)
Definition PublishTable (file_number : Z) (t : Table F) (env : E) (cache : option K) (s : TableCache E F K) : Table F * TableCache E F K :=
  match tc_tables s !! file_number with
  | Some t' => (t', mkTableCache env (tc_tables s) cache)
  | None => (t, mkTableCache env (<[file_number := t]> (tc_tables s)) cache)
  end.

Definition FindTable (file_number file_size : Z) (s : TableCache E F K) : Result (Table F) * TableCache E F K :=
  match tc_tables s !! file_number with
  | Some t => (Ok t, s)
  | None =>
      let '(file_res, env) := fs_NewRandomAccessFile (TableFileName dbname file_number) (tc_env s) in
      match file_res with
      | Err st => (Err st, mkTableCache env (tc_tables s) (tc_block_cache s))
      | Ok file =>
          let '(table_res, cache) := Table_Open slen zstlen sun zun topts file file_size (tc_block_cache s) in
          match table_res with
          | Err st => (Err st, mkTableCache env (tc_tables s) cache)
          | Ok t => let '(t, s) := PublishTable file_number t env cache s in (Ok t, s)
          end
      end
  end.

(** The operations of the iterator of a table. *)
Definition on_table_iter (f : forall I : Iterator (TwoLevelIterator (EmptyIterator + BlockIter) (EmptyIterator + BlockIter) (option K)),
    TwoLevelIterator (EmptyIterator + BlockIter) (EmptyIterator + BlockIter) (option K) -> TwoLevelIterator (EmptyIterator + BlockIter) (EmptyIterator + BlockIter) (option K))
    (it : TableIter F K) : TableIter F K :=
  mkTableIter (tit_table it) (tit_options it)
    (f (TableIterator slen zstlen sun zun (tit_table it) (tit_options it)) (tit_iter it)).

Definition TableIter_I (it : TableIter F K) := TableIterator slen zstlen sun zun (tit_table it) (tit_options it).

#[export] Instance TableIter_iter : Iterator (TableIter F K) := {
  it_Valid it := it_Valid (Iterator := TableIter_I it) (tit_iter it);
  it_SeekToFirst := on_table_iter (fun I => it_SeekToFirst (Iterator := I));
  it_SeekToLast := on_table_iter (fun I => it_SeekToLast (Iterator := I));
  it_Seek target := on_table_iter (fun I => it_Seek (Iterator := I) target);
  it_Next := on_table_iter (fun I => it_Next (Iterator := I));
  it_Prev := on_table_iter (fun I => it_Prev (Iterator := I));
  it_key it := it_key (Iterator := TableIter_I it) (tit_iter it);
  it_value it := it_value (Iterator := TableIter_I it) (tit_iter it);
  it_status it := it_status (Iterator := TableIter_I it) (tit_iter it)
}.

Definition tc_NewIterator (options : ReadOptions) (file_number file_size : Z) (s : TableCache E F K)
  : (EmptyIterator + TableIter F K) * TableCache E F K :=
  let '(entry_res, s) := FindTable file_number file_size s in
  match entry_res with
  | Err st => (inl (NewErrorIterator st), s)
  | Ok t => (inr (mkTableIter t options (Table_NewIterator t (tc_block_cache s))), s)
  end.

Definition tc_Get (options : ReadOptions) (file_number file_size : Z) (k : bytes) (s : TableCache E F K)
  : Result unit * option (bytes * bytes) * TableCache E F K :=
  let '(entry_res, s) := FindTable file_number file_size s in
  match entry_res with
  | Err st => (Err st, None, s)
  | Ok t =>
      let '(r, found, cache) := InternalGet slen zstlen sun zun t options k (tc_block_cache s) in
      (r, found, mkTableCache (tc_env s) (tc_tables s) cache)
  end.

Definition tc_Evict (file_number : Z) (s : TableCache E F K) : TableCache E F K :=
  mkTableCache (tc_env s) (delete file_number (tc_tables s)) (tc_block_cache s).

Definition tc_ApproximateOffsetOf (file_number file_size : Z) (k : bytes) (s : TableCache E F K) : Z * TableCache E F K :=
  let '(entry_res, s) := FindTable file_number file_size s in
  match entry_res with
  | Err _ => (0, s)
  | Ok t => (ApproximateOffsetOf t k, s)
  end.
End TableCacheDef.

Lemma concat_at (blks : list entries) (b i : nat) (kvs : entries) (kv : bytes * bytes) :
  blks !! b = Some kvs -> kvs !! i = Some kv -> concat blks !! (length (concat (take b blks)) + i)%nat = Some kv.
Proof.
  intros Hb Hi. assert (concat blks = concat (take b blks) ++ kvs ++ concat (drop (S b) blks)) as ->.
  { rewrite <- (take_drop_middle blks b kvs Hb) at 1. by rewrite concat_app. }
  rewrite lookup_app_r by lia. replace (_ + i - _)%nat with i by lia. by apply lookup_app_l_Some.
Qed.

(** ** Lookups by internal key

    The index key between two blocks may be past the last key of the first one.  A
    lookup key between the two is answered from the first block, with nothing; the
    entry it would find in the second has another user key. *)

Section InternalLookup.
Context {C : Comparator} {CL : ComparatorLaws C}.

Abbreviation IC := (InternalKeyComparator C).

Lemma between_has_other_user (kvs : entries) (after : bytes * bytes -> Prop) (sep k : bytes) (e : bytes * bytes) :
  sep_origin (C := IC) kvs after sep -> @cle IC k sep -> (forall kv, kv ∈ kvs -> @clt IC (fst kv) k) -> after e -> ExtractUserKey (fst e) <> ExtractUserKey k.
Proof.
  intros (kv & Hkv & [(limit & -> & Hlt & Hl)|[_ Hno]]) Hk Hlow He; [|by destruct (Hno e)]. intros Eu.
  specialize (Hlow kv Hkv). specialize (Hl e He). pose proof (sep_lt (C := IC) _ _ Hlt) as Hsl.
  change (FindShortestSeparator (Comparator := IC) (fst kv) limit) with (ikc_FindShortestSeparator C (fst kv) limit) in *.
  destruct (ikc_separator_cases (fst kv) limit) as [Es|[Hu Es]].
  - rewrite Es in Hk. apply (clt_irrefl (C := IC) k). by eapply (cle_clt_trans (C := IC)).
  - set (tmp := FindShortestSeparator (ExtractUserKey (fst kv)) (ExtractUserKey limit)) in *.
    assert (ExtractUserKey (ikc_FindShortestSeparator C (fst kv) limit) = tmp) as Ex.
    { rewrite Es. exact (ExtractUserKey_encode (mkPIK tmp kMaxSequenceNumber kValueTypeForSeek)). }
    assert (clt tmp (ExtractUserKey limit)) as Htl.
    { apply (clt_cle (C := IC)), icle_user in Hlt as Hul. change (InternalKey_user_key ?x) with (ExtractUserKey x) in Hul.
      destruct (Compare_spec (ExtractUserKey (fst kv)) (ExtractUserKey limit)) as [He'|Hl'|Hg'].
      - exfalso. apply (clt_cle (C := IC)), icle_user in Hsl. change (InternalKey_user_key ?x) with (ExtractUserKey x) in Hsl. rewrite Ex in Hsl.
        apply (clt_irrefl tmp). eapply cle_clt_trans; [exact Hsl|]. eapply cle_clt_trans; [apply ceq_cle, ceq_sym, He'|exact Hu].
      - by apply sep_lt.
      - by apply not_cle in Hg'. }
    apply icle_user in Hk, Hl. change (InternalKey_user_key ?x) with (ExtractUserKey x) in Hk, Hl. rewrite Ex in Hk. rewrite Eu in Hl.
    apply (clt_irrefl tmp). eapply clt_cle_trans; [exact Htl|]. by eapply cmp_le_trans.
Qed.

(** *** In a written table *)

Context {P : FilterPolicy} {PL : FilterPolicyLaws P} (slen zstlen : bytes -> option Z) (sun zun : bytes -> option bytes).
Context {F : Type} `{RandomAccessFileLaws F} (opts : TableBuilderOptions) (blks : list entries) (idx : entries).

Abbreviation IP := (InternalFilterPolicy P).
Abbreviation image := (table_image (P := IP) opts blks idx).

Record layout_ok (file : F) : Prop := {
  lo_data : raf_data file = image;
  lo_size : zlen image < 2 ^ 32;
  lo_restart : 1 <= tbo_block_restart_interval opts;
  lo_length : length idx = length blks;
  lo_sep : index_sep (C := IC) opts blks [] idx;
  lo_nonempty : Forall (fun x => x <> []) blks;
  lo_sorted : keys_sorted (C := IC) (concat blks)
}.

Lemma filter_user_key (r : FilterBlockReader) (off : Z) (k k' : bytes) :
  ExtractUserKey k = ExtractUserKey k' -> FilterBlock_KeyMayMatch (P := IP) r off k = FilterBlock_KeyMayMatch (P := IP) r off k'.
Proof.
  intros Hu. assert (forall f, KeyMayMatch (FilterPolicy := IP) k f = KeyMayMatch (FilterPolicy := IP) k' f) as Hk.
  { intros f. cbn [KeyMayMatch InternalFilterPolicy]. by rewrite Hu. }
  unfold FilterBlock_KeyMayMatch. cbv zeta. by rewrite Hk.
Qed.

(** The first entry at or past [k] is found when it has the user key of [k]. *)
Lemma lookup_spec_user_key (file : F) (topts : TableOptions) (k : bytes) (e : bytes * bytes) (n : nat) :
  layout_ok file -> concat blks !! n = Some e -> @cle IC k (fst e) -> (forall m e', (m < n)%nat -> concat blks !! m = Some e' -> @clt IC (fst e') k) ->
  ExtractUserKey (fst e) = ExtractUserKey k -> lookup_spec (C := IC) (P := IP) opts blks idx topts k = Some e.
Proof.
  intros [Hdata Hsz Hri Hlen Hsep Hne HS] Hn Hke Hbefore Hu.
  assert (exists b0 kvs0 pre, blks !! b0 = Some kvs0 /\ e ∈ kvs0 /\ n = (length (concat (take b0 blks)) + pre)%nat /\ kvs0 !! pre = Some e) as (b0 & kvs0 & pre & Hb0 & He0 & En & Hpre).
  { clear -Hn. revert n Hn. induction blks as [|x l IH]; intros n Hn; [done|]. cbn in Hn. apply lookup_app_Some in Hn as [Hn|[Hge Hn]].
    - exists 0%nat, x, n. split_and!; [done|by apply list_elem_of_lookup_2 in Hn|done|done].
    - destruct (IH _ Hn) as (b0 & kvs0 & pre & H1 & H2 & H3 & H4). exists (S b0), kvs0, pre. split_and!; [done|done| |done]. cbn. rewrite length_app. lia. }
  assert (forall b kvs kv, (b < b0)%nat -> blks !! b = Some kvs -> kv ∈ kvs -> @clt IC (fst kv) k) as Hlow.
  { intros b kvs kv Hb Hk Hkv. apply list_elem_of_lookup in Hkv as [i Hi].
    apply (Hbefore (length (concat (take b blks)) + i)%nat kv).
    - rewrite En. rewrite <- (take_drop (S b) (take b0 blks)), take_take, Nat.min_l by lia. rewrite (take_S_r blks b kvs Hk), !concat_app, !length_app.
      apply lookup_lt_Some in Hi. cbn. rewrite app_nil_r. lia.
    - by eapply concat_at. }
  assert (forall i kv, (i < pre)%nat -> kvs0 !! i = Some kv -> @clt IC (fst kv) k) as Hlow0.
  { intros i kv Hi Hkv. apply (Hbefore (length (concat (take b0 blks)) + i)%nat kv); [lia|]. by eapply concat_at. }
  destruct (lookup_lt_is_Some_2 idx b0) as [[s0 h0] Hi0]; [apply lookup_lt_Some in Hb0; lia|].
  destruct (Hsep b0 s0 h0 kvs0 Hi0 Hb0) as (_ & Hle0 & _).
  unfold lookup_spec. rewrite (seek_index_Some (C := IC) k idx b0 (s0, h0) Hi0).
  - rewrite Hb0. assert (filter_passes (P := IP) opts blks topts b0 k = true) as ->.
    { unfold filter_passes. destruct (expected_filter opts blks topts) as [r|] eqn:Er; [|done]. rewrite (filter_user_key r _ k (fst e)) by done.
      pose proof (stored_key_passes (P := IP) slen zstlen sun zun opts blks idx file Hdata Hsz Hri Hlen topts b0 kvs0 (fst e) (snd e) Hb0) as Hpass.
      unfold filter_passes in Hpass. rewrite Er in Hpass. apply Hpass. by destruct e. }
    rewrite (seek_index_Some (C := IC) k kvs0 pre e); [done|done|by apply at_or_past_true|]. intros i kv Hi Hkv. apply at_or_past_false. by apply (Hlow0 i).
  - apply at_or_past_true. eapply (cmp_le_trans (C := IC)); [exact Hke|by apply Hle0].
  - intros b [s h] Hb Hi. apply at_or_past_false. destruct (lookup_lt_is_Some_2 blks b) as [kvs Hkvs]; [apply lookup_lt_Some in Hb0; lia|].
    destruct (Hsep b s h kvs Hi Hkvs) as (_ & _ & _ & _ & Ho). cbn [fst]. apply (not_cle (C := IC)). intros Hks.
    eapply (between_has_other_user kvs _ s k e Ho Hks); [intros kv; by apply (Hlow b kvs)| |done]. left. exists b0, kvs0. done.
Qed.
End InternalLookup.

(** ** What a lookup does to the block cache *)

Section Frame.
Context (slen zstlen : bytes -> option Z) (sun zun : bytes -> option bytes).
Context {C : Comparator} {P : FilterPolicy} {F : Type} `{RandomAccessFile F} {K Hd : Type} `{CacheIdLaws K Hd Block}.

(** Only blocks of the table [id] are added, and no id is handed out. *)
Definition cache_grows (id : Z) (cache cache' : option K) : Prop :=
  match cache, cache' with
  | Some c, Some c' => ca_last_id c' = ca_last_id c /\
      forall key blk, ca_holds c' key blk -> ca_holds c key blk \/ exists rest, key = EncodeFixed64 id ++ rest
  | None, None => True
  | _, _ => False
  end.

Lemma cache_grows_refl (id : Z) (cache : option K) : cache_grows id cache cache.
Proof. destruct cache; [|done]. split; [done|]. intros key blk Hh. by left. Qed.

Lemma BlockReader_frame (t : Table F) (ro : ReadOptions) (v : bytes) (cache : option K) :
  cache_grows (t_cache_id t) cache (snd (BlockReader slen zstlen sun zun t ro v cache)).
Proof.
  unfold BlockReader. destruct (BlockHandle_DecodeFrom v) as [[handle rest]|st]; [|apply cache_grows_refl]. destruct cache as [c|].
  2: { destruct (ReadBlock _ _ _ _ _ _ _); done. }
  cbv zeta. pose proof (ca_Lookup_id (cache_key t handle) c) as Hid. destruct (ca_Lookup (cache_key t handle) c) as [ch c1] eqn:El.
  assert (cache_grows (t_cache_id t) (Some c) (Some c1)) as Hg1.
  { split; [done|]. intros key blk Hh. left. by eapply ca_Lookup_keeps. }
  destruct ch as [h|]; [by destruct (ca_Value c1 h)|]. destruct (ReadBlock _ _ _ _ _ _ _) as [contents|st]; [|done].
  destruct (bc_cachable contents && ro_fill_cache ro); [|done]. set (block := newBlock (bc_data contents)).
  pose proof (ca_Insert_id (cache_key t handle) block (blk_size block) c1) as Hid2. destruct (ca_Insert _ block _ c1) as [h c2] eqn:Ei. cbn [snd] in *.
  split; [by rewrite Hid2|]. intros key blk Hh. destruct (ca_Insert_keeps _ _ _ _ _ _ _ _ Ei Hh) as [[-> _]|Hh']; [right; by eexists|]. left. by eapply ca_Lookup_keeps.
Qed.

Lemma InternalGet_frame (t : Table F) (ro : ReadOptions) (k : bytes) (cache : option K) :
  cache_grows (t_cache_id t) cache (snd (InternalGet slen zstlen sun zun t ro k cache)).
Proof.
  unfold InternalGet. cbv zeta. set (iiter := it_Seek k (Block_NewIterator (t_index_block t))). destruct (it_Valid iiter); [|apply cache_grows_refl].
  destruct (match t_filter t with Some _ => _ | None => _ end); [apply cache_grows_refl|].
  pose proof (BlockReader_frame t ro (it_value iiter) cache) as Hf. destruct (BlockReader slen zstlen sun zun t ro (it_value iiter) cache) as [[bi ch] cache1].
  cbn [snd] in *. destruct ch as [h|], cache1 as [c1|]; try done. destruct cache as [c|]; [|done]. destruct Hf as [Hid Hh]. split; [by rewrite ca_Release_id|].
  intros key blk Hk. apply Hh. by apply ca_Release_keeps in Hk.
Qed.
End Frame.

Lemma fixed64_prefix (a b : Z) (x y : bytes) : 0 <= a < 2 ^ 64 -> 0 <= b < 2 ^ 64 -> EncodeFixed64 a ++ x = EncodeFixed64 b ++ y -> a = b.
Proof. intros Ha Hb E. apply (f_equal DecodeFixed64) in E. by rewrite !DecodeFixed64_Encode in E. Qed.

(** ** Tables on disk *)

(** [lookup_first] is what the cursor finds. *)
Lemma lookup_first_cursor {C : Comparator} (k : bytes) (P : versions) :
  cur_observe (internal_entries P) (seek_index (C := InternalKeyComparator C) k (internal_entries P)) = table_entry <$> lookup_first (C := C) k P.
Proof.
  induction P as [|pv P IH]; [done|]. unfold lookup_first. cbn [internal_entries map seek_index List.find]. unfold at_or_past. cbn [fst].
  change (Compare (Comparator := InternalKeyComparator C) (encode_key (fst pv)) k) with (ikc_Compare C (encode_key (fst pv)) k).
  destruct (ikc_Compare C (encode_key (fst pv)) k); [done| |done]. fold (lookup_first (C := C) k P). rewrite <- IH. fold (internal_entries P).
  by destruct (seek_index k (internal_entries P)).
Qed.

Lemma lookup_first_position {C : Comparator} {CL : ComparatorLaws C} (k : bytes) (P : versions) (pv : ParsedInternalKey * bytes) :
  lookup_first (C := C) k P = Some pv ->
  exists n, internal_entries P !! n = Some (table_entry pv) /\ @cle (InternalKeyComparator C) k (encode_key (fst pv)) /\
    forall m e, (m < n)%nat -> internal_entries P !! m = Some e -> @clt (InternalKeyComparator C) (fst e) k.
Proof.
  induction P as [|x P IH]; [done|]. unfold lookup_first. cbn [List.find]. destruct (ikc_Compare C (encode_key (fst x)) k) eqn:Ec.
  2: { fold (lookup_first (C := C) k P). intros Hl. destruct (IH Hl) as (n & H1 & H2 & H3). exists (S n). split_and!; [done|done|].
       intros [|m] e Hm He; [cbn in He; injection He as <-; exact Ec|]. apply (H3 m e); [lia|done]. }
  - intros [= <-]. exists 0%nat. split_and!; [done| |lia]. apply (ceq_cle (C := InternalKeyComparator C)), (ceq_sym (C := InternalKeyComparator C)). exact Ec.
  - intros [= <-]. exists 0%nat. split_and!; [done| |lia]. apply (clt_cle (C := InternalKeyComparator C)), (cmp_gt (C := InternalKeyComparator C)). exact Ec.
Qed.

Section Disk.
Context (slen zstlen : bytes -> option Z) (sun zun : bytes -> option bytes).
Context {C : Comparator} {CL : ComparatorLaws C} {P : FilterPolicy} {PL : FilterPolicyLaws P}.
Context {E F W : Type} `{RandomAccessFS E F} `{RandomAccessFileLaws F} `{WritableFileLaws W} {K Hd : Type} `{CacheIdLaws K Hd Block}.
Context (dbname : bytes) (topts : TableOptions).

Abbreviation IC := (InternalKeyComparator C).
Abbreviation IP := (InternalFilterPolicy P).

(** The table file [n] of the file system was written by the table builder from
    the entries [vs]. *)
Definition on_disk (env : E) (n size : Z) (vs : versions) : Prop :=
  exists bopts (wfile : W) (file : F), 1 <= tbo_block_restart_interval bopts /\ wf_contents wfile = [] /\ keys_sorted (C := IC) (internal_entries vs) /\
    fs_NewRandomAccessFile (TableFileName dbname n) env = (Ok file, env) /\
    raf_data file = wf_contents (tb_file (snd (build_table (C := IC) (P := IP) bopts (internal_entries vs) wfile))) /\
    zlen (raf_data file) < 2 ^ 32 /\ size = FileSize (snd (build_table (C := IC) (P := IP) bopts (internal_entries vs) wfile)).

(** [t] is the table of [vs], opened under [id]; [cache] has only its blocks under its keys. *)
Definition serves (cache : option K) (vs : versions) (t : Table F) : Prop :=
  exists bopts blks idx file id, layout_ok (C := C) (P := P) bopts blks idx file /\ concat blks = internal_entries vs /\
    t = opened (P := IP) bopts blks idx file topts id /\ coherent bopts blks t cache /\
    match cache with Some c => 1 <= id <= ca_last_id c | None => True end.

(** [ids] bounds the ids of the block cache that are and will be handed out. *)
Record StoreOk (ids : Z) (env : E) (disk : gmap Z (Z * versions)) (s : TableCache E F K) : Prop := {
  so_bound : ids < 2 ^ 64;
  so_env : tc_env s = env;
  so_disk : forall n size vs, disk !! n = Some (size, vs) -> on_disk env n size vs;
  so_tables : forall n t, tc_tables s !! n = Some t -> exists size vs, disk !! n = Some (size, vs) /\ serves (tc_block_cache s) vs t;
  so_ids : is_Some (tc_block_cache s) -> forall n n' t t', n <> n' -> tc_tables s !! n = Some t -> tc_tables s !! n' = Some t' -> t_cache_id t <> t_cache_id t';
  so_cache : forall c, tc_block_cache s = Some c -> 0 <= ca_last_id c /\ ca_last_id c + Z.of_nat (size (dom disk ∖ dom (tc_tables s))) <= ids /\
    forall key blk, ca_holds c key blk -> exists id rest, 1 <= id <= ca_last_id c /\ key = EncodeFixed64 id ++ rest
}.

Lemma on_disk_layout (env : E) (n size : Z) (vs : versions) : on_disk env n size vs ->
  exists bopts blks idx file, fs_NewRandomAccessFile (TableFileName dbname n) env = (Ok file, env) /\
    layout_ok (C := C) (P := P) bopts blks idx file /\ concat blks = internal_entries vs /\ size = zlen (table_image (P := IP) bopts blks idx).
Proof.
  intros (bopts & wfile & file & Hri & Hw & HS & Hopen & Hdata & Hsz & Hsize). rewrite Hdata in Hsz.
  destruct (built_layout (C := IC) (P := IP) bopts (internal_entries vs) wfile Hri HS Hw Hsz) as (blks & idx & Hc & Hl & Hsep & Hne & _ & Econ & Efs).
  exists bopts, blks, idx, file. split_and!; [done| |done|congruence]. split; try done; try congruence.
Qed.

Lemma cache_key_prefix (t : Table F) (h : BlockHandle) : exists rest, cache_key t h = EncodeFixed64 (t_cache_id t) ++ rest.
Proof. by eexists. Qed.

(** A table keeps its blocks when those of another one are cached. *)
Lemma serves_frame (id : Z) (c c' : K) (vs : versions) (t : Table F) :
  cache_grows id (Some c) (Some c') -> ca_last_id c < 2 ^ 64 -> 0 <= id < 2 ^ 64 -> id <> t_cache_id t -> serves (Some c) vs t -> serves (Some c') vs t.
Proof.
  intros [Hid Hg] Hlt Hi Hne (bopts & blks & idx & file & i & HL & Hc & Et & Hco & Hr). exists bopts, blks, idx, file, i. split_and!; [done..| |lia|lia].
  intros b kvs blk Hb Hh. destruct (Hg _ _ Hh) as [Hh'|[rest Ek]]; [by eapply Hco|]. exfalso. apply Hne.
  destruct (cache_key_prefix t (blk_handle bopts blks b kvs)) as [r' Er]. rewrite Er in Ek. apply fixed64_prefix in Ek; [done| |done]. rewrite Et. cbn. lia.
Qed.

(** *** [FindTable] *)

Lemma size_difference (n : Z) (D T : gset Z) : n ∈ D -> n ∉ T -> (size (D ∖ ({[n]} ∪ T)) + 1 = size (D ∖ T))%nat.
Proof.
  intros HD HT. assert (D ∖ T = {[n]} ∪ D ∖ ({[n]} ∪ T)) as ->.
  { apply set_eq. intros x. destruct (decide (x = n)); set_solver. }
  rewrite (size_union {[n]} (D ∖ ({[n]} ∪ T))) by set_solver. rewrite size_singleton. lia.
Qed.

Lemma FindTable_spec (ids : Z) (env : E) (disk : gmap Z (Z * versions)) (s : TableCache E F K) (n size : Z) (vs : versions) :
  StoreOk ids env disk s -> disk !! n = Some (size, vs) ->
  exists t s', FindTable (P := IP) slen zstlen sun zun dbname topts n size s = (Ok t, s') /\ StoreOk ids env disk s' /\ tc_tables s' !! n = Some t.
Proof.
  intros HS Hn. unfold FindTable. destruct (tc_tables s !! n) as [t|] eqn:Et; [by exists t, s|].
  destruct (on_disk_layout env n size vs (so_disk _ _ _ _ HS _ _ _ Hn)) as (bopts & blks & idx & file & Ho & HL & Hc & ->).
  rewrite (so_env _ _ _ _ HS), Ho. pose proof HL as [Hdata Hsz Hri Hlen Hsep Hne Hsrt].
  rewrite (Open_spec (P := IP) slen zstlen sun zun bopts blks idx file Hdata Hsz Hri Hlen). unfold PublishTable.
  pose proof (so_bound _ _ _ _ HS) as Hbd. destruct (tc_block_cache s) as [c|] eqn:Ecache; rewrite Et; eexists _, _; (split; [reflexivity|]); (split; [|apply lookup_insert_eq]).
  - destruct (so_cache _ _ _ _ HS c Ecache) as (Hl0 & Hsp & Hk). destruct (ca_NewId_spec c) as (c' & En & Hl' & Hh'). rewrite En in *. cbn [fst snd].
    pose proof (size_difference n (dom disk) (dom (tc_tables s)) ltac:(apply elem_of_dom; eauto) ltac:(by apply not_elem_of_dom)) as Hsd.
    assert (u64 (ca_last_id c + 1) = ca_last_id c + 1) as Eu by (apply wrap_small; lia). rewrite Eu in *.
    assert (forall m t, tc_tables s !! m = Some t -> exists size vs, disk !! m = Some (size, vs) /\ serves (Some c') vs t /\ 1 <= t_cache_id t <= ca_last_id c) as Hold.
    { intros m t Ht. destruct (so_tables _ _ _ _ HS m t Ht) as (sz & vs' & Hdk & bo & bl & ix & f & i & HL' & Hc' & Ett & Hco & Hr). rewrite Ecache in *.
      exists sz, vs'. split; [done|]. split; [|by rewrite Ett]. exists bo, bl, ix, f, i. split_and!; [done..| | |]; [|lia|lia]. intros b kvs blk Hb Hh. eapply Hco; [done|by apply Hh']. }
    split; cbn [tc_env tc_tables tc_block_cache]; [done|done|apply HS| | |].
    + intros m t [[<- <-]|[Hm Ht]]%lookup_insert_Some; [|by destruct (Hold m t Ht) as (sz & vs' & ? & ? & _); eauto]. exists (zlen (table_image (P := IP) bopts blks idx)), vs. split; [done|].
      exists bopts, blks, idx, file, (ca_last_id c + 1). split_and!; [done..| | |]; [|lia|lia].
      intros b kvs blk _ Hh. exfalso. destruct (Hk _ _ (Hh' _ _ Hh)) as (i & rest & Hi & Ek). apply fixed64_prefix in Ek; cbn in *; lia.
    + intros _ m m' t t' Hmm [[<- <-]|[Hm Ht]]%lookup_insert_Some [[<- <-]|[Hm' Ht']]%lookup_insert_Some; [done| | |].
      * destruct (Hold m' t' Ht') as (? & ? & _ & _ & ?). cbn. lia.
      * destruct (Hold m t Ht) as (? & ? & _ & _ & ?). cbn. lia.
      * eapply (so_ids _ _ _ _ HS); [by rewrite Ecache|exact Hmm|done|done].
    + intros ? [= <-]. rewrite Hl', dom_insert_L. split_and!; [lia..|]. intros key blk Hh. destruct (Hk _ _ (Hh' _ _ Hh)) as (i & rest & Hi & Ek). exists i, rest. split; [lia|done].
  - split; cbn [tc_env tc_tables tc_block_cache]; [done|done|apply HS| |by intros [? ?]|done].
    intros m t [[<- <-]|[Hm Ht]]%lookup_insert_Some; [|destruct (so_tables _ _ _ _ HS m t Ht) as (sz & vs' & ? & Hsv); rewrite Ecache in Hsv; eauto].
    exists (zlen (table_image (P := IP) bopts blks idx)), vs. split; [done|]. by exists bopts, blks, idx, file, 0.
Qed.
(** *** [Get] *)

Lemma tc_Get_spec (ids : Z) (env : E) (disk : gmap Z (Z * versions)) (s : TableCache E F K) (ro : ReadOptions) (n size : Z) (k : bytes) (vs : versions) :
  StoreOk ids env disk s -> disk !! n = Some (size, vs) ->
  exists r s', tc_Get (C := IC) (P := IP) slen zstlen sun zun dbname topts ro n size k s = (Ok tt, r, s') /\ StoreOk ids env disk s' /\
    (r = None \/ r = table_entry <$> lookup_first (C := C) k vs) /\
    (forall p v, lookup_first (C := C) k vs = Some (p, v) -> pik_user_key p = ExtractUserKey k -> r = Some (table_entry (p, v))).
Proof.
  intros HS Hn. unfold tc_Get. destruct (FindTable_spec ids env disk s n size vs HS Hn) as (t & s1 & -> & HS1 & Ht1).
  destruct (so_tables _ _ _ _ HS1 n t Ht1) as (sz & vs' & Hn' & bopts & blks & idx & file & id & HL & Hc & Et & Hco & Hr).
  assert (vs' = vs) as -> by congruence. pose proof HL as [Hdata Hsz Hri Hlen Hsep Hne Hsrt]. rewrite Et in Hco.
  destruct (InternalGet_spec (C := IC) (P := IP) slen zstlen sun zun bopts blks idx file Hdata Hsz Hri Hlen Hsep Hne Hsrt topts id ro k _ Hco) as (cache' & Eg & Hco').
  pose proof (InternalGet_frame (C := IC) (P := IP) slen zstlen sun zun t ro k (tc_block_cache s1)) as Hfr. rewrite <- Et in Eg, Hco'. rewrite Eg in *. cbn [snd] in Hfr.
  eexists _, _. split; [reflexivity|]. split_and!.
  - assert (t_cache_id t = id) as Eid by (by rewrite Et).
    pose proof (so_bound _ _ _ _ HS1) as Hbd.
    split; cbn [tc_env tc_tables tc_block_cache]; [done|apply HS1|apply HS1| | |].
    + intros m tm Hm. destruct (so_tables _ _ _ _ HS1 m tm Hm) as (szm & vm & Hdm & Hsv). exists szm, vm. split; [done|].
      destruct (tc_block_cache s1) as [c|] eqn:Ec, cache' as [c'|]; try done. destruct (so_cache _ _ _ _ HS1 c Ec) as (Hl0 & Hsp & _).
      destruct (decide (m = n)) as [->|Hmn].
      * rewrite Ht1 in Hm. injection Hm as <-. assert (vm = vs) as -> by congruence. destruct Hfr as [Hlid _].
        exists bopts, blks, idx, file, id. split_and!; [done..| |]; lia.
      * eapply (serves_frame (t_cache_id t)); [exact Hfr|lia|lia| |done].
        intros Eq. apply (so_ids _ _ _ _ HS1 ltac:(by rewrite Ec) m n tm t); done.
    + intros Hs. apply (so_ids _ _ _ _ HS1). by destruct (tc_block_cache s1), cache'.
    + intros c' ->. destruct (tc_block_cache s1) as [c|] eqn:Ec; [|done]. destruct (so_cache _ _ _ _ HS1 c Ec) as (Hl0 & Hsp & Hk). destruct Hfr as [Hlid Hg].
      rewrite Hlid. split_and!; [done..|]. intros key blk Hh. destruct (Hg _ _ Hh) as [Hh'|[rest ->]]; [by apply (Hk key blk)|]. exists id, rest. by rewrite Eid.
  - destruct (lookup_spec _ _ _ _ _) as [e|] eqn:El; [right|by left].
    eapply (lookup_spec_first (C := IC) (P := IP)) in El; try done.
    rewrite Hc, lookup_first_cursor in El. done.
  - intros p v Hl Hu. destruct (lookup_first_position k vs (p, v) Hl) as (i & Hi & Hle & Hb). rewrite <- Hc in Hi, Hb.
    eapply (lookup_spec_user_key slen zstlen sun zun bopts blks idx file); [done|exact Hi|done|done|]. cbn [fst table_entry]. by rewrite ExtractUserKey_encode.
Qed.

(** A new table cache, with a new block cache or without one. *)
Lemma newTableCache_ok (ids : Z) (env : E) (disk : gmap Z (Z * versions)) (block_cache : option K) :
  (forall n size vs, disk !! n = Some (size, vs) -> on_disk env n size vs) ->
  ids < 2 ^ 64 ->
  (forall c, block_cache = Some c -> 0 <= ca_last_id c /\ ca_last_id c + Z.of_nat (size disk) <= ids /\ forall key blk, ~ ca_holds c key blk) ->
  StoreOk ids env disk (newTableCache env block_cache).
Proof.
  intros Hd0 Hid Hc. split; cbn [tc_env tc_tables tc_block_cache newTableCache]; [done|done|done|done|done|].
  intros c ->. destruct (Hc c eq_refl) as (? & ? & Hh). split_and!; [done| |by intros key blk Hk; destruct (Hh key blk)].
  rewrite dom_empty_L, difference_empty_L, size_dom. done.
Qed.
End Disk.

(** ** The promise of the table cache *)

Section Serve.
Context (slen zstlen : bytes -> option Z) (sun zun : bytes -> option bytes).
Context {C : Comparator} {CL : ComparatorLaws C} {P : FilterPolicy} {PL : FilterPolicyLaws P}.
Context {E F W : Type} {FS : RandomAccessFS E F} {RF : RandomAccessFile F} {RL : RandomAccessFileLaws F} {WF : WritableFile W} {WL : WritableFileLaws W}.
Context {K Hd : Type} {KC : Cache K Hd Block} {KL : CacheLaws K Hd Block} {KI : CacheIdLaws K Hd Block}.
Context (dbname : bytes) (topts : TableOptions).

Abbreviation IC := (InternalKeyComparator C).
Abbreviation IP := (InternalFilterPolicy P).

(** The calls of [Version] on its table cache. *)
#[export] Instance TableCacheStore : TableStore (TableCache E F K) := {
  ts_Get options n size k s := tc_Get (C := IC) (P := IP) slen zstlen sun zun dbname topts options n size k s
}.

#[refine] Instance TableCacheStoreLaws (ids : Z) (env : E) (disk : gmap Z (Z * versions)) : TableStoreLaws (C := C) (TableCache E F K) := {
  ts_table s n size vs := StoreOk (W := W) (C := C) (P := P) dbname topts ids env disk s /\ disk !! n = Some (size, vs)
}.
Proof.
  intros ro n size k s vs [HS Hn]. destruct (tc_Get_spec (W := W) slen zstlen sun zun dbname topts ids env disk s ro n size k vs HS Hn) as (r & s' & Hg & HS' & Hr & Hhit).
  exists r, s'. split_and!; [exact Hg|done|done|]. by intros n' size' vs' [_ Hn'].
Defined.

(** Lookups one after the other, through the same caches. *)
Fixpoint get_each (ro : ReadOptions) (v : Version) (queries : list (bytes * SequenceNumber)) (s : TableCache E F K) : list (Result (option bytes)) :=
  match queries with
  | [] => []
  | (u, sn) :: queries =>
      let '(r, _, s) := Version_Get (C := C) (H := TableCacheStore) ro (newLookupKey u sn) v s in r :: get_each ro v queries s
  end.

(** C7. A database on disk is read correctly through all its caches.  Let the table
    files be written by the table builder, and let a version record them, with their
    sizes, such that the version is one to search ([VersionOk]): the key range of a file
    covers its entries, the levels from 1 on are in order with disjoint ranges, the
    files of level 0 have different numbers, and of two files with entries of one user key the one that
    is searched first has the newer ones.  (A repair can make versions that are not:
    it puts all tables on level 0.)  The comparator identifies no two different keys, the sequence
    numbers asked for are below 2^56.  Then every one
    of any sequence of lookups, starting from a new table cache with or without a
    new block cache, with or without filters, answers with the newest visible entry
    of the version.  Tables are opened on the way, blocks are shared through the
    block cache under the tables' ids, and nothing of one table is served to
    another, as long as the 64-bit ids are enough for the files. *)
Theorem table_cache_serves_versions (env : E) (disk : gmap Z (Z * versions)) (block_cache : option K) (ro : ReadOptions)
    (v : Version) (contents : FileMetaData -> versions) (queries : list (bytes * SequenceNumber)) :
  (forall a b, ceq a b -> a = b) ->
  (forall n size vs, disk !! n = Some (size, vs) -> on_disk (W := W) (F := F) (C := C) (P := P) dbname env n size vs) ->
  (forall c, block_cache = Some c -> 0 <= ca_last_id c /\ ca_last_id c + Z.of_nat (size disk) < 2 ^ 64 /\ forall key blk, ~ ca_holds c key blk) ->
  VersionOk (C := C) v contents -> (forall lf, in_version v lf -> disk !! fm_number (snd lf) = Some (fm_file_size (snd lf), contents (snd lf))) ->
  Forall (fun q => seq_ok (snd q)) queries ->
  Forall2 (fun q r => version_get_spec v contents (fst q) (snd q) r) queries (get_each ro v queries (newTableCache env block_cache)).
Proof.
  intros Heq Hdisk Hc Hv Hfiles Hq. set (TL := TableCacheStoreLaws (2 ^ 64 - 1) env disk).
  assert (forall lf, in_version v lf -> ts_table (newTableCache env block_cache) (fm_number (snd lf)) (fm_file_size (snd lf)) (contents (snd lf))) as Ht.
  { intros lf Hlf. split; [|by apply Hfiles]. apply newTableCache_ok; [done|done|]. intros c Ec. destruct (Hc c Ec) as (H1 & H2 & H3). split_and!; [done|lia|done]. }
  revert Ht. generalize (newTableCache (F := F) env block_cache). induction Hq as [|[u sn] queries Hs Hq IH]; intros s Ht; [constructor|]. cbn [get_each].
  pose proof (Version_Get_spec Heq ro v contents u sn s Hv Hs Ht) as H1. pose proof (Version_Get_tables Heq ro v contents u sn s Hv Hs Ht) as H2.
  destruct (Version_Get ro (newLookupKey u sn) v s) as [[r stats] s']. constructor; [exact H1|]. apply IH. exact H2.
Qed.
End Serve.

(** *** Witness: the two tables of [demo_version] as files, with Bloom filters and a block cache *)

#[export] Instance MapFS_raf : RandomAccessFS (gmap bytes bytes) MemFile := {
  fs_NewRandomAccessFile name env :=
    (match env !! name with Some data => Ok (mkMemFile data) | None => Err (NotFound "no such file" "") end, env)
}.

Definition demo_built (n : Z) := build_table (C := InternalKeyComparator BytewiseComparator) (P := InternalFilterPolicy (BloomPolicy 10)) demo_options (internal_entries (demo_tables n)) (mkMemFile []).
Definition demo_size (n : Z) : Z := FileSize (snd (demo_built n)).
Definition demo_env : gmap bytes bytes :=
  <[TableFileName (lit "db") 7 := mf_data (tb_file (snd (demo_built 7)))]> {[TableFileName (lit "db") 3 := mf_data (tb_file (snd (demo_built 3)))]}.
Definition demo_disk : gmap Z (Z * versions) := <[7 := (demo_size 7, demo_tables 7)]> {[3 := (demo_size 3, demo_tables 3)]}.

Lemma demo_on_disk (n : Z) (size : Z) (vs : versions) : demo_disk !! n = Some (size, vs) ->
  on_disk (W := MemFile) (F := MemFile) (C := BytewiseComparator) (P := BloomPolicy 10) (lit "db") demo_env n size vs.
Proof.
  assert (forall m, keys_sorted (C := InternalKeyComparator BytewiseComparator) (internal_entries (demo_tables m)) -> zlen (mf_data (tb_file (snd (demo_built m)))) < 2 ^ 32 ->
    demo_env !! TableFileName (lit "db") m = Some (mf_data (tb_file (snd (demo_built m)))) ->
    on_disk (W := MemFile) (F := MemFile) (C := BytewiseComparator) (P := BloomPolicy 10) (lit "db") demo_env m (demo_size m) (demo_tables m)) as Hm.
  { intros m HS Hsz Hf. exists demo_options, (mkMemFile []), (mkMemFile (mf_data (tb_file (snd (demo_built m))))).
    split_and!; [by vm_compute|done|done| |done|done|done]. cbn [fs_NewRandomAccessFile MapFS_raf]. by rewrite Hf. }
  unfold demo_disk. rewrite lookup_insert_Some, lookup_singleton_Some. intros [[<- Ev]|[_ [<- Ev]]]; apply pair_equal_spec in Ev as [Es Ev]; rewrite <- Es, <- Ev; apply Hm.
  - repeat constructor.
  - vm_compute. reflexivity.
  - apply lookup_insert_eq.
  - repeat constructor.
  - vm_compute. reflexivity.
  - unfold demo_env. rewrite lookup_insert_ne by (vm_compute; discriminate). apply lookup_singleton_eq.
Qed.

Lemma table_cache_serves_versions_witness :
  let no := fun _ : bytes => None in let nob := fun _ : bytes => None in
  let results := get_each (C := BytewiseComparator) (P := BloomPolicy 10) (F := MemFile) no no nob nob (lit "db") (mkTableOptions true true)
    (mkReadOptions true true) (demo_version demo_size) [(lit "a", 6); (lit "a", 3); (lit "b", 6)] (newTableCache demo_env (Some (NewLRUCache (V := Block) 4096))) in
  Forall2 (fun q r => version_get_spec (demo_version demo_size) (fun f => demo_tables (fm_number f)) (fst q) (snd q) r)
    [(lit "a", 6); (lit "a", 3); (lit "b", 6)] results /\
  results = [Ok (Some (lit "new")); Ok (Some (lit "old")); Err (NotFound "deleted" "")].
Proof.
  intros no nob results. assert (PL : FilterPolicyLaws (BloomPolicy 10)) by (apply BloomLaws; lia). split; [|vm_compute; reflexivity].
  apply (table_cache_serves_versions (W := MemFile) (PL := PL) no no nob nob (lit "db") (mkTableOptions true true) demo_env demo_disk).
  - intros a b H. apply string_compare_eq. exact H.
  - exact demo_on_disk.
  - intros c [= <-]. split_and!; [done|by vm_compute|]. intros key blk H. by apply NewLRUCache_holds in H.
  - apply demo_version_ok.
  - intros lf H. destruct (demo_in_version demo_size lf H) as [->| ->]; vm_compute; reflexivity.
  - repeat constructor; vm_compute; discriminate.
Defined.
