(* ===== verification/MapFS.v ===== *)
(** * MapFS: a file system in memory that satisfies the laws

    A map from names to contents.  Writes through a handle are kept in the handle
    until [fs_Written]; directories are prefixes of names.  The theorems about the
    database are instantiated with it. *)

From S2P Require Import Prelude Status Env FileName Manifest TableCache.

Lemma MapFS_reads_lookup (env : MapFS) (name data : bytes) : fs_reads (E := MapFS) (W := MemFile) (F := MemFile) env name data <-> env !! name = Some data.
Proof.
  unfold fs_reads. cbn [fs_NewSequentialFile MapFS_fs]. split.
  - intros (f & Ef & Hf). destruct (env !! name) as [x|]; [|done]. injection Ef as <-. by rewrite <- Hf.
  - intros ->. exists (mkMemFile data). done.
Qed.

Lemma MapFS_holds_lookup (env : gmap bytes bytes) (name data : bytes) : fs_holds (E := MapFS) (R := MemFile) env name data <-> env !! name = Some data.
Proof.
  unfold fs_holds. cbn [fs_NewRandomAccessFile MapFS_raf]. split.
  - intros (f & Ef & Hf). destruct (env !! name) as [x|]; [|done]. injection Ef as <-. by rewrite <- Hf.
  - intros ->. exists (mkMemFile data). done.
Qed.

#[export] Instance MapFS_read_laws : FileReadLaws MapFS MemFile MemFile.
Proof.
  split; intros *; rewrite ?MapFS_reads_lookup; cbn [fs_Written MapFS_handle fs_NewWritableFile fs_RemoveFile fs_RenameFile MapFS_fs snd wf_contents MemFile_wf_laws]; unfold MapFS in *.
  - apply lookup_insert_eq.
  - intros Hne Hh. by rewrite lookup_insert_ne.
  - intros Hne Hh. by rewrite lookup_insert_ne.
  - intros Hne Hh. by rewrite lookup_delete_ne.
  - intros ->. by eexists.
  - intros Hne Hh. rewrite Hh. cbn [snd]. by rewrite lookup_insert_eq.
  - intros H1 H2 Hh. destruct (env !! from); cbn [snd]; [by rewrite lookup_insert_ne, lookup_delete_ne|done].
Defined.

#[export] Instance MapFS_frame_laws : FileFrameLaws MapFS MemFile MemFile MemFile.
Proof.
  split; intros *; rewrite ?MapFS_holds_lookup; cbn [fs_Written MapFS_handle fs_NewWritableFile fs_RemoveFile fs_RenameFile MapFS_fs snd wf_contents MemFile_wf_laws]; unfold MapFS in *.
  - apply lookup_insert_eq.
  - intros Hne Hh. by rewrite lookup_insert_ne.
  - intros Hne Hh. by rewrite lookup_insert_ne.
  - intros Hne Hh. by rewrite lookup_delete_ne.
  - intros H1 H2 Hh. destruct (env !! from); cbn [snd]; [by rewrite lookup_insert_ne, lookup_delete_ne|done].
Defined.

Definition child_of (dir name : bytes) : option bytes :=
  let prefix := dir ++ [Byte.x2f] in
  if bool_decide (take (length prefix) name = prefix) then Some (drop (length prefix) name) else None.

#[export] Instance MapFS_dir : DirectoryFS MapFS unit := {
  fs_FileExists name env := bool_decide (is_Some (env !! name));
  fs_GetChildren dir env := Ok (omap (child_of dir) (map fst (map_to_list env)));
  fs_CreateDir dir env := (Ok tt, env);
  fs_RemoveDir dir env := (Ok tt, env);
  fs_LockFile name env := (Ok tt, <[name := []]> env);
  fs_UnlockFile _ env := (Ok tt, env)
}.

#[export] Instance MapFS_size : FileSizeFS MapFS := {
  fs_GetFileSize name env := match (env : gmap bytes bytes) !! name with Some data => Ok (zlen data) | None => Err (IOError "no such file" "") end
}.

#[export] Instance MapFS_dir_laws : DirectoryLaws MapFS MemFile MemFile unit.
Proof.
  assert (forall (env : gmap bytes bytes) (name x data : bytes), is_Some (<[name := data]> env !! x) -> x = name \/ is_Some (env !! x)) as Hins.
  { intros env name x data. destruct (decide (x = name)) as [->|Hne]; [by left|]. rewrite lookup_insert_ne by done. by right. }
  unfold MapFS in *. split; intros *; unfold MapFS in *; cbn [fs_FileExists fs_GetChildren fs_CreateDir MapFS_dir fs_Written MapFS_handle fs_NewWritableFile fs_RenameFile MapFS_fs snd]; unfold MapFS in *; rewrite ?bool_decide_eq_true.
  - intros [= <-] Hx. apply list_elem_of_omap in Hx as (name & Hn & Hc). apply list_elem_of_fmap in Hn as ([k v] & -> & Hk). apply elem_of_map_to_list in Hk.
    unfold child_of in Hc. cbn [fst] in Hc. case_bool_decide as Hp; [|done]. injection Hc as <-. rewrite app_assoc. rewrite <- Hp at 1. rewrite take_drop. eauto.
  - by right.
  - apply Hins.
  - apply Hins.
  - destruct (_ !! from); cbn [snd]; [|by right]. intros [?|[y Hy]]%Hins; [by left|right]. apply lookup_delete_Some in Hy as [_ Hy]. eauto.
Defined.

#[export] Instance MapFS_dir_frame : DirFrameLaws MapFS MemFile MemFile MemFile unit.
Proof. by split. Defined.

#[export] Instance MapFS_size_laws : FileSizeLaws MapFS MemFile.
Proof. split. intros name env data Hh. apply MapFS_holds_lookup in Hh. cbn. by rewrite Hh. Defined.

#[export] Instance MapFS_listing : ListingLaws MapFS MemFile MemFile unit.
Proof.
  assert (forall dir name x : bytes, child_of dir name = Some x <-> name = dir ++ [Byte.x2f] ++ x) as Hc.
  { intros dir name x. unfold child_of. cbv zeta. rewrite (app_assoc dir). set (p := dir ++ [Byte.x2f]). case_bool_decide as Hp; split.
    - intros [= <-]. rewrite <- (take_drop (length p) name) at 1. by rewrite Hp.
    - intros ->. by rewrite drop_app_length.
    - done.
    - intros ->. by rewrite take_app_length in Hp. }
  unfold MapFS in *. split; unfold MapFS in *.
  - intros name env data Hr. apply MapFS_reads_lookup in Hr. cbn [fs_FileExists MapFS_dir]. rewrite bool_decide_eq_true. eauto.
  - intros dir env x data _ _. by eexists.
  - intros dir env names [= <-]. split.
    + assert (forall l, NoDup l -> NoDup (omap (child_of dir) l)) as Hnd; [|apply Hnd, NoDup_fst_map_to_list].
      intros l. induction 1 as [|a l Ha _ IH]; cbn [omap list_omap]; [constructor|]. destruct (child_of dir a) as [x|] eqn:Ex; [|done]. apply NoDup_cons. split; [|done].
      intros (b & Hb & Eb)%list_elem_of_omap. apply Hc in Ex, Eb. congruence.
    + intros x data _ Hr. apply MapFS_reads_lookup in Hr. apply list_elem_of_omap. exists (dir ++ [Byte.x2f] ++ x). split; [|by apply Hc]. apply list_elem_of_fmap. exists (dir ++ [Byte.x2f] ++ x, data). split; [done|]. by apply elem_of_map_to_list.
  - intros name env x. cbn [fs_FileExists MapFS_dir fs_RemoveFile MapFS_fs snd]. rewrite !bool_decide_eq_true. intros [y Hy]. apply lookup_delete_Some in Hy as [_ Hy]. eauto.
Defined.
