(* ===== verification/MemEnv.v ===== *)
(** * MemEnv: the file system in memory ([helpers/memenv/memenv.cc])

    A file is a reference-counted object that keeps its bytes in blocks of 8 KiB; the
    environment maps names to these objects, and handles share them.  The objects live
    in a heap by address; [None] is what dereferencing a null or freed pointer gives.

    The environment refines names, contents and handles that know nothing of counts
    and blocks ([memenv_refines]): no step of any use dereferences an object that was
    freed, and every object is freed with its last reference. *)

From stdpp Require Import sorting fin_sets.
From S2P Require Import Prelude Status Coding Comparator Logging Env.

Definition kMemBlockSize : Z := 8 * 1024.

(** ** [FileState] *)

Record FileState := mkFileState { refs_ : Z; mblocks_ : list bytes; size_ : Z }.

Definition newFileState : FileState := mkFileState 0 [] 0.

Definition add_ref (n : Z) (f : FileState) : FileState := mkFileState (refs_ f + n) (mblocks_ f) (size_ f).

Definition Truncate (f : FileState) : FileState := mkFileState (refs_ f) [] 0.

(** [std::memcpy(block + offset, src, src.size())]. *)
Definition memcpy_at (offset : Z) (src block : bytes) : bytes := ztake offset block ++ src ++ zdrop (offset + zlen src) block.

(** The loop of [Read]; [None] past the last block. *)
Fixpoint Read_loop (fuel : nat) (blocks : list bytes) (bytes_to_copy : Z) (block : nat) (block_offset : Z) : option bytes :=
  if 0 <? bytes_to_copy then
    match fuel with
    | O => None
    | S fuel =>
        b ← blocks !! block;
        let avail := kMemBlockSize - block_offset in
        let avail := if bytes_to_copy <? avail then bytes_to_copy else avail in
        rest ← Read_loop fuel blocks (bytes_to_copy - avail) (S block) 0;
        Some (ztake avail (zdrop block_offset b) ++ rest)
    end
  else Some [].

Definition FileState_Read (offset n : Z) (f : FileState) : option (Result bytes) :=
  if size_ f <? offset then Some (Err (IOError "Offset greater than file size." ""))
  else
    let available := size_ f - offset in
    let n := if available <? n then available else n in
    if n =? 0 then Some (Ok [])
    else Ok <$> Read_loop (Z.to_nat n) (mblocks_ f) n (Z.to_nat (offset / kMemBlockSize)) (offset mod kMemBlockSize).

(** The loop of [Append]; [fresh_block] is what [new char[kBlockSize]] holds. *)
Fixpoint Append_loop (fresh_block : bytes) (fuel : nat) (src : bytes) (f : FileState) : option FileState :=
  match src with
  | [] => Some f
  | _ :: _ =>
      match fuel with
      | O => None
      | S fuel =>
          let offset := size_ f mod kMemBlockSize in
          let '(blocks, avail) := if negb (offset =? 0) then (mblocks_ f, kMemBlockSize - offset) else (mblocks_ f ++ [fresh_block], kMemBlockSize) in
          let avail := if zlen src <? avail then zlen src else avail in
          back ← last blocks;
          Append_loop fresh_block fuel (zdrop avail src)
            (mkFileState (refs_ f) (removelast blocks ++ [memcpy_at offset (ztake avail src) back]) (u64 (size_ f + avail)))
      end
  end.

Definition FileState_Append (fresh_block data : bytes) (f : FileState) : option FileState := Append_loop fresh_block (length data) data f.

(** *** The bytes of a file *)

(** [f] holds [c]: full blocks, the last one perhaps in part. *)
Record file_rep (f : FileState) (c : bytes) : Prop := {
  fr_size : size_ f = zlen c;
  fr_blocks : Forall (fun b => zlen b = kMemBlockSize) (mblocks_ f);
  fr_bytes : exists junk, concat (mblocks_ f) = c ++ junk /\ zlen junk < kMemBlockSize
}.

Lemma zlen_concat_blocks (blocks : list bytes) : Forall (fun b => zlen b = kMemBlockSize) blocks -> zlen (concat blocks) = kMemBlockSize * zlen blocks.
Proof. induction 1 as [|b l Hb _ IH]; [done|]. cbn [concat]. rewrite zlen_app, zlen_cons, Hb, IH. lia. Qed.

Lemma file_rep_new (n : Z) : file_rep (mkFileState n [] 0) [].
Proof. split; [done|constructor|]. by exists []. Qed.

Lemma file_rep_refs (n : Z) (f : FileState) (c : bytes) : file_rep f c -> file_rep (add_ref n f) c.
Proof. intros []. by split. Qed.

Lemma file_rep_junk (f : FileState) (c junk : bytes) :
  file_rep f c -> concat (mblocks_ f) = c ++ junk -> zlen junk < kMemBlockSize -> (zlen c mod kMemBlockSize = 0 /\ junk = []) \/ zlen junk = kMemBlockSize - zlen c mod kMemBlockSize.
Proof.
  intros HR Ec Hj. pose proof (zlen_concat_blocks _ (fr_blocks _ _ HR)) as Hl. rewrite Ec, zlen_app in Hl. pose proof (zlen_nonneg junk). pose proof (zlen_nonneg c).
  pose proof (Z.div_mod (zlen c) kMemBlockSize ltac:(unfold kMemBlockSize; lia)). pose proof (Z.mod_pos_bound (zlen c) kMemBlockSize ltac:(unfold kMemBlockSize; lia)). unfold kMemBlockSize in *.
  destruct (decide (zlen junk = 0)) as [E0|E0]; [left; split; [lia|by apply zlen_0]|right; lia].
Qed.

Lemma memcpy_at_len (offset : Z) (src b : bytes) : 0 <= offset -> offset + zlen src <= zlen b -> zlen (memcpy_at offset src b) = zlen b.
Proof. intros H1 H2. unfold memcpy_at. pose proof (zlen_nonneg src). rewrite !zlen_app, zlen_ztake, zlen_zdrop by lia. lia. Qed.

Section Append.
Context (fresh_block : bytes) (Hfresh : zlen fresh_block = kMemBlockSize).

(** One round writes into the last block, which holds [offset] bytes. *)
Lemma append_round (init : list bytes) (b c src : bytes) (offset n : Z) :
  Forall (fun b => zlen b = kMemBlockSize) (init ++ [b]) -> c = concat init ++ ztake offset b -> 0 <= offset -> src <> [] -> offset + zlen src <= kMemBlockSize -> zlen (c ++ src) < 2 ^ 64 ->
  file_rep (mkFileState n (init ++ [memcpy_at offset src b]) (u64 (zlen c + zlen src))) (c ++ src).
Proof.
  intros [Hi Hb]%Forall_app Ec Ho Hsrc Hl H64. apply Forall_cons in Hb as [Hb _]. pose proof (zlen_nonneg c). pose proof (zlen_nonneg src). assert (zlen src <> 0) by (by intros E0%zlen_0).
  rewrite zlen_app in H64. split; cbn [size_ mblocks_].
  - rewrite zlen_app. apply wrap_small. lia.
  - apply Forall_app. split; [done|]. constructor; [|constructor]. rewrite memcpy_at_len; lia.
  - exists (zdrop (offset + zlen src) b). split; [|rewrite zlen_zdrop; lia]. rewrite concat_app. cbn [concat]. rewrite app_nil_r. unfold memcpy_at. by rewrite Ec, <- !app_assoc.
Qed.

Lemma Append_loop_S (fuel : nat) (src : bytes) (f : FileState) :
  src <> [] -> Append_loop fresh_block (S fuel) src f =
    (let offset := size_ f mod kMemBlockSize in
     let '(blocks, avail) := if negb (offset =? 0) then (mblocks_ f, kMemBlockSize - offset) else (mblocks_ f ++ [fresh_block], kMemBlockSize) in
     let avail := if zlen src <? avail then zlen src else avail in
     back ← last blocks;
     Append_loop fresh_block fuel (zdrop avail src) (mkFileState (refs_ f) (removelast blocks ++ [memcpy_at offset (ztake avail src) back]) (u64 (size_ f + avail)))).
Proof. by destruct src. Qed.

Lemma Append_loop_spec (fuel : nat) (src : bytes) (f : FileState) (c : bytes) :
  file_rep f c -> (length src <= fuel)%nat -> zlen c + zlen src < 2 ^ 64 ->
  exists f', Append_loop fresh_block fuel src f = Some f' /\ file_rep f' (c ++ src) /\ refs_ f' = refs_ f.
Proof.
  revert src f c. induction fuel as [|fuel IH]; intros src f c HR Hfuel H64.
  - destruct src; [|cbn in Hfuel; lia]. exists f. rewrite app_nil_r. done.
  - destruct (decide (src = [])) as [->|Hne]; [exists f; rewrite app_nil_r; done|]. rewrite Append_loop_S by done. cbv zeta.
    rewrite (fr_size _ _ HR). set (offset := zlen c mod kMemBlockSize). pose proof (Z.mod_pos_bound (zlen c) kMemBlockSize ltac:(unfold kMemBlockSize; lia)) as Ho. fold offset in Ho.
    destruct (fr_bytes _ _ HR) as (junk & Ec & Hj). pose proof (file_rep_junk f c junk HR Ec Hj) as Hcase. fold offset in Hcase. pose proof (zlen_nonneg c). pose proof (zlen_nonneg src).
    assert (exists init b avail, (if negb (offset =? 0) then (mblocks_ f, kMemBlockSize - offset) else (mblocks_ f ++ [fresh_block], kMemBlockSize)) = (init ++ [b], kMemBlockSize - offset) /\
      avail = kMemBlockSize - offset /\ Forall (fun b => zlen b = kMemBlockSize) (init ++ [b]) /\ c = concat init ++ ztake offset b) as (init & b & room & Eb & Eroom & Hblocks & Einit).
    { destruct (Z.eqb_spec offset 0) as [E0|E0]; cbn [negb].
      - exists (mblocks_ f), fresh_block, (kMemBlockSize - offset). rewrite E0, Z.sub_0_r. split_and!; [done|done| |].
        + apply Forall_app. split; [apply HR|by constructor].
        + destruct Hcase as [[_ ->]|Hcase]; [|lia]. rewrite Ec. unfold ztake. cbn. by rewrite !app_nil_r.
      - destruct Hcase as [[? _]|Hcase]; [lia|]. destruct (decide (mblocks_ f = [])) as [En|Hnb]; [exfalso; rewrite En in Ec; cbn in Ec; symmetry in Ec; apply app_eq_nil in Ec as [-> _]; by apply E0|].
        destruct (exists_last Hnb) as (init & b & Einit). exists init, b, (kMemBlockSize - offset). rewrite Einit. split_and!; [done|done|rewrite <- Einit; apply HR|].
        pose proof (fr_blocks _ _ HR) as Hbl. rewrite Einit in Hbl. apply Forall_app in Hbl as [Hbi Hbb]. apply Forall_cons in Hbb as [Hbb _].
        rewrite Einit, concat_app in Ec. cbn [concat] in Ec. rewrite app_nil_r in Ec. rewrite <- (ztake_zdrop offset b), app_assoc in Ec. apply app_inj_2 in Ec as [Ec _]; [done|].
        assert (zlen (zdrop offset b) = zlen junk) as Hz by (rewrite zlen_zdrop; lia). unfold zlen in Hz. lia. }
    rewrite Eb. rewrite last_snoc. cbn [mbind option_bind]. rewrite removelast_last. subst room. set (avail := if zlen src <? kMemBlockSize - offset then zlen src else kMemBlockSize - offset).
    assert (0 < avail <= zlen src /\ offset + avail <= kMemBlockSize) as [Hav1 Hav2].
    { assert (zlen src <> 0) by (by intros E0%zlen_0). unfold avail. destruct (Z.ltb_spec (zlen src) (kMemBlockSize - offset)); lia. }
    assert (zlen (ztake avail src) = avail) as Hza by (rewrite zlen_ztake; lia).
    destruct (IH (zdrop avail src) (mkFileState (refs_ f) (init ++ [memcpy_at offset (ztake avail src) b]) (u64 (zlen c + avail))) (c ++ ztake avail src)) as (f' & Ef & HR' & Er).
    + rewrite <- Hza at 2. apply append_round; [done|done|lia| |lia|rewrite zlen_app; lia]. intros E0. rewrite E0 in Hza. change (zlen []) with 0 in Hza. lia.
    + pose proof (zlen_zdrop avail src ltac:(lia)) as Hd. unfold zlen in *. lia.
    + rewrite zlen_app, Hza, zlen_zdrop by lia. lia.
    + exists f'. rewrite Ef. split; [done|]. by rewrite <- app_assoc, ztake_zdrop in HR'.
Qed.

Lemma FileState_Append_spec (data : bytes) (f : FileState) (c : bytes) :
  file_rep f c -> zlen c + zlen data < 2 ^ 64 -> exists f', FileState_Append fresh_block data f = Some f' /\ file_rep f' (c ++ data) /\ refs_ f' = refs_ f.
Proof. intros HR H64. by apply Append_loop_spec. Qed.
End Append.

Section Read.
Context (blocks : list bytes) (Hblocks : Forall (fun b => zlen b = kMemBlockSize) blocks).

Lemma drop_blocks (i : nat) : zdrop (kMemBlockSize * Z.of_nat i) (concat blocks) = concat (drop i blocks).
Proof.
  revert i. induction Hblocks as [|b l Hb Hl IH]; intros i; [unfold zdrop; by destruct i, (Z.to_nat _)|]. destruct i as [|i]; [done|]. cbn [concat drop]. rewrite <- (IH Hl).
  unfold zdrop. rewrite drop_app_ge by (unfold zlen in Hb; unfold kMemBlockSize in *; lia). f_equal. unfold zlen in Hb. unfold kMemBlockSize in *. lia.
Qed.

Lemma drop_into_block (i : nat) (b : bytes) (bo : Z) :
  blocks !! i = Some b -> 0 <= bo <= kMemBlockSize -> zdrop (kMemBlockSize * Z.of_nat i + bo) (concat blocks) = zdrop bo b ++ concat (drop (S i) blocks).
Proof.
  intros Hb Hbo. assert (zlen b = kMemBlockSize) as Hl by (rewrite Forall_lookup in Hblocks; exact (Hblocks i b Hb)).
  assert (zdrop (kMemBlockSize * Z.of_nat i + bo) (concat blocks) = zdrop bo (zdrop (kMemBlockSize * Z.of_nat i) (concat blocks))) as ->.
  { unfold zdrop. rewrite drop_drop. f_equal. unfold kMemBlockSize in *. lia. }
  rewrite drop_blocks, (drop_S _ _ _ Hb). cbn [concat]. unfold zdrop. rewrite drop_app_le; [done|]. unfold zlen in Hl. lia.
Qed.

Lemma Read_loop_spec (fuel : nat) (n : Z) (i : nat) (bo : Z) :
  0 <= bo < kMemBlockSize -> 0 <= n -> (Z.to_nat n <= fuel)%nat -> kMemBlockSize * Z.of_nat i + bo + n <= kMemBlockSize * zlen blocks ->
  Read_loop fuel blocks n i bo = Some (ztake n (zdrop (kMemBlockSize * Z.of_nat i + bo) (concat blocks))).
Proof.
  revert n i bo. induction fuel as [|fuel IH]; intros n i bo Hbo Hn Hfuel Hend.
  - assert (n = 0) as -> by lia. done.
  - cbn [Read_loop]. destruct (Z.ltb_spec 0 n) as [Hpos|Hz]; [|assert (n = 0) as -> by lia; done].
    assert (i < length blocks)%nat as Hi by (unfold zlen, kMemBlockSize in *; lia). destruct (lookup_lt_is_Some_2 _ _ Hi) as [b Hb]. rewrite Hb. cbn [mbind option_bind].
    assert (zlen b = kMemBlockSize) as Hl by (rewrite Forall_lookup in Hblocks; exact (Hblocks i b Hb)). set (avail := if n <? kMemBlockSize - bo then n else kMemBlockSize - bo).
    assert (zlen (zdrop bo b) = kMemBlockSize - bo) as Hzd by (rewrite zlen_zdrop; lia). rewrite (drop_into_block i b bo Hb) by lia.
    destruct (Z.ltb_spec n (kMemBlockSize - bo)) as [Hlt|Hge]; subst avail.
    + rewrite Z.sub_diag, IH by (try lia; unfold kMemBlockSize in *; lia). cbn [mbind option_bind]. change (ztake 0 ?l) with (@nil Byte.byte). rewrite app_nil_r. f_equal. unfold ztake. rewrite take_app_le; [done|]. unfold zlen in Hzd. lia.
    + rewrite IH by (try lia; unfold kMemBlockSize in *; lia). cbn [mbind option_bind]. f_equal. rewrite Z.add_0_r. replace (kMemBlockSize * Z.of_nat (S i)) with (kMemBlockSize * Z.of_nat (S i)) by lia.
      rewrite drop_blocks. unfold ztake. rewrite (take_ge (zdrop bo b)) by (unfold zlen in Hzd; lia). rewrite take_app_ge by (unfold zlen in Hzd; lia). do 2 f_equal. unfold zlen in Hzd. lia.
Qed.
End Read.

(** What [FileState::Read] gives of the bytes [c]. *)
Definition read_spec (offset n : Z) (c : bytes) : Result bytes :=
  if zlen c <? offset then Err (IOError "Offset greater than file size." "") else Ok (ztake n (zdrop offset c)).

Lemma FileState_Read_spec (offset n : Z) (f : FileState) (c : bytes) : file_rep f c -> 0 <= offset -> 0 <= n -> FileState_Read offset n f = Some (read_spec offset n c).
Proof.
  intros HR Ho Hn. unfold FileState_Read, read_spec. rewrite (fr_size _ _ HR). destruct (Z.ltb_spec (zlen c) offset) as [|Hle]; [done|]. destruct (fr_bytes _ _ HR) as (junk & Ec & Hj).
  set (m := if zlen c - offset <? n then zlen c - offset else n). assert (m = Z.min n (zlen c - offset)) as Em by (unfold m; destruct (Z.ltb_spec (zlen c - offset) n); lia).
  assert (ztake n (zdrop offset c) = ztake m (zdrop offset c)) as ->.
  { pose proof (zlen_zdrop offset c ltac:(lia)) as Hd. unfold ztake. destruct (Z.ltb_spec (zlen c - offset) n); [|by replace m with n by lia]. rewrite !take_ge; [done| |]; unfold zlen in *; lia. }
  destruct (Z.eqb_spec m 0) as [->|Hm]; [done|].
  pose proof (zlen_concat_blocks _ (fr_blocks _ _ HR)) as Hl. rewrite Ec, zlen_app in Hl. pose proof (zlen_nonneg junk).
  pose proof (Z.div_mod offset kMemBlockSize ltac:(unfold kMemBlockSize; lia)) as Hdm. pose proof (Z.mod_pos_bound offset kMemBlockSize ltac:(unfold kMemBlockSize; lia)). pose proof (Z.div_pos offset kMemBlockSize Ho ltac:(unfold kMemBlockSize; lia)).
  assert (kMemBlockSize * Z.of_nat (Z.to_nat (offset / kMemBlockSize)) + offset mod kMemBlockSize = offset) as Eo by (rewrite Z2Nat.id by done; lia).
  rewrite (Read_loop_spec _ (fr_blocks _ _ HR)) by lia. rewrite Eo, Ec. cbn [fmap option_fmap option_map]. do 2 f_equal.
  pose proof (zlen_zdrop offset c ltac:(lia)) as Hd. unfold ztake, zdrop, zlen in *. rewrite drop_app_le by lia. rewrite take_app_le; [done|]. lia.
Qed.

(** ** [InMemoryEnv] *)

Inductive HandleKind := HSequential | HRandom | HWritable.

#[global] Instance HandleKind_eq_dec : EqDecision HandleKind.
Proof. solve_decision. Defined.

(** [SequentialFileImpl], [RandomAccessFileImpl] and [WritableFileImpl]; only the first
    has a position. *)
Record MemHandle := mkMemHandle { mh_kind : HandleKind; mh_file : Z; mh_pos : Z }.

(** The objects by address (0 is the null pointer), [file_map_], and the handles that
    are open, by number. *)
Record MemEnv := mkMemEnv { me_heap : gmap Z FileState; me_file_map : gmap bytes Z; me_handles : gmap Z MemHandle }.

Definition newMemEnv : MemEnv := mkMemEnv ∅ ∅ ∅.

Definition set_heap (h : gmap Z FileState) (e : MemEnv) : MemEnv := mkMemEnv h (me_file_map e) (me_handles e).
Definition set_file_map (m : gmap bytes Z) (e : MemEnv) : MemEnv := mkMemEnv (me_heap e) m (me_handles e).
Definition set_handles (h : gmap Z MemHandle) (e : MemEnv) : MemEnv := mkMemEnv (me_heap e) (me_file_map e) h.

Definition Ref_file (p : Z) (e : MemEnv) : option MemEnv := f ← me_heap e !! p; Some (set_heap (<[p := add_ref 1 f]> (me_heap e)) e).

Definition Unref_file (p : Z) (e : MemEnv) : option MemEnv :=
  f ← me_heap e !! p;
  let f := add_ref (-1) f in
  Some (set_heap (if refs_ f <=? 0 then delete p (me_heap e) else <[p := f]> (me_heap e)) e).

Definition new_address (e : MemEnv) : Z := fresh ({[0]} ∪ dom (me_heap e)).

(** The constructor of a handle, and its number. *)
Definition open_handle (kind : HandleKind) (p : Z) (e : MemEnv) : option (Z * MemEnv) :=
  e ← Ref_file p e;
  let h := fresh (dom (me_handles e)) in
  Some (h, set_handles (<[h := mkMemHandle kind p 0]> (me_handles e)) e).

Definition file_not_found (fname : bytes) : Status := IOError (String.string_of_list_byte fname) "File not found".

(** [NewSequentialFile] and [NewRandomAccessFile]. *)
Definition me_open (kind : HandleKind) (fname : bytes) (e : MemEnv) : option (Result Z * MemEnv) :=
  match me_file_map e !! fname with
  | None => Some (Err (file_not_found fname), e)
  | Some p => '(h, e) ← open_handle kind p e; Some (Ok h, e)
  end.

Definition me_NewWritableFile (fname : bytes) (e : MemEnv) : option (Result Z * MemEnv) :=
  '(p, e) ← match me_file_map e !! fname with
            | None =>
                let p := new_address e in
                e ← Ref_file p (set_heap (<[p := newFileState]> (me_heap e)) e);
                Some (p, set_file_map (<[fname := p]> (me_file_map e)) e)
            | Some p => f ← me_heap e !! p; Some (p, set_heap (<[p := Truncate f]> (me_heap e)) e)
            end;
  '(h, e) ← open_handle HWritable p e; Some (Ok h, e).

(** [file_map_[fname]] makes an entry with a null pointer when there is none, and the
    new object does not replace it. *)
Definition me_NewAppendableFile (fname : bytes) (e : MemEnv) : option (Result Z * MemEnv) :=
  let file := default 0 (me_file_map e !! fname) in
  let e := set_file_map (<[fname := file]> (me_file_map e)) e in
  '(p, e) ← (if file =? 0 then
               let p := new_address e in
               e ← Ref_file p (set_heap (<[p := newFileState]> (me_heap e)) e); Some (p, e)
             else Some (file, e));
  '(h, e) ← open_handle HWritable p e; Some (Ok h, e).

Definition me_FileExists (fname : bytes) (e : MemEnv) : bool := bool_decide (is_Some (me_file_map e !! fname)).

(** The rest of a name in the directory. *)
Definition mem_child (dir filename : bytes) : option bytes :=
  if (zlen dir + 1 <=? zlen filename) && bool_decide (filename !! length dir = Some Byte.x2f) && bool_decide (take (length dir) filename = dir)
  then Some (zdrop (zlen dir + 1) filename) else None.

(** The names in the order of the map. *)
Definition name_le (a b : bytes) : Prop := string_compare a b <> Gt.

#[global] Instance name_le_dec : RelDecision name_le.
Proof. intros a b. unfold name_le. apply _. Defined.

Definition sorted_names (m : gmap bytes Z) : list bytes := merge_sort name_le (map fst (map_to_list m)).

Definition me_GetChildren (dir : bytes) (e : MemEnv) : list bytes := omap (mem_child dir) (sorted_names (me_file_map e)).

Definition RemoveFileInternal (fname : bytes) (e : MemEnv) : option MemEnv :=
  match me_file_map e !! fname with
  | None => Some e
  | Some p => e ← Unref_file p e; Some (set_file_map (delete fname (me_file_map e)) e)
  end.

Definition me_RemoveFile (fname : bytes) (e : MemEnv) : option (Result unit * MemEnv) :=
  match me_file_map e !! fname with
  | None => Some (Err (file_not_found fname), e)
  | Some _ => e ← RemoveFileInternal fname e; Some (Ok tt, e)
  end.

Definition me_GetFileSize (fname : bytes) (e : MemEnv) : option (Result Z) :=
  match me_file_map e !! fname with
  | None => Some (Err (file_not_found fname))
  | Some p => f ← me_heap e !! p; Some (Ok (size_ f))
  end.

Definition me_RenameFile (src target : bytes) (e : MemEnv) : option (Result unit * MemEnv) :=
  match me_file_map e !! src with
  | None => Some (Err (file_not_found src), e)
  | Some _ =>
      e ← RemoveFileInternal target e;
      let p := default 0 (me_file_map e !! src) in
      Some (Ok tt, set_file_map (delete src (<[target := p]> (<[src := p]> (me_file_map e)))) e)
  end.

(** *** The operations of handles *)

Definition mh_Read (h n : Z) (e : MemEnv) : option (Result bytes * MemEnv) :=
  m ← me_handles e !! h;
  f ← me_heap e !! mh_file m;
  r ← FileState_Read (mh_pos m) n f;
  Some (r, match r with Ok b => set_handles (<[h := mkMemHandle (mh_kind m) (mh_file m) (u64 (mh_pos m + zlen b))]> (me_handles e)) e | Err _ => e end).

Definition mh_ReadAt (h offset n : Z) (e : MemEnv) : option (Result bytes * MemEnv) :=
  m ← me_handles e !! h;
  f ← me_heap e !! mh_file m;
  r ← FileState_Read offset n f;
  Some (r, e).

Definition mh_Skip (h n : Z) (e : MemEnv) : option (Result unit * MemEnv) :=
  m ← me_handles e !! h;
  f ← me_heap e !! mh_file m;
  if size_ f <? mh_pos m then Some (Err (IOError "pos_ > file_->Size()" ""), e)
  else
    let available := size_ f - mh_pos m in
    let n := if available <? n then available else n in
    Some (Ok tt, set_handles (<[h := mkMemHandle (mh_kind m) (mh_file m) (u64 (mh_pos m + n))]> (me_handles e)) e).

Definition mh_Append (fresh_block : bytes) (h : Z) (data : bytes) (e : MemEnv) : option (Result unit * MemEnv) :=
  m ← me_handles e !! h;
  f ← me_heap e !! mh_file m;
  f ← FileState_Append fresh_block data f;
  Some (Ok tt, set_heap (<[mh_file m := f]> (me_heap e)) e).

(** The destructor of a handle. *)
Definition mh_close (h : Z) (e : MemEnv) : option MemEnv :=
  m ← me_handles e !! h;
  e ← Unref_file (mh_file m) e;
  Some (set_handles (delete h (me_handles e)) e).

(** The destructor of the environment. *)
Definition destroy_MemEnv (e : MemEnv) : option MemEnv := foldr (fun p e => e ← e; Unref_file p e) (Some e) (map snd (map_to_list (me_file_map e))).

(** ** Steps *)

Inductive MemOp :=
  | MoOpen (kind : HandleKind) (fname : bytes)
  | MoWritable (fname : bytes)
  | MoAppendable (fname : bytes)
  | MoRead (h n : Z)
  | MoReadAt (h offset n : Z)
  | MoSkip (h n : Z)
  | MoAppend (h : Z) (data : bytes)
  | MoClose (h : Z)
  | MoRemove (fname : bytes)
  | MoRename (src target : bytes)
  | MoSize (fname : bytes)
  | MoExists (fname : bytes)
  | MoChildren (dir : bytes).

Inductive MemOut :=
  | MoutHandle (r : Result Z)
  | MoutBytes (r : Result bytes)
  | MoutUnit (r : Result unit)
  | MoutSize (r : Result Z)
  | MoutBool (b : bool)
  | MoutNames (l : list bytes).

Definition mem_exec (fresh_block : bytes) (op : MemOp) (e : MemEnv) : option (MemOut * MemEnv) :=
  match op with
  | MoOpen kind fname => '(r, e) ← me_open kind fname e; Some (MoutHandle r, e)
  | MoWritable fname => '(r, e) ← me_NewWritableFile fname e; Some (MoutHandle r, e)
  | MoAppendable fname => '(r, e) ← me_NewAppendableFile fname e; Some (MoutHandle r, e)
  | MoRead h n => '(r, e) ← mh_Read h n e; Some (MoutBytes r, e)
  | MoReadAt h offset n => '(r, e) ← mh_ReadAt h offset n e; Some (MoutBytes r, e)
  | MoSkip h n => '(r, e) ← mh_Skip h n e; Some (MoutUnit r, e)
  | MoAppend h data => '(r, e) ← mh_Append fresh_block h data e; Some (MoutUnit r, e)
  | MoClose h => e ← mh_close h e; Some (MoutUnit (Ok tt), e)
  | MoRemove fname => '(r, e) ← me_RemoveFile fname e; Some (MoutUnit r, e)
  | MoRename src target => '(r, e) ← me_RenameFile src target e; Some (MoutUnit r, e)
  | MoSize fname => r ← me_GetFileSize fname e; Some (MoutSize r, e)
  | MoExists fname => Some (MoutBool (me_FileExists fname e), e)
  | MoChildren dir => Some (MoutNames (me_GetChildren dir e), e)
  end.

Fixpoint mem_run (fresh_block : bytes) (ops : list MemOp) (e : MemEnv) : option (list MemOut * MemEnv) :=
  match ops with
  | [] => Some ([], e)
  | op :: ops => '(o, e) ← mem_exec fresh_block op e; '(os, e) ← mem_run fresh_block ops e; Some (o :: os, e)
  end.

(** ** The abstract file system

    Names stand for file numbers, numbers for contents, and open handles go on with
    their number whatever becomes of the name. *)

Record AbsFS := mkAbsFS { af_names : gmap bytes Z; af_data : gmap Z bytes; af_handles : gmap Z MemHandle }.

Definition data_of (p : Z) (a : AbsFS) : bytes := default [] (af_data a !! p).

Definition af_open (kind : HandleKind) (p : Z) (a : AbsFS) : Z * AbsFS :=
  let h := fresh (dom (af_handles a)) in (h, mkAbsFS (af_names a) (af_data a) (<[h := mkMemHandle kind p 0]> (af_handles a))).

Definition af_move (h n : Z) (m : MemHandle) (a : AbsFS) : AbsFS :=
  mkAbsFS (af_names a) (af_data a) (<[h := mkMemHandle (mh_kind m) (mh_file m) (mh_pos m + n)]> (af_handles a)).

Definition af_write (p : Z) (c : bytes) (a : AbsFS) : AbsFS := mkAbsFS (af_names a) (<[p := c]> (af_data a)) (af_handles a).

(** [p] is the number of a new file. *)
Definition abs_step (p : Z) (op : MemOp) (a : AbsFS) : MemOut * AbsFS :=
  match op with
  | MoOpen kind fname =>
      match af_names a !! fname with
      | None => (MoutHandle (Err (file_not_found fname)), a)
      | Some q => let '(h, a) := af_open kind q a in (MoutHandle (Ok h), a)
      end
  | MoWritable fname =>
      let q := default p (af_names a !! fname) in
      let '(h, a) := af_open HWritable q (mkAbsFS (<[fname := q]> (af_names a)) (<[q := []]> (af_data a)) (af_handles a)) in (MoutHandle (Ok h), a)
  | MoAppendable fname =>
      let '(h, a) := af_open HWritable (default p (af_names a !! fname)) a in (MoutHandle (Ok h), a)
  | MoRead h n =>
      match af_handles a !! h with
      | None => (MoutBytes (Ok []), a)
      | Some m =>
          let r := read_spec (mh_pos m) n (data_of (mh_file m) a) in
          (MoutBytes r, match r with Ok b => af_move h (zlen b) m a | Err _ => a end)
      end
  | MoReadAt h offset n => (MoutBytes (match af_handles a !! h with Some m => read_spec offset n (data_of (mh_file m) a) | None => Ok [] end), a)
  | MoSkip h n =>
      match af_handles a !! h with
      | None => (MoutUnit (Ok tt), a)
      | Some m =>
          let size := zlen (data_of (mh_file m) a) in
          if size <? mh_pos m then (MoutUnit (Err (IOError "pos_ > file_->Size()" "")), a)
          else (MoutUnit (Ok tt), af_move h (Z.min n (size - mh_pos m)) m a)
      end
  | MoAppend h data =>
      match af_handles a !! h with
      | None => (MoutUnit (Ok tt), a)
      | Some m => (MoutUnit (Ok tt), af_write (mh_file m) (data_of (mh_file m) a ++ data) a)
      end
  | MoClose h => (MoutUnit (Ok tt), mkAbsFS (af_names a) (af_data a) (delete h (af_handles a)))
  | MoRemove fname =>
      match af_names a !! fname with
      | None => (MoutUnit (Err (file_not_found fname)), a)
      | Some _ => (MoutUnit (Ok tt), mkAbsFS (delete fname (af_names a)) (af_data a) (af_handles a))
      end
  | MoRename src target =>
      match af_names a !! src with
      | None => (MoutUnit (Err (file_not_found src)), a)
      | Some q => (MoutUnit (Ok tt), mkAbsFS (delete src (<[target := q]> (af_names a))) (af_data a) (af_handles a))
      end
  | MoSize fname => (MoutSize (match af_names a !! fname with None => Err (file_not_found fname) | Some q => Ok (zlen (data_of q a)) end), a)
  | MoExists fname => (MoutBool (bool_decide (is_Some (af_names a !! fname))), a)
  | MoChildren dir => (MoutNames (omap (mem_child dir) (sorted_names (af_names a))), a)
  end.

(** A run of the abstract file system; numbers that are in use are not taken again. *)
Definition in_use (p : Z) (a : AbsFS) : Prop := (exists x, af_names a !! x = Some p) \/ exists h m, af_handles a !! h = Some m /\ mh_file m = p.

Inductive abs_run : AbsFS -> list MemOp -> list MemOut -> AbsFS -> Prop :=
  | abs_nil a : abs_run a [] [] a
  | abs_cons a b c p op o ops os : p <> 0 -> ~ in_use p a -> abs_step p op a = (o, b) -> abs_run b ops os c -> abs_run a (op :: ops) (o :: os) c.

(** What callers may do: use handles that are open, append only to files that exist,
    rename to another name, and stay below 2^63 bytes. *)
Definition mem_legal (op : MemOp) (e : MemEnv) : bool :=
  match op with
  | MoAppendable fname => bool_decide (is_Some (me_file_map e !! fname))
  | MoRead h n | MoSkip h n => bool_decide (is_Some (me_handles e !! h)) && (0 <=? n) && (n <? 2 ^ 63)
  | MoReadAt h offset n => bool_decide (is_Some (me_handles e !! h)) && (0 <=? offset) && (0 <=? n)
  | MoAppend h data =>
      match me_handles e !! h with
      | Some m => match me_heap e !! mh_file m with Some f => size_ f + zlen data <? 2 ^ 63 | None => false end
      | None => false
      end
  | MoClose h => bool_decide (is_Some (me_handles e !! h))
  | MoRename src target => negb (bool_decide (src = target))
  | _ => true
  end.

Fixpoint mem_legal_run (fresh_block : bytes) (ops : list MemOp) (e : MemEnv) : bool :=
  match ops with
  | [] => true
  | op :: ops => mem_legal op e && match mem_exec fresh_block op e with Some (_, e) => mem_legal_run fresh_block ops e | None => true end
  end.

(** ** Counting references *)

Section Count.
Context {Key V : Type} `{Countable Key} (target : V -> Z).

Definition count_refs (p : Z) (m : gmap Key V) : Z := Z.of_nat (size (filter (fun kv => target (snd kv) = p) m)).

Lemma count_refs_nonneg (p : Z) (m : gmap Key V) : 0 <= count_refs p m.
Proof. unfold count_refs. lia. Qed.

Lemma count_refs_insert (p : Z) (m : gmap Key V) (k : Key) (v : V) : m !! k = None -> count_refs p (<[k := v]> m) = count_refs p m + (if decide (target v = p) then 1 else 0).
Proof.
  intros Hk. unfold count_refs. destruct (decide (target v = p)) as [E0|E0].
  - rewrite map_filter_insert_True by done. rewrite map_size_insert_None; [lia|]. apply map_lookup_filter_None. by left.
  - rewrite map_filter_insert_not' by (try done; intros y Hy; congruence). lia.
Qed.

Lemma count_refs_delete (p : Z) (m : gmap Key V) (k : Key) (v : V) : m !! k = Some v -> count_refs p (delete k m) = count_refs p m - (if decide (target v = p) then 1 else 0).
Proof.
  intros Hk. pose proof (count_refs_insert p (delete k m) k v ltac:(apply lookup_delete_eq)) as Hi. rewrite insert_delete_id in Hi by done. lia.
Qed.

Lemma count_refs_update (p : Z) (m : gmap Key V) (k : Key) (v w : V) : m !! k = Some v -> target w = target v -> count_refs p (<[k := w]> m) = count_refs p m.
Proof.
  intros Hk Ht. rewrite <- insert_delete_eq. rewrite count_refs_insert by apply lookup_delete_eq. rewrite (count_refs_delete p m k v Hk), Ht. lia.
Qed.

Lemma count_refs_pos (m : gmap Key V) (k : Key) (v : V) : m !! k = Some v -> 0 < count_refs (target v) m.
Proof.
  intros Hk. pose proof (count_refs_delete (target v) m k v Hk) as Hd. pose proof (count_refs_nonneg (target v) (delete k m)). destruct (decide (target v = target v)); [lia|done].
Qed.

Lemma count_refs_zero (p : Z) (m : gmap Key V) : (forall k v, m !! k = Some v -> target v <> p) -> count_refs p m = 0.
Proof.
  intros Hno. unfold count_refs. replace (filter (fun kv => target (snd kv) = p) m) with (∅ : gmap Key V); [by rewrite map_size_empty|]. symmetry. apply map_empty. intros k. apply map_lookup_filter_None. right. intros v Hk. by apply Hno in Hk.
Qed.

Lemma count_refs_some (p : Z) (m : gmap Key V) : 0 < count_refs p m -> exists k v, m !! k = Some v /\ target v = p.
Proof.
  intros Hpos. destruct (decide (filter (fun kv => target (snd kv) = p) m = ∅)) as [E0|E0]; [unfold count_refs in Hpos; rewrite E0, map_size_empty in Hpos; lia|].
  apply map_choose in E0 as (k & v & [Hk Ht]%map_lookup_filter_Some). by exists k, v.
Qed.
End Count.

(** ** The refinement *)

Definition count (p : Z) (names : gmap bytes Z) (handles : gmap Z MemHandle) : Z := count_refs (fun q => q) p names + count_refs mh_file p handles.

(** What the heap has at [p]: nothing when nothing refers to [p], else an object with
    the right count that holds the contents. *)
Definition heap_ok (heap : gmap Z FileState) (cnt : Z -> Z) (data : Z -> bytes) : Prop :=
  forall p, match heap !! p with
            | Some f => p <> 0 /\ refs_ f = cnt p /\ 0 < cnt p /\ file_rep f (data p) /\ zlen (data p) < 2 ^ 63
            | None => cnt p = 0
            end.

Definition one_at (p q : Z) : Z := if decide (p = q) then 1 else 0.

Lemma heap_ok_ext (heap : gmap Z FileState) (cnt cnt' : Z -> Z) (data data' : Z -> bytes) :
  heap_ok heap cnt data -> (forall q, cnt' q = cnt q) -> (forall q, 0 < cnt q -> data' q = data q) -> heap_ok heap cnt' data'.
Proof. intros HO Hc Hd p. specialize (HO p). rewrite Hc. destruct (heap !! p) as [f|]; [|done]. destruct HO as (H1 & H2 & H3 & H4). by rewrite Hd. Qed.

Lemma heap_object (heap : gmap Z FileState) (cnt : Z -> Z) (data : Z -> bytes) (p : Z) :
  heap_ok heap cnt data -> 0 < cnt p -> exists f, heap !! p = Some f /\ refs_ f = cnt p /\ file_rep f (data p) /\ zlen (data p) < 2 ^ 63 /\ p <> 0.
Proof. intros HO Hp. specialize (HO p). destruct (heap !! p) as [f|]; [|lia]. destruct HO as (H1 & H2 & H3 & H4 & H5). by exists f. Qed.

Lemma heap_ref (heap : gmap Z FileState) (cnt cnt' : Z -> Z) (data : Z -> bytes) (p : Z) (f : FileState) :
  heap_ok heap cnt data -> heap !! p = Some f -> (forall q, cnt' q = cnt q + one_at p q) -> heap_ok (<[p := add_ref 1 f]> heap) cnt' data.
Proof.
  intros HO Hp Hc q. pose proof (HO q) as Hq. rewrite Hc. unfold one_at. destruct (decide (p = q)) as [<-|Hne].
  - rewrite lookup_insert_eq. rewrite Hp in Hq. destruct Hq as (H1 & H2 & H3 & H4 & H5). split_and!; [done|cbn; lia|lia|by apply file_rep_refs|done].
  - rewrite lookup_insert_ne by done. by rewrite Z.add_0_r.
Qed.

Lemma heap_unref (heap : gmap Z FileState) (cnt cnt' : Z -> Z) (data : Z -> bytes) (p : Z) (e : MemEnv) :
  me_heap e = heap -> heap_ok heap cnt data -> 0 < cnt p -> (forall q, cnt' q = cnt q - one_at p q) -> exists heap', Unref_file p e = Some (set_heap heap' e) /\ heap_ok heap' cnt' data.
Proof.
  intros Eh HO Hp Hc. destruct (heap_object _ _ _ _ HO Hp) as (f & Ef & Er & Hrep & Hz & Hnz). unfold Unref_file. rewrite Eh, Ef. cbn [mbind option_bind]. eexists. split; [reflexivity|].
  intros q. pose proof (HO q) as Hq. rewrite Hc. unfold one_at. cbn [add_ref refs_]. rewrite Er. destruct (Z.leb_spec (cnt p + -1) 0), (decide (p = q)) as [<-|Hne].
  - rewrite lookup_delete_eq. lia.
  - rewrite lookup_delete_ne by done. by rewrite Z.sub_0_r.
  - rewrite lookup_insert_eq. split_and!; [done|cbn; lia|lia|by apply file_rep_refs|done].
  - rewrite lookup_insert_ne by done. by rewrite Z.sub_0_r.
Qed.

Lemma heap_put (heap : gmap Z FileState) (cnt cnt' : Z -> Z) (data data' : Z -> bytes) (p : Z) (f : FileState) :
  heap_ok heap cnt data -> p <> 0 -> refs_ f = cnt' p -> 0 < cnt' p -> file_rep f (data' p) -> zlen (data' p) < 2 ^ 63 ->
  (forall q, q <> p -> cnt' q = cnt q /\ data' q = data q) -> heap_ok (<[p := f]> heap) cnt' data'.
Proof.
  intros HO Hp Hr Hc Hf Hz Hq q. destruct (decide (p = q)) as [<-|Hne]; [rewrite lookup_insert_eq; done|]. rewrite lookup_insert_ne by done. destruct (Hq q ltac:(done)) as [-> ->]. apply HO.
Qed.

Record MemRep (e : MemEnv) (a : AbsFS) : Prop := {
  mr_names : me_file_map e = af_names a;
  mr_handles : me_handles e = af_handles a;
  mr_heap : heap_ok (me_heap e) (fun p => count p (af_names a) (af_handles a)) (fun p => data_of p a);
  mr_pos : forall h m, af_handles a !! h = Some m -> 0 <= mh_pos m < 2 ^ 63
}.

Lemma count_name (a : AbsFS) (x : bytes) (p : Z) : af_names a !! x = Some p -> 0 < count p (af_names a) (af_handles a).
Proof. intros Hx. unfold count. pose proof (count_refs_pos (fun q => q) _ _ _ Hx). pose proof (count_refs_nonneg mh_file p (af_handles a)). cbn in *. lia. Qed.

Lemma count_handle (a : AbsFS) (h : Z) (m : MemHandle) : af_handles a !! h = Some m -> 0 < count (mh_file m) (af_names a) (af_handles a).
Proof. intros Hx. unfold count. pose proof (count_refs_pos mh_file _ _ _ Hx). pose proof (count_refs_nonneg (fun q => q) (mh_file m) (af_names a)). lia. Qed.

Lemma count_not_in_use (e : MemEnv) (a : AbsFS) (p : Z) : MemRep e a -> me_heap e !! p = None -> ~ in_use p a.
Proof.
  intros HR Hp. pose proof (mr_heap _ _ HR p) as Ho. cbn beta in Ho. rewrite Hp in Ho. intros [[x Hx]|(h & m & Hm & <-)]; [apply count_name in Hx; lia|apply count_handle in Hm; lia].
Qed.

Lemma new_address_spec (e : MemEnv) : new_address e <> 0 /\ me_heap e !! new_address e = None.
Proof.
  unfold new_address. pose proof (is_fresh ({[0]} ∪ dom (me_heap e))) as Hf. rewrite not_elem_of_union, not_elem_of_singleton, not_elem_of_dom in Hf. exact Hf.
Qed.

(** A handle is opened on an object that is there. *)
Lemma open_handle_rep (kind : HandleKind) (p : Z) (e : MemEnv) (a : AbsFS) (cnt : Z -> Z) :
  me_file_map e = af_names a -> me_handles e = af_handles a -> heap_ok (me_heap e) cnt (fun p => data_of p a) -> (forall h m, af_handles a !! h = Some m -> 0 <= mh_pos m < 2 ^ 63) ->
  0 < cnt p -> (forall q, count q (af_names a) (af_handles a) = cnt q) ->
  exists e', open_handle kind p e = Some (fst (af_open kind p a), e') /\ MemRep e' (snd (af_open kind p a)).
Proof.
  intros En Eh HO Hpos Hp Hcnt. destruct (heap_object _ _ _ _ HO Hp) as (f & Ef & _). unfold open_handle, Ref_file. rewrite Ef. cbn [mbind option_bind set_heap me_handles]. rewrite Eh. eexists. split; [reflexivity|].
  set (h := fresh (dom (af_handles a))). assert (af_handles a !! h = None) as Hh by (apply not_elem_of_dom, is_fresh). split; cbn [set_handles me_file_map me_handles me_heap af_open snd af_names af_handles]; [done|done| |].
  - eapply heap_ref; [exact HO|exact Ef|]. intros q. unfold count. rewrite count_refs_insert by done. cbn [mh_file]. rewrite Z.add_assoc. fold (count q (af_names a) (af_handles a)). by rewrite Hcnt.
  - intros h' m [[<- <-]|[_ Hm]]%lookup_insert_Some; [split; [done|reflexivity]|by eapply Hpos].
Qed.

(** A position moves: nothing else changes. *)
Lemma move_rep (h n : Z) (m : MemHandle) (e : MemEnv) (a : AbsFS) :
  MemRep e a -> af_handles a !! h = Some m -> 0 <= mh_pos m + n < 2 ^ 63 ->
  MemRep (set_handles (<[h := mkMemHandle (mh_kind m) (mh_file m) (u64 (mh_pos m + n))]> (me_handles e)) e) (af_move h n m a).
Proof.
  intros [En Eh HO Hpos] Hm Hn. rewrite wrap_small by lia. split; cbn [set_handles me_file_map me_handles me_heap af_move af_names af_handles]; [done|by rewrite Eh| |].
  - eapply heap_ok_ext; [exact HO| |done]. intros q. unfold count. by rewrite (count_refs_update mh_file q _ h m).
  - intros h' m' [[<- <-]|[_ Hm']]%lookup_insert_Some; [exact Hn|by eapply Hpos].
Qed.

(** The contents of an object change. *)
Lemma write_rep (p : Z) (f : FileState) (c : bytes) (e : MemEnv) (a : AbsFS) :
  MemRep e a -> 0 < count p (af_names a) (af_handles a) -> refs_ f = count p (af_names a) (af_handles a) -> file_rep f c -> zlen c < 2 ^ 63 ->
  MemRep (set_heap (<[p := f]> (me_heap e)) e) (af_write p c a).
Proof.
  intros [En Eh HO Hpos] Hp Hr Hf Hz. destruct (heap_object _ _ _ p HO Hp) as (f0 & _ & _ & _ & _ & Hnz). split; cbn [set_heap me_file_map me_handles me_heap af_write af_names af_handles]; [done|done| |done].
  assert (data_of p (af_write p c a) = c) as Ed by (unfold data_of, af_write; cbn [af_data]; by rewrite lookup_insert_eq).
  apply (heap_put (me_heap e) (fun p => count p (af_names a) (af_handles a)) _ (fun p => data_of p a)); [done|done|done|done| | |].
  - cbn beta. by rewrite Ed.
  - cbn beta. by rewrite Ed.
  - intros q Hq. split; [done|]. unfold data_of, af_write. cbn [af_data]. by rewrite lookup_insert_ne.
Qed.

(** A name goes away, with its reference. *)
Lemma remove_rep (x : bytes) (p : Z) (e : MemEnv) (a : AbsFS) :
  MemRep e a -> af_names a !! x = Some p ->
  exists e', RemoveFileInternal x e = Some e' /\ MemRep e' (mkAbsFS (delete x (af_names a)) (af_data a) (af_handles a)).
Proof.
  intros [En Eh HO Hpos] Hx. unfold RemoveFileInternal. rewrite En, Hx.
  destruct (heap_unref (me_heap e) _ (fun q => count q (delete x (af_names a)) (af_handles a)) _ p e eq_refl HO (count_name _ _ _ Hx)) as (heap' & -> & HO').
  { intros q. unfold count. rewrite (count_refs_delete _ q _ x p Hx). unfold one_at. lia. }
  eexists. split; [reflexivity|]. split; cbn [set_file_map set_heap me_file_map me_handles me_heap af_names af_handles]; [by rewrite En|done| |done].
  eapply heap_ok_ext; [exact HO'|done|done].
Qed.

(** A name with nothing behind it, and an object with one more name. *)
Lemma name_rep (x : bytes) (p : Z) (e : MemEnv) (a : AbsFS) (heap : gmap Z FileState) (data : gmap Z bytes) :
  MemRep e a -> af_names a !! x = None -> heap_ok heap (fun q => count q (af_names a) (af_handles a) + one_at p q) (fun q => default [] (data !! q)) ->
  MemRep (set_file_map (<[x := p]> (me_file_map e)) (set_heap heap e)) (mkAbsFS (<[x := p]> (af_names a)) data (af_handles a)).
Proof.
  intros [En Eh _ Hpos] Hx HO. split; cbn [set_file_map set_heap me_file_map me_handles me_heap af_names af_handles]; [by rewrite En|done| |done].
  eapply heap_ok_ext; [exact HO| |done]. intros q. unfold count. rewrite count_refs_insert by done. unfold one_at. lia.
Qed.

Lemma mem_open_sim (kind : HandleKind) (p : Z) (e : MemEnv) (a : AbsFS) :
  MemRep e a -> 0 < count p (af_names a) (af_handles a) -> exists e', open_handle kind p e = Some (fst (af_open kind p a), e') /\ MemRep e' (snd (af_open kind p a)).
Proof. intros [En Eh HO Hpos] Hp. by eapply (open_handle_rep kind p e a _ En Eh HO). Qed.

(** What a step of both gives. *)
Definition simulates (fresh_block : bytes) (p : Z) (op : MemOp) (e : MemEnv) (a : AbsFS) : Prop :=
  exists e', mem_exec fresh_block op e = Some (fst (abs_step p op a), e') /\ MemRep e' (snd (abs_step p op a)).

Lemma writable_sim (fresh_block : bytes) (x : bytes) (e : MemEnv) (a : AbsFS) : MemRep e a -> simulates fresh_block (new_address e) (MoWritable x) e a.
Proof.
  intros HR. pose proof HR as [En Eh HO Hpos]. unfold simulates. cbn [mem_exec abs_step]. unfold me_NewWritableFile. rewrite En. destruct (af_names a !! x) as [q|] eqn:Ex; cbn [from_option id].
  - pose proof (count_name _ _ _ Ex) as Hc. destruct (heap_object _ _ _ q HO Hc) as (f & Ef & Er & Hf & Hz & Hnz). rewrite Ef. cbn [mbind option_bind].
    pose proof (write_rep q (Truncate f) [] e a HR Hc Er (file_rep_new (refs_ f)) ltac:(reflexivity)) as HR1.
    replace (mkAbsFS (<[x := q]> (af_names a)) (<[q := []]> (af_data a)) (af_handles a)) with (af_write q [] a) by (unfold af_write; by rewrite (insert_id (af_names a) x q Ex)).
    destruct (mem_open_sim HWritable q _ _ HR1 Hc) as (e' & -> & HR'). destruct (af_open HWritable q (af_write q [] a)) as [h a']. by exists e'.
  - destruct (new_address_spec e) as [Hnz Hnew]. set (p := new_address e) in *. pose proof (HO p) as Hp0. cbn beta in Hp0. rewrite Hnew in Hp0.
    unfold Ref_file. cbn [set_heap me_heap]. rewrite lookup_insert_eq. cbn [mbind option_bind set_heap me_heap me_file_map me_handles]. rewrite insert_insert_eq.
    assert (MemRep (set_file_map (<[x := p]> (me_file_map e)) (set_heap (<[p := add_ref 1 newFileState]> (me_heap e)) e)) (mkAbsFS (<[x := p]> (af_names a)) (<[p := []]> (af_data a)) (af_handles a))) as HR1.
    { apply name_rep; [done|done|]. eapply heap_put; [exact HO|done| | | | |]; cbn beta; rewrite ?lookup_insert_eq; cbn [from_option id].
      - rewrite Hp0. unfold one_at. by destruct (decide (p = p)).
      - rewrite Hp0. unfold one_at. by destruct (decide (p = p)).
      - apply file_rep_new.
      - reflexivity.
      - intros q Hq. rewrite lookup_insert_ne by done. unfold one_at. destruct (decide (p = q)); [congruence|]. split; [lia|done]. }
    destruct (mem_open_sim HWritable p _ _ HR1) as (e' & Eo & HR'); [apply (count_name (mkAbsFS (<[x := p]> (af_names a)) (<[p := []]> (af_data a)) (af_handles a)) x p); cbn [af_names]; by rewrite lookup_insert_eq|].
    unfold set_file_map, set_heap in Eo |- *. cbn [me_file_map me_heap me_handles] in *. rewrite En in Eo |- *. rewrite Eo. destruct (af_open HWritable p _) as [h a']. by exists e'.
Qed.

Lemma appendable_sim (fresh_block : bytes) (x : bytes) (p : Z) (e : MemEnv) (a : AbsFS) : MemRep e a -> is_Some (me_file_map e !! x) -> simulates fresh_block p (MoAppendable x) e a.
Proof.
  intros HR [q Hq]. pose proof HR as [En Eh HO Hpos]. unfold simulates. cbn [mem_exec abs_step]. unfold me_NewAppendableFile. rewrite Hq. cbn [from_option id]. rewrite En in Hq. rewrite Hq. cbn [from_option id].
  pose proof (count_name _ _ _ Hq) as Hc. destruct (heap_object _ _ _ q HO Hc) as (f & Ef & Er & Hf & Hz & Hnz). destruct (Z.eqb_spec q 0); [done|]. cbn [mbind option_bind].
  assert (set_file_map (<[x := q]> (me_file_map e)) e = e) as -> by (destruct e; cbn in *; unfold set_file_map; cbn; subst; by rewrite insert_id).
  destruct (mem_open_sim HWritable q _ _ HR Hc) as (e' & -> & HR'). destruct (af_open HWritable q a) as [h a']. by exists e'.
Qed.

Lemma handle_object (e : MemEnv) (a : AbsFS) (h : Z) : MemRep e a -> is_Some (me_handles e !! h) ->
  exists m f, me_handles e !! h = Some m /\ af_handles a !! h = Some m /\ me_heap e !! mh_file m = Some f /\ refs_ f = count (mh_file m) (af_names a) (af_handles a) /\
    0 < count (mh_file m) (af_names a) (af_handles a) /\ file_rep f (data_of (mh_file m) a) /\ zlen (data_of (mh_file m) a) < 2 ^ 63 /\ 0 <= mh_pos m < 2 ^ 63.
Proof.
  intros [En Eh HO Hpos] [m Hm]. pose proof Hm as Hm'. rewrite Eh in Hm'. pose proof (count_handle _ _ _ Hm') as Hc. destruct (heap_object _ _ _ _ HO Hc) as (f & Ef & Er & Hf & Hz & Hnz).
  exists m, f. split_and!; try done; by eapply Hpos.
Qed.

Lemma rename_sim (fresh_block : bytes) (src target : bytes) (p : Z) (e : MemEnv) (a : AbsFS) :
  MemRep e a -> src <> target -> simulates fresh_block p (MoRename src target) e a.
Proof.
  intros HR Hne. pose proof (mr_names _ _ HR) as En. unfold simulates. cbn [mem_exec abs_step]. unfold me_RenameFile. rewrite En. destruct (af_names a !! src) as [q|] eqn:Es; [|exists e; split; [reflexivity|exact HR]].
  assert (exists e1, RemoveFileInternal target e = Some e1 /\ MemRep e1 (mkAbsFS (delete target (af_names a)) (af_data a) (af_handles a))) as (e1 & -> & HR1).
  { destruct (af_names a !! target) as [t|] eqn:Et; [by apply (remove_rep target t)|]. exists e. unfold RemoveFileInternal. rewrite En, Et. split; [done|]. rewrite delete_id by done. by destruct a. }
  cbn [mbind option_bind]. pose proof HR1 as [En1 Eh1 HO1 Hpos1]. cbn [af_names af_data af_handles] in *. assert (delete target (af_names a) !! src = Some q) as Es1 by (by rewrite lookup_delete_ne).
  rewrite En1, Es1. change (default 0 (Some q)) with q. rewrite (insert_id _ src q Es1). eexists. split; [reflexivity|]. rewrite insert_delete_eq.
  split; cbn [set_file_map me_file_map me_handles me_heap snd af_names af_handles]; [done|done| |done]. eapply heap_ok_ext; [exact HO1| |done]. intros r. unfold count. f_equal.
  assert (<[target := q]> (af_names a) !! src = Some q) as Es2 by (by rewrite lookup_insert_ne). rewrite (count_refs_delete _ r _ src q Es2). rewrite <- insert_delete_eq, count_refs_insert by apply lookup_delete_eq. lia.
Qed.

Lemma close_sim (fresh_block : bytes) (h p : Z) (e : MemEnv) (a : AbsFS) : MemRep e a -> is_Some (me_handles e !! h) -> simulates fresh_block p (MoClose h) e a.
Proof.
  intros HR Hh. destruct (handle_object e a h HR Hh) as (m & f & Em & Em' & _ & _ & Hc & _). destruct HR as [En Eh HO Hpos]. unfold simulates. cbn [mem_exec abs_step]. unfold mh_close. rewrite Em. cbn [mbind option_bind].
  destruct (heap_unref (me_heap e) _ (fun q => count q (af_names a) (delete h (af_handles a))) _ (mh_file m) e eq_refl HO Hc) as (heap' & -> & HO').
  { intros q. unfold count. rewrite (count_refs_delete mh_file q _ h m Em'). unfold one_at. lia. }
  cbn [mbind option_bind]. eexists. split; [reflexivity|]. split; cbn [set_handles set_heap me_file_map me_handles me_heap snd af_names af_handles]; [done|by rewrite Eh| |].
  - eapply heap_ok_ext; [exact HO'|done|done].
  - intros h' m' [_ Hm']%lookup_delete_Some. by eapply Hpos.
Qed.

Lemma read_spec_length (offset n : Z) (c b : bytes) : read_spec offset n c = Ok b -> 0 <= offset -> 0 <= n -> offset + zlen b <= zlen c.
Proof.
  unfold read_spec. destruct (Z.ltb_spec (zlen c) offset); [done|]. intros [= <-] Ho Hn. rewrite zlen_ztake_min by done. rewrite zlen_zdrop by lia. lia.
Qed.

Lemma mem_exec_sim (fresh_block : bytes) (op : MemOp) (e : MemEnv) (a : AbsFS) :
  zlen fresh_block = kMemBlockSize -> MemRep e a -> mem_legal op e = true -> simulates fresh_block (new_address e) op e a.
Proof.
  intros Hfresh HR Hl. pose proof HR as [En Eh HO Hpos].
  destruct op as [kind x|x|x|h n|h offset n|h n|h data|h|x|src target|x|x|dir]; cbn [mem_legal] in Hl.
  - unfold simulates. cbn [mem_exec abs_step]. unfold me_open. rewrite En. destruct (af_names a !! x) as [q|] eqn:Ex; [|exists e; split; [reflexivity|exact HR]].
    destruct (mem_open_sim kind q e a HR (count_name _ _ _ Ex)) as (e' & -> & HR'). destruct (af_open kind q a) as [h a']. by exists e'.
  - by apply writable_sim.
  - apply bool_decide_eq_true in Hl. by apply appendable_sim.
  - apply andb_true_iff in Hl as [[Hh Hn]%andb_true_iff Hn2]. apply bool_decide_eq_true in Hh. apply Z.leb_le in Hn. destruct (handle_object e a h HR Hh) as (m & f & Em & Em' & Ef & _ & _ & Hf & Hz & Hp).
    unfold simulates. cbn [mem_exec abs_step]. unfold mh_Read. rewrite Em, Em'. cbn [mbind option_bind]. rewrite Ef. cbn [mbind option_bind]. rewrite (FileState_Read_spec _ _ _ _ Hf) by lia. cbn [mbind option_bind].
    destruct (read_spec (mh_pos m) n (data_of (mh_file m) a)) as [b|st] eqn:Er; [|exists e; split; [reflexivity|exact HR]]. eexists. split; [reflexivity|]. cbn [snd]. pose proof (zlen_nonneg b). apply read_spec_length in Er; [|lia|lia]. apply move_rep; [done|done|lia].
  - apply andb_true_iff in Hl as [[Hh Ho]%andb_true_iff Hn]. apply bool_decide_eq_true in Hh. apply Z.leb_le in Ho, Hn. destruct (handle_object e a h HR Hh) as (m & f & Em & Em' & Ef & _ & _ & Hf & _).
    unfold simulates. cbn [mem_exec abs_step]. unfold mh_ReadAt. rewrite Em, Em'. cbn [mbind option_bind]. rewrite Ef. cbn [mbind option_bind]. rewrite (FileState_Read_spec _ _ _ _ Hf) by lia. exists e; split; [reflexivity|exact HR].
  - apply andb_true_iff in Hl as [[Hh Hn]%andb_true_iff Hn2]. apply bool_decide_eq_true in Hh. apply Z.leb_le in Hn. destruct (handle_object e a h HR Hh) as (m & f & Em & Em' & Ef & _ & _ & Hf & Hz & Hp).
    unfold simulates. cbn [mem_exec abs_step]. unfold mh_Skip. rewrite Em, Em'. cbn [mbind option_bind]. rewrite Ef. cbn [mbind option_bind]. rewrite (fr_size _ _ Hf).
    destruct (Z.ltb_spec (zlen (data_of (mh_file m) a)) (mh_pos m)); [exists e; split; [reflexivity|exact HR]|]. set (k := if _ <? n then _ else n). assert (k = Z.min n (zlen (data_of (mh_file m) a) - mh_pos m)) as -> by (unfold k; destruct (Z.ltb_spec (zlen (data_of (mh_file m) a) - mh_pos m) n); lia).
    eexists. split; [reflexivity|]. cbn [snd]. apply move_rep; [done|done|lia].
  - destruct (me_handles e !! h) as [m0|] eqn:Em0; [|done]. destruct (me_heap e !! mh_file m0) as [f0|] eqn:Ef0; [|done]. apply Z.ltb_lt in Hl.
    destruct (handle_object e a h HR ltac:(by rewrite Em0)) as (m & f & Em & Em' & Ef & Er & Hc & Hf & Hz & _). rewrite Em0 in Em. injection Em as <-. rewrite Ef0 in Ef. injection Ef as <-. rewrite (fr_size _ _ Hf) in Hl.
    unfold simulates. cbn [mem_exec abs_step]. unfold mh_Append. rewrite Em0, Em'. cbn [mbind option_bind]. rewrite Ef0. cbn [mbind option_bind].
    destruct (FileState_Append_spec fresh_block Hfresh data f0 _ Hf ltac:(lia)) as (f' & -> & Hf' & Er'). cbn [mbind option_bind]. eexists. split; [reflexivity|]. cbn [snd]. apply write_rep; [done|done|congruence|done|rewrite zlen_app; lia].
  - apply bool_decide_eq_true in Hl. by apply close_sim.
  - unfold simulates. cbn [mem_exec abs_step]. unfold me_RemoveFile. rewrite En. destruct (af_names a !! x) as [q|] eqn:Ex; [|exists e; split; [reflexivity|exact HR]]. destruct (remove_rep x q e a HR Ex) as (e' & -> & HR'). by exists e'.
  - apply negb_true_iff, bool_decide_eq_false in Hl. by apply rename_sim.
  - unfold simulates. cbn [mem_exec abs_step]. unfold me_GetFileSize. rewrite En. destruct (af_names a !! x) as [q|] eqn:Ex; [|exists e; split; [reflexivity|exact HR]].
    destruct (heap_object _ _ _ q HO (count_name _ _ _ Ex)) as (f & Ef & _ & Hf & _). rewrite Ef. cbn [mbind option_bind]. rewrite (fr_size _ _ Hf). exists e; split; [reflexivity|exact HR].
  - exists e. cbn [mem_exec abs_step fst snd]. unfold me_FileExists. by rewrite En.
  - exists e. cbn [mem_exec abs_step fst snd]. unfold me_GetChildren. by rewrite En.
Qed.

Lemma mem_run_sim (fresh_block : bytes) (ops : list MemOp) (e : MemEnv) (a : AbsFS) :
  zlen fresh_block = kMemBlockSize -> MemRep e a -> mem_legal_run fresh_block ops e = true ->
  exists os e' a', mem_run fresh_block ops e = Some (os, e') /\ abs_run a ops os a' /\ MemRep e' a'.
Proof.
  intros Hfresh. revert e a. induction ops as [|op ops IH]; intros e a HR Hl; [exists [], e, a; split_and!; [done|constructor|done]|]. cbn [mem_legal_run mem_run] in *. apply andb_true_iff in Hl as [Hl Hrest].
  destruct (mem_exec_sim fresh_block op e a Hfresh HR Hl) as (e1 & Ex & HR1). rewrite Ex in Hrest |- *. destruct (IH _ _ HR1 Hrest) as (os & e2 & a2 & E2 & Hr & HR2). cbn [mbind option_bind]. rewrite E2. cbn [mbind option_bind].
  destruct (new_address_spec e) as [Hnz Hnew]. eexists _, e2, a2. split_and!; [reflexivity| |exact HR2]. eapply abs_cons; [exact Hnz|by eapply count_not_in_use| |exact Hr]. by destruct (abs_step (new_address e) op a).
Qed.

Lemma newMemEnv_rep : MemRep newMemEnv (mkAbsFS ∅ ∅ ∅).
Proof. split; [done|done| |by intros h m Hm; cbn [af_handles] in Hm; rewrite lookup_empty in Hm]. intros p. cbn. by rewrite lookup_empty. Qed.

(** The names are given up one by one. *)
Lemma destroy_names (l : list (bytes * Z)) (e : MemEnv) (cnt : Z -> Z) (data : Z -> bytes) :
  heap_ok (me_heap e) (fun p => cnt p + Z.of_nat (length (List.filter (fun kv => Z.eqb (snd kv) p) l))) data -> (forall p, 0 <= cnt p) ->
  exists e', foldr (fun p e => e ← e; Unref_file p e) (Some e) (map snd l) = Some e' /\ heap_ok (me_heap e') cnt data.
Proof.
  revert cnt. induction l as [|[x p] l IH]; intros cnt HO Hcnt; [exists e; split; [done|]; eapply heap_ok_ext; [exact HO|intros q; cbn; lia|done]|]. cbn [map foldr snd].
  destruct (IH (fun q => cnt q + one_at p q)) as (e1 & -> & HO1).
  - eapply heap_ok_ext; [exact HO| |done]. intros q. cbn [List.filter snd]. unfold one_at. destruct (Z.eqb_spec p q), (decide (p = q)); cbn [length]; lia.
  - intros q. specialize (Hcnt q). unfold one_at. destruct (decide (p = q)); lia.
  - cbn [mbind option_bind]. pose proof (Hcnt p) as Hp. destruct (heap_unref (me_heap e1) _ cnt data p e1 eq_refl HO1) as (heap' & -> & HO'); [cbn beta; unfold one_at; destruct (decide (p = p)); [lia|done]|intros q; lia|]. by eexists.
Qed.

Lemma count_refs_list (p : Z) (m : gmap bytes Z) : count_refs (fun q => q) p m = Z.of_nat (length (List.filter (fun kv => Z.eqb (snd kv) p) (map_to_list m))).
Proof.
  induction m as [|k v m Hk IH] using map_ind; [done|]. rewrite count_refs_insert by done. cbn beta. rewrite IH.
  assert (forall l l' : list (bytes * Z), l ≡ₚ l' -> length (List.filter (fun kv => Z.eqb (snd kv) p) l) = length (List.filter (fun kv => Z.eqb (snd kv) p) l')) as Hp.
  { intros l l' Hl. induction Hl as [|y l l' _ IHl|y z l|l l' l'' _ IH1 _ IH2]; [done| | |congruence]; cbn [List.filter]; repeat destruct (Z.eqb _ p); cbn [length]; congruence. }
  rewrite (Hp _ _ (map_to_list_insert m k v Hk)). cbn [List.filter snd]. destruct (Z.eqb_spec v p), (decide (v = p)); cbn [length]; lia.
Qed.

(** C22. The file system in memory refines names, contents and handles.  Take any legal
    run, in which files are opened, written, read, truncated, renamed and removed, with
    handles that outlive names and share contents.  Every call succeeds without touching
    an object that was freed and shows what the abstract file system shows (an error
    for a missing name included): a handle goes on
    with its file after the name is gone or stands for another file, a read gives the
    bytes that were appended, across blocks, and a reader past the end of a file that
    was truncated gets an error.  When no handle is open and the environment is
    destroyed, every object has been freed.
    A run is legal ([mem_legal]) when handles are used and closed only while they are
    open, counts and offsets are not negative and counts and sizes stay below 2^63,
    [NewAppendableFile] is called on names that exist (memenv.cc:275 goes wrong on a
    missing one: [appendable_missing_file]), and no file is renamed to its own name
    (memenv.cc:348 drops the file then). *)
Theorem memenv_refines (fresh_block : bytes) (ops : list MemOp) :
  zlen fresh_block = kMemBlockSize -> mem_legal_run fresh_block ops newMemEnv = true ->
  exists os e a, mem_run fresh_block ops newMemEnv = Some (os, e) /\ abs_run (mkAbsFS ∅ ∅ ∅) ops os a /\ me_handles e = af_handles a /\
    (me_handles e = ∅ -> exists e', destroy_MemEnv e = Some e' /\ me_heap e' = ∅).
Proof.
  intros Hfresh Hl. destruct (mem_run_sim fresh_block ops newMemEnv _ Hfresh newMemEnv_rep Hl) as (os & e & a & Er & Ha & [En Eh HO Hpos]). exists os, e, a. split_and!; [done|done|done|].
  intros Hnone. rewrite Eh in Hnone. destruct (destroy_names (map_to_list (me_file_map e)) e (fun _ => 0) (fun p => data_of p a)) as (e' & Ed & HO'); [|done|].
  - eapply heap_ok_ext; [exact HO| |done]. intros q. unfold count. rewrite <- count_refs_list, En, Hnone. rewrite (count_refs_zero mh_file q ∅); [lia|]. intros k v Hk. by rewrite lookup_empty in Hk.
  - exists e'. split; [exact Ed|]. apply map_empty. intros p. specialize (HO' p). destruct (me_heap e' !! p); [lia|done].
Qed.

(** *** Witness: three handles on one file, a name taken over, and a file past one block *)

Definition mem_example : list MemOp := [
  MoWritable (lit "a"); MoAppend 0 (lit "hello"); MoOpen HSequential (lit "a"); MoRead 1 3; MoRename (lit "a") (lit "b"); MoAppend 0 (replicate (Z.to_nat 9000) Byte.x61);
  MoSize (lit "b"); MoRead 1 4; MoRemove (lit "b"); MoReadAt 1 8190 5; MoExists (lit "b"); MoClose 0; MoClose 1].

Lemma memenv_refines_witness :
  exists os e a, mem_run (replicate (Z.to_nat kMemBlockSize) Byte.x00) mem_example newMemEnv = Some (os, e) /\ abs_run (mkAbsFS ∅ ∅ ∅) mem_example os a /\
    os = [MoutHandle (Ok 0); MoutUnit (Ok tt); MoutHandle (Ok 1); MoutBytes (Ok (lit "hel")); MoutUnit (Ok tt); MoutUnit (Ok tt); MoutSize (Ok 9005); MoutBytes (Ok (lit "loaa"));
          MoutUnit (Ok tt); MoutBytes (Ok (lit "aaaaa")); MoutBool false; MoutUnit (Ok tt); MoutUnit (Ok tt)].
Proof.
  destruct (memenv_refines (replicate (Z.to_nat kMemBlockSize) Byte.x00) mem_example) as (os & e & a & Er & Ha & _); [vm_compute; reflexivity|vm_compute; reflexivity|].
  exists os, e, a. split; [exact Er|]. split; [exact Ha|].
  assert (fst <$> mem_run (replicate (Z.to_nat kMemBlockSize) Byte.x00) mem_example newMemEnv =
    Some [MoutHandle (Ok 0); MoutUnit (Ok tt); MoutHandle (Ok 1); MoutBytes (Ok (lit "hel")); MoutUnit (Ok tt); MoutUnit (Ok tt); MoutSize (Ok 9005); MoutBytes (Ok (lit "loaa"));
          MoutUnit (Ok tt); MoutBytes (Ok (lit "aaaaa")); MoutBool false; MoutUnit (Ok tt); MoutUnit (Ok tt)]) as Es by (vm_compute; reflexivity).
  rewrite Er in Es. by injection Es.
Defined.

(** C35. [NewAppendableFile] on a name that does not exist breaks the environment: it
    succeeds and appends to the file succeed, but the name now stands for a null
    pointer, and the next call that opens the file dereferences it. *)
Theorem appendable_missing_file (fresh_block fname data : bytes) (e : MemEnv) (a : AbsFS) :
  zlen fresh_block = kMemBlockSize -> MemRep e a -> me_file_map e !! fname = None -> zlen data < 2 ^ 63 ->
  exists h e1 e2, me_NewAppendableFile fname e = Some (Ok h, e1) /\ mh_Append fresh_block h data e1 = Some (Ok tt, e2) /\ me_FileExists fname e2 = true /\
    me_open HSequential fname e2 = None /\ me_GetFileSize fname e2 = None.
Proof.
  intros Hfresh [En Eh HO Hpos] Hx Hd. destruct (new_address_spec e) as [Hnz Hnew]. pose proof (HO 0) as H0. cbn beta in H0.
  assert (me_heap e !! 0 = None) as Hnull by (destruct (me_heap e !! 0) as [f|]; [by destruct H0|done]). unfold me_NewAppendableFile. rewrite Hx. cbn [from_option]. rewrite Z.eqb_refl.
  change (new_address (set_file_map (<[fname := 0]> (me_file_map e)) e)) with (new_address e). set (p := new_address e) in *. unfold Ref_file, open_handle, Ref_file. cbn [set_heap set_file_map me_heap me_handles me_file_map mbind option_bind].
  rewrite !lookup_insert_eq. cbn [mbind option_bind set_heap me_heap me_handles me_file_map]. rewrite !lookup_insert_eq. cbn [mbind option_bind set_heap me_heap me_handles me_file_map].
  eexists _, _. assert (file_rep (add_ref 1 (add_ref 1 newFileState)) []) as Hf by apply file_rep_new. destruct (FileState_Append_spec fresh_block Hfresh data _ [] Hf) as (f' & Ef & _ & _); [change (zlen []) with 0; lia|].
  eexists. split; [reflexivity|]. unfold mh_Append. cbn [set_handles me_handles me_heap]. rewrite lookup_insert_eq. cbn [mbind option_bind mh_file set_heap set_file_map me_heap]. rewrite lookup_insert_eq. cbn [mbind option_bind]. rewrite Ef. split; [reflexivity|].
  unfold me_FileExists, me_open, me_GetFileSize, open_handle, Ref_file. cbn [set_heap set_handles set_file_map me_file_map me_heap mh_file]. rewrite lookup_insert_eq. split; [by apply bool_decide_eq_true|].
  rewrite !insert_insert_eq, lookup_insert_ne by done. by rewrite Hnull.
Qed.

Lemma appendable_missing_file_witness :
  exists h e1 e2, me_NewAppendableFile (lit "log") newMemEnv = Some (Ok h, e1) /\ mh_Append (replicate (Z.to_nat kMemBlockSize) Byte.x00) h (lit "x") e1 = Some (Ok tt, e2) /\ me_open HSequential (lit "log") e2 = None.
Proof.
  destruct (appendable_missing_file (replicate (Z.to_nat kMemBlockSize) Byte.x00) (lit "log") (lit "x") newMemEnv _ ltac:(vm_compute; reflexivity) newMemEnv_rep ltac:(vm_compute; reflexivity) ltac:(vm_compute; reflexivity))
    as (h & e1 & e2 & E1 & E2 & _ & E3 & _).
  by exists h, e1, e2.
Defined.

(** Renaming a file to its own name removes it. *)
Lemma rename_to_itself (fname : bytes) (e : MemEnv) (a : AbsFS) :
  MemRep e a -> is_Some (me_file_map e !! fname) -> exists e', me_RenameFile fname fname e = Some (Ok tt, e') /\ me_FileExists fname e' = false.
Proof.
  intros HR [p Hp]. unfold me_RenameFile. rewrite Hp. rewrite (mr_names _ _ HR) in Hp. destruct (remove_rep fname p e a HR Hp) as (e1 & -> & HR1). cbn [mbind option_bind]. eexists. split; [reflexivity|].
  unfold me_FileExists. cbn [set_file_map me_file_map]. rewrite lookup_delete_eq. apply bool_decide_eq_false. by intros [? ?].
Qed.
