(* ===== verification/Snapshot.v ===== *)
(** * Snapshot: the list of live snapshots ([db/snapshot.h])

    A circular doubly linked list around a dummy head, modelled as nodes in a heap:
    addresses are positive, the head is at address 0.  Whatever snapshots are taken
    and released, the list holds the live ones in the order they were taken, so its
    oldest is the smallest sequence number that a compaction has to respect. *)

From stdpp Require Import sorting fin_sets.
From S2P Require Import Prelude DbFormat.
From Stdlib Require Import Sorting.Sorted.

Record SnapshotImpl := mkSnapshotImpl { sn_prev : Z; sn_next : Z; sequence_number : SequenceNumber }.

(** [new] hands out the addresses in turn. *)
Record SnapshotList := mkSnapshotList { sl_nodes : gmap Z SnapshotImpl; sl_new : Z }.

Definition head_ : Z := 0.

Definition newSnapshotList : SnapshotList := mkSnapshotList {[head_ := mkSnapshotImpl head_ head_ 0]} 1.

Definition prev_of (h : gmap Z SnapshotImpl) (p : Z) : Z := match h !! p with Some n => sn_prev n | None => head_ end.
Definition next_of (h : gmap Z SnapshotImpl) (p : Z) : Z := match h !! p with Some n => sn_next n | None => head_ end.
Definition seq_of (h : gmap Z SnapshotImpl) (p : Z) : SequenceNumber := match h !! p with Some n => sequence_number n | None => 0 end.

Definition set_prev (p q : Z) (h : gmap Z SnapshotImpl) : gmap Z SnapshotImpl :=
  alter (fun n => mkSnapshotImpl q (sn_next n) (sequence_number n)) p h.
Definition set_next (p q : Z) (h : gmap Z SnapshotImpl) : gmap Z SnapshotImpl :=
  alter (fun n => mkSnapshotImpl (sn_prev n) q (sequence_number n)) p h.

Definition sl_empty (s : SnapshotList) : bool := next_of (sl_nodes s) head_ =? head_.
Definition oldest (s : SnapshotList) : Z := next_of (sl_nodes s) head_.
Definition newest (s : SnapshotList) : Z := prev_of (sl_nodes s) head_.

Definition sl_New (sequence : SequenceNumber) (s : SnapshotList) : Z * SnapshotList :=
  let snapshot := sl_new s in
  let h := <[snapshot := mkSnapshotImpl head_ head_ sequence]> (sl_nodes s) in
  let h := set_next snapshot head_ h in
  let h := set_prev snapshot (prev_of h head_) h in
  let h := set_next (prev_of h snapshot) snapshot h in
  let h := set_prev (next_of h snapshot) snapshot h in
  (snapshot, mkSnapshotList h (snapshot + 1)).

Definition sl_Delete (snapshot : Z) (s : SnapshotList) : SnapshotList :=
  let h := sl_nodes s in
  let h := set_next (prev_of h snapshot) (next_of h snapshot) h in
  let h := set_prev (next_of h snapshot) (prev_of h snapshot) h in
  mkSnapshotList (delete snapshot h) (sl_new s).

(** The nodes from [p] on, along [next] until the head. *)
Fixpoint walk (fuel : nat) (step : Z -> Z) (p : Z) : list Z :=
  match fuel with
  | O => []
  | S fuel => if p =? head_ then [] else p :: walk fuel step (step p)
  end.

Definition snapshots (s : SnapshotList) : list Z := walk (size (sl_nodes s)) (next_of (sl_nodes s)) (oldest s).
Definition snapshots_rev (s : SnapshotList) : list Z := walk (size (sl_nodes s)) (prev_of (sl_nodes s)) (newest s).

(** ** Fields *)

Lemma next_set_next (p q x : Z) (h : gmap Z SnapshotImpl) : is_Some (h !! p) -> next_of (set_next p q h) x = if decide (x = p) then q else next_of h x.
Proof.
  intros [n Hn]. unfold next_of, set_next. case_decide; subst; [by rewrite lookup_alter_eq, Hn|by rewrite lookup_alter_ne].
Qed.

Lemma prev_set_prev (p q x : Z) (h : gmap Z SnapshotImpl) : is_Some (h !! p) -> prev_of (set_prev p q h) x = if decide (x = p) then q else prev_of h x.
Proof.
  intros [n Hn]. unfold prev_of, set_prev. case_decide; subst; [by rewrite lookup_alter_eq, Hn|by rewrite lookup_alter_ne].
Qed.

Lemma next_set_prev (p q x : Z) (h : gmap Z SnapshotImpl) : next_of (set_prev p q h) x = next_of h x.
Proof.
  unfold next_of, set_prev. destruct (decide (x = p)) as [->|]; [rewrite lookup_alter_eq; by destruct (h !! p)|by rewrite lookup_alter_ne].
Qed.

Lemma prev_set_next (p q x : Z) (h : gmap Z SnapshotImpl) : prev_of (set_next p q h) x = prev_of h x.
Proof.
  unfold prev_of, set_next. destruct (decide (x = p)) as [->|]; [rewrite lookup_alter_eq; by destruct (h !! p)|by rewrite lookup_alter_ne].
Qed.

Lemma seq_set (p q x : Z) (h : gmap Z SnapshotImpl) : seq_of (set_prev p q h) x = seq_of h x /\ seq_of (set_next p q h) x = seq_of h x.
Proof.
  unfold seq_of, set_prev, set_next. destruct (decide (x = p)) as [->|]; [rewrite !lookup_alter_eq; by destruct (h !! p)|by rewrite !lookup_alter_ne].
Qed.

Lemma dom_set (p q : Z) (h : gmap Z SnapshotImpl) : dom (set_prev p q h) = dom h /\ dom (set_next p q h) = dom h.
Proof. unfold set_prev, set_next. by rewrite !dom_alter_L. Qed.

(** ** Chains *)

Fixpoint linked (h : gmap Z SnapshotImpl) (l : list Z) : Prop :=
  match l with
  | a :: ((b :: _) as l') => next_of h a = b /\ prev_of h b = a /\ linked h l'
  | _ => True
  end.

Lemma linked_app (h : gmap Z SnapshotImpl) (l1 l2 : list Z) (a : Z) : linked h (l1 ++ a :: l2) <-> linked h (l1 ++ [a]) /\ linked h (a :: l2).
Proof.
  induction l1 as [|x l1 IH]; [cbn; tauto|]. destruct l1 as [|y l1].
  - cbn. destruct l2; cbn; tauto.
  - change ((x :: y :: l1) ++ a :: l2) with (x :: (y :: l1) ++ a :: l2). change ((x :: y :: l1) ++ [a]) with (x :: (y :: l1) ++ [a]).
    cbn [app] in *. cbn [linked]. cbn [app] in IH. tauto.
Qed.

(** A chain stays when the next fields of all but its last and the previous fields
    of all but its first stay. *)
Lemma linked_frame (h h' : gmap Z SnapshotImpl) (l : list Z) :
  (forall a, a ∈ removelast l -> next_of h' a = next_of h a) -> (forall b, b ∈ tail l -> prev_of h' b = prev_of h b) -> linked h l -> linked h' l.
Proof.
  induction l as [|a [|b l] IH]; [done|done|]. intros Hn Hp (H1 & H2 & H3). cbn [linked]. split_and!.
  - rewrite Hn; [done|by left].
  - rewrite Hp; [done|by left].
  - apply IH; [|intros x Hx; apply Hp; by right|done]. intros x Hx. apply Hn. by right.
Qed.

(** ** The invariant: [live] are the snapshots with their sequence numbers, in order *)

Record SnapInv (s : SnapshotList) (live : list (Z * SequenceNumber)) : Prop := {
  si_dom : dom (sl_nodes s) = {[head_]} ∪ list_to_set (map fst live);
  si_nodup : NoDup (head_ :: map fst live);
  si_linked : linked (sl_nodes s) (head_ :: map fst live ++ [head_]);
  si_seq : forall p q, (p, q) ∈ live -> seq_of (sl_nodes s) p = q;
  si_new : forall p, p ∈ head_ :: map fst live -> p < sl_new s;
  si_sorted : StronglySorted Z.le (map snd live)
}.

Lemma SnapInv_new : SnapInv newSnapshotList [].
Proof.
  split; [by vm_compute|apply NoDup_singleton|by vm_compute|by intros p q H%not_elem_of_nil| |constructor].
  intros p ->%list_elem_of_singleton. done.
Qed.

Lemma si_node (s : SnapshotList) (live : list (Z * SequenceNumber)) (p : Z) : SnapInv s live -> p ∈ head_ :: map fst live -> is_Some (sl_nodes s !! p).
Proof. intros HI Hp. apply elem_of_dom. rewrite (si_dom _ _ HI). apply elem_of_cons in Hp as [->|Hp]; set_solver. Qed.

(** The last node of a non-empty chain. *)
Lemma chain_last (a : Z) (l : list Z) : exists pre y, a :: l = pre ++ [y].
Proof. destruct (exists_last (l := a :: l)) as (pre & y & E); [done|]. eauto. Qed.

Lemma removelast_snoc (l : list Z) (a : Z) : removelast (l ++ [a]) = l.
Proof. apply removelast_last. Qed.

(** What the stores of [New] and [Delete] leave in the fields. *)
Lemma sl_New_fields (s : SnapshotList) (sequence : SequenceNumber) (x y : Z) :
  x = sl_new s -> y = prev_of (sl_nodes s) head_ -> x <> head_ -> x <> y -> is_Some (sl_nodes s !! head_) -> is_Some (sl_nodes s !! y) ->
  let h' := sl_nodes (snd (sl_New sequence s)) in
  (forall p, next_of h' p = if decide (p = y) then x else if decide (p = x) then head_ else next_of (sl_nodes s) p) /\
  (forall p, prev_of h' p = if decide (p = head_) then x else if decide (p = x) then y else prev_of (sl_nodes s) p) /\
  (forall p, seq_of h' p = if decide (p = x) then sequence else seq_of (sl_nodes s) p) /\ dom h' = {[x]} ∪ dom (sl_nodes s).
Proof.
  intros Ex Ey Hxh Hxy Hhd Hyd. unfold sl_New. rewrite <- Ex. cbn [snd sl_nodes]. set (h0 := <[x := _]> (sl_nodes s)).
  assert (forall p, p <> x -> h0 !! p = sl_nodes s !! p) as Hh0 by (intros p Hp; by apply lookup_insert_ne).
  assert (is_Some (h0 !! x) /\ is_Some (h0 !! y) /\ is_Some (h0 !! head_)) as (Hx0 & Hy0 & Hd0).
  { rewrite (Hh0 y), (Hh0 head_) by done. unfold h0. rewrite lookup_insert_eq. eauto. }
  set (h1 := set_next x head_ h0). assert (prev_of h1 head_ = y) as E1 by (unfold h1; rewrite prev_set_next; unfold prev_of; by rewrite Hh0).
  rewrite E1. set (h2 := set_prev x y h1).
  assert (dom h1 = dom h0 /\ dom h2 = dom h0) as [Hd1 Hd2] by (unfold h2; rewrite (proj1 (dom_set _ _ _)); unfold h1; by rewrite (proj2 (dom_set _ _ _))).
  assert (prev_of h2 x = y) as E2.
  { unfold h2. rewrite prev_set_prev by (apply elem_of_dom; rewrite Hd1; by apply elem_of_dom). by rewrite decide_True. }
  rewrite E2. set (h3 := set_next y x h2). assert (dom h3 = dom h0) as Hd3 by (unfold h3; by rewrite (proj2 (dom_set _ _ _))).
  assert (forall p, next_of h3 p = if decide (p = y) then x else if decide (p = x) then head_ else next_of h0 p) as Hnext.
  { intros p. unfold h3. rewrite next_set_next by (apply elem_of_dom; rewrite Hd2; by apply elem_of_dom). case_decide; [done|].
    unfold h2. rewrite next_set_prev. unfold h1. by rewrite next_set_next. }
  assert (next_of h3 x = head_) as E3 by (rewrite Hnext; by repeat case_decide). rewrite E3. set (h4 := set_prev head_ x h3). split_and!.
  - intros p. unfold h4. rewrite next_set_prev, Hnext. repeat case_decide; [done..|]. unfold next_of. by rewrite Hh0.
  - intros p. unfold h4. rewrite prev_set_prev by (apply elem_of_dom; rewrite Hd3; by apply elem_of_dom). case_decide; [done|]. unfold h3. rewrite prev_set_next.
    unfold h2. rewrite prev_set_prev by (apply elem_of_dom; rewrite Hd1; by apply elem_of_dom). case_decide; [done|].
    unfold h1. rewrite prev_set_next. unfold prev_of. by rewrite Hh0.
  - intros p. unfold h4, h3, h2, h1. rewrite (proj1 (seq_set _ _ _ _)), (proj2 (seq_set _ _ _ _)), (proj1 (seq_set _ _ _ _)), (proj2 (seq_set _ _ _ _)).
    unfold seq_of. case_decide as Ep; [subst p; unfold h0; by rewrite lookup_insert_eq|by rewrite Hh0].
  - unfold h4. rewrite (proj1 (dom_set _ _ _)), Hd3. unfold h0. by rewrite dom_insert_L.
Qed.

Lemma sl_Delete_fields (s : SnapshotList) (x p n : Z) :
  p = prev_of (sl_nodes s) x -> n = next_of (sl_nodes s) x -> x <> p -> is_Some (sl_nodes s !! p) -> is_Some (sl_nodes s !! n) ->
  let h' := sl_nodes (sl_Delete x s) in
  (forall a, a <> x -> next_of h' a = if decide (a = p) then n else next_of (sl_nodes s) a) /\
  (forall a, a <> x -> prev_of h' a = if decide (a = n) then p else prev_of (sl_nodes s) a) /\
  (forall a, a <> x -> seq_of h' a = seq_of (sl_nodes s) a) /\ dom h' = dom (sl_nodes s) ∖ {[x]}.
Proof.
  intros Ep En Hxp Hp Hn. unfold sl_Delete. rewrite <- Ep, <- En. cbn [sl_nodes]. set (h1 := set_next p n (sl_nodes s)).
  assert (dom h1 = dom (sl_nodes s)) as Hd1 by (unfold h1; by rewrite (proj2 (dom_set _ _ _))).
  assert (next_of h1 x = n) as E1 by (unfold h1; rewrite next_set_next by done; by rewrite decide_False).
  assert (prev_of h1 x = p) as E2 by (unfold h1; by rewrite prev_set_next). rewrite E1, E2. set (h2 := set_prev n p h1).
  assert (forall a, a <> x -> delete x h2 !! a = h2 !! a) as Hd by (intros a Ha; by apply lookup_delete_ne).
  split_and!; [| | |unfold h2; by rewrite dom_delete_L, (proj1 (dom_set _ _ _)), Hd1].
  - intros a Ha. unfold next_of at 1. rewrite Hd by done. fold (next_of h2 a). unfold h2. rewrite next_set_prev. unfold h1. by rewrite next_set_next.
  - intros a Ha. unfold prev_of at 1. rewrite Hd by done. fold (prev_of h2 a). unfold h2. rewrite prev_set_prev by (apply elem_of_dom; rewrite Hd1; by apply elem_of_dom).
    case_decide; [done|]. unfold h1. by rewrite prev_set_next.
  - intros a Ha. unfold seq_of at 1. rewrite Hd by done. fold (seq_of h2 a). unfold h2, h1. by rewrite (proj1 (seq_set _ _ _ _)), (proj2 (seq_set _ _ _ _)).
Qed.

Lemma sl_New_inv (s : SnapshotList) (live : list (Z * SequenceNumber)) (sequence : SequenceNumber) :
  SnapInv s live -> (forall p q, (p, q) ∈ live -> q <= sequence) ->
  SnapInv (snd (sl_New sequence s)) (live ++ [(fst (sl_New sequence s), sequence)]) /\ fst (sl_New sequence s) ∉ head_ :: map fst live.
Proof.
  intros HI Hseq. change (fst (sl_New sequence s)) with (sl_new s). set (x := sl_new s). set (h' := sl_nodes (snd (sl_New sequence s))).
  assert (x ∉ head_ :: map fst live) as Hx by (intros Hx; apply (si_new _ _ HI) in Hx; lia).
  destruct (chain_last head_ (map fst live)) as (pre & y & El).
  assert (y ∈ head_ :: map fst live) as Hy by (rewrite El; apply elem_of_app; right; by left).
  pose proof (si_linked _ _ HI) as HL. change (head_ :: map fst live ++ [head_]) with ((head_ :: map fst live) ++ [head_]) in HL.
  rewrite El, <- app_assoc in HL. apply linked_app in HL as [HL1 (_ & Hhp & _)].
  assert (x <> head_ /\ x <> y) as [Hxh Hxy] by (split; intros E; apply Hx; [rewrite E; by left|by rewrite E]).
  destruct (sl_New_fields s sequence x y eq_refl (eq_sym Hhp)) as (Hnext & Hprev & Hsq & Hdom); [done|done|apply (si_node s live); [done|by left]|by apply (si_node s live)|].
  fold h' in Hnext, Hprev, Hsq, Hdom. assert (NoDup (pre ++ [y])) as Hnd by (rewrite <- El; apply HI).
  pose proof (si_nodup _ _ HI) as Hn0. apply NoDup_cons in Hn0 as [Hn0 _].
  assert (map fst (live ++ [(x, sequence)]) = map fst live ++ [x]) as Em by (rewrite map_app; done).
  assert (forall p, p ∈ pre -> p <> x /\ p <> y) as Hpre.
  { intros p Hp. split; intros ->; [apply Hx; rewrite El; apply elem_of_app; by left|]. apply NoDup_app in Hnd as (_ & Hnd & _). apply (Hnd y Hp). by left. }
  split; [|done]. split; fold h'; cbn [sl_New snd sl_new]; fold x.
  - rewrite Hdom, (si_dom _ _ HI), Em, list_to_set_app_L. cbn. set_solver.
  - rewrite Em. change (head_ :: map fst live ++ [x]) with ((head_ :: map fst live) ++ [x]). apply NoDup_app. split_and!; [apply HI| |apply NoDup_singleton].
    intros p Hp ->%list_elem_of_singleton. done.
  - rewrite Em, <- app_assoc. change (head_ :: map fst live ++ [x] ++ [head_]) with ((head_ :: map fst live) ++ [x; head_]). rewrite El, <- app_assoc. cbn [app].
    apply linked_app. split; [|cbn [linked]; rewrite !Hnext, !Hprev; repeat case_decide; done]. eapply linked_frame; [| |exact HL1].
    + intros a Ha. rewrite removelast_snoc in Ha. destruct (Hpre a Ha). by rewrite Hnext, !decide_False.
    + intros b Hb. rewrite <- El in Hb. cbn [tail] in Hb. rewrite Hprev, !decide_False; [done|set_solver|set_solver].
  - intros p q Hp. rewrite Hsq. apply elem_of_app in Hp as [Hp|Hp%list_elem_of_singleton]; [|injection Hp as -> ->; by rewrite decide_True].
    rewrite decide_False; [by apply (si_seq _ _ HI)|]. intros ->. apply Hx. right. apply list_elem_of_fmap. by exists (x, q).
  - intros p Hp. rewrite Em in Hp. change (head_ :: map fst live ++ [x]) with ((head_ :: map fst live) ++ [x]) in Hp.
    apply elem_of_app in Hp as [Hp|Hp%list_elem_of_singleton]; [apply (si_new _ _ HI) in Hp; unfold x; lia|lia].
  - rewrite map_app. cbn. apply StronglySorted_app. split_and!; [|apply HI|repeat constructor].
    intros q q' (pq & -> & Hpq)%list_elem_of_fmap ->%list_elem_of_singleton. destruct pq as [p q]. by apply (Hseq p q).
Qed.

Lemma sl_Delete_inv (s : SnapshotList) (l1 l2 : list (Z * SequenceNumber)) (x : Z) (q : SequenceNumber) :
  SnapInv s (l1 ++ (x, q) :: l2) -> SnapInv (sl_Delete x s) (l1 ++ l2).
Proof.
  intros HI. set (live := l1 ++ (x, q) :: l2) in *. set (h' := sl_nodes (sl_Delete x s)).
  assert (map fst live = map fst l1 ++ x :: map fst l2) as Em by (unfold live; by rewrite map_app).
  destruct (chain_last head_ (map fst l1)) as (pre & p & E1).
  assert (exists n post, map fst l2 ++ [head_] = n :: post) as (n & post & E2) by (destruct (map fst l2); cbn; eauto).
  pose proof (si_linked _ _ HI) as HL. pose proof (si_nodup _ _ HI) as Hnd. rewrite Em in HL, Hnd.
  replace (head_ :: (map fst l1 ++ x :: map fst l2) ++ [head_]) with (pre ++ p :: x :: n :: post) in HL.
  2: { rewrite <- E2, <- app_assoc. cbn [app]. change (head_ :: map fst l1 ++ ?l) with ((head_ :: map fst l1) ++ l). by rewrite E1, <- app_assoc. }
  replace (head_ :: map fst l1 ++ x :: map fst l2) with ((pre ++ [p]) ++ x :: map fst l2) in Hnd by (by rewrite <- E1).
  apply linked_app in HL as [HL1 (Hpn & Hxp & Hxn & Hnp & HL2)]. apply NoDup_app in Hnd as (Hnd1 & Hdis & [Hx2 Hnd2]%NoDup_cons).
  assert (p ∈ head_ :: map fst live) as Hp by (rewrite Em; change (head_ :: map fst l1 ++ ?l) with ((head_ :: map fst l1) ++ l); rewrite E1; clear; set_solver).
  assert (n ∈ head_ :: map fst live) as Hn by (rewrite Em; assert (n ∈ map fst l2 ++ [head_]) as Hn' by (rewrite E2; by left); clear -Hn'; set_solver).
  assert (forall a, a ∈ pre ++ [p] -> a <> x /\ a ∉ map fst l2) as Hd by (intros a Ha; specialize (Hdis a Ha); clear -Hdis; set_solver).
  assert (head_ ∈ pre ++ [p]) as Hh by (rewrite <- E1; by left).
  destruct (sl_Delete_fields s x p n (eq_sym Hxp) (eq_sym Hxn)) as (Hnext & Hprev & Hsq & Hdom); [|by apply (si_node s live)..|]; [destruct (Hd p); [clear; set_solver|done]|].
  fold h' in Hnext, Hprev, Hsq, Hdom. assert (x ∉ map fst l1 /\ x <> head_) as [Hx1 Hxh] by (split; [intros Hx; assert (x ∈ pre ++ [p]) as Hb by (rewrite <- E1; by right); by destruct (Hd x Hb)|intros ->; by destruct (Hd _ Hh)]).
  assert (removelast (n :: post) = map fst l2) as Er by (rewrite <- E2; apply removelast_last).
  assert (n <> x /\ n ∉ map fst l1 /\ n ∉ post) as (Hnx & Hn1 & Hnpost).
  { assert (head_ ∉ map fst l1) as Hh1 by (rewrite <- E1 in Hnd1; by apply NoDup_cons in Hnd1 as [? _]). destruct (map fst l2) as [|a l] eqn:El.
    - injection E2 as <- <-. split_and!; [done|done|set_solver].
    - injection E2 as <- <-. apply NoDup_cons in Hnd2 as [Hnd2 _]. split_and!; [intros ->; apply Hx2; by left| |].
      + intros Ha. assert (a ∈ pre ++ [p]) as Hb by (rewrite <- E1; by right). destruct (Hd a Hb) as [_ Ha']. apply Ha'. by left.
      + intros [Ha|Ha%list_elem_of_singleton]%elem_of_app; [done|]. destruct (Hd _ Hh) as [_ Hd']. apply Hd'. rewrite <- Ha. by left. }
  assert (map fst (l1 ++ l2) = map fst l1 ++ map fst l2) as Em' by apply map_app.
  assert (p ∈ pre ++ [p] /\ p <> x) as [Hpp Hpx] by (split; [clear; set_solver|]; destruct (Hd p); [clear; set_solver|done]).
  split; fold h'; change (sl_new (sl_Delete x s)) with (sl_new s).
  - rewrite Hdom, (si_dom _ _ HI), Em, Em', !list_to_set_app_L. cbn. clear -Hx1 Hx2 Hxh. set_solver.
  - rewrite Em'. change (head_ :: map fst l1 ++ map fst l2) with ((head_ :: map fst l1) ++ map fst l2). rewrite E1. apply NoDup_app. split_and!; [done|by apply Hd|done].
  - rewrite Em', <- app_assoc, E2. change (head_ :: map fst l1 ++ n :: post) with ((head_ :: map fst l1) ++ n :: post). rewrite E1, <- app_assoc. cbn [app].
    apply linked_app. split; [|change (next_of h' p = n /\ prev_of h' n = p /\ linked h' (n :: post)); split_and!].
    + eapply linked_frame; [| |exact HL1].
      * intros a Ha. rewrite removelast_snoc in Ha. rewrite Hnext by (apply Hd; clear -Ha; set_solver). rewrite decide_False; [done|]. intros ->.
        apply NoDup_app in Hnd1 as (_ & Hnd1 & _). apply (Hnd1 p Ha). by left.
      * intros b Hb. rewrite <- E1 in Hb. cbn [tail] in Hb. rewrite Hprev by (intros ->; done). rewrite decide_False; [done|]. by intros ->.
    + rewrite Hnext by done. by rewrite decide_True.
    + rewrite Hprev by done. by rewrite decide_True.
    + change (linked (sl_nodes s) (n :: post)) in HL2. eapply linked_frame; [| |exact HL2].
      * intros a Ha. rewrite Er in Ha. rewrite Hnext by (intros ->; done). rewrite decide_False; [done|]. intros ->. by destruct (Hd p Hpp).
      * intros b Hb. cbn [tail] in Hb. rewrite Hprev; [by rewrite decide_False by (intros ->; done)|]. intros ->.
        assert (x ∈ map fst l2 ++ [head_]) as Hb' by (rewrite E2; by right). clear -Hb' Hx2 Hxh. set_solver.
  - intros a r Ha. assert ((a, r) ∈ live) as Ha' by (unfold live; clear -Ha; set_solver). rewrite Hsq; [by apply (si_seq _ _ HI)|]. intros ->.
    apply elem_of_app in Ha as [Ha|Ha]; [apply Hx1|apply Hx2]; apply list_elem_of_fmap; by exists (x, r).
  - intros a Ha. apply (si_new _ _ HI). rewrite Em. rewrite Em' in Ha. clear -Ha. set_solver.
  - pose proof (si_sorted _ _ HI) as HS. unfold live in HS. rewrite map_app in HS |- *. cbn [map] in HS.
    apply StronglySorted_app in HS as (H1 & H2 & [H3 H4]%StronglySorted_inv). apply StronglySorted_app. split_and!; [clear -H1; set_solver|done|done].
Qed.

(** ** Walking the list *)

Lemma walk_next (h : gmap Z SnapshotImpl) (l : list Z) (p : Z) (fuel : nat) :
  linked h (p :: l ++ [head_]) -> head_ ∉ l -> (length l < fuel)%nat -> walk fuel (next_of h) (next_of h p) = l.
Proof.
  revert p fuel. induction l as [|a l IH]; intros p [|fuel] HL Hh Hf; cbn [length] in Hf; try lia.
  - destruct HL as (-> & _). done.
  - destruct HL as (-> & _ & HL). cbn [walk]. destruct (Z.eqb_spec a head_) as [->|]; [set_solver|]. f_equal. apply IH; [done|set_solver|lia].
Qed.

Lemma walk_prev (h : gmap Z SnapshotImpl) (l : list Z) (p : Z) (fuel : nat) :
  linked h (head_ :: l ++ [p]) -> head_ ∉ l -> (length l < fuel)%nat -> walk fuel (prev_of h) (prev_of h p) = rev l.
Proof.
  revert p fuel. induction l as [|a l IH] using rev_ind; intros p [|fuel] HL Hh Hf; rewrite ?length_app in Hf; cbn [length] in Hf; try lia.
  - destruct HL as (_ & -> & _). done.
  - rewrite <- app_assoc in HL. change (head_ :: l ++ [a] ++ [p]) with ((head_ :: l) ++ a :: [p]) in HL. apply linked_app in HL as [HL (_ & -> & _)].
    cbn [walk]. destruct (Z.eqb_spec a head_) as [->|]; [set_solver|]. rewrite rev_app_distr. cbn. f_equal. apply IH; [done|set_solver|lia].
Qed.

Lemma si_size (s : SnapshotList) (live : list (Z * SequenceNumber)) : SnapInv s live -> size (sl_nodes s) = S (length live).
Proof.
  intros HI. rewrite <- size_dom, (si_dom _ _ HI). pose proof (si_nodup _ _ HI) as [Hh Hnd]%NoDup_cons.
  rewrite size_union by set_solver. rewrite size_singleton, size_list_to_set by done. by rewrite length_map.
Qed.

(** ** Any use of the list *)

(** What [GetSnapshot] and the deleter of a snapshot do: snapshots are taken at the
    last sequence number, which does not go down, and a live one is released. *)
Inductive snapshot_steps : SnapshotList -> list (Z * SequenceNumber) -> Prop :=
  | steps_start : snapshot_steps newSnapshotList []
  | steps_New s live sequence : snapshot_steps s live -> (forall p q, (p, q) ∈ live -> q <= sequence) ->
      snapshot_steps (snd (sl_New sequence s)) (live ++ [(fst (sl_New sequence s), sequence)])
  | steps_Delete s l1 l2 p q : snapshot_steps s (l1 ++ (p, q) :: l2) -> snapshot_steps (sl_Delete p s) (l1 ++ l2).

(** The oldest snapshot has the smallest sequence number. *)
Lemma sl_oldest (s : SnapshotList) (live : list (Z * SequenceNumber)) : SnapInv s live ->
  (live = [] /\ sl_empty s = true) \/ exists p q rest, live = (p, q) :: rest /\ sl_empty s = false /\ seq_of (sl_nodes s) (oldest s) = q.
Proof.
  intros HI. pose proof (si_linked _ _ HI) as Hl. unfold sl_empty, oldest. destruct live as [|[p q] rest]; [left|right]; cbn in Hl; destruct Hl as (-> & _).
  - split; [done|by rewrite Z.eqb_refl].
  - exists p, q, rest. split; [done|]. split; [|apply (si_seq _ _ HI); by left]. apply Z.eqb_neq. pose proof (si_nodup _ _ HI) as Hn. apply NoDup_cons in Hn as [Hn _].
    intros ->. apply Hn. by left.
Qed.

Lemma snapshot_steps_inv (s : SnapshotList) (live : list (Z * SequenceNumber)) : snapshot_steps s live -> SnapInv s live.
Proof. induction 1; [apply SnapInv_new|by apply sl_New_inv|by eapply sl_Delete_inv]. Qed.

(** C38. The snapshot list is the list of live snapshots: after snapshots were taken
    and released in any order, following the next pointers from the head gives the
    live ones in the order they were taken and following the previous pointers gives
    them in reverse, each with its sequence number, and the list is empty exactly
    when none is live; otherwise [oldest] is a live snapshot and no live one has a
    smaller sequence number, and [newest] is one and no live one has a larger. *)
Theorem snapshot_list_ordered (s : SnapshotList) (live : list (Z * SequenceNumber)) :
  snapshot_steps s live ->
  snapshots s = map fst live /\ snapshots_rev s = rev (map fst live) /\ (forall p q, (p, q) ∈ live -> seq_of (sl_nodes s) p = q) /\
  (sl_empty s = true <-> live = []) /\
  (live <> [] -> (oldest s, seq_of (sl_nodes s) (oldest s)) ∈ live /\ (newest s, seq_of (sl_nodes s) (newest s)) ∈ live /\
     forall p q, (p, q) ∈ live -> seq_of (sl_nodes s) (oldest s) <= q <= seq_of (sl_nodes s) (newest s)).
Proof.
  intros HI%snapshot_steps_inv. pose proof (si_linked _ _ HI) as HL. pose proof (si_nodup _ _ HI) as [Hh _]%NoDup_cons. unfold snapshots, snapshots_rev, sl_empty.
  rewrite (si_size s live HI). split_and!; [apply walk_next; [done|done|rewrite length_map; lia]|apply walk_prev; [done|done|rewrite length_map; lia]|apply HI| |].
  - split; [|intros ->; destruct HL as (E & _); by apply Z.eqb_eq].
    intros E%Z.eqb_eq. destruct live as [|[p q] live]; [done|]. destruct HL as (E' & _). destruct Hh. rewrite <- E, E'. by left.
  - intros Hne. pose proof (si_sorted _ _ HI) as HS.
    assert (exists q l, live = (oldest s, q) :: l) as (q0 & l0 & E0) by (destruct live as [|[p q] live]; [done|]; destruct HL as (E & _); exists q, live; unfold oldest; by rewrite E).
    assert (exists q l, live = l ++ [(newest s, q)]) as (q1 & l1 & E1).
    { destruct (exists_last Hne) as (l & [p q] & ->). rewrite map_app in HL. cbn [map] in HL. rewrite <- app_assoc in HL.
      change (head_ :: map fst l ++ [fst (p, q)] ++ [head_]) with ((head_ :: map fst l) ++ p :: [head_]) in HL. apply linked_app in HL as [_ (_ & E & _)].
      exists q, l. unfold newest. by rewrite E. }
    assert ((oldest s, q0) ∈ live) as H0 by (rewrite E0; by left). assert ((newest s, q1) ∈ live) as H1 by (rewrite E1; apply elem_of_app; right; by left).
    rewrite (si_seq _ _ HI _ _ H0), (si_seq _ _ HI _ _ H1). split_and!; [done|done|]. intros p q Hp. split.
    + rewrite E0 in Hp, HS. apply StronglySorted_inv in HS as [_ HS]. apply elem_of_cons in Hp as [[= -> ->]|Hp]; [lia|].
      rewrite Forall_forall in HS. apply HS, list_elem_of_fmap. by exists (p, q).
    + rewrite E1, map_app in HS. apply StronglySorted_app in HS as (HS & _). rewrite E1 in Hp. apply elem_of_app in Hp as [Hp|Hp%list_elem_of_singleton]; [|injection Hp as -> ->; lia].
      apply HS; [apply list_elem_of_fmap; by exists (p, q)|by left].
Qed.

(** Three snapshots, the first and then the middle one released. *)
Lemma snapshot_list_ordered_witness :
  let s3 := snd (sl_New 9 (snd (sl_New 7 (snd (sl_New 4 newSnapshotList))))) in
  snapshots (sl_Delete 1 s3) = [2; 3] /\ snapshots_rev (sl_Delete 1 s3) = [3; 2] /\ seq_of (sl_nodes s3) (oldest (sl_Delete 1 s3)) = 7.
Proof.
  intros s3. assert (snapshot_steps (sl_Delete 1 s3) [(2, 7); (3, 9)]) as Hs.
  { apply (steps_Delete s3 [] [(2, 7); (3, 9)] 1 4). apply (steps_New (snd (sl_New 7 (snd (sl_New 4 newSnapshotList)))) [(1, 4); (2, 7)] 9).
    - apply (steps_New (snd (sl_New 4 newSnapshotList)) [(1, 4)] 7); [apply (steps_New newSnapshotList [] 4); [constructor|]|].
      + intros p q H%not_elem_of_nil. done.
      + intros p q H%list_elem_of_singleton. injection H as -> ->. lia.
    - intros p q H. rewrite !elem_of_cons, elem_of_nil in H. destruct H as [[= -> ->]|[[= -> ->]|[]]]; lia. }
  destruct (snapshot_list_ordered _ _ Hs) as (H1 & H2 & _). split_and!; [exact H1|exact H2|reflexivity].
Defined.
