(* ===== verification/Arena.v ===== *)
(** * Arena: bump allocation for memtables ([util/arena.h], [util/arena.cc])

    Addresses are integers.  [new char[n]] is the interface [Malloc]: it returns
    fresh memory, aligned for any object.  The arena hands out pieces of its blocks;
    no two of them overlap, whatever is asked for. *)

From S2P Require Import Prelude.

Class Malloc (A : Type) := { malloc : Z -> A -> Z * A }.

(** [m_live] are the blocks in use, with their sizes. *)
Class MallocLaws (A : Type) `{Malloc A} := {
  m_live : A -> list (Z * Z);
  malloc_spec : forall n a, 0 < n -> exists p a', malloc n a = (p, a') /\ m_live a' = (p, n) :: m_live a /\
    0 < p /\ Z.land p 15 = 0 /\ forall q m, (q, m) ∈ m_live a -> p + n <= q \/ q + m <= p
}.

Definition kArenaBlockSize : Z := 4096.
Definition sizeof_unique_ptr : Z := 8.

Record Arena := mkArena { alloc_ptr_ : Z; alloc_bytes_remaining_ : Z; blocks_ : list Z; memory_usage_ : Z }.

Definition newArena : Arena := mkArena 0 0 [] 0.
Definition MemoryUsage (ar : Arena) : Z := memory_usage_ ar.

Section ArenaDef.
Context {A : Type} `{Malloc A}.

Definition AllocateNewBlock (block_bytes : Z) (ar : Arena) (heap : A) : Z * Arena * A :=
  let '(result, heap) := malloc block_bytes heap in
  (result, mkArena (alloc_ptr_ ar) (alloc_bytes_remaining_ ar) (blocks_ ar ++ [result]) (u64 (memory_usage_ ar + u64 (block_bytes + sizeof_unique_ptr))), heap).

(** [alloc_ptr_ += bytes; alloc_bytes_remaining_ -= bytes] *)
Definition bump (n : Z) (ar : Arena) : Arena :=
  mkArena (alloc_ptr_ ar + n) (u64 (alloc_bytes_remaining_ ar - n)) (blocks_ ar) (memory_usage_ ar).

Definition AllocateFallback (n : Z) (ar : Arena) (heap : A) : Z * Arena * A :=
  if kArenaBlockSize / 4 <? n then AllocateNewBlock n ar heap
  else
    let '(block, ar, heap) := AllocateNewBlock kArenaBlockSize ar heap in
    let ar := mkArena block kArenaBlockSize (blocks_ ar) (memory_usage_ ar) in
    (alloc_ptr_ ar, bump n ar, heap).

Definition Allocate (n : Z) (ar : Arena) (heap : A) : Z * Arena * A :=
  if n <=? alloc_bytes_remaining_ ar then (alloc_ptr_ ar, bump n ar, heap) else AllocateFallback n ar heap.

Definition align : Z := 8.

Definition AllocateAligned (n : Z) (ar : Arena) (heap : A) : Z * Arena * A :=
  let current_mod := Z.land (alloc_ptr_ ar) (align - 1) in
  let slop := if current_mod =? 0 then 0 else align - current_mod in
  let needed := u64 (n + slop) in
  if needed <=? alloc_bytes_remaining_ ar then (alloc_ptr_ ar + slop, bump needed ar, heap) else AllocateFallback n ar heap.
End ArenaDef.

(** ** The invariant *)

Definition inside (x block : Z * Z) : Prop := fst block <= fst x /\ fst x + snd x <= fst block + snd block.
Definition disjoint_ranges (x y : Z * Z) : Prop := fst x + snd x <= fst y \/ fst y + snd y <= fst x.

#[export] Instance disjoint_ranges_sym : Symmetric disjoint_ranges.
Proof. intros x y. unfold disjoint_ranges. lia. Qed.

Lemma inside_disjoint (x y bx b : Z * Z) : inside x bx -> inside y b -> disjoint_ranges bx b -> disjoint_ranges x y.
Proof. unfold inside, disjoint_ranges. lia. Qed.

Section ArenaSpec.
Context {A : Type} `{MallocLaws A} (heap0 : A).

(** What was asked for, with at most seven bytes of alignment for each piece. *)
Definition asked (pieces : list (Z * Z)) : Z := foldr (fun x n => snd x + (align - 1) + n) 0 pieces.

(** [owned] are the blocks of the arena, newest first, [given] the pieces handed out. *)
Record ArenaInv (ar : Arena) (heap : A) (owned given : list (Z * Z)) : Prop := {
  ai_live : m_live heap = owned ++ m_live heap0;
  ai_blocks : blocks_ ar = rev (map fst owned);
  ai_room : 0 <= alloc_bytes_remaining_ ar <= kArenaBlockSize;
  ai_current : 0 < alloc_bytes_remaining_ ar ->
    (exists b, b ∈ owned /\ inside (alloc_ptr_ ar, alloc_bytes_remaining_ ar) b) /\ Forall (disjoint_ranges (alloc_ptr_ ar, alloc_bytes_remaining_ ar)) given;
  ai_given : Forall (fun x => exists b, b ∈ owned /\ inside x b) given;
  ai_disjoint : ForallOrdPairs disjoint_ranges given;
  ai_usage : memory_usage_ ar = u64 (foldr (fun b n => snd b + sizeof_unique_ptr + n) 0 owned);
  ai_economy : foldr (fun b n => snd b + n) 0 owned <= 2 * asked given + alloc_bytes_remaining_ ar
}.

Lemma newArena_inv : ArenaInv newArena heap0 [] [].
Proof. split; cbn; try done; try constructor; unfold kArenaBlockSize; lia. Qed.

(** A new block lies apart from everything handed out. *)
Lemma AllocateNewBlock_spec (n : Z) (ar : Arena) (heap : A) (owned given : list (Z * Z)) :
  0 < n -> n + sizeof_unique_ptr < 2 ^ 64 -> ArenaInv ar heap owned given ->
  exists p ar' heap', AllocateNewBlock n ar heap = (p, ar', heap') /\ (forall ar2 given2, blocks_ ar2 = blocks_ ar' -> memory_usage_ ar2 = memory_usage_ ar' ->
      0 <= alloc_bytes_remaining_ ar2 <= kArenaBlockSize ->
      (0 < alloc_bytes_remaining_ ar2 -> (exists b, b ∈ (p, n) :: owned /\ inside (alloc_ptr_ ar2, alloc_bytes_remaining_ ar2) b) /\ Forall (disjoint_ranges (alloc_ptr_ ar2, alloc_bytes_remaining_ ar2)) given2) ->
      Forall (fun x => exists b, b ∈ (p, n) :: owned /\ inside x b) given2 -> ForallOrdPairs disjoint_ranges given2 ->
      n + foldr (fun b n => snd b + n) 0 owned <= 2 * asked given2 + alloc_bytes_remaining_ ar2 -> ArenaInv ar2 heap' ((p, n) :: owned) given2) /\
    alloc_ptr_ ar' = alloc_ptr_ ar /\ alloc_bytes_remaining_ ar' = alloc_bytes_remaining_ ar /\
    Z.land p 7 = 0 /\ forall x b, b ∈ owned -> inside x b -> disjoint_ranges x (p, n).
Proof.
  intros Hn Hbig HI. destruct (malloc_spec n heap Hn) as (p & heap' & Em & Hl & Hp & Hal & Hdis).
  unfold AllocateNewBlock. rewrite Em. eexists _, _, _. split; [reflexivity|]. cbn [alloc_ptr_ alloc_bytes_remaining_ blocks_ memory_usage_].
  split_and!; [|done|done| |].
  - intros ar2 given2 Eb Eu Hroom Hcur Hgiv Hdisj Heco. split; [by rewrite Hl, (ai_live _ _ _ _ HI)| |done|done|done|done| |exact Heco].
    + rewrite Eb. cbn. by rewrite (ai_blocks _ _ _ _ HI).
    + rewrite Eu. cbn [foldr snd memory_usage_]. rewrite (ai_usage _ _ _ _ HI). unfold u64, wrap. rewrite Z.add_mod_idemp_l, Z.add_mod_idemp_r by done. f_equal. lia.
  - change 7 with (Z.land 15 7). by rewrite Z.land_assoc, Hal.
  - intros x [q m] Hb Hi. unfold inside, disjoint_ranges in *. cbn [fst snd] in *. destruct (Hdis q m) as [?|?]; [|lia|lia].
    rewrite (ai_live _ _ _ _ HI). apply elem_of_app. by left.
Qed.

(** Handing out the first [slop + n] bytes of the current block. *)
Lemma bump_spec (slop n : Z) (ar : Arena) (heap : A) (owned given : list (Z * Z)) :
  0 <= slop < align -> 0 < n -> slop + n <= alloc_bytes_remaining_ ar -> ArenaInv ar heap owned given ->
  ArenaInv (bump (slop + n) ar) heap owned ((alloc_ptr_ ar + slop, n) :: given).
Proof.
  unfold align. intros Hs Hn Hle HI. destruct (ai_room _ _ _ _ HI) as [Hr0 Hr1]. unfold kArenaBlockSize in Hr1. destruct (ai_current _ _ _ _ HI ltac:(lia)) as [(b & Hb & Hi) Hf].
  assert (u64 (alloc_bytes_remaining_ ar - (slop + n)) = alloc_bytes_remaining_ ar - (slop + n)) as Eu by (apply wrap_small; lia).
  unfold inside, disjoint_ranges in *. cbn [fst snd] in *.
  split; unfold bump; cbn [alloc_ptr_ alloc_bytes_remaining_ blocks_ memory_usage_]; rewrite ?Eu; [apply HI|apply HI|unfold kArenaBlockSize; lia| | | |apply HI|].
  - intros Hr. split; [exists b; split; [done|]; unfold inside; cbn; lia|]. constructor; [unfold disjoint_ranges; cbn; lia|].
    eapply Forall_impl; [exact Hf|]. intros [q m]. cbn. unfold disjoint_ranges. cbn. lia.
  - constructor; [exists b; split; [done|]; unfold inside; cbn; lia|apply HI].
  - constructor; [|apply HI]. eapply Forall_impl; [exact Hf|]. intros [q m]. cbn. unfold disjoint_ranges. cbn. lia.
  - pose proof (ai_economy _ _ _ _ HI) as He. cbn [asked foldr snd]. fold (asked given). unfold align. lia.
Qed.

Definition request_ok (n : Z) : Prop := 0 < n < 2 ^ 63.

Lemma AllocateFallback_spec (n : Z) (ar : Arena) (heap : A) (owned given : list (Z * Z)) :
  request_ok n -> alloc_bytes_remaining_ ar < n + align -> ArenaInv ar heap owned given ->
  exists p ar' heap' owned', AllocateFallback n ar heap = (p, ar', heap') /\ ArenaInv ar' heap' owned' ((p, n) :: given) /\ Z.land p 7 = 0.
Proof.
  intros Hn Hrest HI. pose proof (ai_economy _ _ _ _ HI) as He. pose proof (ai_room _ _ _ _ HI) as Hroom. unfold request_ok, AllocateFallback, align, kArenaBlockSize in *.
  assert (forall p x, (exists b, b ∈ owned /\ inside x b) -> exists b, b ∈ p :: owned /\ inside x b) as Hin by (intros p x (b & Hb & Hi); exists b; split; [by right|done]).
  destruct (Z.ltb_spec (4096 / 4) n) as [Hbig|Hsmall].
  - destruct (AllocateNewBlock_spec n ar heap owned given) as (p & ar' & heap' & -> & Hinv & Ep & Er & Hal & Hdis); [lia|unfold sizeof_unique_ptr; lia|done|].
    exists p, ar', heap', ((p, n) :: owned). split_and!; [done| |done]. apply Hinv; [done|done|rewrite Er; exact Hroom| | | |].
    + rewrite Ep, Er. intros Hr. destruct (ai_current _ _ _ _ HI Hr) as [(b & Hb & Hi) Hf]. split; [by apply Hin; exists b|]. constructor; [by eapply Hdis|done].
    + constructor; [exists (p, n); split; [by left|]; unfold inside; cbn; lia|]. eapply Forall_impl; [apply (ai_given _ _ _ _ HI)|]. intros x. apply Hin.
    + constructor; [|apply HI]. eapply Forall_impl; [apply (ai_given _ _ _ _ HI)|]. intros x (b & Hb & Hi). symmetry. by eapply Hdis.
    + rewrite Er. cbn [asked foldr snd]. fold (asked given). unfold align. lia.
  - destruct (AllocateNewBlock_spec 4096 ar heap owned given) as (p & ar' & heap' & -> & Hinv & _ & _ & Hal & Hdis); [lia|unfold sizeof_unique_ptr; lia|done|].
    set (ar2 := mkArena p 4096 (blocks_ ar') (memory_usage_ ar')). exists p, (bump n ar2), heap', ((p, 4096) :: owned). split_and!; [done| |done].
    assert (4096 / 4 = 1024) as E4 by reflexivity. assert (u64 (4096 - n) = 4096 - n) as Eu by (apply wrap_small; lia).
    apply Hinv; unfold bump; cbn [ar2 alloc_ptr_ alloc_bytes_remaining_ blocks_ memory_usage_]; rewrite ?Eu; [done|done|unfold kArenaBlockSize; lia| | | |].
    + intros _. split; [exists (p, 4096); split; [by left|]; unfold inside; cbn; lia|]. constructor; [unfold disjoint_ranges; cbn; lia|].
      eapply Forall_impl; [apply (ai_given _ _ _ _ HI)|]. intros x (b & Hbo & Hi). specialize (Hdis x b Hbo Hi). unfold disjoint_ranges in *. cbn [fst snd] in *. lia.
    + constructor; [exists (p, 4096); split; [by left|]; unfold inside; cbn; lia|]. eapply Forall_impl; [apply (ai_given _ _ _ _ HI)|]. intros x. apply Hin.
    + constructor; [|apply HI]. eapply Forall_impl; [apply (ai_given _ _ _ _ HI)|]. intros x (b & Hbo & Hi). specialize (Hdis x b Hbo Hi). unfold disjoint_ranges in *. cbn [fst snd] in *. lia.
    + cbn [asked foldr snd]. fold (asked given). unfold align. lia.
Qed.

(** A request, aligned or not. *)
Definition allocate (request : bool * Z) (ar : Arena) (heap : A) : Z * Arena * A :=
  if fst request then AllocateAligned (snd request) ar heap else Allocate (snd request) ar heap.

Lemma aligned_slop (a : Z) : let m := Z.land a 7 in 0 <= m < 8 /\ Z.land (a + (if m =? 0 then 0 else 8 - m)) 7 = 0.
Proof.
  cbv zeta. change 7 with (Z.ones 3). rewrite !Z.land_ones by lia. change (2 ^ 3) with 8. pose proof (Z.mod_pos_bound a 8 ltac:(lia)). split; [done|].
  destruct (Z.eqb_spec (a mod 8) 0) as [E|E]; [by rewrite Z.add_0_r|]. rewrite (Z.div_mod a 8) at 1 by lia.
  replace (8 * (a / 8) + a mod 8 + (8 - a mod 8)) with ((a / 8 + 1) * 8) by lia. apply Z.mod_mul. lia.
Qed.

Lemma allocate_spec (request : bool * Z) (ar : Arena) (heap : A) (owned given : list (Z * Z)) :
  request_ok (snd request) -> ArenaInv ar heap owned given ->
  exists p ar' heap' owned', allocate request ar heap = (p, ar', heap') /\ ArenaInv ar' heap' owned' ((p, snd request) :: given) /\
    (fst request = true -> Z.land p 7 = 0).
Proof.
  destruct request as [aligned n]. cbn [fst snd]. intros Hn HI. pose proof (ai_room _ _ _ _ HI) as Hr. unfold allocate, request_ok, kArenaBlockSize in *. cbn [fst snd]. destruct aligned.
  - unfold AllocateAligned. change (align - 1) with 7. destruct (aligned_slop (alloc_ptr_ ar)) as [Hm Ha]. unfold align. set (slop := if _ =? 0 then 0 else _) in *.
    assert (0 <= slop < 8) as Hs by (unfold slop; destruct (Z.eqb_spec (Z.land (alloc_ptr_ ar) 7) 0); lia).
    assert (u64 (n + slop) = slop + n) as -> by (rewrite Z.add_comm; apply wrap_small; lia).
    destruct (Z.leb_spec (slop + n) (alloc_bytes_remaining_ ar)) as [Hle|Hgt].
    + exists (alloc_ptr_ ar + slop), (bump (slop + n) ar), heap, owned. split_and!; [done|apply bump_spec; unfold align; done || lia|done].
    + destruct (AllocateFallback_spec n ar heap owned given Hn ltac:(unfold align; lia) HI) as (p & ar' & heap' & owned' & Ef & HI' & Hal). exists p, ar', heap', owned'. done.
  - unfold Allocate. destruct (Z.leb_spec n (alloc_bytes_remaining_ ar)) as [Hle|Hgt].
    + exists (alloc_ptr_ ar), (bump n ar), heap, owned. split_and!; [done| |done].
      pose proof (bump_spec 0 n ar heap owned given) as Hb. rewrite Z.add_0_r in Hb. apply Hb; unfold align; done || lia.
    + destruct (AllocateFallback_spec n ar heap owned given Hn ltac:(unfold align; lia) HI) as (p & ar' & heap' & owned' & Ef & HI' & Hal). exists p, ar', heap', owned'. done.
Qed.

(** *** Any requests *)

Fixpoint allocate_all (requests : list (bool * Z)) (ar : Arena) (heap : A) : list Z * Arena * A :=
  match requests with
  | [] => ([], ar, heap)
  | r :: requests =>
      let '(p, ar, heap) := allocate r ar heap in
      let '(ps, ar, heap) := allocate_all requests ar heap in (p :: ps, ar, heap)
  end.

Lemma allocate_all_spec (requests : list (bool * Z)) (ar : Arena) (heap : A) (owned given : list (Z * Z)) :
  Forall (fun r => request_ok (snd r)) requests -> ArenaInv ar heap owned given ->
  exists ps ar' heap' owned', allocate_all requests ar heap = (ps, ar', heap') /\ length ps = length requests /\
    ArenaInv ar' heap' owned' (rev (zip ps (map snd requests)) ++ given) /\
    Forall2 (fun r p => fst r = true -> Z.land p 7 = 0) requests ps.
Proof.
  intros Hr. revert ar heap owned given. induction Hr as [|r requests Hn _ IH]; intros ar heap owned given HI.
  - exists [], ar, heap, owned. split_and!; [done|done|done|constructor].
  - cbn [allocate_all]. destruct (allocate_spec r ar heap owned given Hn HI) as (p & ar1 & heap1 & owned1 & -> & HI1 & Hal).
    destruct (IH ar1 heap1 owned1 _ HI1) as (ps & ar2 & heap2 & owned2 & -> & Hl & HI2 & Hps).
    exists (p :: ps), ar2, heap2, owned2. split_and!; [done|cbn; lia| |by constructor]. cbn. by rewrite <- app_assoc.
Qed.
End ArenaSpec.

Lemma asked_app (l k : list (Z * Z)) : asked (l ++ k) = asked l + asked k.
Proof. induction l as [|x l IH]; [done|]. cbn [app asked foldr] in *. fold (asked (l ++ k)) (asked l). lia. Qed.

Lemma asked_rev (l : list (Z * Z)) : asked (rev l) = asked l.
Proof. induction l as [|x l IH]; [done|]. cbn [rev]. rewrite asked_app, IH. cbn [asked foldr]. fold (asked l). lia. Qed.

Lemma asked_zip (ps : list Z) (requests : list (bool * Z)) :
  length ps = length requests -> asked (zip ps (map snd requests)) = foldr (fun r n => snd r + (align - 1) + n) 0 requests.
Proof.
  revert ps. induction requests as [|r requests IH]; intros [|p ps] Hl; try done. cbn [map zip_with asked foldr snd]. fold (asked (zip ps (map snd requests))). rewrite IH by (cbn in Hl; lia). done.
Qed.

(** C39. The pieces an arena hands out do not overlap, and small ones share blocks: for
    any sequence of plain and aligned requests, of positive sizes below 2^63, each piece
    lies in one block that the arena got from [new], no two of them share a byte, and the
    aligned ones are 8-byte aligned.  The reported memory usage is the size of all blocks
    with their pointers, in 64 bits, and the blocks are together at most one block
    (4096 bytes) larger than twice what was asked for, where each request counts seven
    bytes more for its alignment. *)
Theorem arena_allocations_disjoint {A : Type} {M : Malloc A} {ML : MallocLaws A} (heap0 : A) (requests : list (bool * Z)) :
  Forall (fun r => request_ok (snd r)) requests ->
  exists ps ar heap owned, allocate_all requests newArena heap0 = (ps, ar, heap) /\ length ps = length requests /\
    m_live heap = owned ++ m_live heap0 /\ blocks_ ar = rev (map fst owned) /\
    Forall (fun x => exists b, b ∈ owned /\ inside x b) (zip ps (map snd requests)) /\
    ForallOrdPairs disjoint_ranges (rev (zip ps (map snd requests))) /\
    Forall2 (fun r p => fst r = true -> Z.land p 7 = 0) requests ps /\
    MemoryUsage ar = u64 (foldr (fun b n => snd b + sizeof_unique_ptr + n) 0 owned) /\
    foldr (fun b n => snd b + n) 0 owned <= 2 * foldr (fun r n => snd r + (align - 1) + n) 0 requests + kArenaBlockSize.
Proof.
  intros Hr. destruct (allocate_all_spec heap0 requests newArena heap0 [] [] Hr (newArena_inv heap0)) as (ps & ar & heap & owned & Ea & Hl & HI & Hal).
  rewrite app_nil_r in HI. exists ps, ar, heap, owned. split_and!; [done|done|apply HI|apply HI| |apply HI|done|apply HI|].
  - rewrite <- (rev_involutive (zip _ _)). apply List.Forall_rev. apply HI.
  - pose proof (ai_economy _ _ _ _ _ HI) as He. pose proof (ai_room _ _ _ _ _ HI). rewrite asked_rev, asked_zip in He by done. lia.
Qed.

(** *** Witness: a heap that places every block above all others *)

Definition above (heap : list (Z * Z)) : Z := foldr (fun b n => Z.max (fst b + snd b) n) 0 heap.

#[export] Instance ListHeap_malloc : Malloc (list (Z * Z)) := { malloc n heap := let p := 16 * (above heap + 1) in (p, (p, n) :: heap) }.

Lemma above_spec (heap : list (Z * Z)) : 0 <= above heap /\ forall q m, (q, m) ∈ heap -> q + m <= above heap.
Proof.
  induction heap as [|[q0 m0] heap [IH0 IH]]; cbn [above foldr fst snd] in *; [split; [lia|by intros q m ?%not_elem_of_nil]|]. fold (above heap). split; [lia|].
  intros q m [[= -> ->]|Hin]%elem_of_cons; [lia|]. specialize (IH q m Hin). lia.
Qed.

#[export, refine] Instance ListHeap_laws : MallocLaws (list (Z * Z)) := { m_live heap := heap }.
Proof.
  intros n heap Hn. destruct (above_spec heap) as [H0 Ha]. eexists _, _. split; [reflexivity|]. split_and!; [done|lia| |].
  - change 15 with (Z.ones 4). rewrite Z.land_ones by lia. rewrite Z.mul_comm. apply Z.mod_mul. lia.
  - intros q m Hin. right. specialize (Ha q m Hin). lia.
Defined.

Lemma arena_allocations_disjoint_witness :
  let requests := [(false, 5); (true, 40); (false, 5000); (true, 1000)] in
  let '(ps, ar, heap) := allocate_all requests newArena ([] : list (Z * Z)) in
  ForallOrdPairs disjoint_ranges (rev (zip ps (map snd requests))) /\ ps = [16; 24; 65808; 64] /\ blocks_ ar = [16; 65808] /\ MemoryUsage ar = 9112.
Proof.
  cbv zeta. destruct (arena_allocations_disjoint ([] : list (Z * Z)) [(false, 5); (true, 40); (false, 5000); (true, 1000)])
    as (ps & ar & heap & owned & E & _ & _ & _ & _ & Hd & _ & Hu & _); [repeat constructor|].
  rewrite E. split; [exact Hd|]. vm_compute in E. injection E as <- <- <-. done.
Defined.
