(* ===== verification/History.v ===== *)
(** * History: what a database has to answer

    The abstract database is the list of the operations written so far: operation
    number [i] (from 1) has sequence number [i], and the database at sequence number
    [s] is the map that the first [s] operations make ([db_map]).  The entries kept in
    memtables and tables answer for it ([answers], [agrees]); flushing leaves the
    entries as they are, and a compaction may drop those no reader can see. *)

From S2P Require Import Prelude Status Comparator DbFormat MemTable WriteBatch DBIter Version VersionRead.

(** ** The abstract database *)

Definition op_map (m : gmap bytes bytes) (op : WriteOp) : gmap bytes bytes :=
  match op with OpPut k v => <[k := v]> m | OpDelete k => delete k m end.

Definition db_map (ops : list WriteOp) : gmap bytes bytes := fold_left op_map ops ∅.

(** What a read at sequence number [s] sees. *)
Definition db_read (ops : list WriteOp) (u : bytes) (s : SequenceNumber) : option bytes := db_map (take (Z.to_nat s) ops) !! u.

Definition version_of (e : entry) : ParsedInternalKey * bytes := (e_key e, e_value e).
Definition history (ops : list WriteOp) : versions := map version_of (batch_entries 1 ops).

(** ** Answers from entries *)

Definition newest_in (D : versions) (u : bytes) (s : SequenceNumber) (p : ParsedInternalKey) (v : bytes) : Prop :=
  (p, v) ∈ D /\ VersionRead.visible u s p /\ forall q w, (q, w) ∈ D -> VersionRead.visible u s q -> pik_sequence q <= pik_sequence p.

Definition answers (D : versions) (u : bytes) (s : SequenceNumber) (r : option bytes) : Prop :=
  (r = None /\ forall p v, (p, v) ∈ D -> ~ VersionRead.visible u s p) \/ (exists p v, newest_in D u s p v /\ r = entry_answer (p, v)).

(** Entries of one user key have different sequence numbers. *)
Definition distinct (D : versions) : Prop :=
  forall p q v w, (p, v) ∈ D -> (q, w) ∈ D -> pik_user_key p = pik_user_key q -> pik_sequence p = pik_sequence q -> (p, v) = (q, w).

Lemma answers_functional (D : versions) (u : bytes) (s : SequenceNumber) (r r' : option bytes) :
  distinct D -> answers D u s r -> answers D u s r' -> r = r'.
Proof.
  intros Hd [[-> Hn]|(p & v & (Hp & Hv & Hm) & ->)] [[-> Hn']|(p' & v' & (Hp' & Hv' & Hm') & ->)]; [done| | |].
  - by destruct (Hn p' v').
  - by destruct (Hn' p v).
  - assert ((p, v) = (p', v')) as E; [|by rewrite E]. apply Hd; [done|done|by rewrite (proj1 Hv), (proj1 Hv')|]. specialize (Hm p' v' Hp' Hv'). specialize (Hm' p v Hp Hv). lia.
Qed.

Lemma answers_incl (D D' : versions) (u : bytes) (s : SequenceNumber) (r : option bytes) :
  (forall p v, VersionRead.visible u s p -> (p, v) ∈ D <-> (p, v) ∈ D') -> answers D u s r -> answers D' u s r.
Proof.
  intros He [[-> Hn]|(p & v & (Hp & Hv & Hm) & ->)]; [left|right].
  - split; [done|]. intros p v Hp Hv. by apply (Hn p v); [apply He|].
  - exists p, v. split; [|done]. split_and!; [by apply He|done|]. intros q w Hq Hvq. apply (Hm q w); [by apply He|done].
Qed.

(** ** The history answers as the map *)

Lemma batch_entries_lookup (s : SequenceNumber) (ops : list WriteOp) (i : nat) : batch_entries s ops !! i = (fun op => op_entry (s + Z.of_nat i) op) <$> ops !! i.
Proof.
  revert s i. induction ops as [|op ops IH]; intros s i; [done|]. destruct i as [|i]; cbn [batch_entries lookup list_lookup fmap option_fmap option_map]; [by rewrite Z.add_0_r|].
  rewrite IH. by replace (s + 1 + Z.of_nat i) with (s + Z.of_nat (S i)) by lia.
Qed.

Lemma length_batch_entries (s : SequenceNumber) (ops : list WriteOp) : length (batch_entries s ops) = length ops.
Proof. revert s. induction ops as [|op ops IH]; intros s; [done|]. cbn. by rewrite IH. Qed.

Lemma history_app (a b : list WriteOp) : history (a ++ b) = history a ++ map version_of (batch_entries (1 + zlen a) b).
Proof. unfold history. by rewrite batch_entries_app, map_app. Qed.

Lemma elem_of_history (ops : list WriteOp) (p : ParsedInternalKey) (v : bytes) :
  (p, v) ∈ history ops <-> exists i op, ops !! i = Some op /\ (p, v) = version_of (op_entry (1 + Z.of_nat i) op).
Proof.
  unfold history. rewrite list_elem_of_fmap. split.
  - intros (e & -> & He). apply list_elem_of_lookup in He as [i Hi]. rewrite batch_entries_lookup in Hi. destruct (ops !! i) as [op|] eqn:E; [|done].
    injection Hi as <-. eauto.
  - intros (i & op & Hi & ->). eexists. split; [reflexivity|]. apply list_elem_of_lookup. exists i. by rewrite batch_entries_lookup, Hi.
Qed.

Lemma op_entry_seq (s : SequenceNumber) (op : WriteOp) : pik_sequence (e_key (op_entry s op)) = s /\ pik_user_key (e_key (op_entry s op)) = op_key op.
Proof. by destruct op. Qed.

Lemma history_seq (ops : list WriteOp) (p : ParsedInternalKey) (v : bytes) : (p, v) ∈ history ops -> 1 <= pik_sequence p <= zlen ops.
Proof.
  intros (i & op & Hi & E)%elem_of_history. apply (f_equal fst) in E. cbn in E. rewrite E, (proj1 (op_entry_seq _ _)). apply lookup_lt_Some in Hi. unfold zlen. lia.
Qed.

Lemma history_distinct (ops : list WriteOp) : distinct (history ops).
Proof.
  intros p q v w (i & op & Hi & E)%elem_of_history (j & op' & Hj & E')%elem_of_history _ Es. pose proof (f_equal fst E) as Ep. pose proof (f_equal fst E') as Eq. cbn in Ep, Eq.
  rewrite Ep, Eq, !(proj1 (op_entry_seq _ _)) in Es. assert (i = j) as -> by lia. congruence.
Qed.

Lemma history_answers_all (ops : list WriteOp) (u : bytes) (s : SequenceNumber) : zlen ops <= s -> answers (history ops) u s (db_map ops !! u).
Proof.
  revert s. induction ops as [|op ops IH] using rev_ind; intros s Hs.
  - left. split; [done|]. intros p v H%not_elem_of_nil. done.
  - rewrite history_app. unfold db_map. rewrite fold_left_app. fold (db_map ops). cbn [fold_left]. rewrite zlen_app, zlen_cons, zlen_nil in Hs. cbn [batch_entries map].
    set (e := op_entry (1 + zlen ops) op). destruct (op_entry_seq (1 + zlen ops) op) as [Hseq Hkey]. fold e in Hseq, Hkey.
    destruct (decide (op_key op = u)) as [Hu|Hu].
    + right. exists (e_key e), (e_value e). split.
      * split_and!; [apply elem_of_app; right; by left|split; [congruence|lia]|]. intros q w [Hq|Hq%list_elem_of_singleton]%elem_of_app _.
        -- apply history_seq in Hq. lia.
        -- injection Hq as -> _. lia.
      * subst u. destruct op as [k v|k]; cbn; [by rewrite lookup_insert_eq|by rewrite lookup_delete_eq].
    + assert (op_map (db_map ops) op !! u = db_map ops !! u) as ->.
      { destruct op as [k v|k]; cbn in *; [by rewrite lookup_insert_ne|by rewrite lookup_delete_ne]. }
      eapply answers_incl; [|apply (IH s); lia]. intros p v [Hpu _]. rewrite elem_of_app. split; [by left|]. intros [?|Hq%list_elem_of_singleton]; [done|].
      injection Hq as -> _. congruence.
Qed.

Lemma history_answers (ops : list WriteOp) (u : bytes) (s : SequenceNumber) : 0 <= s -> answers (history ops) u s (db_read ops u s).
Proof.
  intros Hs. unfold db_read. set (n := Z.to_nat s). rewrite <- (take_drop n ops) at 1. rewrite history_app.
  eapply answers_incl; [|apply (history_answers_all (take n ops) u s)].
  - intros p v [_ Hp]. rewrite elem_of_app. split; [by left|]. intros [?|H]; [done|]. exfalso. apply list_elem_of_fmap in H as (e & E & He). injection E as -> ->.
    apply batch_entries_seq in He. unfold entry_seq in He. unfold zlen in He. rewrite length_take, length_drop in He. lia.
  - unfold zlen. rewrite length_take. lia.
Qed.

(** ** Entries that stand for the history

    [D] has entries of the history only, and reads at [smallest] or later see in it
    what they see in the history. *)
Record agrees (smallest : SequenceNumber) (ops : list WriteOp) (D : versions) : Prop := {
  ag_sub : forall p v, (p, v) ∈ D -> (p, v) ∈ history ops;
  ag_reads : forall u s r, smallest <= s -> answers (history ops) u s r -> answers D u s r
}.

Lemma agrees_new : agrees 0 [] [].
Proof. split; [done|]. intros u s r _ H. exact H. Qed.

Lemma agrees_perm (smallest : SequenceNumber) (ops : list WriteOp) (D D' : versions) :
  (forall p v, (p, v) ∈ D <-> (p, v) ∈ D') -> agrees smallest ops D -> agrees smallest ops D'.
Proof.
  intros He [Hs Hr]. split; [intros p v Hp; by apply Hs, He|]. intros u s r Hle Ha. eapply answers_incl; [|by apply Hr]. intros p v _. apply He.
Qed.

Lemma agrees_later (smallest smallest' : SequenceNumber) (ops : list WriteOp) (D : versions) :
  smallest <= smallest' -> agrees smallest ops D -> agrees smallest' ops D.
Proof. intros Hle [Hs Hr]. split; [done|]. intros u s r Hs'. apply Hr. lia. Qed.

(** Writing: the new entries are the newest. *)
Lemma agrees_write (smallest : SequenceNumber) (ops new : list WriteOp) (D : versions) :
  agrees smallest ops D -> agrees smallest (ops ++ new) (map version_of (batch_entries (1 + zlen ops) new) ++ D).
Proof.
  intros [Hs Hr]. split.
  - intros p v. rewrite history_app, !elem_of_app. intros [?|?]; [by right|left; by apply Hs].
  - intros u s r Hle Ha. rewrite history_app in Ha. set (N := map version_of _) in *.
    assert (forall p v, (p, v) ∈ N -> zlen ops < pik_sequence p) as HN.
    { intros p v H. apply list_elem_of_fmap in H as (e & E & He). injection E as -> ->. apply batch_entries_seq in He. unfold entry_seq in He. lia. }
    destruct Ha as [[-> Hn]|(p & v & (Hp & Hv & Hm) & ->)].
    + destruct (Hr u s None Hle) as [[_ Hn']|(p & v & (Hp & Hv & Hm) & _)].
      * left. split; [done|]. intros p v Hp. apply (Hn p v). apply elem_of_app. by left.
      * left. split; [done|]. intros p v [Hp|Hp]%elem_of_app; [apply (Hn p v), elem_of_app; by right|by apply (Hn' p v)].
      * exfalso. apply (Hn p v); [apply elem_of_app; left; by apply Hs|done].
    + apply elem_of_app in Hp as [Hp|Hp].
      * destruct (Hr u s (entry_answer (p, v)) Hle) as [[E Hn']|(p' & v' & (Hp' & Hv' & Hm') & E)].
        -- right. exists p, v. split; [|done]. split_and!; [done|done|]. intros q w Hq. apply (Hm q w). apply elem_of_app. by left.
        -- left. split; [done|]. intros q w [Hq|Hq]%elem_of_app Hvq; [|by apply (Hn' q w)].
           assert (pik_sequence q <= pik_sequence p) by (apply (Hm q w); [apply elem_of_app; by right|done]). apply history_seq in Hp. specialize (HN q w Hq). lia.
        -- right. exists p', v'. split; [|done]. split_and!; [apply elem_of_app; by right|done|]. intros q w [Hq|Hq]%elem_of_app Hvq; [|by apply (Hm' q w)].
           assert (pik_sequence q <= pik_sequence p) by (apply (Hm q w); [apply elem_of_app; by right|done]). apply history_seq in Hp. specialize (HN q w Hq). lia.
      * right. exists p, v. split; [|done]. split_and!; [apply elem_of_app; by left|done|]. intros q w Hq. apply (Hm q w).
        apply elem_of_app in Hq as [Hq|Hq]; apply elem_of_app; [by right|left; by apply Hs].
Qed.
