(* ===== verification/Iterates.v ===== *)
(** * Iterates: iterators over known entries

    [FwdSim] is the half of [IterSim] that a scan uses ([SeekToFirst], [Next]).
    [iterates kvs s]: the iterator [s] refines the cursor over [kvs], whatever its
    class; merging such iterators gives such an iterator.  [MemTableIterator] makes a
    memtable an iterator ([db/memtable.cc]); a scan of it gives its entries in order. *)

From stdpp Require Import sorting.
From S2P Require Import Prelude Status Coding Comparator DbFormat SkipList MemTable Iterator Merger DBIter History.
From Stdlib Require Import Sorting.Sorted.

(** ** Scans *)

Record FwdSim {S : Type} `{Iterator S} (kvs : entries) (R : S -> option nat -> Prop) : Prop := {
  fwd_valid : forall s c, R s c -> it_Valid s = match c with Some _ => true | None => false end;
  fwd_entry : forall s i, R s (Some i) -> kvs !! i = Some (it_key s, it_value s);
  fwd_status : forall s c, R s c -> it_status s = StatusOK;
  fwd_first : forall s c, R s c -> R (it_SeekToFirst s) (cur_first kvs);
  fwd_next : forall s i, R s (Some i) -> R (it_Next s) (cur_next kvs i)
}.

Lemma IterSim_fwd {C : Comparator} {S : Type} `{Iterator S} (kvs : entries) (R : S -> option nat -> Prop) : IterSim kvs R -> FwdSim kvs R.
Proof. intros []. by split. Qed.

Definition scans {S : Type} `{Iterator S} (kvs : entries) (s : S) : Prop := exists R c, FwdSim kvs R /\ R s c.

(** Where a scan is: the entries still to come. *)
Lemma scan_here {S : Type} `{Iterator S} (kvs : entries) (R : S -> option nat -> Prop) (s : S) (i : nat) :
  FwdSim kvs R -> R s (in_range kvs i) ->
  match drop i kvs with
  | [] => it_Valid s = false
  | kv :: rest => it_Valid s = true /\ kv = (it_key s, it_value s) /\ rest = drop (Datatypes.S i) kvs /\ R (it_Next s) (in_range kvs (Datatypes.S i))
  end.
Proof.
  intros HF HR. unfold in_range in HR. destruct (Nat.ltb_spec i (length kvs)) as [Hi|Hi].
  - destruct (lookup_lt_is_Some_2 kvs i Hi) as [kv Hkv]. rewrite (drop_S kvs kv i Hkv). split_and!; [by rewrite (fwd_valid _ _ HF _ _ HR)| |done|].
    + pose proof (fwd_entry _ _ HF _ _ HR). congruence.
    + exact (fwd_next _ _ HF _ _ HR).
  - rewrite drop_ge by done. by rewrite (fwd_valid _ _ HF _ _ HR).
Qed.

(** The entries that a scan of at most [fuel] steps gives; [None] when there are more. *)
Fixpoint scan_from {S : Type} `{Iterator S} (fuel : nat) (s : S) : option entries :=
  if it_Valid s then
    match fuel with
    | O => None
    | Datatypes.S fuel => cons (it_key s, it_value s) <$> scan_from fuel (it_Next s)
    end
  else Some [].

Definition scan_list {S : Type} `{Iterator S} (fuel : nat) (s : S) : option entries := scan_from fuel (it_SeekToFirst s).

Lemma scan_list_spec {S : Type} `{Iterator S} (kvs kvs' : entries) (fuel : nat) (s : S) :
  scans kvs s -> scan_list fuel s = Some kvs' -> kvs' = kvs /\ (length kvs <= fuel)%nat.
Proof.
  intros (R & c & HF & HR). pose proof (fwd_first _ _ HF _ _ HR) as HR0. unfold scan_list. change (cur_first kvs) with (in_range kvs 0) in HR0.
  assert (forall fuel i s kvs', R s (in_range kvs i) -> scan_from fuel s = Some kvs' -> kvs' = drop i kvs /\ (length (drop i kvs) <= fuel)%nat) as Hgo.
  { clear -HF. intros fuel. induction fuel as [|fuel IH]; intros i s kvs' HR E; pose proof (scan_here kvs R s i HF HR) as Hh; destruct (drop i kvs) as [|kv rest] eqn:Ed; cbn [scan_from] in E.
    - rewrite Hh in E. injection E as <-. done.
    - destruct Hh as (Hv & _). by rewrite Hv in E.
    - rewrite Hh in E. injection E as <-. split; [done|cbn; lia].
    - destruct Hh as (Hv & -> & Er & HR'). rewrite Hv in E. apply fmap_Some in E as (l & El & ->). destruct (IH (Datatypes.S i) _ l HR' El) as [-> Hlen].
      rewrite <- Er in *. split; [done|]. cbn. lia. }
  intros E. destruct (Hgo fuel 0%nat _ kvs' HR0 E) as [-> Hlen]. by rewrite drop_0 in *.
Qed.

(** ** Iterators of any class *)

Section Iterates.
Context {C : Comparator} {CL : ComparatorLaws C}.

Definition iter_at {S : Type} `{Iterator S} (kvs : entries) (s : S) (c : option nat) : Prop := exists R, IterSim kvs R /\ R s c.
Definition iterates {S : Type} `{Iterator S} (kvs : entries) (s : S) : Prop := exists c, iter_at kvs s c.

(** The union of all simulations is one. *)
Lemma iter_at_sim {S : Type} `{Iterator S} (kvs : entries) : IterSim kvs (iter_at (S := S) kvs).
Proof.
  split.
  - intros s c (R & HR & Hs). by apply (sim_valid _ _ HR).
  - intros s i (R & HR & Hs). by apply (sim_entry _ _ HR).
  - intros s c (R & HR & Hs). by apply (sim_status _ _ HR s c).
  - intros s c (R & HR & Hs). exists R. split; [done|]. by apply (sim_first _ _ HR s c).
  - intros s c (R & HR & Hs). exists R. split; [done|]. by apply (sim_last _ _ HR s c).
  - intros s c t (R & HR & Hs). exists R. split; [done|]. by apply (sim_seek _ _ HR s c).
  - intros s i (R & HR & Hs). exists R. split; [done|]. by apply (sim_next _ _ HR).
  - intros s i (R & HR & Hs). exists R. split; [done|]. by apply (sim_prev _ _ HR).
Qed.

Lemma iterates_scans {S : Type} `{Iterator S} (kvs : entries) (s : S) : iterates kvs s -> scans kvs s.
Proof. intros (c & R & HR & Hs). exists R, c. split; [by apply IterSim_fwd|done]. Qed.

Definition left_at {A B : Type} (R : A -> option nat -> Prop) (s : A + B) (c : option nat) : Prop := match s with inl a => R a c | inr _ => False end.

Lemma iterates_inl {A B : Type} {HA : Iterator A} {HB : Iterator B} (kvs : entries) (a : A) : iterates kvs a -> iterates kvs (inl a : A + B).
Proof. intros (c & R & HR & Hs). exists c, (left_at R). split; [|done]. destruct HR. split; intros [x|x]; simpl; try done; eauto. Qed.

Lemma iterates_inr {A B : Type} {HA : Iterator A} {HB : Iterator B} (kvs : entries) (b : B) : iterates kvs b -> iterates kvs (inr b : A + B).
Proof. intros (c & R & HR & Hs). exists c, (right_at R). split; [by apply sum_sim_right|done]. Qed.

Lemma iterates_empty : iterates [] NewEmptyIterator.
Proof.
  exists None, (fun s c => s = NewEmptyIterator /\ c = None). split; [|done].
  split; intros; destruct_and?; subst; try done; by split.
Qed.

Lemma sorted_perm_eq (l1 l2 : entries) : keys_sorted l1 -> keys_sorted l2 -> l1 ≡ₚ l2 -> l1 = l2.
Proof.
  intros H1 H2 Hp. apply (StronglySorted_unique_strong (fun a b => clt (fst a) (fst b))); [|done..].
  intros x y _ _ Hxy Hyx. destruct (clt_irrefl (fst x)). by eapply clt_trans.
Qed.

(** [NewMergingIterator] over any number of children. *)
Lemma iterates_merge {S : Type} {HS : Iterator S} (children : list S) (kvss : list entries) (M : entries) :
  Forall2 (fun kvs s => keys_sorted kvs /\ iterates kvs s) kvss children -> keys_sorted M -> M ≡ₚ concat kvss -> iterates M (NewMergingIterator children).
Proof.
  intros Hc HM Hp. destruct Hc as [|kvs s kvss children [Hk Hs] Hc]; [apply Permutation_nil_r in Hp as ->; apply iterates_inl, iterates_empty|].
  destruct Hc as [|kvs2 s2 kvss children Hs2 Hc].
  - apply iterates_inr, iterates_inl. cbn in Hp. rewrite app_nil_r in Hp.
    assert (M = kvs) as ->; [|done]. eapply (sorted_perm_eq M kvs); done.
  - apply iterates_inr, iterates_inr. assert (Forall2 (fun kvs s => keys_sorted kvs /\ iterates kvs s) (kvs :: kvs2 :: kvss) (s :: s2 :: children)) as Hall by (constructor; [done|by constructor]).
    remember (kvs :: kvs2 :: kvss) as L eqn:EL. remember (s :: s2 :: children) as ch eqn:Ech.
    exists None, (merged_at L M (fun i => match L !! i with Some kvs => iter_at kvs | None => fun _ _ => False end)). split.
    + apply merging_sim; [|intros i kvs' Hi; apply (Forall2_lookup_l _ _ _ _ _ Hall) in Hi as (? & _ & ? & _); done|done|done].
      intros i kvs' Hi. rewrite Hi. apply iter_at_sim.
    + rewrite Ech. cbn. rewrite <- Ech. apply newMergingIterator_at; [symmetry; by eapply Forall2_length|].
      intros i s' Hi. apply (Forall2_lookup_r _ _ _ _ _ Hall) in Hi as (kvs' & Hi & _ & (c & Hc')). exists c. by rewrite Hi.
Qed.
End Iterates.

(** ** The iterator of a memtable *)

Record MemTableIterator (Rnd : Type) := mkMemTableIterator { mit_table : MemTable Rnd; mit_iter : ptr }.
Arguments mkMemTableIterator {Rnd}.
Arguments mit_table {Rnd}.
Arguments mit_iter {Rnd}.

Section MemIter.
Context {C : Comparator} {Rnd : Type}.

#[export] Instance MemTableIterator_iter : Iterator (MemTableIterator Rnd) := {
  it_Valid it := Iter_Valid (mit_iter it);
  it_SeekToFirst it := mkMemTableIterator (mit_table it) (Iter_SeekToFirst (mit_table it));
  it_SeekToLast it := mkMemTableIterator (mit_table it) (Iter_SeekToLast (mit_table it));
  it_Seek k it := mkMemTableIterator (mit_table it) (mti_Seek C (mit_table it) k);
  it_Next it := mkMemTableIterator (mit_table it) (Iter_Next (mit_table it) (mit_iter it));
  it_Prev it := mkMemTableIterator (mit_table it) (mti_Prev C (mit_table it) (mit_iter it));
  it_key it := mti_key (mit_table it) (mit_iter it);
  it_value it := mti_value (mit_table it) (mit_iter it);
  it_status _ := StatusOK
}.

Definition MemTable_NewIterator (m : MemTable Rnd) : MemTableIterator Rnd := mkMemTableIterator m None.
End MemIter.

Section MemScan.
Context {C : Comparator} {CL : ComparatorLaws C} {Rnd : Type}.

Lemma entry_key_value (m : MemTable Rnd) (x : nat) (e : entry) : entry_wf e -> key_of [] (heap m) x = entry_bytes e ->
  mti_key m (Some x) = encode_key (e_key e) /\ mti_value m (Some x) = e_value e.
Proof.
  intros He Ek. unfold mti_key, mti_value. cbn [Iter_key]. rewrite Ek, entry_slice by done. split; [done|]. rewrite entry_bytes_eq. destruct He as (_ & Hk & Hv).
  unfold lp_slice at 1. rewrite <- app_assoc. pose proof (zlen_nonneg (pik_user_key (e_key e))). rewrite zlen_encode_key, wrap_small, mem_GetVarint32_encode by lia.
  rewrite <- (zlen_encode_key (e_key e)), zdrop_app_exact. rewrite <- (app_nil_r (lp_slice (e_value e))). by apply mem_slice.
Qed.

Lemma mem_repr_length (m : MemTable Rnd) (es : list entry) : mem_repr (C := C) m es -> (length es <= length (heap m))%nat.
Proof.
  intros (_ & ks & Hp & L' & R & Ek). apply Permutation_length in Hp. rewrite length_map in Hp. rewrite <- Hp, <- Ek. unfold keys. rewrite length_map.
  pose proof (sorted_NoDup _ _ (repr_sorted _ _ _ R)) as Hnd. assert (L' 0%nat ⊆+ seq 0 (length (heap m))) as Hs%submseteq_length; [|rewrite length_seq in Hs; done].
  apply NoDup_submseteq; [done|]. intros x Hx. apply (repr_nodes _ _ _ R) in Hx. apply elem_of_seq. lia.
Qed.

Lemma mem_scan (m : MemTable Rnd) (es : list entry) : mem_repr (C := C) m es ->
  exists D : versions, D ≡ₚ map version_of es /\ keys_sorted (C := InternalKeyComparator C) (internal_entries D) /\
    scans (H := MemTableIterator_iter (C := C)) (internal_entries D) (MemTable_NewIterator m).
Proof.
  intros (Hwf & ks & Hp & Hh). apply Permutation_map_inv in Hp as (es' & -> & Hp). exists (map version_of es').
  assert (Forall entry_wf es') as Hwf' by (by rewrite <- Hp). split; [by rewrite Hp|]. split.
  - destruct Hh as (L & HR & EL). pose proof (repr_sorted _ _ _ HR) as Hs. unfold keys in EL. unfold internal_entries, keys_sorted. rewrite map_map.
    clear HR Hp. revert es' EL Hwf' Hs. generalize (L 0%nat). induction l as [|x l IH]; intros [|e es'] EL Hwf' Hs; [constructor|done|done|]. injection EL as Ex EL.
    apply Forall_cons in Hwf' as [He Hwf']. apply StronglySorted_inv in Hs as [Hs Hx]. cbn [map]. constructor; [apply (IH es' EL Hwf' Hs)|].
    apply Forall_forall. intros y (e' & -> & He')%list_elem_of_fmap. cbn [fst version_of]. rewrite Forall_forall in Hwf'.
    apply list_elem_of_lookup in He' as [j Hj]. assert (map (key_of [] (heap m)) l !! j = Some (entry_bytes e')) as Hl by (rewrite EL, list_lookup_fmap, Hj; done).
    rewrite list_lookup_fmap in Hl. destruct (l !! j) as [z|] eqn:Ez; [|done]. injection Hl as Hz. rewrite List.Forall_forall in Hx.
    specialize (Hx z ltac:(apply list_elem_of_In, list_elem_of_lookup; eauto)). unfold key_lt in Hx. rewrite Ex, Hz, KeyComparator_entries in Hx; [exact Hx|done|].
    apply Hwf', list_elem_of_lookup. eauto.
  - destruct (iterator_nodes m (map entry_bytes es') Hh) as (nodes & Ek & Hfirst & _ & _ & Hstep).
    assert (length nodes = length es') as Hlen by (apply (f_equal length) in Ek; by rewrite !length_map in Ek).
    assert (forall i, in_range (internal_entries (map version_of es')) i = if (i <? length nodes)%nat then Some i else None) as Hr.
    { intros i. unfold in_range, internal_entries. by rewrite !length_map, Hlen. }
    exists (fun it c => mit_table it = m /\ mit_iter it = c ≫= (fun i => nodes !! i) /\ match c with Some i => (i < length nodes)%nat | None => True end), None. split; [|done].
    assert (forall i, nodes !! i = (if (i <? length nodes)%nat then Some i else None) ≫= (fun i => nodes !! i)) as Hn.
    { intros i. destruct (Nat.ltb_spec i (length nodes)); [done|]. by apply lookup_ge_None. }
    split; cbn [it_Valid it_SeekToFirst it_Next it_key it_value it_status MemTableIterator_iter].
    + intros it [i|] (_ & E & Hi); rewrite E; [|done]. cbn. destruct (lookup_lt_is_Some_2 nodes i Hi) as [x ->]. done.
    + intros it i (Em & E & Hi). rewrite Em, E. cbn. destruct (lookup_lt_is_Some_2 nodes i Hi) as [x Hx]. rewrite Hx. unfold internal_entries. rewrite map_map, list_lookup_fmap.
      assert (map (key_of [] (heap m)) nodes !! i = Some (key_of [] (heap m) x)) as Hk by (rewrite list_lookup_fmap, Hx; done). rewrite Ek, list_lookup_fmap in Hk.
      destruct (es' !! i) as [e|] eqn:Ee; [|done]. injection Hk as Hk. rewrite Forall_lookup in Hwf'. destruct (entry_key_value m x e (Hwf' i e Ee) (eq_sym Hk)) as [-> ->]. done.
    + done.
    + intros it c (Em & _). rewrite Em. unfold cur_first. rewrite Hr. split_and!; [done| |by destruct (Nat.ltb_spec 0 (length nodes))]. cbn [mit_iter]. rewrite Hfirst, <- Hn. by destruct nodes.
    + intros it i (Em & E & Hi). rewrite Em. unfold cur_next. rewrite Hr. split_and!; [done| |by destruct (Nat.ltb_spec (S i) (length nodes))]. cbn [mit_iter]. rewrite E. cbn [mbind option_bind].
      destruct (lookup_lt_is_Some_2 nodes i Hi) as [x Hx]. rewrite Hx. rewrite (proj1 (Hstep i x Hx)). apply Hn.
Qed.
End MemScan.
