(* ===== verification/TableFiles.v ===== *)
(** * TableFiles: making tables ([db/builder.cc])

    [BuildTable] writes the entries of an iterator to a new table file.  The table
    cache then serves the new table, and goes on serving the others: the state of the
    file system may change as long as the other table files stay ([StoreOk_env]), and
    a new table file may appear ([StoreOk_add]). *)

From stdpp Require Import fin_sets.
From S2P Require Import Prelude Status Coding Comparator Logging FilterPolicy DbFormat Env Format Iterator Block FilterBlock.
From S2P Require Import TwoLevelIterator TableBuilder Cache Table VersionEdit FileName DBIter Version VersionRead TableCache History Iterates.
From Stdlib Require Import Sorting.Sorted.

(** ** [BuildTable] *)

Section BuildTableDef.
(** [P] is [options.filter_policy] as the caller has set it. *)
Context (slen zstlen : bytes -> option Z) (sun zun : bytes -> option bytes).
Context {C : Comparator} {P : FilterPolicy} {E W SF F : Type} `{FileSystem E W SF} `{WritableFile W} `{HandleFS E W} `{RandomAccessFS E F} `{RandomAccessFile F}.
Context {K Hd : Type} `{Cache K Hd Block} {S : Type} {HI : Iterator S}.
Context (dbname : bytes) (bopts : TableBuilderOptions) (topts : TableOptions).

Abbreviation IC := (InternalKeyComparator C).

Definition default_read_options : ReadOptions := mkReadOptions false true.

(** The loop over the entries: the last key and the builder. *)
Fixpoint build_loop (fuel : nat) (iter : S) (key : bytes) (builder : TableBuilder W) : option (S * bytes * TableBuilder W) :=
  if it_Valid iter then
    match fuel with
    | O => None
    | Datatypes.S fuel => build_loop fuel (it_Next iter) (it_key iter) (TableBuilder_Add (C := IC) (P := P) (it_key iter) (it_value iter) builder)
    end
  else Some (iter, key, builder).

Definition set_env (env : E) (s : TableCache E F K) : TableCache E F K := mkTableCache env (tc_tables s) (tc_block_cache s).

Definition remove_table (fname : bytes) (s : TableCache E F K) : TableCache E F K := set_env (snd (fs_RemoveFile fname (tc_env s))) s.

(** Finishing the file: its status, and the table cache after the writes. *)
Definition finish_table (fname : bytes) (builder : TableBuilder W) (s : TableCache E F K) : Result unit * Z * TableCache E F K :=
  let '(finish_res, builder) := TableBuilder_Finish (C := IC) (P := P) builder in
  match finish_res with
  | Err st => (Err st, 0, remove_table fname s)
  | Ok _ =>
      let '(sync_res, file) := wf_Sync (tb_file builder) in
      match sync_res with
      | Err st => (Err st, FileSize builder, remove_table fname s)
      | Ok _ =>
          let '(close_res, file) := wf_Close file in
          match close_res with
          | Err st => (Err st, FileSize builder, remove_table fname s)
          | Ok _ => (Ok tt, FileSize builder, set_env (fs_Written fname file (tc_env s)) s)
          end
      end
  end.

(** The part of [BuildTable] that runs when there is an entry. *)
Definition write_table (fuel : nat) (iter : S) (meta : FileMetaData) (s : TableCache E F K) : option (Result unit * S * FileMetaData * TableCache E F K) :=
  let fname := TableFileName dbname (fm_number meta) in
  let '(file_res, env) := fs_NewWritableFile fname (tc_env s) in
  let s := set_env env s in
  match file_res with
  | Err st => Some (Err st, iter, meta, s)
  | Ok file =>
      match build_loop fuel iter [] (newTableBuilder bopts file) with
      | None => None
      | Some (iter', key, builder) =>
          let largest := if zlen key =? 0 then fm_largest meta else key in
          let meta := mkFileMetaData (fm_allowed_seeks meta) (fm_number meta) (fm_file_size meta) (it_key iter) largest in
          let '(r, size, s) := finish_table fname builder s in
          let meta := mkFileMetaData (fm_allowed_seeks meta) (fm_number meta) size (fm_smallest meta) (fm_largest meta) in
          match r with
          | Err st => Some (Err st, iter', meta, s)
          | Ok _ =>
              let '(it, s) := tc_NewIterator (C := IC) (P := P) slen zstlen sun zun dbname topts default_read_options (fm_number meta) size s in
              let st := it_status (Iterator := sum_iter (HB := TableIter_iter (C := IC) slen zstlen sun zun)) it in
              if ok st then Some (Ok tt, iter', meta, s) else Some (Err st, iter', meta, remove_table fname s)
          end
      end
  end.

Definition BuildTable (fuel : nat) (iter : S) (meta : FileMetaData) (s : TableCache E F K) : option (Result unit * FileMetaData * TableCache E F K) :=
  let meta := mkFileMetaData (fm_allowed_seeks meta) (fm_number meta) 0 (fm_smallest meta) (fm_largest meta) in
  let iter := it_SeekToFirst iter in
  let fname := TableFileName dbname (fm_number meta) in
  let finish (iter : S) (meta : FileMetaData) (s : TableCache E F K) :=
    if negb (ok (it_status iter)) then (Err (it_status iter), meta, remove_table fname s)
    else if 0 <? fm_file_size meta then (Ok tt, meta, s) else (Ok tt, meta, remove_table fname s) in
  if it_Valid iter then
    match write_table fuel iter meta s with
    | None => None
    | Some (Err st, _, meta, s) => Some (Err st, meta, s)
    | Some (Ok _, iter, meta, s) => Some (finish iter meta s)
    end
  else Some (finish iter meta s).
End BuildTableDef.

(** ** The table cache and the file system *)

Section Evolve.
Context {C : Comparator} {CL : ComparatorLaws C} {P : FilterPolicy} {PL : FilterPolicyLaws P}.
Context {E F W : Type} {FS : RandomAccessFS E F} {RF : RandomAccessFile F} {RL : RandomAccessFileLaws F} {WF : WritableFile W} {WL : WritableFileLaws W}.
Context {K Hd : Type} {KC : Cache K Hd Block} {KL : CacheLaws K Hd Block} {KI : CacheIdLaws K Hd Block}.
Context (dbname : bytes) (topts : TableOptions).

Abbreviation ondisk := (on_disk (W := W) (F := F) (C := C) (P := P) dbname).
Abbreviation Store := (StoreOk (W := W) (F := F) (C := C) (P := P) dbname topts).

Lemma on_disk_frame (env env' : E) (n size : Z) (vs : versions) :
  (forall data, fs_holds env (TableFileName dbname n) data -> fs_holds env' (TableFileName dbname n) data) -> ondisk env n size vs -> ondisk env' n size vs.
Proof.
  intros Hf (bopts & wfile & file & H1 & H2 & H3 & H4 & H5 & H6 & H7). destruct (Hf (raf_data file)) as (file' & Ho & Hd'); [by exists file|].
  exists bopts, wfile, file'. rewrite Hd'. done.
Qed.

Lemma StoreOk_env (ids : Z) (env env' : E) (disk : gmap Z (Z * versions)) (s : TableCache E F K) :
  Store ids env disk s -> (forall n size vs, disk !! n = Some (size, vs) -> ondisk env' n size vs) -> Store ids env' disk (set_env env' s).
Proof. intros [] Hd'. by split. Qed.

Lemma StoreOk_add (ids : Z) (env : E) (disk : gmap Z (Z * versions)) (s : TableCache E F K) (n size : Z) (vs : versions) :
  Store ids env disk s -> disk !! n = None -> ondisk env n size vs -> ids + 1 < 2 ^ 64 -> Store (ids + 1) env (<[n := (size, vs)]> disk) s.
Proof.
  intros HS Hn Ho Hids. assert (tc_tables s !! n = None) as Ht.
  { destruct (tc_tables s !! n) as [t|] eqn:E0; [|done]. destruct (so_tables _ _ _ _ _ _ HS n t E0) as (? & ? & ? & _). congruence. }
  split; [done|apply HS| | |apply HS|].
  - intros m size' vs' [[<- Ev]|[_ Hm]]%lookup_insert_Some; [injection Ev as <- <-; done|by apply (so_disk _ _ _ _ _ _ HS)].
  - intros m t Hm. destruct (so_tables _ _ _ _ _ _ HS m t Hm) as (size' & vs' & Hd' & Hs'). exists size', vs'. split; [|done]. rewrite lookup_insert_ne; [done|congruence].
  - intros c Hc. destruct (so_cache _ _ _ _ _ _ HS c Hc) as (H1 & H2 & H3). split_and!; [done| |done].
    rewrite dom_insert_L, difference_union_distr_l_L. assert ({[n]} ∖ dom (tc_tables s) = {[n]}) as -> by (apply not_elem_of_dom in Ht; set_solver).
    apply not_elem_of_dom in Hn. rewrite (size_union {[n]} (dom disk ∖ dom (tc_tables s))) by set_solver. rewrite size_singleton. lia.
Qed.

Lemma StoreOk_ids (ids ids' : Z) (env : E) (disk : gmap Z (Z * versions)) (s : TableCache E F K) :
  Store ids env disk s -> ids <= ids' -> ids' < 2 ^ 64 -> Store ids' env disk s.
Proof. intros [] Hle Hb. split; try done. intros c Hc. destruct (so_cache c Hc) as (H1 & H2 & H3). split_and!; [done|lia|done]. Qed.
End Evolve.

(** ** What [BuildTable] makes *)

Section BuildTableSpec.
Context (slen zstlen : bytes -> option Z) (sun zun : bytes -> option bytes).
Context {C : Comparator} {CL : ComparatorLaws C} {P : FilterPolicy} {PL : FilterPolicyLaws P}.
Context {E W SF F : Type} {FS : FileSystem E W SF} {WF : WritableFile W} {WL : WritableFileLaws W} {HF : HandleFS E W} {FSL : FileSystemLaws E W SF}.
Context {RFS : RandomAccessFS E F} {RF : RandomAccessFile F} {RL : RandomAccessFileLaws F} {FF : FileFrameLaws E W SF F}.
Context {K Hd : Type} {KC : Cache K Hd Block} {KL : CacheLaws K Hd Block} {KI : CacheIdLaws K Hd Block}.
Context (dbname : bytes) (bopts : TableBuilderOptions) (topts : TableOptions) (Hri : 1 <= tbo_block_restart_interval bopts).

Abbreviation IC := (InternalKeyComparator C).
Abbreviation IP := (InternalFilterPolicy P).
Abbreviation ondisk := (on_disk (W := W) (F := F) (C := C) (P := P) dbname).
Abbreviation Store := (StoreOk (W := W) (F := F) (C := C) (P := P) dbname topts).
Abbreviation built := (build_table (C := IC) (P := IP) bopts).

(** The table of [D] stays below the 32-bit offsets. *)
Definition table_fits (D : versions) : Prop :=
  forall wfile, wf_contents wfile = [] -> zlen (wf_contents (tb_file (snd (built (internal_entries D) wfile)))) < 2 ^ 32.

Definition numbers_ok (disk : gmap Z (Z * versions)) : Prop := forall n x, disk !! n = Some x -> 0 <= n < 2 ^ 64.

(** The files of the other tables outlive operations on the file of [n]. *)
Lemma disk_frame (env env' : E) (disk : gmap Z (Z * versions)) (n : Z) :
  numbers_ok disk -> disk !! n = None -> 0 <= n < 2 ^ 64 -> (forall m size vs, disk !! m = Some (size, vs) -> ondisk env m size vs) ->
  (forall name data, name <> TableFileName dbname n -> fs_holds env name data -> fs_holds env' name data) ->
  forall m size vs, disk !! m = Some (size, vs) -> ondisk env' m size vs.
Proof.
  intros Hnum Hn Hrange Hdisk Hf m size vs Hm. eapply on_disk_frame; [|by apply Hdisk]. intros data. apply Hf.
  intros E0. apply TableFileName_inj in E0; [congruence|by eapply Hnum|done].
Qed.

Lemma NewWritableFile_store (ids : Z) (env : E) (disk : gmap Z (Z * versions)) (s : TableCache E F K) (n : Z) :
  Store ids env disk s -> numbers_ok disk -> disk !! n = None -> 0 <= n < 2 ^ 64 ->
  exists file env', fs_NewWritableFile (TableFileName dbname n) (tc_env s) = (Ok file, env') /\ wf_contents file = [] /\ Store ids env' disk (set_env env' s) /\
    env' = snd (fs_NewWritableFile (TableFileName dbname n) env).
Proof.
  intros HS Hnum Hn Hrange. rewrite (so_env _ _ _ _ _ _ HS). destruct (fs_NewWritableFile_spec (TableFileName dbname n) env) as (file & env' & Ef & Hf).
  exists file, env'. split_and!; [done|done| |by rewrite Ef]. apply (StoreOk_env dbname topts ids env env' disk s HS).
  eapply disk_frame; [done|done|done|apply (so_disk _ _ _ _ _ _ HS)|]. intros name data Hne Hh. pose proof (fs_NewWritableFile_other (TableFileName dbname n) env name data Hne Hh) as H. by rewrite Ef in H.
Qed.

(** Finishing a file with the entries [D] in it. *)
Lemma finish_table_spec (ids : Z) (env : E) (disk : gmap Z (Z * versions)) (s : TableCache E F K) (n : Z) (D : versions) (wfile : W) :
  Store ids env disk s -> numbers_ok disk -> disk !! n = None -> 0 <= n < 2 ^ 64 -> ids + 1 < 2 ^ 64 ->
  keys_sorted (C := IC) (internal_entries D) -> table_fits D -> wf_contents wfile = [] ->
  exists size env' f, finish_table (C := C) (P := IP) (TableFileName dbname n) (tb_add_all (C := IC) (P := IP) (internal_entries D) (newTableBuilder (P := IP) bopts wfile)) s = (Ok tt, size, set_env env' s) /\
    0 < size < 2 ^ 32 /\ Store (ids + 1) env' (<[n := (size, D)]> disk) (set_env env' s) /\ env' = fs_Written (TableFileName dbname n) f env.
Proof.
  intros HS Hnum Hn Hrange Hids Hsrt Hfit Hw. specialize (Hfit wfile Hw).
  destruct (built_layout (C := IC) (P := IP) bopts (internal_entries D) wfile Hri Hsrt Hw Hfit) as (blks & idx & _ & _ & _ & _ & Hok & Econ & Efs).
  unfold finish_table. change (TableBuilder_Finish (tb_add_all (internal_entries D) (newTableBuilder (P := IP) bopts wfile))) with (built (internal_entries D) wfile).
  destruct (built (internal_entries D) wfile) as [r b] eqn:Eb. cbn [fst snd] in *. rewrite Hok. destruct (wf_Sync_spec (tb_file b)) as (f1 & -> & Hf1).
  destruct (wf_Close_spec f1) as (f2 & -> & Hf2). rewrite (so_env _ _ _ _ _ _ HS). exists (FileSize b), (fs_Written (TableFileName dbname n) f2 env), f2. split; [done|].
  assert (0 < FileSize b < 2 ^ 32) as Hsz.
  { rewrite Efs, <- Econ. split; [|done]. rewrite Econ. unfold table_image. rewrite !zlen_app, footer_bytes_length. change kEncodedLength with 48.
    repeat match goal with |- context [zlen ?x] => pose proof (zlen_nonneg x); generalize dependent (zlen x); intros end. lia. }
  split; [done|]. split; [|done]. apply StoreOk_add; [|done| |done].
  - apply (StoreOk_env dbname topts ids env _ disk s HS). eapply disk_frame; [done|done|done|apply (so_disk _ _ _ _ _ _ HS)|]. intros name data Hne. by apply fs_Written_other.
  - destruct (fs_Written_same (TableFileName dbname n) f2 env) as (file & Ho & Hd'). exists bopts, wfile, file. rewrite Eb. cbn [snd].
    assert (raf_data file = wf_contents (tb_file b)) as Er by congruence. split_and!; [done|done|done|done|done|by rewrite Er|done].
Qed.

(** *** The whole function *)

Context {S : Type} {HI : Iterator S}.

Lemma build_loop_spec (kvs : entries) (R : S -> option nat -> Prop) (fuel i : nat) (iter : S) (key : bytes) (builder : TableBuilder W) :
  FwdSim kvs R -> R iter (in_range kvs i) -> (length kvs - i <= fuel)%nat ->
  exists iter', build_loop (C := C) (P := IP) fuel iter key builder
      = Some (iter', default key (fst <$> last (drop i kvs)), tb_add_all (C := IC) (P := IP) (drop i kvs) builder) /\ it_status iter' = StatusOK.
Proof.
  intros HFw. revert i iter key builder. induction fuel as [|fuel IH]; intros i iter key builder HR Hf; pose proof (scan_here kvs R iter i HFw HR) as Hh.
  - rewrite drop_ge in Hh |- * by lia. cbn [build_loop]. rewrite Hh. exists iter. split; [done|]. by apply (fwd_status _ _ HFw _ _ HR).
  - destruct (drop i kvs) as [|kv rest] eqn:Ed.
    + cbn [build_loop]. rewrite Hh. exists iter. split; [done|]. by apply (fwd_status _ _ HFw _ _ HR).
    + destruct Hh as (Hv & -> & Er & HR'). cbn [build_loop]. rewrite Hv.
      destruct (IH (Datatypes.S i) (it_Next iter) (it_key iter) (TableBuilder_Add (C := IC) (P := IP) (it_key iter) (it_value iter) builder) HR' ltac:(lia)) as (iter' & -> & Hs).
      exists iter'. split; [|done]. rewrite <- Er. unfold tb_add_all. cbn [fold_left fst snd]. do 2 f_equal. f_equal. destruct rest as [|x rest]; [done|]. rewrite last_cons_cons.
      destruct (last (x :: rest)) eqn:El; [done|by apply last_None in El].
Qed.

Lemma last_entry_key (D : versions) (p : ParsedInternalKey) (v : bytes) (d : ParsedInternalKey * bytes) :
  default [] (fst <$> last (internal_entries ((p, v) :: D))) = encode_key (fst (List.last ((p, v) :: D) d)).
Proof.
  revert p v. induction D as [|[p1 v1] D IH]; intros p v; [done|]. change (internal_entries ((p, v) :: (p1, v1) :: D)) with ((encode_key p, v) :: internal_entries ((p1, v1) :: D)).
  specialize (IH p1 v1). change (internal_entries ((p1, v1) :: D)) with ((encode_key p1, v1) :: internal_entries D) in *. by rewrite last_cons_cons, IH.
Qed.

(** A new number gives a table of the entries of the iterator. *)
Lemma BuildTable_written (fuel : nat) (ids : Z) (env : E) (disk : gmap Z (Z * versions)) (s : TableCache E F K) (meta : FileMetaData) (iter : S) (p0 : ParsedInternalKey) (v0 : bytes) (D : versions) :
  let D0 := (p0, v0) :: D in
  Store ids env disk s -> numbers_ok disk -> disk !! fm_number meta = None -> 0 <= fm_number meta < 2 ^ 64 -> ids + 1 < 2 ^ 64 ->
  keys_sorted (C := IC) (internal_entries D0) -> table_fits D0 -> scans (internal_entries D0) iter -> (length D0 <= fuel)%nat ->
  exists size env' s', BuildTable (C := C) (P := IP) slen zstlen sun zun dbname bopts topts fuel iter meta s
      = Some (Ok tt, mkFileMetaData (fm_allowed_seeks meta) (fm_number meta) size (encode_key p0) (encode_key (fst (List.last D0 (p0, v0)))), s') /\
    0 < size < 2 ^ 32 /\ Store (ids + 1) env' (<[fm_number meta := (size, D0)]> disk) s' /\
    exists f, env' = fs_Written (TableFileName dbname (fm_number meta)) f (snd (fs_NewWritableFile (TableFileName dbname (fm_number meta)) env)).
Proof.
  intros D0 HS Hnum Hn Hrange Hids Hsrt Hfit (R & c & HFw & HR) Hfuel. unfold BuildTable. cbn [fm_number fm_allowed_seeks fm_file_size fm_smallest fm_largest].
  pose proof (fwd_first _ _ HFw _ _ HR) as HR1. unfold cur_first in HR1. pose proof (scan_here _ R (it_SeekToFirst iter) 0 HFw HR1) as Hh. cbn [drop D0 internal_entries map] in Hh.
  destruct Hh as (Hv & Ekv & _ & _). rewrite Hv. unfold write_table. cbn [fm_number fm_allowed_seeks fm_file_size fm_smallest fm_largest].
  destruct (NewWritableFile_store ids env disk s (fm_number meta) HS Hnum Hn Hrange) as (file & env1 & -> & Hfile & HS1 & Eenv1).
  assert (length (internal_entries D0) = length D0) as Hlen by apply length_map.
  destruct (build_loop_spec (internal_entries D0) R fuel 0 (it_SeekToFirst iter) [] (newTableBuilder (P := IP) bopts file) HFw HR1 ltac:(lia)) as (iter' & -> & Hst). rewrite drop_0.
  destruct (finish_table_spec ids env1 disk (set_env env1 s) (fm_number meta) D0 file HS1 Hnum Hn Hrange Hids Hsrt Hfit Hfile) as (size & env2 & f0 & -> & Hsz & HS2 & Eenv2).
  set (s2 := set_env env2 (set_env env1 s)) in *. unfold tc_NewIterator.
  destruct (FindTable_spec (W := W) (C := C) (P := P) slen zstlen sun zun dbname topts (ids + 1) env2 (<[fm_number meta := (size, D0)]> disk) s2 (fm_number meta) size D0 HS2 ltac:(apply lookup_insert_eq)) as (t & s3 & -> & HS3 & Ht3).
  cbn [it_status sum_iter]. destruct (so_tables _ _ _ _ _ _ HS3 _ _ Ht3) as (size' & vs' & Ed' & bo & blks & idx & f & id & HL & Hcon & Et & Hco & _).
  pose proof HL as [Hdata Hszf Hrio Hleno Hsep Hne Hsrto].
  destruct (TableIterator_sim (C := IC) (P := IP) slen zstlen sun zun bo blks idx f Hdata Hszf Hrio Hleno Hsep Hne Hsrto topts id default_read_options) as [Sim Hat0].
  pose proof (Hat0 (tc_block_cache s3) ltac:(by rewrite <- Et)) as Hat.
  pose proof (sim_status _ _ Sim _ _ Hat) as Hok. rewrite <- Et in Hok. cbn [it_status TableIter_iter tit_iter]. unfold TableIter_I. cbn [tit_table tit_options]. rewrite Hok. change (ok StatusOK) with true. cbv iota beta zeta.
  rewrite Hst. change (ok StatusOK) with true. cbn [negb fm_file_size fm_number fm_allowed_seeks fm_smallest fm_largest]. destruct (Z.ltb_spec 0 size); [|lia].
  exists size, env2, s3. split; [|split_and!; [lia|lia|done|by exists f0; rewrite Eenv2, Eenv1]]. do 3 f_equal. injection Ekv as Ek _. rewrite <- Ek. f_equal.
  assert (default [] (fst <$> last (internal_entries D0)) = encode_key (fst (List.last D0 (p0, v0)))) as ->.
  { apply last_entry_key. }
  rewrite zlen_encode_key. pose proof (zlen_nonneg (pik_user_key (fst (List.last D0 (p0, v0))))). destruct (Z.eqb_spec (zlen (pik_user_key (fst (List.last D0 (p0, v0)))) + 8) 0); [lia|done].
Qed.

Lemma BuildTable_spec (fuel : nat) (ids : Z) (env : E) (disk : gmap Z (Z * versions)) (s : TableCache E F K) (meta : FileMetaData) (iter : S) (p0 : ParsedInternalKey) (v0 : bytes) (D : versions) :
  let D0 := (p0, v0) :: D in
  Store ids env disk s -> numbers_ok disk -> disk !! fm_number meta = None -> 0 <= fm_number meta < 2 ^ 64 -> ids + 1 < 2 ^ 64 ->
  keys_sorted (C := IC) (internal_entries D0) -> table_fits D0 -> scans (internal_entries D0) iter -> (length D0 <= fuel)%nat ->
  exists size env' s', BuildTable (C := C) (P := IP) slen zstlen sun zun dbname bopts topts fuel iter meta s
      = Some (Ok tt, mkFileMetaData (fm_allowed_seeks meta) (fm_number meta) size (encode_key p0) (encode_key (fst (List.last D0 (p0, v0)))), s') /\
    0 < size < 2 ^ 32 /\ Store (ids + 1) env' (<[fm_number meta := (size, D0)]> disk) s'.
Proof. intros D0 ? ? ? ? ? ? ? ? ?. destruct (BuildTable_written fuel ids env disk s meta iter p0 v0 D) as (size & env' & s' & Eb & Hsz & HS & _); [done..|]. by exists size, env', s'. Qed.
End BuildTableSpec.
