(* ===== verification/CompactionRun.v ===== *)
(** * CompactionRun: what a compaction writes ([DBImpl::DoCompactionWork])

    The loop drops the entries that no reader can see: an entry that a newer one
    hides at the oldest snapshot, and a deletion with nothing left to delete below.
    [compact_ref] says the same of the whole list of entries; reads at the oldest
    snapshot or later do not change. *)

From S2P Require Import Prelude Status Coding Comparator Logging FilterPolicy DbFormat Env Format Iterator Block FilterBlock.
From S2P Require Import TwoLevelIterator TableBuilder Cache Table VersionEdit FileName DBIter Version VersionRead VersionSet Compaction Snapshot History.
From Stdlib Require Import Sorting.Sorted.

(** ** The entries that are dropped *)

Section DropDef.
Context {C : Comparator}.

(** [ds_user_key] is [None] when [has_current_user_key] is false. *)
Record DropState := mkDropState { ds_user_key : option bytes; ds_last_sequence : SequenceNumber; ds_compaction : Compaction }.

Definition newDropState (c : Compaction) : DropState := mkDropState None kMaxSequenceNumber c.

Definition drop_entry (smallest_snapshot : SequenceNumber) (key : bytes) (st : DropState) : bool * DropState :=
  match ParseInternalKey key with
  | None => (false, mkDropState None kMaxSequenceNumber (ds_compaction st))
  | Some ikey =>
      let same := match ds_user_key st with Some u => bool_decide (Compare (pik_user_key ikey) u = Eq) | None => false end in
      let '(user_key, last) := if same then (ds_user_key st, ds_last_sequence st) else (Some (pik_user_key ikey), kMaxSequenceNumber) in
      let '(drop, c) :=
        if last <=? smallest_snapshot then (true, ds_compaction st)
        else if bool_decide (pik_type ikey = kTypeDeletion) && (pik_sequence ikey <=? smallest_snapshot)
        then IsBaseLevelForKey (C := C) (pik_user_key ikey) (ds_compaction st)
        else (false, ds_compaction st) in
      (drop, mkDropState user_key (pik_sequence ikey) c)
  end.
End DropDef.

(** ** The loop *)

Section LoopDef.
Context {C : Comparator} {P : FilterPolicy} {S : Type} `{Iterator S} {W : Type} `{WritableFile W}.

Abbreviation IC := (InternalKeyComparator C).
Abbreviation IP := (InternalFilterPolicy P).

Record CompactState := mkCompactState { cs_input : S; cs_drop : DropState; cs_meta : FileMetaData; cs_builder : TableBuilder W }.

(** [file_size] marks whether something was written. *)
Definition add_output (key value : bytes) (meta : FileMetaData) (builder : TableBuilder W) : FileMetaData * TableBuilder W :=
  let smallest := if fm_file_size meta =? 0 then key else fm_smallest meta in
  (mkFileMetaData (fm_allowed_seeks meta) (fm_number meta) 1 smallest key, TableBuilder_Add (C := IC) (P := IP) key value builder).

Definition compact_entry (smallest_snapshot : SequenceNumber) (st : CompactState) : CompactState :=
  let key := it_key (cs_input st) in
  let '(drop, ds) := drop_entry (C := C) smallest_snapshot key (cs_drop st) in
  let '(meta, builder) := if drop : bool then (cs_meta st, cs_builder st) else add_output key (it_value (cs_input st)) (cs_meta st) (cs_builder st) in
  mkCompactState (it_Next (cs_input st)) ds meta builder.

(** [shutting i]: whether the database is shutting down when entry [i] is reached.
    [stopped stop] is a shutdown that the loop sees at entry [n], or none. *)
Definition stopped (stop : option nat) (i : nat) : bool := match stop with Some n => (n <=? i)%nat | None => false end.

Fixpoint compact_loop (fuel : nat) (shutting : nat -> bool) (i : nat) (smallest_snapshot : SequenceNumber) (st : CompactState) : option CompactState :=
  if it_Valid (cs_input st) && negb (shutting i) then
    match fuel with
    | O => None
    | Datatypes.S fuel => compact_loop fuel shutting (Datatypes.S i) smallest_snapshot (compact_entry smallest_snapshot st)
    end
  else Some st.
End LoopDef.

(** The entries before the shutdown, and a shutdown that comes after all of them. *)
Definition until {A : Type} (stop : option nat) (l : list A) : list A := match stop with Some n => take n l | None => l end.
Definition too_late {A : Type} (stop : option nat) (l : list A) : Prop := match stop with Some n => (length l <= n)%nat | None => True end.

Lemma until_too_late {A : Type} (stop : option nat) (l : list A) : too_late stop l -> until stop l = l.
Proof. destruct stop as [n|]; [apply take_ge|done]. Qed.

Lemma until_internal (stop : option nat) (D : versions) : until stop (internal_entries D) = internal_entries (until stop D).
Proof. destruct stop as [n|]; [symmetry; apply fmap_take|done]. Qed.

Lemma until_sublist {A : Type} (stop : option nat) (l : list A) : sublist (until stop l) l.
Proof. destruct stop as [n|]; [apply sublist_take|done]. Qed.

(** ** The reference: which entries of a sorted list are kept *)

Section Reference.
Context {C : Comparator} (smallest : SequenceNumber) (base : bytes -> bool).

(** An earlier entry of the same user key is visible at [smallest]. *)
Definition hidden (before : versions) (p : ParsedInternalKey) : bool :=
  existsb (fun qv => same_user (fst qv) p && (pik_sequence (fst qv) <=? smallest)) before.

Definition obsolete (p : ParsedInternalKey) : bool :=
  bool_decide (pik_type p = kTypeDeletion) && (pik_sequence p <=? smallest) && base (pik_user_key p).

Fixpoint compact_ref (before P : versions) : versions :=
  match P with
  | [] => []
  | pv :: P => (if hidden before (fst pv) || obsolete (fst pv) then [] else [pv]) ++ compact_ref (before ++ [pv]) P
  end.
End Reference.

Section DropSpec.
Context {C : Comparator} {CL : ComparatorLaws C} (smallest : SequenceNumber).

(** The entries that the loop keeps. *)
Fixpoint kept (ds : DropState) (kvs : entries) : entries * DropState :=
  match kvs with
  | [] => ([], ds)
  | kv :: kvs =>
      let '(drop, ds) := drop_entry (C := C) smallest (fst kv) ds in
      let '(rest, ds) := kept ds kvs in
      ((if drop : bool then [] else [kv]) ++ rest, ds)
  end.

Lemma IsBaseLevelForKey_spec (u : bytes) (c : Compaction) :
  version_sorted (C := C) (c_input_version c) -> length (c_level_ptrs c) = kNumLevels ->
  (forall lvl, ptr_ok (C := C) (c_input_version c) u lvl (nth lvl (c_level_ptrs c) 0%nat)) ->
  exists ptrs, IsBaseLevelForKey (C := C) u c = (is_base (C := C) (c_input_version c) (c_level c) u, set_level_ptrs ptrs c) /\
    length ptrs = kNumLevels /\ forall lvl, ptr_ok (C := C) (c_input_version c) u lvl (nth lvl ptrs 0%nat).
Proof.
  intros Hv Hlen Hptr. unfold IsBaseLevelForKey.
  pose proof (base_level_loop_spec (c_input_version c) u (seq (c_level c + 2) (kNumLevels - (c_level c + 2))) (c_level_ptrs c) Hv) as Hb.
  destruct (base_level_loop u _ _ _) as [base ptrs]. destruct Hb as (-> & Hl & Hp); [|done|].
  - intros lvl Hlvl. apply elem_of_seq in Hlvl. rewrite Hlen. lia.
  - exists ptrs. split; [done|]. split; [congruence|done].
Qed.

Lemma ptr_ok_mono (v : Version) (u u' : bytes) (lvl ptr : nat) : cle u u' -> ptr_ok (C := C) v u lvl ptr -> ptr_ok (C := C) v u' lvl ptr.
Proof. intros Hu Hp i f Hi Hf. eapply clt_cle_trans; [by apply (Hp i f)|done]. Qed.

(** The internal order on two entries. *)
Lemma internal_lt_cases (p q : ParsedInternalKey) :
  seq_ok (pik_sequence p) -> seq_ok (pik_sequence q) -> @clt (InternalKeyComparator C) (encode_key p) (encode_key q) ->
  clt (pik_user_key p) (pik_user_key q) \/ (ceq (pik_user_key p) (pik_user_key q) /\ pik_sequence q <= pik_sequence p).
Proof.
  intros Hp Hq Hlt. unfold clt in Hlt. cbn [Compare InternalKeyComparator] in Hlt. rewrite ikc_Compare_encode in Hlt by done. unfold clt, ceq.
  destruct (Compare (pik_user_key p) (pik_user_key q)); [right|by left|done]. split; [done|]. destruct (Z.compare_spec (pik_sequence q) (pik_sequence p)); [lia|lia|done].
Qed.

Lemma sorted_pairs (before P : versions) (r q : ParsedInternalKey) (x y : bytes) :
  keys_sorted (C := InternalKeyComparator C) (internal_entries (before ++ P)) -> (forall p v, (p, v) ∈ before ++ P -> seq_ok (pik_sequence p)) ->
  (r, x) ∈ before -> (q, y) ∈ P -> clt (pik_user_key r) (pik_user_key q) \/ (ceq (pik_user_key r) (pik_user_key q) /\ pik_sequence q <= pik_sequence r).
Proof.
  intros HS Hseq Hr Hq. apply internal_lt_cases; [apply (Hseq r x), elem_of_app; by left|apply (Hseq q y), elem_of_app; by right|].
  unfold internal_entries in HS. rewrite map_app in HS.
  assert (forall a b, a ∈ map (fun pv => (encode_key (fst pv), snd pv)) before -> b ∈ map (fun pv => (encode_key (fst pv), snd pv)) P ->
    @clt (InternalKeyComparator C) (fst a) (fst b)) as H.
  { clear -HS. unfold keys_sorted in HS. induction before as [|e l IH]; cbn [map app] in *; intros a b Ha Hb; [by apply not_elem_of_nil in Ha|].
    apply StronglySorted_inv in HS as [HS Hx]. apply elem_of_cons in Ha as [->|Ha]; [|by apply IH].
    rewrite List.Forall_forall in Hx. apply Hx, in_app_iff. right. by apply list_elem_of_In. }
  apply (H (encode_key r, x) (encode_key q, y)); apply list_elem_of_fmap; [exists (r, x)|exists (q, y)]; done.
Qed.

(** [ds] after the entries [before], with [P] to come. *)
Record DropInv (c0 : Compaction) (before P : versions) (ds : DropState) : Prop := {
  dr_version : exists ptrs, ds_compaction ds = set_level_ptrs ptrs c0;
  dr_length : length (c_level_ptrs (ds_compaction ds)) = kNumLevels;
  dr_ptrs : forall p v lvl, (p, v) ∈ P -> ptr_ok (C := C) (c_input_version c0) (pik_user_key p) lvl (nth lvl (c_level_ptrs (ds_compaction ds)) 0%nat);
  dr_last : match last before with
            | Some (q, _) => ds_last_sequence ds = pik_sequence q /\ exists u, ds_user_key ds = Some u /\ ceq u (pik_user_key q)
            | None => ds_user_key ds = None
            end
}.

Lemma hidden_last (before P : versions) (p q : ParsedInternalKey) (v w : bytes) :
  keys_sorted (C := InternalKeyComparator C) (internal_entries ((before ++ [(q, w)]) ++ (p, v) :: P)) ->
  (forall p' v', (p', v') ∈ (before ++ [(q, w)]) ++ (p, v) :: P -> seq_ok (pik_sequence p')) ->
  hidden (C := C) smallest (before ++ [(q, w)]) p = same_user (C := C) q p && (pik_sequence q <=? smallest).
Proof.
  intros HS Hseq. apply eq_true_iff_eq. unfold hidden. rewrite existsb_exists, andb_true_iff, same_user_true. split.
  - intros ([r x] & Hr & Hs). cbn [fst] in Hs. apply andb_true_iff in Hs as [Hsu Hle]. apply same_user_true in Hsu. apply Z.leb_le in Hle. apply list_elem_of_In in Hr.
    apply elem_of_app in Hr as [Hr|Hr%list_elem_of_singleton]; [|injection Hr as -> ->; split; [done|by apply Z.leb_le]].
    assert ((q, w) ∈ (q, w) :: (p, v) :: P) as Hq by by left. rewrite <- app_assoc in HS, Hseq. cbn [app] in HS, Hseq.
    destruct (sorted_pairs before ((q, w) :: (p, v) :: P) r q x w HS Hseq Hr Hq) as [Hlt|[He Hsq]].
    + exfalso. replace (before ++ (q, w) :: (p, v) :: P) with ((before ++ [(q, w)]) ++ (p, v) :: P) in HS, Hseq by (by rewrite <- app_assoc).
      assert ((q, w) ∈ before ++ [(q, w)]) as Hq' by (apply elem_of_app; right; by left).
      destruct (sorted_pairs (before ++ [(q, w)]) ((p, v) :: P) q p w v HS Hseq Hq' ltac:(by left)) as [Hlt'|[He' _]]; apply (clt_irrefl (pik_user_key r)).
      * eapply clt_cle_trans; [exact Hlt|]. apply clt_cle in Hlt'. eapply cmp_le_trans; [exact Hlt'|]. by apply ceq_cle, ceq_sym.
      * eapply clt_cle_trans; [exact Hlt|]. eapply cmp_le_trans; [apply ceq_cle, He'|]. by apply ceq_cle, ceq_sym.
    + split; [|apply Z.leb_le; lia]. eapply ceq_trans; [apply ceq_sym, He|done].
  - intros [He Hle]. exists (q, w). split; [apply in_app_iff; right; by left|]. cbn [fst]. apply andb_true_iff. split; [by apply same_user_true|done].
Qed.

Context (Hsmall : smallest < kMaxSequenceNumber) (c0 : Compaction) (Hv : version_sorted (C := C) (c_input_version c0)).

Abbreviation base := (is_base (C := C) (c_input_version c0) (c_level c0)).

(** Whether the current user key goes on, and its last sequence number. *)
Lemma drop_last (before P : versions) (p : ParsedInternalKey) (v : bytes) (ds : DropState) :
  keys_sorted (C := InternalKeyComparator C) (internal_entries (before ++ (p, v) :: P)) ->
  (forall p' v', (p', v') ∈ before ++ (p, v) :: P -> seq_ok (pik_sequence p')) -> DropInv c0 before ((p, v) :: P) ds ->
  exists u last, (if match ds_user_key ds with Some u => bool_decide (Compare (pik_user_key p) u = Eq) | None => false end
     then (ds_user_key ds, ds_last_sequence ds) else (Some (pik_user_key p), kMaxSequenceNumber)) = (Some u, last) /\
    ceq u (pik_user_key p) /\ (last <=? smallest) = hidden (C := C) smallest before p.
Proof.
  intros HS Hseq HI. pose proof (dr_last _ _ _ _ HI) as HL. assert ((kMaxSequenceNumber <=? smallest) = false) as Hmax by (apply Z.leb_gt; done).
  destruct before as [|[q w] b' _] using rev_ind.
  - cbn in HL. rewrite HL. exists (pik_user_key p), kMaxSequenceNumber. split_and!; [done|apply ceq_refl|done].
  - rewrite last_snoc in HL. destruct HL as (El & u & Eu & Hu). rewrite Eu, (hidden_last b' P p q v w HS Hseq). destruct (bool_decide _) eqn:Eb.
    + apply bool_decide_eq_true in Eb. exists u, (ds_last_sequence ds). assert (ceq u (pik_user_key p)) as Hup by (by apply ceq_sym).
      split_and!; [done|done|]. rewrite El. assert (same_user (C := C) q p = true) as -> by (apply same_user_true; eapply ceq_trans; [apply ceq_sym, Hu|done]). done.
    + apply bool_decide_eq_false in Eb. exists (pik_user_key p), kMaxSequenceNumber. split_and!; [done|apply ceq_refl|]. rewrite Hmax.
      destruct (same_user q p) eqn:Es; [|done]. apply same_user_true in Es. destruct Eb. apply ceq_sym. by eapply ceq_trans.
Qed.

Lemma drop_entry_spec (before P : versions) (p : ParsedInternalKey) (v : bytes) (ds : DropState) :
  keys_sorted (C := InternalKeyComparator C) (internal_entries (before ++ (p, v) :: P)) ->
  (forall p' v', (p', v') ∈ before ++ (p, v) :: P -> seq_ok (pik_sequence p')) -> DropInv c0 before ((p, v) :: P) ds ->
  exists ds', drop_entry (C := C) smallest (encode_key p) ds = (hidden (C := C) smallest before p || obsolete smallest base p, ds') /\ DropInv c0 (before ++ [(p, v)]) P ds'.
Proof.
  intros HS Hseq HI. pose proof HI as [(ptrs0 & Ec) Hlen Hptr _].
  assert (c_input_version (ds_compaction ds) = c_input_version c0 /\ c_level (ds_compaction ds) = c_level c0) as [Ev El] by (by rewrite Ec).
  assert (forall q w, (q, w) ∈ P -> cle (pik_user_key p) (pik_user_key q)) as Hnext.
  { intros q w Hq. rewrite cons_middle, app_assoc in HS, Hseq. assert ((p, v) ∈ before ++ [(p, v)]) as Hp by (apply elem_of_app; right; by left).
    destruct (sorted_pairs (before ++ [(p, v)]) P p q v w HS Hseq Hp Hq) as [H|[H _]]; [by apply clt_cle|by apply ceq_cle]. }
  assert (seq_ok (pik_sequence p)) as Hp by (apply (Hseq p v), elem_of_app; right; by left).
  destruct (drop_last before P p v ds HS Hseq HI) as (u & last & Eif & Hu & Ehid). unfold drop_entry. rewrite ParseInternalKey_encode by done. cbv zeta. rewrite Eif, Ehid.
  assert (forall c', (exists ptrs, c' = set_level_ptrs ptrs c0) -> length (c_level_ptrs c') = kNumLevels ->
    (forall lvl, ptr_ok (C := C) (c_input_version c0) (pik_user_key p) lvl (nth lvl (c_level_ptrs c') 0%nat)) ->
    DropInv c0 (before ++ [(p, v)]) P (mkDropState (Some u) (pik_sequence p) c')) as Hinv.
  { intros c' Hc' Hl' Hp'. split; cbn [ds_compaction ds_user_key ds_last_sequence]; [done|done| |].
    - intros q w lvl Hq. eapply ptr_ok_mono; [by eapply Hnext|apply Hp'].
    - rewrite last_snoc. split; [done|]. by exists u. }
  assert (forall lvl, ptr_ok (C := C) (c_input_version c0) (pik_user_key p) lvl (nth lvl (c_level_ptrs (ds_compaction ds)) 0%nat)) as Hptr0 by (intros lvl; apply (Hptr p v); by left).
  destruct (hidden smallest before p); cbn [orb]; [eexists; split; [reflexivity|]; apply Hinv; eauto|]. unfold obsolete.
  destruct (bool_decide (pik_type p = kTypeDeletion) && (pik_sequence p <=? smallest)); cbn [andb]; [|eexists; split; [reflexivity|]; apply Hinv; eauto].
  destruct (IsBaseLevelForKey_spec (pik_user_key p) (ds_compaction ds)) as (ptrs & Eb & Hl' & Hp'); [by rewrite Ev|done|by rewrite Ev|].
  rewrite Eb, Ev, El. eexists. split; [reflexivity|]. rewrite Ev in Hp'. apply Hinv; [|done|done]. exists ptrs. by rewrite Ec.
Qed.

Lemma kept_spec (before P : versions) (ds : DropState) :
  keys_sorted (C := InternalKeyComparator C) (internal_entries (before ++ P)) -> (forall p v, (p, v) ∈ before ++ P -> seq_ok (pik_sequence p)) ->
  DropInv c0 before P ds ->
  fst (kept ds (internal_entries P)) = internal_entries (compact_ref (C := C) smallest base before P) /\ DropInv c0 (before ++ P) [] (snd (kept ds (internal_entries P))).
Proof.
  revert before ds. induction P as [|[p v] P IH]; intros before ds HS Hseq HI; [by rewrite app_nil_r|].
  cbn [internal_entries map kept fst snd compact_ref]. destruct (drop_entry_spec before P p v ds HS Hseq HI) as (ds' & -> & HI').
  rewrite cons_middle, app_assoc in HS, Hseq. destruct (IH (before ++ [(p, v)]) ds' HS Hseq HI') as [E HI2]. fold (internal_entries P).
  destruct (kept ds' (internal_entries P)) as [rest ds2]. cbn [fst snd] in *. rewrite <- app_assoc in HI2. split; [|done].
  unfold internal_entries. rewrite map_app. fold (internal_entries (compact_ref (C := C) smallest base (before ++ [(p, v)]) P)). rewrite <- E. f_equal. by destruct (_ || _).
Qed.

Lemma newDropState_inv (P : versions) :
  c_level_ptrs c0 = replicate kNumLevels 0%nat -> DropInv c0 [] P (newDropState c0).
Proof.
  intros E. split; cbn [newDropState ds_compaction ds_user_key]; [exists (c_level_ptrs c0); by destruct c0|by rewrite E| |done]. intros p v lvl _ i f Hi. rewrite E, nth_lookup in Hi.
  destruct (replicate kNumLevels 0%nat !! lvl) eqn:El; [apply lookup_replicate in El as [-> _]|]; cbn in Hi; lia.
Qed.
End DropSpec.

(** A part of a sorted list is sorted. *)
Lemma keys_sorted_sublist {C : Comparator} (P Q : versions) :
  sublist Q P -> keys_sorted (C := InternalKeyComparator C) (internal_entries P) -> keys_sorted (C := InternalKeyComparator C) (internal_entries Q).
Proof.
  intros Hs. unfold keys_sorted, internal_entries. induction Hs as [|x l1 l2 Hs IH|x l1 l2 Hs IH]; cbn [map]; [done| |].
  - intros [HS Hx]%StronglySorted_inv. constructor; [by apply IH|]. rewrite List.Forall_forall in Hx |- *. intros y Hy. apply Hx.
    apply in_map_iff in Hy as (z & <- & Hz). apply in_map_iff. exists z. split; [done|]. apply list_elem_of_In. apply list_elem_of_In in Hz. by eapply elem_of_sublist.
  - intros [HS _]%StronglySorted_inv. by apply IH.
Qed.

(** ** Reads after a compaction *)

Section Reads.
Context {C : Comparator} {CL : ComparatorLaws C} (Heq : forall a b, ceq a b -> a = b) (smallest : SequenceNumber) (base : bytes -> bool).

Abbreviation cref := (compact_ref (C := C) smallest base).

Lemma elem_of_compact_ref (before P : versions) (q : ParsedInternalKey) (w : bytes) :
  (q, w) ∈ cref before P <-> exists P1 P2, P = P1 ++ (q, w) :: P2 /\ hidden (C := C) smallest (before ++ P1) q = false /\ obsolete smallest base q = false.
Proof.
  revert before. induction P as [|pv P IH]; intros before; cbn [compact_ref].
  - split; [by intros ?%not_elem_of_nil|]. intros (P1 & P2 & E & _). by destruct P1.
  - rewrite elem_of_app, IH. split.
    + intros [H|(P1 & P2 & -> & Hh & Ho)].
      * destruct (hidden smallest before (fst pv) || obsolete smallest base (fst pv)) eqn:E; [by apply not_elem_of_nil in H|]. apply list_elem_of_singleton in H as <-.
        apply orb_false_iff in E as [E1 E2]. exists [], P. by rewrite app_nil_r.
      * exists (pv :: P1), P2. split_and!; [done| |done]. by rewrite <- app_assoc in Hh.
    + intros (P1 & P2 & E & Hh & Ho). destruct P1 as [|x P1]; injection E as -> ->.
      * left. rewrite app_nil_r in Hh. cbn [fst]. rewrite Hh, Ho. by left.
      * right. exists P1, P2. split_and!; [done| |done]. by rewrite <- app_assoc.
Qed.

Lemma compact_ref_sublist (before P : versions) : sublist (cref before P) P.
Proof.
  revert before. induction P as [|pv P IH]; intros before; cbn [compact_ref]; [constructor|]. destruct (_ || _); cbn [app]; [by apply sublist_cons|by apply sublist_skip].
Qed.

Lemma hidden_true (before : versions) (p : ParsedInternalKey) :
  hidden (C := C) smallest before p = true <-> exists q w, (q, w) ∈ before /\ pik_user_key q = pik_user_key p /\ pik_sequence q <= smallest.
Proof.
  unfold hidden. rewrite existsb_exists. split.
  - intros ([q w] & Hin & Ha). cbn [fst] in Ha. apply andb_true_iff in Ha as [Hs Hl]. exists q, w. apply same_user_true, Heq in Hs. apply Z.leb_le in Hl. by rewrite list_elem_of_In.
  - intros (q & w & Hin & Hu & Hl). exists (q, w). split; [by apply list_elem_of_In|]. cbn [fst]. apply andb_true_iff. split; [apply same_user_true; rewrite Hu; apply ceq_refl|by apply Z.leb_le].
Qed.

Context (P : versions) (Hseq : forall p v, (p, v) ∈ P -> seq_ok (pik_sequence p)) (HS : keys_sorted (C := InternalKeyComparator C) (internal_entries P)).

(** Of two entries of a user key, the earlier one is newer. *)
Lemma earlier_is_newer (P1 P2 : versions) (p q : ParsedInternalKey) (v w : bytes) :
  P = P1 ++ (q, w) :: P2 -> distinct P -> (p, v) ∈ P1 -> pik_user_key p = pik_user_key q -> pik_sequence q < pik_sequence p.
Proof.
  intros EP Hd Hp Hu. assert ((p, v) ∈ P) as HpP by (rewrite EP; apply elem_of_app; by left). assert ((q, w) ∈ P) as HqP by (rewrite EP; apply elem_of_app; right; by left).
  rewrite EP in HS, Hseq. destruct (sorted_pairs P1 ((q, w) :: P2) p q v w HS Hseq Hp ltac:(by left)) as [Hlt|[_ Hle]]; [rewrite Hu in Hlt; by apply clt_irrefl in Hlt|].
  destruct (Z.eq_dec (pik_sequence q) (pik_sequence p)) as [E|]; [|lia]. exfalso. assert ((p, v) = (q, w)) as Epq by (by apply Hd). injection Epq as -> ->.
  apply list_elem_of_split in Hp as (l1 & l2 & ->). unfold internal_entries, keys_sorted in HS. rewrite !map_app in HS. cbn [map] in HS. rewrite <- app_assoc in HS.
  clear -HS CL. induction (map _ l1) as [|x l IH]; cbn [app] in HS; apply StronglySorted_inv in HS as [HS Hx]; [|by apply IH].
  rewrite List.Forall_forall in Hx. apply (clt_irrefl (C := InternalKeyComparator C) (encode_key q)). apply (Hx (encode_key q, w)). apply in_app_iff. right. by left.
Qed.

Lemma compact_newest (u : bytes) (s : SequenceNumber) (p : ParsedInternalKey) (v : bytes) :
  distinct P -> smallest <= s -> newest_in P u s p v ->
  (p, v) ∈ cref [] P \/ (obsolete smallest base p = true /\ forall q w, (q, w) ∈ cref [] P -> ~ VersionRead.visible u s q).
Proof.
  intros Hd Hs (Hp & Hv & Hm). destruct (obsolete smallest base p) eqn:Eo.
  - right. split; [done|]. intros q w Hq Hvq. apply elem_of_compact_ref in Hq as (P1 & P2 & EP & Hh & Ho). cbn [app] in Hh.
    assert ((q, w) ∈ P) as HqP by (rewrite EP; apply elem_of_app; right; by left). specialize (Hm q w HqP Hvq).
    unfold obsolete in Eo. apply andb_true_iff in Eo as [Eo Eb]. apply andb_true_iff in Eo as [Et El]. apply Z.leb_le in El.
    rewrite EP in Hp. apply elem_of_app in Hp as [Hp|Hp].
    + apply not_true_iff_false in Hh. apply Hh, hidden_true. exists p, v. split_and!; [done| |done]. rewrite (proj1 Hv), (proj1 Hvq). done.
    + apply elem_of_cons in Hp as [[= -> ->]|Hp]; [unfold obsolete in Ho; rewrite Et, Eb, (proj2 (Z.leb_le _ _) El) in Ho; done|].
      apply list_elem_of_split in Hp as (l1 & l2 & ->).
      assert (pik_sequence p < pik_sequence q); [|lia]. apply (earlier_is_newer (P1 ++ (q, w) :: l1) l2 q p w v); [by rewrite EP, <- app_assoc|done| |].
      * apply elem_of_app. right. by left.
      * by rewrite (proj1 Hv), (proj1 Hvq).
  - left. apply list_elem_of_split in Hp as (P1 & P2 & EP). apply elem_of_compact_ref. exists P1, P2. split_and!; [done| |done]. cbn [app].
    apply not_true_iff_false. intros (q & w & Hq & Hu & Hl)%hidden_true.
    pose proof (earlier_is_newer P1 P2 q p w v EP Hd Hq Hu) as Hlt.
    assert (pik_sequence q <= pik_sequence p); [|lia]. apply (Hm q w); [rewrite EP; apply elem_of_app; by left|]. split; [rewrite Hu; apply Hv|lia].
Qed.

(** The rest of the database may have newer entries of a key, or none that is older
    than a deletion that goes away. *)
Lemma compact_answers (R : versions) (u : bytes) (s : SequenceNumber) (r : option bytes) :
  distinct P -> smallest <= s ->
  (forall p q v w, (p, v) ∈ P -> (q, w) ∈ R -> pik_user_key p = pik_user_key q -> base (pik_user_key p) = true -> pik_sequence p < pik_sequence q) ->
  answers (R ++ P) u s r -> answers (R ++ cref [] P) u s r.
Proof.
  intros Hd Hs Hbase. assert (forall q w, (q, w) ∈ cref [] P -> (q, w) ∈ P) as Hsub.
  { intros q w (P1 & P2 & -> & _)%elem_of_compact_ref. apply elem_of_app. right. by left. }
  intros [[-> Hn]|(p & v & (Hp & Hv & Hm) & ->)].
  - left. split; [done|]. intros p v [Hp|Hp]%elem_of_app; [apply (Hn p v), elem_of_app; by left|apply (Hn p v), elem_of_app; right; by apply Hsub].
  - assert (forall q w, (q, w) ∈ R ++ cref [] P -> VersionRead.visible u s q -> pik_sequence q <= pik_sequence p) as Hm'.
    { intros q w Hq. apply (Hm q w). apply elem_of_app in Hq as [Hq|Hq]; apply elem_of_app; [by left|right; by apply Hsub]. }
    apply elem_of_app in Hp as [Hp|Hp]; [right; exists p, v; split; [|done]; split_and!; [apply elem_of_app; by left|done|done]|].
    destruct (compact_newest u s p v Hd Hs) as [Hk|[Ho Hnone]].
    + split_and!; [done|done|]. intros q w Hq. apply (Hm q w), elem_of_app. by right.
    + right. exists p, v. split; [|done]. split_and!; [apply elem_of_app; by right|done|done].
    + unfold obsolete in Ho. apply andb_true_iff in Ho as [Ho Hb]. apply andb_true_iff in Ho as [Ht _]. apply bool_decide_eq_true in Ht. left.
      split; [unfold entry_answer; cbn; by rewrite Ht|]. intros q w [Hq|Hq]%elem_of_app Hvq; [|by apply (Hnone q w)].
      assert (pik_sequence p < pik_sequence q); [|specialize (Hm' q w); rewrite elem_of_app in Hm'; specialize (Hm' ltac:(by left) Hvq); lia].
      apply (Hbase p q v w Hp Hq); [by rewrite (proj1 Hv), (proj1 Hvq)|done].
Qed.
End Reads.
