(* ===== verification/VersionChange.v ===== *)
(** * VersionChange: versions after a flush or a compaction

    A flush adds one file to a version; a trivial move or a compaction takes input
    files out and puts one file on the next level.  What a version must satisfy for
    reads to find the newest entry ([VersionOk]) holds again after both, because of
    where [PickLevelForMemTableOutput] puts the file and of the files that
    [SetupOtherInputs] takes. *)

From stdpp Require Import sorting.
From S2P Require Import Prelude Status Coding Comparator DbFormat VersionEdit Format Iterator DBIter Version VersionRead VersionBuilder VersionSet Compaction History CompactionRun.
From Stdlib Require Import Sorting.Sorted.

#[export] Instance FileMetaData_eq_dec : EqDecision FileMetaData.
Proof. solve_decision. Defined.

Section Change.
Context {C : Comparator} {CL : ComparatorLaws C}.

Abbreviation IC := (InternalKeyComparator C).
Abbreviation iclt := (@clt IC).
Abbreviation icle := (@cle IC).
Abbreviation ukey := InternalKey_user_key.

(** ** Files apart from each other *)

Definition apart (f g : FileMetaData) : Prop := iclt (fm_largest f) (fm_smallest g) \/ iclt (fm_largest g) (fm_smallest f).

Lemma smaller_smallest (f g : FileMetaData) : smaller (C := C) f g -> icle (fm_smallest f) (fm_smallest g).
Proof.
  unfold smaller, BySmallestKey. change (ikc_Compare C (fm_smallest f) (fm_smallest g)) with (Compare (Comparator := IC) (fm_smallest f) (fm_smallest g)).
  destruct (Compare (Comparator := IC) _ _) eqn:Ec; [intros _; by apply (ceq_cle (C := IC))|intros _; by apply (clt_cle (C := IC))|done].
Qed.

Lemma apart_sorted (l : list FileMetaData) :
  StronglySorted (smaller (C := C)) l -> Forall (file_ok (C := C)) l -> (forall f g, f ∈ l -> g ∈ l -> f <> g -> apart f g) -> files_sorted (C := C) l.
Proof.
  intros Hs Hok Ha. induction Hs as [|f l Hs IH Hf]; [constructor|]. apply Forall_cons in Hok as [Hfo Hok]. constructor.
  - apply IH; [done|]. intros x y Hx Hy. apply Ha; by right.
  - apply List.Forall_forall. rewrite List.Forall_forall in Hf. intros g Hg. specialize (Hf g Hg). assert (f <> g) as Hne.
    { intros <-. unfold smaller in Hf. pose proof (BySmallestKey_antisym (C := C) f f) as E. rewrite Hf in E. discriminate E. }
    destruct (Ha f g) as [H|H]; [by left|right; by apply list_elem_of_In|done|done|]. exfalso. rewrite Forall_forall in Hok.
    apply (clt_irrefl (C := IC) (fm_smallest f)). eapply (cle_clt_trans (C := IC)); [by apply smaller_smallest|]. eapply (cle_clt_trans (C := IC)); [|exact H].
    apply Hok. by apply list_elem_of_In.
Qed.

Lemma sorted_apart (l : list FileMetaData) (f g : FileMetaData) : files_sorted (C := C) l -> f ∈ l -> g ∈ l -> f <> g -> apart f g.
Proof.
  intros Hs [i Hi]%list_elem_of_lookup [j Hj]%list_elem_of_lookup Hne. destruct (lt_eq_lt_dec i j) as [[Hij|Hij]|Hij].
  - left. by eapply files_sorted_lt.
  - subst j. congruence.
  - right. by eapply files_sorted_lt.
Qed.

(** Internal keys that compare equal are equal. *)
Lemma encode_key_ceq (Heq : forall a b, ceq a b -> a = b) (p q : ParsedInternalKey) :
  @ceq IC (encode_key p) (encode_key q) -> seq_ok (pik_sequence p) -> seq_ok (pik_sequence q) -> p = q.
Proof.
  intros He Hp Hq. change (ikc_Compare C (encode_key p) (encode_key q) = Eq) in He. rewrite ikc_Compare_encode in He by done.
  destruct (Compare (pik_user_key p) (pik_user_key q)) eqn:Ec; try done. apply Heq in Ec. destruct p as [u s t], q as [u' s' t']; cbn in *.
  destruct (Z.compare_spec s' s) as [->|?|?]; try done. f_equal; [done|]. destruct t, t'; done.
Qed.

(** Entries of files that are apart, with one user key. *)
Lemma file_entries_newer (f g : FileMetaData) (P Q : versions) (p q : ParsedInternalKey) (v w : bytes) :
  contents_ok (C := C) f P -> contents_ok (C := C) g Q -> iclt (fm_largest f) (fm_smallest g) -> (p, v) ∈ P -> (q, w) ∈ Q ->
  pik_user_key p = pik_user_key q -> (pik_sequence p = pik_sequence q -> p = q) -> pik_sequence q < pik_sequence p.
Proof.
  intros Hf Hg Hlt Hp Hq E Hd. assert (iclt (encode_key p) (encode_key q)) as Hpq.
  { eapply (cle_clt_trans (C := IC)); [by apply (co_range _ _ Hf p v)|]. eapply (clt_cle_trans (C := IC)); [exact Hlt|by apply (co_range _ _ Hg q w)]. }
  destruct (internal_lt_cases p q) as [H|[_ H]]; [by apply (co_seq _ _ Hf p v)|by apply (co_seq _ _ Hg q w)|done| |].
  - rewrite E in H. by apply clt_irrefl in H.
  - destruct (decide (pik_sequence p = pik_sequence q)) as [Es|Es]; [|lia]. rewrite (Hd Es) in Hpq. by apply (clt_irrefl (C := IC)) in Hpq.
Qed.

Lemma file_range_user (f : FileMetaData) (P : versions) (p : ParsedInternalKey) (v : bytes) :
  contents_ok (C := C) f P -> (p, v) ∈ P -> cle (ukey (fm_smallest f)) (pik_user_key p) /\ cle (pik_user_key p) (ukey (fm_largest f)).
Proof.
  intros Hf Hp. destruct (co_range _ _ Hf p v Hp) as [H1 H2]. apply icle_user in H1, H2. unfold InternalKey_user_key in *.
  by rewrite ExtractUserKey_encode in H1, H2.
Qed.

Lemma share_by_entries (f g : FileMetaData) (P Q : versions) (p q : ParsedInternalKey) (v w : bytes) :
  contents_ok (C := C) f P -> contents_ok (C := C) g Q -> (p, v) ∈ P -> (q, w) ∈ Q -> pik_user_key p = pik_user_key q -> share_key (C := C) f g.
Proof.
  intros Hf Hg Hp Hq E. destruct (file_range_user f P p v Hf Hp) as [F1 F2]. destruct (file_range_user g Q q w Hg Hq) as [G1 G2]. rewrite E in *.
  split; eapply cmp_le_trans; done.
Qed.

(** The numbers of the files of a level differ. *)
Lemma rep_NoDup (v : Version) (M : file_map) (l : nat) : version_rep (C := C) v M -> NoDup (map fm_number (files_ v l)).
Proof.
  intros Hrep. apply NoDup_fmap_2_strong.
  - intros g h Hg%(vr_files _ _ Hrep) Hh%(vr_files _ _ Hrep) E. rewrite E in Hg. congruence.
  - pose proof (vr_sorted _ _ Hrep l) as Hs. induction Hs as [|g fs _ IH Hg]; constructor; [|done]. intros Hin%list_elem_of_In.
    rewrite List.Forall_forall in Hg. specialize (Hg g Hin). unfold smaller in Hg. pose proof (BySmallestKey_antisym (C := C) g g) as E. rewrite Hg in E. discriminate E.
Qed.

(** ** One file in place of others *)

(** [v'] has the files of [v] that are not [gone], and [f] on [level]. *)
Definition replaces (v : Version) (gone : nat * FileMetaData -> Prop) (level : nat) (f : FileMetaData) (v' : Version) : Prop :=
  forall lg, in_version v' lg <-> lg = (level, f) \/ (in_version v lg /\ ~ gone lg).

Section Replace.
Context (v : Version) (contents : FileMetaData -> versions) (gone : nat * FileMetaData -> Prop) (level : nat) (f : FileMetaData) (v' : Version) (M' : file_map).
Context (Hv : VersionOk (C := C) v contents) (Hrep : version_rep (C := C) v' M') (Hr : replaces v gone level f v').

Definition stays (lg : nat * FileMetaData) : Prop := in_version v lg /\ ~ gone lg.

Lemma replaces_ok :
  (forall l, zlen (files_ v' l) < 2 ^ 31) -> file_ok (C := C) f -> contents_ok (C := C) f (contents f) ->
  ((0 < level)%nat -> forall g, stays (level, g) -> apart g f) ->
  (forall lg p q x y, stays lg -> searched_before lg (level, f) -> (p, x) ∈ contents (snd lg) -> (q, y) ∈ contents f ->
     pik_user_key p = pik_user_key q -> pik_sequence q < pik_sequence p) ->
  (forall lg p q x y, stays lg -> searched_before (level, f) lg -> (p, x) ∈ contents f -> (q, y) ∈ contents (snd lg) ->
     pik_user_key p = pik_user_key q -> pik_sequence q < pik_sequence p) ->
  VersionOk (C := C) v' contents.
Proof.
  intros Hsz Hfo Hco Hap Hnew Hold. assert (forall lg, in_version v' lg -> file_ok (C := C) (snd lg) /\ contents_ok (C := C) (snd lg) (contents (snd lg))) as Hfiles.
  { intros lg [->|[Hlg _]]%Hr; [done|by apply Hv]. }
  split; [done| |done| |].
  - intros l Hl. assert (forall g, g ∈ files_ v' l -> in_version v' (l, g)) as Hin by (intros g Hg; split; [cbn; lia|done]). apply apart_sorted; [apply Hrep| |].
    + apply Forall_forall. intros g Hg. by apply (Hfiles (l, g)), Hin.
    + intros g h Hg%Hin%Hr Hh%Hin%Hr Hne. destruct Hg as [[= E1 E2]|Hg], Hh as [[= E3 E4]|Hh]; [congruence|subst l g|subst l h|].
      * destruct (Hap ltac:(lia) h Hh) as [H|H]; [by right|by left].
      * by apply Hap; [lia|].
      * apply (sorted_apart (files_ v l)); [by apply Hv|apply Hg|apply Hh|done].
  - by eapply rep_NoDup.
  - intros lf lg p q x y [->|Hf]%Hr [->|Hg]%Hr Hs Hp Hq E.
    + destruct Hs as [Hs|(_ & _ & Hs)]; cbn in Hs; lia.
    + by apply (Hold lg p q x y).
    + by apply (Hnew lf p q x y).
    + by apply (vo_recent _ _ Hv lf lg p q x y); [apply Hf|apply Hg|..].
Qed.
End Replace.

Lemma VersionOk_sorted (v : Version) (contents : FileMetaData -> versions) :
  VersionOk (C := C) v contents -> length (v_files v) = kNumLevels -> version_sorted (C := C) v.
Proof.
  intros Hv Hlen. assert (forall level, (kNumLevels <= level)%nat -> files_ v level = []) as Hout by (intros level Hl; apply nth_overflow; lia). split; intros level.
  - destruct (decide (level < kNumLevels)%nat) as [Hl|Hl]; [|rewrite Hout by lia; constructor]. apply Forall_forall. intros f Hf. by apply (vo_files _ _ Hv (level, f)).
  - intros H0. destruct (decide (level < kNumLevels)%nat) as [Hl|Hl]; [|rewrite Hout by lia; constructor]. apply Hv. lia.
Qed.

(** ** Adding the table of a memtable *)

Definition clear_of (v : Version) (level : nat) (lo hi : bytes) : Prop := forall g, g ∈ files_ v level -> overlaps (C := C) (Some lo) (Some hi) g = false.

Lemma OverlapInLevel_false (v : Version) (level : nat) (lo hi : bytes) :
  version_sorted (C := C) v -> zlen (files_ v level) < 2 ^ 31 -> OverlapInLevel (C := C) level (Some lo) (Some hi) v = false -> clear_of v level lo hi.
Proof.
  intros Hv Hsz Ho g Hg. assert (existsb (overlaps (C := C) (Some lo) (Some hi)) (files_ v level) = false) as He.
  { revert Ho. unfold OverlapInLevel. destruct (Nat.ltb_spec 0 level) as [Hl|Hl]; [rewrite (overlap_search _ _ _ (vs_ok _ Hv level) (vs_in_order _ Hv level Hl) Hsz); done|].
    unfold SomeFileOverlapsRange. cbn [negb]. clear. induction (files_ v level) as [|f l IH]; [done|]. cbn [existsb]. rewrite !orb_false_iff. intros [H1 H2].
    split; [unfold overlaps; by rewrite andb_comm|by apply IH]. }
  destruct (overlaps (Some lo) (Some hi) g) eqn:Eo; [|done]. rewrite <- not_true_iff_false in He. exfalso. apply He, existsb_exists. exists g. split; [by apply list_elem_of_In|done].
Qed.

Lemma PickLevelForMemTableOutput_spec (v : Version) (max_file_size : Z) (lo hi : bytes) :
  version_sorted (C := C) v -> (forall l, zlen (files_ v l) < 2 ^ 31) ->
  let level := PickLevelForMemTableOutput (C := C) max_file_size lo hi v in
  (level <= kMaxMemCompactLevel)%nat /\ ((0 < level)%nat -> forall l, (l <= level)%nat -> clear_of v l lo hi).
Proof.
  intros Hv Hsz. unfold PickLevelForMemTableOutput. destruct (OverlapInLevel 0 _ _ v) eqn:E0; [cbn; lia|]. apply OverlapInLevel_false in E0; [|done..].
  assert (forall fuel level, (level <= kMaxMemCompactLevel)%nat -> (forall l, (l <= level)%nat -> clear_of v l lo hi) ->
    let k := pick_level_loop (C := C) fuel max_file_size lo hi v level in (k <= kMaxMemCompactLevel)%nat /\ (forall l, (l <= k)%nat -> clear_of v l lo hi)) as Hgo.
  { induction fuel as [|fuel IH]; intros level Hl Hc; [done|]. cbn [pick_level_loop]. destruct (Nat.ltb_spec level kMaxMemCompactLevel) as [Hlt|]; [|done].
    destruct (OverlapInLevel (level + 1) _ _ v) eqn:E; [done|]. destruct (_ && _); [done|]. apply IH; [lia|]. intros l Hle.
    destruct (decide (l = level + 1)%nat) as [->|]; [by apply OverlapInLevel_false|]. apply Hc. lia. }
  destruct (Hgo kMaxMemCompactLevel 0%nat ltac:(lia)) as [H1 H2]; [intros l Hl; by replace l with 0%nat by lia|]. split; [done|]. intros _. exact H2.
Qed.

Lemma overlaps_false (lo hi : bytes) (g : FileMetaData) :
  overlaps (C := C) (Some lo) (Some hi) g = false -> clt (ukey (fm_largest g)) lo \/ clt hi (ukey (fm_smallest g)).
Proof.
  unfold overlaps. rewrite andb_false_iff, !negb_false_iff. intros [H|H]; [left; by apply after_file_true|right; by apply before_file_true].
Qed.

Lemma user_lt_apart (a b : InternalKey) : clt (ukey a) (ukey b) -> iclt a b.
Proof. intros Hlt. apply (not_cle (C := IC)). intros Hle. apply icle_user in Hle. apply (clt_irrefl (ukey a)). by eapply clt_cle_trans. Qed.

Lemma flush_ok (v v' : Version) (M' : file_map) (contents : FileMetaData -> versions) (max_file_size : Z) (f : FileMetaData) :
  let level := PickLevelForMemTableOutput (C := C) max_file_size (ukey (fm_smallest f)) (ukey (fm_largest f)) v in
  VersionOk (C := C) v contents -> length (v_files v) = kNumLevels -> version_rep (C := C) v' M' -> (forall l, zlen (files_ v' l) < 2 ^ 31) ->
  replaces v (fun _ => False) level f v' -> file_ok (C := C) f -> contents_ok (C := C) f (contents f) ->
  (forall g, g ∈ files_ v 0 -> fm_number g < fm_number f) ->
  (forall lg p q x y, in_version v lg -> (p, x) ∈ contents f -> (q, y) ∈ contents (snd lg) -> pik_sequence q < pik_sequence p) ->
  VersionOk (C := C) v' contents.
Proof.
  intros level Hv Hlen Hrep Hsz Hr Hfo Hco Hnum Hnew. pose proof (VersionOk_sorted v contents Hv Hlen) as Hvs.
  destruct (PickLevelForMemTableOutput_spec v max_file_size (ukey (fm_smallest f)) (ukey (fm_largest f)) Hvs (vo_size _ _ Hv)) as [_ Hcl]. fold level in Hcl.
  apply (replaces_ok v contents (fun _ => False) level f v' M'); [done|done|done|done|done|done| | |].
  - intros Hl g [[_ Hg] _]. destruct (overlaps_false _ _ g (Hcl Hl level ltac:(lia) g Hg)) as [H|H]; [left|right]; by apply user_lt_apart.
  - intros [l g] p q x y [[Hlg Hg] _] Hs Hp Hq E. cbn [fst snd] in *. exfalso. destruct Hs as [Hs|(E1 & E2 & Hs)]; cbn [fst snd] in Hs.
    + destruct (vo_files _ _ Hv (l, g) (conj Hlg Hg)) as [_ Hcg]. cbn [snd] in Hcg.
      destruct (file_range_user g _ p x Hcg Hp) as [G1 G2]. destruct (file_range_user f _ q y Hco Hq) as [F1 F2]. rewrite E in *.
      destruct (overlaps_false _ _ g (Hcl ltac:(lia) l ltac:(lia) g Hg)) as [H|H]; apply (clt_irrefl (pik_user_key q)).
      * eapply cle_clt_trans; [exact G2|]. by eapply clt_cle_trans.
      * eapply cle_clt_trans; [exact F2|]. by eapply clt_cle_trans.
    + cbn in E1. subst l. specialize (Hnum g Hg). lia.
  - intros lg p q x y [Hlg _] _ Hp Hq _. by eapply Hnew.
Qed.

(** No entry is in two files. *)
Lemma files_disjoint (v : Version) (contents : FileMetaData -> versions) (lf lg : nat * FileMetaData) (p : ParsedInternalKey) (x y : bytes) :
  VersionOk (C := C) v contents -> in_version v lf -> in_version v lg -> (p, x) ∈ contents (snd lf) -> (p, y) ∈ contents (snd lg) -> lf = lg.
Proof.
  intros Hv Hf Hg Hp Hq. destruct (decide (searched_before lf lg)) as [Hs|Hs]; [pose proof (vo_recent _ _ Hv lf lg p p x y Hf Hg Hs Hp Hq eq_refl); lia|].
  destruct (decide (searched_before lg lf)) as [Hs'|Hs']; [pose proof (vo_recent _ _ Hv lg lf p p y x Hg Hf Hs' Hq Hp eq_refl); lia|].
  unfold searched_before in Hs, Hs'. destruct lf as [l f], lg as [m g]. cbn [fst snd] in *. assert (l = m) as <- by lia. f_equal.
  destruct (decide (f = g)) as [|Hne]; [done|]. exfalso. destruct Hf as [Hl Hf], Hg as [_ Hg]. cbn [fst snd] in *. destruct (decide (l = 0%nat)) as [->|Hl0].
  - apply Hne. apply list_elem_of_lookup in Hf as [i Hi]. apply list_elem_of_lookup in Hg as [j Hj]. assert (i = j) as <-; [|congruence].
    eapply (NoDup_lookup (map fm_number (files_ v 0))); [apply Hv|by rewrite list_lookup_fmap, Hi|]. rewrite list_lookup_fmap, Hj. cbn. f_equal. lia.
  - destruct (vo_files _ _ Hv (l, f) (conj Hl Hf)) as [_ Hcf]. destruct (vo_files _ _ Hv (l, g) (conj Hl Hg)) as [_ Hcg]. cbn [snd] in *.
    destruct (co_range _ _ Hcf p x Hp) as [F1 F2]. destruct (co_range _ _ Hcg p y Hq) as [G1 G2]. apply (clt_irrefl (C := IC) (encode_key p)).
    destruct (sorted_apart (files_ v l) f g (vo_sorted _ _ Hv l ltac:(lia)) Hf Hg Hne) as [H|H].
    + eapply (cle_clt_trans (C := IC)); [exact F2|]. by eapply (clt_cle_trans (C := IC)).
    + eapply (cle_clt_trans (C := IC)); [exact G2|]. by eapply (clt_cle_trans (C := IC)).
Qed.

(** Entries with different keys can be put in order. *)
Definition entry_le (a b : ParsedInternalKey * bytes) : Prop := Compare (Comparator := IC) (encode_key (fst a)) (encode_key (fst b)) <> Gt.

Lemma sort_versions (Heq : forall a b, ceq a b -> a = b) (L : versions) :
  (forall p v, (p, v) ∈ L -> seq_ok (pik_sequence p)) -> NoDup (map fst L) -> exists D, D ≡ₚ L /\ keys_sorted (C := IC) (internal_entries D).
Proof.
  intros Hseq Hnd. assert (Transitive entry_le) as HT by (intros a b c; apply (cmp_le_trans (C := IC))).
  assert (Total entry_le) as HTo.
  { intros a b. unfold entry_le. destruct (Compare (Comparator := IC) (encode_key (fst a)) (encode_key (fst b))) eqn:Ea; [by left|by left|right].
    apply (cmp_gt (C := IC)) in Ea. unfold clt in Ea. by rewrite Ea. }
  assert (forall a b, Decision (entry_le a b)) as HD by (intros a b; unfold entry_le; apply _). exists (merge_sort entry_le L). split; [apply merge_sort_Permutation|].
  pose proof (StronglySorted_merge_sort entry_le L) as HS. set (D := merge_sort entry_le L) in *. assert (D ≡ₚ L) as Hp by apply merge_sort_Permutation. clearbody D.
  rewrite <- Hp in Hnd. assert (forall p v, (p, v) ∈ D -> seq_ok (pik_sequence p)) as Hseq' by (intros p v H; apply (Hseq p v); by rewrite <- Hp). clear Hp Hseq L.
  induction HS as [|[p v] D HS IH Hall]; [constructor|]. cbn [map fst] in Hnd. apply NoDup_cons in Hnd as [Hn Hnd].
  change (internal_entries ((p, v) :: D)) with ((encode_key p, v) :: internal_entries D). constructor; [apply IH; [done|]; intros q w Hq; apply (Hseq' q w); by right|].
  apply List.Forall_forall. intros kv Hkv. apply in_map_iff in Hkv as ([q w] & <- & Hq). cbn [fst snd]. rewrite List.Forall_forall in Hall. specialize (Hall _ Hq). apply list_elem_of_In in Hq.
  apply icle_cases in Hall as [Hlt|He]; [done|]. exfalso. apply Hn, list_elem_of_fmap. exists (q, w). split; [|done]. cbn [fst] in *.
  apply (encode_key_ceq Heq) in He; [done|by apply (Hseq' p v); left|by apply (Hseq' q w); right].
Qed.

(** ** A file on the next level in place of the inputs of a compaction *)

Definition is_input (c : Compaction) (lg : nat * FileMetaData) : Prop :=
  (fst lg = c_level c /\ snd lg ∈ c_inputs0 c) \/ (fst lg = (c_level c + 1)%nat /\ snd lg ∈ c_inputs1 c).

Section CompactionChange.
Context (v : Version) (contents : FileMetaData -> versions) (c : Compaction).
Context (Hv : VersionOk (C := C) v contents) (Hlen : length (v_files v) = kNumLevels) (Hc : inputs_closed (C := C) v c) (Hlast : (c_level c + 1 < kNumLevels)%nat).
Context (Hdist : forall lf lg p q x y, in_version v lf -> in_version v lg -> (p, x) ∈ contents (snd lf) -> (q, y) ∈ contents (snd lg) ->
  pik_user_key p = pik_user_key q -> pik_sequence p = pik_sequence q -> p = q).

Abbreviation stays := (stays v (is_input c)).
Abbreviation lo0 := (ukey (fst (GetRange (C := C) (c_inputs0 c)))).
Abbreviation hi0 := (ukey (snd (GetRange (C := C) (c_inputs0 c)))).

Lemma input_in_version (lg : nat * FileMetaData) : is_input c lg -> in_version v lg.
Proof.
  destruct lg as [l g]. intros [[El Hg]|[El Hg]]; cbn [fst snd] in *; subst l; split; cbn [fst snd]; [lia|by apply (lc_files _ _ _ (ic_level _ _ Hc))|lia|].
  eapply run_of_elem; [apply (nc_run _ _ _ _ (ic_next _ _ Hc))|done].
Qed.

Lemma input_contents (lg : nat * FileMetaData) : in_version v lg -> contents_ok (C := C) (snd lg) (contents (snd lg)).
Proof. intros Hlg. by apply (vo_files _ _ Hv). Qed.

Lemma range0 (f : FileMetaData) : f ∈ c_inputs0 c -> cle lo0 (ukey (fm_smallest f)) /\ cle (ukey (fm_largest f)) hi0.
Proof.
  intros Hf. destruct (GetRange_spec (C := C) (c_inputs0 c) (lc_nonempty _ _ _ (ic_level _ _ Hc))) as (Hr & _ & _). destruct (Hr f Hf). split; by apply icle_user.
Qed.

(** A file of the next level that stays is outside the range of the inputs. *)
Lemma next_outside (g : FileMetaData) : stays ((c_level c + 1)%nat, g) -> g ∉ c_inputs1 c /\ (clt (ukey (fm_largest g)) lo0 \/ clt hi0 (ukey (fm_smallest g))).
Proof.
  intros [[_ Hg] Hn]. assert (g ∉ c_inputs1 c) as Hn1 by (intros H; apply Hn; right; done). split; [done|]. apply overlaps_false.
  destruct (overlaps (Some lo0) (Some hi0) g) eqn:Eo; [|done]. exfalso. by apply Hn1, (nc_all _ _ _ _ (ic_next _ _ Hc)).
Qed.

(** What stays and is not deeper than the output has newer entries than the inputs. *)
Lemma rest_newer (lg lf : nat * FileMetaData) (p q : ParsedInternalKey) (x y : bytes) :
  stays lg -> is_input c lf -> (fst lg <= c_level c + 1)%nat -> (p, x) ∈ contents (snd lg) -> (q, y) ∈ contents (snd lf) ->
  pik_user_key p = pik_user_key q -> pik_sequence q < pik_sequence p.
Proof.
  intros Hs Hi Hl Hp Hq E. pose proof (input_in_version lf Hi) as Hlf. pose proof (proj1 Hs) as Hlg. pose proof (Hdist lg lf p q x y Hlg Hlf Hp Hq E) as Hd.
  pose proof (share_by_entries (snd lf) (snd lg) _ _ q p y x (input_contents lf Hlf) (input_contents lg Hlg) Hq Hp (eq_sym E)) as Hsh.
  destruct (decide (fst lg < fst lf)%nat) as [Hlt|Hge]; [apply (vo_recent _ _ Hv lg lf p q x y); [done|done|by left|done..]|].
  assert (iclt (fm_largest (snd lg)) (fm_smallest (snd lf))) as Hlt; [|exact (file_entries_newer (snd lg) (snd lf) _ _ p q x y (input_contents lg Hlg) (input_contents lf Hlf) Hlt Hp Hq E Hd)].
  destruct lf as [lf f], lg as [lg g]; cbn [fst snd] in *. destruct Hi as [[El Hf]|[El Hf]]; cbn [fst snd] in El, Hf; subst lf.
  - destruct (decide (lg = c_level c)) as [->|Hne].
    + apply (lc_newer _ _ _ (ic_level _ _ Hc) f g); [done|apply Hlg| |done]. intros H. apply (proj2 Hs). by left.
    + exfalso. assert (lg = c_level c + 1)%nat as -> by lia. destruct (next_outside g Hs) as [_ Ho]. destruct (range0 f Hf) as [R1 R2]. destruct Hsh as [S1 S2].
      destruct Ho as [Ho|Ho].
      * apply (clt_irrefl lo0). eapply cle_clt_trans; [exact R1|]. by eapply cle_clt_trans.
      * apply (clt_irrefl hi0). eapply clt_cle_trans; [exact Ho|]. by eapply cmp_le_trans.
  - assert (lg = c_level c + 1)%nat as -> by lia. destruct (next_outside g Hs) as [Hn _]. by apply (nc_newer _ _ _ _ (ic_next _ _ Hc) f g); [done|apply Hlg|..].
Qed.

(** A file of the next level that stays lies before or after all inputs. *)
Lemma apart_inputs (g : FileMetaData) : stays ((c_level c + 1)%nat, g) ->
  (forall lf, is_input c lf -> iclt (fm_largest g) (fm_smallest (snd lf))) \/ (forall lf, is_input c lf -> iclt (fm_largest (snd lf)) (fm_smallest g)).
Proof.
  intros Hs. destruct (next_outside g Hs) as [Hn Ho]. pose proof (VersionOk_sorted v contents Hv Hlen) as Hvs. pose proof (proj2 (proj1 Hs)) as Hg. cbn [fst snd] in Hg.
  assert (forall f, f ∈ files_ v (c_level c + 1) -> icle (fm_smallest f) (fm_largest f)) as Hfr.
  { intros f Hf. pose proof (vs_ok _ Hvs (c_level c + 1)%nat) as Hok. rewrite Forall_forall in Hok. by apply Hok. }
  destruct (nc_run _ _ _ _ (ic_next _ _ Hc)) as (a & b & Ef). pose proof (vs_in_order _ Hvs (c_level c + 1)%nat ltac:(lia)) as Hso. rewrite Ef in Hso.
  apply files_sorted_app in Hso as (_ & Hso & Ha). apply files_sorted_app in Hso as (_ & _ & Hb).
  assert (g ∈ a \/ g ∈ b) as Hgab by (rewrite Ef, !elem_of_app in Hg; tauto).
  assert (forall f, f ∈ c_inputs1 c -> f ∈ files_ v (c_level c + 1)) as H1 by (intros f Hf; rewrite Ef, !elem_of_app; tauto).
  assert (c_inputs1 c <> [] -> exists h, h ∈ c_inputs1 c /\ cle lo0 (ukey (fm_largest h)) /\ cle (ukey (fm_smallest h)) hi0) as Htouch.
  { intros Hne. destruct (nc_touch _ _ _ _ (ic_next _ _ Hc) Hne) as (h & Hh & Eo). exists h. split; [done|]. unfold overlaps in Eo.
    apply andb_true_iff in Eo as [E1 E2]. apply negb_true_iff in E1, E2. by apply after_file_false in E1; apply before_file_false in E2. }
  destruct Ho as [Ho|Ho]; [left|right]; intros [l f] [[_ Hf]|[_ Hf]]; cbn [fst snd] in *.
  - apply user_lt_apart. eapply clt_cle_trans; [exact Ho|]. by apply range0.
  - destruct Hgab as [Hga|Hgb]; [apply Ha; [done|apply elem_of_app; by left]|]. exfalso. destruct (Htouch ltac:(by intros Hnil; rewrite Hnil in Hf; apply not_elem_of_nil in Hf)) as (h & Hh & L1 & _).
    apply (clt_irrefl lo0). eapply cle_clt_trans; [exact L1|]. eapply cle_clt_trans; [|exact Ho]. eapply cmp_le_trans; [|by apply icle_user, Hfr].
    apply icle_user, (clt_cle (C := IC)). by apply Hb.
  - apply user_lt_apart. eapply cle_clt_trans; [|exact Ho]. by apply range0.
  - destruct Hgab as [Hga|Hgb]; [|by apply Hb]. exfalso. destruct (Htouch ltac:(by intros Hnil; rewrite Hnil in Hf; apply not_elem_of_nil in Hf)) as (h & Hh & _ & L2).
    apply (clt_irrefl hi0). eapply clt_cle_trans; [exact Ho|]. eapply cmp_le_trans; [by apply icle_user, Hfr|]. eapply cmp_le_trans; [|exact L2].
    apply icle_user, (clt_cle (C := IC)). apply Ha; [done|apply elem_of_app; by left].
Qed.

Lemma compaction_ok (v' : Version) (M' : file_map) (f : FileMetaData) :
  version_rep (C := C) v' M' -> (forall l, zlen (files_ v' l) < 2 ^ 31) -> replaces v (is_input c) (c_level c + 1) f v' ->
  file_ok (C := C) f -> contents_ok (C := C) f (contents f) -> (exists lf, is_input c lf /\ icle (fm_smallest (snd lf)) (fm_smallest f)) ->
  (forall p x, (p, x) ∈ contents f -> exists lf, is_input c lf /\ (p, x) ∈ contents (snd lf)) ->
  VersionOk (C := C) v' contents.
Proof.
  intros Hrep Hsz Hr Hfo Hco (lf0 & Hlf0 & Hsm) Hfrom.
  apply (replaces_ok v contents (is_input c) (c_level c + 1) f v' M'); [done|done|done|done|done|done| | |].
  - intros _ g Hg. destruct (apart_inputs g Hg) as [H|H]; [left|right].
    + eapply (clt_cle_trans (C := IC)); [by apply H|exact Hsm].
    + destruct (co_largest _ _ Hco) as (q & y & Hq & ->). destruct (Hfrom q y Hq) as (lf & Hlf & Hin). eapply (cle_clt_trans (C := IC)); [|by apply H].
      by apply (co_range _ _ (input_contents lf (input_in_version lf Hlf)) q y).
  - intros lg p q x y Hs Hb Hp Hq E. destruct (Hfrom q y Hq) as (lf & Hlf & Hin). apply (rest_newer lg lf p q x y); [done|done| |done..].
    destruct Hb as [Hb|(_ & Hb & _)]; cbn [fst] in Hb; lia.
  - intros lg p q x y Hs Hb Hp Hq E. destruct (Hfrom p x Hp) as (lf & Hlf & Hin). apply (vo_recent _ _ Hv lf lg p q x y); [by apply input_in_version|apply Hs| |done..].
    left. destruct Hb as [Hb|(Hb & _)]; cbn [fst] in Hb; [|lia]. destruct Hlf as [[-> _]|[-> _]]; lia.
Qed.

(** What stays is newer than the inputs, for the keys that no deeper file covers. *)
Lemma base_newer (lg lf : nat * FileMetaData) (p q : ParsedInternalKey) (x y : bytes) :
  stays lg -> is_input c lf -> (p, x) ∈ contents (snd lg) -> (q, y) ∈ contents (snd lf) -> pik_user_key p = pik_user_key q ->
  is_base (C := C) v (c_level c) (pik_user_key q) = true -> pik_sequence q < pik_sequence p.
Proof.
  intros Hs Hi Hp Hq E Hb. destruct (decide (fst lg <= c_level c + 1)%nat) as [Hl|Hl]; [by apply (rest_newer lg lf p q x y)|]. exfalso.
  unfold is_base in Hb. rewrite forallb_forall in Hb. destruct (proj1 Hs) as [Hk Hg]. specialize (Hb (fst lg)). rewrite in_seq in Hb. specialize (Hb ltac:(lia)).
  apply negb_true_iff in Hb. rewrite <- not_true_iff_false in Hb. apply Hb, existsb_exists. exists (snd lg). split; [by apply list_elem_of_In|]. apply covers_true. rewrite <- E.
  apply (file_range_user _ _ p x (input_contents lg (proj1 Hs)) Hp).
Qed.

Lemma contents_NoDup (f : FileMetaData) (P : versions) : contents_ok (C := C) f P -> NoDup (map fst P).
Proof.
  intros Hco. pose proof (co_sorted _ _ Hco) as Hs. clear Hco. induction P as [|[p x] P IH]; [constructor|].
  change (internal_entries ((p, x) :: P)) with ((encode_key p, x) :: internal_entries P) in Hs. apply StronglySorted_inv in Hs as [Hs Hall]. cbn [map fst]. constructor; [|by apply IH].
  intros Hin. apply list_elem_of_fmap in Hin as ([q y] & E & Hq). cbn [fst] in E. subst q. rewrite List.Forall_forall in Hall.
  apply (clt_irrefl (C := IC) (encode_key p)). apply (Hall (encode_key p, y)). apply in_map_iff. exists (p, y). split; [done|by apply list_elem_of_In].
Qed.

Lemma version_files_NoDup (lfs : list (nat * FileMetaData)) :
  NoDup lfs -> (forall lf, lf ∈ lfs -> in_version v lf) -> NoDup (map fst (concat (map (fun lf => contents (snd lf)) lfs))).
Proof.
  intros Hnd Hin. induction Hnd as [|lf lfs Hn Hnd IH]; [constructor|]. cbn [map concat]. rewrite map_app. apply NoDup_app. split_and!.
  - apply (contents_NoDup (snd lf)), input_contents, Hin. by left.
  - intros p Hp Hq. apply list_elem_of_fmap in Hp as ([p' x] & -> & Hp). apply list_elem_of_fmap in Hq as ([q y] & E & Hq). cbn [fst] in E. subst q.
    apply list_elem_of_In, in_concat in Hq as (l & Hl & Hq). apply in_map_iff in Hl as (lg & <- & Hg). apply list_elem_of_In in Hq, Hg.
    apply Hn. rewrite (files_disjoint v contents lf lg p' x y Hv (Hin lf ltac:(by left)) (Hin lg ltac:(by right)) Hp Hq). done.
  - apply IH. intros lg Hg. apply Hin. by right.
Qed.

(** The merged input exists. *)
Lemma inputs_sorted (Heq : forall a b, ceq a b -> a = b) :
  exists D, D ≡ₚ concat (map contents (c_inputs0 c ++ c_inputs1 c)) /\ keys_sorted (C := IC) (internal_entries D).
Proof.
  set (lfs := map (pair (c_level c)) (c_inputs0 c) ++ map (pair (c_level c + 1)%nat) (c_inputs1 c)).
  assert (concat (map contents (c_inputs0 c ++ c_inputs1 c)) = concat (map (fun lf => contents (snd lf)) lfs)) as -> by (unfold lfs; by rewrite !map_app, !map_map).
  assert (forall lf, lf ∈ lfs -> in_version v lf) as Hin.
  { intros lf [H|H]%elem_of_app; apply list_elem_of_fmap in H as (f & -> & Hf); apply input_in_version; [by left|by right]. }
  assert (forall level, (level < kNumLevels)%nat -> NoDup (files_ v level)) as Hfn.
  { intros level Hl. destruct level as [|level]; [eapply NoDup_fmap_1, (vo_numbers _ _ Hv)|]. pose proof (vo_sorted _ _ Hv (S level) ltac:(lia)) as Hso.
    assert (forall f, f ∈ files_ v (S level) -> icle (fm_smallest f) (fm_largest f)) as Hr by (intros f Hf; by apply (vo_files _ _ Hv (S level, f))).
    induction Hso as [|f fs Hso IH Hall]; [constructor|]. constructor; [|apply IH; intros g Hg; apply Hr; by right]. intros Hf%list_elem_of_In. rewrite List.Forall_forall in Hall.
    apply (clt_irrefl (C := IC) (fm_smallest f)). eapply (cle_clt_trans (C := IC)); [by apply Hr; left|by apply Hall]. }
  apply (sort_versions Heq).
  - intros p x Hp. apply list_elem_of_In, in_concat in Hp as (l & Hl & Hp). apply in_map_iff in Hl as (lf & <- & Hlf). apply list_elem_of_In in Hp, Hlf.
    by apply (co_seq _ _ (input_contents lf (Hin lf Hlf)) p x).
  - apply version_files_NoDup; [|done]. unfold lfs. apply NoDup_app. split_and!.
    + apply NoDup_fmap_2; [intros ? ? [= ->]; done|]. eapply sublist_NoDup; [|apply (lc_sub _ _ _ (ic_level _ _ Hc))]; apply Hfn; lia.
    + intros lf H1 H2. apply list_elem_of_fmap in H1 as (f & -> & _). apply list_elem_of_fmap in H2 as (g & [= E _] & _). lia.
    + apply NoDup_fmap_2; [intros ? ? [= ->]; done|]. eapply sublist_NoDup; [|apply run_of_sublist, (nc_run _ _ _ _ (ic_next _ _ Hc))]; apply Hfn; lia.
Qed.
End CompactionChange.
End Change.
