(* ===== verification/CompactionWork.v ===== *)
(** * CompactionWork: running a compaction ([DBImpl::DoCompactionWork])

    The inputs are merged, the entries that no reader needs are dropped
    ([CompactionRun]), and the rest becomes one table of the next level.  Iterators
    read through the tables as the table cache has them when they are made. *)

From stdpp Require Import sorting fin_sets.
From S2P Require Import Prelude Status Coding Comparator Logging FilterPolicy DbFormat Env LogFile Format Iterator Block Merger FilterBlock.
From S2P Require Import TwoLevelIterator TableBuilder Cache Table VersionEdit FileName DBIter Version VersionRead VersionSet Compaction.
From S2P Require Import Manifest TableCache MapFS Snapshot History Iterates TableFiles CompactionRun.
From Stdlib Require Import Sorting.Sorted.

Section WorkDef.
Context (slen zstlen : bytes -> option Z) (sun zun : bytes -> option bytes).
Context {C : Comparator} {P : FilterPolicy} {E W SF F : Type} `{FileSystem E W SF} `{WritableFile W} `{HandleFS E W} `{RandomAccessFS E F} `{RandomAccessFile F}.
Context {K Hd : Type} `{Cache K Hd Block}.
Context (dbname : bytes) (bopts : TableBuilderOptions) (topts : TableOptions).

Abbreviation IC := (InternalKeyComparator C).
Abbreviation IP := (InternalFilterPolicy P).

(** *** The tables that an iterator of the database reads *)

Abbreviation DbTableIter := (EmptyIterator + TableIter F K)%type.

Definition DbTableIter_iter : Iterator DbTableIter := sum_iter (HB := TableIter_iter (C := IC) slen zstlen sun zun).

Definition table_iter (ro : ReadOptions) (s : TableCache E F K) (n size : Z) : DbTableIter :=
  fst (tc_NewIterator (C := IC) (P := IP) slen zstlen sun zun dbname topts ro n size s).

Definition error_iter (st : Status) : DbTableIter := inl (NewErrorIterator st).

Definition input_options : ReadOptions := mkReadOptions (to_paranoid_checks topts) false.

Definition input_fuel (c : Compaction) : nat := S (length (c_inputs0 c) + length (c_inputs1 c)).

Definition InputIter_iter (s : TableCache E F K) (c : Compaction) : Iterator (EmptyIterator + ((DbTableIter + LevelIterator (D := DbTableIter)) + MergingIterator (DbTableIter + LevelIterator (D := DbTableIter)))) :=
  let child : Iterator (DbTableIter + LevelIterator (D := DbTableIter)) :=
    sum_iter (HA := DbTableIter_iter) (HB := LevelIterator_iter (C := C) (HD := DbTableIter_iter) (table_iter input_options s) error_iter (input_fuel c)) in
  sum_iter (HB := sum_iter (HA := child) (HB := MergingIterator_iter (C := IC) (H := child))).

(** *** The work *)

Definition smallest_snapshot (snapshots : SnapshotList) (vs : VersionSet W) : SequenceNumber :=
  if sl_empty snapshots then vs_last_sequence vs else seq_of (sl_nodes snapshots) (oldest snapshots).

Definition set_c_edit (edit : VersionEdit) (c : Compaction) : Compaction :=
  mkCompaction (c_level c) (c_max_output_file_size c) (c_input_version c) edit (c_inputs0 c) (c_inputs1 c) (c_grandparents c)
    (c_grandparent_index c) (c_seen_key c) (c_overlapped_bytes c) (c_level_ptrs c).

(** [builder.Finish()], [Sync] and [Close]: the status, the size of the table and the file. *)
Definition finish_output (builder : TableBuilder W) : Result unit * Z * W :=
  let '(s, builder) := TableBuilder_Finish (C := IC) (P := IP) builder in
  match s with
  | Err st => (Err st, 0, tb_file builder)
  | Ok _ =>
      let '(s, file) := wf_Sync (tb_file builder) in
      match s with
      | Err st => (Err st, FileSize builder, file)
      | Ok _ => let '(s, file) := wf_Close file in (s, FileSize builder, file)
      end
  end.

(** The work on an input iterator.  [fuel] bounds the number of entries, and
    [shutting i] is what [shutting_down_] says when entry [i] is reached. *)
Definition compact_input {S : Type} {HI : Iterator S} (fuel : nat) (shutting : nat -> bool) (input : S) (c : Compaction) (snapshots : SnapshotList)
    (vs : VersionSet W) (s : TableCache E F K) : option (Result unit * Compaction * VersionSet W * TableCache E F K) :=
  let input := it_SeekToFirst input in
  if negb (it_Valid input) then Some (Ok tt, c, vs, s)
  else
    let smallest := smallest_snapshot snapshots vs in
    let '(number, vs) := NewFileNumber vs in
    let meta := mkFileMetaData (Z.shiftl 1 30) number 0 [] [] in
    let fname := TableFileName dbname number in
    let '(f_res, env) := fs_NewWritableFile fname (tc_env s) in
    let s := set_env env s in
    match f_res with
    | Err st => Some (Err st, c, vs, s)
    | Ok outfile =>
        match compact_loop (C := C) (P := P) fuel shutting 0 smallest (mkCompactState input (newDropState c) meta (newTableBuilder (P := IP) bopts outfile)) with
        | None => None
        | Some st =>
            let c := ds_compaction (cs_drop st) in
            let '(r, size, file) := finish_output (cs_builder st) in
            let s := set_env (fs_Written fname file (tc_env s)) s in
            match r with
            | Err e => Some (Err e, c, vs, s)
            | Ok _ =>
                let c := if 0 <? size
                         then set_c_edit (AddFile (Z.of_nat (c_level c) + 1) number size (fm_smallest (cs_meta st)) (fm_largest (cs_meta st)) (c_edit c)) c
                         else c in
                Some (Ok tt, c, vs, s)
            end
        end
    end.

Definition DoCompactionWork (fuel : nat) (shutting : nat -> bool) (c : Compaction) (snapshots : SnapshotList) (vs : VersionSet W) (s : TableCache E F K)
  : option (Result unit * Compaction * VersionSet W * TableCache E F K) :=
  compact_input (HI := InputIter_iter s c) fuel shutting
    (MakeInputIterator (C := C) (HD := DbTableIter_iter) (table_iter input_options s) error_iter (input_fuel c) c) c snapshots vs s.
End WorkDef.

(** ** The loop on a scan *)

Section LoopSpec.
Context {C : Comparator} {CL : ComparatorLaws C} {P : FilterPolicy} {S : Type} {HI : Iterator S} {W : Type} {WF : WritableFile W}.

(** The bookkeeping of the output after the entries [out] were added. *)
Definition output_meta (meta : FileMetaData) (out : entries) : FileMetaData :=
  match out with
  | [] => meta
  | kv :: _ => mkFileMetaData (fm_allowed_seeks meta) (fm_number meta) 1 (if fm_file_size meta =? 0 then fst kv else fm_smallest meta) (default [] (fst <$> last out))
  end.

Lemma output_meta_cons (k v : bytes) (out : entries) (meta : FileMetaData) (builder : TableBuilder W) :
  output_meta (fst (add_output (C := C) (P := P) k v meta builder)) out = output_meta meta ((k, v) :: out).
Proof. destruct out as [|kv out]; [done|]. cbn [output_meta add_output fst fm_file_size fm_smallest fm_allowed_seeks fm_number]. by rewrite last_cons_cons. Qed.

Lemma drop_until (stop : option nat) (kvs rest : entries) (kv : bytes * bytes) (i : nat) :
  drop i kvs = kv :: rest -> drop i (until stop kvs) = if stopped stop i then [] else kv :: drop (Datatypes.S i) (until stop kvs).
Proof.
  intros Ed. assert (kvs !! i = Some kv) as Hi by (by rewrite <- (Nat.add_0_r i), <- lookup_drop, Ed). destruct stop as [n|]; cbn [until stopped]; [|by apply drop_S].
  destruct (Nat.leb_spec n i); [apply drop_ge; rewrite length_take; lia|]. apply drop_S. by rewrite lookup_take_lt.
Qed.

(** The loop up to the end of the input or to a shutdown. *)
Lemma compact_loop_spec (stop : option nat) (kvs : entries) (R : S -> option nat -> Prop) (smallest : SequenceNumber) (fuel i : nat) (st : CompactState (S := S) (W := W)) :
  FwdSim kvs R -> R (cs_input st) (in_range kvs i) -> (length kvs - i <= fuel)%nat ->
  exists st', compact_loop (C := C) (P := P) fuel (stopped stop) i smallest st = Some st' /\
    let '(out, ds) := kept (C := C) smallest (cs_drop st) (drop i (until stop kvs)) in
    cs_drop st' = ds /\ cs_meta st' = output_meta (cs_meta st) out /\
    cs_builder st' = tb_add_all (C := InternalKeyComparator C) (P := InternalFilterPolicy P) out (cs_builder st).
Proof.
  intros HF. assert (forall i, drop i kvs = [] -> drop i (until stop kvs) = []) as Hend.
  { intros j Ed. assert (length (drop j kvs) = 0%nat) as Hl by (by rewrite Ed). rewrite length_drop in Hl. apply drop_ge. pose proof (sublist_length _ _ (until_sublist stop kvs)). lia. }
  revert i st. induction fuel as [|fuel IH]; intros i st HR Hf; pose proof (scan_here kvs R (cs_input st) i HF HR) as Hh.
  - rewrite drop_ge in Hh by lia. rewrite (Hend i) by (apply drop_ge; lia). cbn [compact_loop]. rewrite Hh. exists st. done.
  - destruct (drop i kvs) as [|kv rest] eqn:Ed; [rewrite (Hend i Ed); cbn [compact_loop]; rewrite Hh; exists st; done|]. rewrite (drop_until stop _ _ _ _ Ed).
    destruct Hh as (Hv & -> & Er & HR'). cbn [compact_loop]. rewrite Hv. destruct (stopped stop i); cbn [andb negb kept fst]; [exists st; done|].
    destruct (IH (Datatypes.S i) (compact_entry (C := C) (P := P) smallest st)) as (st' & Est & Hres); [|lia|].
    { unfold compact_entry. destruct (drop_entry _ _ _) as [d ds]. by destruct d. }
    exists st'. split; [done|]. set (rest' := drop (Datatypes.S i) (until stop kvs)) in *. unfold compact_entry, add_output in Hres. destruct (drop_entry smallest (it_key (cs_input st)) (cs_drop st)) as [d ds].
    destruct d; cbn [cs_drop cs_meta cs_builder] in Hres; destruct (kept smallest ds rest') as [out ds']; [exact Hres|].
    destruct Hres as (H1 & H2 & H3). split_and!; [done| |done]. rewrite H2. exact (output_meta_cons (it_key (cs_input st)) (it_value (cs_input st)) out (cs_meta st) (cs_builder st)).
Qed.
End LoopSpec.

(** ** The work on a scan *)

Section WorkSpec.
Context {C : Comparator} {CL : ComparatorLaws C} {P : FilterPolicy} {PL : FilterPolicyLaws P}.
Context {E W SF F : Type} {FS : FileSystem E W SF} {WF : WritableFile W} {WL : WritableFileLaws W} {HF : HandleFS E W} {FSL : FileSystemLaws E W SF}.
Context {RFS : RandomAccessFS E F} {RF : RandomAccessFile F} {RL : RandomAccessFileLaws F} {FF : FileFrameLaws E W SF F}.
Context {K Hd : Type} {KC : Cache K Hd Block} {KL : CacheLaws K Hd Block} {KI : CacheIdLaws K Hd Block}.
Context (dbname : bytes) (bopts : TableBuilderOptions) (topts : TableOptions) (Hri : 1 <= tbo_block_restart_interval bopts).

Abbreviation IC := (InternalKeyComparator C).
Abbreviation IP := (InternalFilterPolicy P).
Abbreviation Store := (StoreOk (W := W) (F := F) (C := C) (P := P) dbname topts).

Lemma finish_output_spec (fname : bytes) (builder : TableBuilder W) (s : TableCache E F K) (size : Z) (s' : TableCache E F K) :
  finish_table (C := C) (P := IP) fname builder s = (Ok tt, size, s') ->
  exists file, finish_output (C := C) (P := P) builder = (Ok tt, size, file) /\ s' = set_env (fs_Written fname file (tc_env s)) s.
Proof.
  unfold finish_table, finish_output. destruct (TableBuilder_Finish builder) as [[[]|st] b]; [|done]. destruct (wf_Sync (tb_file b)) as [[[]|st] f]; [|done].
  destruct (wf_Close f) as [[[]|st] f']; [|done]. intros [= <- <-]. eauto.
Qed.

(** The table that a compaction of the entries [D] at [smallest] writes. *)
Definition compaction_output (smallest : SequenceNumber) (c : Compaction) (D : versions) : versions :=
  compact_ref (C := C) smallest (is_base (C := C) (c_input_version c) (c_level c)) [] D.

(** The first and the last key of the output; none when nothing is kept. *)
Definition first_key (out : versions) : bytes := match out with (p, _) :: _ => encode_key p | [] => [] end.
Definition last_key (out : versions) : bytes := match last out with Some (p, _) => encode_key p | None => [] end.

Lemma output_meta_keys (n : Z) (out : versions) :
  let meta := output_meta (mkFileMetaData (Z.shiftl 1 30) n 0 [] []) (internal_entries out) in fm_smallest meta = first_key out /\ fm_largest meta = last_key out.
Proof.
  destruct out as [|[p v] out]; [done|]. split; [done|]. unfold last_key.
  assert (last (internal_entries ((p, v) :: out)) = (fun pv => (encode_key (fst pv), snd pv)) <$> last ((p, v) :: out)) as El by exact (fmap_last (fun pv => (encode_key (fst pv), snd pv)) ((p, v) :: out)).
  change (fm_largest _) with (default [] (fst <$> last (internal_entries ((p, v) :: out)))). rewrite El. by destruct (last ((p, v) :: out)) as [[q w]|].
Qed.

(** The work on any input that is not empty, up to its end or to a shutdown. *)
Lemma compact_input_run {S : Type} {HI : Iterator S} (stop : option nat) (fuel : nat) (input : S) (c : Compaction) (snapshots : SnapshotList) (vs : VersionSet W)
    (ids : Z) (env : E) (disk : gmap Z (Z * versions)) (s : TableCache E F K) (D : versions) :
  let n := vs_next_file_number vs in
  let out := compaction_output (smallest_snapshot snapshots vs) c (until stop D) in
  Store ids env disk s -> numbers_ok disk -> disk !! n = None -> 0 <= n < 2 ^ 64 -> ids + 1 < 2 ^ 64 ->
  version_sorted (C := C) (c_input_version c) -> c_level_ptrs c = replicate kNumLevels 0%nat ->
  keys_sorted (C := IC) (internal_entries D) -> (forall p v, (p, v) ∈ D -> seq_ok (pik_sequence p)) -> smallest_snapshot snapshots vs < kMaxSequenceNumber ->
  scans (internal_entries D) input -> (length D <= fuel)%nat -> D <> [] -> table_fits (C := C) (P := P) (W := W) bopts out ->
  exists size env' ptrs, compact_input (C := C) (P := P) dbname bopts fuel (stopped stop) input c snapshots vs s
      = Some (Ok tt, set_c_edit (AddFile (Z.of_nat (c_level c) + 1) n size (first_key out) (last_key out) (c_edit c)) (set_level_ptrs ptrs c), snd (NewFileNumber vs), set_env env' s) /\
    0 < size < 2 ^ 32 /\ Store (ids + 1) env' (<[n := (size, out)]> disk) (set_env env' s) /\ evolves (W := W) (eq (TableFileName dbname n)) env env'.
Proof.
  intros n out HS Hnum Hn Hrange Hids Hv Hptrs Hsrt Hseq Hsmall (R & cp & HFw & HR) Hfuel Hne Hfit. unfold compact_input.
  pose proof (fwd_first _ _ HFw _ _ HR) as HR1. unfold cur_first in HR1.
  assert (length (internal_entries D) = length D) as Hlen by apply length_map.
  assert (it_Valid (it_SeekToFirst input) = true) as ->.
  { pose proof (scan_here _ R _ 0 HFw HR1) as Hh. rewrite drop_0 in Hh. destruct D as [|pv D]; [done|]. by destruct Hh as (-> & _). }
  cbn [negb]. change (NewFileNumber vs) with (n, set_next_file (u64 (n + 1)) vs). cbv iota beta zeta.
  destruct (NewWritableFile_store (C := C) (P := P) dbname topts ids env disk s n HS Hnum Hn Hrange) as (file & env1 & -> & Hfile & HS1 & Ee1).
  set (st0 := mkCompactState _ _ _ _). destruct (compact_loop_spec stop (internal_entries D) R (smallest_snapshot snapshots vs) fuel 0 st0 HFw HR1 ltac:(lia)) as (st' & -> & Hres).
  rewrite drop_0, until_internal in Hres. apply (keys_sorted_sublist (C := C) D (until stop D)) in Hsrt; [|apply until_sublist].
  assert (forall p v, (p, v) ∈ until stop D -> seq_ok (pik_sequence p)) as Hseq' by (intros p v Hp; apply (Hseq p v); eapply elem_of_sublist; [exact Hp|apply until_sublist]). destruct (kept_spec (smallest_snapshot snapshots vs) Hsmall c Hv [] (until stop D) (newDropState c) Hsrt Hseq' ltac:(by apply newDropState_inv)) as [Ek HI'].
  change (cs_drop st0) with (newDropState c) in Hres. destruct (kept _ (newDropState c) (internal_entries (until stop D))) as [kvs ds]. cbn [fst snd] in Ek, HI'.
  fold (compaction_output (smallest_snapshot snapshots vs) c (until stop D)) in Ek. fold out in Ek. subst kvs. destruct Hres as (-> & -> & ->).
  assert (keys_sorted (C := IC) (internal_entries out)) as Hsrt' by (eapply keys_sorted_sublist; [apply compact_ref_sublist|done]).
  destruct (finish_table_spec (C := C) (P := P) dbname bopts topts Hri ids env1 disk (set_env env1 s) n out file HS1 Hnum Hn Hrange Hids Hsrt' Hfit Hfile) as (size & env2 & wf & Efin & Hsz & HS2 & Ee2).
  destruct (finish_output_spec _ _ _ _ _ Efin) as (f2 & Eout & Es2). change (cs_builder st0) with (newTableBuilder (P := IP) bopts file). rewrite Eout, <- Es2.
  destruct (Z.ltb_spec 0 size); [|lia]. destruct (dr_version _ _ _ _ HI') as (ptrs & Eptr). rewrite Eptr.
  exists size, env2, ptrs. split_and!; [|lia|lia|done|].
  - destruct (output_meta_keys n out) as [<- <-]. done.
  - rewrite Ee2, Ee1. apply (ev_new _ (TableFileName dbname n)); [done|]. apply (ev_written _ (TableFileName dbname n) wf); [done|constructor].
Qed.

Lemma compact_input_spec {S : Type} {HI : Iterator S} (stop : option nat) (fuel : nat) (input : S) (c : Compaction) (snapshots : SnapshotList) (vs : VersionSet W)
    (ids : Z) (env : E) (disk : gmap Z (Z * versions)) (s : TableCache E F K) (D : versions) (p0 : ParsedInternalKey) (v0 : bytes) (D0 : versions) :
  let n := vs_next_file_number vs in
  Store ids env disk s -> numbers_ok disk -> disk !! n = None -> 0 <= n < 2 ^ 64 -> ids + 1 < 2 ^ 64 ->
  version_sorted (C := C) (c_input_version c) -> c_level_ptrs c = replicate kNumLevels 0%nat ->
  keys_sorted (C := IC) (internal_entries D) -> (forall p v, (p, v) ∈ D -> seq_ok (pik_sequence p)) -> smallest_snapshot snapshots vs < kMaxSequenceNumber ->
  scans (internal_entries D) input -> (length D <= fuel)%nat ->
  compaction_output (smallest_snapshot snapshots vs) c (until stop D) = (p0, v0) :: D0 -> table_fits (C := C) (P := P) (W := W) bopts ((p0, v0) :: D0) ->
  exists size env' ptrs, compact_input (C := C) (P := P) dbname bopts fuel (stopped stop) input c snapshots vs s
      = Some (Ok tt, set_c_edit (AddFile (Z.of_nat (c_level c) + 1) n size (encode_key p0) (encode_key (fst (List.last ((p0, v0) :: D0) (p0, v0)))) (c_edit c)) (set_level_ptrs ptrs c),
              snd (NewFileNumber vs), set_env env' s) /\
    0 < size < 2 ^ 32 /\ Store (ids + 1) env' (<[n := (size, (p0, v0) :: D0)]> disk) (set_env env' s) /\ evolves (W := W) (eq (TableFileName dbname n)) env env'.
Proof.
  intros n HS Hnum Hn Hrange Hids Hv Hptrs Hsrt Hseq Hsmall Hscan Hfuel Hout Hfit. assert (D <> []) as Hne by (intros ->; by destruct stop as [[]|]). rewrite <- Hout in Hfit.
  destruct (compact_input_run stop fuel input c snapshots vs ids env disk s D HS Hnum Hn Hrange Hids Hv Hptrs Hsrt Hseq Hsmall Hscan Hfuel Hne Hfit) as (size & env' & ptrs & Er & Hsz & HS' & Hev).
  rewrite Hout in *. exists size, env', ptrs. split_and!; [|lia|lia|done|done]. rewrite Er. do 7 f_equal.
  unfold last_key. destruct (exists_last (l := (p0, v0) :: D0)) as (l & [q w] & ->); [done|]. by rewrite last_snoc, List.last_last.
Qed.

(** C14. A compaction that keeps nothing still adds a file.  When every entry that the
    loop reads is dropped (deletions at the base level and what they hide, with no
    snapshot to see them), or when a shutdown stops it before an entry is kept, the work succeeds and
    its edit adds to the next level a file of the new number whose smallest and largest
    keys are both the empty string.  Every edit with this file fails the assertion of
    [InternalKey::Encode] in [EncodeTo], so that a build with assertions stops when it
    logs the edit, if not before.  In a build without them [EncodeTo] writes the record, and if
    the rest of the edit is one that can be recorded, [DecodeFrom] answers "bad InternalKey" on it, so that the
    MANIFEST cannot be read any more.
    The input is not empty, in order and with valid sequence numbers; the compaction is
    one as the version set sets it up (a sorted input version, a level below the last, an edit
    without new files); the file number is new, a table without entries stays below 2^32 bytes, and there are no
    I/O errors. *)
Theorem compaction_of_nothing {S : Type} {HI : Iterator S} (stop : option nat) (fuel : nat) (input : S) (c : Compaction) (snapshots : SnapshotList) (vs : VersionSet W)
    (ids : Z) (env : E) (disk : gmap Z (Z * versions)) (s : TableCache E F K) (D : versions) :
  let n := vs_next_file_number vs in
  Store ids env disk s -> numbers_ok disk -> disk !! n = None -> 0 <= n < 2 ^ 64 -> ids + 1 < 2 ^ 64 ->
  version_sorted (C := C) (c_input_version c) -> (c_level c + 1 < kNumLevels)%nat -> c_level_ptrs c = replicate kNumLevels 0%nat -> ve_new_files (c_edit c) = [] ->
  keys_sorted (C := IC) (internal_entries D) -> (forall p v, (p, v) ∈ D -> seq_ok (pik_sequence p)) -> smallest_snapshot snapshots vs < kMaxSequenceNumber ->
  scans (internal_entries D) input -> (length D <= fuel)%nat -> D <> [] ->
  compaction_output (smallest_snapshot snapshots vs) c (until stop D) = [] -> table_fits (C := C) (P := P) (W := W) bopts [] ->
  exists c' vs' s' f, compact_input (C := C) (P := P) dbname bopts fuel (stopped stop) input c snapshots vs s = Some (Ok tt, c', vs', s') /\
    ve_new_files (c_edit c') = [(Z.of_nat (c_level c) + 1, f)] /\ fm_number f = n /\ 0 < fm_file_size f /\ fm_smallest f = [] /\ fm_largest f = [] /\
    forall e old, ve_new_files e = ve_new_files (c_edit c') ->
      VersionEdit_EncodeTo_asserts e = false /\
      (edit_ok (without_new_files e) -> snd (VersionEdit_DecodeFrom (VersionEdit_EncodeTo e []) old) = Err (Corruption "VersionEdit: bad InternalKey" "")).
Proof.
  intros n HS Hnum Hn Hrange Hids Hv Hl Hptrs Hnew Hsrt Hseq Hsmall Hscan Hfuel Hne Hout Hfit. rewrite <- Hout in Hfit.
  destruct (compact_input_run stop fuel input c snapshots vs ids env disk s D HS Hnum Hn Hrange Hids Hv Hptrs Hsrt Hseq Hsmall Hscan Hfuel Hne Hfit) as (size & env' & ptrs & Er & Hsz & _).
  rewrite Hout in Er. cbn [first_key last_key last] in Er. eexists _, _, _, (mkFileMetaData default_allowed_seeks n size [] []). split; [exact Er|].
  assert (ve_new_files (AddFile (Z.of_nat (c_level c) + 1) n size [] [] (c_edit c)) = [(Z.of_nat (c_level c) + 1, mkFileMetaData default_allowed_seeks n size [] [])]) as En.
  { cbn [AddFile emplace_new_file ve_new_files]. by rewrite Hnew. }
  cbn [set_c_edit c_edit set_level_ptrs]. split_and!; [exact En|done|cbn; lia|done|done|]. intros e old Enew. apply (eq_trans Enew) in En. split.
  - unfold VersionEdit_EncodeTo_asserts. rewrite En. cbn [forallb snd fm_smallest]. apply andb_false_r.
  - intros Hok. replace e with (AddFile (Z.of_nat (c_level c) + 1) n size [] [] (without_new_files e)) by (destruct e; cbn in En; by rewrite En).
    apply decode_empty_key; [exact Hok|unfold level_ok; lia|done|split; lia].
Qed.

End WorkSpec.

(** ** The input of a compaction *)

Section InputSpec.
Context (slen zstlen : bytes -> option Z) (sun zun : bytes -> option bytes).
Context {C : Comparator} {CL : ComparatorLaws C} {P : FilterPolicy} {PL : FilterPolicyLaws P}.
Context {E W F : Type} {WF : WritableFile W} {WL : WritableFileLaws W} {RFS : RandomAccessFS E F} {RF : RandomAccessFile F} {RL : RandomAccessFileLaws F}.
Context {K Hd : Type} {KC : Cache K Hd Block} {KL : CacheLaws K Hd Block} {KI : CacheIdLaws K Hd Block}.
Context (dbname : bytes) (topts : TableOptions).

Abbreviation IC := (InternalKeyComparator C).
Abbreviation IP := (InternalFilterPolicy P).
Abbreviation Store := (StoreOk (W := W) (F := F) (C := C) (P := P) dbname topts).
Abbreviation titer := (table_iter (C := C) (P := P) slen zstlen sun zun dbname topts).
Abbreviation TI := (DbTableIter_iter (C := C) (F := F) (K := K) slen zstlen sun zun).

(** The entries of a table file. *)
Definition disk_entries (disk : gmap Z (Z * versions)) (n : Z) : versions := match disk !! n with Some (_, vs) => vs | None => [] end.

Lemma table_iterates (ids : Z) (env : E) (disk : gmap Z (Z * versions)) (s : TableCache E F K) (ro : ReadOptions) (n size : Z) (vs : versions) :
  Store ids env disk s -> disk !! n = Some (size, vs) -> iterates (C := IC) (H := TI) (internal_entries vs) (titer ro s n size).
Proof.
  intros HS Hn. unfold table_iter, tc_NewIterator.
  destruct (FindTable_spec (W := W) (C := C) (P := P) slen zstlen sun zun dbname topts ids env disk s n size vs HS Hn) as (t & s1 & -> & HS1 & Ht). cbn [fst].
  destruct (so_tables _ _ _ _ _ _ HS1 n t Ht) as (sz & vs' & Hn' & bopts & blks & idx & file & id & HL & Hc & Et & Hco & _). assert (vs' = vs) as -> by congruence.
  apply (iterates_inr (HB := TableIter_iter (C := IC) slen zstlen sun zun)). rewrite <- Hc. pose proof HL as [Hdata Hsz Hri Hlen Hsep Hne Hsrt].
  destruct (TableIterator_sim (C := IC) (P := IP) slen zstlen sun zun bopts blks idx file Hdata Hsz Hri Hlen Hsep Hne Hsrt topts id ro) as [Sim Hat0].
  pose proof (Hat0 (tc_block_cache s1) ltac:(by rewrite <- Et)) as Hat.
  rewrite <- Et in Sim, Hat. match type of Hat with ?R _ None => set (RT := R) in * end.
  exists None, (fun it c => tit_table it = t /\ tit_options it = ro /\ RT (tit_iter it) c).
  split; [|split_and!; [done|done|exact Hat]].
  split; intros it; [intros c|intros i|intros c|intros c|intros c|intros c tgt|intros i|intros i]; intros (E1 & E2 & Hit);
    cbn [it_Valid it_SeekToFirst it_SeekToLast it_Seek it_Next it_Prev it_key it_value it_status TableIter_iter on_table_iter tit_table tit_options tit_iter];
    unfold TableIter_I; rewrite E1, E2.
  - exact (sim_valid _ _ Sim _ _ Hit).
  - exact (sim_entry _ _ Sim _ _ Hit).
  - exact (sim_status _ _ Sim _ _ Hit).
  - split_and!; [done..|exact (sim_first _ _ Sim _ _ Hit)].
  - split_and!; [done..|exact (sim_last _ _ Sim _ _ Hit)].
  - split_and!; [done..|exact (sim_seek _ _ Sim _ _ tgt Hit)].
  - split_and!; [done..|exact (sim_next _ _ Sim _ _ Hit)].
  - split_and!; [done..|exact (sim_prev _ _ Sim _ _ Hit)].
Qed.

Definition file_entries (disk : gmap Z (Z * versions)) (f : FileMetaData) : versions := disk_entries disk (fm_number f).

(** What is known about an input file. *)
Record input_ok (disk : gmap Z (Z * versions)) (f : FileMetaData) : Prop := {
  io_disk : disk !! fm_number f = Some (fm_file_size f, file_entries disk f);
  io_nums : nums_ok f;
  io_file : file_ok (C := C) f;
  io_contents : contents_ok (C := C) f (file_entries disk f)
}.

Lemma internal_entries_concat (l : list versions) : concat (map internal_entries l) = internal_entries (concat l).
Proof. induction l as [|x l IH]; [done|]. cbn. unfold internal_entries in *. by rewrite map_app, IH. Qed.

Lemma level_entries_files (disk : gmap Z (Z * versions)) (files : list FileMetaData) :
  level_entries (fun n _ => disk_entries disk n) files = internal_entries (concat (map (file_entries disk) files)).
Proof. unfold level_entries. by rewrite <- internal_entries_concat, map_map. Qed.

Lemma level_entries_sorted (files : list FileMetaData) (contents : FileMetaData -> versions) :
  files_sorted (C := C) files -> Forall (fun f => contents_ok (C := C) f (contents f)) files -> keys_sorted (C := IC) (internal_entries (concat (map contents files))).
Proof.
  intros Hs Hc. induction files as [|f files IH]; [constructor|]. cbn [map concat]. unfold internal_entries, keys_sorted. rewrite map_app.
  apply Forall_cons in Hc as [Hf Hc]. assert (files_sorted (C := C) files) as Hs' by (unfold files_sorted in *; by apply StronglySorted_inv in Hs as [Hs _]).
  apply StronglySorted_app. split_and!; [|apply Hf|by apply IH]. intros x y Hx Hy. apply list_elem_of_fmap in Hx as ([p v] & -> & Hp). apply list_elem_of_fmap in Hy as ([q w] & -> & Hq).
  cbn [fst]. apply list_elem_of_In, in_concat in Hq as (l & Hl & Hq). apply in_map_iff in Hl as (g & <- & Hg). apply list_elem_of_In in Hq. apply list_elem_of_In, list_elem_of_lookup in Hg as [j Hj].
  pose proof (files_sorted_lt (C := C) (f :: files) 0 (S j) f g Hs ltac:(lia) eq_refl Hj) as Hlt. rewrite Forall_lookup in Hc.
  eapply (cle_clt_trans (C := IC)); [by apply (co_range _ _ Hf p v)|]. eapply (clt_cle_trans (C := IC)); [exact Hlt|]. by apply (co_range _ _ (Hc j g Hj) q w).
Qed.

Section Children.
Context (ids : Z) (env : E) (disk : gmap Z (Z * versions)) (s : TableCache E F K) (HS : Store ids env disk s) (ro : ReadOptions) (fuel : nat).

Abbreviation LI := (LevelIterator_iter (C := C) (HD := TI) (titer ro s) error_iter fuel).
Abbreviation CI := (sum_iter (HA := TI) (HB := LI)).

Lemma input_children_ok (level which : nat) (files : list FileMetaData) :
  Forall (input_ok disk) files -> ((0 < level + which)%nat -> files_sorted (C := C) files) -> zlen files < 2 ^ 31 -> (length files < fuel)%nat ->
  exists kvss, Forall2 (fun kvs (x : EmptyIterator + TableIter F K + LevelIterator) => keys_sorted (C := IC) kvs /\ iterates (C := IC) (H := CI) kvs x) kvss
      (input_children (titer ro s) level which files) /\ concat kvss = internal_entries (concat (map (file_entries disk) files)).
Proof.
  intros Hok Hs Hsz Hf. destruct files as [|f0 files0]; [exists []; split; [constructor|done]|]. cbn [input_children]. set (files := f0 :: files0) in *. clearbody files.
  destruct (Nat.eqb_spec (level + which) 0) as [E0|E0].
  - exists (map (fun f => internal_entries (file_entries disk f)) files). split; [|by rewrite <- internal_entries_concat, map_map].
    apply Forall2_fmap, Forall_Forall2_diag. eapply Forall_impl; [exact Hok|]. intros f [Hd' Hn Hfo Hc]. split; [apply Hc|].
    apply (iterates_inl (HA := TI) (HB := LI)). by eapply table_iterates.
  - exists [level_entries (fun n _ => disk_entries disk n) files]. rewrite level_entries_files. split; [|cbn; by rewrite app_nil_r]. constructor; [|constructor].
    assert (Forall (fun f => contents_ok (C := C) f (file_entries disk f)) files) as Hcs by (eapply Forall_impl; [exact Hok|]; by intros f []).
    split; [apply level_entries_sorted; [apply Hs; lia|done]|]. apply (iterates_inr (HA := TI) (HB := LI)). rewrite <- level_entries_files.
    destruct (level_sim (C := C) (HD := TI) (titer ro s) error_iter fuel (fun n _ => disk_entries disk n)
      (fun n _ => iter_at (C := IC) (H := TI) (internal_entries (disk_entries disk n))) files) as [Sim Hat]; [..|eexists None, _; split; [exact Sim|exact Hat]].
    + eapply Forall_impl; [exact Hok|]. by intros f [].
    + eapply Forall_impl; [exact Hok|]. by intros f [].
    + apply Hs. lia.
    + done.
    + done.
    + intros f Hin. rewrite Forall_forall in Hok. destruct (Hok f Hin) as [Hd' _ _ _]. split; [apply iter_at_sim|]. by eapply table_iterates.
    + done.
Qed.
End Children.

(** The merged input: the entries of all input files in order. *)
Lemma MakeInputIterator_scans (ids : Z) (env : E) (disk : gmap Z (Z * versions)) (s : TableCache E F K) (c : Compaction) (D : versions) :
  Store ids env disk s -> Forall (input_ok disk) (c_inputs0 c ++ c_inputs1 c) ->
  ((0 < c_level c)%nat -> files_sorted (C := C) (c_inputs0 c)) -> files_sorted (C := C) (c_inputs1 c) -> zlen (c_inputs0 c) < 2 ^ 31 -> zlen (c_inputs1 c) < 2 ^ 31 ->
  keys_sorted (C := IC) (internal_entries D) -> D ≡ₚ concat (map (file_entries disk) (c_inputs0 c ++ c_inputs1 c)) ->
  scans (H := InputIter_iter (C := C) (P := P) slen zstlen sun zun dbname topts s c) (internal_entries D)
    (MakeInputIterator (C := C) (HD := TI) (titer (input_options topts) s) error_iter (input_fuel c) c).
Proof.
  intros HS Hok Hs0 Hs1 Hz0 Hz1 Hsrt Hperm. apply Forall_app in Hok as [Hok0 Hok1]. apply (iterates_scans (C := IC)). unfold MakeInputIterator, MakeInputIterator_list.
  destruct (input_children_ok ids env disk s HS (input_options topts) (input_fuel c) (c_level c) 0 (c_inputs0 c) Hok0) as (kvss0 & HA & E0); [by rewrite Nat.add_0_r|done|unfold input_fuel; lia|].
  destruct (input_children_ok ids env disk s HS (input_options topts) (input_fuel c) (c_level c) 1 (c_inputs1 c) Hok1) as (kvss1 & HB & E1); [done|done|unfold input_fuel; lia|].
  eapply (iterates_merge (C := IC) _ (kvss0 ++ kvss1)); [by apply Forall2_app|done|].
  rewrite concat_app, E0, E1. unfold internal_entries. rewrite Hperm, map_app, concat_app, map_app. done.
Qed.
End InputSpec.

(** ** A compaction that keeps nothing *)

Section Nothing.
Abbreviation BC := BytewiseComparator.
Abbreviation bloom := (BloomPolicy 10).

(** A value and the deletion that hides it, at the lowest level in use. *)
Definition deleted_versions : versions := [(mkPIK (lit "a") 2 kTypeDeletion, []); (mkPIK (lit "a") 1 kTypeValue, lit "1")].
Definition nothing_compaction : Compaction := newCompaction 2097152 2 newVersion [].
Definition nothing_input : ListIterator := mkListIterator (internal_entries deleted_versions) None.
Definition nothing_set : VersionSet MemFile := vs_SetLastSequence 2 newVersionSet.
Definition nothing_store : TableCache MapFS MemFile (ShardedLRUCache Block) := newTableCache ∅ None.
Definition nothing_options : TableBuilderOptions := mkTableBuilderOptions 4096 16 kNoCompression true.

Lemma newVersion_files (level : nat) : files_ newVersion level = [].
Proof. unfold files_. cbn [newVersion v_files]. destruct (nth_in_or_default level (replicate kNumLevels ([] : list FileMetaData)) []) as [Hin|He]; [|exact He]. apply list_elem_of_In in Hin. by apply elem_of_replicate in Hin as [? _]. Qed.

Lemma compaction_of_nothing_witness :
  exists c' vs' s' f, compact_input (C := BC) (P := bloom) (HI := ListIterator_iter (C := InternalKeyComparator BC)) (lit "db") nothing_options 2 (stopped None) nothing_input nothing_compaction newSnapshotList nothing_set nothing_store
      = Some (Ok tt, c', vs', s') /\
    ve_new_files (c_edit c') = [(3, f)] /\ fm_number f = 2 /\ fm_smallest f = [] /\ fm_largest f = [] /\
    forall e old, ve_new_files e = ve_new_files (c_edit c') ->
      VersionEdit_EncodeTo_asserts e = false /\
      (edit_ok (without_new_files e) -> snd (VersionEdit_DecodeFrom (VersionEdit_EncodeTo e []) old) = Err (Corruption "VersionEdit: bad InternalKey" "")).
Proof.
  assert (PL : FilterPolicyLaws bloom) by (apply BloomLaws; lia).
  destruct (compaction_of_nothing (C := BC) (P := bloom) (E := MapFS) (W := MemFile) (F := MemFile) (HI := ListIterator_iter (C := InternalKeyComparator BC)) (lit "db") nothing_options (mkTableOptions true true) ltac:(vm_compute; discriminate)
    None 2 nothing_input nothing_compaction newSnapshotList nothing_set 0 ∅ ∅ nothing_store deleted_versions) as (c' & vs' & s' & f & E1 & E2 & E3 & _ & E4 & E5 & E6).
  - split; [lia|reflexivity| | | |]; intros *; rewrite ?lookup_empty; try discriminate.
  - intros m x. by rewrite lookup_empty.
  - apply lookup_empty.
  - split; vm_compute; [discriminate|reflexivity].
  - lia.
  - split; intros level; cbn [nothing_compaction newCompaction c_input_version]; rewrite newVersion_files; [constructor|intros _; constructor].
  - apply Nat.ltb_lt. reflexivity.
  - reflexivity.
  - reflexivity.
  - repeat constructor.
  - intros p v Hp. repeat (apply elem_of_cons in Hp as [Hp|Hp]; [apply pair_equal_spec in Hp as [-> _]; split; vm_compute; discriminate|]). by apply not_elem_of_nil in Hp.
  - reflexivity.
  - exists (list_at (internal_entries deleted_versions)), None. split; [apply (IterSim_fwd (C := InternalKeyComparator BC)), ListIterator_sim|]. split_and!; done.
  - reflexivity.
  - discriminate.
  - vm_compute. reflexivity.
  - intros [data] Hdata. cbn in Hdata. subst data. vm_compute. reflexivity.
  - exists c', vs', s', f. exact (conj E1 (conj E2 (conj E3 (conj E4 (conj E5 E6))))).
Defined.
End Nothing.
