(* ===== verification/DbImpl.v ===== *)
(** * DbImpl: the database ([db/db_impl.h], [db/db_impl.cc])

    A database is the memtables, the log, the version set, the table cache (which
    keeps the state of the file system), the queue of writers and the snapshots.
    Each operation is a function of that state; the places where the code releases
    [mutex_] or waits are the ends of a step, so that the steps of several threads
    can be put in any order ([DbStep]). *)

From stdpp Require Import sorting fin_sets.
From S2P Require Import Prelude Random Status Coding Comparator Logging FilterPolicy DbFormat SkipList MemTable WriteBatch Env LogFile Format Iterator Block Merger FilterBlock.
From S2P Require Import TwoLevelIterator TableBuilder Cache Table VersionEdit FileName DBIter Version VersionRead VersionSet Compaction.
From S2P Require Import TableCache Snapshot Iterates TableFiles CompactionRun CompactionWork.

(** ** Options *)

(** The fields of [Options<FS>] that the database reads. *)
Record Options := mkOptions {
  o_create_if_missing : bool;
  o_paranoid_checks : bool;
  o_write_buffer_size : Z;
  o_max_open_files : Z;
  o_block_size : Z;
  o_block_restart_interval : Z;
  o_max_file_size : Z;
  o_compression : CompressionType;
  o_has_filter : bool
}.

(** [static_cast<int>] of the field is what is compared. *)
Definition ClipToRange (x minvalue maxvalue : Z) : Z :=
  let x := if maxvalue <? s32 x then maxvalue else x in
  if s32 x <? minvalue then minvalue else x.

Definition SanitizeOptions (src : Options) : Options :=
  mkOptions (o_create_if_missing src) (o_paranoid_checks src)
    (ClipToRange (o_write_buffer_size src) (Z.shiftl 64 10) (Z.shiftl 1 30))
    (ClipToRange (o_max_open_files src) (64 + 10) 50000)
    (ClipToRange (o_block_size src) (Z.shiftl 1 10) (Z.shiftl 4 20))
    (o_block_restart_interval src)
    (ClipToRange (o_max_file_size src) (Z.shiftl 1 20) (Z.shiftl 1 30))
    (o_compression src) (o_has_filter src).

Definition builder_options (o : Options) : TableBuilderOptions :=
  mkTableBuilderOptions (o_block_size o) (o_block_restart_interval o) (o_compression o) (o_has_filter o).

Definition table_options (o : Options) : TableOptions := mkTableOptions (o_has_filter o) (o_paranoid_checks o).

(** ** The state *)

(** [DBImpl::Writer]: the object on the stack of a thread that writes. *)
Record DbWriter := mkDbWriter { dw_status : Status; dw_batch : option WriteBatch; dw_sync : bool; dw_done : bool }.

Record ManualCompaction := mkManual {
  mc_level : nat;
  mc_done : bool;
  mc_begin : option InternalKey;
  mc_end : option InternalKey
}.

(** What the writer at the front of the queue is doing.  [Writing]: the group up to
    [last_writer] is in the log and the memtable; [publish] is the sequence number to
    set (none when there was no batch). *)
Inductive FrontPhase :=
  | Starting
  | MakingRoom (force allow_delay : bool)
  | Writing (last_writer : Z) (publish : option Z) (of_tmp_batch : bool) (s : Status).

(** [db_writer_objects] holds the [Writer] objects by address and [db_writers] is the
    deque of their addresses; [db_manual_objects] the [ManualCompaction] objects.
    [db_seeks] holds the counters [allowed_seeks] that differ from their first value,
    by file number. *)
Record DBImpl (E W F K Rnd : Type) := mkDB {
  db_mem : MemTable Rnd;
  db_imm : option (MemTable Rnd);
  db_logfile_number : Z;
  db_log : Writer W;
  db_writer_objects : gmap Z DbWriter;
  db_writers : list Z;
  db_front : FrontPhase;
  db_tmp_batch : WriteBatch;
  db_tables : TableCache E F K;
  db_versions : VersionSet W;
  db_snapshots : SnapshotList;
  db_seed : Z;
  db_seeks : gmap Z Z;
  db_bg_error : Status;
  db_manual_objects : gmap Z ManualCompaction;
  db_manual : option Z;
  db_bg_compaction_scheduled : bool;
  db_shutting_down : bool
}.
Arguments mkDB {E W F K Rnd}.
Arguments db_mem {E W F K Rnd}.
Arguments db_imm {E W F K Rnd}.
Arguments db_logfile_number {E W F K Rnd}.
Arguments db_log {E W F K Rnd}.
Arguments db_writer_objects {E W F K Rnd}.
Arguments db_writers {E W F K Rnd}.
Arguments db_front {E W F K Rnd}.
Arguments db_tmp_batch {E W F K Rnd}.
Arguments db_tables {E W F K Rnd}.
Arguments db_versions {E W F K Rnd}.
Arguments db_snapshots {E W F K Rnd}.
Arguments db_seed {E W F K Rnd}.
Arguments db_seeks {E W F K Rnd}.
Arguments db_bg_error {E W F K Rnd}.
Arguments db_manual_objects {E W F K Rnd}.
Arguments db_manual {E W F K Rnd}.
Arguments db_bg_compaction_scheduled {E W F K Rnd}.
Arguments db_shutting_down {E W F K Rnd}.

Section Setters.
Context {E W F K Rnd : Type}.
Abbreviation DB := (DBImpl E W F K Rnd).

Definition set_memtables (mem : MemTable Rnd) (imm : option (MemTable Rnd)) (d : DB) : DB :=
  mkDB mem imm (db_logfile_number d) (db_log d) (db_writer_objects d) (db_writers d) (db_front d) (db_tmp_batch d) (db_tables d) (db_versions d)
    (db_snapshots d) (db_seed d) (db_seeks d) (db_bg_error d) (db_manual_objects d) (db_manual d) (db_bg_compaction_scheduled d) (db_shutting_down d).

Definition set_log (number : Z) (log : Writer W) (d : DB) : DB :=
  mkDB (db_mem d) (db_imm d) number log (db_writer_objects d) (db_writers d) (db_front d) (db_tmp_batch d) (db_tables d) (db_versions d)
    (db_snapshots d) (db_seed d) (db_seeks d) (db_bg_error d) (db_manual_objects d) (db_manual d) (db_bg_compaction_scheduled d) (db_shutting_down d).

Definition set_writers (objects : gmap Z DbWriter) (writers : list Z) (front : FrontPhase) (d : DB) : DB :=
  mkDB (db_mem d) (db_imm d) (db_logfile_number d) (db_log d) objects writers front (db_tmp_batch d) (db_tables d) (db_versions d)
    (db_snapshots d) (db_seed d) (db_seeks d) (db_bg_error d) (db_manual_objects d) (db_manual d) (db_bg_compaction_scheduled d) (db_shutting_down d).

Definition set_tmp_batch (b : WriteBatch) (d : DB) : DB :=
  mkDB (db_mem d) (db_imm d) (db_logfile_number d) (db_log d) (db_writer_objects d) (db_writers d) (db_front d) b (db_tables d) (db_versions d)
    (db_snapshots d) (db_seed d) (db_seeks d) (db_bg_error d) (db_manual_objects d) (db_manual d) (db_bg_compaction_scheduled d) (db_shutting_down d).

Definition set_files (tables : TableCache E F K) (vs : VersionSet W) (d : DB) : DB :=
  mkDB (db_mem d) (db_imm d) (db_logfile_number d) (db_log d) (db_writer_objects d) (db_writers d) (db_front d) (db_tmp_batch d) tables vs
    (db_snapshots d) (db_seed d) (db_seeks d) (db_bg_error d) (db_manual_objects d) (db_manual d) (db_bg_compaction_scheduled d) (db_shutting_down d).

Definition set_snapshots (s : SnapshotList) (d : DB) : DB :=
  mkDB (db_mem d) (db_imm d) (db_logfile_number d) (db_log d) (db_writer_objects d) (db_writers d) (db_front d) (db_tmp_batch d) (db_tables d) (db_versions d)
    s (db_seed d) (db_seeks d) (db_bg_error d) (db_manual_objects d) (db_manual d) (db_bg_compaction_scheduled d) (db_shutting_down d).

Definition set_seed (seed : Z) (d : DB) : DB :=
  mkDB (db_mem d) (db_imm d) (db_logfile_number d) (db_log d) (db_writer_objects d) (db_writers d) (db_front d) (db_tmp_batch d) (db_tables d) (db_versions d)
    (db_snapshots d) seed (db_seeks d) (db_bg_error d) (db_manual_objects d) (db_manual d) (db_bg_compaction_scheduled d) (db_shutting_down d).

Definition set_seeks (seeks : gmap Z Z) (d : DB) : DB :=
  mkDB (db_mem d) (db_imm d) (db_logfile_number d) (db_log d) (db_writer_objects d) (db_writers d) (db_front d) (db_tmp_batch d) (db_tables d) (db_versions d)
    (db_snapshots d) (db_seed d) seeks (db_bg_error d) (db_manual_objects d) (db_manual d) (db_bg_compaction_scheduled d) (db_shutting_down d).

Definition set_bg_error (s : Status) (d : DB) : DB :=
  mkDB (db_mem d) (db_imm d) (db_logfile_number d) (db_log d) (db_writer_objects d) (db_writers d) (db_front d) (db_tmp_batch d) (db_tables d) (db_versions d)
    (db_snapshots d) (db_seed d) (db_seeks d) s (db_manual_objects d) (db_manual d) (db_bg_compaction_scheduled d) (db_shutting_down d).

Definition set_manual (objects : gmap Z ManualCompaction) (m : option Z) (d : DB) : DB :=
  mkDB (db_mem d) (db_imm d) (db_logfile_number d) (db_log d) (db_writer_objects d) (db_writers d) (db_front d) (db_tmp_batch d) (db_tables d) (db_versions d)
    (db_snapshots d) (db_seed d) (db_seeks d) (db_bg_error d) objects m (db_bg_compaction_scheduled d) (db_shutting_down d).

Definition set_scheduled (b : bool) (d : DB) : DB :=
  mkDB (db_mem d) (db_imm d) (db_logfile_number d) (db_log d) (db_writer_objects d) (db_writers d) (db_front d) (db_tmp_batch d) (db_tables d) (db_versions d)
    (db_snapshots d) (db_seed d) (db_seeks d) (db_bg_error d) (db_manual_objects d) (db_manual d) b (db_shutting_down d).

Definition set_shutting_down (d : DB) : DB :=
  mkDB (db_mem d) (db_imm d) (db_logfile_number d) (db_log d) (db_writer_objects d) (db_writers d) (db_front d) (db_tmp_batch d) (db_tables d) (db_versions d)
    (db_snapshots d) (db_seed d) (db_seeks d) (db_bg_error d) (db_manual_objects d) (db_manual d) (db_bg_compaction_scheduled d) true.

Definition MaybeScheduleCompaction (d : DB) : DB :=
  if db_bg_compaction_scheduled d || db_shutting_down d then d else set_scheduled true d.

Definition RecordBackgroundError (s : Status) (d : DB) : DB := if ok (db_bg_error d) then set_bg_error s d else d.

(** [versions_->current()] and its statistics. *)
Definition set_current (v : Version) (vs : VersionSet W) : VersionSet W :=
  mkVersionSet (vs_next_file_number vs) (vs_manifest_file_number vs) (vs_last_sequence vs) (vs_log_number vs) (vs_prev_log_number vs)
    (vs_descriptor_log vs) (removelast (vs_versions vs) ++ [v]) (vs_compact_pointer vs).

Definition seeks_of (d : DB) (f : FileMetaData) : Z := default (fm_allowed_seeks f) (db_seeks d !! fm_number f).
End Setters.

(** ** Writing *)

Section Write.
Context {C : Comparator} {E W SF F K Rnd : Type} `{FileSystem E W SF} `{WritableFile W} `{HandleFS E W} `{UniformSource Rnd}.
(** [options] is [options_]; [mem_usage] is [ApproximateMemoryUsage], the memory that
    the arena of the memtable has asked for. *)
Context (dbname : bytes) (options : Options) (mem_usage : MemTable Rnd -> Z).
Abbreviation DB := (DBImpl E W F K Rnd).

(** The seed of a skip list. *)
Definition new_mem : MemTable Rnd := newMemTable (newRandom 0xdeadbeef).

Definition set_front (phase : FrontPhase) (d : DB) : DB := set_writers (db_writer_objects d) (db_writers d) phase d.

(** [writers_.push_back(&w)]. *)
Definition Write_enqueue (id : Z) (sync : bool) (updates : option WriteBatch) (d : DB) : DB :=
  set_writers (<[id := mkDbWriter StatusOK updates sync false]> (db_writer_objects d)) (db_writers d ++ [id]) (db_front d) d.

(** One round of the loop of [MakeRoomForWrite].  [RoomDelay] sleeps without the
    mutex, [RoomWait] waits for the background work. *)
Inductive RoomStep :=
  | RoomReturn (r : Result unit) (d : DB)
  | RoomContinue (force allow_delay : bool) (d : DB)
  | RoomDelay (force : bool) (d : DB)
  | RoomWait (d : DB).

(** The file of the old log is closed when [logfile_] is assigned. *)
Definition switch_memtable (new_log_num : Z) (lfile : W) (d : DB) : DB :=
  let env := fs_Written (LogFileName dbname (db_logfile_number d)) (dest_ (db_log d)) (tc_env (db_tables d)) in
  let d := set_files (set_env env (db_tables d)) (db_versions d) d in
  let d := set_log new_log_num (newWriter lfile) d in
  set_memtables new_mem (Some (db_mem d)) d.

Definition room_step (force allow_delay : bool) (d : DB) : RoomStep :=
  if negb (ok (db_bg_error d)) then RoomReturn (Err (db_bg_error d)) d
  else if allow_delay && (kL0_SlowdownWritesTrigger <=? NumLevelFiles (db_versions d) 0) then RoomDelay force d
  else if negb force && (mem_usage (db_mem d) <=? o_write_buffer_size options) then RoomReturn (Ok tt) d
  else
    match db_imm d with
    | Some _ => RoomWait d
    | None =>
        if kL0_StopWritesTrigger <=? NumLevelFiles (db_versions d) 0 then RoomWait d
        else
          let '(new_log_num, vs) := NewFileNumber (db_versions d) in
          let '(lfile_res, env) := fs_NewWritableFile (LogFileName dbname new_log_num) (tc_env (db_tables d)) in
          let d := set_files (set_env env (db_tables d)) vs d in
          match lfile_res with
          | Err s => RoomReturn (Err s) (set_files (db_tables d) (ReuseFileNumber new_log_num (db_versions d)) d)
          | Ok lfile => RoomContinue false allow_delay (MaybeScheduleCompaction (switch_memtable new_log_num lfile d))
          end
    end.

(** The loop, for a thread that is alone; [None] when it waits. *)
Fixpoint MakeRoomForWrite (fuel : nat) (force allow_delay : bool) (d : DB) : option (Result unit * DB) :=
  match fuel with
  | O => None
  | S fuel =>
      match room_step force allow_delay d with
      | RoomReturn r d => Some (r, d)
      | RoomContinue force allow_delay d => MakeRoomForWrite fuel force allow_delay d
      | RoomDelay force d => MakeRoomForWrite fuel force false d
      | RoomWait _ => None
      end
  end.

(** *** [BuildBatchGroup] *)

(** The loop over the writers after the first: [tmp_batch_], whether [result] is
    [tmp_batch_] by now, and [*last_writer]. *)
Fixpoint group_loop (objects : gmap Z DbWriter) (first_batch : WriteBatch) (first_sync : bool) (max_size : Z) (writers : list Z)
    (size : Z) (tmp : WriteBatch) (of_tmp : bool) (last_writer : Z) : WriteBatch * bool * Z :=
  match writers with
  | [] => (tmp, of_tmp, last_writer)
  | id :: writers =>
      match objects !! id with
      | None => (tmp, of_tmp, last_writer)
      | Some w =>
          if dw_sync w && negb first_sync then (tmp, of_tmp, last_writer)
          else
            match dw_batch w with
            | None => group_loop objects first_batch first_sync max_size writers size tmp of_tmp id
            | Some batch =>
                let size := u64 (size + zlen batch) in
                if max_size <? size then (tmp, of_tmp, last_writer)
                else
                  let tmp := if of_tmp then tmp else WriteBatch_Append tmp first_batch in
                  group_loop objects first_batch first_sync max_size writers size (WriteBatch_Append tmp batch) true id
            end
      end
  end.

(** The batch of the group, whether it is [tmp_batch_], and the last writer of the group. *)
Definition BuildBatchGroup (first : Z) (first_batch : WriteBatch) (first_sync : bool) (d : DB) : WriteBatch * bool * Z :=
  let size := zlen first_batch in
  let max_size := if size <=? Z.shiftl 128 10 then u64 (size + Z.shiftl 128 10) else Z.shiftl 1 20 in
  let '(tmp, of_tmp, last_writer) := group_loop (db_writer_objects d) first_batch first_sync max_size (tail (db_writers d)) size (db_tmp_batch d) false first in
  (if of_tmp then tmp else first_batch, of_tmp, last_writer).

(** *** The front writer *)

(** [log_->AddRecord] and the sync. *)
Definition log_batch (record : bytes) (sync : bool) (log : Writer W) : Result unit * Writer W :=
  let '(log_res, log) := AddRecord log record in
  match log_res with
  | Ok _ => if sync then let '(r, f) := wf_Sync (dest_ log) in (r, mkWriter f (block_offset_ log)) else (Ok tt, log)
  | Err s => (Err s, log)
  end.

(** From [LastSequence] to the end of the part without the mutex. *)
Definition Write_group (id : Z) (w : DbWriter) (d : DB) : DB :=
  match dw_batch w with
  | None => set_front (Writing id None false StatusOK) d
  | Some updates =>
      let last_sequence := vs_last_sequence (db_versions d) in
      let '(write_batch, of_tmp, last_writer) := BuildBatchGroup id updates (dw_sync w) d in
      let write_batch := SetSequence write_batch (u64 (last_sequence + 1)) in
      let last_sequence := u64 (last_sequence + Count write_batch) in
      let d := if of_tmp then set_tmp_batch write_batch d
               else set_writers (<[id := mkDbWriter (dw_status w) (Some write_batch) (dw_sync w) (dw_done w)]> (db_writer_objects d)) (db_writers d) (db_front d) d in
      let '(log_res, log) := log_batch write_batch (dw_sync w) (db_log d) in
      let d := set_log (db_logfile_number d) log d in
      match log_res with
      | Err s => set_front (Writing last_writer (Some last_sequence) of_tmp s) d
      | Ok _ =>
          let '(mem, insert_res) := InsertInto C OneIn write_batch (db_mem d) in
          set_front (Writing last_writer (Some last_sequence) of_tmp (result_status insert_res)) (set_memtables mem (db_imm d) d)
      end
  end.

(** The loop that tells the writers of the group: the objects and the queue after it. *)
Fixpoint finish_loop (id last_writer : Z) (status : Status) (writers : list Z) (objects : gmap Z DbWriter) : gmap Z DbWriter * list Z :=
  match writers with
  | [] => (objects, [])
  | ready :: writers =>
      let objects :=
        if ready =? id then objects
        else alter (fun r => mkDbWriter status (dw_batch r) (dw_sync r) true) ready objects in
      if ready =? last_writer then (objects, writers) else finish_loop id last_writer status writers objects
  end.

(** After the mutex is taken again: the result of the front writer. *)
Definition Write_finish (id last_writer : Z) (publish : option Z) (of_tmp : bool) (s : Status) (d : DB) : Status * DB :=
  let d := if of_tmp then set_tmp_batch WriteBatch_Clear d else d in
  let d := match publish with Some n => set_files (db_tables d) (vs_SetLastSequence n (db_versions d)) d | None => d end in
  let '(objects, writers) := finish_loop id last_writer s (db_writers d) (db_writer_objects d) in
  (s, set_writers (delete id objects) writers Starting d).

(** [MakeRoomForWrite] failed: only the front writer leaves. *)
Definition Write_no_room (id : Z) (d : DB) : DB := set_writers (delete id (db_writer_objects d)) (tail (db_writers d)) Starting d.

Definition status_result (s : Status) : Result unit := if ok s then Ok tt else Err s.

(** [Write] by a thread that is alone: [None] when it has to wait. *)
Definition DBImpl_Write (fuel : nat) (sync : bool) (updates : option WriteBatch) (d : DB) : option (Result unit * DB) :=
  let id := fresh (dom (db_writer_objects d)) in
  let w := mkDbWriter StatusOK updates sync false in
  let d := Write_enqueue id sync updates d in
  let force := match updates with Some _ => false | None => true end in
  match MakeRoomForWrite fuel force (negb force) d with
  | None => None
  | Some (Err s, d) => Some (Err s, Write_no_room id d)
  | Some (Ok _, d) =>
      let d := Write_group id w d in
      match db_front d with
      | Writing last_writer publish of_tmp s => let '(s, d) := Write_finish id last_writer publish of_tmp s d in Some (status_result s, d)
      | _ => None
      end
  end.

Definition DBImpl_Put (fuel : nat) (sync : bool) (key value : bytes) (d : DB) : option (Result unit * DB) :=
  DBImpl_Write fuel sync (Some (WriteBatch_Put newWriteBatch key value)) d.

Definition DBImpl_Delete (fuel : nat) (sync : bool) (key : bytes) (d : DB) : option (Result unit * DB) :=
  DBImpl_Write fuel sync (Some (WriteBatch_Delete newWriteBatch key)) d.
End Write.

(** ** Reading *)

Section Read.
Context (slen zstlen : bytes -> option Z) (sun zun : bytes -> option bytes).
Context {C : Comparator} {P : FilterPolicy} {E W F : Type} `{RandomAccessFS E F} `{RandomAccessFile F} {K Hd : Type} `{Cache K Hd Block} {Rnd : Type} `{UniformSource Rnd}.
Context (dbname : bytes) (options : Options).
Abbreviation DB := (DBImpl E W F K Rnd).
Abbreviation IC := (InternalKeyComparator C).
Abbreviation IP := (InternalFilterPolicy P).
Abbreviation topts := (table_options options).

(** The sequence number a read sees: a snapshot is an address in the list. *)
Definition read_sequence (snapshot : option Z) (d : DB) : SequenceNumber :=
  match snapshot with
  | Some p => seq_of (sl_nodes (db_snapshots d)) p
  | None => vs_last_sequence (db_versions d)
  end.

(** [current->Get] and the statistics. *)
Definition get_from_version (ro : ReadOptions) (lkey : LookupKey) (d : DB) : Result (option bytes) * DB :=
  let v := current (db_versions d) in
  let TS := TableCacheStore (C := C) (P := P) slen zstlen sun zun dbname topts in
  let '(v_res, stats, tables) := Version_Get (C := C) ro lkey v (db_tables d) in
  match seek_file stats with
  | None => (v_res, set_files tables (db_versions d) d)
  | Some f =>
      let '(have_stat_update, v, n) := UpdateStats stats v (seeks_of d f) in
      let d := set_seeks (<[fm_number f := n]> (db_seeks d)) (set_files tables (set_current v (db_versions d)) d) in
      (v_res, if (have_stat_update : bool) then MaybeScheduleCompaction d else d)
  end.

Definition DBImpl_Get (ro : ReadOptions) (snapshot : option Z) (key : bytes) (d : DB) : Result (option bytes) * DB :=
  let lkey := newLookupKey key (read_sequence snapshot d) in
  match MemTable_Get C (db_mem d) lkey with
  | Err s => (Err s, d)
  | Ok (Some v) => (Ok (Some v), d)
  | Ok None =>
      match match db_imm d with Some imm => MemTable_Get C imm lkey | None => Ok None end with
      | Err s => (Err s, d)
      | Ok (Some v) => (Ok (Some v), d)
      | Ok None => get_from_version ro lkey d
      end
  end.

Definition GetSnapshot (d : DB) : Z * DB :=
  let '(p, s) := sl_New (vs_last_sequence (db_versions d)) (db_snapshots d) in (p, set_snapshots s d).

(** The deleter of the shared pointer. *)
Definition ReleaseSnapshot (p : Z) (d : DB) : DB := set_snapshots (sl_Delete p (db_snapshots d)) d.

Definition DBImpl_RecordReadSample (key : bytes) (d : DB) : DB :=
  let '(b, v, n) := RecordReadSample (C := C) key (current (db_versions d)) (seeks_of d) in
  let d := set_files (db_tables d) (set_current v (db_versions d)) d in
  let d := match n with Some (f, n) => set_seeks (<[fm_number f := n]> (db_seeks d)) d | None => d end in
  if (b : bool) then MaybeScheduleCompaction d else d.

(** *** [NewIterator] *)

Abbreviation DbTableIter := (EmptyIterator + TableIter F K)%type.
Abbreviation VersionIter := (DbTableIter + LevelIterator (D := DbTableIter))%type.
Abbreviation ChildIter := (MemTableIterator Rnd + VersionIter)%type.
Abbreviation InternalIter := (EmptyIterator + (ChildIter + MergingIterator ChildIter))%type.
Abbreviation TI := (DbTableIter_iter (C := C) (F := F) (K := K) slen zstlen sun zun).

(** No level has more files than the version has, and so a step skips no more tables. *)
Definition version_fuel (v : Version) : nat := S (length (concat (v_files v))).

Definition VersionIter_iter (ro : ReadOptions) (d : DB) : Iterator VersionIter :=
  sum_iter (HA := TI) (HB := LevelIterator_iter (C := C) (HD := TI) (table_iter (C := C) (P := P) slen zstlen sun zun dbname topts ro (db_tables d)) error_iter
    (version_fuel (current (db_versions d)))).

Definition ChildIter_iter (ro : ReadOptions) (d : DB) : Iterator ChildIter :=
  sum_iter (HA := MemTableIterator_iter (C := C)) (HB := VersionIter_iter ro d).

Definition InternalIter_iter (ro : ReadOptions) (d : DB) : Iterator InternalIter :=
  sum_iter (HB := sum_iter (HA := ChildIter_iter ro d) (HB := MergingIterator_iter (C := IC) (H := ChildIter_iter ro d))).

Definition iterator_children (ro : ReadOptions) (d : DB) : list ChildIter :=
  [inl (MemTable_NewIterator (db_mem d))] ++
  match db_imm d with Some imm => [inl (MemTable_NewIterator imm)] | None => [] end ++
  map inr (AddIterators (D := DbTableIter) (table_iter (C := C) (P := P) slen zstlen sun zun dbname topts ro (db_tables d)) (current (db_versions d)) []).

Definition DBImpl_NewIterator (ro : ReadOptions) (snapshot : option Z) (d : DB) : DBIter InternalIter Rnd * DB :=
  let seed := u32 (db_seed d + 1) in
  let internal_iter := NewMergingIterator (H := ChildIter_iter ro d) (iterator_children ro d) in
  (newDBIter Uniform internal_iter (read_sequence snapshot d) (newRandom seed), set_seed seed d).

(** *** [GetProperty] and [GetApproximateSizes] *)

(** [%<w>d] and [%<w>.0f] of a number that is not negative. *)
Definition pad_left (w : nat) (s : bytes) : bytes := replicate (w - length s) Byte.x20 ++ s.

(** A quotient rounded to the nearest integer, ties to even. *)
Definition round_half_even (n m : Z) : Z :=
  let q := n / m in
  match 2 * (n mod m) ?= m with Lt => q | Gt => q + 1 | Eq => if Z.even q then q else q + 1 end.

Definition stats_header : bytes :=
  lit "                               Compactions" ++ [Byte.x0a] ++
  lit "Level  Files Size(MB) Time(sec) Read(MB) Write(MB)" ++ [Byte.x0a] ++
  lit "--------------------------------------------------" ++ [Byte.x0a].

Definition stats_line (vs : VersionSet W) (level : nat) : bytes :=
  let files := NumLevelFiles vs level in
  if 0 <? files
  then pad_left 3 (NumberToString (Z.of_nat level)) ++ lit " " ++ pad_left 8 (NumberToString files) ++ lit " " ++
       pad_left 8 (NumberToString (round_half_even (NumLevelBytes vs level) 1048576)) ++ lit " " ++ pad_left 9 (lit "0") ++ lit " " ++
       pad_left 8 (lit "0") ++ lit " " ++ pad_left 9 (lit "0") ++ [Byte.x0a]
  else [].

Definition strip_prefix (p s : bytes) : option bytes := if bool_decide (take (length p) s = p) then Some (drop (length p) s) else None.

(** [total_charge] is [TotalCharge] of the block cache. *)
Definition GetProperty (mem_usage : MemTable Rnd -> Z) (total_charge : K -> Z) (property : bytes) (d : DB) : option bytes :=
  in_ ← strip_prefix (lit "leveldb.") property;
  match strip_prefix (lit "num-files-at-level") in_ with
  | Some digits =>
      match from_chars digits with
      | Some (level, []) =>
          if Z.of_nat kNumLevels <=? level then None else Some (NumberToString (NumLevelFiles (db_versions d) (Z.to_nat level)))
      | _ => None
      end
  | None =>
      if bool_decide (in_ = lit "sstables") then Some (Version_DebugString (current (db_versions d)))
      else if bool_decide (in_ = lit "approximate-memory-usage") then
        let total := match tc_block_cache (db_tables d) with Some k => total_charge k | None => 0 end in
        let total := u64 (total + mem_usage (db_mem d)) in
        Some (NumberToString (match db_imm d with Some imm => u64 (total + mem_usage imm) | None => total end))
      else if bool_decide (in_ = lit "stats") then
        Some (stats_header ++ concat (map (stats_line (db_versions d)) (seq 0 kNumLevels)))
      else None
  end.

Definition table_offset (d : DB) (n size : Z) (k : bytes) : Z :=
  fst (tc_ApproximateOffsetOf (C := IC) (P := IP) slen zstlen sun zun dbname topts n size k (db_tables d)).

Definition approximate_size (range : bytes * bytes) (d : DB) : Z :=
  let k1 := newInternalKey (fst range) kMaxSequenceNumber kValueTypeForSeek in
  let k2 := newInternalKey (snd range) kMaxSequenceNumber kValueTypeForSeek in
  let start := vs_ApproximateOffsetOf (C := C) (table_offset d) (current (db_versions d)) k1 in
  let limit := vs_ApproximateOffsetOf (C := C) (table_offset d) (current (db_versions d)) k2 in
  if start <=? limit then limit - start else 0.

Definition GetApproximateSizes (ranges : list (bytes * bytes)) (d : DB) : list Z := map (fun r => approximate_size r d) ranges.
End Read.

(** ** Background work *)

Section Background.
Context (slen zstlen : bytes -> option Z) (sun zun : bytes -> option bytes).
Context {C : Comparator} {P : FilterPolicy} {E W SF F : Type} `{FileSystem E W SF} `{WritableFile W} `{HandleFS E W} `{RandomAccessFS E F} `{RandomAccessFile F}.
Context {K Hd : Type} `{Cache K Hd Block} {Rnd : Type} `{UniformSource Rnd}.
Context (dbname : bytes) (options : Options).
Abbreviation DB := (DBImpl E W F K Rnd).
Abbreviation bopts := (builder_options options).
Abbreviation topts := (table_options options).

(** [LogAndApply] on the state of the database; an error is recorded. *)
Definition log_and_apply (edit : VersionEdit) (d : DB) : Result unit * DB :=
  let '(log_res, _, vs, env) := LogAndApply (C := C) dbname edit (db_versions d) (tc_env (db_tables d)) in
  let d := set_files (set_env env (db_tables d)) vs d in
  (log_res, match log_res with Ok _ => d | Err s => RecordBackgroundError s d end).

(** The branch of [BackgroundCompaction] that writes the immutable memtable. *)
Definition CompactMemTable (fuel : nat) (imm : MemTable Rnd) (d : DB) : option DB :=
  let '(number, vs) := NewFileNumber (db_versions d) in
  let meta := mkFileMetaData (Z.shiftl 1 30) number 0 [] [] in
  match BuildTable (HI := MemTableIterator_iter (C := C)) (C := C) (P := InternalFilterPolicy P) slen zstlen sun zun dbname bopts topts fuel (MemTable_NewIterator imm) meta (db_tables d) with
  | None => None
  | Some (build_res, meta, tables) =>
      let d := set_files tables vs d in
      let d :=
        match build_res with
        | Ok _ =>
            if 0 <? fm_file_size meta then
              let level := PickLevelForMemTableOutput (C := C) (o_max_file_size options) (InternalKey_user_key (fm_smallest meta))
                             (InternalKey_user_key (fm_largest meta)) (current (db_versions d)) in
              let edit := AddFile (Z.of_nat level) (fm_number meta) (fm_file_size meta) (fm_smallest meta) (fm_largest meta) newVersionEdit in
              snd (log_and_apply (SetLogNumber (db_logfile_number d) edit) d)
            else d
        | Err s => RecordBackgroundError s d
        end in
      Some (set_memtables (db_mem d) None d)
  end.

(** The move of one file to the next level.  The file there is a new object. *)
Definition trivial_move (c : Compaction) (f : FileMetaData) (d : DB) : DB :=
  let edit := RemoveFile (Z.of_nat (c_level c)) (fm_number f) (c_edit c) in
  let edit := AddFile (Z.of_nat (c_level c) + 1) (fm_number f) (fm_file_size f) (fm_smallest f) (fm_largest f) edit in
  match log_and_apply edit d with
  | (Ok _, d) => set_seeks (delete (fm_number f) (db_seeks d)) d
  | (Err _, d) => d
  end.

(** The compaction itself: its status and the database after it. *)
Definition run_compaction (fuel : nat) (shutting : nat -> bool) (c : Compaction) (d : DB) : option (Result unit * DB) :=
  match DoCompactionWork (C := C) (P := P) slen zstlen sun zun dbname bopts topts fuel shutting c (db_snapshots d) (db_versions d) (db_tables d) with
  | None => None
  | Some (status, c, vs, tables) =>
      let d := set_files tables vs d in
      match status with
      | Err s => Some (Err s, RecordBackgroundError s d)
      | Ok _ => Some (Ok tt, snd (log_and_apply (AddInputDeletions c (c_edit c)) d))
      end
  end.

Definition set_manual_object (m : Z) (f : ManualCompaction -> ManualCompaction) (d : DB) : DB :=
  set_manual (alter f m (db_manual_objects d)) (db_manual d) d.

Definition end_manual (d : DB) : DB := set_manual (db_manual_objects d) None d.

Definition manual_done (b : bool) (mc : ManualCompaction) : ManualCompaction := mkManual (mc_level mc) b (mc_begin mc) (mc_end mc).
Definition manual_begin (k : InternalKey) (mc : ManualCompaction) : ManualCompaction := mkManual (mc_level mc) (mc_done mc) (Some k) (mc_end mc).

(** A manual compaction: the range of the object at address [m]. *)
Definition manual_step (fuel : nat) (shutting : nat -> bool) (m : Z) (mc : ManualCompaction) (d : DB) : option DB :=
  let '(c, vs) := CompactRange (C := C) (o_max_file_size options) (mc_level mc) (mc_begin mc) (mc_end mc) (db_versions d) in
  let d := set_files (db_tables d) vs d in
  match c with
  | None => Some (end_manual (set_manual_object m (manual_done true) d))
  | Some c =>
      let d := set_manual_object m (manual_done false) d in
      let manual_end := match last (c_inputs0 c) with Some f => fm_largest f | None => [] end in
      match run_compaction fuel shutting c d with
      | None => None
      | Some (Err _, d) => Some (end_manual (set_manual_object m (manual_done true) d))
      | Some (Ok _, d) => Some (end_manual (set_manual_object m (manual_begin manual_end) d))
      end
  end.

(** A compaction that the statistics ask for. *)
Definition automatic_step (fuel : nat) (shutting : nat -> bool) (d : DB) : option DB :=
  let '(c, vs) := PickCompaction (C := C) (o_max_file_size options) (db_versions d) in
  let d := set_files (db_tables d) vs d in
  match c with
  | None => Some d
  | Some c =>
      match IsTrivialMove (o_max_file_size options) c, c_inputs0 c with
      | true, f :: _ => Some (trivial_move c f d)
      | _, _ => snd <$> run_compaction fuel shutting c d
      end
  end.

Definition BackgroundCompaction (fuel : nat) (shutting : nat -> bool) (d : DB) : option DB :=
  match db_imm d with
  | Some imm => CompactMemTable fuel imm d
  | None =>
      match db_manual d with
      | Some m => match db_manual_objects d !! m with Some mc => manual_step fuel shutting m mc d | None => None end
      | None => automatic_step fuel shutting d
      end
  end.

(** One turn of the loop of [BackgroundCall], once there is work or the end.  [stop] is
    a destructor that begins during the turn, when a compaction has read so many entries. *)
Definition BackgroundCall (fuel : nat) (stop : option nat) (d : DB) : option DB :=
  if db_shutting_down d then Some d
  else if db_bg_compaction_scheduled d then
    match BackgroundCompaction fuel (stopped stop) d with
    | None => None
    | Some d =>
        let d := match stop with Some _ => set_shutting_down d | None => d end in
        Some (MaybeScheduleCompaction (set_scheduled false d))
    end
  else Some d.

(** *** Compactions by hand *)

(** [TEST_CompactRange]: the object [manual], with the keys of the range. *)
Definition new_manual (level : nat) (begin end_ : option bytes) : ManualCompaction :=
  mkManual level false ((fun k => newInternalKey k kMaxSequenceNumber kValueTypeForSeek) <$> begin) ((fun k => newInternalKey k 0 kTypeDeletion) <$> end_).

(** One turn of its loop: [None] when it ends, otherwise the state in which it waits
    (or goes on, when the slot was free). *)
Definition TEST_CompactRange_turn (m : Z) (d : DB) : option DB :=
  match db_manual_objects d !! m with
  | None => None
  | Some mc =>
      if mc_done mc || db_shutting_down d || negb (ok (db_bg_error d)) then None
      else Some match db_manual d with
                | None => MaybeScheduleCompaction (set_manual (db_manual_objects d) (Some m) d)
                | Some _ => d
                end
  end.

(** The end of the call: the object goes away, and the slot is cleared if it was its. *)
Definition TEST_CompactRange_end (m : Z) (d : DB) : DB :=
  set_manual (delete m (db_manual_objects d)) (if bool_decide (db_manual d = Some m) then None else db_manual d) d.

(** The levels that [CompactRange] compacts. *)
Definition max_level_with_files (begin end_ : option bytes) (v : Version) : nat :=
  fold_left (fun m level => if OverlapInLevel (C := C) level begin end_ v then level else m) (seq 1 (kNumLevels - 1)) 1%nat.

Definition compact_range_levels (begin end_ : option bytes) (d : DB) : list nat := seq 0 (max_level_with_files begin end_ (current (db_versions d))).

(** [TEST_CompactMemTable] after its write: [None] while it waits. *)
Definition TEST_CompactMemTable_turn (d : DB) : option (Result unit) :=
  match db_imm d with
  | Some _ => if ok (db_bg_error d) && negb (db_shutting_down d) then None else Some (Err (db_bg_error d))
  | None => Some (Ok tt)
  end.
End Background.

(** ** Opening and destroying *)

Section Open.
Context (slen zstlen : bytes -> option Z) (sun zun : bytes -> option bytes).
Context {C : Comparator} {P : FilterPolicy} {E W SF F L : Type} `{FileSystem E W SF} `{WritableFile W} `{HandleFS E W} `{RandomAccessFS E F} `{RandomAccessFile F}.
Context `{SequentialFile SF} `{DirectoryFS E L} {K Hd : Type} `{Cache K Hd Block} {Rnd : Type} `{UniformSource Rnd}.
Context (dbname : bytes) (options : Options).
Abbreviation DB := (DBImpl E W F K Rnd).
Abbreviation bopts := (builder_options options).
Abbreviation topts := (table_options options).

(** What the recovery of the logs keeps: [save_manifest], [edit], [max_sequence]. *)
Record LogRecovery := mkLogRecovery { lr_save_manifest : bool; lr_edit : VersionEdit; lr_max_sequence : SequenceNumber }.

(** One record of a log: the memtable, [count] and [max_sequence]. *)
Definition recover_batch (record : bytes) (mem : MemTable Rnd) (count max_sequence : Z) : MemTable Rnd * Z * Z :=
  if zlen record <? 12 then (mem, count, max_sequence)
  else
    let batch := SetContents record in
    let '(mem, ins_res) := InsertInto C OneIn batch mem in
    match ins_res with
    | Ok _ =>
        let last_seq := u64 (u64 (Sequence batch + Count batch) - 1) in
        (mem, s32 (count + Count batch), if max_sequence <? last_seq then last_seq else max_sequence)
    | Err _ => (mem, count, max_sequence)
    end.

(** The loop over the records; [None] when [n] or [fuel] is used up. *)
Fixpoint recover_log_loop (n fuel : nat) (reader : Reader SF) (mem : MemTable Rnd) (count max_sequence : Z) : option (MemTable Rnd * Z * Z) :=
  match n with
  | O => None
  | S n =>
      match ReadRecord fuel reader with
      | (Record_ r, reader) => let '(mem, count, max_sequence) := recover_batch r mem count max_sequence in recover_log_loop n fuel reader mem count max_sequence
      | (EndOfLog, _) => Some (mem, count, max_sequence)
      | (OutOfFuel, _) => None
      end
  end.

(** [size] bounds the bytes of the log. *)
Definition RecoverLogFile (size : nat) (log_number : Z) (st : LogRecovery) (vs : VersionSet W) (tables : TableCache E F K)
  : option (Result unit * LogRecovery * VersionSet W * TableCache E F K) :=
  let '(file_res, env) := fs_NewSequentialFile (LogFileName dbname log_number) (tc_env tables) in
  let tables := set_env env tables in
  match file_res with
  | Err _ => Some (Ok tt, st, vs, tables)
  | Ok file =>
      match recover_log_loop (S size) (S size) (newReader file true true 0) new_mem 0 (lr_max_sequence st) with
      | None => None
      | Some (mem, count, max_sequence) =>
          let st := mkLogRecovery (lr_save_manifest st) (lr_edit st) max_sequence in
          if 0 <? count then
            let '(number, vs) := NewFileNumber vs in
            let meta := mkFileMetaData (Z.shiftl 1 30) number 0 [] [] in
            match BuildTable (HI := MemTableIterator_iter (C := C)) (C := C) (P := InternalFilterPolicy P) slen zstlen sun zun dbname bopts topts (length (heap mem))
                    (MemTable_NewIterator mem) meta tables with
            | None => None
            | Some (Err s, _, tables) => Some (Err s, st, vs, tables)
            | Some (Ok _, meta, tables) =>
                let edit := AddFile 0 (fm_number meta) (fm_file_size meta) (fm_smallest meta) (fm_largest meta) (lr_edit st) in
                Some (Ok tt, mkLogRecovery true edit max_sequence, MarkFileNumberUsed (fm_number meta) vs, tables)
            end
          else Some (Ok tt, st, vs, tables)
      end
  end.

Fixpoint recover_logs (size : nat) (logs : list Z) (st : LogRecovery) (vs : VersionSet W) (tables : TableCache E F K)
  : option (Result unit * LogRecovery * VersionSet W * TableCache E F K) :=
  match logs with
  | [] => Some (Ok tt, st, vs, tables)
  | log_number :: logs =>
      match RecoverLogFile size log_number st vs tables with
      | None => None
      | Some (Err s, st, vs, tables) => Some (Err s, st, vs, tables)
      | Some (Ok _, st, vs, tables) => recover_logs size logs st (MarkFileNumberUsed log_number vs) tables
      end
  end.

(** The log files that may hold writes that are in no table. *)
Definition logs_to_recover (filenames : list bytes) (vs : VersionSet W) : list Z :=
  merge_sort Z.le (omap (fun fname =>
    parsed ← ParseFileName fname;
    if bool_decide (pf_type parsed = kLogFile) &&
       ((vs_log_number vs <=? pf_number parsed) || (negb (vs_prev_log_number vs =? 0) && (pf_number parsed =? vs_prev_log_number vs)))
    then Some (pf_number parsed) else None) filenames).

(** The part of [DBImpl::Recover] after the MANIFEST was read. *)
Definition recover_from_logs (size : nat) (filenames : list bytes) (vs : VersionSet W) (tables : TableCache E F K)
  : option (Result unit * VersionSet W * TableCache E F K) :=
  match recover_logs size (logs_to_recover filenames vs) (mkLogRecovery false newVersionEdit 0) vs tables with
  | None => None
  | Some (Err s, _, vs, tables) => Some (Err s, vs, tables)
  | Some (Ok _, st, vs, tables) =>
      let vs := if vs_last_sequence vs <? lr_max_sequence st then vs_SetLastSequence (lr_max_sequence st) vs else vs in
      if lr_save_manifest st then
        let '(new_log_number, vs) := NewFileNumber vs in
        let '(log_res, _, vs, env) := LogAndApply (C := C) dbname (SetLogNumber new_log_number (lr_edit st)) vs (tc_env tables) in
        Some (log_res, vs, set_env env tables)
      else Some (Ok tt, vs, tables)
  end.

Definition DBImpl_Recover (size : nat) (vs : VersionSet W) (tables : TableCache E F K) : option (Result unit * VersionSet W * TableCache E F K) :=
  let '(_, env) := fs_CreateDir dbname (tc_env tables) in
  let tables := set_env env tables in
  let '(new_db_res, vs, tables) :=
    if fs_FileExists (CurrentFileName dbname) (tc_env tables) then (Ok tt, vs, tables)
    else if o_create_if_missing options then
      let '(r, _, vs, env) := LogAndApply (C := C) dbname newVersionEdit vs (tc_env tables) in (r, vs, set_env env tables)
    else (Err (InvalidArgument "db does not exist" ""), vs, tables) in
  match new_db_res with
  | Err s => Some (Err s, vs, tables)
  | Ok _ =>
      match Recover (C := C) dbname size vs (tc_env tables) with
      | None => None
      | Some (Err s, vs, env) => Some (Err s, vs, set_env env tables)
      | Some (Ok _, vs, env) =>
          let tables := set_env env tables in
          match fs_GetChildren dbname (tc_env tables) with
          | Err s => Some (Err s, vs, tables)
          | Ok filenames => recover_from_logs size filenames vs tables
          end
      end
  end.

(** [DB::Open]: the constructor, [Recover] (which leaves [mem_] null), a new log. *)
Definition DB_Open (size : nat) (block_cache : option K) (env : E) : option (Result DB * E) :=
  match DBImpl_Recover size newVersionSet (newTableCache env block_cache) with
  | None => None
  | Some (Err s, _, tables) => Some (Err s, tc_env tables)
  | Some (Ok _, vs, tables) =>
      let '(number, vs) := NewFileNumber vs in
      let '(lfile_res, env) := fs_NewWritableFile (LogFileName dbname number) (tc_env tables) in
      match lfile_res with
      | Err s => Some (Err s, env)
      | Ok lfile =>
          Some (Ok (mkDB new_mem None number (newWriter lfile) ∅ [] Starting newWriteBatch (set_env env tables) vs newSnapshotList 0 ∅ StatusOK ∅ None false false), env)
      end
  end.

(** The MANIFEST that CURRENT names: the one that is open, if any is. *)
Definition current_manifest (env : E) : option bytes :=
  match fst (fs_NewSequentialFile (CurrentFileName dbname) env) with
  | Ok file => match fst (sf_Read 1024 file) with Ok contents => Some (dbname ++ lit "/" ++ removelast contents) | Err _ => None end
  | Err _ => None
  end.

(** [~DBImpl], when the background thread has ended: its members are destroyed, which
    closes the log ([logfile_]) and the MANIFEST ([versions_->descriptor_file_]). *)
Definition DBImpl_close (d : DB) : E :=
  let env := fs_Written (LogFileName dbname (db_logfile_number d)) (dest_ (db_log d)) (tc_env (db_tables d)) in
  match vs_descriptor_log (db_versions d), current_manifest env with
  | Some w, Some name => fs_Written name (dest_ w) env
  | _, _ => env
  end.

(** [DestroyDB]: the removals stop at the first error. *)
Fixpoint remove_files (filenames : list bytes) (env : E) : Result unit * E :=
  match filenames with
  | [] => (Ok tt, env)
  | fname :: filenames =>
      match ParseFileName fname with
      | Some parsed =>
          if bool_decide (pf_type parsed = kDBLockFile) then remove_files filenames env
          else
            let '(del_res, env) := fs_RemoveFile (dbname ++ lit "/" ++ fname) env in
            match del_res with Err s => (Err s, env) | Ok _ => remove_files filenames env end
      | None => remove_files filenames env
      end
  end.

Definition DestroyDB (env : E) : Result unit * E :=
  match fs_GetChildren dbname env with
  | Err _ => (Ok tt, env)
  | Ok filenames =>
      let lockname := LockFileName dbname in
      let '(lock_res, env) := fs_LockFile lockname env in
      match lock_res with
      | Err _ => (Ok tt, env)
      | Ok lock =>
          let '(r, env) := remove_files filenames env in
          match r with
          | Err s => (Err s, env)
          | Ok _ =>
              let '(_, env) := fs_UnlockFile lock env in
              let '(_, env) := fs_RemoveFile lockname env in
              let '(_, env) := fs_RemoveDir dbname env in
              (Ok tt, env)
          end
      end
  end.
(** *** More fuel than is needed changes nothing *)

Lemma recover_log_loop_fuel (n n' fuel fuel' : nat) (reader : Reader SF) (mem : MemTable Rnd) (count max_sequence : Z) r :
  (n <= n')%nat -> (fuel <= fuel')%nat -> recover_log_loop n fuel reader mem count max_sequence = Some r -> recover_log_loop n' fuel' reader mem count max_sequence = Some r.
Proof.
  intros Hn Hf. revert n' reader mem count max_sequence Hn. induction n as [|n IH]; intros n' reader mem count max_sequence Hn; [done|]. destruct n' as [|n']; [lia|]. cbn [recover_log_loop]. intros Hr.
  rewrite (ReadRecord_fuel fuel fuel' reader Hf) by (intros E0; destruct (ReadRecord fuel reader) as [o s]; cbn in E0; by subst o).
  destruct (ReadRecord fuel reader) as [[rec| |] s]; [|done|done]. destruct (recover_batch rec mem count max_sequence) as [[mem1 count1] max1]. apply IH; [lia|done].
Qed.

Lemma RecoverLogFile_fuel (size size' : nat) (num : Z) (st : LogRecovery) (vs : VersionSet W) (tables : TableCache E F K) r :
  (size <= size')%nat -> RecoverLogFile size num st vs tables = Some r -> RecoverLogFile size' num st vs tables = Some r.
Proof.
  intros Hs. unfold RecoverLogFile. destruct (fs_NewSequentialFile _ _) as [[file|] env]; [|done]. destruct (recover_log_loop (S size) _ _ _ _ _) as [x|] eqn:Er; [|done]. intros Hr.
  by rewrite (recover_log_loop_fuel (S size) (S size') (S size) (S size') _ _ _ _ _ ltac:(lia) ltac:(lia) Er).
Qed.

Lemma recover_logs_fuel (size size' : nat) (logs : list Z) (st : LogRecovery) (vs : VersionSet W) (tables : TableCache E F K) r :
  (size <= size')%nat -> recover_logs size logs st vs tables = Some r -> recover_logs size' logs st vs tables = Some r.
Proof.
  intros Hs. revert st vs tables. induction logs as [|num logs IH]; intros st vs tables; [done|]. cbn [recover_logs]. destruct (RecoverLogFile size num st vs tables) as [x|] eqn:Er; [|done]. rewrite (RecoverLogFile_fuel size size' _ _ _ _ _ Hs Er).
  destruct x as [[[[] st1] vs1] tables1]; [apply IH|done].
Qed.

Lemma DB_Open_fuel (size size' : nat) (block_cache : option K) (env : E) r : (size <= size')%nat -> DB_Open size block_cache env = Some r -> DB_Open size' block_cache env = Some r.
Proof.
  intros Hs. unfold DB_Open. destruct (DBImpl_Recover size _ _) as [x|] eqn:Er; [|done]. enough (DBImpl_Recover size' newVersionSet (newTableCache env block_cache) = Some x) as -> by done. revert Er. unfold DBImpl_Recover.
  destruct (fs_CreateDir dbname _) as [c env1]. match goal with |- context [if fs_FileExists ?a ?b then ?x else ?y] => destruct (if fs_FileExists a b then x else y) as [[[] vs1] tables1] end; [|done].
  destruct (Recover dbname size vs1 _) as [y|] eqn:Ey; [|done]. rewrite (Recover_fuel _ size size' _ _ _ Hs Ey). destruct y as [[[] vs2] env2]; [|done]. destruct (fs_GetChildren dbname _) as [names|]; [|done].
  unfold recover_from_logs. destruct (recover_logs size _ _ _ _) as [z|] eqn:Ez; [|done]. by rewrite (recover_logs_fuel size size' _ _ _ _ _ Hs Ez).
Qed.
End Open.

(** ** Boundary behaviour *)

(** Sizes that fit an [int] are brought into their ranges. *)
Lemma ClipToRange_in_range (x lo hi : Z) : 0 <= x < 2 ^ 31 -> 0 <= lo <= hi -> hi < 2 ^ 31 -> lo <= ClipToRange x lo hi <= hi.
Proof.
  intros Hx Hlo Hhi. unfold ClipToRange. rewrite (s32_small x) by lia. destruct (hi <? x) eqn:E1; [apply Z.ltb_lt in E1|apply Z.ltb_ge in E1]; rewrite s32_small by lia; destruct (_ <? lo) eqn:E2; [apply Z.ltb_lt in E2|apply Z.ltb_ge in E2|apply Z.ltb_lt in E2|apply Z.ltb_ge in E2]; lia.
Qed.

(** A [write_buffer_size] of four gigabytes and 64 kilobytes is left as it is, above the
    maximum of one gigabyte; one of two gigabytes becomes the minimum. *)
Lemma SanitizeOptions_wraps (o : Options) :
  (o_write_buffer_size o = 2 ^ 32 + 2 ^ 16 -> o_write_buffer_size (SanitizeOptions o) = 2 ^ 32 + 2 ^ 16) /\
  (o_write_buffer_size o = 2 ^ 31 -> o_write_buffer_size (SanitizeOptions o) = 2 ^ 16).
Proof. split; intros E0; cbn [SanitizeOptions o_write_buffer_size]; rewrite E0; reflexivity. Qed.

(** When the table of the immutable memtable cannot be written, the error is recorded
    and the memtable is dropped all the same: the version is as it was. *)
Lemma failed_flush_drops_memtable (slen zstlen : bytes -> option Z) (sun zun : bytes -> option bytes)
    {C : Comparator} {P : FilterPolicy} {E W SF F : Type} `{FileSystem E W SF} `{WritableFile W} `{HandleFS E W} `{RandomAccessFS E F} `{RandomAccessFile F}
    {K Hd : Type} `{Cache K Hd Block} {Rnd : Type} `{UniformSource Rnd} (dbname : bytes) (options : Options) (fuel : nat) (imm : MemTable Rnd) (d : DBImpl E W F K Rnd)
    (s : Status) (meta : FileMetaData) (tables : TableCache E F K) :
  BuildTable (HI := MemTableIterator_iter (C := C)) (C := C) (P := InternalFilterPolicy P) slen zstlen sun zun dbname (builder_options options) (table_options options) fuel (MemTable_NewIterator imm)
    (mkFileMetaData (Z.shiftl 1 30) (vs_next_file_number (db_versions d)) 0 [] []) (db_tables d) = Some (Err s, meta, tables) ->
  exists d', CompactMemTable (C := C) (P := P) slen zstlen sun zun dbname options fuel imm d = Some d' /\ db_imm d' = None /\ current (db_versions d') = current (db_versions d) /\
    db_bg_error d' = (if ok (db_bg_error d) then s else db_bg_error d).
Proof.
  intros Hb. unfold CompactMemTable. cbn [NewFileNumber]. rewrite Hb. eexists. split; [reflexivity|]. unfold RecordBackgroundError. cbn [set_files db_bg_error]. by destruct (ok (db_bg_error d)).
Qed.
