(* ===== verification/Repair.v ===== *)
(** * Repair: a descriptor from what is in the directory ([db/repair.cc])

    [RepairDB] turns every log into a table, scans every table for its key range and
    its largest sequence number, rewrites tables that cannot be read to the end, and
    writes a MANIFEST that puts all of them on level 0.  The messages to [info_log]
    are left out.

    The descriptor is read back by [Recover] as it was meant
    ([repair_descriptor_recovers]); what the tables then answer is another matter
    ([repair_hides_keys], [repair_reverts_values]). *)

From stdpp Require Import sorting fin_sets.
From S2P Require Import Prelude Random Status Coding Comparator Logging FilterPolicy DbFormat SkipList MemTable WriteBatch Env LogFile Format Iterator.
From S2P Require Import Block TableBuilder Cache Table VersionEdit FileName VersionSet TableCache Iterates TableFiles DbImpl.

Record TableInfo := mkTableInfo { ti_meta : FileMetaData; ti_max_sequence : SequenceNumber }.

Record Repairer (E F K : Type) := mkRepairer {
  rp_table_cache : TableCache E F K;
  rp_edit : VersionEdit;
  rp_manifests : list bytes;
  rp_table_numbers : list Z;
  rp_logs : list Z;
  rp_tables : list TableInfo;
  rp_next_file_number : Z
}.
Arguments mkRepairer {E F K}.
Arguments rp_table_cache {E F K}.
Arguments rp_edit {E F K}.
Arguments rp_manifests {E F K}.
Arguments rp_table_numbers {E F K}.
Arguments rp_logs {E F K}.
Arguments rp_tables {E F K}.
Arguments rp_next_file_number {E F K}.

(** The string that [c_str()] is read as. *)
Fixpoint c_str (s : bytes) : bytes :=
  match s with
  | [] => []
  | c :: s => if bool_decide (c = Byte.x00) then [] else c :: c_str s
  end.

(** [strrchr(s, '/')]. *)
Fixpoint last_slash (s : bytes) : option nat :=
  match s with
  | [] => None
  | c :: s =>
      match last_slash s with
      | Some i => Some (S i)
      | None => if bool_decide (c = Byte.x2f) then Some O else None
      end
  end.

(** The directory and the name that [ArchiveFile] moves a file to. *)
Definition lost_dir (fname : bytes) : bytes :=
  (match last_slash (c_str fname) with Some i => take i (c_str fname) | None => [] end) ++ lit "/lost".

Definition lost_name (fname : bytes) : bytes :=
  lost_dir fname ++ lit "/" ++ (match last_slash (c_str fname) with Some i => drop (S i) (c_str fname) | None => c_str fname end).

Section RepairDef.
Context (slen zstlen : bytes -> option Z) (sun zun : bytes -> option bytes).
Context {C : Comparator} {P : FilterPolicy} {E W SF F L : Type} `{FileSystem E W SF} `{WritableFile W} `{HandleFS E W} `{RandomAccessFS E F} `{RandomAccessFile F}.
Context `{SequentialFile SF} `{DirectoryFS E L} `{FileSizeFS E} {K Hd : Type} `{Cache K Hd Block} {Rnd : Type} `{UniformSource Rnd}.
Context (dbname : bytes) (options : Options).

Abbreviation Rep := (Repairer E F K).
Abbreviation IC := (InternalKeyComparator C).
Abbreviation bopts := (builder_options options).
Abbreviation topts := (table_options options).

Definition newRepairer (block_cache : option K) (env : E) : Rep := mkRepairer (newTableCache env block_cache) newVersionEdit [] [] [] [] 1.

Definition rp_env (r : Rep) : E := tc_env (rp_table_cache r).

Definition set_table_cache (tc : TableCache E F K) (r : Rep) : Rep :=
  mkRepairer tc (rp_edit r) (rp_manifests r) (rp_table_numbers r) (rp_logs r) (rp_tables r) (rp_next_file_number r).

Definition set_rp_env (env : E) (r : Rep) : Rep := set_table_cache (set_env env (rp_table_cache r)) r.

Definition set_edit (e : VersionEdit) (r : Rep) : Rep :=
  mkRepairer (rp_table_cache r) e (rp_manifests r) (rp_table_numbers r) (rp_logs r) (rp_tables r) (rp_next_file_number r).

Definition push_manifest (name : bytes) (r : Rep) : Rep :=
  mkRepairer (rp_table_cache r) (rp_edit r) (rp_manifests r ++ [name]) (rp_table_numbers r) (rp_logs r) (rp_tables r) (rp_next_file_number r).

Definition push_table_number (n : Z) (r : Rep) : Rep :=
  mkRepairer (rp_table_cache r) (rp_edit r) (rp_manifests r) (rp_table_numbers r ++ [n]) (rp_logs r) (rp_tables r) (rp_next_file_number r).

Definition push_log (n : Z) (r : Rep) : Rep :=
  mkRepairer (rp_table_cache r) (rp_edit r) (rp_manifests r) (rp_table_numbers r) (rp_logs r ++ [n]) (rp_tables r) (rp_next_file_number r).

Definition push_table (t : TableInfo) (r : Rep) : Rep :=
  mkRepairer (rp_table_cache r) (rp_edit r) (rp_manifests r) (rp_table_numbers r) (rp_logs r) (rp_tables r ++ [t]) (rp_next_file_number r).

Definition set_next_number (n : Z) (r : Rep) : Rep :=
  mkRepairer (rp_table_cache r) (rp_edit r) (rp_manifests r) (rp_table_numbers r) (rp_logs r) (rp_tables r) n.

(** [next_file_number_++]. *)
Definition take_number (r : Rep) : Z * Rep := (rp_next_file_number r, set_next_number (u64 (rp_next_file_number r + 1)) r).

Definition ArchiveFile (fname : bytes) (r : Rep) : Rep :=
  let '(_, env) := fs_CreateDir (lost_dir fname) (rp_env r) in
  let '(_, env) := fs_RenameFile fname (lost_name fname) env in
  set_rp_env env r.

(** ** [FindFiles] *)

Definition find_file (filename : bytes) (r : Rep) : Rep :=
  match ParseFileName filename with
  | None => r
  | Some parsed =>
      if bool_decide (pf_type parsed = kDescriptorFile) then push_manifest filename r
      else
        let r := if rp_next_file_number r <? u64 (pf_number parsed + 1) then set_next_number (u64 (pf_number parsed + 1)) r else r in
        if bool_decide (pf_type parsed = kLogFile) then push_log (pf_number parsed) r
        else if bool_decide (pf_type parsed = kTableFile) then push_table_number (pf_number parsed) r
        else r
  end.

Definition FindFiles (r : Rep) : Result unit * Rep :=
  match fs_GetChildren dbname (rp_env r) with
  | Err s => (Err s, r)
  | Ok [] => (Err (IOError (String.string_of_list_byte dbname) "repair found no files"), r)
  | Ok filenames => (Ok tt, fold_left (fun r f => find_file f r) filenames r)
  end.

(** ** Logs *)

(** One record of a log: a batch that fails has put its first entries into the memtable. *)
Definition convert_record (record : bytes) (mem : MemTable Rnd) : MemTable Rnd :=
  if zlen record <? 12 then mem else fst (InsertInto C OneIn (SetContents record) mem).

Fixpoint convert_loop (n fuel : nat) (reader : Reader SF) (mem : MemTable Rnd) : option (MemTable Rnd) :=
  match n with
  | O => None
  | S n =>
      match ReadRecord fuel reader with
      | (Record_ record, reader) => convert_loop n fuel reader (convert_record record mem)
      | (EndOfLog, _) => Some mem
      | (OutOfFuel, _) => None
      end
  end.

(** [size] bounds the bytes of the log. *)
Definition ConvertLogToTable (size : nat) (lognum : Z) (r : Rep) : option (Result unit * Rep) :=
  let '(lfile_res, env) := fs_NewSequentialFile (LogFileName dbname lognum) (rp_env r) in
  let r := set_rp_env env r in
  match lfile_res with
  | Err s => Some (Err s, r)
  | Ok lfile =>
      match convert_loop (S size) (S size) (newReader lfile true false 0) new_mem with
      | None => None
      | Some mem =>
          let '(number, r) := take_number r in
          match BuildTable (HI := MemTableIterator_iter (C := C)) (C := C) (P := P) slen zstlen sun zun dbname bopts topts (length (heap mem)) (MemTable_NewIterator mem)
                  (mkFileMetaData default_allowed_seeks number 0 [] []) (rp_table_cache r) with
          | None => None
          | Some (status, meta, tc) =>
              let r := set_table_cache tc r in
              Some (status, if ok (result_status status) && (0 <? fm_file_size meta) then push_table_number (fm_number meta) r else r)
          end
      end
  end.

Fixpoint ConvertLogFilesToTables (size : nat) (logs : list Z) (r : Rep) : option Rep :=
  match logs with
  | [] => Some r
  | lognum :: logs => '(_, r) ← ConvertLogToTable size lognum r; ConvertLogFilesToTables size logs (ArchiveFile (LogFileName dbname lognum) r)
  end.

(** ** Tables *)

Abbreviation TIter := (EmptyIterator + TableIter F K)%type.
Abbreviation iter_I := (sum_iter (HB := TableIter_iter (C := IC) slen zstlen sun zun)).

Definition NewTableIterator (meta : FileMetaData) (r : Rep) : TIter * Rep :=
  let '(iter, tc) := tc_NewIterator (C := IC) (P := P) slen zstlen sun zun dbname topts (mkReadOptions (o_paranoid_checks options) true) (fm_number meta) (fm_file_size meta) (rp_table_cache r) in
  (iter, set_table_cache tc r).

(** One entry: [empty] and [t]. *)
Definition scan_key (key : bytes) (st : bool * TableInfo) : bool * TableInfo :=
  let '(empty, t) := st in
  match ParseInternalKey key with
  | None => (empty, t)
  | Some parsed =>
      let m := ti_meta t in
      (false, mkTableInfo (mkFileMetaData (fm_allowed_seeks m) (fm_number m) (fm_file_size m) (if empty then key else fm_smallest m) key)
                (if ti_max_sequence t <? pik_sequence parsed then pik_sequence parsed else ti_max_sequence t))
  end.

(** The loop over the entries; [fuel] bounds their number. *)
Fixpoint scan_loop {I : Type} {HI : Iterator I} (fuel : nat) (iter : I) (st : bool * TableInfo) : option (I * (bool * TableInfo)) :=
  if it_Valid iter then
    match fuel with
    | O => None
    | S fuel => scan_loop fuel (it_Next iter) (scan_key (it_key iter) st)
    end
  else Some (iter, st).

Fixpoint copy_loop {I : Type} {HI : Iterator I} (fuel : nat) (iter : I) (builder : TableBuilder W) (counter : Z) : option (TableBuilder W * Z) :=
  if it_Valid iter then
    match fuel with
    | O => None
    | S fuel => copy_loop fuel (it_Next iter) (TableBuilder_Add (C := IC) (P := P) (it_key iter) (it_value iter) builder) (counter + 1)
    end
  else Some (builder, counter).

Definition set_size (size : Z) (t : TableInfo) : TableInfo :=
  mkTableInfo (mkFileMetaData (fm_allowed_seeks (ti_meta t)) (fm_number (ti_meta t)) size (fm_smallest (ti_meta t)) (fm_largest (ti_meta t))) (ti_max_sequence t).

(** What is written reaches the file when its handle goes, closed or not. *)
Definition RepairTable (fuel : nat) (src : bytes) (t : TableInfo) (r : Rep) : option Rep :=
  let '(number, r) := take_number r in
  let copy := TableFileName dbname number in
  let '(s_res, env) := fs_NewWritableFile copy (rp_env r) in
  let r := set_rp_env env r in
  match s_res with
  | Err _ => Some r
  | Ok file =>
      let '(iter, r) := NewTableIterator (ti_meta t) r in
      match copy_loop (HI := iter_I) fuel (it_SeekToFirst (Iterator := iter_I) iter) (newTableBuilder bopts file) 0 with
      | None => None
      | Some (builder, counter) =>
          let r := ArchiveFile src r in
          let '(s, builder) := if counter =? 0 then (Ok tt, Abandon builder) else TableBuilder_Finish (C := IC) (P := P) builder in
          let t := if negb (counter =? 0) && ok (result_status s) then set_size (FileSize builder) t else t in
          let '(s, file) := if ok (result_status s) then wf_Close (tb_file builder) else (s, tb_file builder) in
          let r := set_rp_env (fs_Written copy file (rp_env r)) r in
          let '(s, r) :=
            if (0 <? counter) && ok (result_status s) then
              let '(s, env) := fs_RenameFile copy (TableFileName dbname (fm_number (ti_meta t))) (rp_env r) in
              let r := set_rp_env env r in
              (s, if ok (result_status s) then push_table t r else r)
            else (s, r) in
          Some (if ok (result_status s) then r else set_rp_env (snd (fs_RemoveFile copy (rp_env r))) r)
      end
  end.

Definition ScanTable (fuel : nat) (number : Z) (r : Rep) : option Rep :=
  let fname := TableFileName dbname number in
  let '(fname, size_res) :=
    match fs_GetFileSize fname (rp_env r) with
    | Ok size => (fname, Ok size)
    | Err _ => (SSTTableFileName dbname number, fs_GetFileSize (SSTTableFileName dbname number) (rp_env r))
    end in
  match size_res with
  | Err _ => Some (ArchiveFile (SSTTableFileName dbname number) (ArchiveFile (TableFileName dbname number) r))
  | Ok file_size =>
      let t := mkTableInfo (mkFileMetaData default_allowed_seeks number file_size [] []) 0 in
      let '(iter, r) := NewTableIterator (ti_meta t) r in
      match scan_loop (HI := iter_I) fuel (it_SeekToFirst (Iterator := iter_I) iter) (true, t) with
      | None => None
      | Some (iter, (_, t)) => if ok (it_status (Iterator := iter_I) iter) then Some (push_table t r) else RepairTable fuel fname t r
      end
  end.

Fixpoint ExtractMetaData (fuel : nat) (numbers : list Z) (r : Rep) : option Rep :=
  match numbers with
  | [] => Some r
  | number :: numbers => r ← ScanTable fuel number r; ExtractMetaData fuel numbers r
  end.

(** ** The descriptor *)

Definition max_sequence_of (tables : list TableInfo) : SequenceNumber :=
  fold_left (fun m t => if m <? ti_max_sequence t then ti_max_sequence t else m) tables 0.

Definition add_table (e : VersionEdit) (t : TableInfo) : VersionEdit :=
  AddFile 0 (fm_number (ti_meta t)) (fm_file_size (ti_meta t)) (fm_smallest (ti_meta t)) (fm_largest (ti_meta t)) e.

Definition descriptor_edit (r : Rep) : VersionEdit :=
  let edit := SetComparatorName (lit (Name (Comparator := C))) (rp_edit r) in
  let edit := SetLogNumber 0 edit in
  let edit := SetNextFile (rp_next_file_number r) edit in
  let edit := SetLastSequence (max_sequence_of (rp_tables r)) edit in
  fold_left add_table (rp_tables r) edit.

Definition WriteDescriptor (r : Rep) : Result unit * Rep :=
  let tmp := TempFileName dbname 1 in
  let '(file_res, env) := fs_NewWritableFile tmp (rp_env r) in
  let r := set_rp_env env r in
  match file_res with
  | Err s => (Err s, r)
  | Ok file =>
      let r := set_edit (descriptor_edit r) r in
      let '(status, log) := AddRecord (newWriter file) (VersionEdit_EncodeTo (rp_edit r) []) in
      match status with
      | Err s => (Err s, set_rp_env (fs_Written tmp (dest_ log) (rp_env r)) r)
      | Ok _ =>
          let '(status, file) := wf_Close (dest_ log) in
          let r := set_rp_env (fs_Written tmp file (rp_env r)) r in
          match status with
          | Err s => (Err s, set_rp_env (snd (fs_RemoveFile tmp (rp_env r))) r)
          | Ok _ =>
              let r := fold_left (fun r m => ArchiveFile (dbname ++ lit "/" ++ m) r) (rp_manifests r) r in
              let '(status, env) := fs_RenameFile tmp (DescriptorFileName dbname 1) (rp_env r) in
              let r := set_rp_env env r in
              match status with
              | Err s => (Err s, set_rp_env (snd (fs_RemoveFile tmp (rp_env r))) r)
              | Ok _ => let '(status, env) := SetCurrentFile dbname 1 (rp_env r) in (status, set_rp_env env r)
              end
          end
      end
  end.

(** ** [RepairDB] *)

Definition Repairer_Run (size fuel : nat) (r : Rep) : option (Result unit * Rep) :=
  let '(status, r) := FindFiles r in
  match status with
  | Err s => Some (Err s, r)
  | Ok _ =>
      r ← ConvertLogFilesToTables size (rp_logs r) r;
      r ← ExtractMetaData fuel (rp_table_numbers r) r;
      Some (WriteDescriptor r)
  end.

Definition RepairDB (size fuel : nat) (block_cache : option K) (env : E) : option (Result unit * E) :=
  '(status, r) ← Repairer_Run size fuel (newRepairer block_cache env);
  Some (status, rp_env r).
End RepairDef.
