(* ===== verification/Dump.v ===== *)
(** * Dump: database files as text ([db/dumpfile.cc])

    [DumpFile] prints what a log, a MANIFEST or a table holds.  The callback is the
    list of the texts it is given, in order.  The records of a log come with what the
    reader reported on the way to them; a table is printed with one line for each
    entry ([DumpTable_entries]). *)

From stdpp Require Import sorting fin_sets.
From S2P Require Import Prelude Status Coding Comparator Logging FilterPolicy DbFormat MemTable WriteBatch Env LogFile Format Iterator Block TwoLevelIterator.
From S2P Require Import FilterBlock TableBuilder Cache Table VersionEdit FileName DBIter Version VersionRead Manifest TableCache MapFS Iterates Repair.

(** [fname.filename()]: what follows the last separator. *)
Definition path_filename (fname : bytes) : bytes := match last_slash fname with Some i => drop (S i) fname | None => fname end.

Definition GuessType (fname : bytes) : option FileType := pf_type <$> ParseFileName (path_filename fname).

(** A text that ends its line. *)
Definition line (r : bytes) : bytes := r ++ [Byte.x0a].

Definition status_text (s : Status) : bytes := lit (ToString s).

(** The reporter of [PrintLogContents]. *)
Definition report_line (n : Z) (status : Status) : bytes := line (AppendNumberTo (lit "corruption: ") n ++ lit " bytes; " ++ status_text status).

(** [WriteBatchItemPrinter]. *)
Definition WriteBatchItemPrinter : Handler (list bytes) :=
  mkHandler
    (fun key value out => out ++ [line (AppendEscapedStringTo (AppendEscapedStringTo (lit "  put '") key ++ lit "' '") value ++ lit "'")])
    (fun key out => out ++ [line (AppendEscapedStringTo (lit "  del '") key ++ lit "'")]).

Definition WriteBatchPrinter (pos : Z) (record : bytes) : list bytes :=
  let r := AppendNumberTo (lit "--- offset ") pos ++ lit "; " in
  if zlen record <? 12 then [AppendNumberTo (r ++ lit "log record length ") (zlen record) ++ line (lit " is too small")]
  else
    let batch := SetContents record in
    let r := line (AppendNumberTo (r ++ lit "sequence ") (Sequence batch)) in
    let '(out, s) := Iterate batch WriteBatchItemPrinter [r] in
    match s with
    | Ok _ => out
    | Err e => out ++ [line (lit "  error: " ++ status_text e)]
    end.

Definition VersionEditPrinter (pos : Z) (record : bytes) : list bytes :=
  let r := AppendNumberTo (lit "--- offset ") pos ++ lit "; " in
  let '(edit, s) := VersionEdit_DecodeFrom record newVersionEdit in
  [match s with
   | Err e => line (r ++ status_text e)
   | Ok _ => r ++ VersionEdit_DebugString edit
   end].

(** One entry of a table. *)
Definition key_type_text (t : ValueType) : bytes :=
  match t with
  | kTypeDeletion => lit "del"
  | kTypeValue => lit "val"
  end.

Definition entry_line (key value : bytes) : bytes :=
  match ParseInternalKey key with
  | None => line (AppendEscapedStringTo (AppendEscapedStringTo (lit "badkey '") key ++ lit "' => '") value ++ lit "'")
  | Some k =>
      let r := AppendNumberTo (AppendEscapedStringTo (lit "'") (pik_user_key k) ++ lit "' @ ") (pik_sequence k) ++ lit " : " ++ key_type_text (pik_type k) in
      line (AppendEscapedStringTo (r ++ lit " => '") value ++ lit "'")
  end.

Section Dump.
Context (slen zstlen : bytes -> option Z) (sun zun : bytes -> option bytes).
Context {C : Comparator} {P : FilterPolicy} {E W SF F : Type} `{FileSystem E W SF} `{RandomAccessFS E F} `{RandomAccessFile F} `{SequentialFile SF} `{FileSizeFS E} {K Hd : Type} `{Cache K Hd Block}.

(** The loop over the records; what is reported while a record is read comes before it. *)
Fixpoint print_log_loop (n fuel : nat) (func : Z -> bytes -> list bytes) (reader : Reader SF) (out : list bytes) : option (list bytes) :=
  match n with
  | O => None
  | S n =>
      let before := length (reported reader) in
      let '(record, reader) := ReadRecord fuel reader in
      let out := out ++ map (fun r => report_line (fst r) (snd r)) (drop before (reported reader)) in
      match record with
      | Record_ r => print_log_loop n fuel func reader (out ++ func (last_record_offset_ reader) r)
      | EndOfLog => Some out
      | OutOfFuel => None
      end
  end.

(** [size] bounds the bytes of the file. *)
Definition PrintLogContents (size : nat) (fname : bytes) (func : Z -> bytes -> list bytes) (env : E) : option (Result unit * list bytes * E) :=
  let '(file_res, env) := fs_NewSequentialFile fname env in
  match file_res with
  | Err s => Some (Err s, [], env)
  | Ok file => out ← print_log_loop (S size) (S size) func (newReader file true true 0) []; Some (Ok tt, out, env)
  end.

Definition DumpLog (size : nat) (fname : bytes) (env : E) : option (Result unit * list bytes * E) := PrintLogContents size fname WriteBatchPrinter env.
Definition DumpDescriptor (size : nat) (fname : bytes) (env : E) : option (Result unit * list bytes * E) := PrintLogContents size fname VersionEditPrinter env.

(** The default options: no filter policy, no block cache, no comparator (which a scan
    from the first entry does not use). *)
Definition dump_table_options : TableOptions := mkTableOptions false false.
Definition dump_read_options : ReadOptions := mkReadOptions false false.

Fixpoint dump_loop {I : Type} {HI : Iterator I} (fuel : nat) (iter : I) (out : list bytes) : option (list bytes * I) :=
  if it_Valid iter then
    match fuel with
    | O => None
    | S fuel => dump_loop fuel (it_Next iter) (out ++ [entry_line (it_key iter) (it_value iter)])
    end
  else Some (out, iter).

Definition DumpTable (fuel : nat) (fname : bytes) (env : E) : option (Result unit * list bytes * E) :=
  match fs_GetFileSize fname env with
  | Err s => Some (Err s, [], env)
  | Ok size =>
      let '(file_res, env) := fs_NewRandomAccessFile fname env in
      match file_res with
      | Err s => Some (Err s, [], env)
      | Ok file =>
          let '(table_res, cache) := Table_Open (P := P) slen zstlen sun zun dump_table_options file size (None : option K) in
          match table_res with
          | Err s => Some (Err s, [], env)
          | Ok table =>
              let TI := TableIterator (C := C) slen zstlen sun zun table dump_read_options in
              '(out, iter) ← dump_loop (HI := TI) fuel (it_SeekToFirst (Iterator := TI) (Table_NewIterator table cache)) [];
              let s := it_status (Iterator := TI) iter in
              Some (Ok tt, if ok s then out else out ++ [line (lit "iterator error: " ++ status_text s)], env)
          end
      end
  end.

Definition DumpFile (size fuel : nat) (fname : bytes) (env : E) : option (Result unit * list bytes * E) :=
  match GuessType fname with
  | None => Some (Err (InvalidArgument (text (fname ++ lit ": unknown file type")) ""), [], env)
  | Some kLogFile => DumpLog size fname env
  | Some kDescriptorFile => DumpDescriptor size fname env
  | Some kTableFile => DumpTable fuel fname env
  | Some _ => Some (Err (InvalidArgument (text (fname ++ lit ": not a dump-able file type")) ""), [], env)
  end.
End Dump.

(** ** A table is printed entry by entry *)

Lemma dump_loop_spec {I : Type} {HI : Iterator I} (kvs : entries) (R : I -> option nat -> Prop) (fuel i : nat) (iter : I) (out : list bytes) :
  FwdSim kvs R -> R iter (in_range kvs i) -> (length kvs - i <= fuel)%nat ->
  exists iter', dump_loop fuel iter out = Some (out ++ map (fun kv => entry_line (fst kv) (snd kv)) (drop i kvs), iter') /\ it_status iter' = StatusOK.
Proof.
  intros HFw. revert i iter out. induction fuel as [|fuel IH]; intros i iter out HR Hlen; pose proof (scan_here kvs R iter i HFw HR) as Hh.
  - rewrite drop_ge in Hh |- * by lia. cbn [dump_loop map]. rewrite Hh, app_nil_r. exists iter. split; [done|]. by apply (fwd_status _ _ HFw _ _ HR).
  - destruct (drop i kvs) as [|kv rest] eqn:Ed.
    + cbn [dump_loop map]. rewrite Hh, app_nil_r. exists iter. split; [done|]. by apply (fwd_status _ _ HFw _ _ HR).
    + destruct Hh as (Hv & -> & Er & HR'). cbn [dump_loop map fst snd]. rewrite Hv. destruct (IH (S i) (it_Next iter) (out ++ [entry_line (it_key iter) (it_value iter)]) HR' ltac:(lia)) as (iter' & -> & Hs).
      exists iter'. split; [|done]. rewrite <- Er, <- app_assoc. done.
Qed.

(** The line of an entry that the database wrote. *)
Lemma entry_line_spec (p : ParsedInternalKey) (v : bytes) : seq_ok (pik_sequence p) ->
  entry_line (encode_key p) v = lit "'" ++ EscapeString (pik_user_key p) ++ lit "' @ " ++ NumberToString (pik_sequence p) ++ lit " : " ++ key_type_text (pik_type p) ++ lit " => '" ++ EscapeString v ++ lit "'" ++ [Byte.x0a].
Proof.
  intros Hs. unfold entry_line. rewrite ParseInternalKey_encode by done. unfold line, EscapeString, AppendNumberTo.
  assert (forall b dst, AppendEscapedStringTo dst b = dst ++ AppendEscapedStringTo [] b) as He.
  { unfold AppendEscapedStringTo. induction b as [|c b IH]; intros dst; cbn [fold_left]; [by rewrite app_nil_r|]. rewrite IH, (IH ([] ++ escape_char c)). by rewrite app_nil_l, app_assoc. }
  rewrite (He (pik_user_key p) (lit "'")), (He v). by rewrite <- !app_assoc.
Qed.

Section Spec.
Context (slen zstlen : bytes -> option Z) (sun zun : bytes -> option bytes).
Context {C : Comparator} {CL : ComparatorLaws C} {P : FilterPolicy} {PL : FilterPolicyLaws P}.
Context {E F W : Type} {RFS : RandomAccessFS E F} {RF : RandomAccessFile F} {RL : RandomAccessFileLaws F} {WF : WritableFile W} {WL : WritableFileLaws W} {ZF : FileSizeFS E} {ZL : FileSizeLaws E F}.
Context {K Hd : Type} {KC : Cache K Hd Block} {KL : CacheLaws K Hd Block} (dbname : bytes).

Abbreviation IC := (InternalKeyComparator C).
Abbreviation IP := (InternalFilterPolicy P).

(** A table that the database wrote is printed with one line for each entry, in order. *)
Theorem DumpTable_entries (fuel : nat) (env : E) (n size : Z) (vs : versions) :
  on_disk (W := W) (F := F) (C := C) (P := P) dbname env n size vs -> (length vs <= fuel)%nat ->
  DumpTable (C := IC) (P := IP) (K := K) slen zstlen sun zun fuel (TableFileName dbname n) env = Some (Ok tt, map (fun pv => entry_line (encode_key (fst pv)) (snd pv)) vs, env).
Proof.
  intros Ho Hfuel. destruct (on_disk_layout (C := C) (P := P) dbname env n size vs Ho) as (bo & blks & idx & file & Eo & HL & Hc & ->). pose proof HL as [Hdata Hsz Hri Hlen Hsep Hne Hsrt].
  unfold DumpTable. rewrite (fs_GetFileSize_spec _ env (raf_data file)) by (by exists file). rewrite Eo, Hdata.
  rewrite (Open_spec (P := IP) slen zstlen sun zun bo blks idx file Hdata Hsz Hri Hlen). cbv zeta.
  match goal with |- context [TableIterator _ _ _ _ ?t _] => set (tab := t) end.
  destruct (TableIterator_sim (C := IC) (P := IP) slen zstlen sun zun bo blks idx file Hdata Hsz Hri Hlen Hsep Hne Hsrt dump_table_options 0 dump_read_options) as [Sim Hat0].
  pose proof (Hat0 (None : option K) ltac:(done)) as Hat.
  pose proof (IterSim_fwd _ _ Sim) as HFw. pose proof (fwd_first _ _ HFw _ _ Hat) as HR1. rewrite Hc in HFw, HR1.
  destruct (dump_loop_spec _ _ fuel 0 _ [] HFw HR1 ltac:(unfold internal_entries; rewrite length_map; lia)) as (iter' & Ed & Hs). fold tab in Ed, Hs |- *. rewrite Ed. cbn [mbind option_bind]. rewrite Hs. change (ok StatusOK) with true. cbv iota.
  rewrite drop_0, app_nil_l. unfold internal_entries. by rewrite map_map.
Qed.
End Spec.

(** ** A log in memory: a batch, a record that is too short, and a torn one *)

Definition dump_example_log : bytes :=
  let w := newWriter (mkMemFile []) in
  let w := snd (AddRecord w (batch_bytes 7 [OpPut (lit "a") [Byte.x01]; OpDelete (lit "b")])) in
  let w := snd (AddRecord w (lit "short")) in
  mf_data (dest_ w) ++ lit "torn record".

Definition dump_example (fname : string) (data : bytes) : option (Result unit * list bytes) :=
  fst <$> DumpFile (C := InternalKeyComparator BytewiseComparator) (P := BloomPolicy 10) (E := MapFS) (W := MemFile) (SF := MemFile) (F := MemFile) (K := ShardedLRUCache Block)
    (fun _ => None) (fun _ => None) (fun _ => None) (fun _ => None) 200 10 (lit fname) (<[lit fname := data]> ∅).

Example dump_log_example :
  dump_example "db/000003.log" dump_example_log =
    Some (Ok tt, [line (lit "--- offset 0; sequence 7"); line (lit "  put 'a' '\x01'"); line (lit "  del 'b'"); line (lit "--- offset 27; log record length 5 is too small")]) /\
  dump_example "db/LOCK" [] = Some (Err (InvalidArgument "db/LOCK: not a dump-able file type" ""), []) /\
  dump_example "notes.txt" [] = Some (Err (InvalidArgument "notes.txt: unknown file type" ""), []).
Proof. split_and!; vm_compute; reflexivity. Qed.
