(* ===== verification/DbStep.v ===== *)
(** * DbStep: the threads of a database and what they may observe

    [exec] runs one step of one thread: a writer enters the queue, the front writer
    makes room, its group reaches the log and the memtable, the group is published;
    a reader reads; the background thread works.  Any order of steps of any number of
    threads is a run.

    [spec] is what a run may show: writes take effect in the order of the queue, in
    groups, each group at once when it is published; a read sees the map that the
    operations up to its sequence number make; nothing else changes what reads see. *)

From stdpp Require Import sorting fin_sets.
From S2P Require Import Prelude Random Status Coding Comparator Logging FilterPolicy DbFormat SkipList MemTable WriteBatch Env LogFile Format Iterator Block Merger FilterBlock.
From S2P Require Import TwoLevelIterator TableBuilder Cache Table VersionEdit FileName DBIter Version VersionRead VersionSet Compaction.
From S2P Require Import TableCache Snapshot History Iterates TableFiles CompactionRun CompactionWork DbImpl.

Inductive Step :=
  | StWrite (id : Z) (sync : bool) (updates : option (list WriteOp))  (* [Write] enters the queue *)
  | StRoom                                                           (* the front writer, up to a wait or to the log *)
  | StFinish                                                         (* the front writer publishes its group *)
  | StReturn (id : Z)                                                (* a writer whose group was published returns *)
  | StGet (ro : ReadOptions) (snapshot : option Z) (key : bytes)
  | StSnapshot
  | StRelease (p : Z)
  | StSample (key : bytes)
  | StManual (m : Z) (level : nat) (begin end_ : option bytes)       (* [TEST_CompactRange] begins *)
  | StManualTurn (m : Z)
  | StManualEnd (m : Z)
  | StBackground (fuel : nat) (stop : option nat).

Inductive Out :=
  | OutNone
  | OutWrite (id : Z) (r : Result unit)
  | OutGet (r : Result (option bytes))
  | OutSnapshot (p : Z).

(** ** The steps *)

Section Exec.
Context (slen zstlen : bytes -> option Z) (sun zun : bytes -> option bytes).
Context {C : Comparator} {P : FilterPolicy} {E W SF F : Type} `{FileSystem E W SF} `{WritableFile W} `{HandleFS E W} `{RandomAccessFS E F} `{RandomAccessFile F}.
Context {K Hd : Type} `{Cache K Hd Block} {Rnd : Type} `{UniformSource Rnd}.
Context (dbname : bytes) (options : Options) (mem_usage : MemTable Rnd -> Z).
Abbreviation DB := (DBImpl E W F K Rnd).

(** The batch a client makes of its operations. *)
Definition batch_of (ops : list WriteOp) : WriteBatch := fold_left batch_op ops newWriteBatch.

Definition room_flags (w : DbWriter) (d : DB) : option (bool * bool) :=
  match db_front d with
  | Starting => let force := match dw_batch w with Some _ => false | None => true end in Some (force, negb force)
  | MakingRoom force allow_delay => Some (force, allow_delay)
  | Writing _ _ _ _ => None
  end.

Definition front_step (id : Z) (w : DbWriter) (force allow_delay : bool) (d : DB) : DB * Out :=
  match room_step dbname options mem_usage force allow_delay d with
  | RoomReturn (Ok _) d => (Write_group (C := C) id w d, OutNone)
  | RoomReturn (Err s) d => (Write_no_room id d, OutWrite id (Err s))
  | RoomContinue force allow_delay d => (set_front (MakingRoom force allow_delay) d, OutNone)
  | RoomDelay force d => (set_front (MakingRoom force false) d, OutNone)
  | RoomWait d => (set_front (MakingRoom force allow_delay) d, OutNone)
  end.

(** [None]: the thread cannot take this step now. *)
Definition exec (st : Step) (d : DB) : option (DB * Out) :=
  match st with
  | StWrite id sync updates =>
      match db_writer_objects d !! id with
      | Some _ => None
      | None => Some (Write_enqueue id sync (batch_of <$> updates) d, OutNone)
      end
  | StRoom =>
      match db_writers d with
      | [] => None
      | id :: _ =>
          w ← db_writer_objects d !! id;
          '(force, allow_delay) ← room_flags w d;
          Some (front_step id w force allow_delay d)
      end
  | StFinish =>
      match db_writers d, db_front d with
      | id :: _, Writing last_writer publish of_tmp s =>
          let '(s, d) := Write_finish id last_writer publish of_tmp s d in Some (d, OutWrite id (status_result s))
      | _, _ => None
      end
  | StReturn id =>
      w ← db_writer_objects d !! id;
      if dw_done w then Some (set_writers (delete id (db_writer_objects d)) (db_writers d) (db_front d) d, OutWrite id (status_result (dw_status w))) else None
  | StGet ro snapshot key => let '(r, d) := DBImpl_Get (C := C) (P := P) slen zstlen sun zun dbname options ro snapshot key d in Some (d, OutGet r)
  | StSnapshot => let '(p, d) := GetSnapshot d in Some (d, OutSnapshot p)
  | StRelease p => Some (ReleaseSnapshot p d, OutNone)
  | StSample key => Some (DBImpl_RecordReadSample (C := C) key d, OutNone)
  | StManual m level begin end_ =>
      match db_manual_objects d !! m with
      | Some _ => None
      | None => Some (set_manual (<[m := new_manual level begin end_]> (db_manual_objects d)) (db_manual d) d, OutNone)
      end
  | StManualTurn m => d ← TEST_CompactRange_turn m d; Some (d, OutNone)
  | StManualEnd m => match TEST_CompactRange_turn m d with Some _ => None | None => Some (TEST_CompactRange_end m d, OutNone) end
  | StBackground fuel stop => d ← BackgroundCall (C := C) (P := P) slen zstlen sun zun dbname options fuel stop d; Some (d, OutNone)
  end.

Fixpoint run (steps : list Step) (d : DB) : option (DB * list Out) :=
  match steps with
  | [] => Some (d, [])
  | st :: steps =>
      '(d, o) ← exec st d;
      '(d, os) ← run steps d;
      Some (d, o :: os)
  end.
End Exec.

(** ** What may be observed *)

(** The operations that took effect, the writers that wait with their operations, the
    writers that are told, and the snapshots with their sequence numbers. *)
Record Abs := mkAbs {
  ab_ops : list WriteOp;
  ab_queue : list (Z * option (list WriteOp));
  ab_told : gset Z;
  ab_snaps : gmap Z SequenceNumber
}.

Definition new_abs : Abs := mkAbs [] [] ∅ ∅.

Definition queue_ops (q : list (Z * option (list WriteOp))) : list WriteOp := concat (map (fun x => default [] (snd x)) q).

(** A read that answers [m]: an absent key is the error [NotFound]. *)
Definition read_answers (r : Result (option bytes)) (m : option bytes) : Prop :=
  match m with
  | Some v => r = Ok (Some v)
  | None => exists s, r = Err s /\ IsNotFound s = true
  end.

Inductive spec : Abs -> Step -> Out -> Abs -> Prop :=
  | spec_write a id sync updates :
      spec a (StWrite id sync updates) OutNone (mkAbs (ab_ops a) (ab_queue a ++ [(id, updates)]) (ab_told a) (ab_snaps a))
  | spec_room a : spec a StRoom OutNone a
  | spec_finish a id updates group rest :
      ab_queue a = ((id, updates) :: group) ++ rest ->
      spec a StFinish (OutWrite id (Ok tt))
        (mkAbs (ab_ops a ++ queue_ops ((id, updates) :: group)) rest (list_to_set (map fst group) ∪ ab_told a) (ab_snaps a))
  | spec_return a id : id ∈ ab_told a -> spec a (StReturn id) (OutWrite id (Ok tt)) (mkAbs (ab_ops a) (ab_queue a) (ab_told a ∖ {[id]}) (ab_snaps a))
  | spec_get a ro key r : read_answers r (db_read (ab_ops a) key (zlen (ab_ops a))) -> spec a (StGet ro None key) (OutGet r) a
  | spec_get_at a ro p s key r : ab_snaps a !! p = Some s -> read_answers r (db_read (ab_ops a) key s) -> spec a (StGet ro (Some p) key) (OutGet r) a
  | spec_snapshot a p :
      ab_snaps a !! p = None ->
      spec a StSnapshot (OutSnapshot p) (mkAbs (ab_ops a) (ab_queue a) (ab_told a) (<[p := zlen (ab_ops a)]> (ab_snaps a)))
  | spec_release a p : spec a (StRelease p) OutNone (mkAbs (ab_ops a) (ab_queue a) (ab_told a) (delete p (ab_snaps a)))
  | spec_sample a key : spec a (StSample key) OutNone a
  | spec_manual a m level begin end_ : spec a (StManual m level begin end_) OutNone a
  | spec_turn a m : spec a (StManualTurn m) OutNone a
  | spec_end a m : spec a (StManualEnd m) OutNone a
  | spec_background a fuel stop : spec a (StBackground fuel stop) OutNone a.

Inductive spec_run : Abs -> list Step -> list Out -> Abs -> Prop :=
  | spec_nil a : spec_run a [] [] a
  | spec_cons a b c st o steps os : spec a st o b -> spec_run b steps os c -> spec_run a (st :: steps) (o :: os) c.
