(* ===== verification/DbFiles.v ===== *)
(** * DbFiles: the table files of a database

    [FilesOk]: the version set records table files that are on disk, the current
    version is one that reads can search ([VersionOk]), and new file numbers are
    free.  The steps of the database keep it: reads (which open tables and count
    seeks), new logs, and the edits that a flush, a move or a compaction installs. *)

From stdpp Require Import sorting fin_sets.
From S2P Require Import Prelude Status Coding Comparator Logging FilterPolicy DbFormat SkipList MemTable WriteBatch Env LogFile Format Iterator Block Merger FilterBlock.
From S2P Require Import TwoLevelIterator TableBuilder Cache Table VersionEdit FileName DBIter Version VersionRead VersionBuilder VersionSet Manifest Compaction.
From S2P Require Import TableCache Snapshot History Iterates TableFiles CompactionRun VersionChange CompactionWork Random DbImpl.
From Stdlib Require Import Sorting.Sorted.

Section Files.
Context (slen zstlen : bytes -> option Z) (sun zun : bytes -> option bytes).
Context {C : Comparator} {CL : ComparatorLaws C} (Heq : forall a b, ceq a b -> a = b) {P : FilterPolicy} {PL : FilterPolicyLaws P}.
Context {E W SF F : Type} {FS : FileSystem E W SF} {WF : WritableFile W} {WL : WritableFileLaws W} {HF : HandleFS E W} {FSL : FileSystemLaws E W SF}.
Context {RFS : RandomAccessFS E F} {RF : RandomAccessFile F} {RL : RandomAccessFileLaws F} {FF : FileFrameLaws E W SF F}.
Context {K Hd : Type} {KC : Cache K Hd Block} {KL : CacheLaws K Hd Block} {KI : CacheIdLaws K Hd Block}.
Context (dbname : bytes) (topts : TableOptions).

Abbreviation IC := (InternalKeyComparator C).
Abbreviation IP := (InternalFilterPolicy P).
Abbreviation Store := (StoreOk (W := W) (F := F) (C := C) (P := P) dbname topts).
Abbreviation Disk := (gmap Z (Z * versions)).

(** ** Files other than tables *)

(** The table files of [env] are in [env'] too. *)
Definition keeps_tables (env env' : E) : Prop :=
  forall n data, num_ok n -> fs_holds env (TableFileName dbname n) data -> fs_holds env' (TableFileName dbname n) data.

Lemma keeps_tables_refl (env : E) : keeps_tables env env.
Proof. by intros n data _. Qed.

Lemma keeps_tables_trans (e1 e2 e3 : E) : keeps_tables e1 e2 -> keeps_tables e2 e3 -> keeps_tables e1 e3.
Proof. intros H1 H2 n data Hn Hh. by apply H2, H1. Qed.

Lemma keeps_tables_store (ids : Z) (env' : E) (disk : Disk) (s : TableCache E F K) :
  Store ids (tc_env s) disk s -> numbers_ok disk -> keeps_tables (tc_env s) env' -> Store ids env' disk (set_env env' s).
Proof.
  intros HS Hnum Hk. apply (StoreOk_env dbname topts ids (tc_env s)); [done|]. intros n size vs Hn. eapply on_disk_frame; [|by apply (so_disk _ _ _ _ _ _ HS)].
  intros data. apply Hk. by eapply Hnum.
Qed.

Lemma keeps_new (name : bytes) (env : E) : (forall n, num_ok n -> TableFileName dbname n <> name) -> keeps_tables env (snd (fs_NewWritableFile name env)).
Proof. intros Hne n data Hn. apply fs_NewWritableFile_other. by apply Hne. Qed.

Lemma keeps_written (name : bytes) (w : W) (env : E) : (forall n, num_ok n -> TableFileName dbname n <> name) -> keeps_tables env (fs_Written name w env).
Proof. intros Hne n data Hn. apply fs_Written_other. by apply Hne. Qed.

Lemma SetCurrentFile_keeps (m : Z) (env : E) : num_ok m -> exists env', SetCurrentFile dbname m env = (Ok tt, env') /\ keeps_tables env env'.
Proof.
  intros Hm. unfold SetCurrentFile. pose proof (keeps_new (TempFileName dbname m) env) as Hk1. destruct (fs_NewWritableFile_spec (TempFileName dbname m) env) as (f & env1 & E1 & _).
  rewrite E1 in Hk1 |- *. cbn [snd] in Hk1. destruct (wf_Append_spec (current_contents dbname m) f) as (f1 & -> & _). cbn [or_remove].
  destruct (wf_Sync_spec f1) as (f2 & -> & _). cbn [or_remove]. destruct (wf_Close_spec f2) as (f3 & -> & _). cbn [or_remove].
  set (env1' := fs_Written (TempFileName dbname m) f3 env1). destruct (fs_RenameFile_spec (TempFileName dbname m) (CurrentFileName dbname) f3 env1) as (env2 & E2). fold env1' in E2. rewrite E2. cbn [or_remove].
  exists env2. split; [done|]. assert (forall n, num_ok n -> TableFileName dbname n <> TempFileName dbname m) as Hne by (intros n Hn; by apply TableFileName_other).
  eapply keeps_tables_trans; [by apply Hk1|]. eapply keeps_tables_trans; [by apply (keeps_written (TempFileName dbname m) f3)|]. fold env1'.
  intros n data Hn Hh. replace env2 with (snd (fs_RenameFile (TempFileName dbname m) (CurrentFileName dbname) env1')) by (by rewrite E2).
  destruct (TableFileName_other dbname n m Hn Hm) as (_ & H1 & _ & H2). by apply fs_RenameFile_other.
Qed.

Lemma open_manifest_keeps (vs : VersionSet W) (env : E) : num_ok (vs_manifest_file_number vs) ->
  let '(_, _, man, env') := open_manifest (C := C) dbname vs env in keeps_tables env env' /\ forall name, man = Some name -> name = DescriptorFileName dbname (vs_manifest_file_number vs).
Proof.
  intros Hm. unfold open_manifest. destruct (vs_descriptor_log vs); [split; [apply keeps_tables_refl|done]|].
  pose proof (keeps_new (DescriptorFileName dbname (vs_manifest_file_number vs)) env) as Hk. destruct (fs_NewWritableFile _ env) as [[f|s] env1]; cbn [snd] in Hk.
  - destruct (WriteSnapshot _ _) as [r w]. split; [|by intros ? [= <-]]. apply Hk. intros n Hn. by apply TableFileName_other.
  - split; [|by intros ? [= <-]]. apply Hk. intros n Hn. by apply TableFileName_other.
Qed.

(** [LogAndApply] succeeds and leaves the table files. *)
Lemma LogAndApply_keeps (edit : VersionEdit) (vs : VersionSet W) (env : E) :
  num_ok (vs_manifest_file_number vs) -> (forall w, vs_descriptor_log vs = Some w -> exists rs, log_holds w rs) ->
  let e := prepare_edit vs edit in
  exists w rs env', log_holds w rs /\ keeps_tables env env' /\
    LogAndApply (C := C) dbname edit vs env =
      (Ok tt, e, mkVersionSet (vs_next_file_number vs) (vs_manifest_file_number vs) (vs_last_sequence vs)
                   (default 0 (ve_log_number e)) (default 0 (ve_prev_log_number e)) (Some w) (vs_versions vs ++ [next_version (C := C) vs e])
                   (edit_pointers (vs_compact_pointer vs) e), env').
Proof.
  intros Hm Hdesc e. set (cp := edit_pointers (vs_compact_pointer vs) e).
  assert (exists rs, log_before (C := C) (set_pointers cp vs) rs) as (rs & Hrs).
  { unfold log_before. cbn [set_pointers vs_descriptor_log]. destruct (vs_descriptor_log vs) as [w|]; [by apply Hdesc|eauto]. }
  destruct (LogAndApply_ok dbname edit vs env rs Hrs) as (w & env' & Hw & EL). exists w, (rs ++ [enc e]), env'. split_and!; [done| |exact EL].
  revert EL. unfold LogAndApply. cbv zeta. fold e. set (b := Builder_Apply _ e). set (vs1 := set_pointers (bld_compact_pointer b) vs).
  pose proof (open_manifest_keeps vs1 env Hm) as Hk. destruct (open_manifest dbname vs1 env) as [[[s log] man] env1]. destruct Hk as [Hk Hman].
  destruct s as [s|]; [destruct man as [name|]; [|by intros [=]]; by destruct (fs_RemoveFile name env1) as [? ?]|].
  set (sl := match log with Some w0 => _ | None => _ end). destruct sl as [s log']. destruct s as [s|].
  { destruct man as [name|]; [by destruct (fs_RemoveFile name env1) as [? ?]|by intros [=]]. }
  destruct man as [name|].
  - rewrite (Hman name eq_refl). set (env1' := match log' with Some w0 => _ | None => env1 end). assert (keeps_tables env1 env1') as Hk1.
    { unfold env1'. destruct log'; [|apply keeps_tables_refl]. apply keeps_written. intros n Hn. by apply TableFileName_other. }
    destruct (SetCurrentFile_keeps (vs_manifest_file_number vs1) env1' Hm) as (env2 & -> & Hk2). cbn [result_status StatusOK]. intros E0. apply (f_equal snd) in E0. cbn [snd] in E0. subst env2.
    eapply keeps_tables_trans; [done|]. by eapply keeps_tables_trans.
  - intros E0. apply (f_equal snd) in E0. cbn [snd] in E0. by subst env1.
Qed.

(** ** The invariant *)

(** [disk] are the tables with their sizes and entries, [M] the files of the current
    version by level and number; [k] bounds how many more files there will be. *)
Record FilesOk (vs : VersionSet W) (tables : TableCache E F K) (disk : Disk) (M : file_map) (k : nat) : Prop := {
  fi_store : exists ids, Store ids (tc_env tables) disk tables /\ ids + Z.of_nat k < 2 ^ 64;
  fi_numbers : forall n x, disk !! n = Some x -> 0 <= n < vs_next_file_number vs;
  fi_next : 0 <= vs_next_file_number vs /\ vs_next_file_number vs + Z.of_nat k < 2 ^ 31;
  fi_manifest : num_ok (vs_manifest_file_number vs);
  fi_desc : forall w, vs_descriptor_log vs = Some w -> exists rs, log_holds w rs;
  fi_rep : version_rep (C := C) (current vs) M;
  fi_files : forall l n f, M !! (l, n) = Some f -> disk !! fm_number f = Some (fm_file_size f, file_entries disk f) /\ nums_ok f;
  fi_version : VersionOk (C := C) (current vs) (file_entries disk);
  fi_pick : pickable (current vs)
}.

Lemma fi_in_version (vs : VersionSet W) (tables : TableCache E F K) (disk : Disk) (M : file_map) (k : nat) (lf : nat * FileMetaData) :
  FilesOk vs tables disk M k -> in_version (current vs) lf -> M !! (fst lf, fm_number (snd lf)) = Some (snd lf).
Proof. intros HI [_ Hf]. by apply (vr_files _ _ (fi_rep _ _ _ _ _ HI)). Qed.

Lemma fi_numbers_ok (vs : VersionSet W) (tables : TableCache E F K) (disk : Disk) (M : file_map) (k : nat) : FilesOk vs tables disk M k -> numbers_ok disk.
Proof. intros HI n x Hn. pose proof (fi_numbers _ _ _ _ _ HI n x Hn). destruct (fi_next _ _ _ _ _ HI). lia. Qed.

Lemma fi_fresh (vs : VersionSet W) (tables : TableCache E F K) (disk : Disk) (M : file_map) (k : nat) : FilesOk vs tables disk M k -> disk !! vs_next_file_number vs = None.
Proof. intros HI. destruct (disk !! _) as [x|] eqn:Ed; [|done]. apply (fi_numbers _ _ _ _ _ HI) in Ed. lia. Qed.

(** Only the files of a version matter. *)
Lemma VersionOk_files (v v' : Version) (contents : FileMetaData -> versions) : v_files v' = v_files v -> VersionOk (C := C) v contents -> VersionOk (C := C) v' contents.
Proof.
  intros Ev [V1 V2 V3 V4 V5]. assert (forall l, files_ v' l = files_ v l) as Ef by (intros l; unfold files_; by rewrite Ev). assert (forall lf, in_version v' lf <-> in_version v lf) as Ei by (intros lf; unfold in_version; by rewrite Ef).
  split; [intros lf Hlf; by apply V1, Ei|intros l; rewrite Ef; apply V2|intros l; rewrite Ef; apply V3|by rewrite Ef|]. intros lf lg p q v1 v2 Hf Hg. apply V5; by apply Ei.
Qed.

(** Only some fields matter. *)
Lemma FilesOk_like (vs vs' : VersionSet W) (tables : TableCache E F K) (disk : Disk) (M : file_map) (k k' : nat) :
  FilesOk vs tables disk M k -> (k' <= k)%nat -> vs_next_file_number vs <= vs_next_file_number vs' -> vs_next_file_number vs' + Z.of_nat k' < 2 ^ 31 ->
  num_ok (vs_manifest_file_number vs') -> (forall w, vs_descriptor_log vs' = Some w -> exists rs, log_holds w rs) ->
  v_files (current vs') = v_files (current vs) -> pickable (current vs') -> FilesOk vs' tables disk M k'.
Proof.
  intros [(ids & HS & Hids) Hnum [Hn1 Hn2] _ _ [R1 R2 R3 R4] Hfiles Hv Hpick] Hk Hn Hn' Em Ed Ev Hp.
  assert (forall l, files_ (current vs') l = files_ (current vs) l) as Ef by (intros l; unfold files_; by rewrite Ev).
  split; [exists ids; split; [done|lia]| |lia|done|done| |done|by eapply VersionOk_files|done].
  - intros n x Hx. specialize (Hnum n x Hx). lia.
  - split; [by rewrite Ev|intros l; by rewrite Ef|intros l f; rewrite Ef; apply R3|done].
Qed.

Lemma FilesOk_vs (vs vs' : VersionSet W) (tables : TableCache E F K) (disk : Disk) (M : file_map) (k k' : nat) :
  FilesOk vs tables disk M k -> (k' <= k)%nat ->
  vs_next_file_number vs <= vs_next_file_number vs' <= vs_next_file_number vs + Z.of_nat (k - k') ->
  vs_manifest_file_number vs' = vs_manifest_file_number vs -> vs_descriptor_log vs' = vs_descriptor_log vs ->
  v_files (current vs') = v_files (current vs) -> pickable (current vs') -> FilesOk vs' tables disk M k'.
Proof.
  intros HI Hk Hn Em Ed Ev Hp. pose proof (fi_next _ _ _ _ _ HI). eapply FilesOk_like; [exact HI|done|lia|lia|rewrite Em; apply HI|rewrite Ed; apply HI|done|done].
Qed.

Lemma FilesOk_tables (vs : VersionSet W) (tables tables' : TableCache E F K) (disk : Disk) (M : file_map) (k : nat) (ids : Z) :
  FilesOk vs tables disk M k -> Store ids (tc_env tables') disk tables' -> ids + Z.of_nat k < 2 ^ 64 -> FilesOk vs tables' disk M k.
Proof. intros [] HS Hids. split; try done. by exists ids. Qed.

(** The state of the file system changes, the table files stay. *)
Lemma FilesOk_env (vs : VersionSet W) (tables : TableCache E F K) (disk : Disk) (M : file_map) (k : nat) (env' : E) :
  FilesOk vs tables disk M k -> keeps_tables (tc_env tables) env' -> FilesOk vs (set_env env' tables) disk M k.
Proof.
  intros HI Hk. destruct (fi_store _ _ _ _ _ HI) as (ids & HS & Hids). apply (FilesOk_tables vs tables _ disk M k ids HI); [|done].
  apply keeps_tables_store; [done|by eapply fi_numbers_ok|done].
Qed.

(** ** Reads *)

Lemma Version_Get_store (ids : Z) (env : E) (disk : Disk) (tables : TableCache E F K) (v : Version) (contents : FileMetaData -> versions) (ro : ReadOptions) (u : bytes) (s : SequenceNumber) :
  Store ids env disk tables -> VersionOk (C := C) v contents -> seq_ok s ->
  (forall lf, in_version v lf -> disk !! fm_number (snd lf) = Some (fm_file_size (snd lf), contents (snd lf))) ->
  let TS := TableCacheStore (C := C) (P := P) slen zstlen sun zun dbname topts in
  let '(r, _, tables') := Version_Get (C := C) ro (newLookupKey u s) v tables in
  version_get_spec v contents u s r /\ Store ids env disk tables'.
Proof.
  intros HS Hv Hs Hd' TS. set (TL := TableCacheStoreLaws (C := C) (P := P) (W := W) slen zstlen sun zun dbname topts ids env disk).
  assert (forall lf, in_version v lf -> ts_table tables (fm_number (snd lf)) (fm_file_size (snd lf)) (contents (snd lf))) as Ht by (intros lf Hlf; split; [done|by apply Hd']).
  pose proof (Version_Get_spec Heq ro v contents u s tables Hv Hs Ht) as H1. pose proof (Version_Get_tables Heq ro v contents u s tables Hv Hs Ht) as H2.
  destruct (candidates v u (seek_key u s)) as [|x L] eqn:Ec.
  - revert H1 H2. unfold Version_Get, ForEachOverlapping. cbv zeta. destruct (newLookupKey_views u s) as (Hik & Huk & _). rewrite Huk, Hik. fold (seek_key u s). rewrite Ec. done.
  - assert (in_version v x) as Hx by (apply (candidates_elem v u s); rewrite Ec; by left).
    destruct (Version_Get ro (newLookupKey u s) v tables) as [[r stats] tables']. split; [done|]. by destruct (H2 x Hx).
Qed.

(** ** Installing an edit *)

Lemma del_files_lookup (dels : list (Z * Z)) (M : file_map) (l : nat) (n : Z) :
  (forall p, p ∈ dels -> level_ok (fst p)) ->
  fold_left del_file dels M !! (l, n) = if bool_decide ((Z.of_nat l, n) ∈ dels) then None else M !! (l, n).
Proof.
  revert M. induction dels as [|[lv m] dels IH]; intros M Hl; [done|]. cbn [fold_left]. rewrite IH by (intros p Hp; apply Hl; by right).
  destruct (decide ((Z.of_nat l, n) ∈ dels)) as [Hin|Hin]; [rewrite !bool_decide_eq_true_2 by (by right || done); done|]. rewrite (bool_decide_eq_false_2 _ Hin).
  pose proof (Hl (lv, m) ltac:(by left)) as Hlv. unfold level_ok in Hlv. cbn [fst] in Hlv. unfold del_file. cbn [fst snd].
  destruct (decide ((Z.of_nat l, n) = (lv, m))) as [Ep|Ep].
  - injection Ep as <- <-. rewrite Nat2Z.id, lookup_delete_eq, bool_decide_eq_true_2 by (by left). done.
  - rewrite lookup_delete_ne, bool_decide_eq_false_2; [done| |].
    + intros [?|?]%elem_of_cons; done.
    + intros [= <- <-]. apply Ep. by rewrite Z2Nat.id by lia.
Qed.

(** How many files fit: their numbers differ. *)
Lemma files_count (v : Version) (M : file_map) (N : Z) (l : nat) :
  version_rep (C := C) v M -> 0 <= N -> (forall l n f, M !! (l, n) = Some f -> 0 <= n < N) -> zlen (files_ v l) <= N.
Proof.
  intros Hrep HN Hb. assert (NoDup (map fm_number (files_ v l))) as Hnd by (by eapply rep_NoDup).
  assert (map fm_number (files_ v l) ⊆+ seqZ 0 N) as Hsub.
  { apply NoDup_submseteq; [done|]. intros n Hn. apply list_elem_of_fmap in Hn as (f & -> & Hf). apply elem_of_seqZ.
    apply (vr_files _ _ Hrep) in Hf. specialize (Hb _ _ _ Hf). lia. }
  apply submseteq_length in Hsub. rewrite length_map, length_seqZ in Hsub. unfold zlen. lia.
Qed.

Definition edit_gone (edit : VersionEdit) (lg : nat * FileMetaData) : Prop := (Z.of_nat (fst lg), fm_number (snd lg)) ∈ ve_deleted_files edit.

(** An edit with one new file. *)
Lemma LogAndApply_install (edit : VersionEdit) (vs : VersionSet W) (tables : TableCache E F K) (disk : Disk) (M : file_map) (k level : nat) (f : FileMetaData) :
  FilesOk vs tables disk M k -> ve_new_files edit = [(Z.of_nat level, f)] -> (level < kNumLevels)%nat -> (forall p, p ∈ ve_deleted_files edit -> level_ok (fst p)) ->
  M !! (level, fm_number f) = None ->
  exists vs' env' rs w, LogAndApply (C := C) dbname edit vs (tc_env tables) = (Ok tt, prepare_edit vs edit, vs', env') /\ keeps_tables (tc_env tables) env' /\
    vs_next_file_number vs' = vs_next_file_number vs /\ vs_last_sequence vs' = vs_last_sequence vs /\ vs_manifest_file_number vs' = vs_manifest_file_number vs /\
    vs_descriptor_log vs' = Some w /\ log_holds w rs /\ pickable (current vs') /\ version_rep (C := C) (current vs') (apply_edit M edit) /\
    replaces (current vs) (edit_gone edit) level (with_allowed_seeks f) (current vs') /\
    (forall l n g, apply_edit M edit !! (l, n) = Some g -> g = with_allowed_seeks f \/ M !! (l, n) = Some g).
Proof.
  intros HI En Hlv Hdel HM. destruct (LogAndApply_keeps edit vs (tc_env tables) (fi_manifest _ _ _ _ _ HI) (fi_desc _ _ _ _ _ HI)) as (w & rs & env' & Hw & Hk & EL).
  destruct (prepare_edit_fields vs edit) as (_ & _ & Ed & En' & _). set (e := prepare_edit vs edit) in *. rewrite En in En'.
  assert (apply_edit M e = apply_edit M edit) as Eap by (unfold apply_edit; by rewrite Ed, En', En).
  assert (forall l n, apply_edit M edit !! (l, n) = if bool_decide ((l, n) = (level, fm_number f)) then Some (with_allowed_seeks f)
    else if bool_decide ((Z.of_nat l, n) ∈ ve_deleted_files edit) then None else M !! (l, n)) as Hap.
  { intros l n. unfold apply_edit. rewrite En. cbn [fold_left]. unfold add_file. cbn [fst snd]. rewrite Nat2Z.id. case_bool_decide as Eb.
    - by rewrite Eb, lookup_insert_eq.
    - rewrite lookup_insert_ne by done. by apply del_files_lookup. }
  assert (version_rep (C := C) (next_version (C := C) vs e) (apply_edit M edit)) as Hrep.
  { rewrite <- Eap. apply next_version_rep; [apply HI| | |].
    - split; [by rewrite Ed|]. rewrite En'. intros p ->%list_elem_of_singleton. unfold level_ok. cbn [fst]. lia.
    - rewrite En'. apply NoDup_singleton.
    - rewrite En'. intros i ->%list_elem_of_singleton. unfold new_id. cbn [fst snd]. by rewrite Nat2Z.id. }
  exists (mkVersionSet (vs_next_file_number vs) (vs_manifest_file_number vs) (vs_last_sequence vs) (default 0 (ve_log_number e)) (default 0 (ve_prev_log_number e))
    (Some w) (vs_versions vs ++ [next_version (C := C) vs e]) (edit_pointers (vs_compact_pointer vs) e)), env', rs, w. rewrite current_append.
  split_and!; [exact EL|done|done|done|done|done|done| |done| |].
  - apply Finalize_pickable. reflexivity.
  - intros [l g]. unfold in_version, edit_gone. cbn [fst snd]. rewrite (vr_files _ _ Hrep), (vr_files _ _ (fi_rep _ _ _ _ _ HI)), Hap. case_bool_decide as Eb.
    + split.
      * intros [_ [= <-]]. left. cbn in Eb. congruence.
      * intros [[= -> ->]|[[_ Hg] _]]; [done|]. rewrite Eb in Hg. congruence.
    + case_bool_decide as Eb'; split.
      * by intros [_ ?].
      * intros [[= -> ->]|[_ Hn]]; [by destruct Eb|done].
      * intros [H1 H2]. right. done.
      * intros [[= -> ->]|[H1 _]]; [by destruct Eb|done].
  - intros l n g. rewrite Hap. case_bool_decide; [intros [= <-]; by left|]. case_bool_decide; [done|by right].
Qed.

Lemma install_edit (edit : VersionEdit) (vs : VersionSet W) (tables : TableCache E F K) (disk : Disk) (M : file_map) (k level : nat) (f : FileMetaData) :
  FilesOk vs tables disk M k -> ve_new_files edit = [(Z.of_nat level, f)] -> (level < kNumLevels)%nat -> (forall p, p ∈ ve_deleted_files edit -> level_ok (fst p)) ->
  M !! (level, fm_number f) = None -> disk !! fm_number f = Some (fm_file_size f, file_entries disk f) -> nums_ok f ->
  (forall v', version_rep (C := C) v' (apply_edit M edit) -> (forall l, zlen (files_ v' l) < 2 ^ 31) ->
     replaces (current vs) (edit_gone edit) level (with_allowed_seeks f) v' -> VersionOk (C := C) v' (file_entries disk)) ->
  exists vs' env', LogAndApply (C := C) dbname edit vs (tc_env tables) = (Ok tt, prepare_edit vs edit, vs', env') /\
    FilesOk vs' (set_env env' tables) disk (apply_edit M edit) k /\ vs_next_file_number vs' = vs_next_file_number vs /\ vs_last_sequence vs' = vs_last_sequence vs /\
    replaces (current vs) (edit_gone edit) level (with_allowed_seeks f) (current vs').
Proof.
  intros HI En Hlv Hdel HM Hf Hnf Hok. destruct (LogAndApply_install edit vs tables disk M k level f HI En Hlv Hdel HM)
    as (vs' & env' & rs & w & EL & Hk & E1 & E2 & E3 & E4 & Hw & Hp & Hrep & Hr & Hfrom).
  exists vs', env'. split_and!; [done| |done|done|done]. apply (FilesOk_env _ _ _ _ _ env') in HI; [|done]. destruct HI as [Hst Hnum Hnext Hman Hdesc Hrep0 Hfiles Hv Hpick].
  assert (forall l n g, apply_edit M edit !! (l, n) = Some g -> disk !! fm_number g = Some (fm_file_size g, file_entries disk g) /\ nums_ok g) as Hfiles'.
  { intros l n g Hg. destruct (Hfrom l n g Hg) as [->|Hg']; [done|by apply (Hfiles l n)]. }
  assert (forall l, zlen (files_ (current vs') l) < 2 ^ 31) as Hsz.
  { intros l. pose proof (files_count (current vs') _ (vs_next_file_number vs) l Hrep ltac:(lia)) as Hc. assert (zlen (files_ (current vs') l) <= vs_next_file_number vs); [|lia].
    apply Hc. intros l' n g Hg. destruct (vr_number _ _ Hrep _ _ _ Hg) as [<- _]. destruct (Hfiles' _ _ _ Hg) as [Hd' _]. by apply Hnum in Hd'. }
  split; rewrite ?E1, ?E3; [done|done|done|done| |done|done|by apply Hok|done].
  intros w'. rewrite E4. intros [= <-]. by exists rs.
Qed.

(** *** What is logged *)

Definition table_files (x : bytes) : Prop := exists n, num_ok n /\ x = TableFileName dbname n.

(** An edit that can be logged, and gives new files: their numbers are new, or they
    move up from a level of the current version. *)
Record edit_good (vs vs1 : VersionSet W) (M : file_map) (edit : VersionEdit) : Prop := {
  eg_ok : edit_ok edit;
  eg_comparator : ve_comparator edit = None;
  eg_prev : ve_prev_log_number edit = None;
  eg_level : exists level, forall p, p ∈ ve_new_files edit -> fst p = level;
  eg_nodup : NoDup (map new_id (ve_new_files edit));
  eg_new : forall l f, (l, f) ∈ ve_new_files edit -> vs_next_file_number vs <= fm_number f < vs_next_file_number vs1 \/
    exists l0 g, M !! (l0, fm_number f) = Some g /\ Z.of_nat l0 < l /\ (Z.of_nat l0, fm_number f) ∈ ve_deleted_files edit
}.

(** Table files were written, and then an edit was logged; [lg] is its log number. *)
Definition installs (vs : VersionSet W) (env : E) (M : file_map) (lg : option Z) (vs' : VersionSet W) (env' : E) (M' : file_map) : Prop :=
  exists vs1 env1 edit, (vs1 = vs \/ vs1 = snd (NewFileNumber vs)) /\ evolves (W := W) table_files env env1 /\ edit_good vs vs1 M edit /\ ve_log_number edit = lg /\ M' = apply_edit M edit /\
    LogAndApply (C := C) dbname edit vs1 env1 = (Ok tt, prepare_edit vs1 edit, vs', env').

Lemma table_evolves (n : Z) (env env' : E) : num_ok n -> evolves (W := W) (eq (TableFileName dbname n)) env env' -> evolves (W := W) table_files env env'.
Proof. intros Hn. apply evolves_weaken. intros x <-. by exists n. Qed.

Definition small_key (p : ParsedInternalKey) : Prop := zlen (pik_user_key p) + 8 < 2 ^ 32.

Lemma encode_key_ok (p : ParsedInternalKey) : small_key p -> key_ok (encode_key p).
Proof. intros Hp. unfold key_ok. rewrite zlen_encode_key. unfold small_key in Hp. pose proof (zlen_nonneg (pik_user_key p)). lia. Qed.

(** An edit with one new file. *)
Lemma edit_good_one (vs vs1 : VersionSet W) (M : file_map) (edit : VersionEdit) (level : Z) (f : FileMetaData) :
  edit_ok edit -> ve_comparator edit = None -> ve_prev_log_number edit = None -> ve_new_files edit = [(level, f)] ->
  (vs_next_file_number vs <= fm_number f < vs_next_file_number vs1 \/ exists l0 g, M !! (l0, fm_number f) = Some g /\ Z.of_nat l0 < level /\ (Z.of_nat l0, fm_number f) ∈ ve_deleted_files edit) ->
  edit_good vs vs1 M edit.
Proof.
  intros Ho Hc Hp En Hnew. split; [done..| | |]; rewrite En.
  - exists level. by intros p ->%list_elem_of_singleton.
  - apply NoDup_singleton.
  - intros l g [= -> ->]%list_elem_of_singleton. done.
Qed.

(** ** A new table *)

Lemma VersionOk_contents (v : Version) (contents contents' : FileMetaData -> versions) :
  VersionOk (C := C) v contents -> (forall lf, in_version v lf -> contents' (snd lf) = contents (snd lf)) -> VersionOk (C := C) v contents'.
Proof.
  intros [V1 V2 V3 V4 V5] He. split; [|done|done|done|].
  - intros lf Hlf. rewrite He by done. by apply V1.
  - intros lf lg p q v1 v2 Hf Hg. rewrite !He by done. by apply V5.
Qed.

Lemma file_entries_insert (disk : Disk) (n : Z) (x : Z * versions) (f : FileMetaData) : fm_number f <> n -> file_entries (<[n := x]> disk) f = file_entries disk f.
Proof. intros Hn. unfold file_entries, disk_entries. by rewrite lookup_insert_ne. Qed.

Lemma file_entries_new (disk : Disk) (n size : Z) (D : versions) (f : FileMetaData) : fm_number f = n -> file_entries (<[n := (size, D)]> disk) f = D.
Proof. intros <-. unfold file_entries, disk_entries. by rewrite lookup_insert_eq. Qed.

Lemma FilesOk_new_table (vs : VersionSet W) (tables tables' : TableCache E F K) (disk : Disk) (M : file_map) (k : nat) (ids size : Z) (D : versions) (env' : E) :
  let n := vs_next_file_number vs in
  FilesOk vs tables disk M (Datatypes.S k) -> Store ids env' (<[n := (size, D)]> disk) tables' -> ids + Z.of_nat k < 2 ^ 64 ->
  FilesOk (snd (NewFileNumber vs)) tables' (<[n := (size, D)]> disk) M k.
Proof.
  intros n [Hst Hnum [Hn1 Hn2] Hman Hdesc Hrep Hfiles Hv Hpick] HS Hids. cbn [NewFileNumber snd].
  assert (forall l m f, M !! (l, m) = Some f -> fm_number f <> n) as Hne.
  { intros l m f Hf. destruct (Hfiles l m f Hf) as [Hd' _]. apply Hnum in Hd'. lia. }
  assert (u64 (vs_next_file_number vs + 1) = n + 1) as En by (apply wrap_small; lia).
  split; cbn [set_next_file vs_next_file_number vs_manifest_file_number vs_descriptor_log]; rewrite ?En; [| |lia|done|done|done| | |done].
  - exists ids. rewrite (so_env _ _ _ _ _ _ HS). done.
  - intros m x [[<- _]|[_ Hm]]%lookup_insert_Some; [lia|]. apply Hnum in Hm. lia.
  - intros l m f Hf. specialize (Hne l m f Hf). rewrite lookup_insert_ne, file_entries_insert by done. by apply (Hfiles l m).
  - apply (VersionOk_contents _ (file_entries disk)); [done|]. intros [l f] [Hl Hf]. apply file_entries_insert. apply (Hne l (fm_number f) f). by apply (vr_files _ _ Hrep).
Qed.

(** The bookkeeping of a table with the entries [(p0, v0) :: D]. *)
Lemma table_meta_ok (f : FileMetaData) (p0 : ParsedInternalKey) (v0 : bytes) (D : versions) :
  let D0 := (p0, v0) :: D in
  keys_sorted (C := IC) (internal_entries D0) -> (forall p v, (p, v) ∈ D0 -> seq_ok (pik_sequence p)) ->
  fm_smallest f = encode_key p0 -> fm_largest f = encode_key (fst (List.last D0 (p0, v0))) ->
  file_ok (C := C) f /\ contents_ok (C := C) f D0 /\ exists p x, (p, x) ∈ D0 /\ fm_smallest f = encode_key p.
Proof.
  intros D0 Hsrt Hseq Esm Ela. set (pl := List.last D0 (p0, v0)) in *. assert (pl ∈ D0) as Hpl.
  { apply list_elem_of_In. unfold pl, D0. destruct (exists_last (l := D0) ltac:(done)) as (l & a & El). fold D0. rewrite El, last_last. apply in_app_iff. right. by left. }
  assert (forall p v, (p, v) ∈ D0 -> @cle IC (encode_key p0) (encode_key p) /\ @cle IC (encode_key p) (encode_key (fst pl))) as Hr.
  { intros p v Hp. split.
    - apply elem_of_cons in Hp as [[= -> ->]|Hp]; [apply (cle_refl (C := IC))|]. apply (clt_cle (C := IC)).
      change (internal_entries D0) with ((encode_key p0, v0) :: internal_entries D) in Hsrt. apply StronglySorted_inv in Hsrt as [_ Hall].
      rewrite List.Forall_forall in Hall. apply (Hall (encode_key p, v)). apply in_map_iff. exists (p, v). split; [done|by apply list_elem_of_In].
    - destruct (exists_last (l := D0) ltac:(done)) as (l & a & El). assert (pl = a) as Ea by (unfold pl; by rewrite El, last_last). rewrite Ea, El in *. clear Ea.
      unfold keys_sorted, internal_entries in Hsrt. rewrite map_app in Hsrt. apply StronglySorted_app in Hsrt as (Hall & _ & _).
      apply elem_of_app in Hp as [Hp|Hp%list_elem_of_singleton]; [|subst a; apply (cle_refl (C := IC))]. apply (clt_cle (C := IC)).
      apply (Hall (encode_key p, v) (encode_key (fst a), snd a)); [|by left]. apply list_elem_of_fmap. by exists (p, v). }
  destruct pl as [q w] eqn:Epl. cbn [fst] in *. split_and!.
  - split; [exists p0; split; [by apply (Hseq p0 v0); left|done]|exists q; split; [by apply (Hseq q w)|done]|]. rewrite Esm, Ela. by apply (Hr q w).
  - split; [done|done|intros p v Hp; rewrite Esm, Ela; by apply (Hr p v)|exists q, w; done].
  - exists p0, v0. split; [by left|done].
Qed.

(** ** The background work on the files *)

(** The entries of the files of a version. *)
Definition version_has (v : Version) (disk : Disk) (p : ParsedInternalKey) (x : bytes) : Prop := exists lf, in_version v lf /\ (p, x) ∈ file_entries disk (snd lf).

Lemma version_has_insert (vs : VersionSet W) (tables : TableCache E F K) (disk : Disk) (M : file_map) (k : nat) (y : Z * versions) (p : ParsedInternalKey) (x : bytes) :
  FilesOk vs tables disk M k -> version_has (current vs) (<[vs_next_file_number vs := y]> disk) p x <-> version_has (current vs) disk p x.
Proof.
  intros HI. assert (forall lf, in_version (current vs) lf -> file_entries (<[vs_next_file_number vs := y]> disk) (snd lf) = file_entries disk (snd lf)) as He.
  { intros lf Hlf. apply file_entries_insert. destruct (fi_files _ _ _ _ _ HI _ _ _ (fi_in_version _ _ _ _ _ lf HI Hlf)) as [Hd' _].
    apply (fi_numbers _ _ _ _ _ HI) in Hd'. lia. }
  split; intros (lf & Hlf & Hp); exists lf; (split; [done|]); [rewrite He in Hp by done|rewrite He by done]; done.
Qed.

Section Work.
Context {Rnd : Type} {US : UniformSource Rnd} (options : Options) (Hri : 1 <= o_block_restart_interval options) (Htopts : topts = table_options options).
Abbreviation DB := (DBImpl E W F K Rnd).
Abbreviation bopts := (builder_options options).
Abbreviation fits := (table_fits (C := C) (P := P) (W := W) bopts).

(** The files are all that changed. *)
Definition files_only (d d' : DB) : Prop := exists tables vs, d' = set_files tables vs d /\ vs_last_sequence vs = vs_last_sequence (db_versions d).

Lemma log_and_apply_ok (edit : VersionEdit) (d : DB) (e : VersionEdit) (vs : VersionSet W) (env : E) :
  LogAndApply (C := C) dbname edit (db_versions d) (tc_env (db_tables d)) = (Ok tt, e, vs, env) ->
  log_and_apply (C := C) dbname edit d = (Ok tt, set_files (set_env env (db_tables d)) vs d).
Proof. intros E0. unfold log_and_apply. by rewrite E0. Qed.

(** Writing a memtable that has the entries [(p0, v0) :: D]. *)
Lemma CompactMemTable_ok (fuel : nat) (imm : MemTable Rnd) (d : DB) (disk : Disk) (M : file_map) (k : nat) (p0 : ParsedInternalKey) (v0 : bytes) (D : versions) :
  let D0 := (p0, v0) :: D in
  FilesOk (db_versions d) (db_tables d) disk M (Datatypes.S k) ->
  scans (H := MemTableIterator_iter (C := C)) (internal_entries D0) (MemTable_NewIterator imm) -> keys_sorted (C := IC) (internal_entries D0) -> fits D0 -> (length D0 <= fuel)%nat ->
  (forall p v, (p, v) ∈ D0 -> seq_ok (pik_sequence p) /\ small_key p) -> num_ok (db_logfile_number d) ->
  (forall p x q y, (p, x) ∈ D0 -> version_has (current (db_versions d)) disk q y -> pik_sequence q < pik_sequence p) ->
  exists d1 disk' M', CompactMemTable (C := C) (P := P) slen zstlen sun zun dbname options fuel imm d = Some (set_memtables (db_mem d) None d1) /\ files_only d d1 /\
    FilesOk (db_versions d1) (db_tables d1) disk' M' k /\
    installs (db_versions d) (tc_env (db_tables d)) M (Some (db_logfile_number d)) (db_versions d1) (tc_env (db_tables d1)) M' /\
    forall p x, version_has (current (db_versions d1)) disk' p x <-> (p, x) ∈ D0 \/ version_has (current (db_versions d)) disk p x.
Proof.
  intros D0 HI Hscan Hsrt Hfit Hfuel Hseqs Hlogno Hnewer. assert (forall p v, (p, v) ∈ D0 -> seq_ok (pik_sequence p)) as Hseq by (intros p v Hp; by apply (Hseqs p v)). set (vs := db_versions d) in *. set (n := vs_next_file_number vs). unfold CompactMemTable. fold vs. rewrite <- Htopts.
  change (NewFileNumber vs) with (n, snd (NewFileNumber vs)). cbv iota beta.
  destruct (fi_store _ _ _ _ _ HI) as (ids & HS & Hids). destruct (fi_next _ _ _ _ _ HI) as [Hn1 Hn2].
  destruct (BuildTable_written (C := C) (P := P) slen zstlen sun zun dbname bopts topts Hri fuel ids (tc_env (db_tables d)) disk (db_tables d)
    (mkFileMetaData (Z.shiftl 1 30) n 0 [] []) (MemTable_NewIterator imm) p0 v0 D HS (fi_numbers_ok _ _ _ _ _ HI) (fi_fresh _ _ _ _ _ HI) ltac:(cbn; unfold n; lia) ltac:(lia) Hsrt Hfit Hscan Hfuel)
    as (size & env' & tables' & -> & Hsize & HS' & wf & Eenv). cbn [fm_number fm_allowed_seeks fm_file_size fm_smallest fm_largest] in *.
  destruct (Z.ltb_spec 0 size) as [_|]; [|lia]. pose proof (FilesOk_new_table vs (db_tables d) tables' disk M k (ids + 1) size D0 env' HI HS' ltac:(lia)) as HI1.
  fold n in HI1. set (vs1 := snd (NewFileNumber vs)) in *. set (disk' := <[n := (size, D0)]> disk) in *.
  change (db_versions (set_files tables' vs1 d)) with vs1. change (current vs1) with (current vs) in *. change (db_logfile_number (set_files tables' vs1 d)) with (db_logfile_number d).
  set (level := PickLevelForMemTableOutput _ _ _ _). set (edit := SetLogNumber _ _).
  set (f := mkFileMetaData default_allowed_seeks n size (encode_key p0) (encode_key (fst (List.last D0 (p0, v0))))).
  assert (forall g, in_version (current vs) g -> fm_number (snd g) < n) as Hless.
  { intros g Hg. destruct (fi_files _ _ _ _ _ HI _ _ _ (fi_in_version _ _ _ _ _ g HI Hg)) as [Hd' _]. apply (fi_numbers _ _ _ _ _ HI) in Hd'. unfold n. lia. }
  destruct (table_meta_ok (with_allowed_seeks f) p0 v0 D Hsrt Hseq eq_refl eq_refl) as (Hfo & Hco & _).
  assert (file_entries disk' (with_allowed_seeks f) = D0) as Efe by (by apply file_entries_new).
  assert (level < kNumLevels)%nat as Hlevel.
  { destruct (PickLevelForMemTableOutput_spec (current vs) (o_max_file_size options) (InternalKey_user_key (encode_key p0)) (InternalKey_user_key (encode_key (fst (List.last D0 (p0, v0))))))
      as [Hl _]; [eapply VersionOk_sorted; [apply HI|apply HI]|apply HI|]. unfold level, kMaxMemCompactLevel, kNumLevels in *. subst D0. cbn [fm_smallest fm_largest] in *. lia. }
  destruct (install_edit edit vs1 tables' disk' M k level f HI1) as (vs2 & env2 & EL & HI2 & _ & Els & Hr).
  - done.
  - exact Hlevel.
  - intros p Hp. by apply not_elem_of_nil in Hp.
  - destruct (M !! (level, fm_number f)) as [g|] eqn:Eg; [|done]. destruct (vr_number _ _ (fi_rep _ _ _ _ _ HI) _ _ _ Eg) as [En _].
    destruct (fi_files _ _ _ _ _ HI _ _ _ Eg) as [Hd' _]. apply (fi_numbers _ _ _ _ _ HI) in Hd'. cbn in En. lia.
  - change (fm_number f) with n. unfold disk'. rewrite lookup_insert_eq. do 2 f_equal. symmetry. by apply file_entries_new.
  - split; cbn; unfold num_ok; lia.
  - intros v' Hrep Hsz Hr. apply (flush_ok (current vs) v' (apply_edit M edit) (file_entries disk') (o_max_file_size options) (with_allowed_seeks f)); try done.
    + apply HI1.
    + apply HI.
    + intros lg. rewrite (Hr lg). unfold edit_gone. cbn. split; (intros [?|[? ?]]; [by left|right; split; [done|]]); [by intros ?|]. by apply not_elem_of_nil.
    + by rewrite Efe.
    + intros g Hg. apply (Hless (0%nat, g)). split; [cbn; unfold kNumLevels; lia|done].
    + rewrite Efe. intros lg p q x y Hlg Hp Hq. apply (Hnewer p x q y Hp). apply (version_has_insert vs (db_tables d) disk M (Datatypes.S k) (size, D0)); [done|]. by exists lg.
  - rewrite (log_and_apply_ok edit (set_files tables' vs1 d) _ vs2 env2 EL). cbn [snd]. exists (set_files (set_env env2 tables') vs2 d), disk', (apply_edit M edit). split_and!.
    + reflexivity.
    + exists (set_env env2 tables'), vs2. split; [done|]. rewrite Els. done.
    + exact HI2.
    + assert (tc_env tables' = env') as Et' by apply (so_env _ _ _ _ _ _ HS'). exists vs1, (tc_env tables'), edit. split_and!; [by right| | |done|done|exact EL].
      * rewrite Et', Eenv. apply (table_evolves n); [unfold num_ok, n; lia|]. apply (ev_new _ (TableFileName dbname n)); [done|]. apply (ev_written _ (TableFileName dbname n) wf); [done|constructor].
      * apply (edit_good_one vs vs1 M edit (Z.of_nat level) f); [|done|done|done|left; change (vs_next_file_number vs1) with (u64 (n + 1)); rewrite wrap_small by (unfold n; lia); change (fm_number f) with n; unfold n; lia].
        apply (ve_apply_ok _ (VLogNumber (db_logfile_number d))); [done|]. apply (ve_apply_ok newVersionEdit (VAddFile (Z.of_nat level) n size (encode_key p0) (encode_key (fst (List.last D0 (p0, v0)))))); [|apply newVersionEdit_ok].
        cbn [ve_op_ok]. refine (conj _ (conj _ (conj _ (conj _ _)))); [unfold level_ok; lia|unfold num_ok, n; lia|unfold num_ok; lia|apply encode_key_ok, (Hseqs p0 v0); by left|].
        apply encode_key_ok. destruct (exists_last (l := D0)) as (D1 & [q w] & Eq); [done|]. rewrite Eq, List.last_last. apply (Hseqs q w). rewrite Eq. apply elem_of_app. right. by left.
    + intros p x. change (db_versions (set_files (set_env env2 tables') vs2 d)) with vs2. rewrite <- (version_has_insert vs (db_tables d) disk M (Datatypes.S k) (size, D0) p x HI). fold n. fold disk'.
      unfold version_has. split.
      * intros (lf & Hlf & Hp). apply Hr in Hlf as [->|[Hlf _]]; [left; cbn [snd] in Hp; by rewrite Efe in Hp|right; by exists lf].
      * intros [Hp|(lf & Hlf & Hp)]; [exists (level, with_allowed_seeks f); split; [apply Hr; by left|cbn [snd]; by rewrite Efe]|].
        exists lf. split; [|done]. apply Hr. right. split; [done|]. unfold edit_gone. cbn. by apply not_elem_of_nil.
Qed.

(** An empty memtable: the number is used up. *)
Lemma CompactMemTable_empty (fuel : nat) (imm : MemTable Rnd) (d : DB) (disk : Disk) (M : file_map) (k : nat) :
  FilesOk (db_versions d) (db_tables d) disk M (Datatypes.S k) -> scans (H := MemTableIterator_iter (C := C)) [] (MemTable_NewIterator imm) ->
  exists d1, CompactMemTable (C := C) (P := P) slen zstlen sun zun dbname options fuel imm d = Some (set_memtables (db_mem d) None d1) /\ files_only d d1 /\
    FilesOk (db_versions d1) (db_tables d1) disk M k /\ db_versions d1 = snd (NewFileNumber (db_versions d)) /\ evolves (W := W) table_files (tc_env (db_tables d)) (tc_env (db_tables d1)).
Proof.
  intros HI (R & cur & HFw & HR). set (vs := db_versions d) in *. set (n := vs_next_file_number vs). unfold CompactMemTable. fold vs.
  change (NewFileNumber vs) with (n, snd (NewFileNumber vs)). cbv iota beta. destruct (fi_store _ _ _ _ _ HI) as (ids & HS & Hids). destruct (fi_next _ _ _ _ _ HI) as [Hn1 Hn2].
  unfold BuildTable. cbv zeta. pose proof (fwd_first _ _ HFw _ _ HR) as HR1. set (it := it_SeekToFirst (MemTable_NewIterator imm)) in *.
  rewrite (fwd_valid _ _ HFw _ _ HR1), (fwd_status _ _ HFw _ _ HR1). cbn [cur_first in_range length fm_file_size fm_number].
  set (env' := snd (fs_RemoveFile (TableFileName dbname n) (tc_env (db_tables d)))).
  exists (set_files (set_env env' (db_tables d)) (snd (NewFileNumber vs)) d). split_and!; [reflexivity|eexists _, _; split; [reflexivity|reflexivity]| |reflexivity|].
  2:{ apply (ev_remove _ (TableFileName dbname n)); [|constructor]. exists n. split; [unfold num_ok, n; lia|done]. }
  assert (FilesOk vs (set_env env' (db_tables d)) disk M (Datatypes.S k)) as HI1.
  { apply (FilesOk_tables vs (db_tables d) _ disk M (Datatypes.S k) ids HI); [|done]. apply (StoreOk_env dbname topts ids (tc_env (db_tables d))); [done|].
    eapply disk_frame; [by eapply fi_numbers_ok|by eapply fi_fresh|fold n; lia|apply (so_disk _ _ _ _ _ _ HS)|]. intros name data Hne. by apply fs_RemoveFile_other. }
  apply (FilesOk_vs vs _ _ disk M (Datatypes.S k) k HI1); try done; [lia| |apply HI]. cbn. rewrite wrap_small by lia. lia.
Qed.

(** *** The edit of a compaction *)

Lemma remove_files_fields (level : Z) (files : list FileMetaData) (edit : VersionEdit) :
  let e := fold_left (fun edit f => RemoveFile level (fm_number f) edit) files edit in
  ve_comparator e = ve_comparator edit /\ ve_prev_log_number e = ve_prev_log_number edit /\ ve_log_number e = ve_log_number edit /\
  (level_ok level -> Forall (fun f => num_ok (fm_number f)) files -> edit_ok edit -> edit_ok e).
Proof.
  cbv zeta. revert edit. induction files as [|f files IH]; intros edit; [done|]. cbn [fold_left]. destruct (IH (RemoveFile level (fm_number f) edit)) as (-> & -> & -> & Hok).
  split_and!; [done|done|done|]. intros Hl [Hf Hfs]%Forall_cons He. apply Hok; [done|done|]. by apply (ve_apply_ok edit (VRemoveFile level (fm_number f))).
Qed.

Lemma AddInputDeletions_good (c : Compaction) (edit : VersionEdit) :
  let e := AddInputDeletions c edit in
  ve_comparator e = ve_comparator edit /\ ve_prev_log_number e = ve_prev_log_number edit /\ ve_log_number e = ve_log_number edit /\
  ((c_level c + 1 < kNumLevels)%nat -> (forall lf, is_input c lf -> num_ok (fm_number (snd lf))) -> edit_ok edit -> edit_ok e).
Proof.
  cbv zeta. unfold AddInputDeletions. set (e0 := fold_left _ (c_inputs0 c) edit).
  destruct (remove_files_fields (Z.of_nat (c_level c)) (c_inputs0 c) edit) as (A1 & A2 & A3 & A4). destruct (remove_files_fields (Z.of_nat (c_level c) + 1) (c_inputs1 c) e0) as (-> & -> & -> & B4).
  split_and!; [done|done|done|]. intros Hl Hn He. apply B4, A4; unfold level_ok; try lia; try done; apply Forall_forall; intros f Hf.
  - apply (Hn ((c_level c + 1)%nat, f)). by right.
  - apply (Hn (c_level c, f)). by left.
Qed.

(** The pointer that a compaction records. *)
Lemma compaction_edit_ok (v : Version) (c : Compaction) :
  inputs_closed (C := C) v c -> (c_level c + 1 < kNumLevels)%nat -> (forall lf, is_input c lf -> key_ok (fm_largest (snd lf))) -> c_inputs0 c <> [] ->
  edit_ok (c_edit c) /\ ve_comparator (c_edit c) = None /\ ve_prev_log_number (c_edit c) = None /\ ve_log_number (c_edit c) = None.
Proof.
  intros Hc Hl Hk Hne. rewrite (ic_edit _ _ Hc). split_and!; [|done..]. apply (ve_apply_ok newVersionEdit (VCompactPointer _ _)); [|apply newVersionEdit_ok]. split; [unfold level_ok; lia|].
  destruct (GetRange_spec (C := C) _ Hne) as (_ & _ & f & Hf & ->). apply (Hk (c_level c, f)). by left.
Qed.

Lemma remove_files_elem (level : Z) (files : list FileMetaData) (edit : VersionEdit) (x : Z * Z) :
  let e := fold_left (fun edit f => RemoveFile level (fm_number f) edit) files edit in
  ve_new_files e = ve_new_files edit /\ (x ∈ ve_deleted_files e <-> x ∈ ve_deleted_files edit \/ exists f, f ∈ files /\ x = (level, fm_number f)).
Proof.
  revert edit. induction files as [|f files IH]; intros edit; cbn [fold_left]; [split; [done|]; split; [by left|]; intros [?|(? & []%not_elem_of_nil & _)]; done|].
  destruct (IH (RemoveFile level (fm_number f) edit)) as [E1 E2]. split; [by rewrite E1|]. rewrite E2. cbn [RemoveFile ve_deleted_files]. rewrite set_emplace_elem. split.
  - intros [[->|Hx]|(g & Hg & ->)]; [right; exists f; split; [by left|done]|by left|right; exists g; split; [by right|done]].
  - intros [Hx|(g & [->|Hg]%elem_of_cons & ->)]; [left; by right|left; by left|right; by exists g].
Qed.

Lemma AddInputDeletions_elem (c : Compaction) (edit : VersionEdit) (x : Z * Z) :
  ve_new_files (AddInputDeletions c edit) = ve_new_files edit /\
  (x ∈ ve_deleted_files (AddInputDeletions c edit) <-> x ∈ ve_deleted_files edit \/ exists lf, is_input c lf /\ x = (Z.of_nat (fst lf), fm_number (snd lf))).
Proof.
  unfold AddInputDeletions. set (e0 := fold_left _ (c_inputs0 c) edit). destruct (remove_files_elem (Z.of_nat (c_level c)) (c_inputs0 c) edit x) as [E1 E2]. fold e0 in E1, E2.
  destruct (remove_files_elem (Z.of_nat (c_level c) + 1) (c_inputs1 c) e0 x) as [E3 E4]. split; [by rewrite E3, E1|]. rewrite E4, E2. split.
  - intros [[Hx|(f & Hf & ->)]|(f & Hf & ->)]; [by left|right; exists (c_level c, f); split; [by left|done]|]. right. exists ((c_level c + 1)%nat, f). split; [by right|]. cbn [fst snd]. f_equal. lia.
  - intros [Hx|([l f] & [[El Hf]|[El Hf]] & ->)]; cbn [fst snd] in *; [left; by left|subst l; left; right; by exists f|]. right. exists f. split; [done|]. subst l. f_equal. lia.
Qed.

(** The files that the edit removes are the inputs. *)
Lemma inputs_gone (vs : VersionSet W) (tables : TableCache E F K) (disk : Disk) (M : file_map) (k : nat) (c : Compaction) (edit : VersionEdit) :
  FilesOk vs tables disk M k -> inputs_closed (C := C) (current vs) c -> (c_level c + 1 < kNumLevels)%nat ->
  (forall x, x ∈ ve_deleted_files edit <-> exists lf, is_input c lf /\ x = (Z.of_nat (fst lf), fm_number (snd lf))) ->
  (forall p, p ∈ ve_deleted_files edit -> level_ok (fst p)) /\ forall lg, in_version (current vs) lg -> edit_gone edit lg <-> is_input c lg.
Proof.
  intros HI Hc Hl Hd'. assert (forall lf, is_input c lf -> in_version (current vs) lf) as Hiv
    by (intros lf; exact (input_in_version (current vs) c (vr_length _ _ (fi_rep _ _ _ _ _ HI)) Hc Hl lf)).
  split; [intros p ([l f] & Hin & ->)%Hd'; destruct (Hiv _ Hin) as [? _]; unfold level_ok; cbn [fst] in *; lia|]. intros [l g] Hg. unfold edit_gone. rewrite Hd'. split; [|by exists (l, g)].
  intros ([l' f] & Hin & E0). injection E0 as E1 E2. cbn [fst snd] in *. apply Nat2Z.inj in E1 as <-.
  pose proof (fi_in_version _ _ _ _ _ _ HI Hg) as Mg. pose proof (fi_in_version _ _ _ _ _ _ HI (Hiv _ Hin)) as Mf. cbn [fst snd] in *. rewrite E2 in Mg. congruence.
Qed.

(** What a compaction makes of the files: the inputs go, and a table with the entries
    [out], which are entries of the inputs, is on the next level. *)
Definition compacted (c : Compaction) (out : versions) (d d1 : DB) (disk disk' : Disk) : Prop :=
  forall p x, version_has (current (db_versions d1)) disk' p x <->
    (p, x) ∈ out \/ exists lf, stays (current (db_versions d)) (is_input c) lf /\ (p, x) ∈ file_entries disk (snd lf).

Definition no_twins (v : Version) (disk : Disk) : Prop :=
  forall lf lg p q x y, in_version v lf -> in_version v lg -> (p, x) ∈ file_entries disk (snd lf) -> (q, y) ∈ file_entries disk (snd lg) ->
    pik_user_key p = pik_user_key q -> pik_sequence p = pik_sequence q -> p = q.

Lemma inputs_elem (c : Compaction) (disk : Disk) (p : ParsedInternalKey) (x : bytes) :
  (p, x) ∈ concat (map (file_entries disk) (c_inputs0 c ++ c_inputs1 c)) <-> exists lf, is_input c lf /\ (p, x) ∈ file_entries disk (snd lf).
Proof.
  rewrite list_elem_of_In, in_concat. split.
  - intros (l & Hl & Hp). apply in_map_iff in Hl as (f & <- & Hf). apply list_elem_of_In in Hp, Hf. apply elem_of_app in Hf as [Hf|Hf].
    + exists (c_level c, f). split; [by left|done].
    + exists ((c_level c + 1)%nat, f). split; [by right|done].
  - intros ([l f] & Hi & Hp). exists (file_entries disk f). split; [|by apply list_elem_of_In]. apply in_map_iff. exists f. split; [done|]. apply list_elem_of_In, elem_of_app.
    destruct Hi as [[_ ?]|[_ ?]]; [by left|by right].
Qed.

(** Installing a file of entries of the inputs in place of the inputs. *)
Lemma install_compaction (vs : VersionSet W) (tables : TableCache E F K) (disk : Disk) (M : file_map) (k : nat) (c : Compaction) (edit : VersionEdit) (f : FileMetaData) :
  FilesOk vs tables disk M k -> inputs_closed (C := C) (current vs) c -> (c_level c + 1 < kNumLevels)%nat -> no_twins (current vs) disk ->
  ve_new_files edit = [(Z.of_nat (c_level c) + 1, f)] ->
  (forall x, x ∈ ve_deleted_files edit <-> exists lf, is_input c lf /\ x = (Z.of_nat (fst lf), fm_number (snd lf))) ->
  M !! ((c_level c + 1)%nat, fm_number f) = None -> disk !! fm_number f = Some (fm_file_size f, file_entries disk f) -> nums_ok f ->
  file_ok (C := C) f -> contents_ok (C := C) f (file_entries disk f) -> (exists lf, is_input c lf /\ @cle IC (fm_smallest (snd lf)) (fm_smallest f)) ->
  (forall p x, (p, x) ∈ file_entries disk f -> exists lf, is_input c lf /\ (p, x) ∈ file_entries disk (snd lf)) ->
  exists vs' env', LogAndApply (C := C) dbname edit vs (tc_env tables) = (Ok tt, prepare_edit vs edit, vs', env') /\
    FilesOk vs' (set_env env' tables) disk (apply_edit M edit) k /\ vs_last_sequence vs' = vs_last_sequence vs /\
    forall p x, version_has (current vs') disk p x <-> (p, x) ∈ file_entries disk f \/ exists lf, stays (current vs) (is_input c) lf /\ (p, x) ∈ file_entries disk (snd lf).
Proof.
  intros HI Hc Hl Htw En Hd' HM Hf Hnf [F1 F2 F3] [G1 G2 G3 G4] Hsm Hfrom. destruct (inputs_gone vs tables disk M k c edit HI Hc Hl Hd') as [Hdl Hgone].
  assert (forall v', replaces (current vs) (edit_gone edit) (c_level c + 1) (with_allowed_seeks f) v' -> replaces (current vs) (is_input c) (c_level c + 1) (with_allowed_seeks f) v') as Hrr.
  { intros v' Hr lg. rewrite (Hr lg). split; (intros [?|[H1 H2]]; [by left|right; split; [done|]]); intros H3; apply H2; by apply Hgone. }
  destruct (install_edit edit vs tables disk M k (c_level c + 1)%nat f HI) as (vs' & env' & EL & HI' & _ & Els & Hr).
  - rewrite En. do 2 f_equal. lia.
  - done.
  - done.
  - done.
  - done.
  - done.
  - intros v' Hrep Hsz Hr. apply (compaction_ok (current vs) (file_entries disk) c (fi_version _ _ _ _ _ HI) (vr_length _ _ (fi_rep _ _ _ _ _ HI)) Hc Hl Htw v' _ (with_allowed_seeks f) Hrep Hsz);
      [by apply Hrr|by split|by split|done|done].
  - exists vs', env'. split_and!; [done|done|done|]. apply Hrr in Hr. intros p x. unfold version_has. split.
    + intros (lf & [->|Hlf]%Hr & Hp); [by left|right; by exists lf].
    + intros [Hp|(lf & Hlf & Hp)]; [exists ((c_level c + 1)%nat, with_allowed_seeks f); split; [apply Hr; by left|done]|].
      exists lf. split; [apply Hr; by right|done].
Qed.

(** Scanning the input of a compaction gives the entries of its files, in order. *)
Abbreviation input_of c s := (MakeInputIterator (C := C) (HD := DbTableIter_iter (C := C) (F := F) (K := K) slen zstlen sun zun) (table_iter (C := C) (P := P) slen zstlen sun zun dbname topts (input_options topts) s) error_iter (input_fuel c) c).

Lemma compaction_scans (c : Compaction) (d : DB) (disk : Disk) (M : file_map) (k : nat) (D : versions) :
  FilesOk (db_versions d) (db_tables d) disk M k -> inputs_closed (C := C) (current (db_versions d)) c -> (c_level c + 1 < kNumLevels)%nat ->
  D ≡ₚ concat (map (file_entries disk) (c_inputs0 c ++ c_inputs1 c)) -> keys_sorted (C := IC) (internal_entries D) ->
  scans (H := InputIter_iter (C := C) (P := P) slen zstlen sun zun dbname topts (db_tables d) c) (internal_entries D) (input_of c (db_tables d)).
Proof.
  intros HI Hc Hl Hperm Hsrt. destruct (fi_store _ _ _ _ _ HI) as (ids & HS & Hids). pose proof (vr_length _ _ (fi_rep _ _ _ _ _ HI)) as Hlen.
  pose proof (VersionOk_sorted (current (db_versions d)) _ (fi_version _ _ _ _ _ HI) Hlen) as Hvs.
  assert (forall lf, is_input c lf -> input_ok (C := C) disk (snd lf)) as Hio.
  { intros lf Hi. pose proof (input_in_version (current (db_versions d)) c Hlen Hc Hl lf Hi) as Hlf. destruct (fi_files _ _ _ _ _ HI _ _ _ (fi_in_version _ _ _ _ _ lf HI Hlf)) as [H1 H2].
    destruct (vo_files _ _ (fi_version _ _ _ _ _ HI) lf Hlf). done. }
  eapply (MakeInputIterator_scans (C := C) (P := P) (W := W) slen zstlen sun zun dbname topts ids); [done| | | | | |done|done].
  - apply Forall_forall. intros f [Hf|Hf]%elem_of_app; [apply (Hio (c_level c, f)); by left|apply (Hio ((c_level c + 1)%nat, f)); by right].
  - intros H0. eapply run_of_sorted; [by apply (lc_run _ _ _ (ic_level _ _ Hc))|by apply Hvs].
  - eapply run_of_sorted; [apply (nc_run _ _ _ _ (ic_next _ _ Hc))|apply Hvs; lia].
  - pose proof (sublist_length _ _ (lc_sub _ _ _ (ic_level _ _ Hc))). pose proof (vo_size _ _ (fi_version _ _ _ _ _ HI) (c_level c)). unfold zlen in *. lia.
  - pose proof (sublist_length _ _ (run_of_sublist _ _ (nc_run _ _ _ _ (ic_next _ _ Hc)))). pose proof (vo_size _ _ (fi_version _ _ _ _ _ HI) (c_level c + 1)%nat). unfold zlen in *. lia.
Qed.

(** The compaction reads its input up to the end, or to a shutdown. *)
Lemma run_compaction_ok (stop : option nat) (fuel : nat) (c : Compaction) (d : DB) (disk : Disk) (M : file_map) (k : nat) (D : versions) (p0 : ParsedInternalKey) (v0 : bytes) (D0 : versions) :
  let smallest := smallest_snapshot (db_snapshots d) (db_versions d) in
  let out := (p0, v0) :: D0 in
  FilesOk (db_versions d) (db_tables d) disk M (Datatypes.S k) -> inputs_closed (C := C) (current (db_versions d)) c -> (c_level c + 1 < kNumLevels)%nat ->
  no_twins (current (db_versions d)) disk -> D ≡ₚ concat (map (file_entries disk) (c_inputs0 c ++ c_inputs1 c)) -> keys_sorted (C := IC) (internal_entries D) ->
  smallest < kMaxSequenceNumber -> (length D <= fuel)%nat -> compaction_output (C := C) smallest c (until stop D) = out -> fits out ->
  (forall p x, (p, x) ∈ D -> small_key p) -> (forall i f, M !! i = Some f -> meta_ok f) ->
  exists d1 disk' M', run_compaction (C := C) (P := P) slen zstlen sun zun dbname options fuel (stopped stop) c d = Some (Ok tt, d1) /\ files_only d d1 /\
    FilesOk (db_versions d1) (db_tables d1) disk' M' k /\ installs (db_versions d) (tc_env (db_tables d)) M None (db_versions d1) (tc_env (db_tables d1)) M' /\ compacted c out d d1 disk disk'.
Proof.
  intros smallest out HI Hc Hl Htw Hperm Hsrt Hsm Hfuel Hout Hfit Hsmall Hmeta. set (vs := db_versions d) in *. set (n := vs_next_file_number vs).
  destruct (fi_store _ _ _ _ _ HI) as (ids & HS & Hids). destruct (fi_next _ _ _ _ _ HI) as [Hn1 Hn2]. pose proof (vr_length _ _ (fi_rep _ _ _ _ _ HI)) as Hlen.
  pose proof (VersionOk_sorted (current vs) _ (fi_version _ _ _ _ _ HI) Hlen) as Hvs. destruct (ic_start _ _ Hc) as (Hptrs & Hnew & Hdels).
  assert (forall lf, is_input c lf -> in_version (current vs) lf) as Hiv by (intros lf; exact (input_in_version (current vs) c Hlen Hc Hl lf)).
  assert (forall lf, in_version (current vs) lf -> input_ok (C := C) disk (snd lf)) as Hio.
  { intros lf Hlf. destruct (fi_files _ _ _ _ _ HI _ _ _ (fi_in_version _ _ _ _ _ lf HI Hlf)) as [H1 H2]. destruct (vo_files _ _ (fi_version _ _ _ _ _ HI) lf Hlf). done. }
  assert (forall p x, (p, x) ∈ D <-> exists lf, is_input c lf /\ (p, x) ∈ file_entries disk (snd lf)) as HD by (intros p x; by rewrite Hperm, inputs_elem).
  assert (forall p x, (p, x) ∈ D -> seq_ok (pik_sequence p)) as Hseq.
  { intros p x (lf & Hi & Hp)%HD. by apply (co_seq _ _ (io_contents _ _ (Hio lf (Hiv lf Hi))) p x). }
  assert (forall p x, (p, x) ∈ out -> (p, x) ∈ D) as Hsub.
  { intros p x Hp. rewrite <- Hout in Hp. unfold compaction_output in Hp. eapply elem_of_sublist; [|apply (until_sublist stop)]. eapply elem_of_sublist; [|apply compact_ref_sublist]. exact Hp. }
  unfold run_compaction, DoCompactionWork. fold vs. rewrite <- Htopts.
  destruct (compact_input_spec (C := C) (P := P) dbname bopts topts Hri (HI := InputIter_iter (C := C) (P := P) slen zstlen sun zun dbname topts (db_tables d) c) stop fuel
    (input_of c (db_tables d)) c (db_snapshots d) vs ids (tc_env (db_tables d)) disk (db_tables d) D p0 v0 D0) as (size & env' & ptrs & -> & Hsize & HS' & Hev).
  { done. } { by eapply fi_numbers_ok. } { by eapply fi_fresh. } { lia. } { lia. } { by rewrite (ic_version _ _ Hc). } { done. } { done. } { done. } { done. }
  { by apply (compaction_scans c d disk M (Datatypes.S k)). }
  { done. } { done. } { done. }
  cbv iota beta. set (f := mkFileMetaData default_allowed_seeks n size (encode_key p0) (encode_key (fst (List.last out (p0, v0))))).
  pose proof (FilesOk_new_table vs (db_tables d) (set_env env' (db_tables d)) disk M k (ids + 1) size out env' HI HS' ltac:(lia)) as HI1. fold n in HI1.
  set (vs1 := snd (NewFileNumber vs)) in *. set (tables1 := set_env env' (db_tables d)) in *. set (disk' := <[n := (size, out)]> disk) in *.
  set (c1 := set_c_edit _ _). assert (file_entries disk' f = out) as Efe by (by apply file_entries_new).
  assert (forall lf, in_version (current vs) lf -> file_entries disk' (snd lf) = file_entries disk (snd lf)) as Hsame.
  { intros lf Hlf. apply file_entries_insert. pose proof (io_disk _ _ (Hio lf Hlf)) as Hd'. apply (fi_numbers _ _ _ _ _ HI) in Hd'. unfold n. lia. }
  assert (keys_sorted (C := IC) (internal_entries out)) as Hsrt'.
  { rewrite <- Hout. eapply keys_sorted_sublist; [|exact Hsrt]. etrans; [apply compact_ref_sublist|apply until_sublist]. }
  destruct (table_meta_ok f p0 v0 D0 Hsrt' (fun p x Hp => Hseq p x (Hsub p x Hp)) eq_refl eq_refl) as (Hfo & Hco & Hsmf).
  destruct (install_compaction vs1 tables1 disk' M k c (AddInputDeletions c1 (c_edit c1)) f HI1) as (vs2 & env2 & EL & HI2 & Els & Hhas); try done.
  - intros lf lg p q x y Hlf Hlg. change (current vs1) with (current vs) in *. rewrite !Hsame by done. by apply Htw.
  - rewrite (proj1 (AddInputDeletions_elem c1 (c_edit c1) (0, 0))). cbn [c1 set_c_edit c_edit AddFile emplace_new_file ve_new_files set_level_ptrs c_level]. by rewrite Hnew.
  - intros x. rewrite (proj2 (AddInputDeletions_elem c1 (c_edit c1) x)). cbn [c1 set_c_edit c_edit AddFile emplace_new_file ve_deleted_files set_level_ptrs]. rewrite Hdels.
    split; [intros [H0|H0]; [by apply not_elem_of_nil in H0|exact H0]|intros H0; by right].
  - destruct (M !! _) as [g|] eqn:Eg; [|done]. destruct (vr_number _ _ (fi_rep _ _ _ _ _ HI) _ _ _ Eg) as [En _].
    destruct (fi_files _ _ _ _ _ HI _ _ _ Eg) as [Hd' _]. apply (fi_numbers _ _ _ _ _ HI) in Hd'. cbn in En. lia.
  - rewrite Efe. unfold disk'. by rewrite lookup_insert_eq.
  - split; cbn; unfold num_ok; lia.
  - by rewrite Efe.
  - destruct Hsmf as (p & x & Hp & Esm). destruct (proj1 (HD p x) (Hsub p x Hp)) as (lf & Hi & Hin). exists lf. split; [done|]. rewrite Esm.
    by apply (co_range _ _ (io_contents _ _ (Hio lf (Hiv lf Hi))) p x).
  - rewrite Efe. intros p x Hp. destruct (proj1 (HD p x) (Hsub p x Hp)) as (lf & Hi & Hin). exists lf. split; [done|]. by rewrite Hsame by (by apply Hiv).
  - rewrite (log_and_apply_ok _ (set_files tables1 vs1 d) _ vs2 env2 EL). cbn [snd]. exists (set_files (set_env env2 tables1) vs2 d), disk', (apply_edit M (AddInputDeletions c1 (c_edit c1))).
    split_and!; [reflexivity|exists (set_env env2 tables1), vs2; split; [done|by rewrite Els]|exact HI2| |].
    { assert (forall lf, is_input c lf -> meta_ok (snd lf)) as Hmi by (intros lf Hi; exact (Hmeta _ _ (fi_in_version _ _ _ _ _ lf HI (Hiv lf Hi)))).
      assert (c_inputs0 c <> []) as Hne by apply (lc_nonempty _ _ _ (ic_level _ _ Hc)).
      destruct (compaction_edit_ok (current vs) c Hc Hl (fun lf Hi => proj1 (proj2 (proj2 (proj2 (Hmi lf Hi))))) Hne) as (O1 & O2 & O3 & O4).
      destruct (AddInputDeletions_good c1 (c_edit c1)) as (A1 & A2 & A3 & A4). exists vs1, env', (AddInputDeletions c1 (c_edit c1)). split_and!; [by right| | |by rewrite A3|done|exact EL].
      - apply (table_evolves n); [unfold num_ok, n; lia|exact Hev].
      - apply (edit_good_one vs vs1 M _ (Z.of_nat (c_level c) + 1) f).
        + apply A4; [done|intros lf Hi; apply (Hmi lf Hi)|]. apply (ve_apply_ok (c_edit c) (VAddFile (Z.of_nat (c_level c) + 1) n size (encode_key p0) (encode_key (fst (List.last out (p0, v0)))))); [|done].
          cbn [ve_op_ok]. refine (conj _ (conj _ (conj _ (conj _ _)))); [unfold level_ok; lia|unfold num_ok, n; lia|unfold num_ok; lia|apply encode_key_ok, (Hsmall p0 v0), (Hsub p0 v0); by left|].
          apply encode_key_ok. destruct (exists_last (l := out)) as (D1 & [q w] & Eq); [done|]. rewrite Eq, List.last_last. apply (Hsmall q w), (Hsub q w). rewrite Eq. apply elem_of_app. right. by left.
        + by rewrite A1.
        + by rewrite A2.
        + rewrite (proj1 (AddInputDeletions_elem c1 (c_edit c1) (0, 0))). cbn [c1 set_c_edit c_edit AddFile emplace_new_file ve_new_files set_level_ptrs c_level]. by rewrite Hnew.
        + left. change (vs_next_file_number vs1) with (u64 (n + 1)). rewrite wrap_small by (unfold n; lia). change (fm_number f) with n. unfold n. lia. }
    intros p x. change (db_versions (set_files (set_env env2 tables1) vs2 d)) with vs2.
    rewrite Hhas, Efe. change (current vs1) with (current vs). fold vs. apply or_iff_compat_l. split; intros (lf & Hs & Hp); exists lf; (split; [done|]); [rewrite <- Hsame|rewrite Hsame]; try done; apply Hs.
Qed.

(** A trivial move changes no entry. *)
Lemma trivial_move_ok (c : Compaction) (f : FileMetaData) (d : DB) (disk : Disk) (M : file_map) (k : nat) :
  FilesOk (db_versions d) (db_tables d) disk M k -> inputs_closed (C := C) (current (db_versions d)) c -> (c_level c + 1 < kNumLevels)%nat ->
  no_twins (current (db_versions d)) disk -> c_inputs0 c = [f] -> c_inputs1 c = [] -> (forall i f, M !! i = Some f -> meta_ok f) ->
  exists d1 M', trivial_move (C := C) dbname c f d = set_seeks (delete (fm_number f) (db_seeks d)) d1 /\ files_only d d1 /\
    FilesOk (db_versions d1) (db_tables d1) disk M' k /\ installs (db_versions d) (tc_env (db_tables d)) M None (db_versions d1) (tc_env (db_tables d1)) M' /\
    forall p x, version_has (current (db_versions d1)) disk p x <-> version_has (current (db_versions d)) disk p x.
Proof.
  intros HI Hc Hl Htw E0 E1 Hmeta. set (vs := db_versions d) in *. pose proof (vr_length _ _ (fi_rep _ _ _ _ _ HI)) as Hlen. destruct (ic_start _ _ Hc) as (_ & Hnew & Hdels).
  assert (is_input c (c_level c, f)) as Hi by (left; split; [done|]; rewrite E0; by left).
  assert (forall lf, is_input c lf -> lf = (c_level c, f)) as Hi'.
  { intros [l g] [[El Hg]|[_ Hg]]; cbn [fst snd] in *; [rewrite E0 in Hg; apply list_elem_of_singleton in Hg; congruence|rewrite E1 in Hg; by apply not_elem_of_nil in Hg]. }
  pose proof (input_in_version (current vs) c Hlen Hc Hl _ Hi) as Hiv. destruct (vo_files _ _ (fi_version _ _ _ _ _ HI) _ Hiv) as [[F1 F2 F3] [G1 G2 G3 G4]]. cbn [snd] in *.
  destruct (fi_files _ _ _ _ _ HI _ _ _ (fi_in_version _ _ _ _ _ _ HI Hiv)) as [Hdisk Hnums]. cbn [fst snd] in *.
  unfold trivial_move. set (edit := AddFile _ _ _ _ _ _). set (f0 := mkFileMetaData default_allowed_seeks (fm_number f) (fm_file_size f) (fm_smallest f) (fm_largest f)).
  destruct (install_compaction vs (db_tables d) disk M k c edit f0 HI Hc Hl Htw) as (vs' & env' & EL & HI' & Els & Hhas).
  - cbn [edit AddFile emplace_new_file RemoveFile ve_new_files]. by rewrite Hnew.
  - intros x. cbn [edit AddFile emplace_new_file RemoveFile ve_deleted_files]. rewrite set_emplace_elem, Hdels. split.
    + intros [->|H0]; [by exists (c_level c, f)|by apply not_elem_of_nil in H0].
    + intros (lf & ->%Hi' & ->). by left.
  - destruct (M !! _) as [g|] eqn:Eg; [|done]. exfalso. destruct (vr_number _ _ (fi_rep _ _ _ _ _ HI) _ _ _ Eg) as [En _]. destruct G4 as (p & x & Hp & _).
    assert (in_version (current vs) ((c_level c + 1)%nat, g)) as Hg by (split; [done|]; apply (vr_files _ _ (fi_rep _ _ _ _ _ HI)); cbn [fst snd]; by rewrite En).
    assert (file_entries disk g = file_entries disk f) as Ege by (unfold file_entries; by rewrite En).
    pose proof (files_disjoint (current vs) (file_entries disk) _ _ p x x (fi_version _ _ _ _ _ HI) Hiv Hg Hp ltac:(cbn [snd]; by rewrite Ege)) as E2. injection E2 as E2 _. lia.
  - done.
  - done.
  - by split.
  - by split.
  - exists (c_level c, f). split; [done|apply (cle_refl (C := IC))].
  - intros p x Hp. by exists (c_level c, f).
  - rewrite (log_and_apply_ok edit d _ vs' env' EL). exists (set_files (set_env env' (db_tables d)) vs' d), (apply_edit M edit). split_and!.
    + done.
    + exists (set_env env' (db_tables d)), vs'. done.
    + exact HI'.
    + pose proof (fi_in_version _ _ _ _ _ _ HI Hiv) as Hf. cbn [fst snd] in Hf. destruct (Hmeta _ _ Hf) as (M1 & M2 & M3 & M4 & _).
      destruct (compaction_edit_ok (current vs) c Hc Hl) as (O1 & O2 & O3 & O4); [intros lf ->%Hi'; done|by rewrite E0|]. exists vs, (tc_env (db_tables d)), edit. split_and!; [by left|constructor| |done|done|exact EL].
      apply (edit_good_one vs vs M edit (Z.of_nat (c_level c) + 1) f0); [|done|done|cbn [edit AddFile emplace_new_file RemoveFile ve_new_files]; by rewrite Hnew|].
      * apply (ve_apply_ok (RemoveFile (Z.of_nat (c_level c)) (fm_number f) (c_edit c)) (VAddFile (Z.of_nat (c_level c) + 1) (fm_number f) (fm_file_size f) (fm_smallest f) (fm_largest f))).
        -- split; [unfold level_ok; lia|done].
        -- apply (ve_apply_ok (c_edit c) (VRemoveFile (Z.of_nat (c_level c)) (fm_number f))); [split; [unfold level_ok; lia|done]|done].
      * right. exists (c_level c), f. split_and!; [done|lia|]. cbn [edit AddFile emplace_new_file RemoveFile ve_deleted_files]. apply set_emplace_elem. by left.
    + intros p x. change (db_versions (set_files (set_env env' (db_tables d)) vs' d)) with vs'. rewrite Hhas. unfold version_has. split.
      * intros [Hp|(lf & [Hlf _] & Hp)]; [by exists (c_level c, f)|by exists lf].
      * intros (lf & Hlf & Hp). destruct (decide (lf = (c_level c, f))) as [->|Hne]; [by left|]. right. exists lf. split; [|done]. split; [done|]. by intros ->%Hi'.
Qed.
End Work.
End Files.
