(* ===== verification/DbData.v ===== *)
(** * DbData: the entries of a database and what they answer

    The entries of the memtables and of the files of the current version, newest
    layer first, agree with the operations written ([agrees]).  So a read at a live
    sequence number finds what the operations make; switching memtables, flushing
    and compacting keep the agreement. *)

From stdpp Require Import sorting fin_sets.
From S2P Require Import Prelude Random Status Coding Comparator Logging FilterPolicy DbFormat SkipList MemTable WriteBatch Env LogFile Format Iterator Block Merger FilterBlock.
From S2P Require Import TwoLevelIterator TableBuilder Cache Table VersionEdit FileName DBIter Version VersionRead VersionBuilder VersionSet Manifest Compaction.
From S2P Require Import TableCache Snapshot History Iterates TableFiles CompactionRun VersionChange CompactionWork DbImpl DbStep DbFiles.
From S2P Require Import MemTable.
From Stdlib Require Import Sorting.Sorted.

(** ** Layers *)

Lemma newest_in_layer (A B : versions) (u : bytes) (s : SequenceNumber) (p : ParsedInternalKey) (v : bytes) :
  newest_in A u s p v -> (forall p x q y, (p, x) ∈ A -> (q, y) ∈ B -> pik_sequence q < pik_sequence p) -> newest_in (A ++ B) u s p v.
Proof.
  intros (Hp & Hv & Hm) Hn. split_and!; [apply elem_of_app; by left|done|]. intros q w [Hq|Hq]%elem_of_app Hvq; [by apply (Hm q w)|]. specialize (Hn p v q w Hp Hq). lia.
Qed.

Lemma answers_skip (A B : versions) (u : bytes) (s : SequenceNumber) (r : option bytes) :
  (forall p v, (p, v) ∈ A -> ~ VersionRead.visible u s p) -> answers B u s r -> answers (A ++ B) u s r.
Proof.
  intros Hn. apply answers_incl. intros p v Hv. rewrite elem_of_app. split; [by right|]. intros [Hp|Hp]; [by destruct (Hn p v)|done].
Qed.

Lemma db_read_prefix (ops pend : list WriteOp) (u : bytes) (s : SequenceNumber) : s <= zlen ops -> db_read (ops ++ pend) u s = db_read ops u s.
Proof. intros Hs. unfold db_read. rewrite take_app_le; [done|]. unfold zlen in Hs. lia. Qed.

(** A read that finds the newest entry of the layer that has one. *)
Definition layer_read (A : versions) (u : bytes) (s : SequenceNumber) (r : Result (option bytes)) : Prop :=
  (r = Ok None /\ forall p v, (p, v) ∈ A -> ~ VersionRead.visible u s p) \/
  (exists p v, newest_in A u s p v /\ read_answers r (entry_answer (p, v)) /\ r <> Ok None).

Lemma mem_layer_read {C : Comparator} (Heq : forall a b, ceq a b -> a = b) {CL : ComparatorLaws C} {Rnd : Type} (m : MemTable Rnd) (es : list entry) (u : bytes) (s : SequenceNumber) :
  mem_repr (C := C) m es -> seq_ok s -> zlen u + 8 < 2 ^ 32 -> layer_read (map version_of es) u s (MemTable_Get C m (newLookupKey u s)).
Proof.
  intros Hm Hs Hu. assert (forall e, MemTable.visible (C := C) u s e <-> VersionRead.visible u s (e_key e)) as Hvis.
  { intros e. unfold MemTable.visible, VersionRead.visible. split; intros [H1 H2]; split; [by apply Heq|done|rewrite H1; apply ceq_refl|done]. }
  destruct (Get_spec m es u s Hm Hs Hu) as [[-> Hn]|(e & He & Hv & -> & Hmax)]; [left|right].
  - split; [done|]. intros p v Hp. apply list_elem_of_fmap in Hp as (e & [= -> ->] & He). rewrite <- Hvis. by apply Hn.
  - exists (e_key e), (e_value e). split_and!.
    + split_and!; [apply list_elem_of_fmap; by exists e|by apply Hvis|]. intros q w Hq Hvq. apply list_elem_of_fmap in Hq as (e' & [= -> ->] & He'). apply Hmax; [done|by apply Hvis].
    + unfold entry_result, entry_answer, read_answers. cbn [fst snd]. destruct (pik_type (e_key e)); [eexists; split; [reflexivity|done]|done].
    + unfold entry_result. by destruct (pik_type (e_key e)).
Qed.

(** What is found in a layer is what all entries answer. *)
Lemma layer_read_answers (A B : versions) (u : bytes) (s : SequenceNumber) (r : Result (option bytes)) (m : option bytes) :
  layer_read A u s r -> r <> Ok None -> distinct (A ++ B) -> (forall p x q y, (p, x) ∈ A -> (q, y) ∈ B -> pik_sequence q < pik_sequence p) ->
  answers (A ++ B) u s m -> read_answers r m.
Proof.
  intros [[-> _]|(p & v & Hn & Hr & _)] Hne Hd Hlt Ha; [done|]. rewrite (answers_functional _ _ _ _ (entry_answer (p, v)) Hd Ha); [done|]. right. exists p, v. split; [by apply newest_in_layer|done].
Qed.

(** The records of a log: batches of operations, from operation number [n + 1] on. *)
Fixpoint batch_records (n : Z) (bs : list (list WriteOp)) : list bytes :=
  match bs with
  | [] => []
  | b :: bs => batch_bytes (n + 1) b :: batch_records (n + zlen b) bs
  end.

Lemma batch_records_snoc (n : Z) (bs : list (list WriteOp)) (b : list WriteOp) :
  batch_records n (bs ++ [b]) = batch_records n bs ++ [batch_bytes (n + zlen (concat bs) + 1) b].
Proof.
  revert n. induction bs as [|x bs IH]; intros n; cbn [batch_records app concat]; [by rewrite zlen_nil, Z.add_0_r|]. rewrite IH, zlen_app. do 4 f_equal. lia.
Qed.

(** What a client may write. *)
Definition op_fits (op : WriteOp) : Prop := op_wf op /\ zlen (op_key op) + 8 < 2 ^ 32.

Section Data.
Context (slen zstlen : bytes -> option Z) (sun zun : bytes -> option bytes).
Context {C : Comparator} {CL : ComparatorLaws C} (Heq : forall a b, ceq a b -> a = b) {P : FilterPolicy} {PL : FilterPolicyLaws P}.
Context {E W SF F : Type} {FS : FileSystem E W SF} {WF : WritableFile W} {WL : WritableFileLaws W} {HF : HandleFS E W} {FSL : FileSystemLaws E W SF}.
Context {RFS : RandomAccessFS E F} {RF : RandomAccessFile F} {RL : RandomAccessFileLaws F} {FF : FileFrameLaws E W SF F}.
Context {K Hd : Type} {KC : Cache K Hd Block} {KL : CacheLaws K Hd Block} {KI : CacheIdLaws K Hd Block}.
Context {Rnd : Type} {US : UniformSource Rnd} (dbname : bytes) (options : Options) (Hri : 1 <= o_block_restart_interval options).

Abbreviation DB := (DBImpl E W F K Rnd).
Abbreviation Disk := (gmap Z (Z * versions)).
Abbreviation FilesOk := (FilesOk (C := C) (P := P) (W := W) (E := E) (F := F) (K := K) dbname (table_options options)).

(** ** The entries of the database *)

Definition version_entries (v : Version) (disk : Disk) : versions := concat (map (file_entries disk) (concat (v_files v))).

Lemma version_entries_elem (v : Version) (disk : Disk) (p : ParsedInternalKey) (x : bytes) :
  length (v_files v) = kNumLevels -> (p, x) ∈ version_entries v disk <-> version_has v disk p x.
Proof.
  intros Hlen. unfold version_entries, version_has. rewrite list_elem_of_In, in_concat. split.
  - intros (l & Hl & Hp). apply in_map_iff in Hl as (f & <- & Hf). apply in_concat in Hf as (fs & Hfs & Hf). apply list_elem_of_In, list_elem_of_lookup in Hfs as [i Hi].
    exists (i, f). split; [|by apply list_elem_of_In]. split; cbn [fst snd]; [apply lookup_lt_Some in Hi; lia|]. unfold files_. rewrite nth_lookup, Hi. by apply list_elem_of_In.
  - intros ([l f] & [Hl Hf] & Hp). cbn [fst snd] in *. exists (file_entries disk f). split; [|by apply list_elem_of_In]. apply in_map_iff. exists f. split; [done|].
    apply in_concat. exists (files_ v l). split; [|by apply list_elem_of_In]. unfold files_. apply nth_In. lia.
Qed.

(** The ghost state: the operations in the memtable that are not published, the
    entries of the two memtables, the tables and files, the oldest sequence number
    that reads may use, the live snapshots, the numbers of the last operation in
    a table and in the immutable memtable, and the logs before the open one that a
    recovery reads, with their batches. *)
Record Ghost := mkGhost {
  g_pend : list WriteOp;
  g_mem : list entry;
  g_imm : list entry;
  g_disk : Disk;
  g_map : file_map;
  g_min : SequenceNumber;
  g_live : list (Z * SequenceNumber);
  g_b1 : Z;
  g_b2 : Z;
  g_logs : list (Z * list (list WriteOp))
}.

Definition all_entries (d : DB) (g : Ghost) : versions :=
  map version_of (g_mem g) ++ map version_of (g_imm g) ++ version_entries (current (db_versions d)) (g_disk g).

Record DataOk (d : DB) (ops : list WriteOp) (g : Ghost) : Prop := {
  da_last : vs_last_sequence (db_versions d) = zlen ops;
  da_fits : Forall op_fits (ops ++ g_pend g) /\ zlen (ops ++ g_pend g) < 2 ^ 31;
  da_mem : mem_repr (C := C) (db_mem d) (g_mem g);
  da_mem_entries : g_mem g ≡ₚ batch_entries (g_b2 g + 1) (drop (Z.to_nat (g_b2 g)) (ops ++ g_pend g));
  da_imm : match db_imm d with Some m => mem_repr (C := C) m (g_imm g) | None => g_imm g = [] end;
  da_log : exists bs, log_holds (db_log d) (batch_records (g_b2 g) bs) /\ concat bs = drop (Z.to_nat (g_b2 g)) (ops ++ g_pend g);
  da_agrees : agrees (g_min g) (ops ++ g_pend g) (all_entries d g);
  da_order : 0 <= g_b1 g <= g_b2 g /\ g_b2 g <= zlen ops;
  da_imm_entries : g_imm g ≡ₚ batch_entries (g_b1 g + 1) (take (Z.to_nat (g_b2 g - g_b1 g)) (drop (Z.to_nat (g_b1 g)) (ops ++ g_pend g)));
  da_version_seq : forall p x, (p, x) ∈ version_entries (current (db_versions d)) (g_disk g) -> pik_sequence p <= g_b1 g;
  da_min : 0 <= g_min g <= zlen ops;
  da_snap : SnapInv (db_snapshots d) (g_live g);
  da_live : forall p s, (p, s) ∈ g_live g -> g_min g <= s <= zlen ops
}.

Lemma da_mem_seq (d : DB) (ops : list WriteOp) (g : Ghost) (e : entry) : DataOk d ops g -> e ∈ g_mem g -> g_b2 g < entry_seq e <= zlen (ops ++ g_pend g).
Proof.
  intros HD He. rewrite (da_mem_entries _ _ _ HD) in He. apply batch_entries_seq in He. destruct (da_order _ _ _ HD) as [H1 H2].
  rewrite zlen_app in *. pose proof (zlen_nonneg (g_pend g)). unfold zlen in He at 1. rewrite length_drop, length_app in He. unfold zlen in *. lia.
Qed.

Lemma da_imm_seq (d : DB) (ops : list WriteOp) (g : Ghost) : DataOk d ops g -> forall e, e ∈ g_imm g -> g_b1 g < entry_seq e <= g_b2 g.
Proof.
  intros HD e He. rewrite (da_imm_entries _ _ _ HD) in He. apply batch_entries_seq in He. destruct (da_order _ _ _ HD) as [H1 H2]. unfold zlen in He. rewrite length_take in He. lia.
Qed.

(** Without an immutable memtable, the tables and the memtable are all there is. *)
Lemma da_no_imm (d : DB) (ops : list WriteOp) (g : Ghost) : DataOk d ops g -> g_imm g = [] -> g_b1 g = g_b2 g.
Proof.
  intros HD Hi. pose proof (da_imm_entries _ _ _ HD) as He. rewrite Hi in He. apply (f_equal length) in He || apply Permutation_length in He. destruct (da_order _ _ _ HD) as [H1 H2].
  rewrite length_batch_entries, length_take, length_drop, length_app in He. unfold zlen in *. cbn in He. lia.
Qed.

Lemma da_layers (d : DB) (ops : list WriteOp) (g : Ghost) : DataOk d ops g ->
  (forall p x q y, (p, x) ∈ map version_of (g_mem g) -> (q, y) ∈ map version_of (g_imm g) ++ version_entries (current (db_versions d)) (g_disk g) -> pik_sequence q < pik_sequence p) /\
  (forall p x q y, (p, x) ∈ map version_of (g_imm g) -> (q, y) ∈ version_entries (current (db_versions d)) (g_disk g) -> pik_sequence q < pik_sequence p).
Proof.
  intros HD. destruct (da_order _ _ _ HD) as [H1 H2].
  assert (forall p x, (p, x) ∈ map version_of (g_imm g) -> g_b1 g < pik_sequence p <= g_b2 g) as Hi.
  { intros p x Hp. apply list_elem_of_fmap in Hp as (e & [= -> ->] & He). by apply (da_imm_seq _ _ _ HD). }
  assert (forall q y, (q, y) ∈ version_entries (current (db_versions d)) (g_disk g) -> pik_sequence q <= g_b1 g) as Hv by apply (da_version_seq _ _ _ HD). split.
  - intros p x q y Hp Hq. apply list_elem_of_fmap in Hp as (e & [= -> ->] & He). pose proof (da_mem_seq d ops g e HD He). unfold entry_seq in *.
    apply elem_of_app in Hq as [Hq|Hq]; [apply Hi in Hq; lia|apply Hv in Hq; lia].
  - intros p x q y Hp Hq. apply Hi in Hp. apply Hv in Hq. lia.
Qed.

Lemma agrees_distinct (smin : SequenceNumber) (ops : list WriteOp) (D : versions) : agrees smin ops D -> distinct D.
Proof. intros HA p q v w Hp Hq. apply (history_distinct ops); by apply (ag_sub _ _ _ HA). Qed.

Lemma history_small (ops : list WriteOp) (p : ParsedInternalKey) (v : bytes) : Forall op_fits ops -> (p, v) ∈ history ops -> small_key p.
Proof.
  intros Hf (i & op & Hi & E0)%elem_of_history. apply (f_equal fst) in E0. cbn in E0. rewrite Forall_forall in Hf. destruct (Hf op) as [_ Hk]; [by apply list_elem_of_lookup; exists i|].
  unfold small_key. by rewrite E0, (proj2 (op_entry_seq _ _)).
Qed.

Lemma da_small (d : DB) (ops : list WriteOp) (g : Ghost) (p : ParsedInternalKey) (v : bytes) : DataOk d ops g -> (p, v) ∈ all_entries d g -> small_key p.
Proof. intros HD Hp. eapply history_small; [apply (da_fits _ _ _ HD)|]. by apply (ag_sub _ _ _ (da_agrees _ _ _ HD)) in Hp. Qed.

(** The sequence numbers a client can read at. *)
Definition readable (ops : list WriteOp) (g : Ghost) (s : SequenceNumber) : Prop := g_min g <= s <= zlen ops.

Lemma read_sequence_ok (d : DB) (ops : list WriteOp) (g : Ghost) : DataOk d ops g ->
  readable ops g (read_sequence None d) /\ read_sequence None d = zlen ops /\
  forall p s, (p, s) ∈ g_live g -> read_sequence (Some p) d = s /\ readable ops g s.
Proof.
  intros HD. cbn [read_sequence]. rewrite (da_last _ _ _ HD). pose proof (da_min _ _ _ HD). split_and!; [unfold readable; lia|done|].
  intros p s Hp. split; [by apply (si_seq _ _ (da_snap _ _ _ HD))|by apply (da_live _ _ _ HD p)].
Qed.

Lemma current_set (v : Version) (vs : VersionSet W) : current (set_current v vs) = v.
Proof. unfold current, set_current. cbn [vs_versions]. apply last_last. Qed.

Lemma maybe_schedule_eq (b : bool) (d : DB) :
  (if b then MaybeScheduleCompaction d else d) = set_scheduled (if b then negb (db_shutting_down d) || db_bg_compaction_scheduled d else db_bg_compaction_scheduled d) d.
Proof. unfold MaybeScheduleCompaction. by destruct b, d as [? ? ? ? ? ? ? ? ? ? ? ? ? ? ? ? [] []]. Qed.

(** Any read at a sequence number that is still live. *)
(** What the MANIFEST and the directory depend on is the same. *)
Definition same_numbers (vs vs' : VersionSet W) : Prop :=
  vs_next_file_number vs' = vs_next_file_number vs /\ vs_descriptor_log vs' = vs_descriptor_log vs /\ vs_log_number vs' = vs_log_number vs /\
  vs_prev_log_number vs' = vs_prev_log_number vs /\ vs_compact_pointer vs' = vs_compact_pointer vs.

Lemma get_answers (d : DB) (ops : list WriteOp) (g : Ghost) (k : nat) (ro : ReadOptions) (snapshot : option Z) (u : bytes) (s : SequenceNumber) :
  DataOk d ops g -> FilesOk (db_versions d) (db_tables d) (g_disk g) (g_map g) k ->
  read_sequence snapshot d = s -> readable ops g s -> zlen u + 8 < 2 ^ 32 ->
  let '(r, d') := DBImpl_Get (C := C) (P := P) slen zstlen sun zun dbname options ro snapshot u d in
  read_answers r (db_read ops u s) /\
  (d' = d \/ exists tables vs seeks b, d' = set_scheduled b (set_seeks seeks (set_files tables vs d)) /\ v_files (current vs) = v_files (current (db_versions d)) /\
     vs_last_sequence vs = vs_last_sequence (db_versions d) /\ FilesOk vs tables (g_disk g) (g_map g) k /\ same_numbers (db_versions d) vs /\ tc_env tables = tc_env (db_tables d)).
Proof.
  intros HD HI Es [Hs1 Hs2] Hu. pose proof (da_min _ _ _ HD) as Hmin. destruct (da_fits _ _ _ HD) as [_ Hsz]. rewrite zlen_app in Hsz. pose proof (zlen_nonneg (g_pend g)).
  assert (seq_ok s) as Hseq by (unfold seq_ok; change kMaxSequenceNumber with (2 ^ 56 - 1); lia). pose proof (da_agrees _ _ _ HD) as HA. pose proof (agrees_distinct _ _ _ HA) as Hdist.
  pose proof (history_answers (ops ++ g_pend g) u s ltac:(lia)) as Hans. apply (ag_reads _ _ _ HA) in Hans; [|done]. rewrite db_read_prefix in Hans by done.
  destruct (da_layers _ _ _ HD) as [HL1 HL2]. unfold all_entries in *. set (M1 := map version_of (g_mem g)) in *. set (M2 := map version_of (g_imm g)) in *.
  set (V := version_entries (current (db_versions d)) (g_disk g)) in *.
  unfold DBImpl_Get. cbv zeta. rewrite Es. pose proof (mem_layer_read Heq (db_mem d) (g_mem g) u s (da_mem _ _ _ HD) Hseq Hu) as Hl1. fold M1 in Hl1.
  pose proof (layer_read_answers M1 (M2 ++ V) u s _ (db_read ops u s) Hl1) as Hr1. destruct (MemTable_Get C (db_mem d) (newLookupKey u s)) as [[v|]|e];
    [split; [by apply Hr1|by left]| |split; [by apply Hr1|by left]].
  clear Hr1. destruct Hl1 as [[_ Hn1]|(? & ? & _ & _ & [])]; [|done].
  assert (answers (M2 ++ V) u s (db_read ops u s)) as Hans2.
  { eapply answers_incl; [|exact Hans]. intros p v Hv. rewrite elem_of_app. split; [|by right]. intros [Hp|Hp]; [by destruct (Hn1 p v)|done]. }
  assert (distinct (M2 ++ V)) as Hdist2 by (intros p q v w Hp Hq; apply Hdist; apply elem_of_app; by right).
  assert (layer_read M2 u s (match db_imm d with Some imm => MemTable_Get C imm (newLookupKey u s) | None => Ok None end)) as Hl2.
  { pose proof (da_imm _ _ _ HD) as Hi. destruct (db_imm d) as [imm|]; [by apply (mem_layer_read Heq)|]. left. split; [done|]. unfold M2. rewrite Hi. intros p v Hp. by apply not_elem_of_nil in Hp. }
  pose proof (layer_read_answers M2 V u s _ (db_read ops u s) Hl2) as Hr2. destruct (match db_imm d with Some imm => _ | None => _ end) as [[v|]|e];
    [split; [by apply Hr2|by left]| |split; [by apply Hr2|by left]].
  clear Hr2. destruct Hl2 as [[_ Hn2]|(? & ? & _ & _ & [])]; [|done].
  assert (answers V u s (db_read ops u s)) as Hans3.
  { eapply answers_incl; [|exact Hans2]. intros p v Hv. rewrite elem_of_app. split; [|by right]. intros [Hp|Hp]; [by destruct (Hn2 p v)|done]. }
  unfold get_from_version. cbv zeta. destruct (fi_store _ _ _ _ _ _ _ HI) as (ids & HS & Hids).
  pose proof (Version_Get_store (C := C) (P := P) (W := W) slen zstlen sun zun Heq dbname (table_options options) ids (tc_env (db_tables d)) (g_disk g) (db_tables d) (current (db_versions d))
    (file_entries (g_disk g)) ro u s HS (fi_version _ _ _ _ _ _ _ HI) Hseq) as HV.
  specialize (HV ltac:(intros lf Hlf; by apply (fi_files _ _ _ _ _ _ _ HI _ _ _ (fi_in_version _ _ _ _ _ _ _ lf HI Hlf)))).
  cbv zeta in HV. set (TS := TableCacheStore (C := C) (P := P) slen zstlen sun zun dbname (table_options options)) in *.
  pose proof (Get_stats_ok (C := C) ro (newLookupKey u s) (current (db_versions d)) (db_tables d)) as Hst.
  destruct (Version_Get ro (newLookupKey u s) (current (db_versions d)) (db_tables d)) as [[r stats] tables']. destruct HV as [Hr HS']. cbn [fst snd] in Hst.
  assert (read_answers r (db_read ops u s)) as Hread.
  { assert (distinct V) as Hdist3 by (intros p q v w Hp Hq; apply Hdist2; apply elem_of_app; by right). pose proof (vr_length _ _ (fi_rep _ _ _ _ _ _ _ HI)) as Hlen.
    destruct Hr as [[-> Hn]|(lf & p & w & Hlf & Hp & Hv & -> & Hmax)].
    - rewrite (answers_functional V u s (db_read ops u s) None Hdist3 Hans3); [eexists; split; [reflexivity|done]|]. left. split; [done|]. intros p x (lf & Hlf & Hp)%version_entries_elem; [|done]. by eapply Hn.
    - rewrite (answers_functional V u s (db_read ops u s) (entry_answer (p, w)) Hdist3 Hans3).
      + unfold read_answers, entry_answer. cbn [fst snd]. destruct (pik_type p); [eexists; split; [reflexivity|done]|done].
      + right. exists p, w. split; [|done]. split_and!; [apply version_entries_elem; [done|]; by exists lf|done|]. intros q y (lg & Hlg & Hq)%version_entries_elem Hvq; [|done]. by eapply Hmax. }
  assert (tc_env tables' = tc_env (db_tables d)) as Eenv by apply (so_env _ _ _ _ _ _ HS'). rewrite <- Eenv in HS'.
  pose proof (FilesOk_tables dbname (table_options options) (db_versions d) (db_tables d) tables' (g_disk g) (g_map g) k ids HI HS' Hids) as HI'.
  destruct (seek_file stats) as [f|] eqn:Ef.
  - destruct (UpdateStats stats (current (db_versions d)) (seeks_of d f)) as [[b v] n] eqn:Eu.
    assert (v_files v = v_files (current (db_versions d))) as Evf by (unfold UpdateStats in Eu; rewrite Ef in Eu; repeat case_match; by injection Eu as <- <- <-).
    assert (pickable v) as Hpick.
    { replace v with (snd (fst (UpdateStats stats (current (db_versions d)) (seeks_of d f)))) by (by rewrite Eu). by apply (UpdateStats_pickable); [apply HI|]. }
    split; [done|]. right. exists tables', (set_current v (db_versions d)), (<[fm_number f := n]> (db_seeks d)). eexists. split; [apply maybe_schedule_eq|]. rewrite current_set.
    split; [done|]. split; [done|]. split; [|split; [by split_and!|exact Eenv]]. apply (FilesOk_vs dbname (table_options options) (db_versions d) _ tables' (g_disk g) (g_map g) k k HI'); rewrite ?current_set; try done; cbn; lia.
  - split; [done|]. right. exists tables', (db_versions d), (db_seeks d), (db_bg_compaction_scheduled d). split; [by destruct d|]. split; [done|]. split; [done|]. split; [done|]. split; [by split_and!|exact Eenv].
Qed.

(** ** What the other steps do to the entries *)

(** Only these parts matter. *)
Lemma DataOk_same (d d' : DB) (ops : list WriteOp) (g : Ghost) :
  DataOk d ops g -> db_mem d' = db_mem d -> db_imm d' = db_imm d -> db_log d' = db_log d -> db_snapshots d' = db_snapshots d ->
  vs_last_sequence (db_versions d') = vs_last_sequence (db_versions d) -> v_files (current (db_versions d')) = v_files (current (db_versions d)) -> DataOk d' ops g.
Proof.
  intros [] Em Ei El Es Eq Ev. assert (version_entries (current (db_versions d')) (g_disk g) = version_entries (current (db_versions d)) (g_disk g)) as Ee by (unfold version_entries; by rewrite Ev).
  split; rewrite ?Em, ?Ei, ?El, ?Es, ?Eq, ?Ee; try done. unfold all_entries. by rewrite Ee.
Qed.

(** A group of operations reaches the log and the memtable. *)
Lemma data_write (d : DB) (ops new : list WriteOp) (g : Ghost) (sync : bool) :
  DataOk d ops g -> g_pend g = [] -> Forall op_fits new -> zlen (ops ++ new) < 2 ^ 31 ->
  exists log' mem' es', log_batch (batch_bytes (zlen ops + 1) new) sync (db_log d) = (Ok tt, log') /\
    InsertInto C OneIn (batch_bytes (zlen ops + 1) new) (db_mem d) = (mem', Ok tt) /\
    forall d', db_mem d' = mem' -> db_imm d' = db_imm d -> db_log d' = log' -> db_snapshots d' = db_snapshots d -> db_versions d' = db_versions d ->
      DataOk d' ops (mkGhost new es' (g_imm g) (g_disk g) (g_map g) (g_min g) (g_live g) (g_b1 g) (g_b2 g) (g_logs g)).
Proof.
  intros HD Hp Hfits Hsz. destruct HD as [Hlast [Hf0 Hs0] Hmem Hme Himm (bs & Hlog & Hbs) Hag Hord Hie Hvs Hmin Hsnap Hlive]. rewrite Hp in *. rewrite app_nil_r in *. pose proof (zlen_nonneg ops).
  assert (exists log', log_batch (batch_bytes (zlen ops + 1) new) sync (db_log d) = (Ok tt, log') /\ log_holds log' (batch_records (g_b2 g) bs ++ [batch_bytes (zlen ops + 1) new])) as (log' & El & Hlog').
  { unfold log_batch. destruct (log_holds_add (db_log d) _ (batch_bytes (zlen ops + 1) new) Hlog) as (w & -> & Hw). destruct sync; [|by exists w].
    destruct (wf_Sync_spec (dest_ w)) as (f & -> & Ec). exists (mkWriter f (block_offset_ w)). split; [done|]. destruct Hw as [H1 H2]. split; cbn; [by rewrite Ec|done]. }
  rewrite zlen_app in Hsz. pose proof (zlen_nonneg new). assert (Forall op_wf new /\ Forall (fun op => zlen (op_key op) + 8 < 2 ^ 32) new) as [Hwf Hk] by (by apply Forall_and).
  pose proof (InsertInto_batch C OneIn (zlen ops + 1) new (db_mem d) Hwf ltac:(lia) ltac:(lia) ltac:(lia)) as Ei.
  pose proof (batch_entries_wf (zlen ops + 1) new Hwf Hk ltac:(lia)) as Hew. specialize (Hew ltac:(change kMaxSequenceNumber with (2 ^ 56 - 1); lia)).
  assert (zlen (drop (Z.to_nat (g_b2 g)) ops) = zlen ops - g_b2 g) as Hdl by (unfold zlen in *; rewrite length_drop; lia).
  assert (NoDup (map entry_seq (batch_entries (zlen ops + 1) new ++ g_mem g))) as Hnd.
  { rewrite map_app. apply NoDup_app. split_and!; [apply batch_entries_NoDup| |rewrite Hme; apply batch_entries_NoDup]. intros s H1 H2.
    apply list_elem_of_fmap in H1 as (e & -> & He). apply list_elem_of_fmap in H2 as (e' & Es & He'). rewrite Hme in He'. apply batch_entries_seq in He, He'. lia. }
  destruct (mem_repr_adds (OneIn := OneIn) (db_mem d) (g_mem g) _ Hmem Hew Hnd) as (es' & Hes & Hm').
  exists log', (fold_left (mem_add_entry C OneIn) (batch_entries (zlen ops + 1) new) (db_mem d)), es'. split_and!; [done|exact Ei|]. intros d' E1 E2 E3 E4 E5.
  assert (drop (Z.to_nat (g_b2 g)) (ops ++ new) = drop (Z.to_nat (g_b2 g)) ops ++ new) as Edrop by (apply drop_app_le; unfold zlen in *; lia).
  split; cbn [g_pend g_mem g_imm g_disk g_map g_min g_live g_b1 g_b2 g_logs]; rewrite ?E1, ?E2, ?E3, ?E4, ?E5; try done.
  - split; [by apply Forall_app|]. rewrite zlen_app. lia.
  - rewrite Hes, Hme, Edrop, batch_entries_app, Hdl, Permutation_app_comm. by replace (g_b2 g + 1 + (zlen ops - g_b2 g)) with (zlen ops + 1) by lia.
  - exists (bs ++ [new]). rewrite batch_records_snoc, Hbs, Hdl, concat_app, Hbs, Edrop. cbn [concat]. rewrite app_nil_r. split; [|done]. by replace (g_b2 g + (zlen ops - g_b2 g) + 1) with (zlen ops + 1) by lia.
  - eapply agrees_perm; [|apply (agrees_write _ ops new _ Hag)]. intros p x. unfold all_entries. cbn [g_mem g_imm g_disk]. rewrite E5, Z.add_comm, !elem_of_app, Hes, map_app, elem_of_app. tauto.
  - rewrite drop_app_le by (unfold zlen in *; lia). rewrite take_app_le; [done|]. rewrite length_drop. unfold zlen in *. lia.
Qed.

(** The group is published. *)
Lemma data_publish (d d' : DB) (ops : list WriteOp) (g : Ghost) :
  DataOk d ops g -> db_mem d' = db_mem d -> db_imm d' = db_imm d -> db_log d' = db_log d -> db_snapshots d' = db_snapshots d ->
  vs_last_sequence (db_versions d') = zlen (ops ++ g_pend g) -> v_files (current (db_versions d')) = v_files (current (db_versions d)) ->
  DataOk d' (ops ++ g_pend g) (mkGhost [] (g_mem g) (g_imm g) (g_disk g) (g_map g) (g_min g) (g_live g) (g_b1 g) (g_b2 g) (g_logs g)).
Proof.
  intros [] Em Ei El Es Eq Ev. assert (version_entries (current (db_versions d')) (g_disk g) = version_entries (current (db_versions d)) (g_disk g)) as Ee by (unfold version_entries; by rewrite Ev).
  assert (zlen ops <= zlen (ops ++ g_pend g)) as Hle by (rewrite zlen_app; pose proof (zlen_nonneg (g_pend g)); lia).
  split; cbn [g_pend g_mem g_imm g_disk g_map g_min g_live g_b1 g_b2 g_logs]; rewrite ?app_nil_r, ?Em, ?Ei, ?El, ?Es, ?Eq, ?Ee; try done; try lia.
  - unfold all_entries in *. cbn [g_mem g_imm g_disk]. by rewrite Ee.
  - intros p s Hp. specialize (da_live0 p s Hp). lia.
Qed.

(** The memtable becomes the immutable one, with a new log. *)
Lemma data_switch (d d' : DB) (ops : list WriteOp) (g : Ghost) (lfile : W) (logs : list (Z * list (list WriteOp))) :
  DataOk d ops g -> g_pend g = [] -> db_imm d = None -> wf_contents lfile = [] ->
  db_mem d' = new_mem -> db_imm d' = Some (db_mem d) -> db_log d' = newWriter lfile -> db_snapshots d' = db_snapshots d ->
  vs_last_sequence (db_versions d') = vs_last_sequence (db_versions d) -> v_files (current (db_versions d')) = v_files (current (db_versions d)) ->
  DataOk d' ops (mkGhost [] [] (g_mem g) (g_disk g) (g_map g) (g_min g) (g_live g) (g_b2 g) (zlen ops) logs).
Proof.
  intros HD Hp Hi Hlf Em Ei El Es Eq Ev. pose proof (fun e => da_mem_seq d ops g e HD) as Hms. destruct HD. rewrite Hp in *. rewrite app_nil_r in *. rewrite Hi in *.
  assert (version_entries (current (db_versions d')) (g_disk g) = version_entries (current (db_versions d)) (g_disk g)) as Ee by (unfold version_entries; by rewrite Ev).
  assert (drop (Z.to_nat (zlen ops)) ops = []) as Edr by (apply drop_ge; unfold zlen; lia).
  split; cbn [g_pend g_mem g_imm g_disk g_map g_min g_live g_b1 g_b2 g_logs]; rewrite ?app_nil_r, ?Em, ?Ei, ?El, ?Es, ?Eq, ?Ee, ?Edr; try done; try lia.
  - apply mem_repr_new.
  - exists []. split; [by apply log_holds_new|done].
  - unfold all_entries in *. cbn [g_mem g_imm g_disk]. rewrite Ee. by rewrite da_imm0 in da_agrees0.
  - rewrite da_mem_entries0. by rewrite take_ge by (rewrite length_drop; unfold zlen in *; lia).
  - intros p x Hx. specialize (da_version_seq0 p x Hx). lia.
Qed.

(** The immutable memtable became a table. *)
Lemma data_flush (d d' : DB) (ops : list WriteOp) (g : Ghost) (D : versions) (disk' : Disk) (M' : file_map) (logs : list (Z * list (list WriteOp))) :
  DataOk d ops g -> length (v_files (current (db_versions d))) = kNumLevels -> length (v_files (current (db_versions d'))) = kNumLevels ->
  D ≡ₚ map version_of (g_imm g) ->
  (forall p x, version_has (current (db_versions d')) disk' p x <-> (p, x) ∈ D \/ version_has (current (db_versions d)) (g_disk g) p x) ->
  db_mem d' = db_mem d -> db_imm d' = None -> db_log d' = db_log d -> db_snapshots d' = db_snapshots d ->
  vs_last_sequence (db_versions d') = vs_last_sequence (db_versions d) ->
  DataOk d' ops (mkGhost (g_pend g) (g_mem g) [] disk' M' (g_min g) (g_live g) (g_b2 g) (g_b2 g) logs).
Proof.
  intros HD Hl Hl' HDp Hhas Em Ei El Es Eq. pose proof (da_imm_seq d ops g HD) as His. destruct HD as [Hlast Hf Hmem Hme Himm Hlog Hag Hord Hie Hvs Hmin Hsnap Hlive].
  assert (forall p x, (p, x) ∈ version_entries (current (db_versions d')) disk' <-> (p, x) ∈ map version_of (g_imm g) \/ (p, x) ∈ version_entries (current (db_versions d)) (g_disk g)) as Hent.
  { intros p x. rewrite !version_entries_elem by done. by rewrite Hhas, HDp. }
  split; cbn [g_pend g_mem g_imm g_disk g_map g_min g_live g_b1 g_b2 g_logs]; rewrite ?Em, ?Ei, ?El, ?Es, ?Eq; try done; try lia.
  - eapply agrees_perm; [|exact Hag]. intros p x. unfold all_entries. cbn [g_mem g_imm g_disk map app]. rewrite !elem_of_app, Hent. tauto.
  - by rewrite Z.sub_diag.
  - intros p x [Hp|Hp]%Hent; [apply list_elem_of_fmap in Hp as (e & [= -> ->] & He); specialize (His e He); unfold entry_seq in His; lia|]. specialize (Hvs p x Hp). lia.
Qed.

(** The entries of a version are its input entries and the others. *)
Lemma version_split (v : Version) (disk : Disk) (c : Compaction) (D : versions) :
  VersionOk (C := C) v (file_entries disk) -> length (v_files v) = kNumLevels -> inputs_closed (C := C) v c -> (c_level c + 1 < kNumLevels)%nat ->
  (forall p x, (p, x) ∈ D <-> exists lf, is_input c lf /\ (p, x) ∈ file_entries disk (snd lf)) ->
  exists R : versions, (forall p x, (p, x) ∈ version_entries v disk <-> (p, x) ∈ R \/ (p, x) ∈ D) /\
    forall p x, (p, x) ∈ R <-> exists lf, stays v (is_input c) lf /\ (p, x) ∈ file_entries disk (snd lf).
Proof.
  intros Hv Hlen Hc Hl HD. exists (filter (fun e => e ∉ D) (version_entries v disk)). split; intros p x; rewrite list_elem_of_filter, version_entries_elem by done.
  - split; [intros Hp; destruct (decide ((p, x) ∈ D)); [by right|by left]|]. intros [[_ Hp]|(lf & Hi & Hp)%HD]; [done|]. exists lf. split; [|done]. by apply (input_in_version v c Hlen Hc Hl).
  - split.
    + intros (Hn & lf & Hlf & Hp). exists lf. split; [|done]. split; [done|]. intros Hi. apply Hn, HD. by exists lf.
    + intros (lf & [Hlf Hni] & Hp). split; [|by exists lf]. intros (lg & Hi & Hq)%HD. apply Hni.
      by rewrite (files_disjoint v (file_entries disk) lf lg p x x Hv Hlf (input_in_version v c Hlen Hc Hl lg Hi) Hp Hq).
Qed.

Lemma data_no_twins (d : DB) (ops : list WriteOp) (g : Ghost) :
  DataOk d ops g -> length (v_files (current (db_versions d))) = kNumLevels -> no_twins (current (db_versions d)) (g_disk g).
Proof.
  intros HD Hlen lf lg p q x y Hlf Hlg Hp Hq Eu Es. pose proof (agrees_distinct _ _ _ (da_agrees _ _ _ HD)) as Hdist.
  assert ((p, x) = (q, y)) as E0; [|by injection E0]. apply Hdist; [| |done|done]; unfold all_entries; rewrite !elem_of_app; right; right; apply version_entries_elem; [done|by exists lf|done|by exists lg].
Qed.

(** The oldest sequence number that a compaction respects. *)
Lemma smallest_snapshot_ok (d : DB) (ops : list WriteOp) (g : Ghost) : DataOk d ops g ->
  let s := smallest_snapshot (db_snapshots d) (db_versions d) in
  g_min g <= s <= zlen ops /\ forall p q, (p, q) ∈ g_live g -> s <= q.
Proof.
  intros HD. unfold smallest_snapshot. pose proof (da_snap _ _ _ HD) as Hs. pose proof (da_min _ _ _ HD). destruct (sl_oldest (db_snapshots d) (g_live g) Hs) as [[-> ->]|(p & q & rest & Hl & -> & ->)].
  - rewrite (da_last _ _ _ HD). split; [lia|]. intros p q Hp. by apply not_elem_of_nil in Hp.
  - rewrite Hl. split; [apply (da_live _ _ _ HD p); rewrite Hl; by left|]. pose proof (si_sorted _ _ Hs) as Hso. rewrite Hl in Hso. cbn in Hso. apply StronglySorted_inv in Hso as [_ Hall].
    rewrite List.Forall_forall in Hall. intros p' q' [[= -> ->]|Hp']%elem_of_cons; [lia|]. apply Hall, in_map_iff. exists (p', q'). split; [done|by apply list_elem_of_In].
Qed.

(** A compaction: what readers can see stays. *)
Lemma data_compact (d d' : DB) (ops : list WriteOp) (g : Ghost) (k : nat) (c : Compaction) (D out : versions) (disk' : Disk) (M' : file_map) :
  let smallest := smallest_snapshot (db_snapshots d) (db_versions d) in
  DataOk d ops g -> FilesOk (db_versions d) (db_tables d) (g_disk g) (g_map g) k -> inputs_closed (C := C) (current (db_versions d)) c -> (c_level c + 1 < kNumLevels)%nat ->
  D ≡ₚ concat (map (file_entries (g_disk g)) (c_inputs0 c ++ c_inputs1 c)) -> keys_sorted (C := InternalKeyComparator C) (internal_entries D) ->
  out = compaction_output (C := C) smallest c D -> length (v_files (current (db_versions d'))) = kNumLevels -> compacted c out d d' (g_disk g) disk' ->
  db_mem d' = db_mem d -> db_imm d' = db_imm d -> db_log d' = db_log d -> db_snapshots d' = db_snapshots d -> vs_last_sequence (db_versions d') = vs_last_sequence (db_versions d) ->
  DataOk d' ops (mkGhost (g_pend g) (g_mem g) (g_imm g) disk' M' smallest (g_live g) (g_b1 g) (g_b2 g) (g_logs g)).
Proof.
  intros smallest HD HI Hc Hl Hperm Hsrt Hout Hlen' Hcomp Em Ei El Es Eq. pose proof (vr_length _ _ (fi_rep _ _ _ _ _ _ _ HI)) as Hlen. pose proof (fi_version _ _ _ _ _ _ _ HI) as Hv.
  assert (forall p x, (p, x) ∈ D <-> exists lf, is_input c lf /\ (p, x) ∈ file_entries (g_disk g) (snd lf)) as HDi by (intros p x; by rewrite Hperm, inputs_elem).
  destruct (version_split (current (db_versions d)) (g_disk g) c D Hv Hlen Hc Hl HDi) as (R & Hsplit & HR). destruct (smallest_snapshot_ok d ops g HD) as [Hsm Hlv]. fold smallest in Hsm, Hlv.
  pose proof (data_no_twins d ops g HD Hlen) as Htw. destruct (da_layers d ops g HD) as [HL1 HL2]. pose proof (agrees_distinct _ _ _ (da_agrees _ _ _ HD)) as Hdist.
  assert (forall p x, (p, x) ∈ out -> (p, x) ∈ D) as Hsub by (intros p x Hp; rewrite Hout in Hp; eapply elem_of_sublist; [exact Hp|apply compact_ref_sublist]).
  assert (forall p x, (p, x) ∈ version_entries (current (db_versions d')) disk' <-> (p, x) ∈ R \/ (p, x) ∈ out) as Hent.
  { intros p x. rewrite version_entries_elem by done. rewrite (Hcomp p x), HR. tauto. }
  set (L := map version_of (g_mem g) ++ map version_of (g_imm g)).
  assert (forall p x, (p, x) ∈ L -> forall q y, (q, y) ∈ version_entries (current (db_versions d)) (g_disk g) -> pik_sequence q < pik_sequence p) as HLnew.
  { intros p x [Hp|Hp]%elem_of_app q y Hq; [apply (HL1 p x q y Hp); apply elem_of_app; by right|by apply (HL2 p x q y)]. }
  destruct HD as [Hlast Hf Hmem Hme Himm Hlog Hag Hord His Hvs Hmin Hsnap Hlive].
  split; cbn [g_pend g_mem g_imm g_disk g_map g_min g_live g_b1 g_b2 g_logs]; rewrite ?Em, ?Ei, ?El, ?Es, ?Eq; try done; try lia.
  - destruct Hag as [Hag1 Hag2]. unfold all_entries in *. cbn [g_mem g_imm g_disk]. split.
    + intros p x Hp. apply Hag1. rewrite !elem_of_app, Hent in Hp. rewrite !elem_of_app, Hsplit. specialize (Hsub p x). tauto.
    + intros u s r Hs Ha. apply Hag2 in Ha; [|lia]. apply (answers_incl ((L ++ R) ++ out)); [intros p x _; unfold L; rewrite !elem_of_app, Hent; tauto|]. rewrite Hout. unfold compaction_output.
      assert (forall p x, (p, x) ∈ D -> (p, x) ∈ version_entries (current (db_versions d)) (g_disk g)) as HDv by (intros p x Hp; apply Hsplit; by right).
      apply (compact_answers (C := C)); [exact Heq| |exact Hsrt| |exact Hs| |].
      * intros p x (lf & Hi & Hp)%HDi. by apply (co_seq _ _ (proj2 (vo_files _ _ Hv lf (input_in_version _ _ Hlen Hc Hl lf Hi))) p x).
      * intros p q x y Hp Hq. apply Hdist; rewrite !elem_of_app; right; right; by apply HDv.
      * intros p q x y Hp Hq Eu Hb. apply elem_of_app in Hq as [Hq|(lg & Hst & Hq)%HR]; [by apply (HLnew q y Hq p x), HDv|].
        apply HDi in Hp as (lf & Hi & Hp). rewrite (ic_version _ _ Hc) in Hb. apply (base_newer (current (db_versions d)) (file_entries (g_disk g)) c Hv Hlen Hc Hl Htw lg lf q p y x Hst Hi Hq Hp (eq_sym Eu) Hb).
      * eapply answers_incl; [|exact Ha]. intros p x _. unfold L. rewrite !elem_of_app, Hsplit. tauto.
  - intros p x [Hp|Hp]%Hent; apply (Hvs p x), Hsplit; [by left|right; by apply Hsub].
  - intros p q Hp. split; [by apply (Hlv p)|by apply (Hlive p q)].
Qed.
End Data.
