(* ===== verification/DbDisk.v ===== *)
(** * DbDisk: what a database has on disk

    [Recorded]: CURRENT names a MANIFEST, whose records give the files of the current
    version, and whose last record gives counters that are not ahead.  [DiskOk]: the
    logs that a recovery will read hold the operations that are in no table, in order,
    and no other file looks like such a log.  Table files, new logs and the edits of
    flushes and compactions keep this. *)

From stdpp Require Import sorting fin_sets.
From S2P Require Import Prelude Random Status Coding Comparator Logging FilterPolicy DbFormat SkipList MemTable WriteBatch Env LogFile Format Iterator Block Merger FilterBlock.
From S2P Require Import TwoLevelIterator TableBuilder Cache Table VersionEdit FileName Children DBIter Version VersionRead VersionBuilder VersionSet Manifest Compaction.
From S2P Require Import TableCache Snapshot History Iterates TableFiles CompactionRun VersionChange CompactionWork DbImpl DbStep DbFiles DbData.
From Stdlib Require Import Sorting.Sorted.

Section Disk.
Context {C : Comparator} {CL : ComparatorLaws C} (Hname : zlen (lit (Name (Comparator := C))) < 2 ^ 32).
Context {E W SF F L : Type} {FS : FileSystem E W SF} {WF : WritableFile W} {WL : WritableFileLaws W} {HF : HandleFS E W} {FSL : FileSystemLaws E W SF}.
Context {QF : SequentialFile SF} {QL : SequentialFileLaws SF} {FR : FileReadLaws E W SF} {DF : DirectoryFS E L} {DL : DirectoryLaws E W SF L} {LL : ListingLaws E W SF L}.
Context (dbname : bytes).

Abbreviation reads := (fs_reads (E := E) (W := W) (F := SF)).
Abbreviation log_file n := (LogFileName dbname n).

(** ** The files that the operations touch *)

Definition manifest_files (m : Z) (x : bytes) : Prop := x = DescriptorFileName dbname m \/ x = TempFileName dbname m \/ x = CurrentFileName dbname.

Lemma manifest_names_differ (m : Z) : num_ok m -> DescriptorFileName dbname m <> TempFileName dbname m /\ DescriptorFileName dbname m <> CurrentFileName dbname /\ TempFileName dbname m <> CurrentFileName dbname.
Proof.
  intros Hm. destruct (file_names_parse dbname m Hm) as (_ & _ & _ & H1 & H2 & H3 & _). split_and!; intros E0; [rewrite E0 in H2|rewrite E0 in H2|rewrite E0 in H1]; congruence.
Qed.

Lemma SetCurrentFile_reads (m : Z) (env : E) : num_ok m ->
  exists env', SetCurrentFile dbname m env = (Ok tt, env') /\ evolves (W := W) (manifest_files m) env env' /\ reads env' (CurrentFileName dbname) (current_contents dbname m).
Proof.
  intros Hm. destruct (manifest_names_differ m Hm) as (_ & _ & Hne). unfold SetCurrentFile. destruct (fs_NewWritableFile_spec (TempFileName dbname m) env) as (t & env1 & E1 & Ht). rewrite E1.
  destruct (wf_Append_spec (current_contents dbname m) t) as (t1 & -> & C1). cbn [or_remove]. destruct (wf_Sync_spec t1) as (t2 & -> & C2). cbn [or_remove]. destruct (wf_Close_spec t2) as (t3 & -> & C3). cbn [or_remove].
  set (env2 := fs_Written (TempFileName dbname m) t3 env1). destruct (fs_RenameFile_spec (TempFileName dbname m) (CurrentFileName dbname) t3 env1) as (env3 & E3). fold env2 in E3. rewrite E3. cbn [or_remove].
  assert (manifest_files m (TempFileName dbname m)) as Htmp by (right; by left). assert (manifest_files m (CurrentFileName dbname)) as Hcur by (right; by right).
  exists env3. split_and!; [done| |].
  - apply (ev_new _ (TempFileName dbname m)); [done|]. rewrite E1. cbn [snd]. apply (ev_written _ (TempFileName dbname m) t3); [done|]. fold env2.
    apply (ev_rename _ (TempFileName dbname m) (CurrentFileName dbname)); [done|done|]. rewrite E3. constructor.
  - replace env3 with (snd (fs_RenameFile (TempFileName dbname m) (CurrentFileName dbname) env2)) by (by rewrite E3). apply fs_RenameFile_reads; [done|].
    replace (current_contents dbname m) with (wf_contents t3) by (by rewrite C3, C2, C1, Ht). apply fs_Written_reads.
Qed.

(** The version set after an edit was logged. *)
Definition edited (vs : VersionSet W) (edit : VersionEdit) (w : Writer W) : VersionSet W :=
  let e := prepare_edit vs edit in
  mkVersionSet (vs_next_file_number vs) (vs_manifest_file_number vs) (vs_last_sequence vs) (default 0 (ve_log_number e)) (default 0 (ve_prev_log_number e)) (Some w)
    (vs_versions vs ++ [next_version (C := C) vs e]) (edit_pointers (vs_compact_pointer vs) e).

Definition first_snapshot_of (vs : VersionSet W) (edit : VersionEdit) : VersionEdit :=
  snapshot_edit (C := C) (set_pointers (edit_pointers (vs_compact_pointer vs) (prepare_edit vs edit)) vs).

(** Without an open MANIFEST, a new one is made, and CURRENT names it. *)
Lemma LogAndApply_new (edit : VersionEdit) (vs : VersionSet W) (env : E) : vs_descriptor_log vs = None -> num_ok (vs_manifest_file_number vs) ->
  exists w env', LogAndApply (C := C) dbname edit vs env = (Ok tt, prepare_edit vs edit, edited vs edit w, env') /\
    log_holds w (map (fun e => enc e) [first_snapshot_of vs edit; prepare_edit vs edit]) /\ evolves (W := W) (manifest_files (vs_manifest_file_number vs)) env env' /\
    reads env' (CurrentFileName dbname) (current_contents dbname (vs_manifest_file_number vs)).
Proof.
  intros Hd Hm. set (e := prepare_edit vs edit). set (cp := edit_pointers (vs_compact_pointer vs) e). set (m := vs_manifest_file_number vs) in *.
  assert (bld_compact_pointer (Builder_Apply (C := C) (newBuilder (vs_compact_pointer vs) (current vs)) e) = cp) as Hcp by exact (pointers_of_edits (C := C) [e] (newBuilder (vs_compact_pointer vs) (current vs))).
  unfold LogAndApply. fold e. cbv zeta. rewrite Hcp. unfold open_manifest. cbn [set_pointers vs_descriptor_log vs_manifest_file_number]. rewrite Hd. fold m.
  destruct (fs_NewWritableFile_spec (DescriptorFileName dbname m) env) as (f & env1 & E1 & Hf). rewrite E1. unfold WriteSnapshot.
  destruct (log_holds_add (newWriter f) [] (enc (first_snapshot_of vs edit)) (log_holds_new f Hf)) as (w1 & E2 & Hw1).
  change (snapshot_edit (set_pointers cp vs)) with (first_snapshot_of vs edit). rewrite E2. cbn [result_status StatusOK].
  destruct (log_edit_ok w1 _ (enc e) Hw1) as (w & E3 & Hw). rewrite E3. cbn [StatusOK].
  destruct (SetCurrentFile_reads m (fs_Written (DescriptorFileName dbname m) (dest_ w) env1) Hm) as (env2 & E4 & Hev & Hr). change (vs_manifest_file_number (set_pointers cp vs)) with m. rewrite E4. cbn [result_status StatusOK].
  exists w, env2. split_and!; [reflexivity|exact Hw| |exact Hr]. apply (ev_new _ (DescriptorFileName dbname m)); [by left|]. rewrite E1. cbn [snd]. apply (ev_written _ (DescriptorFileName dbname m) (dest_ w)); [by left|exact Hev].
Qed.

(** Otherwise the edit is one more record. *)
Lemma LogAndApply_more (edit : VersionEdit) (vs : VersionSet W) (env : E) (w : Writer W) (rs : list bytes) : vs_descriptor_log vs = Some w -> log_holds w rs ->
  exists w', LogAndApply (C := C) dbname edit vs env = (Ok tt, prepare_edit vs edit, edited vs edit w', env) /\ log_holds w' (rs ++ [enc (prepare_edit vs edit)]).
Proof.
  intros Hd Hw. set (e := prepare_edit vs edit). set (cp := edit_pointers (vs_compact_pointer vs) e).
  assert (bld_compact_pointer (Builder_Apply (C := C) (newBuilder (vs_compact_pointer vs) (current vs)) e) = cp) as Hcp by exact (pointers_of_edits (C := C) [e] (newBuilder (vs_compact_pointer vs) (current vs))).
  unfold LogAndApply. fold e. cbv zeta. rewrite Hcp. unfold open_manifest. cbn [set_pointers vs_descriptor_log]. rewrite Hd.
  cbn [StatusOK]. destruct (log_edit_ok w rs (enc e) Hw) as (w' & -> & Hw'). exists w'. split; [reflexivity|exact Hw'].
Qed.
(** ** The MANIFEST *)

(** The MANIFEST that CURRENT names: its number, its records, and the counters of the last one. *)
Record Manifest := mkManifest { mn_number : Z; mn_snap : VersionEdit; mn_edits : list VersionEdit; mn_next : Z; mn_last : Z }.

Definition mn_records (x : Manifest) : list bytes := map (fun e => enc e) (mn_snap x :: mn_edits x).
Definition mn_ids (x : Manifest) : list (nat * Z) := new_ids (mn_snap x :: mn_edits x).

Definition pointers_ok (vs : VersionSet W) : Prop := length (vs_compact_pointer vs) = kNumLevels /\ forall p, p ∈ vs_compact_pointer vs -> zlen p < 2 ^ 32.

(** [M] are the files of the current version, and [b] the last operation that is in a table. *)
Record Recorded (x : Manifest) (M : file_map) (b : Z) (vs : VersionSet W) (env : E) : Prop := {
  rd_number : num_ok (mn_number x);
  rd_current : reads env (CurrentFileName dbname) (current_contents dbname (mn_number x));
  rd_manifest : match vs_descriptor_log vs with
    | Some w => log_holds w (mn_records x)
    | None => exists data o, reads env (DescriptorFileName dbname (mn_number x)) data /\ Layout 0 (mn_records x) data o
    end;
  rd_ok : Forall (loggable (C := C)) (mn_snap x :: mn_edits x);
  rd_snap : ve_deleted_files (mn_snap x) = [] /\ NoDup (map new_id (ve_new_files (mn_snap x)));
  rd_fresh : edits_fresh (apply_edit ∅ (mn_snap x)) (mn_edits x);
  rd_map : fold_left apply_edit (mn_edits x) (apply_edit ∅ (mn_snap x)) = M;
  rd_counters : exists e, last (mn_edits x) = Some e /\ ve_next_file_number e = Some (mn_next x) /\ ve_last_sequence e = Some (mn_last x) /\
    ve_log_number e = Some (vs_log_number vs) /\ ve_prev_log_number e = Some 0;
  rd_next : 0 <= mn_next x <= vs_next_file_number vs;
  rd_last : b <= mn_last x <= vs_last_sequence vs;
  rd_history : forall l n, (l, n) ∈ mn_ids x -> n < mn_next x /\ forall l' f, M !! (l', n) = Some f -> (l <= l')%nat;
  rd_unique : forall l l' n f f', M !! (l, n) = Some f -> M !! (l', n) = Some f' -> l = l';
  rd_meta : forall i f, M !! i = Some f -> meta_ok f;
  rd_pointers : pointers_ok vs;
  rd_log : num_ok (vs_log_number vs);
  rd_prev : vs_prev_log_number vs = 0
}.

Lemma rd_ids (x : Manifest) (M : file_map) (b : Z) (vs : VersionSet W) (env : E) (i : nat * Z) (f : FileMetaData) :
  Recorded x M b vs env -> M !! i = Some f -> i ∈ mn_ids x.
Proof.
  intros HR Hf. rewrite <- (rd_map _ _ _ _ _ HR) in Hf. change (fold_left apply_edit (mn_snap x :: mn_edits x) ∅ !! i = Some f) in Hf. apply apply_edits_dom in Hf as [Hf|[g Hg]]; [done|by rewrite lookup_empty in Hg].
Qed.

Lemma rd_files (x : Manifest) (M : file_map) (b : Z) (vs : VersionSet W) (env : E) (l : nat) (n : Z) (f : FileMetaData) :
  Recorded x M b vs env -> M !! (l, n) = Some f -> n < mn_next x.
Proof. intros HR Hf. by apply (rd_history _ _ _ _ _ HR l n (rd_ids _ _ _ _ _ _ _ HR Hf)). Qed.

Lemma table_not_manifest (m : Z) (x : bytes) : num_ok m -> manifest_files m x -> ~ table_files dbname x.
Proof.
  intros Hm Hx (n & Hn & ->). destruct (TableFileName_other dbname n m Hn Hm) as (_ & H1 & H2 & H3). by destruct Hx as [E0|[E0|E0]].
Qed.

(** The counters go up, and table files come and go. *)
Lemma Recorded_frame (x : Manifest) (M : file_map) (b b' : Z) (vs vs' : VersionSet W) (env env' : E) (S : bytes -> Prop) :
  Recorded x M b vs env -> vs_descriptor_log vs' = vs_descriptor_log vs -> vs_log_number vs' = vs_log_number vs -> vs_prev_log_number vs' = vs_prev_log_number vs ->
  pointers_ok vs' ->
  vs_next_file_number vs <= vs_next_file_number vs' -> vs_last_sequence vs <= vs_last_sequence vs' -> b' <= b ->
  evolves (W := W) S env env' -> (forall y, manifest_files (mn_number x) y -> ~ S y) -> Recorded x M b' vs' env'.
Proof.
  intros [] Ed El Ep Hp Hn Hs Hb He HS. split; rewrite ?Ed, ?El, ?Ep; try done; [| |lia|lia].
  - eapply evolves_reads; [exact He|apply HS; right; by right|done].
  - destruct (vs_descriptor_log vs) as [w|]; [done|]. destruct rd_manifest0 as (data & o & Hr & HL). exists data, o. split; [|done]. eapply evolves_reads; [exact He|apply HS; by left|done].
Qed.

(** Only what can be read matters. *)
Lemma Recorded_reads (x : Manifest) (M : file_map) (b : Z) (vs : VersionSet W) (env env' : E) :
  Recorded x M b vs env -> (forall name data, reads env name data -> reads env' name data) -> Recorded x M b vs env'.
Proof.
  intros [] Hr. split; try done; [by apply Hr|]. destruct (vs_descriptor_log vs) as [w|]; [done|]. destruct rd_manifest0 as (data & o & ? & ?). exists data, o. split; [by apply Hr|done].
Qed.

(** The files after an edit that is [edit_good]. *)
Lemma edit_good_lookup (vs vs1 : VersionSet W) (M : file_map) (edit : VersionEdit) (l : nat) (n : Z) (f : FileMetaData) : edit_good vs vs1 M edit ->
  apply_edit M edit !! (l, n) = Some f <-> (exists lv g, (lv, g) ∈ ve_new_files edit /\ new_id (lv, g) = (l, n) /\ f = with_allowed_seeks g) \/
    ((l, n) ∉ map new_id (ve_new_files edit) /\ (Z.of_nat l, n) ∉ ve_deleted_files edit /\ M !! (l, n) = Some f).
Proof.
  intros HG. destruct (edit_ok_levels edit (eg_ok _ _ _ _ HG)) as [Hdel _]. unfold apply_edit. rewrite add_files_lookup by apply (eg_nodup _ _ _ _ HG). rewrite (del_files_lookup _ _ _ _ Hdel). split.
  - intros [([lv g] & Hp & Eid & Ef)|[Hn Hf]]; [left; by exists lv, g|right]. case_bool_decide as Hd; done.
  - intros [(lv & g & Hp & Eid & Ef)|(Hn & Hd & Hf)]; [left; by exists (lv, g)|right]. split; [done|]. by rewrite bool_decide_eq_false_2.
Qed.

(** A new file: its number is new, or the file was on a lower level. *)
Lemma edit_good_new (x : Manifest) (vs vs1 : VersionSet W) (env : E) (M : file_map) (b : Z) (edit : VersionEdit) (l : nat) (n : Z) :
  Recorded x M b vs1 env -> mn_next x <= vs_next_file_number vs -> edit_good vs vs1 M edit -> (l, n) ∈ map new_id (ve_new_files edit) ->
  n < vs_next_file_number vs1 /\ (forall l', (l', n) ∈ mn_ids x -> (l' < l)%nat) /\ (forall l' g, M !! (l', n) = Some g -> (l' < l)%nat /\ (Z.of_nat l', n) ∈ ve_deleted_files edit).
Proof.
  intros HR Hle HG Hin. apply list_elem_of_fmap in Hin as ([lv f] & [= -> ->] & Hf). destruct (edit_ok_levels edit (eg_ok _ _ _ _ HG)) as [_ Hadd]. specialize (Hadd _ Hf). unfold level_ok in Hadd. cbn [fst snd] in *.
  pose proof (rd_next _ _ _ _ _ HR). destruct (eg_new _ _ _ _ HG lv f Hf) as [Hn|(l0 & g & Hg & Hlt & Hd)].
  - split_and!; [lia| |].
    + intros l' Hl'. apply (rd_history _ _ _ _ _ HR) in Hl' as [Hl' _]. lia.
    + intros l' g Hg. apply (rd_files _ _ _ _ _ _ _ _ HR) in Hg. lia.
  - split_and!.
    + apply (rd_files _ _ _ _ _ _ _ _ HR) in Hg. lia.
    + intros l' Hl'. apply (rd_history _ _ _ _ _ HR) in Hl' as [_ Hl']. specialize (Hl' _ _ Hg). lia.
    + intros l' g' Hg'. pose proof (rd_unique _ _ _ _ _ HR _ _ _ _ _ Hg Hg') as <-. split; [lia|done].
Qed.
(** The records that an edit adds to the MANIFEST, or a new one. *)
Lemma edit_manifest (x : Manifest) (M : file_map) (b : Z) (vs vs1 : VersionSet W) (env : E) (edit : VersionEdit) :
  let e := prepare_edit vs1 edit in
  Recorded x M b vs1 env -> mn_next x <= vs_next_file_number vs -> edit_good vs vs1 M edit -> version_rep (C := C) (current vs1) M -> num_ok (vs_manifest_file_number vs1) -> loggable (C := C) e ->
  exists x' w env', LogAndApply (C := C) dbname edit vs1 env = (Ok tt, e, edited vs1 edit w, env') /\ evolves (W := W) (manifest_files (vs_manifest_file_number vs1)) env env' /\
    mn_next x' = vs_next_file_number vs1 /\ mn_last x' = vs_last_sequence vs1 /\ last (mn_edits x') = Some e /\
    (num_ok (mn_number x') /\ reads env' (CurrentFileName dbname) (current_contents dbname (mn_number x')) /\ log_holds w (mn_records x')) /\
    Forall (loggable (C := C)) (mn_snap x' :: mn_edits x') /\ (ve_deleted_files (mn_snap x') = [] /\ NoDup (map new_id (ve_new_files (mn_snap x')))) /\
    edits_fresh (apply_edit ∅ (mn_snap x')) (mn_edits x') /\ fold_left apply_edit (mn_edits x') (apply_edit ∅ (mn_snap x')) = apply_edit M edit /\
    forall l n, (l, n) ∈ mn_ids x' -> (l, n) ∈ map new_id (ve_new_files edit) \/ (n < mn_next x /\ forall l' f, M !! (l', n) = Some f -> (l <= l')%nat).
Proof.
  intros e HR Hle HG Hrep Hm He. pose proof (fun l n => edit_good_new x vs vs1 env M b edit l n HR Hle HG) as Hnew. destruct (prepare_edit_fields vs1 edit) as (_ & _ & Ed & En & _). fold e in Ed, En.
  assert (forall M, apply_edit M e = apply_edit M edit) as Eap by (intros M'; unfold apply_edit; by rewrite Ed, En). pose proof (eg_nodup _ _ _ _ HG) as Hnd.
  assert (new_ids [e] = map new_id (ve_new_files edit)) as Eids by (unfold new_ids; cbn [map concat]; by rewrite app_nil_r, En).
  destruct (vs_descriptor_log vs1) as [w|] eqn:Edesc.
  - pose proof (rd_manifest _ _ _ _ _ HR) as Hman. rewrite Edesc in Hman. destruct (LogAndApply_more edit vs1 env w (mn_records x) Edesc Hman) as (w' & EL & Hw').
    exists (mkManifest (mn_number x) (mn_snap x) (mn_edits x ++ [e]) (vs_next_file_number vs1) (vs_last_sequence vs1)), w', env. unfold mn_records, mn_ids. cbn [mn_number mn_snap mn_edits mn_next mn_last].
    change (mn_snap x :: mn_edits x ++ [e]) with ((mn_snap x :: mn_edits x) ++ [e]). split_and!; try done; try apply HR.
    + constructor.
    + apply last_snoc.
    + by rewrite map_app.
    + apply Forall_app. split; [apply HR|by constructor].
    + destruct (rd_fresh _ _ _ _ _ HR) as [Hf1 Hf2]. split; rewrite new_ids_app, Eids.
      * apply NoDup_app. split_and!; [done| |done]. intros [l n] Hi Hi'. apply Hnew in Hi' as (_ & Hi' & _). specialize (Hi' l). unfold mn_ids, new_ids in Hi'. cbn [map concat] in Hi'. rewrite elem_of_app in Hi'. specialize (Hi' (or_intror Hi)). lia.
      * intros [l n] [Hi|Hi]%elem_of_app; [by apply Hf2|]. destruct (apply_edit ∅ (mn_snap x) !! (l, n)) as [f|] eqn:Ef; [|done]. apply (apply_edits_dom [mn_snap x]) in Ef as [Ef|[g Hg]]; [|by rewrite lookup_empty in Hg].
        apply Hnew in Hi as (_ & Hi & _). specialize (Hi l). unfold mn_ids, new_ids in Hi, Ef. cbn [map concat] in Hi, Ef. rewrite app_nil_r in Ef. rewrite elem_of_app in Hi. specialize (Hi (or_introl Ef)). lia.
    + rewrite fold_left_app. cbn [fold_left]. by rewrite (rd_map _ _ _ _ _ HR).
    + intros l n. rewrite new_ids_app, Eids. intros [Hi|Hi]%elem_of_app; [right; by apply (rd_history _ _ _ _ _ HR)|by left].
  - destruct (LogAndApply_new edit vs1 env Edesc Hm) as (w & env' & EL & Hw & Hev & Hr). set (snap := first_snapshot_of vs1 edit) in *.
    assert (forall level f, f ∈ files_ (current vs1) level -> meta_ok f) as Hmeta by (intros level f Hf; apply (vr_files _ _ Hrep) in Hf; by eapply (rd_meta _ _ _ _ _ HR)).
    destruct (snapshot_fields (C := C) (set_pointers (edit_pointers (vs_compact_pointer vs1) e) vs1)) as (Es1 & _ & _ & _ & _ & Es2 & Es3). change (snapshot_edit (set_pointers (edit_pointers (vs_compact_pointer vs1) e) vs1)) with snap in Es1, Es2, Es3. change (current (set_pointers _ vs1)) with (current vs1) in Es3.
    assert (apply_edit ∅ snap = M) as EM by (by apply (snapshot_map (C := C) (current vs1))).
    assert (forall l n, (l, n) ∈ map new_id (ve_new_files edit) -> M !! (l, n) = None) as Hno.
    { intros l n Hi. destruct (M !! (l, n)) as [f|] eqn:Ef; [|done]. apply Hnew in Hi as (_ & _ & Hi). specialize (Hi _ _ Ef). lia. }
    exists (mkManifest (vs_manifest_file_number vs1) snap [e] (vs_next_file_number vs1) (vs_last_sequence vs1)), w, env'. unfold mn_records, mn_ids. cbn [mn_number mn_snap mn_edits mn_next mn_last].
    split_and!; try done.
    + constructor; [|by constructor]. split; [|by right; rewrite Es1]. apply snapshot_edit_ok; [done|done|]. apply set_pointers_small; [|apply HR]. intros p Hp. by apply (edit_ok_pointers e p) in Hp as [_ [_ Hp]]; [|apply He].
    + rewrite Es3. by eapply snapshot_ids_NoDup.
    + split; rewrite Eids; [done|]. intros [l n] Hi. rewrite EM. by apply Hno.
    + cbn [fold_left]. by rewrite EM.
    + intros l n. unfold new_ids. cbn [map concat]. rewrite app_nil_r. intros [Hi|Hi]%elem_of_app; [right|left; by rewrite <- En].
      assert (exists f, M !! (l, n) = Some f) as [f Hf].
      { rewrite Es3 in Hi. apply list_elem_of_fmap in Hi as ([lv g] & [= -> ->] & Hg). apply snapshot_list_elem in Hg as (k & f & -> & _ & Hf & ->). rewrite Nat2Z.id. cbn [snd]. exists f. change (fm_number (strip f)) with (fm_number f). by apply (vr_files _ _ Hrep). }
      split; [by eapply rd_files|]. intros l' f' Hf'. by rewrite (rd_unique _ _ _ _ _ HR _ _ _ _ _ Hf Hf').
Qed.

(** An edit is logged. *)
Lemma Recorded_edit (x : Manifest) (M : file_map) (b b' : Z) (vs vs1 : VersionSet W) (env : E) (edit : VersionEdit) :
  Recorded x M b vs1 env -> mn_next x <= vs_next_file_number vs -> vs_next_file_number vs <= vs_next_file_number vs1 -> edit_good vs vs1 M edit -> version_rep (C := C) (current vs1) M ->
  num_ok (vs_next_file_number vs1) -> num_ok (vs_manifest_file_number vs1) -> num_ok (vs_last_sequence vs1) -> b' <= vs_last_sequence vs1 ->
  exists x' w env', LogAndApply (C := C) dbname edit vs1 env = (Ok tt, prepare_edit vs1 edit, edited vs1 edit w, env') /\ Recorded x' (apply_edit M edit) b' (edited vs1 edit w) env' /\
    evolves (W := W) (manifest_files (vs_manifest_file_number vs1)) env env' /\ vs_log_number (edited vs1 edit w) = default (vs_log_number vs1) (ve_log_number edit).
Proof.
  intros HR Hle Hle1 HG Hrep Hn Hm Hs Hb. set (e := prepare_edit vs1 edit). pose proof (fun l n => edit_good_new x vs vs1 env M b edit l n HR Hle HG) as Hnew. pose proof (fun l n f => edit_good_lookup vs vs1 M edit l n f HG) as Hlook.
  destruct (prepare_edit_fields vs1 edit) as (Ec & Ecp & Ed & En & Enf & Els & (lg & Elg) & (pv & Epv)). fold e in Ec, Ecp, Ed, En, Enf, Els, Elg, Epv.
  assert (lg = default (vs_log_number vs1) (ve_log_number edit) /\ pv = 0) as [Elg' ->].
  { pose proof (eg_prev _ _ _ _ HG) as Hp. pose proof (rd_prev _ _ _ _ _ HR) as Hp'. revert Elg Epv. unfold e, prepare_edit. destruct edit as [? [?|] ? ? ? ? ? ?]; cbn in *; subst; cbn; rewrite ?Hp'; intros [= <-] [= <-]; done. }
  assert (edit_ok e) as Hok. { apply prepare_edit_ok; try done; [apply HR|rewrite (rd_prev _ _ _ _ _ HR); unfold num_ok; lia|apply HG]. }
  assert (loggable (C := C) e) as Hlog by (split; [done|left; rewrite Ec; apply HG]).
  destruct (edit_manifest x M b vs vs1 env edit HR Hle HG Hrep Hm Hlog) as (x' & w & env' & EL & Hev & Enx & Elx & Elast & (X1 & X2 & X3) & X4 & X5 & X6 & X7 & X8).
  exists x', w, env'. split_and!; [exact EL| |exact Hev|unfold edited; cbv zeta; cbn [vs_log_number]; fold e; rewrite Elg; exact Elg']. destruct (rd_pointers _ _ _ _ _ HR) as [Hp1 Hp2].
  assert (forall l n f, apply_edit M edit !! (l, n) = Some f -> ((l, n) ∈ map new_id (ve_new_files edit) /\ exists g lv, (lv, g) ∈ ve_new_files edit /\ f = with_allowed_seeks g) \/
    ((l, n) ∉ map new_id (ve_new_files edit) /\ (Z.of_nat l, n) ∉ ve_deleted_files edit /\ M !! (l, n) = Some f)) as Hcase.
  { intros l n f [(lv & g & Hg & Eid & ->)|Hr]%Hlook; [left|by right]. split; [|by exists g, lv]. apply list_elem_of_fmap. by exists (lv, g). }
  pose proof (proj1 Hn) as Hn0. split; rewrite ?Enx, ?Elx; unfold edited; cbv zeta; cbn [vs_descriptor_log vs_log_number vs_prev_log_number vs_next_file_number vs_last_sequence vs_compact_pointer]; fold e; rewrite ?Elg, ?Epv; try done; try lia.
  - exists e. by rewrite Enf, Els.
  - intros l n Hin. apply X8 in Hin as [Hi|[Hi1 Hi2]].
    + destruct (Hnew _ _ Hi) as (N1 & N2 & N3). split; [done|]. intros l' f [[Hi' _]|(Hn' & Hd & Hf)]%Hcase; [|destruct (N3 _ _ Hf); by destruct Hd].
      apply list_elem_of_fmap in Hi as ([lv g] & [= -> ->] & Hg). apply list_elem_of_fmap in Hi' as ([lv' g'] & [= -> _] & Hg'). destruct (eg_level _ _ _ _ HG) as [level Hl]. pose proof (Hl _ Hg). pose proof (Hl _ Hg'). cbn in *. subst. done.
    + split; [lia|]. intros l' f [[Hi' _]|(_ & _ & Hf)]%Hcase; [|by apply (Hi2 l' f)]. apply list_elem_of_fmap in Hi' as ([lv g] & [= -> ->] & Hg). destruct (eg_new _ _ _ _ HG lv g Hg) as [Hnn|(l0 & g0 & Hg0 & Hlt & _)]; [cbn in *; lia|].
      cbn [fst snd] in *. specialize (Hi2 _ _ Hg0). lia.
  - intros l l' n f f' [[Hi _]|(Hn1 & Hd1 & Hf1)]%Hcase [[Hi' _]|(Hn2 & Hd2 & Hf2)]%Hcase.
    + apply list_elem_of_fmap in Hi as ([lv g] & [= -> ->] & Hg). apply list_elem_of_fmap in Hi' as ([lv' g'] & [= -> _] & Hg'). destruct (eg_level _ _ _ _ HG) as [level Hl]. pose proof (Hl _ Hg). pose proof (Hl _ Hg'). cbn in *. by subst.
    + destruct (Hnew _ _ Hi) as (_ & _ & N3). destruct (N3 _ _ Hf2) as [_ ?]. done.
    + destruct (Hnew _ _ Hi') as (_ & _ & N3). destruct (N3 _ _ Hf1) as [_ ?]. done.
    + by eapply (rd_unique _ _ _ _ _ HR).
  - intros [l n] f [[_ (g & lv & Hg & ->)]|(_ & _ & Hf)]%Hcase; [|by apply (rd_meta _ _ _ _ _ HR _ _ Hf)]. destruct (eg_ok _ _ _ _ HG) as [Hops _ _]. unfold ops_of in Hops. rewrite !Forall_app in Hops. destruct Hops as (_ & _ & _ & _ & _ & _ & _ & Ha).
    rewrite Forall_forall in Ha. destruct (Ha (add_op (lv, g))) as (_ & A1 & A2 & A3 & A4); [apply list_elem_of_fmap; by exists (lv, g)|]. by split_and!.
  - split; cbn [vs_compact_pointer]; [unfold edit_pointers; by rewrite set_pointers_length|]. apply set_pointers_small; [|done]. intros p Hp. by apply (edit_ok_pointers e p) in Hp as [_ [_ Hp]].
  - by apply (edit_ok_numbers e); [|left].
Qed.

(** ** The logs *)

(** The logs hold the batches, from operation number [start + 1] on. *)
Fixpoint logs_hold (env : E) (start : Z) (logs : list (Z * list (list WriteOp))) : Prop :=
  match logs with
  | [] => True
  | (n, bs) :: logs => (exists data o, reads env (log_file n) data /\ Layout 0 (batch_records start bs) data o) /\ logs_hold env (start + zlen (concat bs)) logs
  end.

Definition logs_ops (logs : list (Z * list (list WriteOp))) : list WriteOp := concat (map (fun l => concat (snd l)) logs).

Lemma logs_ops_app (l1 l2 : list (Z * list (list WriteOp))) : logs_ops (l1 ++ l2) = logs_ops l1 ++ logs_ops l2.
Proof. unfold logs_ops. by rewrite map_app, concat_app. Qed.

Lemma logs_hold_app (env : E) (l1 l2 : list (Z * list (list WriteOp))) (start : Z) :
  logs_hold env start (l1 ++ l2) <-> logs_hold env start l1 /\ logs_hold env (start + zlen (logs_ops l1)) l2.
Proof.
  revert start. induction l1 as [|[n bs] l1 IH]; intros start; cbn [app logs_hold]; [change (zlen (logs_ops [])) with 0; rewrite Z.add_0_r; tauto|].
  rewrite IH. unfold logs_ops. cbn [map concat snd]. rewrite zlen_app, Z.add_assoc. tauto.
Qed.

Lemma logs_hold_frame (env env' : E) (start : Z) (logs : list (Z * list (list WriteOp))) :
  logs_hold env start logs -> (forall n data, n ∈ map fst logs -> reads env (log_file n) data -> reads env' (log_file n) data) -> logs_hold env' start logs.
Proof.
  revert start. induction logs as [|[n bs] logs IH]; intros start; [done|]. cbn [logs_hold map]. intros [(data & o & Hr & HL) Hl] Hf. split.
  - exists data, o. split; [|done]. apply Hf; [by left|done].
  - apply IH; [done|]. intros n' data' Hn. apply Hf. by right.
Qed.

(** Logs that hold operations. *)
Definition full_logs (logs : list (Z * list (list WriteOp))) : list (Z * list (list WriteOp)) := filter (fun l => concat (snd l) <> []) logs.

Lemma full_logs_none (logs : list (Z * list (list WriteOp))) : logs_ops logs = [] -> full_logs logs = [].
Proof.
  unfold logs_ops, full_logs. induction logs as [|l logs IH]; cbn [map concat]; [done|]. intros [H1 H2]%app_eq_nil. rewrite filter_cons_False by (by intros []). by apply IH.
Qed.

(** ** The files of a database in use

    [lf] is the number of the open log, [ops] all operations that are logged. *)
Record DiskOk (vs : VersionSet W) (env : E) (lf : Z) (ops : list WriteOp) (g : Ghost) : Prop := {
  dk_recorded : exists x, Recorded x (g_map g) (g_b1 g) vs env;
  dk_logs : logs_hold env (g_b1 g) (g_logs g);
  dk_ops : logs_ops (g_logs g) = take (Z.to_nat (g_b2 g - g_b1 g)) (drop (Z.to_nat (g_b1 g)) ops);
  dk_sorted : StronglySorted Z.lt (map fst (g_logs g) ++ [lf]);
  dk_range : forall n, n ∈ map fst (g_logs g) ++ [lf] -> vs_log_number vs <= n < vs_next_file_number vs;
  dk_others : forall y p, ParseFileName y = Some p -> pf_type p = kLogFile -> fs_FileExists (dbname ++ lit "/" ++ y) env = true ->
    pf_number p < vs_log_number vs \/ exists n, n ∈ map fst (g_logs g) ++ [lf] /\ y = numbered n ".log";
  dk_full : (length (full_logs (g_logs g)) <= 1)%nat;
  dk_max : vs_next_file_number vs < 2 ^ 64
}.

Lemma log_not_manifest (m n : Z) (y : bytes) : num_ok m -> num_ok n -> manifest_files m y -> y <> log_file n.
Proof.
  intros Hm Hn Hy ->. destruct (children_parse m Hm) as (_ & P2 & P3 & P4). pose proof (log_parse n Hn) as Pl.
  destruct Hy as [E0|[E0|E0]]; rewrite log_child in E0; revert E0.
  - rewrite descriptor_child. by eapply child_ne.
  - rewrite tmp_child. by eapply child_ne.
  - rewrite current_child. by eapply child_ne.
Qed.

Lemma log_not_table (n : Z) : num_ok n -> ~ table_files dbname (log_file n).
Proof. intros Hn (m & Hm & E0). by destruct (TableFileName_other dbname m n Hm Hn) as (H1 & _). Qed.

(** A child that is a log is no other file. *)
Lemma log_child_other (y : bytes) (p : ParsedFile) : ParseFileName y = Some p -> pf_type p = kLogFile ->
  ~ table_files dbname (dbname ++ lit "/" ++ y) /\ forall m, num_ok m -> ~ manifest_files m (dbname ++ lit "/" ++ y).
Proof.
  intros Hp Ht. split.
  - intros (n & Hn & E0). rewrite table_child in E0. apply child_inj in E0 as ->. destruct (children_parse n Hn) as (P1 & _). by simplify_eq/=.
  - intros m Hm [E0|[E0|E0]]; destruct (children_parse m Hm) as (_ & P2 & P3 & P4).
    + rewrite descriptor_child in E0. apply child_inj in E0 as ->. by simplify_eq/=.
    + rewrite tmp_child in E0. apply child_inj in E0 as ->. by simplify_eq/=.
    + rewrite current_child in E0. apply child_inj in E0 as ->. by simplify_eq/=.
Qed.

Lemma dk_num_ok (vs : VersionSet W) (env : E) (lf : Z) (ops : list WriteOp) (g : Ghost) (n : Z) : DiskOk vs env lf ops g -> n ∈ map fst (g_logs g) ++ [lf] -> num_ok n.
Proof. intros HK Hn. destruct (dk_recorded _ _ _ _ _ HK) as (x & HR). destruct (rd_log _ _ _ _ _ HR). pose proof (dk_range _ _ _ _ _ HK n Hn). pose proof (dk_max _ _ _ _ _ HK). unfold num_ok. lia. Qed.

(** The version set moves on, and table files come and go. *)
Lemma DiskOk_frame (vs vs' : VersionSet W) (env env' : E) (lf : Z) (ops ops' : list WriteOp) (g g' : Ghost) :
  DiskOk vs env lf ops g -> vs_descriptor_log vs' = vs_descriptor_log vs -> vs_log_number vs' = vs_log_number vs -> vs_prev_log_number vs' = vs_prev_log_number vs ->
  pointers_ok vs' ->
  vs_next_file_number vs <= vs_next_file_number vs' < 2 ^ 64 -> vs_last_sequence vs <= vs_last_sequence vs' -> evolves (W := W) (table_files dbname) env env' ->
  g_map g' = g_map g -> g_b1 g' = g_b1 g -> g_b2 g' = g_b2 g -> g_logs g' = g_logs g ->
  take (Z.to_nat (g_b2 g - g_b1 g)) (drop (Z.to_nat (g_b1 g)) ops') = take (Z.to_nat (g_b2 g - g_b1 g)) (drop (Z.to_nat (g_b1 g)) ops) ->
  DiskOk vs' env' lf ops' g'.
Proof.
  intros HK Ed El Ep Hp Hn Hs He Em E1 E2 E3 Eo. pose proof (fun n => dk_num_ok vs env lf ops g n HK) as Hnum. destruct HK as [(x & HR) Hl Ho Hso Hr Hot Hf Hmx].
  split; rewrite ?Em, ?E1, ?E2, ?E3, ?El, ?Eo; try done; try lia.
  - exists x. eapply Recorded_frame; [exact HR|done..|lia|done|done|exact He|]. intros y Hy. eapply table_not_manifest; [apply HR|exact Hy].
  - eapply logs_hold_frame; [exact Hl|]. intros n data Hin. eapply evolves_reads; [exact He|]. apply log_not_table, Hnum, elem_of_app. by left.
  - intros n Hin. specialize (Hr n Hin). lia.
  - intros y p Hy Ht Hex. apply (Hot y p Hy Ht). destruct (evolves_exists _ _ _ _ He Hex) as [Htab|?]; [|done]. by destruct (proj1 (log_child_other y p Hy Ht)).
Qed.

Lemma DiskOk_ghost (vs : VersionSet W) (env : E) (lf : Z) (ops : list WriteOp) (g g' : Ghost) :
  DiskOk vs env lf ops g -> g_map g' = g_map g -> g_b1 g' = g_b1 g -> g_b2 g' = g_b2 g -> g_logs g' = g_logs g -> DiskOk vs env lf ops g'.
Proof. intros [] E0 E1 E2 E3. by split; rewrite ?E0, ?E1, ?E2, ?E3. Qed.

(** More operations. *)
Lemma DiskOk_ops (vs : VersionSet W) (env : E) (lf : Z) (ops new : list WriteOp) (g : Ghost) :
  DiskOk vs env lf ops g -> 0 <= g_b1 g <= g_b2 g -> g_b2 g <= zlen ops -> DiskOk vs env lf (ops ++ new) g.
Proof.
  intros [] H1 H2. split; try done. rewrite dk_ops0. unfold zlen in *. rewrite drop_app_le by lia. rewrite take_app_le; [done|]. rewrite length_drop. lia.
Qed.

Lemma NewFileNumber_next (vs : VersionSet W) : 0 <= vs_next_file_number vs -> vs_next_file_number vs + 1 < 2 ^ 64 -> vs_next_file_number (snd (NewFileNumber vs)) = vs_next_file_number vs + 1.
Proof. intros H1 H2. cbn. apply wrap_small. lia. Qed.

(** An edit is installed. *)
Lemma installs_recorded (x : Manifest) (M M' : file_map) (b b' : Z) (vs vs' : VersionSet W) (env env' : E) (lg : option Z) :
  Recorded x M b vs env -> installs (C := C) dbname vs env M lg vs' env' M' -> version_rep (C := C) (current vs) M -> vs_next_file_number vs + 1 < 2 ^ 64 -> num_ok (vs_manifest_file_number vs) ->
  num_ok (vs_last_sequence vs) -> b' <= vs_last_sequence vs ->
  exists x', Recorded x' M' b' vs' env' /\ evolves (W := W) (fun y => table_files dbname y \/ manifest_files (vs_manifest_file_number vs) y) env env' /\
    vs_log_number vs' = default (vs_log_number vs) lg /\ vs_next_file_number vs <= vs_next_file_number vs' <= vs_next_file_number vs + 1.
Proof.
  intros HR (vs1 & env1 & edit & Hvs1 & Hev & HG & <- & -> & EL) Hrep Hn Hm Hs Hb. pose proof (rd_next _ _ _ _ _ HR) as Hnx.
  assert (vs_next_file_number vs <= vs_next_file_number vs1 <= vs_next_file_number vs + 1) as Hn1 by (destruct Hvs1 as [-> | ->]; [lia|]; rewrite NewFileNumber_next; lia).
  assert (vs_descriptor_log vs1 = vs_descriptor_log vs /\ vs_log_number vs1 = vs_log_number vs /\ vs_prev_log_number vs1 = vs_prev_log_number vs /\ vs_compact_pointer vs1 = vs_compact_pointer vs /\
    vs_last_sequence vs1 = vs_last_sequence vs /\ vs_manifest_file_number vs1 = vs_manifest_file_number vs /\ current vs1 = current vs) as (F1 & F2 & F3 & F4 & F5 & F6 & F7) by (by destruct Hvs1 as [-> | ->]).
  assert (Recorded x M b vs1 env1) as HR1.
  { eapply Recorded_frame; [exact HR|done|done|done|unfold pointers_ok; rewrite F4; apply HR|lia|lia|done|exact Hev|]. intros y Hy. eapply table_not_manifest; [apply HR|exact Hy]. }
  destruct (Recorded_edit x M b b' vs vs1 env1 edit HR1 ltac:(lia) ltac:(lia) HG) as (x' & w & env2 & EL' & HR' & Hev' & Elg); [by rewrite F7|unfold num_ok; lia|by rewrite F6|by rewrite F5|by rewrite F5|].
  rewrite EL' in EL. injection EL as <- <-. exists x'. split_and!; [done| |by rewrite Elg, F2|unfold edited; cbn; lia|unfold edited; cbn; lia].
  eapply evolves_trans; [eapply evolves_weaken; [|exact Hev]; by left|]. eapply evolves_weaken; [|exact Hev']. rewrite F6. by right.
Qed.

(** Logs and their names stay when an edit is installed. *)
Lemma installs_logs (vs : VersionSet W) (env env' : E) (m : Z) (start : Z) (logs : list (Z * list (list WriteOp))) :
  num_ok m -> (forall n, n ∈ map fst logs -> num_ok n) -> evolves (W := W) (fun y => table_files dbname y \/ manifest_files m y) env env' ->
  (logs_hold env start logs -> logs_hold env' start logs) /\
  forall y p, ParseFileName y = Some p -> pf_type p = kLogFile -> fs_FileExists (dbname ++ lit "/" ++ y) env' = true -> fs_FileExists (dbname ++ lit "/" ++ y) env = true.
Proof.
  intros Hm Hnum Hev. split.
  - intros Hl. eapply logs_hold_frame; [exact Hl|]. intros n data Hin. eapply evolves_reads; [exact Hev|]. specialize (Hnum n Hin).
    intros [Ht|Hman]; [by apply (log_not_table n)|by eapply (log_not_manifest m n)].
  - intros y p Hy Ht Hex. destruct (log_child_other y p Hy Ht) as [H1 H2]. destruct (evolves_exists _ _ _ _ Hev Hex) as [[Htab|Hman]|?]; [done|by destruct (H2 m Hm)|done].
Qed.

(** A compaction or a move. *)
Lemma DiskOk_compact (vs vs' : VersionSet W) (env env' : E) (lf : Z) (ops : list WriteOp) (g g' : Ghost) :
  DiskOk vs env lf ops g -> installs (C := C) dbname vs env (g_map g) None vs' env' (g_map g') -> version_rep (C := C) (current vs) (g_map g) -> vs_next_file_number vs + 1 < 2 ^ 64 ->
  num_ok (vs_manifest_file_number vs) -> num_ok (vs_last_sequence vs) -> g_b1 g' = g_b1 g -> g_b2 g' = g_b2 g -> g_logs g' = g_logs g -> DiskOk vs' env' lf ops g'.
Proof.
  intros HK Hi Hrep Hn Hm Hs E1 E2 E3. pose proof (fun n => dk_num_ok vs env lf ops g n HK) as Hnum. destruct HK as [(x & HR) Hl Ho Hso Hr Hot Hf Hmx]. pose proof (rd_last _ _ _ _ _ HR) as Hb.
  destruct (installs_recorded x (g_map g) (g_map g') (g_b1 g) (g_b1 g) vs vs' env env' None HR Hi Hrep Hn Hm Hs ltac:(lia)) as (x' & HR' & Hev & El & Hn'). cbn [default] in El. change (id (vs_log_number vs)) with (vs_log_number vs) in El.
  destruct (installs_logs vs env env' (vs_manifest_file_number vs) (g_b1 g) (g_logs g) Hm) as [Hl' Hot']; [intros n Hin; apply Hnum, elem_of_app; by left|done|].
  split; rewrite ?E1, ?E2, ?E3, ?El; try done; try lia.
  - by exists x'.
  - by apply Hl'.
  - intros n Hin. specialize (Hr n Hin). lia.
  - intros y p Hy Ht Hex. apply (Hot y p Hy Ht). by eapply Hot'.
Qed.

(** The immutable memtable is in a table now: its log is not needed. *)
Lemma DiskOk_flush (vs vs' : VersionSet W) (env env' : E) (lf : Z) (ops : list WriteOp) (g g' : Ghost) :
  DiskOk vs env lf ops g -> installs (C := C) dbname vs env (g_map g) (Some lf) vs' env' (g_map g') -> version_rep (C := C) (current vs) (g_map g) -> vs_next_file_number vs + 1 < 2 ^ 64 ->
  num_ok (vs_manifest_file_number vs) -> num_ok (vs_last_sequence vs) -> g_b2 g <= vs_last_sequence vs -> g_b1 g' = g_b2 g -> g_b2 g' = g_b2 g -> g_logs g' = [] -> DiskOk vs' env' lf ops g'.
Proof.
  intros HK Hi Hrep Hn Hm Hs Hb E1 E2 E3. pose proof (fun n => dk_num_ok vs env lf ops g n HK) as Hnum. destruct HK as [(x & HR) Hl Ho Hso Hr Hot Hf Hmx].
  destruct (installs_recorded x (g_map g) (g_map g') (g_b1 g) (g_b2 g) vs vs' env env' (Some lf) HR Hi Hrep Hn Hm Hs ltac:(lia)) as (x' & HR' & Hev & El & Hn'). change (default (vs_log_number vs) (Some lf)) with lf in El.
  destruct (installs_logs vs env env' (vs_manifest_file_number vs) (g_b1 g) (g_logs g) Hm) as [Hl' Hot']; [intros n Hin; apply Hnum, elem_of_app; by left|done|].
  assert (lf ∈ map fst (g_logs g) ++ [lf]) as Hlf by (apply elem_of_app; right; by left).
  split; rewrite ?E1, ?E2, ?E3, ?El; cbn [map app logs_hold]; try done; try lia.
  - by exists x'.
  - change (logs_ops []) with (@nil WriteOp). by rewrite Z.sub_diag.
  - constructor; [constructor|by constructor].
  - intros n ->%list_elem_of_singleton. specialize (Hr lf Hlf). lia.
  - intros y p Hy Ht Hex. destruct (Hot y p Hy Ht ltac:(by eapply Hot')) as [Hlt|(n & Hin & ->)].
    + left. specialize (Hr lf Hlf). lia.
    + apply elem_of_app in Hin as [Hin|Hin%list_elem_of_singleton]; [left|right; exists n; split; [by apply list_elem_of_singleton|done]].
      rewrite (log_parse n) in Hy by (apply Hnum, elem_of_app; by left). injection Hy as <-. cbn [pf_number]. apply StronglySorted_app in Hso as (Hlt & _ & _). apply (Hlt n lf Hin). by apply list_elem_of_singleton.
  - change (full_logs []) with (@nil (Z * list (list WriteOp))). cbn [length]. lia.
Qed.

(** A new log: the one before is complete. *)
Lemma DiskOk_switch (vs : VersionSet W) (env : E) (lf : Z) (log : Writer W) (bs : list (list WriteOp)) (ops : list WriteOp) (g g' : Ghost) :
  let num := vs_next_file_number vs in
  let env1 := snd (fs_NewWritableFile (log_file num) env) in
  let env2 := fs_Written (log_file lf) (dest_ log) env1 in
  DiskOk vs env lf ops g -> log_holds log (batch_records (g_b2 g) bs) -> concat bs = drop (Z.to_nat (g_b2 g)) ops -> g_b1 g = g_b2 g -> 0 <= g_b2 g <= zlen ops -> num + 1 < 2 ^ 64 ->
  g_map g' = g_map g -> g_b1 g' = g_b2 g -> g_b2 g' = zlen ops -> g_logs g' = g_logs g ++ [(lf, bs)] -> DiskOk (snd (NewFileNumber vs)) env2 num ops g'.
Proof.
  intros num env1 env2 HK [HL _] Hbs Eb Hord Hnum1 Em E1 E2 E3. pose proof (fun n => dk_num_ok vs env lf ops g n HK) as Hnum. destruct HK as [(x & HR) Hl Ho Hso Hr Hot Hf Hmx].
  pose proof (rd_next _ _ _ _ _ HR) as Hnx. assert (num_ok num) as Hnn by (unfold num_ok, num; lia). assert (lf ∈ map fst (g_logs g) ++ [lf]) as Hlf by (apply elem_of_app; right; by left). pose proof (Hr lf Hlf) as Hlfr.
  rewrite Eb, Z.sub_diag in Ho. change (take (Z.to_nat 0) (drop (Z.to_nat (g_b2 g)) ops)) with (@nil WriteOp) in Ho.
  assert (evolves (W := W) (fun y => y = log_file num \/ y = log_file lf) env env2) as Hev.
  { apply (ev_new _ (log_file num)); [by left|]. apply (ev_written _ (log_file lf) (dest_ log)); [by right|]. constructor. }
  assert (forall n, n ∈ map fst (g_logs g) -> n < lf) as Hlt by (apply StronglySorted_app in Hso as (Hlt & _ & _); intros n Hn; apply (Hlt n lf Hn); by apply list_elem_of_singleton).
  assert (forall n m, num_ok n -> num_ok m -> log_file n = log_file m -> n = m) as Hinj.
  { intros n m Hn Hm' E0. rewrite !log_child in E0. apply child_inj in E0. by apply log_numbered_inj. }
  split; rewrite ?Em, ?E1, ?E2, ?E3, ?map_app; cbn [NewFileNumber snd set_next_file vs_next_file_number vs_log_number map fst]; fold num; rewrite ?wrap_small by lia; try done.
  - exists x. rewrite <- Eb. eapply (Recorded_frame x); [exact HR|done|done|done|apply HR| |done|done|exact Hev|].
    + cbn. unfold num in *. lia.
    + intros y Hy [-> | ->]; eapply (log_not_manifest (mn_number x)); [apply HR|exact Hnn|exact Hy|done|apply HR|apply (Hnum lf Hlf)|exact Hy|done].
  - rewrite Eb in Hl. apply logs_hold_app. split.
    + eapply logs_hold_frame; [exact Hl|]. intros n data Hin. eapply evolves_reads; [exact Hev|]. assert (n ∈ map fst (g_logs g) ++ [lf]) as Hin' by (apply elem_of_app; by left). pose proof (Hnum n Hin') as Hnn'. specialize (Hr n Hin'). specialize (Hlt n Hin).
      intros [E0|E0]; [apply Hinj in E0; [unfold num in E0; lia|exact Hnn'|exact Hnn]|apply Hinj in E0; [lia|exact Hnn'|by apply Hnum]].
    + cbn [logs_hold]. split; [|done]. rewrite Ho. change (zlen (@nil WriteOp)) with 0. rewrite Z.add_0_r. exists (wf_contents (dest_ log)), (block_offset_ log). split; [|done]. apply fs_Written_reads.
  - rewrite logs_ops_app, Ho. unfold logs_ops. cbn [map concat snd app]. rewrite app_nil_r, Hbs. rewrite take_ge; [done|]. rewrite length_drop. unfold zlen in *. lia.
  - apply StronglySorted_app. split_and!; [|done|repeat constructor]. intros n m Hin ->%list_elem_of_singleton. specialize (Hr n Hin). lia.
  - intros n [Hin| ->%list_elem_of_singleton]%elem_of_app; [specialize (Hr n Hin); lia|lia].
  - intros y p Hy Ht Hex. destruct (evolves_exists _ _ _ _ Hev Hex) as [[E0|E0]|Hex'].
    + right. exists num. split; [apply elem_of_app; right; by left|]. rewrite log_child in E0. by apply child_inj in E0.
    + right. exists lf. split; [apply elem_of_app; by left|]. rewrite log_child in E0. by apply child_inj in E0.
    + destruct (Hot y p Hy Ht Hex') as [?|(n & Hin & ->)]; [by left|]. right. exists n. split; [apply elem_of_app; by left|done].
  - unfold full_logs. rewrite filter_app, length_app. pose proof (full_logs_none (g_logs g) Ho) as Hz. unfold full_logs in Hz. rewrite Hz. cbn [length Nat.add]. rewrite length_filter. cbn. lia.
Qed.
End Disk.
