(* ===== verification/DbQueue.v ===== *)
(** * DbQueue: the queue of writers

    The writers that wait, in the order they came, with the operations each brought;
    [BuildBatchGroup] takes the front writer and some that follow it, and the batch it
    makes holds their operations in the order of the queue; the loop at the end of
    [Write] tells exactly the other writers of the group. *)

From stdpp Require Import sorting fin_sets.
From S2P Require Import Prelude Random Status Coding Comparator DbFormat SkipList MemTable WriteBatch Env LogFile Format VersionSet TableCache Snapshot DbImpl DbStep DbData.
From S2P Require Import MemTable.

Abbreviation Queue := (list (Z * option (list WriteOp))).

Lemma queue_ops_app (q r : Queue) : queue_ops (q ++ r) = queue_ops q ++ queue_ops r.
Proof. unfold queue_ops. by rewrite map_app, concat_app. Qed.

Lemma queue_ops_cons (id : Z) (u : option (list WriteOp)) (q : Queue) : queue_ops ((id, u) :: q) = default [] u ++ queue_ops q.
Proof. done. Qed.

(** A writer that waits, with the operations it brought. *)
Definition writer_ok (w : DbWriter) (u : option (list WriteOp)) : Prop :=
  dw_status w = StatusOK /\ dw_done w = false /\ exists s, dw_batch w = batch_bytes s <$> u.

Definition objects_ok (objects : gmap Z DbWriter) (q : Queue) : Prop := forall id u, (id, u) ∈ q -> exists w, objects !! id = Some w /\ writer_ok w u.

Lemma objects_ok_cons (objects : gmap Z DbWriter) (id : Z) (u : option (list WriteOp)) (q : Queue) :
  objects_ok objects ((id, u) :: q) -> (exists w, objects !! id = Some w /\ writer_ok w u) /\ objects_ok objects q.
Proof. intros H. split; [apply H; by left|]. intros x v Hx. apply H. by right. Qed.

(** The last writer of a group. *)
Definition last_id (id : Z) (group : Queue) : Z := List.last (map fst group) id.

Lemma last_cons_default (x z : Z) (g : list Z) : List.last (z :: g) x = List.last g z.
Proof.
  revert x z. induction g as [|b g IH]; intros x z; [done|]. change (List.last (b :: g) x = List.last (b :: g) z). by rewrite !IH.
Qed.

Lemma last_id_cons (id x : Z) (u : option (list WriteOp)) (group : Queue) : last_id id ((x, u) :: group) = last_id x group.
Proof. apply last_cons_default. Qed.

(** [ops] is what the batch holds so far: the operations of the first writer, in its
    own batch until a second one brings operations. *)
Lemma group_loop_spec (objects : gmap Z DbWriter) (s0 : SequenceNumber) (first : list WriteOp) (sync : bool) (max_size : Z) (q : Queue) (size : Z) (tmp : WriteBatch) (of_tmp : bool)
    (lw : Z) (ops : list WriteOp) :
  objects_ok objects q -> zlen (ops ++ queue_ops q) < 2 ^ 31 -> (if of_tmp then exists s, tmp = batch_bytes s ops else ops = first /\ tmp = newWriteBatch) ->
  exists group rest tmp' of_tmp', group_loop objects (batch_bytes s0 first) sync max_size (map fst q) size tmp of_tmp lw = (tmp', of_tmp', last_id lw group) /\ q = group ++ rest /\
    (if of_tmp' then exists s, tmp' = batch_bytes s (ops ++ queue_ops group) else ops ++ queue_ops group = first /\ tmp' = newWriteBatch).
Proof.
  revert size tmp of_tmp lw ops. induction q as [|[id u] q IH]; intros size tmp of_tmp lw ops Ho Hz Ht.
  { exists [], [], tmp, of_tmp. change (queue_ops []) with (@nil WriteOp). rewrite (app_nil_r ops). split_and!; [done|done|exact Ht]. }
  assert (exists group rest tmp' of_tmp', (tmp, of_tmp, lw) = (tmp', of_tmp', last_id lw group) /\ (id, u) :: q = group ++ rest /\
    (if of_tmp' then exists s, tmp' = batch_bytes s (ops ++ queue_ops group) else ops ++ queue_ops group = first /\ tmp' = newWriteBatch)) as Hstop.
  { exists [], ((id, u) :: q), tmp, of_tmp. change (queue_ops []) with (@nil WriteOp). rewrite (app_nil_r ops). split_and!; [done|done|exact Ht]. }
  apply objects_ok_cons in Ho as [(w & Hw & _ & _ & s & Hb) Ho]. cbn [map fst group_loop]. rewrite Hw. destruct (dw_sync w && negb sync); [exact Hstop|].
  rewrite queue_ops_cons in Hz. rewrite Hb. destruct u as [u|]; cbn [fmap option_fmap option_map from_option Datatypes.id] in *.
  - destruct (max_size <? _); [exact Hstop|]. rewrite app_assoc in Hz.
    assert (exists s', (if of_tmp then tmp else WriteBatch_Append tmp (batch_bytes s0 first)) = batch_bytes s' ops) as [s' ->].
    { destruct of_tmp; [exact Ht|]. destruct Ht as [-> ->]. exists 0. rewrite newWriteBatch_spec. rewrite !zlen_app in Hz. pose proof (zlen_nonneg u). pose proof (zlen_nonneg (queue_ops q)).
      rewrite batch_append_spec by (cbn [app]; lia). done. }
    rewrite batch_append_spec by (rewrite zlen_app in Hz; pose proof (zlen_nonneg (queue_ops q)); lia).
    edestruct (IH (u64 (size + zlen (batch_bytes s u))) (batch_bytes s' (ops ++ u)) true id (ops ++ u) Ho Hz) as (group & rest & tmp' & of_tmp' & E & -> & Hg); [by exists s'|].
    exists ((id, Some u) :: group), rest, tmp', of_tmp'. rewrite E, last_id_cons, queue_ops_cons. cbn [from_option Datatypes.id]. rewrite <- app_assoc in Hg. done.
  - destruct (IH size tmp of_tmp id ops Ho Hz Ht) as (group & rest & tmp' & of_tmp' & E & -> & Hg).
    exists ((id, None) :: group), rest, tmp', of_tmp'. rewrite E, last_id_cons. done.
Qed.

(** The loop that tells the writers. *)
Definition told (s : Status) (w : DbWriter) : DbWriter := mkDbWriter s (dw_batch w) (dw_sync w) true.

Lemma finish_loop_spec (id : Z) (s : Status) (g : list Z) (x lw : Z) (ws : list Z) (objects : gmap Z DbWriter) :
  NoDup (x :: g) -> lw = List.last g x ->
  exists objects', finish_loop id lw s (x :: g ++ ws) objects = (objects', ws) /\
    forall y, objects' !! y = if decide (y ∈ x :: g /\ y <> id) then told s <$> objects !! y else objects !! y.
Proof.
  revert x objects. induction g as [|z g IH]; intros x objects Hnd ->; cbn [finish_loop app].
  - rewrite Z.eqb_refl. eexists. split; [done|]. intros y. destruct (Z.eqb_spec x id) as [->|Hne].
    + rewrite decide_False; [done|]. intros [->%list_elem_of_singleton ?]. done.
    + destruct (decide (y = x)) as [->|Hy]; [rewrite lookup_alter_eq, decide_True; [done|split; [by left|done]]|].
      rewrite lookup_alter_ne by done. rewrite decide_False; [done|]. by intros [->%list_elem_of_singleton ?].
  - apply NoDup_cons in Hnd as [Hx Hnd]. assert (x <> List.last (z :: g) x) as Hxl.
    { rewrite last_cons_default. intros E. apply Hx. rewrite E. apply list_elem_of_In. clear. revert z. induction g as [|b g IH]; intros z; [by left|]. right. rewrite last_cons_default. exact (IH b). }
    rewrite (proj2 (Z.eqb_neq _ _) Hxl). set (o1 := if x =? id then objects else alter (told s) x objects).
    destruct (IH z o1 Hnd (last_cons_default _ _ _)) as (o' & Eo & Ho'). exists o'. split; [exact Eo|]. intros y. rewrite Ho'. destruct (decide (y = x)) as [->|Hy].
    + rewrite decide_False by tauto. unfold o1. destruct (Z.eqb_spec x id) as [->|Hne]; [rewrite decide_False by tauto; done|].
      rewrite lookup_alter_eq, decide_True; [done|]. split; [by left|done].
    + assert (o1 !! y = objects !! y) as -> by (unfold o1; destruct (x =? id); [done|by rewrite lookup_alter_ne]).
      destruct (decide (y ∈ z :: g /\ y <> id)) as [[H1 H2]|H1]; [rewrite decide_True; [done|split; [by right|done]]|].
      rewrite decide_False; [done|]. intros [[->|H2]%elem_of_cons H3]; [done|]. by apply H1.
Qed.

(** ** The queue of a database *)

Section Queue.
Context {E W F K Rnd : Type}.
Abbreviation DB := (DBImpl E W F K Rnd).

(** [pend]: the operations of the group that is in the memtable and not published. *)
Definition front_ok (d : DB) (ops pend : list WriteOp) (q : Queue) : Prop :=
  match db_front d with
  | Writing last_writer publish of_tmp s =>
      s = StatusOK /\ (of_tmp = false -> db_tmp_batch d = newWriteBatch) /\
      exists id u group rest, q = ((id, u) :: group) ++ rest /\ last_writer = last_id id group /\ pend = queue_ops ((id, u) :: group) /\
        match u with Some _ => publish = Some (zlen (ops ++ pend)) | None => publish = None /\ group = [] end
  | _ => pend = [] /\ db_tmp_batch d = newWriteBatch
  end.

Record QueueOk (d : DB) (ops pend : list WriteOp) (q : Queue) (told : gset Z) : Prop := {
  qu_writers : db_writers d = map fst q;
  qu_nodup : NoDup (map fst q);
  qu_objects : objects_ok (db_writer_objects d) q;
  qu_told : forall id, id ∈ told -> exists w, db_writer_objects d !! id = Some w /\ dw_status w = StatusOK /\ dw_done w = true;
  qu_dom : forall id w, db_writer_objects d !! id = Some w -> id ∈ map fst q \/ id ∈ told;
  qu_fits : Forall op_fits (queue_ops q);
  qu_front : front_ok d ops pend q
}.

Lemma QueueOk_same (d d' : DB) (ops pend : list WriteOp) (q : Queue) (tl : gset Z) :
  QueueOk d ops pend q tl -> db_writers d' = db_writers d -> db_writer_objects d' = db_writer_objects d -> db_front d' = db_front d -> db_tmp_batch d' = db_tmp_batch d ->
  QueueOk d' ops pend q tl.
Proof. intros [] E1 E2 E3 E4. split; rewrite ?E1, ?E2; try done. unfold front_ok in *. by rewrite E3, E4. Qed.

(** A writer that is told is not in the queue. *)
Lemma queue_told_disjoint (d : DB) (ops pend : list WriteOp) (q : Queue) (tl : gset Z) (id : Z) : QueueOk d ops pend q tl -> id ∈ map fst q -> id ∉ tl.
Proof.
  intros HQ Hq Ht. apply list_elem_of_fmap in Hq as ([x u] & -> & Hq). destruct (qu_objects _ _ _ _ _ HQ _ _ Hq) as (w & Hw & _ & Hd & _).
  destruct (qu_told _ _ _ _ _ HQ _ Ht) as (w' & Hw' & _ & Hd'). cbn [fst] in *. congruence.
Qed.

Lemma queue_enqueue (d : DB) (ops pend : list WriteOp) (q : Queue) (tl : gset Z) (id : Z) (sync : bool) (u : option (list WriteOp)) :
  QueueOk d ops pend q tl -> db_writer_objects d !! id = None -> Forall op_fits (default [] u) -> zlen (default [] u) < 2 ^ 31 ->
  QueueOk (Write_enqueue id sync (batch_of <$> u) d) ops pend (q ++ [(id, u)]) tl.
Proof.
  intros HQ Hnone Hf Hz. destruct HQ as [Hw Hnd Ho Ht Hd Hqf Hfr].
  assert (id ∉ map fst q) as Hid.
  { intros ([x v] & -> & Hx)%list_elem_of_fmap. destruct (Ho _ _ Hx) as (w & Hw' & _). cbn [fst] in *. congruence. }
  assert (forall x, x ≠ id -> db_writer_objects (Write_enqueue id sync (batch_of <$> u) d) !! x = db_writer_objects d !! x) as Hne by (intros x Hx; by apply lookup_insert_ne).
  split; cbn [Write_enqueue set_writers db_writers db_writer_objects].
  - by rewrite Hw, map_app.
  - rewrite map_app. apply NoDup_app. split_and!; [done| |apply NoDup_singleton]. intros x Hx ->%list_elem_of_singleton. done.
  - intros x v [Hx|Hx]%elem_of_app.
    + rewrite lookup_insert_ne; [by apply Ho|]. intros <-. apply Hid. apply list_elem_of_fmap. by exists (id, v).
    + apply list_elem_of_singleton in Hx as [= -> ->]. rewrite lookup_insert_eq. eexists. split; [done|]. split_and!; [done|done|]. exists 0. cbn [dw_batch].
      destruct u as [u|]; [|done]. cbn in *. unfold batch_of. rewrite newWriteBatch_spec, batch_ops_spec by done. done.
  - intros x Hx. destruct (Ht x Hx) as (w & Hw' & Hs). exists w. rewrite lookup_insert_ne; [done|]. congruence.
  - intros x w. destruct (decide (x = id)) as [->|Hx]; [left; rewrite map_app; apply elem_of_app; right; by left|]. rewrite lookup_insert_ne by done. intros Hx'.
    destruct (Hd x w Hx') as [?|?]; [left; rewrite map_app; apply elem_of_app; by left|by right].
  - rewrite queue_ops_app. apply Forall_app. split; [done|]. rewrite queue_ops_cons. change (queue_ops []) with (@nil WriteOp). by rewrite app_nil_r.
  - unfold front_ok in *. cbn [Write_enqueue set_writers db_front db_tmp_batch]. destruct (db_front d) as [|? ?|lw publish of_tmp s]; [done|done|]. destruct Hfr as (H1 & H2 & x & v & group & rest & -> & H3). split_and!; [done|done|].
    exists x, v, group, (rest ++ [(id, u)]). split; [by rewrite <- app_assoc|done].
Qed.

Lemma queue_return (d : DB) (ops pend : list WriteOp) (q : Queue) (tl : gset Z) (id : Z) (w : DbWriter) :
  QueueOk d ops pend q tl -> db_writer_objects d !! id = Some w -> dw_done w = true ->
  id ∈ tl /\ dw_status w = StatusOK /\
  QueueOk (set_writers (delete id (db_writer_objects d)) (db_writers d) (db_front d) d) ops pend q (tl ∖ {[id]}).
Proof.
  intros HQ Hw Hdone. assert (id ∉ map fst q) as Hid.
  { intros ([x v] & -> & Hx)%list_elem_of_fmap. destruct (qu_objects _ _ _ _ _ HQ _ _ Hx) as (w' & Hw' & _ & Hd & _). cbn [fst] in *. congruence. }
  destruct (qu_dom _ _ _ _ _ HQ id w Hw) as [?|Hin]; [done|]. split; [done|]. destruct (qu_told _ _ _ _ _ HQ id Hin) as (w' & Hw' & Hs & _). assert (w' = w) as -> by congruence. split; [done|].
  destruct HQ as [H1 H2 Ho Ht Hd Hqf Hfr]. split; cbn [set_writers db_writers db_writer_objects]; [done|done| | | |done|].
  - intros x v Hx. destruct (Ho x v Hx) as (wx & Hwx & Hok). exists wx. split; [|done]. rewrite lookup_delete_ne; [done|]. intros <-. apply Hid, list_elem_of_fmap. by exists (id, v).
  - intros x [Hx Hne]%elem_of_difference. destruct (Ht x Hx) as (wx & Hwx & Hok). exists wx. rewrite lookup_delete_ne; [done|]. intros <-. apply Hne. by apply elem_of_singleton.
  - intros x wx Hx. apply lookup_delete_Some in Hx as [Hne Hx]. destruct (Hd x wx Hx) as [?|?]; [by left|right]. apply elem_of_difference. split; [done|]. intros ->%elem_of_singleton. done.
  - exact Hfr.
Qed.

(** The end of [Write]: what the front writer and its group are told. *)
Lemma queue_finish (d : DB) (ops pend : list WriteOp) (q : Queue) (tl : gset Z) (x last_writer : Z) (ws : list Z) (publish : option Z) (of_tmp : bool) (s : Status) :
  QueueOk d ops pend q tl -> db_front d = Writing last_writer publish of_tmp s -> db_writers d = x :: ws ->
  exists u group rest d', q = ((x, u) :: group) ++ rest /\ pend = queue_ops ((x, u) :: group) /\ Write_finish x last_writer publish of_tmp s d = (StatusOK, d') /\
    QueueOk d' (ops ++ pend) [] rest (list_to_set (map fst group) ∪ tl) /\ db_front d' = Starting /\
    (vs_last_sequence (db_versions d) = zlen ops -> vs_last_sequence (db_versions d') = zlen (ops ++ pend)) /\
    (exists vs objects tmp, d' = set_writers objects (map fst rest) Starting (set_files (db_tables d) vs (set_tmp_batch tmp d)) /\
      (vs = db_versions d \/ exists n, vs = vs_SetLastSequence n (db_versions d))).
Proof.
  intros HQ Ef Ew. pose proof (qu_front _ _ _ _ _ HQ) as Hfr. unfold front_ok in Hfr. rewrite Ef in Hfr. destruct Hfr as (-> & Htmp & id & u & group & rest & Eq & El & Ep & Hpub).
  assert (id = x) as ->. { pose proof (qu_writers _ _ _ _ _ HQ) as Hw. rewrite Ew, Eq in Hw. by injection Hw. }
  pose proof (qu_nodup _ _ _ _ _ HQ) as Hnd. rewrite Eq, map_app in Hnd. apply NoDup_app in Hnd as (Hnd1 & Hdis & Hnd2). pose proof Hnd1 as [Hxg _]%NoDup_cons.
  destruct (finish_loop_spec x StatusOK (map fst group) x last_writer (map fst rest) (db_writer_objects d) Hnd1 El) as (objects & Eo & Ho).
  assert (map fst q = x :: map fst group ++ map fst rest) as Emq by (by rewrite Eq, map_app).
  set (d' := set_writers (delete x objects) (map fst rest) Starting (set_files (db_tables d) (match publish with Some n => vs_SetLastSequence n (db_versions d) | None => db_versions d end)
    (set_tmp_batch (if of_tmp then WriteBatch_Clear else db_tmp_batch d) d))).
  exists u, group, rest, d'. split_and!; [done|done| | |done| |].
  - unfold Write_finish. set (d1 := if of_tmp then _ else d). assert (db_writers (match publish with Some n => set_files (db_tables d1) (vs_SetLastSequence n (db_versions d1)) d1 | None => d1 end) = map fst q) as ->.
    { rewrite <- (qu_writers _ _ _ _ _ HQ). unfold d1. by destruct publish, of_tmp. }
    assert (db_writer_objects (match publish with Some n => set_files (db_tables d1) (vs_SetLastSequence n (db_versions d1)) d1 | None => d1 end) = db_writer_objects d) as -> by (unfold d1; by destruct publish, of_tmp).
    rewrite Emq, Eo. unfold d1, d'. by destruct publish, of_tmp, d.
  - assert (forall y, y <> x -> y ∈ map fst group -> db_writer_objects d' !! y = told StatusOK <$> db_writer_objects d !! y) as Hin.
    { intros y Hy Hg. cbn. rewrite lookup_delete_ne by done. rewrite Ho, decide_True; [done|]. split; [by right|done]. }
    assert (forall y, y <> x -> y ∉ map fst group -> db_writer_objects d' !! y = db_writer_objects d !! y) as Hout.
    { intros y Hy Hg. cbn. rewrite lookup_delete_ne by done. rewrite Ho, decide_False; [done|]. intros [[?|?]%elem_of_cons ?]; done. }
    assert (forall y, y ∈ x :: map fst group -> y ∉ map fst rest) as Hdis' by exact Hdis. destruct HQ as [H1 H2 Hob Ht Hd Hqf _]. split; cbn [d' set_writers db_writers].
    + done.
    + done.
    + intros y v Hy. assert (y ∈ map fst rest) as Hyr by (apply list_elem_of_fmap; by exists (y, v)). rewrite Hout.
      * apply Hob. rewrite Eq. apply elem_of_app. by right.
      * intros ->. by apply (Hdis' x); [left|].
      * intros Hg. by apply (Hdis' y); [right|].
    + intros y [Hy|Hy]%elem_of_union.
      * apply elem_of_list_to_set in Hy. assert (y <> x) as Hne by (intros ->; done). pose proof Hy as ([z v] & -> & Hz)%list_elem_of_fmap.
        destruct (Hob z v) as (w & Hw & _); [rewrite Eq; apply elem_of_app; left; by right|]. exists (told StatusOK w). cbn [fst] in *. rewrite Hin, Hw by done. done.
      * destruct (Ht y Hy) as (w & Hw & Hs & Hdn). assert (y ∉ map fst q) as Hnq.
        { intros ([z v] & -> & Hz)%list_elem_of_fmap. destruct (Hob z v Hz) as (w' & Hw' & _ & Hd' & _). cbn [fst] in *. congruence. }
        rewrite Emq in Hnq. exists w. rewrite Hout; [done| |]; intros Hc; apply Hnq; [subst; by left|]. right. apply elem_of_app. by left.
    + intros y w Hy. destruct (decide (y = x)) as [->|Hne]; [cbn in Hy; by rewrite lookup_delete_eq in Hy|]. destruct (decide (y ∈ map fst group)) as [Hg|Hg].
      * right. apply elem_of_union. left. by apply elem_of_list_to_set.
      * rewrite Hout in Hy by done. destruct (Hd y w Hy) as [Hq|Ht']; [|right; apply elem_of_union; by right]. left. rewrite Emq in Hq. apply elem_of_cons in Hq as [?|[?|?]%elem_of_app]; done.
    + rewrite Eq, queue_ops_app in Hqf. by apply Forall_app in Hqf as [_ ?].
    + split; [done|]. cbn. destruct of_tmp; [done|by apply Htmp].
  - intros Hl. cbn. destruct u as [u|]; [by subst publish|]. destruct Hpub as [-> ->]. rewrite Ep, app_nil_r. done.
  - exists (match publish with Some n => vs_SetLastSequence n (db_versions d) | None => db_versions d end), (delete x objects), (if of_tmp then WriteBatch_Clear else db_tmp_batch d). split; [done|].
    destruct publish; eauto.
Qed.

(** What [BuildBatchGroup] makes. *)
Lemma queue_group (d : DB) (ops : list WriteOp) (q : Queue) (tl : gset Z) (x : Z) (s0 : SequenceNumber) (first : list WriteOp) (sync : bool) :
  QueueOk d ops [] ((x, Some first) :: q) tl -> db_tmp_batch d = newWriteBatch -> zlen (queue_ops ((x, Some first) :: q)) < 2 ^ 31 ->
  exists s group rest of_tmp, BuildBatchGroup x (batch_bytes s0 first) sync d = (batch_bytes s (queue_ops ((x, Some first) :: group)), of_tmp, last_id x group) /\ q = group ++ rest /\
    (of_tmp = false -> queue_ops ((x, Some first) :: group) = first).
Proof.
  intros HQ Ht Hz. unfold BuildBatchGroup. rewrite (qu_writers _ _ _ _ _ HQ). cbn [map tail]. rewrite queue_ops_cons in Hz. cbn [from_option Datatypes.id] in Hz.
  destruct (group_loop_spec (db_writer_objects d) s0 first sync (if zlen (batch_bytes s0 first) <=? Z.shiftl 128 10 then u64 (zlen (batch_bytes s0 first) + Z.shiftl 128 10) else Z.shiftl 1 20)
    q (zlen (batch_bytes s0 first)) (db_tmp_batch d) false x first) as (group & rest & tmp' & of_tmp' & -> & -> & Hg).
  - apply (proj2 (objects_ok_cons _ _ _ _ (qu_objects _ _ _ _ _ HQ))).
  - done.
  - done.
  - destruct of_tmp'; [destruct Hg as [s ->]; exists s, group, rest, true; done|]. destruct Hg as [Hg _]. exists s0, group, rest, false. rewrite queue_ops_cons. cbn [from_option Datatypes.id]. by rewrite Hg.
Qed.
End Queue.
