(* ===== verification/DbRefine.v ===== *)
(** * DbRefine: the database refines the abstract one

    [DbOk d a g k n]: the state [d] of the database stands for the abstract state [a].
    Every step of every thread keeps this, and what it shows is what [spec] allows
    ([exec_sim]).  So whatever the threads do, in whatever order, reads see the writes
    that were published, in the order of the queue, and nothing else ([database_refines]).

    [k] and [n] are budgets: at most [k] more steps make files, and at most [n] more
    operations come, so that file numbers and sequence numbers do not wrap. *)

From stdpp Require Import sorting fin_sets.
From S2P Require Import Prelude Random Status Coding Comparator Logging FilterPolicy DbFormat SkipList MemTable WriteBatch Env LogFile Format Iterator Block Merger FilterBlock.
From S2P Require Import TwoLevelIterator TableBuilder Cache Table VersionEdit FileName Children DBIter Version VersionRead VersionBuilder VersionSet Manifest Compaction.
From S2P Require Import TableCache Snapshot History Iterates TableFiles CompactionRun VersionChange CompactionWork DbImpl DbStep DbFiles DbData DbDisk DbQueue.
From S2P Require Import MemTable.
From Stdlib Require Import Sorting.Sorted.

Section Refine.
Context (slen zstlen : bytes -> option Z) (sun zun : bytes -> option bytes).
Context {C : Comparator} {CL : ComparatorLaws C} (Heq : forall a b, ceq a b -> a = b) (Hname : zlen (lit (Name (Comparator := C))) < 2 ^ 32) {P : FilterPolicy} {PL : FilterPolicyLaws P}.
Context {E W SF F L : Type} {FS : FileSystem E W SF} {WF : WritableFile W} {WL : WritableFileLaws W} {HF : HandleFS E W} {FSL : FileSystemLaws E W SF}.
Context {QF : SequentialFile SF} {QL : SequentialFileLaws SF} {FR : FileReadLaws E W SF} {DF : DirectoryFS E L} {DL : DirectoryLaws E W SF L} {LL : ListingLaws E W SF L}.
Context {RFS : RandomAccessFS E F} {RF : RandomAccessFile F} {RL : RandomAccessFileLaws F} {FF : FileFrameLaws E W SF F}.
Context {K Hd : Type} {KC : Cache K Hd Block} {KL : CacheLaws K Hd Block} {KI : CacheIdLaws K Hd Block}.
Context {Rnd : Type} {US : UniformSource Rnd} (dbname : bytes) (options : Options) (Hri : 1 <= o_block_restart_interval options) (mem_usage : MemTable Rnd -> Z).

Abbreviation DB := (DBImpl E W F K Rnd).
Abbreviation Disk := (gmap Z (Z * versions)).
Abbreviation FilesOk := (FilesOk (C := C) (P := P) (W := W) (E := E) (F := F) (K := K) dbname (table_options options)).
Abbreviation DataOk := (DataOk (C := C)).
Abbreviation DiskOk := (DiskOk (C := C) (E := E) (W := W) (SF := SF) (L := L) dbname).
Abbreviation fits := (table_fits (C := C) (P := P) (W := W) (builder_options options)).
Abbreviation exec := (exec (C := C) (P := P) slen zstlen sun zun dbname options mem_usage).

(** ** The relation *)

Definition manual_ok (d : DB) : Prop :=
  (forall m, db_manual d = Some m -> is_Some (db_manual_objects d !! m)) /\
  forall m mc, db_manual_objects d !! m = Some mc -> (mc_level mc + 1 < kNumLevels)%nat.

Record DbOk (d : DB) (a : Abs) (g : Ghost) (k : nat) (n : Z) : Prop := {
  ok_files : FilesOk (db_versions d) (db_tables d) (g_disk g) (g_map g) k;
  ok_data : DataOk d (ab_ops a) g;
  ok_queue : QueueOk d (ab_ops a) (g_pend g) (ab_queue a) (ab_told a);
  ok_error : db_bg_error d = StatusOK;
  ok_snaps : forall p s, ab_snaps a !! p = Some s <-> (p, s) ∈ g_live g;
  ok_manual : manual_ok d;
  ok_logfile : num_ok (db_logfile_number d);
  ok_disk : DiskOk (db_versions d) (tc_env (db_tables d)) (db_logfile_number d) (ab_ops a ++ g_pend g) g;
  ok_count : 0 <= n /\ zlen (ab_ops a ++ queue_ops (ab_queue a)) + n < 2 ^ 31
}.

(** ** What a client and the background thread may do *)

Definition snapshot_live (p : Z) (d : DB) : Prop := p <> head_ /\ is_Some (sl_nodes (db_snapshots d) !! p).

(** The compaction that the background thread would run. *)
Definition chosen (d : DB) : option Compaction :=
  match db_manual d with
  | Some m => mc ← db_manual_objects d !! m; fst (CompactRange (C := C) (o_max_file_size options) (mc_level mc) (mc_begin mc) (mc_end mc) (db_versions d))
  | None =>
      c ← fst (PickCompaction (C := C) (o_max_file_size options) (db_versions d));
      if IsTrivialMove (o_max_file_size options) c then None else Some c
  end.

Abbreviation input_of c d := (MakeInputIterator (C := C) (HD := DbTableIter_iter (C := C) (F := F) (K := K) slen zstlen sun zun)
  (table_iter (C := C) (P := P) slen zstlen sun zun dbname (table_options options) (input_options (table_options options)) (db_tables d)) error_iter (input_fuel c) c).

Definition seqs_ok (D : versions) : Prop := forall p v, (p, v) ∈ D -> seq_ok (pik_sequence p).

(** What there is to write fits a table file; a compaction keeps something, and no
    shutdown stops it before the end of its input. *)
Definition background_fits (fuel : nat) (stop : option nat) (d : DB) : Prop :=
  match db_imm d with
  | Some imm => exists D, scan_list (H := MemTableIterator_iter (C := C)) fuel (MemTable_NewIterator imm) = Some (internal_entries D) /\ seqs_ok D /\ fits D
  | None =>
      match chosen d with
      | None => True
      | Some c =>
          exists D, scan_list (H := InputIter_iter (C := C) (P := P) slen zstlen sun zun dbname (table_options options) (db_tables d) c) fuel (input_of c d) = Some (internal_entries D) /\ seqs_ok D /\
            let out := compaction_output (C := C) (smallest_snapshot (db_snapshots d) (db_versions d)) c D in out <> [] /\ fits out /\ too_late stop D
      end
  end.

Definition legal (st : Step) (d : DB) : Prop :=
  match st with
  | StWrite _ _ updates => Forall op_fits (default [] updates)
  | StGet _ snapshot key => zlen key + 8 < 2 ^ 32 /\ match snapshot with Some p => snapshot_live p d | None => True end
  | StRelease p => snapshot_live p d
  | StManual _ level _ _ => (level + 1 < kNumLevels)%nat
  | StBackground fuel stop => db_shutting_down d = true \/ db_bg_compaction_scheduled d = false \/ background_fits fuel stop d
  | _ => True
  end.

Definition step_ops (st : Step) : list WriteOp := match st with StWrite _ _ updates => default [] updates | _ => [] end.

(** ** Steps that change nothing that reads see *)

Definition same_core (d d' : DB) : Prop :=
  db_mem d' = db_mem d /\ db_imm d' = db_imm d /\ db_log d' = db_log d /\ db_snapshots d' = db_snapshots d /\ db_writers d' = db_writers d /\
  db_writer_objects d' = db_writer_objects d /\ db_front d' = db_front d /\ db_tmp_batch d' = db_tmp_batch d /\ db_bg_error d' = db_bg_error d /\ db_logfile_number d' = db_logfile_number d.

(** Nothing that the files on disk depend on. *)
Definition same_disk (d d' : DB) : Prop :=
  tc_env (db_tables d') = tc_env (db_tables d) /\ vs_next_file_number (db_versions d) <= vs_next_file_number (db_versions d') /\
  vs_descriptor_log (db_versions d') = vs_descriptor_log (db_versions d) /\ vs_log_number (db_versions d') = vs_log_number (db_versions d) /\
  vs_prev_log_number (db_versions d') = vs_prev_log_number (db_versions d) /\ pointers_ok (db_versions d').

Lemma DbOk_pointers (d : DB) (a : Abs) (g : Ghost) (k : nat) (n : Z) : DbOk d a g k n -> pointers_ok (db_versions d).
Proof. intros HO. destruct (dk_recorded _ _ _ _ _ _ (ok_disk _ _ _ _ _ HO)) as (x & HR). apply HR. Qed.

Lemma same_disk_numbers (d d' : DB) (a : Abs) (g : Ghost) (k : nat) (n : Z) :
  DbOk d a g k n -> tc_env (db_tables d') = tc_env (db_tables d) -> same_numbers (db_versions d) (db_versions d') -> same_disk d d'.
Proof. intros HO Et (E1 & E2 & E3 & E4 & E5). split_and!; [done|lia|done..|]. unfold pointers_ok. rewrite E5. by eapply DbOk_pointers. Qed.

Lemma DbOk_meta (d : DB) (a : Abs) (g : Ghost) (k : nat) (n : Z) : DbOk d a g k n -> forall i f, g_map g !! i = Some f -> meta_ok f.
Proof. intros HO. destruct (dk_recorded _ _ _ _ _ _ (ok_disk _ _ _ _ _ HO)) as (x & HR). apply HR. Qed.

Lemma DbOk_step (d d' : DB) (a : Abs) (g : Ghost) (k k' : nat) (n : Z) :
  DbOk d a g k n -> same_core d d' -> same_disk d d' -> FilesOk (db_versions d') (db_tables d') (g_disk g) (g_map g) k' ->
  vs_last_sequence (db_versions d') = vs_last_sequence (db_versions d) -> v_files (current (db_versions d')) = v_files (current (db_versions d)) -> manual_ok d' -> DbOk d' a g k' n.
Proof.
  intros [] (E1 & E2 & E3 & E4 & E5 & E6 & E7 & E8 & E9 & E10) (T1 & T2 & T3 & T4 & T5 & T6) HI El Ev Hm. split; try done.
  - by eapply DataOk_same.
  - by eapply QueueOk_same.
  - by rewrite E9.
  - by rewrite E10.
  - rewrite E10, T1. eapply DiskOk_frame; [done|done|done|done|done| |lia|constructor|done..]. pose proof (fi_next _ _ _ _ _ _ _ HI). lia.
Qed.

Lemma FilesOk_less (d : DB) (g : Ghost) (k k' : nat) :
  FilesOk (db_versions d) (db_tables d) (g_disk g) (g_map g) k -> (k' <= k)%nat -> FilesOk (db_versions d) (db_tables d) (g_disk g) (g_map g) k'.
Proof. intros HI Hk. eapply FilesOk_vs; try done; [lia|apply HI]. Qed.

Lemma DbOk_less (d : DB) (a : Abs) (g : Ghost) (k k' : nat) (n n' : Z) : DbOk d a g k n -> (k' <= k)%nat -> 0 <= n' <= n -> DbOk d a g k' n'.
Proof. intros [] Hk Hn. split; try done; [by eapply FilesOk_less|lia]. Qed.

Lemma manual_ok_same (d d' : DB) : manual_ok d -> db_manual d' = db_manual d -> db_manual_objects d' = db_manual_objects d -> manual_ok d'.
Proof. intros [H1 H2] E1 E2. unfold manual_ok. by rewrite E1, E2. Qed.

Lemma DbOk_scheduled (b : bool) (d : DB) (a : Abs) (g : Ghost) (k : nat) (n : Z) : DbOk d a g k n -> DbOk (set_scheduled b d) a g k n.
Proof. intros HO. eapply DbOk_step; [done|done|by eapply same_disk_numbers|apply HO|done|done|apply HO]. Qed.

Lemma DbOk_shutting (d : DB) (a : Abs) (g : Ghost) (k : nat) (n : Z) : DbOk d a g k n -> DbOk (set_shutting_down d) a g k n.
Proof. intros HO. eapply DbOk_step; [done|done|by eapply same_disk_numbers|apply HO|done|done|apply HO]. Qed.

Lemma DbOk_schedule (d : DB) (a : Abs) (g : Ghost) (k : nat) (n : Z) : DbOk d a g k n -> DbOk (MaybeScheduleCompaction d) a g k n.
Proof. intros HO. unfold MaybeScheduleCompaction. destruct (_ || _); [done|by apply DbOk_scheduled]. Qed.

(** ** Reads *)

Lemma get_sim (d : DB) (a : Abs) (g : Ghost) (k : nat) (n : Z) (ro : ReadOptions) (snapshot : option Z) (key : bytes) (d' : DB) (o : Out) :
  DbOk d a g k n -> legal (StGet ro snapshot key) d -> exec (StGet ro snapshot key) d = Some (d', o) -> spec a (StGet ro snapshot key) o a /\ DbOk d' a g k n.
Proof.
  intros HO [Hk Hl] Ex. cbn [DbStep.exec] in Ex. pose proof (ok_data _ _ _ _ _ HO) as HD. destruct (read_sequence_ok d (ab_ops a) g HD) as (Hr0 & Er0 & Hr).
  assert (exists s, read_sequence snapshot d = s /\ readable (ab_ops a) g s /\ forall r, read_answers r (db_read (ab_ops a) key s) -> spec a (StGet ro snapshot key) (OutGet r) a) as (s & Es & Hs & Hspec).
  { destruct snapshot as [p|]; [|exists (zlen (ab_ops a)); split_and!; [done|by rewrite Er0 in Hr0|intros r; apply spec_get]].
    destruct Hl as [Hh Hin%elem_of_dom]. rewrite (si_dom _ _ (da_snap _ _ _ HD)) in Hin. apply elem_of_union in Hin as [?%elem_of_singleton|Hin%elem_of_list_to_set]; [done|].
    apply list_elem_of_fmap in Hin as ([q s] & -> & Hin). destruct (Hr q s Hin) as [E1 E2]. exists s. split_and!; [done|done|]. intros r. apply spec_get_at, (ok_snaps _ _ _ _ _ HO). done. }
  pose proof (get_answers (C := C) (P := P) slen zstlen sun zun Heq dbname options d (ab_ops a) g k ro snapshot key s HD (ok_files _ _ _ _ _ HO) Es Hs Hk) as HG.
  destruct (DBImpl_Get _ _ _ _ _ _ _ _ _ d) as [r d1]. injection Ex as <- <-. destruct HG as [Hans Hd1]. split; [by apply Hspec|].
  destruct Hd1 as [->|(tables & vs & seeks & b & -> & Ev & El & HI & Hsn & Het)]; [done|]. eapply DbOk_step; [done|done|by eapply same_disk_numbers|exact HI|done|done|]. eapply manual_ok_same; [apply HO|done|done].
Qed.

Lemma sample_ok (d : DB) (a : Abs) (g : Ghost) (k : nat) (n : Z) (key : bytes) : DbOk d a g k n -> DbOk (DBImpl_RecordReadSample (C := C) key d) a g k n.
Proof.
  intros HO. unfold DBImpl_RecordReadSample. pose proof (RecordReadSample_pickable (C := C) key (current (db_versions d)) (seeks_of d) (fi_pick _ _ _ _ _ _ _ (ok_files _ _ _ _ _ HO))) as Hp.
  assert (v_files (snd (fst (RecordReadSample (C := C) key (current (db_versions d)) (seeks_of d)))) = v_files (current (db_versions d))) as Ev.
  { unfold RecordReadSample, UpdateStats. repeat (case_match; simplify_eq/=; try done). }
  destruct (RecordReadSample key (current (db_versions d)) (seeks_of d)) as [[b v] m]. cbn [fst snd] in *. rewrite maybe_schedule_eq. apply DbOk_scheduled.
  assert (FilesOk (set_current v (db_versions d)) (db_tables d) (g_disk g) (g_map g) k) as HI.
  { apply (FilesOk_vs dbname (table_options options) (db_versions d) _ (db_tables d) (g_disk g) (g_map g) k k (ok_files _ _ _ _ _ HO)); rewrite ?current_set; try done; cbn; lia. }
  destruct m as [[f m]|]; (eapply DbOk_step; [exact HO|done|by eapply same_disk_numbers|exact HI|done|change (v_files (current (set_current v (db_versions d))) = v_files (current (db_versions d))); by rewrite current_set|]; eapply manual_ok_same; [apply HO|done|done]).
Qed.

(** ** Snapshots *)

(** Only the snapshots change. *)
Lemma DbOk_snapshots (d : DB) (a : Abs) (g : Ghost) (k : nat) (n : Z) (sl : SnapshotList) (live : list (Z * SequenceNumber)) (snaps : gmap Z SequenceNumber) :
  DbOk d a g k n -> SnapInv sl live -> (forall p s, (p, s) ∈ live -> g_min g <= s <= zlen (ab_ops a)) -> (forall p s, snaps !! p = Some s <-> (p, s) ∈ live) ->
  DbOk (set_snapshots sl d) (mkAbs (ab_ops a) (ab_queue a) (ab_told a) snaps) (mkGhost (g_pend g) (g_mem g) (g_imm g) (g_disk g) (g_map g) (g_min g) live (g_b1 g) (g_b2 g) (g_logs g)) k n.
Proof. intros [HI HD HQ He Hs Hm Hlf Hdk Hc] Hsl Hlive Hsn. split; try done; [destruct HD; by split|by eapply QueueOk_same|by eapply DiskOk_ghost]. Qed.

Lemma snapshot_sim (d : DB) (a : Abs) (g : Ghost) (k : nat) (n : Z) (d' : DB) (o : Out) :
  DbOk d a g k n -> exec StSnapshot d = Some (d', o) -> exists a' g', spec a StSnapshot o a' /\ DbOk d' a' g' k n.
Proof.
  intros HO Ex. cbn [DbStep.exec] in Ex. unfold GetSnapshot in Ex. pose proof (ok_data _ _ _ _ _ HO) as HD. rewrite (da_last _ _ _ HD) in Ex.
  destruct (sl_New_inv (db_snapshots d) (g_live g) (zlen (ab_ops a)) (da_snap _ _ _ HD)) as [Hsl Hp]; [intros p q Hp; by apply (da_live _ _ _ HD p)|].
  destruct (sl_New (zlen (ab_ops a)) (db_snapshots d)) as [p sl]. cbn [fst snd] in *. injection Ex as <- <-. assert (ab_snaps a !! p = None) as Hnone.
  { apply eq_None_not_Some. intros [s Hs%(ok_snaps _ _ _ _ _ HO)]. apply Hp. right. apply list_elem_of_fmap. by exists (p, s). }
  exists (mkAbs (ab_ops a) (ab_queue a) (ab_told a) (<[p := zlen (ab_ops a)]> (ab_snaps a))). eexists. split; [by apply spec_snapshot|]. apply DbOk_snapshots; [done|done| |].
  - intros q s [Hq|Hq]%elem_of_app; [by apply (da_live _ _ _ HD q)|]. apply list_elem_of_singleton in Hq as [= -> ->]. pose proof (da_min _ _ _ HD). lia.
  - intros q s. rewrite elem_of_app, list_elem_of_singleton, <- (ok_snaps _ _ _ _ _ HO). destruct (decide (q = p)) as [->|Hne].
    + rewrite lookup_insert_eq. split; [intros [= <-]; by right|]. intros [Hs|[= ->]]; [congruence|done].
    + rewrite lookup_insert_ne by done. split; [by left|]. intros [?|[= -> ->]]; done.
Qed.

Lemma release_sim (d : DB) (a : Abs) (g : Ghost) (k : nat) (n : Z) (p : Z) (d' : DB) (o : Out) :
  DbOk d a g k n -> legal (StRelease p) d -> exec (StRelease p) d = Some (d', o) -> exists a' g', spec a (StRelease p) o a' /\ DbOk d' a' g' k n.
Proof.
  intros HO [Hh Hin%elem_of_dom] [= <- <-]. pose proof (ok_data _ _ _ _ _ HO) as HD. pose proof (da_snap _ _ _ HD) as Hsn.
  rewrite (si_dom _ _ Hsn) in Hin. apply elem_of_union in Hin as [?%elem_of_singleton|Hin%elem_of_list_to_set]; [done|].
  apply list_elem_of_fmap in Hin as ([q s] & -> & Hin). cbn [fst] in *. apply list_elem_of_split in Hin as (l1 & l2 & El). rewrite El in Hsn. pose proof (sl_Delete_inv _ _ _ _ _ Hsn) as Hdel.
  pose proof (si_nodup _ _ Hsn) as [_ Hnd]%NoDup_cons. rewrite map_app in Hnd. cbn [map fst] in Hnd.
  exists (mkAbs (ab_ops a) (ab_queue a) (ab_told a) (delete q (ab_snaps a))). eexists. split; [by apply spec_release|]. apply DbOk_snapshots; [exact HO|exact Hdel| |].
  - intros p t Hp. apply (da_live _ _ _ HD p). rewrite El. apply elem_of_app. apply elem_of_app in Hp as [?|?]; [by left|right; by right].
  - intros p t. destruct (decide (p = q)) as [->|Hne].
    + rewrite lookup_delete_eq. split; [done|]. intros Hp. exfalso. apply NoDup_app in Hnd as (_ & Hdis & [Hn2 _]%NoDup_cons).
      apply elem_of_app in Hp as [Hp|Hp]; [apply (Hdis q); [|by left]|apply Hn2]; apply list_elem_of_fmap; by exists (q, t).
    + rewrite lookup_delete_ne by done. rewrite (ok_snaps _ _ _ _ _ HO), El, !elem_of_app, elem_of_cons. split; [intros [?|[[= -> ->]|?]]; [by left|done|by right]|]. intros [?|?]; [by left|right; by right].
Qed.

(** ** Writers *)

Lemma write_sim (d : DB) (a : Abs) (g : Ghost) (k : nat) (n : Z) (id : Z) (sync : bool) (u : option (list WriteOp)) (d' : DB) (o : Out) :
  DbOk d a g k (zlen (default [] u) + n) -> 0 <= n -> legal (StWrite id sync u) d -> exec (StWrite id sync u) d = Some (d', o) ->
  exists a', spec a (StWrite id sync u) o a' /\ DbOk d' a' g k n.
Proof.
  intros [HI HD HQ He Hs Hm Hlf Hdk Hc] Hn Hl Ex. cbn [DbStep.exec] in Ex. destruct (db_writer_objects d !! id) as [|] eqn:Eo; [done|]. injection Ex as <- <-.
  rewrite zlen_app in Hc. pose proof (zlen_nonneg (ab_ops a)). pose proof (zlen_nonneg (queue_ops (ab_queue a))). pose proof (zlen_nonneg (default [] u)).
  exists (mkAbs (ab_ops a) (ab_queue a ++ [(id, u)]) (ab_told a) (ab_snaps a)). split; [apply spec_write|]. split; try done.
  - by eapply DataOk_same.
  - apply queue_enqueue; [done|done|done|lia].
  - cbn [ab_ops ab_queue]. rewrite zlen_app, queue_ops_app, zlen_app, queue_ops_cons. change (queue_ops []) with (@nil WriteOp). rewrite app_nil_r. lia.
Qed.

Lemma return_sim (d : DB) (a : Abs) (g : Ghost) (k : nat) (n : Z) (id : Z) (d' : DB) (o : Out) :
  DbOk d a g k n -> exec (StReturn id) d = Some (d', o) -> exists a', spec a (StReturn id) o a' /\ DbOk d' a' g k n.
Proof.
  intros [HI HD HQ He Hs Hm Hlf Hdk Hc] Ex. cbn [DbStep.exec] in Ex. destruct (db_writer_objects d !! id) as [w|] eqn:Eo; [|done]. cbn in Ex. destruct (dw_done w) eqn:Ed; [|done]. injection Ex as <- <-.
  destruct (queue_return d (ab_ops a) (g_pend g) (ab_queue a) (ab_told a) id w HQ Eo Ed) as (Hin & -> & HQ'). eexists. split; [by apply spec_return|]. split; try done. by eapply DataOk_same.
Qed.

Lemma finish_sim (d : DB) (a : Abs) (g : Ghost) (k : nat) (n : Z) (d' : DB) (o : Out) :
  DbOk d a g k n -> exec StFinish d = Some (d', o) -> exists a' g', spec a StFinish o a' /\ DbOk d' a' g' k n.
Proof.
  intros [HI HD HQ He Hs Hm Hlf Hdk Hc] Ex. cbn [DbStep.exec] in Ex. destruct (db_writers d) as [|id ws] eqn:Ew; [done|]. destruct (db_front d) as [|? ?|lw publish of_tmp s] eqn:Ef; [done|done|].
  destruct (queue_finish d (ab_ops a) (g_pend g) (ab_queue a) (ab_told a) id lw ws publish of_tmp s HQ Ef Ew) as (u & group & rest & d1 & Eq & Ep & Efin & HQ' & _ & Hlast & vs & objects & tmp & Ed1 & Hvs).
  rewrite Efin in Ex. injection Ex as <- <-. exists (mkAbs (ab_ops a ++ g_pend g) rest (list_to_set (map fst group) ∪ ab_told a) (ab_snaps a)).
  assert (v_files (current vs) = v_files (current (db_versions d)) /\ pickable (current vs) /\ vs_next_file_number vs = vs_next_file_number (db_versions d) /\
    vs_manifest_file_number vs = vs_manifest_file_number (db_versions d) /\ vs_descriptor_log vs = vs_descriptor_log (db_versions d)) as (V1 & V2 & V3 & V4 & V5).
  { pose proof (fi_pick _ _ _ _ _ _ _ HI). by destruct Hvs as [->|[m ->]]. }
  exists (mkGhost [] (g_mem g) (g_imm g) (g_disk g) (g_map g) (g_min g) (g_live g) (g_b1 g) (g_b2 g) (g_logs g)). split; [rewrite Ep; by eapply spec_finish|]. split.
  - subst d1. cbn [set_writers set_files db_versions db_tables g_disk g_map]. eapply FilesOk_vs; [exact HI|done|lia|done|done|done|done].
  - cbn [ab_ops]. apply (data_publish d); [done|by subst d1..| |by subst d1]. apply Hlast, (da_last _ _ _ HD).
  - exact HQ'.
  - by subst d1.
  - exact Hs.
  - subst d1. eapply manual_ok_same; [exact Hm|done|done].
  - by subst d1.
  - cbn [ab_ops g_pend]. rewrite app_nil_r. pose proof (Hlast (da_last _ _ _ HD)) as Hl1. pose proof (da_last _ _ _ HD) as Hl0. pose proof (zlen_app (ab_ops a) (g_pend g)) as Hz. pose proof (zlen_nonneg (g_pend g)). subst d1.
    cbn [set_writers set_files db_versions db_tables db_logfile_number] in *. assert (vs_log_number vs = vs_log_number (db_versions d) /\ vs_prev_log_number vs = vs_prev_log_number (db_versions d) /\ vs_compact_pointer vs = vs_compact_pointer (db_versions d)) as (V6 & V7 & V8) by (by destruct Hvs as [->|[m ->]]).
    pose proof (fi_next _ _ _ _ _ _ _ HI). eapply DiskOk_frame; [exact Hdk|done|done|done| |lia|lia|constructor|done..]. unfold pointers_ok. rewrite V8. destruct (dk_recorded _ _ _ _ _ _ Hdk) as (x & HR). apply HR.
  - cbn [ab_ops ab_queue]. rewrite Eq, queue_ops_app, <- Ep in Hc. by rewrite <- app_assoc.
Qed.

(** *** The front writer *)

Lemma front_sim_same (d : DB) (a : Abs) (g : Ghost) (k : nat) (n : Z) (force delay : bool) :
  DbOk d a g k n -> g_pend g = [] -> db_tmp_batch d = newWriteBatch -> DbOk (set_front (MakingRoom force delay) d) a g k n.
Proof.
  intros [HI HD HQ He Hs Hm Hlf Hdk Hc] Hp Ht. split; try done; [by eapply DataOk_same|]. rewrite Hp in *. destruct HQ. by split.
Qed.

(** Room is made: a new memtable and a new log. *)
Lemma switch_ok (d : DB) (a : Abs) (g : Ghost) (k : nat) (n : Z) (force delay : bool) :
  DbOk d a g (S k) n -> g_pend g = [] -> db_imm d = None -> ok (db_bg_error d) = true ->
  let '(new_log_num, vs) := NewFileNumber (db_versions d) in
  exists lfile env, fs_NewWritableFile (LogFileName dbname new_log_num) (tc_env (db_tables d)) = (Ok lfile, env) /\
    exists g', g_pend g' = [] /\ DbOk (switch_memtable dbname new_log_num lfile (set_files (set_env env (db_tables d)) vs d)) a g' k n.
Proof.
  intros [HI HD HQ He Hs Hm Hlf Hdk Hc] Hp Hi _. unfold NewFileNumber. set (num := vs_next_file_number (db_versions d)). destruct (fi_next _ _ _ _ _ _ _ HI) as [N1 N2]. fold num in N1, N2.
  assert (num_ok num) as Hnum by (unfold num_ok; lia). pose proof (keeps_new dbname (LogFileName dbname num) (tc_env (db_tables d))) as Hk1.
  destruct (fs_NewWritableFile_spec (LogFileName dbname num) (tc_env (db_tables d))) as (lfile & env & El & Hc0). rewrite El in Hk1. cbn [snd] in Hk1. exists lfile, env. split; [done|].
  destruct (da_log _ _ _ HD) as (bs & Hlog & Hbs). rewrite Hp, app_nil_r in Hbs. exists (mkGhost [] [] (g_mem g) (g_disk g) (g_map g) (g_min g) (g_live g) (g_b2 g) (zlen (ab_ops a)) (g_logs g ++ [(db_logfile_number d, bs)])). split; [done|]. unfold switch_memtable. split; try done.
  - cbn [set_memtables set_log set_files db_versions db_tables g_disk g_map set_env tc_env].
    assert (FilesOk (set_next_file (u64 (num + 1)) (db_versions d)) (db_tables d) (g_disk g) (g_map g) k) as HI1.
    { eapply FilesOk_vs; [exact HI|lia| |done|done|done|apply HI]. cbn. rewrite wrap_small by lia. unfold num in *. lia. }
    apply (FilesOk_env dbname (table_options options) _ (set_env env (db_tables d))).
    + apply (FilesOk_env dbname (table_options options) _ (db_tables d)); [exact HI1|]. apply Hk1. intros m Hm'. by apply TableFileName_other.
    + apply keeps_written. intros m Hm'. by apply TableFileName_other.
  - by apply (data_switch d _ (ab_ops a) g lfile _ HD Hp Hi).
  - cbn [g_pend]. rewrite Hp in HQ. by eapply QueueOk_same.
  - cbn [g_pend]. rewrite app_nil_r. rewrite Hp, app_nil_r in Hdk. pose proof (da_imm _ _ _ HD) as Him. rewrite Hi in Him. pose proof (da_order _ _ _ HD).
    pose proof (DiskOk_switch dbname (db_versions d) (tc_env (db_tables d)) (db_logfile_number d) (db_log d) bs (ab_ops a) g
      (mkGhost [] [] (g_mem g) (g_disk g) (g_map g) (g_min g) (g_live g) (g_b2 g) (zlen (ab_ops a)) (g_logs g ++ [(db_logfile_number d, bs)])) Hdk Hlog Hbs (da_no_imm _ _ _ HD Him) ltac:(lia) ltac:(fold num; lia) eq_refl eq_refl eq_refl eq_refl) as Hsw.
    fold num in Hsw. rewrite El in Hsw. exact Hsw.
Qed.

(** A group reaches the log and the memtable. *)
Lemma group_ok (d : DB) (a : Abs) (g : Ghost) (k : nat) (n : Z) (id : Z) (ws : list Z) (w : DbWriter) :
  DbOk d a g k n -> g_pend g = [] -> db_tmp_batch d = newWriteBatch -> db_writers d = id :: ws -> db_writer_objects d !! id = Some w ->
  exists g', DbOk (Write_group (C := C) id w d) a g' k n.
Proof.
  intros [HI HD HQ He Hs Hm Hlf Hdk Hc] Hp Ht Ew Eo. rewrite Hp in HQ. pose proof (qu_writers _ _ _ _ _ HQ) as Hq. rewrite Ew in Hq. destruct (ab_queue a) as [|[x u] q] eqn:Eq; [done|]. injection Hq as <- Hq.
  destruct (qu_objects _ _ _ _ _ HQ id u) as (w' & Eo' & W1 & W2 & s0 & W3); [by left|]. assert (w' = w) as -> by congruence. unfold Write_group. rewrite W3.
  destruct u as [first|]; cbn [fmap option_fmap option_map].
  2:{ exists g. split; try done; [by eapply DataOk_same| |by rewrite Eq]. rewrite Hp, Eq. destruct HQ. split; try done. cbn. split_and!; [done|done|]. exists id, None, [], q. by rewrite Ht || done. }
  rewrite zlen_app in Hc. pose proof (zlen_nonneg (ab_ops a)). destruct (queue_group d (ab_ops a) q (ab_told a) id s0 first (dw_sync w) HQ Ht ltac:(lia)) as (s & group & rest & of_tmp & -> & Er & Hof).
  set (new := queue_ops ((id, Some first) :: group)) in *. assert (queue_ops ((id, Some first) :: q) = new ++ queue_ops rest) as Enew by (rewrite Er; unfold new; rewrite !queue_ops_cons, queue_ops_app; apply app_assoc).
  pose proof (qu_fits _ _ _ _ _ HQ) as Hfits. rewrite Enew in Hfits, Hc. apply Forall_app in Hfits as [Hfits _]. rewrite zlen_app in Hc. pose proof (zlen_nonneg (queue_ops rest)). pose proof (zlen_nonneg new).
  cbv zeta. rewrite SetSequence_spec, (da_last _ _ _ HD), Count_batch by lia. rewrite (wrap_small 64 (zlen (ab_ops a) + 1)), (wrap_small 64 (zlen (ab_ops a) + zlen new)) by lia.
  destruct (data_write (C := C) slen zstlen sun zun dbname d (ab_ops a) new g (dw_sync w) HD Hp Hfits ltac:(rewrite zlen_app; lia)) as (log' & mem' & es' & Elog & Eins & HD').
  set (d1 := if of_tmp then _ else _). assert (same_core d (set_writers (db_writer_objects d) (db_writers d) (db_front d) (set_tmp_batch (db_tmp_batch d) d1)) /\ db_versions d1 = db_versions d /\
    db_tables d1 = db_tables d /\ db_manual d1 = db_manual d /\ db_manual_objects d1 = db_manual_objects d) as ((S1 & S2 & S3 & S4 & _ & _ & _ & _ & S9 & S10) & Ev & Etb & Em & Emo).
  { unfold d1. by destruct of_tmp. }
  cbn [set_writers set_tmp_batch db_mem db_imm db_log db_snapshots db_bg_error db_logfile_number] in S1, S2, S3, S4, S9, S10. rewrite S3, Elog. cbn [set_log db_mem]. rewrite S1, Eins.
  exists (mkGhost new es' (g_imm g) (g_disk g) (g_map g) (g_min g) (g_live g) (g_b1 g) (g_b2 g) (g_logs g)). split.
  - cbn. by rewrite Ev, Etb.
  - apply HD'; cbn; [done|by rewrite S2|done|done|done].
  - rewrite Eq. destruct HQ as [Q1 Q2 Q3 Q4 Q5 Q6 _].
    assert (db_writers d1 = db_writers d /\ (of_tmp = false -> db_tmp_batch d1 = newWriteBatch) /\ forall y v, db_writer_objects d !! y = Some v ->
      exists v', db_writer_objects d1 !! y = Some v' /\ dw_status v' = dw_status v /\ dw_done v' = dw_done v /\ (dw_batch v' = dw_batch v \/ y = id /\ exists s1, dw_batch v' = Some (batch_bytes s1 first))) as (D1 & D2 & D3).
    { unfold d1. destruct of_tmp; [split_and!; [done|done|]; intros y v Hy; exists v; split_and!; [done..|by left]|]. split_and!; [done|done|]. intros y v Hy. cbn [set_writers db_writer_objects].
      destruct (decide (y = id)) as [->|Hne]; [|exists v; rewrite lookup_insert_ne by done; split_and!; [done..|by left]]. assert (v = w) as -> by congruence.
      eexists. rewrite lookup_insert_eq. split_and!; [done|done|done|]. right. split; [done|]. exists (zlen (ab_ops a) + 1). cbn [dw_batch]. by rewrite (Hof eq_refl). }
    assert (forall y v, db_writer_objects d1 !! y = Some v -> is_Some (db_writer_objects d !! y)) as D4.
    { intros y v. unfold d1. destruct of_tmp; cbn; [eauto|]. destruct (decide (y = id)) as [->|]; [eauto|]. rewrite lookup_insert_ne by done. eauto. }
    split; cbn [set_front set_writers set_memtables set_log db_writers db_writer_objects].
    + by rewrite D1.
    + done.
    + intros y v Hy. destruct (Q3 y v Hy) as (wy & Hwy & Y1 & Y2 & sy & Y3). destruct (D3 y wy Hwy) as (v' & Hv' & V1 & V2 & V3). exists v'. split; [done|]. split_and!; [by rewrite V1|by rewrite V2|].
      destruct V3 as [->|[-> [s1 ->]]]; [by exists sy|]. exists s1. assert (v = Some first) as ->; [|done]. rewrite Eo in Hwy. injection Hwy as <-. cbn [map fst] in Q2. apply NoDup_cons in Q2 as [Qx _].
      apply elem_of_cons in Hy as [[= ->]|Hy]; [done|]. exfalso. apply Qx, list_elem_of_fmap. by exists (id, v).
    + intros y Hy. destruct (Q4 y Hy) as (wy & Hwy & Y1 & Y2). destruct (D3 y wy Hwy) as (v' & Hv' & V1 & V2 & _). exists v'. by rewrite V1, V2.
    + intros y v Hy. destruct (D4 y v Hy) as [v0 Hv0]. by eapply Q5.
    + done.
    + unfold front_ok. cbn [set_front set_writers set_memtables set_log db_front db_tmp_batch g_pend]. split_and!; [done|done|]. exists id, (Some first), group, rest. split_and!; [by rewrite Er|done|done|]. by rewrite zlen_app.
  - cbn. by rewrite S9.
  - done.
  - eapply manual_ok_same; [exact Hm|done|done].
  - cbn. by rewrite S10.
  - cbn. rewrite Ev, Etb, S10. rewrite Hp, app_nil_r in Hdk. pose proof (da_order _ _ _ HD). eapply DiskOk_ghost; [apply DiskOk_ops; [exact Hdk|lia|lia]|done..].
  - rewrite Eq, Enew, !zlen_app. lia.
Qed.

Lemma room_sim (d : DB) (a : Abs) (g : Ghost) (k : nat) (n : Z) (d' : DB) (o : Out) :
  DbOk d a g (S k) n -> exec StRoom d = Some (d', o) -> exists g', spec a StRoom o a /\ DbOk d' a g' k n.
Proof.
  intros HO Ex. cbn [DbStep.exec] in Ex. destruct (db_writers d) as [|id ws] eqn:Ew; [done|]. destruct (db_writer_objects d !! id) as [w|] eqn:Eo; [|done]. cbn in Ex.
  destruct (room_flags w d) as [[force delay]|] eqn:Ef; [|done]. cbn in Ex.
  assert (g_pend g = [] /\ db_tmp_batch d = newWriteBatch) as [Hp Ht].
  { pose proof (qu_front _ _ _ _ _ (ok_queue _ _ _ _ _ HO)) as Hfr. unfold front_ok in Hfr. unfold room_flags in Ef. by destruct (db_front d). }
  pose proof (DbOk_less d a g (S k) k n n HO ltac:(lia) ltac:(pose proof (ok_count _ _ _ _ _ HO); lia)) as HO'. pose proof (ok_error _ _ _ _ _ HO) as He.
  unfold front_step, room_step in Ex. rewrite He in Ex. cbn [ok StatusOK negb] in Ex. change (negb (ok None)) with false in Ex. cbv iota in Ex.
  destruct (delay && _); [injection Ex as <- <-; exists g; split; [constructor|by apply front_sim_same]|].
  destruct (negb force && _); [injection Ex as <- <-; destruct (group_ok d a g k n id ws w HO' Hp Ht Ew Eo) as (g' & Hg); exists g'; split; [constructor|done]|].
  destruct (db_imm d) as [imm|] eqn:Ei; [injection Ex as <- <-; exists g; split; [constructor|by apply front_sim_same]|].
  destruct (_ <=? _); [injection Ex as <- <-; exists g; split; [constructor|by apply front_sim_same]|].
  pose proof (switch_ok d a g k n force delay HO Hp Ei ltac:(by rewrite He)) as Hsw. destruct (NewFileNumber (db_versions d)) as [num vs]. destruct Hsw as (lfile & env & El & g' & Hp' & HO1).
  rewrite El in Ex. injection Ex as <- <-. exists g'. split; [constructor|]. apply front_sim_same; [by apply DbOk_schedule|done|]. unfold MaybeScheduleCompaction. destruct (_ || _); exact Ht.
Qed.

(** ** The background thread *)

Lemma internal_entries_inj (D D' : versions) : seqs_ok D -> seqs_ok D' -> internal_entries D = internal_entries D' -> D = D'.
Proof.
  revert D'. induction D as [|[p v] D IH]; intros [|[q w] D'] H1 H2 E0; [done|done|done|]. unfold internal_entries in E0. cbn [map fst snd] in E0. injection E0 as Ek -> Er. f_equal.
  - f_equal. apply (f_equal ParseInternalKey) in Ek. rewrite !ParseInternalKey_encode in Ek; [by injection Ek|apply (H2 q w); by left|apply (H1 p w); by left].
  - apply IH; [intros x y Hx; apply (H1 x y); by right|intros x y Hx; apply (H2 x y); by right|done].
Qed.

(** A file moved: the entries are the same. *)
Lemma data_move (d d' : DB) (ops : list WriteOp) (g : Ghost) (M' : file_map) :
  DataOk d ops g -> length (v_files (current (db_versions d))) = kNumLevels -> length (v_files (current (db_versions d'))) = kNumLevels ->
  (forall p x, version_has (current (db_versions d')) (g_disk g) p x <-> version_has (current (db_versions d)) (g_disk g) p x) ->
  db_mem d' = db_mem d -> db_imm d' = db_imm d -> db_log d' = db_log d -> db_snapshots d' = db_snapshots d -> vs_last_sequence (db_versions d') = vs_last_sequence (db_versions d) ->
  DataOk d' ops (mkGhost (g_pend g) (g_mem g) (g_imm g) (g_disk g) M' (g_min g) (g_live g) (g_b1 g) (g_b2 g) (g_logs g)).
Proof.
  intros HD Hl Hl' Hhas Em Ei El Es Eq.
  assert (forall p x, (p, x) ∈ version_entries (current (db_versions d')) (g_disk g) <-> (p, x) ∈ version_entries (current (db_versions d)) (g_disk g)) as Hent.
  { intros p x. by rewrite !version_entries_elem. }
  split; cbn [g_pend g_mem g_imm g_disk g_map g_min g_live g_b1 g_b2 g_logs]; rewrite ?Em, ?Ei, ?El, ?Es, ?Eq; try apply HD.
  - eapply agrees_perm; [|apply HD]. intros p x. unfold all_entries. cbn [g_mem g_imm g_disk]. by rewrite !elem_of_app, Hent.
  - intros p x Hp%Hent. by eapply (da_version_seq _ _ _ HD).
Qed.

(** New files, the rest as it is. *)
Lemma DbOk_install (d d' : DB) (a : Abs) (g g' : Ghost) (k k' : nat) (n : Z) :
  DbOk d a g k n -> FilesOk (db_versions d') (db_tables d') (g_disk g') (g_map g') k' -> DataOk d' (ab_ops a) g' -> g_pend g' = g_pend g -> g_live g' = g_live g ->
  db_writers d' = db_writers d -> db_writer_objects d' = db_writer_objects d -> db_front d' = db_front d -> db_tmp_batch d' = db_tmp_batch d -> db_bg_error d' = db_bg_error d ->
  db_logfile_number d' = db_logfile_number d -> manual_ok d' -> DiskOk (db_versions d') (tc_env (db_tables d')) (db_logfile_number d) (ab_ops a ++ g_pend g) g' -> DbOk d' a g' k' n.
Proof.
  intros [] HI HD Ep El E1 E2 E3 E4 E5 E6 Hm Hdk. split; [done|done| | | |done| |by rewrite Ep, E6|done].
  - rewrite Ep. by eapply QueueOk_same.
  - by rewrite E5.
  - intros p s. rewrite El. apply ok_snaps0.
  - by rewrite E6.
Qed.

Lemma flush_sim (stop : option nat) (fuel : nat) (imm : MemTable Rnd) (d : DB) (a : Abs) (g : Ghost) (k : nat) (n : Z) :
  DbOk d a g (S k) n -> db_imm d = Some imm -> background_fits fuel stop d ->
  exists d' g', CompactMemTable (C := C) (P := P) slen zstlen sun zun dbname options fuel imm d = Some d' /\ DbOk d' a g' k n.
Proof.
  intros HO Ei Hfit. unfold background_fits in Hfit. rewrite Ei in Hfit. destruct Hfit as (D' & Escan & Hseq' & Hfit). pose proof (ok_data _ _ _ _ _ HO) as HD. pose proof (ok_files _ _ _ _ _ HO) as HI.
  pose proof (da_imm _ _ _ HD) as Him. rewrite Ei in Him. destruct (mem_scan (C := C) imm (g_imm g) Him) as (D & Hperm & Hsrt & Hscan).
  destruct (scan_list_spec (H := MemTableIterator_iter (C := C)) _ _ fuel _ Hscan Escan) as [Eint Hlen]. pose proof (da_order _ _ _ HD) as Hord. destruct (da_fits _ _ _ HD) as [_ Hz].
  rewrite zlen_app in Hz. pose proof (zlen_nonneg (g_pend g)).
  assert (forall p x, (p, x) ∈ D -> (p, x) ∈ map version_of (g_imm g)) as Hin by (intros p x; by rewrite Hperm).
  assert (seqs_ok D) as Hseq.
  { intros p x Hp. apply Hin, list_elem_of_fmap in Hp as (e & [= -> ->] & He). apply (da_imm_seq _ _ _ HD) in He. unfold entry_seq in He. unfold seq_ok. change kMaxSequenceNumber with (2 ^ 56 - 1). lia. }
  apply internal_entries_inj in Eint; [|done|done]. subst D'. unfold internal_entries in Hlen. rewrite length_map in Hlen. pose proof (vr_length _ _ (fi_rep _ _ _ _ _ _ _ HI)) as Hv.
  destruct (fi_next _ _ _ _ _ _ _ HI) as [N1 N2]. pose proof (ok_disk _ _ _ _ _ HO) as Hdk.
  assert (exists d1 disk' M' logs, CompactMemTable (C := C) (P := P) slen zstlen sun zun dbname options fuel imm d = Some (set_memtables (db_mem d) None d1) /\ files_only d d1 /\
    FilesOk (db_versions d1) (db_tables d1) disk' M' k /\ (forall p x, version_has (current (db_versions d1)) disk' p x <-> (p, x) ∈ D \/ version_has (current (db_versions d)) (g_disk g) p x) /\
    DiskOk (db_versions d1) (tc_env (db_tables d1)) (db_logfile_number d) (ab_ops a ++ g_pend g) (mkGhost (g_pend g) (g_mem g) [] disk' M' (g_min g) (g_live g) (g_b2 g) (g_b2 g) logs)) as (d1 & disk' & M' & logs & Ec & Hfo & HI1 & Hhas & Hdk1).
  { destruct D as [|[p0 v0] D].
    - destruct (CompactMemTable_empty (C := C) (P := P) slen zstlen sun zun dbname (table_options options) options fuel imm d (g_disk g) (g_map g) k HI Hscan) as (d1 & Ec & Hfo & HI1 & Ev & Hev).
      exists d1, (g_disk g), (g_map g), (g_logs g). split; [done|]. split; [done|]. split; [done|]. split; [intros p x; rewrite Ev; split; [by right|]; intros [Hp|?]; [by apply not_elem_of_nil in Hp|done]|].
      assert (g_imm g = []) as Hi0 by (apply Permutation_nil in Hperm; by apply fmap_nil_inv in Hperm). pose proof (da_no_imm _ _ _ HD Hi0) as Eb.
      rewrite Ev. eapply DiskOk_ghost; [eapply DiskOk_frame; [exact Hdk|done|done|done|by eapply DbOk_pointers|cbn; rewrite wrap_small by lia; lia|done|exact Hev|done..]|done|done|done|done].
    - destruct (CompactMemTable_ok (C := C) (P := P) slen zstlen sun zun dbname (table_options options) options Hri eq_refl fuel imm d (g_disk g) (g_map g) k p0 v0 D HI Hscan Hsrt Hfit Hlen) as (d1 & disk' & M' & Ec & Hfo & HI1 & Hins & Hhas).
      + intros p x Hp. split; [by apply (Hseq p x)|]. apply (da_small d (ab_ops a) g p x HD). unfold all_entries. rewrite !elem_of_app. right. left. by apply Hin.
      + apply (ok_logfile _ _ _ _ _ HO).
      + intros p x q y Hp Hq. apply (proj2 (da_layers _ _ _ HD) p x q y); [by apply Hin|]. by apply version_entries_elem.
      + exists d1, disk', M', []. split; [done|]. split; [done|]. split; [done|]. split; [done|].
        eapply (DiskOk_flush Hname dbname); [exact Hdk|exact Hins|apply HI|lia|apply HI|..|done|done|done]; rewrite (da_last _ _ _ HD); [unfold num_ok; pose proof (zlen_nonneg (ab_ops a)); lia|lia]. }
  destruct Hfo as (tables & vs & -> & Els). exists (set_memtables (db_mem d) None (set_files tables vs d)), (mkGhost (g_pend g) (g_mem g) [] disk' M' (g_min g) (g_live g) (g_b2 g) (g_b2 g) logs). split; [done|].
  eapply DbOk_install; [exact HO|exact HI1| |done..| |exact Hdk1]; [|eapply manual_ok_same; [apply HO|done|done]].
  apply (data_flush slen zstlen sun zun dbname d (set_memtables (db_mem d) None (set_files tables vs d)) (ab_ops a) g D disk' M' logs HD Hv (vr_length _ _ (fi_rep _ _ _ _ _ _ _ HI1)) Hperm Hhas); done.
Qed.

(** The state in which a compaction runs: pointers and the manual compaction changed.
    It reads its input up to the end or to a shutdown. *)
Lemma compaction_runs (stop : option nat) (fuel : nat) (c : Compaction) (d0 : DB) (a : Abs) (g : Ghost) (k : nat) (n : Z) (D : versions) :
  DbOk d0 a g (S k) n -> inputs_closed (C := C) (current (db_versions d0)) c -> (c_level c + 1 < kNumLevels)%nat ->
  scan_list (H := InputIter_iter (C := C) (P := P) slen zstlen sun zun dbname (table_options options) (db_tables d0) c) fuel (input_of c d0) = Some (internal_entries D) -> seqs_ok D ->
  let out := compaction_output (C := C) (smallest_snapshot (db_snapshots d0) (db_versions d0)) c (until stop D) in
  out <> [] -> fits out ->
  exists d1 disk' M', run_compaction (C := C) (P := P) slen zstlen sun zun dbname options fuel (stopped stop) c d0 = Some (Ok tt, d1) /\ files_only d0 d1 /\
    FilesOk (db_versions d1) (db_tables d1) disk' M' k /\ installs (C := C) (SF := SF) dbname (db_versions d0) (tc_env (db_tables d0)) (g_map g) None (db_versions d1) (tc_env (db_tables d1)) M' /\ compacted c out d0 d1 (g_disk g) disk' /\
    D ≡ₚ concat (map (file_entries (g_disk g)) (c_inputs0 c ++ c_inputs1 c)) /\ keys_sorted (C := InternalKeyComparator C) (internal_entries D).
Proof.
  intros HO Hc Hl Escan Hseq' out Hne Hfit. pose proof (ok_data _ _ _ _ _ HO) as HD. pose proof (ok_files _ _ _ _ _ HO) as HI. pose proof (vr_length _ _ (fi_rep _ _ _ _ _ _ _ HI)) as Hv.
  destruct (inputs_sorted (current (db_versions d0)) (file_entries (g_disk g)) c (fi_version _ _ _ _ _ _ _ HI) Hv Hc Hl Heq) as (D1 & Hperm & Hsrt).
  pose proof (compaction_scans (C := C) (P := P) slen zstlen sun zun dbname (table_options options) c d0 (g_disk g) (g_map g) (S k) D1 HI Hc Hl Hperm Hsrt) as Hscan.
  destruct (scan_list_spec (H := InputIter_iter (C := C) (P := P) slen zstlen sun zun dbname (table_options options) (db_tables d0) c) _ _ fuel _ Hscan Escan) as [Eint Hlen].
  assert (seqs_ok D1) as Hseq.
  { intros p x Hp. rewrite Hperm, inputs_elem in Hp. destruct Hp as (lf & Hi & Hp). by apply (co_seq _ _ (proj2 (vo_files _ _ (fi_version _ _ _ _ _ _ _ HI) lf (input_in_version _ _ Hv Hc Hl lf Hi))) p x). }
  apply internal_entries_inj in Eint; [|done|done]. subst D1. unfold internal_entries in Hlen. rewrite length_map in Hlen. destruct out as [|[p0 v0] D0] eqn:Eout; [done|].
  pose proof (proj1 (smallest_snapshot_ok d0 (ab_ops a) g HD)) as Hsm. destruct (da_fits _ _ _ HD) as [_ Hz]. rewrite zlen_app in Hz. pose proof (zlen_nonneg (g_pend g)).
  destruct (run_compaction_ok (C := C) (P := P) slen zstlen sun zun dbname (table_options options) options Hri eq_refl stop fuel c d0 (g_disk g) (g_map g) k D p0 v0 D0 HI Hc Hl) as (d1 & disk' & M' & Er & Hfo & HI1 & Hins & Hcomp).
  { by apply (data_no_twins d0 (ab_ops a) g). } { done. } { done. } { change kMaxSequenceNumber with (2 ^ 56 - 1). lia. } { done. } { exact Eout. } { done. }
  { intros p x Hp. rewrite Hperm, inputs_elem in Hp. destruct Hp as (lf & Hi & Hp). apply (da_small d0 (ab_ops a) g p x HD). unfold all_entries. rewrite !elem_of_app. right. right.
    apply version_entries_elem; [done|]. exists lf. split; [by apply (input_in_version _ _ Hv Hc Hl)|done]. }
  { by eapply DbOk_meta. }
  by exists d1, disk', M'.
Qed.

Lemma compaction_sim (stop : option nat) (fuel : nat) (c : Compaction) (d d0 : DB) (a : Abs) (g : Ghost) (k : nat) (n : Z) (D : versions) :
  DbOk d0 a g (S k) n -> inputs_closed (C := C) (current (db_versions d0)) c -> (c_level c + 1 < kNumLevels)%nat ->
  scan_list (H := InputIter_iter (C := C) (P := P) slen zstlen sun zun dbname (table_options options) (db_tables d0) c) fuel (input_of c d0) = Some (internal_entries D) -> seqs_ok D ->
  let out := compaction_output (C := C) (smallest_snapshot (db_snapshots d0) (db_versions d0)) c D in
  out <> [] -> fits out -> too_late stop D ->
  exists d1 g', run_compaction (C := C) (P := P) slen zstlen sun zun dbname options fuel (stopped stop) c d0 = Some (Ok tt, d1) /\ files_only d0 d1 /\ DbOk d1 a g' k n.
Proof.
  intros HO Hc Hl Escan Hseq out Hne Hfit Hstop. pose proof (ok_data _ _ _ _ _ HO) as HD. pose proof (ok_files _ _ _ _ _ HO) as HI. unfold out in *. rewrite <- (until_too_late stop D Hstop) in Hne, Hfit.
  destruct (compaction_runs stop fuel c d0 a g k n D HO Hc Hl Escan Hseq Hne Hfit) as (d1 & disk' & M' & Er & Hfo & HI1 & Hins & Hcomp & Hperm & Hsrt). rewrite (until_too_late stop D Hstop) in Hcomp, Hne.
  destruct (da_fits _ _ _ HD) as [_ Hz]. rewrite zlen_app in Hz. pose proof (zlen_nonneg (g_pend g)).
  pose proof (fi_next _ _ _ _ _ _ _ HI) as Hnx. destruct Hfo as (tables & vs & -> & Els). eexists _, (mkGhost (g_pend g) (g_mem g) (g_imm g) disk' M' (smallest_snapshot (db_snapshots d0) (db_versions d0)) (g_live g) (g_b1 g) (g_b2 g) (g_logs g)).
  split_and!; [exact Er|by exists tables, vs|]. eapply DbOk_install; [exact HO|exact HI1| |done..| |]; [|eapply manual_ok_same; [apply HO|done|done]|].
  2:{ eapply (DiskOk_compact Hname dbname); [apply (ok_disk _ _ _ _ _ HO)|exact Hins|apply HI|lia|apply HI| |done|done|done]. rewrite (da_last _ _ _ HD). unfold num_ok. pose proof (zlen_nonneg (ab_ops a)). lia. }
  apply (data_compact slen zstlen sun zun Heq (P := P) dbname options d0 _ (ab_ops a) g (S k) c D (compaction_output (C := C) (smallest_snapshot (db_snapshots d0) (db_versions d0)) c D) disk' M' HD HI Hc Hl Hperm Hsrt); try done. apply HI1.
Qed.

(** The pointer that a compaction moves is a key of an input file. *)
Lemma set_pointers_ok (d : DB) (a : Abs) (g : Ghost) (k : nat) (n : Z) (c : Compaction) :
  DbOk d a g k n -> inputs_closed (C := C) (current (db_versions d)) c -> (c_level c + 1 < kNumLevels)%nat ->
  DbOk (set_files (db_tables d) (set_pointers (<[c_level c := snd (GetRange (C := C) (c_inputs0 c))]> (vs_compact_pointer (db_versions d))) (db_versions d)) d) a g k n.
Proof.
  intros HO Hc Hl. pose proof (ok_files _ _ _ _ _ HO) as HI. destruct (DbOk_pointers d a g k n HO) as [Hp1 Hp2].
  assert (c_inputs0 c <> []) as Hne by apply (lc_nonempty _ _ _ (ic_level _ _ Hc)). destruct (GetRange_spec (C := C) _ Hne) as (_ & _ & f & Hf & Ef).
  assert (in_version (current (db_versions d)) (c_level c, f)) as Hiv by (apply (input_in_version _ c (vr_length _ _ (fi_rep _ _ _ _ _ _ _ HI)) Hc Hl); by left).
  destruct (DbOk_meta d a g k n HO _ _ (fi_in_version _ _ _ _ _ _ _ _ HI Hiv)) as (_ & _ & _ & [_ Hk] & _). cbn [snd] in Hk.
  eapply DbOk_step; [exact HO|done| | |done|done|eapply manual_ok_same; [apply HO|done|done]].
  - split_and!; [done|done|done|done|done|]. split; cbn [set_files db_versions set_pointers vs_compact_pointer]; [by rewrite length_insert|]. intros p Hp. apply list_elem_of_lookup in Hp as [i Hi].
    apply list_lookup_insert_Some in Hi as [(_ & <- & _)|[_ Hi]]; [by rewrite Ef|]. apply Hp2. by apply list_elem_of_lookup_2 in Hi.
  - eapply FilesOk_vs; [apply HI|done|cbn; lia|done|done|done|apply (fi_pick _ _ _ _ _ _ _ HI)].
Qed.

Lemma set_files_id (d : DB) : set_files (db_tables d) (db_versions d) d = d.
Proof. by destruct d. Qed.

(** The manual compaction objects change; their levels stay. *)
Lemma set_manual_ok (d : DB) (a : Abs) (g : Ghost) (k : nat) (n : Z) (objects : gmap Z ManualCompaction) (m : option Z) :
  DbOk d a g k n -> (forall x, m = Some x -> is_Some (objects !! x)) -> (forall x mc, objects !! x = Some mc -> (mc_level mc + 1 < kNumLevels)%nat) -> DbOk (set_manual objects m d) a g k n.
Proof. intros HO H1 H2. eapply DbOk_step; [exact HO|done|by eapply same_disk_numbers|apply HO|done|done|done]. Qed.

Lemma manual_object_ok (d : DB) (a : Abs) (g : Ghost) (k : nat) (n : Z) (m : Z) (f : ManualCompaction -> ManualCompaction) :
  DbOk d a g k n -> (forall mc, mc_level (f mc) = mc_level mc) -> DbOk (set_manual_object m f d) a g k n.
Proof.
  intros HO Hf. destruct (ok_manual _ _ _ _ _ HO) as [H1 H2]. unfold set_manual_object. apply set_manual_ok; [done| |].
  - intros x Hx. destruct (H1 x Hx) as [mc Hmc]. destruct (decide (x = m)) as [->|Hne]; [rewrite lookup_alter_eq, Hmc; eauto|rewrite lookup_alter_ne by done; eauto].
  - intros x mc. destruct (decide (x = m)) as [->|Hne]; [|rewrite lookup_alter_ne by done; apply H2]. rewrite lookup_alter_eq. intros (mc0 & E0 & ->)%fmap_Some. rewrite Hf. by eapply H2.
Qed.

Lemma end_manual_ok (d : DB) (a : Abs) (g : Ghost) (k : nat) (n : Z) : DbOk d a g k n -> DbOk (end_manual d) a g k n.
Proof. intros HO. apply set_manual_ok; [done|done|apply HO]. Qed.

Lemma manual_sim (stop : option nat) (fuel : nat) (m : Z) (mc : ManualCompaction) (d : DB) (a : Abs) (g : Ghost) (k : nat) (n : Z) :
  DbOk d a g (S k) n -> db_imm d = None -> db_manual d = Some m -> db_manual_objects d !! m = Some mc -> background_fits fuel stop d ->
  exists d' g', manual_step (C := C) (P := P) slen zstlen sun zun dbname options fuel (stopped stop) m mc d = Some d' /\ DbOk d' a g' k n.
Proof.
  intros HO Ei Em Eo Hfit. unfold background_fits, chosen in Hfit. rewrite Ei, Em, Eo in Hfit. cbn [mbind option_bind] in Hfit. pose proof (ok_files _ _ _ _ _ HO) as HI.
  pose proof (VersionOk_sorted (current (db_versions d)) _ (fi_version _ _ _ _ _ _ _ HI) (vr_length _ _ (fi_rep _ _ _ _ _ _ _ HI))) as Hvs. pose proof (proj2 (ok_manual _ _ _ _ _ HO) m mc Eo) as Hl.
  pose proof (CompactRange_closed (o_max_file_size options) (mc_level mc) (mc_begin mc) (mc_end mc) (db_versions d) Hvs) as HC. unfold manual_step.
  destruct (CompactRange (o_max_file_size options) (mc_level mc) (mc_begin mc) (mc_end mc) (db_versions d)) as [[c|] vs]; cbn [fst] in Hfit.
  - destruct HC as (Hc & El & ->). destruct Hfit as (D & Escan & Hseq & Hne & Hfit & Hstop).
    pose proof (set_pointers_ok d a g (S k) n c HO Hc ltac:(rewrite El; done)) as HO0. rewrite El in HO0. pose proof (manual_object_ok _ a g (S k) n m (manual_done false) HO0 (fun _ => eq_refl)) as HO1.
    destruct (compaction_sim stop fuel c d _ a g k n D HO1 Hc ltac:(rewrite El; done) Escan Hseq Hne Hfit Hstop) as (d1 & g' & Er & _ & HO2). rewrite Er. eexists _, g'. split; [done|].
    by apply end_manual_ok, manual_object_ok.
  - destruct HC as [_ ->]. rewrite set_files_id. eexists _, g. split; [done|]. apply end_manual_ok, manual_object_ok; [|done]. eapply DbOk_less; [done|lia|]. pose proof (ok_count _ _ _ _ _ HO). lia.
Qed.

Lemma automatic_sim (stop : option nat) (fuel : nat) (d : DB) (a : Abs) (g : Ghost) (k : nat) (n : Z) :
  DbOk d a g (S k) n -> db_imm d = None -> db_manual d = None -> background_fits fuel stop d ->
  exists d' g', automatic_step (C := C) (P := P) slen zstlen sun zun dbname options fuel (stopped stop) d = Some d' /\ DbOk d' a g' k n.
Proof.
  intros HO Ei Em Hfit. unfold background_fits, chosen in Hfit. rewrite Ei, Em in Hfit. pose proof (ok_files _ _ _ _ _ HO) as HI.
  pose proof (VersionOk_sorted (current (db_versions d)) _ (fi_version _ _ _ _ _ _ _ HI) (vr_length _ _ (fi_rep _ _ _ _ _ _ _ HI))) as Hvs. pose proof (ok_count _ _ _ _ _ HO) as Hcount.
  pose proof (PickCompaction_closed (o_max_file_size options) (db_versions d) Hvs (fi_pick _ _ _ _ _ _ _ HI)) as HC. unfold automatic_step.
  destruct (PickCompaction (o_max_file_size options) (db_versions d)) as [[c|] vs]; cbn [fst mbind option_bind] in Hfit.
  2:{ destruct HC as [_ ->]. rewrite set_files_id. exists d, g. split; [done|]. eapply DbOk_less; [done|lia|lia]. }
  destruct HC as (_ & Hc & Hl & ->). pose proof (set_pointers_ok d a g (S k) n c HO Hc Hl) as HO1.
  set (d0 := set_files _ _ d) in *. destruct (IsTrivialMove (o_max_file_size options) c) eqn:Et.
  - unfold IsTrivialMove, c_num_input_files in Et. cbn [Nat.eqb] in Et. apply andb_true_iff in Et as [[E0 E1]%andb_true_iff _].
    pose proof (sublist_length _ _ (lc_sub _ _ _ (ic_level _ _ Hc))) as Z0. pose proof (vo_size _ _ (fi_version _ _ _ _ _ _ _ HI) (c_level c)) as Z1.
    pose proof (sublist_length _ _ (run_of_sublist _ _ (nc_run _ _ _ _ (ic_next _ _ Hc)))) as Z2. pose proof (vo_size _ _ (fi_version _ _ _ _ _ _ _ HI) (c_level c + 1)%nat) as Z3.
    unfold zlen in Z1, Z3. rewrite s32_small in E0, E1 by (unfold zlen; lia).
    assert (exists f, c_inputs0 c = [f]) as [f Ef]. { apply Z.eqb_eq in E0. unfold zlen in E0. destruct (c_inputs0 c) as [|f [|]]; cbn [length] in E0; [lia|eauto|lia]. }
    assert (c_inputs1 c = []) as Ef1. { apply Z.eqb_eq in E1. unfold zlen in E1. destruct (c_inputs1 c); cbn [length] in E1; [done|lia]. }
    rewrite Ef. pose proof (ok_data _ _ _ _ _ HO1) as HD. pose proof (ok_files _ _ _ _ _ HO1) as HI1. pose proof (vr_length _ _ (fi_rep _ _ _ _ _ _ _ HI1)) as Hv.
    destruct (trivial_move_ok (C := C) (P := P) dbname (table_options options) c f d0 (g_disk g) (g_map g) (S k) HI1 Hc Hl) as (d1 & M' & Er & (tables & vs & -> & Els) & HI2 & Hins & Hhas);
      [by apply (data_no_twins d0 (ab_ops a) g)|done|done|by eapply DbOk_meta|].
    rewrite Er. exists (set_seeks (delete (fm_number f) (db_seeks d0)) (set_files tables vs d0)), (mkGhost (g_pend g) (g_mem g) (g_imm g) (g_disk g) M' (g_min g) (g_live g) (g_b1 g) (g_b2 g) (g_logs g)). split; [done|]. change (current (db_versions (set_files tables vs d0))) with (current vs) in Hhas. pose proof (vr_length _ _ (fi_rep _ _ _ _ _ _ _ HI2)) as Hv2. change (db_versions (set_files tables vs d0)) with vs in Hv2.
    pose proof (fi_next _ _ _ _ _ _ _ HI1). apply (DbOk_install d0 _ a g _ (S k) k n HO1); try done; [|apply (data_move d0 (set_seeks (delete (fm_number f) (db_seeks d0)) (set_files tables vs d0)) (ab_ops a) g M' HD Hv Hv2 Hhas); done|eapply manual_ok_same; [apply HO1|done|done]|].
    2:{ eapply (DiskOk_compact Hname dbname); [apply (ok_disk _ _ _ _ _ HO1)|exact Hins|apply HI1|lia|apply HI1| |done|done|done]. rewrite (da_last _ _ _ HD). unfold num_ok. destruct (da_fits _ _ _ HD) as [_ Hz]. rewrite zlen_app in Hz. pose proof (zlen_nonneg (g_pend g)). pose proof (zlen_nonneg (ab_ops a)). lia. }
    cbn [g_disk g_map]. eapply FilesOk_vs; [exact HI2|lia|cbn; lia|done|done|done|apply HI2].
  - destruct Hfit as (D & Escan & Hseq & Hne & Hfit & Hstop). destruct (compaction_sim stop fuel c d d0 a g k n D HO1 Hc Hl Escan Hseq Hne Hfit Hstop) as (d1 & g' & Er & _ & HO2).
    exists d1, g'. split; [|done]. rewrite Er. by destruct (c_inputs0 c).
Qed.

(** A turn of the background thread always ends. *)
Lemma background_sim (stop : option nat) (fuel : nat) (d : DB) (a : Abs) (g : Ghost) (k : nat) (n : Z) :
  DbOk d a g (S k) n -> legal (StBackground fuel stop) d -> exists d' g', exec (StBackground fuel stop) d = Some (d', OutNone) /\ DbOk d' a g' k n.
Proof.
  intros HO Hl. pose proof (DbOk_less d a g (S k) k n n HO ltac:(lia) ltac:(pose proof (ok_count _ _ _ _ _ HO); lia)) as HO'. cbn [DbStep.exec]. unfold BackgroundCall.
  destruct (db_shutting_down d) eqn:Es; [exists d, g; split; [reflexivity|exact HO']|]. destruct (db_bg_compaction_scheduled d) eqn:Eb; [|exists d, g; split; [reflexivity|exact HO']]. destruct Hl as [?|[?|Hl]]; [congruence|congruence|].
  assert (exists d' g', BackgroundCompaction (C := C) (P := P) slen zstlen sun zun dbname options fuel (stopped stop) d = Some d' /\ DbOk d' a g' k n) as (d1 & g1 & E1 & HO1).
  { unfold BackgroundCompaction. destruct (db_imm d) as [imm|] eqn:Ei; [by eapply flush_sim|]. destruct (db_manual d) as [m|] eqn:Em; [|by eapply automatic_sim].
    destruct (proj1 (ok_manual _ _ _ _ _ HO) m Em) as [mc Emc]. rewrite Emc. by eapply manual_sim. }
  rewrite E1. eexists _, g1. split; [done|]. apply DbOk_schedule, DbOk_scheduled. destruct stop; [by apply DbOk_shutting|done].
Qed.

Lemma drop_not_taken (D : versions) (n : nat) (e : ParsedInternalKey * bytes) : keys_sorted (C := InternalKeyComparator C) (internal_entries D) -> e ∈ drop n D -> e ∉ take n D.
Proof.
  intros Hs Hdrop Ht. rewrite <- (take_drop n D) in Hs. unfold keys_sorted, internal_entries in Hs. rewrite map_app in Hs. apply StronglySorted_app in Hs as (Hlt & _ & _).
  apply (clt_irrefl (C := InternalKeyComparator C) (encode_key (fst e))). by apply (Hlt (encode_key (fst e), snd e) (encode_key (fst e), snd e)); apply list_elem_of_fmap; exists e.
Qed.

(** A shutdown that stops the chosen compaction after [n] entries. *)
Lemma background_cut (fuel n : nat) (d : DB) (a : Abs) (g : Ghost) (k : nat) (m : Z) (c : Compaction) (D : versions) :
  DbOk d a g (S k) m -> db_imm d = None -> db_shutting_down d = false -> db_bg_compaction_scheduled d = true -> chosen d = Some c ->
  scan_list (H := InputIter_iter (C := C) (P := P) slen zstlen sun zun dbname (table_options options) (db_tables d) c) fuel (input_of c d) = Some (internal_entries D) -> seqs_ok D ->
  let out := compaction_output (C := C) (smallest_snapshot (db_snapshots d) (db_versions d)) c (take n D) in
  out <> [] -> fits out ->
  exists d1 disk', exec (StBackground fuel (Some n)) d = Some (d1, OutNone) /\ db_bg_error d1 = StatusOK /\
    (exists M', FilesOk (db_versions d1) (db_tables d1) disk' M' k) /\ compacted c out d d1 (g_disk g) disk' /\
    D ≡ₚ concat (map (file_entries (g_disk g)) (c_inputs0 c ++ c_inputs1 c)) /\ forall p x, (p, x) ∈ drop n D -> (p, x) ∉ out.
Proof.
  intros HO Ei Es Eb Ech Escan Hseq out Hne Hfit. pose proof (ok_files _ _ _ _ _ HO) as HI. cbn [DbStep.exec]. unfold BackgroundCall, BackgroundCompaction. rewrite Es, Eb, Ei.
  pose proof (VersionOk_sorted (current (db_versions d)) _ (fi_version _ _ _ _ _ _ _ HI) (vr_length _ _ (fi_rep _ _ _ _ _ _ _ HI))) as Hvs. unfold chosen in Ech. destruct (db_manual d) as [x|] eqn:Em.
  - destruct (proj1 (ok_manual _ _ _ _ _ HO) x Em) as [mc Emc]. rewrite Emc in Ech |- *. cbn [mbind option_bind] in Ech. pose proof (proj2 (ok_manual _ _ _ _ _ HO) x mc Emc) as Hl.
    pose proof (CompactRange_closed (o_max_file_size options) (mc_level mc) (mc_begin mc) (mc_end mc) (db_versions d) Hvs) as HC. unfold manual_step.
    destruct (CompactRange (o_max_file_size options) (mc_level mc) (mc_begin mc) (mc_end mc) (db_versions d)) as [c' vs]. cbn [fst] in Ech. subst c'. destruct HC as (Hc & El & ->).
    pose proof (set_pointers_ok d a g (S k) m c HO Hc ltac:(rewrite El; done)) as HO0. rewrite El in HO0. pose proof (manual_object_ok _ a g (S k) m x (manual_done false) HO0 (fun _ => eq_refl)) as HO1.
    destruct (compaction_runs (Some n) fuel c _ a g k m D HO1 Hc ltac:(rewrite El; done) Escan Hseq Hne Hfit) as (d1 & disk' & M' & Er & (tables & vs & -> & Els) & HI1 & _ & Hcomp & Hperm & Hsrt). rewrite Er.
    eexists _, disk'. split; [reflexivity|]. split; [exact (ok_error _ _ _ _ _ HO)|]. split; [by exists M'|]. split; [exact Hcomp|]. split; [exact Hperm|]. intros p v Hp Ho. eapply (drop_not_taken D n (p, v)); [done|done|]. eapply elem_of_sublist; [exact Ho|apply compact_ref_sublist].
  - pose proof (PickCompaction_closed (o_max_file_size options) (db_versions d) Hvs (fi_pick _ _ _ _ _ _ _ HI)) as HC. unfold automatic_step.
    destruct (PickCompaction (o_max_file_size options) (db_versions d)) as [[c'|] vs]; cbn [fst mbind option_bind] in Ech; [|done]. destruct HC as (_ & Hc & Hl & ->).
    destruct (IsTrivialMove (o_max_file_size options) c') eqn:Et; [done|]. injection Ech as ->. pose proof (set_pointers_ok d a g (S k) m c HO Hc Hl) as HO1.
    destruct (compaction_runs (Some n) fuel c _ a g k m D HO1 Hc Hl Escan Hseq Hne Hfit) as (d1 & disk' & M' & Er & (tables & vs & -> & Els) & HI1 & _ & Hcomp & Hperm & Hsrt). rewrite Er.
    eexists _, disk'. split; [destruct (c_inputs0 c); reflexivity|]. split; [exact (ok_error _ _ _ _ _ HO)|]. split; [by exists M'|]. split; [exact Hcomp|]. split; [exact Hperm|]. intros p v Hp Ho. eapply (drop_not_taken D n (p, v)); [done|done|]. eapply elem_of_sublist; [exact Ho|apply compact_ref_sublist].
Qed.

(** ** Every step *)

Theorem exec_sim (st : Step) (d : DB) (a : Abs) (g : Ghost) (k : nat) (n : Z) (d' : DB) (o : Out) :
  DbOk d a g (S k) (zlen (step_ops st) + n) -> 0 <= n -> legal st d -> exec st d = Some (d', o) -> exists a' g', spec a st o a' /\ DbOk d' a' g' k n.
Proof.
  intros HO Hn Hl Ex. assert (forall a' g' n', 0 <= n <= n' -> DbOk d' a' g' (S k) n' -> DbOk d' a' g' k n) as Hless by (intros a' g' n' Hn' H; eapply DbOk_less; [exact H|lia|done]).
  assert (match st with StWrite _ _ _ => True | _ => DbOk d a g (S k) n end) as HO0 by (by destruct st).
  assert (0 <= n <= n) as Hnn by lia. destruct st as [id sync u| | |id|ro snapshot key| |p|key|m level b e|m|m|fuel stop].
  - destruct (write_sim d a g (S k) n id sync u d' o HO Hn Hl Ex) as (a' & Hs & HO1). exists a', g. split; [done|by eapply Hless].
  - destruct (room_sim d a g k n d' o HO0 Ex) as (g' & Hs & HO1). by exists a, g'.
  - destruct (finish_sim d a g (S k) n d' o HO0 Ex) as (a' & g' & Hs & HO1). exists a', g'. split; [done|by eapply Hless].
  - destruct (return_sim d a g (S k) n id d' o HO0 Ex) as (a' & Hs & HO1). exists a', g. split; [done|by eapply Hless].
  - destruct (get_sim d a g (S k) n ro snapshot key d' o HO0 Hl Ex) as [Hs HO1]. exists a, g. split; [done|by eapply Hless].
  - destruct (snapshot_sim d a g (S k) n d' o HO0 Ex) as (a' & g' & Hs & HO1). exists a', g'. split; [done|by eapply Hless].
  - destruct (release_sim d a g (S k) n p d' o HO0 Hl Ex) as (a' & g' & Hs & HO1). exists a', g'. split; [done|by eapply Hless].
  - injection Ex as <- <-. exists a, g. split; [constructor|]. eapply Hless; [done|]. by apply sample_ok.
  - cbn [DbStep.exec] in Ex. destruct (db_manual_objects d !! m) eqn:Em; [done|]. injection Ex as <- <-. exists a, g. split; [constructor|]. eapply Hless; [done|]. destruct (ok_manual _ _ _ _ _ HO0) as [H1 H2].
    apply set_manual_ok; [done| |].
    + intros x Hx. destruct (H1 x Hx) as [mc Hmc]. rewrite lookup_insert_ne by congruence. eauto.
    + intros x mc. destruct (decide (x = m)) as [->|Hne]; [rewrite lookup_insert_eq; by intros [= <-]|rewrite lookup_insert_ne by done; apply H2].
  - cbn [DbStep.exec] in Ex. unfold TEST_CompactRange_turn in Ex. destruct (db_manual_objects d !! m) as [mc|] eqn:Em; [|done]. destruct (_ || _); [done|]. injection Ex as <- <-. exists a, g. split; [constructor|]. eapply Hless; [done|].
    destruct (db_manual d); [done|]. apply DbOk_schedule, set_manual_ok; [done| |apply HO0]. intros x [= <-]. eauto.
  - cbn [DbStep.exec] in Ex. destruct (TEST_CompactRange_turn m d); [done|]. injection Ex as <- <-. exists a, g. split; [constructor|]. eapply Hless; [done|]. destruct (ok_manual _ _ _ _ _ HO0) as [H1 H2].
    unfold TEST_CompactRange_end. apply set_manual_ok; [done| |].
    + intros x. case_bool_decide as Hx; [done|]. intros Hx'. destruct (H1 x Hx') as [mc Hmc]. rewrite lookup_delete_ne by congruence. eauto.
    + intros x mc [_ Hx]%lookup_delete_Some. by eapply H2.
  - destruct (background_sim stop fuel d a g k n HO0 Hl) as (d1 & g1 & E1 & HO1). rewrite E1 in Ex. injection Ex as <- <-. exists a, g1. split; [constructor|done].
Qed.
End Refine.
