(* ===== verification/DbOpen.v ===== *)
(** * DbOpen: opening a new database

    [DB_Open] on a directory that has no database makes one: it writes a MANIFEST
    with an empty version and the file CURRENT, reads both back, finds no logs and
    starts an empty memtable with a new log.  The state it gives stands for the empty
    abstract database ([open_fresh]). *)

From stdpp Require Import sorting fin_sets.
From S2P Require Import Prelude Random Status Coding Comparator Logging FilterPolicy DbFormat SkipList MemTable WriteBatch Env LogFile Format Iterator Block Merger FilterBlock.
From S2P Require Import TwoLevelIterator TableBuilder Cache Table VersionEdit FileName Children DBIter Version VersionRead VersionBuilder VersionSet Manifest Compaction.
From S2P Require Import TableCache Snapshot History Iterates TableFiles CompactionRun VersionChange CompactionWork DbImpl DbStep DbFiles DbData DbDisk DbQueue DbRefine.
From S2P Require Import MemTable.
From Stdlib Require Import Sorting.Sorted.

(** A log that is complete gives all its records. *)
Lemma read_all_complete {F : Type} `{SequentialFileLaws F} (rs : list bytes) (file : F) (o : Z) (reporter checksum : bool) (size : nat) :
  Layout 0 rs (sf_rest file) o -> (length (sf_rest file) <= size)%nat ->
  exists s', read_all (S size) (S size) (newReader file reporter checksum 0) = (Some rs, s').
Proof.
  intros HL Hsz. destruct (Layout_start 0 kBlockSize _ _ _ eq_refl eq_refl HL) as (o' & HL').
  destruct (read_all_layout rs kBlockSize (sf_rest file) o' (newReader file reporter checksum 0) (sf_rest file) [] [] (S size) (S size) HL') as (k & s' & Hk & Er & _ & _ & Hhigh);
    [apply at_state_new|by rewrite app_nil_r|lia|lia|]. exists s'. rewrite Er. destruct (decide (k < length rs)%nat) as [Hlt|]; [|by rewrite take_ge by lia].
  exfalso. destruct (Layout_take (S k) _ _ _ _ HL') as (bk & ok' & q & Hbk & Eq). specialize (Hhigh Hlt _ _ Hbk). rewrite Eq, zlen_app in Hhigh. pose proof (zlen_nonneg q). lia.
Qed.

Lemma CURRENT_no_slash : Byte.x2f ∉ lit "CURRENT".
Proof. apply (bool_decide_unpack _). vm_compute. exact I. Qed.

Section Open.
Context (slen zstlen : bytes -> option Z) (sun zun : bytes -> option bytes).
Context {C : Comparator} {CL : ComparatorLaws C} {P : FilterPolicy}.
Context {E W SF F L : Type} {FS : FileSystem E W SF} {WF : WritableFile W} {WL : WritableFileLaws W} {HF : HandleFS E W} {FSL : FileSystemLaws E W SF}.
Context {QF : SequentialFile SF} {QL : SequentialFileLaws SF} {FR : FileReadLaws E W SF} {DF : DirectoryFS E L} {DL : DirectoryLaws E W SF L} {LL : ListingLaws E W SF L}.
Context {RFS : RandomAccessFS E F} {RF : RandomAccessFile F} {RL : RandomAccessFileLaws F}.
Context {K Hd : Type} {KC : Cache K Hd Block} {KL : CacheLaws K Hd Block} {KI : CacheIdLaws K Hd Block}.
Context {Rnd : Type} {US : UniformSource Rnd} (dbname : bytes) (options : Options).
Context (Hname : zlen (lit (Name (Comparator := C))) < 2 ^ 32).

Abbreviation DB := (DBImpl E W F K Rnd).
Abbreviation manifest := (DescriptorFileName dbname 0).
Abbreviation tmp := (TempFileName dbname 0).
Abbreviation current_file := (CurrentFileName dbname).

Lemma names_differ : manifest <> tmp /\ manifest <> current_file /\ tmp <> current_file.
Proof.
  destruct (file_names_parse dbname 0 ltac:(lia)) as (_ & _ & _ & H1 & H2 & H3 & _). split_and!; intros E0; [rewrite E0 in H2|rewrite E0 in H2|rewrite E0 in H1]; congruence.
Qed.

(** What is new in the file system after the database was made. *)
Definition made (env env' : E) : Prop :=
  forall x, fs_FileExists x env' = true -> x = dbname \/ x = manifest \/ x = tmp \/ x = current_file \/ fs_FileExists x env = true.

(** The first edit and the snapshot before it. *)
Definition first_edit : VersionEdit := prepare_edit (newVersionSet (W := W)) newVersionEdit.
Definition first_snapshot : VersionEdit := snapshot_edit (C := C) (newVersionSet (W := W)).

Definition first_set (w : Writer W) : VersionSet W :=
  mkVersionSet 2 0 0 0 0 (Some w) [newVersion; next_version (C := C) (newVersionSet (W := W)) first_edit] (replicate kNumLevels []).

Lemma first_LogAndApply (env : E) :
  exists w env', LogAndApply (C := C) dbname newVersionEdit (newVersionSet (W := W)) env = (Ok tt, first_edit, first_set w, env') /\
    log_holds w [VersionEdit_EncodeTo first_snapshot []; VersionEdit_EncodeTo first_edit []] /\
    fs_reads env' current_file (current_contents dbname 0) /\ fs_reads env' manifest (wf_contents (dest_ w)) /\ made env env'.
Proof.
  destruct names_differ as (N1 & N2 & N3). unfold LogAndApply. fold first_edit. cbv zeta. unfold open_manifest.
  set (vs1 := set_pointers _ (newVersionSet (W := W))). assert (vs1 = newVersionSet) as -> by reflexivity. cbn [newVersionSet vs_descriptor_log vs_manifest_file_number].
  destruct (fs_NewWritableFile_spec manifest env) as (f & env1 & E1 & Hf). rewrite E1. unfold WriteSnapshot.
  destruct (log_holds_add (newWriter f) [] (VersionEdit_EncodeTo first_snapshot []) (log_holds_new f Hf)) as (w1 & E2 & Hw1). change (snapshot_edit _) with first_snapshot. rewrite E2. cbn [result_status StatusOK].
  destruct (log_edit_ok w1 _ (VersionEdit_EncodeTo first_edit []) Hw1) as (w & E3 & Hw). rewrite E3. cbn [StatusOK].
  unfold SetCurrentFile. set (env2 := fs_Written manifest (dest_ w) env1). destruct (fs_NewWritableFile_spec tmp env2) as (t & env3 & E4 & Ht). rewrite E4.
  destruct (wf_Append_spec (current_contents dbname 0) t) as (t1 & -> & C1). cbn [or_remove]. destruct (wf_Sync_spec t1) as (t2 & -> & C2). cbn [or_remove]. destruct (wf_Close_spec t2) as (t3 & -> & C3). cbn [or_remove].
  set (env4 := fs_Written tmp t3 env3). destruct (fs_RenameFile_spec tmp current_file t3 env3) as (env5 & E5). fold env4 in E5. rewrite E5. cbn [or_remove result_status StatusOK].
  exists w, env5. split_and!; [reflexivity|exact Hw| | |].
  - replace env5 with (snd (fs_RenameFile tmp current_file env4)) by (by rewrite E5). apply fs_RenameFile_reads; [done|].
    replace (current_contents dbname 0) with (wf_contents t3) by (by rewrite C3, C2, C1, Ht). apply fs_Written_reads.
  - replace env5 with (snd (fs_RenameFile tmp current_file env4)) by (by rewrite E5). apply fs_RenameFile_reads_other; [done|done|]. apply fs_Written_reads_other; [done|].
    replace env3 with (snd (fs_NewWritableFile tmp env2)) by (by rewrite E4). apply fs_NewWritableFile_reads_other; [done|]. apply fs_Written_reads.
  - intros x Hx. replace env5 with (snd (fs_RenameFile tmp current_file env4)) in Hx by (by rewrite E5). apply fs_RenameFile_exists in Hx as [->|Hx]; [tauto|].
    apply fs_Written_exists in Hx as [->|Hx]; [tauto|]. replace env3 with (snd (fs_NewWritableFile tmp env2)) in Hx by (by rewrite E4). apply fs_NewWritableFile_exists in Hx as [->|Hx]; [tauto|].
    apply fs_Written_exists in Hx as [->|Hx]; [tauto|]. replace env1 with (snd (fs_NewWritableFile manifest env)) in Hx by (by rewrite E1). apply fs_NewWritableFile_exists in Hx as [->|Hx]; tauto.
Qed.

(** The MANIFEST of a new database. *)
Definition first_manifest : bytes :=
  let w := newWriter (mkMemFile []) in
  let w := snd (AddRecord w (VersionEdit_EncodeTo first_snapshot [])) in
  let w := snd (AddRecord w (VersionEdit_EncodeTo first_edit [])) in
  mf_data (dest_ w).

Lemma first_manifest_contents (w : Writer W) : log_holds w [VersionEdit_EncodeTo first_snapshot []; VersionEdit_EncodeTo first_edit []] -> wf_contents (dest_ w) = first_manifest.
Proof.
  intros [HL _]. unfold first_manifest. cbv zeta. destruct (log_holds_add (newWriter (mkMemFile [])) [] (VersionEdit_EncodeTo first_snapshot []) ltac:(apply (log_holds_new (W := MemFile)); reflexivity)) as (w1 & -> & H1). cbn [snd].
  destruct (log_holds_add w1 _ (VersionEdit_EncodeTo first_edit []) H1) as (w2 & -> & H2). cbn [snd]. destruct H2 as [HL2 _]. by destruct (Layout_functional _ _ _ _ _ _ HL HL2).
Qed.

Lemma first_loggable : Forall (loggable (C := C)) [first_snapshot; first_edit].
Proof.
  assert (Start (C := C) (newVersionSet (W := W)) ∅) as HS.
  { split; [done|apply newVersion_rep| | |split; split; vm_compute; done].
    - intros level f Hf. apply (vr_files _ _ (newVersion_rep (C := C))) in Hf. by rewrite lookup_empty in Hf.
    - split; [reflexivity|]. intros p Hp. apply elem_of_replicate in Hp as [-> _]. reflexivity. }
  constructor; [|constructor; [|constructor]].
  - apply (snapshot_loggable (newVersionSet (W := W)) ∅ (replicate kNumLevels []) HS Hname). intros p Hp. apply elem_of_replicate in Hp as [-> _]. reflexivity.
  - split; [|by left]. apply prepare_edit_ok; try apply newVersionEdit_ok; split; vm_compute; done.
Qed.

Definition opened_version : Version :=
  Finalize (SaveTo (C := C) (fold_left (Builder_Apply (C := C)) [first_snapshot; first_edit]
    (newBuilder (replicate kNumLevels []) (next_version (C := C) (newVersionSet (W := W)) first_edit)))).

Definition opened_set (w : Writer W) : VersionSet W :=
  mkVersionSet 3 2 0 0 0 (Some w) [newVersion; next_version (C := C) (newVersionSet (W := W)) first_edit; opened_version] (replicate kNumLevels []).

Lemma opened_version_empty : v_files opened_version = replicate kNumLevels [] /\ pickable opened_version.
Proof. split; [reflexivity|]. by apply Finalize_pickable. Qed.

Lemma first_Recover (w : Writer W) (env : E) (size : nat) :
  log_holds w [VersionEdit_EncodeTo first_snapshot []; VersionEdit_EncodeTo first_edit []] ->
  fs_reads env current_file (current_contents dbname 0) -> fs_reads env manifest (wf_contents (dest_ w)) -> (length (wf_contents (dest_ w)) <= size)%nat ->
  Recover (C := C) dbname size (first_set w) env = Some (Ok true, opened_set w, env).
Proof.
  intros [HL _] (cf & Ecf & Hcf) (mf & Emf & Hmf) Hsz. unfold Recover. rewrite Ecf. destruct (current_contents_spec dbname 0 ltac:(split; vm_compute; done)) as (name & Ename & Hlen & Epath).
  destruct (sf_Read_spec 1024 cf ltac:(lia)) as (cf' & Ercf & _). rewrite Ercf, Hcf, Ename. cbn [fst].
  rewrite ztake_all by (rewrite zlen_app; change (zlen [Byte.x0a]) with 1; lia).
  destruct (Z.eqb_spec (zlen (name ++ [Byte.x0a])) 0) as [Ez|_]; [rewrite zlen_app in Ez; pose proof (zlen_nonneg name); change (zlen [Byte.x0a]) with 1 in Ez; lia|].
  rewrite last_last, bool_decide_eq_true_2 by done. cbn [orb negb]. rewrite removelast_last, Epath, Emf. cbv zeta. rewrite <- Hmf in HL, Hsz.
  destruct (read_all_complete _ mf _ false true size HL Hsz) as (s' & Er).
  erewrite (recover_loop_read_all [first_snapshot; first_edit]); [|apply first_loggable|exact Er]. change (ok StatusOK) with true. cbv iota.
  reflexivity.
Qed.

(** ** A new database *)

(** The directory has no database and no log. *)
Definition fresh_directory (env : E) : Prop :=
  fs_FileExists current_file env = false /\
  forall x p, ParseFileName x = Some p -> pf_type p = kLogFile -> fs_FileExists (dbname ++ [Byte.x2f] ++ x) env = false.

(** A block cache that is new. *)
Definition new_cache (block_cache : option K) : Prop :=
  forall c, block_cache = Some c -> ca_last_id c = 0 /\ forall key blk, ~ ca_holds c key blk.

Lemma not_the_directory (y : bytes) : y <> [] -> dbname ++ y <> dbname.
Proof. intros Hy E0. apply (f_equal length) in E0. rewrite length_app in E0. destruct y; [done|cbn in E0; lia]. Qed.

(** No child of the directory is a log. *)
Lemma no_logs (env env' : E) (names : list bytes) (vs : VersionSet W) :
  fresh_directory env -> made env env' -> (forall x, x ∈ names -> fs_FileExists (dbname ++ [Byte.x2f] ++ x) env' = true) -> logs_to_recover names vs = [].
Proof.
  intros [_ Hfr] Hmade Hch. unfold logs_to_recover. match goal with |- merge_sort _ (omap ?f names) = _ => assert (omap f names = []) as ->; [|done] end. induction names as [|x names IH]; [done|]. cbn [omap list_omap].
  assert (forall y, y ∈ names -> fs_FileExists (dbname ++ [Byte.x2f] ++ y) env' = true) as Hch' by (intros y Hy; apply Hch; by right).
  assert (forall p, ParseFileName x = Some p -> pf_type p <> kLogFile) as Hx; [|destruct (ParseFileName x) as [p|]; cbn [mbind option_bind]; [|by apply IH]; rewrite bool_decide_eq_false_2 by (by apply Hx); by apply IH].
  intros p Hp Ht. pose proof (Hfr x p Hp Ht) as Hno. specialize (Hch x ltac:(by left)).
  assert (zdrop (zlen dbname + 1) (dbname ++ [Byte.x2f] ++ x) = x) as Hd'.
  { rewrite app_assoc. replace (zlen dbname + 1) with (zlen (dbname ++ [Byte.x2f])) by (rewrite zlen_app; done). apply zdrop_app_exact. }
  destruct (file_names_parse dbname 0 ltac:(lia)) as (_ & _ & _ & H1 & H2 & H3 & _).
  apply Hmade in Hch as [E0|[E0|[E0|[E0|E0]]]]; [by apply not_the_directory in E0|rewrite E0 in Hd'; rewrite Hd' in *..|congruence]; simplify_eq; rewrite Hp in *; simplify_eq; done.
Qed.

(** Nothing is in the database. *)
Definition no_ghost : Ghost := mkGhost [] [] [] ∅ ∅ 0 [] 0 0 [].

Lemma empty_version_entries (v : Version) (disk : gmap Z (Z * versions)) : v_files v = replicate kNumLevels [] -> version_entries v disk = [].
Proof. intros Ev. unfold version_entries. by rewrite Ev. Qed.

Lemma empty_files (v : Version) (level : nat) : v_files v = replicate kNumLevels [] -> files_ v level = [].
Proof. intros Ev. unfold files_. rewrite Ev. destruct (decide (level < kNumLevels)%nat); [by rewrite nth_lookup, lookup_replicate_2|]. by rewrite nth_overflow by (rewrite length_replicate; lia). Qed.

Lemma empty_version_ok (v : Version) (disk : gmap Z (Z * versions)) : v_files v = replicate kNumLevels [] -> version_rep (C := C) v ∅ /\ VersionOk (C := C) v (file_entries disk).
Proof.
  intros Ev. assert (forall lf, ~ in_version v lf) as Hno by (intros lf [_ Hf]; rewrite empty_files in Hf by done; by apply not_elem_of_nil in Hf). split.
  - split; [by rewrite Ev|intros level; rewrite empty_files by done; constructor| |intros level n f; by rewrite lookup_empty].
    intros level f. rewrite empty_files, lookup_empty by done. split; [by intros ?%not_elem_of_nil|done].
  - split; [intros lf Hlf; by apply Hno in Hlf|intros level _; rewrite empty_files by done; constructor|intros level; rewrite empty_files by done; done|rewrite empty_files by done; constructor|].
    intros lf lg p q v1 v2 Hlf. by apply Hno in Hlf.
Qed.

(** The database that [DB_Open] makes. *)
Definition opened (w : Writer W) (lfile : W) (env : E) (cache : option K) : DB :=
  mkDB new_mem None 3 (newWriter lfile) ∅ [] Starting newWriteBatch (newTableCache env cache) (snd (NewFileNumber (opened_set w))) newSnapshotList 0 ∅ StatusOK ∅ None false false.

Lemma opened_files (w : Writer W) (env : E) (cache : option K) (rs : list bytes) (k : nat) :
  log_holds w rs -> new_cache cache -> Z.of_nat k + 4 < 2 ^ 31 ->
  FilesOk (C := C) (P := P) (W := W) (F := F) dbname (table_options options) (snd (NewFileNumber (opened_set w))) (newTableCache env cache) ∅ ∅ k.
Proof.
  intros Hw Hcache Hk. destruct opened_version_empty as [Ev Hpick]. destruct (empty_version_ok opened_version ∅ Ev) as [Hrep Hvok].
  assert (vs_next_file_number (snd (NewFileNumber (opened_set w))) = 4) as Enext by reflexivity. split.
  - exists 0. split; [|lia]. apply newTableCache_ok; [intros m size vs; by rewrite lookup_empty|lia|]. intros c Ec. destruct (Hcache c Ec) as [-> Hh]. split_and!; [lia| |done]. rewrite map_size_empty. lia.
  - intros m x. by rewrite lookup_empty.
  - rewrite Enext. lia.
  - change (num_ok 2). unfold num_ok. lia.
  - intros w' [= <-]. by exists rs.
  - exact Hrep.
  - intros l m f. by rewrite lookup_empty.
  - exact Hvok.
  - exact Hpick.
Qed.

Lemma opened_data (w : Writer W) (lfile : W) (env : E) (cache : option K) : wf_contents lfile = [] -> DataOk (C := C) (opened w lfile env cache) [] no_ghost.
Proof.
  intros Hlf. destruct opened_version_empty as [Ev _]. assert (current (db_versions (opened w lfile env cache)) = opened_version) as Ecur by reflexivity.
  pose proof (empty_version_entries opened_version ∅ Ev) as Ee. split; cbn [no_ghost g_pend g_mem g_imm g_disk g_map g_min g_live g_b1 g_b2 g_logs]; rewrite ?Ecur, ?Ee.
  - reflexivity.
  - split; [constructor|]. change (0 < 2 ^ 31). lia.
  - apply mem_repr_new.
  - reflexivity.
  - reflexivity.
  - exists []. split; [by apply log_holds_new|done].
  - unfold all_entries. cbn [no_ghost g_mem g_imm g_disk map app]. rewrite Ecur, Ee. apply agrees_new.
  - change (zlen (@nil WriteOp)) with 0. lia.
  - reflexivity.
  - intros p x Hp. destruct (not_elem_of_nil (p, x) Hp).
  - change (zlen (@nil WriteOp)) with 0. lia.
  - apply SnapInv_new.
  - intros p s Hp. destruct (not_elem_of_nil (p, s) Hp).
Qed.

Lemma opened_queue (w : Writer W) (lfile : W) (env : E) (cache : option K) : QueueOk (opened w lfile env cache) [] [] [] ∅.
Proof.
  split; cbn [opened db_writers db_writer_objects map]; [done|constructor| | | |constructor|split; reflexivity].
  - intros id u Hid. by apply not_elem_of_nil in Hid.
  - intros id Hid. by apply not_elem_of_empty in Hid.
  - intros id x. by rewrite lookup_empty.
Qed.

(** What it has on disk. *)
Lemma opened_disk (w : Writer W) (env0 env2 env3 : E) (lfile : W) (cache : option K) :
  fresh_directory env0 -> made env0 env2 -> fs_NewWritableFile (LogFileName dbname 3) env2 = (Ok lfile, env3) ->
  log_holds w [VersionEdit_EncodeTo first_snapshot []; VersionEdit_EncodeTo first_edit []] -> fs_reads env2 current_file (current_contents dbname 0) ->
  DiskOk (C := C) (SF := SF) (L := L) dbname (snd (NewFileNumber (opened_set w))) env3 3 [] no_ghost.
Proof.
  intros [_ Hfr] Hmade El Hw Hcf. assert (num_ok 0 /\ num_ok 3) as [H0 H3] by (unfold num_ok; lia).
  assert (evolves (W := W) (eq (LogFileName dbname 3)) env2 env3) as Hev by (apply (ev_new _ (LogFileName dbname 3)); [done|rewrite El; constructor]).
  split; cbn [no_ghost g_map g_b1 g_b2 g_logs map app logs_hold]; try done.
  - exists (mkManifest 0 first_snapshot [first_edit] 2 0). split; cbn [mn_number mn_snap mn_edits mn_next mn_last]; try done; try (cbn; lia).
    + eapply evolves_reads; [exact Hev| |exact Hcf]. intros E0. by apply (log_not_manifest dbname 0 3 current_file H0 H3 ltac:(right; by right)).
    + apply first_loggable.
    + split; [reflexivity|constructor].
    + split; [constructor|]. intros i Hi. by apply not_elem_of_nil in Hi.
    + exists first_edit. done.
    + intros l n Hi. by apply not_elem_of_nil in Hi.
    + split; [reflexivity|]. intros p Hp. apply elem_of_replicate in Hp as [-> _]. reflexivity.
  - constructor; [constructor|by constructor].
  - intros n ->%list_elem_of_singleton. change (0 <= 3 < 4). lia.
  - intros y p Hy Ht Hex. right. exists 3. split; [by left|]. destruct (evolves_exists _ _ _ _ Hev Hex) as [E0|Hex2]; [rewrite log_child in E0; by apply child_inj in E0|]. exfalso.
    destruct (log_child_other dbname y p Hy Ht) as [_ Hman]. specialize (Hman 0 H0). unfold manifest_files in Hman. destruct (Hmade _ Hex2) as [E0|[E0|[E0|[E0|E0]]]]; [by apply not_the_directory in E0|tauto..|].
    change (dbname ++ lit "/" ++ y) with (dbname ++ [Byte.x2f] ++ y) in E0. rewrite (Hfr y p Hy Ht) in E0. done.
  - apply Nat.le_0_l.
Qed.

Lemma opened_ok (w : Writer W) (lfile : W) (env : E) (cache : option K) (rs : list bytes) (k : nat) (n : Z) :
  log_holds w rs -> wf_contents lfile = [] -> new_cache cache -> Z.of_nat k + 4 < 2 ^ 31 -> 0 <= n < 2 ^ 31 ->
  DiskOk (C := C) (SF := SF) (L := L) dbname (snd (NewFileNumber (opened_set w))) env 3 [] no_ghost ->
  DbOk (C := C) (SF := SF) (L := L) (P := P) dbname options (opened w lfile env cache) new_abs no_ghost k n.
Proof.
  intros Hw Hlf Hcache Hk Hn Hdk. split.
  - by eapply opened_files.
  - by apply opened_data.
  - apply opened_queue.
  - reflexivity.
  - intros p s. cbn [new_abs ab_snaps no_ghost g_live]. rewrite lookup_empty. split; [done|]. intros Hp. by apply not_elem_of_nil in Hp.
  - split; [done|]. intros m mc. cbn [opened db_manual_objects]. by rewrite lookup_empty.
  - change (num_ok 3). unfold num_ok. lia.
  - exact Hdk.
  - change (zlen (ab_ops new_abs ++ queue_ops (ab_queue new_abs))) with 0. lia.
Qed.

Theorem open_fresh (size : nat) (cache : option K) (env : E) (k : nat) (n : Z) :
  (length first_manifest <= size)%nat -> fresh_directory env -> new_cache cache -> o_create_if_missing options = true -> Z.of_nat k + 4 < 2 ^ 31 -> 0 <= n < 2 ^ 31 ->
  exists d env', DB_Open (C := C) (P := P) slen zstlen sun zun dbname options size cache env = Some (Ok d, env') /\
    tc_env (db_tables d) = env' /\ DbOk (C := C) (SF := SF) (L := L) (P := P) dbname options d new_abs no_ghost k n.
Proof.
  intros Hsz Hfresh Hcache Hcreate Hk Hn. destruct (fs_CreateDir dbname env) as [cres env1] eqn:Ec.
  assert (forall x, fs_FileExists x env1 = true -> x = dbname \/ fs_FileExists x env = true) as Hdir by (intros x Hx; apply fs_CreateDir_exists; by rewrite Ec).
  assert (fs_FileExists current_file env1 = false) as Hno.
  { destruct (fs_FileExists current_file env1) eqn:Ex; [|done]. apply Hdir in Ex as [E0|E0]; [by apply not_the_directory in E0|]. destruct Hfresh. congruence. }
  destruct (first_LogAndApply env1) as (w & env2 & EL & Hw & Hcf & Hmf & Hmade1). assert (made env env2) as Hmade.
  { intros x Hx. destruct (Hmade1 x Hx) as [?|[?|[?|[?|Hx1]]]]; [tauto..|]. destruct (Hdir x Hx1); tauto. }
  destruct (fs_NewWritableFile_spec (LogFileName dbname 3) env2) as (lfile & env3 & El & Hlf).
  destruct (fs_GetChildren_ok dbname env2 (lit "CURRENT") _ CURRENT_no_slash Hcf) as (names & Eg). pose proof (fs_GetChildren_exists dbname env2 names) as Hch0.
  assert (forall x, x ∈ names -> fs_FileExists (dbname ++ [Byte.x2f] ++ x) env2 = true) as Hch by (intros x; by apply Hch0). clear Hch0.
  rewrite <- (first_manifest_contents w Hw) in Hsz. exists (opened w lfile env3 cache), env3. split_and!; [|done|eapply opened_ok; [exact Hw|done..|by eapply opened_disk]]. unfold DB_Open, DBImpl_Recover. cbn [newTableCache tc_env]. rewrite Ec. cbn [set_env tc_env]. rewrite Hno, Hcreate, EL.
  cbn [set_env tc_env]. rewrite (first_Recover w env2 size Hw Hcf Hmf Hsz). cbn [set_env tc_env]. rewrite Eg. unfold recover_from_logs. rewrite (no_logs env env2 names _ Hfresh Hmade Hch). cbn [recover_logs].
  cbn [lr_max_sequence lr_save_manifest opened_set vs_last_sequence Z.ltb Z.compare NewFileNumber vs_next_file_number]. cbn [set_env tc_env tc_tables tc_block_cache]. rewrite El. reflexivity.
Qed.
End Open.
