(* ===== verification/DbTheorems.v ===== *)
(** * DbTheorems: what a database promises

    [database_refines]: open a new database and let any threads take any steps; what
    they see is what the abstract database allows.  *)

From stdpp Require Import sorting fin_sets.
From S2P Require Import Prelude Random Status Coding Comparator Logging FilterPolicy DbFormat SkipList MemTable WriteBatch Env LogFile Format Iterator Block Merger FilterBlock.
From S2P Require Import TwoLevelIterator TableBuilder Cache Table VersionEdit FileName Children DBIter Version VersionRead VersionBuilder VersionSet Manifest Compaction.
From S2P Require Import TableCache MapFS Snapshot History Iterates TableFiles CompactionRun VersionChange CompactionWork DbImpl DbStep DbFiles DbData DbDisk DbQueue DbRefine DbOpen.
From S2P Require Import MemTable.
From Stdlib Require Import Sorting.Sorted.

Section Theorems.
Context (slen zstlen : bytes -> option Z) (sun zun : bytes -> option bytes).
Context {C : Comparator} {CL : ComparatorLaws C} (Heq : forall a b, ceq a b -> a = b) (Hname : zlen (lit (Name (Comparator := C))) < 2 ^ 32) {P : FilterPolicy} {PL : FilterPolicyLaws P}.
Context {E W SF F L : Type} {FS : FileSystem E W SF} {WF : WritableFile W} {WL : WritableFileLaws W} {HF : HandleFS E W} {FSL : FileSystemLaws E W SF}.
Context {QF : SequentialFile SF} {QL : SequentialFileLaws SF} {FR : FileReadLaws E W SF} {DF : DirectoryFS E L} {DL : DirectoryLaws E W SF L} {LL : ListingLaws E W SF L}.
Context {RFS : RandomAccessFS E F} {RF : RandomAccessFile F} {RL : RandomAccessFileLaws F} {FF : FileFrameLaws E W SF F}.
Context {K Hd : Type} {KC : Cache K Hd Block} {KL : CacheLaws K Hd Block} {KI : CacheIdLaws K Hd Block}.
Context {Rnd : Type} {US : UniformSource Rnd} (dbname : bytes) (options : Options) (Hri : 1 <= o_block_restart_interval options) (mem_usage : MemTable Rnd -> Z).

Abbreviation DB := (DBImpl E W F K Rnd).
Abbreviation exec := (exec (C := C) (P := P) slen zstlen sun zun dbname options mem_usage).
Abbreviation run := (run (C := C) (P := P) slen zstlen sun zun dbname options mem_usage).
Abbreviation legal := (legal (C := C) (P := P) slen zstlen sun zun dbname options).
Abbreviation DbOk := (DbOk (C := C) (SF := SF) (L := L) (P := P) dbname options).
Abbreviation opens := (DB_Open (C := C) (P := P) slen zstlen sun zun dbname options).

(** Every step is one that its thread may take in the state it finds. *)
Fixpoint legal_run (steps : list Step) (d : DB) : Prop :=
  match steps with
  | [] => True
  | st :: steps => legal st d /\ match exec st d with Some (d, _) => legal_run steps d | None => True end
  end.

Definition all_ops (steps : list Step) : list WriteOp := concat (map step_ops steps).

Lemma run_sim (steps : list Step) (d : DB) (a : Abs) (g : Ghost) (k : nat) (n : Z) (d' : DB) (os : list Out) :
  DbOk d a g (length steps + k) (zlen (all_ops steps) + n) -> 0 <= n -> legal_run steps d -> run steps d = Some (d', os) ->
  exists a' g', spec_run a steps os a' /\ DbOk d' a' g' k n.
Proof.
  revert d a g os. induction steps as [|st steps IH]; intros d a g os HO Hn Hl Er.
  - injection Er as <- <-. exists a, g. split; [constructor|done].
  - cbn [DbStep.run] in Er. destruct Hl as [Hl Hrest]. destruct (exec st d) as [[d1 o]|] eqn:Ex; [|done]. cbn [mbind option_bind] in Er. destruct (run steps d1) as [[d2 os']|] eqn:Er'; [|done].
    injection Er as <- <-. cbn [all_ops map concat] in HO. fold (all_ops steps) in HO. rewrite zlen_app, <- Z.add_assoc in HO. pose proof (zlen_nonneg (all_ops steps)).
    destruct (exec_sim (SF := SF) (L := L) slen zstlen sun zun Heq Hname dbname options Hri mem_usage st d a g (length steps + k) (zlen (all_ops steps) + n) d1 o HO ltac:(lia) Hl Ex) as (a1 & g1 & Hs & HO1).
    destruct (IH d1 a1 g1 os' HO1 Hn Hrest Er') as (a2 & g2 & Hs2 & HO2). exists a2, g2. split; [by econstructor|done].
Qed.

(** Opening a new database and running it; [k] and [n] are what is left of the budgets. *)
Lemma open_run (size : nat) (cache : option K) (env : E) (steps : list Step) (k : nat) (n : Z) :
  fresh_directory dbname env -> new_cache cache -> o_create_if_missing options = true -> (length (first_manifest (C := C) (W := W)) <= size)%nat ->
  Z.of_nat (length steps + k) + 4 < 2 ^ 31 -> 0 <= n -> zlen (all_ops steps) + n < 2 ^ 31 ->
  exists d env', opens size cache env = Some (Ok d, env') /\
    forall d' os, legal_run steps d -> run steps d = Some (d', os) -> exists a g, spec_run new_abs steps os a /\ DbOk d' a g k n.
Proof.
  intros Hfresh Hcache Hcreate Hsz Hk H0 Hn. pose proof (zlen_nonneg (all_ops steps)).
  destruct (open_fresh (C := C) (P := P) (F := F) slen zstlen sun zun dbname options Hname size cache env (length steps + k) (zlen (all_ops steps) + n) Hsz Hfresh Hcache Hcreate ltac:(lia) ltac:(lia)) as (d & env' & Eo & _ & HO).
  exists d, env'. split; [exact Eo|]. intros d' os Hl Er. exact (run_sim steps d new_abs _ k n d' os HO H0 Hl Er).
Qed.

(** C1. The database refines the abstract one.  Open a database in a directory that
    has none, and take any legal run: steps of any number of threads in any order, in
    which writers enter the queue, the front writer makes room (switching memtables and
    logs), writes the batches of its group to the log and the memtable and publishes
    them; readers read, now or at a snapshot; snapshots come and go; the background
    thread flushes the memtable, moves files and compacts them, by itself or for a
    manual compaction.  Then what every step shows is allowed by the abstract database: a
    write succeeds and takes effect when its group is published, whole, in the order
    of the queue; a read gives the newest value of its key, or the error NotFound
    when there is none or it was deleted, as of its snapshot or of the last group
    published; nothing that the background thread does can be seen.
    A run is legal ([legal_run]) when: keys and values are shorter than 2^32 bytes
    (keys by 8); a snapshot that is used was not released; a manual compaction is of a
    level below the last one; every table that the background thread writes stays
    below 2^32 bytes; every compaction keeps at least one entry (the code goes wrong
    otherwise: [compaction_of_nothing]); and no destructor begins before a running
    compaction has read its whole input (see [shutdown_cuts_compaction]).  A turn of the
    background thread is one step here, although the code lets other threads run
    while it writes a table (the mutex is free from db_impl.cc:413 to 416 and from 513
    to 577).  There are fewer than 2^31 steps and operations, and no I/O errors: files
    can be made and written, and read back as they were written ([FileSystemLaws] and the like).  The options create a missing database and have
    restart points at positive intervals, the block cache is new, the comparator has a name shorter than 2^32
    bytes and identifies no two different keys. *)
Theorem database_refines (size : nat) (cache : option K) (env : E) (steps : list Step) :
  fresh_directory dbname env -> new_cache cache -> o_create_if_missing options = true -> (length (first_manifest (C := C) (W := W)) <= size)%nat ->
  Z.of_nat (length steps) + 4 < 2 ^ 31 -> zlen (all_ops steps) < 2 ^ 31 ->
  exists d env', opens size cache env = Some (Ok d, env') /\
    forall d' os, legal_run steps d -> run steps d = Some (d', os) -> exists a, spec_run new_abs steps os a.
Proof.
  intros Hfresh Hcache Hcreate Hsz Hk Hn. destruct (open_run size cache env steps 0 0 Hfresh Hcache Hcreate Hsz ltac:(lia) ltac:(lia) ltac:(lia)) as (d & env' & Eo & Hrun).
  exists d, env'. split; [exact Eo|]. intros d' os Hl Er. destruct (Hrun d' os Hl Er) as (a & g & Hs & _). by exists a.
Qed.

(** The table files that a database has hold these entries. *)
Definition tables_hold (d : DB) (disk : gmap Z (Z * versions)) : Prop :=
  exists M k, FilesOk (C := C) (P := P) (W := W) (E := E) (F := F) (K := K) dbname (table_options options) (db_versions d) (db_tables d) disk M k.

(** C15. A destructor that begins while a compaction runs loses entries.  Open a new
    database and take any legal run as in [database_refines], at the end of which the
    background thread is scheduled and is to compact, by itself or for a manual
    compaction (no memtable to write out, no move of one file); let it see [shutting_down_] after [n] entries of
    the input.  If it kept an entry so far, and what it kept fits a table below 2^32 bytes, then the turn ends without an error, and
    the version that it installs has the entries that it kept of those [n] and the
    entries of the files that are not inputs, and nothing else: all inputs are deleted,
    and the entries from [n] on, which are not among those it kept, are gone unless another file has them. *)
Theorem shutdown_cuts_compaction (size : nat) (cache : option K) (env : E) (steps : list Step) :
  fresh_directory dbname env -> new_cache cache -> o_create_if_missing options = true -> (length (first_manifest (C := C) (W := W)) <= size)%nat ->
  Z.of_nat (length steps) + 5 < 2 ^ 31 -> zlen (all_ops steps) < 2 ^ 31 ->
  exists d env', opens size cache env = Some (Ok d, env') /\
    forall d' os fuel n c D, legal_run steps d -> run steps d = Some (d', os) ->
      db_imm d' = None -> db_shutting_down d' = false -> db_bg_compaction_scheduled d' = true -> chosen (C := C) options d' = Some c ->
      scan_list (H := InputIter_iter (C := C) (P := P) slen zstlen sun zun dbname (table_options options) (db_tables d') c) fuel
        (MakeInputIterator (C := C) (HD := DbTableIter_iter (C := C) (F := F) (K := K) slen zstlen sun zun)
           (table_iter (C := C) (P := P) slen zstlen sun zun dbname (table_options options) (input_options (table_options options)) (db_tables d')) error_iter (input_fuel c) c)
        = Some (internal_entries D) -> seqs_ok D ->
      let out := compaction_output (C := C) (smallest_snapshot (db_snapshots d') (db_versions d')) c (take n D) in
      out <> [] -> table_fits (C := C) (P := P) (W := W) (builder_options options) out ->
      exists d1 disk disk', exec (StBackground fuel (Some n)) d' = Some (d1, OutNone) /\ db_bg_error d1 = StatusOK /\ tables_hold d' disk /\ tables_hold d1 disk' /\
        D ≡ₚ concat (map (file_entries disk) (c_inputs0 c ++ c_inputs1 c)) /\ (forall p x, (p, x) ∈ drop n D -> (p, x) ∉ out) /\
        forall p x, version_has (current (db_versions d1)) disk' p x <->
          (p, x) ∈ out \/ exists lf, stays (current (db_versions d')) (is_input c) lf /\ (p, x) ∈ file_entries disk (snd lf).
Proof.
  intros Hfresh Hcache Hcreate Hsz Hk Hn. destruct (open_run size cache env steps 1 0 Hfresh Hcache Hcreate Hsz ltac:(lia) ltac:(lia) ltac:(lia)) as (d & env' & Eo & Hrun).
  exists d, env'. split; [exact Eo|]. intros d' os fuel n c D Hl Er Ei Es Eb Ec Escan Hseq out Hne Hfit. destruct (Hrun d' os Hl Er) as (a & g & _ & HO).
  destruct (background_cut (SF := SF) (L := L) slen zstlen sun zun Heq dbname options Hri mem_usage fuel n d' a g 0 0 c D HO Ei Es Eb Ec Escan Hseq Hne Hfit) as (d1 & disk' & Ex & He & [M' HI'] & Hcomp & Hperm & Hgone).
  exists d1, (g_disk g), disk'. split_and!; [exact Ex|exact He|exists (g_map g), 1%nat; apply (ok_files _ _ _ _ _ _ _ HO)|exists M', 0%nat; exact HI'|exact Hperm|exact Hgone|exact Hcomp].
Qed.

(** *** Checking that a run is legal *)

Definition op_fits_check (op : WriteOp) : bool :=
  match op with
  | OpPut k v => (zlen k + 8 <? 2 ^ 32) && (zlen v <? 2 ^ 32)
  | OpDelete k => zlen k + 8 <? 2 ^ 32
  end.

Lemma op_fits_check_ok (op : WriteOp) : op_fits_check op = true -> op_fits op.
Proof.
  destruct op as [key v|key]; cbn [op_fits_check]; intros Hc; [apply andb_true_iff in Hc as [Hc Hv]; apply Z.ltb_lt in Hv|]; apply Z.ltb_lt in Hc; (split; [|done]); cbn; [split; [lia|done]|lia].
Qed.

Definition live_check (p : Z) (d : DB) : bool := negb (p =? head_) && bool_decide (is_Some (sl_nodes (db_snapshots d) !! p)).

Lemma live_check_ok (p : Z) (d : DB) : live_check p d = true -> snapshot_live p d.
Proof. unfold live_check. intros [H1 H2]%andb_true_iff. apply negb_true_iff, Z.eqb_neq in H1. by apply bool_decide_eq_true in H2. Qed.

(** All but the background steps. *)
Definition step_check (st : Step) (d : DB) : bool :=
  match st with
  | StWrite _ _ updates => forallb op_fits_check (default [] updates)
  | StGet _ snapshot key => (zlen key + 8 <? 2 ^ 32) && match snapshot with Some p => live_check p d | None => true end
  | StRelease p => live_check p d
  | StManual _ level _ _ => (level + 1 <? kNumLevels)%nat
  | StBackground _ _ => false
  | _ => true
  end.

Lemma step_check_ok (st : Step) (d : DB) : step_check st d = true -> legal st d.
Proof.
  destruct st as [id sync u| | |id|ro snapshot key| |p|key|m level b e|m|m|fuel stop]; cbn [step_check DbRefine.legal]; try done.
  - intros Hc. rewrite forallb_forall in Hc. apply List.Forall_forall. intros op Hop. by apply op_fits_check_ok, Hc.
  - intros [H1%Z.ltb_lt H2]%andb_true_iff. split; [done|]. destruct snapshot; [by apply live_check_ok|done].
  - apply live_check_ok.
  - by intros ?%Nat.ltb_lt.
Qed.

Fixpoint run_check (steps : list Step) (d : DB) : bool :=
  match steps with
  | [] => true
  | st :: steps => step_check st d && match exec st d with Some (d, _) => run_check steps d | None => true end
  end.

Lemma run_check_ok (steps : list Step) (d : DB) : run_check steps d = true -> legal_run steps d.
Proof.
  revert d. induction steps as [|st steps IH]; intros d; [done|]. cbn [run_check legal_run]. intros [H1 H2]%andb_true_iff. split; [by apply step_check_ok|]. destruct (exec st d) as [[d1 o]|]; [by apply IH|done].
Qed.

Lemma legal_run_app (s1 s2 : list Step) (d : DB) :
  legal_run s1 d -> match run s1 d with Some (d', _) => legal_run s2 d' | None => True end -> legal_run (s1 ++ s2) d.
Proof.
  revert d. induction s1 as [|st s1 IH]; intros d H1 H2; [done|]. cbn [app legal_run DbStep.run] in *. destruct H1 as [Hl H1]. split; [done|].
  destruct (exec st d) as [[d1 o]|]; [|done]. cbn [mbind option_bind] in H2. apply IH; [done|]. by destruct (run s1 d1) as [[d2 os]|].
Qed.
End Theorems.

(** ** A run in memory *)

Section Demo.
Abbreviation BC := BytewiseComparator.
Abbreviation bloom := (BloomPolicy 10).
Abbreviation no_len := (fun _ : bytes => @None Z).
Abbreviation no_data := (fun _ : bytes => @None bytes).
Abbreviation DemoDB := (DBImpl MapFS MemFile MemFile (ShardedLRUCache Block) unit).

Definition demo_db_options : Options := mkOptions true true 65536 1000 4096 16 2097152 kNoCompression true.
Definition demo_usage (m : MemTable unit) : Z := Z.of_nat (length (heap m)).
Definition demo_cache : option (ShardedLRUCache Block) := Some (NewLRUCache 4096).

Definition demo_open : option (Result DemoDB * MapFS) :=
  DB_Open (C := BC) (P := bloom) (E := MapFS) (W := MemFile) (SF := MemFile) (F := MemFile) (L := unit) no_len no_len no_data no_data (lit "db") demo_db_options 50 demo_cache ∅.

Definition demo_exec (st : Step) (d : DemoDB) : option (DemoDB * Out) :=
  exec (C := BC) (P := bloom) (E := MapFS) (W := MemFile) (SF := MemFile) (F := MemFile) no_len no_len no_data no_data (lit "db") demo_db_options demo_usage st d.

Definition demo_run (steps : list Step) (d : DemoDB) : option (DemoDB * list Out) :=
  run (C := BC) (P := bloom) (E := MapFS) (W := MemFile) (SF := MemFile) (F := MemFile) no_len no_len no_data no_data (lit "db") demo_db_options demo_usage steps d.

Definition demo_ro : ReadOptions := mkReadOptions true true.

(** Two writers in one group, a snapshot, a deletion, reads, a null batch that makes
    the memtable immutable, the flush, and reads of the table. *)
Definition demo_steps : list Step := [
  StWrite 1 true (Some [OpPut (lit "a") (lit "1")]); StWrite 2 false (Some [OpPut (lit "b") (lit "2"); OpPut (lit "a") (lit "3")]); StRoom; StFinish; StReturn 2;
  StSnapshot; StWrite 3 false (Some [OpDelete (lit "a")]); StRoom; StGet demo_ro None (lit "a"); StFinish; StGet demo_ro None (lit "a"); StGet demo_ro (Some 1) (lit "a");
  StWrite 4 false None; StRoom; StRoom; StFinish; StBackground 10 None; StGet demo_ro (Some 1) (lit "a"); StGet demo_ro None (lit "b")].

Definition demo_outs : list Out := [
  OutNone; OutNone; OutNone; OutWrite 1 (Ok tt); OutWrite 2 (Ok tt);
  OutSnapshot 1; OutNone; OutNone; OutGet (Ok (Some (lit "3"))); OutWrite 3 (Ok tt); OutGet (Err (NotFound "deleted in memtable" "")); OutGet (Ok (Some (lit "3")));
  OutNone; OutNone; OutNone; OutWrite 4 (Ok tt); OutNone; OutGet (Ok (Some (lit "3"))); OutGet (Ok (Some (lit "2")))].

(** The entries of the memtable that is flushed. *)
Definition demo_entries : versions := [
  (mkPIK (lit "a") 4 kTypeDeletion, []); (mkPIK (lit "a") 3 kTypeValue, lit "3"); (mkPIK (lit "a") 1 kTypeValue, lit "1");
  (mkPIK (lit "b") 2 kTypeValue, lit "2")].

(** The states after opening, before the flush and after it. *)
Definition demo_none : DemoDB := opened (C := BC) (newWriter (mkMemFile [])) (mkMemFile []) ∅ None.
Definition demo_d0 : DemoDB := match demo_open with Some (Ok d, _) => d | _ => demo_none end.
Definition demo_d1 : DemoDB := default demo_none (fst <$> demo_run (take 16 demo_steps) demo_d0).
Definition demo_d2 : DemoDB := default demo_none (fst <$> demo_exec (StBackground 10 None) demo_d1).

Lemma demo_fits : table_fits (C := BC) (P := bloom) (W := MemFile) (builder_options demo_db_options) demo_entries.
Proof. intros [data] Hd. cbn in Hd. subst data. vm_compute. reflexivity. Qed.

Lemma demo_seqs : seqs_ok demo_entries.
Proof.
  intros p v Hp. repeat (apply elem_of_cons in Hp as [Hp|Hp]; [apply pair_equal_spec in Hp as [-> _]; split; vm_compute; [discriminate|reflexivity || discriminate]|]). by apply not_elem_of_nil in Hp.
Qed.

Lemma BC_eq (a b : bytes) : @ceq BC a b -> a = b.
Proof. intros H. apply string_compare_eq. exact H. Qed.

(** Only the outputs are compared: the states stay unevaluated. *)
Lemma outputs_run {A B : Type} (r : option (A * B)) (x : A) (out : B) : snd <$> r = Some out -> r = Some (default x (fst <$> r), out).
Proof. destruct r as [[a b]|]; [|done]. cbn. by intros [= ->]. Qed.

Lemma demo_legal :
  legal_run (C := BC) (P := bloom) (E := MapFS) (W := MemFile) (SF := MemFile) (F := MemFile) no_len no_len no_data no_data (lit "db") demo_db_options demo_usage demo_steps demo_d0.
Proof.
  assert (demo_run (take 16 demo_steps) demo_d0 = Some (demo_d1, take 16 demo_outs)) as E1 by (apply outputs_run; vm_compute; reflexivity).
  assert (demo_exec (StBackground 10 None) demo_d1 = Some (demo_d2, OutNone)) as E2 by (apply outputs_run; vm_compute; reflexivity). unfold demo_run in E1. unfold demo_exec in E2.
  change demo_steps with (take 16 demo_steps ++ [StBackground 10 None] ++ drop 17 demo_steps). apply legal_run_app; [apply run_check_ok; vm_compute; reflexivity|]. rewrite E1. cbn [app legal_run]. split.
  - right. right. unfold background_fits.
    assert (match db_imm demo_d1 with Some imm => scan_list (H := MemTableIterator_iter (C := BC)) 10 (MemTable_NewIterator imm) | None => None end = Some (internal_entries demo_entries)) as Es by (vm_compute; reflexivity).
    destruct (db_imm demo_d1) as [imm|]; [|discriminate Es]. exists demo_entries. split_and!; [exact Es|exact demo_seqs|exact demo_fits].
  - rewrite E2. apply run_check_ok. vm_compute. reflexivity.
Qed.

Lemma demo_fresh : fresh_directory (lit "db") (∅ : MapFS).
Proof. split; [reflexivity|]. intros x p _ _. apply bool_decide_eq_false. unfold MapFS. rewrite lookup_empty. by intros [? ?]. Qed.

Lemma demo_new_cache : new_cache demo_cache.
Proof. intros c [= <-]. split; [reflexivity|]. intros key blk H. by apply NewLRUCache_holds in H. Qed.

Lemma database_refines_witness :
  exists d env' d' a, demo_open = Some (Ok d, env') /\ demo_run demo_steps d = Some (d', demo_outs) /\ spec_run new_abs demo_steps demo_outs a.
Proof.
  assert (PL : FilterPolicyLaws bloom) by (apply BloomLaws; lia).
  destruct (database_refines (C := BC) (P := bloom) (E := MapFS) (W := MemFile) (SF := MemFile) (F := MemFile) (L := unit) no_len no_len no_data no_data BC_eq ltac:(vm_compute; reflexivity) (lit "db") demo_db_options
    ltac:(vm_compute; discriminate) demo_usage 50 demo_cache ∅ demo_steps demo_fresh demo_new_cache eq_refl ltac:(apply Nat.leb_le; vm_compute; reflexivity) ltac:(vm_compute; reflexivity) ltac:(vm_compute; reflexivity))
    as (d & env' & Eo & Hrun).
  assert (d = demo_d0) as -> by (unfold demo_d0, demo_open; by rewrite Eo).
  assert (snd <$> demo_run demo_steps demo_d0 = Some demo_outs) as Hs by (vm_compute; reflexivity). destruct (demo_run demo_steps demo_d0) as [[d' os]|] eqn:Er; [|discriminate Hs]. injection Hs as ->.
  destruct (Hrun d' demo_outs demo_legal Er) as (a & Ha). exists demo_d0, env', d', a. exact (conj Eo (conj Er Ha)).
Defined.

(** *** Witness: a manual compaction of the table that was flushed, cut after two entries *)

Definition cut_steps : list Step := demo_steps ++ [StManual 9 2 None None; StManualTurn 9].
Definition cut_entries : versions := take 2 demo_entries.

Abbreviation demo_input d c := (MakeInputIterator (C := BC) (HD := DbTableIter_iter (C := BC) (F := MemFile) (K := ShardedLRUCache Block) no_len no_len no_data no_data)
  (table_iter (C := BC) (P := bloom) (E := MapFS) (F := MemFile) (K := ShardedLRUCache Block) no_len no_len no_data no_data (lit "db") (table_options demo_db_options) (input_options (table_options demo_db_options)) (db_tables d)) error_iter (input_fuel c) c).
Abbreviation demo_scan d c := (scan_list (H := InputIter_iter (C := BC) (P := bloom) no_len no_len no_data no_data (lit "db") (table_options demo_db_options) (db_tables d) c) 10 (demo_input d c)).
Abbreviation demo_output d c D := (compaction_output (C := BC) (smallest_snapshot (db_snapshots d) (db_versions d)) c D).

Definition cut_check (r : option (DemoDB * list Out)) : bool :=
  match r with
  | Some (d, _) =>
      match db_imm d with None => true | Some _ => false end && negb (db_shutting_down d) && db_bg_compaction_scheduled d &&
      match chosen (C := BC) demo_db_options d with
      | Some c => bool_decide (demo_scan d c = Some (internal_entries demo_entries)) && bool_decide (demo_output d c cut_entries = cut_entries)
      | None => false
      end
  | None => false
  end.

Lemma cut_ready : cut_check (demo_run cut_steps demo_d0) = true.
Proof. vm_compute. reflexivity. Qed.

Lemma cut_legal :
  legal_run (C := BC) (P := bloom) (E := MapFS) (W := MemFile) (SF := MemFile) (F := MemFile) no_len no_len no_data no_data (lit "db") demo_db_options demo_usage cut_steps demo_d0.
Proof.
  apply legal_run_app; [exact demo_legal|]. assert (match demo_run demo_steps demo_d0 with
    | Some (d, _) => run_check (C := BC) (P := bloom) (E := MapFS) (W := MemFile) (SF := MemFile) (F := MemFile) no_len no_len no_data no_data (lit "db") demo_db_options demo_usage (drop 19 cut_steps) d
    | None => true end = true) as Hc by (vm_compute; reflexivity).
  unfold demo_run in Hc. destruct (run _ _ _ _ _ _ _ demo_steps demo_d0) as [[d os]|]; [by apply run_check_ok|done].
Qed.

Lemma cut_fits : table_fits (C := BC) (P := bloom) (W := MemFile) (builder_options demo_db_options) cut_entries.
Proof. intros [data] Hd. cbn in Hd. subst data. vm_compute. reflexivity. Qed.

Lemma shutdown_cuts_compaction_witness :
  exists d' d1 disk', demo_exec (StBackground 10 (Some 2%nat)) d' = Some (d1, OutNone) /\ db_bg_error d1 = StatusOK /\
    version_has (current (db_versions d1)) disk' (mkPIK (lit "a") 3 kTypeValue) (lit "3").
Proof.
  assert (PL : FilterPolicyLaws bloom) by (apply BloomLaws; lia).
  destruct (shutdown_cuts_compaction (C := BC) (P := bloom) (E := MapFS) (W := MemFile) (SF := MemFile) (F := MemFile) (L := unit) no_len no_len no_data no_data BC_eq ltac:(vm_compute; reflexivity) (lit "db") demo_db_options
    ltac:(vm_compute; discriminate) demo_usage 50 demo_cache ∅ cut_steps demo_fresh demo_new_cache eq_refl ltac:(apply Nat.leb_le; vm_compute; reflexivity) ltac:(vm_compute; reflexivity) ltac:(vm_compute; reflexivity))
    as (d & env' & Eo & Hrun).
  assert (d = demo_d0) as -> by (unfold demo_d0, demo_open; by rewrite Eo). pose proof cut_ready as Hc. destruct (demo_run cut_steps demo_d0) as [[d' os]|] eqn:Er; [|discriminate Hc]. unfold cut_check in Hc.
  apply andb_true_iff in Hc as [Hc Hch]. apply andb_true_iff in Hc as [Hc Hb]. apply andb_true_iff in Hc as [Hi Hs%negb_true_iff]. destruct (db_imm d') eqn:Ei; [discriminate Hi|].
  destruct (chosen demo_db_options d') as [c|] eqn:Ec; [|discriminate Hch]. apply andb_true_iff in Hch as [Hsc%bool_decide_eq_true Ho%bool_decide_eq_true].
  destruct (Hrun d' os 10%nat 2%nat c demo_entries cut_legal Er Ei Hs Hb Ec Hsc demo_seqs) as (d1 & disk & disk' & Ex & He & _ & _ & _ & _ & Hv).
  - fold cut_entries. rewrite Ho. discriminate.
  - fold cut_entries. rewrite Ho. exact cut_fits.
  - exists d', d1, disk'. split; [exact Ex|]. split; [exact He|]. apply Hv. left. fold cut_entries. rewrite Ho. right. left.
Defined.
End Demo.
