(* ===== verification/DbDurable.v ===== *)
(** * DbDurable: the log covers the memtable

    [RecoverLogFile] reads the records of a log and inserts them in a memtable.  On
    the log of a database that was used in any way, this rebuilds the memtable: so
    what was published and is not yet in a table is recovered from the log. *)

From stdpp Require Import sorting fin_sets.
From S2P Require Import Prelude Random Status Coding Comparator Logging FilterPolicy DbFormat SkipList MemTable WriteBatch Env LogFile Format Iterator Block Merger FilterBlock.
From S2P Require Import TwoLevelIterator TableBuilder Cache Table VersionEdit FileName Children DBIter Version VersionRead VersionBuilder VersionSet Manifest Compaction.
From S2P Require Import TableCache MapFS Snapshot History Iterates TableFiles CompactionRun VersionChange CompactionWork DbImpl DbStep DbFiles DbData DbDisk DbQueue DbRefine DbOpen DbTheorems.
From S2P Require Import MemTable.
From Stdlib Require Import Sorting.Sorted.

(** Two memtables with the same entries answer alike. *)
Lemma Get_perm {C : Comparator} {CL : ComparatorLaws C} {Rnd : Type} (m m' : MemTable Rnd) (es es' : list entry) (u : bytes) (s : SequenceNumber) :
  mem_repr (C := C) m es -> mem_repr (C := C) m' es' -> es ≡ₚ es' -> NoDup (map entry_seq es) -> seq_ok s -> zlen u + 8 < 2 ^ 32 ->
  MemTable_Get C m (newLookupKey u s) = MemTable_Get C m' (newLookupKey u s).
Proof.
  intros Hm Hm' Hp Hnd Hs Hu. destruct (Get_spec m es u s Hm Hs Hu) as [[-> Hn]|(e & He & Hv & -> & Hmax)]; destruct (Get_spec m' es' u s Hm' Hs Hu) as [[-> Hn']|(e' & He' & Hv' & -> & Hmax')].
  - done.
  - exfalso. rewrite <- Hp in He'. by apply (Hn e').
  - exfalso. rewrite Hp in He. by apply (Hn' e).
  - assert (e = e') as ->; [|done]. rewrite Hp in He. pose proof (Hmax' e He Hv) as H1. rewrite <- Hp in He'. pose proof (Hmax e' He' Hv') as H2. rewrite <- Hp in He.
    assert (entry_seq e = entry_seq e') as Es by (unfold entry_seq; lia). apply list_elem_of_lookup in He as [i Hi]. apply list_elem_of_lookup in He' as [j Hj].
    assert (i = j) as ->; [|congruence]. eapply (NoDup_lookup (map entry_seq es) i j (entry_seq e)); [done|rewrite list_lookup_fmap, Hi; done|rewrite list_lookup_fmap, Hj; cbn; by rewrite Es].
Qed.

Section Log.
Context {C : Comparator} {CL : ComparatorLaws C} {SF : Type} {QF : SequentialFile SF} {Rnd : Type} {US : UniformSource Rnd}.

(** The state of the recovery after the records of a log. *)
Definition recover_records (rs : list bytes) (st : MemTable Rnd * Z * Z) : MemTable Rnd * Z * Z :=
  fold_left (fun '(mem, count, max_sequence) r => recover_batch (C := C) r mem count max_sequence) rs st.

Lemma recover_log_read_all (rs : list bytes) (n fuel : nat) (reader reader' : Reader SF) (mem : MemTable Rnd) (count max_sequence : Z) :
  read_all n fuel reader = (Some rs, reader') -> recover_log_loop (C := C) n fuel reader mem count max_sequence = Some (recover_records rs (mem, count, max_sequence)).
Proof.
  revert rs reader mem count max_sequence. induction n as [|n IH]; intros rs reader mem count max_sequence Hr; cbn [read_all] in Hr; [done|]. cbn [recover_log_loop].
  destruct (ReadRecord fuel reader) as [[r| |] reader1]; [|by injection Hr as <- <-|done]. destruct (read_all n fuel reader1) as [[rs1|] reader2] eqn:E1; [|done]. cbn in Hr. injection Hr as <- <-.
  unfold recover_records. cbn [fold_left]. destruct (recover_batch r mem count max_sequence) as [[mem1 count1] max1]. by apply IH.
Qed.

(** One batch of a log. *)
Lemma recover_batch_ok (mem : MemTable Rnd) (es : list entry) (n : Z) (b : list WriteOp) (count m0 : Z) :
  mem_repr (C := C) mem es -> Forall op_fits b -> 0 <= count <= n -> n + zlen b < 2 ^ 31 -> (forall e, e ∈ es -> entry_seq e <= n) -> NoDup (map entry_seq es) ->
  exists mem' es', recover_batch (C := C) (batch_bytes (n + 1) b) mem count m0 = (mem', count + zlen b, Z.max m0 (n + zlen b)) /\
    mem_repr (C := C) mem' es' /\ es' ≡ₚ batch_entries (n + 1) b ++ es.
Proof.
  intros Hm Hf Hn Hz Hseq Hnd. pose proof (zlen_nonneg b). assert (Forall op_wf b /\ Forall (fun op => zlen (op_key op) + 8 < 2 ^ 32) b) as [Hwf Hk] by (by apply Forall_and).
  pose proof (batch_entries_wf (n + 1) b Hwf Hk ltac:(lia) ltac:(change kMaxSequenceNumber with (2 ^ 56 - 1); lia)) as Hew.
  destruct (mem_repr_adds (OneIn := OneIn) mem es (batch_entries (n + 1) b) Hm Hew) as (es' & Hes & Hm').
  { rewrite map_app. apply NoDup_app. split_and!; [apply batch_entries_NoDup| |done]. intros x H1 H2. apply list_elem_of_fmap in H1 as (e & -> & He). apply list_elem_of_fmap in H2 as (e' & Es & He').
    apply batch_entries_seq in He. apply Hseq in He'. lia. }
  unfold recover_batch. assert (12 <= zlen (batch_bytes (n + 1) b)) as H12.
  { unfold batch_bytes. rewrite !zlen_app, zlen_EncodeFixed64, zlen_EncodeFixed32. pose proof (zlen_nonneg (ops_bytes b)). lia. }
  destruct (Z.ltb_spec (zlen (batch_bytes (n + 1) b)) 12); [lia|]. change (SetContents (batch_bytes (n + 1) b)) with (batch_bytes (n + 1) b).
  rewrite InsertInto_batch by (done || lia). rewrite Sequence_spec, Count_batch by lia. rewrite (wrap_small 64 (n + 1 + zlen b)) by lia. replace (n + 1 + zlen b - 1) with (n + zlen b) by lia. rewrite wrap_small by lia.
  eexists _, es'. split; [|by split]. rewrite s32_small by lia. f_equal. destruct (Z.ltb_spec m0 (n + zlen b)); lia.
Qed.

Lemma recover_records_ok (bs : list (list WriteOp)) (mem : MemTable Rnd) (es : list entry) (n : Z) (count m0 : Z) :
  mem_repr (C := C) mem es -> Forall op_fits (concat bs) -> 0 <= count <= n -> n + zlen (concat bs) < 2 ^ 31 -> (forall e, e ∈ es -> entry_seq e <= n) -> NoDup (map entry_seq es) ->
  exists mem' es', recover_records (batch_records n bs) (mem, count, m0) = (mem', count + zlen (concat bs), if decide (bs = []) then m0 else Z.max m0 (n + zlen (concat bs))) /\
    mem_repr (C := C) mem' es' /\ es' ≡ₚ batch_entries (n + 1) (concat bs) ++ es.
Proof.
  revert mem es n count m0. induction bs as [|b bs IH]; intros mem es n count m0 Hm Hf Hn Hz Hseq Hnd; [exists mem, es; change (zlen (concat [])) with 0; by rewrite Z.add_0_r|].
  cbn [concat] in *. rewrite zlen_app in *. apply Forall_app in Hf as [Hf1 Hf2]. pose proof (zlen_nonneg b). pose proof (zlen_nonneg (concat bs)).
  destruct (recover_batch_ok mem es n b count m0 Hm Hf1 Hn ltac:(lia) Hseq Hnd) as (mem1 & es1 & E1 & Hm1 & Hes1). unfold recover_records. cbn [batch_records fold_left]. rewrite E1.
  destruct (IH mem1 es1 (n + zlen b) (count + zlen b) (Z.max m0 (n + zlen b)) Hm1 Hf2 ltac:(lia) ltac:(lia)) as (mem2 & es2 & E2 & Hm2 & Hes2).
  { intros e He. rewrite Hes1 in He. apply elem_of_app in He as [He|He]; [apply batch_entries_seq in He; lia|apply Hseq in He; lia]. }
  { rewrite Hes1, map_app. apply NoDup_app. split_and!; [apply batch_entries_NoDup| |done]. intros x H1 H2. apply list_elem_of_fmap in H1 as (e & -> & He). apply list_elem_of_fmap in H2 as (e' & Es & He').
    apply batch_entries_seq in He. apply Hseq in He'. lia. }
  exists mem2, es2. fold (recover_records (batch_records (n + zlen b) bs) (mem1, count + zlen b, Z.max m0 (n + zlen b))). rewrite E2. split_and!; [|done|].
  - f_equal; [f_equal; lia|]. destruct (decide (b :: bs = [])) as [|_]; [done|]. destruct (decide (bs = [])) as [->|]; [change (concat []) with (@nil WriteOp); change (zlen (@nil WriteOp)) with 0|]; lia.
  - rewrite Hes2, Hes1, batch_entries_app. replace (n + 1 + zlen b) with (n + zlen b + 1) by lia. rewrite (Permutation_app_comm (batch_entries (n + 1) b) (batch_entries (n + zlen b + 1) (concat bs))), <- app_assoc. done.
Qed.
End Log.

(** ** The log of a database in use *)

Section Durable.
Context (slen zstlen : bytes -> option Z) (sun zun : bytes -> option bytes).
Context {C : Comparator} {CL : ComparatorLaws C} (Heq : forall a b, ceq a b -> a = b) (Hname : zlen (lit (Name (Comparator := C))) < 2 ^ 32) {P : FilterPolicy} {PL : FilterPolicyLaws P}.
Context {E W SF F L : Type} {FS : FileSystem E W SF} {WF : WritableFile W} {WL : WritableFileLaws W} {HF : HandleFS E W} {FSL : FileSystemLaws E W SF}.
Context {QF : SequentialFile SF} {QL : SequentialFileLaws SF} {FR : FileReadLaws E W SF} {DF : DirectoryFS E L} {DL : DirectoryLaws E W SF L} {LL : ListingLaws E W SF L}.
Context {RFS : RandomAccessFS E F} {RF : RandomAccessFile F} {RL : RandomAccessFileLaws F} {FF : FileFrameLaws E W SF F}.
Context {K Hd : Type} {KC : Cache K Hd Block} {KL : CacheLaws K Hd Block} {KI : CacheIdLaws K Hd Block}.
Context {Rnd : Type} {US : UniformSource Rnd} (dbname : bytes) (options : Options) (Hri : 1 <= o_block_restart_interval options) (mem_usage : MemTable Rnd -> Z).

Abbreviation DB := (DBImpl E W F K Rnd).

Lemma data_recovers (d : DB) (ops : list WriteOp) (g : Ghost) (f : SF) (size : nat) :
  DataOk (C := C) d ops g -> sf_rest f = wf_contents (dest_ (db_log d)) -> (length (sf_rest f) <= size)%nat ->
  exists mem count max_sequence, recover_log_loop (C := C) (Rnd := Rnd) (S size) (S size) (newReader f true true 0) new_mem 0 0 = Some (mem, count, max_sequence) /\
    (forall u s, seq_ok s -> zlen u + 8 < 2 ^ 32 -> MemTable_Get C mem (newLookupKey u s) = MemTable_Get C (db_mem d) (newLookupKey u s)) /\
    (sf_rest f <> [] -> vs_last_sequence (db_versions d) <= max_sequence).
Proof.
  intros HD Hf Hsz. destruct (da_log _ _ _ HD) as (bs & [HL _] & Hbs). rewrite <- Hf in HL. destruct (read_all_complete _ f _ true true size HL Hsz) as (reader' & Er).
  rewrite (recover_log_read_all _ _ _ _ _ _ _ _ Er). destruct (da_fits _ _ _ HD) as [Hfits Hz]. destruct (da_order _ _ _ HD) as [[O1 O2] O3].
  assert (zlen (concat bs) = zlen (ops ++ g_pend g) - g_b2 g) as Hlen.
  { rewrite Hbs. rewrite zlen_app in *. pose proof (zlen_nonneg (g_pend g)). unfold zlen in *. rewrite length_drop, length_app. lia. }
  destruct (recover_records_ok (C := C) bs new_mem [] (g_b2 g) 0 0) as (mem & es & E1 & Hm & Hes).
  { apply mem_repr_new. } { rewrite Hbs. by apply Forall_drop. } { lia. } { lia. } { intros e He. by apply not_elem_of_nil in He. } { constructor. }
  rewrite E1. eexists mem, _, _. split; [done|]. rewrite app_nil_r in Hes. split.
  - intros u s Hs Hu. eapply Get_perm; [exact Hm|apply HD| | |done|done]; [rewrite Hes, Hbs; symmetry; apply HD|rewrite Hes; apply batch_entries_NoDup].
  - intros Hne. rewrite (da_last _ _ _ HD). destruct (decide (bs = [])) as [->|_]; [|rewrite zlen_app in *; pose proof (zlen_nonneg (g_pend g)); lia]. exfalso. apply Hne. cbn [batch_records] in HL. by inversion HL.
Qed.

(** The log covers the memtable.  Take a database in any state that steps of any
    threads lead to, and read its log as [RecoverLogFile] does: the memtable that is
    rebuilt answers every lookup, at every sequence number, as the memtable of the
    database does; and unless the log is empty, the largest sequence number found is
    not below the last one published, so that no number is given out twice. *)
Theorem log_recovers_memtable (size : nat) (cache : option K) (env : E) (steps : list Step) :
  fresh_directory dbname env -> new_cache cache -> o_create_if_missing options = true -> (length (first_manifest (C := C) (W := W)) <= size)%nat ->
  Z.of_nat (length steps) + 4 < 2 ^ 31 -> zlen (all_ops steps) < 2 ^ 31 ->
  exists d env', DB_Open (C := C) (P := P) slen zstlen sun zun dbname options size cache env = Some (Ok d, env') /\
    forall d' os (f : SF) fuel, legal_run (C := C) (P := P) slen zstlen sun zun dbname options mem_usage steps d -> run (C := C) (P := P) slen zstlen sun zun dbname options mem_usage steps d = Some (d', os) ->
      sf_rest f = wf_contents (dest_ (db_log d')) -> (length (sf_rest f) <= fuel)%nat ->
      exists mem count max_sequence, recover_log_loop (C := C) (Rnd := Rnd) (S fuel) (S fuel) (newReader f true true 0) new_mem 0 0 = Some (mem, count, max_sequence) /\
        (forall u s, seq_ok s -> zlen u + 8 < 2 ^ 32 -> MemTable_Get C mem (newLookupKey u s) = MemTable_Get C (db_mem d') (newLookupKey u s)) /\
        (sf_rest f <> [] -> vs_last_sequence (db_versions d') <= max_sequence).
Proof.
  intros Hfresh Hcache Hcreate Hsz Hk Hn.
  destruct (open_run (C := C) (P := P) (F := F) slen zstlen sun zun Heq Hname dbname options Hri mem_usage size cache env steps 0 0 Hfresh Hcache Hcreate Hsz ltac:(lia) ltac:(lia) ltac:(lia)) as (d & env' & Eo & Hrun).
  exists d, env'. split; [exact Eo|]. intros d' os f fuel Hl Er Hf Hlen. destruct (Hrun d' os Hl Er) as (a & g & _ & HO). by apply (data_recovers d' (ab_ops a) g), Hlen; [apply HO|].
Qed.
End Durable.

(** *** Witness: the log of the run in memory, before its memtable is switched *)

Lemma log_recovers_memtable_witness :
  let d := default demo_none (fst <$> demo_run (take 12 demo_steps) demo_d0) in
  let f := mkMemFile (mf_data (dest_ (db_log d))) in
  exists mem count max_sequence, recover_log_loop (C := BytewiseComparator) (Rnd := unit) 301 301 (newReader f true true 0) new_mem 0 0 = Some (mem, count, max_sequence) /\ 4 <= max_sequence /\
    MemTable_Get BytewiseComparator mem (newLookupKey (lit "a") 3) = Ok (Some (lit "3")) /\ MemTable_Get BytewiseComparator mem (newLookupKey (lit "a") 4) = Err (NotFound "deleted in memtable" "").
Proof.
  intros d f. assert (PL : FilterPolicyLaws (BloomPolicy 10)) by (apply BloomLaws; lia).
  destruct (log_recovers_memtable (C := BytewiseComparator) (P := BloomPolicy 10) (E := MapFS) (W := MemFile) (SF := MemFile) (F := MemFile) (L := unit) (fun _ => None) (fun _ => None) (fun _ => None) (fun _ => None)
    BC_eq ltac:(vm_compute; reflexivity) (lit "db") demo_db_options ltac:(vm_compute; discriminate) demo_usage 50 demo_cache ∅ (take 12 demo_steps) demo_fresh demo_new_cache eq_refl
    ltac:(apply Nat.leb_le; vm_compute; reflexivity) ltac:(vm_compute; reflexivity) ltac:(vm_compute; reflexivity)) as (d0 & env' & Eo & Hrun).
  assert (d0 = demo_d0) as -> by (unfold demo_d0, demo_open; by rewrite Eo).
  assert (demo_run (take 12 demo_steps) demo_d0 = Some (d, take 12 demo_outs)) as Er by (apply outputs_run; vm_compute; reflexivity).
  destruct (Hrun d (take 12 demo_outs) f 300%nat) as (mem & count & max_sequence & E1 & Hget & Hmax).
  - apply run_check_ok. vm_compute. reflexivity.
  - exact Er.
  - reflexivity.
  - apply Nat.leb_le. vm_compute. reflexivity.
  - exists mem, count, max_sequence. split_and!; [exact E1| | |].
    + transitivity (vs_last_sequence (db_versions d)); [|apply Hmax]; vm_compute; discriminate.
    + rewrite Hget by (split; vm_compute; discriminate || reflexivity). vm_compute. reflexivity.
    + rewrite Hget by (split; vm_compute; discriminate || reflexivity). vm_compute. reflexivity.
Defined.

(** ** A database that was emptied *)

Section Emptied.
Abbreviation DemoDB := (DBImpl MapFS MemFile MemFile (ShardedLRUCache Block) unit).

(** A key is put and deleted, the memtable is flushed, and its table compacted by hand. *)
Definition emptied_steps : list Step := [
  StWrite 1 true (Some [OpPut (lit "a") (lit "1"); OpDelete (lit "a")]); StRoom; StFinish;
  StWrite 4 false None; StRoom; StRoom; StFinish; StBackground 10 None; StManual 9 2 None None; StManualTurn 9; StBackground 10 None; StGet demo_ro None (lit "a")].

(** The file system once the database is closed. *)
Definition demo_close (d : DemoDB) : MapFS := DBImpl_close (E := MapFS) (W := MemFile) (SF := MemFile) (F := MemFile) (lit "db") d.

Definition reopened (d : DemoDB) : option (Result DemoDB * MapFS) :=
  DB_Open (C := BytewiseComparator) (P := BloomPolicy 10) (E := MapFS) (W := MemFile) (SF := MemFile) (F := MemFile) (L := unit)
    (fun _ => None) (fun _ => None) (fun _ => None) (fun _ => None) (lit "db") demo_db_options 5000 demo_cache (demo_close d).

(** What a run of [n] of the steps shows, and what opening the database again answers. *)
Definition emptied_then (n : nat) : option (list Out * option (Result Z)) :=
  '(d, os) ← demo_run (take n emptied_steps) demo_d0;
  Some (os, match reopened d with Some (Ok d', _) => Some (Ok (vs_last_sequence (db_versions d'))) | Some (Err s, _) => Some (Err s) | None => None end).

(** An example of [compaction_of_nothing] in a build without assertions (with them the
    process stops at dbformat.h:102 when the compaction is logged).  A key is put and deleted, the memtable is flushed and its table is
    compacted: every call succeeds in this build, and reads answer NotFound as they should.
    Before the compaction the database can be closed and opened again; after it,
    [DB::Open] answers Corruption, "VersionEdit: bad InternalKey". *)
Example emptied_database_cannot_reopen :
  emptied_then 8 = Some ([OutNone; OutNone; OutWrite 1 (Ok tt); OutNone; OutNone; OutNone; OutWrite 4 (Ok tt); OutNone], Some (Ok 2)) /\
  emptied_then 12 = Some ([OutNone; OutNone; OutWrite 1 (Ok tt); OutNone; OutNone; OutNone; OutWrite 4 (Ok tt); OutNone; OutNone; OutNone; OutNone; OutGet (Err (NotFound "not found" ""))],
                          Some (Err (Corruption "VersionEdit: bad InternalKey" ""))).
Proof. split; vm_compute; reflexivity. Qed.
End Emptied.
