(* ===== verification/DbRecover.v ===== *)
(** * DbRecover: opening a database that was closed

    The files that a database leaves give the state back: [Recover] reads the MANIFEST
    ([Recover_recorded]), the directory has the logs that hold what is in no table
    ([logs_to_recover_live]), and each log that is not empty becomes a table on level 0
    ([recover_logs_ok]). *)

From stdpp Require Import sorting fin_sets.
From S2P Require Import Prelude Random Status Coding Comparator Logging FilterPolicy DbFormat SkipList MemTable WriteBatch Env LogFile Format Iterator Block Merger FilterBlock.
From S2P Require Import TwoLevelIterator TableBuilder Cache Table VersionEdit FileName Children DBIter Version VersionRead VersionBuilder VersionSet Manifest Compaction.
From S2P Require Import TableCache MapFS Snapshot History Iterates TableFiles CompactionRun VersionChange CompactionWork DbImpl DbStep DbFiles DbData DbDisk DbQueue DbRefine DbOpen DbTheorems DbDurable.
From S2P Require Import MemTable.
From Stdlib Require Import Sorting.Sorted.

(** A list is sorted in one way. *)
Lemma merge_sort_sorted (l k : list Z) : l ≡ₚ k -> StronglySorted Z.lt k -> merge_sort Z.le l = k.
Proof.
  intros Hp Hk. apply (StronglySorted_unique Z.le).
  - apply (StronglySorted_merge_sort Z.le).
  - clear Hp. induction Hk as [|x k Hk IH Hx]; constructor; [done|]. eapply Forall_impl; [exact Hx|]. intros y Hy. lia.
  - by rewrite merge_sort_Permutation.
Qed.

Lemma NoDup_omap_inj {A B : Type} (f : A -> option B) (l : list A) :
  NoDup l -> (forall x y b, x ∈ l -> y ∈ l -> f x = Some b -> f y = Some b -> x = y) -> NoDup (omap f l).
Proof.
  induction 1 as [|x l Hx Hl IH]; intros Hinj; cbn; [constructor|]. assert (NoDup (omap f l)) as Hnd by (apply IH; intros y z b Hy Hz; apply Hinj; by right).
  destruct (f x) as [b|] eqn:Ef; [|done]. constructor; [|done]. intros (y & Hy & Ey)%list_elem_of_omap. assert (x = y) as -> by (apply (Hinj x y b); [by left|by right|done|done]). done.
Qed.

Section Recover.
Context {C : Comparator} {CL : ComparatorLaws C}.
Context {E W SF F L : Type} {FS : FileSystem E W SF} {WF : WritableFile W} {WL : WritableFileLaws W} {HF : HandleFS E W} {FSL : FileSystemLaws E W SF}.
Context {QF : SequentialFile SF} {QL : SequentialFileLaws SF} {FR : FileReadLaws E W SF} {DF : DirectoryFS E L} {DL : DirectoryLaws E W SF L} {LL : ListingLaws E W SF L}.
Context (dbname : bytes).

Abbreviation reads := (fs_reads (E := E) (W := W) (F := SF)).
Abbreviation DiskOk := (DiskOk (C := C) (E := E) (W := W) (SF := SF) (L := L) dbname).
Abbreviation Recorded := (Recorded (C := C) (E := E) (W := W) (SF := SF) dbname).

(** ** The MANIFEST *)

Lemma or_new_fold {A : Type} (sel : VersionEdit -> option A) (get : Recovered -> option A) (es : list VersionEdit) (e : VersionEdit) (st : Recovered) (y : A) :
  (forall e st, get (take_edit (C := C) e st) = or_new (sel e) (get st)) -> last es = Some e -> sel e = Some y ->
  get (fold_left (fun st e => take_edit (C := C) e st) es st) = Some y.
Proof. intros Hg (es' & ->)%last_Some Hs. rewrite fold_left_app. cbn [fold_left]. by rewrite Hg, Hs. Qed.

Lemma Recover_recorded (x : Manifest) (M : file_map) (b : Z) (vs : VersionSet W) (env : E) :
  Recorded x M b vs env -> vs_descriptor_log vs = None -> mn_next x + 1 < 2 ^ 64 ->
  exists vs1 size0, (forall size, (size0 <= size)%nat -> Recover (C := C) dbname size (newVersionSet (W := W)) env = Some (Ok true, vs1, env)) /\
    Recorded x M b vs1 env /\ version_rep (C := C) (current vs1) M /\ pickable (current vs1) /\ vs_next_file_number vs1 = mn_next x + 1 /\ vs_manifest_file_number vs1 = mn_next x /\
    vs_last_sequence vs1 = mn_last x /\ vs_log_number vs1 = vs_log_number vs /\ vs_descriptor_log vs1 = None.
Proof.
  intros HR Hd Hn. pose proof (rd_manifest _ _ _ _ _ _ HR) as Hman. rewrite Hd in Hman. destruct Hman as (data & o & (mf & Emf & Hmf) & HL). destruct (rd_current _ _ _ _ _ _ HR) as (cf & Ecf & Hcf).
  destruct (rd_counters _ _ _ _ _ _ HR) as (e & He & C1 & C2 & C3 & C4). pose proof (rd_ok _ _ _ _ _ _ HR) as Hok. destruct (rd_snap _ _ _ _ _ _ HR) as [Hs1 Hs2].
  set (st0 := mkRecovered (newBuilder (vs_compact_pointer (newVersionSet (W := W))) (current (newVersionSet (W := W)))) None None None None).
  set (st := fold_left (fun st e => take_edit (C := C) e st) (mn_snap x :: mn_edits x) st0).
  assert (last (mn_snap x :: mn_edits x) = Some e) as He' by (destruct (mn_edits x); [done|exact He]).
  assert (rc_next_file st = Some (mn_next x)) as R1 by (by apply (or_new_fold ve_next_file_number rc_next_file _ e)).
  assert (rc_last_sequence st = Some (mn_last x)) as R2 by (by apply (or_new_fold ve_last_sequence rc_last_sequence _ e)).
  assert (rc_log_number st = Some (vs_log_number vs)) as R3 by (by apply (or_new_fold ve_log_number rc_log_number _ e)).
  assert (rc_prev_log_number st = Some 0) as R4 by (by apply (or_new_fold ve_prev_log_number rc_prev_log_number _ e)).
  assert (rc_builder st = fold_left (Builder_Apply (C := C)) (mn_snap x :: mn_edits x) (newBuilder (vs_compact_pointer (newVersionSet (W := W))) newVersion)) as Hb by apply take_edits_builder.
  pose proof (recovered_rep (C := C) (vs_compact_pointer (newVersionSet (W := W))) (mn_snap x) _ (mn_edits x) ltac:(eapply Forall_impl; [exact Hok|]; by intros y []) eq_refl Hs1 Hs2 (rd_fresh _ _ _ _ _ _ HR)) as Hrep.
  rewrite (rd_map _ _ _ _ _ _ HR), <- Hb in Hrep.
  set (v := Finalize (SaveTo (C := C) (rc_builder st))).
  exists (mkVersionSet (u64 (mn_next x + 1)) (mn_next x) (mn_last x) (vs_log_number vs) 0 None [newVersion; v] (bld_compact_pointer (rc_builder st))), (length data).
  assert (current (mkVersionSet (u64 (mn_next x + 1)) (mn_next x) (mn_last x) (vs_log_number vs) 0 (@None (Writer W)) [newVersion; v] (bld_compact_pointer (rc_builder st))) = v) as Ecur by reflexivity.
  pose proof (rd_next _ _ _ _ _ _ HR) as Hnx. split_and!; [| |rewrite Ecur; by apply Finalize_rep|rewrite Ecur; by apply Finalize_pickable|apply wrap_small; lia|done..].
  - intros size Hsz. unfold Recover. rewrite Ecf. destruct (current_contents_spec dbname (mn_number x) (rd_number _ _ _ _ _ _ HR)) as (name & Ename & Hlen & Epath).
    destruct (sf_Read_spec 1024 cf ltac:(lia)) as (cf' & Ercf & _). rewrite Ercf, Hcf, Ename. cbn [fst].
    rewrite ztake_all by (rewrite zlen_app; change (zlen [Byte.x0a]) with 1; lia).
    destruct (Z.eqb_spec (zlen (name ++ [Byte.x0a])) 0) as [Ez|_]; [rewrite zlen_app in Ez; pose proof (zlen_nonneg name); change (zlen [Byte.x0a]) with 1 in Ez; lia|].
    rewrite last_last, bool_decide_eq_true_2 by done. cbn [orb negb]. rewrite removelast_last, Epath, Emf. cbv zeta. rewrite <- Hmf in HL, Hsz.
    destruct (read_all_complete _ mf _ false true size HL Hsz) as (s' & Er). rewrite (recover_loop_read_all (mn_snap x :: mn_edits x) _ _ _ s' _ Hok Er). change (ok StatusOK) with true. cbv iota. fold st0. fold st.
    unfold install_recovered. rewrite R1, R2, R3, R4. destruct (MarkFileNumberUsed_fields (default 0 (Some 0)) (set_pointers (bld_compact_pointer (rc_builder st)) (newVersionSet (W := W)))) as (n1 & ->).
    destruct (MarkFileNumberUsed_fields (vs_log_number vs) (set_next_file n1 (set_pointers (bld_compact_pointer (rc_builder st)) (newVersionSet (W := W))))) as (n2 & ->). reflexivity.
  - pose proof (rd_last _ _ _ _ _ _ HR). destruct HR. split; try done; cbn [vs_descriptor_log vs_log_number vs_prev_log_number vs_next_file_number vs_last_sequence vs_compact_pointer].
    + by exists data, o; split; [exists mf|].
    + rewrite wrap_small by lia. lia.
    + lia.
    + assert (bld_compact_pointer (rc_builder st) = fold_left edit_pointers (mn_snap x :: mn_edits x) (replicate kNumLevels [])) as Ep by (rewrite Hb; apply pointers_of_edits). unfold pointers_ok. cbn [vs_compact_pointer]. rewrite Ep.
      assert (forall es cp, Forall (loggable (C := C)) es -> length cp = kNumLevels -> (forall p, p ∈ cp -> zlen p < 2 ^ 32) ->
        length (fold_left edit_pointers es cp) = kNumLevels /\ forall p, p ∈ fold_left edit_pointers es cp -> zlen p < 2 ^ 32) as Hfold.
      { induction es as [|e1 es IH]; intros cp Hes Hc1 Hc2; [done|]. apply Forall_cons in Hes as [He1 Hes]. cbn [fold_left]. apply IH; [done|unfold edit_pointers; by rewrite set_pointers_length|].
        apply set_pointers_small; [|done]. intros p Hp. by apply (edit_ok_pointers e1 p) in Hp as [_ [_ Hp]]; [|apply He1]. }
      apply Hfold; [done|apply length_replicate|]. intros p [-> _]%elem_of_replicate. reflexivity.
Qed.

(** ** The logs in the directory *)

Lemma logs_to_recover_live (vs : VersionSet W) (env : E) (live : list Z) (names : list bytes) :
  (forall n, n ∈ live -> num_ok n /\ vs_log_number vs <= n /\ exists data, reads env (LogFileName dbname n) data) -> StronglySorted Z.lt live -> vs_prev_log_number vs = 0 ->
  (forall y p, ParseFileName y = Some p -> pf_type p = kLogFile -> fs_FileExists (dbname ++ lit "/" ++ y) env = true -> pf_number p < vs_log_number vs \/ exists n, n ∈ live /\ y = numbered n ".log") ->
  fs_GetChildren dbname env = Ok names -> logs_to_recover names vs = live.
Proof.
  intros Hlive Hsrt Hprev Hot Eg. assert (forall x, x ∈ names -> fs_FileExists (dbname ++ [Byte.x2f] ++ x) env = true) as Hch by (intros x; by apply fs_GetChildren_exists). destruct (fs_GetChildren_all dbname env names Eg) as [Hnd Hall].
  unfold logs_to_recover. apply merge_sort_sorted; [|done]. rewrite Hprev. set (f := fun fname => _).
  assert (forall y n, y ∈ names -> f y = Some n <-> n ∈ live /\ y = numbered n ".log") as Hf.
  { intros y n Hy. unfold f. split.
    - destruct (ParseFileName y) as [p|] eqn:Hp; cbn [mbind option_bind]; [|done]. case_bool_decide as Ht; cbn [andb]; [|done]. rewrite Z.eqb_refl. cbn [negb andb]. rewrite orb_false_r.
      destruct (Z.leb_spec (vs_log_number vs) (pf_number p)) as [Hle|]; [|done]. intros [= <-]. destruct (Hot y p Hp Ht (Hch y Hy)) as [?|(n & Hn & ->)]; [lia|].
      rewrite (log_parse n) in Hp by apply (Hlive n Hn). injection Hp as <-. done.
    - intros [Hn ->]. destruct (Hlive n Hn) as (Hnum & Hle & _). rewrite log_parse by done. cbn [mbind option_bind pf_type pf_number]. rewrite bool_decide_eq_true_2 by done.
      destruct (Z.leb_spec (vs_log_number vs) n); [done|lia]. }
  apply NoDup_Permutation.
  - apply NoDup_omap_inj; [done|]. intros y z n Hy Hz E1%Hf E2%Hf; [|done|done]. destruct E1 as [_ ->]. by destruct E2 as [_ ->].
  - clear -Hsrt. induction Hsrt as [|n live Hs IH Hn]; constructor; [|done]. intros Hin. rewrite List.Forall_forall in Hn. specialize (Hn n ltac:(by apply list_elem_of_In)). lia.
  - intros n. rewrite list_elem_of_omap. split.
    + intros (y & Hy & Ey). by apply Hf in Ey as [? _].
    + intros Hn. destruct (Hlive n Hn) as (Hnum & _ & data & Hr). assert (numbered n ".log" ∈ names) as Hin by (apply (Hall _ data); [by apply log_plain|by rewrite log_child in Hr]).
      exists (numbered n ".log"). split; [done|]. by apply Hf.
Qed.
End Recover.

(** ** Tables from the logs *)

Section Logs.
Context (slen zstlen : bytes -> option Z) (sun zun : bytes -> option bytes).
Context {C : Comparator} {CL : ComparatorLaws C} (Heq : forall a b, ceq a b -> a = b) (Hname : zlen (lit (Name (Comparator := C))) < 2 ^ 32) {P : FilterPolicy} {PL : FilterPolicyLaws P}.
Context {E W SF F L : Type} {FS : FileSystem E W SF} {WF : WritableFile W} {WL : WritableFileLaws W} {HF : HandleFS E W} {FSL : FileSystemLaws E W SF}.
Context {QF : SequentialFile SF} {QL : SequentialFileLaws SF} {FR : FileReadLaws E W SF} {DF : DirectoryFS E L} {DL : DirectoryLaws E W SF L} {LL : ListingLaws E W SF L}.
Context {RFS : RandomAccessFS E F} {RF : RandomAccessFile F} {RL : RandomAccessFileLaws F} {FF : FileFrameLaws E W SF F}.
Context {K Hd : Type} {KC : Cache K Hd Block} {KL : CacheLaws K Hd Block} {KI : CacheIdLaws K Hd Block}.
Context {Rnd : Type} {US : UniformSource Rnd} (dbname : bytes) (options : Options) (Hri : 1 <= o_block_restart_interval options).

Abbreviation Disk := (gmap Z (Z * versions)).
Abbreviation FilesOk := (FilesOk (C := C) (P := P) (W := W) (E := E) (F := F) (K := K) dbname (table_options options)).
Abbreviation fits := (table_fits (C := C) (P := P) (W := W) (builder_options options)).
Abbreviation reads := (fs_reads (E := E) (W := W) (F := SF)).

(** One more file on level 0, newer than all others. *)
Lemma FilesOk_level0 (vs : VersionSet W) (tables : TableCache E F K) (disk : Disk) (M : file_map) (k : nat) (f0 : FileMetaData) :
  let f := with_allowed_seeks f0 in
  FilesOk vs tables disk M k -> disk !! fm_number f = Some (fm_file_size f, file_entries disk f) -> nums_ok f -> file_ok (C := C) f -> contents_ok (C := C) f (file_entries disk f) ->
  (forall g, in_version (current vs) g -> fm_number (snd g) < fm_number f) ->
  (forall p x q y, (p, x) ∈ file_entries disk f -> version_has (current vs) disk q y -> pik_sequence q < pik_sequence p) ->
  exists v', FilesOk (AppendVersion v' vs) tables disk (add_file M (0, f0)) k /\ forall p x, version_has v' disk p x <-> (p, x) ∈ file_entries disk f \/ version_has (current vs) disk p x.
Proof.
  intros f HI Hdisk Hnums Hfo Hco Hless Hnewer. set (n := fm_number f) in *. pose proof (fi_rep _ _ _ _ _ _ _ HI) as Hrep.
  assert (forall l g, M !! (l, n) = Some g -> False) as HM.
  { intros l g Hg. destruct (vr_number _ _ Hrep _ _ _ Hg) as [En Hl]. assert (in_version (current vs) (l, g)) as Hin by (split; [done|]; apply (vr_files _ _ Hrep); cbn [fst snd]; rewrite En; exact Hg). specialize (Hless _ Hin). cbn [snd] in Hless. lia. }
  set (e := AddFile 0 (fm_number f0) (fm_file_size f0) (fm_smallest f0) (fm_largest f0) newVersionEdit).
  assert (apply_edit M e = add_file M (0, f0)) as Eap by reflexivity.
  assert (version_rep (C := C) (next_version (C := C) vs e) (add_file M (0, f0))) as Hrep'.
  { rewrite <- Eap. apply next_version_rep; [done| | |].
    - split; [intros p Hp; by apply not_elem_of_nil in Hp|]. intros p ->%list_elem_of_singleton. unfold level_ok. cbn [fst]. unfold kNumLevels. lia.
    - apply NoDup_singleton.
    - intros i ->%list_elem_of_singleton. unfold new_id. cbn [fst snd fm_number]. destruct (M !! _) as [g|] eqn:Eg; [|done]. by apply HM in Eg. }
  set (v' := next_version (C := C) vs e) in *. assert (current (AppendVersion v' vs) = v') as Ecur by (unfold current, AppendVersion; cbn [vs_versions]; apply last_last).
  assert (replaces (current vs) (fun _ => False) 0 f v') as Hr.
  { intros [l g]. unfold in_version. cbn [fst snd]. rewrite (vr_files _ _ Hrep'), (vr_files _ _ Hrep). unfold add_file. cbn [fst snd Z.to_nat]. change (fm_number f0) with n. destruct (decide ((l, fm_number g) = (0%nat, n))) as [Eb|Eb].
    - rewrite Eb, lookup_insert_eq. split.
      + intros [_ [= <-]]. left. by injection Eb as ->.
      + intros [[= -> ->]|[[_ Hg] _]]; [split; [unfold kNumLevels; lia|done]|]. by apply HM in Hg.
    - rewrite lookup_insert_ne by (intros E0; by apply Eb). split; [intros Hg; right; split; [exact Hg|by intros []]|]. intros [[= -> ->]|[Hg _]]; [by destruct Eb|exact Hg]. }
  assert (forall l m g, add_file M (0, f0) !! (l, m) = Some g -> disk !! fm_number g = Some (fm_file_size g, file_entries disk g) /\ nums_ok g) as Hfiles.
  { intros l m g. unfold add_file. intros [[_ <-]|[_ Hg]]%lookup_insert_Some; [done|]. by apply (fi_files _ _ _ _ _ _ _ HI l m). }
  exists v'. split.
  - destruct HI as [Hst Hnum Hnext Hman Hdesc _ _ Hv Hpick]. split; rewrite ?Ecur; try done; [|by apply Finalize_pickable].
    assert (forall l, zlen (files_ v' l) < 2 ^ 31) as Hsz.
    { intros l. assert (zlen (files_ v' l) <= vs_next_file_number vs); [|lia]. eapply files_count; [exact Hrep'|lia|]. intros l' m g Hg. destruct (vr_number _ _ Hrep' _ _ _ Hg) as [<- _]. destruct (Hfiles _ _ _ Hg) as [Hd' _]. by apply Hnum in Hd'. }
    apply (replaces_ok (current vs) (file_entries disk) (fun _ => False) 0 f v' (add_file M (0, f0))); try done; [intros H0; lia| |].
    + intros [l g] p q x y [Hlg _] [Hs|(_ & _ & Hs)] _ _ _; cbn [fst snd] in *; [lia|]. specialize (Hless _ Hlg). cbn [snd] in Hless. fold n in Hs. lia.
    + intros lg p q x y [Hlg _] _ Hp Hq _. apply (Hnewer p x q y Hp). by exists lg.
  - intros p x. unfold version_has. split.
    + intros (lf & Hlf & Hp). apply Hr in Hlf as [->|[Hlf _]]; [by left|right; by exists lf].
    + intros [Hp|(lf & Hlf & Hp)]; [exists (0%nat, f); split; [apply Hr; by left|done]|]. exists lf. split; [|done]. apply Hr. right. split; [done|]. by intros [].
Qed.

(** The edit that adds the files to level 0. *)
Definition added (fs : list FileMetaData) : VersionEdit :=
  fold_left (fun e f => AddFile 0 (fm_number f) (fm_file_size f) (fm_smallest f) (fm_largest f) e) fs newVersionEdit.

Definition add_level0 (M : file_map) (fs : list FileMetaData) : file_map := fold_left (fun M f => add_file M (0, f)) fs M.

Lemma added_snoc (fs : list FileMetaData) (f : FileMetaData) : added (fs ++ [f]) = AddFile 0 (fm_number f) (fm_file_size f) (fm_smallest f) (fm_largest f) (added fs).
Proof. unfold added. by rewrite fold_left_app. Qed.

Lemma add_level0_snoc (M : file_map) (fs : list FileMetaData) (f : FileMetaData) : add_level0 M (fs ++ [f]) = add_file (add_level0 M fs) (0, f).
Proof. unfold add_level0. by rewrite fold_left_app. Qed.

Lemma added_fields (fs : list FileMetaData) :
  ve_comparator (added fs) = None /\ ve_log_number (added fs) = None /\ ve_prev_log_number (added fs) = None /\ ve_deleted_files (added fs) = [] /\ ve_new_files (added fs) = map (fun f => (0, strip f)) fs.
Proof.
  induction fs as [|f fs IH] using rev_ind; [done|]. destruct IH as (H1 & H2 & H3 & H4 & H5). rewrite added_snoc, map_app. cbn [AddFile emplace_new_file ve_comparator ve_log_number ve_prev_log_number ve_deleted_files ve_new_files map].
  split_and!; [done..|]. by rewrite H5.
Qed.

(** The state between two logs: [R] are the operations recovered so far, [fs] the files that
    have them, and [v] the version with these files, which is not yet installed. *)
Record Recovering (vs0 : VersionSet W) (env0 : E) (M : file_map) (E0 : versions) (b : Z) (R : list WriteOp)
    (st : LogRecovery) (vs : VersionSet W) (tables : TableCache E F K) (fs : list FileMetaData) (v : Version) (disk : Disk) (k : nat) : Prop := {
  rv_vs : vs = set_next_file (vs_next_file_number vs) vs0 /\ vs_next_file_number vs0 <= vs_next_file_number vs;
  rv_files : FilesOk (AppendVersion v vs) tables disk (add_level0 M fs) k;
  rv_env : evolves (W := W) (SF := SF) (table_files dbname) env0 (tc_env tables);
  rv_edit : lr_edit st = added fs /\ lr_save_manifest st = negb (bool_decide (fs = []));
  rv_new : forall f, f ∈ fs -> vs_next_file_number vs0 <= fm_number f < vs_next_file_number vs /\ fm_allowed_seeks f = default_allowed_seeks /\ num_ok (fm_file_size f) /\ key_ok (fm_smallest f) /\ key_ok (fm_largest f);
  rv_nodup : NoDup (map fm_number fs);
  rv_has : forall p x, version_has v disk p x <-> (p, x) ∈ E0 \/ (p, x) ∈ map version_of (batch_entries (b + 1) R);
  rv_max : 0 <= lr_max_sequence st <= b + zlen R /\ (R <> [] -> lr_max_sequence st = b + zlen R);
  rv_none : fs = [] <-> R = []
}.

(** What a log holds fits a table. *)
Definition log_fits (n : Z) (ops : list WriteOp) : Prop :=
  forall D : versions, D ≡ₚ map version_of (batch_entries (n + 1) ops) -> keys_sorted (C := InternalKeyComparator C) (internal_entries D) -> D <> [] -> fits D.

Lemma set_env_id (s : TableCache E F K) : set_env (tc_env s) s = s.
Proof. by destruct s. Qed.

(** A file number is used. *)
Lemma Recovering_mark (vs0 : VersionSet W) (env0 : E) (M : file_map) (E0 : versions) (b : Z) (R : list WriteOp) (st : LogRecovery) (vs : VersionSet W) (tables : TableCache E F K) (fs : list FileMetaData) (v : Version)
    (disk : Disk) (k : nat) (n : Z) :
  Recovering vs0 env0 M E0 b R st vs tables fs v disk k -> 0 <= n -> n + 1 + Z.of_nat k < 2 ^ 31 ->
  Recovering vs0 env0 M E0 b R st (MarkFileNumberUsed n vs) tables fs v disk k /\ n < vs_next_file_number (MarkFileNumberUsed n vs) /\ vs_next_file_number vs <= vs_next_file_number (MarkFileNumberUsed n vs) /\
  (vs_next_file_number (MarkFileNumberUsed n vs) = n + 1 \/ vs_next_file_number (MarkFileNumberUsed n vs) = vs_next_file_number vs).
Proof.
  intros HR Hn Hk. unfold MarkFileNumberUsed. destruct (Z.leb_spec (vs_next_file_number vs) n) as [Hle|Hlt]; [|split_and!; [done|lia|lia|by right]].
  cbn [set_next_file vs_next_file_number]. rewrite wrap_small by lia. split_and!; [|lia|lia|by left]. destruct HR as [[Evs Hvs] Hf He Hed Hnew Hnd Hhas Hmax Hnone]. split; try done; cbn [set_next_file vs_next_file_number].
  - rewrite Evs. cbn. split; [done|lia].
  - eapply FilesOk_like; [exact Hf|done|cbn; lia|cbn; lia|apply (fi_manifest _ _ _ _ _ _ _ Hf)|apply (fi_desc _ _ _ _ _ _ _ Hf)|done|apply (fi_pick _ _ _ _ _ _ _ Hf)].
  - intros f Hin. destruct (Hnew f Hin) as [? ?]. split; [lia|done].
Qed.

(** A log that gives no operations. *)
Lemma Recovering_none (vs0 : VersionSet W) (env0 : E) (M : file_map) (E0 : versions) (b : Z) (R : list WriteOp) (st : LogRecovery) (vs : VersionSet W) (tables : TableCache E F K) (fs : list FileMetaData) (v : Version)
    (disk : Disk) (k : nat) (m : Z) :
  Recovering vs0 env0 M E0 b R st vs tables fs v disk k -> lr_max_sequence st <= m <= b + zlen R ->
  Recovering vs0 env0 M E0 b R (mkLogRecovery (lr_save_manifest st) (lr_edit st) m) vs tables fs v disk k.
Proof. intros [] Hm. split; try done. cbn [lr_max_sequence]. destruct rv_max0 as [H1 H2]. split; [lia|]. intros HR. specialize (H2 HR). lia. Qed.

(** One log. *)
Lemma RecoverLogFile_ok (vs0 : VersionSet W) (env0 : E) (M : file_map) (E0 : versions) (b : Z) (R : list WriteOp) (st : LogRecovery) (vs : VersionSet W) (tables : TableCache E F K) (fs : list FileMetaData) (v : Version)
    (disk : Disk) (k size : nat) (num : Z) (bs : list (list WriteOp)) (data : bytes) (o : Z) :
  let n := b + zlen R in
  let c := if decide (concat bs = []) then 0%nat else 1%nat in
  Recovering vs0 env0 M E0 b R st vs tables fs v disk (c + k) -> reads (tc_env tables) (LogFileName dbname num) data -> Layout 0 (batch_records n bs) data o -> (length data <= size)%nat ->
  Forall op_fits (concat bs) -> 0 <= b -> n + zlen (concat bs) < 2 ^ 31 -> log_fits n (concat bs) -> (forall p x, (p, x) ∈ E0 -> pik_sequence p <= b) ->
  exists st' vs' tables' fs' v' disk', RecoverLogFile (C := C) (P := P) (Rnd := Rnd) slen zstlen sun zun dbname options size num st vs tables = Some (Ok tt, st', vs', tables') /\
    Recovering vs0 env0 M E0 b (R ++ concat bs) st' vs' tables' fs' v' disk' k /\ vs_next_file_number vs <= vs_next_file_number vs' <= vs_next_file_number vs + Z.of_nat c.
Proof.
  intros n c HRv (file & Efile & Hfile) HL Hsz Hops Hb Hn Hfits HE0. pose proof (zlen_nonneg R) as HzR. pose proof (zlen_nonneg (concat bs)) as Hzb. assert (0 <= n) as Hn0 by (unfold n; lia).
  rewrite <- Hfile in HL, Hsz. destruct (read_all_complete _ file _ true true size HL Hsz) as (reader' & Er).
  destruct (recover_records_ok (C := C) bs new_mem [] n 0 (lr_max_sequence st)) as (mem & es & E1 & Hm & Hes).
  { apply mem_repr_new. } { done. } { lia. } { lia. } { intros e He. by apply not_elem_of_nil in He. } { constructor. }
  rewrite app_nil_r in Hes. unfold RecoverLogFile. rewrite Efile, set_env_id, (recover_log_read_all _ _ _ _ _ _ _ _ Er), E1. rewrite Z.add_0_l. set (m := if decide (bs = []) then _ else _).
  destruct (rv_max _ _ _ _ _ _ _ _ _ _ _ _ _ HRv) as [Hm1 Hm2]. fold n in Hm1, Hm2. destruct (decide (concat bs = [])) as [Ec|Ec].
  { unfold c. rewrite Ec, app_nil_r. rewrite Ec in *. change (zlen (@nil WriteOp)) with 0 in *. cbn [Z.ltb Z.compare]. do 6 eexists. split; [reflexivity|]. split; [|cbn; lia].
    apply Recovering_none; [exact HRv|]. fold n. unfold m. rewrite ?Ec. change (zlen (@nil WriteOp)) with 0. destruct (decide (bs = [])); lia. }
  assert (0 < zlen (concat bs)) as Hpos by (destruct (concat bs); [done|rewrite zlen_cons; pose proof (zlen_nonneg l); lia]).
  assert (m = n + zlen (concat bs)) as Em by (unfold m; destruct (decide (bs = [])) as [->|]; [done|lia]). clearbody m. subst m.
  destruct (Z.ltb_spec 0 (zlen (concat bs))) as [_|]; [|lia]. unfold c in HRv |- *. cbn [Nat.add] in HRv. destruct HRv as [[Evs Hvs] HI Hev [Hed Hsave] Hnew Hnd Hhas _ Hnone].
  set (num' := vs_next_file_number vs) in *. change (NewFileNumber vs) with (num', snd (NewFileNumber vs)). cbv iota beta. destruct (fi_store _ _ _ _ _ _ _ HI) as (ids & HS & Hids). destruct (fi_next _ _ _ _ _ _ _ HI) as [Hn1 Hn2]. change (vs_next_file_number (AppendVersion v vs)) with num' in Hn1, Hn2.
  destruct (mem_scan mem es Hm) as (D & HD & Hsrt & Hscan). assert (D ≡ₚ map version_of (batch_entries (n + 1) (concat bs))) as HDb by (by rewrite HD, Hes).
  assert (length D <= length (heap mem))%nat as Hlen by (rewrite HD, length_map; by apply (mem_repr_length (C := C) mem es)).
  assert (forall p x, (p, x) ∈ D -> n < pik_sequence p <= n + zlen (concat bs) /\ small_key p) as Hent.
  { intros p x Hp. rewrite HDb in Hp. apply list_elem_of_fmap in Hp as (e & [= -> ->] & He). split; [apply batch_entries_seq in He; unfold entry_seq in He; lia|].
    assert (Forall op_wf (concat bs) /\ Forall (fun op => zlen (op_key op) + 8 < 2 ^ 32) (concat bs)) as [Hwf Hk] by (by apply Forall_and).
    pose proof (batch_entries_wf (n + 1) _ Hwf Hk ltac:(lia) ltac:(change kMaxSequenceNumber with (2 ^ 56 - 1); lia)) as Hew. rewrite Forall_forall in Hew. by destruct (Hew e He) as (_ & ? & _). }
  assert (forall p x, (p, x) ∈ D -> seq_ok (pik_sequence p)) as Hseq.
  { intros p x Hp. apply Hent in Hp as [Hp _]. unfold seq_ok. change kMaxSequenceNumber with (2 ^ 56 - 1). lia. }
  specialize (Hfits D HDb Hsrt). destruct D as [|[p0 v0] D].
  { exfalso. apply Permutation_length in HDb. rewrite length_map, length_batch_entries in HDb. unfold zlen in Hpos. cbn in HDb. lia. }
  set (D0 := (p0, v0) :: D) in *. specialize (Hfits ltac:(done)). pose proof (fi_fresh _ _ _ _ _ _ _ HI) as Hfresh. change (vs_next_file_number (AppendVersion v vs)) with num' in Hfresh.
  destruct (BuildTable_written (C := C) (P := P) slen zstlen sun zun dbname (builder_options options) (table_options options) Hri (length (heap mem)) ids (tc_env tables) disk tables
    (mkFileMetaData (Z.shiftl 1 30) num' 0 [] []) (MemTable_NewIterator mem) p0 v0 D HS (fi_numbers_ok _ _ _ _ _ _ _ HI) Hfresh ltac:(cbn; lia) ltac:(lia) Hsrt Hfits Hscan Hlen)
    as (sz & env' & tables' & -> & Hsize & HS' & wf & Eenv). cbn [fm_number fm_allowed_seeks fm_file_size fm_smallest fm_largest] in *. fold D0 in HS' |- *.
  set (vs1 := snd (NewFileNumber vs)). assert (vs_next_file_number vs1 = num' + 1) as En1 by (unfold vs1; cbn; apply wrap_small; fold num'; lia).
  unfold MarkFileNumberUsed. rewrite En1. destruct (Z.leb_spec (num' + 1) num') as [|_]; [lia|].
  set (f0 := mkFileMetaData default_allowed_seeks num' sz (encode_key p0) (encode_key (fst (List.last D0 (p0, v0))))). set (f := with_allowed_seeks f0). set (disk' := <[num' := (sz, D0)]> disk) in *.
  pose proof (FilesOk_new_table dbname (table_options options) (AppendVersion v vs) tables tables' disk (add_level0 M fs) k (ids + 1) sz D0 env' HI HS' ltac:(lia)) as HI1. change (vs_next_file_number (AppendVersion v vs)) with num' in HI1. fold disk' in HI1.
  change (snd (NewFileNumber (AppendVersion v vs))) with (AppendVersion v vs1) in HI1. assert (current (AppendVersion v vs1) = v) as Ecur by (unfold current, AppendVersion; cbn [vs_versions]; apply last_last).
  assert (current (AppendVersion v vs) = v) as Ecur0 by (unfold current, AppendVersion; cbn [vs_versions]; apply last_last).
  assert (file_entries disk' f = D0) as Efe by (by apply file_entries_new). destruct (table_meta_ok f p0 v0 D Hsrt Hseq eq_refl eq_refl) as (Hfo & Hco & _).
  assert (forall p x, version_has v disk' p x <-> version_has v disk p x) as Hsame.
  { intros p x. pose proof (version_has_insert dbname (table_options options) (AppendVersion v vs) tables disk (add_level0 M fs) (Datatypes.S k) (sz, D0) p x HI) as Hx. by rewrite Ecur0 in Hx. }
  destruct (FilesOk_level0 (AppendVersion v vs1) tables' disk' (add_level0 M fs) k f0 HI1) as (v' & HI2 & Hhas').
  - change (fm_number (with_allowed_seeks f0)) with num'. unfold disk'. rewrite lookup_insert_eq. do 2 f_equal. symmetry. exact Efe.
  - split; cbn; unfold num_ok; lia.
  - exact Hfo.
  - fold f. by rewrite Efe.
  - intros g Hg. rewrite Ecur, <- Ecur0 in Hg. destruct (fi_files _ _ _ _ _ _ _ HI _ _ _ (fi_in_version _ _ _ _ _ _ _ g HI Hg)) as [Hd' _]. apply (fi_numbers _ _ _ _ _ _ _ HI) in Hd'. cbn. change (vs_next_file_number (AppendVersion v vs)) with num' in Hd'. lia.
  - rewrite Ecur. intros p x q y Hp Hq. change (file_entries disk' (with_allowed_seeks f0)) with (file_entries disk' f) in Hp. rewrite Efe in Hp. apply Hent in Hp as [Hp _]. apply Hsame, Hhas in Hq as [Hq|Hq]; [apply HE0 in Hq; lia|].
    apply list_elem_of_fmap in Hq as (e & [= -> ->] & He). apply batch_entries_seq in He. unfold entry_seq in He. unfold n in Hp. lia.
  - exists (mkLogRecovery true (AddFile 0 num' sz (encode_key p0) (encode_key (fst (List.last D0 (p0, v0)))) (lr_edit st)) (n + zlen (concat bs))), vs1, tables', (fs ++ [f0]), v', disk'.
    split; [reflexivity|]. split; [|rewrite En1; unfold num'; lia]. assert (tc_env tables' = env') as Et' by apply (so_env _ _ _ _ _ _ HS'). split; cbn [lr_edit lr_save_manifest lr_max_sequence]; rewrite ?En1.
    + split; [|lia]. unfold vs1, NewFileNumber. cbn [snd]. fold num'. rewrite wrap_small by lia. generalize (num' + 1). intros z. rewrite Evs. reflexivity.
    + rewrite add_level0_snoc. eapply FilesOk_like; [exact HI2|done|cbn; lia|cbn [AppendVersion vs_next_file_number]; rewrite En1; lia|apply (fi_manifest _ _ _ _ _ _ _ HI2)|apply (fi_desc _ _ _ _ _ _ _ HI2)| |].
      * unfold current, AppendVersion. cbn [vs_versions]. by rewrite !last_last.
      * pose proof (fi_pick _ _ _ _ _ _ _ HI2) as Hp. unfold current, AppendVersion in Hp |- *. cbn [vs_versions] in Hp |- *. by rewrite !last_last in *.
    + eapply evolves_trans; [exact Hev|]. rewrite Et', Eenv. apply (table_evolves dbname num'); [unfold num_ok; lia|]. apply (ev_new _ (TableFileName dbname num')); [done|]. apply (ev_written _ (TableFileName dbname num') wf); [done|constructor].
    + split; [rewrite added_snoc; by rewrite Hed|]. rewrite bool_decide_eq_false_2; [done|]. by intros []%app_eq_nil.
    + intros g [Hg| ->%list_elem_of_singleton]%elem_of_app; [destruct (Hnew g Hg) as [? ?]; split; [lia|done]|]. cbn [f0 fm_number fm_allowed_seeks fm_file_size fm_smallest fm_largest].
      split; [lia|]. split; [done|]. split; [unfold num_ok; lia|]. split; [apply encode_key_ok, (Hent p0 v0); by left|].
      apply encode_key_ok. destruct (exists_last (l := D0)) as (D1 & [q w] & Eq); [done|]. rewrite Eq, List.last_last. apply (Hent q w). rewrite Eq. apply elem_of_app. right. by left.
    + rewrite map_app. apply NoDup_app. split_and!; [done| |apply NoDup_singleton]. intros x Hx ->%list_elem_of_singleton. apply list_elem_of_fmap in Hx as (g & Eg & Hg). destruct (Hnew g Hg) as [? _]. cbn in Eg. lia.
    + intros p x. rewrite Hhas', Ecur, Hsame, Hhas. fold f. rewrite Efe. unfold D0 at 1. fold D0. rewrite HDb, batch_entries_app, map_app, elem_of_app. replace (b + 1 + zlen R) with (n + 1) by (unfold n; lia). tauto.
    + rewrite zlen_app. unfold n. split; [lia|]. intros _. lia.
    + split; [by intros []%app_eq_nil|]. intros [_ ?]%app_eq_nil. done.
Qed.

Fixpoint logs_fit (n : Z) (logs : list (Z * list (list WriteOp))) : Prop :=
  match logs with [] => True | (_, bs) :: logs => log_fits n (concat bs) /\ logs_fit (n + zlen (concat bs)) logs end.

Lemma full_logs_cons (num : Z) (bs : list (list WriteOp)) (logs : list (Z * list (list WriteOp))) :
  length (full_logs ((num, bs) :: logs)) = ((if decide (concat bs = []) then 0 else 1) + length (full_logs logs))%nat.
Proof. unfold full_logs. rewrite filter_cons. cbn [snd]. destruct (decide (concat bs = [])) as [Ec|Ec]; [rewrite decide_False by (by intros [])|rewrite decide_True by done]; done. Qed.

(** [size] is enough for the logs. *)
Definition logs_bounded (size : nat) (env : E) (live : list (Z * list (list WriteOp))) : Prop :=
  forall n data, n ∈ map fst live -> reads env (LogFileName dbname n) data -> (length data <= size)%nat.

Lemma logs_bounded_exists (env : E) (live : list (Z * list (list WriteOp))) : exists size0, forall size, (size0 <= size)%nat -> logs_bounded size env live.
Proof.
  induction live as [|[n bs] live (size0 & IH)]; [exists 0%nat; intros size _ n data Hn; by apply not_elem_of_nil in Hn|].
  destruct (fs_NewSequentialFile (LogFileName dbname n) env) as [[file|s] env'] eqn:Ef.
  - exists (Nat.max size0 (length (sf_rest file))). intros size Hsz m data [->|Hm]%elem_of_cons Hr; [|apply (IH size ltac:(lia) m data Hm Hr)]. destruct Hr as (file' & Ef' & <-). cbn [fst] in Ef'. rewrite Ef in Ef'. injection Ef' as <- _. lia.
  - exists size0. intros size Hsz m data [->|Hm]%elem_of_cons Hr; [|apply (IH size ltac:(lia) m data Hm Hr)]. destruct Hr as (file' & Ef' & _). cbn [fst] in Ef'. by rewrite Ef in Ef'.
Qed.

(** All logs. *)
Lemma recover_logs_ok (vs0 : VersionSet W) (env0 : E) (M : file_map) (E0 : versions) (b : Z) (live : list (Z * list (list WriteOp))) (k size : nat) :
  0 <= b -> (forall p x, (p, x) ∈ E0 -> pik_sequence p <= b) -> logs_bounded size env0 live ->
  forall (R : list WriteOp) (st : LogRecovery) (vs : VersionSet W) (tables : TableCache E F K) (fs : list FileMetaData) (v : Version) (disk : Disk) (B : Z),
  Recovering vs0 env0 M E0 b R st vs tables fs v disk (length (full_logs live) + k) -> logs_hold (SF := SF) (W := W) dbname env0 (b + zlen R) live ->
  Forall op_fits (logs_ops live) -> b + zlen R + zlen (logs_ops live) < 2 ^ 31 -> logs_fit (b + zlen R) live ->
  (forall n, n ∈ map fst live -> 0 <= n < B) -> vs_next_file_number vs <= B -> B + Z.of_nat (length (full_logs live) + k) < 2 ^ 31 ->
  exists st' vs' tables' fs' v' disk',
    recover_logs (C := C) (P := P) (Rnd := Rnd) slen zstlen sun zun dbname options size (map fst live) st vs tables = Some (Ok tt, st', vs', tables') /\
    Recovering vs0 env0 M E0 b (R ++ logs_ops live) st' vs' tables' fs' v' disk' k /\
    vs_next_file_number vs <= vs_next_file_number vs' <= B + Z.of_nat (length (full_logs live)) /\ forall n, n ∈ map fst live -> n < vs_next_file_number vs'.
Proof.
  intros Hb HE0. induction live as [|[num bs] live IH]; intros Hsize R st vs tables fs v disk B HR Hl Hops Hz Hfit Hnum HB HBk.
  { exists st, vs, tables, fs, v, disk. change (logs_ops []) with (@nil WriteOp). rewrite app_nil_r. split_and!; [done|exact HR|lia|cbn; lia|]. intros n Hn. by apply not_elem_of_nil in Hn. }
  rewrite full_logs_cons in *. set (c := if decide (concat bs = []) then 0%nat else 1%nat) in *. rewrite <- Nat.add_assoc in *. cbn [logs_hold] in Hl. destruct Hl as [(data & o & Hr & HL) Hl]. cbn [logs_fit] in Hfit. destruct Hfit as [Hfit Hfits].
  change (logs_ops ((num, bs) :: live)) with (concat bs ++ logs_ops live) in *. apply Forall_app in Hops as [Hops1 Hops2]. rewrite zlen_app in Hz. pose proof (zlen_nonneg (logs_ops live)). pose proof (zlen_nonneg (concat bs)). pose proof (zlen_nonneg R).
  assert (0 <= num < B) as Hn by (apply Hnum; by left). assert (num_ok num) as Hnn by (unfold num_ok; lia).
  destruct (RecoverLogFile_ok vs0 env0 M E0 b R st vs tables fs v disk (length (full_logs live) + k) size num bs data o HR) as (st1 & vs1 & tables1 & fs1 & v1 & disk1 & E1 & HR1 & Hnext1); try done; [|apply (Hsize num data); [by left|done]|lia|].
  { eapply evolves_reads; [apply (rv_env _ _ _ _ _ _ _ _ _ _ _ _ _ HR)|by apply log_not_table|done]. }
  destruct (Recovering_mark vs0 env0 M E0 b _ st1 vs1 tables1 fs1 v1 disk1 _ num HR1 ltac:(lia) ltac:(lia)) as (HR2 & Hm1 & Hm2 & Hm3).
  destruct (IH ltac:(intros n d Hin; apply (Hsize n d); by right) (R ++ concat bs) st1 (MarkFileNumberUsed num vs1) tables1 fs1 v1 disk1 (B + Z.of_nat c) HR2) as (st2 & vs2 & tables2 & fs2 & v2 & disk2 & E2 & HR3 & Hnext2 & Hall).
  { by rewrite zlen_app, Z.add_assoc. } { done. } { rewrite zlen_app. lia. } { by rewrite zlen_app, Z.add_assoc. } { intros n Hin. specialize (Hnum n ltac:(by right)). lia. } { destruct Hm3; lia. } { lia. }
  exists st2, vs2, tables2, fs2, v2, disk2. cbn [map fst recover_logs]. rewrite E1, E2, app_assoc. split_and!; [done|done|lia|lia|]. intros n [->|Hin]%elem_of_cons; [cbn [fst]; lia|by apply Hall].
Qed.
End Logs.
