(* ===== verification/DbReopen.v ===== *)
(** * DbReopen: what was written is there when the database is opened again

    A database is closed, or its process ends, in any state that it can reach: the
    files have what was written to them ([DBImpl_close]).  Opening it again gives a
    state that stands for the operations that were logged ([reopen_ok]). *)

From stdpp Require Import sorting fin_sets.
From S2P Require Import Prelude Random Status Coding Comparator Logging FilterPolicy DbFormat SkipList MemTable WriteBatch Env LogFile Format Iterator Block Merger FilterBlock.
From S2P Require Import TwoLevelIterator TableBuilder Cache Table VersionEdit FileName Children DBIter Version VersionRead VersionBuilder VersionSet Manifest Compaction.
From S2P Require Import TableCache MapFS Snapshot History Iterates TableFiles CompactionRun VersionChange CompactionWork DbImpl DbStep DbFiles DbData DbDisk DbQueue DbRefine DbOpen DbTheorems DbDurable DbRecover.
From S2P Require Import MemTable.
From Stdlib Require Import Sorting.Sorted.

Section Reopen.
Context (slen zstlen : bytes -> option Z) (sun zun : bytes -> option bytes).
Context {C : Comparator} {CL : ComparatorLaws C} (Heq : forall a b, ceq a b -> a = b) (Hname : zlen (lit (Name (Comparator := C))) < 2 ^ 32) {P : FilterPolicy} {PL : FilterPolicyLaws P}.
Context {E W SF F L : Type} {FS : FileSystem E W SF} {WF : WritableFile W} {WL : WritableFileLaws W} {HF : HandleFS E W} {FSL : FileSystemLaws E W SF}.
Context {QF : SequentialFile SF} {QL : SequentialFileLaws SF} {FR : FileReadLaws E W SF} {DF : DirectoryFS E L} {DL : DirectoryLaws E W SF L} {LL : ListingLaws E W SF L}.
Context {RFS : RandomAccessFS E F} {RF : RandomAccessFile F} {RL : RandomAccessFileLaws F} {FF : FileFrameLaws E W SF F} {DFL : DirFrameLaws E W SF F L}.
Context {K Hd : Type} {KC : Cache K Hd Block} {KL : CacheLaws K Hd Block} {KI : CacheIdLaws K Hd Block}.
Context {Rnd : Type} {US : UniformSource Rnd} (dbname : bytes) (options : Options) (Hri : 1 <= o_block_restart_interval options).

Abbreviation DB := (DBImpl E W F K Rnd).
Abbreviation Disk := (gmap Z (Z * versions)).
Abbreviation FilesOk := (FilesOk (C := C) (P := P) (W := W) (E := E) (F := F) (K := K) dbname (table_options options)).
Abbreviation fits := (table_fits (C := C) (P := P) (W := W) (builder_options options)).
Abbreviation reads := (fs_reads (E := E) (W := W) (F := SF)).
Abbreviation DbOk := (DbOk (C := C) (SF := SF) (L := L) (P := P) dbname options).
Abbreviation Recorded := (Recorded (C := C) (E := E) (W := W) (SF := SF) dbname).
Abbreviation current_manifest := (current_manifest (E := E) (W := W) (SF := SF) dbname).
Abbreviation DBImpl_close := (DBImpl_close (E := E) (W := W) (SF := SF) (F := F) (K := K) (Rnd := Rnd) dbname).

(** ** The files of a database that was closed *)

Lemma current_manifest_reads (env : E) (m : Z) : num_ok m -> reads env (CurrentFileName dbname) (current_contents dbname m) -> current_manifest env = Some (DescriptorFileName dbname m).
Proof.
  intros Hm (cf & Ecf & Hcf). unfold current_manifest. rewrite Ecf. cbn [fst]. destruct (current_contents_spec dbname m Hm) as (name & Ename & Hlen & Epath).
  destruct (sf_Read_spec 1024 cf ltac:(lia)) as (cf' & Ercf & _). rewrite Ercf, Hcf, Ename. cbn [fst]. rewrite ztake_all by (rewrite zlen_app; change (zlen [Byte.x0a]) with 1; lia). by rewrite removelast_last, Epath.
Qed.

(** The logs that a recovery reads. *)
Definition live_logs (d : DB) (g : Ghost) (bs : list (list WriteOp)) : list (Z * list (list WriteOp)) := g_logs g ++ [(db_logfile_number d, bs)].

Record Closed (d : DB) (a : Abs) (g : Ghost) (bs : list (list WriteOp)) (x : Manifest) (env : E) : Prop := {
  cl_recorded : Recorded x (g_map g) (g_b1 g) (set_descriptor None (db_versions d)) env;
  cl_logs : logs_hold (W := W) (SF := SF) dbname env (g_b1 g) (live_logs d g bs);
  cl_ops : logs_ops (live_logs d g bs) = drop (Z.to_nat (g_b1 g)) (ab_ops a ++ g_pend g);
  cl_others : forall y p, ParseFileName y = Some p -> pf_type p = kLogFile -> fs_FileExists (dbname ++ lit "/" ++ y) env = true ->
    pf_number p < vs_log_number (db_versions d) \/ exists n, n ∈ map fst (live_logs d g bs) /\ y = numbered n ".log";
  cl_tables : keeps_tables dbname (tc_env (db_tables d)) env
}.

Lemma live_numbers (d : DB) (g : Ghost) (bs : list (list WriteOp)) : map fst (live_logs d g bs) = map fst (g_logs g) ++ [db_logfile_number d].
Proof. unfold live_logs. by rewrite map_app. Qed.

Lemma evolves_keeps (S : bytes -> Prop) (env env' : E) : evolves (W := W) S env env' -> (forall n, num_ok n -> ~ S (TableFileName dbname n)) -> keeps_tables dbname env env'.
Proof. intros He Hs n data Hn Hh. eapply evolves_holds; [exact He|by apply Hs|done]. Qed.

Lemma close_ok (d : DB) (a : Abs) (g : Ghost) (k : nat) (n : Z) : DbOk d a g k n -> exists bs x, Closed d a g bs x (DBImpl_close d).
Proof.
  intros HO. destruct (dk_recorded _ _ _ _ _ _ (ok_disk _ _ _ _ _ _ _ HO)) as (x & HR). destruct (da_log _ _ _ (ok_data _ _ _ _ _ _ _ HO)) as (bs & [HL _] & Hbs). exists bs, x.
  pose proof (ok_disk _ _ _ _ _ _ _ HO) as Hdk. set (lf := db_logfile_number d) in *. pose proof (ok_logfile _ _ _ _ _ _ _ HO) as Hlf. fold lf in Hlf. pose proof (rd_number _ _ _ _ _ _ HR) as Hm. set (m := mn_number x) in *.
  set (env := tc_env (db_tables d)) in *. set (env1 := fs_Written (LogFileName dbname lf) (dest_ (db_log d)) env).
  assert (forall y, manifest_files dbname m y -> y <> LogFileName dbname lf) as Hne by (intros y Hy; by eapply (log_not_manifest dbname m lf)).
  assert (reads env1 (CurrentFileName dbname) (current_contents dbname m)) as Hcur by (apply fs_Written_reads_other; [apply Hne; right; by right|apply (rd_current _ _ _ _ _ _ HR)]).
  assert (reads env1 (LogFileName dbname lf) (wf_contents (dest_ (db_log d)))) as Hlog by apply fs_Written_reads.
  assert (exists env2, DBImpl_close d = env2 /\ evolves (W := W) (manifest_files dbname m) env1 env2 /\
    reads env2 (CurrentFileName dbname) (current_contents dbname m) /\ exists data o, reads env2 (DescriptorFileName dbname m) data /\ Layout 0 (mn_records x) data o) as (env2 & -> & Hev & Hcur2 & Hman2).
  { unfold DBImpl_close. fold lf env env1. rewrite (current_manifest_reads env1 m Hm Hcur). pose proof (rd_manifest _ _ _ _ _ _ HR) as Hman. destruct (vs_descriptor_log (db_versions d)) as [w|].
    - destruct Hman as [HL' _]. destruct (manifest_names_differ dbname m Hm) as (_ & H1 & _). eexists. split; [reflexivity|]. split; [apply (ev_written _ (DescriptorFileName dbname m) (dest_ w)); [by left|constructor]|].
      split; [apply fs_Written_reads_other; [done|exact Hcur]|]. exists (wf_contents (dest_ w)), (block_offset_ w). split; [apply fs_Written_reads|done].
    - destruct Hman as (data & o & Hr & HL'). exists env1. split_and!; [done|constructor|done|]. exists data, o. split; [|done]. apply fs_Written_reads_other; [apply Hne; by left|done]. }
  assert (evolves (W := W) (fun y => y = LogFileName dbname lf \/ manifest_files dbname m y) env env2) as Hev2.
  { apply (ev_written _ (LogFileName dbname lf) (dest_ (db_log d))); [by left|]. eapply evolves_weaken; [|exact Hev]. by right. }
  assert (forall i, i ∈ map fst (g_logs g) ++ [lf] -> num_ok i) as Hnum by (intros i; by eapply dk_num_ok).
  destruct Hdk as [_ Hl Ho Hso Hr Hot Hf Hmx]. split.
  - destruct HR. by split.
  - apply logs_hold_app. split.
    + eapply logs_hold_frame; [exact Hl|]. intros i data Hi. assert (num_ok i) as Hni by (apply Hnum, elem_of_app; by left). assert (i < lf) as Hlt by (apply StronglySorted_app in Hso as (Hlt & _ & _); apply (Hlt i lf Hi); by apply list_elem_of_singleton).
      eapply evolves_reads; [exact Hev2|]. intros [E0|E0]; [rewrite !log_child in E0; apply child_inj, log_numbered_inj in E0; [lia|done|done]|]. by apply (log_not_manifest dbname m i) in E0.
    + cbn [logs_hold]. split; [|done]. exists (wf_contents (dest_ (db_log d))), (block_offset_ (db_log d)). split.
      * eapply evolves_reads; [exact Hev| |exact Hlog]. intros E0. by apply (log_not_manifest dbname m lf) in E0.
      * destruct (da_order _ _ _ (ok_data _ _ _ _ _ _ _ HO)) as [O1 O2]. replace (g_b1 g + zlen (logs_ops (g_logs g))) with (g_b2 g); [done|]. rewrite Ho. unfold zlen in *. rewrite length_take, length_drop, length_app. lia.
  - unfold live_logs. rewrite logs_ops_app, Ho. unfold logs_ops. cbn [map concat snd]. rewrite app_nil_r, Hbs. destruct (da_order _ _ _ (ok_data _ _ _ _ _ _ _ HO)) as [O1 O2].
    rewrite <- (take_drop (Z.to_nat (g_b2 g - g_b1 g)) (drop (Z.to_nat (g_b1 g)) (ab_ops a ++ g_pend g))) at 2. f_equal. rewrite drop_drop. f_equal. lia.
  - intros y p Hy Ht Hex. rewrite live_numbers. destruct (evolves_exists _ _ _ _ Hev2 Hex) as [[E0|E0]|Hex']; [|by destruct (proj2 (log_child_other dbname y p Hy Ht) m Hm)|by apply (Hot y p Hy Ht)].
    right. exists lf. split; [apply elem_of_app; right; by left|]. rewrite log_child in E0. by apply child_inj in E0.
  - eapply evolves_keeps; [exact Hev2|]. intros i Hi [E0|E0]; [by destruct (TableFileName_other dbname i lf Hi Hlf) as (? & _)|]. apply (table_not_manifest dbname m _ Hm E0). by exists i.
Qed.

(** ** The version that the MANIFEST gives *)

Lemma disk_numbers_size (disk : Disk) (N : Z) : 0 <= N -> (forall n x, disk !! n = Some x -> 0 <= n < N) -> Z.of_nat (size disk) <= N.
Proof.
  intros HN Hb. rewrite <- (size_dom (D := gset Z)). assert (dom disk ⊆ (list_to_set (seqZ 0 N) : gset Z)) as Hsub%subseteq_size.
  { intros n [x Hx]%elem_of_dom. apply elem_of_list_to_set, elem_of_seqZ. specialize (Hb n x Hx). lia. }
  rewrite size_list_to_set, length_seqZ in Hsub by apply NoDup_seqZ. lia.
Qed.

(** The tables of the files of a version. *)
Definition disk_of (disk : Disk) (M : file_map) : Disk := filter (fun y => fst y ∈ map (fun i => snd (fst i)) (map_to_list M)) disk.

Lemma disk_of_lookup (disk : Disk) (M : file_map) (n : Z) (x : Z * versions) : disk_of disk M !! n = Some x <-> disk !! n = Some x /\ exists l f, M !! (l, n) = Some f.
Proof.
  unfold disk_of. rewrite map_lookup_filter_Some. cbn [fst]. apply and_iff_compat_l. rewrite list_elem_of_fmap. split.
  - intros ([[l m] f] & -> & Hf%elem_of_map_to_list). by exists l, f.
  - intros (l & f & Hf). exists ((l, n), f). split; [done|]. by apply elem_of_map_to_list.
Qed.

Lemma start_recovering (d : DB) (a : Abs) (g : Ghost) (k k' : nat) (n : Z) (bs : list (list WriteOp)) (x : Manifest) (env env1 : E) (vs1 : VersionSet W) (cache : option K) :
  DbOk d a g k n -> Closed d a g bs x env -> (forall name data, fs_holds env name data -> fs_holds env1 name data) -> Recorded x (g_map g) (g_b1 g) vs1 env1 ->
  version_rep (C := C) (current vs1) (g_map g) -> pickable (current vs1) -> vs_next_file_number vs1 = mn_next x + 1 -> vs_manifest_file_number vs1 = mn_next x -> vs_descriptor_log vs1 = None ->
  new_cache cache -> mn_next x + 1 + Z.of_nat k' < 2 ^ 31 ->
  exists disk1, Recovering (C := C) (SF := SF) (P := P) dbname options vs1 env1 (g_map g) (version_entries (current (db_versions d)) (g_disk g)) (g_b1 g) [] (mkLogRecovery false newVersionEdit 0) vs1
    (newTableCache env1 cache) [] (current vs1) disk1 k'.
Proof.
  intros HO Hcl Hholds HR Hrep Hpick En Em Ed Hcache Hk. pose proof (ok_files _ _ _ _ _ _ _ HO) as HI. set (M := g_map g) in *. set (disk1 := disk_of (g_disk g) M). exists disk1.
  pose proof (fi_rep _ _ _ _ _ _ _ HI) as Hrep0. fold M in Hrep0. pose proof (version_rep_unique _ _ _ Hrep Hrep0) as Evf. pose proof (rd_next _ _ _ _ _ _ HR) as Hnx.
  assert (forall m y, disk1 !! m = Some y -> g_disk g !! m = Some y /\ 0 <= m < mn_next x) as Hd1.
  { intros m y (Hm & l & f & Hf)%disk_of_lookup. split; [done|]. apply (fi_numbers _ _ _ _ _ _ _ HI) in Hm as [? _]. split; [done|]. by eapply (rd_files dbname x M). }
  assert (forall l m f, M !! (l, m) = Some f -> disk1 !! m = g_disk g !! m) as Hd2.
  { intros l m f Hf. destruct (vr_number _ _ Hrep0 _ _ _ Hf) as [Enum _]. destruct (fi_files _ _ _ _ _ _ _ HI _ _ _ Hf) as [Hdf _]. rewrite Enum in Hdf. rewrite Hdf. apply disk_of_lookup. split; [done|by exists l, f]. }
  assert (forall l m f, M !! (l, m) = Some f -> file_entries disk1 f = file_entries (g_disk g) f) as Hfe.
  { intros l m f Hf. destruct (vr_number _ _ Hrep0 _ _ _ Hf) as [Enum _]. unfold file_entries, disk_entries. by rewrite Enum, (Hd2 l m f Hf). }
  assert (current (AppendVersion (current vs1) vs1) = current vs1) as Ecur by (unfold current at 1, AppendVersion; cbn [vs_versions]; apply last_last).
  assert (forall lf, in_version (current (db_versions d)) lf -> file_entries disk1 (snd lf) = file_entries (g_disk g) (snd lf)) as Hfe'.
  { intros lf Hlf. eapply Hfe. by apply (fi_in_version _ _ _ _ _ _ _ lf HI). }
  assert (forall lf, in_version (current vs1) lf <-> in_version (current (db_versions d)) lf) as Hiv by (intros lf; unfold in_version, files_; by rewrite Evf).
  split; cbn [lr_edit lr_save_manifest lr_max_sequence]; try done.
  - split; [by destruct vs1|lia].
  - change (add_level0 M []) with M. split; rewrite ?Ecur; try done.
    + exists (Z.of_nat (size disk1)). pose proof (disk_numbers_size disk1 (mn_next x) ltac:(lia) (fun m y Hm => proj2 (Hd1 m y Hm))) as Hsz. split; [|lia]. change (tc_env (newTableCache env1 cache)) with env1. apply newTableCache_ok; [|lia|].
      * intros m sz D Hm. pose proof (Hd1 m _ Hm) as [Hm0 Hm1]. destruct (fi_store _ _ _ _ _ _ _ HI) as (ids & HS & _). eapply on_disk_frame; [|by apply (so_disk _ _ _ _ _ _ HS)].
        intros data Hh. apply Hholds, (cl_tables _ _ _ _ _ _ Hcl); [unfold num_ok; lia|done].
      * intros c Ec. destruct (Hcache c Ec) as [-> Hno]. split_and!; [lia|lia|done].
    + intros m y Hm. apply Hd1 in Hm as [_ Hm]. cbn. lia.
    + cbn. rewrite En. lia.
    + cbn. rewrite Em. unfold num_ok. lia.
    + cbn. rewrite Ed. done.
    + intros l m f Hf. destruct (vr_number _ _ Hrep0 _ _ _ Hf) as [Enum _]. destruct (fi_files _ _ _ _ _ _ _ HI _ _ _ Hf) as [Hdf Hno]. split; [|done]. rewrite (Hfe l m f Hf). rewrite Enum in *. by rewrite (Hd2 l m f Hf).
    + eapply VersionOk_files; [exact Evf|]. eapply VersionOk_contents; [apply (fi_version _ _ _ _ _ _ _ HI)|exact Hfe'].
  - constructor.
  - intros f Hf. by apply not_elem_of_nil in Hf.
  - constructor.
  - intros p y. cbn [batch_entries map]. rewrite version_entries_elem by apply (vr_length _ _ Hrep0). unfold version_has. split.
    + intros (lf & Hlf%Hiv & Hp). left. exists lf. split; [done|]. by rewrite <- Hfe'.
    + intros [(lf & Hlf & Hp)|Hp]; [|by apply not_elem_of_nil in Hp]. exists lf. split; [by apply Hiv|]. by rewrite Hfe'.
  - change (zlen (@nil WriteOp)) with 0. destruct (da_order _ _ _ (ok_data _ _ _ _ _ _ _ HO)). split; [lia|done].
Qed.

(** ** The recovered files are installed *)

Lemma apply_added (M : file_map) (fs : list FileMetaData) (edit : VersionEdit) : (forall f, f ∈ fs -> fm_allowed_seeks f = default_allowed_seeks) ->
  ve_new_files edit = map (fun f => (0, strip f)) fs -> ve_deleted_files edit = [] -> apply_edit M edit = add_level0 M fs.
Proof.
  intros Hs En Ed. unfold apply_edit. rewrite Ed, En. cbn [fold_left]. unfold add_level0. revert M. clear En. induction fs as [|f fs IH]; intros M; [done|]. cbn [map fold_left].
  assert (strip f = f) as -> by (unfold strip; rewrite <- (Hs f) by (by left); by destruct f). apply IH. intros g Hg. apply Hs. by right.
Qed.

Lemma added_ok (fs : list FileMetaData) :
  (forall f, f ∈ fs -> num_ok (fm_number f) /\ num_ok (fm_file_size f) /\ key_ok (fm_smallest f) /\ key_ok (fm_largest f)) -> edit_ok (added fs).
Proof.
  induction fs as [|f fs IH] using rev_ind; intros Hf; [apply newVersionEdit_ok|]. rewrite added_snoc. destruct (Hf f) as (H1 & H2 & H3 & H4); [apply elem_of_app; right; by left|].
  apply (ve_apply_ok (added fs) (VAddFile 0 (fm_number f) (fm_file_size f) (fm_smallest f) (fm_largest f))).
  - cbn [ve_op_ok]. refine (conj _ (conj H1 (conj H2 (conj H3 H4)))). unfold level_ok, kNumLevels. lia.
  - apply IH. intros g Hg. apply Hf, elem_of_app. by left.
Qed.

(** What [recover_from_logs] does when the logs were read. *)
Definition finish_recovery (st : LogRecovery) (vs : VersionSet W) (tables : TableCache E F K) : option (Result unit * VersionSet W * TableCache E F K) :=
  let vs := if vs_last_sequence vs <? lr_max_sequence st then vs_SetLastSequence (lr_max_sequence st) vs else vs in
  if lr_save_manifest st then
    let '(new_log_number, vs) := NewFileNumber vs in
    let '(log_res, _, vs, env) := LogAndApply (C := C) dbname (SetLogNumber new_log_number (lr_edit st)) vs (tc_env tables) in
    Some (log_res, vs, set_env env tables)
  else Some (Ok tt, vs, tables).

Lemma finish_ok (vs1 vs2 : VersionSet W) (env1 : E) (M : file_map) (E0 : versions) (b : Z) (R : list WriteOp) (st : LogRecovery) (tables2 : TableCache E F K) (fs : list FileMetaData) (v : Version) (disk : Disk) (k : nat) (x : Manifest) :
  let N := b + zlen R in
  Recovering (C := C) (SF := SF) (P := P) dbname options vs1 env1 M E0 b R st vs2 tables2 fs v disk (Datatypes.S k) -> Recorded x M b vs1 env1 -> version_rep (C := C) (current vs1) M -> pickable (current vs1) ->
  vs_next_file_number vs1 = mn_next x + 1 -> vs_manifest_file_number vs1 = mn_next x -> vs_descriptor_log vs1 = None -> vs_last_sequence vs1 = mn_last x -> 0 <= b -> mn_last x <= N -> N < 2 ^ 31 ->
  exists x' vs3 tables3, finish_recovery st vs2 tables2 = Some (Ok tt, vs3, tables3) /\ FilesOk vs3 tables3 disk (add_level0 M fs) k /\ v_files (current vs3) = v_files v /\ vs_last_sequence vs3 = N /\
    Recorded x' (add_level0 M fs) N vs3 (tc_env tables3) /\ evolves (W := W) (fun y => table_files dbname y \/ manifest_files dbname (mn_next x) y) env1 (tc_env tables3) /\
    vs_next_file_number vs2 <= vs_next_file_number vs3 <= vs_next_file_number vs2 + 1 /\
    ((R <> [] /\ vs_next_file_number vs2 <= vs_log_number vs3 < vs_next_file_number vs3) \/ (R = [] /\ vs_log_number vs3 = vs_log_number vs1)).
Proof.
  intros N HRv HR Hrep Hpick En Em Ed El Hb HN HN2. destruct HRv as [[Evs Hvs] HI Hev [Hed Hsave] Hnew Hnd Hhas [Hmax1 Hmax2] Hnone]. fold N in Hmax1, Hmax2. pose proof (zlen_nonneg R) as HzR.
  assert (vs_last_sequence vs2 = mn_last x) as El2 by (by rewrite Evs). unfold finish_recovery. rewrite El2. set (vs2' := if mn_last x <? lr_max_sequence st then _ else vs2).
  pose proof (rd_last _ _ _ _ _ _ HR) as Hbl. pose proof (rd_next _ _ _ _ _ _ HR) as Hnx. destruct (fi_next _ _ _ _ _ _ _ HI) as [Hn1 Hn2]. change (vs_next_file_number (AppendVersion v vs2)) with (vs_next_file_number vs2) in Hn1, Hn2.
  assert (vs_last_sequence vs2' = N) as El3.
  { unfold vs2'. destruct (decide (R = [])) as [->|HR0].
    - unfold N in *. change (zlen (@nil WriteOp)) with 0 in *. destruct (Z.ltb_spec (mn_last x) (lr_max_sequence st)); [lia|]. rewrite El2. lia.
    - specialize (Hmax2 HR0). destruct (Z.ltb_spec (mn_last x) (lr_max_sequence st)); [exact Hmax2|]. rewrite El2. lia. }
  assert (vs_next_file_number vs2' = vs_next_file_number vs2 /\ vs_manifest_file_number vs2' = mn_next x /\ vs_log_number vs2' = vs_log_number vs1 /\ vs_prev_log_number vs2' = 0 /\ vs_descriptor_log vs2' = None /\
    current vs2' = current vs1 /\ vs_compact_pointer vs2' = vs_compact_pointer vs1) as (F1 & F2 & F3 & F4 & F5 & F6 & F7).
  { pose proof (rd_prev _ _ _ _ _ _ HR). unfold vs2'. rewrite Evs. destruct (_ <? _); cbn; split_and!; done. }
  assert (current (AppendVersion v vs2) = v) as Ecur by (unfold current, AppendVersion; cbn [vs_versions]; apply last_last).
  pose proof (fi_rep _ _ _ _ _ _ _ HI) as Hrepv. rewrite Ecur in Hrepv. clearbody vs2'. destruct (decide (R = [])) as [HR0|HR0].
  - assert (fs = []) as -> by (by apply Hnone). rewrite Hsave. cbn [bool_decide negb]. change (negb (bool_decide (@nil FileMetaData = []))) with false. cbv iota. change (add_level0 M []) with M in *.
    assert (N = b) as EN by (unfold N; rewrite HR0; change (zlen (@nil WriteOp)) with 0; lia). pose proof (version_rep_unique _ _ _ Hrep Hrepv) as Evf.
    exists x, vs2', tables2. split_and!; [done| |by rewrite F6|done| | |lia|lia|right; done].
    + eapply FilesOk_like; [exact HI|lia|rewrite F1; cbn; lia|lia|rewrite F2; unfold num_ok; lia|by rewrite F5|by rewrite F6, Ecur|by rewrite F6].
    + rewrite EN. eapply Recorded_frame; [exact HR|by rewrite F5, Ed|done|rewrite F4; symmetry; apply HR|unfold pointers_ok; rewrite F7; apply HR|lia|lia|lia|exact Hev|]. intros y Hy. eapply (table_not_manifest dbname (mn_number x)); [apply HR|done].
    + eapply evolves_weaken; [|exact Hev]. by left.
  - assert (fs <> []) as Hfs by (by intros ->%Hnone). rewrite Hsave, bool_decide_eq_false_2 by done. cbn [negb]. set (logno := vs_next_file_number vs2').
    change (NewFileNumber vs2') with (logno, snd (NewFileNumber vs2')). cbv iota beta. set (vs4 := snd (NewFileNumber vs2')). assert (vs_next_file_number vs4 = logno + 1) as En4 by (unfold vs4; rewrite NewFileNumber_next; lia).
    set (edit := SetLogNumber logno (lr_edit st)). destruct (added_fields fs) as (A1 & A2 & A3 & A4 & A5). rewrite <- Hed in A1, A2, A3, A4, A5.
    assert (apply_edit M edit = add_level0 M fs) as Eap by (apply apply_added; [intros f Hf; apply (Hnew f Hf)|exact A5|exact A4]).
    assert (num_ok logno) as Hlogno by (unfold num_ok, logno; lia).
    assert (edit_good vs1 vs4 M edit) as HG.
    { split; [|exact A1|exact A3| | |].
      - apply (ve_apply_ok (lr_edit st) (VLogNumber logno)); [exact Hlogno|]. rewrite Hed. apply added_ok. intros f Hf. destruct (Hnew f Hf) as ((? & ?) & _ & ? & ? & ?). split_and!; [unfold num_ok; lia|done|done|done].
      - exists 0. intros p Hp. change (ve_new_files edit) with (ve_new_files (lr_edit st)) in Hp. rewrite A5 in Hp. apply list_elem_of_fmap in Hp as (f & -> & _). done.
      - change (ve_new_files edit) with (ve_new_files (lr_edit st)). rewrite A5, map_map. rewrite <- (map_map fm_number (fun n => (0%nat, n))). apply (NoDup_fmap_2 (fun n => (0%nat, n))). exact Hnd.
      - intros l f Hf. change (ve_new_files edit) with (ve_new_files (lr_edit st)) in Hf. rewrite A5 in Hf. apply list_elem_of_fmap in Hf as (f' & [= -> ->] & Hf). destruct (Hnew f' Hf) as [? _]. left. change (vs_next_file_number vs1 <= fm_number f' < vs_next_file_number vs4). unfold logno in En4. lia. }
    assert (Recorded x M b vs4 (tc_env tables2)) as HR4.
    { eapply Recorded_frame; [exact HR|unfold vs4; cbn; by rewrite F5, Ed|unfold vs4; cbn; by rewrite F3|unfold vs4; cbn; rewrite F4; symmetry; apply HR|unfold pointers_ok, vs4; cbn; rewrite F7; apply HR|rewrite En4; unfold logno; lia|unfold vs4; cbn; lia|lia|exact Hev|].
      intros y Hy. eapply (table_not_manifest dbname (mn_number x)); [apply HR|done]. }
    assert (current vs4 = current vs1) as Ecur4 by (unfold vs4; exact F6).
    destruct (Recorded_edit Hname dbname x M b N vs1 vs4 (tc_env tables2) edit HR4 ltac:(lia) ltac:(rewrite En4; unfold logno; lia) HG) as (x' & w & env3 & EL & HR' & Hev3 & Elog).
    { by rewrite Ecur4. } { unfold num_ok. rewrite En4. unfold logno. lia. } { change (vs_manifest_file_number vs4) with (vs_manifest_file_number vs2'). rewrite F2. unfold num_ok. lia. }
    { change (vs_last_sequence vs4) with (vs_last_sequence vs2'). rewrite El3. unfold num_ok. lia. } { change (vs_last_sequence vs4) with (vs_last_sequence vs2'). lia. }
    rewrite EL. change (vs_manifest_file_number vs4) with (vs_manifest_file_number vs2') in Hev3. rewrite F2 in Hev3. rewrite Eap in HR'. change (vs_log_number (edited vs4 edit w) = logno) in Elog.
    exists x', (edited vs4 edit w), (set_env env3 tables2). assert (vs_next_file_number (edited vs4 edit w) = logno + 1) as En5 by (exact En4).
    assert (version_rep (C := C) (current (edited vs4 edit w)) (add_level0 M fs)) as Hrep5.
    { unfold edited. rewrite current_append. rewrite <- Eap. destruct (prepare_edit_fields vs4 edit) as (_ & _ & Ed' & En' & _). assert (apply_edit M (prepare_edit vs4 edit) = apply_edit M edit) as <- by (unfold apply_edit; by rewrite Ed', En').
      apply next_version_rep; [by rewrite Ecur4| | |].
      - destruct (edit_ok_levels edit (eg_ok _ _ _ _ HG)) as [L1 L2]. split; [by rewrite Ed'|by rewrite En'].
      - rewrite En'. apply HG.
      - rewrite En'. intros [l i] Hi. destruct (M !! (l, i)) as [f|] eqn:Ef; [|done]. apply (edit_good_new dbname x vs1 vs4 _ M b edit l i HR4 ltac:(lia) HG) in Hi as (_ & _ & Hi). specialize (Hi _ _ Ef). lia. }
    pose proof (version_rep_unique _ _ _ Hrep5 Hrepv) as Evf. split_and!; [done| |done|exact El3|exact HR'| |rewrite En5; unfold logno; lia|rewrite En5; unfold logno; lia|left; split; [done|]; rewrite En5, Elog; unfold logno; lia].
    + apply (FilesOk_env dbname (table_options options) _ tables2).
      * eapply FilesOk_like; [exact HI|lia|rewrite En5; cbn; unfold logno; lia|rewrite En5; unfold logno; lia| | |by rewrite Ecur|].
        -- change (vs_manifest_file_number (edited vs4 edit w)) with (vs_manifest_file_number vs2'). rewrite F2. unfold num_ok. lia.
        -- intros w' Hw'. change (Some w = Some w') in Hw'. injection Hw' as Hw'. pose proof (rd_manifest _ _ _ _ _ _ HR') as Hman. change (log_holds w (mn_records x')) in Hman. rewrite Hw' in Hman. by exists (mn_records x').
        -- unfold edited. rewrite current_append. by apply Finalize_pickable.
      * eapply evolves_keeps; [exact Hev3|]. intros i Hi E1. assert (num_ok (mn_next x)) as Hmn by (unfold num_ok; lia). apply (table_not_manifest dbname (mn_next x) _ Hmn E1). by exists i.
    + eapply evolves_trans; [eapply evolves_weaken; [|exact Hev]; by left|]. eapply evolves_weaken; [|exact Hev3]. by right.
Qed.

(** ** What the memtables hold fits tables *)

(** The table of each memtable that is not empty stays below 2^32 bytes. *)
Definition memtables_fit (d : DB) : Prop :=
  forall mem, mem = db_mem d \/ db_imm d = Some mem ->
  exists fuel D, scan_list (H := MemTableIterator_iter (C := C)) fuel (MemTable_NewIterator mem) = Some (internal_entries D) /\ seqs_ok D /\ (D <> [] -> fits D).

(** Entries have one order. *)
Lemma sorted_entries_unique (D D' : versions) : seqs_ok D -> seqs_ok D' -> D ≡ₚ D' ->
  keys_sorted (C := InternalKeyComparator C) (internal_entries D) -> keys_sorted (C := InternalKeyComparator C) (internal_entries D') -> D = D'.
Proof.
  intros H1 H2 Hp Hs Hs'. apply internal_entries_inj; [done|done|]. eapply StronglySorted_unique_strong; [|exact Hs|exact Hs'|by apply Permutation_map].
  intros x y _ _ Hxy Hyx. destruct (clt_irrefl (C := InternalKeyComparator C) (fst x)). exact (clt_trans (C := InternalKeyComparator C) _ _ _ Hxy Hyx).
Qed.

Lemma batch_seqs_ok (n : Z) (ops : list WriteOp) (D : versions) : 0 <= n -> n + zlen ops < 2 ^ 31 -> D ≡ₚ map version_of (batch_entries (n + 1) ops) -> seqs_ok D.
Proof.
  intros Hn Hz HD p x Hp. rewrite HD in Hp. apply list_elem_of_fmap in Hp as (e & [= -> ->] & He). apply batch_entries_seq in He. unfold entry_seq in He. unfold seq_ok. change kMaxSequenceNumber with (2 ^ 56 - 1). lia.
Qed.

Lemma mem_log_fits (mem : MemTable Rnd) (es : list entry) (n : Z) (ops : list WriteOp) :
  mem_repr (C := C) mem es -> es ≡ₚ batch_entries (n + 1) ops -> 0 <= n -> n + zlen ops < 2 ^ 31 ->
  (exists fuel D, scan_list (H := MemTableIterator_iter (C := C)) fuel (MemTable_NewIterator mem) = Some (internal_entries D) /\ seqs_ok D /\ (D <> [] -> fits D)) ->
  log_fits (C := C) (W := W) (P := P) options n ops.
Proof.
  intros Hm Hes Hn Hz (fuel & D' & Escan & Hseq' & Hfit) D HD Hsrt Hne. destruct (mem_scan (C := C) mem es Hm) as (D1 & Hperm & Hsrt1 & Hscan).
  destruct (scan_list_spec (H := MemTableIterator_iter (C := C)) _ _ fuel _ Hscan Escan) as [Eint _]. assert (D1 ≡ₚ map version_of (batch_entries (n + 1) ops)) as HD1 by (by rewrite Hperm, Hes).
  pose proof (batch_seqs_ok n ops D1 Hn Hz HD1) as Hseq1. apply internal_entries_inj in Eint; [|done|done]. subst D'.
  assert (D = D1) as -> by (apply sorted_entries_unique; [by eapply batch_seqs_ok|done|by rewrite HD, HD1|done|done]). by apply Hfit.
Qed.

Lemma log_fits_none (n : Z) : log_fits (C := C) (W := W) (P := P) options n [].
Proof. intros D HD _ Hne. by apply Permutation_nil_r in HD. Qed.

Lemma logs_fit_none (n : Z) (logs : list (Z * list (list WriteOp))) : logs_ops logs = [] -> logs_fit (C := C) (W := W) (P := P) options n logs.
Proof.
  revert n. induction logs as [|[i bs] logs IH]; intros n; [done|]. change (logs_ops ((i, bs) :: logs)) with (concat bs ++ logs_ops logs). intros [E1 E2]%app_eq_nil. cbn [logs_fit]. rewrite E1. split; [apply log_fits_none|by apply IH].
Qed.

(** At most one of the logs has operations. *)
Lemma logs_fit_one (n : Z) (logs : list (Z * list (list WriteOp))) :
  (length (full_logs logs) <= 1)%nat -> log_fits (C := C) (W := W) (P := P) options n (logs_ops logs) -> logs_fit (C := C) (W := W) (P := P) options n logs.
Proof.
  revert n. induction logs as [|[i bs] logs IH]; intros n; [done|]. rewrite full_logs_cons. change (logs_ops ((i, bs) :: logs)) with (concat bs ++ logs_ops logs). cbn [logs_fit]. intros Hl Hf.
  destruct (decide (concat bs = [])) as [E1|E1].
  - rewrite E1 in *. change (zlen (@nil WriteOp)) with 0. rewrite Z.add_0_r. split; [apply log_fits_none|]. by apply IH.
  - assert (logs_ops logs = []) as E2; [|rewrite E2, app_nil_r in Hf; split; [done|by apply logs_fit_none]]. assert (full_logs logs = []) as Ef by (apply nil_length_inv; lia). clear -Ef.
    unfold full_logs in Ef. unfold logs_ops. induction logs as [|[j cs] logs IH]; [done|]. cbn [map concat snd]. rewrite filter_cons in Ef. cbn [snd] in Ef. destruct (decide (concat cs <> [])) as [|Hc]; [done|]. rewrite (IH Ef). by rewrite (dec_stable Hc).
Qed.

Lemma logs_fit_app (n : Z) (l1 l2 : list (Z * list (list WriteOp))) :
  logs_fit (C := C) (W := W) (P := P) options n l1 -> logs_fit (C := C) (W := W) (P := P) options (n + zlen (logs_ops l1)) l2 -> logs_fit (C := C) (W := W) (P := P) options n (l1 ++ l2).
Proof.
  revert n. induction l1 as [|[i bs] l1 IH]; intros n; [change (zlen (logs_ops [])) with 0; by rewrite Z.add_0_r|]. change (logs_ops ((i, bs) :: l1)) with (concat bs ++ logs_ops l1). rewrite zlen_app, Z.add_assoc. cbn [app logs_fit]. intros [? ?] ?. split; [done|by apply IH].
Qed.

Lemma full_logs_live (d : DB) (g : Ghost) (bs : list (list WriteOp)) : (length (full_logs (g_logs g)) <= 1)%nat -> (length (full_logs (live_logs d g bs)) <= 2)%nat.
Proof. intros Hf. unfold live_logs, full_logs in *. rewrite filter_app, length_app. pose proof (length_filter (fun l : Z * list (list WriteOp) => concat (snd l) <> []) [(db_logfile_number d, bs)]) as H1. cbn [length] in H1. lia. Qed.

Lemma live_fit (d : DB) (a : Abs) (g : Ghost) (k : nat) (n : Z) (bs : list (list WriteOp)) :
  DbOk d a g k n -> memtables_fit d -> concat bs = drop (Z.to_nat (g_b2 g)) (ab_ops a ++ g_pend g) -> logs_fit (C := C) (W := W) (P := P) options (g_b1 g) (live_logs d g bs).
Proof.
  intros HO Hfit Hbs. pose proof (ok_data _ _ _ _ _ _ _ HO) as HD. pose proof (ok_disk _ _ _ _ _ _ _ HO) as Hdk. destruct (da_order _ _ _ HD) as [O1 O2]. destruct (da_fits _ _ _ HD) as [_ Hz]. set (ops := ab_ops a ++ g_pend g) in *.
  assert (zlen (ab_ops a) <= zlen ops) as Hle by (unfold ops; rewrite zlen_app; pose proof (zlen_nonneg (g_pend g)); lia). pose proof (dk_ops _ _ _ _ _ _ Hdk) as Ho. fold ops in Ho.
  assert (zlen (logs_ops (g_logs g)) = g_b2 g - g_b1 g) as Hzo by (rewrite Ho; unfold zlen in *; rewrite length_take, length_drop; lia).
  unfold live_logs. apply logs_fit_app; [|replace (g_b1 g + zlen (logs_ops (g_logs g))) with (g_b2 g) by lia; split; [|done]].
  - apply logs_fit_one; [apply Hdk|]. destruct (db_imm d) as [imm|] eqn:Ei.
    + pose proof (da_imm _ _ _ HD) as Him. rewrite Ei in Him. eapply mem_log_fits; [exact Him|rewrite Ho; apply (da_imm_entries _ _ _ HD)|lia|lia|]. apply Hfit. by right.
    + pose proof (da_imm _ _ _ HD) as Him. rewrite Ei in Him. pose proof (da_no_imm _ _ _ HD Him) as Eb. rewrite Ho, Eb, Z.sub_diag. apply log_fits_none.
  - rewrite Hbs. eapply mem_log_fits; [apply (da_mem _ _ _ HD)|apply (da_mem_entries _ _ _ HD)|lia| |apply Hfit; by left]. fold ops. unfold zlen in *. rewrite length_drop. lia.
Qed.

(** ** The database that is opened again *)

(** What [DB_Open] makes of the recovered version set. *)
Definition reopened_db (vs : VersionSet W) (tables : TableCache E F K) (num : Z) (lfile : W) : DB :=
  mkDB new_mem None num (newWriter lfile) ∅ [] Starting newWriteBatch tables vs newSnapshotList 0 ∅ StatusOK ∅ None false false.

Lemma reopened_data (d : DB) (ops : list WriteOp) (g : Ghost) (vs : VersionSet W) (tables : TableCache E F K) (num : Z) (lfile : W) (v : Version) (disk : Disk) (M' : file_map) (logs : list (Z * list (list WriteOp))) :
  let N := zlen (ops ++ g_pend g) in
  DataOk (C := C) d ops g ->
  (forall p x, version_has v disk p x <-> (p, x) ∈ version_entries (current (db_versions d)) (g_disk g) \/ (p, x) ∈ map version_of (batch_entries (g_b1 g + 1) (drop (Z.to_nat (g_b1 g)) (ops ++ g_pend g)))) ->
  v_files (current vs) = v_files v -> length (v_files (current vs)) = kNumLevels -> vs_last_sequence vs = N -> wf_contents lfile = [] ->
  DataOk (C := C) (reopened_db vs tables num lfile) (ops ++ g_pend g) (mkGhost [] [] [] disk M' (g_min g) [] N N logs).
Proof.
  intros N HD Hhas Evf Hlen El Hlf. destruct (da_order _ _ _ HD) as [O1 O2]. set (full := ops ++ g_pend g) in *. destruct (da_fits _ _ _ HD) as [Hf Hz]. fold full in Hf, Hz. pose proof (zlen_nonneg full) as Hz0. fold N in Hz, Hz0.
  assert (zlen ops <= N) as Hle by (unfold N, full; rewrite zlen_app; pose proof (zlen_nonneg (g_pend g)); lia).
  assert (drop (Z.to_nat N) full = []) as Hdrop by (apply drop_ge; unfold N, zlen; lia).
  assert (forall p x, (p, x) ∈ version_entries (current vs) disk <-> (p, x) ∈ version_entries (current (db_versions d)) (g_disk g) \/ (p, x) ∈ map version_of (batch_entries (g_b1 g + 1) (drop (Z.to_nat (g_b1 g)) full))) as Hent.
  { intros p x. rewrite <- Hhas. rewrite version_entries_elem by done. unfold version_has, in_version, files_. by rewrite Evf. }
  split; cbn [reopened_db db_versions db_mem db_imm db_log db_snapshots g_pend g_mem g_imm g_disk g_map g_min g_live g_b1 g_b2 g_logs]; rewrite ?app_nil_r, ?Hdrop.
  - exact El.
  - split; [exact Hf|exact Hz].
  - apply mem_repr_new.
  - reflexivity.
  - reflexivity.
  - exists []. split; [by apply log_holds_new|done].
  - eapply agrees_perm; [|apply (da_agrees _ _ _ HD)]. intros p x. unfold all_entries. cbn [g_mem g_imm g_disk db_versions map app]. rewrite !elem_of_app, Hent.
    rewrite (fmap_Permutation _ _ _ (da_mem_entries _ _ _ HD)), (fmap_Permutation _ _ _ (da_imm_entries _ _ _ HD)). fold full.
    set (R := drop (Z.to_nat (g_b1 g)) full). set (R1 := take (Z.to_nat (g_b2 g - g_b1 g)) R). assert (zlen R1 = g_b2 g - g_b1 g) as Hz1 by (unfold R1, R, N, full, zlen in *; rewrite length_take, length_drop; lia).
    assert (R = R1 ++ drop (Z.to_nat (g_b2 g)) full) as HR by (unfold R1; rewrite <- (take_drop (Z.to_nat (g_b2 g - g_b1 g)) R) at 1; unfold R at 2; rewrite drop_drop; do 2 f_equal; lia).
    rewrite HR, batch_entries_app, map_app, elem_of_app, Hz1. replace (g_b1 g + 1 + (g_b2 g - g_b1 g)) with (g_b2 g + 1) by lia. tauto.
  - fold N. lia.
  - by rewrite Z.sub_diag.
  - intros p x [Hp|Hp]%Hent; [pose proof (da_version_seq _ _ _ HD p x Hp); lia|]. apply list_elem_of_fmap in Hp as (e & [= -> ->] & He). apply batch_entries_seq in He. unfold entry_seq in He.
    unfold N, full, zlen in *. rewrite length_drop in He. lia.
  - pose proof (da_min _ _ _ HD). fold N. lia.
  - apply SnapInv_new.
  - intros p s Hp. by apply not_elem_of_nil in Hp.
Qed.

Abbreviation DiskOk := (DiskOk (C := C) (E := E) (W := W) (SF := SF) (L := L) dbname).

Lemma reopened_disk (d : DB) (a : Abs) (g : Ghost) (k : nat) (n : Z) (bs : list (list WriteOp)) (x x' : Manifest) (env env1 env3 : E) (vs3 : VersionSet W) (M' : file_map) (m : Z) (disk : Disk) :
  let N := zlen (ab_ops a ++ g_pend g) in
  let live := live_logs d g bs in
  let num := vs_next_file_number vs3 in
  DbOk d a g k n -> Closed d a g bs x env -> (forall name data, reads env name data -> reads env1 name data) ->
  (forall y, fs_FileExists (dbname ++ lit "/" ++ y) env1 = true -> fs_FileExists (dbname ++ lit "/" ++ y) env = true) ->
  num_ok m -> evolves (W := W) (fun y => table_files dbname y \/ manifest_files dbname m y) env1 env3 -> Recorded x' M' N vs3 env3 ->
  (forall i, i ∈ map fst live -> i < num) -> num + 1 < 2 ^ 64 ->
  ((logs_ops live <> [] /\ (forall i, i ∈ map fst live -> i < vs_log_number vs3) /\ vs_log_number vs3 < num) \/ (logs_ops live = [] /\ vs_log_number vs3 = vs_log_number (db_versions d))) ->
  DiskOk (snd (NewFileNumber vs3)) (snd (fs_NewWritableFile (LogFileName dbname num) env3)) num (ab_ops a ++ g_pend g)
    (mkGhost [] [] [] disk M' (g_min g) [] N N (if decide (logs_ops live = []) then live else [])).
Proof.
  intros N live num HO Hcl Hreads Hex1 Hm Hev HR Hlt Hnum Hlog. pose proof (ok_disk _ _ _ _ _ _ _ HO) as Hdk. pose proof (rd_next _ _ _ _ _ _ HR) as Hnx. fold num in Hnx. assert (num_ok num) as Hnn by (unfold num_ok; lia).
  set (env4 := snd (fs_NewWritableFile (LogFileName dbname num) env3)). assert (evolves (W := W) (eq (LogFileName dbname num)) env3 env4) as Hev4 by (apply (ev_new _ (LogFileName dbname num)); [done|constructor]).
  assert (map fst live = map fst (g_logs g) ++ [db_logfile_number d]) as Elive by apply live_numbers. pose proof (dk_sorted _ _ _ _ _ _ Hdk) as Hso. pose proof (dk_range _ _ _ _ _ _ Hdk) as Hrange. rewrite <- Elive in Hso, Hrange.
  assert (forall i, i ∈ map fst live -> num_ok i) as Hok by (intros i; rewrite Elive; by eapply dk_num_ok). assert (db_logfile_number d ∈ map fst live) as Hlf by (rewrite Elive; apply elem_of_app; right; by left).
  pose proof (Hrange _ Hlf) as Hlfr. pose proof (Hlt _ Hlf) as Hlfn.
  assert (vs_log_number (db_versions d) <= vs_log_number vs3 < num) as Hlg by (destruct Hlog as [(_ & Hl & ?)|(_ & ->)]; [specialize (Hl _ Hlf); lia|lia]).
  assert (logs_ops live = drop (Z.to_nat (g_b1 g)) (ab_ops a ++ g_pend g)) as Elo by apply (cl_ops _ _ _ _ _ _ Hcl).
  set (logs := if decide (logs_ops live = []) then live else []). assert (forall i, i ∈ map fst logs -> i ∈ map fst live) as Hsub by (intros i; unfold logs; destruct (decide _); [done|intros Hi; by apply not_elem_of_nil in Hi]).
  assert (logs_ops logs = []) as Elogs by (unfold logs; by destruct (decide _)). split; cbn [NewFileNumber snd set_next_file vs_next_file_number vs_log_number g_map g_b1 g_b2 g_logs]; fold num; rewrite ?wrap_small by lia.
  - exists x'. eapply Recorded_frame; [exact HR|done|done|done|apply HR| |done|done|exact Hev4|].
    + cbn. fold num. rewrite ?wrap_small by lia. lia.
    + intros y Hy E0. eapply (log_not_manifest dbname (mn_number x') num); [apply HR|exact Hnn|exact Hy|by symmetry].
  - unfold logs. destruct (decide (logs_ops live = [])) as [E0|]; [|done]. assert (N = g_b1 g) as ->.
    { rewrite E0 in Elo. apply (f_equal length) in Elo. rewrite length_drop in Elo. cbn in Elo. destruct (da_order _ _ _ (ok_data _ _ _ _ _ _ _ HO)) as [O1 O2]. unfold N. rewrite zlen_app in *. pose proof (zlen_nonneg (g_pend g)). unfold zlen in *. rewrite length_app in Elo. lia. }
    eapply logs_hold_frame; [apply (cl_logs _ _ _ _ _ _ Hcl)|]. intros i data Hi Hr. pose proof (Hok i Hi) as Hoki. eapply evolves_reads; [exact Hev4| |eapply evolves_reads; [exact Hev| |by apply Hreads]].
    + intros E1. rewrite !log_child in E1. apply child_inj, log_numbered_inj in E1; [specialize (Hlt i Hi); lia|exact Hnn|exact Hoki].
    + intros [E1|E1]; [by apply (log_not_table dbname i) in E1|by apply (log_not_manifest dbname m i) in E1].
  - rewrite Elogs, Z.sub_diag. done.
  - assert (StronglySorted Z.lt (map fst logs)) as Hs by (unfold logs; destruct (decide _); [done|constructor]). apply StronglySorted_app. split_and!; [|done|repeat constructor].
    intros i j Hi%Hsub ->%list_elem_of_singleton. by apply Hlt.
  - intros i [Hi| ->%list_elem_of_singleton]%elem_of_app; [|lia]. pose proof (Hlt i (Hsub i Hi)). unfold logs in Hi. destruct Hlog as [(Hne & _)|(_ & ->)]; [rewrite decide_False in Hi by done; by apply not_elem_of_nil in Hi|].
    apply Hsub, Hrange in Hi. lia.
  - intros y p Hy Ht Hex. destruct (evolves_exists _ _ _ _ Hev4 Hex) as [E0|Hex3].
    { right. exists num. split; [apply elem_of_app; right; by left|]. rewrite log_child in E0. by apply child_inj in E0. }
    destruct (log_child_other dbname y p Hy Ht) as [Hnt Hnm]. destruct (evolves_exists _ _ _ _ Hev Hex3) as [[E0|E0]|Hex0]; [done|by destruct (Hnm m Hm)|]. apply Hex1 in Hex0.
    destruct (cl_others _ _ _ _ _ _ Hcl y p Hy Ht Hex0) as [Hp|(i & Hi & ->)]; [left; lia|]. destruct Hlog as [(_ & Hl & _)|(E0 & _)].
    + left. rewrite (log_parse i) in Hy by (by apply Hok). injection Hy as <-. cbn [pf_number]. by apply Hl.
    + right. exists i. split; [|done]. apply elem_of_app. left. unfold logs. by rewrite decide_True.
  - rewrite (full_logs_none logs Elogs). cbn [length]. lia.
  - lia.
Qed.

Lemma logs_hold_reads (env : E) (b : Z) (logs : list (Z * list (list WriteOp))) (n : Z) : logs_hold (W := W) (SF := SF) dbname env b logs -> n ∈ map fst logs -> exists data, reads env (LogFileName dbname n) data.
Proof.
  revert b. induction logs as [|[i bs] logs IH]; intros b; cbn [map fst logs_hold]; [intros _ Hn; by apply not_elem_of_nil in Hn|]. intros [(data & o & Hr & _) Hl] [->|Hn]%elem_of_cons; [by exists data|by eapply IH].
Qed.

(** The queue of a database that was opened. *)
Lemma reopened_queue (vs : VersionSet W) (tables : TableCache E F K) (num : Z) (lfile : W) (ops : list WriteOp) : QueueOk (reopened_db vs tables num lfile) ops [] [] ∅.
Proof.
  split; cbn [reopened_db db_writers db_writer_objects map]; [done|constructor| | | |constructor|split; reflexivity].
  - intros id u Hid. by apply not_elem_of_nil in Hid.
  - intros id Hid. by apply not_elem_of_empty in Hid.
  - intros id y. by rewrite lookup_empty.
Qed.

(** The writers whose operations are in the log are in the queue. *)
Lemma pend_queue (d : DB) (a : Abs) (g : Ghost) (k : nat) (n : Z) : DbOk d a g k n -> exists q rest, ab_queue a = q ++ rest /\ g_pend g = queue_ops q.
Proof.
  intros HO. pose proof (qu_front _ _ _ _ _ (ok_queue _ _ _ _ _ _ _ HO)) as Hf. unfold front_ok in Hf. destruct (db_front d); try (destruct Hf as [-> _]; by exists [], (ab_queue a)).
  destruct Hf as (_ & _ & id & u & group & rest & -> & _ & -> & _). by exists ((id, u) :: group), rest.
Qed.

Lemma reopen_ok (d : DB) (a : Abs) (g : Ghost) (k : nat) (n : Z) :
  DbOk d a g (5 + k) n -> memtables_fit d ->
  exists size0, forall size cache, (size0 <= size)%nat -> new_cache cache ->
  exists d' env' g', DB_Open (C := C) (P := P) slen zstlen sun zun dbname options size cache (DBImpl_close d) = Some (Ok d', env') /\ tc_env (db_tables d') = env' /\
    DbOk d' (mkAbs (ab_ops a ++ g_pend g) [] ∅ ∅) g' k n.
Proof.
  intros HO Hfit. destruct (close_ok d a g _ n HO) as (bs & x & Hcl). set (env := DBImpl_close d) in *. pose proof (ok_data _ _ _ _ _ _ _ HO) as HD. pose proof (ok_files _ _ _ _ _ _ _ HO) as HI. pose proof (ok_disk _ _ _ _ _ _ _ HO) as Hdk.
  destruct (fi_next _ _ _ _ _ _ _ HI) as [Hn1 Hn2]. pose proof (cl_recorded _ _ _ _ _ _ Hcl) as HR0. pose proof (rd_next _ _ _ _ _ _ HR0) as Hmn. cbn [set_descriptor vs_next_file_number] in Hmn. destruct (da_order _ _ _ HD) as [O1 O2]. destruct (da_fits _ _ _ HD) as [Hops Hz].
  set (full := ab_ops a ++ g_pend g) in *. set (R := drop (Z.to_nat (g_b1 g)) full). set (live := live_logs d g bs). assert (zlen (ab_ops a) <= zlen full) as Hle by (unfold full; rewrite zlen_app; pose proof (zlen_nonneg (g_pend g)); lia).
  assert (g_b1 g + zlen R = zlen full) as EN by (unfold R, zlen in *; rewrite length_drop; lia). pose proof (cl_ops _ _ _ _ _ _ Hcl) as Elo. fold full R live in Elo.
  destruct (fs_CreateDir dbname env) as [cres env1] eqn:Ec. assert (env1 = snd (fs_CreateDir dbname env)) as Eenv1 by (by rewrite Ec).
  assert (forall name data, reads env name data -> reads env1 name data) as Hreads by (intros name data; rewrite Eenv1; apply fs_CreateDir_reads).
  assert (forall name data, fs_holds env name data -> fs_holds env1 name data) as Hholds by (intros name data; rewrite Eenv1; apply fs_CreateDir_holds).
  assert (forall y, fs_FileExists (dbname ++ lit "/" ++ y) env1 = true -> fs_FileExists (dbname ++ lit "/" ++ y) env = true) as Hexists.
  { intros y Hy. rewrite Eenv1 in Hy. apply fs_CreateDir_exists in Hy as [E0|]; [by apply not_the_directory in E0|done]. }
  pose proof (Recorded_reads dbname _ _ _ _ _ env1 HR0 Hreads) as HR1. pose proof (fs_reads_exists _ _ _ (rd_current _ _ _ _ _ _ HR1)) as Hcur.
  destruct (Recover_recorded dbname x (g_map g) (g_b1 g) _ env1 HR1 eq_refl ltac:(lia)) as (vs1 & size1 & Erec & HR2 & Hrep1 & Hpick1 & En1 & Em1 & El1 & Elog1 & Ed1). cbn [set_descriptor vs_log_number] in Elog1.
  destruct (logs_bounded_exists (W := W) (SF := SF) dbname env1 live) as (size2 & Hsize2). exists (Nat.max size1 size2). intros size cache Hsz Hcache.
  destruct (fs_GetChildren_ok dbname env1 (lit "CURRENT") _ CURRENT_no_slash (rd_current _ _ _ _ _ _ HR1)) as (names & Eg).
  assert (logs_hold (W := W) (SF := SF) dbname env1 (g_b1 g) live) as Hlogs1 by (eapply logs_hold_frame; [apply (cl_logs _ _ _ _ _ _ Hcl)|intros i data _; apply Hreads]).
  pose proof (dk_sorted _ _ _ _ _ _ Hdk) as Hso. pose proof (dk_range _ _ _ _ _ _ Hdk) as Hrange. rewrite <- (live_numbers d g bs) in Hso, Hrange. fold live in Hso, Hrange.
  assert (forall i, i ∈ map fst live -> num_ok i) as Hnum by (intros i; unfold live; rewrite live_numbers; by eapply dk_num_ok).
  assert (logs_to_recover names vs1 = map fst live) as Elive.
  { eapply (logs_to_recover_live (W := W) (SF := SF) dbname vs1 env1); [|exact Hso|apply HR2| |exact Eg].
    - intros i Hi. split; [by apply Hnum|]. split; [rewrite Elog1; by apply Hrange|by eapply logs_hold_reads].
    - intros y p Hy Ht Hex. rewrite Elog1. apply (cl_others _ _ _ _ _ _ Hcl y p Hy Ht). by apply Hexists. }
  pose proof (full_logs_live d g bs (dk_full _ _ _ _ _ _ Hdk)) as Hfull. fold live in Hfull.
  destruct (start_recovering d a g _ (length (full_logs live) + S k) n bs x env env1 vs1 cache HO Hcl Hholds HR2 Hrep1 Hpick1 En1 Em1 Ed1 Hcache ltac:(lia)) as (disk1 & HV1).
  set (E0 := version_entries (current (db_versions d)) (g_disk g)) in *.
  destruct (recover_logs_ok slen zstlen sun zun dbname options Hri vs1 env1 (g_map g) E0 (g_b1 g) live (S k) size ltac:(lia) (da_version_seq _ _ _ HD) (Hsize2 size ltac:(lia))
    [] (mkLogRecovery false newVersionEdit 0) vs1 (newTableCache env1 cache) [] (current vs1) disk1 (vs_next_file_number (db_versions d) + 1) HV1) as (st & vs2 & tables2 & fs & v & disk & Elogs & HV2 & Hnext2 & Hall).
  { change (zlen (@nil WriteOp)) with 0. by rewrite Z.add_0_r. } { rewrite Elo. unfold R. by apply Forall_drop. } { rewrite Elo. change (zlen (@nil WriteOp)) with 0. lia. }
  { change (zlen (@nil WriteOp)) with 0. rewrite Z.add_0_r. eapply live_fit; [exact HO|exact Hfit|]. fold full. pose proof (dk_ops _ _ _ _ _ _ Hdk) as Ho. fold R in Ho.
    unfold live, live_logs in Elo. rewrite logs_ops_app, Ho in Elo. change (logs_ops [(db_logfile_number d, bs)]) with (concat bs ++ []) in Elo. rewrite app_nil_r in Elo.
    rewrite <- (take_drop (Z.to_nat (g_b2 g - g_b1 g)) R) in Elo at 2. apply app_inv_head in Elo. rewrite Elo. unfold R. rewrite drop_drop. f_equal. lia. }
  { intros i Hi. specialize (Hrange i Hi). specialize (Hnum i Hi). unfold num_ok in Hnum. lia. } { lia. } { lia. }
  rewrite app_nil_l in HV2. rewrite Elo in HV2.
  pose proof (rd_last _ _ _ _ _ _ HR0) as Hlast0. cbn [set_descriptor vs_last_sequence] in Hlast0. rewrite (da_last _ _ _ HD) in Hlast0.
  destruct (finish_ok vs1 vs2 env1 (g_map g) E0 (g_b1 g) R st tables2 fs v disk k x HV2 HR2 Hrep1 Hpick1 En1 Em1 Ed1 El1 ltac:(lia) ltac:(lia) ltac:(lia)) as (x' & vs3 & tables3 & Efin & HI3 & Evf3 & El3 & HR3 & Hev3 & Hn3 & Hlog3).
  rewrite EN in El3, HR3. set (num := vs_next_file_number vs3). set (vs5 := snd (NewFileNumber vs3)). destruct (fs_NewWritableFile_spec (LogFileName dbname num) (tc_env tables3)) as (lfile & env4 & Elf & Hlf).
  set (tables5 := set_env env4 tables3). exists (reopened_db vs5 tables5 num lfile), env4, (mkGhost [] [] [] disk (add_level0 (g_map g) fs) (g_min g) [] (zlen full) (zlen full) (if decide (logs_ops live = []) then live else [])). split; [|split; [done|]].
  - unfold DB_Open, DBImpl_Recover. cbn [newTableCache tc_env]. rewrite Ec. cbn [set_env tc_env]. rewrite Hcur. cbn [set_env tc_env tc_tables tc_block_cache]. rewrite (Erec size ltac:(lia)). cbn [set_env tc_env tc_tables tc_block_cache]. rewrite Eg. unfold recover_from_logs. rewrite Elive.
    change (set_env env1 (set_env env1 (newTableCache env cache))) with (newTableCache (F := F) env1 cache). rewrite Elogs. change (match finish_recovery st vs2 tables2 with None => None | Some (Err s, _, tables) => Some (Err s, tc_env tables) | Some (Ok _, vs, tables) => let '(number, vs) := NewFileNumber vs in let '(lfile_res, env) := fs_NewWritableFile (LogFileName dbname number) (tc_env tables) in match lfile_res with Err s => Some (Err s, env) | Ok lfile => Some (Ok (reopened_db vs (set_env env tables) number lfile), env) end end = Some (Ok (reopened_db vs5 tables5 num lfile), env4)).
    rewrite Efin. change (NewFileNumber vs3) with (num, vs5). cbv iota beta. by rewrite Elf.
  - assert (vs_next_file_number vs5 = num + 1) as En5 by (unfold vs5; apply NewFileNumber_next; unfold num; lia). destruct HV2 as [_ _ _ _ _ _ Hhas _ _]. pose proof (fi_rep _ _ _ _ _ _ _ HI3) as Hrep3.
    assert (current vs5 = current vs3) as Ecur5 by reflexivity. assert (keeps_tables dbname (tc_env tables3) env4) as Hkeep4.
    { replace env4 with (snd (fs_NewWritableFile (LogFileName dbname num) (tc_env tables3))) by (by rewrite Elf). apply (evolves_keeps (eq (LogFileName dbname num))); [apply (ev_new _ (LogFileName dbname num)); [done|constructor]|].
      intros i Hi E1%eq_sym. assert (num_ok num) as Hnn by (unfold num_ok, num; lia). by destruct (TableFileName_other dbname i num Hi Hnn) as (? & _). }
    assert (zlen full <= zlen (ab_ops a ++ queue_ops (ab_queue a))) as Hqz.
    { destruct (pend_queue d a g _ n HO) as (q & rest & Eq & Ep). unfold full. rewrite Ep, Eq, queue_ops_app, !zlen_app. pose proof (zlen_nonneg (queue_ops rest)). lia. }
    split; cbn [ab_ops ab_queue ab_told ab_snaps reopened_db db_versions db_tables db_bg_error db_logfile_number g_disk g_map g_pend g_live].
    + unfold tables5. apply FilesOk_env; [|exact Hkeep4]. eapply FilesOk_like; [exact HI3|done|rewrite En5; unfold num; lia|rewrite En5; unfold num; lia|apply (fi_manifest _ _ _ _ _ _ _ HI3)|apply (fi_desc _ _ _ _ _ _ _ HI3)|by rewrite Ecur5|rewrite Ecur5; apply (fi_pick _ _ _ _ _ _ _ HI3)].
    + apply (reopened_data d (ab_ops a) g vs5 tables5 num lfile v); [exact HD|exact Hhas|by rewrite Ecur5|rewrite Ecur5; apply (vr_length _ _ Hrep3)|exact El3|exact Hlf].
    + apply reopened_queue.
    + done.
    + intros p s. rewrite lookup_empty. split; [done|]. intros Hp. by apply not_elem_of_nil in Hp.
    + split; [done|]. intros m mc. cbn [reopened_db db_manual_objects]. by rewrite lookup_empty.
    + unfold num_ok, num. lia.
    + rewrite app_nil_r. replace (tc_env tables5) with (snd (fs_NewWritableFile (LogFileName dbname num) (tc_env tables3))) by (by rewrite Elf).
      assert (num_ok (mn_next x)) as Hmx by (unfold num_ok; lia). assert (forall i, i ∈ map fst live -> i < num) as Hlt by (intros i Hi; specialize (Hall i Hi); unfold num; lia).
      apply (reopened_disk d a g (5 + k) n bs x x' env env1 (tc_env tables3) vs3 (add_level0 (g_map g) fs) (mn_next x) disk HO Hcl Hreads Hexists Hmx Hev3 HR3 Hlt); [unfold num; lia|]. fold live. rewrite Elo.
      destruct Hlog3 as [(Hne & Hl1 & Hl2)|(E1 & E2)]; [left|right; split; [done|congruence]]. split; [done|]. split; [|exact Hl2]. intros i Hi. specialize (Hall i Hi). lia.
    + destruct (ok_count _ _ _ _ _ _ _ HO) as [C1 C2]. change (queue_ops []) with (@nil WriteOp). rewrite app_nil_r. lia.
Qed.
End Reopen.
