(* ===== verification/DbSessions.v ===== *)
(** * DbSessions: a database over its whole life

    A database is opened, run and closed any number of times.  Each time it starts
    from the operations of the times before ([sessions_durable]): those that were
    published, and those of the writers at the front of the queue whose group was in
    the log when the database was closed. *)

From stdpp Require Import sorting fin_sets.
From S2P Require Import Prelude Random Status Coding Comparator Logging FilterPolicy DbFormat SkipList MemTable WriteBatch Env LogFile Format Iterator Block Merger FilterBlock.
From S2P Require Import TwoLevelIterator TableBuilder Cache Table VersionEdit FileName Children DBIter Version VersionRead VersionBuilder VersionSet Manifest Compaction.
From S2P Require Import TableCache MapFS Snapshot History Iterates TableFiles CompactionRun VersionChange CompactionWork DbImpl DbStep DbFiles DbData DbDisk DbQueue DbRefine DbOpen DbTheorems DbDurable DbRecover DbReopen.
From S2P Require Import MemTable.
From Stdlib Require Import Sorting.Sorted.

(** ** What a client sees *)

(** What each session shows, from the operations that the database holds to those that it holds in the end. *)
Inductive spec_sessions : list WriteOp -> list (list Step * list Out) -> list WriteOp -> Prop :=
  | spec_no_session ops : spec_sessions ops [] ops
  | spec_session ops steps os a q rest sessions ops' :
      spec_run (mkAbs ops [] ∅ ∅) steps os a -> ab_queue a = q ++ rest -> spec_sessions (ab_ops a ++ queue_ops q) sessions ops' ->
      spec_sessions ops ((steps, os) :: sessions) ops'.

Section Sessions.
Context (slen zstlen : bytes -> option Z) (sun zun : bytes -> option bytes).
Context {C : Comparator} {CL : ComparatorLaws C} (Heq : forall a b, ceq a b -> a = b) (Hname : zlen (lit (Name (Comparator := C))) < 2 ^ 32) {P : FilterPolicy} {PL : FilterPolicyLaws P}.
Context {E W SF F L : Type} {FS : FileSystem E W SF} {WF : WritableFile W} {WL : WritableFileLaws W} {HF : HandleFS E W} {FSL : FileSystemLaws E W SF}.
Context {QF : SequentialFile SF} {QL : SequentialFileLaws SF} {FR : FileReadLaws E W SF} {DF : DirectoryFS E L} {DL : DirectoryLaws E W SF L} {LL : ListingLaws E W SF L}.
Context {RFS : RandomAccessFS E F} {RF : RandomAccessFile F} {RL : RandomAccessFileLaws F} {FF : FileFrameLaws E W SF F} {DFL : DirFrameLaws E W SF F L}.
Context {K Hd : Type} {KC : Cache K Hd Block} {KL : CacheLaws K Hd Block} {KI : CacheIdLaws K Hd Block}.
Context {Rnd : Type} {US : UniformSource Rnd} (dbname : bytes) (options : Options) (Hri : 1 <= o_block_restart_interval options) (mem_usage : MemTable Rnd -> Z).

Abbreviation DB := (DBImpl E W F K Rnd).
Abbreviation opens := (DB_Open (C := C) (P := P) (Rnd := Rnd) slen zstlen sun zun dbname options).
Abbreviation closes := (DBImpl_close (E := E) (W := W) (SF := SF) (F := F) (K := K) (Rnd := Rnd) dbname).
Abbreviation run := (run (C := C) (P := P) slen zstlen sun zun dbname options mem_usage).
Abbreviation legal_run := (legal_run (C := C) (P := P) slen zstlen sun zun dbname options mem_usage).
Abbreviation DbOk := (DbOk (C := C) (SF := SF) (L := L) (P := P) dbname options).

(** The sessions of a database: what its threads do in each and what they see.  It is
    opened with enough fuel and a new block cache, runs, and is closed, or its process
    ends; the memtables that it leaves are no larger than a table can be. *)
Inductive sessions : E -> list (list Step * list Out) -> E -> Prop :=
  | no_session env : sessions env [] env
  | one_session size cache env d env1 steps d' os rest env' :
      new_cache cache -> opens size cache env = Some (Ok d, env1) -> legal_run steps d -> run steps d = Some (d', os) -> memtables_fit (C := C) (P := P) options d' ->
      sessions (closes d') rest env' -> sessions env ((steps, os) :: rest) env'.

(** The file numbers and operations that sessions use at most. *)
Definition session_files (ss : list (list Step * list Out)) : nat := list_sum (map (fun s => length (fst s) + 5)%nat ss).
Definition session_ops (ss : list (list Step * list Out)) : list WriteOp := concat (map (fun s => all_ops (fst s)) ss).

(** Opening gives a database that holds [ops]. *)
Definition holds (env : E) (ops : list WriteOp) (k : nat) (n : Z) : Prop :=
  exists size0, forall size cache, (size0 <= size)%nat -> new_cache cache ->
  exists d env1 g, opens size cache env = Some (Ok d, env1) /\ DbOk d (mkAbs ops [] ∅ ∅) g k n.

Lemma holds_opens (env : E) (ops : list WriteOp) (k : nat) (n : Z) (size : nat) (cache : option K) (d : DB) (env1 : E) :
  holds env ops k n -> new_cache cache -> opens size cache env = Some (Ok d, env1) -> exists g, DbOk d (mkAbs ops [] ∅ ∅) g k n.
Proof.
  intros (size0 & Hh) Hcache Eo. destruct (Hh (Nat.max size size0) cache ltac:(lia) Hcache) as (d1 & env2 & g & Eo' & HO). exists g.
  rewrite (DB_Open_fuel _ _ _ _ _ _ size (Nat.max size size0) _ _ _ ltac:(lia) Eo) in Eo'. by injection Eo' as <- _.
Qed.

Lemma holds_fresh (env : E) (k : nat) (n : Z) :
  fresh_directory dbname env -> o_create_if_missing options = true -> Z.of_nat k + 4 < 2 ^ 31 -> 0 <= n < 2 ^ 31 -> holds env [] k n.
Proof.
  intros Hfresh Hcreate Hk Hn. exists (length (first_manifest (C := C) (W := W))). intros size cache Hsz Hcache.
  destruct (open_fresh (C := C) (P := P) (F := F) slen zstlen sun zun dbname options Hname size cache env k n Hsz Hfresh Hcache Hcreate Hk Hn) as (d & env1 & Eo & _ & HO). by exists d, env1, no_ghost.
Qed.

Lemma holds_session (d : DB) (a : Abs) (g : Ghost) (k : nat) (n : Z) : DbOk d a g (5 + k) n -> memtables_fit (C := C) (P := P) options d ->
  exists q rest, ab_queue a = q ++ rest /\ holds (closes d) (ab_ops a ++ queue_ops q) k n.
Proof.
  intros HO Hfit. destruct (pend_queue dbname options d a g _ n HO) as (q & rest & Eq & Ep). exists q, rest. split; [done|]. rewrite <- Ep.
  destruct (reopen_ok slen zstlen sun zun Hname dbname options Hri d a g k n HO Hfit) as (size0 & Hopen). exists size0. intros size cache Hsz Hcache.
  destruct (Hopen size cache Hsz Hcache) as (d' & env' & g' & Eo & _ & HO'). by exists d', env', g'.
Qed.

Lemma sessions_sim (env env' : E) (ss : list (list Step * list Out)) : sessions env ss env' ->
  forall ops k n, holds env ops (session_files ss + k) (zlen (session_ops ss) + n) -> 0 <= n -> exists ops', spec_sessions ops ss ops' /\ holds env' ops' k n.
Proof.
  induction 1 as [env|size cache env d env1 steps d' os rest env' Hcache Eo Hl Er Hfit Hs IH]; intros ops k n Hh Hn.
  - exists ops. split; [constructor|exact Hh].
  - change (session_files ((steps, os) :: rest)) with (length steps + 5 + session_files rest)%nat in Hh. change (session_ops ((steps, os) :: rest)) with (all_ops steps ++ session_ops rest) in Hh.
    rewrite zlen_app, <- Z.add_assoc, <- !Nat.add_assoc in Hh. pose proof (zlen_nonneg (session_ops rest)). destruct (holds_opens _ _ _ _ _ _ _ _ Hh Hcache Eo) as (g & HO).
    destruct (run_sim (SF := SF) (L := L) slen zstlen sun zun Heq Hname dbname options Hri mem_usage steps d _ g _ (zlen (session_ops rest) + n) d' os HO ltac:(lia) Hl Er) as (a & g' & Hspec & HO').
    destruct (holds_session d' a g' _ _ HO' Hfit) as (q & r & Eq & Hh'). destruct (IH _ k n Hh' Hn) as (ops' & Hspec' & Hend). exists ops'. split; [by econstructor|done].
Qed.

(** C2. What is written is still there when the database is opened again.  Open a
    database in a directory that has none, take any legal run, and close the database
    or end its process between two steps of the run (with writers in the queue, a
    memtable that waits to be written out, a switched log); open it again, and so on,
    any number of times.  Then every session shows what the abstract database allows
    when it starts from all operations that were published in the sessions before, in
    their order, and whole groups of writers that were logged but not yet told; and
    the database that is left can be opened once more.
    The runs are legal as in [database_refines]: keys and values below 2^32 bytes,
    tables below 2^32 bytes, every compaction keeps an entry, no destructor begins
    before a running compaction has read its whole input, a turn of the background
    thread is one step, and no I/O errors.  A session that ends in the middle of a
    compaction is therefore not covered: there the code loses entries
    ([shutdown_cuts_compaction]) or, when nothing was kept, writes a MANIFEST that
    cannot be read ([compaction_of_nothing]).  The memtables that a session leaves fit
    a table below 2^32 bytes ([memtables_fit]), since opening writes them to tables; and there are fewer
    than 2^31 operations and file numbers in all sessions together. *)
Theorem sessions_durable (env env' : E) (ss : list (list Step * list Out)) :
  fresh_directory dbname env -> o_create_if_missing options = true -> Z.of_nat (session_files ss) + 4 < 2 ^ 31 -> zlen (session_ops ss) < 2 ^ 31 -> sessions env ss env' ->
  exists ops, spec_sessions [] ss ops /\
    exists size0, forall size cache, (size0 <= size)%nat -> new_cache cache -> exists d env1, opens size cache env' = Some (Ok d, env1) /\ vs_last_sequence (db_versions d) = zlen ops.
Proof.
  intros Hfresh Hcreate Hk Hn Hs. pose proof (zlen_nonneg (session_ops ss)). destruct (sessions_sim _ _ _ Hs [] 0%nat 0) as (ops & Hspec & size0 & Hopen); [apply holds_fresh; [done|done|lia|lia]|lia|].
  exists ops. split; [done|]. exists size0. intros size cache Hsz Hcache. destruct (Hopen size cache Hsz Hcache) as (d & env1 & g & Eo & HO). exists d, env1. split; [done|]. apply (da_last _ _ _ (ok_data _ _ _ _ _ _ _ HO)).
Qed.
End Sessions.

(** *** Witness: two sessions in memory *)

Section Demo.
Abbreviation DemoDB := (DBImpl MapFS MemFile MemFile (ShardedLRUCache Block) unit).
Abbreviation no_len := (fun _ : bytes => @None Z).
Abbreviation no_data := (fun _ : bytes => @None bytes).

Definition reads_steps : list Step := [StGet demo_ro None (lit "a"); StGet demo_ro None (lit "b")].
Definition reads_outs : list Out := [OutGet (Err (NotFound "deleted" "")); OutGet (Ok (Some (lit "2")))].

(** The writes of the first session are in the log when it is closed, and in no table. *)
Definition demo_close1 : DemoDB := default demo_none (fst <$> demo_run (take 12 demo_steps) demo_d0).
Definition demo_open2 : DemoDB := match reopened demo_close1 with Some (Ok d, _) => d | _ => demo_none end.
Definition demo_close2 : DemoDB := default demo_none (fst <$> demo_run reads_steps demo_open2).

Lemma demo_fit1 : memtables_fit (C := BytewiseComparator) (P := BloomPolicy 10) demo_db_options demo_close1.
Proof.
  assert (db_imm demo_close1 = None) as Ei by (vm_compute; reflexivity). intros mem [->|Em]; [|rewrite Ei in Em; discriminate Em]. exists 10%nat, demo_entries.
  split; [vm_compute; reflexivity|]. split; [exact demo_seqs|]. intros _. exact demo_fits.
Qed.

Lemma demo_fit2 : memtables_fit (C := BytewiseComparator) (P := BloomPolicy 10) demo_db_options demo_close2.
Proof.
  assert (db_imm demo_close2 = None) as Ei by (vm_compute; reflexivity). intros mem [->|Em]; [|rewrite Ei in Em; discriminate Em]. exists 10%nat, [].
  split; [vm_compute; reflexivity|]. split; [|intros Hne; destruct (Hne eq_refl)]. intros p v Hp. destruct (not_elem_of_nil (p, v) Hp).
Qed.

Lemma sessions_durable_witness :
  let ss := [(take 12 demo_steps, take 12 demo_outs); (reads_steps, reads_outs)] in
  exists env' ops, sessions (C := BytewiseComparator) (P := BloomPolicy 10) (E := MapFS) (W := MemFile) (SF := MemFile) (F := MemFile) (L := unit) (K := ShardedLRUCache Block) (Rnd := unit)
    no_len no_len no_data no_data (lit "db") demo_db_options demo_usage ∅ ss env' /\ spec_sessions [] ss ops.
Proof.
  intros ss. assert (PL : FilterPolicyLaws (BloomPolicy 10)) by (apply BloomLaws; lia).
  assert (sessions (C := BytewiseComparator) (P := BloomPolicy 10) (E := MapFS) (W := MemFile) (SF := MemFile) (F := MemFile) (L := unit) (K := ShardedLRUCache Block) (Rnd := unit)
    no_len no_len no_data no_data (lit "db") demo_db_options demo_usage ∅ ss (demo_close demo_close2)) as Hs.
  { assert (demo_run (take 12 demo_steps) demo_d0 = Some (demo_close1, take 12 demo_outs)) as E1 by (apply outputs_run; vm_compute; reflexivity).
    assert (demo_run reads_steps demo_open2 = Some (demo_close2, reads_outs)) as E2 by (apply outputs_run; vm_compute; reflexivity).
    assert (exists env1, demo_open = Some (Ok demo_d0, env1)) as [env1 O1].
    { assert (match demo_open with Some (Ok _, _) => true | _ => false end = true) as Ho by (vm_compute; reflexivity). unfold demo_d0. destruct demo_open as [[[d|s] env1]|]; [|discriminate Ho|discriminate Ho]. exists env1. reflexivity. }
    assert (exists env2, reopened demo_close1 = Some (Ok demo_open2, env2)) as [env2 O2].
    { assert (match reopened demo_close1 with Some (Ok _, _) => true | _ => false end = true) as Ho by (vm_compute; reflexivity). unfold demo_open2. destruct (reopened demo_close1) as [[[d|s] env2]|]; [|discriminate Ho|discriminate Ho]. exists env2. reflexivity. }
    unfold demo_open in O1. unfold reopened in O2. unfold demo_run in E1, E2.
    refine (one_session _ _ _ _ _ _ _ 50%nat demo_cache ∅ demo_d0 env1 (take 12 demo_steps) demo_close1 (take 12 demo_outs) _ _ demo_new_cache O1 _ E1 demo_fit1 _); [apply run_check_ok; vm_compute; reflexivity|].
    refine (one_session _ _ _ _ _ _ _ 5000%nat demo_cache _ demo_open2 env2 reads_steps demo_close2 reads_outs _ _ demo_new_cache O2 _ E2 demo_fit2 _); [apply run_check_ok; vm_compute; reflexivity|]. exact (no_session _ _ _ _ _ _ _ _). }
  destruct (sessions_durable (C := BytewiseComparator) (P := BloomPolicy 10) (E := MapFS) (W := MemFile) (SF := MemFile) (F := MemFile) (L := unit) no_len no_len no_data no_data BC_eq
    ltac:(vm_compute; reflexivity) (lit "db") demo_db_options ltac:(vm_compute; discriminate) demo_usage ∅ _ ss demo_fresh eq_refl ltac:(vm_compute; reflexivity) ltac:(vm_compute; reflexivity) Hs) as (ops & Hspec & _).
  exists (demo_close demo_close2), ops. exact (conj Hs Hspec).
Defined.
End Demo.
