(* ===== verification/DbLive.v ===== *)
(** * DbLive: a write does not wait for ever

    While a memtable is being written out the background thread is scheduled, and a
    turn of it frees the slot; then the writer at the front of the queue gets through
    in at most two rounds of [MakeRoomForWrite]. *)

From stdpp Require Import sorting fin_sets.
From S2P Require Import Prelude Random Status Coding Comparator Logging FilterPolicy DbFormat SkipList MemTable WriteBatch Env LogFile Format Iterator Block Merger FilterBlock.
From S2P Require Import TwoLevelIterator TableBuilder Cache Table VersionEdit FileName Children DBIter Version VersionRead VersionBuilder VersionSet Manifest Compaction.
From S2P Require Import TableCache MapFS Snapshot History Iterates TableFiles CompactionRun VersionChange CompactionWork DbImpl DbStep DbFiles DbData DbDisk DbQueue DbRefine DbOpen DbTheorems DbDurable.
From S2P Require Import MemTable.

Section Live.
Context (slen zstlen : bytes -> option Z) (sun zun : bytes -> option bytes).
Context {C : Comparator} {CL : ComparatorLaws C} (Heq : forall a b, ceq a b -> a = b) (Hname : zlen (lit (Name (Comparator := C))) < 2 ^ 32) {P : FilterPolicy} {PL : FilterPolicyLaws P}.
Context {E W SF F L : Type} {FS : FileSystem E W SF} {WF : WritableFile W} {WL : WritableFileLaws W} {HF : HandleFS E W} {FSL : FileSystemLaws E W SF}.
Context {QF : SequentialFile SF} {QL : SequentialFileLaws SF} {FR : FileReadLaws E W SF} {DF : DirectoryFS E L} {DL : DirectoryLaws E W SF L} {LL : ListingLaws E W SF L}.
Context {RFS : RandomAccessFS E F} {RF : RandomAccessFile F} {RL : RandomAccessFileLaws F} {FF : FileFrameLaws E W SF F}.
Context {K Hd : Type} {KC : Cache K Hd Block} {KL : CacheLaws K Hd Block} {KI : CacheIdLaws K Hd Block}.
Context {Rnd : Type} {US : UniformSource Rnd} (dbname : bytes) (options : Options) (Hri : 1 <= o_block_restart_interval options) (mem_usage : MemTable Rnd -> Z).

Abbreviation DB := (DBImpl E W F K Rnd).
Abbreviation exec := (exec (C := C) (P := P) slen zstlen sun zun dbname options mem_usage).
Abbreviation run := (run (C := C) (P := P) slen zstlen sun zun dbname options mem_usage).
Abbreviation legal_run := (legal_run (C := C) (P := P) slen zstlen sun zun dbname options mem_usage).
Abbreviation DbOk := (DbOk (C := C) (SF := SF) (L := L) (P := P) dbname options).

(** ** The background thread is scheduled while there is something to flush *)

Definition scheduled_ok (d : DB) : Prop := db_shutting_down d = false /\ (is_Some (db_imm d) -> db_bg_compaction_scheduled d = true).

(** What a step does to the three fields. *)
Definition keeps_schedule (d d' : DB) : Prop :=
  db_shutting_down d' = db_shutting_down d /\
  ((db_imm d' = db_imm d /\ (db_bg_compaction_scheduled d = true -> db_bg_compaction_scheduled d' = true)) \/ (db_shutting_down d = false -> db_bg_compaction_scheduled d' = true)).

Lemma keeps_schedule_ok (d d' : DB) : keeps_schedule d d' -> scheduled_ok d -> scheduled_ok d'.
Proof. intros [H1 [[H2 H3]|H2]] [H4 H5]; split; [congruence|intros Hi; rewrite H2 in Hi; auto|congruence|auto]. Qed.

Lemma maybe_schedule_keeps (d d' : DB) : db_shutting_down d' = db_shutting_down d -> keeps_schedule d (MaybeScheduleCompaction d').
Proof.
  intros Hs. unfold MaybeScheduleCompaction. destruct (db_bg_compaction_scheduled d') eqn:Eb; cbn [orb]; [split; [done|]; right; intros _; exact Eb|].
  destruct (db_shutting_down d') eqn:Es; cbn [orb].
  - split; [congruence|]. right. intros E0. congruence.
  - split; [cbn; congruence|]. right. done.
Qed.

Lemma keeps_schedule_refl (d d' : DB) : db_shutting_down d' = db_shutting_down d -> db_imm d' = db_imm d -> db_bg_compaction_scheduled d' = db_bg_compaction_scheduled d -> keeps_schedule d d'.
Proof. intros H1 H2 H3. split; [done|]. left. split; [done|]. by rewrite H3. Qed.

Lemma record_error_shutting (s : Status) (d : DB) : db_shutting_down (RecordBackgroundError s d) = db_shutting_down d.
Proof. unfold RecordBackgroundError. by destruct (ok _). Qed.

Lemma log_and_apply_shutting (edit : VersionEdit) (d : DB) : db_shutting_down (snd (log_and_apply (C := C) dbname edit d)) = db_shutting_down d.
Proof. unfold log_and_apply. destruct (LogAndApply dbname edit _ _) as [[[r e] vs] env]. cbn [snd]. destruct r; [done|]. by rewrite record_error_shutting. Qed.

Lemma run_compaction_shutting (fuel : nat) (sh : nat -> bool) (c : Compaction) (d d' : DB) (r : Result unit) :
  run_compaction (C := C) (P := P) slen zstlen sun zun dbname options fuel sh c d = Some (r, d') -> db_shutting_down d' = db_shutting_down d.
Proof.
  unfold run_compaction. destruct (DoCompactionWork _ _ _ _ _ _ _ _ _ _ _ _ _) as [[[[[status|s] c'] vs] tables]|]; [| |done]; intros [= <- <-]; [by rewrite log_and_apply_shutting|by rewrite record_error_shutting].
Qed.

Lemma background_shutting (fuel : nat) (sh : nat -> bool) (d d' : DB) :
  BackgroundCompaction (C := C) (P := P) slen zstlen sun zun dbname options fuel sh d = Some d' -> db_shutting_down d' = db_shutting_down d.
Proof.
  unfold BackgroundCompaction. destruct (db_imm d) as [imm|].
  - unfold CompactMemTable. destruct (NewFileNumber _) as [num vs]. destruct (BuildTable _ _ _ _ _ _ _ _ _ _ _) as [[[[u|s] meta] tables]|]; [| |done]; intros [= <-]; [|cbn; by rewrite record_error_shutting].
    destruct (0 <? _); cbn; [by rewrite log_and_apply_shutting|done].
  - destruct (db_manual d) as [m|].
    + destruct (db_manual_objects d !! m) as [mc|]; [|done]. unfold manual_step. destruct (CompactRange _ _ _ _ _) as [[c|] vs]; [|by intros [= <-]].
      destruct (run_compaction _ _ _ _ _ _ _ _ _ _) as [[[u|s] d1]|] eqn:Er; [| |done]; intros [= <-]; by apply run_compaction_shutting in Er.
    + unfold automatic_step. destruct (PickCompaction _ _) as [[c|] vs]; [|by intros [= <-]]. assert (forall r d1, run_compaction (C := C) (P := P) slen zstlen sun zun dbname options fuel sh c (set_files (db_tables d) vs d) = Some (r, d1) ->
        db_shutting_down d1 = db_shutting_down d) as Hrun by (intros r d1 Er; by apply run_compaction_shutting in Er).
      destruct (IsTrivialMove _ c); [destruct (c_inputs0 c) as [|f fs]|]; try (destruct (run_compaction _ _ _ _ _ _ _ _ _ _) as [[r d1]|] eqn:Er; [|done]; intros [= <-]; exact (Hrun r d1 eq_refl)). intros [= <-]. unfold trivial_move.
      pose proof (log_and_apply_shutting (AddFile (Z.of_nat (c_level c) + 1) (fm_number f) (fm_file_size f) (fm_smallest f) (fm_largest f) (RemoveFile (Z.of_nat (c_level c)) (fm_number f) (c_edit c))) (set_files (db_tables d) vs d)) as Hs.
      destruct (log_and_apply _ _ _) as [[u|s] d1]; exact Hs.
Qed.

(** Steps in which no destructor begins. *)
Definition stays_open (st : Step) : bool := match st with StBackground _ (Some _) => false | _ => true end.

Lemma exec_schedule (st : Step) (d d' : DB) (o : Out) : stays_open st = true -> exec st d = Some (d', o) -> keeps_schedule d d'.
Proof.
  destruct st as [id sync u| | |id|ro snapshot key| |p|key|m level b e|m|m|fuel stop]; cbn [DbStep.exec stays_open]; intros Hop Ex.
  - destruct (db_writer_objects d !! id); [done|]. injection Ex as <- <-. by apply keeps_schedule_refl.
  - destruct (db_writers d) as [|id ws]; [done|]. destruct (db_writer_objects d !! id) as [w|]; [|done]. cbn in Ex. destruct (room_flags w d) as [[force delay]|]; [|done]. cbn in Ex. injection Ex as Ex. replace d' with (fst (d', o)) by done. rewrite <- Ex.
    unfold front_step, room_step. destruct (negb (ok _)); [by apply keeps_schedule_refl|]. destruct (delay && _); [by apply keeps_schedule_refl|]. destruct (negb force && _).
    + unfold Write_group. destruct (dw_batch w) as [b|]; [|by apply keeps_schedule_refl]. destruct (BuildBatchGroup _ _ _ _) as [[wb of_tmp] lw]. cbn. destruct (log_batch _ _ _) as [[u|s] log]; [destruct (InsertInto _ _ _ _) as [mem ins]|]; apply keeps_schedule_refl; by destruct of_tmp.
    + destruct (db_imm d) as [imm|] eqn:Ei; [by apply keeps_schedule_refl|]. destruct (_ <=? _); [by apply keeps_schedule_refl|]. destruct (NewFileNumber _) as [num vs]. destruct (fs_NewWritableFile _ _) as [[lfile|s] env]; [|by apply keeps_schedule_refl].
      cbn [set_front fst]. match goal with |- keeps_schedule d (set_front _ (MaybeScheduleCompaction ?x)) => pose proof (maybe_schedule_keeps d x eq_refl) as Hk end.
      destruct Hk as [H1 H2]. split; [exact H1|]. exact H2.
  - destruct (db_writers d) as [|id ws]; [done|]. destruct (db_front d) as [|? ?|lw publish of_tmp s]; [done|done|]. unfold Write_finish in Ex. destruct (finish_loop _ _ _ _ _) as [objects writers]. injection Ex as <- <-.
    apply keeps_schedule_refl; by destruct publish, of_tmp.
  - destruct (db_writer_objects d !! id) as [w|]; [|done]. cbn in Ex. destruct (dw_done w); [|done]. injection Ex as <- <-. by apply keeps_schedule_refl.
  - unfold DBImpl_Get in Ex. cbv zeta in Ex. destruct (MemTable_Get C (db_mem d) _) as [[v|]|s]; [injection Ex as <- <-; by apply keeps_schedule_refl| |injection Ex as <- <-; by apply keeps_schedule_refl].
    destruct (match db_imm d with Some imm => _ | None => _ end) as [[v|]|s]; [injection Ex as <- <-; by apply keeps_schedule_refl| |injection Ex as <- <-; by apply keeps_schedule_refl].
    unfold get_from_version in Ex. cbv zeta in Ex. destruct (Version_Get _ _ _ _) as [[r stats] tables]. destruct (seek_file stats) as [f|]; [|injection Ex as <- <-; by apply keeps_schedule_refl].
    destruct (UpdateStats _ _ _) as [[b v] n]. injection Ex as <- <-. destruct b; [by apply maybe_schedule_keeps|by apply keeps_schedule_refl].
  - unfold GetSnapshot in Ex. destruct (sl_New _ _) as [p sl]. injection Ex as <- <-. by apply keeps_schedule_refl.
  - injection Ex as <- <-. by apply keeps_schedule_refl.
  - injection Ex as <- <-. unfold DBImpl_RecordReadSample. destruct (RecordReadSample _ _ _) as [[b v] n]. destruct b; [apply maybe_schedule_keeps; by destruct n as [[? ?]|]|destruct n as [[? ?]|]; by apply keeps_schedule_refl].
  - destruct (db_manual_objects d !! m); [done|]. injection Ex as <- <-. by apply keeps_schedule_refl.
  - unfold TEST_CompactRange_turn in Ex. destruct (db_manual_objects d !! m) as [mc|]; [|done]. destruct (_ || _); [done|]. injection Ex as <- <-. destruct (db_manual d); [by apply keeps_schedule_refl|by apply maybe_schedule_keeps].
  - destruct (TEST_CompactRange_turn m d); [done|]. injection Ex as <- <-. by apply keeps_schedule_refl.
  - unfold BackgroundCall in Ex. destruct (db_shutting_down d) eqn:Es; [injection Ex as <- <-; by apply keeps_schedule_refl|]. destruct (db_bg_compaction_scheduled d) eqn:Eb; [|injection Ex as <- <-; by apply keeps_schedule_refl].
    destruct (BackgroundCompaction _ _ _ _ _ _ _ _ d) as [d1|] eqn:E1; [|done]. injection Ex as <- <-. destruct stop; [done|]. apply maybe_schedule_keeps. exact (background_shutting _ _ _ _ E1).
Qed.

Lemma run_schedule (steps : list Step) (d d' : DB) (os : list Out) : forallb stays_open steps = true -> run steps d = Some (d', os) -> scheduled_ok d -> scheduled_ok d'.
Proof.
  revert d os. induction steps as [|st steps IH]; intros d os Hop Er Hs; cbn [DbStep.run] in Er; [by injection Er as <- <-|]. apply andb_true_iff in Hop as [Hop1 Hop2]. destruct (exec st d) as [[d1 o]|] eqn:Ex; [|done]. cbn in Er.
  destruct (run steps d1) as [[d2 os']|] eqn:Er'; [|done]. injection Er as <- <-. eapply IH; [exact Hop2|exact Er'|]. by eapply keeps_schedule_ok; [eapply exec_schedule|].
Qed.

Lemma open_scheduled (size : nat) (cache : option K) (env env' : E) (d : DB) : DB_Open (C := C) (P := P) slen zstlen sun zun dbname options size cache env = Some (Ok d, env') -> scheduled_ok d.
Proof.
  unfold DB_Open. destruct (DBImpl_Recover _ _ _ _ _ _ _ _ _) as [[[[u|s] vs] tables]|]; [|done|done]. destruct (NewFileNumber vs) as [num vs']. destruct (fs_NewWritableFile _ _) as [[lfile|s] env1]; [|done].
  intros [= <- _]. split; [done|]. by intros [? ?].
Qed.

(** ** The front writer gets through *)

Lemma run_cons (st : Step) (steps : list Step) (d d1 d2 : DB) (o : Out) (os : list Out) : exec st d = Some (d1, o) -> run steps d1 = Some (d2, os) -> run (st :: steps) d = Some (d2, o :: os).
Proof. intros E1 E2. cbn [DbStep.run]. rewrite E1. cbn [mbind option_bind]. by rewrite E2. Qed.

Definition waiting (id : Z) (d : DB) : Prop := (exists ws, db_writers d = id :: ws) /\ match db_front d with Writing _ _ _ _ => False | _ => True end.

(** [MakeRoomForWrite] would not sleep with these flags. *)
Definition no_delay (delay : bool) (d : DB) : Prop := delay && (kL0_SlowdownWritesTrigger <=? NumLevelFiles (db_versions d) 0) = false.

Lemma front_writer (d : DB) (a : Abs) (g : Ghost) (k : nat) (n id : Z) :
  DbOk d a g k n -> waiting id d -> exists w force delay, room_flags w d = Some (force, delay) /\ db_writer_objects d !! id = Some w /\ exec StRoom d = Some (front_step (C := C) dbname options mem_usage id w force delay d).
Proof.
  intros HO [[ws Ew] Hf]. pose proof (ok_queue _ _ _ _ _ _ _ HO) as HQ. pose proof (qu_writers _ _ _ _ _ HQ) as Eq. rewrite Ew in Eq. destruct (ab_queue a) as [|[x u] q] eqn:Ea; [done|]. injection Eq as <- ->.
  destruct (qu_objects _ _ _ _ _ HQ id u ltac:(by left)) as (w & Eo & _). assert (exists force delay, room_flags w d = Some (force, delay)) as (force & delay & Ef) by (unfold room_flags; destruct (db_front d); [by eexists _, _|by eexists _, _|done]).
  exists w, force, delay. split_and!; [done|done|]. cbn [DbStep.exec]. rewrite Ew, Eo. cbn [mbind option_bind]. by rewrite Ef.
Qed.

Lemma finish_now (d : DB) (a : Abs) (g : Ghost) (k : nat) (n id : Z) (ws : list Z) (lw : Z) (publish : option Z) (of_tmp : bool) (s : Status) :
  DbOk d a g k n -> db_writers d = id :: ws -> db_front d = Writing lw publish of_tmp s -> exists d1, exec StFinish d = Some (d1, OutWrite id (Ok tt)).
Proof.
  intros HO Ew Ef. pose proof (qu_front _ _ _ _ _ (ok_queue _ _ _ _ _ _ _ HO)) as Hfr. unfold front_ok in Hfr. rewrite Ef in Hfr. destruct Hfr as [-> _]. cbn [DbStep.exec]. rewrite Ew, Ef.
  unfold Write_finish. destruct (finish_loop _ _ _ _ _) as [objects writers]. by eexists.
Qed.

Lemma group_writes (id : Z) (w : DbWriter) (d : DB) :
  db_writers (Write_group (C := C) id w d) = db_writers d /\ exists lw publish of_tmp s, db_front (Write_group (C := C) id w d) = Writing lw publish of_tmp s.
Proof.
  unfold Write_group. destruct (dw_batch w) as [b|]; [|split; [done|by eexists _, _, _, _]]. destruct (BuildBatchGroup _ _ _ _) as [[wb of_tmp] lw]. destruct (log_batch _ _ _) as [[u|s] log]; [destruct (InsertInto _ _ _ _) as [mem ins]|];
    (split; [by destruct of_tmp|by eexists _, _, _, _]).
Qed.

(** There is room: one round and the group is published. *)
Lemma room_now (d : DB) (a : Abs) (g : Ghost) (k : nat) (n id : Z) (w : DbWriter) (delay : bool) :
  DbOk d a g (S k) n -> waiting id d -> db_writer_objects d !! id = Some w -> room_flags w d = Some (false, delay) -> no_delay delay d -> mem_usage (db_mem d) <= o_write_buffer_size options ->
  exists d1, run [StRoom; StFinish] d = Some (d1, [OutNone; OutWrite id (Ok tt)]).
Proof.
  intros HO Hw Eo Ef Hnd Hu. destruct (front_writer d a g (S k) n id HO Hw) as (w' & force & delay' & Ef' & Eo' & Ex). rewrite Eo in Eo'. injection Eo' as <-. rewrite Ef in Ef'. injection Ef' as <- <-.
  assert (front_step (C := C) dbname options mem_usage id w false delay d = (Write_group (C := C) id w d, OutNone)) as Es.
  { unfold front_step, room_step. rewrite (ok_error _ _ _ _ _ _ _ HO), Hnd, (proj2 (Z.leb_le _ _) Hu). done. }
  rewrite Es in Ex. destruct (room_sim slen zstlen sun zun dbname options mem_usage d a g k n _ _ HO Ex) as (g1 & _ & HO1). destruct Hw as [[ws Ew] _].
  destruct (group_writes id w d) as (Ew1 & lw & publish & of_tmp & s & Efr). rewrite Ew in Ew1. destruct (finish_now _ a g1 k n id ws lw publish of_tmp s HO1 Ew1 Efr) as (d1 & E1). exists d1. by do 2 (eapply run_cons; [eassumption|]).
Qed.

(** The memtable is full, or a new one is asked for: it is replaced first. *)
Lemma room_switch (d : DB) (a : Abs) (g : Ghost) (k : nat) (n id : Z) (w : DbWriter) (force delay : bool) :
  DbOk d a g (S (S k)) n -> waiting id d -> db_writer_objects d !! id = Some w -> room_flags w d = Some (force, delay) -> no_delay delay d -> db_imm d = None ->
  NumLevelFiles (db_versions d) 0 < kL0_StopWritesTrigger -> negb force && (mem_usage (db_mem d) <=? o_write_buffer_size options) = false -> mem_usage new_mem <= o_write_buffer_size options ->
  exists d1, run [StRoom; StRoom; StFinish] d = Some (d1, [OutNone; OutNone; OutWrite id (Ok tt)]).
Proof.
  intros HO Hw Eo Ef Hnd Hi Hl Hfull Hu. destruct (front_writer d a g (S (S k)) n id HO Hw) as (w' & force' & delay' & Ef' & Eo' & Ex). rewrite Eo in Eo'. injection Eo' as <-. rewrite Ef in Ef'. injection Ef' as <- <-.
  destruct (fs_NewWritableFile_spec (LogFileName dbname (vs_next_file_number (db_versions d))) (tc_env (db_tables d))) as (lfile & env & El & _).
  assert (exists d1, front_step (C := C) dbname options mem_usage id w force delay d = (set_front (MakingRoom false delay) d1, OutNone) /\ db_writers d1 = db_writers d /\ db_writer_objects d1 = db_writer_objects d /\ NumLevelFiles (db_versions d1) 0 = NumLevelFiles (db_versions d) 0 /\ db_mem d1 = new_mem) as (d1 & Es & E1 & E2 & E3 & E4).
  { unfold front_step, room_step. rewrite (ok_error _ _ _ _ _ _ _ HO), Hnd, Hfull, Hi, (proj2 (Z.leb_gt _ _) Hl). cbn [NewFileNumber]. rewrite El. eexists. split; [reflexivity|]. unfold MaybeScheduleCompaction. by destruct (_ || _). }
  rewrite Es in Ex. destruct (room_sim slen zstlen sun zun dbname options mem_usage d a g (S k) n _ _ HO Ex) as (g1 & _ & HO1). destruct Hw as [[ws Ew] _].
  destruct (room_now (set_front (MakingRoom false delay) d1) a g1 k n id w delay HO1) as (d2 & E5).
  - split; [exists ws; cbn; congruence|done].
  - cbn. congruence.
  - reflexivity.
  - unfold no_delay in *. cbn [set_front set_writers db_versions]. by rewrite E3.
  - cbn [set_front set_writers db_mem]. by rewrite E4.
  - exists d2. by eapply run_cons.
Qed.

(** With no memtable waiting to be written out, and fewer files at level 0 than stop
    the writes: a delay, a new memtable, the group. *)
Lemma front_completes (d : DB) (a : Abs) (g : Ghost) (k : nat) (n id : Z) :
  DbOk d a g (S (S (S k))) n -> waiting id d -> db_imm d = None -> NumLevelFiles (db_versions d) 0 < kL0_StopWritesTrigger -> mem_usage new_mem <= o_write_buffer_size options ->
  exists m d1, (1 <= m <= 3)%nat /\ run (replicate m StRoom ++ [StFinish]) d = Some (d1, replicate m OutNone ++ [OutWrite id (Ok tt)]).
Proof.
  intros HO Hw Hi Hl Hu.
  assert (forall d g w force delay, DbOk d a g (S (S k)) n -> waiting id d -> db_imm d = None -> NumLevelFiles (db_versions d) 0 < kL0_StopWritesTrigger -> db_writer_objects d !! id = Some w ->
    room_flags w d = Some (force, delay) -> no_delay delay d -> exists m d1, (1 <= m <= 2)%nat /\ run (replicate m StRoom ++ [StFinish]) d = Some (d1, replicate m OutNone ++ [OutWrite id (Ok tt)])) as Hgo.
  { clear d g HO Hw Hi Hl. intros d g w force delay HO Hw Hi Hl Eo Ef Hnd. destruct (negb force && (mem_usage (db_mem d) <=? o_write_buffer_size options)) eqn:Efull.
    - apply andb_true_iff in Efull as [Ef1 Ef2]. apply negb_true_iff in Ef1 as ->. apply Z.leb_le in Ef2.
      destruct (room_now d a g (S k) n id w delay HO Hw Eo Ef Hnd Ef2) as (d1 & E1). by exists 1%nat, d1; split; [lia|].
    - destruct (room_switch d a g k n id w force delay HO Hw Eo Ef Hnd Hi Hl Efull Hu) as (d1 & E1). by exists 2%nat, d1; split; [lia|]. }
  destruct (front_writer d a g _ n id HO Hw) as (w & force & delay & Ef & Eo & Ex). destruct (delay && (kL0_SlowdownWritesTrigger <=? NumLevelFiles (db_versions d) 0)) eqn:Edelay.
  - assert (front_step (C := C) dbname options mem_usage id w force delay d = (set_front (MakingRoom force false) d, OutNone)) as Es by (unfold front_step, room_step; by rewrite (ok_error _ _ _ _ _ _ _ HO), Edelay).
    rewrite Es in Ex. destruct (room_sim slen zstlen sun zun dbname options mem_usage d a g (S (S k)) n _ _ HO Ex) as (g1 & _ & HO1).
    destruct (Hgo _ g1 w force false HO1 (conj (proj1 Hw) I) Hi Hl Eo eq_refl eq_refl) as (m & d1 & Hm & E1). exists (S m), d1. split; [lia|]. by eapply run_cons.
  - assert (DbOk d a g (S (S k)) n) as HO1 by (eapply DbOk_less; [exact HO|lia|pose proof (ok_count _ _ _ _ _ _ _ HO); lia]).
    destruct (Hgo d g w force delay HO1 Hw Hi Hl Eo Ef Edelay) as (m & d1 & Hm & E1). exists m, d1. split; [lia|done].
Qed.

(** ** The background thread frees the slot *)

Lemma record_error_queue (s : Status) (d : DB) : db_writers (RecordBackgroundError s d) = db_writers d /\ db_front (RecordBackgroundError s d) = db_front d.
Proof. unfold RecordBackgroundError. by destruct (ok _). Qed.

Lemma log_and_apply_queue (edit : VersionEdit) (d : DB) :
  db_writers (snd (log_and_apply (C := C) dbname edit d)) = db_writers d /\ db_front (snd (log_and_apply (C := C) dbname edit d)) = db_front d.
Proof. unfold log_and_apply. destruct (LogAndApply dbname edit _ _) as [[[r e] vs] env]. cbn [snd]. destruct r; [done|]. apply (record_error_queue s (set_files (set_env env (db_tables d)) vs d)). Qed.

Lemma flush_frees (fuel : nat) (d : DB) (a : Abs) (g : Ghost) (k : nat) (n id : Z) :
  DbOk d a g (S k) n -> scheduled_ok d -> is_Some (db_imm d) -> background_fits (C := C) (P := P) slen zstlen sun zun dbname options fuel None d -> waiting id d ->
  exists d1 g1, exec (StBackground fuel None) d = Some (d1, OutNone) /\ DbOk d1 a g1 k n /\ db_imm d1 = None /\ waiting id d1.
Proof.
  intros HO [Hs Hsch] Hi Hfit Hw. specialize (Hsch Hi). destruct (background_sim slen zstlen sun zun Heq Hname dbname options Hri mem_usage None fuel d a g k n HO) as (d1 & g1 & Ex & HO1); [by right; right|].
  exists d1, g1. split; [exact Ex|]. split; [exact HO1|]. destruct Hi as [imm Ei]. cbn [DbStep.exec] in Ex. unfold BackgroundCall, BackgroundCompaction in Ex. rewrite Hs, Hsch, Ei in Ex.
  destruct (CompactMemTable _ _ _ _ _ _ _ _ _) as [d2|] eqn:E2; [|done]. injection Ex as <-. assert (db_imm d2 = None /\ db_writers d2 = db_writers d /\ db_front d2 = db_front d) as (H1 & H2 & H3).
  { unfold CompactMemTable in E2. destruct (NewFileNumber _) as [num vs]. destruct (BuildTable _ _ _ _ _ _ _ _ _ _ _) as [[[[u|s] meta] tables]|]; [| |done]; injection E2 as <-; [destruct (0 <? _)|]; cbn [set_memtables db_imm db_writers db_front].
    - split; [done|]. apply (log_and_apply_queue _ (set_files tables vs d)).
    - done.
    - split; [done|]. apply (record_error_queue _ (set_files tables vs d)). }
  unfold MaybeScheduleCompaction, waiting. destruct (_ || _); cbn; rewrite H1, H2, H3; split; done.
Qed.

(** C3. A write does not wait for ever.  Open a new database and take any legal run in
    which no destructor begins; let [id] be the writer at the front of the queue,
    before its group is written.  If a memtable waits to be written out (what a full
    memtable waits for), and what it holds fits a table below 2^32 bytes, then the
    background thread is scheduled, its next turn succeeds and frees the slot, and the
    writer is still at the front.  Once the slot is free, and as long as level 0 has
    fewer files than stop the writes (12), at most three rounds of [MakeRoomForWrite]
    (a delay, a new memtable and log, and the write of the group) let the writer finish,
    and it succeeds.
    Legal is as in [database_refines]: keys and values below 2^32 bytes, tables below
    2^32 bytes, every compaction in the run keeps an entry, a turn of the background
    thread is one step, fewer than 2^31 steps and operations, and no I/O errors.  The option
    [write_buffer_size] is not below what an empty memtable uses (otherwise a new
    memtable is full at once). *)
Theorem write_completes (size : nat) (cache : option K) (env : E) (steps : list Step) :
  fresh_directory dbname env -> new_cache cache -> o_create_if_missing options = true -> (length (first_manifest (C := C) (W := W)) <= size)%nat ->
  Z.of_nat (length steps) + 8 < 2 ^ 31 -> zlen (all_ops steps) < 2 ^ 31 -> forallb stays_open steps = true -> mem_usage new_mem <= o_write_buffer_size options ->
  exists d env', DB_Open (C := C) (P := P) slen zstlen sun zun dbname options size cache env = Some (Ok d, env') /\
    forall d' os id fuel, legal_run steps d -> run steps d = Some (d', os) -> waiting id d' ->
      (is_Some (db_imm d') -> background_fits (C := C) (P := P) slen zstlen sun zun dbname options fuel None d') ->
      exists d1, run (if db_imm d' then [StBackground fuel None] else []) d' = Some (d1, if db_imm d' then [OutNone] else []) /\ db_imm d1 = None /\ waiting id d1 /\
        (NumLevelFiles (db_versions d1) 0 < kL0_StopWritesTrigger ->
         exists m d2, (1 <= m <= 3)%nat /\ run (replicate m StRoom ++ [StFinish]) d1 = Some (d2, replicate m OutNone ++ [OutWrite id (Ok tt)])).
Proof.
  intros Hfresh Hcache Hcreate Hsz Hk Hn Hop Hu. destruct (open_run slen zstlen sun zun Heq Hname dbname options Hri mem_usage size cache env steps 4 0 Hfresh Hcache Hcreate Hsz ltac:(lia) ltac:(lia) ltac:(lia)) as (d & env' & Eo & Hrun).
  exists d, env'. split; [exact Eo|]. intros d' os id fuel Hl Er Hw Hfit. destruct (Hrun d' os Hl Er) as (a & g & _ & HO). assert (scheduled_ok d') as Hs by (eapply run_schedule; [exact Hop|exact Er|exact (open_scheduled size cache env env' d Eo)]).
  assert (exists d1 g1, run (if db_imm d' then [StBackground fuel None] else []) d' = Some (d1, if db_imm d' then [OutNone] else []) /\ DbOk d1 a g1 3 0 /\ db_imm d1 = None /\ waiting id d1) as (d1 & g1 & E1 & HO1 & Hi1 & Hw1).
  { destruct (db_imm d') as [imm|] eqn:Ei.
    - destruct (flush_frees fuel d' a g 3 0 id HO Hs) as (d1 & g1 & E1 & H1); [by rewrite Ei|by apply Hfit|exact Hw|]. exists d1, g1. split; [by eapply run_cons|exact H1].
    - exists d', g. split_and!; [done| |done|done]. eapply DbOk_less; [exact HO|lia|lia]. }
  exists d1. split_and!; [exact E1|exact Hi1|exact Hw1|]. intros Hl0. exact (front_completes d1 a g1 0 0 id HO1 Hw1 Hi1 Hl0 Hu).
Qed.

(** ** A writer that nobody wakes *)

(** The front writer needs a new memtable. *)
Definition needs_memtable (id : Z) (d : DB) : Prop :=
  exists ws w, db_writers d = id :: ws /\ db_writer_objects d !! id = Some w /\ dw_done w = false /\
    exists force delay, room_flags w d = Some (force, delay) /\ negb force && (mem_usage (db_mem d) <=? o_write_buffer_size options) = false.

(** No memtable is being written out, level 0 is full, and the background thread is not
    scheduled. *)
Definition idle (d : DB) : Prop :=
  db_imm d = None /\ kL0_StopWritesTrigger <= NumLevelFiles (db_versions d) 0 /\ db_bg_compaction_scheduled d = false /\ db_shutting_down d = false /\ ok (db_bg_error d) = true.

Definition stalled (id : Z) (d : DB) : Prop := needs_memtable id d /\ idle d.

(** Steps that do not schedule the background thread by themselves. *)
Definition quiet (st : Step) : bool := match st with StGet _ _ _ | StSample _ | StManualTurn _ => false | _ => true end.

Lemma stalled_room (id : Z) (d d' : DB) (o : Out) : stalled id d -> exec StRoom d = Some (d', o) -> o = OutNone /\ stalled id d'.
Proof.
  intros ((ws & w & Ew & Eo & Edn & force & delay & Ef & Hfull) & Hrest) Ex. pose proof Hrest as (Ei & Hl & _ & _ & Hok). cbn [DbStep.exec] in Ex. rewrite Ew, Eo in Ex. cbn [mbind option_bind] in Ex. rewrite Ef in Ex.
  cbn [mbind option_bind] in Ex. injection Ex as Ex. unfold front_step, room_step in Ex. rewrite Hok, Hfull, Ei, (proj2 (Z.leb_le _ _) Hl) in Ex. cbn [negb] in Ex.
  assert (forall delay', stalled id (set_front (MakingRoom force delay') d)) as Hst.
  { intros delay'. split; [|exact Hrest]. exists ws, w. split; [exact Ew|]. split; [exact Eo|]. split; [exact Edn|]. by exists force, delay'. }
  destruct (delay && _); injection Ex as <- <-; (split; [done|apply Hst]).
Qed.

Lemma exec_stalled (id : Z) (st : Step) (d d' : DB) (o : Out) : quiet st = true -> stalled id d -> exec st d = Some (d', o) -> stalled id d' /\ forall r, o <> OutWrite id r.
Proof.
  intros Hq Hst Ex. pose proof Hst as ((ws & w & Ew & Eo & Edn & force & delay & Ef & Hfull) & Hrest).
  destruct st as [x sync u| | |x|ro snapshot key| |p|key|m level b e|m|m|fuel stop]; cbn [DbStep.exec quiet] in *; try done.
  - destruct (db_writer_objects d !! x) eqn:Ex1; [done|]. injection Ex as <- <-. split; [|done]. split; [|exact Hrest]. exists (ws ++ [x]), w. cbn [Write_enqueue set_writers db_writers db_writer_objects].
    rewrite Ew, lookup_insert_ne by congruence. split_and!; [done|done|done|]. by exists force, delay.
  - destruct (stalled_room id d d' o Hst Ex) as [-> Hst']. by split.
  - rewrite Ew in Ex. unfold room_flags in Ef. by destruct (db_front d).
  - destruct (db_writer_objects d !! x) as [w'|] eqn:Ex1; [|done]. cbn [mbind option_bind] in Ex. destruct (dw_done w') eqn:Ed'; [|done]. assert (x <> id) as Hne by congruence. injection Ex as <- <-.
    split; [|congruence]. split; [|exact Hrest]. exists ws, w. cbn [set_writers db_writers db_writer_objects]. rewrite lookup_delete_ne by done. split_and!; [done|done|done|]. by exists force, delay.
  - unfold GetSnapshot in Ex. destruct (sl_New _ _) as [p sl]. injection Ex as <- <-. by split.
  - injection Ex as <- <-. by split.
  - destruct (db_manual_objects d !! m); [done|]. injection Ex as <- <-. by split.
  - destruct (TEST_CompactRange_turn m d); [done|]. injection Ex as <- <-. by split.
  - unfold BackgroundCall in Ex. destruct Hrest as (_ & _ & Hb & Hs & _). rewrite Hs, Hb in Ex. injection Ex as <- <-. by split.
Qed.

Lemma run_stalled (id : Z) (steps : list Step) (d d' : DB) (os : list Out) :
  stalled id d -> forallb quiet steps = true -> run steps d = Some (d', os) -> stalled id d' /\ forall r, OutWrite id r ∉ os.
Proof.
  revert d os. induction steps as [|st steps IH]; intros d os Hst Hq Er; cbn [DbStep.run forallb] in *; [injection Er as <- <-; split; [done|]; intros r; apply not_elem_of_nil|].
  apply andb_true_iff in Hq as [Hq1 Hq2]. destruct (exec st d) as [[d1 o]|] eqn:Ex; [|done]. cbn [mbind option_bind] in Er. destruct (run steps d1) as [[d2 os']|] eqn:Er'; [|done]. injection Er as <- <-.
  destruct (exec_stalled id st d d1 o Hq1 Hst Ex) as [Hst1 Ho]. destruct (IH d1 os' Hst1 Hq2 Er') as [Hst2 Hos]. split; [done|]. intros r [Hin|Hin]%elem_of_cons; [by eapply Ho|by eapply Hos].
Qed.

(** A full level 0 keeps the memtable, and nothing schedules the background thread. *)
Lemma group_idle (id : Z) (w : DbWriter) (d : DB) : idle d -> idle (Write_group (C := C) id w d).
Proof.
  intros Hi. unfold Write_group. destruct (dw_batch w) as [b|]; [|exact Hi]. destruct (BuildBatchGroup _ _ _ _) as [[wb of_tmp] lw]. destruct (log_batch _ _ _) as [[u|s] log]; [destruct (InsertInto _ _ _ _) as [mem ins]|]; by destruct of_tmp.
Qed.

Lemma room_idle (id : Z) (w : DbWriter) (force delay : bool) (d : DB) : idle d -> idle (fst (front_step (C := C) dbname options mem_usage id w force delay d)).
Proof.
  intros Hi. pose proof Hi as (Ei & Hl & _ & _ & Hok). unfold front_step, room_step. rewrite Hok. cbn [negb]. destruct (delay && _); [exact Hi|]. destruct (negb force && _); [by apply group_idle|].
  rewrite Ei, (proj2 (Z.leb_le _ _) Hl). exact Hi.
Qed.

Lemma exec_idle (st : Step) (d d' : DB) (o : Out) : quiet st = true -> idle d -> exec st d = Some (d', o) -> idle d'.
Proof.
  intros Hq Hi Ex. destruct st as [x sync u| | |x|ro snapshot key| |p|key|m level b e|m|m|fuel stop]; cbn [DbStep.exec quiet] in *; try done.
  - destruct (db_writer_objects d !! x); [done|]. by injection Ex as <- <-.
  - destruct (db_writers d) as [|id ws]; [done|]. destruct (db_writer_objects d !! id) as [w|]; [|done]. cbn [mbind option_bind] in Ex. destruct (room_flags w d) as [[force delay]|]; [|done]. cbn [mbind option_bind] in Ex.
    injection Ex as Ex. pose proof (room_idle id w force delay d Hi) as H. by rewrite Ex in H.
  - destruct (db_writers d) as [|id ws]; [done|]. destruct (db_front d) as [|? ?|lw publish of_tmp s]; [done|done|]. unfold Write_finish in Ex. destruct (finish_loop _ _ _ _ _) as [objects writers]. injection Ex as <- <-. by destruct publish, of_tmp.
  - destruct (db_writer_objects d !! x) as [w|]; [|done]. cbn [mbind option_bind] in Ex. destruct (dw_done w); [|done]. by injection Ex as <- <-.
  - unfold GetSnapshot in Ex. destruct (sl_New _ _) as [p sl]. by injection Ex as <- <-.
  - by injection Ex as <- <-.
  - destruct (db_manual_objects d !! m); [done|]. by injection Ex as <- <-.
  - destruct (TEST_CompactRange_turn m d); [done|]. by injection Ex as <- <-.
  - unfold BackgroundCall in Ex. pose proof Hi as (_ & _ & Hb & Hs & _). rewrite Hs, Hb in Ex. by injection Ex as <- <-.
Qed.

Lemma run_idle (steps : list Step) (d d' : DB) (os : list Out) : idle d -> forallb quiet steps = true -> run steps d = Some (d', os) -> idle d'.
Proof.
  revert d os. induction steps as [|st steps IH]; intros d os Hi Hq Er; cbn [DbStep.run forallb] in *; [by injection Er as <- <-|]. apply andb_true_iff in Hq as [Hq1 Hq2].
  destruct (exec st d) as [[d1 o]|] eqn:Ex; [|done]. cbn [mbind option_bind] in Er. destruct (run steps d1) as [[d2 os']|] eqn:Er'; [|done]. injection Er as <- <-. eapply IH; [by eapply exec_idle|done|done].
Qed.

(** [DB::Open] leaves the background thread unscheduled, whatever the version needs. *)
Lemma open_idle (size : nat) (cache : option K) (env env' : E) (d : DB) :
  DB_Open (C := C) (P := P) slen zstlen sun zun dbname options size cache env = Some (Ok d, env') -> kL0_StopWritesTrigger <= NumLevelFiles (db_versions d) 0 -> idle d.
Proof.
  unfold DB_Open. destruct (DBImpl_Recover _ _ _ _ _ _ _ _ _) as [[[[u|s] vs] tables]|]; [|done|done]. destruct (NewFileNumber vs) as [num vs']. destruct (fs_NewWritableFile _ _) as [[lfile|s] env1]; [|done].
  intros [= <- _] Hl. split_and!; [done|exact Hl|done|done|done].
Qed.

(** C13. A writer can wait for ever after the database was opened.  [DB::Open] does not
    schedule the background thread, whatever the recovered version needs.  Open any
    directory whose version has twelve files or more at level 0, and let writers,
    snapshots, manual compactions that begin or end and the background thread take any
    steps.  As soon as the front writer needs a new memtable, because the memtable is
    full or its batch is null, it waits for the background thread, which waits to be
    scheduled: whatever these threads do from then on, the writer does not return and
    nothing changes about this.  Only a read whose seeks are used up, a read sample or
    the turn of a manual compaction schedules the background thread, and these steps
    are not among those considered. *)
Theorem unscheduled_writer_stalls (size : nat) (cache : option K) (env env' : E) (id : Z) (steps1 steps2 : list Step) (d d1 d2 : DB) (os1 os2 : list Out) :
  DB_Open (C := C) (P := P) slen zstlen sun zun dbname options size cache env = Some (Ok d, env') -> kL0_StopWritesTrigger <= NumLevelFiles (db_versions d) 0 ->
  forallb quiet (steps1 ++ steps2) = true -> run steps1 d = Some (d1, os1) -> needs_memtable id d1 -> run steps2 d1 = Some (d2, os2) ->
  (forall r, OutWrite id r ∉ os2) /\ needs_memtable id d2 /\ db_bg_compaction_scheduled d2 = false.
Proof.
  intros Eo Hl Hq Er1 Hn Er2. rewrite forallb_app in Hq. apply andb_true_iff in Hq as [Hq1 Hq2]. pose proof (run_idle steps1 d d1 os1 (open_idle size cache env env' d Eo Hl) Hq1 Er1) as Hi.
  destruct (run_stalled id steps2 d1 d2 os2 (conj Hn Hi) Hq2 Er2) as [[Hn2 Hi2] Hos]. split_and!; [exact Hos|exact Hn2|apply Hi2].
Qed.
End Live.

(** ** The memtable is full and the writer waits *)

Section LiveDemo.
Abbreviation BC := BytewiseComparator.
Abbreviation bloom := (BloomPolicy 10).
Abbreviation no_len := (fun _ : bytes => @None Z).
Abbreviation no_data := (fun _ : bytes => @None bytes).
Abbreviation DemoDB := (DBImpl MapFS MemFile MemFile (ShardedLRUCache Block) unit).

(** The writer 4 made the memtable immutable; it is to write its (null) batch. *)
Definition demo_wait : DemoDB := default demo_none (fst <$> demo_run (take 14 demo_steps) demo_d0).

(** The state after the next turn of the background thread. *)
Definition demo_freed : DemoDB := default demo_none (fst <$> demo_run [StBackground 10 None] demo_wait).

Lemma demo_wait_run : demo_run (take 14 demo_steps) demo_d0 = Some (demo_wait, take 14 demo_outs).
Proof. apply outputs_run. vm_compute. reflexivity. Qed.

Lemma demo_waiting : waiting 4 demo_wait.
Proof. split; [exists []; vm_compute; reflexivity|]. assert (match db_front demo_wait with Writing _ _ _ _ => false | _ => true end = true) as Hf by (vm_compute; reflexivity). by destruct (db_front demo_wait). Qed.

Lemma demo_wait_fits : background_fits (C := BC) (P := bloom) (E := MapFS) (W := MemFile) (F := MemFile) no_len no_len no_data no_data (lit "db") demo_db_options 10 None demo_wait.
Proof.
  unfold background_fits.
  assert (match db_imm demo_wait with Some imm => scan_list (H := MemTableIterator_iter (C := BC)) 10 (MemTable_NewIterator imm) | None => None end = Some (internal_entries demo_entries)) as Es by (vm_compute; reflexivity).
  destruct (db_imm demo_wait) as [imm|]; [|discriminate Es]. exists demo_entries. split_and!; [exact Es|exact demo_seqs|exact demo_fits].
Qed.

Lemma write_completes_witness :
  exists m d2, (1 <= m <= 3)%nat /\ demo_run [StBackground 10 None] demo_wait = Some (demo_freed, [OutNone]) /\
    demo_run (replicate m StRoom ++ [StFinish]) demo_freed = Some (d2, replicate m OutNone ++ [OutWrite 4 (Ok tt)]).
Proof.
  assert (PL : FilterPolicyLaws bloom) by (apply BloomLaws; lia).
  destruct (write_completes (C := BC) (P := bloom) (E := MapFS) (W := MemFile) (SF := MemFile) (F := MemFile) (L := unit) no_len no_len no_data no_data BC_eq ltac:(vm_compute; reflexivity) (lit "db") demo_db_options
    ltac:(vm_compute; discriminate) demo_usage 50 demo_cache ∅ (take 14 demo_steps) demo_fresh demo_new_cache eq_refl ltac:(apply Nat.leb_le; vm_compute; reflexivity) ltac:(vm_compute; reflexivity) ltac:(vm_compute; reflexivity) eq_refl ltac:(vm_compute; discriminate))
    as (d & env' & Eo & Hrun).
  assert (d = demo_d0) as -> by (unfold demo_d0, demo_open; by rewrite Eo).
  destruct (Hrun demo_wait (take 14 demo_outs) 4 10%nat ltac:(apply run_check_ok; vm_compute; reflexivity) demo_wait_run demo_waiting (fun _ => demo_wait_fits)) as (d1 & E1 & _ & _ & Hgo).
  assert (bool_decide (is_Some (db_imm demo_wait)) = true) as Hi%bool_decide_eq_true by (vm_compute; reflexivity). destruct Hi as [imm Ei]. rewrite Ei in E1.
  assert (d1 = demo_freed) as -> by (unfold demo_freed, demo_run; by rewrite E1).
  destruct (Hgo ltac:(vm_compute; reflexivity)) as (m & d2 & Hm & E2). exists m, d2. exact (conj Hm (conj E1 E2)).
Defined.

(** A short session: one value is put and the database is closed and opened again.
    From eight files at level 0 on, the write is delayed once. *)
Definition session_steps (d : DemoDB) : list Step :=
  StWrite 1 true (Some [OpPut (lit "a") (lit "1")]) :: (if kL0_SlowdownWritesTrigger <=? NumLevelFiles (db_versions d) 0 then [StRoom] else []) ++ [StRoom; StFinish].

Definition session (d : DemoDB) : DemoDB :=
  match demo_run (session_steps d) d with
  | Some (d, _) => match reopened d with Some (Ok d, _) => d | _ => demo_none end
  | None => demo_none
  end.

(** The directory that the twelfth session leaves. *)
Definition last_session : DemoDB := default demo_none (fst <$> demo_run (session_steps (Nat.iter 11 session demo_d0)) (Nat.iter 11 session demo_d0)).

Abbreviation dopen := (DB_Open (C := BC) (P := bloom) (E := MapFS) (W := MemFile) (SF := MemFile) (F := MemFile) (L := unit) no_len no_len no_data no_data (lit "db") demo_db_options).
Abbreviation drun := (run (C := BC) (P := bloom) (E := MapFS) (W := MemFile) (SF := MemFile) (F := MemFile) no_len no_len no_data no_data (lit "db") demo_db_options demo_usage).

Definition needs_check (id : Z) (d : DemoDB) : bool :=
  match db_writers d with
  | x :: _ =>
      (x =? id) &&
      match db_writer_objects d !! id with
      | Some w => negb (dw_done w) && match room_flags w d with Some (force, _) => negb (negb force && (demo_usage (db_mem d) <=? o_write_buffer_size demo_db_options)) | None => false end
      | None => false
      end
  | [] => false
  end.

Lemma needs_check_ok (id : Z) (d : DemoDB) : needs_check id d = true -> needs_memtable demo_db_options demo_usage id d.
Proof.
  unfold needs_check, needs_memtable. destruct (db_writers d) as [|x ws]; [discriminate|]. intros [->%Z.eqb_eq Hc]%andb_true_iff. destruct (db_writer_objects d !! id) as [w|]; [|discriminate].
  apply andb_true_iff in Hc as [Hd Hr]. destruct (room_flags w d) as [[force delay]|] eqn:Er; [|discriminate]. exists ws, w. split; [reflexivity|]. split; [reflexivity|]. split; [by apply negb_true_iff|].
  exists force, delay. split; [exact Er|]. by apply negb_true_iff.
Qed.

(** A null batch asks for a new memtable; then the writer tries again and again, and the
    background thread takes its turns. *)
Definition ask_steps : list Step := [StWrite 1 false None].
Definition stalled_steps : list Step := [StRoom; StBackground 10 None; StRoom; StSnapshot; StWrite 2 true (Some [OpDelete (lit "a")]); StBackground 10 None; StRoom].

Definition stalls_check (r : option (Result DemoDB * MapFS)) : bool :=
  match r with
  | Some (Ok d, _) =>
      (kL0_StopWritesTrigger <=? NumLevelFiles (db_versions d) 0) &&
      match drun ask_steps d with
      | Some (d1, _) => needs_check 1 d1 && match drun stalled_steps d1 with Some _ => true | None => false end
      | None => false
      end
  | _ => false
  end.

Lemma last_session_stalls : stalls_check (dopen 5000 demo_cache (demo_close last_session)) = true.
Proof. vm_compute. reflexivity. Qed.

Lemma unscheduled_writer_stalls_witness :
  exists d env' d1 os1 d2 os2, dopen 5000 demo_cache (demo_close last_session) = Some (Ok d, env') /\ drun ask_steps d = Some (d1, os1) /\ drun stalled_steps d1 = Some (d2, os2) /\
    needs_memtable demo_db_options demo_usage 1 d2 /\ forall r, OutWrite 1 r ∉ os2.
Proof.
  pose proof last_session_stalls as Hc. destruct (dopen 5000 demo_cache (demo_close last_session)) as [[[d|s] env']|] eqn:Eo; [|discriminate Hc|discriminate Hc].
  unfold stalls_check in Hc. apply andb_true_iff in Hc as [Hl%Z.leb_le Hc]. destruct (drun ask_steps d) as [[d1 os1]|] eqn:E1; [|discriminate Hc]. apply andb_true_iff in Hc as [Hn%needs_check_ok Hc].
  destruct (drun stalled_steps d1) as [[d2 os2]|] eqn:E2; [|discriminate Hc]. exists d, env', d1, os1, d2, os2.
  destruct (unscheduled_writer_stalls (C := BC) (P := bloom) (E := MapFS) (W := MemFile) (SF := MemFile) (F := MemFile) no_len no_len no_data no_data (lit "db") demo_db_options demo_usage
    5000 demo_cache (demo_close last_session) env' 1 ask_steps stalled_steps d d1 d2 os1 os2 Eo Hl eq_refl E1 Hn E2) as (H1 & H2 & _).
  exact (conj eq_refl (conj E1 (conj E2 (conj H2 H1)))).
Defined.
End LiveDemo.
