(* ===== verification/RepairSpec.v ===== *)
(** * RepairSpec: what a repair keeps ([db/repair.cc])

    On a directory whose logs and tables can be read, [RepairDB] keeps everything: the
    descriptor it writes is read back by [Recover], puts on level 0 one table for
    every table that was there and for every log that is not empty, with its key range,
    and its last sequence number is not below that of any entry ([repair_salvages]).
    What lookups then answer is another matter: the filters of the tables that were
    made do not match ([repair_hides_keys]), and level 0 is searched by file number,
    which need not follow the sequence numbers any more ([repair_reverts_values]). *)

From stdpp Require Import sorting fin_sets.
From S2P Require Import Prelude Random Status Coding Comparator Logging FilterPolicy DbFormat SkipList MemTable WriteBatch Env LogFile Format Iterator Block Merger FilterBlock.
From S2P Require Import TwoLevelIterator TableBuilder Cache Table VersionEdit FileName Children DBIter Version VersionRead VersionBuilder VersionSet Manifest Compaction.
From S2P Require Import Children TableCache MapFS Snapshot History Iterates TableFiles CompactionRun VersionChange CompactionWork DbImpl Repair DbStep DbFiles DbData DbDisk DbQueue DbRefine DbOpen DbTheorems DbDurable.
From S2P Require Import MemTable.
From Stdlib Require Import Sorting.Sorted.

(** ** File names *)

Lemma c_str_id (s : bytes) : Byte.x00 ∉ s -> c_str s = s.
Proof.
  induction s as [|c s IH]; intros Hs; [done|]. apply not_elem_of_cons in Hs as [Hc Hs]. cbn [c_str]. rewrite bool_decide_eq_false_2 by congruence. by rewrite IH.
Qed.

Lemma last_slash_none (s : bytes) : Byte.x2f ∉ s -> last_slash s = None.
Proof.
  induction s as [|c s IH]; intros Hs; [done|]. apply not_elem_of_cons in Hs as [Hc Hs]. cbn [last_slash]. rewrite IH by done. by rewrite bool_decide_eq_false_2 by congruence.
Qed.

Lemma last_slash_app (a b : bytes) : Byte.x2f ∉ b -> last_slash (a ++ Byte.x2f :: b) = Some (length a).
Proof.
  intros Hb. induction a as [|c a IH]; cbn [app last_slash length].
  - by rewrite last_slash_none, bool_decide_eq_true_2.
  - by rewrite IH.
Qed.

(** A file of the directory goes to [lost] with its name. *)
Lemma lost_name_spec (dbname x : bytes) : Byte.x00 ∉ dbname -> plain_name x -> lost_name (dbname ++ lit "/" ++ x) = dbname ++ lit "/" ++ lit "lost/" ++ x.
Proof.
  intros Hd [Hs Hz]. unfold lost_name, lost_dir. rewrite c_str_id.
  - change (lit "/" ++ x) with (Byte.x2f :: x). rewrite last_slash_app by done. rewrite take_app_length.
    assert (drop (S (length dbname)) (dbname ++ Byte.x2f :: x) = x) as -> by (rewrite drop_app_ge by lia; by replace (S (length dbname) - length dbname)%nat with 1%nat by lia). by rewrite <- !app_assoc.
  - rewrite !elem_of_app. intros [?|[H|?]]; [done| |done]. by apply list_elem_of_singleton in H.
Qed.

(** Names of the directory do not meet those under [lost]. *)
Lemma child_not_lost (dbname x y : bytes) : plain_name y -> dbname ++ lit "/" ++ y <> dbname ++ lit "/" ++ lit "lost/" ++ x.
Proof.
  intros [Hs _] E0. apply app_inv_head, app_inv_head in E0. apply Hs. rewrite E0, !elem_of_app. left. by apply list_elem_of_In; right; right; right; right; left.
Qed.

(** ** A builder without a filter does not use the policy *)

Section NoFilter.
Context {C : Comparator} {P P' : FilterPolicy} {W : Type} `{WritableFile W}.

Lemma Flush_no_filter (r : TableBuilder W) : tb_filter_block r = None -> Flush (P := P) r = Flush (P := P') r /\ tb_filter_block (Flush (P := P') r) = None.
Proof.
  intros Hr. unfold Flush. destruct (negb (tb_ok r)); [done|]. destruct (BlockBuilder_empty _); [done|]. destruct (WriteBlock (tb_data_block r) r) as [[handle block] r1] eqn:Ew.
  assert (tb_filter_block r1 = None) as H1.
  { unfold WriteBlock, WriteRawBlock in Ew. destruct (BlockBuilder_Finish _) as [b raw]. destruct (wf_Append raw (tb_file r)) as [s f]. destruct (is_ok s); [destruct (wf_Append _ f) as [s' f']; destruct (is_ok s')|]; by injection Ew as <- <- <-. }
  set (r2 := if tb_ok _ then _ else _). assert (tb_filter_block r2 = None) as H2.
  { unfold r2. destruct (tb_ok _); [|done]. destruct (wf_Flush _) as [s f]. done. }
  cbv zeta. by rewrite H2.
Qed.

Lemma Add_no_filter (key value : bytes) (r : TableBuilder W) :
  tb_filter_block r = None -> TableBuilder_Add (C := C) (P := P) key value r = TableBuilder_Add (C := C) (P := P') key value r /\ tb_filter_block (TableBuilder_Add (C := C) (P := P') key value r) = None.
Proof.
  intros Hr. unfold TableBuilder_Add. destruct (negb (tb_ok r)); [done|]. set (r1 := if tb_pending_index_entry r then _ else _).
  assert (tb_filter_block r1 = None) as H1 by (unfold r1; by destruct (tb_pending_index_entry r)). cbv zeta. rewrite H1. cbn [fmap option_fmap option_map].
  destruct (_ <=? _); [|done]. by apply Flush_no_filter.
Qed.

Lemma Finish_no_filter (r : TableBuilder W) : tb_filter_block r = None -> TableBuilder_Finish (C := C) (P := P) r = TableBuilder_Finish (C := C) (P := P') r.
Proof.
  intros Hr. destruct (Flush_no_filter r Hr) as [E H0]. unfold TableBuilder_Finish. rewrite E. set (r1 := set_closed _). assert (tb_filter_block r1 = None) as H1 by done.
  unfold finish_filter. rewrite H1. assert (forall h, finish_metaindex (P := P) h r1 = finish_metaindex (P := P') h r1) as Hm by (intros h; unfold finish_metaindex; by rewrite H1). by rewrite Hm.
Qed.

End NoFilter.

Section BuildNoFilter.
Context (slen zstlen : bytes -> option Z) (sun zun : bytes -> option bytes).
Context {C : Comparator} {P P' : FilterPolicy} {E W SF F : Type} `{FileSystem E W SF} `{WritableFile W} `{HandleFS E W} `{RandomAccessFS E F} `{RandomAccessFile F}.
Context {K Hd : Type} `{Cache K Hd Block} {S : Type} {HI : Iterator S} (dbname : bytes) (bopts : TableBuilderOptions) (topts : TableOptions).

Lemma build_loop_no_filter (fuel : nat) (iter : S) (key : bytes) (b : TableBuilder W) :
  tb_filter_block b = None ->
  build_loop (C := C) (P := P) fuel iter key b = build_loop (C := C) (P := P') fuel iter key b /\
  match build_loop (C := C) (P := P') fuel iter key b with Some (_, _, b') => tb_filter_block b' = None | None => True end.
Proof.
  revert iter key b. induction fuel as [|fuel IH]; intros iter key b Hb; cbn [build_loop]; destruct (it_Valid iter); try done.
  destruct (Add_no_filter (C := InternalKeyComparator C) (P := P) (P' := P') (it_key iter) (it_value iter) b Hb) as [E0 Hb']. rewrite E0. by apply IH.
Qed.

Lemma finish_table_no_filter (fname : bytes) (b : TableBuilder W) (s : TableCache E F K) :
  tb_filter_block b = None -> finish_table (C := C) (P := P) fname b s = finish_table (C := C) (P := P') fname b s.
Proof. intros Hb. unfold finish_table. by rewrite (Finish_no_filter (P := P) (P' := P') b Hb). Qed.

Lemma Open_no_filter (file : F) (size : Z) (cache : option K) :
  to_has_filter topts = false -> Table_Open (P := P) slen zstlen sun zun topts file size cache = Table_Open (P := P') slen zstlen sun zun topts file size cache.
Proof.
  intros Hf. unfold Table_Open. destruct (_ <? _); [done|]. cbv zeta. destruct (raf_Read _ _ _ ≫= _) as [[footer ib]|st]; [|done].
  destruct (match cache with Some _ => _ | None => _ end) as [id c]. unfold ReadMeta. cbn [t_options]. by rewrite Hf.
Qed.

Lemma BuildTable_no_filter (fuel : nat) (iter : S) (meta : FileMetaData) (s : TableCache E F K) :
  tbo_has_filter bopts = false -> to_has_filter topts = false ->
  BuildTable (C := C) (P := P) slen zstlen sun zun dbname bopts topts fuel iter meta s = BuildTable (C := C) (P := P') slen zstlen sun zun dbname bopts topts fuel iter meta s.
Proof.
  intros Hb Ht. unfold BuildTable. cbv zeta. destruct (it_Valid (it_SeekToFirst iter)); [|done].
  assert (write_table (C := C) (P := P) slen zstlen sun zun dbname bopts topts fuel (it_SeekToFirst iter) (mkFileMetaData (fm_allowed_seeks meta) (fm_number meta) 0 (fm_smallest meta) (fm_largest meta)) s =
    write_table (C := C) (P := P') slen zstlen sun zun dbname bopts topts fuel (it_SeekToFirst iter) (mkFileMetaData (fm_allowed_seeks meta) (fm_number meta) 0 (fm_smallest meta) (fm_largest meta)) s) as ->; [|done].
  unfold write_table. destruct (fs_NewWritableFile _ _) as [[file|st] env]; [|done].
  assert (newTableBuilder (P := P) bopts file = newTableBuilder (P := P') bopts file /\ tb_filter_block (newTableBuilder (P := P') bopts file) = None) as [-> Hnb] by (unfold newTableBuilder; by rewrite Hb).
  destruct (build_loop_no_filter fuel (it_SeekToFirst iter) [] _ Hnb) as [-> Hb']. destruct (build_loop _ _ _ _) as [[[iter' key] b]|]; [|done].
  rewrite (finish_table_no_filter _ b _ Hb'). destruct (finish_table _ _ _) as [[r size] s1]. destruct r as [[]|st]; [|done].
  assert (forall n sz, FindTable (P := P) slen zstlen sun zun dbname topts n sz s1 = FindTable (P := P') slen zstlen sun zun dbname topts n sz s1) as Ef.
  { intros n sz. unfold FindTable. destruct (tc_tables s1 !! n); [done|]. destruct (fs_NewRandomAccessFile _ _) as [[f|st] env']; [|done]. by rewrite Open_no_filter. }
  unfold tc_NewIterator. by rewrite Ef.
Qed.
End BuildNoFilter.

(** ** What the steps leave alone *)

Section Spec.
Context (slen zstlen : bytes -> option Z) (sun zun : bytes -> option bytes).
Context {C : Comparator} {CL : ComparatorLaws C} {P : FilterPolicy} {PL : FilterPolicyLaws P}.
Context {E W SF F L : Type} {FS : FileSystem E W SF} {WF : WritableFile W} {WL : WritableFileLaws W} {HF : HandleFS E W} {FSL : FileSystemLaws E W SF}.
Context {QF : SequentialFile SF} {QL : SequentialFileLaws SF} {FR : FileReadLaws E W SF} {DF : DirectoryFS E L}.
Context {RFS : RandomAccessFS E F} {RF : RandomAccessFile F} {RL : RandomAccessFileLaws F} {FF : FileFrameLaws E W SF F}.
Context {DFL : DirFrameLaws E W SF F L} {ZF : FileSizeFS E} {ZL : FileSizeLaws E F}.
Context {K Hd : Type} {KC : Cache K Hd Block} {KL : CacheLaws K Hd Block} {KI : CacheIdLaws K Hd Block}.
Context {Rnd : Type} {US : UniformSource Rnd} (dbname : bytes) (Hdb : Byte.x00 ∉ dbname) (options : Options).

Abbreviation IC := (InternalKeyComparator C).
Abbreviation IP := (InternalFilterPolicy P).
Abbreviation Rep := (Repairer E F K).
Abbreviation bopts := (builder_options options).
Abbreviation topts := (table_options options).
Abbreviation Store := (StoreOk (W := W) (F := F) (C := C) (P := P) dbname topts).
Abbreviation ondisk := (on_disk (W := W) (F := F) (C := C) (P := P) dbname).
Abbreviation child x := (dbname ++ lit "/" ++ x).
Abbreviation reads := (fs_reads (E := E) (W := W) (F := SF)).

Lemma ArchiveFile_env (fname : bytes) (r : Rep) :
  ArchiveFile fname r = set_rp_env (snd (fs_RenameFile fname (lost_name fname) (snd (fs_CreateDir (lost_dir fname) (rp_env r))))) r.
Proof. unfold ArchiveFile. destruct (fs_CreateDir _ _) as [c env1]. cbn [snd]. by destruct (fs_RenameFile _ _ _). Qed.

Lemma archive_reads (x y data : bytes) (r : Rep) : plain_name x -> plain_name y -> y <> x -> reads (rp_env r) (child y) data -> reads (rp_env (ArchiveFile (child x) r)) (child y) data.
Proof.
  intros Hx Hy Hne Hr. rewrite ArchiveFile_env. change (rp_env (set_rp_env ?e r)) with e. apply fs_RenameFile_reads_other; [by intros ?%child_inj|rewrite lost_name_spec by done; by apply child_not_lost|]. by apply fs_CreateDir_reads.
Qed.

Lemma archive_holds (x y data : bytes) (r : Rep) : plain_name x -> plain_name y -> y <> x -> fs_holds (rp_env r) (child y) data -> fs_holds (rp_env (ArchiveFile (child x) r)) (child y) data.
Proof.
  intros Hx Hy Hne Hr. rewrite ArchiveFile_env. change (rp_env (set_rp_env ?e r)) with e. apply fs_RenameFile_other; [by intros ?%child_inj|rewrite lost_name_spec by done; by apply child_not_lost|]. by apply fs_CreateDir_holds.
Qed.

(** A table that [ScanTable] can describe. *)
Definition table_ok (vs : versions) : Prop := vs <> [] /\ forall p v, (p, v) ∈ vs -> seq_ok (pik_sequence p) /\ zlen (pik_user_key p) + 8 < 2 ^ 32.

(** The tables of [disk] can be read, and their numbers are used up. *)
Record RepOk (ids : Z) (disk : gmap Z (Z * versions)) (r : Rep) : Prop := {
  ro_store : Store ids (rp_env r) disk (rp_table_cache r);
  ro_numbers : numbers_ok disk;
  ro_next : forall n x, disk !! n = Some x -> n < rp_next_file_number r;
  ro_tables : forall n size vs, disk !! n = Some (size, vs) -> table_ok vs
}.

Lemma archive_ok (x : bytes) (ids : Z) (disk : gmap Z (Z * versions)) (r : Rep) :
  plain_name x -> (forall n y, disk !! n = Some y -> numbered n ".ldb" <> x) -> RepOk ids disk r -> RepOk ids disk (ArchiveFile (child x) r).
Proof.
  intros Hx Hne [HS Hn Hnext Hok]. pose proof (ArchiveFile_env (child x) r) as Ea. split; [|done|by rewrite Ea|done].
  assert (rp_table_cache (ArchiveFile (child x) r) = set_env (rp_env (ArchiveFile (child x) r)) (rp_table_cache r)) as -> by (by rewrite Ea).
  apply (StoreOk_env dbname topts ids (rp_env r)); [done|]. intros n size vs Hdk. eapply on_disk_frame; [|by apply (so_disk _ _ _ _ _ _ HS)].
  intros data. rewrite table_child. apply archive_holds; [done|apply table_plain; by eapply Hn|by eapply Hne].
Qed.

(** ** Logs *)

Lemma convert_read_all (rs : list bytes) (n fuel : nat) (reader reader' : Reader SF) (mem : MemTable Rnd) (count max_sequence : Z) :
  read_all n fuel reader = (Some rs, reader') -> convert_loop (C := C) n fuel reader mem = Some (fst (fst (recover_records (C := C) rs (mem, count, max_sequence)))).
Proof.
  revert rs reader mem count max_sequence. induction n as [|n IH]; intros rs reader mem count max_sequence Hr; cbn [read_all] in Hr; [done|]. cbn [convert_loop].
  destruct (ReadRecord fuel reader) as [[r| |] reader1]; [|by injection Hr as <- <-|done]. destruct (read_all n fuel reader1) as [[rs1|] reader2] eqn:E1; [|done]. cbn in Hr. injection Hr as <- <-.
  unfold recover_records. cbn [fold_left]. assert (convert_record (C := C) r mem = fst (fst (recover_batch (C := C) r mem count max_sequence))) as ->.
  { unfold convert_record, recover_batch. destruct (_ <? _); [done|]. by destruct (InsertInto _ _ _ _) as [m [x|st]]. }
  destruct (recover_batch r mem count max_sequence) as [[mem1 count1] max1]. cbn [fst]. by apply IH.
Qed.

(** The batches [bs] were written to a log, the first one after the sequence number [b]. *)
Definition log_entries (l : Z * list (list WriteOp)) : list entry := batch_entries (fst l + 1) (concat (snd l)).

Record LogFileOk (size : nat) (env : E) (n : Z) (l : Z * list (list WriteOp)) : Prop := {
  lf_data : exists data o, reads env (LogFileName dbname n) data /\ Layout 0 (batch_records (fst l) (snd l)) data o /\ (length data <= size)%nat;
  lf_fits : Forall op_fits (concat (snd l));
  lf_start : 0 <= fst l /\ fst l + zlen (concat (snd l)) < 2 ^ 31;
  lf_table : forall D, D ≡ₚ map version_of (log_entries l) -> keys_sorted (C := IC) (internal_entries D) -> table_fits (C := C) (P := P) (W := W) bopts D
}.

(** The memtable of a log. *)
Lemma convert_log (size : nat) (env : E) (n : Z) (l : Z * list (list WriteOp)) (f : SF) (data : bytes) (o : Z) :
  LogFileOk size env n l -> sf_rest f = data -> Layout 0 (batch_records (fst l) (snd l)) data o -> (length data <= size)%nat ->
  exists mem es, convert_loop (C := C) (Rnd := Rnd) (S size) (S size) (newReader f true false 0) new_mem = Some mem /\ mem_repr (C := C) mem es /\ es ≡ₚ log_entries l.
Proof.
  intros [_ Hfits [Hb Hz] _] Hf HL Hsz. rewrite <- Hf in HL, Hsz. destruct (read_all_complete _ f _ true false size HL Hsz) as (reader' & Er).
  rewrite (convert_read_all _ _ _ _ _ _ 0 0 Er). destruct (recover_records_ok (C := C) (snd l) new_mem [] (fst l) 0 0) as (mem & es & E1 & Hm & Hes).
  { apply mem_repr_new. } { done. } { lia. } { lia. } { intros e He. by apply not_elem_of_nil in He. } { constructor. }
  rewrite E1. exists mem, es. split_and!; [done|done|]. by rewrite app_nil_r in Hes.
Qed.

(** The parts of the state that the conversion of the logs leaves alone. *)
Definition same_lists (r r' : Rep) : Prop :=
  rp_edit r' = rp_edit r /\ rp_manifests r' = rp_manifests r /\ rp_logs r' = rp_logs r /\ rp_tables r' = rp_tables r.

(** What one log adds. *)
Definition log_added (l : Z * list (list WriteOp)) (next : Z) (disk disk' : gmap Z (Z * versions)) (numbers numbers' : list Z) : Prop :=
  (log_entries l = [] /\ disk' = disk /\ numbers' = numbers) \/
  exists size D, D ≡ₚ map version_of (log_entries l) /\ disk !! next = None /\ disk' = <[next := (size, D)]> disk /\ numbers' = numbers ++ [next].

(** The names that the conversion of the log [n] to the table [next] touches. *)
Definition frame_of (n next : Z) (env env' : E) : Prop :=
  forall y data, plain_name y -> y <> numbered next ".ldb" -> y <> numbered n ".log" -> reads env (child y) data -> reads env' (child y) data.

Lemma log_table_ok (size : nat) (env : E) (n : Z) (l : Z * list (list WriteOp)) (D : versions) : LogFileOk size env n l -> D ≡ₚ map version_of (log_entries l) -> D <> [] -> table_ok D.
Proof.
  intros [_ Hfits [Hb Hz] _] HD Hne. split; [done|]. intros p v Hp. rewrite HD in Hp. apply list_elem_of_fmap in Hp as (e & Ee & He). unfold version_of in Ee. injection Ee as -> ->.
  assert (Forall op_wf (concat (snd l)) /\ Forall (fun op => zlen (op_key op) + 8 < 2 ^ 32) (concat (snd l))) as [Hwf Hk] by (by apply Forall_and). pose proof (zlen_nonneg (concat (snd l))).
  pose proof (batch_entries_wf (fst l + 1) _ Hwf Hk ltac:(lia) ltac:(change kMaxSequenceNumber with (2 ^ 56 - 1); lia)) as Hew. rewrite Forall_forall in Hew. by destruct (Hew e He) as (? & ? & _).
Qed.

Lemma remove_store (n : Z) (ids : Z) (disk : gmap Z (Z * versions)) (s : TableCache E F K) :
  Store ids (tc_env s) disk s -> numbers_ok disk -> disk !! n = None -> num_ok n -> Store ids (tc_env (remove_table (W := W) (SF := SF) (TableFileName dbname n) s)) disk (remove_table (W := W) (SF := SF) (TableFileName dbname n) s).
Proof.
  intros HS Hn Hno Hnum. apply (StoreOk_env dbname topts ids (tc_env s)); [done|]. apply (disk_frame (C := C) (P := P) dbname (tc_env s) _ disk n Hn Hno Hnum (so_disk _ _ _ _ _ _ HS)).
  intros name data Hne. by apply fs_RemoveFile_other.
Qed.

Lemma BuildTable_empty {S : Type} {HI : Iterator S} (Q : FilterPolicy) (fuel : nat) (iter : S) (meta : FileMetaData) (s : TableCache E F K) :
  scans [] iter -> BuildTable (C := C) (P := Q) slen zstlen sun zun dbname bopts topts fuel iter meta s =
    Some (Ok tt, mkFileMetaData (fm_allowed_seeks meta) (fm_number meta) 0 (fm_smallest meta) (fm_largest meta), remove_table (W := W) (SF := SF) (TableFileName dbname (fm_number meta)) s).
Proof.
  intros (R & c & HFw & HR). pose proof (fwd_first _ _ HFw _ _ HR) as HR1. unfold BuildTable. cbv zeta. rewrite (fwd_valid _ _ HFw _ _ HR1). change (cur_first []) with (@None nat). cbv iota.
  rewrite (fwd_status _ _ HFw _ _ HR1). done.
Qed.

Context (Hri : 1 <= o_block_restart_interval options) (Hnf : o_has_filter options = false).

(** One log is turned into a table, or into nothing when it is empty, and archived. *)
Lemma convert_step (size : nat) (ids n : Z) (disk : gmap Z (Z * versions)) (r : Rep) (l : Z * list (list WriteOp)) :
  RepOk ids disk r -> LogFileOk size (rp_env r) n l -> num_ok n -> 1 <= rp_next_file_number r -> rp_next_file_number r + 1 < 2 ^ 64 -> ids + 1 < 2 ^ 64 ->
  exists r' disk', ConvertLogToTable (C := C) (P := P) (Rnd := Rnd) slen zstlen sun zun dbname options size n r = Some (Ok tt, r') /\
    let r2 := ArchiveFile (LogFileName dbname n) r' in
    RepOk (ids + 1) disk' r2 /\ rp_next_file_number r2 = rp_next_file_number r + 1 /\ same_lists r r2 /\ frame_of n (rp_next_file_number r) (rp_env r) (rp_env r2) /\
    log_added l (rp_next_file_number r) disk disk' (rp_table_numbers r) (rp_table_numbers r2).
Proof.
  intros HR HLF Hn Hnext1 Hnext Hids. destruct (lf_data _ _ _ _ HLF) as (data & o & (f & Ef & Hf) & HL & Hsz). set (num := rp_next_file_number r) in *.
  assert (num_ok num) as Hnum by (unfold num_ok; lia). assert (disk !! num = None) as Hfresh.
  { destruct (disk !! num) as [x|] eqn:Ex; [|done]. apply (ro_next _ _ _ HR) in Ex. unfold num in Ex. lia. }
  unfold ConvertLogToTable. rewrite Ef. change (rp_env (set_rp_env (rp_env r) r)) with (rp_env r).
  destruct (convert_log size _ n l f data o HLF Hf HL Hsz) as (mem & es & -> & Hm & Hes). unfold take_number. cbn [set_next_number set_rp_env set_table_cache rp_next_file_number rp_table_cache]. fold num.
  rewrite wrap_small by lia. destruct (mem_scan mem es Hm) as (D & HD & Hsrt & Hscan). assert (D ≡ₚ map version_of (log_entries l)) as HDl by (by rewrite HD, Hes).
  pose proof (mem_repr_length mem es Hm) as Hlen. assert (length D = length es) as HlenD by (rewrite HD; apply length_map).
  rewrite (BuildTable_no_filter (P := P) (P' := IP) slen zstlen sun zun) by done. set (meta := mkFileMetaData default_allowed_seeks num 0 [] []). set (s0 := set_env (rp_env r) (rp_table_cache r)).
  assert (Store ids (rp_env r) disk s0) as HS0 by (apply (StoreOk_env dbname topts ids (rp_env r)); [apply HR|apply (so_disk _ _ _ _ _ _ (ro_store _ _ _ HR))]).
  assert (forall n' x, disk !! n' = Some x -> numbered n' ".ldb" <> numbered n ".log") as Harch by (intros n' x Hx; apply log_numbered_ne; [by eapply (ro_numbers _ _ _ HR)|done]).
  destruct D as [|[p v] D].
  - rewrite BuildTable_empty by done. cbn [fm_number fm_file_size fm_allowed_seeks fm_smallest fm_largest meta Z.ltb Z.compare andb result_status ok StatusOK].
    eexists _, disk. split; [reflexivity|]. cbv zeta. rewrite log_child. split_and!.
    + apply archive_ok; [by apply log_plain|done|]. split; [|apply HR| |apply HR].
      * eapply StoreOk_ids; [apply (remove_store num ids disk s0 HS0 (ro_numbers _ _ _ HR) Hfresh Hnum)|lia|lia].
      * intros n' x Hx. apply (ro_next _ _ _ HR) in Hx. cbn. unfold num. lia.
    + by rewrite ArchiveFile_env.
    + rewrite ArchiveFile_env. done.
    + intros y data' Hy Hy1 Hy2 Hr. apply archive_reads; [by apply log_plain|done|done|]. cbn. apply fs_RemoveFile_reads_other; [rewrite table_child; by intros ?%child_inj|done].
    + left. split_and!; [|done|by rewrite ArchiveFile_env]. apply Permutation_nil in HDl. by apply map_eq_nil in HDl.
  - destruct (BuildTable_written (C := C) (P := P) (W := W) slen zstlen sun zun dbname bopts topts Hri (length (heap mem)) ids (rp_env r) disk s0 meta (MemTable_NewIterator mem) p v D HS0 (ro_numbers _ _ _ HR) Hfresh Hnum Hids Hsrt)
      as (sz & env' & s' & -> & Hsize & HS' & (fw & Eenv)); [by apply (lf_table _ _ _ _ HLF)|done|lia|].
    cbn [fm_number fm_file_size fm_allowed_seeks fm_smallest fm_largest meta result_status]. change (ok StatusOK) with true. destruct (Z.ltb_spec 0 sz); [|lia]. cbn [andb].
    eexists _, (<[num := (sz, (p, v) :: D)]> disk). split; [reflexivity|]. cbv zeta. rewrite log_child. split_and!.
    + apply archive_ok; [by apply log_plain| |].
      * intros n' x [[<- _]|[_ Hx]]%lookup_insert_Some; [by apply log_numbered_ne|by eapply Harch].
      * assert (tc_env s' = env') as Es by apply HS'. split.
        -- rewrite <- Es in HS'. exact HS'.
        -- intros n' x [[<- _]|[_ Hx]]%lookup_insert_Some; [done|by eapply (ro_numbers _ _ _ HR)].
        -- intros n' x [[<- _]|[_ Hx]]%lookup_insert_Some; [cbn; lia|]. apply (ro_next _ _ _ HR) in Hx. cbn. unfold num. lia.
        -- intros n' sz' vs [[<- [= <- <-]]|[_ Hx]]%lookup_insert_Some; [by eapply log_table_ok|by eapply (ro_tables _ _ _ HR)].
    + by rewrite ArchiveFile_env.
    + rewrite ArchiveFile_env. done.
    + intros y data' Hy Hy1 Hy2 Hr. apply archive_reads; [by apply log_plain|done|done|]. assert (tc_env s' = env') as Es by apply HS'. enough (reads (tc_env s') (child y) data') by done. rewrite Es, Eenv.
      assert (child y <> TableFileName dbname num) by (rewrite table_child; by intros ?%child_inj). apply fs_Written_reads_other; [done|]. by apply fs_NewWritableFile_reads_other.
    + right. exists sz, ((p, v) :: D). split_and!; [done|done|done|by rewrite ArchiveFile_env].
Qed.

(** *** All the logs *)

Lemma LogFileOk_frame (size : nat) (n next m : Z) (env env' : E) (l : Z * list (list WriteOp)) :
  num_ok n -> num_ok m -> num_ok next -> m <> n -> frame_of n next env env' -> LogFileOk size env m l -> LogFileOk size env' m l.
Proof.
  intros Hn Hm Hnext Hne Hf [(data & o & Hr & HL & Hsz) ? ? ?]. split; [|done..]. exists data, o. split_and!; [|done|done]. rewrite log_child in *. apply Hf; [by apply log_plain| | |done].
  - intros E0. symmetry in E0. by apply log_numbered_ne in E0.
  - intros E0. apply log_numbered_inj in E0; done.
Qed.

(** Every entry of the tables. *)
Definition contents (disk : gmap Z (Z * versions)) : versions := concat (map (fun x => snd (snd x)) (map_to_list disk)).

Lemma contents_insert (n size : Z) (D : versions) (disk : gmap Z (Z * versions)) : disk !! n = None -> contents (<[n := (size, D)]> disk) ≡ₚ D ++ contents disk.
Proof. intros Hn. unfold contents. by rewrite (map_to_list_insert disk n (size, D) Hn). Qed.

Definition numbers_match (disk : gmap Z (Z * versions)) (numbers : list Z) : Prop := NoDup numbers /\ forall n, n ∈ numbers <-> is_Some (disk !! n).

Lemma log_added_match (l : Z * list (list WriteOp)) (next : Z) (disk disk' : gmap Z (Z * versions)) (numbers numbers' : list Z) :
  log_added l next disk disk' numbers numbers' -> numbers_match disk numbers ->
  numbers_match disk' numbers' /\ disk ⊆ disk' /\ contents disk' ≡ₚ contents disk ++ map version_of (log_entries l).
Proof.
  intros [(El & -> & ->)|(size & D & HD & Hn & -> & ->)] [Hnd Hm]; [by rewrite El, app_nil_r|]. split_and!; [|by apply insert_subseteq|by rewrite contents_insert, HD, (Permutation_app_comm (contents disk)) by done].
  split.
  - apply NoDup_app. split_and!; [done| |apply NoDup_singleton]. intros x Hx ->%list_elem_of_singleton. apply Hm in Hx as [? Hx]. congruence.
  - intros n. rewrite elem_of_app, list_elem_of_singleton, Hm. destruct (decide (n = next)) as [->|Hne]; [rewrite lookup_insert_eq; naive_solver|]. rewrite lookup_insert_ne by done. naive_solver.
Qed.

Lemma same_lists_trans (r1 r2 r3 : Rep) : same_lists r1 r2 -> same_lists r2 r3 -> same_lists r1 r3.
Proof. unfold same_lists. intros (-> & -> & -> & ->) (-> & -> & -> & ->). done. Qed.

Lemma convert_all (size : nat) (lg : Z -> Z * list (list WriteOp)) (logs : list Z) (ids : Z) (disk : gmap Z (Z * versions)) (r : Rep) :
  NoDup logs -> (forall n, n ∈ logs -> num_ok n /\ LogFileOk size (rp_env r) n (lg n)) -> RepOk ids disk r -> numbers_match disk (rp_table_numbers r) ->
  1 <= rp_next_file_number r -> rp_next_file_number r + zlen logs < 2 ^ 64 -> ids + zlen logs < 2 ^ 64 ->
  exists r' disk', ConvertLogFilesToTables (C := C) (P := P) (Rnd := Rnd) slen zstlen sun zun dbname options size logs r = Some r' /\
    RepOk (ids + zlen logs) disk' r' /\ numbers_match disk' (rp_table_numbers r') /\ rp_next_file_number r' = rp_next_file_number r + zlen logs /\ same_lists r r' /\ disk ⊆ disk' /\
    contents disk' ≡ₚ contents disk ++ concat (map (fun n => map version_of (log_entries (lg n))) logs).
Proof.
  intros Hnd. revert ids disk r. induction Hnd as [|n logs Hn Hnd IH]; intros ids disk r Hlogs HR Hm Hnext1 Hnext Hids.
  - exists r, disk. rewrite Z.add_0_r. cbn [ConvertLogFilesToTables map concat]. rewrite app_nil_r. split_and!; try done. cbn. by rewrite Z.add_0_r.
  - rewrite zlen_cons in *. pose proof (zlen_nonneg logs). destruct (Hlogs n ltac:(by left)) as [Hnum HLF].
    destruct (convert_step size ids n disk r (lg n) HR HLF Hnum Hnext1 ltac:(lia) ltac:(lia)) as (r1 & disk1 & E1 & HR1 & En1 & Hs1 & Hf1 & Ha1). set (r2 := ArchiveFile (LogFileName dbname n) r1) in *.
    destruct (log_added_match _ _ _ _ _ _ Ha1 Hm) as (Hm1 & Hsub1 & Hc1). destruct (IH (ids + 1) disk1 r2) as (r' & disk' & E' & HR' & Hm' & En' & Hs' & Hsub' & Hc').
    + intros m Hin. destruct (Hlogs m ltac:(by right)) as [Hmn HLFm]. split; [done|]. eapply (LogFileOk_frame size n (rp_next_file_number r) m); [done|done|unfold num_ok; lia|by intros ->|exact Hf1|done].
    + exact HR1.
    + exact Hm1.
    + lia.
    + lia.
    + lia.
    + exists r', disk'. cbn [ConvertLogFilesToTables]. rewrite E1. cbn [mbind option_bind]. fold r2. rewrite E'. split_and!; [done|by replace (ids + (1 + zlen logs)) with (ids + 1 + zlen logs) by lia|done|lia|by eapply same_lists_trans|by etransitivity|].
      cbn [map concat]. by rewrite Hc', Hc1, <- app_assoc.
Qed.

(** ** Tables *)

Lemma scan_loop_spec {I : Type} {HI : Iterator I} (kvs : entries) (R : I -> option nat -> Prop) (fuel i : nat) (iter : I) (st : bool * TableInfo) :
  FwdSim kvs R -> R iter (in_range kvs i) -> (length kvs - i <= fuel)%nat ->
  exists iter', scan_loop fuel iter st = Some (iter', fold_left (fun st kv => scan_key (fst kv) st) (drop i kvs) st) /\ it_status iter' = StatusOK.
Proof.
  intros HFw. revert i iter st. induction fuel as [|fuel IH]; intros i iter st HR Hlen; pose proof (scan_here kvs R iter i HFw HR) as Hh.
  - rewrite drop_ge in Hh |- * by lia. cbn [scan_loop fold_left]. rewrite Hh. exists iter. split; [done|]. by apply (fwd_status _ _ HFw _ _ HR).
  - destruct (drop i kvs) as [|kv rest] eqn:Ed.
    + cbn [scan_loop fold_left]. rewrite Hh. exists iter. split; [done|]. by apply (fwd_status _ _ HFw _ _ HR).
    + destruct Hh as (Hv & -> & Er & HR'). cbn [scan_loop fold_left fst]. rewrite Hv. rewrite Er. apply IH; [done|lia].
Qed.

(** The largest sequence number of some entries. *)
Definition max_seq (vs : versions) : Z := fold_left (fun m pv => Z.max m (pik_sequence (fst pv))) vs 0.

Lemma max_seq_le (vs : versions) (m : Z) : m <= fold_left (fun m pv => Z.max m (pik_sequence (fst pv))) vs m /\ forall p v, (p, v) ∈ vs -> pik_sequence p <= fold_left (fun m pv => Z.max m (pik_sequence (fst pv))) vs m.
Proof.
  revert m. induction vs as [|[q w] vs IH]; intros m; cbn [fold_left fst]; [split; [lia|by intros p v ?%not_elem_of_nil]|]. destruct (IH (Z.max m (pik_sequence q))) as [H1 H2].
  split; [lia|]. intros p v [[= -> ->]|Hp]%elem_of_cons; [lia|by eapply H2].
Qed.

Lemma max_seq_bound (vs : versions) (m b : Z) : m <= b -> (forall p v, (p, v) ∈ vs -> pik_sequence p <= b) -> fold_left (fun m pv => Z.max m (pik_sequence (fst pv))) vs m <= b.
Proof.
  revert m. induction vs as [|[q w] vs IH]; intros m Hm Hb; cbn [fold_left fst]; [done|]. apply IH; [|intros p v Hp; eapply Hb; by right]. specialize (Hb q w ltac:(by left)). lia.
Qed.

(** The record of a table with the entries [vs]. *)
Definition table_meta (n size : Z) (vs : versions) : FileMetaData :=
  mkFileMetaData default_allowed_seeks n size (match vs with pv :: _ => encode_key (fst pv) | [] => [] end) (match last vs with Some pv => encode_key (fst pv) | None => [] end).

Definition table_info (n size : Z) (vs : versions) : TableInfo := mkTableInfo (table_meta n size vs) (max_seq vs).

Lemma scan_keys (vs : versions) (m : FileMetaData) (s : Z) : (forall p v, (p, v) ∈ vs -> seq_ok (pik_sequence p)) ->
  fold_left (fun st kv => scan_key (fst kv) st) (internal_entries vs) (false, mkTableInfo m s) =
  (false, mkTableInfo (mkFileMetaData (fm_allowed_seeks m) (fm_number m) (fm_file_size m) (fm_smallest m) (match last vs with Some pv => encode_key (fst pv) | None => fm_largest m end))
            (fold_left (fun m pv => Z.max m (pik_sequence (fst pv))) vs s)).
Proof.
  revert m s. induction vs as [|[q w] vs IH]; intros m s Hs; [by destruct m|]. cbn [internal_entries map fold_left fst snd]. unfold scan_key at 2. rewrite ParseInternalKey_encode by (by eapply Hs; left).
  change (map _ vs) with (internal_entries vs). rewrite IH by (intros p v Hp; eapply Hs; by right). cbn [ti_meta ti_max_sequence fm_allowed_seeks fm_number fm_file_size fm_smallest fm_largest].
  assert ((if s <? pik_sequence q then pik_sequence q else s) = Z.max s (pik_sequence q)) as -> by (destruct (Z.ltb_spec s (pik_sequence q)); lia).
  destruct vs as [|pv vs]; [done|]. rewrite last_cons_cons. destruct (last (pv :: vs)) eqn:El; [done|]. by apply last_None in El.
Qed.

Lemma scan_table (n size : Z) (vs : versions) : table_ok vs ->
  snd (fold_left (fun st kv => scan_key (fst kv) st) (internal_entries vs) (true, mkTableInfo (mkFileMetaData default_allowed_seeks n size [] []) 0)) = table_info n size vs.
Proof.
  intros [Hne Hs]. destruct vs as [|[q w] vs]; [done|]. cbn [internal_entries map fold_left fst snd]. unfold scan_key at 2. rewrite ParseInternalKey_encode by (by eapply Hs; left).
  change (map _ vs) with (internal_entries vs). rewrite scan_keys by (intros p v Hp; eapply Hs; by right). cbn [snd ti_meta ti_max_sequence fm_allowed_seeks fm_number fm_file_size fm_smallest fm_largest].
  unfold table_info, table_meta, max_seq. cbn [fold_left fst]. assert ((if 0 <? pik_sequence q then pik_sequence q else 0) = Z.max 0 (pik_sequence q)) as -> by (destruct (Z.ltb_spec 0 (pik_sequence q)); lia).
  do 2 f_equal. destruct vs as [|pv vs]; [done|]. rewrite last_cons_cons. destruct (last (pv :: vs)) eqn:El; [done|]. by apply last_None in El.
Qed.

Lemma disk_size (env : E) (n size : Z) (vs : versions) : ondisk env n size vs -> fs_GetFileSize (TableFileName dbname n) env = Ok size.
Proof.
  intros Ho. destruct (on_disk_layout (C := C) (P := P) dbname env n size vs Ho) as (bo & blks & idx & file & Eo & HL & _ & ->). rewrite (fs_GetFileSize_spec _ env (raf_data file)) by (by exists file).
  by rewrite (lo_data _ _ _ _ HL).
Qed.

(** One table is described. *)
Lemma ScanTable_spec (fuel : nat) (ids n size : Z) (vs : versions) (disk : gmap Z (Z * versions)) (r : Rep) :
  RepOk ids disk r -> disk !! n = Some (size, vs) -> (length vs <= fuel)%nat ->
  exists tc, ScanTable (C := C) (P := P) slen zstlen sun zun dbname options fuel n r = Some (push_table (table_info n size vs) (set_table_cache tc r)) /\ Store ids (rp_env r) disk tc.
Proof.
  intros HR Hn Hfuel. pose proof (ro_store _ _ _ HR) as HS. unfold ScanTable. rewrite (disk_size _ _ _ _ (so_disk _ _ _ _ _ _ HS _ _ _ Hn)). cbv zeta. unfold NewTableIterator. cbn [ti_meta fm_number fm_file_size].
  change (tc_NewIterator (P := P) ?a ?b ?c ?d ?e ?f ?g ?h ?i ?j) with (tc_NewIterator (P := IP) a b c d e f g h i j).
  pose proof (table_iterates (W := W) (C := C) (P := P) slen zstlen sun zun dbname topts ids (rp_env r) disk (rp_table_cache r) (mkReadOptions (o_paranoid_checks options) true) n size vs HS Hn) as Hit.
  destruct (FindTable_spec (W := W) (C := C) (P := P) slen zstlen sun zun dbname topts ids (rp_env r) disk (rp_table_cache r) n size vs HS Hn) as (t & s1 & Eft & HS1 & _).
  unfold table_iter in Hit. unfold tc_NewIterator in *. rewrite Eft in *. cbn [fst] in Hit. apply (iterates_scans (C := IC)) in Hit as (R & c & HFw & HRc). pose proof (fwd_first _ _ HFw _ _ HRc) as HR1.
  match goal with |- context [@scan_loop ?I ?HI ?fu ?it ?st] => destruct (scan_loop_spec (I := I) (HI := HI) (internal_entries vs) R fu 0 it st HFw HR1) as (iter' & -> & Hst); [unfold internal_entries; rewrite length_map; lia|] end.
  rewrite drop_0. pose proof (scan_table n size vs (ro_tables _ _ _ HR _ _ _ Hn)) as Et. destruct (fold_left _ _ _) as [empty t1]. cbn [snd] in Et. rewrite Et, Hst. exists s1. split; [reflexivity|exact HS1].
Qed.

(** All the tables are described. *)
Lemma ExtractMetaData_spec (fuel : nat) (ids : Z) (disk : gmap Z (Z * versions)) (numbers : list Z) (r : Rep) :
  RepOk ids disk r -> (forall n, n ∈ numbers -> is_Some (disk !! n)) -> (forall n size vs, disk !! n = Some (size, vs) -> (length vs <= fuel)%nat) ->
  exists tc ts, ExtractMetaData (C := C) (P := P) slen zstlen sun zun dbname options fuel numbers r = Some (mkRepairer tc (rp_edit r) (rp_manifests r) (rp_table_numbers r) (rp_logs r) (rp_tables r ++ ts) (rp_next_file_number r)) /\
    Store ids (rp_env r) disk tc /\ Forall2 (fun n t => exists size vs, disk !! n = Some (size, vs) /\ t = table_info n size vs) numbers ts.
Proof.
  intros HR Hn Hfuel. revert r HR. induction numbers as [|n numbers IH]; intros r HR.
  - exists (rp_table_cache r), []. rewrite app_nil_r. split_and!; [by destruct r|apply HR|constructor].
  - destruct (Hn n ltac:(by left)) as [[size vs] Hd1]. destruct (ScanTable_spec fuel ids n size vs disk r HR Hd1 ltac:(by eapply Hfuel)) as (tc & Es & HS). cbn [ExtractMetaData]. rewrite Es. cbn [mbind option_bind].
    set (r1 := push_table _ _). assert (rp_env r1 = rp_env r) as Eenv by exact (eq_trans (so_env _ _ _ _ _ _ HS) eq_refl).
    destruct (IH ltac:(intros m Hm; apply Hn; by right) r1) as (tc' & ts & E1 & HS' & Hts).
    + split; [by rewrite Eenv|apply HR|apply HR|apply HR].
    + exists tc', (table_info n size vs :: ts). rewrite E1. split_and!; [|by rewrite <- Eenv|constructor; [by exists size, vs|done]]. cbn. by rewrite <- app_assoc.
Qed.

(** ** The descriptor *)

(** What [SetCurrentFile] leaves behind. *)
Lemma SetCurrentFile_spec (n : Z) (env : E) : num_ok n -> exists env', SetCurrentFile dbname n env = (Ok tt, env') /\ reads env' (CurrentFileName dbname) (current_contents dbname n) /\
  (forall x data, x <> TempFileName dbname n -> x <> CurrentFileName dbname -> reads env x data -> reads env' x data) /\
  (forall x data, x <> TempFileName dbname n -> x <> CurrentFileName dbname -> fs_holds env x data -> fs_holds env' x data).
Proof.
  intros Hn. destruct (children_parse n Hn) as (_ & Ht & _ & Hc). pose proof (child_ne dbname _ _ _ _ Ht Hc ltac:(done)) as Hne. rewrite tmp_child, current_child.
  unfold SetCurrentFile. rewrite tmp_child, current_child. set (tmp := child (numbered n ".dbtmp")) in *. set (cur := child (lit "CURRENT")) in *.
  destruct (fs_NewWritableFile_spec tmp env) as (t & env1 & E1 & Hcont). rewrite E1.
  destruct (wf_Append_spec (current_contents dbname n) t) as (t1 & -> & C1). cbn [or_remove]. destruct (wf_Sync_spec t1) as (t2 & -> & C2). cbn [or_remove]. destruct (wf_Close_spec t2) as (t3 & -> & C3). cbn [or_remove].
  set (env2 := fs_Written tmp t3 env1). destruct (fs_RenameFile_spec tmp cur t3 env1) as (env3 & E3). fold env2 in E3. rewrite E3. cbn [or_remove].
  assert (env1 = snd (fs_NewWritableFile tmp env)) as Ee1 by (by rewrite E1). assert (env3 = snd (fs_RenameFile tmp cur env2)) as Ee3 by (by rewrite E3). exists env3. split_and!; [done| | |].
  - rewrite Ee3. apply fs_RenameFile_reads; [done|]. replace (current_contents dbname n) with (wf_contents t3) by (by rewrite C3, C2, C1, Hcont). apply fs_Written_reads.
  - intros x data Hx1 Hx2 Hr. rewrite Ee3. apply fs_RenameFile_reads_other; [done|done|]. apply fs_Written_reads_other; [done|]. rewrite Ee1. by apply fs_NewWritableFile_reads_other.
  - intros x data Hx1 Hx2 Hr. rewrite Ee3. apply fs_RenameFile_other; [done|done|]. apply fs_Written_other; [done|]. rewrite Ee1. by apply fs_NewWritableFile_other.
Qed.

Lemma RepOk_env (ids : Z) (disk : gmap Z (Z * versions)) (r : Rep) (env : E) :
  RepOk ids disk r -> (forall n data, num_ok n -> fs_holds (rp_env r) (TableFileName dbname n) data -> fs_holds env (TableFileName dbname n) data) -> RepOk ids disk (set_rp_env env r).
Proof.
  intros [HS Hn Hnext Hok] Hf. split; [|done..]. apply (StoreOk_env dbname topts ids (rp_env r)); [done|]. intros n size vs Hdk. eapply on_disk_frame; [|by apply (so_disk _ _ _ _ _ _ HS)].
  intros data. apply Hf. by eapply Hn.
Qed.

Definition manifest_ok (m : bytes) : Prop := plain_name m /\ exists k, ParseFileName m = Some (mkParsedFile k kDescriptorFile).

Lemma archive_manifests (ids : Z) (disk : gmap Z (Z * versions)) (ms : list bytes) (r : Rep) (data : bytes) :
  Forall manifest_ok ms -> RepOk ids disk r -> reads (rp_env r) (child (numbered 1 ".dbtmp")) data ->
  exists env, fold_left (fun r m => ArchiveFile (child m) r) ms r = set_rp_env env r /\ RepOk ids disk (set_rp_env env r) /\ reads env (child (numbered 1 ".dbtmp")) data.
Proof.
  intros Hms. revert r. induction Hms as [|m ms [Hp [k Hk]] Hms IH]; intros r HR Hr.
  - exists (rp_env r). assert (set_rp_env (rp_env r) r = r) as -> by (by destruct r as [[? ? ?]]). done.
  - cbn [fold_left]. destruct (children_parse 1 ltac:(unfold num_ok; lia)) as (_ & Ht & _ & _). destruct (IH (ArchiveFile (child m) r)) as (env & E1 & HR1 & Hr1).
    + apply archive_ok; [done| |done]. intros n y Hn E0. destruct (children_parse n ltac:(by eapply (ro_numbers _ _ _ HR))) as (H1 & _). rewrite E0 in H1. congruence.
    + apply archive_reads; [done|apply tmp_plain; unfold num_ok; lia| |done]. intros E0. rewrite E0 in Ht. congruence.
    + exists env. rewrite E1. rewrite ArchiveFile_env in HR1 |- *. destruct r as [[? ? ?]]. done.
Qed.

(** The descriptor is in place, and the tables still are. *)
Lemma WriteDescriptor_spec (ids : Z) (disk : gmap Z (Z * versions)) (r : Rep) :
  RepOk ids disk r -> Forall manifest_ok (rp_manifests r) ->
  exists r' data o, WriteDescriptor (C := C) (L := L) dbname r = (Ok tt, r') /\ RepOk ids disk r' /\
    reads (rp_env r') (CurrentFileName dbname) (current_contents dbname 1) /\
    reads (rp_env r') (DescriptorFileName dbname 1) data /\ Layout 0 [VersionEdit_EncodeTo (descriptor_edit (C := C) r) []] data o.
Proof.
  intros HR Hms. assert (num_ok 1) as H1 by (unfold num_ok; lia). destruct (children_parse 1 H1) as (_ & Ht & Hmf & Hcu).
  assert (forall n, num_ok n -> child (numbered n ".ldb") <> child (numbered 1 ".dbtmp") /\ child (numbered n ".ldb") <> child (manifest_name 1) /\ child (numbered n ".ldb") <> child (lit "CURRENT")) as Htab.
  { intros n Hn. destruct (children_parse n Hn) as (Hl & _). split_and!; eapply child_ne; done. }
  pose proof (child_ne dbname _ _ _ _ Ht Hmf ltac:(done)) as Htm. pose proof (child_ne dbname _ _ _ _ Ht Hcu ltac:(done)) as Htc. pose proof (child_ne dbname _ _ _ _ Hmf Hcu ltac:(done)) as Hmc.
  unfold WriteDescriptor. rewrite tmp_child, descriptor_child. set (tmp := child (numbered 1 ".dbtmp")) in *.
  destruct (fs_NewWritableFile_spec tmp (rp_env r)) as (file & env1 & E1 & Hfile). rewrite E1. assert (env1 = snd (fs_NewWritableFile tmp (rp_env r))) as Ee1 by (by rewrite E1).
  set (e := descriptor_edit (C := C) (set_rp_env env1 r)). change (descriptor_edit r) with e. set (r1 := set_edit e (set_rp_env env1 r)). change (rp_edit r1) with e.
  destruct (log_holds_add (newWriter file) [] (VersionEdit_EncodeTo e []) (log_holds_new file Hfile)) as (w & -> & HL & _). destruct (wf_Close_spec (dest_ w)) as (f2 & -> & Hf2).
  set (env2 := fs_Written tmp f2 (rp_env r1)). set (r2 := set_rp_env env2 r1).
  assert (RepOk ids disk r2) as HR2.
  { apply RepOk_env.
    - assert (RepOk ids disk (set_rp_env env1 r)) as [? ? ? ?]; [|done]. apply RepOk_env; [done|]. intros n data Hn Hh. rewrite Ee1. apply fs_NewWritableFile_other; [rewrite table_child; by apply Htab|done].
    - intros n data Hn Hh. apply fs_Written_other; [rewrite table_child; by apply Htab|done]. }
  assert (reads (rp_env r2) tmp (wf_contents (dest_ w))) as Hr2 by (rewrite <- Hf2; apply fs_Written_reads).
  change (rp_manifests r2) with (rp_manifests r). destruct (archive_manifests ids disk (rp_manifests r) r2 _ Hms HR2 Hr2) as (env3 & -> & HR3 & Hr3). change (rp_env (set_rp_env env3 r2)) with env3 in *.
  destruct (fs_RenameFile_readable tmp (child (manifest_name 1)) env3 _ Hr3) as (env4 & E4). rewrite E4. assert (env4 = snd (fs_RenameFile tmp (child (manifest_name 1)) env3)) as Ee4 by (by rewrite E4).
  set (r4 := set_rp_env env4 (set_rp_env env3 r2)). change (rp_env r4) with env4. destruct (SetCurrentFile_spec 1 env4 H1) as (env5 & -> & Hc5 & Hr5 & Hh5).
  rewrite tmp_child in Hr5, Hh5. rewrite current_child in Hr5, Hh5. exists (set_rp_env env5 r4), (wf_contents (dest_ w)), (block_offset_ w). split_and!; [done| |exact Hc5| |exact HL].
  - apply RepOk_env; [apply RepOk_env; [done|]|].
    + intros n data Hn Hh. rewrite Ee4. apply fs_RenameFile_other; [rewrite table_child; by apply Htab|rewrite table_child; by apply Htab|done].
    + intros n data Hn Hh. apply Hh5; [rewrite table_child; by apply Htab|rewrite table_child; by apply Htab|done].
  - apply Hr5; [done|done|]. change (rp_env r4) with env4. rewrite Ee4. apply fs_RenameFile_reads; [done|exact Hr3].
Qed.

Context (Hname : zlen (lit (Name (Comparator := C))) < 2 ^ 32).

(** A MANIFEST of one edit that adds files to a new version. *)
Lemma Recover_one (e : VersionEdit) (num nf lg ls : Z) (env : E) (data : bytes) (o : Z) (size : nat) :
  loggable (C := C) e -> ve_deleted_files e = [] -> NoDup (map new_id (ve_new_files e)) ->
  ve_next_file_number e = Some nf -> ve_log_number e = Some lg -> ve_last_sequence e = Some ls -> ve_prev_log_number e = None -> num_ok num ->
  reads env (CurrentFileName dbname) (current_contents dbname num) -> reads env (DescriptorFileName dbname num) data -> Layout 0 [VersionEdit_EncodeTo e []] data o -> (length data <= size)%nat ->
  exists vs, Recover (C := C) dbname size (newVersionSet (W := W)) env = Some (Ok true, vs, env) /\ version_rep (C := C) (current vs) (apply_edit ∅ e) /\
    vs_next_file_number vs = u64 (nf + 1) /\ vs_manifest_file_number vs = nf /\ vs_last_sequence vs = ls /\ vs_log_number vs = lg /\ vs_prev_log_number vs = 0.
Proof.
  intros Hlog Hdel Hnd Hnext Hlg Hls Hpl Hnum (cf & Ecf & Hcf) (mf & Emf & Hmf) HL Hsz. unfold Recover. rewrite Ecf. destruct (current_contents_spec dbname num Hnum) as (name & Ename & Hlen & Epath).
  destruct (sf_Read_spec 1024 cf ltac:(lia)) as (cf' & Ercf & _). rewrite Ercf, Hcf, Ename. cbn [fst]. rewrite ztake_all by (rewrite zlen_app; change (zlen [Byte.x0a]) with 1; lia).
  destruct (Z.eqb_spec (zlen (name ++ [Byte.x0a])) 0) as [Ez|_]; [rewrite zlen_app in Ez; pose proof (zlen_nonneg name); change (zlen [Byte.x0a]) with 1 in Ez; lia|].
  rewrite last_last, bool_decide_eq_true_2 by done. cbn [orb negb]. rewrite removelast_last, Epath, Emf. cbv zeta. rewrite <- Hmf in HL, Hsz.
  destruct (read_all_complete _ mf _ false true size HL Hsz) as (s' & Er). erewrite (recover_loop_read_all [e]); [|by constructor|exact Er]. change (ok StatusOK) with true. cbv iota. cbn [fold_left].
  pose proof (recovered_rep (C := C) (replicate kNumLevels []) e (apply_edit ∅ e) [] ltac:(constructor; [apply Hlog|constructor]) eq_refl Hdel Hnd ltac:(split; [constructor|by intros i ?%not_elem_of_nil])) as Hrec.
  unfold install_recovered. cbn [take_edit rc_next_file rc_log_number rc_last_sequence rc_prev_log_number rc_builder]. rewrite Hnext, Hlg, Hls, Hpl. cbn [or_new]. eexists. split; [reflexivity|]. split_and!; try done.
  unfold current. cbn [vs_versions AppendVersion]. rewrite last_last. apply Finalize_rep. exact Hrec.
Qed.

(** *** The edit of the descriptor *)

Definition described (t : TableInfo) : Z * FileMetaData := (0, ti_meta t).

Definition table_op (t : TableInfo) : VeOp := VAddFile 0 (fm_number (ti_meta t)) (fm_file_size (ti_meta t)) (fm_smallest (ti_meta t)) (fm_largest (ti_meta t)).

Lemma descriptor_edit_ops (r : Rep) : rp_edit r = newVersionEdit ->
  descriptor_edit (C := C) r = fold_left ve_apply ([VComparator (lit (Name (Comparator := C))); VLogNumber 0; VNextFile (rp_next_file_number r); VLastSequence (max_sequence_of (rp_tables r))] ++ map table_op (rp_tables r)) newVersionEdit.
Proof. intros E0. unfold descriptor_edit. rewrite E0, fold_left_app, fold_left_map'. done. Qed.

Lemma descriptor_edit_fields (r : Rep) : rp_edit r = newVersionEdit -> Forall (fun t => fm_allowed_seeks (ti_meta t) = default_allowed_seeks) (rp_tables r) ->
  let e := descriptor_edit (C := C) r in
  ve_comparator e = Some (lit (Name (Comparator := C))) /\ ve_log_number e = Some 0 /\ ve_prev_log_number e = None /\ ve_next_file_number e = Some (rp_next_file_number r) /\
  ve_last_sequence e = Some (max_sequence_of (rp_tables r)) /\ ve_deleted_files e = [] /\ ve_new_files e = map described (rp_tables r).
Proof.
  intros E0 Hs. unfold descriptor_edit. rewrite E0. set (e0 := SetLastSequence _ _). assert (ve_new_files e0 = []) as Hn0 by done.
  assert (forall ts e, Forall (fun t => fm_allowed_seeks (ti_meta t) = default_allowed_seeks) ts ->
    let e' := fold_left add_table ts e in ve_comparator e' = ve_comparator e /\ ve_log_number e' = ve_log_number e /\ ve_prev_log_number e' = ve_prev_log_number e /\ ve_next_file_number e' = ve_next_file_number e /\
    ve_last_sequence e' = ve_last_sequence e /\ ve_deleted_files e' = ve_deleted_files e /\ ve_new_files e' = ve_new_files e ++ map described ts) as Hgo.
  { induction ts as [|t ts IH]; intros e Hts; [cbn; by rewrite app_nil_r|]. apply Forall_cons in Hts as [Ht Hts]. cbn [fold_left]. destruct (IH (add_table e t) Hts) as (-> & -> & -> & -> & -> & -> & ->). split_and!; [done..|].
    cbn. rewrite <- app_assoc. unfold described at 2. destruct (ti_meta t) as [? ? ? ? ?]. cbn in Ht. by rewrite Ht. }
  destruct (Hgo (rp_tables r) e0 Hs) as (-> & -> & -> & -> & -> & -> & ->). by rewrite Hn0.
Qed.

Lemma max_sequence_of_spec (ts : list TableInfo) (m : Z) : let M := fold_left (fun m t => if m <? ti_max_sequence t then ti_max_sequence t else m) ts m in m <= M /\ (forall t, t ∈ ts -> ti_max_sequence t <= M) /\ (forall b, m <= b -> (forall t, t ∈ ts -> ti_max_sequence t <= b) -> M <= b).
Proof.
  revert m. induction ts as [|t ts IH]; intros m; cbn [fold_left]; cbv zeta; [split_and!; [lia|by intros t ?%not_elem_of_nil|done]|]. destruct (IH (if m <? ti_max_sequence t then ti_max_sequence t else m)) as (H1 & H2 & H3).
  assert (m <= (if m <? ti_max_sequence t then ti_max_sequence t else m) /\ ti_max_sequence t <= (if m <? ti_max_sequence t then ti_max_sequence t else m)) as [Ha Hb] by (destruct (Z.ltb_spec m (ti_max_sequence t)); lia). split_and!; [lia| |].
  - intros t' [->|Ht]%elem_of_cons; [lia|by apply H2].
  - intros b Hm Ht. apply H3; [|intros t' Ht'; apply Ht; by right]. specialize (Ht t ltac:(by left)). destruct (Z.ltb_spec m (ti_max_sequence t)); lia.
Qed.

(** ** [FindFiles] *)

(** The numbers of the files of a type, in the order of the listing. *)
Definition found (t : FileType) (names : list bytes) : list Z := omap (fun x => p ← ParseFileName x; if bool_decide (pf_type p = t) then Some (pf_number p) else None) names.

Definition found_manifests (names : list bytes) : list bytes := List.filter (fun x => match ParseFileName x with Some p => bool_decide (pf_type p = kDescriptorFile) | None => false end) names.

(** The numbers that may be in use are below [b]. *)
Definition numbers_below (b : Z) (names : list bytes) : Prop := forall x p, x ∈ names -> ParseFileName x = Some p -> 0 <= pf_number p < b.

Lemma find_files (b : Z) (names : list bytes) (r : Rep) : numbers_below b names -> b < 2 ^ 64 -> 1 <= rp_next_file_number r <= Z.max 1 b ->
  exists next, fold_left (fun r f => find_file f r) names r =
    mkRepairer (rp_table_cache r) (rp_edit r) (rp_manifests r ++ found_manifests names) (rp_table_numbers r ++ found kTableFile names) (rp_logs r ++ found kLogFile names) (rp_tables r) next /\
    rp_next_file_number r <= next <= Z.max 1 b /\ (forall n, n ∈ found kTableFile names -> n < next).
Proof.
  intros Hnum Hb. revert r. induction names as [|x names IH]; intros r Hr.
  - exists (rp_next_file_number r). cbn. rewrite !app_nil_r. split_and!; [by destruct r|lia|lia|by intros n ?%not_elem_of_nil].
  - cbn [fold_left]. assert (numbers_below b names) as Hnum' by (intros y p Hy; apply Hnum; by right). unfold found, found_manifests. cbn [omap list_omap List.filter]. fold (found kTableFile names) (found kLogFile names) (found_manifests names).
    unfold find_file at 2. destruct (ParseFileName x) as [p|] eqn:Ep; cbn [mbind option_bind]; [|by destruct (IH Hnum' r Hr) as (next & -> & ? & ?); exists next].
    pose proof (Hnum x p ltac:(by left) Ep) as Hp. destruct (decide (pf_type p = kDescriptorFile)) as [Ed|Ed].
    + rewrite (bool_decide_eq_true_2 (pf_type p = kDescriptorFile)), (bool_decide_eq_false_2 (pf_type p = kTableFile)), (bool_decide_eq_false_2 (pf_type p = kLogFile)) by (rewrite ?Ed; done).
      destruct (IH Hnum' (push_manifest x r) Hr) as (next & -> & ? & ?). exists next. cbn. rewrite <- app_assoc. done.
    + rewrite (bool_decide_eq_false_2 (pf_type p = kDescriptorFile)) by done. rewrite wrap_small by lia. set (r1 := if _ <? _ then _ else _).
      assert (exists n1, r1 = set_next_number n1 r /\ rp_next_file_number r <= n1 <= Z.max 1 b /\ pf_number p < n1) as (n1 & E1 & Hn1 & Hpn).
      { unfold r1. destruct (Z.ltb_spec (rp_next_file_number r) (pf_number p + 1)); [exists (pf_number p + 1); split_and!; [done|lia|lia|lia]|exists (rp_next_file_number r); split_and!; [by destruct r|lia|lia|lia]]. }
      rewrite E1. destruct (decide (pf_type p = kLogFile)) as [El|El].
      * rewrite (bool_decide_eq_true_2 (pf_type p = kLogFile)), (bool_decide_eq_false_2 (pf_type p = kTableFile)) by (rewrite ?El; done).
        destruct (IH Hnum' (push_log (pf_number p) (set_next_number n1 r)) ltac:(cbn; lia)) as (next & -> & Hnx & Ht). exists next. cbn in *. rewrite <- app_assoc. split_and!; [done|lia|lia|done].
      * rewrite (bool_decide_eq_false_2 (pf_type p = kLogFile)) by done. destruct (decide (pf_type p = kTableFile)) as [Et|Et].
        -- rewrite (bool_decide_eq_true_2 (pf_type p = kTableFile)) by done. destruct (IH Hnum' (push_table_number (pf_number p) (set_next_number n1 r)) ltac:(cbn; lia)) as (next & -> & Hnx & Ht).
           exists next. cbn in *. rewrite <- app_assoc. split_and!; [done|lia|lia|]. intros n [->|Hn]%elem_of_cons; [lia|by apply Ht].
        -- rewrite (bool_decide_eq_false_2 (pf_type p = kTableFile)) by done. destruct (IH Hnum' (set_next_number n1 r) ltac:(cbn; lia)) as (next & -> & Hnx & Ht). exists next. cbn in *. split_and!; [done|lia|lia|done].
Qed.

(** ** The whole repair *)

Lemma described_ids (disk : gmap Z (Z * versions)) (numbers : list Z) (ts : list TableInfo) :
  Forall2 (fun n t => exists size vs, disk !! n = Some (size, vs) /\ t = table_info n size vs) numbers ts -> map new_id (map described ts) = map (fun n => (0%nat, n)) numbers.
Proof. induction 1 as [|n t numbers ts (size & vs & _ & ->) _ IH]; [done|]. cbn [map]. rewrite IH. done. Qed.

Lemma described_elem (disk : gmap Z (Z * versions)) (numbers : list Z) (ts : list TableInfo) (t : TableInfo) :
  numbers_match disk numbers -> Forall2 (fun n t => exists size vs, disk !! n = Some (size, vs) /\ t = table_info n size vs) numbers ts ->
  t ∈ ts <-> exists n size vs, disk !! n = Some (size, vs) /\ t = table_info n size vs.
Proof.
  intros [_ Hm] HF2. split.
  - intros [i Hi]%list_elem_of_lookup. destruct (Forall2_lookup_r _ _ _ _ _ HF2 Hi) as (n & _ & size & vs & Hd1 & ->). eauto.
  - intros (n & size & vs & Hd1 & ->). assert (n ∈ numbers) as Hn by (apply Hm; eauto). apply list_elem_of_lookup in Hn as [i Hi].
    destruct (Forall2_lookup_l _ _ _ _ _ HF2 Hi) as (t & Ht & size' & vs' & Hd2 & ->). apply list_elem_of_lookup. exists i. congruence.
Qed.

Lemma contents_elem (disk : gmap Z (Z * versions)) (pv : ParsedInternalKey * bytes) : pv ∈ contents disk <-> exists n size vs, disk !! n = Some (size, vs) /\ pv ∈ vs.
Proof.
  unfold contents. rewrite list_elem_of_In, in_concat. split.
  - intros (vs & Hv & Hp). apply in_map_iff in Hv as ([n [size vs']] & <- & Hn). apply list_elem_of_In, elem_of_map_to_list in Hn. exists n, size, vs'. split; [done|by apply list_elem_of_In].
  - intros (n & size & vs & Hd1 & Hp). exists vs. split; [|by apply list_elem_of_In]. apply in_map_iff. exists (n, (size, vs)). split; [done|]. by apply list_elem_of_In, elem_of_map_to_list.
Qed.

Lemma contents_length (disk : gmap Z (Z * versions)) (n size : Z) (vs : versions) : disk !! n = Some (size, vs) -> (length vs <= length (contents disk))%nat.
Proof.
  intros Hn. rewrite <- (insert_delete_id disk n (size, vs) Hn). rewrite contents_insert by apply lookup_delete_eq. rewrite length_app. lia.
Qed.

Lemma last_elem_of {A : Type} (l : list A) (x : A) : last l = Some x -> x ∈ l.
Proof. intros Hl. apply last_Some in Hl as [l' ->]. apply elem_of_app. right. by left. Qed.

Lemma table_op_ok (ids : Z) (disk : gmap Z (Z * versions)) (r : Rep) (n size : Z) (vs : versions) : RepOk ids disk r -> disk !! n = Some (size, vs) -> ve_op_ok (table_op (table_info n size vs)).
Proof.
  intros HR Hn. destruct (ro_tables _ _ _ HR _ _ _ Hn) as [Hne Hk]. destruct (on_disk_layout (C := C) (P := P) dbname _ n size vs (so_disk _ _ _ _ _ _ (ro_store _ _ _ HR) _ _ _ Hn)) as (bo & blks & idx & file & _ & HL & _ & ->).
  assert (forall p v, (p, v) ∈ vs -> key_ok (encode_key p)) as Hkey.
  { intros p v Hp. destruct (Hk p v Hp) as [_ Hz]. unfold key_ok. rewrite zlen_encode_key. pose proof (zlen_nonneg (pik_user_key p)). lia. }
  cbn [ve_op_ok table_op table_info table_meta ti_meta fm_number fm_file_size fm_smallest fm_largest]. refine (conj _ (conj _ (conj _ (conj _ _)))).
  - done.
  - exact (ro_numbers _ _ _ HR n _ Hn).
  - pose proof (lo_size _ _ _ _ HL). pose proof (zlen_nonneg (table_image (P := IP) bo blks idx)). unfold num_ok. lia.
  - destruct vs as [|[p v] vs]; [done|]. apply (Hkey p v). by left.
  - destruct (last vs) as [[p v]|] eqn:El; [|by apply last_None in El]. apply (Hkey p v). by apply last_elem_of.
Qed.

Lemma max_seq_ok (vs : versions) : table_ok vs -> 0 <= max_seq vs <= kMaxSequenceNumber.
Proof. intros [_ Hk]. split; [apply max_seq_le|]. apply max_seq_bound; [done|]. intros p v Hp. apply (Hk p v Hp). Qed.

End Spec.

(** ** Witness: a table, a log and a lock file *)

Section Demo.
Abbreviation BC := BytewiseComparator.
Abbreviation bloom := (BloomPolicy 10).
Abbreviation no_len := (fun _ : bytes => @None Z).
Abbreviation no_data := (fun _ : bytes => @None bytes).
Abbreviation DemoDB := (DBImpl MapFS MemFile MemFile (ShardedLRUCache Block) unit).

Definition without_filter : Options := mkOptions true true 65536 1000 4096 16 2097152 kNoCompression false.

Definition repair_table : TableBuilder MemFile :=
  snd (build_table (C := InternalKeyComparator BC) (P := InternalFilterPolicy bloom) (builder_options without_filter) (internal_entries demo_entries) (mkMemFile [])).

Definition repair_log : bytes := mf_data (dest_ (snd (AddRecord (newWriter (mkMemFile [])) (batch_bytes 8 [OpPut (lit "a") (lit "9")])))).

Definition repair_env : MapFS :=
  <[TableFileName (lit "db") 5 := mf_data (tb_file repair_table)]> (<[LogFileName (lit "db") 3 := repair_log]> (<[LockFileName (lit "db") := []]> ∅)).

Definition repair_names : list bytes := match fs_GetChildren (lit "db") repair_env with Ok l => l | Err _ => [] end.

Definition repair_disk : gmap Z (Z * versions) := {[5 := (FileSize repair_table, demo_entries)]}.

Definition repair_logs (n : Z) : Z * list (list WriteOp) := (7, [[OpPut (lit "a") (lit "9")]]).

Definition salvaged : versions := [(mkPIK (lit "a") 8 kTypeValue, lit "9")].

Lemma repair_log_ok : LogFileOk (C := BC) (P := bloom) (E := MapFS) (W := MemFile) (SF := MemFile) (lit "db") without_filter 100 repair_env 3 (repair_logs 3).
Proof.
  split.
  - destruct (log_holds_add (newWriter (mkMemFile [])) [] (batch_bytes 8 [OpPut (lit "a") (lit "9")]) ltac:(apply (log_holds_new (W := MemFile)); reflexivity)) as (w & Ew & HL & _).
    exists repair_log, (block_offset_ w). split_and!.
    + apply MapFS_reads_lookup. unfold repair_env, MapFS. rewrite lookup_insert_ne by (intros E0; vm_compute in E0; discriminate). apply lookup_insert_eq.
    + unfold repair_log. rewrite Ew. exact HL.
    + apply Nat.leb_le. vm_compute. reflexivity.
  - constructor; [|constructor]. split; [split; vm_compute; reflexivity|vm_compute; reflexivity].
  - split; [vm_compute; discriminate|vm_compute; reflexivity].
  - intros D HD _. change (map version_of (log_entries (repair_logs 3))) with salvaged in HD. symmetry in HD. apply Permutation_singleton_l in HD. subst D. intros [data] Hd1. cbn in Hd1. subst data. vm_compute. reflexivity.
Qed.

Lemma MapFS_on_disk (bopts : TableBuilderOptions) (D : versions) (env : MapFS) (n : Z) :
  let b := snd (build_table (C := InternalKeyComparator BC) (P := InternalFilterPolicy bloom) bopts (internal_entries D) (mkMemFile [])) in
  1 <= tbo_block_restart_interval bopts -> keys_sorted (C := InternalKeyComparator BC) (internal_entries D) -> (env : gmap bytes bytes) !! TableFileName (lit "db") n = Some (mf_data (tb_file b)) ->
  zlen (mf_data (tb_file b)) < 2 ^ 32 -> on_disk (W := MemFile) (F := MemFile) (C := BC) (P := bloom) (lit "db") env n (FileSize b) D.
Proof.
  intros b Hri Hs He Hz. exists bopts, (mkMemFile []), (mkMemFile (mf_data (tb_file b))). split_and!; [done|done|done| |done|done|done]. cbn [fs_NewRandomAccessFile MapFS_raf]. by rewrite He.
Qed.

Lemma repair_disk_ok (n size : Z) (vs : versions) : repair_disk !! n = Some (size, vs) ->
  table_ok vs /\ on_disk (W := MemFile) (F := MemFile) (C := BC) (P := bloom) (lit "db") repair_env n size vs.
Proof.
  intros Hn. unfold repair_disk in Hn. apply lookup_singleton_Some in Hn as [En Hn]. apply pair_equal_spec in Hn as [Es Ev]. subst n size vs. split.
  - assert (Forall (fun pv => zlen (pik_user_key (fst pv)) + 8 < 2 ^ 32) demo_entries) as Hk by (unfold demo_entries; repeat (constructor; [vm_compute; reflexivity|]); constructor).
    split; [discriminate|]. intros p v Hp. split; [exact (demo_seqs p v Hp)|]. rewrite Forall_forall in Hk. exact (Hk (p, v) Hp).
  - apply MapFS_on_disk; [vm_compute; discriminate| | |vm_compute; reflexivity].
    + repeat (apply SSorted_cons || apply SSorted_nil || apply Forall_cons || apply Forall_nil || split); vm_compute; reflexivity.
    + unfold repair_env, MapFS. by rewrite lookup_insert_eq.
Qed.


(** ** What lookups answer after a repair *)

Definition opened_with (o : Options) (env : MapFS) : option (Result DemoDB * MapFS) :=
  DB_Open (C := BC) (P := bloom) (E := MapFS) (W := MemFile) (SF := MemFile) (F := MemFile) (L := unit) no_len no_len no_data no_data (lit "db") o 5000 demo_cache env.

Definition run_with (o : Options) (steps : list Step) (d : DemoDB) : option (DemoDB * list Out) :=
  run (C := BC) (P := bloom) (E := MapFS) (W := MemFile) (SF := MemFile) (F := MemFile) no_len no_len no_data no_data (lit "db") o demo_usage steps d.

Definition repaired (o : Options) (env : MapFS) : option (Result unit * MapFS) :=
  RepairDB (C := BC) (P := bloom) (E := MapFS) (W := MemFile) (SF := MemFile) (F := MemFile) (L := unit) (Rnd := unit) no_len no_len no_data no_data (lit "db") o 5000 100 demo_cache env.

(** A new database is used and closed; it is repaired or not, opened again, and read:
    what the last step of its use and the reads show. *)
Definition use_and_open (o : Options) (steps reads : list Step) (repair : bool) : option (option Out * list Out) :=
  '(r0, _) ← opened_with o ∅;
  match r0 with
  | Err _ => None
  | Ok d0 =>
      '(d, os) ← run_with o steps d0;
      '(r1, env) ← (if repair then repaired o (demo_close d) else Some (Ok tt, demo_close d));
      '(r2, _) ← opened_with o env;
      match r1, r2 with
      | Ok _, Ok d2 => '(_, os2) ← run_with o reads d2; Some (last os, os2)
      | _, _ => None
      end
  end.

Definition put_steps (id : Z) (v : string) : list Step := [StWrite id true (Some [OpPut (lit "a") (lit v)]); StRoom; StFinish].
Definition flush_steps (id : Z) : list Step := [StWrite id false None; StRoom; StRoom; StFinish; StBackground 10 None].
Definition compact_steps (id : Z) (level : nat) : list Step := [StManual id level None None; StManualTurn id; StBackground 10 None].
Definition read_a : Step := StGet demo_ro None (lit "a").

(** An example: a repair with a filter policy hides the keys of the logs: the options of the
    repair are not given the filter policy for internal keys, so the filters of the
    tables that it makes hold internal keys, and lookups look for user keys.  A key is
    put and the database is closed; opened again, it has the key.  After a repair with
    the same options, which succeeds, the key is not found.  Without a filter policy
    it is. *)
Example repair_hides_keys :
  use_and_open demo_db_options (put_steps 1 "1") [read_a] false = Some (Some (OutWrite 1 (Ok tt)), [OutGet (Ok (Some (lit "1")))]) /\
  use_and_open demo_db_options (put_steps 1 "1") [read_a] true = Some (Some (OutWrite 1 (Ok tt)), [OutGet (Err (NotFound "not found" ""))]) /\
  use_and_open without_filter (put_steps 1 "1") [read_a] true = Some (Some (OutWrite 1 (Ok tt)), [OutGet (Ok (Some (lit "1")))]).
Proof. split_and!; vm_compute; reflexivity. Qed.

(** An example: a repair can bring back an old value.  A value is put, flushed and compacted to
    level 1; the key is put again and flushed; then level 1 is compacted to level 2, so
    that the old value is in the table with the highest number.  The repair puts every
    table on level 0, where lookups take the first entry they find, by falling file
    number: the database answered the new value, and answers the old one after the
    repair. *)
Example repair_reverts_values :
  let steps := put_steps 1 "1" ++ flush_steps 2 ++ compact_steps 3 0 ++ put_steps 4 "2" ++ flush_steps 5 ++ compact_steps 6 1 ++ [read_a] in
  use_and_open without_filter steps [read_a] false = Some (Some (OutGet (Ok (Some (lit "2")))), [OutGet (Ok (Some (lit "2")))]) /\
  use_and_open without_filter steps [read_a] true = Some (Some (OutGet (Ok (Some (lit "2")))), [OutGet (Ok (Some (lit "1")))]).
Proof. split; vm_compute; reflexivity. Qed.
End Demo.
